(* ===== verification/_CoqProject ===== *)
-Q . S2P
Prelude.v
GoStr.v
GoFloat.v
GoTime.v
Dsl.v
DslFacts.v
DslRoundtrip.v
Graph.v
NodeTypes.v
Workflow.v
Roles.v
State.v
Journal.v
JournalFacts.v
Readiness.v
ReadyFacts.v
Dag.v
DagFacts.v
Vocabulary.v
Effects.v
Globs.v
Cycles.v
Validate.v
ValidSound.v
Permission.v
PermFacts.v
Claims.v
ClaimFacts.v
NodeFile.v
NodeFileFacts.v
GraphOps.v
GraphOpsFacts.v
GraphStore.v
GraphStoreFacts.v
GraphCommit.v
GraphCommitFacts.v
CommitQueue.v
CommitQueueFacts.v
GraphCrud.v
GraphCrudFacts.v
Runs.v
TaskRun.v
AutoPolicy.v
Autopilot.v
GoalFlow.v
Orchestrator.v
AutopilotFacts.v
PassFacts.v
OrchestratorFacts.v
AutopilotGoals.v
Hub.v
RunStore.v
PipeStore.v
Dispatch.v
Staged.v
Start.v
Steps.v
HubSpec.v
StoreSpecs.v
DispatchSpecs.v
CallSpecs.v
DispatchGoals.v
Sidecar.v
SidecarFacts.v
Live.v
LiveDocs.v
LiveOps.v
LiveHub.v
LivePool.v
LiveTurns.v
LiveFacts.v
LiveSlow.v
LiveInv.v
LiveUpdates.v
LiveMembers.v
LiveUploads.v
LiveGoals.v
