(* ===== verification/Prelude.v ===== *)
(** * Nodevas: the board engine, the store's rules, the run hub and live editing, verified

    Nodevas keeps a project as a graph of nodes (graph.yaml) with a run journal
    (run/journal.jsonl) beside it.  People and agents work nodes: a node is
    ready when its condition over other nodes and flags holds, somebody claims
    it, reports a status, and the status is one more journal line.  This library
    models the parts of the Go hub that decide what that means, and proves what
    makes them correct.  All paths below are under src/internal/.

    ** The parts, and where they are

    - The Go runtime.  [Prelude]: outcomes of Go code, tactics, the stable sort.
      [GoStr]: byte strings, UTF-8, package strings, strconv.Quote.  [GoFloat]:
      float64 and strconv.ParseFloat (Flocq-style SpecFloat of the Standard
      Library).  [GoTime]: times in nanoseconds, RFC 3339, dates.  The Unicode
      tables beyond ASCII are the class [GoStr.Unicode].
    - Conditions (engine/dsl).  [Dsl]: syntax tree, lexer, parser, printer,
      evaluator, renaming and pruning.  [DslFacts] and [DslRoundtrip]:
      their lemmas and theorems.
    - The data model.  [Graph] (engine/graph.go): nodes, edges, flags, editor
      data, lookups.  [NodeTypes] (nodetypes.go): what a kind permits.
      [Workflow] (workflow.go, acceptance.go): pipeline stages and acceptance
      criteria.  [Roles] (roles.go, identity/identity.go): agents and their
      capabilities.
    - The run.  [State] (engine/state.go): statuses, events, replay of journal
      lines.  [Journal], [JournalFacts] (store/journal.go, parts of
      store/store.go): the journal on disk, checkpoints, compaction, appends.
    - Readiness.  [Readiness] (engine/ready.go, ComputeStatuses): gates, blocked
      nodes, automatic nodes, the queue.  [ReadyFacts]: theorems.
      [Effects] (engine/effects.go): what a finished node does to the flags.
    - Shared states.  [Vocabulary] (store/workspacedefs.go): the workspace's
      lifecycle states, merged when a graph is loaded, taken out when written.
    - Plans.  [Dag], [DagFacts] (autopilot/dag.go): a goal's tasks and order.
    - Validation.  [Cycles] (findCycles), [Validate] and [ValidSound]
      (engine/validate.go).  [Globs] (engine/globs.go): test-file patterns.
    - The store's rules.  [Permission], [PermFacts] (store/permission.go,
      store/roleperm.go): who may change what.  [Claims], [ClaimFacts]
      (store/claims.go, setStatusLocked of store/store.go): who holds a node.
    - Node documents.  [NodeFile], [NodeFileFacts] (engine/nodefile.go and the
      hydration of store/graph_crud.go): the frontmatter of a node's Markdown.
    - Editing the graph.  [GraphOps] (store/graph_ops.go, applyDependency and the
      rest): one command.  [GraphOpsFacts]: the search for dependency
      cycles.  [GraphStore], [GraphStoreFacts] (store/graph_validate.go,
      graph_cleanup.go, graph_requires_wires.go): repair and validation before a
      graph is stored.  [GraphCommit], [GraphCommitFacts]
      (store/graph_ops_batch.go): many callers' commands in one write.
      [CommitQueue], [CommitQueueFacts]: the queue and its leader, as a step
      relation over threads.  [GraphCrud], [GraphCrudFacts]
      (store/graph_crud.go): automatic ids, creating and deleting nodes.
    - Runs.  [Runs] (runnerwire/, runs/routing.go, sensitive.go, guard.go): the
      records of runs, routing rules, sensitive paths, the executor's guard.
      [TaskRun] (autopilot/derive.go): a task read off its runs.
    - The run hub.  [Hub] (the records of runs/store.go, pipelines.go,
      verdicts.go): stored times, the tables, and the monad [M]
      of a call, which runs between other calls.  [RunStore] (runs/store.go,
      changes.go, verdicts.go, handoff.go, roles_store.go) and [PipeStore]
      (pipelines.go): the statements.  [Dispatch] (dispatcher.go,
      dispatcher_routing.go): offers, [Pump], the end of a pipeline, the next
      step.  [Staged] (dispatcher_staged.go): pipelines under workflow stages.
      [Start] (start.go): a run is started.  [Steps] (dispatcher.go,
      dispatcher_routing.go, handoff.go): what runners report, fallbacks,
      waits, reviews, cancelling.  [HubSpec]: the invariant and what a call may do
      to the tables.  [StoreSpecs]: triples for calls, and those of the store's
      operations.  [DispatchSpecs], [CallSpecs]: the triples of the rest, bottom
      up, and what a Pump holds to; [DispatchGoals]: the guarantees over every
      history of calls.
    - The autopilot.  [AutoPolicy] (policy.go, advisor.go): policies and who
      implements a task.  [Autopilot] (orchestrator.go, sensitive.go): the phases
      of a pass.  [GoalFlow] (goalflow.go): goals under workflow stages.
      [Orchestrator] (orchestrator.go, store.go): the store, whole passes and
      the API's actions.  [AutopilotFacts], [PassFacts],
      [OrchestratorFacts]: lemmas, bottom up; [AutopilotGoals]: the guarantees.
    - Live editing (realtime/).  [Sidecar], [SidecarFacts] (docstore.go): the
      file a session leaves, its names and its codec.  [Live] (hub.go,
      access.go): the hub's state, queues, snapshots' payloads, and the monads
      of a section and of a goroutine.  [LiveDocs] (docsession.go, docstore.go):
      sessions, leaders, saving and recovery.  [LiveOps] (docsession.go): what
      clients do with documents.  [LiveHub] (hub.go, hub_http.go, access.go):
      connections, rooms, locks, news, and what each goroutine runs.
      [LivePool]: goroutines taking turns over one hub, and a rely-guarantee
      logic for them; runs that compute.  [LiveTurns]: turns are given back, and
      what can be stuck.  [LiveFacts]: reading the hub's past, and what sections
      leave alone.  [LiveSlow]: who missed a frame is removed.  [LiveInv]: the
      invariant of one document and of the hub.
      [LiveUpdates], [LiveMembers], [LiveUploads]: that each operation keeps it,
      bottom up.  [LiveGoals]: the guarantees, and where the code does otherwise.

    The parts call each other as the code does: [Claims.ClaimNode] runs the
    checks of [Permission] on the [Graph], asks [Readiness.ComputeReadiness]
    whether the node is ready, applies [Effects.ApplyEffects] when it is done
    and appends the event that [State.ResumeJournal] replays.
    [GraphCommit.applyGraphOpsBatchLocked] runs [GraphOps.applyGraphOp] for each
    command, validates with [GraphStore.ValidateGraphForStorage] and rewrites
    documents with [NodeFile.SyncFrontmatter]; [CommitQueue] decides which calls
    share a batch.  [Orchestrator.run_pass] builds a goal's plan with
    [Dag.buildDAG], reads its tasks' runs with [TaskRun.derive], and asks the
    outside world, [Autopilot.World], to start, merge or cancel runs and to set
    statuses; every such request is recorded as an [Autopilot.Act], in order.
    A call of the hub is a program over [RunStore] and [PipeStore]: a report
    ([Steps.Finish]) writes the row and runs [Steps.afterEnd], which falls back,
    waits, or hands the run to its pipeline ([Steps.advance],
    [Staged.advanceStaged]), whose next run [Dispatch.Submit] offers.

    ** Conventions

    Definitions keep the code's names.  A nil pointer is [None]; a nil slice and
    an empty one are told apart only where the code does.  A returned error is
    [Fail] of an [outcome] or, for a check that returns only an error, [Some]
    refusal; error sentences are left out, their kinds and data are kept.  A
    string is a list of bytes.  A map is a [gmap]; where Go ranges over one, the
    order is [map_to_list]'s and no theorem depends on it.  The store's lock
    makes each store operation atomic: it is a function from the state the lock
    protects to that state and an answer, and what the disk does (whether a
    write succeeds, how many bytes or writes happen before a crash) is an
    argument.  JSON codecs and SHA-256 are parameters; a theorem that needs
    something of them says so in a hypothesis about the values at hand.  The
    run dispatcher, the runner registry and the boards an autopilot talks to are
    a function from the acts so far to their answers, so an answer may depend
    on everything asked before; the guarantees hold for every such function, the
    only assumption ([OrchestratorFacts.real_ids]) being that the dispatcher
    names the runs it starts.

    The run hub is concurrent, so its calls are not atomic.  Before each
    statement of a call the others may have written anything they are allowed
    to ([Hub.e_other]), each statement may fail ([Hub.e_fault]), and what the
    registry, the clock and the budgets say changes with the moment.  The
    triples are rely-guarantee: a call keeps the invariant ([HubSpec.hub_ok])
    and only moves the tables along ([HubSpec.grows]), given that the others do
    ([StoreSpecs.polite]); as every call is shown to, the theorems of
    [DispatchGoals] speak of every interleaving.

    The live hub is concurrent too, over one state in memory.  A goroutine
    ([Live.prog]) is sections, each of which runs under the hub's mutex and is
    a function of the [World] of that moment (the clock, the access checks, the
    disk, the rate limits, whether a client's writer made room), with the
    taking and giving back of a document's turn (lockDocPersistence) in between.
    A removal of a client ([LiveHub.remove]) runs in the goroutine that calls it
    and to its end ([Live.call]); a second removal of the same client waits for
    the first, as sync.Once has it, and Close waits for all of them
    ([Live.await]).  [LivePool.pool_step] lets any goroutine begin or run its
    next section.  The hub keeps a list of what happened, [Live.h_trace], which
    nothing reads: what was sent to whom, for whom there was no room
    ([Spilled]), what was accepted, which files were written ([Saved]) or removed
    ([Erased]), which sessions were retired; the theorems are about it.
    [Thawed] marks that a freeze was lifted while the log was still past its
    line, after which a session may outgrow what its file can hold (a defect).

    ** What is shown

    - Conditions: parsing always ends with a tree or an error; the canonical
      text of a tree parses back to it; renaming rewrites exactly the references
      and pruning removes exactly those; evaluation looks only at what the tree
      mentions.
    - Run state: replay depends on the last valid status event of a node; a
      checkpoint stands in for the prefix it reduced; a torn last record is
      passed over; SetStatus and replay agree; compaction loses nothing wherever
      a crash stops it, and later appends read the same; and, a defect, an
      append after a torn record makes the journal unreadable.  A local
      override of a shared lifecycle state is lost when the graph is written.
    - Readiness: the queue partitions the countable nodes into ready, blocked
      and busy; blocked means open with an unmet condition; automatic nodes
      reach their fixpoint; the blockers named are real; the order is canonical.
    - Plans: a goal's members are those it waits on or tags; the order is
      topological, and the tail is exactly what waits on a cycle.
    - Validation: a graph without errors has valid distinct ids, resolved
      references and acyclic conditions and wires; cycle search reports real
      cycles, and one whenever there is one; type, role, workflow and acceptance
      definitions that pass are sound.
    - Permissions: built-in types and roles cannot be redefined into more; an
      agent stays below its rank; a run works only its own node; the acceptance
      lock holds; staged work is not settled by its worker; people-only work is
      never settled by agents, whatever sequence of writes they try; people are
      never narrowed.
    - Claims, as long as what is there can be read: a live claim excludes
      everyone else through any sequence of their calls; a granted claim is a bounded lease on work that was there to take;
      a report in a holder's name needs the holder's claim and overriding it is
      recorded; a retried request is carried out once; and exactly when a status
      write goes through.
    - Graph edits: no sequence of commands closes a dependency loop; the cycle
      check is exact; batching is invisible when nothing panics or fails (a call
      that panics takes its whole batch with it, a defect); what is stored is well formed; every call queued is
      answered, by one leader at a time, and the queue refines applying whole
      batches atomically; node documents survive a round trip; automatic ids are
      the first free ones; what deleting takes out, and what it leaves as it was;
      creating is all or nothing.
    - Autopilots, over every history of passes and API calls: never more tasks
      at work than the policy allows; one live autopilot per goal; nothing
      merged that is not approved, green and either left to a person or free of
      sensitive changes; only ready work started; failures spread to exactly
      what waits on them; a cancelled autopilot stays over; a policy that passes
      is within its bounds and asks for valid pipelines; and, a defect, a staged
      goal that was done and is reopened stands still.
    - The run hub, over every interleaving and every failing statement: an
      approved pipeline has what was asked for behind it (CI that passed on a
      head the tests ran green at among it); a run moves along its lifecycle and
      its progress stands still once it ended; a cast vote stays; a message goes
      to the run's own runner; rounds and waits are bounded; a Pump never
      overfills a runner when nothing fails; a call that gets the locks others
      hold ends, or waits at the lock of a pipeline it holds itself.  (A call
      that waits for a lock another call never gives back is not followed.)
      Three defects: a review that cannot start
      makes the call wait for itself, a review without its seat decides alone,
      a read that fails at the wrong moment overfills a runner.
    - Live editing, over every interleaving, every failing write and every
      change of access: a document's turn is always given back; a document's
      members are sent every update, or are being removed; an accepted update
      stays in the log or is covered by a snapshot of somebody who had it; the
      tables stay within their bounds and the leader is the lowest member; a
      session goes only after its log was seen to (written, or nothing to write
      or nowhere to write it); what it saves, recovery brings back.  Defects: two
      removals may wait for each other, and shutdown for both; two clients may
      both be told last that they lead; a lock may outlive its client; a
      lifted freeze lets a log grow past what recovery takes; a refused opener
      leaves a session no sweep removes.

    ** Fuel

    Structural recursion is used where Go recurses on data.  Elsewhere a bound
    is passed and proved enough: the lexer's is the length of the source, the
    parser's four times the token count and four more
    ([DslRoundtrip.parse_settles]); the passes over automatic
    nodes are one more than their number ([ReadyFacts.compute_statuses_fixpoint]);
    the depth of the cycle search is one more than the nodes it can meet
    ([Cycles.find_cycles_correct]); the breadth-first search and Kahn's loop run
    at most once per node ([DagFacts.goal_order_topological]), as does the walk
    upstream from a member ([Dag.walk_fuel]); the search of the dependency check
    runs once per id it can meet and once more ([GraphOpsFacts]); the search for
    automatic ids doubles its steps 24 times, more than the seven-digit numbers
    it tries ([GraphCrudFacts.automatic_ids_are_the_first_free]); failures spread
    in at most one round per task ([AutopilotGoals.failures_spread_exactly]); a
    chain of fallbacks is followed once per run of the node; the glob loop
    consumes its pattern.  A run's end may cancel runs whose own end follows;
    two levels are enough, because the second always waits for a lock or has
    nothing to cancel ([DispatchGoals.calls_come_to_an_end]).  Decoding a
    sidecar takes some of the input with every entry, so its length is enough
    ([SidecarFacts.read_entries_spec]); a payload has no more pieces than bytes.

    ** What is not modelled

    The YAML and JSON codecs (third-party or the standard library's), HTTP, the
    database, processes, terminals and the web client; the folders, pages,
    attachments, history and transfers of the store.  Of the graph edits:
    duplicating nodes, subgraphs, the trash and its clean-up, and the
    presentation record kept beside the graph.  Of live editing: the token
    buckets of the rate limits, whose verdict is the World's, the wait to encode
    one large sidecar at a time, the timers' objects (a deadline may pass at any
    time), peers' colours, the socket itself, and the watcher of files.  Of the
    run hub: merge requests
    (merges.go, dispatcher_merge.go), how budgets and costs are added up and
    reset times are read (their answers are arguments), terminals, runners'
    events, the audit trail, the columns only the analytics read, the words of
    refusals; an autopilot sees it through the World.  Of the autopilot: listing
    and viewing, which only read, the index from runs to autopilots, the timer
    that calls Reconcile, and the words of errors from outside.  MoveEvent
    (store/store.go).  SetAcceptance and LockAcceptance are modelled between
    loading the graph and storing it. *)

From stdpp Require Export base list strings gmap sorting relations.
From Stdlib Require Export ZArith Lia.
From Stdlib Require Import Ascii.

(** ** Outcomes of Go code

    [Ok] is a normal return, [Fail] a returned error, [Panic] a run-time panic
    (an index out of range), and [OutOfFuel] the model running out of fuel;
    the development proves the last two unreachable where they can appear. *)
Inductive outcome (E A : Type) : Type :=
  | Ok (a : A)
  | Fail (e : E)
  | Panic
  | OutOfFuel.
Arguments Ok {E A} a.
Arguments Fail {E A} e.
Arguments Panic {E A}.
Arguments OutOfFuel {E A}.

#[export] Instance outcome_ret {E} : MRet (outcome E) := λ A a, Ok a.

#[export] Instance outcome_bind {E} : MBind (outcome E) := λ A B k m,
  match m with
  | Ok a => k a
  | Fail e => Fail e
  | Panic => Panic
  | OutOfFuel => OutOfFuel
  end.

#[export] Instance outcome_fmap {E} : FMap (outcome E) := λ A B f m,
  match m with
  | Ok a => Ok (f a)
  | Fail e => Fail e
  | Panic => Panic
  | OutOfFuel => OutOfFuel
  end.

(** The outcome is a value or an error of the program: no panic, no fuel. *)
Definition settled {E A : Type} (m : outcome E A) : Prop :=
  match m with Ok _ | Fail _ => True | Panic | OutOfFuel => False end.

Lemma bind_ok {E A B} (m : outcome E A) (k : A → outcome E B) (b : B) :
  m ≫= k = Ok b ↔ ∃ a, m = Ok a ∧ k a = Ok b.
Proof. destruct m; simpl; naive_solver. Qed.

(** A check that only refuses, and a loop whose body may refuse. *)
Definition refuse {E} (bad : bool) (e : E) : outcome E unit := if bad then Fail e else Ok tt.

Fixpoint fold_checks {E A S} (f : S → A → outcome E S) (s : S) (xs : list A) : outcome E S :=
  match xs with
  | [] => Ok s
  | x :: xs' => s' ← f s x; fold_checks f s' xs'
  end.

Fixpoint map_checks {E A B} (f : A → outcome E B) (xs : list A) : outcome E (list B) :=
  match xs with
  | [] => Ok []
  | x :: xs' => y ← f x; ys ← map_checks f xs'; Ok (y :: ys)
  end.

Lemma refuse_ok {E} b (e : E) u : refuse b e = Ok u ↔ b = false.
Proof. destruct b, u; simpl; naive_solver. Qed.

Lemma fold_checks_app {E A S} (f : S → A → outcome E S) s xs ys :
  fold_checks f s (xs ++ ys) = (s' ← fold_checks f s xs; fold_checks f s' ys).
Proof. revert s. induction xs as [|x xs IH]; intros s; simpl; [done|]. destruct (f s x); simpl; auto. Qed.

Lemma map_checks_ok {E A B} (f : A → outcome E B) xs ys :
  map_checks f xs = Ok ys ↔ Forall2 (λ x y, f x = Ok y) xs ys.
Proof.
  revert ys. induction xs as [|x xs IH]; intros ys; simpl.
  - split; [by intros [= <-]|by inversion 1].
  - rewrite bind_ok. split.
    + intros (y & Hy & (ys' & Hys & [= <-])%bind_ok). constructor; [done|]. by apply IH.
    + inversion 1; subst. eexists. split; [done|]. apply bind_ok. eexists. split; [by apply IH|done].
Qed.

(** ** Tactics *)

(** Case analysis on the tests of the model: every [match] or [if] in the goal
    or a hypothesis is destructed, with its equation kept. *)
Ltac case_tests :=
  repeat match goal with
         | |- context [match ?x with _ => _ end] => destruct x eqn:?; simplify_eq/=
         | H : context [match ?x with _ => _ end] |- _ => destruct x eqn:?; simplify_eq/=
         end.

(** Boolean tests turned into propositions. *)
Ltac bool_to_prop :=
  repeat match goal with
         | H : _ && _ = true |- _ => apply andb_true_iff in H as [? ?]
         | H : _ || _ = false |- _ => apply orb_false_iff in H as [? ?]
         | H : negb _ = true |- _ => apply negb_true_iff in H
         | H : negb _ = false |- _ => apply negb_false_iff in H
         | H : bool_decide _ = true |- _ => apply bool_decide_eq_true in H
         | H : bool_decide _ = false |- _ => apply bool_decide_eq_false in H
         | H : String.eqb _ _ = true |- _ => apply String.eqb_eq in H
         | H : String.eqb _ _ = false |- _ => apply String.eqb_neq in H
         | H : Nat.eqb _ _ = true |- _ => apply Nat.eqb_eq in H
         | H : Nat.eqb _ _ = false |- _ => apply Nat.eqb_neq in H
         | H : Nat.leb _ _ = true |- _ => apply Nat.leb_le in H
         | H : Nat.leb _ _ = false |- _ => apply Nat.leb_gt in H
         | H : Nat.ltb _ _ = true |- _ => apply Nat.ltb_lt in H
         | H : Nat.ltb _ _ = false |- _ => apply Nat.ltb_ge in H
         | H : Z.leb _ _ = true |- _ => apply Z.leb_le in H
         | H : Z.leb _ _ = false |- _ => apply Z.leb_gt in H
         | H : Z.ltb _ _ = true |- _ => apply Z.ltb_lt in H
         | H : Z.ltb _ _ = false |- _ => apply Z.ltb_ge in H
         end.

(** ** Sorting

    sort.SliceStable: a stable sort by a strict weak order is unique, and this
    one is by insertion. *)
Fixpoint insert_sorted {A} (less : A → A → bool) (x : A) (xs : list A) : list A :=
  match xs with
  | [] => [x]
  | y :: xs' => if less y x then y :: insert_sorted less x xs' else x :: xs
  end.

Definition slice_stable {A} (less : A → A → bool) (xs : list A) : list A := foldr (insert_sorted less) [] xs.

Lemma insert_sorted_perm {A} (less : A → A → bool) x xs : insert_sorted less x xs ≡ₚ x :: xs.
Proof.
  induction xs as [|y xs IH]; simpl; [done|]. destruct (less y x); [|done].
  rewrite IH. by apply Permutation_swap.
Qed.

Lemma slice_stable_perm {A} (less : A → A → bool) xs : slice_stable less xs ≡ₚ xs.
Proof. induction xs as [|x xs IH]; simpl; [done|]. by rewrite insert_sorted_perm, IH. Qed.

(** Sorted, for every preorder the test decides up to ties. *)
Section Sorted.
Context {A : Type} (less : A → A → bool) (le : A → A → Prop).
Context (Htrans : ∀ a b c, le a b → le b c → le a c).
Context (Hlt : ∀ a b, less a b = true → le a b) (Hge : ∀ a b, less b a = false → le a b).

Lemma insert_sorted_sorted x xs : StronglySorted le xs → StronglySorted le (insert_sorted less x xs).
Proof using Htrans Hlt Hge.
  induction xs as [|y xs IH]; intros Hs; simpl; [by repeat constructor|].
  apply StronglySorted_inv in Hs as [Hs Hy]. destruct (less y x) eqn:E.
  - constructor; [by apply IH|]. rewrite insert_sorted_perm. constructor; [by apply Hlt|done].
  - constructor; [by constructor|]. constructor; [by apply Hge|].
    eapply Forall_impl; [apply Hy|]. intros z. apply Htrans. by apply Hge.
Qed.

Lemma slice_stable_sorted xs : StronglySorted le (slice_stable less xs).
Proof using Htrans Hlt Hge. induction xs as [|x xs IH]; simpl; [constructor|]. by apply insert_sorted_sorted. Qed.
End Sorted.

Lemma elem_of_list_filter {A} (f : A → bool) xs x : x ∈ List.filter f xs ↔ f x = true ∧ x ∈ xs.
Proof. rewrite !list_elem_of_In, List.filter_In. naive_solver. Qed.

Lemma NoDup_filter_bool {A} (f : A → bool) xs : NoDup xs → NoDup (List.filter f xs).
Proof.
  induction 1 as [|x xs Hx Hnd IH]; simpl; [constructor|]. destruct (f x); [|done].
  constructor; [|done]. by rewrite elem_of_list_filter; intros [??].
Qed.

(** Fewer steps reach less. *)
Lemma tc_mono {A} (R R' : relation A) x y : (∀ a b, R' a b → R a b) → tc R' x y → tc R x y.
Proof. intros Hsub. induction 1; [by apply tc_once, Hsub|]. eapply tc_l; [by apply Hsub|done]. Qed.
