(* ===== verification/GoStr.v ===== *)
(** Go's strings as the engine uses them: byte strings with UTF-8 decoding
    (package [unicode/utf8]), and the functions of package [strings] and
    [strconv] the modelled code calls.  The Unicode tables beyond ASCII are a
    class, so that every definition that lower-cases or quotes text is stated
    for whatever tables the Go toolchain ships. *)

From S2P Require Import Prelude.
From Stdlib Require Import Ascii.
Open Scope Z_scope.

(** The tables of package [unicode], for code points from 128 up (ToLower),
    from 256 up (IsPrint), and the least code point of each orbit of SimpleFold. *)
Class Unicode := {
  table_lower : Z → Z;
  table_print : Z → bool;
  table_fold : Z → Z;
}.

(** ** Bytes *)

Definition byte_val (c : ascii) : Z := Z.of_N (N_of_ascii c).
Definition byte_of (z : Z) : ascii := ascii_of_N (Z.to_N z).

Definition in_range (lo hi z : Z) : bool := (lo <=? z) && (z <=? hi).

Fixpoint str_drop (n : nat) (s : string) : string :=
  match n, s with
  | S n', String _ s' => str_drop n' s'
  | _, _ => s
  end.

Fixpoint str_take (n : nat) (s : string) : string :=
  match n, s with
  | S n', String c s' => String c (str_take n' s')
  | _, _ => EmptyString
  end.

Definition str_of_char (c : ascii) : string := String c EmptyString.

Fixpoint str_all (f : ascii → bool) (s : string) : bool :=
  match s with
  | EmptyString => true
  | String c s' => f c && str_all f s'
  end.

Fixpoint str_any (f : ascii → bool) (s : string) : bool :=
  match s with
  | EmptyString => false
  | String c s' => f c || str_any f s'
  end.

(** strings.ContainsRune for an ASCII byte. *)
Definition has_char (c : ascii) (s : string) : bool := str_any (Ascii.eqb c) s.

(** strings.ContainsAny with ASCII characters. *)
Definition contains_any (s chars : string) : bool :=
  str_any (λ c, has_char c chars) s.

(** ** Prefixes, suffixes, substrings *)

(** strings.HasPrefix s p. *)
Fixpoint has_prefix (s p : string) : bool :=
  match p, s with
  | EmptyString, _ => true
  | String a p', String b s' => Ascii.eqb a b && has_prefix s' p'
  | _, EmptyString => false
  end.

(** strings.CutPrefix s p. *)
Definition cut_prefix (s p : string) : option string :=
  if has_prefix s p then Some (str_drop (String.length p) s) else None.

(** strings.TrimPrefix s p. *)
Definition trim_prefix (s p : string) : string := default s (cut_prefix s p).

(** strings.HasSuffix s p. *)
Definition has_suffix (s p : string) : bool :=
  (String.length p <=? String.length s)%nat &&
  String.eqb (str_drop (String.length s - String.length p) s) p.

(** strings.Index s sub, [None] for -1. *)
Fixpoint str_index (s sub : string) : option nat :=
  if has_prefix s sub then Some O
  else match s with
       | EmptyString => None
       | String _ s' => S <$> str_index s' sub
       end.

(** strings.Contains s sub. *)
Definition str_contains (s sub : string) : bool :=
  match str_index s sub with Some _ => true | None => false end.

(** strings.Split s (one-byte separator). *)
Fixpoint split_char (sep : ascii) (s : string) : list string :=
  match s with
  | EmptyString => [EmptyString]
  | String c s' =>
      if Ascii.eqb c sep then EmptyString :: split_char sep s'
      else match split_char sep s' with
           | x :: xs => String c x :: xs
           | [] => [str_of_char c]
           end
  end.

(** strings.Join xs sep. *)
Fixpoint str_join (xs : list string) (sep : string) : string :=
  match xs with
  | [] => EmptyString
  | [x] => x
  | x :: xs' => x +:+ sep +:+ str_join xs' sep
  end.

(** ** UTF-8 *)

Definition rune_error : Z := 65533.
Definition cont_byte (z : Z) : bool := in_range 128 191 z.

(** utf8.DecodeRuneInString: the first rune and its width; an invalid
    encoding is [rune_error] of width 1. *)
Definition decode_rune (s : string) : Z * nat :=
  let bad := (rune_error, 1%nat) in
  match s with
  | EmptyString => (rune_error, 0%nat)
  | String c0 r0 =>
      let b0 := byte_val c0 in
      if b0 <? 128 then (b0, 1%nat)
      else if in_range 194 223 b0 then
        match r0 with
        | String c1 _ =>
            let b1 := byte_val c1 in
            if cont_byte b1 then ((b0 - 192) * 64 + (b1 - 128), 2%nat) else bad
        | _ => bad
        end
      else if in_range 224 239 b0 then
        match r0 with
        | String c1 (String c2 _) =>
            let b1 := byte_val c1 in
            let b2 := byte_val c2 in
            let lo := if b0 =? 224 then 160 else 128 in
            let hi := if b0 =? 237 then 159 else 191 in
            if in_range lo hi b1 && cont_byte b2
            then ((b0 - 224) * 4096 + (b1 - 128) * 64 + (b2 - 128), 3%nat)
            else bad
        | _ => bad
        end
      else if in_range 240 244 b0 then
        match r0 with
        | String c1 (String c2 (String c3 _)) =>
            let b1 := byte_val c1 in
            let b2 := byte_val c2 in
            let b3 := byte_val c3 in
            let lo := if b0 =? 240 then 144 else 128 in
            let hi := if b0 =? 244 then 143 else 191 in
            if in_range lo hi b1 && cont_byte b2 && cont_byte b3
            then ((b0 - 240) * 262144 + (b1 - 128) * 4096 + (b2 - 128) * 64 + (b3 - 128), 4%nat)
            else bad
        | _ => bad
        end
      else bad
  end.

(** The runes of a string with their first byte and width, in order, as
    [for range] visits them; [skip] bytes of the current rune remain. *)
Fixpoint runes_from (skip : nat) (s : string) : list (Z * nat * ascii) :=
  match s with
  | EmptyString => []
  | String c s' =>
      match skip with
      | S k => runes_from k s'
      | O => let '(r, w) := decode_rune s in (r, w, c) :: runes_from (w - 1) s'
      end
  end.

Definition runes (s : string) : list Z := (λ x, x.1.1) <$> runes_from 0 s.

(** utf8.RuneCountInString, and len([]rune(s)). *)
Definition rune_count (s : string) : nat := length (runes s).

(** utf8.AppendRune. *)
Definition encode_rune (r : Z) : string :=
  let b x := byte_of x in
  let r := if in_range 55296 57343 r || (1114111 <? r) || (r <? 0) then rune_error else r in
  if r <? 128 then str_of_char (b r)
  else if r <? 2048 then String (b (192 + r / 64)) (str_of_char (b (128 + r mod 64)))
  else if r <? 65536 then
    String (b (224 + r / 4096))
      (String (b (128 + (r / 64) mod 64)) (str_of_char (b (128 + r mod 64))))
  else
    String (b (240 + r / 262144))
      (String (b (128 + (r / 4096) mod 64))
        (String (b (128 + (r / 64) mod 64)) (str_of_char (b (128 + r mod 64))))).

(** ** Lower and upper case *)

(** strings.ToLower: unicode.ToLower on every rune, an invalid byte becoming
    the replacement character. *)
Definition lower_rune `{Unicode} (r : Z) : Z :=
  if r <? 128 then (if in_range 65 90 r then r + 32 else r) else table_lower r.

Fixpoint concat_str (xs : list string) : string :=
  match xs with
  | [] => EmptyString
  | x :: xs' => x +:+ concat_str xs'
  end.

Definition to_lower `{Unicode} (s : string) : string :=
  concat_str ((λ r, encode_rune (lower_rune r)) <$> runes s).

(** strings.EqualFold: two ASCII runes by case, others by their orbit. *)
Definition fold_rune_eq `{Unicode} (a b : Z) : bool :=
  (a =? b) || (if (a <? 128) && (b <? 128) then lower_rune a =? lower_rune b else table_fold a =? table_fold b).

Fixpoint fold_eq `{Unicode} (a b : list Z) : bool :=
  match a, b with
  | [], [] => true
  | x :: a', y :: b' => fold_rune_eq x y && fold_eq a' b'
  | _, _ => false
  end.

Definition EqualFold `{Unicode} (s t : string) : bool := fold_eq (runes s) (runes t).

(** ** White space *)

Definition ascii_space (c : ascii) : bool :=
  let z := byte_val c in in_range 9 13 z || (z =? 32).

(** The two- and three-byte encodings of the other white-space runes:
    U+0085, U+00A0, U+1680, U+2000..U+200A, U+2028, U+2029, U+202F, U+205F,
    U+3000. *)
Definition space2 (a b : ascii) : bool :=
  (byte_val a =? 194) && ((byte_val b =? 133) || (byte_val b =? 160)).

Definition space3 (a b c : ascii) : bool :=
  let x := byte_val a in
  let y := byte_val b in
  let z := byte_val c in
  ((x =? 225) && (y =? 154) && (z =? 128)) ||
  ((x =? 226) && (y =? 128) && (in_range 128 138 z || (z =? 168) || (z =? 169) || (z =? 175))) ||
  ((x =? 226) && (y =? 129) && (z =? 159)) ||
  ((x =? 227) && (y =? 128) && (z =? 128)).

Fixpoint trim_spaces (is2 : ascii → ascii → bool) (is3 : ascii → ascii → ascii → bool)
    (s : string) : string :=
  match s with
  | EmptyString => EmptyString
  | String a s1 =>
      if ascii_space a then trim_spaces is2 is3 s1
      else match s1 with
           | String b s2 =>
               if is2 a b then trim_spaces is2 is3 s2
               else match s2 with
                    | String c s3 => if is3 a b c then trim_spaces is2 is3 s3 else s
                    | EmptyString => s
                    end
           | EmptyString => s
           end
  end.

(** strings.TrimSpace: the runs of white-space runes at both ends go; the
    right end is read backwards, so its encodings are reversed. *)
Definition trim_space (s : string) : string :=
  let left := trim_spaces space2 space3 s in
  String.rev (trim_spaces (λ b a, space2 a b) (λ c b a, space3 a b c) (String.rev left)).

(** ** Quoting *)

Definition dquote : ascii := "034"%char.
Definition squote : ascii := "039"%char.
Definition backslash : ascii := "092"%char.

(** strconv.IsPrint. *)
Definition is_print `{Unicode} (r : Z) : bool :=
  if r <=? 255 then
    in_range 32 126 r || ((161 <=? r) && negb (r =? 173))
  else table_print r.

Definition hex_digit (z : Z) : ascii := byte_of (if z <? 10 then 48 + z else 87 + z).

Fixpoint hex_pad (n : nat) (z : Z) : string :=
  match n with
  | O => EmptyString
  | S n' => hex_pad n' (z / 16) +:+ str_of_char (hex_digit (z mod 16))
  end.

(** strconv.appendEscapedRune, and the invalid-byte case of appendQuotedWith. *)
Definition quote_rune `{Unicode} (x : Z * nat * ascii) : string :=
  let '(r, w, c) := x in
  let esc s := String backslash s in
  if (r =? rune_error) && (w =? 1)%nat then esc (String "x" (hex_pad 2 (byte_val c)))
  else if (r =? 34) || (r =? 92) then esc (encode_rune r)
  else if is_print r then encode_rune r
  else if r =? 7 then esc "a"
  else if r =? 8 then esc "b"
  else if r =? 12 then esc "f"
  else if r =? 10 then esc "n"
  else if r =? 13 then esc "r"
  else if r =? 9 then esc "t"
  else if r =? 11 then esc "v"
  else if (r <? 32) || (r =? 127) then esc (String "x" (hex_pad 2 r))
  else if r <? 65536 then esc (String "u" (hex_pad 4 r))
  else esc (String "U" (hex_pad 8 r)).

(** strconv.Quote. *)
Definition quote `{Unicode} (s : string) : string :=
  String dquote (concat_str (quote_rune <$> runes_from 0 s) +:+ str_of_char dquote).

#[global] Arguments quote {_} _ : simpl never.

(** A toolchain whose tables know no letter and no printable rune outside
    Latin 1, for the concrete examples. *)
#[export] Instance ascii_tables : Unicode | 100 :=
  {| table_lower := λ r, r; table_print := λ _, false; table_fold := λ r, r |}.

(** ** Appending *)

Lemma str_app_assoc (a b c : string) : (a +:+ b) +:+ c = a +:+ (b +:+ c).
Proof. induction a as [|x a IH]; [done|]. change (String x ((a +:+ b) +:+ c) = String x (a +:+ b +:+ c)). by rewrite IH. Qed.

Lemma str_app_nil_r (a : string) : a +:+ EmptyString = a.
Proof. induction a as [|x a IH]; [done|]. change (String x (a +:+ EmptyString) = String x a). by rewrite IH. Qed.

Lemma str_length_app (a b : string) : String.length (a +:+ b) = (String.length a + String.length b)%nat.
Proof. induction a as [|x a IH]; [done|]. change (S (String.length (a +:+ b)) = S (String.length a + String.length b)). by rewrite IH. Qed.

Lemma str_app_cons c (a b : string) : String c a +:+ b = String c (a +:+ b).
Proof. done. Qed.

Lemma str_app_nil_l (b : string) : EmptyString +:+ b = b.
Proof. done. Qed.

Create Rewrite HintDb gostr.
#[export] Hint Rewrite str_app_assoc str_app_cons str_app_nil_l str_app_nil_r str_length_app : gostr.

Lemma rev_app_spec (a b : string) : String.rev_app a b = String.rev a +:+ b.
Proof.
  unfold String.rev. revert b. induction a as [|x a IH]; intros b; [done|]. simpl.
  rewrite (IH (String x b)), (IH (String x EmptyString)), str_app_assoc. done.
Qed.

Lemma rev_cons x (a : string) : String.rev (String x a) = String.rev a +:+ str_of_char x.
Proof. unfold String.rev at 1. simpl. apply rev_app_spec. Qed.

Lemma rev_app_distr (a b : string) : String.rev (a +:+ b) = String.rev b +:+ String.rev a.
Proof.
  induction a as [|x a IH]; [by rewrite str_app_nil_r|].
  rewrite str_app_cons, !rev_cons, IH, str_app_assoc. done.
Qed.

Lemma rev_involutive (a : string) : String.rev (String.rev a) = a.
Proof. induction a as [|x a IH]; [done|]. rewrite rev_cons, rev_app_distr, IH. done. Qed.

Lemma str_drop_app n (a b : string) : str_drop (String.length a + n) (a +:+ b) = str_drop n b.
Proof. by induction a as [|c a IH]. Qed.

Lemma has_suffix_app_intro (a p : string) : has_suffix (a +:+ p) p = true.
Proof.
  unfold has_suffix. rewrite str_length_app. apply andb_true_iff. split; [apply Nat.leb_le; lia|].
  rewrite Nat.add_sub, <- (Nat.add_0_r (String.length a)), str_drop_app. destruct p; apply String.eqb_refl.
Qed.

(** A one-byte suffix is that of the last non-empty part. *)
Lemma has_suffix_app_char (a b : string) c :
  b ≠ EmptyString → has_suffix (a +:+ b) (str_of_char c) = has_suffix b (str_of_char c).
Proof.
  intros Hb. unfold has_suffix. rewrite str_length_app. change (String.length (str_of_char c)) with 1%nat.
  assert (1 <= String.length b)%nat as Hl by (destruct b; simpl; [done|lia]).
  rewrite (proj2 (Nat.leb_le 1 (String.length b))) by done.
  rewrite (proj2 (Nat.leb_le 1 (String.length a + String.length b))) by lia.
  rewrite <- Nat.add_sub_assoc by done. by rewrite str_drop_app.
Qed.

(** ** Trimming twice *)

Section Trim.
Variable is2 : ascii → ascii → bool.
Variable is3 : ascii → ascii → ascii → bool.

(** The string starts with a white-space rune. *)
Definition starts_space (s : string) : bool :=
  match s with
  | EmptyString => false
  | String a s1 =>
      ascii_space a ||
      match s1 with
      | String b s2 =>
          is2 a b || match s2 with String c _ => is3 a b c | EmptyString => false end
      | EmptyString => false
      end
  end.

Lemma trim_spaces_id s : starts_space s = false → trim_spaces is2 is3 s = s.
Proof.
  destruct s as [|a [|b [|c s]]]; simpl; intros Hs; try done.
  - rewrite orb_false_r in Hs. by rewrite Hs.
  - apply orb_false_iff in Hs as [-> Hs]. rewrite orb_false_r in Hs. by rewrite Hs.
  - apply orb_false_iff in Hs as [-> [-> ->]%orb_false_iff]. done.
Qed.

(** The result is a suffix that starts with no white space. *)
Lemma trim_spaces_suffix s :
  starts_space (trim_spaces is2 is3 s) = false ∧ ∃ p, s = p +:+ trim_spaces is2 is3 s.
Proof.
  remember (String.length s) as n eqn:Hn. revert s Hn.
  induction (lt_wf n) as [n _ IH]. intros s ->.
  destruct (starts_space s) eqn:Es; [|rewrite trim_spaces_id by done; split; [done|by exists EmptyString]].
  assert (Hstep : ∃ p s', s = p +:+ s' ∧ (String.length s' < String.length s)%nat ∧
                          trim_spaces is2 is3 s = trim_spaces is2 is3 s').
  { destruct s as [|a s1]; [done|]. cbn [trim_spaces starts_space] in *.
    destruct (ascii_space a); [exists (str_of_char a), s1; simpl; split_and!; [done|lia|done]|].
    destruct s1 as [|b s2]; [done|]. simpl in Es.
    destruct (is2 a b); [exists (String a (str_of_char b)), s2; simpl; split_and!; [done|lia|done]|].
    destruct s2 as [|c s3]; [done|]. simpl in Es. rewrite Es.
    exists (String a (String b (str_of_char c))), s3. simpl. split_and!; [done|lia|done]. }
  destruct Hstep as (p & s' & -> & Hl & ->).
  destruct (IH (String.length s') Hl s' eq_refl) as [Hst (q & Hq)]. split; [done|].
  exists (p +:+ q). rewrite str_app_assoc. by rewrite <- Hq.
Qed.

Lemma starts_space_app s t : starts_space (s +:+ t) = false → starts_space s = false.
Proof.
  destruct s as [|a [|b [|c s]]]; simpl; try done; rewrite ?orb_false_iff; naive_solver.
Qed.
End Trim.

Lemma trim_space_idem s : trim_space (trim_space s) = trim_space s.
Proof.
  unfold trim_space.
  destruct (trim_spaces_suffix space2 space3 s) as [Hleft _].
  set (left := trim_spaces space2 space3 s) in *.
  destruct (trim_spaces_suffix (λ b a, space2 a b) (λ c b a, space3 a b c) (String.rev left)) as [Hright (p & Hp)].
  set (t := trim_spaces (λ b a, space2 a b) (λ c b a, space3 a b c) (String.rev left)) in *.
  assert (Hst : starts_space space2 space3 (String.rev t) = false).
  { apply (starts_space_app _ _ _ (String.rev p)). rewrite <- rev_app_distr, <- Hp, rev_involutive. done. }
  rewrite (trim_spaces_id _ _ _ Hst), rev_involutive. by rewrite trim_spaces_id.
Qed.
