(* ===== verification/GoFloat.v ===== *)
(** Go's float64 as IEEE 754 binary64 data ([spec_float] with 53 bits of
    precision), its comparisons and sum, and strconv.ParseFloat: the grammar
    of Go floating-point literals and the correctly rounded value. *)

From S2P Require Import Prelude GoStr.
From Stdlib Require Import Ascii.
From Stdlib Require Export SpecFloat.
Open Scope Z_scope.

(** ** Values *)

Abbreviation float64 := spec_float (only parsing).

Definition f_of_int (z : Z) : float64 := binary_normalize 53 1024 z 0 false.
Definition f_zero : float64 := S754_zero false.
Definition f_one : float64 := f_of_int 1.

Definition f_eqb (a b : float64) : bool :=
  match SFcompare a b with Some Eq => true | _ => false end.
Definition f_ltb (a b : float64) : bool :=
  match SFcompare a b with Some Lt => true | _ => false end.
Definition f_leb (a b : float64) : bool :=
  match SFcompare a b with Some Lt | Some Eq => true | _ => false end.

Definition f_add (a b : float64) : float64 := SFadd 53 1024 a b.
Definition f_neg (a : float64) : float64 := SFopp a.

Definition is_inf (a : float64) : bool :=
  match a with S754_infinity _ => true | _ => false end.
Definition is_nan (a : float64) : bool :=
  match a with S754_nan => true | _ => false end.

(** ** strconv.ParseFloat *)

Definition is_digit (c : ascii) : bool := in_range 48 57 (byte_val c).

(** The byte lowered as strconv.lower does: [c | ('x' - 'X')]. *)
Definition lower_byte (c : ascii) : Z := Z.lor (byte_val c) 32.

Definition digit_value (base : Z) (c : ascii) : option Z :=
  if is_digit c then Some (byte_val c - 48)
  else if (base =? 16) && in_range 97 102 (lower_byte c) then Some (lower_byte c - 87)
  else None.

(** The state of readFloat's digit loop. *)
Record mantissa := Mantissa {
  mant : Z;            (* the digits read, as an integer *)
  frac : Z;            (* how many of them follow the point *)
  saw_dot : bool;
  saw_digit : bool;
  underscores : bool;
}.

Fixpoint read_digits (base : Z) (m : mantissa) (s : string) : mantissa * string :=
  match s with
  | EmptyString => (m, s)
  | String c s' =>
      if Ascii.eqb c "_" then
        read_digits base (Mantissa (mant m) (frac m) (saw_dot m) (saw_digit m) true) s'
      else if Ascii.eqb c "." then
        if saw_dot m then (m, s)
        else read_digits base (Mantissa (mant m) (frac m) true (saw_digit m) (underscores m)) s'
      else match digit_value base c with
           | Some d =>
               read_digits base
                 (Mantissa (mant m * base + d) (if saw_dot m then frac m + 1 else frac m)
                    (saw_dot m) true (underscores m)) s'
           | None => (m, s)
           end
  end.

(** The exponent's digits; the value stops growing at 10000, as in readFloat. *)
Fixpoint read_exp (e : Z) (us : bool) (s : string) : Z * bool * string :=
  match s with
  | String c s' =>
      if Ascii.eqb c "_" then read_exp e true s'
      else if is_digit c then
        read_exp (if e <? 10000 then e * 10 + (byte_val c - 48) else e) us s'
      else (e, us, s)
  | EmptyString => (e, us, s)
  end.

(** strconv.underscoreOK: underscores only between digits (a base prefix
    counts as a digit). [saw]: 0 a digit, 1 an underscore, 2 anything else. *)
Fixpoint underscore_ok_from (hex : bool) (saw : nat) (s : string) : bool :=
  match s with
  | EmptyString => negb (saw =? 1)%nat
  | String c s' =>
      if is_digit c || (hex && in_range 97 102 (lower_byte c)) then underscore_ok_from hex 0 s'
      else if Ascii.eqb c "_" then (saw =? 0)%nat && underscore_ok_from hex 1 s'
      else negb (saw =? 1)%nat && underscore_ok_from hex 2 s'
  end.

Definition base_prefix (s : string) : option ascii :=
  match s with
  | String z (String c _) =>
      if Ascii.eqb z "0" && ((lower_byte c =? 98) || (lower_byte c =? 111) || (lower_byte c =? 120))
      then Some c else None
  | _ => None
  end.

Definition underscore_ok (s : string) : bool :=
  match base_prefix s with
  | Some c => underscore_ok_from (lower_byte c =? 120) 0 (str_drop 2 s)
  | None => underscore_ok_from false 2 s
  end.

(** The correctly rounded value of [m * base^-frac * (10 or 2)^e]. *)
Definition decimal_value (neg : bool) (m e : Z) : float64 :=
  match m with
  | Zpos p =>
      if 0 <=? e then
        match m * 10 ^ e with
        | Zpos q => binary_round 53 1024 neg q 0
        | _ => S754_zero neg
        end
      else
        let '(mz, ez, lz) := SFdiv_core_binary 53 1024 (Zpos p) 0 (10 ^ (- e)) 0 in
        binary_round_aux 53 1024 neg mz ez lz
  | _ => S754_zero neg
  end.

Definition hex_value (neg : bool) (m e : Z) : float64 :=
  match m with
  | Zpos p => binary_round 53 1024 neg p e
  | _ => S754_zero neg
  end.

Definition ascii_lower (s : string) : string :=
  concat_str ((λ c, str_of_char (if in_range 65 90 (byte_val c) then byte_of (byte_val c + 32) else c))
                <$> String.list_ascii_of_string s).

Definition split_sign (s : string) : bool * bool * string :=
  match s with
  | String c s' =>
      if Ascii.eqb c "-" then (true, true, s')
      else if Ascii.eqb c "+" then (false, true, s')
      else (false, false, s)
  | EmptyString => (false, false, s)
  end.

(** A finite literal: mantissa, optional exponent (compulsory in base 16),
    nothing after it; an infinite result is the range error. *)
Definition read_float (neg : bool) (s : string) : option float64 :=
  let hex := match s with
             | String z (String c _) => Ascii.eqb z "0" && (lower_byte c =? 120)
             | _ => false
             end in
  let base := if hex then 16 else 10 in
  let '(m, rest) := read_digits base (Mantissa 0 0 false false false)
                      (if hex then str_drop 2 s else s) in
  let finish e us rest :=
    match rest with
    | EmptyString =>
        if us && negb (underscore_ok s) then None
        else let v := if hex then hex_value neg (mant m) (e - 4 * frac m)
                      else decimal_value neg (mant m) (e - frac m) in
             if is_inf v then None else Some v
    | _ => None
    end in
  if negb (saw_digit m) then None
  else match rest with
       | String c rest' =>
           if lower_byte c =? (if hex then 112 else 101) then
             let '(eneg, _, digits) := split_sign rest' in
             match digits with
             | String d _ =>
                 if is_digit d then
                   let '(e, us, rest'') := read_exp 0 (underscores m) digits in
                   finish (if eneg : bool then - e else e) us rest''
                 else None
             | EmptyString => None
             end
           else None
       | EmptyString => if hex then None else finish 0 (underscores m) rest
       end.

(** strconv.ParseFloat(s, 64); [None] is the error. *)
Definition parse_float (s : string) : option float64 :=
  let '(neg, signed, body) := split_sign s in
  let word := ascii_lower body in
  if String.eqb word "inf" || String.eqb word "infinity" then Some (S754_infinity neg)
  else if negb signed && String.eqb word "nan" then Some S754_nan
  else read_float neg body.
