(* ===== verification/GoTime.v ===== *)
(** Go's package time as the modelled code uses it: a time is a number of
    nanoseconds since 1970 UTC, formatted as RFC 3339 in UTC, and dates are
    checked against the layout 2006-01-02. *)

From S2P Require Import Prelude GoStr GoFloat.
From stdpp Require Import pretty.
From Stdlib Require Import Ascii.
Open Scope Z_scope.

Definition nanosecond : Z := 1.
Definition second : Z := 1000000000.
Definition minute : Z := 60 * second.
Definition hour : Z := 60 * minute.

(** Days since 1970-01-01 to a civil date (proleptic Gregorian calendar). *)
Definition civil (days : Z) : Z * Z * Z :=
  let z := days + 719468 in
  let era := z / 146097 in
  let doe := z - era * 146097 in
  let yoe := (doe - doe / 1460 + doe / 36524 - doe / 146096) / 365 in
  let doy := doe - (365 * yoe + yoe / 4 - yoe / 100) in
  let mp := (5 * doy + 2) / 153 in
  let d := doy - (153 * mp + 2) / 5 + 1 in
  let m := if mp <? 10 then mp + 3 else mp - 9 in
  (yoe + era * 400 + (if m <=? 2 then 1 else 0), m, d).

(** Decimal digits padded with zeros to a width. *)
Definition pad (width : nat) (z : Z) : string :=
  let s := pretty z in
  concat_str (replicate (width - String.length s) "0") +:+ s.

(** t.UTC().Format(time.RFC3339); the fraction of a second is dropped. *)
Definition rfc3339 (ns : Z) : string :=
  let secs := ns / second in
  let days := secs / 86400 in
  let tod := secs mod 86400 in
  let '(y, m, d) := civil days in
  pad 4 y +:+ "-" +:+ pad 2 m +:+ "-" +:+ pad 2 d +:+ "T" +:+
  pad 2 (tod / 3600) +:+ ":" +:+ pad 2 (tod mod 3600 / 60) +:+ ":" +:+ pad 2 (tod mod 60) +:+ "Z".

Example rfc3339_epoch : rfc3339 (1700000000 * second + 5) = "2023-11-14T22:13:20Z".
Proof. reflexivity. Qed.

Definition leap (y : Z) : bool := (y mod 4 =? 0) && (negb (y mod 100 =? 0) || (y mod 400 =? 0)).

Definition days_in (y m : Z) : Z :=
  if m =? 2 then (if leap y then 29 else 28)
  else if (m =? 4) || (m =? 6) || (m =? 9) || (m =? 11) then 30 else 31.

Fixpoint decimal (acc : Z) (s : string) : option Z :=
  match s with
  | EmptyString => Some acc
  | String c s' => if is_digit c then decimal (10 * acc + (byte_val c - 48)) s' else None
  end.

(** time.Parse("2006-01-02", s) succeeds: four digits, a dash, two digits, a
    dash, two digits, naming a month and a day it has. *)
Definition valid_date (s : string) : bool :=
  match split_char "-" s with
  | [ys; ms; ds] =>
      (String.length ys =? 4)%nat && (String.length ms =? 2)%nat && (String.length ds =? 2)%nat
      && match decimal 0 ys, decimal 0 ms, decimal 0 ds with
         | Some y, Some m, Some d => in_range 1 12 m && in_range 1 (days_in y m) d
         | _, _, _ => false
         end
  | _ => false
  end.

Example valid_date_leap : (valid_date "2024-02-29", valid_date "2023-02-29", valid_date "2023-2-09") = (true, false, false).
Proof. reflexivity. Qed.
