(* ===== verification/Dsl.v ===== *)
(** The gate condition language of [requires:] fields
    (internal/engine/dsl): syntax tree, printer, lexer, Pratt parser,
    evaluator, and the walks that collect, rename and prune node references. *)

From S2P Require Import Prelude GoStr GoFloat.
From Stdlib Require Import Ascii.
Open Scope Z_scope.

(** * Syntax tree (ast.go) *)

(** Literal: a literal inside a flag comparison. *)
Record Literal := mkLiteral {
  Raw : string;
  Num : float64;
  IsNum : bool;
  Bool : bool;
  IsBool : bool;
  Str : string;
}.

Definition zero_literal : Literal := mkLiteral EmptyString f_zero false false false EmptyString.

(** Expr: the four node kinds with their source offsets.  A Go nil Expr is
    [None] at the type [option Expr]. *)
Inductive Expr :=
  | NodeRef (ID : string) (pos : Z)
  | FlagCmp (Name Op : string) (Val : Literal) (pos : Z)
  | Unary (Op : string) (X : Expr) (pos : Z)
  | Binary (Op : string) (L R : Expr) (pos : Z).

Definition Pos (e : Expr) : Z :=
  match e with
  | NodeRef _ p | FlagCmp _ _ _ p | Unary _ _ p | Binary _ _ _ p => p
  end.

Definition precOr : Z := 1.
Definition precXor : Z := 2.
Definition precAnd : Z := 3.
Definition precNot : Z := 4.

Definition opPrec (op : string) : Z :=
  if String.eqb op "or" || String.eqb op "nor" then precOr
  else if String.eqb op "xor" then precXor
  else if String.eqb op "and" || String.eqb op "nand" then precAnd
  else 0.

Definition needsParens (e : Expr) (parentPrec : Z) : bool :=
  match e with Binary op _ _ _ => opPrec op <? parentPrec | _ => false end.

Definition samePrecBinary (e : Expr) (parentPrec : Z) : bool :=
  match e with Binary op _ _ _ => opPrec op =? parentPrec | _ => false end.

Definition parens (b : bool) (s : string) : string :=
  if b then "(" +:+ s +:+ ")" else s.

(** Expr.String: canonical text with minimal parentheses. *)
Fixpoint print (e : Expr) : string :=
  match e with
  | NodeRef id _ => id
  | FlagCmp name op val _ =>
      if String.eqb op EmptyString then "flag(" +:+ name +:+ ")"
      else "flag(" +:+ name +:+ " " +:+ op +:+ " " +:+ Raw val +:+ ")"
  | Unary _ x _ => "not " +:+ parens (needsParens x precNot) (print x)
  | Binary op l r _ =>
      let p := opPrec op in
      parens (needsParens l p) (print l) +:+ " " +:+ op +:+ " " +:+
      parens (needsParens r p || samePrecBinary r p) (print r)
  end.

(** walk: the nodes of the tree in the order the callback sees them. *)
Fixpoint walk (e : Expr) : list Expr :=
  e :: match e with
       | Unary _ x _ => walk x
       | Binary _ l r _ => walk l ++ walk r
       | _ => []
       end.

(** The distinct elements in first-appearance order, as the seen map keeps
    them. *)
Fixpoint distinct (seen : list string) (xs : list string) : list string :=
  match xs with
  | [] => []
  | x :: xs' =>
      if decide (x ∈ seen) then distinct seen xs' else x :: distinct (x :: seen) xs'
  end.

Definition NodeRefs (e : Expr) : list string :=
  distinct [] (omap (λ x, match x with NodeRef id _ => Some id | _ => None end) (walk e)).

Definition FlagRefs (e : Expr) : list string :=
  distinct [] (omap (λ x, match x with FlagCmp f _ _ _ => Some f | _ => None end) (walk e)).

(** RenameNodeRefs: a rename to the empty string leaves the reference alone. *)
Fixpoint RenameNodeRefs (e : Expr) (rename : string → string) : Expr :=
  match e with
  | NodeRef id p =>
      let next := rename id in
      if String.eqb next EmptyString then NodeRef id p else NodeRef next p
  | FlagCmp _ _ _ _ => e
  | Unary op x p => Unary op (RenameNodeRefs x rename) p
  | Binary op l r p => Binary op (RenameNodeRefs l rename) (RenameNodeRefs r rename) p
  end.

(** PruneNodeRefs: [None] when nothing is left. *)
Fixpoint PruneNodeRefs (e : Expr) (drop : string → bool) : option Expr :=
  match e with
  | NodeRef id _ => if drop id then None else Some e
  | FlagCmp _ _ _ _ => Some e
  | Unary op x p =>
      match PruneNodeRefs x drop with
      | None => None
      | Some inner => Some (Unary op inner p)
      end
  | Binary op l r p =>
      match PruneNodeRefs l drop, PruneNodeRefs r drop with
      | None, r' => r'
      | l', None => l'
      | Some l', Some r' => Some (Binary op l' r' p)
      end
  end.

(** ParseError: the offset and the message, as its parts. *)
Inductive ErrMsg :=
  | UnexpectedCharacter (c : ascii)
  | UnterminatedString
  | Unexpected (text : string)
  | Expected (what text : string)
  | NestsTooDeeply
  | UnexpectedKeyword (text : string)
  | UnexpectedEnd
  | KeywordFlagName (text : string)
  | BadNumber (text : string)
  | ExpectedLiteral (text : string).

Record ParseError := mkParseError { Offset : Z; Msg : ErrMsg }.

Definition errf {A : Type} (off : Z) (m : ErrMsg) : outcome ParseError A := Fail (mkParseError off m).

Definition keywords : list string :=
  ["and"; "or"; "not"; "xor"; "nand"; "nor"; "all"; "any"; "flag"; "true"; "false"].

Definition isKeyword `{Unicode} (s : string) : bool :=
  bool_decide (to_lower s ∈ keywords).

(** * Lexer (lexer.go) *)

Inductive tokKind := tokEOF | tokIdent | tokNumber | tokString | tokLParen | tokRParen | tokComma | tokCmp.

#[export] Instance tokKind_eq_dec : EqDecision tokKind.
Proof. solve_decision. Defined.

Record token := mkToken { kind : tokKind; text : string; tpos : Z }.

Definition is_kind (k : tokKind) (t : token) : bool := bool_decide (kind t = k).

(** unicode.IsLetter and unicode.IsDigit at a code point below 256: the lexer
    calls them on single bytes. *)
Definition is_letter_byte (c : ascii) : bool :=
  let z := byte_val c in
  in_range 65 90 z || in_range 97 122 z || (z =? 170) || (z =? 181) || (z =? 186) ||
  in_range 192 214 z || in_range 216 246 z || in_range 248 255 z.

Definition isIdentStart (c : ascii) : bool := is_letter_byte c || Ascii.eqb c "_".

Definition isIdentPart (c : ascii) : bool :=
  is_letter_byte c || is_digit c || Ascii.eqb c "_" || Ascii.eqb c "-" || Ascii.eqb c ".".

(** The longest prefix whose bytes satisfy [f], and what follows it. *)
Fixpoint span (f : ascii → bool) (s : string) : string * string :=
  match s with
  | EmptyString => (EmptyString, EmptyString)
  | String c s' =>
      if f c then let '(a, b) := span f s' in (String c a, b) else (EmptyString, s)
  end.

Definition number_byte (c : ascii) : bool := is_digit c || Ascii.eqb c ".".

(** lexNumber: an optional sign, then digits and points. *)
Definition lexNumber (s : string) : string * string :=
  match s with
  | String c s' =>
      if Ascii.eqb c "-" then let '(a, b) := span number_byte s' in (String c a, b)
      else span number_byte s
  | EmptyString => (EmptyString, EmptyString)
  end.

Definition lexIdent (s : string) : string * string := span isIdentPart s.

#[global] Arguments lexNumber _ : simpl never.
#[global] Arguments lexIdent _ : simpl never.

(** lexString, after the opening quote: the text up to the closing one, taken
    literally (there are no escapes). *)
Fixpoint lexString (q : ascii) (s : string) : option (string * string) :=
  match s with
  | EmptyString => None
  | String c s' =>
      if Ascii.eqb c q then Some (EmptyString, s')
      else match lexString q s' with
           | Some (a, b) => Some (String c a, b)
           | None => None
           end
  end.

(** lexCmp: the operator's text and width; a single [=] means [==]. *)
Definition lexCmp (c : ascii) (s' : string) : option (string * nat) :=
  let eq2 := match s' with String d _ => Ascii.eqb d "=" | EmptyString => false end in
  if eq2 then Some (String c "=", 2%nat)
  else if Ascii.eqb c ">" || Ascii.eqb c "<" then Some (str_of_char c, 1%nat)
  else if Ascii.eqb c "=" then Some ("==", 1%nat)
  else None.

Definition blank (c : ascii) : bool :=
  Ascii.eqb c " " || Ascii.eqb c "009" || Ascii.eqb c "013" || Ascii.eqb c "010".

(** lex from byte offset [i] on; every round consumes a byte, so the length of
    the source is enough fuel ([lex_settled]). *)
Fixpoint lex_from (fuel : nat) (i : Z) (s : string) : outcome ParseError (list token) :=
  match s with
  | EmptyString => Ok [mkToken tokEOF EmptyString i]
  | String c s' =>
      match fuel with
      | O => OutOfFuel
      | S fuel' =>
          let emit k t (rest : string) :=
            ts ← lex_from fuel' (i + (Z.of_nat (String.length s) - Z.of_nat (String.length rest))) rest;
            Ok (mkToken k t i :: ts) in
          if blank c then lex_from fuel' (i + 1) s'
          else if Ascii.eqb c "(" then emit tokLParen "(" s'
          else if Ascii.eqb c ")" then emit tokRParen ")" s'
          else if Ascii.eqb c "," then emit tokComma "," s'
          else if Ascii.eqb c "=" || Ascii.eqb c "!" || Ascii.eqb c ">" || Ascii.eqb c "<" then
            match lexCmp c s' with
            | Some (t, w) => emit tokCmp t (str_drop w s)
            | None => errf i (UnexpectedCharacter c)
            end
          else if Ascii.eqb c dquote || Ascii.eqb c squote then
            match lexString c s' with
            | Some (t, rest) => emit tokString t rest
            | None => errf i UnterminatedString
            end
          else if is_digit c ||
                  (Ascii.eqb c "-" && match s' with String d _ => is_digit d | EmptyString => false end) then
            let '(t, rest) := lexNumber s in emit tokNumber t rest
          else if isIdentStart c then
            let '(t, rest) := lexIdent s in emit tokIdent t rest
          else errf i (UnexpectedCharacter c)
      end
  end.

Definition lex (src : string) : outcome ParseError (list token) :=
  lex_from (String.length src) 0 src.

(** * Parser (parser.go) *)

Definition maxNesting : Z := 256.

Abbreviation presult A := (outcome ParseError (A * list token)).

(** peek: reading past the end of the token slice panics. *)
Definition peek (ts : list token) : outcome ParseError token :=
  match ts with t :: _ => Ok t | [] => Panic end.

Definition next (ts : list token) : presult token :=
  match ts with t :: ts' => Ok (t, ts') | [] => Panic end.

Definition expect (k : tokKind) (what : string) (ts : list token) : presult token :=
  '(t, ts') ← next ts;
  if is_kind k t then Ok (t, ts') else errf (tpos t) (Expected what (text t)).

Section Parser.
Context `{Unicode}.

Definition parseLiteral (ts : list token) : presult Literal :=
  '(t, ts') ← next ts;
  match kind t with
  | tokNumber =>
      match parse_float (text t) with
      | None => errf (tpos t) (BadNumber (text t))
      | Some n => Ok (mkLiteral (text t) n true false false EmptyString, ts')
      end
  | tokString => Ok (mkLiteral (quote (text t)) f_zero false false false (text t), ts')
  | tokIdent =>
      let low := to_lower (text t) in
      if String.eqb low "true" then Ok (mkLiteral "true" f_zero false true true EmptyString, ts')
      else if String.eqb low "false" then Ok (mkLiteral "false" f_zero false false true EmptyString, ts')
      else Ok (mkLiteral (quote (text t)) f_zero false false false (text t), ts')
  | _ => errf (tpos t) (ExpectedLiteral (text t))
  end.

Definition parseFlag (pos : Z) (ts : list token) : presult Expr :=
  '(_, ts) ← expect tokLParen "'(' after flag" ts;
  '(nameTok, ts) ← expect tokIdent "flag name" ts;
  if isKeyword (text nameTok) then errf (tpos nameTok) (KeywordFlagName (text nameTok))
  else
    t ← peek ts;
    '(op, val, ts) ← (if is_kind tokCmp t then
                        '(c, ts) ← next ts;
                        '(lit, ts) ← parseLiteral ts;
                        Ok (text c, lit, ts)
                      else Ok (EmptyString, zero_literal, ts));
    '(_, ts) ← expect tokRParen "')'" ts;
    Ok (FlagCmp (text nameTok) op val pos, ts).

(** The calls of the recursive descent: parseExpr(min), the rest of its loop
    with the left operand read so far, parseUnary, parsePrimary, and the
    item loop of parseAllAny with the chain built so far. *)
Inductive call :=
  | CExpr (min : Z)
  | CLoop (min : Z) (lhs : Expr)
  | CUnary
  | CPrimary
  | CItems (op : string) (pos : Z) (acc : option Expr).

(** Each function of the parser, with its recursive calls as an argument;
    [depth] is the number of parseUnary frames open. *)
Section Open.
Variable rec : call → Z → list token → presult Expr.

Definition parseExpr (min : Z) (depth : Z) (ts : list token) : presult Expr :=
  '(lhs, ts) ← rec CUnary depth ts;
  rec (CLoop min lhs) depth ts.

Definition parseExprLoop (min : Z) (lhs : Expr) (depth : Z) (ts : list token) : presult Expr :=
  t ← peek ts;
  if negb (is_kind tokIdent t) then Ok (lhs, ts)
  else
    let op := to_lower (text t) in
    let prec := opPrec op in
    if (prec =? 0) || (prec <? min) then Ok (lhs, ts)
    else
      '(_, ts) ← next ts;
      '(rhs, ts) ← rec (CExpr (prec + 1)) depth ts;
      rec (CLoop min (Binary op lhs rhs (Pos lhs))) depth ts.

Definition parseUnary (depth : Z) (ts : list token) : presult Expr :=
  t ← peek ts;
  if maxNesting <? depth + 1 then errf (tpos t) NestsTooDeeply
  else if is_kind tokIdent t && String.eqb (to_lower (text t)) "not" then
    '(_, ts) ← next ts;
    '(x, ts) ← rec CUnary (depth + 1) ts;
    Ok (Unary "not" x (tpos t), ts)
  else rec CPrimary (depth + 1) ts.

Definition parseAllAny (which : string) (pos : Z) (depth : Z) (ts : list token) : presult Expr :=
  '(_, ts) ← expect tokLParen ("'(' after " +:+ which) ts;
  rec (CItems (if String.eqb which "any" then "or" else "and") pos None) depth ts.

Definition parseItems (op : string) (pos : Z) (acc : option Expr) (depth : Z) (ts : list token)
    : presult Expr :=
  '(item, ts) ← rec (CExpr 0) depth ts;
  let e := match acc with None => item | Some e => Binary op e item pos end in
  '(t, ts) ← next ts;
  match kind t with
  | tokRParen => Ok (e, ts)
  | tokComma => rec (CItems op pos (Some e)) depth ts
  | _ => errf (tpos t) (Expected "',' or ')'" (text t))
  end.

Definition parsePrimary (depth : Z) (ts : list token) : presult Expr :=
  '(t, ts) ← next ts;
  match kind t with
  | tokLParen =>
      '(e, ts) ← rec (CExpr 0) depth ts;
      '(_, ts) ← expect tokRParen "')'" ts;
      Ok (e, ts)
  | tokIdent =>
      let low := to_lower (text t) in
      if String.eqb low "flag" then parseFlag (tpos t) ts
      else if bool_decide (low ∈ ["all"; "any"]) then parseAllAny low (tpos t) depth ts
      else if bool_decide (low ∈ ["and"; "or"; "xor"; "nand"; "nor"; "not"; "true"; "false"])
      then errf (tpos t) (UnexpectedKeyword (text t))
      else Ok (NodeRef (text t) (tpos t), ts)
  | tokEOF => errf (tpos t) UnexpectedEnd
  | _ => errf (tpos t) (Unexpected (text t))
  end.
End Open.

(** The recursion tied; [fuel] bounds the nesting of calls. *)
Fixpoint run (fuel : nat) (c : call) (depth : Z) (ts : list token) : presult Expr :=
  match fuel with
  | O => OutOfFuel
  | S fuel' =>
      match c with
      | CExpr min => parseExpr (run fuel') min depth ts
      | CLoop min lhs => parseExprLoop (run fuel') min lhs depth ts
      | CUnary => parseUnary (run fuel') depth ts
      | CPrimary => parsePrimary (run fuel') depth ts
      | CItems op pos acc => parseItems (run fuel') op pos acc depth ts
      end
  end.

(** Fuel enough for any token list of that length ([run_settled]). *)
Definition parse_fuel (ts : list token) : nat := (4 * length ts + 4)%nat.

Definition Parse (src : string) : outcome ParseError (option Expr) :=
  if String.eqb (trim_space src) EmptyString then Ok None
  else
    toks ← lex src;
    '(e, rest) ← run (parse_fuel toks) (CExpr 0) 0 toks;
    t ← peek rest;
    if negb (is_kind tokEOF t) then errf (tpos t) (Unexpected (text t))
    else Ok (Some e).
End Parser.

(** * Evaluation (eval.go) *)

(** The dynamic types a flag value can hold; [VOther] is any other non-nil
    value (a list, a map, a time). *)
Inductive value :=
  | VNil
  | VBool (b : bool)
  | VString (s : string)
  | VFloat64 (f : float64)
  | VFloat32 (f : float64)
  | VInt (z : Z)
  | VInt64 (z : Z)
  | VUint64 (z : Z)
  | VOther (tag : nat).

Definition asNumber (v : value) : option float64 :=
  match v with
  | VFloat64 f | VFloat32 f => Some f
  | VInt z | VInt64 z | VUint64 z => Some (f_of_int z)
  | _ => None
  end.

Definition truthy (v : value) : bool :=
  match v with
  | VBool b => b
  | VString s => negb (String.eqb s EmptyString)
  | VNil => false
  | _ => match asNumber v with Some n => negb (f_eqb n f_zero) | None => true end
  end.

Definition cmpNum (a : float64) (op : string) (b : float64) : bool :=
  if String.eqb op "==" then f_eqb a b
  else if String.eqb op "!=" then negb (f_eqb a b)
  else if String.eqb op ">=" then f_leb b a
  else if String.eqb op "<=" then f_leb a b
  else if String.eqb op ">" then f_ltb b a
  else if String.eqb op "<" then f_ltb a b
  else false.

Definition evalFlag (name op : string) (val : Literal) (flags : gmap string value) : bool :=
  let v := flags !! name in
  if String.eqb op EmptyString then
    match v with Some v => truthy v | None => false end
  else
    match v with
    | None => false
    | Some v =>
        if IsNum val then
          match asNumber v with
          | None => false
          | Some n => cmpNum n op (Num val)
          end
        else if IsBool val then
          match v with
          | VBool b =>
              if String.eqb op "==" then Bool.eqb b (Bool val)
              else if String.eqb op "!=" then negb (Bool.eqb b (Bool val))
              else false
          | _ => false
          end
        else
          match v with
          | VString s =>
              if String.eqb op "==" then String.eqb s (Str val)
              else if String.eqb op "!=" then negb (String.eqb s (Str val))
              else false
          | _ => false
          end
    end.

(** Context: which nodes are done (a nil Done is the constantly false
    function), and the flags. *)
Record Context := mkContext { Done : string → bool; Flags : gmap string value }.

Fixpoint Eval (e : Expr) (ctx : Context) : bool :=
  match e with
  | NodeRef id _ => Done ctx id
  | FlagCmp name op val _ => evalFlag name op val (Flags ctx)
  | Unary _ x _ => negb (Eval x ctx)
  | Binary op l r _ =>
      let a := Eval l ctx in
      let b := Eval r ctx in
      if String.eqb op "and" then a && b
      else if String.eqb op "or" then a || b
      else if String.eqb op "xor" then xorb a b
      else if String.eqb op "nand" then negb (a && b)
      else if String.eqb op "nor" then negb (a || b)
      else false
  end.

(** Eval of a possibly nil expression: nil is vacuously true. *)
Definition EvalOpt (e : option Expr) (ctx : Context) : bool :=
  match e with None => true | Some e => Eval e ctx end.
