(* ===== verification/DslFacts.v ===== *)
(** Facts of the condition language: the walks (references collected, renamed,
    pruned), the evaluator, and the totality and well-formedness of the
    parser.

    The lexer and the parser of the condition language: they return a value or
    an error on every input (no panic, no stack-depth surprise, fuel enough),
    and what they return is well formed. *)

From S2P Require Import Prelude GoStr GoFloat Dsl.
From Stdlib Require Import Ascii.
Open Scope Z_scope.

(** * References *)

Definition node_ref (x : Expr) : option string :=
  match x with NodeRef id _ => Some id | _ => None end.
Definition flag_ref (x : Expr) : option string :=
  match x with FlagCmp f _ _ _ => Some f | _ => None end.

(** Every reference of the tree, repetitions included, in order. *)
Definition all_refs (e : Expr) : list string := omap node_ref (walk e).
Definition all_flags (e : Expr) : list string := omap flag_ref (walk e).

Lemma all_refs_unary op x p : all_refs (Unary op x p) = all_refs x.
Proof. done. Qed.
Lemma all_refs_binary op l r p : all_refs (Binary op l r p) = all_refs l ++ all_refs r.
Proof. unfold all_refs. simpl. by rewrite omap_app. Qed.
Lemma all_flags_unary op x p : all_flags (Unary op x p) = all_flags x.
Proof. done. Qed.
Lemma all_flags_binary op l r p : all_flags (Binary op l r p) = all_flags l ++ all_flags r.
Proof. unfold all_flags. simpl. by rewrite omap_app. Qed.

Create Rewrite HintDb refs.
#[export] Hint Rewrite all_refs_unary all_refs_binary all_flags_unary all_flags_binary : refs.

Lemma elem_of_distinct x seen xs : x ∈ distinct seen xs ↔ x ∈ xs ∧ x ∉ seen.
Proof.
  revert seen. induction xs as [|y xs IH]; intros seen; simpl; [set_solver|].
  case_decide; rewrite ?elem_of_cons, IH; [|rewrite elem_of_cons].
  - set_solver.
  - destruct (decide (x = y)); set_solver.
Qed.

Lemma NoDup_distinct seen xs : NoDup (distinct seen xs).
Proof.
  revert seen. induction xs as [|y xs IH]; intros seen; simpl; [constructor|].
  case_decide; [done|]. constructor; [|done]. rewrite elem_of_distinct. set_solver.
Qed.

Lemma elem_of_NodeRefs x e : x ∈ NodeRefs e ↔ x ∈ all_refs e.
Proof. unfold NodeRefs. rewrite elem_of_distinct. set_solver. Qed.

Lemma elem_of_FlagRefs x e : x ∈ FlagRefs e ↔ x ∈ all_flags e.
Proof. unfold FlagRefs. rewrite elem_of_distinct. set_solver. Qed.

#[export] Hint Rewrite elem_of_NodeRefs elem_of_FlagRefs : refs.

Lemma distinct_ext s1 s2 xs :
  (∀ z, z ∈ xs → z ∈ s1 ↔ z ∈ s2) → distinct s1 xs = distinct s2 xs.
Proof.
  revert s1 s2. induction xs as [|z xs IH]; intros s1 s2 Hs; [done|].
  assert (Hz : z ∈ s1 ↔ z ∈ s2) by (apply Hs; set_solver).
  simpl. destruct (decide (z ∈ s1)), (decide (z ∈ s2)); try tauto.
  - apply IH. set_solver.
  - f_equal. apply IH. set_solver.
Qed.

Lemma distinct_filter (P : string → Prop) `{!∀ x, Decision (P x)} seen xs :
  distinct seen (filter P xs) = filter P (distinct seen xs).
Proof.
  revert seen. induction xs as [|x xs IH]; intros seen; [done|].
  rewrite filter_cons. simpl.
  destruct (decide (P x)) as [Hx|Hx], (decide (x ∈ seen)) as [Hs|Hs]; simpl.
  - rewrite decide_True by done. apply IH.
  - rewrite decide_False by done. rewrite filter_cons, decide_True by done. by rewrite IH.
  - apply IH.
  - rewrite filter_cons, decide_False by done. rewrite <- IH. apply distinct_ext.
    intros z [Hz _]%list_elem_of_filter. rewrite elem_of_cons. naive_solver.
Qed.

(** * Evaluation *)

Lemma Eval_ext e c1 c2 :
  (∀ id, id ∈ all_refs e → Done c1 id = Done c2 id) →
  (∀ f, f ∈ all_flags e → Flags c1 !! f = Flags c2 !! f) →
  Eval e c1 = Eval e c2.
Proof.
  induction e as [id p|f op v p|op x IH p|op l IHl r IHr p]; intros Hd Hf; simpl.
  - apply Hd. set_solver.
  - unfold evalFlag. rewrite (Hf f) by set_solver. done.
  - by rewrite IH.
  - autorewrite with refs in *. rewrite IHl, IHr; [done|set_solver..].
Qed.

Lemma Eval_rename e rename ctx :
  Eval (RenameNodeRefs e rename) ctx =
  Eval e (mkContext (λ id, Done ctx (if String.eqb (rename id) EmptyString then id else rename id))
            (Flags ctx)).
Proof.
  induction e as [id p|f op v p|op x IH p|op l IHl r IHr p]; simpl; try done.
  - by destruct (String.eqb (rename id) EmptyString).
  - by rewrite IH.
  - by rewrite IHl, IHr.
Qed.

(** The spelling a rename leaves a reference with. *)
Definition renamed (rename : string → string) (id : string) : string :=
  if String.eqb (rename id) EmptyString then id else rename id.

Lemma all_refs_rename e rename : all_refs (RenameNodeRefs e rename) = renamed rename <$> all_refs e.
Proof.
  induction e as [id p|f op v p|op x IH p|op l IHl r IHr p]; try done; simpl.
  - unfold all_refs, renamed; simpl. by destruct (String.eqb (rename id) EmptyString).
  - rewrite !all_refs_binary, fmap_app. by rewrite IHl, IHr.
Qed.

(** * Pruning *)

Definition keep (drop : string → bool) (id : string) : Prop := drop id = false.

#[export] Instance keep_dec drop id : Decision (keep drop id).
Proof. unfold keep. apply _. Defined.

(** Pruning removes exactly the dropped references and no flag test; nothing
    is left only when every leaf was a dropped reference. *)
Lemma prune_leaves e drop :
  match PruneNodeRefs e drop with
  | Some e' =>
      all_refs e' = filter (keep drop) (all_refs e) ∧ all_flags e' = all_flags e ∧
      (all_refs e' ≠ [] ∨ all_flags e' ≠ [])
  | None => filter (keep drop) (all_refs e) = [] ∧ all_flags e = []
  end.
Proof.
  induction e as [id p|f op v p|op x IH p|op l IHl r IHr p].
  - simpl. unfold all_refs, all_flags; simpl. rewrite filter_cons, filter_nil.
    destruct (drop id) eqn:E; simpl.
    + rewrite decide_False by (unfold keep; congruence). done.
    + rewrite decide_True by done. naive_solver.
  - unfold all_refs, all_flags; simpl. naive_solver.
  - simpl. destruct (PruneNodeRefs x drop); autorewrite with refs in *; done.
  - simpl. autorewrite with refs. rewrite filter_app.
    destruct (PruneNodeRefs l drop) as [l'|], (PruneNodeRefs r drop) as [r'|];
      [destruct IHl as (L1 & L2 & L3), IHr as (R1 & R2 & R3)
      |destruct IHl as (L1 & L2 & L3), IHr as (R1 & R2)
      |destruct IHl as (L1 & L2), IHr as (R1 & R2 & R3)
      |destruct IHl as (L1 & L2), IHr as (R1 & R2)].
    + rewrite all_refs_binary, all_flags_binary, L1, L2, R1, R2.
      split_and!; [done..|]. rewrite L1, L2 in L3.
      destruct L3; [left|right]; intros [??]%app_nil; done.
    + rewrite R1, R2, !(right_id_L [] (++)). done.
    + rewrite L1, L2. done.
    + rewrite L1, L2, R1, R2. done.
Qed.

(** * Well-formed tokens and expressions *)

Definition ident (s : string) : bool :=
  match s with
  | String c _ => isIdentStart c && str_all isIdentPart s
  | EmptyString => false
  end.

Definition starts_digit (s : string) : bool :=
  match s with String d _ => is_digit d | EmptyString => false end.

Definition number (s : string) : bool :=
  match s with
  | String c s' =>
      if Ascii.eqb c "-" then starts_digit s' && str_all number_byte s'
      else is_digit c && str_all number_byte s
  | EmptyString => false
  end.

Definition cmps : list string := ["=="; "!="; ">="; "<="; ">"; "<"].
Definition binops : list string := ["and"; "or"; "xor"; "nand"; "nor"].

Definition wf_token (t : token) : Prop :=
  match kind t with
  | tokIdent => ident (text t) = true
  | tokNumber => number (text t) = true
  | tokCmp => text t ∈ cmps
  | _ => True
  end.

(** The token list ends with the end marker, as lex leaves it. *)
Definition ends_eof (ts : list token) : Prop := ∃ body p, ts = body ++ [mkToken tokEOF EmptyString p].

Record wf_tokens (ts : list token) : Prop := {
  wft_all : Forall wf_token ts;
  wft_eof : ends_eof ts;
}.

Section Wf.
Context `{Unicode}.

Definition wf_name (s : string) : Prop := ident s = true ∧ isKeyword s = false.

Inductive wf_literal : Literal → Prop :=
  | wf_num raw n : number raw = true → parse_float raw = Some n →
      wf_literal (mkLiteral raw n true false false EmptyString)
  | wf_true : wf_literal (mkLiteral "true" f_zero false true true EmptyString)
  | wf_false : wf_literal (mkLiteral "false" f_zero false false true EmptyString)
  | wf_str s : wf_literal (mkLiteral (quote s) f_zero false false false s).

Inductive wf_expr : Expr → Prop :=
  | wf_ref id p : wf_name id → wf_expr (NodeRef id p)
  | wf_flag f p : wf_name f → wf_expr (FlagCmp f EmptyString zero_literal p)
  | wf_cmp f op v p : wf_name f → op ∈ cmps → wf_literal v → wf_expr (FlagCmp f op v p)
  | wf_not x p : wf_expr x → wf_expr (Unary "not" x p)
  | wf_bin op l r p : op ∈ binops → wf_expr l → wf_expr r → wf_expr (Binary op l r p).
End Wf.

(** * Lexer *)

Lemma ident_start_part c : isIdentStart c = true → isIdentPart c = true.
Proof.
  unfold isIdentStart, isIdentPart.
  destruct (is_letter_byte c), (is_digit c), (Ascii.eqb c "_"), (Ascii.eqb c "-"); done.
Qed.

Lemma span_spec f s a b : span f s = (a, b) →
  s = a +:+ b ∧ str_all f a = true ∧ (String.length b ≤ String.length s)%nat.
Proof.
  revert a b. induction s as [|c s IH]; intros a b; simpl.
  - intros [= <- <-]. done.
  - destruct (f c) eqn:Ef; [|intros [= <- <-]; simpl; auto].
    destruct (span f s) as [a' b'] eqn:E. intros [= <- <-].
    destruct (IH _ _ eq_refl) as (-> & Ha & Hl). simpl. rewrite Ef, Ha.
    split_and!; [done..|lia].
Qed.

Lemma lexString_length q s a b : lexString q s = Some (a, b) → (String.length b < String.length s)%nat.
Proof.
  revert a b. induction s as [|c s IH]; intros a b; simpl; [done|].
  destruct (Ascii.eqb c q); [intros [= <- <-]; lia|].
  destruct (lexString q s) as [[a' b']|]; [|done]. intros [= <- <-].
  specialize (IH _ _ eq_refl). lia.
Qed.

Lemma lexIdent_spec c s a b : isIdentStart c = true → lexIdent (String c s) = (a, b) →
  ident a = true ∧ (String.length b < String.length (String c s))%nat.
Proof.
  intros Hc. unfold lexIdent. simpl. rewrite (ident_start_part _ Hc).
  destruct (span isIdentPart s) as [a' b'] eqn:E. intros [= <- <-].
  apply span_spec in E as (_ & Ha & Hl). simpl. rewrite Hc, (ident_start_part _ Hc), Ha.
  split; [done|lia].
Qed.

Lemma starts_digit_span s a b : starts_digit s = true → span number_byte s = (a, b) →
  starts_digit a = true ∧ (String.length b < String.length s)%nat.
Proof.
  destruct s as [|c s]; [done|]. simpl. intros Hc. unfold number_byte at 1. rewrite Hc. simpl.
  destruct (span number_byte s) as [a' b'] eqn:E. intros [= <- <-].
  apply span_spec in E as (_ & _ & Hl). simpl. split; [done|lia].
Qed.

Lemma lexNumber_spec c s a b :
  is_digit c || (Ascii.eqb c "-" && starts_digit s) = true →
  lexNumber (String c s) = (a, b) →
  number a = true ∧ (String.length b < String.length (String c s))%nat.
Proof.
  intros Hc. unfold lexNumber. destruct (Ascii.eqb c "-") eqn:Em.
  - apply Ascii.eqb_eq in Em as ->. simpl in Hc.
    destruct (span number_byte s) as [a' b'] eqn:E. intros [= <- <-].
    destruct (starts_digit_span _ _ _ Hc E) as [Hs Hl].
    apply span_spec in E as (_ & Ha & _). simpl. rewrite Hs, Ha. simpl. split; [done|lia].
  - simpl in Hc. rewrite orb_false_r in Hc. intros E.
    destruct (starts_digit_span (String c s) a b Hc E) as [Hs Hl].
    apply span_spec in E as (Heq & Ha & _). split; [|done].
    destruct a as [|d a]; [done|]. injection Heq as <- _. simpl. rewrite Em, Hc. done.
Qed.

Lemma lexCmp_spec c s t w :
  Ascii.eqb c "=" || Ascii.eqb c "!" || Ascii.eqb c ">" || Ascii.eqb c "<" = true →
  lexCmp c s = Some (t, w) →
  t ∈ cmps ∧ (String.length (str_drop w (String c s)) < String.length (String c s))%nat.
Proof.
  intros Hc. unfold lexCmp.
  assert (Hd : ∀ n r, (String.length (str_drop n r) ≤ String.length r)%nat).
  { induction n; intros [|? r]; simpl; try lia. specialize (IHn r). lia. }
  rewrite !orb_true_iff, !Ascii.eqb_eq in Hc.
  destruct Hc as [[[->| ->]| ->]| ->]; simpl;
    (destruct s as [|d s]; simpl; [|destruct (Ascii.eqb d "=") eqn:Ed]);
    intros [=]; subst; simpl; (split; [unfold cmps; set_solver|]); try lia;
    specialize (Hd 1%nat (String d s)); unfold need in *; simpl in *; lia.
Qed.

Lemma wf_tokens_cons t ts : wf_token t → wf_tokens ts → wf_tokens (t :: ts).
Proof.
  intros Ht [Ha (body & p & ->)]. split; [by constructor|]. by exists (t :: body), p.
Qed.

(** The lexer returns tokens or a syntax error, and its tokens are well
    formed. *)
Lemma lex_from_good fuel i s : (String.length s ≤ fuel)%nat →
  match lex_from fuel i s with
  | Ok ts => wf_tokens ts
  | Fail _ => True
  | _ => False
  end.
Proof.
  revert i s. induction fuel as [|fuel IH]; intros i s Hl.
  { destruct s; simpl in Hl; [|lia]. simpl. split; [by repeat constructor|]. by exists [], i. }
  destruct s as [|c s]; simpl.
  { split; [by repeat constructor|]. by exists [], i. }
  simpl in Hl.
  assert (Hemit : ∀ k t rest j, wf_token (mkToken k t i) → (String.length rest ≤ fuel)%nat →
    match (ts ← lex_from fuel j rest; Ok (E:=ParseError) (mkToken k t i :: ts)) with
    | Ok ts => wf_tokens ts | Fail _ => True | _ => False end).
  { intros k t rest j Ht Hr. specialize (IH j rest Hr).
    destruct (lex_from fuel j rest); simpl; try done. by apply wf_tokens_cons. }
  destruct (blank c); [apply IH; lia|].
  destruct (Ascii.eqb c "("); [apply Hemit; [done|lia]|].
  destruct (Ascii.eqb c ")"); [apply Hemit; [done|lia]|].
  destruct (Ascii.eqb c ","); [apply Hemit; [done|lia]|].
  destruct (Ascii.eqb c "=" || _ || _ || _) eqn:Ecmp.
  { destruct (lexCmp c s) as [[t w]|] eqn:E; [|done].
    destruct (lexCmp_spec _ _ _ _ Ecmp E) as [Ht Hw]. apply Hemit; [done|simpl in Hw; lia]. }
  destruct (Ascii.eqb c dquote || Ascii.eqb c squote).
  { destruct (lexString c s) as [[t rest]|] eqn:E; [|done].
    apply lexString_length in E. apply Hemit; [done|lia]. }
  destruct (is_digit c || _) eqn:Enum.
  { destruct (lexNumber (String c s)) as [t rest] eqn:E.
    destruct (lexNumber_spec _ _ _ _ Enum E) as [Ht Hr]. apply Hemit; [done|simpl in Hr; lia]. }
  destruct (isIdentStart c) eqn:Eid; [|done].
  destruct (lexIdent (String c s)) as [t rest] eqn:E.
  destruct (lexIdent_spec _ _ _ _ Eid E) as [Ht Hr]. apply Hemit; [done|simpl in Hr; lia].
Qed.

(** * Parser *)

(** A result of the parser that consumed enough: fewer than [n] tokens are
    left, they are well formed, and the value satisfies [P]. *)
Definition good {A} (P : A → Prop) (n : nat) (m : presult A) : Prop :=
  match m with
  | Ok (a, ts) => P a ∧ wf_tokens ts ∧ (length ts < n)%nat
  | Fail _ => True
  | _ => False
  end.

Lemma good_bind {A B} (P : A → Prop) (Q : B → Prop) n k (m : presult A) f :
  good P n m →
  (∀ a ts, P a → wf_tokens ts → (length ts < n)%nat → good Q k (f (a, ts))) →
  good Q k (m ≫= f).
Proof. destruct m as [[a ts]| | |]; simpl; try done. intros (Ha & Ht & Hl) Hf. auto. Qed.

Lemma good_weaken {A} (P : A → Prop) n k (m : presult A) : good P n m → (n ≤ k)%nat → good P k m.
Proof. destruct m as [[a ts]| | |]; simpl; try done. intuition lia. Qed.

Lemma wf_tokens_inv ts : wf_tokens ts → ∃ t ts', ts = t :: ts'.
Proof. intros [_ ([|t body] & p & ->)]; eauto. Qed.

Lemma wf_tokens_tail t ts : wf_tokens (t :: ts) → kind t ≠ tokEOF → wf_tokens ts ∧ wf_token t.
Proof.
  intros [Ha (body & p & Hb)] Ht. inversion Ha; subst.
  destruct body as [|t' body]; injection Hb as -> Hb; [done|]. subst.
  split; [|done]. split; [done|]. by exists body, p.
Qed.

Lemma is_kind_true k t : is_kind k t = true ↔ kind t = k.
Proof. apply bool_decide_eq_true. Qed.
Lemma is_kind_false k t : is_kind k t = false ↔ kind t ≠ k.
Proof. apply bool_decide_eq_false. Qed.

Lemma expect_good k w ts : wf_tokens ts → k ≠ tokEOF →
  good (λ t, wf_token t ∧ kind t = k) (length ts) (expect k w ts).
Proof.
  intros Hw Hk. destruct (wf_tokens_inv _ Hw) as (t & ts' & ->). unfold expect. simpl.
  destruct (is_kind k t) eqn:E; [|done]. apply is_kind_true in E.
  apply wf_tokens_tail in Hw as [Hw Ht]; [|congruence]. simpl. auto.
Qed.

Section Total.
Context `{Unicode}.

Lemma parseLiteral_good ts : wf_tokens ts → good wf_literal (length ts) (parseLiteral ts).
Proof.
  intros Hw. destruct (wf_tokens_inv _ Hw) as (t & ts' & ->). unfold parseLiteral. simpl.
  assert (Htl : kind t ≠ tokEOF → wf_tokens ts' ∧ wf_token t) by (by apply wf_tokens_tail).
  unfold wf_token in Htl. destruct (kind t) eqn:Ek; simpl; try done.
  - destruct Htl as [??]; [done|]. destruct (String.eqb _ "true"); [|destruct (String.eqb _ "false")];
      simpl; (split_and!; [by constructor|done|lia]).
  - destruct Htl as [??]; [done|]. destruct (parse_float (text t)) eqn:E; simpl; [|done].
    split_and!; [by constructor|done|lia].
  - destruct Htl as [??]; [done|]. split_and!; [by constructor|done|lia].
Qed.

Lemma parseFlag_good pos ts : wf_tokens ts → good wf_expr (length ts) (parseFlag pos ts).
Proof.
  intros Hw. unfold parseFlag. eapply good_bind; [by apply expect_good|].
  intros _ ts1 _ Hw1 Hl1. eapply good_bind; [by apply expect_good|].
  intros t ts2 [Ht Hk] Hw2 Hl2. unfold wf_token in Ht. rewrite Hk in Ht.
  destruct (isKeyword (text t)) eqn:Ekw; [done|].
  destruct (wf_tokens_inv _ Hw2) as (u & ts2' & ->). simpl.
  destruct (is_kind tokCmp u) eqn:Eu; simpl.
  - apply is_kind_true in Eu. apply wf_tokens_tail in Hw2 as [Hw2 Hu]; [|congruence].
    unfold wf_token in Hu. rewrite Eu in Hu.
    pose proof (parseLiteral_good ts2' Hw2) as Hlit.
    destruct (parseLiteral ts2') as [[v ts3]| | |]; simpl in *; try done.
    destruct Hlit as (Hv & Hw3 & Hl3). eapply good_bind; [by apply expect_good|].
    intros _ ts4 _ Hw4 Hl4. simpl. split_and!; [by constructor|done|lia].
  - eapply good_bind; [by apply expect_good|].
    intros _ ts4 _ Hw4 Hl4. simpl in *. split_and!; [by constructor|done|lia].
Qed.

(** The fuel a call needs on [n] tokens, the operands it is given, and the
    tokens it leaves. *)
Definition need (c : call) (n : nat) : nat :=
  4 * n + match c with
          | CPrimary | CLoop _ _ => 1
          | CUnary => 2
          | CExpr _ => 3
          | CItems _ _ _ => 4
          end.

Definition call_wf (c : call) : Prop :=
  match c with
  | CLoop _ lhs => wf_expr lhs
  | CItems op _ acc => op ∈ binops ∧ match acc with Some e => wf_expr e | None => True end
  | _ => True
  end.

Definition left_over (c : call) (n : nat) : nat :=
  match c with CLoop _ _ => S n | _ => n end.

Lemma opPrec_binops op : opPrec op ≠ 0 → op ∈ binops.
Proof.
  unfold opPrec. destruct (String.eqb op "or") eqn:E1, (String.eqb op "nor") eqn:E2,
    (String.eqb op "xor") eqn:E3, (String.eqb op "and") eqn:E4, (String.eqb op "nand") eqn:E5;
    simpl; try done; bool_to_prop; subst; unfold binops; set_solver.
Qed.

Section Step.
Variable fuel : nat.
Hypothesis IH : ∀ c d ts, wf_tokens ts → call_wf c → (need c (length ts) ≤ fuel)%nat →
  good wf_expr (left_over c (length ts)) (run fuel c d ts).

Local Ltac call c := eapply good_bind; [apply (IH c); [done|try done|unfold need in *; simpl in *; lia]|].

Lemma parseExpr_good min d ts : wf_tokens ts → (need (CExpr min) (length ts) ≤ S fuel)%nat →
  good wf_expr (length ts) (parseExpr (run fuel) min d ts).
Proof.
  intros Hw Hn. unfold parseExpr. call CUnary. intros e ts1 He Hw1 Hl1. simpl in Hl1.
  eapply good_weaken; [apply IH; [done|done|unfold need in *; simpl in *; lia]|simpl; lia].
Qed.

Lemma parseExprLoop_good min lhs d ts : wf_tokens ts → wf_expr lhs →
  (need (CLoop min lhs) (length ts) ≤ S fuel)%nat →
  good wf_expr (S (length ts)) (parseExprLoop (run fuel) min lhs d ts).
Proof.
  intros Hw He Hn. destruct (wf_tokens_inv _ Hw) as (t & ts' & ->).
  unfold parseExprLoop. simpl.
  destruct (is_kind tokIdent t) eqn:Ek; simpl; [|split_and!; [done|done|simpl; lia]].
  apply is_kind_true in Ek.
  destruct (_ || _) eqn:Eop; simpl; [split_and!; [done|done|unfold need in *; simpl; lia]|].
  apply orb_false_iff in Eop as [Ep _]. apply Z.eqb_neq, opPrec_binops in Ep.
  apply wf_tokens_tail in Hw as [Hw _]; [|congruence]. simpl in Hn.
  call (CExpr (opPrec (to_lower (text t)) + 1)). intros r ts1 Hr Hw1 Hl1. simpl in Hl1.
  eapply good_weaken; [apply IH; [done|by constructor|unfold need in *; simpl in *; lia]|simpl; lia].
Qed.

Lemma parseUnary_good d ts : wf_tokens ts → (need CUnary (length ts) ≤ S fuel)%nat →
  good wf_expr (length ts) (parseUnary (run fuel) d ts).
Proof.
  intros Hw Hn. destruct (wf_tokens_inv _ Hw) as (t & ts' & ->).
  unfold parseUnary. simpl. destruct (maxNesting <? d + 1); [done|].
  destruct (is_kind tokIdent t && _) eqn:E.
  - apply andb_true_iff in E as [Ek _]. apply is_kind_true in Ek.
    apply wf_tokens_tail in Hw as [Hw _]; [|congruence]. simpl. simpl in Hn.
    call CUnary. intros x ts1 Hx Hw1 Hl1. simpl in Hl1. simpl.
    split_and!; [by constructor|done|lia].
  - apply IH; [done|done|unfold need in *; simpl in *; lia].
Qed.

Lemma parseItems_good op pos acc d ts : wf_tokens ts → call_wf (CItems op pos acc) →
  (need (CItems op pos acc) (length ts) ≤ S fuel)%nat →
  good wf_expr (length ts) (parseItems (run fuel) op pos acc d ts).
Proof.
  intros Hw [Hop Hacc] Hn. unfold parseItems. call (CExpr 0).
  intros e ts1 He Hw1 Hl1. simpl in Hl1.
  destruct (wf_tokens_inv _ Hw1) as (t & ts2 & ->). simpl.
  assert (He' : wf_expr (match acc with Some e0 => Binary op e0 e pos | None => e end)).
  { destruct acc; [by constructor|done]. }
  assert (Htl : kind t ≠ tokEOF → wf_tokens ts2 ∧ wf_token t) by (by apply wf_tokens_tail).
  destruct (kind t) eqn:Ek; simpl; try done; destruct Htl as [Hw2 _]; try done; simpl in Hl1.
  - split_and!; [done..|lia].
  - eapply good_weaken; [apply IH; [done|done|unfold need in *; simpl in *; lia]|simpl; lia].
Qed.

Lemma parsePrimary_good d ts : wf_tokens ts → (need CPrimary (length ts) ≤ S fuel)%nat →
  good wf_expr (length ts) (parsePrimary (run fuel) d ts).
Proof.
  intros Hw Hn. destruct (wf_tokens_inv _ Hw) as (t & ts' & ->).
  unfold parsePrimary. simpl.
  assert (Htl : kind t ≠ tokEOF → wf_tokens ts' ∧ wf_token t) by (by apply wf_tokens_tail).
  unfold wf_token in Htl. simpl in Hn.
  destruct (kind t) eqn:Ek; simpl; try done; destruct Htl as [Hw1 Ht]; try done.
  - destruct (String.eqb (to_lower (text t)) "flag") eqn:Eflag.
    { eapply good_weaken; [by apply parseFlag_good|lia]. }
    case_bool_decide as Eall.
    { unfold parseAllAny. eapply good_bind; [by apply expect_good|].
      intros _ ts2 _ Hw2 Hl2. eapply good_weaken; [apply IH; [done| |unfold need in *; simpl in *; lia]|simpl; lia].
      simpl. split; [|done]. unfold binops. destruct (String.eqb _ "any"); set_solver. }
    case_bool_decide as Ekw; [done|]. simpl. bool_to_prop.
    split_and!; [|done|lia]. constructor. split; [done|].
    unfold isKeyword, keywords. apply bool_decide_eq_false. set_solver.
  - eapply good_bind; [apply (IH (CExpr 0)); [done|done|unfold need in *; simpl; lia]|].
    intros e ts2 He Hw2 Hl2. simpl in Hl2. eapply good_bind; [by apply expect_good|].
    intros _ ts3 _ Hw3 Hl3. simpl. split_and!; [done..|lia].
Qed.
End Step.

Lemma run_good fuel c d ts : wf_tokens ts → call_wf c → (need c (length ts) ≤ fuel)%nat →
  good wf_expr (left_over c (length ts)) (run fuel c d ts).
Proof.
  revert c d ts. induction fuel as [|fuel IH]; intros c d ts Hw Hc Hn.
  { unfold need in Hn; destruct c; simpl in Hn; lia. }
  destruct c; simpl.
  - by apply (parseExpr_good fuel IH).
  - by apply (parseExprLoop_good fuel IH).
  - by apply (parseUnary_good fuel IH).
  - by apply (parsePrimary_good fuel IH).
  - by apply (parseItems_good fuel IH).
Qed.

(** Parse returns nothing, a well-formed expression, or a syntax error. *)
Lemma Parse_good src :
  match Parse src with
  | Ok (Some e) => wf_expr e
  | Ok None => trim_space src = EmptyString
  | Fail _ => True
  | _ => False
  end.
Proof.
  unfold Parse. destruct (String.eqb (trim_space src) EmptyString) eqn:Et.
  { by apply String.eqb_eq in Et. }
  pose proof (lex_from_good (String.length src) 0 src (le_n _)) as Hlex. unfold lex.
  destruct (lex_from _ _ _) as [ts| | |]; simpl; try done.
  pose proof (run_good (parse_fuel ts) (CExpr 0) 0 ts Hlex I) as Hrun.
  unfold good in Hrun. simpl in Hrun.
  destruct (run _ _ _ _) as [[e rest]| | |]; simpl; try done; try (apply Hrun; unfold parse_fuel, need; lia).
  destruct Hrun as (He & Hw & _); [unfold parse_fuel, need; lia|].
  destruct (wf_tokens_inv _ Hw) as (t & ts' & ->). simpl.
  by destruct (is_kind tokEOF t).
Qed.
End Total.

(** * More fuel, same answer *)

Definition refines {E A} (m1 m2 : outcome E A) : Prop := m1 ≠ OutOfFuel → m2 = m1.

Lemma refines_refl {E A} (m : outcome E A) : refines m m.
Proof. done. Qed.

Lemma refines_bind {E A B} (m1 m2 : outcome E A) (k1 k2 : A → outcome E B) :
  refines m1 m2 → (∀ a, refines (k1 a) (k2 a)) → refines (m1 ≫= k1) (m2 ≫= k2).
Proof.
  intros Hm Hk Hne. unfold refines in *. destruct m1; simpl in *; try done; rewrite Hm by done; simpl; auto.
Qed.

Section Fuel.
Context `{Unicode}.
Variables rec1 rec2 : call → Z → list token → presult Expr.
Hypothesis Hrec : ∀ c d ts, refines (rec1 c d ts) (rec2 c d ts).

Local Ltac step :=
  match goal with
  | |- refines ?m ?m => apply refines_refl
  | |- refines (_ ≫= _) (_ ≫= _) => apply refines_bind; [|intros]
  | |- refines (rec1 _ _ _) _ => apply Hrec
  | |- refines (match ?x with _ => _ end) _ => destruct x
  end.

Lemma parsePrimary_refines d ts : refines (parsePrimary rec1 d ts) (parsePrimary rec2 d ts).
Proof. unfold parsePrimary, parseAllAny. repeat step. Qed.
Lemma parseUnary_refines d ts : refines (parseUnary rec1 d ts) (parseUnary rec2 d ts).
Proof. unfold parseUnary. repeat step. Qed.
Lemma parseExpr_refines min d ts : refines (parseExpr rec1 min d ts) (parseExpr rec2 min d ts).
Proof. unfold parseExpr. repeat step. Qed.
Lemma parseExprLoop_refines min l d ts :
  refines (parseExprLoop rec1 min l d ts) (parseExprLoop rec2 min l d ts).
Proof. unfold parseExprLoop. repeat step. Qed.
Lemma parseItems_refines op pos acc d ts :
  refines (parseItems rec1 op pos acc d ts) (parseItems rec2 op pos acc d ts).
Proof. unfold parseItems. repeat step. Qed.
End Fuel.

Lemma run_refines `{Unicode} f1 f2 c d ts : (f1 ≤ f2)%nat → refines (run f1 c d ts) (run f2 c d ts).
Proof.
  revert f2 c d ts. induction f1 as [|f1 IH]; intros f2 c d ts Hf; [intros Hne; by destruct Hne|].
  destruct f2 as [|f2]; [lia|].
  assert (Hrec : ∀ c d ts, refines (run f1 c d ts) (run f2 c d ts)) by (intros; apply IH; lia).
  destruct c; simpl;
    auto using parseExpr_refines, parseExprLoop_refines, parseUnary_refines, parsePrimary_refines,
      parseItems_refines.
Qed.
