(* ===== verification/DslRoundtrip.v ===== *)
(** Printing a condition and parsing it back: the canonical text of a
    well-formed expression lexes to its tokens and parses to the same
    expression, positions aside. *)

From S2P Require Import Prelude GoStr GoFloat Dsl DslFacts.
From Stdlib Require Import Ascii.
Open Scope Z_scope.

(** * The tokens of an expression *)

(** The expression without its source offsets. *)
Fixpoint erase (e : Expr) : Expr :=
  match e with
  | NodeRef id _ => NodeRef id 0
  | FlagCmp f op v _ => FlagCmp f op v 0
  | Unary op x _ => Unary op (erase x) 0
  | Binary op l r _ => Binary op (erase l) (erase r) 0
  end.

Definition strip (t : token) : tokKind * string := (kind t, text t).

(** How tightly the outermost operator binds. *)
Definition level (e : Expr) : Z :=
  match e with Binary op _ _ _ => opPrec op | _ => precNot end.

Definition ptoks (b : bool) (ts : list (tokKind * string)) : list (tokKind * string) :=
  if b then (tokLParen, "(") :: ts ++ [(tokRParen, ")")] else ts.

Definition lit_tok (v : Literal) : tokKind * string :=
  if IsNum v then (tokNumber, Raw v)
  else if IsBool v then (tokIdent, Raw v)
  else (tokString, Str v).

Definition rparen_r (e : Expr) (p : Z) : bool := needsParens e p || samePrecBinary e p.

Fixpoint toks (e : Expr) : list (tokKind * string) :=
  match e with
  | NodeRef id _ => [(tokIdent, id)]
  | FlagCmp f op v _ =>
      [(tokIdent, "flag"); (tokLParen, "("); (tokIdent, f)] ++
      (if String.eqb op EmptyString then [] else [(tokCmp, op); lit_tok v]) ++
      [(tokRParen, ")")]
  | Unary _ x _ => (tokIdent, "not") :: ptoks (needsParens x precNot) (toks x)
  | Binary op l r _ =>
      ptoks (needsParens l (opPrec op)) (toks l) ++ (tokIdent, op) ::
      ptoks (rparen_r r (opPrec op)) (toks r)
  end.

(** parseUnary frames the printed form opens. *)
Definition pdepth (b : bool) (n : Z) : Z := if b then 1 + n else n.

Fixpoint depth (e : Expr) : Z :=
  match e with
  | NodeRef _ _ | FlagCmp _ _ _ _ => 1
  | Unary _ x _ => 1 + pdepth (needsParens x precNot) (depth x)
  | Binary op l r _ =>
      Z.max (pdepth (needsParens l (opPrec op)) (depth l))
            (pdepth (rparen_r r (opPrec op)) (depth r))
  end.

Section Roundtrip.
Context `{Unicode}.

(** The string literals print as they lex: no quote, backslash or
    unprintable character. *)
Definition plain_literal (v : Literal) : bool :=
  IsNum v || IsBool v ||
  (String.eqb (Raw v) (String dquote (Str v +:+ str_of_char dquote)) && negb (has_char dquote (Str v))).

Fixpoint plain (e : Expr) : bool :=
  match e with
  | NodeRef _ _ => true
  | FlagCmp _ op v _ => String.eqb op EmptyString || plain_literal v
  | Unary _ x _ => plain x
  | Binary _ l r _ => plain l && plain r
  end.

(** * Parsing, fuel aside *)

Definition parses (c : call) (d : Z) (ts : list token) (e : Expr) (rest : list token) : Prop :=
  ∃ f0, ∀ f, (f0 ≤ f)%nat → run f c d ts = Ok (e, rest).

Lemma parses_expr min d ts e1 ts1 e2 ts2 :
  parses CUnary d ts e1 ts1 → parses (CLoop min e1) d ts1 e2 ts2 →
  parses (CExpr min) d ts e2 ts2.
Proof.
  intros [f1 H1] [f2 H2]. exists (S (f1 `max` f2)). intros [|f] Hf; [lia|].
  simpl. unfold parseExpr. rewrite H1 by lia. simpl. apply H2. lia.
Qed.

Lemma parses_loop min d lhs t ts op r ts1 e2 ts2 :
  kind t = tokIdent → to_lower (text t) = op → opPrec op ≠ 0 → min ≤ opPrec op →
  parses (CExpr (opPrec op + 1)) d ts r ts1 →
  parses (CLoop min (Binary op lhs r (Pos lhs))) d ts1 e2 ts2 →
  parses (CLoop min lhs) d (t :: ts) e2 ts2.
Proof.
  intros Hk Hop Hp Hmin [f1 H1] [f2 H2]. exists (S (f1 `max` f2)). intros [|f] Hf; [lia|].
  simpl. unfold parseExprLoop. simpl. rewrite (proj2 (is_kind_true tokIdent t) Hk). simpl.
  rewrite Hop. rewrite (proj2 (Z.eqb_neq _ _) Hp), (proj2 (Z.ltb_ge _ _) Hmin). simpl.
  rewrite H1 by lia. simpl. apply H2. lia.
Qed.

(** The loop stops in front of a token that is no operator binding at
    [min] or tighter. *)
Definition stops (min : Z) (ts : list token) : Prop :=
  match ts with
  | [] => False
  | t :: _ => kind t ≠ tokIdent ∨ opPrec (to_lower (text t)) = 0 ∨ opPrec (to_lower (text t)) < min
  end.

Lemma stops_mono m n ts : stops m ts → m ≤ n → stops n ts.
Proof. destruct ts; simpl; intuition lia. Qed.

Lemma parses_stop min d lhs ts : stops min ts → parses (CLoop min lhs) d ts lhs ts.
Proof.
  destruct ts as [|t ts]; [done|]. intros Hs. exists 1%nat. intros [|f] Hf; [lia|].
  simpl. unfold parseExprLoop. simpl. destruct (is_kind tokIdent t) eqn:E; [|done]. simpl.
  apply is_kind_true in E. destruct Hs as [?|[->|Hlt]]; [done..|].
  rewrite (proj2 (Z.ltb_lt _ _) Hlt), orb_true_r. done.
Qed.

Lemma parses_primary d t ts e rest :
  d + 1 ≤ maxNesting → (kind t = tokIdent → to_lower (text t) ≠ "not") →
  parses CPrimary (d + 1) (t :: ts) e rest → parses CUnary d (t :: ts) e rest.
Proof.
  intros Hd Hnot [f1 H1]. exists (S f1). intros [|f] Hf; [lia|].
  simpl. unfold parseUnary. simpl. rewrite (proj2 (Z.ltb_ge _ _) Hd).
  destruct (is_kind tokIdent t && _) eqn:E; [|apply H1; lia].
  apply andb_true_iff in E as [Ek Et]. apply is_kind_true in Ek. apply String.eqb_eq in Et.
  by destruct Hnot.
Qed.

Lemma parses_paren d o c ts e rest :
  kind o = tokLParen → kind c = tokRParen → d + 1 ≤ maxNesting →
  parses (CExpr 0) (d + 1) (ts ++ c :: rest) e (c :: rest) →
  parses CUnary d (o :: ts ++ c :: rest) e rest.
Proof.
  intros Ho Hc Hd [f1 H1]. apply parses_primary; [done|congruence|].
  exists (S f1). intros [|f] Hf; [lia|]. simpl. unfold parsePrimary. simpl. rewrite Ho.
  rewrite H1 by lia. simpl. unfold expect. simpl.
  rewrite (proj2 (is_kind_true tokRParen c) Hc). done.
Qed.

(** * Parsing the tokens of an expression *)

(** What the induction knows of an expression: as an operand at precedence
    [min], and (when it is no binary operator) as a unary operand. *)
Definition as_expr (e : Expr) : Prop := ∀ min d ts rest,
  min ≤ level e → d + depth e ≤ maxNesting → strip <$> ts = toks e → stops (level e + 1) rest →
  ∃ e', erase e' = erase e ∧
    ∀ e2 ts2, parses (CLoop min e') d rest e2 ts2 → parses (CExpr min) d (ts ++ rest) e2 ts2.

Definition as_unary (e : Expr) : Prop := ∀ d ts rest,
  d + depth e ≤ maxNesting → strip <$> ts = toks e →
  ∃ e', erase e' = erase e ∧ parses CUnary d (ts ++ rest) e' rest.

Definition is_binary (e : Expr) : bool := match e with Binary _ _ _ _ => true | _ => false end.

Lemma unary_expr e : is_binary e = false → as_unary e → as_expr e.
Proof.
  intros _ Hu min d ts rest _ Hd Hts _. destruct (Hu d ts rest Hd Hts) as (e' & He & Hp).
  exists e'. split; [done|]. intros e2 ts2 Hl. by eapply parses_expr.
Qed.

Lemma strip_cons_inv k s ts' (ts : list token) : strip <$> ts = (k, s) :: ts' →
  ∃ t ts1, ts = t :: ts1 ∧ kind t = k ∧ text t = s ∧ strip <$> ts1 = ts'.
Proof. destruct ts as [|t ts1]; simpl; intros [= <- <- <-]. by exists t, ts1. Qed.

(** A parenthesised operand parses as a unary one, whatever it is. *)
Lemma paren_unary e d ts rest : as_expr e → 0 ≤ level e →
  d + 1 + depth e ≤ maxNesting → 0 ≤ depth e → strip <$> ts = ptoks true (toks e) →
  ∃ e', erase e' = erase e ∧ parses CUnary d (ts ++ rest) e' rest.
Proof.
  intros IH Hlev Hd Hd0 Hts. simpl in Hts.
  apply strip_cons_inv in Hts as (o & ts1 & -> & Ho & _ & Hts).
  apply fmap_app_inv in Hts as (ts2 & ts3 & Ht2 & Ht3 & ->). symmetry in Ht2, Ht3.
  apply strip_cons_inv in Ht3 as (c & ts4 & -> & Hc & _ & Ht4).
  destruct ts4; [|done].
  destruct (IH 0 (d + 1) ts2 (c :: rest)) as (e' & He & Hk); [lia|lia|done| |].
  { simpl. left. congruence. }
  exists e'. split; [done|]. simpl. rewrite <- (assoc_L (++)). simpl.
  apply parses_paren; [done|done|lia|]. apply Hk. apply parses_stop. simpl. left. congruence.
Qed.

Lemma depth_pos e : 1 ≤ depth e.
Proof.
  induction e; simpl; try lia.
  - unfold pdepth. case_match; lia.
  - unfold pdepth. repeat case_match; lia.
Qed.

Lemma level_range e : wf_expr e → 1 ≤ level e ≤ precNot.
Proof.
  intros Hw. destruct Hw as [| | | |op l r p Hop _ _]; simpl; unfold precNot; try lia.
  unfold binops in Hop. repeat (apply elem_of_cons in Hop as [->|Hop]; [vm_compute; split; congruence|]).
  set_solver.
Qed.

(** A possibly parenthesised operand at precedence [min]. *)
Lemma operand e b min d ts rest : wf_expr e → as_expr e →
  (b = false → min ≤ level e ∧ stops (level e + 1) rest) →
  d + pdepth b (depth e) ≤ maxNesting → strip <$> ts = ptoks b (toks e) →
  ∃ e', erase e' = erase e ∧
    ∀ e2 ts2, parses (CLoop min e') d rest e2 ts2 → parses (CExpr min) d (ts ++ rest) e2 ts2.
Proof.
  intros Hw IH Hb Hd Hts. pose proof (depth_pos e). pose proof (level_range e Hw). destruct b.
  - destruct (paren_unary e d ts rest) as (e' & He & Hp); [done|lia|simpl in Hd; lia|lia|done|].
    exists e'. split; [done|]. intros e2 ts2 Hl. by eapply parses_expr.
  - destruct Hb as [??]; [done|]. by apply IH.
Qed.

(** ** The two atoms *)

Lemma keyword_neq s k : isKeyword s = false → k ∈ keywords → to_lower s ≠ k.
Proof. unfold isKeyword. intros Hs%bool_decide_eq_false Hk <-. done. Qed.

Lemma ref_unary id p : wf_name id → as_unary (NodeRef id p).
Proof.
  intros [_ Hkw] d ts rest Hd Hts. simpl in *.
  apply strip_cons_inv in Hts as (t & ts' & -> & Hk & Ht & Hnil). destruct ts'; [|done].
  exists (NodeRef (text t) (tpos t)). split; [simpl; congruence|].
  assert (Hneq : ∀ k, k ∈ keywords → to_lower (text t) ≠ k).
  { intros k. rewrite Ht. by apply keyword_neq. }
  unfold keywords in Hneq. simpl. apply parses_primary; [lia|intros; apply Hneq; set_solver|].
  exists 1%nat. intros [|f] Hf; [lia|]. simpl. unfold parsePrimary. simpl. rewrite Hk.
  destruct (String.eqb (to_lower (text t)) "flag") eqn:E.
  { apply String.eqb_eq in E. destruct (Hneq "flag"); [set_solver|done]. }
  rewrite bool_decide_eq_false_2 by (intros Hin; eapply Hneq; [|done]; set_solver).
  rewrite bool_decide_eq_false_2 by (intros Hin; eapply Hneq; [|done]; set_solver).
  done.
Qed.

Lemma literal_tok v t ts : wf_literal v → plain_literal v = true → strip t = lit_tok v →
  parseLiteral (t :: ts) = Ok (v, ts).
Proof.
  intros Hw _ Ht. unfold parseLiteral. simpl. destruct Hw as [raw n Hn Hp| | |s];
    unfold lit_tok, strip in Ht; simpl in Ht; injection Ht as -> ->; simpl; try done.
  by rewrite Hp.
Qed.

Lemma expect_tok k w t ts : kind t = k → expect k w (t :: ts) = Ok (t, ts).
Proof. intros Hk. unfold expect. simpl. by rewrite (proj2 (is_kind_true k t) Hk). Qed.

Lemma flag_tokens f op v p pos ts rest : wf_expr (FlagCmp f op v p) →
  plain (FlagCmp f op v p) = true →
  strip <$> ts = tail (toks (FlagCmp f op v p)) →
  parseFlag pos (ts ++ rest) = Ok (FlagCmp f op v pos, rest).
Proof.
  intros Hw Hp Hts. simpl in Hts.
  apply strip_cons_inv in Hts as (o & ts1 & -> & Ho & _ & Hts).
  apply strip_cons_inv in Hts as (n & ts2 & -> & Hn & Hnt & Hts).
  assert (Hname : wf_name f) by (inversion Hw; done). destruct Hname as [_ Hkw].
  unfold parseFlag. simpl. rewrite expect_tok by done. simpl. rewrite expect_tok by done. simpl.
  rewrite Hnt, Hkw. destruct (String.eqb op EmptyString) eqn:Eop.
  - apply String.eqb_eq in Eop as ->. simpl in Hts.
    apply strip_cons_inv in Hts as (c & ts3 & -> & Hc & _ & Hnil). destruct ts3; [|done]. simpl.
    destruct (is_kind tokCmp c) eqn:E; [apply is_kind_true in E; congruence|].
    simpl. rewrite expect_tok by done. simpl.
    inversion Hw as [|g q Hg|g op' v' q Hg Hop Hv| |]; subst; [done|].
    unfold cmps in Hop. set_solver.
  - simpl in Hts. apply strip_cons_inv in Hts as (c & ts3 & -> & Hc & Hct & Hts).
    destruct (lit_tok v) as [lk lt] eqn:El.
    apply strip_cons_inv in Hts as (l & ts4 & -> & Hl & Hlt & Hts).
    apply strip_cons_inv in Hts as (r & ts5 & -> & Hr & _ & Hnil). destruct ts5; [|done]. simpl.
    rewrite (proj2 (is_kind_true tokCmp c) Hc). simpl.
    rewrite (literal_tok v); [| |simpl in Hp; by rewrite Eop in Hp|unfold strip; congruence].
    + simpl. rewrite expect_tok by done. simpl. by rewrite Hct.
    + apply String.eqb_neq in Eop. inversion Hw; subst; congruence || done.
Qed.

Lemma flag_unary f op v p : wf_expr (FlagCmp f op v p) → plain (FlagCmp f op v p) = true →
  as_unary (FlagCmp f op v p).
Proof.
  intros Hw Hp d ts rest Hd Hts.
  apply strip_cons_inv in Hts as (t & ts' & -> & Hk & Ht & Hts).
  exists (FlagCmp f op v (tpos t)). split; [done|]. simpl.
  assert (Hlow : to_lower (text t) = "flag") by (rewrite Ht; reflexivity).
  apply parses_primary; [simpl in Hd; lia|intros _; rewrite Hlow; done|].
  exists 1%nat. intros [|g] Hg; [lia|]. simpl. unfold parsePrimary. simpl. rewrite Hk, Hlow. simpl.
  by apply (flag_tokens _ _ _ p).
Qed.

(** ** The two operators *)

Lemma not_unary x p : wf_expr x → as_expr x → (is_binary x = false → as_unary x) →
  as_unary (Unary "not" x p).
Proof.
  intros Hw IHe IHu d ts rest Hd Hts. simpl in Hd.
  apply strip_cons_inv in Hts as (t & ts' & -> & Hk & Ht & Hts).
  assert (Hx : ∃ x', erase x' = erase x ∧ parses CUnary (d + 1) (ts' ++ rest) x' rest).
  { pose proof (depth_pos x). pose proof (level_range x Hw).
    destruct (needsParens x precNot) eqn:Eb; simpl in Hd.
    - apply paren_unary; [done|lia|lia|lia|done].
    - apply IHu; [|lia|done]. destruct x as [| | |op l r q]; try done. simpl in Eb.
      apply Z.ltb_ge in Eb. simpl in *. exfalso.
      inversion Hw as [| | | |? ? ? ? Hop]; subst. unfold binops in Hop.
      repeat (apply elem_of_cons in Hop as [->|Hop]; [vm_compute in Eb; done|]). set_solver. }
  destruct Hx as (x' & Hx' & f1 & Hf1). exists (Unary "not" x' (tpos t)).
  split; [simpl; congruence|]. exists (S f1). intros [|f] Hf; [lia|]. simpl.
  unfold parseUnary. simpl. pose proof (depth_pos x). unfold pdepth in Hd.
  rewrite (proj2 (Z.ltb_ge _ _)) by (case_match; lia).
  rewrite (proj2 (is_kind_true tokIdent t) Hk), Ht. simpl. rewrite Hf1 by lia. done.
Qed.

Lemma binop_lower op : op ∈ binops → to_lower op = op ∧ opPrec op ≠ 0.
Proof.
  unfold binops. intros Hop.
  repeat (apply elem_of_cons in Hop as [->|Hop]; [split; [reflexivity|done]|]). set_solver.
Qed.

Lemma no_parens_level x p : needsParens x p = false → wf_expr x → p ≤ precNot → p ≤ level x.
Proof. destruct x; simpl; intros Hp Hw ?; try lia. Qed.

Lemma no_rparens_level x p : rparen_r x p = false → wf_expr x → p < precNot → p + 1 ≤ level x.
Proof.
  unfold rparen_r. destruct x; simpl; intros Hp Hw ?; lia.
Qed.

Lemma bin_expr op l r p : op ∈ binops → wf_expr l → wf_expr r → as_expr l → as_expr r →
  as_expr (Binary op l r p).
Proof.
  intros Hop Hwl Hwr IHl IHr min d ts rest Hmin Hd Hts Hstop.
  destruct (binop_lower op Hop) as [Hlow Hprec].
  assert (Hp : 1 ≤ opPrec op < precNot).
  { unfold opPrec, precNot, precOr, precXor, precAnd in *. repeat case_match; lia. }
  simpl in Hmin, Hd, Hts, Hstop.
  apply fmap_app_inv in Hts as (tl & tr0 & Htl & Htr & ->). symmetry in Htl, Htr.
  apply strip_cons_inv in Htr as (t & tr & -> & Hk & Ht & Htr).
  rewrite <- (assoc_L (++)). simpl.
  destruct (operand l (needsParens l (opPrec op)) min d tl (t :: tr ++ rest))
    as (l' & Hl' & Hpl); [done|done| |lia|done|].
  { intros Hb. pose proof (no_parens_level l _ Hb Hwl). split; [lia|].
    simpl. right. right. rewrite Ht, Hlow. lia. }
  destruct (operand r (rparen_r r (opPrec op)) (opPrec op + 1) d tr rest)
    as (r' & Hr' & Hpr); [done|done| |lia|done|].
  { intros Hb. pose proof (no_rparens_level r _ Hb Hwr). split; [lia|].
    eapply stops_mono; [done|lia]. }
  exists (Binary op l' r' (Pos l')). split; [simpl; congruence|].
  intros e2 ts2 Hloop. apply Hpl. eapply parses_loop; [done|by rewrite Ht|done|lia| |done].
  apply Hpr, parses_stop. done.
Qed.

Lemma parse_toks e : wf_expr e → plain e = true →
  as_expr e ∧ (is_binary e = false → as_unary e).
Proof.
  induction e as [id p|f op v p|op x IH p|op l IHl r IHr p]; intros Hw Hp.
  - assert (as_unary (NodeRef id p)) by (apply ref_unary; by inversion Hw).
    split; [by apply unary_expr|done].
  - assert (as_unary (FlagCmp f op v p)) by (by apply flag_unary).
    split; [by apply unary_expr|done].
  - assert (op = "not") as -> by (by inversion Hw).
    assert (Hx : wf_expr x) by (by inversion Hw). destruct IH as [IHe IHu]; [done..|].
    assert (as_unary (Unary "not" x p)) by (by apply not_unary).
    split; [by apply unary_expr|done].
  - simpl in Hp. apply andb_true_iff in Hp as [??]. inversion Hw; subst.
    destruct IHl, IHr; try done. split; [by apply bin_expr|done].
Qed.
End Roundtrip.

(** * Lexing canonical text *)

(** [s] lexes to tokens of those kinds and texts, wherever it starts. *)
Definition lexes (s : string) (ts : list (tokKind * string)) : Prop :=
  ∀ i fuel, (String.length s ≤ fuel)%nat → ∃ l, lex_from fuel i s = Ok l ∧ strip <$> l = ts.

Lemma lexes_nil : lexes EmptyString [(tokEOF, EmptyString)].
Proof. intros i [|fuel] _; by eexists. Qed.

Lemma lexes_space s ts : lexes s ts → lexes (" " +:+ s) ts.
Proof.
  intros Hs i fuel Hf. rewrite str_app_cons, str_app_nil_l in *. simpl in Hf.
  destruct fuel as [|fuel]; [lia|]. simpl. apply Hs. lia.
Qed.

(** One token: the source from here on is [w +:+ s], the lexer emits [(k, t)]
    for [w] and goes on at [s]. *)
Lemma lexes_emit c w s k t ts : lexes s ts →
  (∀ fuel i, ∃ j, lex_from (S fuel) i (String c w +:+ s) =
     (l ← lex_from fuel j s; Ok (mkToken k t i :: l))) →
  lexes (String c w +:+ s) ((k, t) :: ts).
Proof.
  intros Hs Hstep i fuel Hf. rewrite str_app_cons in Hf. simpl in Hf. rewrite str_length_app in Hf.
  destruct fuel as [|fuel]; [lia|]. destruct (Hstep fuel i) as [j ->].
  destruct (Hs j fuel) as (l & -> & Hl); [lia|].
  simpl. eexists. split; [done|]. rewrite fmap_cons. by f_equal.
Qed.

Lemma lexes_lparen s ts : lexes s ts → lexes ("(" +:+ s) ((tokLParen, "(") :: ts).
Proof. intros Hs. apply lexes_emit; [done|]. intros. by eexists. Qed.

Lemma lexes_rparen s ts : lexes s ts → lexes (")" +:+ s) ((tokRParen, ")") :: ts).
Proof. intros Hs. apply lexes_emit; [done|]. intros. by eexists. Qed.

(** The source goes on with a byte outside [f], or ends. *)
Definition breaks (f : ascii → bool) (s : string) : Prop :=
  match s with String c _ => f c = false | EmptyString => True end.

Lemma span_app f a s : str_all f a = true → breaks f s → span f (a +:+ s) = (a, s).
Proof.
  intros Ha Hs. induction a as [|c a IH]; simpl in *.
  - rewrite str_app_nil_l. destruct s as [|d s]; [done|]. simpl. by rewrite Hs.
  - apply andb_true_iff in Ha as [Hc Ha]. by rewrite Hc, (IH Ha).
Qed.

(** The first bytes the lexer tests one by one before it tries an
    identifier. *)
Definition special (c : ascii) : bool :=
  blank c || Ascii.eqb c "(" || Ascii.eqb c ")" || Ascii.eqb c "," ||
  (Ascii.eqb c "=" || Ascii.eqb c "!" || Ascii.eqb c ">" || Ascii.eqb c "<") ||
  (Ascii.eqb c dquote || Ascii.eqb c squote).

Lemma ident_start_class c : isIdentStart c = true →
  special c = false ∧ is_digit c = false ∧ Ascii.eqb c "-" = false.
Proof. destruct c as [[] [] [] [] [] [] [] []]; vm_compute; intros; (split_and!; done) || done. Qed.

Lemma number_start_class c : is_digit c || Ascii.eqb c "-" = true → special c = false.
Proof. destruct c as [[] [] [] [] [] [] [] []]; vm_compute; done. Qed.

Lemma special_false c : special c = false →
  blank c = false ∧ Ascii.eqb c "(" = false ∧ Ascii.eqb c ")" = false ∧ Ascii.eqb c "," = false ∧
  Ascii.eqb c "=" || Ascii.eqb c "!" || Ascii.eqb c ">" || Ascii.eqb c "<" = false ∧
  Ascii.eqb c dquote || Ascii.eqb c squote = false.
Proof. unfold special. rewrite !orb_false_iff. tauto. Qed.

Lemma lexes_ident w s ts : ident w = true → breaks isIdentPart s → lexes s ts →
  lexes (w +:+ s) ((tokIdent, w) :: ts).
Proof.
  intros Hw Hb Hs. destruct w as [|c w]; [done|]. simpl in Hw.
  apply andb_true_iff in Hw as [Hc Hw]. apply lexes_emit; [done|]. intros fuel i.
  destruct (ident_start_class c Hc) as (Hsp & Hd & Hm).
  apply special_false in Hsp as (H1 & H2 & H3 & H4 & H5 & H6).
  rewrite str_app_cons. simpl. rewrite H1, H2, H3, H4, H5, H6, Hd, Hm, Hc. simpl.
  unfold lexIdent. rewrite <- str_app_cons, span_app by done. by eexists.
Qed.

Lemma lexes_number w s ts : number w = true → breaks number_byte s → lexes s ts →
  lexes (w +:+ s) ((tokNumber, w) :: ts).
Proof.
  intros Hw Hb Hs. destruct w as [|c w]; [done|]. simpl in Hw.
  apply lexes_emit; [done|]. intros fuel i.
  assert (Hc : is_digit c || (Ascii.eqb c "-" && starts_digit (w +:+ s)) = true).
  { destruct (Ascii.eqb c "-"); [|by apply andb_true_iff in Hw as [-> _]].
    apply andb_true_iff in Hw as [Hw _]. destruct w; [done|]. simpl in *. by rewrite Hw, orb_true_r. }
  assert (Hsp : special c = false).
  { apply number_start_class. destruct (is_digit c); [done|]. by apply andb_true_iff in Hc as [-> _]. }
  apply special_false in Hsp as (H1 & H2 & H3 & H4 & H5 & H6).
  assert (Hnum : lexNumber (String c w +:+ s) = (String c w, s)).
  { rewrite str_app_cons. unfold lexNumber. destruct (Ascii.eqb c "-") eqn:Em.
    - apply andb_true_iff in Hw as [_ Hw]. by rewrite span_app.
    - apply andb_true_iff in Hw as [_ Hw]. by rewrite <- str_app_cons, span_app. }
  rewrite str_app_cons. simpl. rewrite H1, H2, H3, H4, H5, H6.
  fold (starts_digit (w +:+ s)). rewrite Hc. rewrite <- str_app_cons, Hnum. by eexists.
Qed.

Lemma lexString_app q a s : has_char q a = false → lexString q (a +:+ String q s) = Some (a, s).
Proof.
  intros Ha. induction a as [|c a IH]; simpl in *.
  - by rewrite Ascii.eqb_refl.
  - unfold has_char in Ha. simpl in Ha. apply orb_false_iff in Ha as [Hc Ha].
    rewrite ?str_app_cons. simpl. rewrite Ascii.eqb_sym, Hc. by rewrite IH.
Qed.

Lemma lexes_string w s ts : has_char dquote w = false → lexes s ts →
  lexes (String dquote (w +:+ str_of_char dquote) +:+ s) ((tokString, w) :: ts).
Proof.
  intros Hw Hs. apply lexes_emit; [done|]. intros fuel i.
  autorewrite with gostr. unfold str_of_char. autorewrite with gostr. simpl.
  rewrite lexString_app by done. by eexists.
Qed.

Lemma lexes_cmp op s ts : op ∈ cmps → lexes s ts → lexes (op +:+ " " +:+ s) ((tokCmp, op) :: ts).
Proof.
  intros Hop Hs. assert (Hs' : lexes (" " +:+ s) ts) by (by apply lexes_space).
  unfold cmps in Hop.
  repeat (apply elem_of_cons in Hop as [->|Hop];
    [apply lexes_emit; [done|]; intros; by eexists|]). set_solver.
Qed.

Section Print.
Context `{Unicode}.

Lemma lexes_name w s ts : wf_name w → breaks isIdentPart s → lexes s ts →
  lexes (w +:+ s) ((tokIdent, w) :: ts).
Proof. intros [Hw _]. by apply lexes_ident. Qed.

Lemma lexes_literal v s ts : wf_literal v → plain_literal v = true → lexes s ts →
  lexes (Raw v +:+ ")" +:+ s) (lit_tok v :: (tokRParen, ")") :: ts).
Proof.
  intros Hv Hp Hs. assert (Hs' : lexes (")" +:+ s) ((tokRParen, ")") :: ts)) by (by apply lexes_rparen).
  destruct Hv as [raw n Hn _| | |w]; unfold lit_tok; simpl.
  - by apply lexes_number.
  - by apply lexes_ident.
  - by apply lexes_ident.
  - unfold plain_literal in Hp. cbn [IsNum IsBool Raw Str orb] in Hp. apply andb_true_iff in Hp as [Hq Hd].
    apply String.eqb_eq in Hq. apply negb_true_iff in Hd.
    rewrite Hq. by apply lexes_string.
Qed.

Lemma lexes_parens b e s ts :
  (∀ s ts, breaks isIdentPart s → lexes s ts → lexes (print e +:+ s) (toks e ++ ts)) →
  breaks isIdentPart s → lexes s ts →
  lexes (parens b (print e) +:+ s) (ptoks b (toks e) ++ ts).
Proof.
  intros IH Hb Hs. destruct b; simpl; [|by apply IH].
  rewrite !str_app_assoc. apply lexes_lparen. rewrite <- (assoc_L (++)).
  apply IH; [done|]. by apply lexes_rparen.
Qed.

Lemma lexes_print e : wf_expr e → plain e = true → ∀ s ts,
  breaks isIdentPart s → lexes s ts → lexes (print e +:+ s) (toks e ++ ts).
Proof.
  induction e as [id p|f op v p|op x IH p|op l IHl r IHr p]; intros Hw Hp s ts Hb Hs.
  - simpl. apply lexes_name; [by inversion Hw|done..].
  - assert (Hf : wf_name f) by (by inversion Hw). simpl.
    assert (Hpre : ∀ s ts, breaks isIdentPart s → lexes s ts →
      lexes ("flag(" +:+ f +:+ s) ((tokIdent, "flag") :: (tokLParen, "(") :: (tokIdent, f) :: ts)).
    { intros s' ts' Hb' Hs'. change "flag(" with ("flag" +:+ "("). rewrite str_app_assoc.
      apply lexes_ident; [done..|]. apply lexes_lparen. by apply lexes_name. }
    destruct (String.eqb op EmptyString) eqn:Eop; rewrite !str_app_assoc; simpl.
    + apply Hpre; [done|]. by apply lexes_rparen.
    + apply String.eqb_neq in Eop. apply Hpre; [done|]. apply lexes_space.
      simpl in Hp. rewrite (proj2 (String.eqb_neq _ _) Eop) in Hp. simpl in Hp.
      inversion Hw; subst; [done|]. apply lexes_cmp; [done|]. by apply lexes_literal.
  - assert (op = "not") as -> by (by inversion Hw).
    assert (Hx : wf_expr x) by (by inversion Hw). simpl.
    change "not " with ("not" +:+ " "). rewrite !str_app_assoc.
    apply lexes_ident; [done..|]. apply lexes_space. apply lexes_parens; [by apply IH|done..].
  - simpl in Hp. apply andb_true_iff in Hp as [Hpl Hpr].
    assert (Hop : op ∈ binops ∧ wf_expr l ∧ wf_expr r) by (by inversion Hw).
    destruct Hop as (Hop & Hl & Hr). simpl. rewrite !str_app_assoc, <- (assoc_L (++)). simpl.
    apply lexes_parens; [by apply IHl|done|]. apply lexes_space.
    assert (Hid : ident op = true).
    { unfold binops in Hop. repeat (apply elem_of_cons in Hop as [->|Hop]; [done|]). set_solver. }
    apply lexes_ident; [done..|]. apply lexes_space. apply lexes_parens; [by apply IHr|done..].
Qed.
End Print.

(** * Canonical text is not blank *)

(** Runs of white-space encodings. *)
Inductive spaces (is2 : ascii → ascii → bool) (is3 : ascii → ascii → ascii → bool) : string → Prop :=
  | spaces_nil : spaces is2 is3 EmptyString
  | spaces_1 a s : ascii_space a = true → spaces is2 is3 s → spaces is2 is3 (String a s)
  | spaces_2 a b s : is2 a b = true → spaces is2 is3 s → spaces is2 is3 (String a (String b s))
  | spaces_3 a b c s : is3 a b c = true → spaces is2 is3 s → spaces is2 is3 (String a (String b (String c s))).

Lemma spaces_app is2 is3 s t : spaces is2 is3 s → spaces is2 is3 t → spaces is2 is3 (s +:+ t).
Proof.
  intros Hs Ht. induction Hs; rewrite ?str_app_cons, ?str_app_nil_l; [done|..];
    by econstructor.
Qed.

Lemma spaces_trim is2 is3 n s : (String.length s ≤ n)%nat →
  spaces is2 is3 (trim_spaces is2 is3 s) → spaces is2 is3 s.
Proof.
  revert s. induction n as [|n IH]; intros [|a s1] Hn Ht; simpl in *; try lia; try done.
  destruct (ascii_space a) eqn:Ea; [constructor; [done|apply IH; [lia|done]]|].
  destruct s1 as [|b s2]; [done|]. destruct (is2 a b) eqn:Eb.
  { constructor; [done|]. apply IH; [simpl in Hn; lia|done]. }
  destruct s2 as [|c s3]; [done|]. destruct (is3 a b c) eqn:Ec; [|done].
  constructor; [done|]. apply IH; [simpl in Hn; lia|done].
Qed.

Lemma spaces_rev s : spaces (λ b a, space2 a b) (λ c b a, space3 a b c) s →
  spaces space2 space3 (String.rev s).
Proof.
  induction 1; rewrite ?rev_cons; [constructor|..]; rewrite ?str_app_assoc;
    (apply spaces_app; [done|]); unfold str_of_char; rewrite ?str_app_cons, ?str_app_nil_l;
    constructor; try done; constructor.
Qed.

Lemma trim_space_blank s : trim_space s = EmptyString → spaces space2 space3 s.
Proof.
  unfold trim_space. intros Ht. apply (spaces_trim _ _ (String.length s)); [done|].
  set (left := trim_spaces space2 space3 s) in *.
  rewrite <- (rev_involutive left). apply spaces_rev.
  apply (spaces_trim _ _ (String.length (String.rev left))); [done|].
  apply (f_equal String.rev) in Ht. rewrite rev_involutive in Ht. rewrite Ht. constructor.
Qed.

(** White space lexes to nothing, or not at all: the lexer knows only four of
    the white-space characters. *)
Lemma lex_spaces s : spaces space2 space3 s → ∀ fuel i l,
  lex_from fuel i s = Ok l → strip <$> l = [(tokEOF, EmptyString)].
Proof.
  assert (Hfail : ∀ a b r fuel i l, isIdentPart b = false ∧ isIdentStart b = false ∧ special b = false ∧
    is_digit b = false ∧ Ascii.eqb b "-" = false → 128 ≤ byte_val a →
    lex_from fuel i (String a (String b r)) ≠ Ok l).
  { intros a b r fuel i l (H1 & H2 & H3 & H4 & H5) Ha.
    assert (Hb : ∀ fuel j l, lex_from fuel j (String b r) ≠ Ok l).
    { intros [|f] j l'; [done|]. apply special_false in H3 as (S1 & S2 & S3 & S4 & S5 & S6).
      simpl. by rewrite S1, S2, S3, S4, S5, S6, H4, H5, H2. }
    destruct fuel as [|fuel]; [done|].
    assert (Hsp : special a = false ∧ is_digit a = false ∧ Ascii.eqb a "-" = false).
    { clear -Ha. destruct a as [[] [] [] [] [] [] [] []]; vm_compute in Ha |- *; done. }
    destruct Hsp as (Hsp & Hd & Hm). apply special_false in Hsp as (S1 & S2 & S3 & S4 & S5 & S6).
    simpl. rewrite S1, S2, S3, S4, S5, S6, Hd, Hm. simpl.
    destruct (isIdentStart a) eqn:Es; [|done]. unfold lexIdent. simpl.
    rewrite (ident_start_part _ Es), H1. simpl.
    destruct (lex_from fuel _ _) eqn:El; simpl; try done. exfalso. by eapply Hb. }
  assert (Hrange : ∀ a b, space2 a b = true ∨ (∃ c, space3 a b c = true) →
    (isIdentPart b = false ∧ isIdentStart b = false ∧ special b = false ∧
     is_digit b = false ∧ Ascii.eqb b "-" = false) ∧ 128 ≤ byte_val a).
  { intros a b Hab.
    assert (Hb : (byte_val b = 133 ∨ byte_val b = 160 ∨ byte_val b = 154 ∨ byte_val b = 128 ∨
                  byte_val b = 129) ∧ 128 ≤ byte_val a).
    { unfold space2, space3, in_range in Hab. destruct Hab as [Hab|[c Hab]]; lia. }
    destruct Hb as [Hb ?]. split; [|done]. clear -Hb.
    destruct b as [[] [] [] [] [] [] [] []]; vm_compute in Hb |- *; first [done|lia]. }
  induction 1 as [|a s Ha Hs IH|a b s Ha Hs IH|a b c s Ha Hs IH]; intros fuel i l Hl.
  - destruct fuel; simpl in Hl; by simplify_eq.
  - destruct fuel as [|fuel]; [done|]. simpl in Hl.
    destruct (blank a) eqn:Eb; [by eapply IH|].
    clear -Ha Hl Eb. exfalso. destruct a as [[] [] [] [] [] [] [] []]; vm_compute in Ha, Eb; done.
  - exfalso. destruct (Hrange a b) as [??]; [by left|]. by eapply Hfail.
  - exfalso. destruct (Hrange a b) as [??]; [right; eauto|]. by eapply Hfail.
Qed.

(** * Round trips *)

Section Roundtrips.
Context `{Unicode}.

Lemma print_not_blank e : wf_expr e → plain e = true → trim_space (print e) ≠ EmptyString.
Proof.
  intros Hw Hp Hb%trim_space_blank.
  destruct (lexes_print e Hw Hp EmptyString [(tokEOF, EmptyString)] I lexes_nil 0
    (String.length (print e))) as (l & Hl & Ht).
  { by rewrite str_app_nil_r. }
  rewrite str_app_nil_r in Hl. rewrite (lex_spaces _ Hb _ _ _ Hl) in Ht.
  destruct e; simpl in Ht; try done. apply (f_equal length) in Ht.
  rewrite !length_app in Ht. simpl in Ht. lia.
Qed.

(** The canonical text of a well-formed expression parses back to it. *)
Lemma Parse_print e : wf_expr e → plain e = true → depth e ≤ maxNesting →
  ∃ e', Parse (print e) = Ok (Some e') ∧ erase e' = erase e.
Proof.
  intros Hw Hp Hd. unfold Parse.
  rewrite (proj2 (String.eqb_neq _ _) (print_not_blank e Hw Hp)).
  destruct (lexes_print e Hw Hp EmptyString [(tokEOF, EmptyString)] I lexes_nil 0
    (String.length (print e))) as (l & Hl & Ht).
  { by rewrite str_app_nil_r. }
  rewrite str_app_nil_r in Hl. unfold lex. rewrite Hl. simpl.
  pose proof (lex_from_good (String.length (print e)) 0 (print e) (le_n _)) as Hlex. rewrite Hl in Hlex.
  apply fmap_app_inv in Ht as (ts & eof & Hts & Heof & ->). symmetry in Hts, Heof.
  apply strip_cons_inv in Heof as (t & nil & -> & Hk & _ & Hnil). destruct nil; [|done].
  destruct (proj1 (parse_toks e Hw Hp) 0 0 ts [t]) as (e' & He & Hpar).
  { pose proof (level_range e Hw). lia. }
  { lia. }
  { done. }
  { simpl. left. congruence. }
  destruct (Hpar e' [t]) as [f0 Hf0]. { apply parses_stop. simpl. left. congruence. }
  pose proof (run_good (parse_fuel (ts ++ [t])) (CExpr 0) 0 (ts ++ [t]) Hlex I) as Hgood.
  pose proof (run_refines (parse_fuel (ts ++ [t])) (f0 `max` parse_fuel (ts ++ [t])) (CExpr 0) 0
    (ts ++ [t]) ltac:(lia)) as Href.
  rewrite (Hf0 (f0 `max` parse_fuel (ts ++ [t]))%nat) in Href by lia.
  rewrite <- Href.
  2:{ intros Hout. rewrite Hout in Hgood. apply Hgood. unfold parse_fuel, need. lia. }
  simpl. rewrite (proj2 (is_kind_true tokEOF t) Hk). simpl. by exists e'.
Qed.

Lemma Eval_erase e ctx : Eval (erase e) ctx = Eval e ctx.
Proof.
  induction e as [id p|f op v p|op x IH p|op l IHl r IHr p]; simpl; try done.
  - by rewrite IH.
  - by rewrite IHl, IHr.
Qed.

Lemma erase_Eval e e' ctx : erase e' = erase e → Eval e' ctx = Eval e ctx.
Proof. intros He. by rewrite <- (Eval_erase e'), He, Eval_erase. Qed.

(** Renaming and pruning keep an expression well formed, and plain, and no
    deeper. *)
Lemma rename_wf e rename : wf_expr e → (∀ id, wf_name (renamed rename id) ∨ id ∉ all_refs e) →
  wf_expr (RenameNodeRefs e rename).
Proof.
  induction 1 as [id p Hn|f p Hf|f op v p Hf Hop Hv|x p Hx IH|op l r p Hop Hl IHl Hr IHr]; intros Hr';
    simpl; try (by constructor).
  - destruct (Hr' id) as [Hid|Hid]; [|unfold all_refs in Hid; simpl in Hid; set_solver].
    unfold renamed in Hid. destruct (String.eqb (rename id) EmptyString); by constructor.
  - constructor. by apply IH.
  - constructor; [done|apply IHl|apply IHr]; intros id; destruct (Hr' id) as [?|Hid]; auto;
      right; rewrite all_refs_binary in Hid; set_solver.
Qed.

Lemma rename_shape e rename :
  level (RenameNodeRefs e rename) = level e ∧
  (∀ p, needsParens (RenameNodeRefs e rename) p = needsParens e p) ∧
  (∀ p, rparen_r (RenameNodeRefs e rename) p = rparen_r e p) ∧
  depth (RenameNodeRefs e rename) = depth e ∧ plain (RenameNodeRefs e rename) = plain e.
Proof.
  induction e as [id p|f op v p|op x IH p|op l IHl r IHr p]; simpl.
  - by destruct (String.eqb (rename id) EmptyString).
  - done.
  - destruct IH as (H1 & H2 & H3 & H4 & H5). by rewrite H2, H4, H5.
  - destruct IHl as (H1 & H2 & H3 & H4 & H5), IHr as (J1 & J2 & J3 & J4 & J5).
    by rewrite H2, H4, H5, J3, J4, J5.
Qed.
End Roundtrips.

(** * The properties of the language *)

(** Parse terminates on every source with an expression, nothing (blank
    source) or a syntax error: the parser never reads past the token list
    (no panic), the fuel of the model is enough, and an expression it returns
    is well formed (identifiers that are no keywords, the operators of the
    grammar, literals that match their text). *)
Theorem parse_settles `{Unicode} (src : string) :
  settled (Parse src) ∧ ∀ e, Parse src = Ok (Some e) → wf_expr e.
Proof.
  pose proof (Parse_good src) as Hg.
  destruct (Parse src) as [[e|]| | |]; simpl in *; try done; (split; [done|]); naive_solver.
Qed.

(** C36: printing is a right inverse of parsing.  The canonical text of an
    expression that came out of Parse parses back to the same expression, up
    to source offsets, as long as its string literals need no escape and the
    canonical form nests at most 256 levels. *)
Theorem parse_print_roundtrip `{Unicode} (src : string) (e : Expr)
    (Hparse : Parse src = Ok (Some e)) (Hplain : plain e = true) (Hdepth : depth e ≤ maxNesting) :
  ∃ e', Parse (print e) = Ok (Some e') ∧ erase e' = erase e.
Proof. apply Parse_print; [|done..]. pose proof (Parse_good src) as Hg. by rewrite Hparse in Hg. Qed.

Definition gate_source : string := "all(a, b nor c) xor not flag(karma >= 3.5) and d".

Definition parsed (src : string) : Expr :=
  match Parse src with Ok (Some e) => e | _ => NodeRef EmptyString 0 end.

Lemma parse_print_roundtrip_witness :
  ∃ e', Parse (print (parsed gate_source)) = Ok (Some e') ∧ erase e' = erase (parsed gate_source).
Proof. apply (parse_print_roundtrip gate_source); vm_compute; congruence. Defined.

(** The value of a condition depends only on the nodes and flags it names:
    two contexts that agree on NodeRefs and FlagRefs evaluate it alike. *)
Theorem eval_depends_on_refs (e : Expr) (c1 c2 : Context)
    (Hnodes : ∀ id, id ∈ NodeRefs e → Done c1 id = Done c2 id)
    (Hflags : ∀ f, f ∈ FlagRefs e → Flags c1 !! f = Flags c2 !! f) :
  Eval e c1 = Eval e c2.
Proof.
  apply Eval_ext; intros x Hx; [apply Hnodes|apply Hflags]; by autorewrite with refs.
Qed.

Lemma eval_depends_on_refs_witness :
  Eval (parsed "a or b") (mkContext (λ id, String.eqb id "a") ∅) =
  Eval (parsed "a or b") (mkContext (λ id, String.eqb id "a" || String.eqb id "z") ∅).
Proof.
  apply eval_depends_on_refs; [|done]. intros id Hid. vm_compute in Hid.
  repeat (apply elem_of_cons in Hid as [->|Hid]; [done|]). by apply elem_of_nil in Hid.
Defined.

(** Renaming references and writing the condition back, as a project
    transfer does, keeps its meaning: the renamed text parses, its value is
    the old one with every node read under its new name, and it names exactly
    the renamed nodes. *)
Theorem rename_roundtrip `{Unicode} (src : string) (e : Expr) (rename : string → string)
    (Hparse : Parse src = Ok (Some e)) (Hplain : plain e = true) (Hdepth : depth e ≤ maxNesting)
    (Hnames : ∀ id, id ∈ NodeRefs e → wf_name (renamed rename id)) :
  ∃ e', Parse (print (RenameNodeRefs e rename)) = Ok (Some e') ∧
    (∀ ctx, Eval e' ctx = Eval e (mkContext (λ id, Done ctx (renamed rename id)) (Flags ctx))) ∧
    (∀ id, id ∈ NodeRefs e' ↔ id ∈ renamed rename <$> NodeRefs e).
Proof.
  destruct (rename_shape e rename) as (_ & _ & _ & Hd & Hp).
  assert (Hw : wf_expr e) by (pose proof (Parse_good src) as Hg; by rewrite Hparse in Hg).
  destruct (Parse_print (RenameNodeRefs e rename)) as (e' & He' & Heq).
  - apply rename_wf; [done|]. intros id. destruct (decide (id ∈ all_refs e)); [left|by right].
    apply Hnames. by autorewrite with refs.
  - congruence.
  - lia.
  - exists e'. split_and!; [done| |].
    + intros ctx. rewrite (erase_Eval _ _ _ Heq). apply Eval_rename.
    + intros id. rewrite elem_of_NodeRefs.
      assert (Hrefs : ∀ x, all_refs (erase x) = all_refs x).
      { clear. intros x. induction x; try done. simpl. by rewrite !all_refs_binary, IHx1, IHx2. }
      rewrite <- Hrefs, Heq, Hrefs, all_refs_rename, !list_elem_of_fmap.
      setoid_rewrite elem_of_NodeRefs. done.
Qed.

Lemma rename_roundtrip_witness :
  let e := parsed "a and not (b or flag(mood == happy))" in
  let rename id := (id +:+ "-2") in
  ∃ e', Parse (print (RenameNodeRefs e rename)) = Ok (Some e') ∧
    (∀ ctx, Eval e' ctx = Eval e (mkContext (λ id, Done ctx (renamed rename id)) (Flags ctx))) ∧
    (∀ id, id ∈ NodeRefs e' ↔ id ∈ renamed rename <$> NodeRefs e).
Proof.
  apply (rename_roundtrip "a and not (b or flag(mood == happy))"); [done|done|vm_compute; congruence|].
  intros id Hid. vm_compute in Hid.
  repeat (apply elem_of_cons in Hid as [->|Hid]; [done|]). by apply elem_of_nil in Hid.
Defined.

(** Pruning removes exactly the references it is told to drop, keeps the
    order of the others and every flag test, and yields nothing only when
    every leaf of the condition was a dropped reference. *)
Theorem prune_exact (e : Expr) (drop : string → bool) :
  match PruneNodeRefs e drop with
  | Some e' => NodeRefs e' = filter (λ id, drop id = false) (NodeRefs e) ∧ FlagRefs e' = FlagRefs e
  | None => (∀ id, id ∈ NodeRefs e → drop id = true) ∧ FlagRefs e = []
  end.
Proof.
  pose proof (prune_leaves e drop) as Hp.
  change (NodeRefs e) with (distinct [] (all_refs e)).
  change (FlagRefs e) with (distinct [] (all_flags e)).
  destruct (PruneNodeRefs e drop) as [e'|].
  - change (NodeRefs e') with (distinct [] (all_refs e')).
    change (FlagRefs e') with (distinct [] (all_flags e')).
    destruct Hp as (Hn & Hf & _). rewrite Hn, Hf. split; [|done]. apply (distinct_filter (keep drop)).
  - destruct Hp as [Hn Hf]. rewrite Hf. split; [|done].
    intros id [Hid _]%elem_of_distinct. destruct (drop id) eqn:Ed; [done|].
    assert (Hin : id ∈ filter (keep drop) (all_refs e)) by (by apply list_elem_of_filter).
    rewrite Hn in Hin. by apply elem_of_nil in Hin.
Qed.

(** Canonical text is not always a faithful copy: an accepted condition
    whose string literal holds a quote prints as text that Parse rejects, and
    one whose literal holds a backslash prints as text with another value
    (strconv.Quote escapes, the lexer has no escapes). *)
Theorem escaped_literal_breaks :
  (let src := "flag(mood == 'a" +:+ str_of_char dquote +:+ "b')" in
   wf_expr (parsed src) ∧ Parse (print (parsed src)) = Fail (mkParseError 18 UnterminatedString)) ∧
  (let src := "flag(path == 'a\b')" in
   let ctx := mkContext (λ _, false) {[ "path" := VString "a\b" ]} in
   Eval (parsed src) ctx = true ∧ Eval (parsed (print (parsed src))) ctx = false).
Proof.
  split; [|by vm_compute]. intros src. split; [|by vm_compute].
  pose proof (Parse_good src) as Hg. unfold parsed.
  destruct (Parse src) as [[e|]| | |] eqn:E; [done|vm_compute in E; done..].
Qed.
