(* ===== verification/Graph.v ===== *)
(** The graph model (internal/engine/graph.go): the records of graph.yaml, the
    checks on node ids and project links, and the lookups.  A Go pointer that
    may be nil is an [option]; Go's [int] is a [Z] (64 bits, and every
    arithmetic use below stays far from the bounds); a Go map is a [gmap],
    whose iteration order, unspecified in Go, is [map_to_list]'s. *)

From S2P Require Import Prelude GoStr GoFloat Dsl.
From Stdlib Require Import Ascii.
Open Scope Z_scope.

(** * Identifiers *)

Definition ascii_letter (c : ascii) : bool :=
  in_range 65 90 (byte_val c) || in_range 97 122 (byte_val c).

(** The classes of nodeIDPattern, [A-Za-z_][A-Za-z0-9_.-]*. *)
Definition node_id_start (c : ascii) : bool := ascii_letter c || Ascii.eqb c "_".
Definition node_id_part (c : ascii) : bool :=
  node_id_start c || is_digit c || Ascii.eqb c "." || Ascii.eqb c "-".

Definition nodeIDPattern (id : string) : bool :=
  match id with
  | EmptyString => false
  | String c rest => node_id_start c && str_all node_id_part rest
  end.

Definition ValidNodeID (id : string) : bool :=
  (String.length id <=? 128)%nat && nodeIDPattern id.

(** The characters no path segment may hold: colon, star, question mark, double
    quote, angle brackets and bar. *)
Definition forbidden_path_chars : string :=
  ":*?" +:+ String dquote "<>|".

Definition valid_segment (segment : string) : bool :=
  negb (String.eqb segment EmptyString || String.eqb segment "." || String.eqb segment ".."
        || negb (String.eqb (trim_space segment) segment))
  && negb (contains_any segment forbidden_path_chars).

Definition ValidProjectRef (path : string) : bool :=
  if String.eqb path EmptyString || (512 <? String.length path)%nat || has_prefix path "/"
     || has_suffix path "/" || str_contains path (str_of_char backslash)
  then false
  else forallb valid_segment (split_char "/" path).

(** * Node types, roles, workflows and acceptance, as stored *)

Abbreviation Status := string.
Abbreviation AgentMode := string.
Abbreviation Completion := string.

Record NodeTypeDef := mkNodeTypeDef {
  ntd_ID : string;
  ntd_Label : string;
  ntd_Shape : string;
  ntd_Color : string;
  ntd_AgentMode : AgentMode;
  ntd_Completion : Completion;
  ntd_CountsInProgress : option bool;
}.

#[export] Instance NodeTypeDef_eq_dec : EqDecision NodeTypeDef.
Proof. solve_decision. Defined.

(** A nil list is [None]: the override of a role's tools distinguishes it from
    an empty one. *)
Record AgentRoleDef := mkAgentRoleDef {
  ard_ID : string;
  ard_Label : string;
  ard_BasedOn : string;
  ard_Rank : string;
  ard_Tools : option (list string);
  ard_WriteTypes : option (list string);
  ard_AcceptanceTypes : option (list string);
  ard_Instructions : string;
}.

#[export] Instance AgentRoleDef_eq_dec : EqDecision AgentRoleDef.
Proof. solve_decision. Defined.

Record Stages := mkStages {
  st_Planner : bool;
  st_GoalQA : bool;
  st_Tester : bool;
  st_Reviewer : bool;
  st_CI : bool;
  st_GoalReview : bool;
}.

#[export] Instance Stages_eq_dec : EqDecision Stages.
Proof. solve_decision. Defined.

(** A nil list of globs is [None]: reflect.DeepEqual tells it from an empty
    one. *)
Record Workflow := mkWorkflow {
  wf_Preset : string;
  wf_Stages : Stages;
  wf_ReviewerSkipBelowLines : Z;
  wf_MaxQARounds : Z;
  wf_MaxTesterRounds : Z;
  wf_MaxGreenTries : Z;
  wf_TestGlobs : option (list string);
  wf_Judge : string;
}.

#[export] Instance Workflow_eq_dec : EqDecision Workflow.
Proof. solve_decision. Defined.

(** Ranging over nil and over an empty slice is the same. *)
Definition TestGlobs (w : Workflow) : list string := default [] (wf_TestGlobs w).

Record AcceptanceItem := mkAcceptanceItem { ai_ID : string; ai_Text : string }.

#[export] Instance AcceptanceItem_eq_dec : EqDecision AcceptanceItem.
Proof. solve_decision. Defined.

Record Acceptance := mkAcceptance {
  acc_Items : list AcceptanceItem;
  acc_Locked : bool;
  acc_By : string;
}.

(** * Nodes and edges *)

Record User := mkUser { u_ID : string; u_Name : string; u_Email : string }.

Record NodeLinkRef := mkNodeLinkRef { nl_Label : string; nl_Project : string; nl_Node : string }.

Record Effect := mkEffect { ef_Set : string }.

Record Node := mkNode {
  n_ID : string;
  n_Title : string;
  n_Kind : string;
  n_Priority : string;
  n_Assignee : string;
  n_Deadline : string;
  n_WriteAccess : string;
  n_Requires : string;
  n_Tags : list string;
  n_Effects : list Effect;
  n_Links : list NodeLinkRef;
  n_Refs : list string;
  n_Acceptance : option Acceptance;
  n_Workflow : option Workflow;
}.

(** A node with an id and nothing else, for examples. *)
Definition plain_node (id kind requires : string) : Node :=
  mkNode id EmptyString kind EmptyString EmptyString EmptyString EmptyString requires
         [] [] [] [] None None.

Record Edge := mkEdge { e_From : string; e_To : string; e_Relation : string; e_Line : string }.

Definition RelationRequired : string := EmptyString.
Definition RelationOptional : string := "optional".
Definition RelationDeprecated : string := "deprecated".

Definition Blocks (e : option Edge) : bool :=
  match e with Some e => String.eqb (e_Relation e) RelationRequired | None => false end.

Definition IsPrerequisite (e : option Edge) : bool :=
  match e with Some e => negb (String.eqb (e_Relation e) RelationDeprecated) | None => false end.

(** * Editor data *)

Record Position := mkPosition { p_X : float64; p_Y : float64 }.

Record GatePlacement := mkGatePlacement {
  gp_Ratio : option float64; gp_X : option float64; gp_Y : option float64 }.

(** [lg_Inputs] keeps the difference between nil and empty, which
    NormalizeLogicGates removes. *)
Record LogicGate := mkLogicGate {
  lg_ID : string;
  lg_Operator : string;
  lg_X : float64;
  lg_Y : float64;
  lg_Inputs : option (list string);
  lg_Output : string;
  lg_Outputs : list string;
  lg_Applied : string;
}.

(** Ranging over nil and over an empty slice is the same. *)
Definition Inputs (gate : LogicGate) : list string := default [] (lg_Inputs gate).

(** OutputNodes. *)
Definition OutputNodes (g : LogicGate) : list string :=
  match lg_Outputs g with
  | _ :: _ => lg_Outputs g
  | [] => if negb (String.eqb (lg_Output g) EmptyString) then [lg_Output g] else []
  end.

Record EdgeLabelPlacement := mkEdgeLabelPlacement { elp_Ratio : float64 }.

Record PlanMilestone := mkPlanMilestone {
  pm_Date : string; pm_Time : string; pm_Status : Status; pm_Note : string }.

Record PlanStatusDefinition := mkPlanStatusDefinition { psd_ID : string; psd_Label : string }.

Record StatusDefinition := mkStatusDefinition {
  sd_ID : string; sd_Label : string; sd_Color : string; sd_Shape : string; sd_Settled : bool }.

Record NodeStyle := mkNodeStyle {
  ns_Width : float64; ns_Height : float64; ns_Color : string; ns_TextColor : string;
  ns_BorderColor : string; ns_Align : string; ns_VAlign : string; ns_Shape : string }.

Record CanvasGroup := mkCanvasGroup {
  cg_ID : string; cg_Title : string; cg_X : float64; cg_Y : float64; cg_Width : float64;
  cg_Height : float64; cg_Color : string; cg_TextColor : string; cg_Align : string; cg_VAlign : string }.

Record CanvasAnnotation := mkCanvasAnnotation {
  ca_ID : string; ca_Text : string; ca_X : float64; ca_Y : float64; ca_Width : float64;
  ca_Height : float64; ca_Color : string; ca_TextColor : string; ca_Align : string; ca_VAlign : string }.

Record SavedView := mkSavedView {
  sv_ID : string; sv_Name : string; sv_Statuses : list string; sv_Assignees : list string;
  sv_Tags : list string; sv_Priorities : list string; sv_Sort : string }.

Record UIState := mkUIState {
  ui_Positions : gmap string Position;
  ui_TimelineOrder : list string;
  ui_Gates : gmap string GatePlacement;
  ui_LogicGates : list LogicGate;
  ui_EdgeLabels : gmap string EdgeLabelPlacement;
  ui_WireVertices : gmap string (list Position);
  ui_Plans : gmap string (list PlanMilestone);
  ui_PlanStatuses : list PlanStatusDefinition;
  ui_CustomStatuses : list StatusDefinition;
  ui_NodeStyles : gmap string NodeStyle;
  ui_EntryOverrides : gmap string bool;
  ui_Groups : list CanvasGroup;
  ui_Annotations : list CanvasAnnotation;
  ui_SavedViews : list SavedView;
}.

Definition empty_ui : UIState := mkUIState ∅ [] ∅ [] ∅ ∅ ∅ [] [] ∅ ∅ [] [] [].

(** * The graph *)

Record Graph := mkGraph {
  Version : Z;
  Type_ : string;
  Users : list User;
  Nodes : list (option Node);
  Edges : list (option Edge);
  GFlags : gmap string value;
  NodeTypes : list NodeTypeDef;
  AgentRoles : list AgentRoleDef;
  GWorkflow : option Workflow;
  OfficeStyle : string;
  UI : option UIState;
}.

(** A graph of nodes, edges and flags, for examples. *)
Definition plain_graph (nodes : list Node) (edges : list Edge) : Graph :=
  mkGraph 1 "workflow" [] (Some <$> nodes) (Some <$> edges) ∅ [] [] None EmptyString None.

Definition with_logic_gates (ui : UIState) (gates : list LogicGate) : UIState :=
  mkUIState (ui_Positions ui) (ui_TimelineOrder ui) (ui_Gates ui) gates (ui_EdgeLabels ui)
    (ui_WireVertices ui) (ui_Plans ui) (ui_PlanStatuses ui) (ui_CustomStatuses ui)
    (ui_NodeStyles ui) (ui_EntryOverrides ui) (ui_Groups ui) (ui_Annotations ui) (ui_SavedViews ui).

Definition with_ui (g : Graph) (ui : option UIState) : Graph :=
  mkGraph (Version g) (Type_ g) (Users g) (Nodes g) (Edges g) (GFlags g) (NodeTypes g)
    (AgentRoles g) (GWorkflow g) (OfficeStyle g) ui.

Definition with_nodes (g : Graph) (nodes : list (option Node)) : Graph :=
  mkGraph (Version g) (Type_ g) (Users g) nodes (Edges g) (GFlags g) (NodeTypes g)
    (AgentRoles g) (GWorkflow g) (OfficeStyle g) (UI g).

Definition with_edges (g : Graph) (edges : list (option Edge)) : Graph :=
  mkGraph (Version g) (Type_ g) (Users g) (Nodes g) edges (GFlags g) (NodeTypes g)
    (AgentRoles g) (GWorkflow g) (OfficeStyle g) (UI g).

Definition with_requires (n : Node) (requires : string) : Node :=
  mkNode (n_ID n) (n_Title n) (n_Kind n) (n_Priority n) (n_Assignee n) (n_Deadline n)
    (n_WriteAccess n) requires (n_Tags n) (n_Effects n) (n_Links n) (n_Refs n)
    (n_Acceptance n) (n_Workflow n).

(** A node with effects, for examples. *)
Definition with_effects (n : Node) (stmts : list string) : Node :=
  mkNode (n_ID n) (n_Title n) (n_Kind n) (n_Priority n) (n_Assignee n) (n_Deadline n)
    (n_WriteAccess n) (n_Requires n) (n_Tags n) (mkEffect <$> stmts) (n_Links n) (n_Refs n)
    (n_Acceptance n) (n_Workflow n).

(** NormalizeLogicGates, returning the graph it leaves behind. *)
Definition NormalizeLogicGates (g : option Graph) : option Graph :=
  match g with
  | None => None
  | Some g' =>
      match UI g' with
      | None => Some g'
      | Some ui =>
          Some (with_ui g' (Some (with_logic_gates ui
            ((λ gate, match lg_Inputs gate with
                      | Some _ => gate
                      | None => mkLogicGate (lg_ID gate) (lg_Operator gate) (lg_X gate) (lg_Y gate)
                                  (Some []) (lg_Output gate) (lg_Outputs gate) (lg_Applied gate)
                      end) <$> ui_LogicGates ui))))
      end
  end.

(** The nodes that are not nil, in graph order. *)
Definition node_list (g : Graph) : list Node := omap id (Nodes g).
Definition edge_list (g : Graph) : list Edge := omap id (Edges g).

Fixpoint NodeByID_in (nodes : list (option Node)) (id : string) : option Node :=
  match nodes with
  | [] => None
  | Some n :: nodes' => if String.eqb (n_ID n) id then Some n else NodeByID_in nodes' id
  | None :: nodes' => NodeByID_in nodes' id
  end.

Definition NodeByID (g : Graph) (id : string) : option Node := NodeByID_in (Nodes g) id.

Definition HasRef (n : option Node) (id : string) : bool :=
  match n with
  | None => false
  | Some n => existsb (λ ref, String.eqb ref id) (n_Refs n)
  end.

Definition ReferencedBy (g : Graph) (id : string) : list string :=
  omap (λ n, match n with
             | Some n' => if HasRef n id then Some (n_ID n') else None
             | None => None
             end) (Nodes g).

Definition RequiresExpr `{Unicode} (n : Node) : outcome ParseError (option Expr) :=
  Parse (n_Requires n).

(** * Lookup facts *)

Lemma elem_of_node_list g n : n ∈ node_list g ↔ Some n ∈ Nodes g.
Proof.
  unfold node_list. rewrite list_elem_of_omap. split.
  - intros ([m|] & Hm & Heq); simplify_eq/=; done.
  - intros Hn. by exists (Some n).
Qed.

Lemma elem_of_edge_list g e : e ∈ edge_list g ↔ Some e ∈ Edges g.
Proof.
  unfold edge_list. rewrite list_elem_of_omap. split.
  - intros ([m|] & Hm & Heq); simplify_eq/=; done.
  - intros Hn. by exists (Some e).
Qed.

Create Rewrite HintDb graph.
#[export] Hint Rewrite elem_of_node_list elem_of_edge_list : graph.

Lemma NodeByID_Some g id n : NodeByID g id = Some n → n ∈ node_list g ∧ n_ID n = id.
Proof.
  unfold NodeByID, node_list. induction (Nodes g) as [|[m|] ms IH]; simpl; [done| |done].
  destruct (String.eqb_spec (n_ID m) id); [naive_solver set_solver|].
  intros [??]%IH. set_solver.
Qed.

Lemma NodeByID_None g id : NodeByID g id = None ↔ ∀ n, n ∈ node_list g → n_ID n ≠ id.
Proof.
  unfold NodeByID, node_list. induction (Nodes g) as [|[m|] ms IH]; simpl; [set_solver| |done].
  destruct (String.eqb_spec (n_ID m) id) as [He|Hne].
  - split; [done|]. intros Hall. destruct (Hall m); [by left|done].
  - rewrite IH. split; [|set_solver]. intros Hall n [->|Hn]%elem_of_cons; [done|by apply Hall].
Qed.

(** With distinct ids a node is found under its own id. *)
Lemma NodeByID_unique g n :
  NoDup (n_ID <$> node_list g) → n ∈ node_list g → NodeByID g (n_ID n) = Some n.
Proof.
  unfold NodeByID, node_list. induction (Nodes g) as [|[m|] ms IH]; simpl; [set_solver| |done].
  intros [Hm Hnd]%NoDup_cons [->|Hn]%elem_of_cons.
  - by rewrite String.eqb_refl.
  - destruct (String.eqb_spec (n_ID m) (n_ID n)) as [He|?]; [|by apply IH].
    destruct Hm. rewrite He. by apply list_elem_of_fmap_2.
Qed.
