(* ===== verification/NodeTypes.v ===== *)
(** Node types (internal/engine/nodetypes.go): the built-in table, the sparse
    list a project stores, how a kind resolves to a type, and the rules a
    stored list must keep. *)

From S2P Require Import Prelude GoStr GoFloat Dsl Graph.
From Stdlib Require Import Ascii.
Open Scope Z_scope.

Definition AgentNone : AgentMode := "none".
Definition AgentDispatch : AgentMode := "dispatch".
Definition AgentAutopilot : AgentMode := "autopilot".

Definition CompletionAnyone : Completion := "anyone".
Definition CompletionPeople : Completion := "people".
Definition CompletionAuto : Completion := "auto".
Definition CompletionNone : Completion := "none".

(** The resolved form. *)
Record NodeType := mkNodeType {
  nt_ID : string;
  nt_Label : string;
  nt_Builtin : bool;
  nt_Shape : string;
  nt_Color : string;
  nt_AgentMode : AgentMode;
  nt_Completion : Completion;
  nt_CountsInProgress : bool;
}.

#[export] Instance NodeType_eq_dec : EqDecision NodeType.
Proof. solve_decision. Defined.

Definition NodeShapes : list string :=
  ["rect"; "round"; "pill"; "ellipse"; "diamond"; "hexagon"; "dashed"; "thick"].

Definition CustomNodeTypePrefix : string := "custom-type-".
Definition MaxCustomNodeTypes : nat := 64.
Definition NodeKindTask : string := "task".

Definition builtinNodeTypes : list NodeType := [
  mkNodeType "task" "Task" true "round" EmptyString AgentDispatch CompletionAnyone true;
  mkNodeType "goal" "Goal" true "thick" "#62b2c1" AgentAutopilot CompletionPeople true;
  mkNodeType "scene" "Scene" true "round" EmptyString AgentDispatch CompletionAnyone true;
  mkNodeType "event" "Event" true "ellipse" EmptyString AgentDispatch CompletionAnyone true;
  mkNodeType "gate" "Review" true "hexagon" "#f0a35e" AgentNone CompletionPeople true;
  mkNodeType "choice" "Decision" true "diamond" EmptyString AgentNone CompletionPeople true;
  mkNodeType "start" "Start" true "pill" EmptyString AgentNone CompletionAuto false;
  mkNodeType "end" "End" true "pill" EmptyString AgentNone CompletionAuto false;
  mkNodeType "note" "Note" true "dashed" EmptyString AgentNone CompletionNone false ].

Definition kindAliases : list (string * string) := [("review", "gate"); ("decision", "choice")].

(** The first entry of a table with that id. *)
Definition find_type (ts : list NodeType) (id : string) : option NodeType :=
  find (λ t, String.eqb (nt_ID t) id) ts.

Definition builtinNodeType (id : string) : option NodeType := find_type builtinNodeTypes id.

Definition IsBuiltinNodeKind (id : string) : bool :=
  match builtinNodeType id with Some _ => true | None => false end.

Definition alias_of (k : string) : string :=
  match find (λ a, String.eqb a.1 k) kindAliases with Some a => a.2 | None => k end.

Definition NormalizeNodeKind `{Unicode} (kind : string) : string :=
  let k := trim_space kind in
  if has_prefix k CustomNodeTypePrefix then k else alias_of (to_lower k).

Definition or_else (s d : string) : string := if String.eqb s EmptyString then d else s.

Definition resolveDef (def : NodeTypeDef) : NodeType :=
  mkNodeType (ntd_ID def) (trim_space (ntd_Label def)) false
    (or_else (ntd_Shape def) "round") (ntd_Color def)
    (or_else (ntd_AgentMode def) AgentNone) (or_else (ntd_Completion def) CompletionAnyone)
    (default false (ntd_CountsInProgress def)).

(** A stored shape and colour replace the built-in ones when they are set. *)
Definition restyle (t : NodeType) (def : NodeTypeDef) : NodeType :=
  mkNodeType (nt_ID t) (nt_Label t) (nt_Builtin t) (or_else (ntd_Shape def) (nt_Shape t))
    (or_else (ntd_Color def) (nt_Color t)) (nt_AgentMode t) (nt_Completion t) (nt_CountsInProgress t).

Definition stored_types (g : option Graph) : list NodeTypeDef :=
  match g with Some g => NodeTypes g | None => [] end.

Definition is_id (id : string) (def : NodeTypeDef) : bool := String.eqb (ntd_ID def) id.

(** One pass of the first loop of ResolvedNodeTypes. *)
Definition override_types (out : list NodeType) (def : NodeTypeDef) : list NodeType :=
  if IsBuiltinNodeKind (ntd_ID def)
  then (λ t, if String.eqb (nt_ID t) (ntd_ID def) then restyle t def else t) <$> out
  else out.

Definition ResolvedNodeTypes (g : option Graph) : list NodeType :=
  foldl override_types builtinNodeTypes (stored_types g)
  ++ (resolveDef <$> List.filter (λ def, negb (IsBuiltinNodeKind (ntd_ID def))) (stored_types g)).

Definition nodeTypeByID (g : option Graph) (id : string) : option NodeType :=
  match builtinNodeType id with
  | Some t => Some (foldl (λ t def, if is_id id def then restyle t def else t) t (stored_types g))
  | None =>
      if negb (has_prefix id CustomNodeTypePrefix) then None
      else resolveDef <$> find (is_id id) (stored_types g)
  end.

(** The zero NodeType of a lookup that fails. *)
Definition zero_type : NodeType :=
  mkNodeType EmptyString EmptyString false EmptyString EmptyString EmptyString EmptyString false.

Definition TypeOfKind `{Unicode} (g : option Graph) (kind : string) : NodeType :=
  let k := or_else (NormalizeNodeKind kind) NodeKindTask in
  match nodeTypeByID g k with
  | Some t => t
  | None => default zero_type (nodeTypeByID g NodeKindTask)
  end.

Definition TypeOf `{Unicode} (g : option Graph) (n : option Node) : NodeType :=
  match n with
  | None => TypeOfKind g EmptyString
  | Some n => TypeOfKind g (n_Kind n)
  end.

Definition KnownNodeKind (g : option Graph) (kind : string) : bool :=
  if String.eqb kind EmptyString then true
  else match nodeTypeByID g kind with Some _ => true | None => false end.

(** The class [A-Za-z0-9_-] of custom ids, one to 48 of them. *)
Definition custom_id_char (c : ascii) : bool :=
  ascii_letter c || is_digit c || Ascii.eqb c "_" || Ascii.eqb c "-".

Definition custom_id (prefix id : string) : bool :=
  match cut_prefix id prefix with
  | Some rest =>
      (1 <=? String.length rest)%nat && (String.length rest <=? 48)%nat && str_all custom_id_char rest
  | None => false
  end.

Definition customNodeTypeIDPattern (id : string) : bool := custom_id CustomNodeTypePrefix id.

Definition nodeTypeColor (s : string) : bool :=
  str_all (λ c, ascii_letter c || is_digit c || has_char c "#(),.% -") s.

Definition ValidNodeShape (s : string) : bool :=
  String.eqb s EmptyString || existsb (λ shape, String.eqb shape s) NodeShapes.

(** * The rules of a stored list *)

Inductive TypeProblem :=
  | DuplicateType (id : string)
  | UnknownShape (id shape : string)
  | InvalidColor (id : string)
  | OnlyShapeAndColor (id : string)
  | InvalidTypeID (id : string)
  | BadTypeLabel (id : string)
  | DuplicateTypeLabel (label : string)
  | InvalidAgentMode (id mode : string)
  | InvalidCompletion (id completion : string)
  | MustSayCounts (id : string)
  | NotWorkedByAgents (id completion : string)
  | CannotCount (id : string)
  | AutopilotNeedsCompletion (id : string)
  | TooManyTypes.

Definition when {A} (b : bool) (x : A) : list A := if b then [x] else [].

Definition one_of (s : string) (xs : list string) : bool := existsb (String.eqb s) xs.

Section Problems.
Context `{Unicode}.

(** The rules on one custom definition but its label's uniqueness. *)
Definition custom_problems (def : NodeTypeDef) : list TypeProblem :=
  let id := ntd_ID def in
  when (negb (one_of (ntd_AgentMode def) [AgentNone; AgentDispatch; AgentAutopilot]))
       (InvalidAgentMode id (ntd_AgentMode def))
  ++ when (negb (one_of (ntd_Completion def) [CompletionAnyone; CompletionPeople; CompletionAuto; CompletionNone]))
       (InvalidCompletion id (ntd_Completion def))
  ++ when (match ntd_CountsInProgress def with None => true | Some _ => false end) (MustSayCounts id)
  ++ when (one_of (ntd_Completion def) [CompletionAuto; CompletionNone]
           && negb (String.eqb (ntd_AgentMode def) AgentNone))
       (NotWorkedByAgents id (ntd_Completion def))
  ++ when (String.eqb (ntd_Completion def) CompletionNone && default false (ntd_CountsInProgress def))
       (CannotCount id)
  ++ when (String.eqb (ntd_AgentMode def) AgentAutopilot
           && negb (String.eqb (ntd_Completion def) CompletionAnyone)
           && negb (String.eqb (ntd_Completion def) CompletionPeople))
       (AutopilotNeedsCompletion id).

(** The label rule, with the labels it leaves taken. *)
Definition label_problems (def : NodeTypeDef) (labels : gset string) : list TypeProblem * gset string :=
  let label := trim_space (ntd_Label def) in
  if String.eqb label EmptyString || (64 <? rune_count label)%nat
  then ([BadTypeLabel (ntd_ID def)], labels)
  else (when (bool_decide (to_lower label ∈ labels)) (DuplicateTypeLabel label),
        {[ to_lower label ]} ∪ labels).

Fixpoint type_problems (defs : list NodeTypeDef) (seen labels : gset string) (customs : nat)
    : list TypeProblem :=
  match defs with
  | [] => when (MaxCustomNodeTypes <? customs)%nat TooManyTypes
  | def :: defs' =>
      let id := ntd_ID def in
      if bool_decide (id ∈ seen) then DuplicateType id :: type_problems defs' seen labels customs
      else
        when (negb (ValidNodeShape (ntd_Shape def))) (UnknownShape id (ntd_Shape def))
        ++ when ((32 <? String.length (ntd_Color def))%nat || negb (nodeTypeColor (ntd_Color def)))
             (InvalidColor id)
        ++ (if IsBuiltinNodeKind id then
              when (negb (String.eqb (ntd_Label def) EmptyString && String.eqb (ntd_AgentMode def) EmptyString
                    && String.eqb (ntd_Completion def) EmptyString
                    && match ntd_CountsInProgress def with None => true | Some _ => false end))
                (OnlyShapeAndColor id)
              ++ type_problems defs' ({[ id ]} ∪ seen) labels customs
            else
              let '(ps, labels') := label_problems def labels in
              when (negb (customNodeTypeIDPattern id && ValidNodeID id)) (InvalidTypeID id)
              ++ ps ++ custom_problems def
              ++ type_problems defs' ({[ id ]} ∪ seen) labels' (S customs))
  end.

Definition NodeTypeDefProblems (defs : list NodeTypeDef) : list TypeProblem :=
  type_problems defs ∅ ∅ 0.

Definition ValidateNodeTypeDefs (defs : list NodeTypeDef) : outcome (list TypeProblem) unit :=
  match NodeTypeDefProblems defs with
  | [] => Ok ()
  | problems => Fail problems
  end.
End Problems.

(** * Lookup facts *)

Lemma find_type_Some ts k t : find_type ts k = Some t → t ∈ ts ∧ nt_ID t = k.
Proof. intros [Hin Heq]%find_some. bool_to_prop. split; [by apply list_elem_of_In|done]. Qed.

Lemma find_type_None ts k : find_type ts k = None ↔ ∀ t, t ∈ ts → nt_ID t ≠ k.
Proof.
  unfold find_type. induction ts as [|t ts IH]; simpl; [set_solver|].
  destruct (String.eqb_spec (nt_ID t) k); [set_solver|]. rewrite IH. set_solver.
Qed.

Lemma find_type_map f ts k :
  (∀ t, nt_ID (f t) = nt_ID t) → find_type (f <$> ts) k = f <$> find_type ts k.
Proof.
  intros Hf. induction ts as [|t ts IH]; [done|]. unfold find_type in *. simpl.
  rewrite Hf. by destruct (String.eqb (nt_ID t) k).
Qed.

Lemma find_type_app ts1 ts2 k :
  find_type (ts1 ++ ts2) k = match find_type ts1 k with Some t => Some t | None => find_type ts2 k end.
Proof.
  unfold find_type. induction ts1 as [|t ts IH]; simpl; [done|]. by destruct (String.eqb (nt_ID t) k).
Qed.

Definition restyle_if (id : string) (t : NodeType) (def : NodeTypeDef) : NodeType :=
  if is_id id def then restyle t def else t.

Lemma IsBuiltinNodeKind_spec k : IsBuiltinNodeKind k = true ↔ is_Some (builtinNodeType k).
Proof. unfold IsBuiltinNodeKind. destruct (builtinNodeType k); split; intros; try done; by inversion H. Qed.

(** The overridden table is the built-in one restyled entry by entry. *)
Lemma find_override defs ts k :
  (is_Some (find_type ts k) → IsBuiltinNodeKind k = true) →
  find_type (foldl override_types ts defs) k = (λ t, foldl (restyle_if k) t defs) <$> find_type ts k.
Proof.
  revert ts. induction defs as [|def defs IH]; intros ts Hb; simpl.
  { by destruct (find_type ts k). }
  assert (Hstep : find_type (override_types ts def) k = (λ t, restyle_if k t def) <$> find_type ts k).
  { unfold override_types, restyle_if, is_id. destruct (find_type ts k) as [t|] eqn:Et; simpl.
    - apply find_type_Some in Et as Hid. destruct Hid as [_ Hid].
      destruct (String.eqb_spec (ntd_ID def) k) as [->|Hne].
      + rewrite Hb by eauto. rewrite find_type_map by (intros; case_match; done).
        rewrite Et. simpl. rewrite Hid. by destruct (String.eqb_spec k k).
      + destruct (IsBuiltinNodeKind (ntd_ID def)); [|done].
        rewrite find_type_map by (intros; case_match; done). rewrite Et. simpl.
        rewrite Hid. by rewrite (proj2 (String.eqb_neq k (ntd_ID def))).
    - destruct (IsBuiltinNodeKind (ntd_ID def)); [|done].
      rewrite find_type_map by (intros; case_match; done). by rewrite Et. }
  rewrite IH.
  - rewrite Hstep. by destruct (find_type ts k).
  - intros [t Ht]. apply Hb. rewrite Hstep in Ht. destruct (find_type ts k); [eauto|done].
Qed.

Lemma find_custom defs k :
  IsBuiltinNodeKind k = false →
  find_type (resolveDef <$> List.filter (λ def, negb (IsBuiltinNodeKind (ntd_ID def))) defs) k
  = resolveDef <$> find (is_id k) defs.
Proof.
  intros Hk. induction defs as [|def defs IH]; [done|]. simpl. unfold is_id.
  destruct (String.eqb_spec (ntd_ID def) k) as [He|Hne].
  - rewrite He, Hk. simpl. unfold find_type. simpl. by rewrite He, String.eqb_refl.
  - destruct (negb (IsBuiltinNodeKind (ntd_ID def))); simpl; [|done].
    unfold find_type in *. simpl. rewrite (proj2 (String.eqb_neq _ _) Hne). done.
Qed.

(** What a restyling leaves alone. *)
Definition same_behaviour (t u : NodeType) : Prop :=
  nt_ID t = nt_ID u ∧ nt_Label t = nt_Label u ∧ nt_Builtin t = nt_Builtin u ∧
  nt_AgentMode t = nt_AgentMode u ∧ nt_Completion t = nt_Completion u ∧
  nt_CountsInProgress t = nt_CountsInProgress u.

#[export] Instance same_behaviour_equiv : Equivalence same_behaviour.
Proof. split; unfold same_behaviour; red; intuition congruence. Qed.

Lemma restyle_behaviour id t defs : same_behaviour (foldl (restyle_if id) t defs) t.
Proof.
  revert t. induction defs as [|def defs IH]; intros t; simpl; [done|].
  etransitivity; [apply IH|]. unfold restyle_if. by destruct (is_id id def).
Qed.

(** * The rules of a list without problems *)

Lemma when_nil {A} b (x : A) : when b x = [] ↔ b = false.
Proof. by destruct b. Qed.

Lemma one_of_spec s xs : one_of s xs = true ↔ s ∈ xs.
Proof.
  unfold one_of. rewrite existsb_exists. setoid_rewrite String.eqb_eq.
  split; [intros (x & Hx & ->); by apply list_elem_of_In|]. intros Hs. exists s. by rewrite <- list_elem_of_In.
Qed.

(** What a custom type of a list without problems is. *)
Definition sound_type (t : NodeType) : Prop :=
  nt_AgentMode t ∈ [AgentNone; AgentDispatch; AgentAutopilot] ∧
  nt_Completion t ∈ [CompletionAnyone; CompletionPeople; CompletionAuto; CompletionNone] ∧
  (nt_Completion t ∈ [CompletionAuto; CompletionNone] → nt_AgentMode t = AgentNone) ∧
  (nt_Completion t = CompletionNone → nt_CountsInProgress t = false) ∧
  (nt_AgentMode t = AgentAutopilot → nt_Completion t ∈ [CompletionAnyone; CompletionPeople]).

Section Sound.
Context `{Unicode}.

Lemma custom_problems_sound def : custom_problems def = [] → sound_type (resolveDef def).
Proof.
  unfold custom_problems. rewrite !app_nil, !when_nil. intros (Hm & Hc & Hcount & Hagents & Hstat & Hauto).
  bool_to_prop. apply one_of_spec in Hm, Hc. unfold sound_type, resolveDef; simpl.
  assert (or_else (ntd_AgentMode def) AgentNone = ntd_AgentMode def) as ->
    by (unfold or_else; destruct (String.eqb_spec (ntd_AgentMode def) EmptyString) as [Hz|]; [rewrite Hz in Hm; set_solver|done]).
  assert (or_else (ntd_Completion def) CompletionAnyone = ntd_Completion def) as ->
    by (unfold or_else; destruct (String.eqb_spec (ntd_Completion def) EmptyString) as [Hz|]; [rewrite Hz in Hc; set_solver|done]).
  split_and!; [done|done| | |].
  - intros Hin%one_of_spec. rewrite Hin in Hagents. simpl in Hagents. by bool_to_prop.
  - intros Hnone. rewrite Hnone in Hstat. done.
  - intros Hmode. rewrite Hmode in Hauto. simpl in Hauto.
    apply andb_false_iff in Hauto as [Hx|Hx]; bool_to_prop; rewrite Hx; set_solver.
Qed.

Definition stored_ok (def : NodeTypeDef) : Prop :=
  if IsBuiltinNodeKind (ntd_ID def) then True
  else customNodeTypeIDPattern (ntd_ID def) = true ∧ sound_type (resolveDef def).

Definition custom_count (defs : list NodeTypeDef) : nat :=
  length (List.filter (λ def, negb (IsBuiltinNodeKind (ntd_ID def))) defs).

Lemma type_problems_nil defs seen labels customs :
  type_problems defs seen labels customs = [] →
  NoDup (ntd_ID <$> defs) ∧ (∀ def, def ∈ defs → ntd_ID def ∉ seen ∧ stored_ok def) ∧
  (customs + custom_count defs ≤ MaxCustomNodeTypes)%nat.
Proof.
  revert seen labels customs. unfold custom_count.
  induction defs as [|def defs IH]; intros seen labels customs; simpl.
  { rewrite when_nil. intros Hc. bool_to_prop. split_and!; [constructor|set_solver|lia]. }
  case_bool_decide; [done|]. rewrite !app_nil. intros (_ & _ & Hrest).
  assert (Hgoal : ∀ labels customs',
    type_problems defs ({[ntd_ID def]} ∪ seen) labels customs' = [] → stored_ok def →
    NoDup (ntd_ID def :: (ntd_ID <$> defs)) ∧
    (∀ d, d ∈ def :: defs → ntd_ID d ∉ seen ∧ stored_ok d) ∧
    (customs' + length (List.filter (λ d, negb (IsBuiltinNodeKind (ntd_ID d))) defs) ≤ MaxCustomNodeTypes)%nat).
  { intros l c Hp Hok. apply IH in Hp as (Hnd & Hall & Hcnt). split_and!; [|set_solver|done].
    constructor; [|done]. intros (d & Hd & Hin)%list_elem_of_fmap. destruct (Hall d Hin). set_solver. }
  destruct (IsBuiltinNodeKind (ntd_ID def)) eqn:Eb; simpl.
  - apply app_nil in Hrest as [_ Hrest]. apply (Hgoal _ _ Hrest). unfold stored_ok. by rewrite Eb.
  - destruct (label_problems def labels) as [ps labels']. rewrite !app_nil in Hrest.
    destruct Hrest as (Hid & _ & Hcp & Hrest). apply when_nil in Hid. bool_to_prop.
    destruct (Hgoal _ _ Hrest) as (Hn & Ha & Hc); [|split_and!; [done|done|lia]].
    unfold stored_ok. rewrite Eb. split; [done|]. by apply custom_problems_sound.
Qed.

Lemma NodeTypeDefProblems_nil defs :
  NodeTypeDefProblems defs = [] →
  NoDup (ntd_ID <$> defs) ∧ (∀ def, def ∈ defs → stored_ok def) ∧
  (custom_count defs ≤ MaxCustomNodeTypes)%nat.
Proof. intros (Hn & Ha & Hc)%type_problems_nil. naive_solver. Qed.

Lemma custom_pattern_prefix id : customNodeTypeIDPattern id = true → has_prefix id CustomNodeTypePrefix = true.
Proof.
  unfold customNodeTypeIDPattern, custom_id, cut_prefix. by destruct (has_prefix id CustomNodeTypePrefix).
Qed.

(** Without problems, a stored list resolves the same through the table a
    client is shown and through the lookup the hub decides with. *)
Lemma resolved_lookup g k :
  NodeTypeDefProblems (stored_types g) = [] →
  find_type (ResolvedNodeTypes g) k = nodeTypeByID g k.
Proof.
  intros (_ & Hok & _)%NodeTypeDefProblems_nil. unfold ResolvedNodeTypes, nodeTypeByID.
  rewrite find_type_app, find_override by (by intros ?%IsBuiltinNodeKind_spec).
  fold (builtinNodeType k). destruct (builtinNodeType k) as [t|] eqn:Eb; simpl; [done|].
  assert (Hk : IsBuiltinNodeKind k = false) by (unfold IsBuiltinNodeKind; by rewrite Eb).
  rewrite find_custom by done. destruct (has_prefix k CustomNodeTypePrefix) eqn:Ep; [done|]. simpl.
  destruct (find (is_id k) (stored_types g)) as [def|] eqn:Ef; [|done].
  apply find_some in Ef as [Hin Hid]. apply String.eqb_eq in Hid. apply list_elem_of_In in Hin.
  specialize (Hok def Hin). unfold stored_ok in Hok. rewrite Hid, Hk in Hok.
  destruct Hok as [Hp%custom_pattern_prefix _]. congruence.
Qed.
End Sound.

(** * Properties *)

Section TypeProperties.
Context `{Unicode}.

Lemma builtin_sound t : t ∈ builtinNodeTypes → sound_type t.
Proof.
  intros Ht. unfold sound_type.
  repeat (apply elem_of_cons in Ht as [->|Ht]; [vm_compute; split_and!; set_solver|]). set_solver.
Qed.

Lemma same_behaviour_sound t u : same_behaviour t u → sound_type u → sound_type t.
Proof. intros (_ & _ & _ & Hm & Hc & Hn). unfold sound_type. by rewrite Hm, Hc, Hn. Qed.

Lemma override_types_ids ts def : nt_ID <$> override_types ts def = nt_ID <$> ts.
Proof.
  unfold override_types. destruct (IsBuiltinNodeKind _); [|done].
  rewrite <- list_fmap_compose. apply list_fmap_ext. intros i t _. simpl. by case_match.
Qed.

Lemma overrides_ids defs ts : nt_ID <$> foldl override_types ts defs = nt_ID <$> ts.
Proof.
  revert ts. induction defs as [|def defs IH]; intros ts; simpl; [done|].
  by rewrite IH, override_types_ids.
Qed.

Lemma overrides_sound defs ts t :
  (∀ u, u ∈ ts → sound_type u) → t ∈ foldl override_types ts defs → sound_type t.
Proof.
  revert ts. induction defs as [|def defs IH]; intros ts Hts; simpl; [apply Hts|].
  apply IH. intros u. unfold override_types. destruct (IsBuiltinNodeKind _); [|apply Hts].
  intros (v & -> & Hv)%list_elem_of_fmap. apply Hts in Hv. by destruct (String.eqb _ _).
Qed.
End TypeProperties.

(** A project's stored list, valid or not, never changes what a built-in
    type permits: whatever id it overrides, the built-in type found keeps its
    label, its agent mode, who may complete it and whether it counts. *)
Theorem builtin_behaviour_fixed (g : option Graph) (id : string) (t : NodeType)
    (Hbuiltin : builtinNodeType id = Some t) :
  ∃ u, nodeTypeByID g id = Some u ∧ same_behaviour u t.
Proof.
  unfold nodeTypeByID. rewrite Hbuiltin. eexists. split; [done|]. apply (restyle_behaviour id).
Qed.

Definition sneaky_types : list NodeTypeDef :=
  [mkNodeTypeDef "gate" EmptyString "pill" EmptyString AgentAutopilot CompletionAnyone (Some true)].

Definition with_types (g : Graph) (types : list NodeTypeDef) : Graph :=
  mkGraph (Version g) (Type_ g) (Users g) (Nodes g) (Edges g) (GFlags g) types
    (AgentRoles g) (GWorkflow g) (OfficeStyle g) (UI g).

Lemma builtin_behaviour_fixed_witness :
  ∃ u, nodeTypeByID (Some (with_types (plain_graph [] []) sneaky_types)) "gate" = Some u ∧
       same_behaviour u (mkNodeType "gate" "Review" true "hexagon" "#f0a35e" AgentNone CompletionPeople true).
Proof. apply builtin_behaviour_fixed. reflexivity. Defined.

(** A stored list that passes NodeTypeDefProblems is safe to act on: every
    resolved type has a known agent mode and completion, a type that settles
    itself or has no status is never worked by agents, a type without status
    never counts, an Autopilot type is completed by anyone or by people; the
    ids are distinct, at most 64 are the project's own, and the table a client
    is shown agrees with the lookup the hub decides with. *)
Theorem valid_types_sound `{Unicode} (g : option Graph)
    (Hvalid : NodeTypeDefProblems (stored_types g) = []) :
  (∀ t, t ∈ ResolvedNodeTypes g → sound_type t) ∧
  NoDup (nt_ID <$> ResolvedNodeTypes g) ∧
  (length (ResolvedNodeTypes g) ≤ length builtinNodeTypes + MaxCustomNodeTypes)%nat ∧
  (∀ k, find_type (ResolvedNodeTypes g) k = nodeTypeByID g k).
Proof.
  pose proof (NodeTypeDefProblems_nil _ Hvalid) as (Hnd & Hok & Hcount).
  split_and!; [| | |intros k; by apply resolved_lookup]; unfold ResolvedNodeTypes.
  - intros t [Ht|Ht]%elem_of_app.
    + apply (overrides_sound _ _ _ builtin_sound Ht).
    + apply list_elem_of_fmap in Ht as (def & -> & Hin%list_elem_of_In%filter_In).
      destruct Hin as [Hin%list_elem_of_In Hb]. bool_to_prop.
      specialize (Hok def Hin). unfold stored_ok in Hok. rewrite Hb in Hok. naive_solver.
  - rewrite fmap_app, overrides_ids, <- list_fmap_compose. apply NoDup_app. split_and!.
    + apply (bool_decide_unpack _). by vm_compute.
    + intros id Hid (def & -> & Hin%list_elem_of_In%filter_In)%list_elem_of_fmap.
      destruct Hin as [_ Hb]. bool_to_prop. change (ntd_ID def ∈ nt_ID <$> builtinNodeTypes) in Hid.
      apply not_true_iff_false in Hb. apply Hb. apply IsBuiltinNodeKind_spec.
      destruct (builtinNodeType (ntd_ID def)) eqn:E; [eauto|].
      unfold builtinNodeType in E. rewrite find_type_None in E.
      apply list_elem_of_fmap in Hid as (t & Hid & Ht). by destruct (E t Ht).
    + clear -Hnd. induction (stored_types g) as [|def defs IH]; simpl; [constructor|].
      apply NoDup_cons in Hnd as [Hn Hnd]. destruct (negb _); simpl; [|by apply IH].
      constructor; [|by apply IH]. intros (d & Hd & Hin%list_elem_of_In%filter_In)%list_elem_of_fmap.
      destruct Hn, Hin as [Hin%list_elem_of_In _]. simpl in Hd. rewrite Hd. by apply list_elem_of_fmap_2.
  - rewrite length_app, length_fmap. rewrite <- (length_fmap nt_ID), overrides_ids, length_fmap.
    unfold custom_count in Hcount. lia.
Qed.

Definition sample_types : list NodeTypeDef :=
  [mkNodeTypeDef "note" EmptyString "round" "#fff" EmptyString EmptyString None;
   mkNodeTypeDef "custom-type-bug" "Bug" EmptyString EmptyString AgentDispatch CompletionPeople (Some true)].

Lemma valid_types_sound_witness :
  let g := Some (with_types (plain_graph [] []) sample_types) in
  (∀ t, t ∈ ResolvedNodeTypes g → sound_type t) ∧
  NoDup (nt_ID <$> ResolvedNodeTypes g) ∧
  (length (ResolvedNodeTypes g) ≤ length builtinNodeTypes + MaxCustomNodeTypes)%nat ∧
  (∀ k, find_type (ResolvedNodeTypes g) k = nodeTypeByID g k).
Proof. apply valid_types_sound. vm_compute. reflexivity. Defined.
