(* ===== verification/Workflow.v ===== *)
(** Workflow stages and acceptance criteria (internal/engine/workflow.go and
    acceptance.go): presets, levers and their defaults, the goal a node
    belongs to, and the rules of an acceptance list. *)

From S2P Require Import Prelude GoStr GoFloat Dsl Graph NodeTypes.
From stdpp Require Import pretty.
From Stdlib Require Import Ascii.
Open Scope Z_scope.

Definition PresetLight : string := "light".
Definition PresetStandard : string := "standard".
Definition PresetFull : string := "full".
Definition PresetCustom : string := "custom".
Definition JudgeChecklist : string := "checklist".

Definition Presets (preset : string) : option Stages :=
  if String.eqb preset PresetLight then Some (mkStages true false false false false false)
  else if String.eqb preset PresetStandard then Some (mkStages true false true true false false)
  else if String.eqb preset PresetFull then Some (mkStages true true true true true true)
  else None.

Definition DefaultTestGlobs : list string :=
  ["**/*_test.go"; "**/*.test.ts"; "**/*.test.tsx"; "**/*.spec.ts"; "**/*.spec.tsx";
   "**/test/**"; "**/tests/**"; "**/__tests__/**"; "e2e/**"; "**/test_*.py"; "**/*_test.py"].

Definition DefaultMaxQARounds : Z := 2.
Definition DefaultMaxTesterRounds : Z := 2.
Definition DefaultMaxGreenTries : Z := 3.

Definition MaxReviewerSkipBelowLines : Z := 10000.
Definition MaxQARoundsLimit : Z := 5.
Definition MaxTesterRoundsLimit : Z := 3.
Definition MaxGreenTriesLimit : Z := 5.
Definition MaxTestGlobs : nat := 32.

Definition WorkflowForPreset (preset : string) : option Workflow :=
  stages ← Presets preset;
  Some (mkWorkflow preset stages 0 0 0 0 None EmptyString).

(** NewProjectWorkflow dereferences WorkflowForPreset's result when it sets
    the judge: a nil there would panic. *)
Definition NewProjectWorkflow (graphType : string) : outcome unit (option Workflow) :=
  let w := WorkflowForPreset PresetStandard in
  if String.eqb graphType "story" then
    match w with
    | None => Panic
    | Some w => Ok (Some (mkWorkflow (wf_Preset w) (wf_Stages w) (wf_ReviewerSkipBelowLines w)
                       (wf_MaxQARounds w) (wf_MaxTesterRounds w) (wf_MaxGreenTries w)
                       (wf_TestGlobs w) JudgeChecklist))
    end
  else Ok w.

Definition EffectiveWorkflow (g : option Graph) (goalID : string) : option Workflow :=
  match g with
  | None => None
  | Some g =>
      match (if negb (String.eqb goalID EmptyString) then NodeByID g goalID ≫= n_Workflow else None) with
      | Some w => Some w
      | None => GWorkflow g
      end
  end.

Definition GoalTag (id : string) : string := "goal:" +:+ id.

Definition exists_node (g : option Graph) (id : string) : bool :=
  match g with
  | Some g => match NodeByID g id with Some _ => true | None => false end
  | None => false
  end.

(** The loop of GoalOf, [first] being the first goal named so far. *)
Fixpoint goal_of_tags (g : option Graph) (first : string) (tags : list string) : string :=
  match tags with
  | [] => first
  | tag :: tags' =>
      match cut_prefix tag "goal:" with
      | None => goal_of_tags g first tags'
      | Some id =>
          if String.eqb id EmptyString then goal_of_tags g first tags'
          else if exists_node g id then id
          else goal_of_tags g (if String.eqb first EmptyString then id else first) tags'
      end
  end.

Definition GoalOf (g : option Graph) (n : option Node) : string :=
  match n with
  | None => EmptyString
  | Some n => goal_of_tags g EmptyString (n_Tags n)
  end.

Definition is_checklist (w : Workflow) : bool := String.eqb (wf_Judge w) JudgeChecklist.

Definition RequiresAcceptance (w : option Workflow) : bool :=
  match w with
  | None => false
  | Some w => st_Tester (wf_Stages w) || st_Reviewer (wf_Stages w) || is_checklist w
  end.

Definition Staged (w : option Workflow) : bool :=
  match w with
  | None => false
  | Some w => st_Tester (wf_Stages w) || st_Reviewer (wf_Stages w) || st_CI (wf_Stages w) || is_checklist w
  end.

Definition lever (v d : Z) : Z := if v =? 0 then d else v.

Definition Normalized (w : option Workflow) : option Workflow :=
  match w with
  | None => None
  | Some w =>
      Some (mkWorkflow (wf_Preset w) (wf_Stages w) (wf_ReviewerSkipBelowLines w)
              (lever (wf_MaxQARounds w) DefaultMaxQARounds)
              (lever (wf_MaxTesterRounds w) DefaultMaxTesterRounds)
              (lever (wf_MaxGreenTries w) DefaultMaxGreenTries)
              (Some (match TestGlobs w with [] => DefaultTestGlobs | globs => globs end))
              (wf_Judge w))
  end.

Inductive WorkflowError :=
  | UnknownPreset (preset : string)
  | StagesDoNotMatch (preset : string)
  | BadSkipBelowLines
  | BadQARounds
  | BadTesterRounds
  | BadGreenTries
  | TooManyGlobs
  | InvalidGlob (glob : string)
  | UnknownJudge (judge : string)
  | NotAutopilot (node : string)
  | InNode (node : string) (e : WorkflowError).

Definition bad_glob (glob : string) : bool :=
  String.eqb (trim_space glob) EmptyString || (200 <? String.length glob)%nat || has_prefix glob "/"
  || str_contains glob (str_of_char backslash) || str_contains glob ".." || str_contains glob ":".

Definition out_of (lo hi v : Z) : bool := (v <? lo) || (hi <? v).

(** The preset rule: a named preset has exactly its stages. *)
Definition check_preset (w : Workflow) : option WorkflowError :=
  if String.eqb (wf_Preset w) PresetCustom then None
  else match Presets (wf_Preset w) with
       | None => Some (UnknownPreset (wf_Preset w))
       | Some stages =>
           if bool_decide (stages = wf_Stages w) then None else Some (StagesDoNotMatch (wf_Preset w))
       end.

(** ValidateWorkflow: [None] is a nil error. *)
Definition ValidateWorkflow (w : option Workflow) : option WorkflowError :=
  match w with
  | None => None
  | Some w =>
      match check_preset w with
      | Some e => Some e
      | None =>
          if out_of 0 MaxReviewerSkipBelowLines (wf_ReviewerSkipBelowLines w) then Some BadSkipBelowLines
          else if out_of 0 MaxQARoundsLimit (wf_MaxQARounds w) then Some BadQARounds
          else if out_of 0 MaxTesterRoundsLimit (wf_MaxTesterRounds w) then Some BadTesterRounds
          else if out_of 0 MaxGreenTriesLimit (wf_MaxGreenTries w) then Some BadGreenTries
          else if (MaxTestGlobs <? length (TestGlobs w))%nat then Some TooManyGlobs
          else match find bad_glob (TestGlobs w) with
               | Some glob => Some (InvalidGlob glob)
               | None =>
                   if one_of (wf_Judge w) [EmptyString; JudgeChecklist] then None
                   else Some (UnknownJudge (wf_Judge w))
               end
      end
  end.

#[global] Arguments ValidateWorkflow _ : simpl never.

(** The node loop of ValidateGraphWorkflows. *)
Fixpoint node_workflows `{Unicode} (g : Graph) (nodes : list (option Node)) : option WorkflowError :=
  match nodes with
  | [] => None
  | n :: nodes' =>
      match n with
      | None => node_workflows g nodes'
      | Some m =>
          match n_Workflow m with
          | None => node_workflows g nodes'
          | Some w =>
              if negb (String.eqb (nt_AgentMode (TypeOf (Some g) n)) AgentAutopilot)
              then Some (NotAutopilot (n_ID m))
              else match ValidateWorkflow (Some w) with
                   | Some e => Some (InNode (n_ID m) e)
                   | None => node_workflows g nodes'
                   end
          end
      end
  end.

Definition ValidateGraphWorkflows `{Unicode} (g : option Graph) : option WorkflowError :=
  match g with
  | None => None
  | Some g =>
      match ValidateWorkflow (GWorkflow g) with
      | Some e => Some e
      | None => node_workflows g (Nodes g)
      end
  end.

(** * Acceptance (acceptance.go) *)

Definition MaxAcceptanceItems : nat := 30.
Definition MaxAcceptanceItemRunes : nat := 400.

(** acceptanceIDPattern: an a and one to three digits. *)
Definition acceptanceIDPattern (id : string) : bool :=
  match id with
  | String c rest =>
      Ascii.eqb c "a" && (1 <=? String.length rest)%nat && (String.length rest <=? 3)%nat && str_all is_digit rest
  | EmptyString => false
  end.

Definition AcceptanceAllowed `{Unicode} (g : option Graph) (n : option Node) : bool :=
  one_of (nt_AgentMode (TypeOf g n)) [AgentDispatch; AgentAutopilot].

Definition Acceptance_Empty (a : option Acceptance) : bool :=
  match a with
  | None => true
  | Some a => match acc_Items a with [] => true | _ => false end
  end.

Inductive AcceptanceError :=
  | TypeCannotCarry (node type : string)
  | TooManyItems
  | InvalidCriterion (id : string)
  | DuplicateCriterion (id : string)
  | EmptyCriterion (id : string)
  | NotOneLine (id : string)
  | LongCriterion (id : string).

Definition newlines : string := String "013"%char (str_of_char "010"%char).

Fixpoint acceptance_items (seen : gset string) (items : list AcceptanceItem) : option AcceptanceError :=
  match items with
  | [] => None
  | item :: items' =>
      let id := ai_ID item in
      if negb (acceptanceIDPattern id) then Some (InvalidCriterion id)
      else if bool_decide (id ∈ seen) then Some (DuplicateCriterion id)
      else if String.eqb (trim_space (ai_Text item)) EmptyString then Some (EmptyCriterion id)
      else if contains_any (ai_Text item) newlines then Some (NotOneLine id)
      else if (MaxAcceptanceItemRunes <? rune_count (ai_Text item))%nat then Some (LongCriterion id)
      else acceptance_items ({[ id ]} ∪ seen) items'
  end.

Definition ValidateAcceptanceItems (items : list AcceptanceItem) : option AcceptanceError :=
  if (MaxAcceptanceItems <? length items)%nat then Some TooManyItems else acceptance_items ∅ items.

Definition ValidateNodeAcceptance `{Unicode} (g : option Graph) (n : option Node) : option AcceptanceError :=
  match n with
  | None => None
  | Some m =>
      match n_Acceptance m with
      | None => None
      | Some a =>
          if negb (AcceptanceAllowed g n) then Some (TypeCannotCarry (n_ID m) (nt_ID (TypeOf g n)))
          else ValidateAcceptanceItems (acc_Items a)
      end
  end.

(** strconv.Atoi of the one to three digits of an id. *)
Fixpoint digits_value (acc : Z) (s : string) : Z :=
  match s with
  | EmptyString => acc
  | String c s' => digits_value (10 * acc + (byte_val c - 48)) s'
  end.

Definition id_number (id : string) : Z := digits_value 0 (str_drop 1 id).

Definition max_acceptance_id (items : list AcceptanceItem) : Z :=
  foldl (λ m item, if acceptanceIDPattern (ai_ID item) && (m <? id_number (ai_ID item))
                   then id_number (ai_ID item) else m) 0 items.

(** strconv.Itoa. *)
Definition itoa (z : Z) : string := pretty z.

Fixpoint assign_ids (maxID : Z) (items : list AcceptanceItem) : list AcceptanceItem :=
  match items with
  | [] => []
  | item :: items' =>
      if String.eqb (ai_ID item) EmptyString
      then mkAcceptanceItem ("a" +:+ itoa (maxID + 1)) (ai_Text item) :: assign_ids (maxID + 1) items'
      else item :: assign_ids maxID items'
  end.

(** AssignAcceptanceIDs; nil and empty lists are told apart. *)
Definition AssignAcceptanceIDs (items : option (list AcceptanceItem)) : option (list AcceptanceItem) :=
  match items with
  | None => None
  | Some items => Some (assign_ids (max_acceptance_id items) items)
  end.

Definition acceptance_of (a : option Acceptance) : list AcceptanceItem :=
  match a with Some a => acc_Items a | None => [] end.

Fixpoint equal_items (ai bi : list AcceptanceItem) : bool :=
  match ai, bi with
  | [], _ => true
  | x :: ai', y :: bi' => bool_decide (x = y) && equal_items ai' bi'
  | _ :: _, [] => false
  end.

Definition EqualItems (a b : option Acceptance) : bool :=
  (length (acceptance_of a) =? length (acceptance_of b))%nat
  && equal_items (acceptance_of a) (acceptance_of b).

(** * Workflow facts *)

Definition lever_ok (hi v : Z) : Prop := 1 ≤ v ≤ hi.

Lemma out_of_false lo hi v : out_of lo hi v = false ↔ lo ≤ v ≤ hi.
Proof. unfold out_of. rewrite orb_false_iff, !Z.ltb_ge. lia. Qed.

Lemma lever_range hi d v : out_of 0 hi v = false → 1 ≤ d ≤ hi → lever_ok hi (lever v d).
Proof. rewrite out_of_false. unfold lever_ok, lever. destruct (Z.eqb_spec v 0); lia. Qed.

Lemma lever_idem d v : d ≠ 0 → lever (lever v d) d = lever v d.
Proof. unfold lever. intros Hd. destruct (Z.eqb_spec v 0); [|by destruct (Z.eqb_spec v 0)]. by destruct (Z.eqb_spec d 0). Qed.

Lemma find_None {A} (f : A → bool) xs : find f xs = None ↔ ∀ x, x ∈ xs → f x = false.
Proof.
  induction xs as [|x xs IH]; simpl; [set_solver|]. destruct (f x) eqn:E.
  - split; [done|]. intros Hall. rewrite Hall in E by (by left). done.
  - rewrite IH. split; [|set_solver]. intros Hall y [->|Hy]%elem_of_cons; auto.
Qed.

(** The rules of ValidateWorkflow, one by one. *)
Lemma ValidateWorkflow_None w :
  ValidateWorkflow (Some w) = None ↔
  check_preset w = None ∧ out_of 0 MaxReviewerSkipBelowLines (wf_ReviewerSkipBelowLines w) = false ∧
  out_of 0 MaxQARoundsLimit (wf_MaxQARounds w) = false ∧
  out_of 0 MaxTesterRoundsLimit (wf_MaxTesterRounds w) = false ∧
  out_of 0 MaxGreenTriesLimit (wf_MaxGreenTries w) = false ∧
  (length (TestGlobs w) ≤ MaxTestGlobs)%nat ∧
  (∀ glob, glob ∈ TestGlobs w → bad_glob glob = false) ∧
  wf_Judge w ∈ [EmptyString; JudgeChecklist].
Proof.
  unfold ValidateWorkflow. rewrite <- find_None, <- one_of_spec.
  destruct (check_preset w); [naive_solver|].
  destruct (out_of 0 MaxReviewerSkipBelowLines _); [naive_solver|].
  destruct (out_of 0 MaxQARoundsLimit _); [naive_solver|].
  destruct (out_of 0 MaxTesterRoundsLimit _); [naive_solver|].
  destruct (out_of 0 MaxGreenTriesLimit _); [naive_solver|].
  destruct (Nat.ltb_spec MaxTestGlobs (length (TestGlobs w))).
  - split; [done|]. intros. lia.
  - destruct (find bad_glob _); [naive_solver|]. destruct (one_of _ _); naive_solver.
Qed.

(** A workflow that passes ValidateWorkflow, with its zero levers replaced
    by their defaults, is one the pipeline can run: every lever is between one
    and its limit, there is at least one test glob and every glob is relative,
    slash-separated and without dot-dot, normalizing twice changes nothing,
    the result passes ValidateWorkflow again and its stages and judge are the
    ones stored. *)
Theorem valid_workflow_normalizes (w : Workflow) (Hvalid : ValidateWorkflow (Some w) = None) :
  ∃ w', Normalized (Some w) = Some w' ∧
    lever_ok MaxQARoundsLimit (wf_MaxQARounds w') ∧
    lever_ok MaxTesterRoundsLimit (wf_MaxTesterRounds w') ∧
    lever_ok MaxGreenTriesLimit (wf_MaxGreenTries w') ∧
    0 ≤ wf_ReviewerSkipBelowLines w' ≤ MaxReviewerSkipBelowLines ∧
    TestGlobs w' ≠ [] ∧ (∀ glob, glob ∈ TestGlobs w' → bad_glob glob = false) ∧
    Normalized (Some w') = Some w' ∧ ValidateWorkflow (Some w') = None ∧
    Staged (Some w') = Staged (Some w) ∧ RequiresAcceptance (Some w') = RequiresAcceptance (Some w).
Proof.
  apply ValidateWorkflow_None in Hvalid as (Hp & Hs & Hq & Ht & Hg & Hlen & Hglobs & Hj).
  eexists. split; [done|]. simpl.
  assert (Hdef : ∀ glob, glob ∈ DefaultTestGlobs → bad_glob glob = false).
  { apply find_None. vm_compute. done. }
  assert (Hgl : ∀ glob, glob ∈ match TestGlobs w with [] => DefaultTestGlobs | globs => globs end → bad_glob glob = false)
    by (destruct (TestGlobs w); auto).
  pose proof (lever_range _ _ _ Hq (ltac:(split; vm_compute; congruence) : 1 ≤ DefaultMaxQARounds ≤ MaxQARoundsLimit)) as Rq.
  pose proof (lever_range _ _ _ Ht (ltac:(split; vm_compute; congruence) : 1 ≤ DefaultMaxTesterRounds ≤ MaxTesterRoundsLimit)) as Rt.
  pose proof (lever_range _ _ _ Hg (ltac:(split; vm_compute; congruence) : 1 ≤ DefaultMaxGreenTries ≤ MaxGreenTriesLimit)) as Rg.
  destruct (proj1 (out_of_false _ _ _) Hs) as [Hs1 Hs2].
  split_and!; try done.
  - by destruct (TestGlobs w).
  - rewrite !lever_idem by done. by destruct (TestGlobs w).
  - apply ValidateWorkflow_None. simpl. unfold lever_ok in *. rewrite !out_of_false. split_and!; try (done || lia).
    + destruct (TestGlobs w); [by vm_compute; lia|done].
Qed.

Lemma valid_workflow_normalizes_witness :
  let w := mkWorkflow PresetStandard (mkStages true false true true false false) 40 0 3 0 None JudgeChecklist in
  ∃ w', Normalized (Some w) = Some w' ∧
    lever_ok MaxQARoundsLimit (wf_MaxQARounds w') ∧
    lever_ok MaxTesterRoundsLimit (wf_MaxTesterRounds w') ∧
    lever_ok MaxGreenTriesLimit (wf_MaxGreenTries w') ∧
    0 ≤ wf_ReviewerSkipBelowLines w' ≤ MaxReviewerSkipBelowLines ∧
    TestGlobs w' ≠ [] ∧ (∀ glob, glob ∈ TestGlobs w' → bad_glob glob = false) ∧
    Normalized (Some w') = Some w' ∧ ValidateWorkflow (Some w') = None ∧
    Staged (Some w') = Staged (Some w) ∧ RequiresAcceptance (Some w') = RequiresAcceptance (Some w).
Proof. apply valid_workflow_normalizes. vm_compute. reflexivity. Defined.

(** * Acceptance facts *)

Lemma pretty_N_digits (x : N) s : digits_value 0 (pretty.pretty_N_go x s) = digits_value (Z.of_N x) s.
Proof.
  revert s. induction (N.lt_wf_0 x) as [x _ IH]; intros s.
  destruct (decide (0 < x)%N) as [Hx|Hx].
  - rewrite pretty_N_go_step by done. rewrite IH by (apply N.div_lt; lia). simpl. f_equal.
    assert (Hc : byte_val (pretty_N_char (x mod 10)) - 48 = Z.of_N (x mod 10)).
    { pose proof (N.mod_lt x 10 ltac:(lia)) as Hlt. generalize dependent (x mod 10)%N. intros r Hr.
      assert (r = 0 ∨ r = 1 ∨ r = 2 ∨ r = 3 ∨ r = 4 ∨ r = 5 ∨ r = 6 ∨ r = 7 ∨ r = 8 ∨ r = 9)%N as Hcases by lia.
      by destruct_or? Hcases; subst. }
    rewrite Hc, N2Z.inj_div, N2Z.inj_mod. pose proof (Z.div_mod (Z.of_N x) 10). lia.
  - assert (x = 0%N) as -> by lia. by rewrite pretty_N_go_0.
Qed.

Lemma itoa_value z : 0 ≤ z → digits_value 0 (itoa z) = z.
Proof.
  intros Hz. unfold itoa, pretty, pretty_Z. destruct z as [|p|p]; [done| |lia].
  change (digits_value 0 (pretty_N_go (N.pos p) EmptyString) = Z.of_N (N.pos p)).
  by rewrite pretty_N_digits.
Qed.

Lemma id_number_new z : 0 ≤ z → id_number ("a" +:+ itoa z) = z.
Proof. apply itoa_value. Qed.

Lemma max_acceptance_id_spec items :
  0 ≤ max_acceptance_id items ∧
  ∀ item, item ∈ items → acceptanceIDPattern (ai_ID item) = true → id_number (ai_ID item) ≤ max_acceptance_id items.
Proof.
  unfold max_acceptance_id.
  assert (Hgen : ∀ m, m ≤ foldl (λ m item, if acceptanceIDPattern (ai_ID item) && (m <? id_number (ai_ID item))
                   then id_number (ai_ID item) else m) m items ∧
    ∀ item, item ∈ items → acceptanceIDPattern (ai_ID item) = true → id_number (ai_ID item) ≤
      foldl (λ m item, if acceptanceIDPattern (ai_ID item) && (m <? id_number (ai_ID item))
                   then id_number (ai_ID item) else m) m items); [|by apply Hgen].
  induction items as [|x items IH]; intros m; simpl; [split; [lia|set_solver]|].
  destruct (IH (if acceptanceIDPattern (ai_ID x) && (m <? id_number (ai_ID x)) then id_number (ai_ID x) else m)) as [Hm Hi].
  split.
  - etransitivity; [|apply Hm]. destruct (acceptanceIDPattern _); simpl; [|lia]. destruct (Z.ltb_spec m (id_number (ai_ID x))); lia.
  - intros item [->|Hin]%elem_of_cons Hp; [|by apply Hi].
    etransitivity; [|apply Hm]. rewrite Hp. simpl. destruct (Z.ltb_spec m (id_number (ai_ID x))); lia.
Qed.

Definition blank_count (items : list AcceptanceItem) : nat :=
  length (List.filter (λ item, String.eqb (ai_ID item) EmptyString) items).

(** Every assigned id carries a number above the ids before it. *)
Lemma assign_ids_spec m items :
  0 ≤ m →
  (∀ item, item ∈ items → ai_ID item ≠ EmptyString → id_number (ai_ID item) ≤ m) →
  Forall2 (λ item new, ai_Text new = ai_Text item ∧
             (if String.eqb (ai_ID item) EmptyString
              then ∃ k, m < k ≤ m + Z.of_nat (blank_count items) ∧ ai_ID new = "a" +:+ itoa k
              else new = item)) items (assign_ids m items).
Proof.
  revert m. induction items as [|x items IH]; intros m Hm Hall; [constructor|].
  unfold blank_count. simpl. destruct (String.eqb_spec (ai_ID x) EmptyString) as [Hx|Hx].
  - constructor.
    + split; [done|]. rewrite Hx. simpl. exists (m + 1). split; [lia|done].
    + eapply Forall2_impl; [apply (IH (m + 1)); [lia|]|].
      * intros item Hin Hne. specialize (Hall item ltac:(set_solver) Hne). lia.
      * intros item new [Ht Hi]. split; [done|]. simpl. unfold blank_count in Hi.
        destruct (String.eqb (ai_ID item) EmptyString); [|done].
        destruct Hi as (k & Hk & ->). exists k. split; [lia|done].
  - constructor.
    + split; [done|]. by rewrite (proj2 (String.eqb_neq _ _) Hx).
    + eapply Forall2_impl; [apply (IH m); [lia|set_solver]|]. done.
Qed.

Lemma assign_ids_NoDup m items :
  0 ≤ m →
  (∀ item, item ∈ items → ai_ID item ≠ EmptyString → id_number (ai_ID item) ≤ m) →
  NoDup (List.filter (λ id, negb (String.eqb id EmptyString)) (ai_ID <$> items)) →
  NoDup (ai_ID <$> assign_ids m items).
Proof.
  revert m. induction items as [|x items IH]; intros m Hm Hall Hnd; simpl; [constructor|].
  simpl in Hnd. destruct (String.eqb_spec (ai_ID x) EmptyString) as [Hx|Hx]; simpl in *.
  - constructor.
    + intros (new & Hnew & Hin)%list_elem_of_fmap. simpl in Hnew.
      assert (Hs := assign_ids_spec (m + 1) items ltac:(lia)).
      apply list_elem_of_lookup in Hin as [i Hi].
      eapply Forall2_lookup_r in Hs as (old & Hold & Ht & Hid); [| |exact Hi].
      2:{ intros item Hit Hne. specialize (Hall item ltac:(set_solver) Hne). lia. }
      apply list_elem_of_lookup_2 in Hold.
      destruct (String.eqb_spec (ai_ID old) EmptyString) as [Ho|Ho].
      * destruct Hid as (k & Hk & Hid). rewrite Hid in Hnew.
        apply (f_equal id_number) in Hnew. rewrite !id_number_new in Hnew by lia. lia.
      * subst. specialize (Hall old ltac:(set_solver) Ho).
        rewrite <- Hnew, id_number_new in Hall by lia. lia.
    + apply IH; [lia| |done]. intros item Hin Hne. specialize (Hall item ltac:(set_solver) Hne). lia.
  - apply NoDup_cons in Hnd as [Hn Hnd]. constructor; [|apply IH; [done|set_solver|done]].
    intros (new & Hnew & Hin)%list_elem_of_fmap.
    assert (Hs := assign_ids_spec m items Hm ltac:(set_solver)).
    apply list_elem_of_lookup in Hin as [i Hi].
    eapply Forall2_lookup_r in Hs as (old & Hold & Ht & Hid); [|exact Hi].
    apply list_elem_of_lookup_2 in Hold.
    destruct (String.eqb_spec (ai_ID old) EmptyString) as [Ho|Ho].
    + destruct Hid as (k & Hk & Hid). specialize (Hall x ltac:(set_solver) Hx).
      rewrite Hnew, Hid, id_number_new in Hall by lia. lia.
    + subst. destruct Hn. rewrite Hnew. apply list_elem_of_In, filter_In. split.
      * apply list_elem_of_In. by apply list_elem_of_fmap_2.
      * by rewrite (proj2 (String.eqb_neq _ _) Ho).
Qed.

Definition text_ok (item : AcceptanceItem) : bool :=
  negb (String.eqb (trim_space (ai_Text item)) EmptyString) && negb (contains_any (ai_Text item) newlines)
  && (rune_count (ai_Text item) <=? MaxAcceptanceItemRunes)%nat.

Lemma acceptance_items_None seen items :
  acceptance_items seen items = None ↔
  (∀ item, item ∈ items → acceptanceIDPattern (ai_ID item) = true ∧ text_ok item = true ∧ ai_ID item ∉ seen) ∧
  NoDup (ai_ID <$> items).
Proof.
  revert seen. induction items as [|x items IH]; intros seen; simpl; [split; [split; [set_solver|constructor]|done]|].
  rewrite NoDup_cons.
  assert (Hx : (acceptanceIDPattern (ai_ID x) = true ∧ text_ok x = true ∧ ai_ID x ∉ seen) ∧
               acceptance_items ({[ai_ID x]} ∪ seen) items = None ↔
               (∀ item, item ∈ x :: items → acceptanceIDPattern (ai_ID item) = true ∧ text_ok item = true ∧ ai_ID item ∉ seen) ∧
               ai_ID x ∉ (ai_ID <$> items) ∧ NoDup (ai_ID <$> items)).
  { rewrite IH. split.
    - intros (Hx & Hall & Hnd). split_and!; [|intros (y & Hy & Hin)%list_elem_of_fmap|done].
      + intros item [->|Hin]%elem_of_cons; [done|]. destruct (Hall item Hin) as (?&?&?). set_solver.
      + destruct (Hall y Hin) as (_ & _ & Hn). set_solver.
    - intros (Hall & Hn & Hnd). split; [apply Hall; by left|]. split; [|done].
      intros item Hin. destruct (Hall item ltac:(by right)) as (?&?&?). split_and!; [done..|].
      rewrite elem_of_union, elem_of_singleton. intros [He|?]; [|done]. destruct Hn. rewrite <- He.
      by apply list_elem_of_fmap_2. }
  rewrite <- Hx. clear Hx IH. unfold text_ok.
  destruct (acceptanceIDPattern (ai_ID x)); simpl; [|naive_solver].
  case_bool_decide; [naive_solver|].
  destruct (String.eqb (trim_space (ai_Text x)) EmptyString); simpl; [naive_solver|].
  destruct (contains_any (ai_Text x) newlines); simpl; [naive_solver|].
  destruct (Nat.ltb_spec MaxAcceptanceItemRunes (rune_count (ai_Text x))), (Nat.leb_spec (rune_count (ai_Text x)) MaxAcceptanceItemRunes);
    try lia; naive_solver.
Qed.

Lemma acceptance_ids_upto_999 k : 1 ≤ k ≤ 999 → acceptanceIDPattern ("a" +:+ itoa k) = true.
Proof.
  intros Hk.
  assert (Hall : forallb (λ n, acceptanceIDPattern ("a" +:+ itoa (Z.of_nat n))) (seq 1 999) = true) by (by vm_compute).
  rewrite forallb_forall in Hall. specialize (Hall (Z.to_nat k)).
  rewrite Z2Nat.id in Hall by lia. apply Hall. apply in_seq. lia.
Qed.

(** Assigning ids to acceptance criteria keeps every text and every id
    already given, gives each criterion without one an id no other criterion
    has, and, while the numbers stay within the three digits an id may have,
    leaves a list that ValidateAcceptanceItems accepts as soon as the texts are
    acceptable and there are at most thirty of them. *)
Theorem assign_acceptance_ids (items : list AcceptanceItem)
    (Hids : ∀ item, item ∈ items → ai_ID item ≠ EmptyString → acceptanceIDPattern (ai_ID item) = true)
    (Hdistinct : NoDup (List.filter (λ id, negb (String.eqb id EmptyString)) (ai_ID <$> items))) :
  ∃ out, AssignAcceptanceIDs (Some items) = Some out ∧
    ai_Text <$> out = ai_Text <$> items ∧
    Forall2 (λ item new, ai_ID item ≠ EmptyString → new = item) items out ∧
    NoDup (ai_ID <$> out) ∧
    (max_acceptance_id items + Z.of_nat (blank_count items) ≤ 999 →
     (length items ≤ MaxAcceptanceItems)%nat → (∀ item, item ∈ items → text_ok item = true) →
     ValidateAcceptanceItems out = None).
Proof.
  destruct (max_acceptance_id_spec items) as [Hpos Hmax].
  assert (Hle : ∀ item, item ∈ items → ai_ID item ≠ EmptyString → id_number (ai_ID item) ≤ max_acceptance_id items) by auto.
  pose proof (assign_ids_spec _ items Hpos Hle) as Hs.
  pose proof (assign_ids_NoDup _ items Hpos Hle Hdistinct) as Hnd.
  eexists. split; [done|]. split_and!; [| |done|].
  - symmetry. apply list_eq_Forall2, Forall2_fmap. eapply Forall2_impl; [apply Hs|]. by intros ?? [<- _].
  - eapply Forall2_impl; [apply Hs|]. intros old new [_ Hi] Hne. by rewrite (proj2 (String.eqb_neq _ _) Hne) in Hi.
  - intros Hbound Hlen Htexts. unfold ValidateAcceptanceItems.
    rewrite <- (Forall2_length _ _ _ Hs). destruct (Nat.ltb_spec MaxAcceptanceItems (length items)); [lia|].
    apply acceptance_items_None. split; [|done]. intros new Hnew.
    apply list_elem_of_lookup in Hnew as [i Hi].
    eapply Forall2_lookup_r in Hs as (old & Hold & Ht & Hid); [|exact Hi].
    apply list_elem_of_lookup_2 in Hold. split_and!; [| |set_solver].
    + destruct (String.eqb_spec (ai_ID old) EmptyString) as [Ho|Ho]; [|subst; by apply Hids].
      destruct Hid as (k & Hk & ->). apply acceptance_ids_upto_999. lia.
    + specialize (Htexts old Hold). unfold text_ok in *. by rewrite Ht.
Qed.

Lemma assign_acceptance_ids_witness :
  let items := [mkAcceptanceItem "a7" "Tests pass"; mkAcceptanceItem EmptyString "Docs updated"] in
  ∃ out, AssignAcceptanceIDs (Some items) = Some out ∧
    ai_Text <$> out = ai_Text <$> items ∧
    Forall2 (λ item new, ai_ID item ≠ EmptyString → new = item) items out ∧
    NoDup (ai_ID <$> out) ∧
    (max_acceptance_id items + Z.of_nat (blank_count items) ≤ 999 →
     (length items ≤ MaxAcceptanceItems)%nat → (∀ item, item ∈ items → text_ok item = true) →
     ValidateAcceptanceItems out = None).
Proof.
  apply assign_acceptance_ids.
  - intros item Hin Hne. apply elem_of_cons in Hin as [->|Hin]; [reflexivity|].
    apply list_elem_of_singleton in Hin as ->. by destruct Hne.
  - vm_compute. apply NoDup_singleton.
Defined.
