(* ===== verification/Roles.v ===== *)
(** Who acts and in which role (internal/identity/identity.go and
    internal/engine/roles.go): agent classes and their ranks, the built-in
    roles, a project's overrides and custom roles, and the rules of a stored
    role list. *)

From S2P Require Import Prelude GoStr GoFloat Dsl Graph NodeTypes.
From Stdlib Require Import Ascii.
Open Scope Z_scope.

(** * Actors *)

Abbreviation AgentClass := string.

Definition RoleAdmin : string := "admin".
Definition AgentHuman : AgentClass := EmptyString.
Definition AgentOrchestrator : AgentClass := "orchestrator".
Definition AgentWorker : AgentClass := "worker".

Record Actor := mkActor {
  a_ID : string;
  a_Name : string;
  a_Role : string;
  a_Agent : AgentClass;
  a_AgentRole : string;
  a_RunID : string;
  a_RunNodeID : string;
}.

#[export] Instance Actor_eq_dec : EqDecision Actor.
Proof. solve_decision. Defined.

Definition IsAgent (a : Actor) : bool := negb (String.eqb (a_Agent a) EmptyString).
Definition HasRole (a : Actor) : bool := IsAgent a && negb (String.eqb (a_AgentRole a) EmptyString).
Definition IsAdmin (a : Actor) : bool := String.eqb (a_Role a) RoleAdmin || String.eqb (a_ID a) "local".

Definition classRank (c : AgentClass) : Z :=
  if String.eqb c AgentHuman then 2 else if String.eqb c AgentOrchestrator then 1 else 0.

Definition LowerClass (a b : AgentClass) : AgentClass := if classRank b <? classRank a then b else a.

Definition System : Actor :=
  mkActor "hub" "hub" EmptyString EmptyString EmptyString EmptyString EmptyString.

(** * Capabilities and tools *)

Definition RolePlanner : string := "planner".
Definition RoleQA : string := "qa".
Definition RoleTester : string := "tester".
Definition RoleExecutor : string := "executor".
Definition RoleReviewer : string := "reviewer".
Definition RoleResearcher : string := "researcher".

Definition MaxCustomRoles : nat := 32.
Definition MaxRoleInstructionsBytes : nat := Pos.to_nat (2 * 2 ^ 10).

Abbreviation Capability := string.
Definition CapRead : Capability := "read".
Definition CapClaim : Capability := "claim".
Definition CapStatus : Capability := "status".
Definition CapBody : Capability := "body".
Definition CapCreate : Capability := "create".
Definition CapLink : Capability := "link".
Definition CapMeta : Capability := "meta".
Definition CapAcceptance : Capability := "acceptance".
Definition CapMessage : Capability := "message".
Definition CapVerdict : Capability := "verdict".

Definition Capabilities : list Capability :=
  [CapRead; CapClaim; CapStatus; CapBody; CapCreate; CapLink; CapMeta; CapAcceptance; CapMessage; CapVerdict].

Definition tool_table : list (string * list Capability) := [
  ("get_node", [CapRead]); ("get_graph_outline", [CapRead]); ("search_nodes", [CapRead]);
  ("get_ready_tasks", [CapRead]); ("validate_graph", [CapRead]); ("list_projects", [CapRead]);
  ("search_documents", [CapRead]); ("index_documents", [CapRead]);
  ("claim_task", [CapClaim]); ("release_task", [CapClaim]);
  ("set_node_status", [CapStatus]); ("update_node_body", [CapBody]);
  ("create_node", [CapCreate]); ("create_subgraph", [CapCreate; CapLink]);
  ("link_nodes", [CapLink]); ("update_node_meta", [CapMeta]); ("set_acceptance", [CapAcceptance]);
  ("ask_user", [CapMessage]); ("approve_tool", [CapMessage]); ("check_inbox", [CapMessage]);
  ("send_message", [CapMessage]); ("list_team", [CapMessage]); ("save_attachment", [CapMessage]);
  ("submit_verdict", [CapVerdict]) ].

(** A lookup in ToolCapabilities: a missing tool needs nothing. *)
Definition ToolCapabilities (tool : string) : list Capability :=
  match find (λ t, String.eqb t.1 tool) tool_table with Some t => t.2 | None => [] end.

(** CapsForTools. *)
Definition CapsForTools (tools : list string) : list Capability :=
  List.filter (λ c, existsb (λ tool, one_of c (ToolCapabilities tool)) tools) Capabilities.

(** * Roles *)

Record AgentRole := mkAgentRole {
  r_ID : string;
  r_Label : string;
  r_Builtin : bool;
  r_BasedOn : string;
  r_Rank : AgentClass;
  r_Tools : list string;
  r_WriteTypes : list string;
  r_AcceptanceTypes : list string;
  r_Caps : list Capability;
  r_Instructions : string;
}.

Definition builtinRole (id label : string) (rank : AgentClass) (tools writeTypes acceptanceTypes : list string) : AgentRole :=
  mkAgentRole id label true EmptyString rank tools writeTypes acceptanceTypes (CapsForTools tools) EmptyString.

Definition builtinAgentRoles : list AgentRole := [
  builtinRole RolePlanner "Planner" AgentOrchestrator
    ["get_node"; "get_graph_outline"; "search_nodes"; "create_subgraph"; "create_node"; "link_nodes";
     "set_acceptance"; "ask_user"; "approve_tool"; "check_inbox"; "send_message"]
    ["task"; "scene"; "event"; "note"; "gate"; "choice"] ["task"; "scene"; "event"; "goal"];
  builtinRole RoleQA "QA" AgentOrchestrator
    ["get_node"; "get_graph_outline"; "set_acceptance"; "create_subgraph"; "link_nodes"; "ask_user";
     "approve_tool"; "check_inbox"; "send_message"; "submit_verdict"]
    ["task"; "scene"; "event"] ["goal"];
  builtinRole RoleTester "Tester" AgentWorker
    ["get_node"; "ask_user"; "approve_tool"; "check_inbox"; "send_message"] [] [];
  builtinRole RoleExecutor "Executor" AgentWorker
    ["claim_task"; "get_node"; "set_node_status"; "release_task"; "ask_user"; "approve_tool";
     "check_inbox"; "send_message"]
    ["task"; "scene"; "event"] [];
  builtinRole RoleReviewer "Reviewer" AgentWorker
    ["get_node"; "approve_tool"; "check_inbox"; "send_message"; "submit_verdict"] [] [];
  builtinRole RoleResearcher "Researcher" AgentWorker
    ["get_node"; "get_graph_outline"; "search_nodes"; "search_documents"; "create_node";
     "update_node_body"; "link_nodes"; "ask_user"; "approve_tool"; "check_inbox"; "send_message"]
    ["note"] [] ].

Definition find_role (rs : list AgentRole) (id : string) : option AgentRole :=
  find (λ r, String.eqb (r_ID r) id) rs.

Definition builtinAgentRole (id : string) : option AgentRole := find_role builtinAgentRoles id.

Definition IsBuiltinRole (id : string) : bool :=
  match builtinAgentRole id with Some _ => true | None => false end.

Definition customRoleIDPattern (id : string) : bool := custom_id "custom-role-" id.

Definition ValidRoleID (id : string) : bool := IsBuiltinRole id || customRoleIDPattern id.

Definition applyOverride (r : AgentRole) (def : AgentRoleDef) : AgentRole :=
  mkAgentRole (r_ID r) (r_Label r) (r_Builtin r) (r_BasedOn r) (r_Rank r)
    (default (r_Tools r) (ard_Tools def))
    (default (r_WriteTypes r) (ard_WriteTypes def))
    (default (r_AcceptanceTypes r) (ard_AcceptanceTypes def))
    (match ard_Tools def with Some tools => CapsForTools tools | None => r_Caps r end)
    (r_Instructions r).

Definition resolveCustomRole (def : AgentRoleDef) : AgentRole :=
  let tools := default [] (ard_Tools def) in
  mkAgentRole (ard_ID def) (trim_space (ard_Label def)) false (ard_BasedOn def)
    (if String.eqb (ard_Rank def) AgentOrchestrator then ard_Rank def else AgentWorker)
    tools (default [] (ard_WriteTypes def)) (default [] (ard_AcceptanceTypes def))
    (CapsForTools tools) (ard_Instructions def).

Definition stored_roles (g : option Graph) : list AgentRoleDef :=
  match g with Some g => AgentRoles g | None => [] end.

Definition is_role (id : string) (def : AgentRoleDef) : bool := String.eqb (ard_ID def) id.

Definition override_roles (out : list AgentRole) (def : AgentRoleDef) : list AgentRole :=
  if IsBuiltinRole (ard_ID def)
  then (λ r, if String.eqb (r_ID r) (ard_ID def) then applyOverride r def else r) <$> out
  else out.

Definition custom_role (def : AgentRoleDef) : bool :=
  negb (IsBuiltinRole (ard_ID def)) && customRoleIDPattern (ard_ID def).

Definition ResolvedAgentRoles (g : option Graph) : list AgentRole :=
  foldl override_roles builtinAgentRoles (stored_roles g)
  ++ (resolveCustomRole <$> List.filter custom_role (stored_roles g)).

Definition RoleOf (g : option Graph) (id : string) : option AgentRole :=
  match builtinAgentRole id with
  | Some r => Some (foldl (λ r def, if is_role id def then applyOverride r def else r) r (stored_roles g))
  | None =>
      if negb (customRoleIDPattern id) then None
      else resolveCustomRole <$> find (is_role id) (stored_roles g)
  end.

Definition Slot (r : AgentRole) : string := if r_Builtin r then r_ID r else r_BasedOn r.
Definition HasCap (r : AgentRole) (c : Capability) : bool := existsb (λ held, String.eqb held c) (r_Caps r).
Definition containsString (xs : list string) (s : string) : bool := existsb (λ v, String.eqb v s) xs.
Definition HasTool (r : AgentRole) (tool : string) : bool := containsString (r_Tools r) tool.
Definition MayWriteType (r : AgentRole) (kind : string) : bool := containsString (r_WriteTypes r) kind.
Definition MayAcceptType (r : AgentRole) (kind : string) : bool := containsString (r_AcceptanceTypes r) kind.

Definition RoleClass (g : option Graph) (id : string) : AgentClass :=
  match RoleOf g id with Some r => r_Rank r | None => EmptyString end.

Definition knownRoleType (kind : string) : bool := IsBuiltinNodeKind kind || customNodeTypeIDPattern kind.

(** * The rules of a stored role list *)

Inductive RoleProblem :=
  | UnknownTool (id tool : string)
  | UnknownWriteType (id kind : string)
  | UnknownAcceptanceType (id kind : string)
  | DuplicateRole (id : string)
  | BuiltinRoleFixed (id : string)
  | InvalidRoleID (id : string)
  | BadRoleLabel (id : string)
  | NotBasedOnBuiltin (id basedOn : string)
  | InvalidRank (id rank : string)
  | LongInstructions (id : string)
  | TooManyRoles (customs : nat).

(** checkLists. *)
Definition checkLists (def : AgentRoleDef) : list RoleProblem :=
  let id := ard_ID def in
  concat ((λ tool, when (match ToolCapabilities tool with [] => true | _ => false end) (UnknownTool id tool))
          <$> default [] (ard_Tools def))
  ++ concat ((λ kind, when (negb (knownRoleType kind)) (UnknownWriteType id kind))
          <$> default [] (ard_WriteTypes def))
  ++ concat ((λ kind, when (negb (knownRoleType kind)) (UnknownAcceptanceType id kind))
          <$> default [] (ard_AcceptanceTypes def)).

Definition builtin_role_problems (def : AgentRoleDef) : list RoleProblem :=
  when (negb (String.eqb (ard_Label def) EmptyString && String.eqb (ard_BasedOn def) EmptyString
              && String.eqb (ard_Rank def) EmptyString && String.eqb (ard_Instructions def) EmptyString))
    (BuiltinRoleFixed (ard_ID def))
  ++ checkLists def.

Definition custom_role_problems (def : AgentRoleDef) : list RoleProblem :=
  let id := ard_ID def in
  let label := trim_space (ard_Label def) in
  when (String.eqb label EmptyString || (64 <? rune_count label)%nat) (BadRoleLabel id)
  ++ when (negb (IsBuiltinRole (ard_BasedOn def))) (NotBasedOnBuiltin id (ard_BasedOn def))
  ++ when (negb (one_of (ard_Rank def) [AgentWorker; AgentOrchestrator])) (InvalidRank id (ard_Rank def))
  ++ when (MaxRoleInstructionsBytes <? String.length (ard_Instructions def))%nat (LongInstructions id)
  ++ checkLists def.

Fixpoint role_problems (defs : list AgentRoleDef) (seen : gset string) (customs : nat) : list RoleProblem :=
  match defs with
  | [] => when (MaxCustomRoles <? customs)%nat (TooManyRoles customs)
  | def :: defs' =>
      let id := ard_ID def in
      if bool_decide (id ∈ seen) then DuplicateRole id :: role_problems defs' seen customs
      else if IsBuiltinRole id then builtin_role_problems def ++ role_problems defs' ({[ id ]} ∪ seen) customs
      else if negb (customRoleIDPattern id)
      then InvalidRoleID id :: role_problems defs' ({[ id ]} ∪ seen) (S customs)
      else custom_role_problems def ++ role_problems defs' ({[ id ]} ∪ seen) (S customs)
  end.

Definition AgentRoleDefProblems (defs : list AgentRoleDef) : list RoleProblem := role_problems defs ∅ 0.

Definition ValidateAgentRoleDefs (defs : list AgentRoleDef) : outcome (list RoleProblem) unit :=
  match AgentRoleDefProblems defs with [] => Ok () | problems => Fail problems end.

(** * Role facts *)

Lemma elem_of_filter_bool {A} (f : A → bool) xs (x : A) : x ∈ List.filter f xs ↔ x ∈ xs ∧ f x = true.
Proof. by rewrite !list_elem_of_In, filter_In. Qed.

Lemma existsb_elem {A} (f : A → bool) xs : existsb f xs = true ↔ ∃ x, x ∈ xs ∧ f x = true.
Proof. rewrite existsb_exists. by setoid_rewrite list_elem_of_In. Qed.

Lemma containsString_spec xs s : containsString xs s = true ↔ s ∈ xs.
Proof.
  unfold containsString. rewrite existsb_elem. setoid_rewrite String.eqb_eq. naive_solver.
Qed.

Lemma HasCap_spec r c : HasCap r c = true ↔ c ∈ r_Caps r.
Proof. apply containsString_spec. Qed.

Create Rewrite HintDb roles.
#[export] Hint Rewrite @elem_of_filter_bool @existsb_elem containsString_spec HasCap_spec one_of_spec : roles.

Lemma ToolCapabilities_known tool c : c ∈ ToolCapabilities tool → c ∈ Capabilities.
Proof.
  unfold ToolCapabilities. destruct (find _ _) as [[t caps]|] eqn:E; [|set_solver]. simpl. intros Hc.
  apply find_some in E as [Hin _].
  assert (Hall : forallb (λ x, forallb (λ c, one_of c Capabilities) x.2) tool_table = true) by (by vm_compute).
  rewrite forallb_forall in Hall. specialize (Hall _ Hin). rewrite forallb_forall in Hall.
  apply one_of_spec. apply Hall. by apply list_elem_of_In.
Qed.

Lemma elem_of_CapsForTools tools c : c ∈ CapsForTools tools ↔ ∃ tool, tool ∈ tools ∧ c ∈ ToolCapabilities tool.
Proof.
  unfold CapsForTools. autorewrite with roles. setoid_rewrite one_of_spec. split; [naive_solver|].
  intros (tool & Ht & Hc). split; [by eapply ToolCapabilities_known|eauto].
Qed.

(** The invariant of resolved roles: capabilities are those of the tools. *)
Definition caps_exact (r : AgentRole) : Prop := r_Caps r = CapsForTools (r_Tools r).

Lemma applyOverride_caps r def : caps_exact r → caps_exact (applyOverride r def).
Proof. unfold caps_exact, applyOverride. by destruct (ard_Tools def). Qed.

(** What an override leaves alone. *)
Definition same_standing (r s : AgentRole) : Prop :=
  r_ID r = r_ID s ∧ r_Builtin r = r_Builtin s ∧ r_Rank r = r_Rank s ∧ r_BasedOn r = r_BasedOn s.

#[export] Instance same_standing_equiv : Equivalence same_standing.
Proof. split; unfold same_standing; red; intuition congruence. Qed.

Lemma overrides_standing id r defs :
  same_standing (foldl (λ r def, if is_role id def then applyOverride r def else r) r defs) r ∧
  (caps_exact r → caps_exact (foldl (λ r def, if is_role id def then applyOverride r def else r) r defs)).
Proof.
  revert r. induction defs as [|def defs IH]; intros r; simpl; [done|].
  destruct (IH (if is_role id def then applyOverride r def else r)) as [Hs Hc]. split.
  - etransitivity; [apply Hs|]. by destruct (is_role id def).
  - intros Hr. apply Hc. destruct (is_role id def); [by apply applyOverride_caps|done].
Qed.

Lemma builtinAgentRole_Some id r :
  builtinAgentRole id = Some r → r_ID r = id ∧ r_Builtin r = true ∧ caps_exact r ∧
  r_Rank r = (if one_of id [RolePlanner; RoleQA] then AgentOrchestrator else AgentWorker).
Proof.
  intros Hf. apply find_some in Hf as [Hin Hid]. apply String.eqb_eq in Hid. subst.
  apply list_elem_of_In in Hin.
  repeat (apply elem_of_cons in Hin as [->|Hin]; [done|]). set_solver.
Qed.

(** The cases of RoleOf: a built-in role, restyled, or a custom definition. *)
Lemma RoleOf_cases g id r :
  RoleOf g id = Some r →
  r_ID r = id ∧ caps_exact r ∧
  ((∃ b, builtinAgentRole id = Some b ∧ same_standing r b) ∨
   (builtinAgentRole id = None ∧ customRoleIDPattern id = true ∧
    ∃ def, def ∈ stored_roles g ∧ ard_ID def = id ∧ r = resolveCustomRole def)).
Proof.
  unfold RoleOf. destruct (builtinAgentRole id) as [b|] eqn:Eb.
  - intros [= <-]. destruct (overrides_standing id b (stored_roles g)) as [Hs Hc].
    apply builtinAgentRole_Some in Eb as Hb. destruct Hb as (Hid & _ & Hcb & _).
    pose proof Hs as (Hr & _). split; [congruence|]. split; [by apply Hc|]. left. eauto.
  - destruct (customRoleIDPattern id) eqn:Ep; [|done]. simpl.
    destruct (find (is_role id) (stored_roles g)) as [def|] eqn:Ef; [|done]. intros [= <-].
    apply find_some in Ef as [Hin Hid]. apply String.eqb_eq in Hid.
    split; [done|]. split; [done|]. right. split; [done|]. split; [done|].
    exists def. split; [by apply list_elem_of_In|done].
Qed.

(** * Properties *)

(** A resolved role may do exactly what its tools need: it holds a
    capability if and only if a tool of its allowlist needs it, whatever the
    project overrode. *)
Theorem role_caps_exact (g : option Graph) (id : string) (r : AgentRole) (c : Capability)
    (Hrole : RoleOf g id = Some r) :
  HasCap r c = true ↔ ∃ tool, HasTool r tool = true ∧ c ∈ ToolCapabilities tool.
Proof.
  apply RoleOf_cases in Hrole as (_ & Hc & _). unfold HasTool. autorewrite with roles.
  rewrite Hc, elem_of_CapsForTools. setoid_rewrite containsString_spec. done.
Qed.

Definition with_roles (g : Graph) (roles : list AgentRoleDef) : Graph :=
  mkGraph (Version g) (Type_ g) (Users g) (Nodes g) (Edges g) (GFlags g) (NodeTypes g)
    roles (GWorkflow g) (OfficeStyle g) (UI g).

Definition sample_roles : list AgentRoleDef :=
  [mkAgentRoleDef "tester" EmptyString EmptyString EmptyString (Some ["get_node"; "update_node_body"]) None None EmptyString;
   mkAgentRoleDef "custom-role-scribe" "Scribe" "researcher" "worker" (Some ["update_node_body"]) (Some ["note"]) None EmptyString].

Definition role_or_first (g : option Graph) (id : string) : AgentRole :=
  default (builtinRole EmptyString EmptyString EmptyString [] [] []) (RoleOf g id).

Lemma role_caps_exact_witness :
  let g := Some (with_roles (plain_graph [] []) sample_roles) in
  HasCap (role_or_first g "tester") CapBody = true ↔
  ∃ tool, HasTool (role_or_first g "tester") tool = true ∧ CapBody ∈ ToolCapabilities tool.
Proof. apply (role_caps_exact (Some (with_roles (plain_graph [] []) sample_roles)) "tester"). vm_compute. reflexivity. Defined.

(** No stored role list raises a rank by accident or by override: a
    resolved role carries the id asked for, ranks as worker or orchestrator,
    a built-in role keeps its rank (orchestrator for planner and QA, worker
    otherwise), and a custom role is an orchestrator only when its definition
    says exactly that. *)
Theorem role_rank_sound (g : option Graph) (id : string) (r : AgentRole)
    (Hrole : RoleOf g id = Some r) :
  r_ID r = id ∧
  if IsBuiltinRole id
  then r_Builtin r = true ∧ Slot r = id ∧
       r_Rank r = (if one_of id [RolePlanner; RoleQA] then AgentOrchestrator else AgentWorker)
  else r_Builtin r = false ∧
       (r_Rank r = AgentOrchestrator ∧ (∃ def, def ∈ stored_roles g ∧ ard_ID def = id ∧ ard_Rank def = AgentOrchestrator)
        ∨ r_Rank r = AgentWorker).
Proof.
  apply RoleOf_cases in Hrole as (Hid & _ & [(b & Hb & Hs)|(Hn & _ & def & Hin & Hdef & ->)]); split; try done.
  - unfold IsBuiltinRole. rewrite Hb. apply builtinAgentRole_Some in Hb as (Hbid & Hbb & _ & Hr).
    destruct Hs as (_ & Hs & Hrank & _). unfold Slot. rewrite Hs, Hbb, Hrank, Hr. done.
  - unfold IsBuiltinRole. rewrite Hn. split; [done|]. unfold resolveCustomRole; simpl.
    destruct (String.eqb_spec (ard_Rank def) AgentOrchestrator); [left|by right]. eauto.
Qed.

Lemma role_rank_sound_witness :
  let g := Some (with_roles (plain_graph [] []) sample_roles) in
  r_ID (role_or_first g "custom-role-scribe") = "custom-role-scribe" ∧
  if IsBuiltinRole "custom-role-scribe"
  then r_Builtin (role_or_first g "custom-role-scribe") = true ∧
       Slot (role_or_first g "custom-role-scribe") = "custom-role-scribe" ∧
       r_Rank (role_or_first g "custom-role-scribe") =
         (if one_of "custom-role-scribe" [RolePlanner; RoleQA] then AgentOrchestrator else AgentWorker)
  else r_Builtin (role_or_first g "custom-role-scribe") = false ∧
       (r_Rank (role_or_first g "custom-role-scribe") = AgentOrchestrator ∧
        (∃ def, def ∈ stored_roles g ∧ ard_ID def = "custom-role-scribe" ∧ ard_Rank def = AgentOrchestrator)
        ∨ r_Rank (role_or_first g "custom-role-scribe") = AgentWorker).
Proof. apply (role_rank_sound (Some (with_roles (plain_graph [] []) sample_roles)) "custom-role-scribe"). vm_compute. reflexivity. Defined.
