(* ===== verification/State.v ===== *)
(** Run state and its journal (internal/engine/state.go): the lifecycle
    statuses, the status write, the replay of the append-only journal, and the
    status a node effectively has.  encoding/json is a parameter of the replay:
    a decoder from one line to an event, and for writing an encoder. *)

From S2P Require Import Prelude GoStr GoFloat GoTime Dsl Graph NodeTypes.
From stdpp Require Import pretty.
From Stdlib Require Import Ascii.
Open Scope Z_scope.

Definition StatusReady : Status := "ready".
Definition StatusStarted : Status := "started".
Definition StatusInProgress : Status := "in_progress".
Definition StatusDone : Status := "done".
Definition StatusSkipped : Status := "skipped".
Definition StatusFailed : Status := "failed".
Definition StatusDeprecated : Status := "deprecated".

Definition customPrefix : string := "custom-status-".

Definition ValidStatus (s : Status) : bool :=
  one_of s [StatusReady; StatusStarted; StatusInProgress; StatusDone; StatusSkipped; StatusFailed; StatusDeprecated]
  || (has_prefix s customPrefix && (0 <? String.length (trim_prefix s customPrefix))%nat).

Definition explicit (s : Status) : bool := ValidStatus s.
Definition CanTransition (_ to : Status) : bool := ValidStatus to.

Record NodeState := mkNodeState { ns_Status : Status; ns_At : string; ns_By : string }.

(** A nil flag map is [None]. *)
Record HistoryEvent := mkHistoryEvent {
  he_ID : string;
  he_T : string;
  he_Event : string;
  he_Node : string;
  he_From : Status;
  he_To : Status;
  he_By : string;
  he_Note : string;
  he_Flags : option (gmap string value);
  he_RecordedAt : string;
  he_StateFlags : option (gmap string value);
  he_Ref : string;
}.

(** Nodes and History are not nil in any state the program keeps: they are
    filled in by ParseRunState, NewRunState and the replay. *)
Record RunState := mkRunState {
  rs_StartedAt : string;
  rs_Nodes : gmap string NodeState;
  rs_Flags : option (gmap string value);
  rs_History : list HistoryEvent;
}.

Definition EventEvidence : string := "evidence".

Definition empty_state : RunState := mkRunState EmptyString ∅ None [].

(** [now] is a time in nanoseconds since 1970 UTC. *)
Definition NewRunState (now : Z) : RunState := mkRunState (rfc3339 now) ∅ None [].

Inductive StatusError :=
  | InvalidStatus (s : Status)
  | InvalidTransition (from to : Status).

(** A status event as SetStatus writes it. *)
Definition status_event (id t node : string) (from to : Status) (by_ : string) : HistoryEvent :=
  mkHistoryEvent id t "status" node from to by_ EmptyString None EmptyString None EmptyString.

Definition SetStatus (rs : RunState) (nodeID : string) (to : Status) (by_ : string) (now : Z)
    : outcome StatusError RunState :=
  if negb (ValidStatus to) then Fail (InvalidStatus to)
  else
    let from := match rs_Nodes rs !! nodeID with
                | Some st => if explicit (ns_Status st) then ns_Status st else StatusReady
                | None => StatusReady
                end in
    if negb (CanTransition from to) then Fail (InvalidTransition from to)
    else
      let ts := rfc3339 now in
      let id := "ev-" +:+ pretty now +:+ "-" +:+ pretty (Z.of_nat (length (rs_History rs))) in
      Ok (mkRunState (rs_StartedAt rs) (<[nodeID := mkNodeState to ts by_]> (rs_Nodes rs)) (rs_Flags rs)
            (rs_History rs ++ [status_event id ts nodeID from to by_])).

(** * Replay *)

(** journalReplay: the state being rebuilt and its two indexes. *)
Record journalReplay := mkReplay {
  jr_rs : RunState;
  jr_statusIndex : gmap string nat;
  jr_latestStatus : gmap string nat;
}.

Definition is_status (ev : HistoryEvent) : bool := String.eqb (he_Event ev) "status".

(** index, on the event at position [i]. *)
Definition index_event (i : nat) (ev : HistoryEvent) (idx : gmap string nat * gmap string nat)
    : gmap string nat * gmap string nat :=
  if negb (is_status ev) then idx
  else
    (if negb (String.eqb (he_ID ev) EmptyString) && bool_decide (idx.1 !! he_ID ev = None)
     then <[he_ID ev := i]> idx.1 else idx.1,
     if negb (String.eqb (he_Node ev) EmptyString) then <[he_Node ev := i]> idx.2 else idx.2).

(** The loop of newJournalReplay over a history starting at position [i]. *)
Fixpoint index_from (i : nat) (h : list HistoryEvent) (idx : gmap string nat * gmap string nat)
    : gmap string nat * gmap string nat :=
  match h with
  | [] => idx
  | ev :: h' => index_from (S i) h' (index_event i ev idx)
  end.

Definition newJournalReplay (base : option RunState) : journalReplay :=
  let rs := default empty_state base in
  let idx := index_from 0 (rs_History rs) (∅, ∅) in
  mkReplay rs idx.1 idx.2.

Definition with_history (rs : RunState) (h : list HistoryEvent) : RunState :=
  mkRunState (rs_StartedAt rs) (rs_Nodes rs) (rs_Flags rs) h.

(** appendHistory. *)
Definition appendHistory (r : journalReplay) (ev : HistoryEvent) : journalReplay :=
  let h := rs_History (jr_rs r) ++ [ev] in
  let idx := index_event (length h - 1) ev (jr_statusIndex r, jr_latestStatus r) in
  mkReplay (with_history (jr_rs r) h) idx.1 idx.2.

Definition with_from (ev : HistoryEvent) (from : Status) : HistoryEvent :=
  mkHistoryEvent (he_ID ev) (he_T ev) (he_Event ev) (he_Node ev) from (he_To ev) (he_By ev)
    (he_Note ev) (he_Flags ev) (he_RecordedAt ev) (he_StateFlags ev) (he_Ref ev).

Definition with_time (ev : HistoryEvent) (t : string) : HistoryEvent :=
  mkHistoryEvent (he_ID ev) t (he_Event ev) (he_Node ev) (he_From ev) (he_To ev) (he_By ev)
    (he_Note ev) (he_Flags ev) (he_RecordedAt ev) (he_StateFlags ev) (he_Ref ev).

(** journalReplay.status. *)
Definition replay_status (r : journalReplay) (ev : HistoryEvent) : journalReplay :=
  if negb (ValidStatus (he_To ev)) then r
  else
    let from := match rs_Nodes (jr_rs r) !! he_Node ev with Some st => ns_Status st | None => StatusReady end in
    let r' := appendHistory r (with_from ev from) in
    let rs := jr_rs r' in
    mkReplay
      (mkRunState (if String.eqb (rs_StartedAt rs) EmptyString then he_T ev else rs_StartedAt rs)
         (<[he_Node ev := mkNodeState (he_To ev) (he_T ev) (he_By ev)]> (rs_Nodes rs))
         (match he_StateFlags ev with Some flags => Some flags | None => rs_Flags rs end)
         (rs_History rs))
      (jr_statusIndex r') (jr_latestStatus r').

(** journalReplay.move. *)
Definition replay_move (r : journalReplay) (ev : HistoryEvent) : journalReplay :=
  match jr_statusIndex r !! he_Ref ev with
  | None => appendHistory r ev
  | Some i =>
      match rs_History (jr_rs r) !! i with
      | None => r (* an index out of range panics; [indexed_in_range] excludes it *)
      | Some stamped =>
          let rs := jr_rs r in
          let node := he_Node stamped in
          let nodes :=
            match rs_Nodes rs !! node with
            | Some st => if bool_decide (default 0%nat (jr_latestStatus r !! node) = i)
                         then <[node := mkNodeState (ns_Status st) (he_T ev) (ns_By st)]> (rs_Nodes rs)
                         else rs_Nodes rs
            | None => rs_Nodes rs
            end in
          let rs' := mkRunState (rs_StartedAt rs) nodes (rs_Flags rs)
                       (<[i := with_time stamped (he_T ev)]> (rs_History rs)) in
          appendHistory (mkReplay rs' (jr_statusIndex r) (jr_latestStatus r)) ev
      end
  end.

(** The switch on one decoded event. *)
Definition replay_event (r : journalReplay) (ev : HistoryEvent) : journalReplay :=
  if is_status ev && negb (String.eqb (he_Node ev) EmptyString) && negb (String.eqb (he_ID ev) EmptyString)
  then replay_status r ev
  else if String.eqb (he_Event ev) "move" && negb (String.eqb (he_Ref ev) EmptyString)
  then replay_move r ev
  else if String.eqb (he_Event ev) EventEvidence && negb (String.eqb (he_Node ev) EmptyString)
  then appendHistory r ev
  else r.

Definition newline : ascii := "010"%char.

(** The decoder error of a complete line, with its number. *)
Inductive JournalError := BadLine (line : nat).

Section Replay.
Variable decode : string → option HistoryEvent.

(** The loop over the lines, [index] the number of lines before; [torn] holds
    when the data does not end in a newline. *)
Fixpoint replay_lines (torn : bool) (index : nat) (lines : list string) (r : journalReplay)
    : journalReplay * option JournalError :=
  match lines with
  | [] => (r, None)
  | line :: lines' =>
      if String.eqb (trim_space line) EmptyString then replay_lines torn (S index) lines' r
      else match decode line with
           | Some ev => replay_lines torn (S index) lines' (replay_event r ev)
           | None =>
               match lines' with
               | [] => if torn then (r, None) else (r, Some (BadLine (S index)))
               | _ :: _ => (r, Some (BadLine (S index)))
               end
           end
  end.

Definition ResumeJournal (base : option RunState) (data : string) : RunState * option JournalError :=
  let torn := negb (has_suffix data (str_of_char newline)) in
  let '(r, err) := replay_lines torn 0 (split_char newline data) (newJournalReplay base) in
  (jr_rs r, err).

Definition StateFromJournalChecked (data : string) : RunState * option JournalError :=
  ResumeJournal None data.

Definition StateFromJournal (data : string) : RunState := (StateFromJournalChecked data).1.
End Replay.

(** AppendJournalLine, for an encoder of one event. *)
Definition AppendJournalLine (encode : HistoryEvent → string) (ev : HistoryEvent) : string :=
  encode ev +:+ str_of_char newline.

(** * Effective flags *)

Definition EffectiveFlags (g : Graph) (rs : option RunState) : gmap string value :=
  match rs with
  | Some rs => default ∅ (rs_Flags rs) ∪ GFlags g
  | None => GFlags g
  end.

(** * The indexes of the replay *)

Lemma index_from_app i h1 h2 idx :
  index_from i (h1 ++ h2) idx = index_from (i + length h1) h2 (index_from i h1 idx).
Proof.
  revert i idx. induction h1 as [|ev h1 IH]; intros i idx; simpl; [by rewrite Nat.add_0_r|].
  by rewrite IH, Nat.add_succ_r.
Qed.

(** Rewriting a display time leaves the indexes alone. *)
Lemma index_from_retime i h k ev t idx :
  h !! k = Some ev → index_from i (<[k := with_time ev t]> h) idx = index_from i h idx.
Proof.
  revert i k idx. induction h as [|x h IH]; intros i k idx Hk; [done|].
  destruct k as [|k]; simpl in *; [by simplify_eq|]. by apply IH.
Qed.

(** Every index entry points into the history, at a status event. *)
Definition in_range_of (h : list HistoryEvent) (m : gmap string nat) : Prop :=
  map_Forall (λ _ i, (i < length h)%nat) m.

Lemma index_from_range h i idx n :
  (i + length h ≤ n)%nat →
  map_Forall (λ _ j, (j < n)%nat) idx.1 → map_Forall (λ _ j, (j < n)%nat) idx.2 →
  map_Forall (λ _ j, (j < n)%nat) (index_from i h idx).1 ∧
  map_Forall (λ _ j, (j < n)%nat) (index_from i h idx).2.
Proof.
  revert i idx. induction h as [|ev h IH]; intros i idx Hn H1 H2; simpl in *; [done|].
  apply IH; [lia| |]; unfold index_event; destruct (negb (is_status ev)); simpl; try done.
  - destruct (negb _ && _); [|done]. apply map_Forall_insert_2; [lia|done].
  - destruct (negb _); [|done]. apply map_Forall_insert_2; [lia|done].
Qed.

(** The replay's invariant: its indexes are those of its history. *)
Definition indexed (r : journalReplay) : Prop :=
  (jr_statusIndex r, jr_latestStatus r) = index_from 0 (rs_History (jr_rs r)) (∅, ∅).

Lemma new_indexed base : indexed (newJournalReplay base).
Proof. unfold indexed, newJournalReplay. simpl. by destruct (index_from _ _ _). Qed.

(** A replay with the invariant is the one a resumed load rebuilds. *)
Lemma indexed_new r : indexed r → newJournalReplay (Some (jr_rs r)) = r.
Proof.
  unfold indexed, newJournalReplay. simpl. intros <-. by destruct r.
Qed.

Lemma indexed_in_range r i :
  indexed r → jr_statusIndex r !! i ≠ None →
  ∃ k ev, jr_statusIndex r !! i = Some k ∧ rs_History (jr_rs r) !! k = Some ev.
Proof.
  unfold indexed. intros Hi Hn. destruct (jr_statusIndex r !! i) as [k|] eqn:Ek; [|done].
  destruct (index_from_range (rs_History (jr_rs r)) 0 (∅, ∅) (length (rs_History (jr_rs r)))) as [H1 _];
    [lia|apply map_Forall_empty..|]. rewrite <- Hi in H1. simpl in H1. apply H1 in Ek as Hk.
  apply lookup_lt_is_Some in Hk as [ev Hev]. eauto.
Qed.

Lemma appendHistory_indexed r ev : indexed r → indexed (appendHistory r ev).
Proof.
  unfold indexed, appendHistory. intros Hi. simpl. rewrite index_from_app, <- Hi, length_app. simpl.
  rewrite Nat.add_sub. by destruct (index_event _ _ _).
Qed.

Lemma replay_status_indexed r ev : indexed r → indexed (replay_status r ev).
Proof.
  intros Hi. unfold replay_status. destruct (negb _); [done|].
  apply (appendHistory_indexed r (with_from ev _)), Hi.
Qed.

Lemma replay_move_indexed r ev : indexed r → indexed (replay_move r ev).
Proof.
  intros Hi. unfold replay_move. destruct (jr_statusIndex r !! he_Ref ev) as [k|]; [|by apply appendHistory_indexed].
  destruct (rs_History (jr_rs r) !! k) as [stamped|] eqn:Ek; [|done].
  apply appendHistory_indexed. unfold indexed in *. simpl. by rewrite index_from_retime.
Qed.

Lemma replay_event_indexed r ev : indexed r → indexed (replay_event r ev).
Proof.
  intros Hi. unfold replay_event.
  destruct (is_status ev && _ && _); [by apply replay_status_indexed|].
  destruct (_ && _); [by apply replay_move_indexed|].
  destruct (_ && _); [by apply appendHistory_indexed|done].
Qed.

Create HintDb journal.
#[export] Hint Resolve new_indexed appendHistory_indexed replay_status_indexed replay_move_indexed
  replay_event_indexed : journal.

(** * Lines *)

Lemma split_char_app sep a b :
  split_char sep (a +:+ String sep b) = split_char sep a ++ split_char sep b.
Proof.
  induction a as [|c a IH]; simpl.
  - by rewrite Ascii.eqb_refl.
  - change (String.append a (String sep b)) with (a +:+ String sep b).
    destruct (Ascii.eqb c sep); [by rewrite IH|]. rewrite IH.
    destruct (split_char sep a) eqn:E; [|done].
    exfalso. destruct a as [|d a]; simpl in E; [done|]. destruct (Ascii.eqb d sep); [done|].
    by destruct (split_char sep a).
Qed.

Lemma split_char_ne sep s : split_char sep s ≠ [].
Proof.
  destruct s as [|c s]; simpl; [done|]. destruct (Ascii.eqb c sep); [done|].
  by destruct (split_char sep s).
Qed.

Lemma split_char_none sep s : has_char sep s = false → split_char sep s = [s].
Proof.
  unfold has_char. induction s as [|c s IH]; simpl; [done|]. intros [Hc Hs]%orb_false_iff.
  rewrite Ascii.eqb_sym, Hc, IH; done.
Qed.

Lemma has_char_drop sep n s : has_char sep s = false → has_char sep (str_drop n s) = false.
Proof.
  unfold has_char. revert s. induction n as [|n IH]; intros [|c s]; simpl; try done.
  intros [_ Hs]%orb_false_iff. by apply IH.
Qed.

Section ReplayFacts.
Variable decode : string → option HistoryEvent.

Definition shift (n : nat) (e : option JournalError) : option JournalError :=
  match e with Some (BadLine k) => Some (BadLine (n + k)) | None => None end.

Lemma replay_lines_shift torn n i lines r :
  replay_lines decode torn (n + i) lines r =
  (let '(r', e) := replay_lines decode torn i lines r in (r', shift n e)).
Proof.
  revert i r. induction lines as [|line lines IH]; intros i r; simpl; [done|].
  rewrite <- Nat.add_succ_r. destruct (String.eqb (trim_space line) EmptyString); [apply IH|].
  destruct (decode line); [apply IH|]. by destruct lines, torn.
Qed.

(** Complete lines before others: the torn tail rule does not concern them. *)
Lemma replay_lines_app torn i l1 l2 r :
  l2 ≠ [] →
  replay_lines decode torn i (l1 ++ l2) r =
  match replay_lines decode false i l1 r with
  | (r1, None) => replay_lines decode torn (i + length l1) l2 r1
  | bad => bad
  end.
Proof.
  intros Hl2. revert i r. induction l1 as [|line l1 IH]; intros i r; simpl.
  - by rewrite Nat.add_0_r.
  - rewrite Nat.add_succ_r. destruct (String.eqb (trim_space line) EmptyString); [apply (IH (S i))|].
    destruct (decode line); [apply (IH (S i))|]. destruct l1; simpl; [by destruct l2|done].
Qed.

Lemma replay_lines_indexed torn i lines r : indexed r → indexed (replay_lines decode torn i lines r).1.
Proof.
  revert i r. induction lines as [|line lines IH]; intros i r Hr; simpl; [done|].
  destruct (String.eqb (trim_space line) EmptyString); [by apply IH|].
  destruct (decode line); [apply IH; by auto with journal|]. by destruct lines, torn.
Qed.

(** The replay of complete lines, from the end of the last newline. *)
Lemma resume_complete base a :
  ResumeJournal decode base (a +:+ str_of_char newline) =
  (let '(r, e) := replay_lines decode false 0 (split_char newline a) (newJournalReplay base) in (jr_rs r, e)).
Proof.
  unfold ResumeJournal.
  rewrite has_suffix_app_intro.
  change (str_of_char newline) with (String newline EmptyString). rewrite split_char_app. simpl.
  rewrite replay_lines_app by done.
  destruct (replay_lines decode false 0 (split_char newline a) (newJournalReplay base)) as [r [e|]]; [done|].
  done.
Qed.

(** The same, followed by more. *)
Lemma resume_app base a b :
  ResumeJournal decode base ((a +:+ str_of_char newline) +:+ b) =
  match ResumeJournal decode base (a +:+ str_of_char newline) with
  | (rs, Some e) => (rs, Some e)
  | (rs, None) => let '(rs', e) := ResumeJournal decode (Some rs) b in
                  (rs', shift (length (split_char newline a)) e)
  end.
Proof.
  rewrite resume_complete, str_app_assoc.
  change (str_of_char newline +:+ b) with (String newline b).
  unfold ResumeJournal at 1. rewrite split_char_app, replay_lines_app by apply split_char_ne.
  pose proof (replay_lines_indexed false 0 (split_char newline a) (newJournalReplay base) (new_indexed base)) as Hi.
  destruct (replay_lines decode false 0 (split_char newline a) (newJournalReplay base)) as [r [e|]]; [done|].
  simpl in Hi. unfold ResumeJournal. rewrite (indexed_new r Hi).
  destruct (decide (b = EmptyString)) as [->|Hb].
  { simpl. destruct r. done. }
  rewrite (has_suffix_app_char a (String newline b)) by done.
  change (String newline b) with (str_of_char newline +:+ b). rewrite has_suffix_app_char by done.
  rewrite <- (Nat.add_0_l (length (split_char newline a))), Nat.add_comm, replay_lines_shift.
  by destruct (replay_lines decode _ 0 (split_char newline b) r) as [r' e].
Qed.

End ReplayFacts.

(** * Properties *)

(** C29: a checkpoint stands in for the journal prefix it covers: replaying a
    journal of complete lines and then resuming from the state it gave is the
    same as one pass over the whole journal, with the same state, the same
    error and the same line number. *)
Theorem resume_composes (decode : string → option HistoryEvent) (base : option RunState) (a b : string) :
  let prefix := a +:+ str_of_char newline in
  ResumeJournal decode base (prefix +:+ b) =
  match ResumeJournal decode base prefix with
  | (rs, Some e) => (rs, Some e)
  | (rs, None) => let '(rs', e) := ResumeJournal decode (Some rs) b in
                  (rs', shift (length (split_char newline a)) e)
  end.
Proof. apply resume_app. Qed.

(** A crash while appending loses at most the torn record: when the
    journal replays without error, the same journal followed by an
    unterminated record that does not decode replays to the same state,
    still without error. *)
Theorem torn_tail_tolerated (decode : string → option HistoryEvent) (base : option RunState) (a torn : string)
    (rs : RunState)
    (Hclean : ResumeJournal decode base (a +:+ str_of_char newline) = (rs, None))
    (Hline : has_char newline torn = false) (Htorn : decode torn = None) :
  ResumeJournal decode base ((a +:+ str_of_char newline) +:+ torn) = (rs, None).
Proof.
  rewrite resume_app, Hclean.
  pose proof (split_char_none _ _ Hline) as Hsplit.
  unfold ResumeJournal. rewrite Hsplit. simpl.
  destruct (String.eqb (trim_space torn) EmptyString) eqn:E; [done|]. rewrite Htorn.
  destruct (has_suffix torn (str_of_char newline)) eqn:Es; [|done]. exfalso.
  unfold has_suffix in Es. bool_to_prop.
  match goal with Heq : str_drop _ _ = _ |- _ => pose proof (has_char_drop newline (String.length torn - 1) torn Hline) as Hn end.
  change (String.length (str_of_char newline)) with 1%nat in *. rewrite H0 in Hn. vm_compute in Hn. done.
Qed.

(** A decoder of a toy format, one status event per line, for examples. *)
Definition toy_decode (line : string) : option HistoryEvent :=
  match split_char "," line with
  | [id; node; to] => Some (status_event id "2024-01-01T00:00:00Z" node EmptyString to "ann")
  | _ => None
  end.

Lemma torn_tail_tolerated_witness :
  ResumeJournal toy_decode None (("ev-1,a,done" +:+ str_of_char newline) +:+ "ev-2,a") =
  ((ResumeJournal toy_decode None ("ev-1,a,done" +:+ str_of_char newline)).1, None).
Proof. apply torn_tail_tolerated; vm_compute; reflexivity. Defined.

Section LastStatus.
Variable decode : string → option HistoryEvent.

(** The events of a journal: its decodable lines. *)
Definition journal_events (data : string) : list HistoryEvent :=
  omap (λ line, if String.eqb (trim_space line) EmptyString then None else decode line)
       (split_char newline data).

Lemma replay_lines_events torn i lines r r' :
  replay_lines decode torn i lines r = (r', None) →
  r' = foldl replay_event r
         (omap (λ line, if String.eqb (trim_space line) EmptyString then None else decode line) lines).
Proof.
  revert i r. induction lines as [|line lines IH]; intros i r; simpl; [by intros [= ->]|].
  destruct (String.eqb (trim_space line) EmptyString); [apply IH|].
  destruct (decode line); [apply IH|].
  destruct lines; [destruct torn; [by intros [= ->]|done]|done].
Qed.
End LastStatus.

(** What one event makes of a node's status. *)
Definition status_step (node : string) (st : option Status) (ev : HistoryEvent) : option Status :=
  if is_status ev && negb (String.eqb node EmptyString) && String.eqb (he_Node ev) node
     && negb (String.eqb (he_ID ev) EmptyString) && ValidStatus (he_To ev)
  then Some (he_To ev) else st.

Definition status_in (rs : RunState) (node : string) : option Status := ns_Status <$> rs_Nodes rs !! node.

Lemma replay_event_status r ev node :
  status_in (jr_rs (replay_event r ev)) node = status_step node (status_in (jr_rs r) node) ev.
Proof.
  unfold replay_event, status_step, status_in.
  destruct (is_status ev) eqn:Es; simpl.
  - assert (String.eqb (he_Event ev) "move" = false ∧ String.eqb (he_Event ev) EventEvidence = false) as [-> ->].
    { unfold is_status in Es. bool_to_prop. rewrite Es. done. }
    simpl. destruct (String.eqb_spec (he_Node ev) EmptyString) as [He|He]; simpl.
    + rewrite He. destruct (String.eqb_spec EmptyString node) as [<-|]; [done|]. by rewrite andb_false_r.
    + destruct (String.eqb (he_ID ev) EmptyString); simpl; [by rewrite !andb_false_r|]. rewrite andb_true_r.
      unfold replay_status. destruct (ValidStatus (he_To ev)); simpl; [|by rewrite !andb_false_r].
      destruct (String.eqb_spec (he_Node ev) node) as [<-|Hne].
      * rewrite lookup_insert_eq. by rewrite (proj2 (String.eqb_neq _ _) He).
      * rewrite lookup_insert_ne by done. by rewrite !andb_false_r.
  - destruct (String.eqb (he_Event ev) "move" && _).
    + unfold replay_move. destruct (jr_statusIndex r !! he_Ref ev) as [i|]; [|done].
      destruct (rs_History (jr_rs r) !! i) as [stamped|]; [|done]. simpl.
      destruct (rs_Nodes (jr_rs r) !! he_Node stamped) as [st|] eqn:Est; [|done].
      case_bool_decide; [|done]. destruct (decide (he_Node stamped = node)) as [<-|Hne].
      * by rewrite lookup_insert_eq, Est.
      * by rewrite lookup_insert_ne.
    + by destruct (_ && _).
Qed.

(** The journal is the record of every status: after an error-free replay a
    node's status is that of the last valid status event about it, or the one
    it had before; moves, evidence and unknown events change none. *)
Theorem replay_last_status (decode : string → option HistoryEvent) (base : option RunState) (data : string)
    (rs : RunState) (node : string) (Hclean : ResumeJournal decode base data = (rs, None)) :
  status_in rs node =
  foldl (status_step node) (status_in (default empty_state base) node) (journal_events decode data).
Proof.
  unfold ResumeJournal in Hclean. destruct (replay_lines decode _ 0 _ _) as [r e] eqn:E. simplify_eq.
  apply replay_lines_events in E. fold (journal_events decode data) in E. subst r.
  assert (Hf : ∀ evs r, status_in (jr_rs (foldl replay_event r evs)) node =
                        foldl (status_step node) (status_in (jr_rs r) node) evs).
  { induction evs as [|ev evs IH]; intros r; simpl; [done|]. by rewrite IH, replay_event_status. }
  apply Hf.
Qed.

Definition toy_journal : string :=
  "ev-1,a,started" +:+ String newline ("ev-2,a,bogus" +:+ String newline ("ev-3,a,done" +:+ str_of_char newline)).

Lemma replay_last_status_witness :
  status_in (ResumeJournal toy_decode None toy_journal).1 "a" =
  foldl (status_step "a") (status_in empty_state "a") (journal_events toy_decode toy_journal).
Proof. apply (replay_last_status toy_decode None). vm_compute. reflexivity. Defined.

Lemma ev_id_nonempty s : String.eqb ("ev-" +:+ s) EmptyString = false.
Proof. done. Qed.

(** The status write and the replay agree: the state SetStatus leaves in
    memory is the one that replaying the journal line of its event gives, for
    a state whose statuses are valid and whose start is stamped. *)
Theorem set_status_replays (encode : HistoryEvent → string) (decode : string → option HistoryEvent)
    (rs rs' : RunState) (nodeID : string) (to : Status) (by_ : string) (now : Z) (ev : HistoryEvent)
    (Hset : SetStatus rs nodeID to by_ now = Ok rs') (Hlast : last (rs_History rs') = Some ev)
    (Hnode : nodeID ≠ EmptyString) (Hstarted : rs_StartedAt rs ≠ EmptyString)
    (Hstatus : ∀ n st, rs_Nodes rs !! n = Some st → ValidStatus (ns_Status st) = true)
    (Hdecode : decode (encode ev) = Some ev) (Hline : has_char newline (encode ev) = false)
    (Htext : trim_space (encode ev) ≠ EmptyString) :
  ResumeJournal decode (Some rs) (AppendJournalLine encode ev) = (rs', None).
Proof.
  unfold SetStatus in Hset. destruct (ValidStatus to) eqn:Ev; [|done]. simpl in Hset.
  unfold CanTransition in Hset. rewrite Ev in Hset. simplify_eq/=. rewrite last_snoc in Hlast.
  unfold AppendJournalLine. rewrite resume_complete, (split_char_none _ _ Hline). simpl.
  rewrite (proj2 (String.eqb_neq _ _) Htext), Hdecode. simplify_eq/=.
  unfold replay_event. simpl. rewrite (proj2 (String.eqb_neq _ _) Hnode). simpl.
  unfold replay_status. simpl. rewrite Ev. simpl.
  rewrite (proj2 (String.eqb_neq _ _) Hstarted). f_equal. unfold status_event, with_from. simpl.
  repeat f_equal. destruct (rs_Nodes rs !! nodeID) as [st|] eqn:Est; [|done].
  unfold explicit. by rewrite (Hstatus _ _ Est).
Qed.

Definition started_state : RunState :=
  mkRunState "2024-01-01T00:00:00Z" {[ "a" := mkNodeState StatusStarted "2024-01-01T00:00:00Z" "ann" ]} None [].

Definition set_or_same (rs : RunState) (r : outcome StatusError RunState) : RunState :=
  match r with Ok rs' => rs' | _ => rs end.

Definition done_state : RunState := set_or_same started_state (SetStatus started_state "a" StatusDone "bob" (5 * second)).

Definition done_event : HistoryEvent :=
  status_event "ev-5000000000-0" "1970-01-01T00:00:05Z" "a" StatusStarted StatusDone "bob".

Lemma set_status_replays_witness :
  ResumeJournal (λ line, if String.eqb line "{}" then Some done_event else None) (Some started_state)
    (AppendJournalLine (λ _, "{}") done_event) = (done_state, None).
Proof.
  apply (set_status_replays (λ _, "{}") _ started_state done_state "a" StatusDone "bob" (5 * second) done_event);
    try done; try (by vm_compute).
  intros n st. unfold started_state. simpl. rewrite lookup_singleton_Some. by intros [<- <-].
Defined.
