(* ===== verification/Journal.v ===== *)
(** The journal on disk (internal/store/journal.go, with LoadState and
    appendJournal of store.go): replay from a checkpoint, compaction as a
    sequence of disk writes that a crash may cut short anywhere, and appends.
    The JSON codecs and SHA-256 are parameters. *)

From S2P Require Import Prelude GoStr GoFloat GoTime Dsl Graph State.
From Stdlib Require Import Ascii.
Open Scope Z_scope.

Definition journalCompactBytes : Z := 8 * 2 ^ 20.
Definition maxJournalBytes : Z := 64 * 2 ^ 20.
Definition maxJournalLineBytes : Z := 64 * 2 ^ 10.
Definition maxCheckpointBytes : Z := 256 * 2 ^ 20.
Definition checkpointVersion : Z := 1.

(** A file that is not there, one that cannot be used, or its bytes. *)
Inductive file := Missing | Unreadable | Bytes (data : string).

(** journalCheckpoint; a nil Nodes or History of the state is the empty one. *)
Record checkpoint := mkCheckpoint {
  cp_Version : Z;
  cp_CreatedAt : string;
  cp_JournalBytes : Z;
  cp_JournalSHA256 : string;
  cp_Events : nat;
  cp_LastEventTime : string;
  cp_State : option RunState;
}.

(** run/journal.jsonl, run/journal.jsonl.1, run/checkpoint.json and
    run/state.json. *)
Record disk := mkDisk {
  d_journal : file;
  d_rotated : file;
  d_checkpoint : file;
  d_cache : file;
}.

Definition with_journal (d : disk) (f : file) : disk := mkDisk f (d_rotated d) (d_checkpoint d) (d_cache d).

Definition size_of (data : string) : Z := Z.of_nat (String.length data).

Inductive LoadError :=
  | ReadFailed
  | BadJournal (e : JournalError)
  | BadState.

(** ReadProjectFileLimit: [None] is os.ErrNotExist. *)
Definition read_limit (limit : Z) (f : file) : outcome LoadError (option string) :=
  match f with
  | Missing => Ok None
  | Unreadable => Fail ReadFailed
  | Bytes data => if limit <? size_of data then Fail ReadFailed else Ok (Some data)
  end.

Section Disk.
Context (decode : string → option HistoryEvent).
Context (cp_encode : checkpoint → string) (cp_decode : string → option checkpoint).
Context (state_decode : string → option RunState).
Context (digest : string → string).

Definition readCheckpoint (d : disk) : option checkpoint :=
  match read_limit maxCheckpointBytes (d_checkpoint d) with
  | Ok (Some data) =>
      cp ← cp_decode data;
      if negb (cp_Version cp =? checkpointVersion) || bool_decide (cp_State cp = None)
         || String.eqb (cp_JournalSHA256 cp) EmptyString
      then None else Some cp
  | _ => None
  end.

Definition covers (cp : checkpoint) (journal : string) : bool :=
  if (cp_JournalBytes cp <=? 0) || (size_of journal <? cp_JournalBytes cp) then false
  else String.eqb (digest (str_take (Z.to_nat (cp_JournalBytes cp)) journal)) (cp_JournalSHA256 cp).

(** ResumeJournal's answer as replayJournal returns it. *)
Definition resumed (base : option RunState) (data : string) (journal : option string)
    : outcome LoadError (option RunState * option string) :=
  match ResumeJournal decode base data with
  | (rs, None) => Ok (Some rs, journal)
  | (_, Some e) => Fail (BadJournal e)
  end.

(** The run state and the raw live journal; [None] twice when the project has
    no run history. *)
Definition replayJournal (d : disk) : outcome LoadError (option RunState * option string) :=
  journal ← read_limit maxJournalBytes (d_journal d);
  let data := default EmptyString journal in
  match readCheckpoint d with
  | Some cp => resumed (cp_State cp) (if covers cp data then str_drop (Z.to_nat (cp_JournalBytes cp)) data else data) journal
  | None =>
      rotated ← read_limit maxJournalBytes (d_rotated d);
      match rotated with
      | Some old =>
          match ResumeJournal decode None old with
          | (rs, None) => resumed (Some rs) data journal
          | (_, Some e) => Fail (BadJournal e)
          end
      | None => match journal with None => Ok (None, None) | Some _ => resumed None data journal end
      end
  end.

(** * Compaction *)

(** The checkpoint of everything replayed; [None] when there is nothing to
    compact or the journal is not understood. *)
Definition checkpoint_of (createdAt : string) (d : disk) : option checkpoint :=
  match replayJournal d with
  | Ok (Some rs, Some journal) =>
      if String.eqb journal EmptyString then None
      else match last (rs_History rs) with
           | None => None
           | Some ev => Some (mkCheckpoint checkpointVersion createdAt (size_of journal) (digest journal)
                                (length (rs_History rs)) (he_T ev) (Some rs))
           end
  | _ => None
  end.

(** The writes, in order: the checkpoint, then rotateJournalLocked's removal of
    the previous segment and its rename. *)
Definition write_checkpoint (cp : checkpoint) (d : disk) : disk :=
  mkDisk (d_journal d) (d_rotated d) (Bytes (cp_encode cp)) (d_cache d).
Definition remove_rotated (d : disk) : disk := mkDisk (d_journal d) Missing (d_checkpoint d) (d_cache d).
Definition rename_journal (d : disk) : disk :=
  match d_journal d with
  | Missing => d
  | f => mkDisk Missing f (d_checkpoint d) (d_cache d)
  end.

(** compactJournalLocked when only the first [writes] of its writes happen,
    because the next one fails or the process dies. *)
Definition compactJournalLocked (createdAt : string) (writes : nat) (d : disk) : disk :=
  match checkpoint_of createdAt d with
  | None => d
  | Some cp => foldl (λ d write, write d) d (take writes [write_checkpoint cp; remove_rotated; rename_journal])
  end.

(** * Appending *)

Inductive AppendError := BadLineSize | JournalUnusable | JournalFull | AppendFailed.

Definition append_text (text : string) (d : disk) : disk :=
  match d_journal d with
  | Missing => with_journal d (Bytes text)
  | Bytes data => with_journal d (Bytes (data +:+ text))
  | Unreadable => d
  end.

Definition journal_size (d : disk) : option Z :=
  match d_journal d with Missing => Some 0 | Unreadable => None | Bytes data => Some (size_of data) end.

(** maybeCompactLocked; [retry] tells that no compaction failed within the last
    minute. *)
Definition maybeCompactLocked (createdAt : string) (retry : bool) (writes : nat) (size incoming : Z) (d : disk) : disk :=
  if (size + incoming <=? journalCompactBytes) || negb retry then d
  else compactJournalLocked createdAt writes d.

(** appendJournal, when [written] bytes of the line reach the disk. *)
Definition appendJournal (createdAt : string) (retry : bool) (writes written : nat) (line : string) (d : disk)
    : disk * option AppendError :=
  if (size_of line =? 0) || (maxJournalLineBytes <? size_of line) then (d, Some BadLineSize)
  else match journal_size d with
       | None => (d, Some JournalUnusable)
       | Some size =>
           let d := maybeCompactLocked createdAt retry writes size (size_of line) d in
           match journal_size d with
           | None => (d, Some JournalUnusable)
           | Some size =>
               if maxJournalBytes - size_of line <? size then (d, Some JournalFull)
               else (append_text (str_take written line) d,
                     if (written <? String.length line)%nat then Some AppendFailed else None)
           end
       end.

(** * LoadState *)

(** The cache fills in what the replay does not know; [now] stamps a new one. *)
Definition LoadState (now : Z) (d : disk) : outcome LoadError RunState :=
  '(rs, _) ← replayJournal d;
  match d_cache d, rs with
  | Bytes data, Some rs =>
      Ok (match state_decode data with
          | Some cached =>
              mkRunState (if String.eqb (rs_StartedAt rs) EmptyString then rs_StartedAt cached else rs_StartedAt rs)
                (rs_Nodes rs) (match rs_Flags rs with None => rs_Flags cached | flags => flags end) (rs_History rs)
          | None => rs
          end)
  | Bytes data, None => match state_decode data with Some cached => Ok cached | None => Fail BadState end
  | Unreadable, None => Fail ReadFailed
  | _, Some rs => Ok rs
  | Missing, None => Ok (NewRunState now)
  end.
End Disk.
