(* ===== verification/JournalFacts.v ===== *)
(** Crash safety of the journal: compaction may be cut short after any of its
    writes, and what is appended later, without losing or changing an event;
    and the one way an append does lose the journal. *)

From S2P Require Import Prelude GoStr GoFloat GoTime Dsl Graph State Journal.
From Stdlib Require Import Ascii PeanoNat.
Open Scope Z_scope.

(** * Text *)

Lemma str_take_app_length (a b : string) : str_take (String.length a) (a +:+ b) = a.
Proof. induction a as [|c a IH]; simpl; [by destruct b|]. by rewrite IH. Qed.

Lemma str_take_length (a : string) : str_take (String.length a) a = a.
Proof. induction a as [|c a IH]; simpl; [done|]. by rewrite IH. Qed.

Lemma str_take_app_le n (a b : string) : (n ≤ String.length a)%nat → str_take n (a +:+ b) = str_take n a.
Proof.
  revert a. induction n as [|n IH]; intros [|c a] Hn; simpl in *; [by destruct b|done|lia|].
  by rewrite IH by lia.
Qed.

Lemma str_drop_app_le n (a b : string) : (n ≤ String.length a)%nat → str_drop n (a +:+ b) = str_drop n a +:+ b.
Proof.
  revert a. induction n as [|n IH]; intros [|c a] Hn; simpl in *; [done|done|lia|].
  apply IH. lia.
Qed.

Lemma str_drop_length (a : string) : str_drop (String.length a) a = EmptyString.
Proof. induction a as [|c a IH]; simpl; done. Qed.

(** Text is complete when it is empty or ends in a newline. *)
Definition complete (s : string) : Prop := s = EmptyString ∨ ∃ a, s = a +:+ str_of_char newline.

Lemma complete_drop n s : complete s → complete (str_drop n s).
Proof.
  intros [->|[a ->]]; [left; by destruct n|].
  destruct (decide (n ≤ String.length a)%nat) as [Hn|Hn].
  - right. exists (str_drop n a). by apply str_drop_app_le.
  - left. replace n with (String.length a + (n - String.length a))%nat by lia. rewrite str_drop_app.
    destruct (n - String.length a)%nat eqn:E; [lia|]. by destruct n0.
Qed.

Lemma size_of_app a b : size_of (a +:+ b) = size_of a + size_of b.
Proof. unfold size_of. rewrite str_length_app. lia. Qed.

Lemma size_of_nonneg a : 0 ≤ size_of a.
Proof. unfold size_of. lia. Qed.

Lemma size_of_to_nat a : Z.to_nat (size_of a) = String.length a.
Proof. unfold size_of. lia. Qed.

Lemma str_any_app f (a b : string) : str_any f (a +:+ b) = str_any f a || str_any f b.
Proof. induction a as [|c a IH]; simpl; [done|]. by rewrite <- orb_assoc, <- IH. Qed.

Lemma no_newline_suffix s : has_char newline s = false → has_suffix s (str_of_char newline) = false.
Proof.
  intros Hs. destruct (has_suffix s (str_of_char newline)) eqn:E; [|done]. unfold has_suffix in E.
  apply andb_true_iff in E as [_ E]. apply String.eqb_eq in E.
  pose proof (has_char_drop newline (String.length s - String.length (str_of_char newline)) s Hs) as Hd.
  rewrite E in Hd. vm_compute in Hd. done.
Qed.

(** * What JSON keeps of a state *)

(** An empty flag map is left out of the JSON of a state and of an event's
    display flags, and read back as no map. *)
Definition stored_flags (flags : option (gmap string value)) : option (gmap string value) :=
  match flags with Some m => if bool_decide (size m = 0%nat) then None else Some m | None => None end.

Definition stored_event (ev : HistoryEvent) : HistoryEvent :=
  mkHistoryEvent (he_ID ev) (he_T ev) (he_Event ev) (he_Node ev) (he_From ev) (he_To ev) (he_By ev)
    (he_Note ev) (stored_flags (he_Flags ev)) (he_RecordedAt ev) (he_StateFlags ev) (he_Ref ev).

Definition stored_state (rs : RunState) : RunState :=
  mkRunState (rs_StartedAt rs) (rs_Nodes rs) (stored_flags (rs_Flags rs)) (stored_event <$> rs_History rs).

Definition stored_checkpoint (cp : checkpoint) : checkpoint :=
  mkCheckpoint (cp_Version cp) (cp_CreatedAt cp) (cp_JournalBytes cp) (cp_JournalSHA256 cp) (cp_Events cp)
    (cp_LastEventTime cp) (stored_state <$> cp_State cp).

(** Two states that differ at most in that. *)
Definition same_stored (a b : RunState) : Prop := stored_state a = stored_state b.

#[export] Instance same_stored_equivalence : Equivalence same_stored.
Proof. split; [by intros ?|by intros ???|]. intros a b c. unfold same_stored. congruence. Qed.

Lemma stored_flags_idem flags : stored_flags (stored_flags flags) = stored_flags flags.
Proof. destruct flags as [m|]; [|done]. unfold stored_flags. case_bool_decide; [done|]. by rewrite bool_decide_eq_false_2. Qed.

Lemma stored_event_idem ev : stored_event (stored_event ev) = stored_event ev.
Proof. destruct ev. unfold stored_event. simpl. by rewrite stored_flags_idem. Qed.

Lemma stored_history_idem (h : list HistoryEvent) : stored_event <$> (stored_event <$> h) = stored_event <$> h.
Proof. rewrite <- list_fmap_compose. apply list_fmap_ext. intros i ev _. apply stored_event_idem. Qed.

Lemma stored_state_idem rs : stored_state (stored_state rs) = stored_state rs.
Proof. unfold stored_state. cbn. by rewrite stored_flags_idem, stored_history_idem. Qed.

(** * Replay respects it *)

Definition stored_replay (r : journalReplay) : journalReplay :=
  mkReplay (stored_state (jr_rs r)) (jr_statusIndex r) (jr_latestStatus r).

Lemma index_from_stored i h idx : index_from i (stored_event <$> h) idx = index_from i h idx.
Proof. revert i idx. induction h as [|ev h IH]; intros i idx; [done|]. apply IH. Qed.

Lemma new_stored rs : newJournalReplay (Some (stored_state rs)) = stored_replay (newJournalReplay (Some rs)).
Proof. unfold newJournalReplay, stored_replay. cbn. by rewrite index_from_stored. Qed.

Lemma append_stored r ev :
  stored_replay (appendHistory (stored_replay r) ev) = stored_replay (appendHistory r ev).
Proof.
  unfold appendHistory, stored_replay, stored_state. cbn.
  rewrite stored_flags_idem, !length_app, length_fmap, !fmap_app, stored_history_idem. done.
Qed.

Lemma status_stored r ev : stored_replay (replay_status (stored_replay r) ev) = stored_replay (replay_status r ev).
Proof.
  unfold replay_status. destruct (negb (ValidStatus (he_To ev))); [unfold stored_replay; cbn; by rewrite stored_state_idem|].
  cbn. set (ev' := with_from ev _). pose proof (append_stored r ev') as Ha.
  unfold stored_replay, stored_state, appendHistory in *. cbn in *. injection Ha as Hf Hh Hs Hl.
  f_equal; [|done|done]. f_equal; [|done]. destruct (he_StateFlags ev); [done|]. apply stored_flags_idem.
Qed.

Lemma move_stored r ev : stored_replay (replay_move (stored_replay r) ev) = stored_replay (replay_move r ev).
Proof.
  unfold replay_move. cbn. destruct (jr_statusIndex r !! he_Ref ev) as [i|]; [|apply append_stored].
  rewrite list_lookup_fmap. destruct (rs_History (jr_rs r) !! i) as [st|]; cbn; [|unfold stored_replay; cbn; by rewrite stored_state_idem].
  rewrite <- append_stored. symmetry. rewrite <- append_stored. symmetry. f_equal. f_equal.
  unfold stored_replay, stored_state. cbn. f_equal. f_equal; [by rewrite stored_flags_idem|].
  rewrite !list_fmap_insert, stored_history_idem. f_equal. destruct st. unfold stored_event, with_time. cbn.
  by rewrite stored_flags_idem.
Qed.

Lemma replay_event_stored r ev : stored_replay (replay_event (stored_replay r) ev) = stored_replay (replay_event r ev).
Proof.
  unfold replay_event. destruct (_ && _ && _); [apply status_stored|]. destruct (_ && _); [apply move_stored|].
  destruct (_ && _); [apply append_stored|]. unfold stored_replay. cbn. by rewrite stored_state_idem.
Qed.

Section Replay.
Context (decode : string → option HistoryEvent).

Lemma replay_lines_stored torn i lines r r' :
  stored_replay r = stored_replay r' →
  stored_replay (replay_lines decode torn i lines r).1 = stored_replay (replay_lines decode torn i lines r').1 ∧
  (replay_lines decode torn i lines r).2 = (replay_lines decode torn i lines r').2.
Proof.
  revert i r r'. induction lines as [|line lines IH]; intros i r r' Hr; simpl; [done|].
  destruct (String.eqb (trim_space line) EmptyString); [by apply IH|].
  destruct (decode line) as [ev|]; [|by destruct lines, torn].
  apply IH. by rewrite <- (replay_event_stored r), Hr, replay_event_stored.
Qed.

(** ResumeJournal on states that JSON does not tell apart. *)
Lemma resume_stored rs rs' data :
  same_stored rs rs' →
  same_stored (ResumeJournal decode (Some rs) data).1 (ResumeJournal decode (Some rs') data).1 ∧
  (ResumeJournal decode (Some rs) data).2 = (ResumeJournal decode (Some rs') data).2.
Proof.
  intros Hs. unfold ResumeJournal. set (torn := negb _).
  destruct (replay_lines_stored torn 0 (split_char newline data) (newJournalReplay (Some rs)) (newJournalReplay (Some rs')))
    as [Hr He]; [by rewrite <- !new_stored, Hs|].
  destruct (replay_lines decode torn 0 _ (newJournalReplay (Some rs))) as [r e].
  destruct (replay_lines decode torn 0 _ (newJournalReplay (Some rs'))) as [r' e']. cbn in *.
  split; [|done]. unfold stored_replay in Hr. unfold same_stored. congruence.
Qed.

Lemma resume_nothing rs : ResumeJournal decode (Some rs) EmptyString = (rs, None).
Proof. done. Qed.

(** Complete text and then more. *)
Lemma resume_complete_app base a b rs rs' :
  complete a → ResumeJournal decode base a = (rs, None) →
  ResumeJournal decode base (a +:+ b) = (rs', None) ↔ ResumeJournal decode (Some rs) b = (rs', None).
Proof.
  intros [->|[a' ->]] Ha.
  - assert (rs = default empty_state base) as -> by (by destruct base; injection Ha). by destruct base.
  - rewrite resume_app, Ha. destruct (ResumeJournal decode (Some rs) b) as [rs2 [[k]|]]; simpl; naive_solver.
Qed.

(** Replay stops at a complete line that does not decode. *)
Lemma resume_bad_line base a line rs :
  ResumeJournal decode base (a +:+ str_of_char newline) = (rs, None) →
  has_char newline line = false → trim_space line ≠ EmptyString → decode line = None →
  ResumeJournal decode base ((a +:+ str_of_char newline) +:+ (line +:+ str_of_char newline)) =
  (rs, Some (BadLine (S (length (split_char newline a))))).
Proof.
  intros Ha Hl Ht Hd. rewrite resume_app, Ha, resume_complete, (split_char_none _ _ Hl). simpl.
  rewrite (proj2 (String.eqb_neq _ _) Ht), Hd. simpl. f_equal. f_equal. f_equal. lia.
Qed.
End Replay.

(** * Disks *)

Section Disk.
Context (decode : string → option HistoryEvent).
Context (cp_encode : checkpoint → string) (cp_decode : string → option checkpoint).
Context (digest : string → string).

Notation replay := (replayJournal decode cp_decode digest).
Notation read_cp := (readCheckpoint cp_decode).

Lemma resumed_Ok base data journal rs j :
  resumed decode base data journal = Ok (Some rs, j) ↔ ResumeJournal decode base data = (rs, None) ∧ j = journal.
Proof.
  unfold resumed. destruct (ResumeJournal decode base data) as [rs' [e|]]; (split; [intros H|intros [H ->]]); simplify_eq; done.
Qed.

Lemma read_limit_Ok limit f j : read_limit limit f = Ok j ↔
  match f with Missing => j = None | Unreadable => False | Bytes s => j = Some s ∧ size_of s ≤ limit end.
Proof.
  destruct f as [| |s]; simpl; [by split; intros H; simplify_eq|done|]. destruct (Z.ltb_spec limit (size_of s)).
  - split; [done|intros [_ ?]; lia].
  - split; [intros H'; simplify_eq; done|by intros [-> _]].
Qed.

(** The text of the live journal. *)
Definition journal_text (d : disk) : string := match d_journal d with Bytes s => s | _ => EmptyString end.

(** Later text that no digest confuses with journal text already reduced: what
    the current checkpoint covers stays as it was, and the new segment does not
    begin with the whole old one. *)
Definition distinct_tail (d : disk) (b : string) : Prop :=
  (∀ cp, read_cp d = Some cp → covers digest cp (journal_text d +:+ b) = covers digest cp (journal_text d)) ∧
  ((String.length (journal_text d) ≤ String.length b)%nat →
   digest (str_take (String.length (journal_text d)) b) ≠ digest (journal_text d)).

Lemma append_read_cp b d : read_cp (append_text b d) = read_cp d.
Proof. unfold append_text, readCheckpoint. by destruct (d_journal d). Qed.

Lemma append_rotated b d : d_rotated (append_text b d) = d_rotated d.
Proof. unfold append_text. by destruct (d_journal d). Qed.

Lemma replay_unreadable d rs j : replay d = Ok (Some rs, j) → d_journal d ≠ Unreadable.
Proof. intros Hr Hu. unfold replayJournal in Hr. by rewrite Hu in Hr. Qed.

Lemma append_read_limit b d :
  d_journal d ≠ Unreadable → size_of (journal_text d +:+ b) ≤ maxJournalBytes →
  read_limit maxJournalBytes (d_journal (append_text b d)) = Ok (Some (journal_text d +:+ b)).
Proof.
  intros Hu Hs. unfold append_text, journal_text in *. apply read_limit_Ok.
  destruct (d_journal d) as [| |s]; [|done|]; cbn in *; split; done.
Qed.

(** Where the replay of a disk starts: a base state and the journal text past a
    prefix; appended text is read on from there. *)
Lemma replay_source d rs j :
  replay d = Ok (Some rs, j) →
  ∃ base skip, (skip ≤ String.length (journal_text d))%nat ∧
    ResumeJournal decode base (str_drop skip (journal_text d)) = (rs, None) ∧
    ∀ b, size_of (journal_text d +:+ b) ≤ maxJournalBytes →
      (∀ cp, read_cp d = Some cp → covers digest cp (journal_text d +:+ b) = covers digest cp (journal_text d)) →
      replay (append_text b d) = resumed decode base (str_drop skip (journal_text d +:+ b)) (Some (journal_text d +:+ b)).
Proof.
  intros Hr. pose proof (replay_unreadable _ _ _ Hr) as Hu. unfold replayJournal in Hr.
  destruct (read_limit maxJournalBytes (d_journal d)) as [oj| | |] eqn:Ej; try done. cbn in Hr.
  assert (default EmptyString oj = journal_text d) as Htext.
  { apply read_limit_Ok in Ej. unfold journal_text. destruct (d_journal d); naive_solver. }
  rewrite Htext in Hr. destruct (read_cp d) as [cp|] eqn:Ecp.
  - apply resumed_Ok in Hr as [Hr ->]. destruct (covers digest cp (journal_text d)) eqn:Ec.
    + exists (cp_State cp), (Z.to_nat (cp_JournalBytes cp)). split_and!; [|done|].
      * unfold covers in Ec. destruct (_ || _) eqn:Eo; [done|]. apply orb_false_iff in Eo as [? ?]. bool_to_prop.
        unfold size_of in *. lia.
      * intros b Hs Hc. unfold replayJournal. rewrite append_read_limit by done. cbn. rewrite append_read_cp, Ecp, Hc, Ec by done. done.
    + exists (cp_State cp), 0%nat. split_and!; [lia|done|].
      intros b Hs Hc. unfold replayJournal. rewrite append_read_limit by done. cbn. rewrite append_read_cp, Ecp, Hc, Ec by done. done.
  - destruct (read_limit maxJournalBytes (d_rotated d)) as [rot| | |] eqn:Erot; try done. cbn in Hr.
    assert (∃ base, ResumeJournal decode base (journal_text d) = (rs, None) ∧ j = oj ∧
              (base = None ∧ rot = None ∨ ∃ old rs0, rot = Some old ∧ ResumeJournal decode None old = (rs0, None) ∧ base = Some rs0))
      as (base & Hb & -> & Hbase).
    { destruct rot as [old|]; [|destruct oj as [s|]; [|done]].
      - destruct (ResumeJournal decode None old) as [rs0 [e|]] eqn:Eold; [done|]. apply resumed_Ok in Hr as [Hr ->].
        exists (Some rs0). split_and!; [done|done|]. right. eauto.
      - apply resumed_Ok in Hr as [Hr ->]. exists None. split_and!; [done|done|by left]. }
    exists base, 0%nat. split_and!; [lia|done|].
    intros b Hs _. unfold replayJournal. rewrite append_read_limit by done. cbn.
    rewrite append_read_cp, Ecp, append_rotated, Erot. cbn.
    destruct Hbase as [[-> ->]|(old & rs0 & -> & Hold & ->)]; [done|]. by rewrite Hold.
Qed.

(** The journal handed back is the live one. *)
Lemma resumed_journal base data journal rs j : resumed decode base data journal = Ok (rs, j) → j = journal.
Proof. unfold resumed. destruct (ResumeJournal decode base data) as [rs' [e|]]; congruence. Qed.

Lemma replay_journal d rs j : replay d = Ok (rs, j) → read_limit maxJournalBytes (d_journal d) = Ok j.
Proof.
  unfold replayJournal. destruct (read_limit maxJournalBytes (d_journal d)) as [oj| | |]; try done. cbn.
  destruct (read_cp d); [by intros ->%resumed_journal|].
  destruct (read_limit maxJournalBytes (d_rotated d)) as [[old|]| | |]; try done; cbn.
  - destruct (ResumeJournal decode None old) as [rs0 [e|]]; [done|]. by intros ->%resumed_journal.
  - destruct oj; [by intros ->%resumed_journal|congruence].
Qed.

(** Where compaction found something to reduce. *)
Lemma checkpoint_of_Some at_ d cp :
  checkpoint_of decode cp_decode digest at_ d = Some cp →
  ∃ rs, replay d = Ok (Some rs, Some (journal_text d)) ∧ d_journal d = Bytes (journal_text d) ∧
    journal_text d ≠ EmptyString ∧ cp_Version cp = checkpointVersion ∧ cp_JournalBytes cp = size_of (journal_text d) ∧
    cp_JournalSHA256 cp = digest (journal_text d) ∧ cp_State cp = Some rs.
Proof.
  unfold checkpoint_of. destruct (replay d) as [[[rs|] [s|]]| | |] eqn:Er; try done.
  destruct (String.eqb_spec s EmptyString); [done|]. destruct (last (rs_History rs)); [|done]. intros [= <-].
  assert (d_journal d = Bytes s) as Hj.
  { apply replay_journal, read_limit_Ok in Er. destruct (d_journal d) as [| |t]; naive_solver. }
  unfold journal_text. rewrite Hj. exists rs. by split_and!.
Qed.

(** What the codec and the digest must do for the checkpoint that is written. *)
Definition checkpoint_readable (cp : checkpoint) : Prop :=
  cp_decode (cp_encode cp) = Some (stored_checkpoint cp) ∧ size_of (cp_encode cp) ≤ maxCheckpointBytes ∧
  cp_JournalSHA256 cp ≠ EmptyString.

Lemma read_written at_ d cp d' :
  checkpoint_of decode cp_decode digest at_ d = Some cp → checkpoint_readable cp → d_checkpoint d' = Bytes (cp_encode cp) →
  read_cp d' = Some (stored_checkpoint cp).
Proof.
  intros Hcp (Hdec & Hsize & Hsha) Hd'. apply checkpoint_of_Some in Hcp as (rs & _ & _ & _ & Hv & _ & _ & Hst).
  unfold readCheckpoint. rewrite Hd'. cbn. rewrite (proj2 (Z.ltb_ge _ _)) by lia. cbn. rewrite Hdec. cbn.
  rewrite Hv, Hst. cbn. by rewrite (proj2 (String.eqb_neq _ _)).
Qed.

(** The new checkpoint against the live journal and against a later one. *)
Lemma covers_whole at_ d cp b :
  checkpoint_of decode cp_decode digest at_ d = Some cp →
  covers digest (stored_checkpoint cp) (journal_text d +:+ b) = true ∧
  (((String.length (journal_text d) ≤ String.length b)%nat →
    digest (str_take (String.length (journal_text d)) b) ≠ digest (journal_text d)) →
   covers digest (stored_checkpoint cp) b = false).
Proof.
  intros Hcp. apply checkpoint_of_Some in Hcp as (rs & _ & _ & Hne & _ & Hn & Hsha & _).
  unfold covers. cbn [stored_checkpoint cp_JournalBytes cp_JournalSHA256]. rewrite Hn, Hsha, size_of_to_nat.
  assert (0 < size_of (journal_text d)) as Hpos by (destruct (journal_text d); [done|unfold size_of; simpl; lia]).
  rewrite (proj2 (Z.leb_gt _ _)), size_of_app by lia. cbn [orb]. pose proof (size_of_nonneg b). split.
  - rewrite (proj2 (Z.ltb_ge _ _)) by lia. rewrite str_take_app_length. apply String.eqb_refl.
  - intros Hd. destruct (Z.ltb_spec (size_of b) (size_of (journal_text d))) as [|Hle]; [done|].
    apply String.eqb_neq, Hd. unfold size_of in *. lia.
Qed.

(** Every disk a compaction can leave: nothing done, the checkpoint written
    over the same journal, or the journal moved away as well. *)
Lemma compaction_shapes at_ writes d :
  let d' := compactJournalLocked decode cp_encode cp_decode digest at_ writes d in
  d' = d ∨
  ∃ cp, checkpoint_of decode cp_decode digest at_ d = Some cp ∧ d_checkpoint d' = Bytes (cp_encode cp) ∧
    (d_journal d' = d_journal d ∨ d_journal d' = Missing).
Proof.
  unfold compactJournalLocked. destruct (checkpoint_of _ _ _ at_ d) as [cp|]; [|by left].
  destruct writes as [|[|[|w]]]; cbn; [by left|right; exists cp; by auto..|].
  right. exists cp. rewrite take_nil. cbn. unfold rename_journal. cbn. destruct (d_journal d) eqn:E; cbn; rewrite ?E; auto.
Qed.

(** Replay of such a disk, with text appended. *)
Lemma replay_compacted at_ d cp d' b :
  checkpoint_of decode cp_decode digest at_ d = Some cp → checkpoint_readable cp → d_checkpoint d' = Bytes (cp_encode cp) →
  d_journal d' = d_journal d ∨ d_journal d' = Missing → size_of (journal_text d +:+ b) ≤ maxJournalBytes →
  ((String.length (journal_text d) ≤ String.length b)%nat →
   digest (str_take (String.length (journal_text d)) b) ≠ digest (journal_text d)) →
  ∃ j, replay (append_text b d') = resumed decode (stored_state <$> cp_State cp) b j.
Proof.
  intros Hcp Hread Hd' Hj Hsize Htail. pose proof (read_written _ _ _ _ Hcp Hread Hd') as Hr.
  destruct (covers_whole _ _ _ b Hcp) as [Hyes Hno]. pose proof (checkpoint_of_Some _ _ _ Hcp) as (rs & _ & Hdj & _ & _ & Hn & _ & _).
  assert (d_journal d' ≠ Unreadable) as Hu by (destruct Hj as [->| ->]; congruence).
  assert (journal_text d' = journal_text d ∨ journal_text d' = EmptyString) as Ht
    by (unfold journal_text; destruct Hj as [->| ->]; auto).
  assert (size_of (journal_text d' +:+ b) ≤ maxJournalBytes) as Hs'.
  { rewrite size_of_app in *. pose proof (size_of_nonneg (journal_text d)). destruct Ht as [->| ->]; unfold size_of in *; simpl; lia. }
  unfold replayJournal. rewrite append_read_limit by done. cbn. rewrite append_read_cp, Hr.
  destruct Ht as [->| ->]; eexists.
  - rewrite Hyes. cbn [stored_checkpoint cp_State cp_JournalBytes]. rewrite Hn, size_of_to_nat.
    rewrite <- (Nat.add_0_r (String.length _)), str_drop_app. done.
  - rewrite str_app_nil_l, Hno by done. done.
Qed.

Lemma compacted_state at_ d cp rs j :
  checkpoint_of decode cp_decode digest at_ d = Some cp → replay d = Ok (Some rs, j) → cp_State cp = Some rs.
Proof. intros Hcp Hr. apply checkpoint_of_Some in Hcp as (rs' & Hr' & _ & _ & _ & _ & _ & Hst). congruence. Qed.

(** Replay of such a disk as it stands. *)
Lemma replay_compacted_now at_ d cp d' :
  checkpoint_of decode cp_decode digest at_ d = Some cp → checkpoint_readable cp → d_checkpoint d' = Bytes (cp_encode cp) →
  d_journal d' = d_journal d ∨ d_journal d' = Missing →
  ∃ j, replay d' = resumed decode (stored_state <$> cp_State cp) EmptyString j.
Proof.
  intros Hcp Hread Hd' Hj. pose proof (read_written _ _ _ _ Hcp Hread Hd') as Hr.
  destruct (covers_whole _ _ _ EmptyString Hcp) as [Hyes _].
  pose proof (checkpoint_of_Some _ _ _ Hcp) as (rs & Hrep & Hdj & Hne & _ & Hn & _ & _).
  apply replay_journal in Hrep. unfold replayJournal. destruct Hj as [->| ->].
  - rewrite Hrep. cbn. rewrite Hr. rewrite str_app_nil_r in Hyes. rewrite Hyes. cbn. rewrite Hn, size_of_to_nat, str_drop_length.
    by eexists.
  - cbn. rewrite Hr. unfold covers. cbn [stored_checkpoint cp_JournalBytes]. rewrite Hn.
    rewrite (proj2 (Z.ltb_lt (size_of EmptyString) _)), orb_true_r by (destruct (journal_text d); [done|unfold size_of; simpl; lia]).
    by eexists.
Qed.
End Disk.

(** C14: compaction loses nothing, wherever it stops.  However many of its writes
    happen (the checkpoint, the removal of the old segment, the rename), the
    disk it leaves replays to the state it replayed to before; and whatever is
    appended later to a journal of complete lines replays to the same state as
    if the journal had never been compacted.  States are compared as JSON
    stores them: an empty flag map is no map. *)
Theorem compaction_crash_safe (decode : string → option HistoryEvent) (cp_encode : checkpoint → string)
    (cp_decode : string → option checkpoint) (digest : string → string) (at_ : string) (writes : nat)
    (d : disk) (rs : RunState) (j : option string)
    (Hreplay : replayJournal decode cp_decode digest d = Ok (Some rs, j))
    (Hcodec : ∀ cp, checkpoint_of decode cp_decode digest at_ d = Some cp → checkpoint_readable cp_encode cp_decode cp) :
  let d' := compactJournalLocked decode cp_encode cp_decode digest at_ writes d in
  (∃ rs' j', replayJournal decode cp_decode digest d' = Ok (Some rs', j') ∧ same_stored rs rs') ∧
  ∀ b rs2 j2, complete (journal_text d) → distinct_tail cp_decode digest d b →
    size_of (journal_text d +:+ b) ≤ maxJournalBytes →
    replayJournal decode cp_decode digest (append_text b d) = Ok (Some rs2, j2) →
    ∃ rs2' j2', replayJournal decode cp_decode digest (append_text b d') = Ok (Some rs2', j2') ∧ same_stored rs2 rs2'.
Proof.
  destruct (compaction_shapes decode cp_encode cp_decode digest at_ writes d) as [->|(cp & Hcp & Hd' & Hj)]; cbn zeta.
  { split; [by exists rs, j|]. intros b rs2 j2 _ _ _ Hb. by exists rs2, j2. }
  pose proof (Hcodec _ Hcp) as Hread. pose proof (compacted_state _ _ _ _ _ _ _ _ Hcp Hreplay) as Hst.
  pose proof (stored_state_idem rs) as Hidem. split.
  - destruct (replay_compacted_now _ _ _ _ _ _ _ _ Hcp Hread Hd' Hj) as [j' ->]. rewrite Hst.
    exists (stored_state rs), j'. split; [by apply resumed_Ok|]. by unfold same_stored; rewrite Hidem.
  - intros b rs2 j2 Hcomplete [Hold Htail] Hsize Hb.
    destruct (replay_compacted _ _ _ _ _ _ _ _ b Hcp Hread Hd' Hj Hsize Htail) as [j' ->].
    destruct (replay_source _ _ _ _ _ _ Hreplay) as (base & skip & Hskip & Hbase & Happ).
    rewrite Happ in Hb by done. apply resumed_Ok in Hb as [Hb _]. rewrite str_drop_app_le in Hb by done.
    rewrite (resume_complete_app decode base _ _ rs) in Hb; [|by apply complete_drop|done].
    rewrite Hst. cbn [fmap option_fmap option_map].
    destruct (resume_stored decode rs (stored_state rs) b) as [Hs He]; [by unfold same_stored; rewrite Hidem|].
    rewrite Hb in Hs, He. cbn [fst snd] in Hs, He. destruct (ResumeJournal decode (Some (stored_state rs)) b) as [rs2' e] eqn:Er.
    cbn in *. subst e. exists rs2', j'. split; [by apply resumed_Ok|done].
Qed.

(** A journal of two lines, a torn third and no checkpoint yet, with a codec
    that knows the one checkpoint written here. *)
Definition toy_disk : disk :=
  mkDisk (Bytes ("ev-1,a,started" +:+ String newline ("ev-2,a,done" +:+ str_of_char newline))) Missing Missing Missing.

Definition toy_state : RunState := (ResumeJournal toy_decode None (journal_text toy_disk)).1.

Definition toy_checkpoint : checkpoint :=
  mkCheckpoint 1 "now" (size_of (journal_text toy_disk)) (journal_text toy_disk) 2 "2024-01-01T00:00:00Z" (Some toy_state).

Definition toy_cp_encode (cp : checkpoint) : string := "checkpoint".
Definition toy_cp_decode (data : string) : option checkpoint :=
  if String.eqb data "checkpoint" then Some (stored_checkpoint toy_checkpoint) else None.

Lemma compaction_crash_safe_witness :
  let d' := compactJournalLocked toy_decode toy_cp_encode toy_cp_decode id "now" 2 toy_disk in
  (∃ rs' j', replayJournal toy_decode toy_cp_decode id d' = Ok (Some rs', j') ∧ same_stored toy_state rs') ∧
  ∀ b rs2 j2, complete (journal_text toy_disk) → distinct_tail toy_cp_decode id toy_disk b →
    size_of (journal_text toy_disk +:+ b) ≤ maxJournalBytes →
    replayJournal toy_decode toy_cp_decode id (append_text b toy_disk) = Ok (Some rs2, j2) →
    ∃ rs2' j2', replayJournal toy_decode toy_cp_decode id (append_text b d') = Ok (Some rs2', j2') ∧ same_stored rs2 rs2'.
Proof.
  apply (compaction_crash_safe toy_decode toy_cp_encode toy_cp_decode id "now" 2 toy_disk toy_state
           (Some (journal_text toy_disk))); [by vm_compute|].
  intros cp Hcp. assert (Some cp = Some toy_checkpoint) as [= ->] by (rewrite <- Hcp; by vm_compute).
  split_and!; by vm_compute.
Defined.

(** C39: the way an append loses the journal.  A record torn by a crash is passed
    over when the journal is read, but appendJournal does not end its line
    first: the next event, appended and reported as written, makes one line
    with the torn record, and from then on the journal does not load. *)
Theorem append_after_torn_record (decode : string → option HistoryEvent) (cp_encode : checkpoint → string)
    (cp_decode : string → option checkpoint) (digest : string → string) (at_ : string) (retry : bool) (writes : nat)
    (a torn line : string) (cache : file) (rs : RunState)
    (Hclean : ResumeJournal decode None (a +:+ str_of_char newline) = (rs, None))
    (Htorn : has_char newline torn = false ∧ trim_space torn ≠ EmptyString ∧ decode torn = None)
    (Hline : has_char newline line = false ∧ size_of (line +:+ str_of_char newline) ≤ maxJournalLineBytes)
    (Hmerged : trim_space (torn +:+ line) ≠ EmptyString ∧ decode (torn +:+ line) = None)
    (Hsize : size_of (a +:+ str_of_char newline +:+ torn) + size_of (line +:+ str_of_char newline) ≤ journalCompactBytes) :
  let d := mkDisk (Bytes ((a +:+ str_of_char newline) +:+ torn)) Missing Missing cache in
  let text := line +:+ str_of_char newline in
  let written := appendJournal decode cp_encode cp_decode digest at_ retry writes (String.length text) text d in
  replayJournal decode cp_decode digest d = Ok (Some rs, Some (journal_text d)) ∧
  written.2 = None ∧
  replayJournal decode cp_decode digest written.1 = Fail (BadJournal (BadLine (S (length (split_char newline a))))).
Proof.
  intros d text written.
  assert (size_of ((a +:+ str_of_char newline) +:+ torn) + size_of text ≤ journalCompactBytes) as Hs
    by (by rewrite str_app_assoc).
  pose proof (size_of_nonneg text). pose proof (size_of_nonneg ((a +:+ str_of_char newline) +:+ torn)).
  assert (journalCompactBytes ≤ maxJournalBytes) by (vm_compute; discriminate).
  assert (0 < size_of text) by (unfold text; rewrite size_of_app; pose proof (size_of_nonneg line);
    change (size_of (str_of_char newline)) with 1; lia).
  assert (written = (append_text text d, None)) as ->.
  { unfold written, appendJournal. destruct Hline as [_ Hl]. fold text in Hl.
    rewrite (proj2 (Z.eqb_neq _ _)), (proj2 (Z.ltb_ge _ _)) by lia. cbn [orb journal_size d d_journal].
    unfold maybeCompactLocked. rewrite (proj2 (Z.leb_le _ _)) by done. cbn [orb journal_size d d_journal].
    rewrite (proj2 (Z.ltb_ge _ _)), str_take_length, Nat.ltb_irrefl by lia. done. }
  cbn [fst snd append_text d d_journal with_journal]. split_and!; [|done|].
  - unfold replayJournal. cbn. rewrite (proj2 (Z.ltb_ge _ _)) by lia. cbn. apply resumed_Ok. split; [|done].
    rewrite resume_app, Hclean. destruct Htorn as (Hn & Ht & Hd). unfold ResumeJournal.
    rewrite (split_char_none _ _ Hn). simpl. rewrite (proj2 (String.eqb_neq _ _) Ht), Hd.
    destruct (has_suffix torn (str_of_char newline)) eqn:E; [|done]. by rewrite (no_newline_suffix _ Hn) in E.
  - unfold replayJournal. cbn. rewrite (proj2 (Z.ltb_ge _ _)) by (rewrite size_of_app; lia). cbn. unfold resumed, text.
    rewrite (str_app_assoc _ torn), <- (str_app_assoc torn).
    rewrite (resume_bad_line _ _ _ _ rs); [done|done| |by destruct Hmerged..].
    destruct Htorn as (Hn & _), Hline as [Hl _]. unfold has_char in *. by rewrite str_any_app, Hn, Hl.
Qed.

(** The second line is torn when the process dies, and the third append merges
    with it. *)
Lemma append_after_torn_record_witness :
  let d := mkDisk (Bytes (("ev-1,a,started" +:+ str_of_char newline) +:+ "ev-2,a")) Missing Missing Missing in
  let text := "ev-3,a,done" +:+ str_of_char newline in
  let written := appendJournal toy_decode toy_cp_encode toy_cp_decode id "now" true 3 (String.length text) text d in
  replayJournal toy_decode toy_cp_decode id d =
    Ok (Some (ResumeJournal toy_decode None ("ev-1,a,started" +:+ str_of_char newline)).1, Some (journal_text d)) ∧
  written.2 = None ∧
  replayJournal toy_decode toy_cp_decode id written.1 = Fail (BadJournal (BadLine 2)).
Proof.
  apply (append_after_torn_record toy_decode toy_cp_encode toy_cp_decode id "now" true 3 "ev-1,a,started" "ev-2,a" "ev-3,a,done");
    try (by vm_compute); split_and!; by vm_compute.
Defined.
