(* ===== verification/Readiness.v ===== *)
(** Readiness (internal/engine/ready.go, and ComputeStatuses of state.go):
    which nodes are settled, which are held back and by what, the automatic
    nodes that settle themselves, and the queue of actionable work. *)

From S2P Require Import Prelude GoStr GoFloat GoTime Dsl Graph NodeTypes Roles State.
From Stdlib Require Import Ascii.
Open Scope Z_scope.

(** * Settled statuses *)

Definition builtinSettled (s : Status) : bool := one_of s [StatusDone; StatusSkipped; StatusDeprecated].

Definition Settled (status : Status) (definitions : list StatusDefinition) : bool :=
  builtinSettled status
  || existsb (λ d, String.eqb (sd_ID d) status && sd_Settled d) definitions.

Definition statusDefinitions (g : option Graph) : list StatusDefinition :=
  match g with
  | Some g => match UI g with Some ui => ui_CustomStatuses ui | None => [] end
  | None => []
  end.

(** * Logic gates *)

Definition is_done (done : gset string) (id : string) : bool := bool_decide (id ∈ done).

Definition count_done (done : gset string) (ids : list string) : nat := length (List.filter (is_done done) ids).

(** gateSatisfied. *)
Definition gateSatisfied (gate : LogicGate) (done : gset string) : bool :=
  let n := length (Inputs gate) in
  let completed := count_done done (Inputs gate) in
  let op := lg_Operator gate in
  if String.eqb op "must" then (n =? 1)%nat && (completed =? 1)%nat
  else if String.eqb op "and" then (2 <=? n)%nat && (completed =? n)%nat
  else if String.eqb op "or" then (2 <=? n)%nat && (1 <=? completed)%nat
  else if String.eqb op "xor" then (2 <=? n)%nat && (completed =? 1)%nat
  else if String.eqb op "nand" then (2 <=? n)%nat && (completed <? n)%nat
  else if String.eqb op "nor" then (2 <=? n)%nat && (completed =? 0)%nat
  else false.

(** dedupe. *)
Definition dedupe (ids : list string) : list string :=
  if (length ids <? 2)%nat then ids else distinct [] ids.

Definition nonempty {A} (xs : list A) : bool := match xs with [] => false | _ => true end.

Definition gateBlockers (gate : LogicGate) (done : gset string) : list string :=
  if gateSatisfied gate done then []
  else
    let inputs := dedupe (Inputs gate) in
    let completed := List.filter (is_done done) inputs in
    let pending := List.filter (λ id, negb (is_done done id)) inputs in
    let op := lg_Operator gate in
    if String.eqb op "xor" && (1 <? length completed)%nat then completed
    else if one_of op ["nand"; "nor"] && nonempty completed then completed
    else if nonempty pending then pending
    else inputs.

Definition relation_gate (gate : LogicGate) : bool := one_of (lg_Operator gate) ["optional"; "deprecated"].

(** readinessGates: the last gate of each output wins. *)
Definition readinessGates (g : option Graph) : gmap string LogicGate :=
  match g with
  | None => ∅
  | Some g =>
      match UI g with
      | None => ∅
      | Some ui =>
          foldl (λ gates gate,
                   if relation_gate gate || String.eqb (lg_Output gate) EmptyString then gates
                   else <[lg_Output gate := gate]> gates) ∅ (ui_LogicGates ui)
      end
  end.

Definition logicGateComplete (gate : LogicGate) : bool :=
  let op := lg_Operator gate in
  let wired := negb (String.eqb (lg_Output gate) EmptyString) in
  if String.eqb op "must" then (length (Inputs gate) =? 1)%nat && wired
  else if one_of op ["and"; "or"; "xor"; "nand"; "nor"] then (2 <=? length (Inputs gate))%nat && wired
  else false.

(** * Blocked nodes *)

Definition statusOf (statuses : gmap string Status) (id : string) : Status :=
  default StatusReady (statuses !! id).

(** requiresBlockers, of a condition that may be absent. *)
Definition requiresBlockers (expr : option Expr) (done : gset string) : list string :=
  let refs := dedupe (match expr with Some e => NodeRefs e | None => [] end) in
  let completed := List.filter (is_done done) refs in
  let pending := List.filter (λ id, negb (is_done done id)) refs in
  let rest := if nonempty pending then pending else completed in
  match expr with
  | Some (Unary _ _ _) => if nonempty completed then completed else refs
  | Some (Binary op _ _ _) =>
      if String.eqb op "xor" && (1 <? length completed)%nat then completed
      else if one_of op ["nand"; "nor"] then (if nonempty completed then completed else refs)
      else rest
  | _ => rest
  end.

Section Blocked.
Context `{Unicode}.

Definition no_status (g : Graph) (node : Node) : bool :=
  String.eqb (nt_Completion (TypeOf (Some g) (Some node))) CompletionNone.

(** The ids without status, and the ids that count as finished. *)
Definition no_status_ids (g : Graph) : gset string :=
  list_to_set (n_ID <$> List.filter (no_status g) (node_list g)).

Definition settled_node (g : Graph) (statuses : gmap string Status) (node : Node) : bool :=
  Settled (statusOf statuses (n_ID node)) (statusDefinitions (Some g)).

Definition done_ids (g : Graph) (statuses : gmap string Status) : gset string :=
  list_to_set (n_ID <$> List.filter (λ n, no_status g n || settled_node g statuses n) (node_list g)).

Definition gate_context (done : gset string) (flags : gmap string value) : Context :=
  mkContext (is_done done) flags.

(** What holds back one node that is neither without status nor settled:
    [None] when nothing does. *)
Definition held_back (g : Graph) (done : gset string) (flags : gmap string value) (node : Node)
    : option (list string) :=
  match readinessGates (Some g) !! n_ID node with
  | Some gate =>
      if negb (logicGateComplete gate) then Some (gateBlockers gate done)
      else match RequiresExpr node with
           | Ok expr => if EvalOpt expr (gate_context done flags) then None
                        else Some (requiresBlockers expr done)
           | _ => Some []
           end
  | None =>
      match RequiresExpr node with
      | Ok expr => if EvalOpt expr (gate_context done flags) then None
                   else Some (requiresBlockers expr done)
      | _ => Some []
      end
  end.

(** blockedWithFlags, on a graph that is not nil. *)
Definition blockedWithFlags (g : Graph) (statuses : gmap string Status) (flags : gmap string value)
    : gmap string (list string) :=
  let done := done_ids g statuses in
  foldl (λ blocked node,
           if bool_decide (n_ID node ∈ no_status_ids g) || settled_node g statuses node then blocked
           else match held_back g done flags node with
                | Some why => <[n_ID node := why]> blocked
                | None => blocked
                end) ∅ (node_list g).

Definition Blocked (g : option Graph) (statuses : gmap string Status) : gmap string (list string) :=
  match g with
  | Some g => blockedWithFlags g statuses (GFlags g)
  | None => ∅
  end.

(** * Automatic nodes *)

(** One pass of deriveAutoStatuses: the ids still pending, and the statuses
    with the others settled. *)
Definition auto_pass (blocked : gmap string (list string)) (pending : list string) (out : gmap string Status)
    : list string * gmap string Status :=
  (List.filter (λ id, bool_decide (is_Some (blocked !! id))) pending,
   foldl (λ out id, if bool_decide (is_Some (blocked !! id)) then out else <[id := StatusDone]> out) out pending).

(** The loop, at most [passes] times. *)
Fixpoint auto_passes (g : Graph) (flags : gmap string value) (passes : nat) (pending : list string)
    (out : gmap string Status) : gmap string Status :=
  match passes, pending with
  | O, _ => out
  | _, [] => out
  | S passes', _ =>
      let '(next, out') := auto_pass (blockedWithFlags g out flags) pending out in
      if (length next =? length pending)%nat then out' else auto_passes g flags passes' next out'
  end.

Definition deriveAutoStatuses (g : Graph) (rs : option RunState) (out : gmap string Status) (auto : list string)
    : gmap string Status :=
  if negb (nonempty auto) then out
  else auto_passes g (EffectiveFlags g rs) (S (length auto)) auto out.

(** The status a node's history gives it, if it does. *)
Definition explicit_status (rs : option RunState) (id : string) : option Status :=
  rs ← rs;
  st ← rs_Nodes rs !! id;
  if explicit (ns_Status st) then Some (ns_Status st) else None.

Definition is_auto (g : Graph) (node : Node) : bool :=
  String.eqb (nt_Completion (TypeOf (Some g) (Some node))) CompletionAuto.

Definition initial_statuses (g : Graph) (rs : option RunState) : gmap string Status :=
  foldl (λ out node, <[n_ID node := default StatusReady (explicit_status rs (n_ID node))]> out) ∅ (node_list g).

Definition auto_ids (g : Graph) (rs : option RunState) : list string :=
  n_ID <$> List.filter (λ node, match explicit_status rs (n_ID node) with Some _ => false | None => is_auto g node end)
             (node_list g).

Definition ComputeStatuses (g : Graph) (rs : option RunState) : gmap string Status :=
  deriveAutoStatuses g rs (initial_statuses g rs) (auto_ids g rs).
End Blocked.

(** * The queue *)

Record ReadyNode := mkReadyNode {
  rn_ID : string;
  rn_Title : string;
  rn_Kind : string;
  rn_AgentMode : string;
  rn_Priority : string;
  rn_Assignee : string;
  rn_Deadline : string;
  rn_Tags : list string;
  rn_BlockedBy : list string;
  rn_Reason : string;
  rn_GateID : string;
  rn_GateOperator : string;
}.

#[export] Instance ReadyNode_eq_dec : EqDecision ReadyNode.
Proof. solve_decision. Defined.

Record Readiness := mkReadiness {
  Ready : list ReadyNode;
  BlockedNodes : list ReadyNode;
  Busy : nat;
}.

Section Queue.
Context `{Unicode}.

Definition priorityRank (priority : string) : Z :=
  let p := to_lower (trim_space priority) in
  if String.eqb p "urgent" then 0
  else if String.eqb p "high" then 1
  else if String.eqb p "medium" then 2
  else if String.eqb p "low" then 3
  else 4.

(** Go's < on strings: bytewise. *)
Definition string_ltb (a b : string) : bool := String.ltb a b.

(** The comparison of sortTasks. *)
Definition task_less (a b : ReadyNode) : bool :=
  let ra := priorityRank (rn_Priority a) in
  let rb := priorityRank (rn_Priority b) in
  if negb (ra =? rb) then ra <? rb
  else if negb (String.eqb (rn_Deadline a) (rn_Deadline b)) then
    if String.eqb (rn_Deadline a) EmptyString then false
    else if String.eqb (rn_Deadline b) EmptyString then true
    else string_ltb (rn_Deadline a) (rn_Deadline b)
  else string_ltb (rn_ID a) (rn_ID b).

Definition sortTasks (tasks : list ReadyNode) : list ReadyNode := slice_stable task_less tasks.

(** Where ComputeReadiness puts one node. *)
Inductive verdict :=
  | NotCounted
  | IsBusy
  | IsReady (entry : ReadyNode)
  | IsBlocked (entry : ReadyNode).

Definition base_entry (g : Graph) (node : Node) : ReadyNode :=
  mkReadyNode (n_ID node) (n_Title node) (n_Kind node) (nt_AgentMode (TypeOf (Some g) (Some node)))
    (n_Priority node) (n_Assignee node) (n_Deadline node) (n_Tags node) [] EmptyString EmptyString EmptyString.

Definition blocked_entry (entry : ReadyNode) (waiting : list string) (gate : option LogicGate) : ReadyNode :=
  mkReadyNode (rn_ID entry) (rn_Title entry) (rn_Kind entry) (rn_AgentMode entry) (rn_Priority entry)
    (rn_Assignee entry) (rn_Deadline entry) (rn_Tags entry) waiting
    (match gate with
     | Some _ => "gate_condition"
     | None => if nonempty waiting then "prerequisites" else "requires"
     end)
    (match gate with Some gate => lg_ID gate | None => EmptyString end)
    (match gate with Some gate => lg_Operator gate | None => EmptyString end).

Definition countable (g : Graph) (node : Node) : bool := negb (no_status g node || is_auto g node).

Definition judge (g : Graph) (statuses : gmap string Status) (blocked : gmap string (list string)) (node : Node)
    : verdict :=
  if negb (countable g node) then NotCounted
  else if negb (String.eqb (statusOf statuses (n_ID node)) StatusReady) then IsBusy
  else match blocked !! n_ID node with
       | Some waiting => IsBlocked (blocked_entry (base_entry g node) waiting (readinessGates (Some g) !! n_ID node))
       | None => IsReady (base_entry g node)
       end.

(** One round of the loop, before sorting. *)
Definition add_verdict (r : Readiness) (v : verdict) : Readiness :=
  match v with
  | NotCounted => r
  | IsBusy => mkReadiness (Ready r) (BlockedNodes r) (S (Busy r))
  | IsReady entry => mkReadiness (Ready r ++ [entry]) (BlockedNodes r) (Busy r)
  | IsBlocked entry => mkReadiness (Ready r) (BlockedNodes r ++ [entry]) (Busy r)
  end.

Definition ComputeReadiness (g : option Graph) (rs : option RunState) : Readiness :=
  match g with
  | None => mkReadiness [] [] 0
  | Some g =>
      let statuses := ComputeStatuses g rs in
      let blocked := blockedWithFlags g statuses (EffectiveFlags g rs) in
      let r := foldl (λ r node, add_verdict r (judge g statuses blocked node)) (mkReadiness [] [] 0) (node_list g) in
      mkReadiness (sortTasks (Ready r)) (sortTasks (BlockedNodes r)) (Busy r)
  end.
End Queue.
