(* ===== verification/ReadyFacts.v ===== *)
(** The order of the work queue (sortTasks of internal/engine/ready.go): the
    comparison is a strict total order on tasks of distinct ids, so the sorted
    queue depends only on the tasks, not on the order they were found in.

    What readiness means: when a node is held back, that the automatic nodes
    settle as far as they can, that every node lands in exactly one list, and
    that the blockers reported for a gate are its own inputs. *)

From S2P Require Import Prelude GoStr GoFloat GoTime Dsl DslFacts Graph NodeTypes Roles State Readiness.
From Stdlib Require Import Ascii.
Open Scope Z_scope.

(** * Strings *)

Lemma string_ltb_spec a b : string_ltb a b = true ↔ String.le a b ∧ a ≠ b.
Proof.
  unfold string_ltb, String.ltb, String.le, String.leb. destruct (String.compare a b) eqn:E.
  - apply String.compare_eq_iff in E. naive_solver.
  - split; [|done]. intros _. split; [done|]. intros ->.
    assert (Hr : String.compare b b = Eq); [|by rewrite Hr in E].
    clear. induction b as [|c b IH]; [done|]. simpl. unfold Ascii.compare. by rewrite N.compare_refl.
  - split; [done|]. by intros [? _].
Qed.

#[export] Instance string_lt_trans : Transitive (λ a b, string_ltb a b = true).
Proof.
  intros a b c. rewrite !string_ltb_spec. intros [H1 N1] [H2 N2]. split; [by etransitivity|].
  intros ->. destruct N1. by apply (anti_symm String.le).
Qed.

Lemma string_lt_irrefl a : string_ltb a a = false.
Proof. apply not_true_iff_false. rewrite string_ltb_spec. naive_solver. Qed.

Lemma string_lt_total a b : string_ltb a b = true ∨ a = b ∨ string_ltb b a = true.
Proof.
  rewrite !string_ltb_spec. destruct (decide (a = b)); [naive_solver|].
  destruct (total String.le a b); naive_solver.
Qed.

(** * The comparison *)

(** Deadlines: an absent one comes last. *)
Definition deadline_lt (a b : string) : Prop :=
  a ≠ EmptyString ∧ (b = EmptyString ∨ string_ltb a b = true).

Lemma deadline_lt_trans a b c : deadline_lt a b → deadline_lt b c → deadline_lt a c.
Proof.
  intros [Ha [->|Hab]] [Hb Hbc]; [done|]. split; [done|]. destruct Hbc as [->|Hbc]; [by left|right].
  by apply (string_lt_trans a b c).
Qed.

Lemma deadline_lt_irrefl a : ¬ deadline_lt a a.
Proof. intros [Ha [?|Hlt]]; [done|]. by rewrite string_lt_irrefl in Hlt. Qed.

Lemma deadline_lt_total a b : deadline_lt a b ∨ a = b ∨ deadline_lt b a.
Proof.
  unfold deadline_lt. destruct (decide (a = EmptyString)), (decide (b = EmptyString));
    destruct (string_lt_total a b) as [?|[?|?]]; naive_solver.
Qed.

Section Order.
Context `{Unicode}.

Definition task_lt (a b : ReadyNode) : Prop :=
  priorityRank (rn_Priority a) < priorityRank (rn_Priority b) ∨
  (priorityRank (rn_Priority a) = priorityRank (rn_Priority b) ∧
   (deadline_lt (rn_Deadline a) (rn_Deadline b) ∨
    (rn_Deadline a = rn_Deadline b ∧ string_ltb (rn_ID a) (rn_ID b) = true))).

Lemma task_less_spec a b : task_less a b = true ↔ task_lt a b.
Proof.
  unfold task_less, task_lt, deadline_lt.
  destruct (Z.eqb_spec (priorityRank (rn_Priority a)) (priorityRank (rn_Priority b))) as [He|Hne]; simpl.
  - destruct (String.eqb_spec (rn_Deadline a) (rn_Deadline b)) as [Hd|Hd]; simpl.
    + rewrite Hd. split; [intros; right; split; [done|right; done]|].
      intros [?|[_ [[? [?|Hlt]]|[_ ?]]]]; [lia|done| |done]. by rewrite string_lt_irrefl in Hlt.
    + destruct (String.eqb_spec (rn_Deadline a) EmptyString), (String.eqb_spec (rn_Deadline b) EmptyString);
        split; try done; try naive_solver; intros [?|[_ [?|?]]]; naive_solver lia.
  - rewrite Z.ltb_lt. split; [by left|]. intros [?|[? _]]; [done|lia].
Qed.

#[export] Instance task_lt_trans : Transitive task_lt.
Proof.
  intros a b c. unfold task_lt. intros [H1|[E1 H1]] [H2|[E2 H2]].
  1-3: left; lia.
  right. split; [lia|]. destruct H1 as [H1|[D1 H1]], H2 as [H2|[D2 H2]].
  - left. by eapply deadline_lt_trans.
  - left. by rewrite <- D2.
  - left. by rewrite D1.
  - right. split; [congruence|]. by apply (string_lt_trans _ (rn_ID b)).
Qed.

Lemma task_lt_irrefl a : ¬ task_lt a a.
Proof.
  unfold task_lt. intros [?|[_ [?%deadline_lt_irrefl|[_ Hs]]]]; [lia|done|]. by rewrite string_lt_irrefl in Hs.
Qed.

(** The tasks the comparison cannot tell apart. *)
Definition task_key (a : ReadyNode) : Z * string * string :=
  (priorityRank (rn_Priority a), rn_Deadline a, rn_ID a).

Lemma task_lt_total a b : task_lt a b ∨ task_key a = task_key b ∨ task_lt b a.
Proof.
  unfold task_lt, task_key.
  destruct (Z.lt_trichotomy (priorityRank (rn_Priority a)) (priorityRank (rn_Priority b))) as [Hr|[Hr|Hr]];
    [by left; left| |by right; right; left].
  destruct (deadline_lt_total (rn_Deadline a) (rn_Deadline b)) as [Hd|[Hd|Hd]];
    [by left; right; split; [|left]| |by right; right; right; split; [|left]].
  destruct (string_lt_total (rn_ID a) (rn_ID b)) as [Hi|[Hi|Hi]].
  - left. right. split; [done|by right].
  - right. left. congruence.
  - right. right. right. split; [done|by right].
Qed.

Lemma task_lt_key a b c : task_key a = task_key b → task_lt a c ↔ task_lt b c.
Proof. unfold task_key, task_lt. by intros [= -> -> ->]. Qed.

Lemma task_lt_key_r a b c : task_key a = task_key b → task_lt c a ↔ task_lt c b.
Proof. unfold task_key, task_lt. by intros [= -> -> ->]. Qed.

(** What the sort orders by. *)
Definition task_le (a b : ReadyNode) : Prop := task_lt a b ∨ task_key a = task_key b.

Lemma task_less_false a b : task_less b a = false ↔ task_le a b.
Proof.
  rewrite <- not_true_iff_false, task_less_spec. unfold task_le. split.
  - intros Hn. destruct (task_lt_total a b) as [?|[?|?]]; auto; done.
  - intros [Hlt|Hk] Hba; [|rewrite (task_lt_key _ _ _ (eq_sym Hk)) in Hba].
    + by apply (task_lt_irrefl a), (task_lt_trans _ b).
    + by apply (task_lt_irrefl a).
Qed.

#[export] Instance task_le_trans : Transitive task_le.
Proof.
  intros a b c [Hab|Hab] [Hbc|Hbc]; unfold task_le.
  - left. by apply (task_lt_trans _ b).
  - left. by rewrite <- (task_lt_key_r _ _ _ Hbc).
  - left. by rewrite (task_lt_key _ _ _ Hab).
  - right. congruence.
Qed.

(** * The sort *)

Lemma sortTasks_perm xs : sortTasks xs ≡ₚ xs.
Proof. apply slice_stable_perm. Qed.

Lemma sortTasks_sorted xs : StronglySorted task_le (sortTasks xs).
Proof.
  apply slice_stable_sorted; [apply task_le_trans| |intros a b; apply task_less_false].
  intros a b Hl. left. by apply task_less_spec.
Qed.

(** The queue has one order: sortTasks returns the tasks it was given,
    sorted by priority, then deadline (none last), then id, and, when no two
    tasks share an id, the same list whatever order the tasks came in. *)
Theorem queue_order_canonical (tasks tasks' : list ReadyNode)
    (Hids : NoDup (rn_ID <$> tasks)) (Hperm : tasks ≡ₚ tasks') :
  sortTasks tasks ≡ₚ tasks ∧ StronglySorted task_le (sortTasks tasks) ∧ sortTasks tasks = sortTasks tasks'.
Proof.
  split_and!; [apply sortTasks_perm|apply sortTasks_sorted|].
  apply (StronglySorted_unique_strong task_le); [|apply sortTasks_sorted..|].
  - intros x y Hx Hy Hxy Hyx. rewrite sortTasks_perm in Hx. rewrite sortTasks_perm, <- Hperm in Hy.
    assert (Hk : task_key x = task_key y).
    { destruct Hxy as [Hxy|?]; [|done]. destruct Hyx as [Hyx|?]; [|done].
      destruct (task_lt_irrefl x). by apply (task_lt_trans _ y). }
    unfold task_key in Hk. simplify_eq.
    apply list_elem_of_lookup in Hx as [i Hi], Hy as [j Hj].
    assert (i = j) as ->; [|congruence].
    apply (NoDup_lookup (rn_ID <$> tasks) _ _ (rn_ID x)); [done|..]; rewrite list_lookup_fmap.
    + by rewrite Hi.
    + rewrite Hj. simpl. congruence.
  - by rewrite !sortTasks_perm.
Qed.
End Order.

Definition sample_task (id priority deadline : string) : ReadyNode :=
  mkReadyNode id EmptyString EmptyString EmptyString priority EmptyString deadline [] [] EmptyString EmptyString EmptyString.

Definition sample_queue : list ReadyNode :=
  [sample_task "c" "low" EmptyString; sample_task "a" EmptyString "2026-01-01";
   sample_task "b" "URGENT " EmptyString; sample_task "d" "low" "2026-02-01"].

Lemma queue_order_canonical_witness :
  sortTasks sample_queue ≡ₚ sample_queue ∧ StronglySorted task_le (sortTasks sample_queue) ∧
  sortTasks sample_queue = sortTasks (reverse sample_queue).
Proof.
  apply queue_order_canonical; [|symmetry; apply reverse_Permutation].
  apply (bool_decide_unpack _). by vm_compute.
Defined.

(** * Gates *)

Lemma elem_of_dedupe x ids : x ∈ dedupe ids ↔ x ∈ ids.
Proof. unfold dedupe. destruct (_ <? _)%nat; [done|]. rewrite elem_of_distinct. set_solver. Qed.

Lemma NoDup_dedupe ids : NoDup (dedupe ids).
Proof.
  unfold dedupe. destruct (Nat.ltb_spec (length ids) 2); [|apply NoDup_distinct].
  destruct ids as [|x [|y ids]]; simpl in *; [constructor|apply NoDup_singleton|lia].
Qed.

Lemma dedupe_nil ids : dedupe ids = [] ↔ ids = [].
Proof.
  split; [|by intros ->]. intros He. destruct ids as [|x ids]; [done|].
  assert (Hx : x ∈ dedupe (x :: ids)) by (apply elem_of_dedupe; by left). rewrite He in Hx. set_solver.
Qed.

Lemma nonempty_spec {A} (xs : list A) : nonempty xs = true ↔ xs ≠ [].
Proof. by destruct xs. Qed.

Lemma nonempty_false {A} (xs : list A) : nonempty xs = false ↔ xs = [].
Proof. by destruct xs. Qed.

(** A gate that does not hold says why: the blockers it reports are
    distinct inputs of its own, none only when it has no input at all, and they
    are the inputs to change: completed ones for a negative gate or an
    exclusive one with too many, unfinished ones otherwise, unless every input
    is on one side. *)
Theorem gate_blockers_sound (gate : LogicGate) (done : gset string)
    (Hfalse : gateSatisfied gate done = false) :
  let blockers := gateBlockers gate done in
  NoDup blockers ∧ (∀ id, id ∈ blockers → id ∈ Inputs gate) ∧
  (blockers = [] ↔ Inputs gate = []) ∧
  ((∀ id, id ∈ blockers → id ∈ done) ∨ (∀ id, id ∈ blockers → id ∉ done)) ∧
  (one_of (lg_Operator gate) ["nand"; "nor"] = true → (∃ id, id ∈ Inputs gate ∧ id ∈ done) →
     ∀ id, id ∈ blockers → id ∈ done).
Proof.
  unfold gateBlockers. rewrite Hfalse.
  set (inputs := dedupe (Inputs gate)). set (completed := List.filter (is_done done) inputs).
  set (pending := List.filter (λ id, negb (is_done done id)) inputs).
  assert (Hin : ∀ id, id ∈ inputs ↔ id ∈ Inputs gate) by (intros; apply elem_of_dedupe).
  assert (Hc : ∀ id, id ∈ completed ↔ id ∈ Inputs gate ∧ id ∈ done).
  { intros id. unfold completed. rewrite elem_of_filter_bool, Hin. unfold is_done. by rewrite bool_decide_eq_true. }
  assert (Hp : ∀ id, id ∈ pending ↔ id ∈ Inputs gate ∧ id ∉ done).
  { intros id. unfold pending. rewrite elem_of_filter_bool, Hin. unfold is_done.
    by rewrite negb_true_iff, bool_decide_eq_false. }
  assert (Hnc : NoDup completed) by apply NoDup_filter_bool, NoDup_dedupe.
  assert (Hnp : NoDup pending) by apply NoDup_filter_bool, NoDup_dedupe.
  assert (Hside : ∀ xs, (∀ id, id ∈ xs → id ∈ Inputs gate) → xs ≠ [] → (xs = [] ↔ Inputs gate = [])).
  { intros xs Hxs Hne. split; [done|]. intros He. destruct xs as [|x xs]; [done|].
    specialize (Hxs x ltac:(by left)). rewrite He in Hxs. set_solver. }
  destruct (String.eqb (lg_Operator gate) "xor" && (1 <? length completed)%nat) eqn:Ex.
  { bool_to_prop. split_and!; [done|naive_solver| |left; naive_solver|naive_solver].
    apply Hside; [naive_solver|]. intros He. rewrite He in *. simpl in *. lia. }
  destruct (one_of (lg_Operator gate) ["nand"; "nor"] && nonempty completed) eqn:En.
  { bool_to_prop. apply nonempty_spec in H0.
    split_and!; [done|naive_solver|apply Hside; naive_solver|left; naive_solver|naive_solver]. }
  assert (Hneg : one_of (lg_Operator gate) ["nand"; "nor"] = true → (∃ id, id ∈ Inputs gate ∧ id ∈ done) → False).
  { intros Ho (id & Hid). rewrite Ho in En. simpl in En. apply nonempty_false in En.
    apply Hc in Hid. rewrite En in Hid. set_solver. }
  destruct (nonempty pending) eqn:Ep.
  { apply nonempty_spec in Ep.
    split_and!; [done|naive_solver|apply Hside; naive_solver|right; naive_solver|naive_solver]. }
  apply nonempty_false in Ep.
  split_and!; [apply NoDup_dedupe|naive_solver|apply dedupe_nil| |naive_solver].
  left. intros id Hid. destruct (decide (id ∈ done)); [done|].
  assert (Hx : id ∈ pending) by (apply Hp; naive_solver). rewrite Ep in Hx. set_solver.
Qed.

Definition gate_of (op : string) (inputs : list string) (output : string) : LogicGate :=
  mkLogicGate "g" op f_zero f_zero (Some inputs) output [] EmptyString.

Lemma gate_blockers_sound_witness :
  let gate := gate_of "nor" ["a"; "b"; "a"] "t" in
  let blockers := gateBlockers gate {[ "a" ]} in
  NoDup blockers ∧ (∀ id, id ∈ blockers → id ∈ Inputs gate) ∧
  (blockers = [] ↔ Inputs gate = []) ∧
  ((∀ id, id ∈ blockers → id ∈@{gset string} {[ "a" ]}) ∨ (∀ id, id ∈ blockers → id ∉@{gset string} {[ "a" ]})) ∧
  (one_of (lg_Operator gate) ["nand"; "nor"] = true → (∃ id, id ∈ Inputs gate ∧ id ∈@{gset string} {[ "a" ]}) →
     ∀ id, id ∈ blockers → id ∈@{gset string} {[ "a" ]}).
Proof. apply (gate_blockers_sound (gate_of "nor" ["a"; "b"; "a"] "t") {[ "a" ]}). vm_compute. reflexivity. Defined.

(** * Blocked nodes *)

Section BlockedFacts.
Context `{Unicode}.

Definition distinct_ids (g : Graph) : Prop := NoDup (n_ID <$> node_list g).

Lemma distinct_ids_inj g n m :
  distinct_ids g → n ∈ node_list g → m ∈ node_list g → n_ID n = n_ID m → n = m.
Proof.
  intros Hd Hn Hm He. pose proof (NodeByID_unique g n Hd Hn) as H1.
  pose proof (NodeByID_unique g m Hd Hm) as H2. rewrite He in H1. congruence.
Qed.

(** Ids selected by a test on the nodes are selected node by node. *)
Lemma elem_of_selected g (f : Node → bool) n :
  distinct_ids g → n ∈ node_list g →
  n_ID n ∈ (list_to_set (n_ID <$> List.filter f (node_list g)) : gset string) ↔ f n = true.
Proof.
  intros Hd Hn. rewrite elem_of_list_to_set, list_elem_of_fmap. setoid_rewrite elem_of_filter_bool. split.
  - intros (m & He & Hm & Hf). by rewrite (distinct_ids_inj g n m).
  - intros Hf. exists n. done.
Qed.

(** Folding insertions keyed by the ids of distinct nodes. *)
Lemma fold_insert_lookup {A} (f : Node → option A) (ns : list Node) (m : gmap string A) id :
  foldl (λ m n, match f n with Some x => <[n_ID n := x]> m | None => m end) m ns !! id =
  match last (omap (λ n, if String.eqb (n_ID n) id then f n else None) ns) with
  | Some x => Some x
  | None => m !! id
  end.
Proof.
  revert m. induction ns as [|n ns IH]; intros m; simpl; [done|]. rewrite IH. simpl.
  destruct (f n) as [x|], (String.eqb_spec (n_ID n) id) as [He|Hne]; simpl; try done.
  - rewrite last_cons. destruct (last _); [done|]. by rewrite He, lookup_insert_eq.
  - destruct (last _); [done|]. by rewrite lookup_insert_ne.
Qed.

Lemma last_matching {A} (f : Node → option A) ns n :
  NoDup (n_ID <$> ns) → n ∈ ns →
  last (omap (λ m, if String.eqb (n_ID m) (n_ID n) then f m else None) ns) = f n.
Proof.
  induction ns as [|m ns IH]; [set_solver|]. simpl. intros [Hm Hnd]%NoDup_cons Hn.
  assert (Hnone : ∀ id, id ∉ n_ID <$> ns → omap (λ m, if String.eqb (n_ID m) id then f m else None) ns = []).
  { clear. intros id Hid. induction ns as [|x ns IH]; [done|]. simpl in *.
    destruct (String.eqb_spec (n_ID x) id); [set_solver|]. apply IH. set_solver. }
  apply elem_of_cons in Hn as [->|Hn].
  - rewrite String.eqb_refl. destruct (f m); simpl; rewrite Hnone by done; done.
  - destruct (String.eqb_spec (n_ID m) (n_ID n)) as [He|Hne]; [|by apply IH].
    destruct Hm. rewrite He. by apply list_elem_of_fmap_2.
Qed.

Lemma fold_insert_node {A} (f : Node → option A) g n :
  distinct_ids g → n ∈ node_list g →
  foldl (λ m n, match f n with Some x => <[n_ID n := x]> m | None => m end) (∅ : gmap string A) (node_list g) !! n_ID n = f n.
Proof.
  intros Hd Hn. rewrite fold_insert_lookup, last_matching by done. by destruct (f n).
Qed.

Lemma foldl_ext {A B} (f g : A → B → A) xs (a : A) :
  (∀ a x, f a x = g a x) → foldl f a xs = foldl g a xs.
Proof. intros Hfg. revert a. induction xs as [|x xs IH]; intros a; simpl; [done|]. by rewrite Hfg. Qed.

(** What blockedWithFlags says of one node. *)
Lemma blocked_lookup g statuses flags n :
  distinct_ids g → n ∈ node_list g →
  blockedWithFlags g statuses flags !! n_ID n =
  if no_status g n || settled_node g statuses n then None
  else held_back g (done_ids g statuses) flags n.
Proof.
  intros Hd Hn. unfold blockedWithFlags.
  rewrite (foldl_ext _ (λ m n,
    match (if bool_decide (n_ID n ∈ no_status_ids g) || settled_node g statuses n then None
           else held_back g (done_ids g statuses) flags n) with
    | Some x => <[n_ID n := x]> m | None => m end)) by (intros; by destruct (_ || _)).
  rewrite fold_insert_node by done.
  assert (bool_decide (n_ID n ∈ no_status_ids g) = no_status g n) as ->; [|done].
  apply eq_true_iff_eq. rewrite bool_decide_eq_true. by apply elem_of_selected.
Qed.

(** Only nodes of the graph are ever blocked. *)
Lemma blocked_dom g statuses flags id :
  is_Some (blockedWithFlags g statuses flags !! id) → ∃ n, n ∈ node_list g ∧ n_ID n = id.
Proof.
  unfold blockedWithFlags.
  rewrite (foldl_ext _ (λ m n,
    match (if bool_decide (n_ID n ∈ no_status_ids g) || settled_node g statuses n then None
           else held_back g (done_ids g statuses) flags n) with
    | Some x => <[n_ID n := x]> m | None => m end)) by (intros; by destruct (_ || _)).
  rewrite fold_insert_lookup. destruct (last _) as [x|] eqn:E; [|intros []; by rewrite lookup_empty in *].
  intros _. apply last_Some_elem_of in E. apply list_elem_of_omap in E as (n & Hn & He).
  destruct (String.eqb_spec (n_ID n) id); [eauto|done].
Qed.

(** A node's own condition, on the finished nodes and the flags. *)
Definition condition_holds (g : Graph) (done : gset string) (flags : gmap string value) (n : Node) : Prop :=
  (∀ gate, readinessGates (Some g) !! n_ID n = Some gate → logicGateComplete gate = true) ∧
  ∃ expr, Parse (n_Requires n) = Ok expr ∧ EvalOpt expr (mkContext (λ id, bool_decide (id ∈ done)) flags) = true.

Lemma held_back_None g done flags n : held_back g done flags n = None ↔ condition_holds g done flags n.
Proof.
  unfold held_back, condition_holds, RequiresExpr.
  change (gate_context done flags) with (mkContext (λ id, bool_decide (id ∈ done)) flags).
  assert (Hr : match Parse (n_Requires n) with
               | Ok expr => if EvalOpt expr (mkContext (λ id, bool_decide (id ∈ done)) flags) then None
                            else Some (requiresBlockers expr done)
               | _ => Some []
               end = None ↔
               ∃ expr, Parse (n_Requires n) = Ok expr ∧ EvalOpt expr (mkContext (λ id, bool_decide (id ∈ done)) flags) = true).
  { destruct (Parse (n_Requires n)) as [expr| | |]; [|split; [done|by intros (?&?&?)]..].
    destruct (EvalOpt expr _) eqn:E; split; [eauto|done|done|]. intros (? & [= <-] & Hev). congruence. }
  destruct (readinessGates (Some g) !! n_ID n) as [gate|].
  - destruct (logicGateComplete gate) eqn:El; simpl; [rewrite Hr; naive_solver|].
    split; [done|]. intros [Hg _]. specialize (Hg gate eq_refl). congruence.
  - rewrite Hr. naive_solver.
Qed.

Lemma elem_of_done_ids g statuses id :
  id ∈ done_ids g statuses ↔
  ∃ n, n ∈ node_list g ∧ n_ID n = id ∧ (no_status g n = true ∨ settled_node g statuses n = true).
Proof.
  unfold done_ids. rewrite elem_of_list_to_set, list_elem_of_fmap. setoid_rewrite elem_of_filter_bool.
  split.
  - intros (n & -> & Hn & Hd%orb_true_iff). exists n. auto.
  - intros (n & Hn & <- & Hd). exists n. rewrite orb_true_iff. auto.
Qed.
End BlockedFacts.

(** On a graph of distinct ids, a node is held back exactly when it is
    still open (not settled, and of a type with a status) and its own condition
    does not hold: its logic gate is still half wired, its requires text does
    not parse, or the condition is false of the flags and of the nodes that
    are settled or without status; the wires drawn on the canvas play no part. *)
Theorem blocked_iff_open_and_unmet `{Unicode} (g : Graph) (statuses : gmap string Status)
    (flags : gmap string value) (n : Node) (Hids : distinct_ids g) (Hn : n ∈ node_list g) :
  is_Some (blockedWithFlags g statuses flags !! n_ID n) ↔
  no_status g n = false ∧ Settled (statusOf statuses (n_ID n)) (statusDefinitions (Some g)) = false ∧
  ¬ condition_holds g (done_ids g statuses) flags n.
Proof.
  rewrite (blocked_lookup _ _ _ _ Hids Hn), <- held_back_None. unfold settled_node.
  destruct (no_status g n); simpl; [split; [by intros []|naive_solver]|].
  destruct (Settled _ _); simpl; [split; [by intros []|naive_solver]|].
  destruct (held_back _ _ _ _); split; try naive_solver; by intros [].
Qed.

Definition chain_graph : Graph :=
  plain_graph [plain_node "s" "start" EmptyString; plain_node "a" "task" "s";
               plain_node "b" "task" "a and not flag(hold)"; plain_node "n" "note" EmptyString;
               plain_node "z" "end" "b or n"] [].

Lemma chain_distinct : distinct_ids chain_graph.
Proof. apply (bool_decide_unpack _). by vm_compute. Qed.

Definition chain_b : Node := plain_node "b" "task" "a and not flag(hold)".

Lemma chain_b_in : chain_b ∈ node_list chain_graph.
Proof. do 2 right. by left. Qed.

Lemma blocked_iff_open_and_unmet_witness :
  is_Some (blockedWithFlags chain_graph ∅ ∅ !! "b") ↔
  no_status chain_graph chain_b = false ∧
  Settled (statusOf ∅ "b") (statusDefinitions (Some chain_graph)) = false ∧
  ¬ condition_holds chain_graph (done_ids chain_graph ∅) ∅ chain_b.
Proof. apply (blocked_iff_open_and_unmet chain_graph ∅ ∅ chain_b chain_distinct chain_b_in). Defined.

(** * Automatic nodes *)

Section AutoFacts.
Context `{Unicode}.

Lemma auto_pass_out blocked pending out id :
  (auto_pass blocked pending out).2 !! id =
  if bool_decide (id ∈ pending ∧ blocked !! id = None) then Some StatusDone else out !! id.
Proof.
  unfold auto_pass. cbn [snd]. revert out. induction pending as [|x pending IH]; intros out; cbn [foldl].
  - rewrite bool_decide_eq_false_2; [done|]. set_solver.
  - rewrite IH. destruct (decide (x = id)) as [->|Hne].
    + destruct (decide (blocked !! id = None)) as [E|E].
      * rewrite (bool_decide_eq_false_2 (is_Some _)) by (rewrite E; by intros []). rewrite lookup_insert_eq.
        rewrite (bool_decide_eq_true_2 (id ∈ id :: pending ∧ _)) by (split; [by left|done]). by case_bool_decide.
      * rewrite (bool_decide_eq_true_2 (is_Some _)) by (by destruct (blocked !! id); [eauto|]).
        by rewrite !bool_decide_eq_false_2 by naive_solver.
    + assert (bool_decide (id ∈ x :: pending ∧ blocked !! id = None) = bool_decide (id ∈ pending ∧ blocked !! id = None)) as ->
        by (apply bool_decide_ext; set_solver).
      case_bool_decide; [done|]. case_bool_decide; [done|]. by rewrite lookup_insert_ne.
Qed.

Lemma filter_length_all {A} (f : A → bool) xs :
  length (List.filter f xs) = length xs → ∀ x, x ∈ xs → f x = true.
Proof.
  induction xs as [|y xs IH]; simpl; [set_solver|]. pose proof (filter_length_le f xs).
  destruct (f y) eqn:E; simpl; [|lia]. intros [= Hl] x [->|Hx]%elem_of_cons; auto.
Qed.

(** The loop settles every pending node it can: what is left is blocked. *)
Lemma auto_passes_spec g flags passes pending out :
  (length pending < passes)%nat →
  let out' := auto_passes g flags passes pending out in
  (∀ id, id ∉ pending → out' !! id = out !! id) ∧
  (∀ id, id ∈ pending → out' !! id = Some StatusDone ∨
     (out' !! id = out !! id ∧ is_Some (blockedWithFlags g out' flags !! id))).
Proof.
  revert pending out. induction passes as [|passes IH]; intros pending out Hlen; [lia|].
  destruct pending as [|p pending]; cbn [auto_passes length]; cbv zeta; [split; [done|set_solver]|].
  set (blocked := blockedWithFlags g out flags).
  pose proof (auto_pass_out blocked (p :: pending) out) as Hout.
  set (f := λ id, bool_decide (is_Some (blocked !! id))).
  assert (Hnext : (auto_pass blocked (p :: pending) out).1 = List.filter f (p :: pending)) by done.
  assert (Hf : ∀ id, f id = true ↔ is_Some (blocked !! id)) by (intros; apply bool_decide_eq_true).
  destruct (auto_pass blocked (p :: pending) out) as [next out1]. cbn [fst snd] in Hnext, Hout.
  clearbody f. destruct (Nat.eqb_spec (length next) (S (length pending))) as [Hl|Hl].
  - assert (Hall : ∀ id, id ∈ p :: pending → is_Some (blocked !! id)).
    { intros id Hid. apply Hf. apply (filter_length_all f (p :: pending)); [|done]. by rewrite <- Hnext. }
    assert (out1 = out) as ->.
    { apply map_eq. intros id. rewrite Hout. rewrite bool_decide_eq_false_2; [done|].
      intros [Hid Hn]. destruct (Hall id Hid). congruence. }
    split; [done|]. intros id Hid. right. split; [done|by apply Hall].
  - assert (Hlt : (length next < passes)%nat).
    { pose proof (filter_length_le f (p :: pending)) as Hle. rewrite <- Hnext in Hle. simpl in *. lia. }
    assert (Hin : ∀ id, id ∈ next ↔ id ∈ p :: pending ∧ is_Some (blocked !! id)).
    { intros id. rewrite Hnext, elem_of_filter_bool, Hf. done. }
    destruct (IH next out1 Hlt) as [Hkeep Hpend]. split.
    + intros id Hid. rewrite Hkeep by (rewrite Hin; naive_solver). rewrite Hout.
      rewrite bool_decide_eq_false_2; [done|naive_solver].
    + intros id Hid. destruct (blocked !! id) as [why|] eqn:Eb.
      * destruct (Hpend id) as [?|[He Hb]]; [apply Hin; eauto|by left|right]. split; [|done].
        rewrite He, Hout, bool_decide_eq_false_2; [done|]. intros [_ ?]. congruence.
      * left. rewrite Hkeep by (rewrite Hin, Eb; by intros [_ []]). rewrite Hout, bool_decide_eq_true_2; done.
Qed.

Lemma initial_lookup g rs n :
  distinct_ids g → n ∈ node_list g →
  initial_statuses g rs !! n_ID n = Some (default StatusReady (explicit_status rs (n_ID n))).
Proof.
  intros Hd Hn.
  pose proof (fold_insert_node (λ n, Some (default StatusReady (explicit_status rs (n_ID n)))) g n Hd Hn) as Hf.
  exact Hf.
Qed.

Lemma elem_of_auto_ids g rs n :
  distinct_ids g → n ∈ node_list g →
  n_ID n ∈ auto_ids g rs ↔ explicit_status rs (n_ID n) = None ∧ is_auto g n = true.
Proof.
  intros Hd Hn. unfold auto_ids. rewrite list_elem_of_fmap. setoid_rewrite elem_of_filter_bool. split.
  - intros (m & He & Hm & Hf). rewrite (distinct_ids_inj g n m) by done.
    destruct (explicit_status rs (n_ID m)); [done|]. done.
  - intros [He Ha]. exists n. by rewrite He.
Qed.
End AutoFacts.

(** C31: the effective status of a node: its recorded status when its history
    gives a valid one; otherwise ready, unless its type completes by itself, in
    which case it is done or it is still held back once every other automatic
    node has settled. So the bounded loop always reaches a fixpoint: no
    automatic node is left waiting that nothing holds back. *)
Theorem compute_statuses_fixpoint `{Unicode} (g : Graph) (rs : option RunState) (n : Node)
    (Hids : distinct_ids g) (Hn : n ∈ node_list g) :
  let statuses := ComputeStatuses g rs in
  match explicit_status rs (n_ID n) with
  | Some s => statuses !! n_ID n = Some s
  | None =>
      if is_auto g n
      then statuses !! n_ID n = Some StatusDone ∨
           statuses !! n_ID n = Some StatusReady ∧
           is_Some (blockedWithFlags g statuses (EffectiveFlags g rs) !! n_ID n)
      else statuses !! n_ID n = Some StatusReady
  end.
Proof.
  simpl. pose proof (initial_lookup g rs n Hids Hn) as Hi. pose proof (elem_of_auto_ids g rs n Hids Hn) as Ha.
  unfold ComputeStatuses, deriveAutoStatuses.
  destruct (nonempty (auto_ids g rs)) eqn:En; cbn [negb].
  - destruct (auto_passes_spec g (EffectiveFlags g rs) (S (length (auto_ids g rs))) (auto_ids g rs) (initial_statuses g rs))
      as [Hkeep Hpend]; [lia|]. cbv zeta in Hkeep, Hpend. specialize (Hkeep (n_ID n)). rewrite Hi in Hkeep.
    destruct (explicit_status rs (n_ID n)) as [s|].
    + rewrite Hkeep; [done|]. by intros [? _]%Ha.
    + destruct (is_auto g n); [|rewrite Hkeep; [done|by intros [_ ?]%Ha]].
      destruct (Hpend (n_ID n)) as [?|[Hr ?]]; [by apply Ha|by left|right]. by rewrite Hr, Hi.
  - apply nonempty_false in En. rewrite Hi. rewrite En in Ha.
    destruct (explicit_status rs (n_ID n)); [done|]. destruct (is_auto g n); [|done].
    exfalso. assert (n_ID n ∈ []) by (by apply Ha). set_solver.
Qed.

Lemma compute_statuses_fixpoint_witness :
  let statuses := ComputeStatuses chain_graph None in
  match explicit_status None "z" with
  | Some s => statuses !! "z" = Some s
  | None =>
      if is_auto chain_graph (plain_node "z" "end" "b or n")
      then statuses !! "z" = Some StatusDone ∨
           statuses !! "z" = Some StatusReady ∧
           is_Some (blockedWithFlags chain_graph statuses (EffectiveFlags chain_graph None) !! "z")
      else statuses !! "z" = Some StatusReady
  end.
Proof.
  apply (compute_statuses_fixpoint chain_graph None (plain_node "z" "end" "b or n") chain_distinct).
  do 4 right. by left.
Defined.

(** * The readiness picture *)

Definition ready_of (v : verdict) : option ReadyNode := match v with IsReady e => Some e | _ => None end.
Definition blocked_of (v : verdict) : option ReadyNode := match v with IsBlocked e => Some e | _ => None end.
Definition is_busy (v : verdict) : bool := match v with IsBusy => true | _ => false end.

Lemma fold_verdicts (f : Node → verdict) (ns : list Node) r :
  foldl (λ r n, add_verdict r (f n)) r ns =
  mkReadiness (Ready r ++ omap (λ n, ready_of (f n)) ns) (BlockedNodes r ++ omap (λ n, blocked_of (f n)) ns)
    (Busy r + length (List.filter (λ n, is_busy (f n)) ns)).
Proof.
  revert r. induction ns as [|n ns IH]; intros r; simpl.
  - rewrite !(right_id_L [] (++)), Nat.add_0_r. by destruct r.
  - rewrite IH. destruct (f n); simpl; rewrite <- ?(assoc_L (++)); f_equal; lia.
Qed.

Section ReadinessFacts.
Context `{Unicode}.

Lemma omap_ids (f : Node → verdict) (sel : verdict → option ReadyNode) (ns : list Node) e :
  (∀ n e, sel (f n) = Some e → rn_ID e = n_ID n) →
  e ∈ omap (λ n, sel (f n)) ns → ∃ n, n ∈ ns ∧ sel (f n) = Some e ∧ rn_ID e = n_ID n.
Proof. intros Hf (n & Hn & He)%list_elem_of_omap. eauto. Qed.

Lemma omap_NoDup (f : Node → verdict) (sel : verdict → option ReadyNode) (ns : list Node) :
  (∀ n e, sel (f n) = Some e → rn_ID e = n_ID n) →
  NoDup (n_ID <$> ns) → NoDup (rn_ID <$> omap (λ n, sel (f n)) ns).
Proof.
  intros Hf. induction ns as [|n ns IH]; simpl; [constructor|]. intros [Hn Hnd]%NoDup_cons.
  destruct (sel (f n)) as [e|] eqn:E; simpl; [|by apply IH]. constructor; [|by apply IH].
  intros (e' & He & Hin)%list_elem_of_fmap.
  apply (omap_ids f sel) in Hin as (m & Hm & _ & Hid); [|done]. destruct Hn.
  rewrite <- (Hf n e E), He, Hid. by apply list_elem_of_fmap_2.
Qed.

Lemma judge_ids g statuses blocked n e :
  (ready_of (judge g statuses blocked n) = Some e → rn_ID e = n_ID n) ∧
  (blocked_of (judge g statuses blocked n) = Some e → rn_ID e = n_ID n).
Proof.
  unfold judge. destruct (negb (countable g n)); [done|].
  destruct (negb (String.eqb _ _)); [done|]. destruct (blocked !! n_ID n); simpl; split; by intros [= <-].
Qed.

Lemma judge_ready g statuses blocked n e :
  ready_of (judge g statuses blocked n) = Some e ↔
  countable g n = true ∧ statusOf statuses (n_ID n) = StatusReady ∧ blocked !! n_ID n = None ∧ e = base_entry g n.
Proof.
  unfold judge. destruct (countable g n); simpl; [|naive_solver].
  destruct (String.eqb_spec (statusOf statuses (n_ID n)) StatusReady); simpl; [|naive_solver].
  destruct (blocked !! n_ID n); simpl; naive_solver.
Qed.

Lemma judge_blocked g statuses blocked n e :
  blocked_of (judge g statuses blocked n) = Some e ↔
  countable g n = true ∧ statusOf statuses (n_ID n) = StatusReady ∧
  ∃ why, blocked !! n_ID n = Some why ∧ e = blocked_entry (base_entry g n) why (readinessGates (Some g) !! n_ID n).
Proof.
  unfold judge. destruct (countable g n); simpl; [|naive_solver].
  destruct (String.eqb_spec (statusOf statuses (n_ID n)) StatusReady); simpl; [|naive_solver].
  destruct (blocked !! n_ID n); simpl; naive_solver.
Qed.

(** The lists of ComputeReadiness before sorting. *)
Definition verdict_of (g : Graph) (rs : option RunState) (n : Node) : verdict :=
  let statuses := ComputeStatuses g rs in
  judge g statuses (blockedWithFlags g statuses (EffectiveFlags g rs)) n.

Lemma readiness_eq g rs :
  ComputeReadiness (Some g) rs =
  mkReadiness (sortTasks (omap (λ n, ready_of (verdict_of g rs n)) (node_list g)))
    (sortTasks (omap (λ n, blocked_of (verdict_of g rs n)) (node_list g)))
    (length (List.filter (λ n, is_busy (verdict_of g rs n)) (node_list g))).
Proof. unfold ComputeReadiness. by rewrite (fold_verdicts (verdict_of g rs)). Qed.

Lemma verdict_count (f : Node → verdict) (count : Node → bool) (ns : list Node) :
  (∀ n, count n = match f n with NotCounted => false | _ => true end) →
  (length (omap (λ n, ready_of (f n)) ns) + length (omap (λ n, blocked_of (f n)) ns)
   + length (List.filter (λ n, is_busy (f n)) ns) = length (List.filter count ns))%nat.
Proof.
  intros Hc. induction ns as [|n ns IH]; [done|]. csimpl. rewrite Hc. destruct (f n); csimpl; lia.
Qed.
End ReadinessFacts.

(** C4: every node people or agents can work on is in exactly one of ready,
    blocked and busy, and none is listed twice; a ready entry is an open node
    whose own condition holds, a blocked entry one whose condition does not,
    and both lists are in queue order. *)
Theorem readiness_partition `{Unicode} (g : Graph) (rs : option RunState) (Hids : distinct_ids g) :
  let r := ComputeReadiness (Some g) rs in
  let done := done_ids g (ComputeStatuses g rs) in
  let flags := EffectiveFlags g rs in
  (length (Ready r) + length (BlockedNodes r) + Busy r = length (List.filter (countable g) (node_list g)))%nat ∧
  NoDup ((rn_ID <$> Ready r) ++ (rn_ID <$> BlockedNodes r)) ∧
  (∀ e, e ∈ Ready r → ∃ n, n ∈ node_list g ∧ rn_ID e = n_ID n ∧ countable g n = true ∧
     statusOf (ComputeStatuses g rs) (n_ID n) = StatusReady ∧
     (Settled StatusReady (statusDefinitions (Some g)) = true ∨ condition_holds g done flags n)) ∧
  (∀ e, e ∈ BlockedNodes r → ∃ n, n ∈ node_list g ∧ rn_ID e = n_ID n ∧ countable g n = true ∧
     statusOf (ComputeStatuses g rs) (n_ID n) = StatusReady ∧ ¬ condition_holds g done flags n) ∧
  StronglySorted task_le (Ready r) ∧ StronglySorted task_le (BlockedNodes r).
Proof.
  rewrite readiness_eq. cbn [Ready BlockedNodes Busy]. cbv zeta.
  set (rl := omap (λ n, ready_of (verdict_of g rs n)) (node_list g)).
  set (bl := omap (λ n, blocked_of (verdict_of g rs n)) (node_list g)).
  assert (Hr : ∀ e, e ∈ rl → ∃ n, n ∈ node_list g ∧ ready_of (verdict_of g rs n) = Some e ∧ rn_ID e = n_ID n).
  { intros e. apply (omap_ids (verdict_of g rs) ready_of). intros n e'. apply judge_ids. }
  assert (Hb : ∀ e, e ∈ bl → ∃ n, n ∈ node_list g ∧ blocked_of (verdict_of g rs n) = Some e ∧ rn_ID e = n_ID n).
  { intros e. apply (omap_ids (verdict_of g rs) blocked_of). intros n e'. apply judge_ids. }
  split_and!; [| | | |apply sortTasks_sorted..].
  - rewrite !sortTasks_perm. apply verdict_count. intros n. unfold verdict_of, judge.
    destruct (countable g n); simpl; [|done]. destruct (negb _); [done|]. by destruct (_ !! _).
  - rewrite !sortTasks_perm. apply NoDup_app. split_and!.
    + apply (omap_NoDup (verdict_of g rs) ready_of); [|done]. intros n e. apply judge_ids.
    + intros id (e & -> & He)%list_elem_of_fmap (e' & Hid & He')%list_elem_of_fmap.
      apply Hr in He as (n & Hn & Hv & Hidn). apply Hb in He' as (m & Hm & Hv' & Hidm).
      assert (n = m) as -> by (apply (distinct_ids_inj g); congruence).
      apply judge_ready in Hv as (_ & _ & Hnone & _). apply judge_blocked in Hv' as (_ & _ & why & Hsome & _). congruence.
    + apply (omap_NoDup (verdict_of g rs) blocked_of); [|done]. intros n e. apply judge_ids.
  - intros e He. rewrite sortTasks_perm in He. apply Hr in He as (n & Hn & Hv & Hid).
    apply judge_ready in Hv as (Hc & Hs & Hnone & _). exists n. split_and!; [done..|].
    rewrite (blocked_lookup _ _ _ _ Hids Hn) in Hnone. unfold countable in Hc. bool_to_prop. rewrite H0 in Hnone.
    simpl in Hnone. unfold settled_node in Hnone. rewrite Hs in Hnone.
    destruct (Settled StatusReady _); [by left|right]. by apply held_back_None.
  - intros e He. rewrite sortTasks_perm in He. apply Hb in He as (n & Hn & Hv & Hid).
    apply judge_blocked in Hv as (Hc & Hs & why & Hsome & _). exists n. split_and!; [done..|].
    rewrite <- held_back_None. rewrite (blocked_lookup _ _ _ _ Hids Hn) in Hsome.
    destruct (no_status g n || _); [done|]. by rewrite Hsome.
Qed.

Lemma readiness_partition_witness :
  let r := ComputeReadiness (Some chain_graph) None in
  let done := done_ids chain_graph (ComputeStatuses chain_graph None) in
  let flags := EffectiveFlags chain_graph None in
  (length (Ready r) + length (BlockedNodes r) + Busy r = length (List.filter (countable chain_graph) (node_list chain_graph)))%nat ∧
  NoDup ((rn_ID <$> Ready r) ++ (rn_ID <$> BlockedNodes r)) ∧
  (∀ e, e ∈ Ready r → ∃ n, n ∈ node_list chain_graph ∧ rn_ID e = n_ID n ∧ countable chain_graph n = true ∧
     statusOf (ComputeStatuses chain_graph None) (n_ID n) = StatusReady ∧
     (Settled StatusReady (statusDefinitions (Some chain_graph)) = true ∨ condition_holds chain_graph done flags n)) ∧
  (∀ e, e ∈ BlockedNodes r → ∃ n, n ∈ node_list chain_graph ∧ rn_ID e = n_ID n ∧ countable chain_graph n = true ∧
     statusOf (ComputeStatuses chain_graph None) (n_ID n) = StatusReady ∧ ¬ condition_holds chain_graph done flags n) ∧
  StronglySorted task_le (Ready r) ∧ StronglySorted task_le (BlockedNodes r).
Proof. apply (readiness_partition chain_graph None chain_distinct). Defined.
