(* ===== verification/Dag.v ===== *)
(** A goal's tasks and their order (internal/autopilot/dag.go): the members a
    goal waits on or is tagged with, the required edges among them, and Kahn's
    order.  Go ranges over a map in any order; here the order is that of
    [map_to_list], and the result does not depend on it. *)

From S2P Require Import Prelude GoStr GoFloat Dsl Graph NodeTypes Workflow State Readiness.
From Stdlib Require Import Ascii.
Open Scope Z_scope.

(** dag; [dg_graph] is what typeOf closes over. *)
Record dag := mkDag {
  dg_goal : string;
  dg_order : list string;
  dg_upstream : gmap string (list string);
  dg_nodes : gmap string Node;
  dg_graph : option Graph;
}.

Definition dag_up (d : dag) (id : string) : list string := default [] (dg_upstream d !! id).

(** title: a member's title, or its id. *)
Definition dag_title (d : dag) (id : string) : string :=
  match dg_nodes d !! id with
  | Some n => if String.eqb (n_Title n) EmptyString then id else n_Title n
  | None => id
  end.

Definition has_str (id : string) (ids : list string) : bool := existsb (String.eqb id) ids.

Section Dag.
Context `{Unicode}.

(** * Members *)

Definition no_status_id (g : Graph) (id : string) : bool :=
  match NodeByID g id with Some n => no_status g n | None => false end.

(** into: what each node waits on, deprecated edges and self-loops apart. *)
Definition into_of (g : Graph) : gmap string (list string) :=
  foldl (λ into e, if IsPrerequisite (Some e) && negb (String.eqb (e_From e) (e_To e))
                   then <[e_To e := default [] (into !! e_To e) ++ [e_From e]]> into else into)
    ∅ (edge_list g).

(** A node that can be a member. *)
Definition eligible (g : Graph) (goal id : string) : bool :=
  negb (String.eqb id goal) && bool_decide (is_Some (NodeByID g id)) && negb (no_status_id g id).

(** The nodes [froms] that become members, and the queue with them. *)
Fixpoint enqueue (g : Graph) (goal : string) (froms queue : list string) (members : gset string)
    : list string * gset string :=
  match froms with
  | [] => (queue, members)
  | from :: froms' =>
      if negb (eligible g goal from) || bool_decide (from ∈ members) then enqueue g goal froms' queue members
      else enqueue g goal froms' (queue ++ [from]) ({[ from ]} ∪ members)
  end.

(** The breadth-first loop; every member is queued once, so a fuel of the
    number of nodes, and one for the goal, is enough. *)
Fixpoint collect (fuel : nat) (g : Graph) (goal : string) (into : gmap string (list string)) (queue : list string)
    (members : gset string) : option (gset string) :=
  match queue with
  | [] => Some members
  | id :: queue' =>
      match fuel with
      | O => None
      | S fuel' =>
          let '(queue'', members') := enqueue g goal (default [] (into !! id)) queue' members in
          collect fuel' g goal into queue'' members'
      end
  end.

(** Tagged as one of the goal's tasks. *)
Definition tagged (g : Graph) (goal : string) (n : Node) : bool :=
  negb (String.eqb (n_ID n) goal) && negb (no_status_id g (n_ID n))
  && existsb (λ t, EqualFold (trim_space t) (GoalTag goal)) (n_Tags n).

Definition members_of (g : Graph) (goal : string) : option (gset string) :=
  members ← collect (S (length (node_list g))) g goal (into_of g) [goal] ∅;
  Some (members ∪ list_to_set (n_ID <$> List.filter (tagged g goal) (node_list g))).

(** The required edges among the members, each upstream once and sorted. *)
Definition upstream_of (g : Graph) (members : gset string) : gmap string (list string) :=
  merge_sort String.le <$>
  foldl (λ up e, if Blocks (Some e) && bool_decide (e_From e ∈ members) && bool_decide (e_To e ∈ members)
                    && negb (String.eqb (e_From e) (e_To e)) && negb (has_str (e_From e) (default [] (up !! e_To e)))
                 then <[e_To e := default [] (up !! e_To e) ++ [e_From e]]> up else up)
    ∅ (edge_list g).

Definition nodes_of (g : Graph) (members : gset string) : gmap string Node :=
  list_to_map (omap (λ id, (λ n, (id, n)) <$> NodeByID g id) (elements members)).

(** * Order *)

(** The comparison of topoOrder: title without case, then id. *)
Definition dag_less (d : dag) (a b : string) : bool :=
  let ta := to_lower (dag_title d a) in
  let tb := to_lower (dag_title d b) in
  if negb (String.eqb ta tb) then string_ltb ta tb else string_ltb a b.

Definition member_ids (d : dag) : list string := (map_to_list (dg_nodes d)).*1.

Definition indegrees (d : dag) : gmap string Z :=
  list_to_map ((λ id, (id, Z.of_nat (length (dag_up d id)))) <$> member_ids d).

(** down: the members that wait on a member. *)
Definition dag_down (d : dag) (up : string) : list string :=
  List.filter (λ id, has_str up (dag_up d id)) (member_ids d).

(** One decrement of the inner loop. *)
Definition settle_one (st : list string * gmap string Z) (next : string) : list string * gmap string Z :=
  let n := default 0 (st.2 !! next) - 1 in
  (if n =? 0 then st.1 ++ [next] else st.1, <[next := n]> st.2).

Fixpoint kahn (fuel : nat) (d : dag) (ready : list string) (indegree : gmap string Z) (order : list string)
    : option (list string) :=
  match slice_stable (dag_less d) ready with
  | [] => Some order
  | id :: ready' =>
      match fuel with
      | O => None
      | S fuel' =>
          let '(ready'', indegree') := foldl settle_one (ready', indegree) (dag_down d id) in
          kahn fuel' d ready'' indegree' (order ++ [id])
      end
  end.

Definition topoOrder (d : dag) : option (list string) :=
  let indegree := indegrees d in
  let ready := List.filter (λ id, default 0 (indegree !! id) =? 0) (member_ids d) in
  order ← kahn (length (member_ids d)) d ready indegree [];
  Some (order ++ slice_stable (dag_less d) (List.filter (λ id, negb (has_str id order)) (member_ids d))).

Definition with_order (d : dag) (order : list string) : dag :=
  mkDag (dg_goal d) order (dg_upstream d) (dg_nodes d) (dg_graph d).

(** buildDAG; [None] is the model out of fuel, which does not happen. *)
Definition buildDAG (g : option Graph) (goal : string) : option dag :=
  let empty := mkDag goal [] ∅ ∅ g in
  match g with
  | None => Some empty
  | Some g' =>
      match NodeByID g' goal with
      | None => Some empty
      | Some _ =>
          members ← members_of g' goal;
          let d := mkDag goal [] (upstream_of g' members) (nodes_of g' members) g in
          order ← topoOrder d;
          Some (with_order d order)
      end
  end.

(** * Readers *)

Record Member := mkMember { m_ID : string; m_Title : string; m_Kind : string; m_After : list string }.

Definition GoalMembers (g : option Graph) (goal : string) : option (list Member) :=
  d ← buildDAG g goal;
  Some ((λ id, mkMember id (dag_title d id) (match dg_nodes d !! id with Some n => n_Kind n | None => EmptyString end)
                 (dag_up d id)) <$> dg_order d).

(** nodeType. *)
Definition dag_type (d : dag) (id : string) : NodeType := TypeOf (dg_graph d) (dg_nodes d !! id).

Definition dispatchable (d : dag) (id : string) : bool :=
  match dg_nodes d !! id with
  | Some _ => String.eqb (nt_AgentMode (dag_type d id)) AgentDispatch
  | None => false
  end.

(** inCycle: whether the walk upstream from a member comes back to it; [None]
    is the model out of fuel, which the number of nodes keeps from happening. *)
Fixpoint walk_up (fuel : nat) (d : dag) (id cur : string) (seen : gset string) : option (bool * gset string) :=
  match fuel with
  | O => None
  | S fuel' =>
      (fix each (ups : list string) (seen : gset string) : option (bool * gset string) :=
         match ups with
         | [] => Some (false, seen)
         | up :: ups' =>
             if String.eqb up id then Some (true, seen)
             else if bool_decide (up ∈ seen) then each ups' seen
             else match walk_up fuel' d id up ({[ up ]} ∪ seen) with
                  | Some (false, seen') => each ups' seen'
                  | found => found
                  end
         end) (dag_up d cur) seen
  end.

Definition walk_fuel (d : dag) : nat := S (size (list_to_set (concat (map_to_list (dg_upstream d)).*2) : gset string)).

Definition inCycle (d : dag) (id : string) : bool :=
  match walk_up (walk_fuel d) d id id ∅ with Some (found, _) => found | None => false end.

Definition externalBlockers (g : option Graph) (rs : option RunState) (d : dag) (id : string) : list string :=
  match g with
  | None => []
  | Some g' =>
      List.filter (λ b, bool_decide (dg_nodes d !! b = None) && negb (String.eqb b (dg_goal d)))
        (default [] (Blocked g (ComputeStatuses g' rs) !! id))
  end.
End Dag.
