(* ===== verification/DagFacts.v ===== *)
(** What a goal's plan guarantees: its members are exactly the nodes it waits
    on or is tagged with, and the order lists every member once, after all it
    waits on, with the members that can never start at the end. *)

From S2P Require Import Prelude GoStr GoFloat Dsl Graph NodeTypes Workflow State Readiness ReadyFacts Dag.
From stdpp Require Import relations.
From Stdlib Require Import Ascii PeanoNat.
Open Scope Z_scope.

Lemma has_str_spec id ids : has_str id ids = true ↔ id ∈ ids.
Proof.
  unfold has_str. rewrite existsb_exists. split.
  - intros (x & Hx & He). apply String.eqb_eq in He as <-. by apply list_elem_of_In.
  - intros Hi. exists id. split; [by apply list_elem_of_In|apply String.eqb_refl].
Qed.

Lemma has_str_false id ids : has_str id ids = false ↔ id ∉ ids.
Proof. rewrite <- not_true_iff_false, has_str_spec. done. Qed.

(** * Kahn's order *)

Section Kahn.
Context `{Unicode} (d : dag).
Context (Hup_nodup : ∀ v, NoDup (dag_up d v)).
Context (Hup_members : ∀ v u, v ∈ member_ids d → u ∈ dag_up d v → u ∈ member_ids d).

(** The upstream members not yet in the order. *)
Definition left_of (order : list string) (v : string) : nat :=
  length (List.filter (λ u, negb (has_str u order)) (dag_up d v)).

Lemma left_of_zero order v : left_of order v = 0%nat ↔ ∀ u, u ∈ dag_up d v → u ∈ order.
Proof.
  unfold left_of. split.
  - intros Hl u Hu. apply length_zero_iff_nil in Hl. apply has_str_spec.
    destruct (has_str u order) eqn:E; [done|]. exfalso.
    assert (u ∈ List.filter (λ u, negb (has_str u order)) (dag_up d v)) as Hin
      by (apply elem_of_list_filter; by rewrite E).
    rewrite Hl in Hin. by apply elem_of_nil in Hin.
  - intros Hall. apply length_zero_iff_nil. destruct (List.filter _ _) as [|u us] eqn:E; [done|].
    assert (u ∈ List.filter (λ u, negb (has_str u order)) (dag_up d v)) as Hu by (rewrite E; by left).
    apply elem_of_list_filter in Hu as [Hn Hu]. apply Hall, has_str_spec in Hu. by rewrite Hu in Hn.
Qed.

Lemma left_step (us order : list string) id :
  NoDup us → id ∉ order →
  length (List.filter (λ u, negb (has_str u order)) us) =
  (length (List.filter (λ u, negb (has_str u (order ++ [id]))) us) + (if has_str id us then 1 else 0))%nat.
Proof.
  intros Hnd Hid. induction us as [|u us IH]; [done|]. apply NoDup_cons in Hnd as [Hu Hnd]. simpl.
  specialize (IH Hnd). assert (has_str u (order ++ [id]) = has_str u order || String.eqb u id) as ->.
  { unfold has_str. rewrite existsb_app. simpl. by rewrite orb_false_r. }
  destruct (String.eqb_spec u id) as [->|Hne].
  - apply has_str_false in Hid as ->. rewrite orb_true_r. simpl. rewrite String.eqb_refl. simpl.
    apply has_str_false in Hu. rewrite Hu in IH. lia.
  - rewrite orb_false_r, (proj2 (String.eqb_neq id u)) by congruence. simpl.
    destruct (has_str u order); simpl; lia.
Qed.

Lemma left_of_step order id v :
  id ∉ order → left_of order v = (left_of (order ++ [id]) v + (if has_str id (dag_up d v) then 1 else 0))%nat.
Proof. intros Hid. by apply left_step. Qed.

(** The inner loop. *)
Lemma settle_fold xs r m :
  NoDup xs →
  (foldl settle_one (r, m) xs).1 = r ++ List.filter (λ v, default 0 (m !! v) - 1 =? 0) xs ∧
  ∀ v, default 0 ((foldl settle_one (r, m) xs).2 !! v) = default 0 (m !! v) - (if has_str v xs then 1 else 0).
Proof.
  revert r m. induction xs as [|x xs IH]; intros r m Hnd; simpl; [split; [by rewrite app_nil_r|intros v; lia]|].
  apply NoDup_cons in Hnd as [Hx Hnd]. unfold settle_one at 2 4. cbn [fst snd].
  destruct (IH (if default 0 (m !! x) - 1 =? 0 then r ++ [x] else r) (<[x := default 0 (m !! x) - 1]> m) Hnd) as [Hr Hm].
  rewrite Hr. split.
  - assert (List.filter (λ v, default 0 (<[x := default 0 (m !! x) - 1]> m !! v) - 1 =? 0) xs
            = List.filter (λ v, default 0 (m !! v) - 1 =? 0) xs) as ->.
    { apply filter_ext_in. intros v Hv. rewrite lookup_insert_ne; [done|]. intros ->. by apply Hx, list_elem_of_In. }
    destruct (default 0 (m !! x) - 1 =? 0); [by rewrite <- app_assoc|done].
  - intros v. rewrite Hm. destruct (String.eqb_spec v x) as [->|Hne]; simpl.
    + rewrite lookup_insert_eq. apply has_str_false in Hx as ->. simpl. lia.
    + by rewrite lookup_insert_ne by done.
Qed.

Record kahn_inv (ready : list string) (deg : gmap string Z) (order : list string) : Prop := {
  k_nodup : NoDup (order ++ ready);
  k_members : ∀ v, v ∈ order ++ ready → v ∈ member_ids d;
  k_degree : ∀ v, v ∈ member_ids d → default 0 (deg !! v) = Z.of_nat (left_of order v);
  k_ready : ∀ v, v ∈ ready → left_of order v = 0%nat;
  k_complete : ∀ v, v ∈ member_ids d → left_of order v = 0%nat → v ∈ order ++ ready;
  k_sorted : ∀ i v, order !! i = Some v → ∀ u, u ∈ dag_up d v → u ∈ take i order;
}.

Lemma member_ids_nodup : NoDup (member_ids d).
Proof. apply NoDup_fst_map_to_list. Qed.

Lemma elem_of_down id v : v ∈ dag_down d id ↔ id ∈ dag_up d v ∧ v ∈ member_ids d.
Proof. unfold dag_down. by rewrite elem_of_list_filter, has_str_spec. Qed.

Lemma down_nodup id : NoDup (dag_down d id).
Proof. apply NoDup_filter_bool, member_ids_nodup. Qed.

(** A sort of the ready list changes nothing. *)
Lemma kahn_inv_perm ready ready' deg order : ready ≡ₚ ready' → kahn_inv ready deg order → kahn_inv ready' deg order.
Proof. intros Hp [H1 H2 H3 H4 H5 H6]. split; try done; setoid_rewrite <- Hp; done. Qed.

Lemma kahn_step id ready deg order :
  kahn_inv (id :: ready) deg order →
  let st := foldl settle_one (ready, deg) (dag_down d id) in kahn_inv st.1 st.2 (order ++ [id]).
Proof.
  intros [Hnd Hmem Hdeg Hready Hcomp Hsort]. cbv zeta.
  destruct (settle_fold (dag_down d id) ready deg (down_nodup id)) as [Hr Hm].
  destruct (foldl settle_one (ready, deg) (dag_down d id)) as [r m]. cbn [fst snd] in *. subst r.
  assert (id ∉ order ∧ id ∉ ready) as [Hio Hir].
  { apply NoDup_app in Hnd as (_ & Hd & Hn). split; [|by apply NoDup_cons in Hn as [? _]]. intros Hin. apply (Hd _ Hin). by left. }
  assert (∀ v, v ∈ member_ids d → has_str v (dag_down d id) = has_str id (dag_up d v)) as Hdown.
  { intros v Hv. apply eq_true_iff_eq. rewrite !has_str_spec, elem_of_down. naive_solver. }
  assert (∀ v, v ∈ member_ids d → default 0 (m !! v) = Z.of_nat (left_of (order ++ [id]) v)) as Hdeg'.
  { intros v Hv. rewrite Hm, Hdown, Hdeg, (left_of_step order id v) by done. destruct (has_str id _); lia. }
  set (fresh := List.filter _ (dag_down d id)).
  assert (∀ v, v ∈ fresh ↔ v ∈ member_ids d ∧ id ∈ dag_up d v ∧ left_of (order ++ [id]) v = 0%nat) as Hfresh.
  { intros v. unfold fresh. rewrite elem_of_list_filter, elem_of_down, Z.eqb_eq. split.
    - intros (Hz & Hu & Hv). split_and!; [done|done|]. rewrite Hdeg, (left_of_step order id v) in Hz by done.
      apply has_str_spec in Hu. rewrite Hu in Hz. lia.
    - intros (Hv & Hu & Hz). split_and!; [|done|done]. rewrite Hdeg, (left_of_step order id v) by done.
      apply has_str_spec in Hu. rewrite Hu. lia. }
  assert (∀ v, v ∈ fresh → v ∉ order ++ id :: ready) as Hnew.
  { intros v [Hv [Hu Hz]]%Hfresh Hin. apply elem_of_app in Hin as [Hin|Hin].
    - apply list_elem_of_lookup in Hin as [i Hi]. apply (Hsort _ _ Hi) in Hu. apply Hio. by eapply elem_of_take in Hu as (? & Hu & _); apply list_elem_of_lookup_2 in Hu.
    - apply Hready in Hin. rewrite left_of_zero in Hin. apply Hin in Hu. done. }
  split.
  - rewrite <- app_assoc. cbn [app]. rewrite app_comm_cons, app_assoc. apply NoDup_app. split_and!; [done| |].
    + intros v Hin Hf. by apply Hnew in Hf.
    + apply NoDup_filter_bool, down_nodup.
  - intros v Hv. rewrite <- app_assoc in Hv. cbn [app] in Hv. rewrite app_comm_cons, app_assoc in Hv.
    apply elem_of_app in Hv as [Hv|Hv]; [by apply Hmem|by apply Hfresh in Hv as [? _]].
  - done.
  - intros v [Hv|Hv]%elem_of_app; [|by apply Hfresh in Hv as (_ & _ & ?)].
    assert (left_of order v = 0%nat) as Hz by (apply Hready; by right). rewrite (left_of_step order id v Hio) in Hz. lia.
  - intros v Hv Hz. destruct (decide (id ∈ dag_up d v)) as [Hu|Hu].
    + apply elem_of_app. right. apply elem_of_app. right. by apply Hfresh.
    + apply has_str_false in Hu. assert (left_of order v = 0%nat) as Hz'.
      { rewrite (left_of_step order id v Hio), Hu. lia. }
      specialize (Hcomp v Hv Hz'). set_solver.
  - intros i v Hi u Hu. apply lookup_app_Some in Hi as [Hi|[Hle Hi]].
    + apply lookup_lt_Some in Hi as Hlt. rewrite take_app_le by lia. by eapply Hsort.
    + apply list_lookup_singleton_Some in Hi as [Hi ->]. rewrite take_app_le, take_ge by lia.
      assert (left_of order v = 0%nat) as Hz by (apply Hready; by left). rewrite left_of_zero in Hz. by apply Hz.
Qed.

Lemma kahn_bound ready deg order : kahn_inv ready deg order → (length order + length ready ≤ length (member_ids d))%nat.
Proof.
  intros [Hnd Hmem _ _ _ _]. rewrite <- length_app. apply submseteq_length, NoDup_submseteq; done.
Qed.

Lemma kahn_total fuel ready deg order :
  kahn_inv ready deg order → (length (member_ids d) ≤ fuel + length order)%nat →
  ∃ order' deg', kahn fuel d ready deg order = Some order' ∧ kahn_inv [] deg' order'.
Proof.
  revert ready deg order. induction fuel as [|fuel IH]; intros ready deg order Hk Hf;
    pose proof (slice_stable_perm (dag_less d) ready) as Hp; simpl;
    destruct (slice_stable (dag_less d) ready) as [|id ready'] eqn:E.
  - exists order, deg. split; [done|]. by apply (kahn_inv_perm ready).
  - apply kahn_bound in Hk. rewrite <- Hp in Hk. simpl in *. lia.
  - exists order, deg. split; [done|]. by apply (kahn_inv_perm ready).
  - apply (kahn_inv_perm _ (id :: ready')) in Hk; [|done]. apply kahn_step in Hk. cbv zeta in Hk.
    destruct (foldl settle_one (ready', deg) (dag_down d id)) as [r m]. apply IH; [done|].
    rewrite length_app. simpl. lia.
Qed.

Lemma indegrees_lookup v : v ∈ member_ids d → default 0 (indegrees d !! v) = Z.of_nat (left_of [] v).
Proof.
  intros Hv. unfold indegrees.
  assert ((list_to_map ((λ id, (id, Z.of_nat (length (dag_up d id)))) <$> member_ids d) : gmap string Z) !! v
          = Some (Z.of_nat (length (dag_up d v)))) as ->.
  { apply elem_of_list_to_map_1.
    - rewrite <- list_fmap_compose. cbn. rewrite list_fmap_id. apply member_ids_nodup.
    - apply list_elem_of_fmap. by exists v. }
  cbn. unfold left_of. f_equal. f_equal. simpl. induction (dag_up d v) as [|u us IH]; [done|]. simpl. by f_equal.
Qed.

Lemma kahn_start :
  kahn_inv (List.filter (λ id, default 0 (indegrees d !! id) =? 0) (member_ids d)) (indegrees d) [].
Proof.
  split; simpl; try done.
  - apply NoDup_filter_bool, member_ids_nodup.
  - intros v [_ Hv]%elem_of_list_filter. done.
  - intros v Hv. by apply indegrees_lookup.
  - intros v [Hz Hv]%elem_of_list_filter. rewrite indegrees_lookup in Hz by done. lia.
  - intros v Hv Hz. apply elem_of_list_filter. split; [|done]. rewrite indegrees_lookup, Hz by done. done.
Qed.

(** The members that can start in turn, and the rest. *)
Record ordered (sched stuck : list string) : Prop := {
  o_perm : sched ++ stuck ≡ₚ member_ids d;
  o_sched : ∀ i v, sched !! i = Some v → ∀ u, u ∈ dag_up d v → u ∈ take i sched;
  o_stuck : ∀ v, v ∈ stuck → ∃ u, u ∈ stuck ∧ u ∈ dag_up d v;
}.

Lemma topoOrder_ordered : ∃ sched stuck, topoOrder d = Some (sched ++ stuck) ∧ ordered sched stuck.
Proof.
  unfold topoOrder. destruct (kahn_total (length (member_ids d)) _ _ _ kahn_start) as (order & deg & -> & Hk); [simpl; lia|].
  simpl. destruct Hk as [Hnd Hmem _ _ Hcomp Hsort]. rewrite app_nil_r in *.
  eexists order, _. split; [done|]. split.
  - rewrite slice_stable_perm. apply NoDup_Permutation; [|apply member_ids_nodup|].
    + apply NoDup_app. split_and!; [done| |apply NoDup_filter_bool, member_ids_nodup].
      intros v Hv [Hn _]%elem_of_list_filter. apply has_str_spec in Hv. by rewrite Hv in Hn.
    + intros v. rewrite elem_of_app, elem_of_list_filter. split; [intros [Hv|[_ Hv]]; [by apply Hmem|done]|].
      intros Hv. destruct (has_str v order) eqn:E; [left; by apply has_str_spec|by right].
  - done.
  - intros v Hv. rewrite slice_stable_perm in Hv. apply elem_of_list_filter in Hv as [Hv Hm].
    destruct (left_of order v) eqn:E.
    + apply Hcomp in E; [|done]. apply has_str_spec in E. by rewrite E in Hv.
    + unfold left_of in E. destruct (List.filter _ _) as [|u us] eqn:Ef; [done|].
      assert (u ∈ List.filter (λ u, negb (has_str u order)) (dag_up d v)) as Hu by (rewrite Ef; by left).
      apply elem_of_list_filter in Hu as [Hn Hu]. exists u. split; [|done]. rewrite slice_stable_perm.
      apply elem_of_list_filter. split; [done|]. by eapply Hup_members.
Qed.

(** The scheduled members are those that wait on no cycle. *)
Lemma ordered_acc sched stuck v :
  ordered sched stuck → v ∈ member_ids d → v ∈ sched ↔ Acc (λ u v, u ∈ dag_up d v) v.
Proof.
  intros [Hp Hs Hk] Hv. split.
  - intros Hin. apply list_elem_of_lookup in Hin as [i Hi]. revert v Hv Hi.
    induction i as [i IH] using lt_wf_ind. intros v Hv Hi. constructor. intros u Hu.
    apply (Hs _ _ Hi) in Hu as Ht. apply elem_of_take in Ht as (j & Hj & Hlt). eapply IH; [apply Hlt| |done].
    by eapply Hup_members.
  - intros Ha. destruct (decide (v ∈ stuck)) as [Hst|Hst].
    + exfalso. clear Hv. induction Ha as [v _ IH]. destruct (Hk v Hst) as (u & Hu & Huv). by eapply IH.
    + rewrite <- Hp in Hv. apply elem_of_app in Hv as [?|?]; done.
Qed.
End Kahn.

(** * Edges among members *)

Lemma exists_nil {A} (P : A → Prop) : (∃ e, e ∈ [] ∧ P e) ↔ False.
Proof. split; [|done]. intros (e & He & _). by apply elem_of_nil in He. Qed.

Lemma exists_cons {A} (P : A → Prop) x xs : (∃ e, e ∈ x :: xs ∧ P e) ↔ P x ∨ ∃ e, e ∈ xs ∧ P e.
Proof.
  split.
  - intros (e & [->|He]%elem_of_cons & Hp); [by left|right; by exists e].
  - intros [Hp|(e & He & Hp)]; [exists x; split; [by left|done]|exists e; split; [by right|done]].
Qed.

Section Edges.
Context `{Unicode} (g : Graph).

(** [e] makes its target wait on its source. *)
Definition prerequisite (u v : string) : Prop :=
  u ≠ v ∧ ∃ e, e ∈ edge_list g ∧ IsPrerequisite (Some e) = true ∧ e_From e = u ∧ e_To e = v.

Definition required (u v : string) : Prop :=
  u ≠ v ∧ ∃ e, e ∈ edge_list g ∧ Blocks (Some e) = true ∧ e_From e = u ∧ e_To e = v.

Lemma into_of_spec u v : u ∈ default [] (into_of g !! v) ↔ prerequisite u v.
Proof.
  unfold into_of, prerequisite. set (step := λ _ _, _).
  assert (∀ es m, u ∈ default [] (foldl step m es !! v) ↔
            u ∈ default [] (m !! v) ∨
            u ≠ v ∧ ∃ e, e ∈ es ∧ IsPrerequisite (Some e) = true ∧ e_From e = u ∧ e_To e = v) as Hf.
  { induction es as [|e es IH]; intros m; cbn [foldl]; [rewrite exists_nil; tauto|]. rewrite IH, exists_cons. unfold step.
    destruct (IsPrerequisite (Some e)) eqn:Ep; cbn [andb]; [|intuition congruence].
    destruct (String.eqb_spec (e_From e) (e_To e)) as [Hs|Hs]; cbn [negb]; [intuition congruence|].
    destruct (String.eqb_spec (e_To e) v) as [<-|Hv].
    - rewrite lookup_insert_eq. cbn. rewrite elem_of_app, list_elem_of_singleton. intuition congruence.
    - rewrite lookup_insert_ne by done. intuition congruence. }
  rewrite Hf, lookup_empty. cbn. rewrite elem_of_nil. tauto.
Qed.

Lemma upstream_of_spec members v :
  NoDup (default [] (upstream_of g members !! v)) ∧
  ∀ u, u ∈ default [] (upstream_of g members !! v) ↔ u ∈ members ∧ v ∈ members ∧ required u v.
Proof.
  unfold upstream_of. set (step := λ _ _, _).
  assert (∀ es m, NoDup (default [] (m !! v)) →
            NoDup (default [] (foldl step m es !! v)) ∧
            ∀ u, u ∈ default [] (foldl step m es !! v) ↔
              u ∈ default [] (m !! v) ∨
              u ∈ members ∧ v ∈ members ∧ u ≠ v ∧ ∃ e, e ∈ es ∧ Blocks (Some e) = true ∧ e_From e = u ∧ e_To e = v) as Hf.
  { induction es as [|e es IH]; intros m Hm; cbn [foldl]; [split; [done|intros u; rewrite exists_nil; tauto]|].
    assert (NoDup (default [] (step m e !! v))) as Hn.
    { unfold step. destruct (_ && _) eqn:E; [|done]. apply andb_true_iff in E as [_ E]. apply negb_true_iff, has_str_false in E.
      destruct (String.eqb_spec (e_To e) v) as [<-|Hv]; [|by rewrite lookup_insert_ne].
      rewrite lookup_insert_eq. cbn. apply NoDup_app. split_and!; [done| |apply NoDup_singleton].
      intros x Hx ->%list_elem_of_singleton. done. }
    destruct (IH _ Hn) as [Hnd Hspec]. split; [done|]. intros u. rewrite Hspec.
    assert (u ∈ default [] (step m e !! v) ↔
            u ∈ default [] (m !! v) ∨ u ∈ members ∧ v ∈ members ∧ u ≠ v ∧ Blocks (Some e) = true ∧ e_From e = u ∧ e_To e = v) as ->; [|rewrite exists_cons; tauto].
    unfold step. destruct (Blocks (Some e)) eqn:Eb; cbn [andb]; [|intuition congruence].
    case_bool_decide as Hfrom; cbn [andb]; [|intuition congruence]. case_bool_decide as Hto; cbn [andb]; [|intuition congruence].
    destruct (String.eqb_spec (e_From e) (e_To e)) as [Hs|Hs]; cbn [negb andb]; [intuition congruence|].
    destruct (has_str (e_From e) (default [] (m !! e_To e))) eqn:E; cbn [negb].
    - apply has_str_spec in E. split; [by left|]. intros [?|(_ & _ & _ & _ & <- & <-)]; done.
    - destruct (String.eqb_spec (e_To e) v) as [<-|Hv].
      + rewrite lookup_insert_eq. cbn. rewrite elem_of_app, list_elem_of_singleton. intuition congruence.
      + rewrite lookup_insert_ne by done. intuition congruence. }
  destruct (Hf (edge_list g) ∅) as [Hnd Hspec]; [rewrite lookup_empty; constructor|].
  rewrite lookup_fmap. destruct (foldl step ∅ (edge_list g) !! v) as [us|] eqn:E; cbn in *.
  - rewrite merge_sort_Permutation. split; [done|]. intros u. rewrite merge_sort_Permutation, Hspec, lookup_empty. cbn. rewrite elem_of_nil. unfold required. tauto.
  - split; [constructor|]. intros u. rewrite Hspec, lookup_empty. cbn. rewrite elem_of_nil. unfold required. tauto.
Qed.

(** * Collecting *)

(** The goal's tasks: what it waits on, directly or through other tasks. *)
Inductive waits (goal : string) : string → Prop :=
  | waits_goal u : eligible g goal u = true → prerequisite u goal → waits goal u
  | waits_task u v : waits goal v → eligible g goal u = true → prerequisite u v → waits goal u.

Lemma enqueue_spec goal froms queue members queue' members' :
  enqueue g goal froms queue members = (queue', members') →
  ∃ fresh, queue' = queue ++ fresh ∧ NoDup fresh ∧
    (∀ x, x ∈ fresh ↔ x ∈ froms ∧ eligible g goal x = true ∧ x ∉ members) ∧
    (∀ x, x ∈ members' ↔ x ∈ members ∨ x ∈ fresh).
Proof.
  revert queue members. induction froms as [|f froms IH]; intros queue members; simpl.
  { intros [= <- <-]. exists []. split_and!; [by rewrite app_nil_r|constructor|set_solver|set_solver]. }
  destruct (negb (eligible g goal f) || bool_decide (f ∈ members)) eqn:E.
  - intros (fresh & -> & Hn & Hf & Hm)%IH. exists fresh. split_and!; [done|done| |done]. intros x. rewrite Hf.
    apply orb_true_iff in E as [E|E]; [apply negb_true_iff in E|apply bool_decide_eq_true in E];
      (split; [set_solver|intros ([->|?]%elem_of_cons & ? & ?); [congruence || done|done]]).
  - apply orb_false_iff in E as [E1 E2]. apply negb_false_iff in E1. apply bool_decide_eq_false in E2.
    intros (fresh & -> & Hn & Hf & Hm)%IH. exists (f :: fresh). split_and!.
    + by rewrite <- app_assoc.
    + constructor; [|done]. rewrite Hf. set_solver.
    + intros x. rewrite elem_of_cons, Hf. destruct (decide (x = f)); set_solver.
    + intros x. rewrite Hm. set_solver.
Qed.

Definition eligible_ids (goal : string) : list string :=
  remove_dups (List.filter (eligible g goal) (n_ID <$> node_list g)).

Lemma elem_of_eligible goal x : x ∈ eligible_ids goal ↔ eligible g goal x = true.
Proof.
  unfold eligible_ids. rewrite elem_of_remove_dups, elem_of_list_filter. split; [by intros [? _]|]. intros He. split; [done|].
  unfold eligible in He. apply andb_true_iff in He as [He _]. apply andb_true_iff in He as [_ He].
  apply bool_decide_eq_true in He as [n Hn]. apply NodeByID_Some in Hn as [Hn <-]. by apply list_elem_of_fmap_2.
Qed.

(** The tasks still to be found. *)
Definition unfound (goal : string) (members : gset string) : nat :=
  length (List.filter (λ x, negb (bool_decide (x ∈ members))) (eligible_ids goal)).

Lemma unfound_step goal members members' fresh :
  NoDup fresh → (∀ x, x ∈ fresh → eligible g goal x = true ∧ x ∉ members) →
  (∀ x, x ∈ members' ↔ x ∈ members ∨ x ∈ fresh) →
  (unfound goal members' + length fresh ≤ unfound goal members)%nat.
Proof.
  intros Hn Hf Hm. unfold unfound. rewrite <- length_app. apply submseteq_length, NoDup_submseteq.
  - apply NoDup_app. split_and!; [apply NoDup_filter_bool, NoDup_remove_dups| |done].
    intros x [Hx _]%elem_of_list_filter Hx'. apply negb_true_iff, bool_decide_eq_false in Hx. apply Hx, Hm. by right.
  - intros x [[Hx He]%elem_of_list_filter|Hx]%elem_of_app; apply elem_of_list_filter.
    + split; [|done]. apply negb_true_iff, bool_decide_eq_false in Hx. apply negb_true_iff, bool_decide_eq_false. set_solver.
    + destruct (Hf x Hx) as [He Hx']. split; [|by apply elem_of_eligible]. by apply negb_true_iff, bool_decide_eq_false.
Qed.

Record collecting (goal : string) (queue : list string) (members : gset string) : Prop := {
  c_sound : ∀ x, x ∈ members → waits goal x;
  c_queue : ∀ x, x ∈ queue → x = goal ∨ x ∈ members;
  c_closed : ∀ y x, y = goal ∨ y ∈ members → y ∉ queue → eligible g goal x = true → prerequisite x y → x ∈ members;
}.

Lemma collect_total fuel goal queue members :
  collecting goal queue members → (length queue + unfound goal members ≤ fuel)%nat →
  ∃ members', collect fuel g goal (into_of g) queue members = Some members' ∧ collecting goal [] members'.
Proof.
  revert queue members. induction fuel as [|fuel IH]; intros [|id queue] members Hc Hf; simpl in *; try (by eexists); [lia|].
  destruct (enqueue g goal (default [] (into_of g !! id)) queue members) as [queue' members'] eqn:E.
  apply enqueue_spec in E as (fresh & -> & Hn & Hfresh & Hm).
  assert (∀ x, x ∈ fresh ↔ prerequisite x id ∧ eligible g goal x = true ∧ x ∉ members) as Hfr
    by (intros x; by rewrite Hfresh, into_of_spec).
  destruct Hc as [Hs Hq Hcl]. apply IH.
  - split.
    + intros x [Hx|Hx]%Hm; [by apply Hs|]. apply Hfr in Hx as (Hp & He & _).
      destruct (Hq id) as [->|Hid]; [by left|by apply waits_goal|]. apply (waits_task _ _ id); [by apply Hs|done|done].
    + intros x [Hx|Hx]%elem_of_app; [destruct (Hq x) as [?|?]; [by right|by left|right; apply Hm; by left]|].
      right. apply Hm. by right.
    + intros y x Hy Hyq He Hp. apply Hm. destruct (decide (x ∈ members)) as [|Hx]; [by left|].
      destruct (decide (y = id)) as [->|Hne]; [right; by apply Hfr|]. left.
      apply (Hcl y); [|set_solver|done|done]. destruct Hy as [|Hy]; [by left|]. apply Hm in Hy as [Hy|Hy]; [by right|set_solver].
  - rewrite length_app. assert (unfound goal members' + length fresh ≤ unfound goal members)%nat; [|lia].
    apply unfound_step; [done| |done]. intros x Hx. apply Hfr in Hx. tauto.
Qed.

Lemma members_of_spec goal :
  ∃ members, members_of g goal = Some members ∧
    ∀ x, x ∈ members ↔ waits goal x ∨ ∃ n, n ∈ node_list g ∧ n_ID n = x ∧ tagged g goal n = true.
Proof.
  destruct (collect_total (S (length (node_list g))) goal [goal] ∅) as (ms & Hms & Hc).
  - split; [set_solver|set_solver|]. intros y x [->|?]; set_solver.
  - simpl. assert (unfound goal ∅ ≤ length (node_list g))%nat; [|lia]. unfold unfound.
    rewrite <- (length_fmap n_ID (node_list g)). apply submseteq_length, NoDup_submseteq.
    + apply NoDup_filter_bool, NoDup_remove_dups.
    + intros x [_ Hx]%elem_of_list_filter. unfold eligible_ids in Hx. rewrite elem_of_remove_dups in Hx. by apply elem_of_list_filter in Hx as [_ ?].
  - unfold members_of. rewrite Hms. cbn. eexists. split; [done|]. intros x. rewrite elem_of_union, elem_of_list_to_set.
    destruct Hc as [Hs _ Hcl]. split.
    + intros [Hx|Hx]; [left; by apply Hs|right]. apply list_elem_of_fmap in Hx as (n & -> & Hn).
      apply elem_of_list_filter in Hn as [Ht Hn]. by exists n.
    + intros [Hw|(n & Hn & <- & Ht)].
      * left. induction Hw as [u He Hp|u v Hw IH He Hp]; [eapply (Hcl goal); [by left|apply not_elem_of_nil|done|done]|].
        eapply (Hcl v); [by right|apply not_elem_of_nil|done|done].
      * right. apply list_elem_of_fmap. exists n. split; [done|]. by apply elem_of_list_filter.
Qed.
End Edges.

(** * The plan of a goal *)

Section Plan.
Context `{Unicode} (g : Graph) (goal : string).

Lemma nodes_of_spec members :
  (∀ id n, nodes_of g members !! id = Some n ↔ id ∈ members ∧ NodeByID g id = Some n).
Proof.
  intros id n. unfold nodes_of. rewrite <- elem_of_list_to_map'.
  - rewrite list_elem_of_omap. split.
    + intros (x & Hx & He). destruct (NodeByID g x) eqn:En; simplify_eq/=. by apply elem_of_elements in Hx.
    + intros [Hi Hn]. exists id. rewrite Hn. by rewrite elem_of_elements.
  - intros m (x & _ & Hx)%list_elem_of_omap (y & _ & Hy)%list_elem_of_omap.
    destruct (NodeByID g x) eqn:Ex, (NodeByID g y) eqn:Ey; simplify_eq/=. congruence.
Qed.

Lemma waits_exists x : waits g goal x → is_Some (NodeByID g x).
Proof.
  intros Hw. assert (eligible g goal x = true) as He by by destruct Hw.
  unfold eligible in He. apply andb_true_iff in He as [He _]. apply andb_true_iff in He as [_ He].
  by apply bool_decide_eq_true in He.
Qed.

(** The plan, with what the building of it establishes. *)
Record planned (d : dag) : Prop := {
  p_members : ∀ id, id ∈ member_ids d ↔
    waits g goal id ∨ ∃ n, n ∈ node_list g ∧ n_ID n = id ∧ tagged g goal n = true;
  p_nodes : ∀ id n, dg_nodes d !! id = Some n → NodeByID g id = Some n;
  p_edges : ∀ u v, u ∈ dag_up d v ↔ u ∈ member_ids d ∧ v ∈ member_ids d ∧ required g u v;
  p_nodup : ∀ v, NoDup (dag_up d v);
}.

Lemma elem_of_member_ids d id : id ∈ member_ids d ↔ is_Some (dg_nodes d !! id).
Proof.
  unfold member_ids. rewrite list_elem_of_fmap. split.
  - intros ([x n] & -> & Hn%elem_of_map_to_list). by exists n.
  - intros [n Hn]. exists (id, n). split; [done|]. by apply elem_of_map_to_list.
Qed.

Lemma buildDAG_planned :
  is_Some (NodeByID g goal) →
  ∃ d, buildDAG (Some g) goal = Some d ∧ planned d ∧
    ∃ sched stuck, dg_order d = sched ++ stuck ∧ ordered d sched stuck.
Proof.
  intros [gn Hgoal]. unfold buildDAG. rewrite Hgoal.
  destruct (members_of_spec g goal) as (members & -> & Hm). cbn [mbind option_bind].
  set (d := mkDag _ _ _ _ _).
  assert (∀ id, id ∈ member_ids d ↔ id ∈ members) as Hids.
  { intros id. rewrite elem_of_member_ids. cbn. split.
    - intros [n Hn]. by apply nodes_of_spec in Hn as [? _].
    - intros Hi. assert (is_Some (NodeByID g id)) as [n Hn].
      { apply Hm in Hi as [Hw|(n & Hn & <- & _)]; [by apply waits_exists|].
        destruct (NodeByID g (n_ID n)) as [m|] eqn:E; [by eexists|]. exfalso.
        by apply (proj1 (NodeByID_None g (n_ID n)) E n). }
      exists n. by apply nodes_of_spec. }
  assert (planned d) as Hp.
  { split.
    - intros id. by rewrite Hids, Hm.
    - intros id n Hn. by apply nodes_of_spec in Hn as [_ ?].
    - intros u v. rewrite !Hids. unfold dag_up. cbn. by apply upstream_of_spec.
    - intros v. unfold dag_up. cbn. by apply upstream_of_spec. }
  destruct (topoOrder_ordered d) as (sched & stuck & -> & Ho).
  - apply Hp.
  - intros v u _ Hu. by apply Hp in Hu as (? & _ & _).
  - cbn. exists (with_order d (sched ++ stuck)). split; [done|]. destruct Hp as [H1 H2 H3 H4].
    split; [by split|]. exists sched, stuck. split; [done|]. destruct Ho as [O1 O2 O3]. by split.
Qed.
End Plan.

(** A goal waiting on a chain of two tasks, a tagged note that is no task, and
    two tagged tasks waiting on each other. *)
Definition with_tags (n : Node) (tags : list string) : Node :=
  mkNode (n_ID n) (n_Title n) (n_Kind n) (n_Priority n) (n_Assignee n) (n_Deadline n)
    (n_WriteAccess n) (n_Requires n) tags (n_Effects n) (n_Links n) (n_Refs n) (n_Acceptance n) (n_Workflow n).

Definition goal_graph : Graph :=
  plain_graph
    [plain_node "g" "goal" EmptyString; plain_node "b" "task" EmptyString; plain_node "a" "task" EmptyString;
     with_tags (plain_node "n" "note" EmptyString) ["goal:g"];
     with_tags (plain_node "x" "task" EmptyString) [" Goal:G "]; with_tags (plain_node "y" "task" EmptyString) ["goal:g"]]
    [mkEdge "b" "g" RelationRequired EmptyString; mkEdge "a" "b" RelationRequired EmptyString;
     mkEdge "x" "y" RelationRequired EmptyString; mkEdge "y" "x" RelationRequired EmptyString].

Example goal_graph_order : dg_order <$> buildDAG (Some goal_graph) "g" = Some ["a"; "b"; "x"; "y"].
Proof. vm_compute. reflexivity. Qed.

Lemma goal_graph_goal : is_Some (NodeByID goal_graph "g").
Proof. by eexists. Qed.

(** ** Walking upstream *)

Section Walk.
Context `{Unicode}.
Variables (d : dag) (id : string).

(** [b] is what [a] waits on. *)
Definition waits_on (a b : string) : Prop := b ∈ dag_up d a.

(** Everything anything waits on. *)
Definition upstreams : gset string := list_to_set (concat (map_to_list (dg_upstream d)).*2).

Lemma elem_of_upstreams a b : waits_on a b → b ∈ upstreams.
Proof.
  unfold waits_on, dag_up, upstreams. destruct (dg_upstream d !! a) as [ups|] eqn:E; simpl; [|by intros ?%elem_of_nil].
  intros Hb. apply elem_of_list_to_set, list_elem_of_In, in_concat. exists ups. rewrite <- !list_elem_of_In. split; [|done]. apply list_elem_of_fmap. exists (a, ups).
  split; [done|]. by apply elem_of_map_to_list.
Qed.

(** Nodes seen since, each followed all the way, without coming on [id]. *)
Definition followed (seen seen' : gset string) : Prop :=
  ∀ x u, x ∈ seen' → x ∉ seen → waits_on x u → u ≠ id ∧ u ∈ seen'.

Definition walked (cur : string) (seen : gset string) (ups : list string) (out : option (bool * gset string)) : Prop :=
  ∃ found seen', out = Some (found, seen') ∧ seen ⊆ seen' ∧ seen' ⊆ upstreams ∧
    if found then tc waits_on cur id else (∀ u, u ∈ ups → u ≠ id ∧ u ∈ seen') ∧ followed seen seen'.

Lemma walk_up_spec fuel : ∀ cur seen, seen ⊆ upstreams → (size upstreams - size seen < fuel)%nat →
  walked cur seen (dag_up d cur) (walk_up fuel d id cur seen).
Proof.
  induction fuel as [|fuel IH]; intros cur seen Hseen Hfuel; [lia|]. cbn [walk_up].
  assert (∀ ups, ups ⊆ dag_up d cur → ∀ s, seen ⊆ s → s ⊆ upstreams → walked cur s ups
    ((fix each (ups : list string) (seen : gset string) : option (bool * gset string) :=
        match ups with
        | [] => Some (false, seen)
        | up :: ups' =>
            if String.eqb up id then Some (true, seen)
            else if bool_decide (up ∈ seen) then each ups' seen
            else match walk_up fuel d id up ({[ up ]} ∪ seen) with
                 | Some (false, seen') => each ups' seen'
                 | found => found
                 end
        end) ups s)) as Heach; [|by apply Heach].
  induction ups as [|up ups IHups]; intros Hups s Hs Hsub.
  { exists false, s. split_and!; [done|done|done|by intros u ?%elem_of_nil|]. intros x u H1 H2. done. }
  assert (waits_on cur up) as Hup by (apply Hups; by left).
  assert (ups ⊆ dag_up d cur) as Hups' by (intros u ?; apply Hups; by right).
  destruct (String.eqb_spec up id) as [->|Hne].
  { exists true, s. split_and!; [done|done|done|]. by apply tc_once. }
  case_bool_decide as Hin.
  { destruct (IHups Hups' s Hs Hsub) as (found & s' & -> & H1 & H2 & H3). exists found, s'. split_and!; [done|done|done|].
    destruct found; [done|]. destruct H3 as [H3 H4]. split; [|done]. intros u [->|Hu]%elem_of_cons; [|by apply H3]. split; [done|by apply H1]. }
  assert ({[ up ]} ∪ s ⊆ upstreams) as Hsub' by (apply elem_of_upstreams in Hup; set_solver).
  assert (size upstreams - size ({[ up ]} ∪ s) < fuel)%nat as Hfuel'.
  { rewrite size_union, size_singleton by set_solver. apply subseteq_size in Hs, Hsub'.
    rewrite size_union, size_singleton in Hsub' by set_solver. lia. }
  destruct (IH up _ Hsub' Hfuel') as (found & s' & -> & H1 & H2 & H3). destruct found.
  { exists true, s'. split_and!; [done|set_solver|done|]. by eapply tc_l. }
  destruct H3 as [H3 H4]. destruct (IHups Hups' s') as (found & s'' & -> & H5 & H6 & H7); [set_solver|done|].
  exists found, s''. split_and!; [done|set_solver|done|]. destruct found; [done|]. destruct H7 as [H7 H8]. split.
  - intros u [->|Hu]%elem_of_cons; [|by apply H7]. split; [done|]. set_solver.
  - intros x u Hx Hnx Hu. destruct (decide (x ∈ s')) as [Hx'|Hx']; [|by apply (H8 x u)].
    destruct (decide (x = up)) as [->|Hxu].
    + destruct (H3 u Hu) as [? ?]. split; [done|]. set_solver.
    + destruct (H4 x u Hx' ltac:(set_solver) Hu) as [? ?]. split; [done|]. set_solver.
Qed.

Lemma walked_none seen' : (∀ u, u ∈ dag_up d id → u ≠ id ∧ u ∈ seen') → followed ∅ seen' → ¬ tc waits_on id id.
Proof.
  intros Hups Hfol Htc.
  assert (∀ x y, tc waits_on x y → x = id ∨ x ∈ seen' → y ≠ id ∧ y ∈ seen') as Hall.
  { assert (∀ x y, waits_on x y → x = id ∨ x ∈ seen' → y ≠ id ∧ y ∈ seen') as Hone.
    { intros x y Hxy [->|Hx]; [by apply Hups|]. apply (Hfol x y); [done|set_solver|done]. }
    induction 1 as [x y Hxy|x y z Hxy _ IH]; intros Hx; [by apply (Hone x)|]. apply IH. right. by apply (Hone x y). }
  by destruct (Hall id id Htc (or_introl eq_refl)).
Qed.

Lemma inCycle_spec : inCycle d id = true ↔ tc waits_on id id.
Proof.
  unfold inCycle, walk_fuel. fold upstreams. destruct (walk_up_spec (S (size upstreams)) id ∅) as (found & seen' & -> & _ & _ & Hf); [set_solver|lia|].
  destruct found; [done|]. split; [done|]. intros Htc. destruct Hf as [H1 H2]. by destruct (walked_none seen' H1 H2).
Qed.
End Walk.

(** A goal's tasks are exactly the nodes it waits on, directly or through
    other tasks, along edges that are not deprecated, and the nodes tagged with
    the goal; never the goal itself and never a node without status.  The
    recorded dependencies are exactly the required edges among them. *)
Theorem goal_members_exact `{Unicode} (g : Graph) (goal : string) (Hgoal : is_Some (NodeByID g goal)) :
  ∃ d, buildDAG (Some g) goal = Some d ∧
    (∀ id, is_Some (dg_nodes d !! id) ↔
       waits g goal id ∨ ∃ n, n ∈ node_list g ∧ n_ID n = id ∧ tagged g goal n = true) ∧
    (∀ id, is_Some (dg_nodes d !! id) → id ≠ goal ∧ no_status_id g id = false) ∧
    (∀ u v, u ∈ dag_up d v ↔ is_Some (dg_nodes d !! u) ∧ is_Some (dg_nodes d !! v) ∧ required g u v).
Proof.
  destruct (buildDAG_planned g goal Hgoal) as (d & Hd & [Hm Hn He _] & _). setoid_rewrite elem_of_member_ids in Hm.
  setoid_rewrite elem_of_member_ids in He. exists d. split_and!; [done|done| |done].
  intros id Hi. apply Hm in Hi as [Hw|(n & _ & <- & Ht)].
  - assert (eligible g goal id = true) as Hel by by destruct Hw. unfold eligible in Hel.
    apply andb_true_iff in Hel as [Hel Hns]. apply andb_true_iff in Hel as [Hg _]. apply negb_true_iff in Hns, Hg.
    by apply String.eqb_neq in Hg.
  - unfold tagged in Ht. apply andb_true_iff in Ht as [Ht _]. apply andb_true_iff in Ht as [Hg Hns].
    apply negb_true_iff in Hns, Hg. by apply String.eqb_neq in Hg.
Qed.

Lemma goal_members_exact_witness :
  ∃ d, buildDAG (Some goal_graph) "g" = Some d ∧
    (∀ id, is_Some (dg_nodes d !! id) ↔
       waits goal_graph "g" id ∨ ∃ n, n ∈ node_list goal_graph ∧ n_ID n = id ∧ tagged goal_graph "g" n = true) ∧
    (∀ id, is_Some (dg_nodes d !! id) → id ≠ "g" ∧ no_status_id goal_graph id = false) ∧
    (∀ u v, u ∈ dag_up d v ↔ is_Some (dg_nodes d !! u) ∧ is_Some (dg_nodes d !! v) ∧ required goal_graph u v).
Proof. apply (goal_members_exact goal_graph "g" goal_graph_goal). Defined.

(** C33: the order the autopilot works a goal in: it lists every task once; its
    first part is scheduled, each task after everything it waits on, and holds
    exactly the tasks that wait on no cycle; in the rest, every task waits on
    another of the rest, so none of them can ever start.  inCycle tells exactly
    which tasks wait on themselves, directly or through others. *)
Theorem goal_order_topological `{Unicode} (g : Graph) (goal : string) (Hgoal : is_Some (NodeByID g goal)) :
  ∃ d sched stuck, buildDAG (Some g) goal = Some d ∧ dg_order d = sched ++ stuck ∧
    NoDup (dg_order d) ∧ (∀ id, id ∈ dg_order d ↔ is_Some (dg_nodes d !! id)) ∧
    (∀ i v, sched !! i = Some v → ∀ u, u ∈ dag_up d v → u ∈ take i sched) ∧
    (∀ v, is_Some (dg_nodes d !! v) → v ∈ sched ↔ Acc (λ u v, u ∈ dag_up d v) v) ∧
    (∀ v, v ∈ stuck → ∃ u, u ∈ stuck ∧ u ∈ dag_up d v) ∧
    (∀ v, inCycle d v = true ↔ tc (λ a b, b ∈ dag_up d a) v v).
Proof.
  destruct (buildDAG_planned g goal Hgoal) as (d & Hd & Hp & sched & stuck & Ho & Hord).
  pose proof (o_perm _ _ _ Hord) as Hperm. exists d, sched, stuck. split_and!; [done|done| | | | | |apply inCycle_spec].
  - rewrite Ho, Hperm. apply member_ids_nodup.
  - intros id. by rewrite Ho, Hperm, elem_of_member_ids.
  - apply Hord.
  - intros v Hv. eapply ordered_acc; [|done|by apply elem_of_member_ids].
    intros w u _ Hu. by apply (p_edges _ _ _ Hp) in Hu as (? & _ & _).
  - apply Hord.
Qed.

Lemma goal_order_topological_witness :
  ∃ d sched stuck, buildDAG (Some goal_graph) "g" = Some d ∧ dg_order d = sched ++ stuck ∧
    NoDup (dg_order d) ∧ (∀ id, id ∈ dg_order d ↔ is_Some (dg_nodes d !! id)) ∧
    (∀ i v, sched !! i = Some v → ∀ u, u ∈ dag_up d v → u ∈ take i sched) ∧
    (∀ v, is_Some (dg_nodes d !! v) → v ∈ sched ↔ Acc (λ u v, u ∈ dag_up d v) v) ∧
    (∀ v, v ∈ stuck → ∃ u, u ∈ stuck ∧ u ∈ dag_up d v) ∧
    (∀ v, inCycle d v = true ↔ tc (λ a b, b ∈ dag_up d a) v v).
Proof. apply (goal_order_topological goal_graph "g" goal_graph_goal). Defined.
