(* ===== verification/Vocabulary.v ===== *)
(** The workspace's shared lifecycle states (internal/store/workspacedefs.go):
    merged into a graph as it is loaded, taken out as it is written. *)

From S2P Require Import Prelude GoStr GoFloat Dsl Graph State Readiness ReadyFacts.
From Stdlib Require Import Ascii.
Open Scope Z_scope.

Definition with_customs (ui : UIState) (defs : list StatusDefinition) : UIState :=
  mkUIState (ui_Positions ui) (ui_TimelineOrder ui) (ui_Gates ui) (ui_LogicGates ui) (ui_EdgeLabels ui)
    (ui_WireVertices ui) (ui_Plans ui) (ui_PlanStatuses ui) defs
    (ui_NodeStyles ui) (ui_EntryOverrides ui) (ui_Groups ui) (ui_Annotations ui) (ui_SavedViews ui).

Definition defines (defs : list StatusDefinition) (id : string) : bool := existsb (λ d, String.eqb (sd_ID d) id) defs.

(** The shared definitions whose id the project does not define itself. *)
Definition added (own shared : list StatusDefinition) : list StatusDefinition :=
  List.filter (λ d, negb (defines own (sd_ID d))) shared.

Definition mergeSharedStatuses (g : option Graph) (shared : list StatusDefinition) : option Graph :=
  match g with
  | None => None
  | Some g' =>
      if negb (nonempty shared) then g
      else
        let ui := default empty_ui (UI g') in
        Some (with_ui g' (Some (with_customs ui (ui_CustomStatuses ui ++ added (ui_CustomStatuses ui) shared))))
  end.

Definition withoutSharedStatuses (g : option Graph) (shared : list StatusDefinition) : option Graph :=
  match g with
  | None => None
  | Some g' =>
      match UI g' with
      | None => g
      | Some ui =>
          if negb (nonempty shared) || negb (nonempty (ui_CustomStatuses ui)) then g
          else
            let kept := List.filter (λ d, negb (defines shared (sd_ID d))) (ui_CustomStatuses ui) in
            if (length kept =? length (ui_CustomStatuses ui))%nat then g
            else Some (with_ui g' (Some (with_customs ui kept)))
      end
  end.

(** * Properties *)

Lemma defines_spec defs id : defines defs id = true ↔ ∃ d, d ∈ defs ∧ sd_ID d = id.
Proof.
  unfold defines. rewrite existsb_exists. setoid_rewrite <- list_elem_of_In. by setoid_rewrite String.eqb_eq.
Qed.

Lemma filter_id {A} (f : A → bool) xs : (∀ x, x ∈ xs → f x = true) → List.filter f xs = xs.
Proof.
  induction xs as [|x xs IH]; intros Hf; simpl; [done|]. rewrite (Hf x) by by left. f_equal. apply IH. set_solver.
Qed.

Lemma filter_none {A} (f : A → bool) xs : (∀ x, x ∈ xs → f x = false) → List.filter f xs = [].
Proof.
  induction xs as [|x xs IH]; intros Hf; simpl; [done|]. rewrite (Hf x) by by left. apply IH. set_solver.
Qed.

Lemma find_app_l {A} (f : A → bool) xs ys x : find f xs = Some x → find f (xs ++ ys) = Some x.
Proof. induction xs as [|y xs IH]; simpl; [done|]. by destruct (f y). Qed.

Lemma with_customs_same ui : with_customs ui (ui_CustomStatuses ui) = ui.
Proof. by destruct ui. Qed.

Lemma with_ui_same g ui : UI g = Some ui → with_ui g (Some ui) = g.
Proof. destruct g. simpl. by intros ->. Qed.

(** Writing always leaves the definitions whose id is not shared. *)
Lemma without_shared_eq g ui shared :
  UI g = Some ui →
  withoutSharedStatuses (Some g) shared =
  Some (with_ui g (Some (with_customs ui (List.filter (λ d, negb (defines shared (sd_ID d))) (ui_CustomStatuses ui))))).
Proof.
  intros Hui. unfold withoutSharedStatuses. rewrite Hui. set (kept := List.filter _ _).
  assert (kept = ui_CustomStatuses ui → Some g = Some (with_ui g (Some (with_customs ui kept)))) as Hsame.
  { intros ->. by rewrite with_customs_same, with_ui_same. }
  destruct shared as [|s shared]; [by apply Hsame, filter_id|]. destruct (ui_CustomStatuses ui) as [|c cs] eqn:Ec; [by apply Hsame|].
  cbn [nonempty negb orb]. destruct (Nat.eqb_spec (length kept) (length (c :: cs))) as [He|]; [|done].
  apply Hsame, filter_id. by apply filter_length_all.
Qed.

(** The shared vocabulary in memory and on disk.  A loaded graph knows every
    shared id and every id of its own, and finds the project's own definition
    first; loading changes nothing else.  Writing that graph back gives the
    graph that was read exactly when no definition of the project's own has a
    shared id: a local override of a shared state does not survive a write. *)
Theorem shared_vocabulary_roundtrip (g : Graph) (ui : UIState) (shared : list StatusDefinition) (Hui : UI g = Some ui) :
  ∃ g1 ui1, mergeSharedStatuses (Some g) shared = Some g1 ∧ UI g1 = Some ui1 ∧
    (∀ id, defines (ui_CustomStatuses ui1) id = defines (ui_CustomStatuses ui) id || defines shared id) ∧
    (∀ id d, find (λ d, String.eqb (sd_ID d) id) (ui_CustomStatuses ui) = Some d →
       find (λ d, String.eqb (sd_ID d) id) (ui_CustomStatuses ui1) = Some d) ∧
    with_ui g1 (Some ui) = g ∧ with_customs ui1 (ui_CustomStatuses ui) = ui ∧
    (withoutSharedStatuses (Some g1) shared = Some g ↔
     ∀ d, d ∈ ui_CustomStatuses ui → defines shared (sd_ID d) = false).
Proof.
  set (own := ui_CustomStatuses ui).
  assert (∃ extra, mergeSharedStatuses (Some g) shared = Some (with_ui g (Some (with_customs ui (own ++ extra)))) ∧
            extra = added own shared) as (extra & Hmerge & ->).
  { unfold mergeSharedStatuses. rewrite Hui. destruct shared as [|s shared]; cbn [nonempty negb default]; [|by eexists].
    exists []. split; [|done]. unfold own. by rewrite app_nil_r, with_customs_same, with_ui_same. }
  eexists _, _. split_and!; [done|done| | | | |]; cbn [ui_CustomStatuses with_customs].
  - intros id. apply eq_true_iff_eq. rewrite orb_true_iff, !defines_spec.
    assert (∀ d, d ∈ own ++ added own shared ↔ d ∈ own ∨ negb (defines own (sd_ID d)) = true ∧ d ∈ shared) as Hin
      by (intros d; unfold added; by rewrite elem_of_app, elem_of_list_filter).
    split.
    + intros (d & Hd & <-). apply Hin in Hd as [Hd|[_ Hd]]; [left|right]; by exists d.
    + intros [(d & Hd & <-)|(d & Hd & <-)]; [exists d; split; [apply Hin; by left|done]|].
      destruct (defines own (sd_ID d)) eqn:E; [|exists d; split; [apply Hin; right; by rewrite E|done]].
      apply defines_spec in E as (e & He & <-). exists e. split; [apply Hin; by left|done].
  - intros id d Hd. by apply find_app_l.
  - destruct g. cbn in *. by rewrite Hui.
  - by destruct ui.
  - rewrite (without_shared_eq _ (with_customs ui (own ++ added own shared))) by done. cbn [ui_CustomStatuses with_customs].
    rewrite List.filter_app, (filter_none _ (added own shared)), app_nil_r.
    + split.
      * intros Heq d Hd. apply (f_equal (λ g, g ≫= UI)) in Heq. cbn in Heq. rewrite Hui in Heq. injection Heq as Heq.
        apply (f_equal ui_CustomStatuses) in Heq. cbn in Heq. fold own in Heq. rewrite <- Heq in Hd.
        apply elem_of_list_filter in Hd as [Hd _]. by apply negb_true_iff.
      * intros Hall. rewrite filter_id by (intros d Hd; by rewrite Hall). f_equal.
        change (with_ui g (Some (with_customs ui own)) = g). unfold own. by rewrite with_customs_same, with_ui_same.
    + intros d [_ Hd]%elem_of_list_filter. apply negb_false_iff, defines_spec. by exists d.
Qed.

(** A project with its own meaning of a shared review state. *)
Definition review (settled : bool) : StatusDefinition :=
  mkStatusDefinition "custom-status-review" "Review" "#888" EmptyString settled.

Lemma shared_vocabulary_roundtrip_witness :
  let ui := with_customs empty_ui [review true] in
  let g := with_ui (plain_graph [] []) (Some ui) in
  ∃ g1 ui1, mergeSharedStatuses (Some g) [review false] = Some g1 ∧ UI g1 = Some ui1 ∧
    (∀ id, defines (ui_CustomStatuses ui1) id = defines (ui_CustomStatuses ui) id || defines [review false] id) ∧
    (∀ id d, find (λ d, String.eqb (sd_ID d) id) (ui_CustomStatuses ui) = Some d →
       find (λ d, String.eqb (sd_ID d) id) (ui_CustomStatuses ui1) = Some d) ∧
    with_ui g1 (Some ui) = g ∧ with_customs ui1 (ui_CustomStatuses ui) = ui ∧
    (withoutSharedStatuses (Some g1) [review false] = Some g ↔
     ∀ d, d ∈ ui_CustomStatuses ui → defines [review false] (sd_ID d) = false).
Proof.
  apply (shared_vocabulary_roundtrip (with_ui (plain_graph [] []) (Some (with_customs empty_ui [review true])))
           (with_customs empty_ui [review true]) [review false]).
  reflexivity.
Defined.
