(* ===== verification/Effects.v ===== *)
(** Effects (internal/engine/effects.go): the statements a node applies to the
    flags when it is done, their validation, and the glob patterns of test
    files (internal/engine/globs.go). *)

From S2P Require Import Prelude GoStr GoFloat Dsl Graph NodeTypes.
From Stdlib Require Import Ascii.
Open Scope Z_scope.

Inductive EffectError :=
  | EmptyEffect
  | InvalidFlagName (name : string)
  | EmptyValue
  | RequiresNumber (op : string).

Definition effect_ops : list string := ["+="; "-="; "="].

(** The first operator of the list that occurs in the statement after its
    first byte, with the trimmed text on either side. *)
Fixpoint split_effect (ops : list string) (stmt : string) : option (string * string * string) :=
  match ops with
  | [] => None
  | op :: ops' =>
      match str_index stmt op with
      | Some (S i) => Some (op, trim_space (str_take (S i) stmt), trim_space (str_drop (S i + String.length op) stmt))
      | _ => split_effect ops' stmt
      end
  end.

(** ValidateEffect; [None] is a nil error. *)
Definition ValidateEffect (stmt : string) : option EffectError :=
  let stmt := trim_space stmt in
  if String.eqb stmt EmptyString then Some EmptyEffect
  else match split_effect effect_ops stmt with
       | Some (op, name, value) =>
           if negb (ValidNodeID name) then Some (InvalidFlagName name)
           else if String.eqb value EmptyString then Some EmptyValue
           else if negb (String.eqb op "=")
                   && match parse_float value with Some _ => false | None => true end
           then Some (RequiresNumber op)
           else None
       | None => if negb (ValidNodeID stmt) then Some (InvalidFlagName stmt) else None
       end.

(** strings.Trim with a cutset of ASCII bytes. *)
Fixpoint trim_left (cutset s : string) : string :=
  match s with
  | String c s' => if has_char c cutset then trim_left cutset s' else s
  | EmptyString => EmptyString
  end.

Definition trim_set (cutset s : string) : string :=
  String.rev (trim_left cutset (String.rev (trim_left cutset s))).

Definition quotes : string := String dquote (str_of_char squote).

(** parseLiteral of effects.go. *)
Definition effectLiteral `{Unicode} (s : string) : value :=
  let low := to_lower s in
  if String.eqb low "true" then VBool true
  else if String.eqb low "false" then VBool false
  else match parse_float s with
       | Some n => VFloat64 n
       | None => VString (trim_set quotes s)
       end.

(** asNumberAny: a missing flag is nil, and the number of anything else is
    zero. *)
Definition asNumberAny (v : option value) : float64 :=
  match v with
  | Some (VFloat64 f) => f
  | Some (VInt z) => f_of_int z
  | Some (VBool true) => f_one
  | _ => f_zero
  end.

Section Effects.
Context `{Unicode}.

Definition applyEffect (stmt : string) (flags : gmap string value) : gmap string value :=
  let stmt := trim_space stmt in
  match ValidateEffect stmt with
  | Some _ => flags
  | None =>
      match split_effect effect_ops stmt with
      | Some (op, name, val) =>
          if String.eqb name EmptyString || String.eqb val EmptyString then flags
          else if String.eqb op "=" then <[name := effectLiteral val]> flags
          else match parse_float val with
               | None => flags
               | Some delta =>
                   <[name := VFloat64 (f_add (asNumberAny (flags !! name))
                                          (if String.eqb op "-=" then f_neg delta else delta))]> flags
               end
      | None => <[stmt := VBool true]> flags
      end
  end.

(** ApplyEffects, on the flag map it is given (a nil map stays nil). *)
Definition ApplyEffects (n : option Node) (flags : option (gmap string value)) : option (gmap string value) :=
  match n, flags with
  | Some n, Some flags => Some (foldl (λ flags e, applyEffect (ef_Set e) flags) flags (n_Effects n))
  | _, _ => flags
  end.

(** The flag a statement is about. *)
Definition effect_target (stmt : string) : string :=
  match split_effect effect_ops (trim_space stmt) with
  | Some (_, name, _) => name
  | None => trim_space stmt
  end.
End Effects.

Example effects_run :
  foldl (λ flags s, applyEffect s flags) ∅ ["found"; "karma += 2"; "karma -= 0.5"; "mood = 'sad'"; "9x = 1"; "karma += much"]
  = list_to_map [("found", VBool true); ("karma", VFloat64 (f_add (f_of_int 2) (f_neg (default f_zero (parse_float "0.5")))));
                 ("mood", VString "sad")].
Proof. vm_compute. reflexivity. Qed.

(** * Properties *)

Lemma split_effect_ops ops stmt op name value :
  split_effect ops stmt = Some (op, name, value) → op ∈ ops.
Proof.
  induction ops as [|o ops IH]; simpl; [done|].
  destruct (str_index stmt o) as [[|i]|]; [right; auto| |right; auto].
  intros [= -> _ _]. by left.
Qed.

Lemma valid_name_nonempty name : ValidNodeID name = true → String.eqb name EmptyString = false.
Proof. by destruct name. Qed.

(** One statement, on every branch. *)
Lemma applyEffect_spec `{Unicode} (stmt : string) (flags : gmap string value) :
  match ValidateEffect stmt with
  | Some _ => applyEffect stmt flags = flags
  | None =>
      ValidNodeID (effect_target stmt) = true ∧
      ∃ v, applyEffect stmt flags = <[effect_target stmt := v]> flags ∧
        ∀ op name amount, split_effect effect_ops (trim_space stmt) = Some (op, name, amount) → op ≠ "=" →
          ∃ delta, parse_float amount = Some delta ∧
            v = VFloat64 (f_add (asNumberAny (flags !! name)) (if String.eqb op "-=" then f_neg delta else delta))
  end.
Proof.
  unfold applyEffect, ValidateEffect, effect_target. rewrite trim_space_idem. set (s := trim_space stmt).
  destruct (String.eqb s EmptyString) eqn:Es; [done|].
  destruct (split_effect effect_ops s) as [[[op name] val]|] eqn:Esp.
  - destruct (ValidNodeID name) eqn:En; simpl; [|done].
    destruct (String.eqb val EmptyString) eqn:Ev; [done|].
    rewrite (valid_name_nonempty name En). simpl.
    destruct (String.eqb_spec op "=") as [->|Hop]; simpl.
    + split; [done|]. eexists. split; [done|]. intros ??? [= <- _ _]. done.
    + destruct (parse_float val) as [delta|] eqn:Ef; [|done]. split; [done|].
      eexists. split; [done|]. intros ??? [= <- <- <-] _. eauto.
  - destruct (ValidNodeID s) eqn:En; simpl; [|done]. split; [done|]. eexists. split; [done|]. done.
Qed.

(** An effect does what its validation promises: a statement that does not
    validate changes no flag, and one that does sets exactly one flag, of a
    valid name, to a value; an increment or decrement always leaves a number,
    the sum of the flag's numeric value and the signed amount. *)
Theorem effect_sets_its_flag `{Unicode} (stmt : string) (flags : gmap string value) :
  match ValidateEffect stmt with
  | Some _ => applyEffect stmt flags = flags
  | None =>
      ValidNodeID (effect_target stmt) = true ∧
      ∃ v, applyEffect stmt flags = <[effect_target stmt := v]> flags ∧
        ∀ op name amount, split_effect effect_ops (trim_space stmt) = Some (op, name, amount) → op ≠ "=" →
          ∃ delta, parse_float amount = Some delta ∧
            v = VFloat64 (f_add (asNumberAny (flags !! name)) (if String.eqb op "-=" then f_neg delta else delta))
  end.
Proof. apply applyEffect_spec. Qed.

(** Finishing a node touches only the flags its valid statements name, and
    gives each of them a value. *)
Theorem effects_frame `{Unicode} (n : Node) (flags : gmap string value) (f : string) :
  ∃ flags', ApplyEffects (Some n) (Some flags) = Some flags' ∧
    if existsb (λ e, match ValidateEffect (ef_Set e) with
                     | None => String.eqb (effect_target (ef_Set e)) f
                     | Some _ => false
                     end) (n_Effects n)
    then is_Some (flags' !! f)
    else flags' !! f = flags !! f.
Proof.
  eexists. split; [done|]. revert flags. induction (n_Effects n) as [|e es IH]; intros flags; simpl; [done|].
  pose proof (applyEffect_spec (ef_Set e) flags) as He.
  destruct (ValidateEffect (ef_Set e)) as [err|] eqn:Ev; simpl.
  - rewrite He. apply IH.
  - destruct He as (_ & v & -> & _). specialize (IH (<[effect_target (ef_Set e) := v]> flags)).
    destruct (existsb _ es); [by destruct (String.eqb _ _)|].
    destruct (String.eqb_spec (effect_target (ef_Set e)) f) as [<-|Hne]; simpl; rewrite IH.
    + rewrite lookup_insert_eq. eauto.
    + by rewrite lookup_insert_ne.
Qed.
