(* ===== verification/Globs.v ===== *)
(** Globs of test files (internal/engine/globs.go): slash-separated patterns
    with ** for any number of segments, matched by a table filled from the last
    segment back.  One segment is matched by path.Match of the Go library,
    modelled first. *)

From S2P Require Import Prelude GoStr GoFloat.
From Stdlib Require Import Ascii.
Open Scope Z_scope.

(** * path.Match *)

(** A malformed pattern (path.ErrBadPattern) is [None]. *)

(** scanChunk after the leading stars: the text up to the next star outside a
    bracket, and the rest. *)
Fixpoint scan_chunk (inrange : bool) (s : string) : string * string :=
  match s with
  | EmptyString => (EmptyString, EmptyString)
  | String c s' =>
      if Ascii.eqb c backslash then
        match s' with
        | String d s2 => let '(chunk, rest) := scan_chunk inrange s2 in (String c (String d chunk), rest)
        | EmptyString => (s, EmptyString)
        end
      else if Ascii.eqb c "*" && negb inrange then (EmptyString, s)
      else
        let inrange' := if Ascii.eqb c "[" then true else if Ascii.eqb c "]" then false else inrange in
        let '(chunk, rest) := scan_chunk inrange' s' in (String c chunk, rest)
  end.

Fixpoint drop_stars (s : string) : bool * string :=
  match s with
  | String c s' => if Ascii.eqb c "*" then (true, (drop_stars s').2) else (false, s)
  | EmptyString => (false, EmptyString)
  end.

(** scanChunk: a star seen, the chunk, the rest of the pattern. *)
Definition scanChunk (pattern : string) : bool * string * string :=
  let '(star, s) := drop_stars pattern in
  let '(chunk, rest) := scan_chunk false s in
  (star, chunk, rest).

(** getEsc: a possibly escaped rune of a character class. *)
Definition getEsc (chunk : string) : option (Z * string) :=
  match chunk with
  | EmptyString => None
  | String c chunk' =>
      if Ascii.eqb c "-" || Ascii.eqb c "]" then None
      else
        let body := if Ascii.eqb c backslash then chunk' else chunk in
        if String.eqb body EmptyString then None
        else
          let '(r, n) := decode_rune body in
          let rest := str_drop n body in
          if ((r =? rune_error) && (n =? 1)%nat) || String.eqb rest EmptyString then None
          else Some (r, rest)
  end.

(** The ranges of a character class: whether one holds [r], and the chunk after
    the closing bracket. *)
Fixpoint class_ranges (fuel : nat) (r : Z) (seen matched : bool) (chunk : string) : option (bool * string) :=
  match fuel with
  | O => None
  | S fuel' =>
      match chunk with
      | String c rest =>
          if Ascii.eqb c "]" && seen then Some (matched, rest)
          else
            match getEsc chunk with
            | None => None
            | Some (lo, chunk1) =>
                match chunk1 with
                | String d rest1 =>
                    if Ascii.eqb d "-" then
                      match getEsc rest1 with
                      | None => None
                      | Some (hi, chunk2) => class_ranges fuel' r true (matched || in_range lo hi r) chunk2
                      end
                    else class_ranges fuel' r true (matched || (lo =? r)) chunk1
                | EmptyString => None
                end
            end
      | EmptyString => None
      end
  end.

(** matchChunk; [failed] keeps scanning for a malformed class.  The outer
    option is the error, the inner one the match. *)
Fixpoint matchChunk (fuel : nat) (failed : bool) (chunk s : string) : option (option string) :=
  match fuel with
  | O => None
  | S fuel' =>
      match chunk with
      | EmptyString => Some (if failed then None else Some s)
      | String c chunk' =>
          let failed := failed || String.eqb s EmptyString in
          let '(r, n) := if failed then (0, O) else decode_rune s in
          let literal (c : ascii) (chunk' : string) :=
            match s with
            | String d s' =>
                if failed then matchChunk fuel' true chunk' s
                else matchChunk fuel' (negb (Ascii.eqb c d)) chunk' s'
            | EmptyString => matchChunk fuel' true chunk' s
            end in
          if Ascii.eqb c "[" then
            let '(negated, body) := match chunk' with
                                    | String d rest => if Ascii.eqb d "^" then (true, rest) else (false, chunk')
                                    | EmptyString => (false, chunk')
                                    end in
            match class_ranges (S (String.length body)) r false false body with
            | None => None
            | Some (matched, rest) =>
                matchChunk fuel' (failed || Bool.eqb matched negated) rest (if failed then s else str_drop n s)
            end
          else if Ascii.eqb c "?" then
            let slash := match s with String d _ => Ascii.eqb d "/" | EmptyString => false end in
            matchChunk fuel' (failed || slash) chunk' (if failed then s else str_drop n s)
          else if Ascii.eqb c backslash then
            match chunk' with
            | EmptyString => None
            | String d chunk2 => literal d chunk2
            end
          else literal c chunk'
      end
  end.

Definition match_chunk (chunk s : string) : option (option string) :=
  matchChunk (S (String.length chunk)) false chunk s.

(** The search after a star: skip bytes up to a slash; [None] is a malformed
    pattern, [Some None] no match. *)
Fixpoint skip_match (chunk : string) (final : bool) (name : string) : option (option string) :=
  match name with
  | EmptyString => Some None
  | String c name' =>
      if Ascii.eqb c "/" then Some None
      else match match_chunk chunk name' with
           | None => None
           | Some (Some t) => if final && negb (String.eqb t EmptyString) then skip_match chunk final name' else Some (Some t)
           | Some None => skip_match chunk final name'
           end
  end.

(** The rest of the pattern is checked for syntax before false is returned. *)
Fixpoint well_formed_rest (fuel : nat) (pattern : string) : option bool :=
  match fuel with
  | O => None
  | S fuel' =>
      if String.eqb pattern EmptyString then Some false
      else let '(_, chunk, rest) := scanChunk pattern in
           match match_chunk chunk EmptyString with
           | None => None
           | Some _ => well_formed_rest fuel' rest
           end
  end.

Fixpoint match_loop (fuel : nat) (pattern name : string) : option bool :=
  match fuel with
  | O => None
  | S fuel' =>
      if String.eqb pattern EmptyString then Some (String.eqb name EmptyString)
      else
        let '(star, chunk, rest) := scanChunk pattern in
        if star && String.eqb chunk EmptyString then Some (negb (has_char "/" name))
        else
          let final := String.eqb rest EmptyString in
          let retry := if star then skip_match chunk final name else Some None in
          match match_chunk chunk name with
          | None => None
          | Some (Some t) =>
              if String.eqb t EmptyString || negb final then match_loop fuel' rest t
              else match retry with
                   | None => None
                   | Some (Some t') => match_loop fuel' rest t'
                   | Some None => well_formed_rest fuel' rest
                   end
          | Some None =>
              match retry with
              | None => None
              | Some (Some t') => match_loop fuel' rest t'
              | Some None => well_formed_rest fuel' rest
              end
          end
  end.

(** path.Match: [None] is ErrBadPattern.  Every round takes at least one byte
    of the pattern, so its length is fuel enough. *)
Definition path_match (pattern name : string) : option bool :=
  match_loop (S (String.length pattern)) pattern name.

Example path_match_runs :
  (path_match "*_test.go" "a_test.go", path_match "test_*.py" "test_a.py", path_match "[a-c]?" "bz",
   path_match "a*b*c" "axxbyycbc", path_match "[" "a", path_match "[^a]" "a", path_match "*" "a/b")
  = (Some true, Some true, Some true, Some true, None, Some false, Some false).
Proof. vm_compute. reflexivity. Qed.

(** * MatchGlob *)

(** One segment matches: no error and a match. *)
Definition segment_ok (pat seg : string) : bool := match path_match pat seg with Some true => true | _ => false end.

(** One row of the table, from the row of the rest of the pattern: [next] and
    the result are indexed by the number of segments skipped, so both are one
    longer than [segs]. *)
Fixpoint glob_row (pat : string) (segs : list string) (next : list bool) : list bool :=
  match segs, next with
  | [], n :: _ => [if String.eqb pat "**" then n else false]
  | seg :: segs', n :: next' =>
      let cur := glob_row pat segs' next' in
      (if String.eqb pat "**" then n || hd false cur
       else if hd false next' then segment_ok pat seg else false) :: cur
  | _, [] => []
  end.

(** The row of the empty pattern. *)
Definition last_row (segs : list string) : list bool := replicate (length segs) false ++ [true].

Definition matchSegments (pat segs : list string) : bool :=
  hd false (foldr (λ p next, glob_row p segs next) (last_row segs) pat).

Definition MatchGlob (pattern p : string) : bool :=
  if String.eqb pattern EmptyString || String.eqb p EmptyString
     || has_char backslash pattern || has_char backslash p
  then false
  else matchSegments (split_char "/" pattern) (split_char "/" p).

Definition MatchAnyGlob (patterns : list string) (p : string) : bool :=
  existsb (λ pattern, MatchGlob pattern p) patterns.

(** * The meaning of a pattern *)

(** What the table computes, as a relation: ** takes any number of segments,
    any other pattern segment takes one that it matches. *)
Inductive glob_matches : list string → list string → Prop :=
  | glob_nil : glob_matches [] []
  | glob_stars_none pat segs : glob_matches pat segs → glob_matches ("**" :: pat) segs
  | glob_stars_more pat seg segs : glob_matches ("**" :: pat) segs → glob_matches ("**" :: pat) (seg :: segs)
  | glob_segment p pat seg segs :
      p ≠ "**" → path_match p seg = Some true → glob_matches pat segs → glob_matches (p :: pat) (seg :: segs).

(** A row is right when its entry [j] says whether the pattern matches the
    segments from [j] on. *)
Fixpoint row_ok (pat : list string) (segs : list string) (row : list bool) {struct row} : Prop :=
  match row with
  | [] => False
  | b :: row' =>
      (b = true ↔ glob_matches pat segs) ∧
      match segs with [] => row' = [] | _ :: segs' => row_ok pat segs' row' end
  end.

Lemma row_ok_hd pat segs row : row_ok pat segs row → hd false row = true ↔ glob_matches pat segs.
Proof. destruct row as [|b row]; [done|]. by intros [Hb _]. Qed.

Lemma last_row_ok segs : row_ok [] segs (last_row segs).
Proof.
  induction segs as [|seg segs IH]; simpl.
  - split; [|done]. split; [constructor|done].
  - split; [|exact IH]. split; [done|]. intros Hg. inversion Hg.
Qed.

Lemma segment_ok_spec p seg : segment_ok p seg = true ↔ path_match p seg = Some true.
Proof. unfold segment_ok. destruct (path_match p seg) as [[]|]; naive_solver. Qed.

Lemma glob_row_ok p pat segs next : row_ok pat segs next → row_ok (p :: pat) segs (glob_row p segs next).
Proof.
  revert next. induction segs as [|seg segs IH]; intros [|n next] Hrow; try done; simpl in *.
  - destruct Hrow as [Hn _]. split; [|done]. destruct (String.eqb_spec p "**") as [->|Hp].
    + rewrite Hn. split; [by constructor|]. intros Hg. by inversion Hg.
    + split; [done|]. intros Hg. inversion Hg; congruence.
  - destruct Hrow as [Hn Hrow]. pose proof (IH _ Hrow) as Hcur. split; [|exact Hcur].
    apply row_ok_hd in Hcur. apply row_ok_hd in Hrow. destruct (String.eqb_spec p "**") as [->|Hp].
    + rewrite orb_true_iff, Hn, Hcur. split.
      * intros [?|?]; [by apply glob_stars_none|by apply glob_stars_more].
      * intros Hg. inversion Hg; subst; [by left|by right|congruence].
    + destruct (hd false next).
      * rewrite segment_ok_spec. split.
        -- intros Hm. apply glob_segment; [done|done|]. by apply Hrow.
        -- intros Hg. inversion Hg; subst; congruence.
      * split; [done|]. intros Hg. inversion Hg; subst; try congruence.
        assert (false = true) by (by apply Hrow). done.
Qed.

Lemma matchSegments_spec pat segs : matchSegments pat segs = true ↔ glob_matches pat segs.
Proof.
  apply row_ok_hd. induction pat as [|p pat IH]; simpl; [apply last_row_ok|by apply glob_row_ok].
Qed.

(** The table-filling matcher decides exactly the meaning of the pattern: a path
    matches when both sides are non-empty, neither holds a backslash, and the
    path's segments split so that ** takes any number of them and every other
    pattern segment takes one that path.Match accepts. *)
Theorem match_glob_spec (pattern p : string) :
  MatchGlob pattern p = true ↔
  pattern ≠ EmptyString ∧ p ≠ EmptyString ∧ has_char backslash pattern = false ∧ has_char backslash p = false ∧
  glob_matches (split_char "/" pattern) (split_char "/" p).
Proof.
  unfold MatchGlob. destruct (String.eqb_spec pattern EmptyString); simpl; [naive_solver|].
  destruct (String.eqb_spec p EmptyString); simpl; [naive_solver|].
  destruct (has_char backslash pattern); simpl; [naive_solver|].
  destruct (has_char backslash p); simpl; [naive_solver|].
  rewrite matchSegments_spec. naive_solver.
Qed.
