(* ===== verification/Cycles.v ===== *)
(** Cycle detection (findCycles of internal/engine/validate.go): the
    depth-first search with white, gray and black nodes, and its correctness:
    it reports only real cycles, and reports none exactly when there is none. *)

From S2P Require Import Prelude GoStr GoFloat.
From stdpp Require Import relations.
From Stdlib Require Import Ascii.

Inductive colour := White | Gray | Black.

#[export] Instance colour_eq_dec : EqDecision colour.
Proof. solve_decision. Defined.

(** The variables the closure visit shares: color, stack (top last), cycles. *)
Record dfs := mkDfs {
  color : gmap string colour;
  stack : list string;
  cycles : list (list string);
}.

Definition color_of (st : dfs) (id : string) : colour := default White (color st !! id).

(** The stack from the last position of [dep]. *)
Fixpoint cycle_from (dep : string) (stk : list string) : option (list string) :=
  match stk with
  | [] => None
  | x :: stk' =>
      match cycle_from dep stk' with
      | Some c => Some c
      | None => if String.eqb x dep then Some stk else None
      end
  end.

(** The first step of a chain of dependencies. *)
Lemma tc_first {A} (R : relation A) x z : tc R x z → R x z ∨ ∃ y, R x y ∧ tc R y z.
Proof. destruct 1; eauto. Qed.

Section Search.
Variable deps : gmap string (list string).

Definition succs (id : string) : list string := default [] (deps !! id).

(** The loop of visit over the dependencies of a node; [rec] visits one. *)
Fixpoint explore (rec : string → dfs → option dfs) (ds : list string) (st : dfs) : option dfs :=
  match ds with
  | [] => Some st
  | dep :: ds' =>
      st' ← match color_of st dep with
            | White => rec dep st
            | Gray =>
                Some (match cycle_from dep (stack st) with
                      | Some c => mkDfs (color st) (stack st) (cycles st ++ [c])
                      | None => st
                      end)
            | Black => Some st
            end;
      explore rec ds' st'
  end.

Fixpoint visit (fuel : nat) (id : string) (st : dfs) : option dfs :=
  match fuel with
  | O => None
  | S fuel' =>
      st' ← explore (visit fuel') (succs id) (mkDfs (<[id := Gray]> (color st)) (stack st ++ [id]) (cycles st));
      Some (mkDfs (<[id := Black]> (color st')) (removelast (stack st')) (cycles st'))
  end.

(** The outer loop. *)
Fixpoint visit_all (fuel : nat) (order : list string) (st : dfs) : option dfs :=
  match order with
  | [] => Some st
  | id :: order' =>
      st' ← match color_of st id with White => visit fuel id st | _ => Some st end;
      visit_all fuel order' st'
  end.

(** Every node the search can meet, and fuel for the deepest chain of them. *)
Definition universe : gset string := dom deps ∪ list_to_set (concat (map_to_list deps).*2).

Definition order : list string := merge_sort String.le (map_to_list deps).*1.

Definition search : option dfs := visit_all (S (size universe)) order (mkDfs ∅ [] []).

Definition findCycles : list (list string) := match search with Some st => cycles st | None => [] end.

(** * Meaning *)

Definition depends (x y : string) : Prop := y ∈ succs x.

(** A closed walk: each node depends on the next and the last on the first. *)
Fixpoint walk_ok (x : string) (rest : list string) (back : string) : Prop :=
  match rest with
  | [] => depends x back
  | y :: rest' => depends x y ∧ walk_ok y rest' back
  end.

Definition is_cycle (c : list string) : Prop :=
  match c with [] => False | x :: rest => walk_ok x rest x end.

Definition on_cycle (x : string) : Prop := tc depends x x.

Lemma walk_ok_tc x rest back : walk_ok x rest back → tc depends x back.
Proof.
  revert x. induction rest as [|y rest IH]; intros x; simpl; [by apply tc_once|].
  intros [Hxy Hw]. by eapply tc_l; [|apply IH].
Qed.

Lemma is_cycle_tc c : is_cycle c → ∃ x, x ∈ c ∧ on_cycle x.
Proof. destruct c as [|x rest]; [done|]. intros Hw. exists x. split; [by left|by eapply walk_ok_tc]. Qed.

Lemma elem_of_succs x y : depends x y → x ∈ universe ∧ y ∈ universe.
Proof.
  unfold depends, succs, universe. destruct (deps !! x) as [ys|] eqn:E; simpl; [|set_solver].
  intros Hy. split; apply elem_of_union; [left; by apply elem_of_dom_2 in E|right].
  apply elem_of_list_to_set. apply list_elem_of_In, in_concat. exists ys. split; [|by apply list_elem_of_In].
  apply list_elem_of_In, list_elem_of_fmap. exists (x, ys). split; [done|]. by apply elem_of_map_to_list.
Qed.

(** * The invariant *)

(** The path the stack holds: every node depends on the next one. *)
Fixpoint chain (stk : list string) : Prop :=
  match stk with
  | x :: (y :: _) as rest => depends x y ∧ chain rest
  | _ => True
  end.

Definition next_ok (stk : list string) (id : string) : Prop :=
  match last stk with Some x => depends x id | None => True end.

Lemma chain_snoc stk id : chain stk → next_ok stk id → chain (stk ++ [id]).
Proof.
  unfold next_ok. induction stk as [|x [|y stk] IH]; simpl; [done|done|].
  intros [Hxy Hc] Hn. split; [done|]. by apply IH.
Qed.

Lemma chain_suffix_walk x stk back : chain (x :: stk) → next_ok (x :: stk) back → walk_ok x stk back.
Proof.
  unfold next_ok. revert x. induction stk as [|y stk IH]; intros x; simpl; [done|].
  intros [Hxy Hc] Hn. split; [done|]. by apply IH.
Qed.

Lemma cycle_from_spec dep stk c :
  chain stk → next_ok stk dep → cycle_from dep stk = Some c → is_cycle c.
Proof.
  induction stk as [|x stk IH]; [done|]. intros Hc Hn. cbn [cycle_from].
  destruct (cycle_from dep stk) as [c'|] eqn:E.
  - intros [= <-]. apply IH; [by destruct stk; [|destruct Hc]| |done].
    unfold next_ok in *. destruct stk as [|y stk]; [done|]. by rewrite last_cons_cons in Hn.
  - destruct (String.eqb_spec x dep) as [->|]; [|done]. intros [= <-]. simpl. by apply chain_suffix_walk.
Qed.

Lemma cycle_from_mem dep stk : dep ∈ stk → cycle_from dep stk ≠ None.
Proof.
  induction stk as [|x stk IH]; [set_solver|]. cbn [cycle_from].
  intros [->|Hin]%elem_of_cons.
  - destruct (cycle_from x stk); [done|]. by rewrite String.eqb_refl.
  - apply IH in Hin. by destruct (cycle_from dep stk).
Qed.

Definition is_black (st : dfs) (x : string) : Prop := color_of st x = Black.

(** Black nodes lead only to black nodes, and lie on no cycle. *)
Definition settled_black (st : dfs) : Prop :=
  (∀ x y, is_black st x → depends x y → is_black st y) ∧ (∀ x, is_black st x → ¬ on_cycle x).

Record invariant (st : dfs) : Prop := {
  inv_chain : chain (stack st);
  inv_gray : ∀ x, color_of st x = Gray ↔ x ∈ stack st;
  inv_cycles : ∀ c, c ∈ cycles st → is_cycle c;
  inv_black : cycles st = [] → settled_black st;
}.

Definition white_count (st : dfs) : nat := size (filter (λ x, color_of st x = White) universe).

(** What a visit leaves: the same stack, more cycles, no new gray node, and
    only fewer white ones. *)
Record extends (st st' : dfs) : Prop := {
  ext_stack : stack st' = stack st;
  ext_cycles : ∃ cs, cycles st' = cycles st ++ cs;
  ext_black : ∀ x, is_black st x → is_black st' x;
  ext_white : ∀ x, color_of st' x = White → color_of st x = White;
}.

#[export] Instance extends_preorder : PreOrder extends.
Proof.
  split.
  - intros st. split; auto. exists []. by rewrite (right_id_L [] (++)).
  - intros s1 s2 s3 [A1 (c1 & B1) C1 D1] [A2 (c2 & B2) C2 D2]. split; auto; [congruence|].
    exists (c1 ++ c2). by rewrite B2, B1, (assoc_L (++)).
Qed.

Lemma extends_white_count st st' : extends st st' → (white_count st' ≤ white_count st)%nat.
Proof.
  intros [_ _ _ Hw]. unfold white_count. apply subseteq_size. intros x. rewrite !elem_of_filter. naive_solver.
Qed.

Lemma color_insert m stk cs id c x :
  color_of (mkDfs (<[id := c]> m) stk cs) x = if decide (id = x) then c else default White (m !! x).
Proof.
  unfold color_of. simpl. destruct (decide (id = x)) as [->|Hne]; [by rewrite lookup_insert_eq|].
  by rewrite lookup_insert_ne.
Qed.

(** * The search keeps the invariant *)

Lemma closed_tc (B : string → Prop) x y :
  (∀ x y, B x → depends x y → B y) → tc depends x y → B x → B y.
Proof. intros Hcl. induction 1; eauto. Qed.

Lemma white_count_pos st id : color_of st id = White → id ∈ universe → (0 < white_count st)%nat.
Proof.
  intros Hw Hu. unfold white_count. apply Nat.neq_0_lt_0. rewrite size_non_empty_iff. set_solver.
Qed.

Definition enter (id : string) (st : dfs) : dfs :=
  mkDfs (<[id := Gray]> (color st)) (stack st ++ [id]) (cycles st).

Definition leave (id : string) (st : dfs) : dfs :=
  mkDfs (<[id := Black]> (color st)) (removelast (stack st)) (cycles st).

Lemma color_enter id st x : color_of (enter id st) x = if decide (id = x) then Gray else color_of st x.
Proof. apply color_insert. Qed.

Lemma color_leave id st x : color_of (leave id st) x = if decide (id = x) then Black else color_of st x.
Proof. apply color_insert. Qed.

Lemma enter_white_count id st :
  color_of st id = White → id ∈ universe → (white_count (enter id st) < white_count st)%nat.
Proof.
  intros Hw Hu. unfold white_count. apply subset_size. apply strict_spec_alt. split.
  - intros x. rewrite !elem_of_filter, color_enter. destruct (decide (id = x)); naive_solver.
  - intros Heq. assert (Hin : id ∈ filter (λ x, color_of st x = White) universe) by (by apply elem_of_filter).
    rewrite <- Heq, elem_of_filter, color_enter, decide_True in Hin by done. naive_solver.
Qed.

Lemma white_not_on_stack st id : invariant st → color_of st id = White → id ∉ stack st.
Proof. intros Hi Hw Hin. apply (inv_gray st Hi) in Hin. congruence. Qed.

Lemma enter_invariant id st :
  invariant st → color_of st id = White → next_ok (stack st) id → invariant (enter id st).
Proof.
  intros [Hc Hg Hcy Hb] Hw Hn. split; simpl; [by apply chain_snoc| |done|].
  - intros x. rewrite color_enter, elem_of_app, list_elem_of_singleton. destruct (decide (id = x)) as [->|Hne]; [naive_solver|].
    rewrite Hg. naive_solver.
  - intros He. destruct (Hb He) as [Hcl Hac]. unfold settled_black, is_black. setoid_rewrite color_enter. split.
    + intros x y Hx Hd. destruct (decide (id = x)); [done|]. pose proof (Hcl x y Hx Hd) as Hy.
      unfold is_black in Hy. destruct (decide (id = y)) as [->|]; [congruence|done].
    + intros x Hx. destruct (decide (id = x)); [done|]. by apply Hac.
Qed.

Lemma leave_invariant id st st2 :
  invariant st → color_of st id = White → extends (enter id st) st2 → invariant st2 →
  (cycles st2 = [] → ∀ d, depends id d → is_black st2 d) →
  invariant (leave id st2) ∧ extends st (leave id st2) ∧ is_black (leave id st2) id.
Proof.
  intros Hi Hw [Hs (cs & Hcs) Hbl Hwh] [Hc2 Hg2 Hcy2 Hb2] Hsucc. simpl in Hs, Hcs.
  assert (Hrm : stack (leave id st2) = stack st) by (unfold leave; simpl; by rewrite Hs, removelast_last).
  assert (Hgray : color_of st2 id = Gray) by (apply Hg2; rewrite Hs; set_solver).
  pose proof (white_not_on_stack st id Hi Hw) as Hnot. split_and!.
  - split; [rewrite Hrm; by apply inv_chain| |done|].
    + intros x. rewrite color_leave, Hrm. destruct (decide (id = x)) as [->|Hne]; [naive_solver|].
      rewrite Hg2, Hs, elem_of_app, list_elem_of_singleton. naive_solver.
    + intros He. destruct (Hb2 He) as [Hcl Hac]. specialize (Hsucc He).
      assert (Hid : ¬ on_cycle id).
      { intros Hon. apply tc_first in Hon. destruct Hon as [Hd|(y & Hd & Ht)].
        - apply Hsucc in Hd. unfold is_black in Hd. congruence.
        - apply (closed_tc (is_black st2)) in Ht; [unfold is_black in Ht; congruence|done|by apply Hsucc]. }
      unfold settled_black, is_black. setoid_rewrite color_leave. split.
      * intros x y Hx Hd. destruct (decide (id = y)); [done|]. destruct (decide (id = x)) as [->|]; [by apply Hsucc|by eapply Hcl].
      * intros x Hx. destruct (decide (id = x)) as [->|]; [done|by apply Hac].
  - split; [done|exists cs; done| |].
    + intros x Hx. unfold is_black. rewrite color_leave. destruct (decide (id = x)) as [->|Hne]; [done|].
      apply Hbl. unfold is_black. by rewrite color_enter, decide_False.
    + intros x. rewrite color_leave. destruct (decide (id = x)); [done|]. intros Hx%Hwh.
      by rewrite color_enter, decide_False in Hx.
  - unfold is_black. by rewrite color_leave, decide_True.
Qed.

(** What one call of visit promises, for searches with at most [bound] white
    nodes left. *)
Definition visits (bound : nat) (rec : string → dfs → option dfs) : Prop :=
  ∀ id st, invariant st → color_of st id = White → next_ok (stack st) id → id ∈ universe →
    (white_count st ≤ bound)%nat →
    ∃ st', rec id st = Some st' ∧ invariant st' ∧ extends st st' ∧ is_black st' id.

Lemma gray_invariant st dep c :
  invariant st → next_ok (stack st) dep → cycle_from dep (stack st) = Some c →
  invariant (mkDfs (color st) (stack st) (cycles st ++ [c])) ∧
  extends st (mkDfs (color st) (stack st) (cycles st ++ [c])).
Proof.
  intros [Hc Hg Hcy Hb] Hn Hcf. split; split; simpl; auto; [| |by eexists].
  - intros c'. rewrite elem_of_app, list_elem_of_singleton. intros [?| ->]; [by apply Hcy|].
    by eapply cycle_from_spec.
  - intros []%app_nil. done.
Qed.

Lemma explore_spec bound rec ds st :
  visits bound rec → invariant st → (∀ d, d ∈ ds → next_ok (stack st) d ∧ d ∈ universe) →
  (white_count st ≤ bound)%nat →
  ∃ st', explore rec ds st = Some st' ∧ invariant st' ∧ extends st st' ∧
    (cycles st' = [] → ∀ d, d ∈ ds → is_black st' d).
Proof.
  intros Hrec. revert st. induction ds as [|d ds IH]; intros st Hi Hds Hb; simpl.
  { exists st. split_and!; [done|done|done|set_solver]. }
  assert (Hstep : ∃ st1, match color_of st d with
      | White => rec d st
      | Gray => Some (match cycle_from d (stack st) with
                      | Some c => mkDfs (color st) (stack st) (cycles st ++ [c])
                      | None => st end)
      | Black => Some st end = Some st1 ∧ invariant st1 ∧ extends st st1 ∧ (cycles st1 = [] → is_black st1 d)).
  { destruct (Hds d ltac:(by left)) as [Hn Hu]. destruct (color_of st d) eqn:Ec.
    - destruct (Hrec d st) as (st1 & ? & ? & ? & ?); [done..|]. eauto 6.
    - destruct (cycle_from d (stack st)) as [c|] eqn:Ecf.
      + eexists. split; [done|]. destruct (gray_invariant st d c Hi Hn Ecf). split_and!; [done|done|].
        simpl. by intros []%app_nil.
      + exfalso. by apply (cycle_from_mem d (stack st)); [apply (inv_gray st Hi)|].
    - exists st. split_and!; done. }
  destruct Hstep as (st1 & -> & Hi1 & He1 & Hb1). simpl.
  destruct (IH st1) as (st' & -> & Hi' & He' & Hb').
  - done.
  - intros d' Hd'. rewrite (ext_stack _ _ He1). apply Hds. by right.
  - pose proof (extends_white_count _ _ He1). lia.
  - exists st'. split_and!; [done|done|by etransitivity|]. intros Hnil d' [->|Hd']%elem_of_cons; [|by apply Hb'].
    apply (ext_black _ _ He'), Hb1. destruct (ext_cycles _ _ He') as [cs Hcs]. rewrite Hcs in Hnil.
    by apply app_nil in Hnil as [? _].
Qed.

Lemma visit_spec fuel : visits fuel (visit fuel).
Proof.
  induction fuel as [|fuel IH]; intros id st Hi Hw Hn Hu Hb.
  { pose proof (white_count_pos st id Hw Hu). lia. }
  simpl. change (mkDfs (<[id:=Gray]> (color st)) (stack st ++ [id]) (cycles st)) with (enter id st).
  destruct (explore_spec fuel (visit fuel) (succs id) (enter id st)) as (st2 & -> & Hi2 & He2 & Hb2).
  - done.
  - by apply enter_invariant.
  - intros d Hd. split; [|by apply (elem_of_succs id d)]. unfold next_ok, enter. simpl. by rewrite last_snoc.
  - pose proof (enter_white_count id st Hw Hu). lia.
  - eexists. split; [done|]. by apply (leave_invariant id st st2).
Qed.

Lemma visit_all_spec fuel order st :
  invariant st → stack st = [] → (∀ id, id ∈ order → id ∈ universe) → (white_count st ≤ fuel)%nat →
  ∃ st', visit_all fuel order st = Some st' ∧ invariant st' ∧ extends st st' ∧
    (∀ id, id ∈ order → is_black st' id).
Proof.
  revert st. induction order as [|id order IH]; intros st Hi Hs Ho Hb; simpl.
  { exists st. split_and!; [done|done|done|set_solver]. }
  assert (Hstep : ∃ st1, match color_of st id with White => visit fuel id st | _ => Some st end = Some st1 ∧
      invariant st1 ∧ extends st st1 ∧ is_black st1 id).
  { destruct (color_of st id) eqn:Ec.
    - apply visit_spec; [done|done|by rewrite Hs|apply Ho; by left|done].
    - apply (inv_gray st Hi) in Ec. rewrite Hs in Ec. set_solver.
    - exists st. split_and!; done. }
  destruct Hstep as (st1 & -> & Hi1 & He1 & Hb1). simpl.
  destruct (IH st1) as (st' & -> & Hi' & He' & Hb').
  - done.
  - by rewrite (ext_stack _ _ He1).
  - intros d Hd. apply Ho. by right.
  - pose proof (extends_white_count _ _ He1). lia.
  - exists st'. split_and!; [done|done|by etransitivity|]. intros d [->|Hd]%elem_of_cons; [|by apply Hb'].
    by apply (ext_black _ _ He').
Qed.

Lemma elem_of_order id : id ∈ order ↔ is_Some (deps !! id).
Proof.
  unfold order. rewrite merge_sort_Permutation, list_elem_of_fmap. split.
  - intros ([k v] & -> & Hin%elem_of_map_to_list). eauto.
  - intros [v Hv]. exists (id, v). split; [done|]. by apply elem_of_map_to_list.
Qed.

Lemma search_spec :
  ∃ st, search = Some st ∧ invariant st ∧ (∀ id, is_Some (deps !! id) → is_black st id).
Proof.
  unfold search. destruct (visit_all_spec (S (size universe)) order (mkDfs ∅ [] [])) as (st & -> & Hi & _ & Hb).
  - split; simpl; [done| |set_solver|].
    + intros x. unfold color_of. simpl. rewrite lookup_empty. simpl. set_solver.
    + intros _. split; intros x; unfold is_black, color_of; simpl; by rewrite lookup_empty.
  - done.
  - intros id Hid%elem_of_order. unfold universe. apply elem_of_union. left. by apply elem_of_dom.
  - unfold white_count. transitivity (size universe); [|lia]. apply subseteq_size. set_solver.
  - exists st. split_and!; [done|done|]. intros id Hid. by apply Hb, elem_of_order.
Qed.

Lemma findCycles_sound c : c ∈ findCycles → is_cycle c.
Proof. unfold findCycles. destruct search_spec as (st & -> & Hi & _). apply (inv_cycles st Hi). Qed.

Lemma findCycles_complete : findCycles = [] → ∀ x, ¬ on_cycle x.
Proof.
  unfold findCycles. destruct search_spec as (st & -> & Hi & Hb). intros Hnil x Hx.
  apply (proj2 (inv_black st Hi Hnil) x); [|done]. apply Hb.
  apply tc_first in Hx as [Hd|(y & Hd & _)]; unfold depends, succs in Hd; destruct (deps !! x); eauto; set_solver.
Qed.

Lemma findCycles_nil : findCycles = [] ↔ ∀ x, ¬ on_cycle x.
Proof.
  split; [apply findCycles_complete|]. intros Hno. destruct findCycles as [|c cs] eqn:E; [done|].
  destruct (is_cycle_tc c) as (x & _ & Hx); [apply findCycles_sound; rewrite E; by left|]. by destruct (Hno x).
Qed.
End Search.

(** C32: the search always finishes within its fuel, every sequence it reports is
    a real dependency cycle, and it reports none exactly when no node depends
    on itself through any chain of dependencies. *)
Theorem find_cycles_correct (deps : gmap string (list string)) :
  is_Some (search deps) ∧
  (∀ c, c ∈ findCycles deps → is_cycle deps c) ∧
  (findCycles deps = [] ↔ ∀ x, ¬ tc (depends deps) x x).
Proof.
  split_and!; [|apply findCycles_sound|apply findCycles_nil].
  destruct (search_spec deps) as (st & -> & _). eauto.
Qed.
