(* ===== verification/Validate.v ===== *)
(** Validation of a whole graph (internal/engine/validate.go): the issues, in
    the order the code reports them, and what a graph without errors
    guarantees.  The order among the entries of one Go map is unspecified and
    is [map_to_list]'s here; no theorem depends on it. *)

From S2P Require Import Prelude GoStr GoFloat GoTime Dsl DslFacts Graph NodeTypes Workflow Roles State Readiness ReadyFacts Effects Cycles.
From stdpp Require Import pretty relations.
From Stdlib Require Import Ascii.
Open Scope Z_scope.

Definition WriteAccessAll : string := EmptyString.
Definition WriteAccessWorker : string := "worker".
Definition WriteAccessOrchestrator : string := "orchestrator".
Definition WriteAccessHumanOnly : string := "human-only".

(** The messages, one constructor per format. *)
Inductive IssueMsg :=
  | GraphIsNull
  | BadVersion
  | TypeRule (p : TypeProblem)
  | RoleRule (p : RoleProblem)
  | WorkflowRule (e : WorkflowError)
  | AcceptanceRule (e : AcceptanceError)
  | NodeIsNull (index : nat)
  | NodeEmptyID
  | InvalidNodeID (id : string)
  | DuplicateNodeID (id : string)
  | InvalidPriority (p : string)
  | InvalidWriteAccess (a : string)
  | EffectsNeverRun (label : string)
  | EffectRule (e : EffectError)
  | UnknownKinds (total : nat) (parts : list (string * nat)) (more : bool)
  | SyntaxError (m : ErrMsg)
  | UnknownNode (ref : string)
  | DependsOnItself
  | UndeclaredFlag (f : string)
  | EdgeIsNull (index : nat)
  | EdgeFromUnknown (id : string)
  | EdgeToUnknown (id : string)
  | UnknownOwner (id : string)
  | NotFinite
  | GateNeedsBoth
  | BadRatio
  | UnknownEdgeKey (key : string)
  | TooManyVertices (key : string)
  | TooManyPlanStatuses
  | InvalidPlanStatusID (id : string)
  | BadPlanStatusLabel (id : string)
  | DuplicatePlanStatus (id : string)
  | DuplicatePlanLabel (label : string)
  | InvalidPlanDate (date : string)
  | InvalidPlanStatus (status : string)
  | DuplicateMilestone (status : string)
  | ProgressBeforeStart
  | CompletionBeforeProgress
  | CompletionBeforeStart
  | UnknownStyleShape (shape : string)
  | BadDimensions
  | InvalidDecorationID (id : string)
  | DuplicateDecorationID (id : string)
  | BadGeometry (id : string)
  | DependencyCycle (cycle : list string)
  | WireCycle (cycle : list string)
  | NotConnected.

Record Issue := mkIssue {
  is_Severity : string;
  is_NodeID : string;
  is_Field : string;
  is_Offset : Z;
  is_Msg : IssueMsg;
}.

Definition error (nodeID field : string) (m : IssueMsg) : Issue := mkIssue "error" nodeID field (-1) m.
Definition warning (nodeID field : string) (m : IssueMsg) : Issue := mkIssue "warning" nodeID field (-1) m.

Definition option_issue {A} (o : option A) (f : A → Issue) : list Issue :=
  match o with Some x => [f x] | None => [] end.

Definition not_finite (f : float64) : bool := is_nan f || is_inf f.

Definition outside (f lo hi : float64) : bool := f_ltb f lo || f_ltb hi f.

(** joinCycle. *)
Definition joinCycle (cycle : list string) : string :=
  concat_str ((λ id, id +:+ " -> ") <$> cycle) +:+ hd EmptyString cycle.

Section Validate.
Context `{Unicode}.

(** * Project-level rules *)

Definition project_issues (g : Graph) : list Issue :=
  when (Version g <? 1) (error EmptyString "version" BadVersion)
  ++ ((λ p, error EmptyString "node_types" (TypeRule p)) <$> NodeTypeDefProblems (NodeTypes g))
  ++ ((λ p, error EmptyString "agent_roles" (RoleRule p)) <$> AgentRoleDefProblems (AgentRoles g))
  ++ option_issue (ValidateGraphWorkflows (Some g)) (λ e, error EmptyString "workflow" (WorkflowRule e))
  ++ concat ((λ n, option_issue (ValidateNodeAcceptance (Some g) (Some n))
                     (λ e, error (n_ID n) "acceptance" (AcceptanceRule e))) <$> node_list g).

(** * Nodes *)

(** What the node loop carries: the ids seen and the unknown kinds. *)
Record scan := mkScan {
  sc_ids : gset string;
  sc_kinds : list string;
  sc_count : gmap string nat;
  sc_first : string;
  sc_nodes : nat;
}.

Definition effect_issues (g : Graph) (n : Node) : list Issue :=
  let completion := nt_Completion (TypeOf (Some g) (Some n)) in
  when (nonempty (n_Effects n) && one_of completion [CompletionAuto; CompletionNone])
    (warning (n_ID n) "effects" (EffectsNeverRun (nt_Label (TypeOf (Some g) (Some n)))))
  ++ concat (imap (λ i e, option_issue (ValidateEffect (ef_Set e))
                     (λ err, error (n_ID n) ("effects[" +:+ pretty (Z.of_nat i) +:+ "]") (EffectRule err))) (n_Effects n)).

(** The kind hint of one node. *)
Definition scan_kind (g : Graph) (n : Node) (st : scan) : scan :=
  if KnownNodeKind (Some g) (NormalizeNodeKind (n_Kind n)) then st
  else
    let count := default 0%nat (sc_count st !! n_Kind n) in
    mkScan (sc_ids st) (if (count =? 0)%nat then sc_kinds st ++ [n_Kind n] else sc_kinds st)
      (<[n_Kind n := S count]> (sc_count st))
      (if String.eqb (sc_first st) EmptyString then n_ID n else sc_first st) (S (sc_nodes st)).

Definition add_id (id : string) (st : scan) : scan :=
  mkScan ({[ id ]} ∪ sc_ids st) (sc_kinds st) (sc_count st) (sc_first st) (sc_nodes st).

Fixpoint node_issues (g : Graph) (index : nat) (nodes : list (option Node)) (st : scan) : list Issue * scan :=
  match nodes with
  | [] => ([], st)
  | None :: nodes' =>
      let '(issues, st') := node_issues g (S index) nodes' st in
      (error EmptyString "nodes" (NodeIsNull index) :: issues, st')
  | Some n :: nodes' =>
      if String.eqb (n_ID n) EmptyString then
        let '(issues, st') := node_issues g (S index) nodes' st in
        (error EmptyString "id" NodeEmptyID :: issues, st')
      else
        let here :=
          when (negb (ValidNodeID (n_ID n))) (error (n_ID n) "id" (InvalidNodeID (n_ID n)))
          ++ when (bool_decide (n_ID n ∈ sc_ids st)) (error (n_ID n) "id" (DuplicateNodeID (n_ID n)))
          ++ when (negb (one_of (n_Priority n) [EmptyString; "urgent"; "high"; "medium"; "low"]))
               (error (n_ID n) "priority" (InvalidPriority (n_Priority n)))
          ++ when (negb (one_of (n_WriteAccess n) [WriteAccessAll; WriteAccessWorker; WriteAccessOrchestrator; WriteAccessHumanOnly]))
               (error (n_ID n) "write_access" (InvalidWriteAccess (n_WriteAccess n)))
          ++ effect_issues g n in
        let '(issues, st') := node_issues g (S index) nodes' (scan_kind g n (add_id (n_ID n) st)) in
        (here ++ issues, st')
  end.

(** The one hint about unknown kinds, with at most five named. *)
Definition kind_hint (st : scan) : list Issue :=
  when (0 <? sc_nodes st)%nat
    (mkIssue "info" (sc_first st) "kind" (-1)
       (UnknownKinds (sc_nodes st)
          ((λ kind, (kind, default 0%nat (sc_count st !! kind))) <$> take 5 (sc_kinds st))
          (5 <? length (sc_kinds st))%nat)).

(** * Requires *)

Definition has_id (n : Node) : bool := negb (String.eqb (n_ID n) EmptyString).

(** The issues of one node's condition. *)
Definition requires_issues (g : Graph) (ids : gset string) (n : Node) : list Issue :=
  match RequiresExpr n with
  | Fail perr => [mkIssue "error" (n_ID n) "requires" (Offset perr) (SyntaxError (Msg perr))]
  | Ok (Some expr) =>
      concat ((λ ref, when (negb (bool_decide (ref ∈ ids))) (error (n_ID n) "requires" (UnknownNode ref))
                      ++ when (String.eqb ref (n_ID n)) (error (n_ID n) "requires" DependsOnItself)) <$> NodeRefs expr)
      ++ concat ((λ f, when (negb (bool_decide (is_Some (GFlags g !! f)))) (warning (n_ID n) "requires" (UndeclaredFlag f)))
                 <$> FlagRefs expr)
  | _ => []
  end.

Definition requires_refs (n : Node) : option (list string) :=
  match RequiresExpr n with Ok (Some expr) => Some (NodeRefs expr) | _ => None end.

Definition requires_deps (g : Graph) : gmap string (list string) :=
  foldl (λ deps n, if has_id n then
                     match requires_refs n with Some refs => <[n_ID n := refs]> deps | None => deps end
                   else deps) ∅ (node_list g).

(** * Edges *)

Definition edge_key (e : Edge) : string := e_From e +:+ "->" +:+ e_To e.

Fixpoint edge_issues (ids : gset string) (index : nat) (edges : list (option Edge)) : list Issue :=
  match edges with
  | [] => []
  | None :: edges' => error EmptyString "edges" (EdgeIsNull index) :: edge_issues ids (S index) edges'
  | Some e :: edges' =>
      when (negb (bool_decide (e_From e ∈ ids))) (error EmptyString "edges" (EdgeFromUnknown (e_From e)))
      ++ when (negb (bool_decide (e_To e ∈ ids))) (error EmptyString "edges" (EdgeToUnknown (e_To e)))
      ++ edge_issues ids (S index) edges'
  end.

Definition edge_keys (g : Graph) : gset string := list_to_set (edge_key <$> edge_list g).

Definition wire_deps (g : Graph) : gmap string (list string) :=
  foldl (λ deps e, if Blocks (Some e) then <[e_To e := default [] (deps !! e_To e) ++ [e_From e]]> deps else deps)
    ∅ (edge_list g).
End Validate.

(** * Editor data *)

Definition position_issues (ids : gset string) (nodeID : string) (p : Position) : list Issue :=
  when (negb (bool_decide (nodeID ∈ ids))) (error nodeID "ui.positions" (UnknownOwner nodeID))
  ++ when (not_finite (p_X p) || not_finite (p_Y p)) (error nodeID "ui.positions" NotFinite).

Definition bad_ratio (r : float64) : bool := not_finite r || outside r f_zero f_one.

Definition gate_issues (ids : gset string) (nodeID : string) (p : GatePlacement) : list Issue :=
  when (negb (bool_decide (nodeID ∈ ids))) (error nodeID "ui.gates" (UnknownOwner nodeID))
  ++ match gp_X p, gp_Y p with
     | Some x, Some y => when (not_finite x || not_finite y) (error nodeID "ui.gates" NotFinite)
     | None, None => when (bad_ratio (default f_zero (gp_Ratio p))) (error nodeID "ui.gates" BadRatio)
     | _, _ => [error nodeID "ui.gates" GateNeedsBoth]
     end.

Definition label_issues (keys : gset string) (key : string) (p : EdgeLabelPlacement) : list Issue :=
  when (negb (bool_decide (key ∈ keys))) (error EmptyString "ui.edge_labels" (UnknownEdgeKey key))
  ++ when (bad_ratio (elp_Ratio p)) (error EmptyString "ui.edge_labels" BadRatio).

Definition vertex_issues (ids keys : gset string) (key : string) (vertices : list Position) : list Issue :=
  let valid := if has_prefix key "gate:" then bool_decide (trim_prefix key "gate:" ∈ ids)
               else bool_decide (key ∈ keys) in
  when (negb valid) (error EmptyString "ui.wire_vertices" (UnknownEdgeKey key))
  ++ when (64 <? length vertices)%nat (error EmptyString "ui.wire_vertices" (TooManyVertices key))
  ++ when (existsb (λ v, not_finite (p_X v) || not_finite (p_Y v)) vertices)
       (error EmptyString "ui.wire_vertices" NotFinite).

(** The custom plan statuses, with the statuses and labels taken. *)
Fixpoint plan_status_issues `{Unicode} (statuses labels : gset string) (defs : list PlanStatusDefinition)
    : list Issue * gset string :=
  match defs with
  | [] => ([], statuses)
  | d :: defs' =>
      let label := trim_space (psd_Label d) in
      let here :=
        when (negb (has_prefix (psd_ID d) "custom-" && ValidNodeID (psd_ID d)))
          (error EmptyString "ui.plan_statuses" (InvalidPlanStatusID (psd_ID d)))
        ++ when (String.eqb label EmptyString || (128 <? String.length label)%nat)
          (error EmptyString "ui.plan_statuses" (BadPlanStatusLabel (psd_ID d)))
        ++ when (bool_decide (psd_ID d ∈ statuses)) (error EmptyString "ui.plan_statuses" (DuplicatePlanStatus (psd_ID d)))
        ++ when (bool_decide (to_lower label ∈ labels)) (error EmptyString "ui.plan_statuses" (DuplicatePlanLabel label)) in
      let '(rest, statuses') := plan_status_issues ({[ psd_ID d ]} ∪ statuses) ({[ to_lower label ]} ∪ labels) defs' in
      (here ++ rest, statuses')
  end.

Fixpoint milestone_issues (statuses : gset string) (nodeID : string) (seen : gset string) (dates : gmap string string)
    (plans : list PlanMilestone) : list Issue * gmap string string :=
  match plans with
  | [] => ([], dates)
  | p :: plans' =>
      let bad_date := when (negb (valid_date (pm_Date p))) (error nodeID "ui.plans" (InvalidPlanDate (pm_Date p))) in
      if negb (bool_decide (pm_Status p ∈ statuses)) then
        let '(rest, dates') := milestone_issues statuses nodeID seen dates plans' in
        (bad_date ++ error nodeID "ui.plans" (InvalidPlanStatus (pm_Status p)) :: rest, dates')
      else
        let '(rest, dates') := milestone_issues statuses nodeID ({[ pm_Status p ]} ∪ seen)
                                 (<[pm_Status p := pm_Date p]> dates) plans' in
        (bad_date ++ when (bool_decide (pm_Status p ∈ seen)) (error nodeID "ui.plans" (DuplicateMilestone (pm_Status p)))
         ++ rest, dates')
  end.

(** Both dates are set and the first is after the second, as text. *)
Definition dates_after (dates : gmap string string) (first second : Status) : bool :=
  let a := default EmptyString (dates !! first) in
  let b := default EmptyString (dates !! second) in
  negb (String.eqb a EmptyString) && negb (String.eqb b EmptyString) && string_ltb b a.

Definition plan_issues (ids statuses : gset string) (nodeID : string) (plans : list PlanMilestone) : list Issue :=
  let '(issues, dates) := milestone_issues statuses nodeID ∅ ∅ plans in
  when (negb (bool_decide (nodeID ∈ ids))) (error nodeID "ui.plans" (UnknownOwner nodeID))
  ++ issues
  ++ when (dates_after dates StatusStarted StatusInProgress) (error nodeID "ui.plans" ProgressBeforeStart)
  ++ when (dates_after dates StatusInProgress StatusDone) (error nodeID "ui.plans" CompletionBeforeProgress)
  ++ when (dates_after dates StatusStarted StatusDone) (error nodeID "ui.plans" CompletionBeforeStart).

(** A dimension that is set must lie between the bounds. *)
Definition bad_dimension (f : float64) (lo hi : Z) : bool :=
  negb (f_eqb f f_zero) && outside f (f_of_int lo) (f_of_int hi).

Definition style_issues (ids : gset string) (nodeID : string) (s : NodeStyle) : list Issue :=
  when (negb (bool_decide (nodeID ∈ ids))) (error nodeID "ui.node_styles" (UnknownOwner nodeID))
  ++ when (negb (ValidNodeShape (ns_Shape s))) (warning nodeID "ui.node_styles" (UnknownStyleShape (ns_Shape s)))
  ++ when (not_finite (ns_Width s) || not_finite (ns_Height s)
           || bad_dimension (ns_Width s) 120 360 || bad_dimension (ns_Height s) 52 180)
       (error nodeID "ui.node_styles" BadDimensions).

(** checkDecoration over a list of decorations. *)
Fixpoint decoration_issues (seen : gset string) (field : string)
    (ds : list (string * (float64 * float64 * float64 * float64))) : list Issue * gset string :=
  match ds with
  | [] => ([], seen)
  | (id, (x, y, w, h)) :: ds' =>
      let here :=
        when (negb (ValidNodeID id)) (error EmptyString field (InvalidDecorationID id))
        ++ when (bool_decide (id ∈ seen)) (error EmptyString field (DuplicateDecorationID id))
        ++ when (not_finite x || not_finite y || not_finite w || not_finite h || f_ltb x f_zero || f_ltb y f_zero
                 || f_ltb w (f_of_int 80) || f_ltb h (f_of_int 60)) (error EmptyString field (BadGeometry id)) in
      let '(rest, seen') := decoration_issues ({[ id ]} ∪ seen) field ds' in
      (here ++ rest, seen')
  end.

Definition group_box (c : CanvasGroup) : string * (float64 * float64 * float64 * float64) :=
  (cg_ID c, (cg_X c, cg_Y c, cg_Width c, cg_Height c)).
Definition annotation_box (c : CanvasAnnotation) : string * (float64 * float64 * float64 * float64) :=
  (ca_ID c, (ca_X c, ca_Y c, ca_Width c, ca_Height c)).

Definition over_map {A} (m : gmap string A) (f : string → A → list Issue) : list Issue :=
  concat ((λ kv, f kv.1 kv.2) <$> map_to_list m).

Definition ui_issues `{Unicode} (ids keys : gset string) (ui : UIState) : list Issue :=
  let '(status_issues, statuses) :=
    plan_status_issues (list_to_set [StatusStarted; StatusInProgress; StatusDone]) ∅ (ui_PlanStatuses ui) in
  let '(group_list, seen) := decoration_issues ∅ "ui.groups" (group_box <$> ui_Groups ui) in
  let '(annotation_list, _) := decoration_issues seen "ui.annotations" (annotation_box <$> ui_Annotations ui) in
  over_map (ui_Positions ui) (position_issues ids)
  ++ over_map (ui_Gates ui) (gate_issues ids)
  ++ over_map (ui_EdgeLabels ui) (label_issues keys)
  ++ over_map (ui_WireVertices ui) (vertex_issues ids keys)
  ++ when (64 <? length (ui_PlanStatuses ui))%nat (error EmptyString "ui.plan_statuses" TooManyPlanStatuses)
  ++ status_issues
  ++ over_map (ui_Plans ui) (plan_issues ids statuses)
  ++ over_map (ui_NodeStyles ui) (style_issues ids)
  ++ group_list ++ annotation_list.

(** * Cycles and connections *)

Definition cycle_issues (field : string) (msg : list string → IssueMsg) (deps : gmap string (list string)) : list Issue :=
  (λ c, error (hd EmptyString c) field (msg c)) <$> findCycles deps.

Section Connected.
Context `{Unicode}.

Definition in_flow (g : Graph) (n : Node) : bool := negb (no_status g n).

Definition connected_ids (g : Graph) : gset string :=
  list_to_set (concat ((λ kv, match kv.2 with [] => [] | refs => kv.1 :: refs end) <$> map_to_list (requires_deps g)))
  ∪ list_to_set (concat ((λ e, [e_From e; e_To e]) <$> edge_list g)).

Definition connection_issues (g : Graph) : list Issue :=
  if (1 <? length (List.filter (in_flow g) (node_list g)))%nat
  then concat ((λ n, when (in_flow g n && has_id n && negb (bool_decide (n_ID n ∈ connected_ids g)))
                       (warning (n_ID n) EmptyString NotConnected)) <$> node_list g)
  else [].

(** * Validate *)

Definition Validate (g : option Graph) : list Issue :=
  match g with
  | None => [error EmptyString EmptyString GraphIsNull]
  | Some g =>
      let '(nodes, st) := node_issues g 0 (Nodes g) (mkScan ∅ [] ∅ EmptyString 0) in
      let ids := sc_ids st in
      project_issues g
      ++ nodes
      ++ kind_hint st
      ++ concat ((λ n, if has_id n then requires_issues g ids n else []) <$> node_list g)
      ++ edge_issues ids 0 (Edges g)
      ++ match UI g with Some ui => ui_issues ids (edge_keys g) ui | None => [] end
      ++ cycle_issues "requires" DependencyCycle (requires_deps g)
      ++ cycle_issues "edges" WireCycle (wire_deps g)
      ++ connection_issues g
  end.
End Connected.
