(* ===== verification/ValidSound.v ===== *)
(** What a graph without validation errors guarantees: distinct valid ids,
    conditions that parse and name existing nodes, edges between existing
    nodes, and no dependency cycle, by condition or by wire. *)

From S2P Require Import Prelude GoStr GoFloat GoTime Dsl DslFacts Graph NodeTypes Workflow Roles State Readiness ReadyFacts Effects Cycles Validate.
From stdpp Require Import relations.
From Stdlib Require Import Ascii.
Open Scope Z_scope.

Definition is_error (i : Issue) : bool := String.eqb (is_Severity i) "error".
Definition has_error (issues : list Issue) : bool := existsb is_error issues.

Lemma no_error_spec issues : has_error issues = false ↔ ∀ i, i ∈ issues → is_error i = false.
Proof.
  unfold has_error. rewrite <- not_true_iff_false, existsb_elem. split.
  - intros Hn i Hi. apply not_true_iff_false. intros He. apply Hn. eauto.
  - intros Hall (i & Hi & He). rewrite Hall in He; done.
Qed.

Lemma no_error_app a b : has_error (a ++ b) = false ↔ has_error a = false ∧ has_error b = false.
Proof. unfold has_error. by rewrite existsb_app, orb_false_iff. Qed.

Lemma no_error_concat {A} (f : A → list Issue) xs :
  has_error (concat (f <$> xs)) = false ↔ ∀ x, x ∈ xs → has_error (f x) = false.
Proof.
  induction xs as [|x xs IH]; simpl; [set_solver|]. rewrite no_error_app, IH. split.
  - intros [Hx Hxs] y [->|Hy]%elem_of_cons; auto.
  - intros Hall. split; [apply Hall; by left|]. intros y Hy. apply Hall. by right.
Qed.

Lemma no_error_when b nodeID field m : has_error (when b (error nodeID field m)) = false ↔ b = false.
Proof. by destruct b. Qed.

Lemma no_error_option {A} (o : option A) nodeID field (m : A → IssueMsg) :
  has_error (option_issue o (λ x, error nodeID field (m x))) = false ↔ o = None.
Proof. by destruct o. Qed.

Lemma no_error_fmap {A} (f : A → string) field (m : A → IssueMsg) xs :
  has_error ((λ x, error (f x) field (m x)) <$> xs) = false ↔ xs = [].
Proof. by destruct xs. Qed.

Create Rewrite HintDb noerr.
#[export] Hint Rewrite no_error_app @no_error_concat no_error_when @no_error_option @no_error_fmap negb_false_iff : noerr.

(** * The relations of a graph *)

(** A node depends on another through its condition. *)
Definition requires_on `{Unicode} (g : Graph) (x y : string) : Prop :=
  ∃ n e, n ∈ node_list g ∧ n_ID n = x ∧ Parse (n_Requires n) = Ok (Some e) ∧ y ∈ NodeRefs e.

(** A node depends on another through a required wire. *)
Definition wired_on (g : Graph) (x y : string) : Prop :=
  ∃ e, e ∈ edge_list g ∧ e_Relation e = RelationRequired ∧ e_To e = x ∧ e_From e = y.

Record well_formed `{Unicode} (g : Graph) : Prop := {
  wf_no_nil : Nodes g = Some <$> node_list g ∧ Edges g = Some <$> edge_list g;
  wf_distinct : distinct_ids g;
  wf_valid_ids : ∀ n, n ∈ node_list g → ValidNodeID (n_ID n) = true;
  wf_conditions : ∀ n, n ∈ node_list g → ∃ expr, Parse (n_Requires n) = Ok expr;
  wf_references : ∀ x y, requires_on g x y → x ≠ y ∧ ∃ m, m ∈ node_list g ∧ n_ID m = y;
  wf_acyclic : ∀ x, ¬ tc (requires_on g) x x;
  wf_edges : ∀ e, e ∈ edge_list g →
    (∃ m, m ∈ node_list g ∧ n_ID m = e_From e) ∧ (∃ m, m ∈ node_list g ∧ n_ID m = e_To e);
  wf_wires : ∀ x, ¬ tc (wired_on g) x x;
  wf_effects : ∀ n e, n ∈ node_list g → e ∈ n_Effects n → ValidateEffect (ef_Set e) = None;
  wf_rules : NodeTypeDefProblems (NodeTypes g) = [] ∧ AgentRoleDefProblems (AgentRoles g) = [] ∧
             ValidateGraphWorkflows (Some g) = None ∧
             ∀ n, n ∈ node_list g → ValidateNodeAcceptance (Some g) (Some n) = None;
}.

Section Sound.
Context `{Unicode}.

(** * The node loop *)

Lemma effects_ok g n : has_error (effect_issues g n) = false → ∀ e, e ∈ n_Effects n → ValidateEffect (ef_Set e) = None.
Proof.
  unfold effect_issues. rewrite no_error_app. intros [_ Hall] e He.
  apply list_elem_of_lookup in He as [i Hi].
  destruct (ValidateEffect (ef_Set e)) as [err|] eqn:E; [|done].
  rewrite no_error_spec in Hall.
  set (issue := error (n_ID n) ("effects[" +:+ pretty.pretty (Z.of_nat i) +:+ "]") (EffectRule err)).
  enough (Hx : is_error issue = false) by discriminate.
  apply Hall. apply list_elem_of_In, in_concat. exists [issue]. split; [|by left].
  apply list_elem_of_In, list_elem_of_lookup. exists i. rewrite list_lookup_imap, Hi. simpl. by rewrite E.
Qed.

Lemma scan_kind_ids g n st : sc_ids (scan_kind g n st) = sc_ids st.
Proof. unfold scan_kind. by destruct (KnownNodeKind _ _). Qed.

(** The facts one error-free pass over the nodes gives. *)
Definition node_ok (n : Node) : Prop :=
  ValidNodeID (n_ID n) = true ∧ ∀ e, e ∈ n_Effects n → ValidateEffect (ef_Set e) = None.

Lemma node_issues_ok g i nodes st issues st' :
  node_issues g i nodes st = (issues, st') → has_error issues = false →
  nodes = Some <$> omap id nodes ∧ NoDup (n_ID <$> omap id nodes) ∧
  (∀ n, n ∈ omap id nodes → node_ok n ∧ n_ID n ∉ sc_ids st) ∧
  (∀ x, x ∈ sc_ids st' ↔ x ∈ sc_ids st ∨ x ∈ n_ID <$> omap id nodes).
Proof.
  revert i st issues. induction nodes as [|[n|] nodes IH]; intros i st issues; cbn [node_issues].
  - intros [= <- <-] _. csimpl. split_and!; [done|constructor|set_solver|set_solver].
  - destruct (String.eqb_spec (n_ID n) EmptyString) as [He|Hne].
    { destruct (node_issues _ _ _ _). by intros [= <- <-]. }
    destruct (node_issues g (S i) nodes (scan_kind g n (add_id (n_ID n) st))) as [rest st2] eqn:E.
    intros [= <- <-]. autorewrite with noerr. intros [(Hv & Hd & _ & _ & Heff) Hrest].
    apply bool_decide_eq_false in Hd.
    destruct (IH _ _ _ E Hrest) as (Hall & Hnd & Hok & Hids). csimpl.
    rewrite scan_kind_ids in Hok, Hids. simpl in Hok, Hids.
    split_and!.
    + by f_equal.
    + constructor; [|done]. intros (m & Hm & Hin)%list_elem_of_fmap. destruct (Hok m Hin) as [_ Hn].
      apply Hn. rewrite <- Hm. set_solver.
    + intros m [->|Hm]%elem_of_cons; [|destruct (Hok m Hm); split; [done|set_solver]].
      split; [|done]. split; [done|by eapply effects_ok].
    + intros x. rewrite Hids, elem_of_cons. set_solver.
  - destruct (node_issues _ _ _ _). by intros [= <- <-].
Qed.

(** * Conditions *)

Lemma foldl_requires_deps g :
  requires_deps g =
  foldl (λ m n, match (if has_id n then requires_refs n else None) with
                | Some x => <[n_ID n := x]> m | None => m end) ∅ (node_list g).
Proof. unfold requires_deps. apply foldl_ext. intros m n. by destruct (has_id n). Qed.

Lemma requires_deps_spec g x y :
  distinct_ids g → (∀ n, n ∈ node_list g → ValidNodeID (n_ID n) = true) →
  requires_on g x y ↔ depends (requires_deps g) x y.
Proof.
  intros Hd Hv. unfold depends, succs. rewrite foldl_requires_deps.
  assert (Hid : ∀ n, n ∈ node_list g → has_id n = true).
  { intros n Hn%Hv. unfold has_id. by rewrite valid_name_nonempty. }
  split.
  - intros (n & e & Hn & <- & Hp & Hy).
    rewrite (fold_insert_node (λ n, if has_id n then requires_refs n else None)) by done.
    rewrite Hid by done. unfold requires_refs, RequiresExpr. by rewrite Hp.
  - rewrite fold_insert_lookup. destruct (last _) as [refs|] eqn:E; [|set_solver].
    apply last_Some_elem_of, list_elem_of_omap in E as (n & Hn & He). simpl. intros Hy.
    destruct (String.eqb_spec (n_ID n) x); [|done]. rewrite Hid in He by done.
    unfold requires_refs, RequiresExpr in He. destruct (Parse (n_Requires n)) as [[ex|]| | |] eqn:Ep; simplify_eq.
    by exists n, ex.
Qed.

Lemma requires_issues_ok g ids n :
  has_error (requires_issues g ids n) = false →
  ∃ expr, Parse (n_Requires n) = Ok expr ∧
    ∀ e ref, expr = Some e → ref ∈ NodeRefs e → ref ∈ ids ∧ ref ≠ n_ID n.
Proof.
  unfold requires_issues, RequiresExpr. pose proof (Parse_good (n_Requires n)) as Hg.
  destruct (Parse (n_Requires n)) as [[e|]|perr| |] eqn:E; simpl in Hg; try done.
  - autorewrite with noerr. intros [Hrefs _]. exists (Some e). split; [done|].
    intros e' ref [= <-] Href. specialize (Hrefs ref Href). autorewrite with noerr in Hrefs.
    destruct Hrefs as [Hin Hne]. by bool_to_prop.
  - intros _. by exists None.
Qed.

(** * Wires *)

Lemma wire_deps_spec g x y : wired_on g x y ↔ depends (wire_deps g) x y.
Proof.
  unfold wired_on, depends, succs, wire_deps.
  assert (Hgen : ∀ es (m : gmap string (list string)),
    y ∈ default [] (foldl (λ deps e, if Blocks (Some e) then <[e_To e := default [] (deps !! e_To e) ++ [e_From e]]> deps else deps) m es !! x)
    ↔ y ∈ default [] (m !! x) ∨ ∃ e, e ∈ es ∧ e_Relation e = RelationRequired ∧ e_To e = x ∧ e_From e = y).
  { induction es as [|e es IH]; intros m; cbn [foldl]; [set_solver|]. rewrite IH. clear IH.
    cbn [Blocks]. destruct (String.eqb_spec (e_Relation e) RelationRequired) as [Hr|Hr].
    - destruct (decide (e_To e = x)) as [<-|Hne].
      + rewrite lookup_insert_eq. simpl. rewrite elem_of_app, list_elem_of_singleton. split.
        * intros [[?| ->]|(e' & ? & ?)]; [by left|right; exists e; split; [by left|done]|right; exists e'; split; [by right|done]].
        * intros [?|(e' & [->|Hin]%elem_of_cons & Hrel & Hto & <-)]; [by left; left|by left; right|].
          right. by exists e'.
      + rewrite lookup_insert_ne by done. split.
        * intros [?|(e' & ? & ?)]; [by left|right; exists e'; split; [by right|done]].
        * intros [?|(e' & [->|Hin]%elem_of_cons & Hrel & Hto & Hf)]; [by left|done|right; by exists e'].
    - split.
      + intros [?|(e' & ? & ?)]; [by left|right; exists e'; split; [by right|done]].
      + intros [?|(e' & [->|Hin]%elem_of_cons & Hrel & Hto & Hf)]; [by left|done|right; by exists e']. }
  rewrite Hgen, lookup_empty. simpl. set_solver.
Qed.

Lemma edge_issues_ok ids i edges :
  has_error (edge_issues ids i edges) = false →
  edges = Some <$> omap id edges ∧ ∀ e, e ∈ omap id edges → e_From e ∈ ids ∧ e_To e ∈ ids.
Proof.
  revert i. induction edges as [|[e|] edges IH]; intros i; cbn [edge_issues]; csimpl; [set_solver| |done].
  autorewrite with noerr. intros (Hf & Ht & Hrest). destruct (IH _ Hrest) as [Hall Hends].
  split; [by f_equal|]. bool_to_prop. intros e' [->|He]%elem_of_cons; [done|by apply Hends].
Qed.

(** * The whole graph *)

Lemma cycle_issues_ok field msg deps :
  has_error (cycle_issues field msg deps) = false → ∀ x, ¬ tc (depends deps) x x.
Proof. unfold cycle_issues. rewrite no_error_fmap. apply findCycles_nil. Qed.

Lemma validate_well_formed g : has_error (Validate (Some g)) = false → well_formed g.
Proof.
  unfold Validate. destruct (node_issues g 0 (Nodes g) (mkScan ∅ [] ∅ EmptyString 0)) as [nodes st] eqn:En.
  rewrite !no_error_app. intros (Hproj & Hnodes & _ & Hreq & Hedges & _ & Hcyc & Hwire & _).
  destruct (node_issues_ok _ _ _ _ _ _ En Hnodes) as (Hall & Hnd & Hok & Hids).
  destruct (edge_issues_ok _ _ _ Hedges) as (Hall_e & Hends).
  assert (Hin : ∀ x, x ∈ sc_ids st ↔ ∃ m, m ∈ node_list g ∧ n_ID m = x).
  { intros x. rewrite Hids. simpl. rewrite list_elem_of_fmap. split; [|set_solver].
    intros [?|(m & -> & Hm)]; [set_solver|by exists m]. }
  assert (Hvalid : ∀ n, n ∈ node_list g → ValidNodeID (n_ID n) = true) by (intros n Hn; apply (Hok n Hn)).
  rewrite no_error_concat in Hreq.
  assert (Hcond : ∀ n, n ∈ node_list g → ∃ expr, Parse (n_Requires n) = Ok expr ∧
    ∀ e ref, expr = Some e → ref ∈ NodeRefs e → ref ∈ sc_ids st ∧ ref ≠ n_ID n).
  { intros n Hn. apply (requires_issues_ok g). specialize (Hreq n Hn). unfold has_id in Hreq.
    by rewrite (valid_name_nonempty _ (Hvalid n Hn)) in Hreq. }
  unfold project_issues in Hproj. autorewrite with noerr in Hproj.
  destruct Hproj as (_ & Htypes & Hroles & Hwf & Hacc). split.
  - done.
  - done.
  - done.
  - intros n Hn. destruct (Hcond n Hn) as (expr & ? & _). eauto.
  - intros x y (n & e & Hn & <- & Hp & Hy). destruct (Hcond n Hn) as (expr & Hp' & Hrefs).
    rewrite Hp in Hp'. simplify_eq. destruct (Hrefs e y eq_refl Hy) as [Hy1 Hy2]. split; [done|by apply Hin].
  - intros x Hx. apply (cycle_issues_ok _ _ _ Hcyc x). eapply tc_mono; [|exact Hx].
    intros a b. by apply requires_deps_spec.
  - intros e He. destruct (Hends e He) as [Hf Ht]. split; by apply Hin.
  - intros x Hx. apply (cycle_issues_ok _ _ _ Hwire x). eapply tc_mono; [|exact Hx].
    intros a b. apply wire_deps_spec.
  - intros n e Hn He. by apply (Hok n Hn).
  - split_and!; [done|done|done|]. intros n Hn. specialize (Hacc n Hn). by apply no_error_option in Hacc.
Qed.
End Sound.

(** C30: a graph that Validate reports no error on is one the rest of the
    program can rely on: no null node or edge, distinct and valid ids,
    conditions that parse and name other nodes of the graph, edges between
    nodes of the graph, no cycle through the conditions nor through the
    required wires, effects that validate, and type, role, workflow and
    acceptance rules kept. *)
Theorem validate_sound `{Unicode} (g : Graph) (Hvalid : has_error (Validate (Some g)) = false) : well_formed g.
Proof. by apply validate_well_formed. Qed.

Definition wired_graph : Graph :=
  plain_graph [plain_node "s" "start" EmptyString; plain_node "a" "task" "s"; plain_node "b" "Bug" "a or not s"]
    [mkEdge "s" "a" EmptyString EmptyString; mkEdge "a" "b" EmptyString EmptyString; mkEdge "b" "a" "deprecated" EmptyString].

Lemma validate_sound_witness : well_formed wired_graph.
Proof. apply validate_sound. vm_compute. reflexivity. Defined.
