(* ===== verification/Permission.v ===== *)
(** Who may change what on the board (internal/store/permission.go and
    roleperm.go): write access by agent class, node types, agent roles, the
    acceptance lock and the stage gate.  A check returns [None] for a nil error
    and the refusal otherwise. *)

From S2P Require Import Prelude GoStr GoFloat GoTime Dsl Graph NodeTypes Workflow Roles State Readiness Validate.
From stdpp Require Import relations.
From Stdlib Require Import Ascii.
Open Scope Z_scope.

(** The codes, shared with the web client. *)
Definition CodeNodeTypeForbidsAgent : string := "NODE_TYPE_FORBIDS_AGENT".
Definition CodeNodeTypePeopleOnly : string := "NODE_TYPE_PEOPLE_ONLY".
Definition CodeNodeTypeNoStatus : string := "NODE_TYPE_NO_STATUS".
Definition CodeUnknownNodeType : string := "UNKNOWN_NODE_TYPE".
Definition CodeNodeTypesAgentEdit : string := "NODE_TYPES_AGENT_DENIED".
Definition CodeOfficeStyleAgentEdit : string := "OFFICE_STYLE_AGENT_DENIED".
Definition CodeRoleDenied : string := "ROLE_DENIED".
Definition CodeStageGatePending : string := "STAGE_GATE_PENDING".
Definition CodeAcceptanceLocked : string := "ACCEPTANCE_LOCKED".
Definition CodeRolesAgentEdit : string := "AGENT_ROLES_AGENT_DENIED".
Definition CodeWorkflowAgentEdit : string := "WORKFLOW_AGENT_DENIED".
Definition CodeUnknownRole : string := "UNKNOWN_ROLE".

(** ErrNodeWriteDenied, ErrNodeTypeDenied and ErrRoleDenied, with the HTTP
    status of the last two; the sentences are left out. *)
Inductive Denied :=
  | NodeWriteDenied (node access : string) (class : AgentClass)
  | NodeTypeDenied (node type code : string) (status : Z)
  | RoleDenied (node role code : string) (status : Z).

Definition StatusBadRequest : Z := 400.
Definition StatusForbidden : Z := 403.
Definition StatusConflict : Z := 409.

(** * Write access *)

Definition writeAccessRank (access : string) : Z :=
  if String.eqb access WriteAccessWorker then 1
  else if String.eqb access WriteAccessOrchestrator then 2
  else if String.eqb access WriteAccessHumanOnly then 3
  else 0.

Definition agentRank (class : AgentClass) : Z :=
  if String.eqb class AgentWorker then 1
  else if String.eqb class AgentOrchestrator then 2
  else 3.

(** builtinRoleClass: the rank of a built-in role id, empty for another. *)
Definition builtinRoleClass (id : string) : AgentClass :=
  match builtinAgentRole id with Some r => r_Rank r | None => EmptyString end.

Definition effectiveClass (actor : Actor) : AgentClass :=
  if negb (HasRole actor) then a_Agent actor
  else
    let rank := builtinRoleClass (a_AgentRole actor) in
    if negb (String.eqb rank EmptyString) then LowerClass (a_Agent actor) rank else a_Agent actor.

Definition checkNodeWrite (actor : Actor) (n : option Node) : option Denied :=
  match n with
  | None => None
  | Some n =>
      if negb (IsAgent actor) then None
      else
        let class := effectiveClass actor in
        if writeAccessRank (n_WriteAccess n) <=? agentRank class then None
        else Some (NodeWriteDenied (n_ID n) (n_WriteAccess n) class)
  end.

Definition normalizeWriteAccess (v : string) : string := if String.eqb v "all" then WriteAccessAll else v.

(** * Node types *)

Definition typeName (t : NodeType) : string := or_else (nt_Label t) (nt_ID t).

(** nodeTypeDefsEqual: same length and fields, pairwise. *)
Definition nodeTypeDefsEqual (a b : list NodeTypeDef) : bool := bool_decide (a = b).

Definition checkNodeTypesEdit (actor : Actor) (before after : list NodeTypeDef) : option Denied :=
  if negb (IsAgent actor) || nodeTypeDefsEqual before after then None
  else Some (NodeTypeDenied EmptyString EmptyString CodeNodeTypesAgentEdit StatusForbidden).

Definition checkOfficeStyleEdit (actor : Actor) (before after : string) : option Denied :=
  if negb (IsAgent actor) || String.eqb before after then None
  else Some (NodeTypeDenied EmptyString EmptyString CodeOfficeStyleAgentEdit StatusForbidden).

Definition restrictedForAgents (t : NodeType) : bool :=
  one_of (nt_Completion t) [CompletionPeople; CompletionAuto; CompletionNone].

Section Types.
Context `{Unicode}.

Definition checkKindChange (actor : Actor) (g : option Graph) (oldKind newKind : string) : option Denied :=
  if negb (IsAgent actor) || String.eqb oldKind newKind then None
  else
    let oldType := TypeOfKind g oldKind in
    let newType := TypeOfKind g newKind in
    if String.eqb (nt_ID oldType) (nt_ID newType) then None
    else match find restrictedForAgents [oldType; newType] with
         | Some t => Some (NodeTypeDenied EmptyString (nt_ID t) CodeNodeTypePeopleOnly StatusForbidden)
         | None => None
         end.

Definition noStatusError (nodeID : string) (t : NodeType) : Denied :=
  NodeTypeDenied nodeID (nt_ID t) CodeNodeTypeNoStatus StatusBadRequest.

Definition unknownNodeTypeError (nodeID kind : string) : Denied :=
  NodeTypeDenied nodeID kind CodeUnknownNodeType StatusBadRequest.

Definition checkStatusWrite (actor : Actor) (g : Graph) (n : option Node) (status : Status) : option Denied :=
  match n with
  | None => None
  | Some m =>
      let t := TypeOf (Some g) n in
      if String.eqb (nt_Completion t) CompletionNone then Some (noStatusError (n_ID m) t)
      else if negb (IsAgent actor) then None
      else if String.eqb (nt_Completion t) CompletionAuto
              || (String.eqb (nt_Completion t) CompletionPeople && Settled status (statusDefinitions (Some g)))
      then Some (NodeTypeDenied (n_ID m) (nt_ID t) CodeNodeTypePeopleOnly StatusForbidden)
      else None
  end.
End Types.

(** * Roles *)

Definition isSystemActor (actor : Actor) : bool := bool_decide (actor = System).

(** actorRole: a refusal, or the role when the actor has one. *)
Definition actorRole (actor : Actor) (g : option Graph) : Denied + option AgentRole :=
  if negb (HasRole actor) then inr None
  else match RoleOf g (a_AgentRole actor) with
       | None => inl (RoleDenied EmptyString (a_AgentRole actor) CodeUnknownRole StatusForbidden)
       | Some role => inr (Some role)
       end.

Definition roleDenied (nodeID role : string) : option Denied :=
  Some (RoleDenied nodeID role CodeRoleDenied StatusForbidden).

Definition executorBodyTypes (t : string) : bool := one_of t ["scene"; "event"].

Definition goal_prefixed (tag : string) : bool :=
  has_prefix tag "goal:" && (String.length "goal:" <? String.length tag)%nat.

Definition qaOwnsNewNode (actor : Actor) (n : Node) : bool :=
  existsb (λ tag, if negb (String.eqb (a_RunNodeID actor) EmptyString)
                  then String.eqb tag (GoalTag (a_RunNodeID actor))
                  else goal_prefixed tag) (n_Tags n).

Definition node_id (n : option Node) : string := match n with Some n => n_ID n | None => EmptyString end.

Section RoleChecks.
Context `{Unicode}.

Definition type_id (g : Graph) (n : option Node) : string :=
  match n with Some _ => nt_ID (TypeOf (Some g) n) | None => EmptyString end.

(** The rules of checkRole once the role holds the capability. *)
Definition role_scope (actor : Actor) (g : Graph) (c : Capability) (n : Node) (role : AgentRole) : option Denied :=
  let typeID := nt_ID (TypeOf (Some g) (Some n)) in
  let slot := Slot role in
  if one_of c [CapBody; CapClaim; CapStatus; CapCreate] && negb (MayWriteType role typeID)
  then roleDenied (n_ID n) (r_ID role)
  else if String.eqb slot RoleExecutor && negb (String.eqb (a_RunID actor) EmptyString)
          && one_of c [CapBody; CapClaim; CapStatus] && negb (String.eqb (n_ID n) (a_RunNodeID actor))
  then roleDenied (n_ID n) (r_ID role)
  else if String.eqb slot RoleQA && String.eqb c CapCreate && negb (qaOwnsNewNode actor n)
  then roleDenied (n_ID n) (r_ID role)
  else None.

Definition checkRole (actor : Actor) (g : Graph) (c : Capability) (n : option Node) : option Denied :=
  match actorRole actor (Some g) with
  | inl e => Some e
  | inr None => None
  | inr (Some role) =>
      if String.eqb c CapBody && String.eqb (Slot role) RoleExecutor && negb (HasCap role c) then
        match n with
        | Some m =>
            if negb (String.eqb (a_RunNodeID actor) EmptyString) && String.eqb (n_ID m) (a_RunNodeID actor)
               && executorBodyTypes (type_id g n) && MayWriteType role (type_id g n)
            then None else roleDenied (n_ID m) (r_ID role)
        | None => roleDenied EmptyString (r_ID role)
        end
      else if negb (HasCap role c) then roleDenied (node_id n) (r_ID role)
      else match n with
           | Some m => role_scope actor g c m role
           | None => None
           end
  end.

Definition checkRoleLink (actor : Actor) (g : Graph) (n : option Node) (refOnly : bool) : option Denied :=
  match checkRole actor g CapLink n with
  | Some e => Some e
  | None =>
      match actorRole actor (Some g) with
      | inl e => Some e
      | inr None => None
      | inr (Some role) =>
          if negb refOnly && String.eqb (Slot role) RoleResearcher then roleDenied (node_id n) (r_ID role) else None
      end
  end.

Definition checkRoleDelete (actor : Actor) (nodeID : string) : option Denied :=
  if negb (HasRole actor) then None else roleDenied nodeID (a_AgentRole actor).

(** * Acceptance *)

Definition acceptanceAttribution (actor : Actor) : string :=
  if HasRole actor then
    if negb (String.eqb (a_RunID actor) EmptyString)
    then a_AgentRole actor +:+ " (run " +:+ a_RunID actor +:+ ")"
    else a_AgentRole actor
  else if negb (String.eqb (a_Name actor) EmptyString) then a_Name actor
  else a_ID actor.

Definition is_locked (a : option Acceptance) : bool := match a with Some a => acc_Locked a | None => false end.

Definition normalizeAcceptance (actor : Actor) (before after : option Acceptance) : option Acceptance :=
  match after with
  | None =>
      if is_locked before && negb (IsAgent actor)
      then Some (mkAcceptance [] true (acceptanceAttribution actor)) else None
  | Some after =>
      let out := mkAcceptance (default [] (AssignAcceptanceIDs (Some (acc_Items after)))) (acc_Locked after) (acc_By after) in
      if IsAgent actor then Some out
      else
        let locked := is_locked before in
        let by_ := match before with
                   | Some b => if EqualItems before (Some out) then acc_By b else acceptanceAttribution actor
                   | None => acceptanceAttribution actor
                   end in
        if negb locked && negb (nonempty (acc_Items out)) then None
        else Some (mkAcceptance (acc_Items out) locked by_)
  end.

Definition acceptanceEqual (a b : option Acceptance) : bool :=
  match a, b with
  | Some x, Some y => Bool.eqb (acc_Locked x) (acc_Locked y) && String.eqb (acc_By x) (acc_By y) && EqualItems a b
  | None, None => true
  | _, _ => false
  end.

Definition checkAcceptanceWrite (actor : Actor) (g : Graph) (n : option Node) (before after : option Acceptance)
    (createdByRun : bool) : option Denied :=
  if acceptanceEqual before after then None
  else if match after with Some _ => negb (AcceptanceAllowed (Some g) n) | None => false end
  then Some (NodeTypeDenied (node_id n) (nt_ID (TypeOf (Some g) n)) CodeNodeTypeForbidsAgent StatusBadRequest)
  else if isSystemActor actor || negb (IsAgent actor) then None
  else if negb (HasRole actor) then roleDenied (node_id n) EmptyString
  else match actorRole actor (Some g) with
       | inl e => Some e
       | inr None => None (* the zero role, excluded by HasRole *)
       | inr (Some role) =>
           let typeID := nt_ID (TypeOf (Some g) n) in
           if negb (HasCap role CapAcceptance) then roleDenied (node_id n) (r_ID role)
           else if negb (MayAcceptType role typeID) && negb (String.eqb (Slot role) RoleQA && createdByRun)
           then roleDenied (node_id n) (r_ID role)
           else if is_locked before
           then Some (RoleDenied (node_id n) (r_ID role) CodeAcceptanceLocked StatusConflict)
           else if negb (Bool.eqb (is_locked before) (is_locked after)) then roleDenied (node_id n) (r_ID role)
           else None
       end.

(** * The stage gate *)

Definition checkStatusGate (actor : Actor) (g : Graph) (n : option Node) (status : Status) : option Denied :=
  match n with
  | None => None
  | Some m =>
      match actorRole actor (Some g) with
      | inl e => Some e
      | inr role =>
          let roleID := match role with Some r => r_ID r | None => EmptyString end in
          let exempt := match role with
                        | Some r => negb (String.eqb (Slot r) RoleExecutor)
                        | None => negb (IsAgent actor) || negb (String.eqb (a_RunID actor) EmptyString)
                        end in
          if exempt || negb (Settled status (statusDefinitions (Some g))) then None
          else
            let wf := EffectiveWorkflow (Some g) (GoalOf (Some g) n) in
            let no_role := match role with Some _ => false | None => true end in
            let goal_stages := match wf with
                               | Some w => st_GoalQA (wf_Stages w) || st_GoalReview (wf_Stages w)
                               | None => false
                               end in
            if goal_stages && no_role && AcceptanceAllowed (Some g) n
               && String.eqb (nt_AgentMode (TypeOf (Some g) n)) AgentAutopilot
            then Some (RoleDenied (n_ID m) EmptyString CodeStageGatePending StatusConflict)
            else if negb (Staged wf) || (no_role && negb (AcceptanceAllowed (Some g) n)) then None
            else Some (RoleDenied (n_ID m) roleID CodeStageGatePending StatusConflict)
      end
  end.

(** * Edits of the project's own rules *)

(** agentRoleDefsEqual: a nil list and an empty one are the same here, and the
    lists inside a definition keep the difference. *)
Definition agentRoleDefsEqual (a b : list AgentRoleDef) : bool := bool_decide (a = b).

Definition checkAgentRolesEdit (actor : Actor) (before after : list AgentRoleDef) : option Denied :=
  if negb (IsAgent actor) || agentRoleDefsEqual before after then None
  else Some (RoleDenied EmptyString EmptyString CodeRolesAgentEdit StatusForbidden).

(** reflect.DeepEqual on two workflow pointers: both nil, or equal fields. *)
Definition checkWorkflowEdit (actor : Actor) (nodeID : string) (before after : option Workflow) : option Denied :=
  if negb (IsAgent actor) || bool_decide (before = after) then None
  else Some (RoleDenied nodeID EmptyString CodeWorkflowAgentEdit StatusForbidden).

(** * Acceptance writes on a graph *)

Inductive AcceptanceWriteError :=
  | BadNodeID
  | NodeNotFound (id : string)
  | Refused (d : Denied)
  | InvalidAcceptance (e : AcceptanceError).

Definition with_acceptance (n : Node) (a : option Acceptance) : Node :=
  mkNode (n_ID n) (n_Title n) (n_Kind n) (n_Priority n) (n_Assignee n) (n_Deadline n)
    (n_WriteAccess n) (n_Requires n) (n_Tags n) (n_Effects n) (n_Links n) (n_Refs n) a (n_Workflow n).

(** A write through the pointer NodeByID returns: the first node of that id. *)
Fixpoint update_first (f : Node → Node) (id : string) (nodes : list (option Node)) : list (option Node) :=
  match nodes with
  | [] => []
  | Some n :: nodes' =>
      if String.eqb (n_ID n) id then Some (f n) :: nodes' else Some n :: update_first f id nodes'
  | None :: nodes' => None :: update_first f id nodes'
  end.

Definition update_node (g : Graph) (id : string) (f : Node → Node) : Graph :=
  with_nodes g (update_first f id (Nodes g)).

(** The value SetAcceptance stores, before normalization. *)
Definition wanted_acceptance (before : option Acceptance) (items : list AcceptanceItem) : option Acceptance :=
  if nonempty items || is_locked before
  then Some (mkAcceptance (default [] (AssignAcceptanceIDs (Some items)))
               (is_locked before) (match before with Some b => acc_By b | None => EmptyString end))
  else None.

Definition attributed (actor : Actor) (before after : option Acceptance) : option Acceptance :=
  match after with
  | Some a => if IsAgent actor && negb (EqualItems after before)
              then Some (mkAcceptance (acc_Items a) (acc_Locked a) (acceptanceAttribution actor)) else after
  | None => None
  end.

(** SetAcceptance between loading the graph and storing it; [createdByRun] is
    the sidecar's answer. *)
Definition SetAcceptance (actor : Actor) (g : Graph) (nodeID : string) (items : list AcceptanceItem)
    (createdByRun : bool) : outcome AcceptanceWriteError Graph :=
  if negb (ValidNodeID nodeID) then Fail BadNodeID
  else match NodeByID g nodeID with
       | None => Fail (NodeNotFound nodeID)
       | Some n =>
           match checkNodeWrite actor (Some n) with
           | Some d => Fail (Refused d)
           | None =>
               let before := n_Acceptance n in
               let after := normalizeAcceptance actor before (wanted_acceptance before items) in
               match checkAcceptanceWrite actor g (Some n) before after createdByRun with
               | Some d => Fail (Refused d)
               | None =>
                   let after := attributed actor before after in
                   let n' := with_acceptance n after in
                   let g' := update_node g nodeID (λ _, n') in
                   match ValidateNodeAcceptance (Some g') (Some n') with
                   | Some e => Fail (InvalidAcceptance e)
                   | None => Ok g'
                   end
               end
           end
       end.

(** LockAcceptance, the hub's lock at dispatch: [None] when there is nothing to
    write. *)
Definition LockAcceptance (g : Graph) (nodeID : string) : outcome AcceptanceWriteError (option Graph) :=
  match NodeByID g nodeID with
  | None => Fail (NodeNotFound nodeID)
  | Some n =>
      if negb (AcceptanceAllowed (Some g) (Some n)) || is_locked (n_Acceptance n) then Ok None
      else
        let items := match n_Acceptance n with Some a => acc_Items a | None => [] end in
        let by_ := match n_Acceptance n with Some a => acc_By a | None => EmptyString end in
        Ok (Some (update_node g nodeID (λ n, with_acceptance n (Some (mkAcceptance items true by_)))))
  end.
End RoleChecks.
