(* ===== verification/PermFacts.v ===== *)
(** What the permission checks guarantee: people are never refused for what
    they are, human-only nodes stay out of every agent's reach, a run works
    only its own node, the acceptance lock holds, staged work is not settled by
    the one who did it, and no sequence of agent writes settles a node that
    only people may settle. *)

From S2P Require Import Prelude GoStr GoFloat GoTime Dsl Graph NodeTypes Workflow Roles State Readiness Validate Permission.
From stdpp Require Import relations.
From Stdlib Require Import Ascii.
Open Scope Z_scope.

(** * Acceptance values *)

Lemma equal_items_spec a b : length a = length b → equal_items a b = true ↔ a = b.
Proof.
  revert b. induction a as [|x a IH]; intros [|y b]; simpl; try done.
  intros [= Hl]. rewrite andb_true_iff, bool_decide_eq_true, IH by done. naive_solver.
Qed.

Lemma EqualItems_spec a b : EqualItems a b = true ↔ acceptance_of a = acceptance_of b.
Proof.
  unfold EqualItems. rewrite andb_true_iff, Nat.eqb_eq. split.
  - intros [Hl He]. by apply equal_items_spec.
  - intros He. rewrite He. split; [done|]. by apply equal_items_spec.
Qed.

Lemma acceptanceEqual_spec a b : acceptanceEqual a b = true ↔ a = b.
Proof.
  destruct a as [[xi xl xb]|], b as [[yi yl yb]|]; simpl; try done.
  rewrite !andb_true_iff, EqualItems_spec, Bool.eqb_true_iff, String.eqb_eq. simpl. naive_solver.
Qed.

(** * Node updates *)

(** Replacing the node found by another of the same id. *)
Lemma NodeByID_first g id n' n id' :
  n_ID n' = n_ID n → NodeByID g id = Some n →
  NodeByID (update_node g id (λ _, n')) id' = if String.eqb id' id then Some n' else NodeByID g id'.
Proof.
  intros Hn. unfold NodeByID, update_node, with_nodes. simpl.
  induction (Nodes g) as [|[m|] ms IH]; simpl; [done| |done].
  destruct (String.eqb_spec (n_ID m) id) as [He|Hne]; simpl.
  - intros [= ->]. rewrite Hn, He. destruct (String.eqb_spec id' id) as [->|Hd].
    + by rewrite String.eqb_refl.
    + destruct (String.eqb_spec id id'); [congruence|done].
  - intros Hm. destruct (String.eqb_spec id' id) as [->|Hd].
    + rewrite (proj2 (String.eqb_neq _ _) Hne). by rewrite IH.
    + destruct (String.eqb (n_ID m) id'); [done|]. by apply IH.
Qed.

Section Facts.
Context `{Unicode}.

(** * The lock *)

Lemma system_not_agent actor : IsAgent actor = true → isSystemActor actor = false.
Proof.
  unfold isSystemActor. intros Ha. apply bool_decide_eq_false. intros ->. done.
Qed.

(** An agent with a role is refused or has a role of the project. *)
Lemma actorRole_cases actor g :
  HasRole actor = true →
  (∃ e, actorRole actor g = inl e) ∨ (∃ role, actorRole actor g = inr (Some role) ∧ RoleOf g (a_AgentRole actor) = Some role).
Proof. intros Hr. unfold actorRole. rewrite Hr. simpl. destruct (RoleOf g _); eauto. Qed.

Lemma HasRole_agent actor : HasRole actor = true → IsAgent actor = true.
Proof. unfold HasRole. by intros [? _]%andb_true_iff. Qed.

Lemma not_agent_no_role actor : IsAgent actor = false → HasRole actor = false.
Proof. unfold HasRole. by intros ->. Qed.

(** A locked list is never changed by an agent's write that passes. *)
Lemma locked_write_refused actor g n before after created :
  IsAgent actor = true → is_locked before = true →
  checkAcceptanceWrite actor g n before after created = None → after = before.
Proof.
  intros Ha Hl. unfold checkAcceptanceWrite.
  destruct (acceptanceEqual before after) eqn:Ee; [by apply acceptanceEqual_spec in Ee|].
  destruct (match after with Some _ => _ | None => _ end); [done|].
  rewrite system_not_agent, Ha by done. simpl. destruct (HasRole actor) eqn:Eh; [|done]. simpl.
  destruct (actorRole_cases actor (Some g) Eh) as [(e & ->)|(role & -> & _)]; [done|].
  destruct (HasCap _ _); [|done]. simpl. destruct (_ && negb _); [done|]. by rewrite Hl.
Qed.

Lemma normalize_keeps_lock actor before items :
  is_locked (normalizeAcceptance actor before (wanted_acceptance before items)) = is_locked before.
Proof.
  unfold wanted_acceptance. destruct (nonempty items || is_locked before) eqn:Ew; simpl.
  - destruct (IsAgent actor); [done|]. destruct (is_locked before) eqn:El; simpl; [done|].
    by repeat case_match.
  - apply orb_false_iff in Ew as [_ ->]. done.
Qed.

Lemma attributed_lock actor before after : is_locked (attributed actor before after) = is_locked after.
Proof. destruct after as [a|]; simpl; [|done]. by destruct (_ && _). Qed.

Lemma attributed_same actor a : attributed actor a a = a.
Proof.
  destruct a as [a|]; simpl; [|done]. assert (EqualItems (Some a) (Some a) = true) as -> by (by apply EqualItems_spec).
  by rewrite andb_false_r.
Qed.

(** What a successful write did. *)
Lemma SetAcceptance_Ok actor g nodeID items created g' :
  SetAcceptance actor g nodeID items created = Ok g' →
  ∃ n after, NodeByID g nodeID = Some n ∧
    after = normalizeAcceptance actor (n_Acceptance n) (wanted_acceptance (n_Acceptance n) items) ∧
    checkNodeWrite actor (Some n) = None ∧
    checkAcceptanceWrite actor g (Some n) (n_Acceptance n) after created = None ∧
    ValidateNodeAcceptance (Some g') (Some (with_acceptance n (attributed actor (n_Acceptance n) after))) = None ∧
    ∀ id, NodeByID g' id = if String.eqb id nodeID then Some (with_acceptance n (attributed actor (n_Acceptance n) after))
                           else NodeByID g id.
Proof.
  unfold SetAcceptance. destruct (ValidNodeID nodeID); [|done]. cbn [negb].
  destruct (NodeByID g nodeID) as [n|] eqn:En; [|done].
  destruct (checkNodeWrite actor (Some n)) eqn:Ew; [done|].
  destruct (checkAcceptanceWrite _ _ _ _ _ _) eqn:Ec; [done|].
  destruct (ValidateNodeAcceptance _ _) eqn:Ev; [done|]. intros [= <-].
  eexists n, _. split_and!; [done|done|done|done|done|].
  intros id. set (a := attributed _ _ _).
  pose proof (NodeByID_first g nodeID (with_acceptance n a) n id) as Hu. by apply Hu.
Qed.
End Facts.

(** The acceptance lock holds against everyone but the hub: a write of
    acceptance criteria that succeeds leaves the lock of its node exactly as
    it was, changes no other node, and, when the criteria are locked and the
    writer is an agent, changes nothing at all. *)
Theorem acceptance_lock_holds `{Unicode} (actor : Actor) (g g' : Graph) (nodeID : string)
    (items : list AcceptanceItem) (created : bool)
    (Hset : SetAcceptance actor g nodeID items created = Ok g') :
  ∃ n n', NodeByID g nodeID = Some n ∧ NodeByID g' nodeID = Some n' ∧
    is_locked (n_Acceptance n') = is_locked (n_Acceptance n) ∧
    (IsAgent actor = true → is_locked (n_Acceptance n) = true → n_Acceptance n' = n_Acceptance n) ∧
    ValidateNodeAcceptance (Some g') (Some n') = None ∧
    (∀ id, id ≠ nodeID → NodeByID g' id = NodeByID g id).
Proof.
  apply SetAcceptance_Ok in Hset as (n & after & Hn & Hafter & _ & Hc & Hv & Hall).
  exists n, (with_acceptance n (attributed actor (n_Acceptance n) after)).
  split_and!; [done|by rewrite Hall, String.eqb_refl| | |done|].
  - simpl. by rewrite attributed_lock, Hafter, normalize_keeps_lock.
  - intros Ha Hl. simpl. rewrite (locked_write_refused _ _ _ _ _ _ Ha Hl Hc). apply attributed_same.
  - intros id Hid. by rewrite Hall, (proj2 (String.eqb_neq _ _) Hid).
Qed.

Definition person : Actor := mkActor "ann" "Ann" "member" EmptyString EmptyString EmptyString EmptyString.
Definition planner_run : Actor := mkActor "r1" "r1" "member" AgentOrchestrator "planner" "run-1" "goal".

Definition locked_graph : Graph :=
  plain_graph [with_acceptance (plain_node "a" "task" EmptyString)
                 (Some (mkAcceptance [mkAcceptanceItem "a1" "Builds"] true "Ann"))] [].

Definition graph_or (g : Graph) (r : outcome AcceptanceWriteError Graph) : Graph :=
  match r with Ok g' => g' | _ => g end.

Lemma acceptance_lock_holds_witness :
  let g' := graph_or locked_graph (SetAcceptance person locked_graph "a" [mkAcceptanceItem EmptyString "Tests pass"] false) in
  ∃ n n', NodeByID locked_graph "a" = Some n ∧ NodeByID g' "a" = Some n' ∧
    is_locked (n_Acceptance n') = is_locked (n_Acceptance n) ∧
    (IsAgent person = true → is_locked (n_Acceptance n) = true → n_Acceptance n' = n_Acceptance n) ∧
    ValidateNodeAcceptance (Some g') (Some n') = None ∧
    (∀ id, id ≠ "a" → NodeByID g' id = NodeByID locked_graph id).
Proof.
  apply (acceptance_lock_holds person locked_graph _ "a" [mkAcceptanceItem EmptyString "Tests pass"] false).
  vm_compute. reflexivity.
Defined.

(** * People *)

(** The checks only narrow what agents may do: a request that is not an
    agent's passes every write-access, role, type-change, project-rule and
    stage check, and a status write is refused only on a type without status. *)
Theorem people_are_not_narrowed `{Unicode} (actor : Actor) (g : Graph) (n : Node) (c : Capability)
    (status : Status) (kind : string) (before after : list NodeTypeDef) (refOnly : bool)
    (roles roles' : list AgentRoleDef) (wf wf' : option Workflow) (at_node : string)
    (Hperson : IsAgent actor = false) :
  checkNodeWrite actor (Some n) = None ∧ checkRole actor g c (Some n) = None ∧
  checkRoleLink actor g (Some n) refOnly = None ∧ checkRoleDelete actor (n_ID n) = None ∧
  checkKindChange actor (Some g) (n_Kind n) kind = None ∧ checkNodeTypesEdit actor before after = None ∧
  checkAgentRolesEdit actor roles roles' = None ∧ checkWorkflowEdit actor at_node wf wf' = None ∧
  checkStatusGate actor g (Some n) status = None ∧
  (checkStatusWrite actor g (Some n) status = None ↔ no_status g n = false).
Proof.
  pose proof (not_agent_no_role actor Hperson) as Hrole.
  unfold checkNodeWrite, checkRoleLink, checkRole, checkRoleDelete, checkKindChange, checkNodeTypesEdit,
    checkAgentRolesEdit, checkWorkflowEdit, checkStatusGate, checkStatusWrite, actorRole, no_status.
  rewrite Hrole, Hperson. cbn [negb orb]. split_and!; try done.
  destruct (String.eqb _ CompletionNone); done.
Qed.

Lemma people_are_not_narrowed_witness :
  let g := locked_graph in let n := plain_node "a" "gate" EmptyString in
  checkNodeWrite person (Some n) = None ∧ checkRole person g CapStatus (Some n) = None ∧
  checkRoleLink person g (Some n) false = None ∧ checkRoleDelete person (n_ID n) = None ∧
  checkKindChange person (Some g) (n_Kind n) "note" = None ∧ checkNodeTypesEdit person [] sneaky_types = None ∧
  checkAgentRolesEdit person [] sample_roles = None ∧
  checkWorkflowEdit person EmptyString None (WorkflowForPreset PresetLight) = None ∧ checkStatusGate person g (Some n) StatusDone = None ∧
  (checkStatusWrite person g (Some n) StatusDone = None ↔ no_status g n = false).
Proof. apply people_are_not_narrowed. reflexivity. Defined.

(** * Write access *)

Lemma builtinRoleClass_cases id :
  builtinRoleClass id = EmptyString ∨ builtinRoleClass id = AgentWorker ∨ builtinRoleClass id = AgentOrchestrator.
Proof.
  unfold builtinRoleClass. destruct (builtinAgentRole id) as [r|] eqn:E; [|by left].
  apply builtinAgentRole_Some in E as (_ & _ & _ & ->). destruct (one_of _ _); auto.
Qed.

(** An agent of a known class never writes above its rank: its effective
    class is worker or orchestrator and never above the one it declared, a
    human-only node is refused to it whatever its role, and a node reserved for
    orchestrators is open only to a declared orchestrator whose built-in role,
    if it has one, is the planner or QA. *)
Theorem agent_write_bounded (actor : Actor) (n : Node)
    (Hclass : a_Agent actor = AgentWorker ∨ a_Agent actor = AgentOrchestrator) :
  (effectiveClass actor = AgentWorker ∨ effectiveClass actor = AgentOrchestrator) ∧
  classRank (effectiveClass actor) ≤ classRank (a_Agent actor) ∧
  (n_WriteAccess n = WriteAccessHumanOnly → checkNodeWrite actor (Some n) ≠ None) ∧
  (n_WriteAccess n = WriteAccessOrchestrator → checkNodeWrite actor (Some n) = None →
     a_Agent actor = AgentOrchestrator ∧
     (IsBuiltinRole (a_AgentRole actor) = true → one_of (a_AgentRole actor) [RolePlanner; RoleQA] = true)).
Proof.
  assert (Hagent : IsAgent actor = true) by (unfold IsAgent; by destruct Hclass as [-> | ->]).
  assert (Heff : (effectiveClass actor = AgentWorker ∨
                  effectiveClass actor = AgentOrchestrator ∧ a_Agent actor = AgentOrchestrator ∧
                  (IsBuiltinRole (a_AgentRole actor) = true → one_of (a_AgentRole actor) [RolePlanner; RoleQA] = true))).
  { unfold effectiveClass, HasRole. rewrite Hagent. cbn [andb].
    destruct (String.eqb_spec (a_AgentRole actor) EmptyString) as [He|He]; cbn [negb].
    { rewrite He. destruct Hclass as [-> | ->]; [by left|right; done]. }
    unfold builtinRoleClass, IsBuiltinRole. destruct (builtinAgentRole (a_AgentRole actor)) as [r|] eqn:Er.
    - apply builtinAgentRole_Some in Er as (_ & _ & _ & ->).
      destruct (one_of (a_AgentRole actor) [RolePlanner; RoleQA]); destruct Hclass as [-> | ->]; vm_compute; auto.
    - destruct Hclass as [-> | ->]; [by left|right; done]. }
  split_and!.
  - destruct Heff as [?|[? _]]; auto.
  - destruct Heff as [->|[-> [-> _]]]; [|done]. by destruct Hclass as [-> | ->]; vm_compute.
  - intros Hw. unfold checkNodeWrite. rewrite Hagent, Hw. cbn [negb]. by destruct Heff as [->|[-> _]].
  - intros Hw. unfold checkNodeWrite. rewrite Hagent, Hw. cbn [negb]. by destruct Heff as [->|[-> ?]].
Qed.

Lemma agent_write_bounded_witness :
  let n := mkNode "a" EmptyString "task" EmptyString EmptyString EmptyString "human-only" EmptyString [] [] [] [] None None in
  (effectiveClass planner_run = AgentWorker ∨ effectiveClass planner_run = AgentOrchestrator) ∧
  classRank (effectiveClass planner_run) ≤ classRank (a_Agent planner_run) ∧
  (n_WriteAccess n = WriteAccessHumanOnly → checkNodeWrite planner_run (Some n) ≠ None) ∧
  (n_WriteAccess n = WriteAccessOrchestrator → checkNodeWrite planner_run (Some n) = None →
     a_Agent planner_run = AgentOrchestrator ∧
     (IsBuiltinRole (a_AgentRole planner_run) = true → one_of (a_AgentRole planner_run) [RolePlanner; RoleQA] = true)).
Proof. apply agent_write_bounded. right. reflexivity. Defined.

(** * Roles *)

Lemma roleDenied_not_None node role : roleDenied node role ≠ None.
Proof. done. Qed.

(** What a role check that passes guarantees: the actor's role exists in
    the project and holds the capability (or it is an Executor writing the
    body of the scene or event it was dispatched on); a body, claim, status
    or create write is on a type the role may write; an Executor's run claims
    and changes only its own node; and QA creates only under a goal. *)
Theorem role_check_scope `{Unicode} (actor : Actor) (g : Graph) (c : Capability) (n : Node)
    (Hroled : HasRole actor = true) (Hpass : checkRole actor g c (Some n) = None) :
  ∃ role, RoleOf (Some g) (a_AgentRole actor) = Some role ∧
    (HasCap role c = true ∨ c = CapBody ∧ Slot role = RoleExecutor ∧ n_ID n = a_RunNodeID actor) ∧
    (one_of c [CapBody; CapClaim; CapStatus; CapCreate] = true →
       MayWriteType role (nt_ID (TypeOf (Some g) (Some n))) = true) ∧
    (Slot role = RoleExecutor → a_RunID actor ≠ EmptyString → one_of c [CapBody; CapClaim; CapStatus] = true →
       n_ID n = a_RunNodeID actor) ∧
    (Slot role = RoleQA → c = CapCreate → ∃ tag, tag ∈ n_Tags n ∧ has_prefix tag "goal:" = true).
Proof.
  unfold checkRole in Hpass. destruct (actorRole_cases actor (Some g) Hroled) as [(e & He)|(role & He & Hrole)];
    rewrite He in Hpass; [done|]. exists role. split; [done|].
  destruct (String.eqb c CapBody && String.eqb (Slot role) RoleExecutor && negb (HasCap role c)) eqn:Ebody.
  - apply andb_true_iff in Ebody as [[->%String.eqb_eq Hslot%String.eqb_eq]%andb_true_iff Hcap].
    destruct (negb (String.eqb (a_RunNodeID actor) EmptyString) && _ && _ && _) eqn:Er; [|done].
    apply andb_true_iff in Er as [[[_ Hid%String.eqb_eq]%andb_true_iff _]%andb_true_iff Hw].
    split_and!; [by right|done|done|]. intros Hqa. rewrite Hqa in Hslot. done.
  - destruct (HasCap role c) eqn:Ecap; [cbn [negb] in Hpass|done]. unfold role_scope in Hpass.
    destruct (one_of c [CapBody; CapClaim; CapStatus; CapCreate] && negb _) eqn:E1; [done|].
    destruct (String.eqb (Slot role) RoleExecutor && _ && _ && _) eqn:E2; [done|].
    destruct (String.eqb (Slot role) RoleQA && String.eqb c CapCreate && _) eqn:E3; [done|].
    split_and!; [by left| | |].
    + intros Hc. rewrite Hc in E1. by apply negb_false_iff in E1.
    + intros Hs Hr Hc. rewrite Hs, Hc, (proj2 (String.eqb_neq _ _) Hr) in E2. cbn in E2.
      by apply negb_false_iff, String.eqb_eq in E2.
    + intros Hs ->. rewrite Hs in E3. cbn in E3. apply negb_false_iff in E3. unfold qaOwnsNewNode in E3.
      apply existsb_elem in E3 as (tag & Ht & Htag). exists tag. split; [done|].
      destruct (negb (String.eqb (a_RunNodeID actor) EmptyString)).
      * apply String.eqb_eq in Htag as ->. unfold GoalTag. cbn. by destruct (a_RunNodeID actor).
      * unfold goal_prefixed in Htag. by apply andb_true_iff in Htag as [? _].
Qed.

Definition executor_run : Actor := mkActor "r2" "r2" "member" AgentWorker "executor" "run-2" "a".

Lemma role_check_scope_witness :
  let g := locked_graph in let n := plain_node "a" "task" EmptyString in
  ∃ role, RoleOf (Some g) (a_AgentRole executor_run) = Some role ∧
    (HasCap role CapStatus = true ∨ CapStatus = CapBody ∧ Slot role = RoleExecutor ∧ n_ID n = a_RunNodeID executor_run) ∧
    (one_of CapStatus [CapBody; CapClaim; CapStatus; CapCreate] = true →
       MayWriteType role (nt_ID (TypeOf (Some g) (Some n))) = true) ∧
    (Slot role = RoleExecutor → a_RunID executor_run ≠ EmptyString → one_of CapStatus [CapBody; CapClaim; CapStatus] = true →
       n_ID n = a_RunNodeID executor_run) ∧
    (Slot role = RoleQA → CapStatus = CapCreate → ∃ tag, tag ∈ n_Tags n ∧ has_prefix tag "goal:" = true).
Proof. apply (role_check_scope executor_run locked_graph CapStatus (plain_node "a" "task" EmptyString)); vm_compute; reflexivity. Defined.

(** On a staged project the one who did the work does not settle it: a
    status write that passes the stage gate and settles a node under a staged
    workflow comes from a person, from a role other than Executor, from a run
    the hub dispatched without a role, or is on a type that takes no acceptance
    criteria. *)
Theorem staged_work_not_self_settled `{Unicode} (actor : Actor) (g : Graph) (n : Node) (status : Status)
    (Hstaged : Staged (EffectiveWorkflow (Some g) (GoalOf (Some g) (Some n))) = true)
    (Hsettles : Settled status (statusDefinitions (Some g)) = true)
    (Hpass : checkStatusGate actor g (Some n) status = None) :
  IsAgent actor = false ∨
  (∃ role, actorRole actor (Some g) = inr (Some role) ∧ Slot role ≠ RoleExecutor) ∨
  (HasRole actor = false ∧ (a_RunID actor ≠ EmptyString ∨ AcceptanceAllowed (Some g) (Some n) = false)).
Proof.
  unfold checkStatusGate in Hpass. destruct (actorRole actor (Some g)) as [e|[role|]] eqn:Er; [done| |].
  - destruct (String.eqb_spec (Slot role) RoleExecutor) as [Hs|Hs]; [exfalso|by right; left; eauto].
    cbn [negb orb] in Hpass. rewrite Hsettles, Hstaged in Hpass. cbn [negb orb andb] in Hpass.
    rewrite andb_false_r in Hpass. done.
  - assert (Hrole : HasRole actor = false).
    { unfold actorRole in Er. destruct (HasRole actor); [|done]. cbn [negb] in Er. by destruct (RoleOf _ _). }
    destruct (IsAgent actor); [|by left]. right. right. split; [done|].
    destruct (String.eqb_spec (a_RunID actor) EmptyString) as [Hr|Hr]; [right|by left].
    cbn [negb orb] in Hpass. rewrite Hsettles, Hstaged in Hpass. cbn [negb orb andb] in Hpass.
    destruct (AcceptanceAllowed (Some g) (Some n)); [|done]. exfalso. revert Hpass. by repeat case_match.
Qed.

Definition staged_graph : Graph :=
  mkGraph 1 "workflow" [] [Some (plain_node "a" "task" EmptyString)] [] ∅ [] []
    (WorkflowForPreset PresetStandard) EmptyString None.

Definition tester_run : Actor := mkActor "r3" "r3" "member" AgentWorker "tester" "run-3" "a".

Lemma staged_work_not_self_settled_witness :
  checkStatusGate executor_run staged_graph (Some (plain_node "a" "task" EmptyString)) StatusDone ≠ None ∧
  (IsAgent tester_run = false ∨
   (∃ role, actorRole tester_run (Some staged_graph) = inr (Some role) ∧ Slot role ≠ RoleExecutor) ∨
   (HasRole tester_run = false ∧
    (a_RunID tester_run ≠ EmptyString ∨ AcceptanceAllowed (Some staged_graph) (Some (plain_node "a" "task" EmptyString)) = false))).
Proof.
  split; [by vm_compute|].
  apply (staged_work_not_self_settled tester_run staged_graph (plain_node "a" "task" EmptyString) StatusDone);
    vm_compute; reflexivity.
Defined.

(** * Sequences of agent writes *)

Section Sequences.
Context `{Unicode}.

Lemma nodeTypeByID_id g id t : nodeTypeByID g id = Some t → nt_ID t = id.
Proof.
  unfold nodeTypeByID. destruct (builtinNodeType id) as [b|] eqn:Eb.
  - intros [= <-]. destruct (restyle_behaviour id b (stored_types g)) as [Hid _].
    apply find_type_Some in Eb as [_ Hb]. change (nt_ID (foldl (restyle_if id) b (stored_types g)) = id). congruence.
  - destruct (has_prefix id CustomNodeTypePrefix); [|done]. cbn [negb].
    destruct (find (is_id id) (stored_types g)) as [def|] eqn:Ef; [|done]. intros [= <-].
    apply find_some in Ef as [_ Hid]. by apply String.eqb_eq in Hid.
Qed.

(** A resolved type is the one found under its own id. *)
Lemma TypeOfKind_by_id g kind : nodeTypeByID g (nt_ID (TypeOfKind g kind)) = Some (TypeOfKind g kind).
Proof.
  unfold TypeOfKind. set (k := or_else _ _). destruct (nodeTypeByID g k) as [t|] eqn:Ek.
  - by rewrite (nodeTypeByID_id g k t Ek).
  - destruct (nodeTypeByID g NodeKindTask) as [t|] eqn:Et; [|done]. simpl.
    by rewrite (nodeTypeByID_id g NodeKindTask t Et).
Qed.

Lemma TypeOfKind_inj g k1 k2 : nt_ID (TypeOfKind g k1) = nt_ID (TypeOfKind g k2) → TypeOfKind g k1 = TypeOfKind g k2.
Proof.
  intros He. pose proof (TypeOfKind_by_id g k1) as H1. pose proof (TypeOfKind_by_id g k2) as H2.
  rewrite He in H1. congruence.
Qed.

(** One write an agent may make to a node's kind or status: the pair before
    and after. *)
Inductive agent_step (g : Graph) : string * Status → string * Status → Prop :=
  | agent_retypes actor kind kind' st :
      IsAgent actor = true → checkKindChange actor (Some g) kind kind' = None →
      agent_step g (kind, st) (kind', st)
  | agent_sets actor n st st' :
      IsAgent actor = true → checkStatusWrite actor g (Some n) st' = None →
      agent_step g (n_Kind n, st) (n_Kind n, st').

(** What stays true of a node whose type keeps agents out. *)
Definition kept_out (g : Graph) (t0 : NodeType) (s0 : Status) (x : string * Status) : Prop :=
  TypeOfKind (Some g) x.1 = t0 ∧
  (x.2 = s0 ∨ nt_Completion t0 = CompletionPeople ∧ Settled x.2 (statusDefinitions (Some g)) = false).

Lemma agent_step_kept g t0 s0 x y :
  restrictedForAgents t0 = true → agent_step g x y → kept_out g t0 s0 x → kept_out g t0 s0 y.
Proof.
  intros Hr Hstep [Ht Hs]. destruct Hstep as [actor kind kind' st Ha Hk|actor n st st' Ha Hw]; simpl in *.
  - split; [|done]. simpl. unfold checkKindChange in Hk. rewrite Ha in Hk. cbn [negb orb] in Hk.
    destruct (String.eqb_spec kind kind') as [<-|]; [done|].
    destruct (String.eqb_spec (nt_ID (TypeOfKind (Some g) kind)) (nt_ID (TypeOfKind (Some g) kind'))) as [He|];
      [by rewrite <- (TypeOfKind_inj _ _ _ He)|].
    rewrite Ht in Hk. cbn [find] in Hk. by rewrite Hr in Hk.
  - split; [done|]. simpl. unfold checkStatusWrite in Hw.
    change (TypeOf (Some g) (Some n)) with (TypeOfKind (Some g) (n_Kind n)) in Hw. rewrite Ht, Ha in Hw. cbn [negb] in Hw.
    unfold restrictedForAgents in Hr. apply one_of_spec in Hr. right.
    destruct (String.eqb_spec (nt_Completion t0) CompletionNone); [done|].
    destruct (String.eqb_spec (nt_Completion t0) CompletionAuto); [done|].
    assert (Hp : nt_Completion t0 = CompletionPeople) by set_solver.
    rewrite Hp in Hw. split; [done|]. cbn in Hw. by destruct (Settled _ _).
Qed.
End Sequences.

(** C38: no sequence of agent writes, by any agents and in any order of retyping
    and status writes, settles a node only people may complete, nor sets the
    status of an automatic or status-less one, nor turns it into another type. *)
Theorem agents_never_settle_people_only `{Unicode} (g : Graph) (kind kind' : string) (st st' : Status)
    (Hrestricted : restrictedForAgents (TypeOfKind (Some g) kind) = true)
    (Hsteps : rtc (agent_step g) (kind, st) (kind', st')) :
  TypeOfKind (Some g) kind' = TypeOfKind (Some g) kind ∧
  (st' = st ∨ nt_Completion (TypeOfKind (Some g) kind) = CompletionPeople ∧
              Settled st' (statusDefinitions (Some g)) = false).
Proof.
  assert (Hk : kept_out g (TypeOfKind (Some g) kind) st (kind', st')); [|exact Hk].
  refine (rtc_ind_r (kept_out g (TypeOfKind (Some g) kind) st) (kind, st) _ _ _ Hsteps); [split; [done|by left]|].
  intros x y _ Hxy. by apply agent_step_kept.
Qed.

Lemma agents_never_settle_people_only_witness :
  TypeOfKind (Some staged_graph) "Review " = TypeOfKind (Some staged_graph) "gate" ∧
  (StatusInProgress = StatusReady ∨ nt_Completion (TypeOfKind (Some staged_graph) "gate") = CompletionPeople ∧
                      Settled StatusInProgress (statusDefinitions (Some staged_graph)) = false).
Proof.
  apply (agents_never_settle_people_only staged_graph "gate" "Review " StatusReady StatusInProgress); [vm_compute; reflexivity|].
  eapply rtc_l; [apply (agent_sets staged_graph planner_run (plain_node "a" "gate" EmptyString) StatusReady StatusInProgress); vm_compute; reflexivity|].
  eapply rtc_l; [apply (agent_retypes staged_graph executor_run "gate" "Review " StatusInProgress); vm_compute; reflexivity|]. apply rtc_refl.
Defined.
