(* ===== verification/Claims.v ===== *)
(** Claims (internal/store/claims.go, with setStatusLocked of store.go): who is
    working on a node.  A [Board] is what the store's lock protects: the graph,
    the run state the journal replays to, and the claims sidecar.  Every
    operation runs under that lock, so it is one function from the board to a
    board and an answer; the clock and whether each disk write succeeds are
    arguments.  Reading the board is taken to succeed: the code answers a failed
    read of the graph or the run state with an error, and takes a sidecar it
    cannot read for the empty one, which is not followed here. *)

From S2P Require Import Prelude GoStr GoFloat GoTime Dsl Graph NodeTypes Workflow Roles State Readiness Effects Validate Permission.
From stdpp Require Import pretty.
From Stdlib Require Import Ascii.
Open Scope Z_scope.

Definition DefaultLease : Z := 30 * minute.
Definition MinLease : Z := minute.
Definition MaxLease : Z := 8 * hour.
Definition claimRetention : Z := 7 * 24 * hour.
Definition replayRetention : Z := hour.
Definition maxReplayed : nat := 256.

Record Claim := mkClaim {
  c_NodeID : string;
  c_Owner : string;
  c_At : Z;
  c_Expires : Z;
  c_Released : bool;
}.

#[export] Instance Claim_eq_dec : EqDecision Claim.
Proof. solve_decision. Defined.

Definition Live (c : option Claim) (now : Z) : bool :=
  match c with Some c => negb (c_Released c) && (now <? c_Expires c) | None => false end.

(** claimsFile; Replayed keeps the time of each request carried out. A null
    entry, possible only in a file edited by hand, is dropped by prune before
    any other use and is left out here. *)
Record claimsFile := mkClaimsFile {
  f_Claims : gmap string Claim;
  f_Replayed : gmap string Z;
}.

Definition newer (a b : string * Z) : bool := b.2 <? a.2.

(** The newest [maxReplayed] requests. Go's sort.Slice leaves the order of equal
    times open; here it is the order of [map_to_list]. *)
Definition keep_newest (m : gmap string Z) : gmap string Z :=
  if (maxReplayed <? size m)%nat
  then list_to_map (take maxReplayed (slice_stable newer (map_to_list m)))
  else m.

Definition prune (now : Z) (file : claimsFile) : claimsFile :=
  mkClaimsFile
    (filter (λ kv, now - c_Expires kv.2 ≤ claimRetention) (f_Claims file))
    (keep_newest (filter (λ kv, now - kv.2 ≤ replayRetention) (f_Replayed file))).

Definition clampLease (lease : Z) : Z :=
  if lease <=? 0 then DefaultLease
  else if lease <? MinLease then MinLease
  else if MaxLease <? lease then MaxLease
  else lease.

Definition alreadyDone (file : claimsFile) (requestID : string) : bool :=
  if String.eqb requestID EmptyString then false else bool_decide (is_Some (f_Replayed file !! requestID)).

(** record. *)
Definition record (requestID : string) (now : Z) (file : claimsFile) : claimsFile :=
  if String.eqb requestID EmptyString then file
  else mkClaimsFile (f_Claims file) (<[requestID := now]> (f_Replayed file)).

Definition set_claim (nodeID : string) (c : Claim) (file : claimsFile) : claimsFile :=
  mkClaimsFile (<[nodeID := c]> (f_Claims file)) (f_Replayed file).

Definition released (c : Claim) : Claim := mkClaim (c_NodeID c) (c_Owner c) (c_At c) (c_Expires c) true.
Definition extended (c : Claim) (expires : Z) : Claim := mkClaim (c_NodeID c) (c_Owner c) (c_At c) expires (c_Released c).

Record Board := mkBoard {
  b_graph : Graph;
  b_state : RunState;
  b_claims : claimsFile;
}.

Definition with_state (b : Board) (rs : RunState) : Board := mkBoard (b_graph b) rs (b_claims b).
Definition with_claims (b : Board) (file : claimsFile) : Board := mkBoard (b_graph b) (b_state b) file.

Definition option_list {A} (o : option A) : list A := match o with Some x => [x] | None => [] end.

(** Whether the journal append and the sidecar write succeed. *)
Record Io := mkIo { append_ok : bool; save_ok : bool }.

Inductive ClaimError :=
  | NeedsOwner
  | NoSuchNode (id : string)
  | Denied_ (d : Denied)
  | AlreadyClaimed (owner : string) (expires : Z)
  | NotOwner (owner : string)
  | NotClaimable (id : string)
  | UndefinedStatus (s : Status)
  | BadStatus (e : StatusError)
  | Unencodable
  | WriteFailed.

Section Claims.
Context `{Unicode}.

(** * setStatusLocked *)

Definition status_defined (g : Graph) (status : Status) : bool :=
  negb (has_prefix status customPrefix)
  || existsb (λ d, String.eqb (sd_ID d) status) (statusDefinitions (Some g)).

(** The last event, completed with what SetStatus does not know. *)
Definition annotate (ev : HistoryEvent) (from : Status) (note : string) (flags : gmap string value)
    (stateFlags : option (gmap string value)) : HistoryEvent :=
  mkHistoryEvent (he_ID ev) (he_T ev) (he_Event ev) (he_Node ev) from (he_To ev) (he_By ev) note
    (Some flags) (he_RecordedAt ev) stateFlags (he_Ref ev).

Definition map_last {A} (f : A → A) (xs : list A) : list A :=
  match last xs with Some x => removelast xs ++ [f x] | None => xs end.

(** json.Marshal refuses a number that is not finite. A list or map, which only
    a declared graph flag can hold, is taken to be encodable. *)
Definition encodable (v : value) : bool :=
  match v with VFloat64 f | VFloat32 f => negb (is_nan f || is_inf f) | _ => true end.

(** AppendJournalLine encodes the event. *)
Definition event_encodable (ev : HistoryEvent) : bool :=
  forallb (λ kv, encodable kv.2) (map_to_list (default ∅ (he_Flags ev)))
  && forallb (λ kv, encodable kv.2) (map_to_list (default ∅ (he_StateFlags ev))).

Definition setStatusLocked (io : Io) (wall : Z) (b : Board) (nodeID : string) (status : Status) (by_ note : string)
    : outcome ClaimError RunState :=
  let g := b_graph b in
  match NodeByID g nodeID with
  | None => Fail (NoSuchNode nodeID)
  | Some node =>
      let t := TypeOf (Some g) (Some node) in
      if String.eqb (nt_Completion t) CompletionNone then Fail (Denied_ (noStatusError nodeID t))
      else if negb (status_defined g status) then Fail (UndefinedStatus status)
      else
        let rs := b_state b in
        let from := default EmptyString (ComputeStatuses g (Some rs) !! nodeID) in
        if negb (CanTransition from status) then Fail (BadStatus (InvalidTransition from status))
        else match SetStatus rs nodeID status by_ wall with
             | Ok rs1 =>
                 let flags := if String.eqb status StatusDone
                              then ApplyEffects (Some node) (Some (default ∅ (rs_Flags rs1))) else rs_Flags rs1 in
                 let rs2 := mkRunState (rs_StartedAt rs1) (rs_Nodes rs1) flags (rs_History rs1) in
                 let rs3 := with_history rs2
                              (map_last (λ ev, annotate ev from note (EffectiveFlags g (Some rs2)) flags) (rs_History rs2)) in
                 if negb (forallb event_encodable (option_list (last (rs_History rs3)))) then Fail Unencodable
                 else if append_ok io then Ok rs3 else Fail WriteFailed
             | Fail e => Fail (BadStatus e)
             | Panic => Panic
             | OutOfFuel => OutOfFuel
             end
  end.

(** * ClaimNode *)

Record ClaimResult := mkClaimResult {
  cr_Claim : option Claim;
  cr_State : RunState;
  cr_Node : option ReadyNode;
}.

(** The checks before the board is looked at: node, write access, role, type. *)
Definition claim_refusal (actor : Actor) (g : Graph) (nodeID : string) : option ClaimError :=
  match NodeByID g nodeID with
  | None => Some (NoSuchNode nodeID)
  | Some node =>
      match checkNodeWrite actor (Some node) with
      | Some d => Some (Denied_ d)
      | None =>
          match checkRole actor g CapClaim (Some node) with
          | Some d => Some (Denied_ d)
          | None =>
              let t := TypeOf (Some g) (Some node) in
              if IsAgent actor && String.eqb (nt_AgentMode t) AgentNone
              then Some (Denied_ (NodeTypeDenied nodeID (nt_ID t) CodeNodeTypeForbidsAgent StatusForbidden))
              else None
          end
      end
  end.

(** A node whose holder gave up: a claim record not released, in progress. *)
Definition abandoned (b : Board) (nodeID : string) (existing : option Claim) : bool :=
  match existing with
  | Some c => negb (c_Released c)
              && bool_decide (ComputeStatuses (b_graph b) (Some (b_state b)) !! nodeID = Some StatusInProgress)
  | None => false
  end.

Definition ready_task (b : Board) (nodeID : string) : option ReadyNode :=
  find (λ t, String.eqb (rn_ID t) nodeID) (Ready (ComputeReadiness (Some (b_graph b)) (Some (b_state b)))).

(** ClaimNode from the readiness test on: a holder that does not hold the node.
    When only the sidecar write fails, the status write has already happened. *)
Definition claim_fresh (io : Io) (nodeID owner : string) (lease : Z) (requestID : string) (now wall : Z)
    (b : Board) (file : claimsFile) : Board * outcome ClaimError ClaimResult :=
  let task := ready_task b nodeID in
  if negb (bool_decide (is_Some task)) && negb (abandoned b nodeID (f_Claims file !! nodeID))
  then (b, Fail (NotClaimable nodeID))
  else match setStatusLocked io wall b nodeID StatusInProgress owner ("claimed by " +:+ owner) with
       | Ok rs =>
           let claim := mkClaim nodeID owner now (now + clampLease lease) false in
           if save_ok io
           then (mkBoard (b_graph b) rs (record requestID now (set_claim nodeID claim file)),
                 Ok (mkClaimResult (Some claim) rs task))
           else (with_state b rs, Fail WriteFailed)
       | Fail e => (b, Fail e)
       | Panic => (b, Panic)
       | OutOfFuel => (b, OutOfFuel)
       end.

Definition ClaimNode (io : Io) (actor : Actor) (nodeID owner : string) (lease : Z) (requestID : string) (now wall : Z)
    (b : Board) : Board * outcome ClaimError ClaimResult :=
  let owner := trim_space owner in
  if String.eqb owner EmptyString then (b, Fail NeedsOwner)
  else
    let file := prune now (b_claims b) in
    if alreadyDone file requestID then (b, Ok (mkClaimResult (f_Claims file !! nodeID) (b_state b) None))
    else match claim_refusal actor (b_graph b) nodeID with
         | Some e => (b, Fail e)
         | None =>
             match f_Claims file !! nodeID with
             | Some c =>
                 if Live (Some c) now then
                   if negb (String.eqb (c_Owner c) owner) then (b, Fail (AlreadyClaimed (c_Owner c) (c_Expires c)))
                   else
                     let c' := extended c (now + clampLease lease) in
                     if save_ok io
                     then (with_claims b (record requestID now (set_claim nodeID c' file)),
                           Ok (mkClaimResult (Some c') (b_state b) None))
                     else (b, Fail WriteFailed)
                 else claim_fresh io nodeID owner lease requestID now wall b file
             | None => claim_fresh io nodeID owner lease requestID now wall b file
             end
         end.

(** * ReleaseClaim *)

Definition ReleaseClaim (io : Io) (nodeID owner : string) (now wall : Z) (b : Board)
    : Board * outcome ClaimError unit :=
  let file := prune now (b_claims b) in
  match f_Claims file !! nodeID with
  | Some claim =>
      if negb (Live (Some claim) now) then (b, Fail (NotOwner EmptyString))
      else if negb (String.eqb (c_Owner claim) (trim_space owner)) then (b, Fail (NotOwner (c_Owner claim)))
      else match setStatusLocked io wall b nodeID StatusReady owner ("released by " +:+ owner) with
           | Ok rs =>
               if save_ok io
               then (mkBoard (b_graph b) rs (set_claim nodeID (released claim) file), Ok tt)
               else (with_state b rs, Fail WriteFailed)
           | Fail e => (b, Fail e)
           | Panic => (b, Panic)
           | OutOfFuel => (b, OutOfFuel)
           end
  | None => (b, Fail (NotOwner EmptyString))
  end.

(** * The readers *)

Definition ClaimFor (now : Z) (b : Board) (nodeID : string) : option Claim :=
  let claim := f_Claims (b_claims b) !! nodeID in
  if Live claim now then claim else None.

Definition LiveClaims (now : Z) (b : Board) : list Claim :=
  slice_stable (λ x y, string_ltb (c_NodeID x) (c_NodeID y))
    (List.filter (λ c, Live (Some c) now) (map_to_list (f_Claims (b_claims b))).*2).

(** * ReportStatus *)

(** The four checks before the sidecar is read, in their order. *)
Definition report_refusal (actor : Actor) (g : Graph) (nodeID : string) (status : Status) : option Denied :=
  let n := NodeByID g nodeID in
  match checkNodeWrite actor n with
  | Some d => Some d
  | None =>
      match checkStatusWrite actor g n status with
      | Some d => Some d
      | None =>
          match checkRole actor g CapStatus n with
          | Some d => Some d
          | None => checkStatusGate actor g n status
          end
      end
  end.

(** The switch on the owner: the note to record, and the claim as the caller
    leaves it. *)
Definition report_owner (now : Z) (claim : option Claim) (by_ note owner : string)
    : outcome ClaimError (string * option Claim) :=
  if String.eqb owner EmptyString then
    match claim with
    | Some c => if Live claim now && negb (String.eqb (c_Owner c) by_)
                then Ok (trim_space (note +:+ " (overriding " +:+ c_Owner c +:+ ")"), Some (released c))
                else Ok (note, claim)
    | None => Ok (note, None)
    end
  else match claim with
       | Some c => if negb (Live claim now) then Fail (NotOwner EmptyString)
                   else if negb (String.eqb (c_Owner c) owner) then Fail (NotOwner (c_Owner c))
                   else Ok (note, claim)
       | None => Fail (NotOwner EmptyString)
       end.

(** The claim once the status is written: finishing releases the node. *)
Definition settle_claim (g : Graph) (status : Status) (claim : option Claim) : option Claim :=
  if Settled status (statusDefinitions (Some g)) then released <$> claim else claim.

Definition put_claim (nodeID : string) (claim : option Claim) (file : claimsFile) : claimsFile :=
  match claim with Some c => set_claim nodeID c file | None => file end.

Definition ReportStatus (io : Io) (actor : Actor) (nodeID : string) (status : Status)
    (by_ note owner requestID : string) (now wall : Z) (b : Board) : Board * outcome ClaimError RunState :=
  match report_refusal actor (b_graph b) nodeID status with
  | Some d => (b, Fail (Denied_ d))
  | None =>
      let file := prune now (b_claims b) in
      if alreadyDone file requestID then (b, Ok (b_state b))
      else match report_owner now (f_Claims file !! nodeID) by_ note (trim_space owner) with
           | Ok (note, claim) =>
               match setStatusLocked io wall b nodeID status by_ note with
               | Ok rs =>
                   let file := record requestID now (put_claim nodeID (settle_claim (b_graph b) status claim) file) in
                   if save_ok io then (mkBoard (b_graph b) rs file, Ok rs)
                   else (with_state b rs, Fail WriteFailed)
               | Fail e => (b, Fail e)
               | Panic => (b, Panic)
               | OutOfFuel => (b, OutOfFuel)
               end
           | Fail e => (b, Fail e)
           | Panic => (b, Panic)
           | OutOfFuel => (b, OutOfFuel)
           end
  end.
End Claims.
