(* ===== verification/ClaimFacts.v ===== *)
(** What claims guarantee: a live claim is kept through every sequence of
    operations of other holders, a granted claim is a fresh bounded lease on
    work that could be taken, and a retried request is carried out once. *)

From S2P Require Import Prelude GoStr GoFloat GoTime Dsl Graph NodeTypes Workflow Roles State Readiness Effects Validate Permission PermFacts Claims.
From Stdlib Require Import Ascii PeanoNat.
Open Scope Z_scope.

(** * The sidecar *)

Lemma clampLease_bounds lease : MinLease ≤ clampLease lease ≤ MaxLease.
Proof.
  unfold clampLease, MinLease, MaxLease, DefaultLease, minute, hour, minute, second.
  case_tests; bool_to_prop; lia.
Qed.

Lemma Live_spec c now : Live (Some c) now = true ↔ c_Released c = false ∧ now < c_Expires c.
Proof. unfold Live. rewrite andb_true_iff, negb_true_iff, Z.ltb_lt. done. Qed.

(** Pruning drops only records long expired. *)
Lemma prune_claims now file id c :
  f_Claims (prune now file) !! id = Some c ↔ f_Claims file !! id = Some c ∧ now - c_Expires c ≤ claimRetention.
Proof. unfold prune. cbn [f_Claims]. by rewrite map_lookup_filter_Some. Qed.

Lemma retention_nonneg : 0 ≤ claimRetention ∧ 0 ≤ replayRetention.
Proof. vm_compute. split; discriminate. Qed.

Lemma prune_live now file id c :
  f_Claims file !! id = Some c → now < c_Expires c → f_Claims (prune now file) !! id = Some c.
Proof. intros Hc He. apply prune_claims. pose proof retention_nonneg. split; [done|lia]. Qed.

Lemma record_claims req now file : f_Claims (record req now file) = f_Claims file.
Proof. unfold record. by destruct (String.eqb req EmptyString). Qed.

Lemma record_done req now file : req ≠ EmptyString → f_Replayed (record req now file) !! req = Some now.
Proof.
  intros Hr. unfold record. rewrite (proj2 (String.eqb_neq _ _) Hr). cbn [f_Replayed]. by rewrite lookup_insert_eq.
Qed.

Lemma alreadyDone_spec file req :
  alreadyDone file req = true ↔ req ≠ EmptyString ∧ is_Some (f_Replayed file !! req).
Proof.
  unfold alreadyDone. destruct (String.eqb_spec req EmptyString); [naive_solver|].
  rewrite bool_decide_eq_true. naive_solver.
Qed.

(** * Replay protection *)

(** The remembered requests at least as recent as [t]. *)
Definition fresher (t : Z) (m : gmap string Z) : nat := length (filter (λ kv, t ≤ kv.2) (map_to_list m)).

Lemma fresher_mono t m1 m2 : m1 ⊆ m2 → (fresher t m1 ≤ fresher t m2)%nat.
Proof.
  intros Hm. unfold fresher. apply submseteq_length, NoDup_submseteq; [apply NoDup_filter, NoDup_map_to_list|].
  intros kv. rewrite !list_elem_of_filter, !elem_of_map_to_list'. intros [? ?]. split; [done|]. by eapply lookup_weaken.
Qed.

Lemma fresher_insert t m req now : m !! req = None → (fresher t (<[req := now]> m) ≤ S (fresher t m))%nat.
Proof.
  intros Hr. unfold fresher. rewrite map_to_list_insert, filter_cons by done. destruct (decide _); simpl; lia.
Qed.

Lemma elem_of_take_newest (x : string * Z) (xs : list (string * Z)) (n : nat) :
  x ∈ xs → StronglySorted (λ a b, b.2 ≤ a.2) xs → (length (filter (λ y, (x.2 ≤ y.2)%Z) xs) ≤ n)%nat → x ∈ take n xs.
Proof.
  revert n. induction xs as [|y xs IH]; intros n Hx Hs Hn; [by apply elem_of_nil in Hx|].
  apply StronglySorted_inv in Hs as [Hs Hy].
  assert (x.2 ≤ y.2) as Hle.
  { apply elem_of_cons in Hx as [->|Hx]; [done|]. by eapply Forall_forall in Hy. }
  rewrite filter_cons, decide_True in Hn by done. destruct n as [|n]; simpl in Hn; [lia|]. simpl.
  apply elem_of_cons in Hx as [->|Hx]; [by left|right]. apply IH; [done|done|lia].
Qed.

Lemma newest_sorted m : StronglySorted (λ a b : string * Z, b.2 ≤ a.2) (slice_stable newer (map_to_list m)).
Proof. apply slice_stable_sorted; unfold newer; intros *; rewrite ?Z.ltb_lt, ?Z.ltb_ge; lia. Qed.

Lemma keep_newest_lookup m req t : keep_newest m !! req = Some t → m !! req = Some t.
Proof.
  unfold keep_newest. destruct (maxReplayed <? size m)%nat; [|done]. intros Hk.
  apply elem_of_list_to_map_2 in Hk. apply elem_of_map_to_list. rewrite <- (slice_stable_perm newer).
  rewrite <- (take_drop maxReplayed (slice_stable _ _)). apply elem_of_app. by left.
Qed.

Lemma keep_newest_keeps m req t :
  m !! req = Some t → (fresher t m ≤ maxReplayed)%nat → keep_newest m !! req = Some t.
Proof.
  intros Hm Hf. unfold keep_newest. destruct (maxReplayed <? size m)%nat; [|done].
  apply elem_of_list_to_map_1.
  - rewrite fmap_take. eapply sublist_NoDup; [|apply sublist_take]. rewrite slice_stable_perm. apply NoDup_fst_map_to_list.
  - apply elem_of_take_newest; [|apply newest_sorted|].
    + rewrite slice_stable_perm. by apply elem_of_map_to_list.
    + cbn [snd]. etransitivity; [|apply Hf]. apply Nat.eq_le_incl. unfold fresher. by rewrite slice_stable_perm.
Qed.

Lemma prune_replayed now file : f_Replayed (prune now file) ⊆ f_Replayed file.
Proof.
  apply map_subseteq_spec. intros req t Hk. apply keep_newest_lookup in Hk.
  by apply map_lookup_filter_Some in Hk as [Hk _].
Qed.

Lemma prune_keeps_request now file req t :
  f_Replayed file !! req = Some t → now - t ≤ replayRetention → (fresher t (f_Replayed file) ≤ maxReplayed)%nat →
  f_Replayed (prune now file) !! req = Some t.
Proof.
  intros Hr Ht Hf. apply keep_newest_keeps; [by apply map_lookup_filter_Some|].
  etransitivity; [|apply Hf]. apply fresher_mono, map_filter_subseteq.
Qed.

(** * Operations as steps *)

Inductive Op :=
  | OpClaim (actor : Actor) (nodeID owner : string) (lease : Z) (requestID : string)
  | OpRelease (nodeID owner : string)
  | OpReport (actor : Actor) (nodeID : string) (status : Status) (by_ note owner requestID : string).

(** One call: the clock of claims, the clock of the journal, the disk. *)
Record Call := mkCall { call_now : Z; call_wall : Z; call_io : Io; call_op : Op }.

Section Facts.
Context `{Unicode}.

Definition step (b : Board) (k : Call) : Board :=
  match call_op k with
  | OpClaim actor nodeID owner lease req => (ClaimNode (call_io k) actor nodeID owner lease req (call_now k) (call_wall k) b).1
  | OpRelease nodeID owner => (ReleaseClaim (call_io k) nodeID owner (call_now k) (call_wall k) b).1
  | OpReport actor nodeID status by_ note owner req =>
      (ReportStatus (call_io k) actor nodeID status by_ note owner req (call_now k) (call_wall k) b).1
  end.

Definition run (b : Board) (ks : list Call) : Board := foldl step b ks.

(** The calls by which a holder's claim may end or change: its own claim,
    release and reports, a settling report, and an unclaimed caller's report. *)
Definition ends_hold (g : Graph) (owner node : string) (op : Op) : bool :=
  match op with
  | OpClaim _ nodeID o _ _ => String.eqb nodeID node && String.eqb (trim_space o) owner
  | OpRelease nodeID o => String.eqb nodeID node && String.eqb (trim_space o) owner
  | OpReport _ nodeID status by_ _ o _ =>
      String.eqb nodeID node
      && (String.eqb (trim_space o) owner
          || (String.eqb (trim_space o) EmptyString
              && (negb (String.eqb by_ owner) || Settled status (statusDefinitions (Some g)))))
  end.

Lemma step_graph b k : b_graph (step b k) = b_graph b.
Proof.
  unfold step, ClaimNode, ReleaseClaim, ReportStatus, claim_fresh, with_state, with_claims.
  destruct (call_op k); repeat (case_match; cbn [fst b_graph]; try done).
Qed.
Hint Rewrite record_claims step_graph : claims.

(** What a claim call leaves in the sidecar: what it found, or, on the node
    asked for, the caller's own claim. *)
Lemma ClaimNode_claims io actor nodeID owner lease req now wall b b' r :
  ClaimNode io actor nodeID owner lease req now wall b = (b', r) →
  b_claims b' = b_claims b ∨
  ∃ c, c_Owner c = trim_space owner ∧ f_Claims (b_claims b') = <[nodeID := c]> (f_Claims (prune now (b_claims b))) ∧
       match f_Claims (prune now (b_claims b)) !! nodeID with
       | Some old => Live (Some old) now = true → c_Owner old = trim_space owner
       | None => True
       end.
Proof.
  unfold ClaimNode, claim_fresh. intros Hc.
  repeat (case_match; simplify_eq/=; try (by left)); bool_to_prop;
    right; eexists; (split; [|split; [by rewrite record_claims|]]); naive_solver.
Qed.

(** The sidecar after another call: pruned, with at most the called node's
    record replaced. *)
Lemma claims_other (node nodeID : string) (c x : Claim) now file :
  node ≠ nodeID → f_Claims file !! node = Some c → now < c_Expires c →
  <[nodeID := x]> (f_Claims (prune now file)) !! node = Some c.
Proof. intros Hne Hc He. rewrite lookup_insert_ne by done. by apply prune_live. Qed.

Lemma claim_keeps_hold io actor nodeID owner lease req now wall b node c :
  f_Claims (b_claims b) !! node = Some c → Live (Some c) now = true →
  String.eqb nodeID node && String.eqb (trim_space owner) (c_Owner c) = false →
  f_Claims (b_claims (ClaimNode io actor nodeID owner lease req now wall b).1) !! node = Some c.
Proof.
  intros Hc Hl Hends. apply Live_spec in Hl as Hl'. destruct Hl' as [_ He].
  destruct (ClaimNode io actor nodeID owner lease req now wall b) as [b' r] eqn:E. cbn [fst].
  apply ClaimNode_claims in E as [->|(x & Hx & -> & Hold)]; [done|].
  destruct (String.eqb_spec nodeID node) as [->|Hne]; [|by apply claims_other].
  rewrite (prune_live _ _ _ _ Hc He) in Hold. apply Hold in Hl. cbn [andb] in Hends. by apply String.eqb_neq in Hends.
Qed.

Lemma release_keeps_hold io nodeID owner now wall b node c :
  f_Claims (b_claims b) !! node = Some c → Live (Some c) now = true →
  String.eqb nodeID node && String.eqb (trim_space owner) (c_Owner c) = false →
  f_Claims (b_claims (ReleaseClaim io nodeID owner now wall b).1) !! node = Some c.
Proof.
  intros Hc Hl Hends. apply Live_spec in Hl as Hl'. destruct Hl' as [_ He]. unfold ReleaseClaim.
  destruct (String.eqb_spec nodeID node) as [->|Hne].
  - rewrite (prune_live _ _ _ _ Hc He), Hl. cbn [negb andb] in *. by rewrite String.eqb_sym, Hends.
  - repeat (case_match; try done). cbn. by apply claims_other.
Qed.

Lemma put_other (node nodeID : string) (c : Claim) new now file :
  node ≠ nodeID → f_Claims file !! node = Some c → now < c_Expires c →
  f_Claims (put_claim nodeID new (prune now file)) !! node = Some c.
Proof. intros Hne Hc He. destruct new; [by apply claims_other|by apply prune_live]. Qed.

(** A report that is not the holder's, does not settle and overrides nobody
    leaves the claim as it found it. *)
Lemma report_owner_keeps now c by_ note owner :
  Live (Some c) now = true → String.eqb owner (c_Owner c) = false →
  String.eqb owner EmptyString && negb (String.eqb by_ (c_Owner c)) = false →
  (∃ e, report_owner now (Some c) by_ note owner = Fail e) ∨
  owner = EmptyString ∧ report_owner now (Some c) by_ note owner = Ok (note, Some c).
Proof.
  intros Hl Ho Hb. unfold report_owner. rewrite Hl. destruct (String.eqb_spec owner EmptyString) as [->|].
  - cbn [andb negb] in *. rewrite (String.eqb_sym (c_Owner c)), Hb. by right.
  - cbn [negb]. rewrite String.eqb_sym, Ho. left. by eexists.
Qed.

Lemma report_keeps_hold io actor nodeID status by_ note owner req now wall b node c :
  f_Claims (b_claims b) !! node = Some c → Live (Some c) now = true →
  ends_hold (b_graph b) (c_Owner c) node (OpReport actor nodeID status by_ note owner req) = false →
  f_Claims (b_claims (ReportStatus io actor nodeID status by_ note owner req now wall b).1) !! node = Some c.
Proof.
  intros Hc Hl Hends. apply Live_spec in Hl as Hl'. destruct Hl' as [_ He]. unfold ReportStatus. cbn [ends_hold] in Hends.
  destruct (report_refusal _ _ _ _); [done|]. destruct (alreadyDone _ _); [done|].
  destruct (String.eqb_spec nodeID node) as [->|Hne].
  - cbn [andb] in Hends. apply orb_false_iff in Hends as [Ho Hs].
    rewrite (prune_live _ _ _ _ Hc He). destruct (report_owner_keeps now c by_ note (trim_space owner)) as [[e ->]|[Hempty ->]];
      [done|done| |done|].
    + apply andb_false_iff in Hs as [->|Hs]; [done|]. apply orb_false_iff in Hs as [-> _]. apply andb_false_r.
    + rewrite Hempty in Hs. cbn [andb String.eqb] in Hs. apply orb_false_iff in Hs as [_ Hset].
      unfold settle_claim. rewrite Hset. repeat (case_match; try done). cbn. rewrite record_claims. cbn. apply lookup_insert_eq.
  - repeat (case_match; try done). cbn. rewrite record_claims. by apply put_other.
Qed.

(** One call of somebody else keeps a live claim. *)
Lemma step_keeps_hold b k node c :
  f_Claims (b_claims b) !! node = Some c → Live (Some c) (call_now k) = true →
  ends_hold (b_graph b) (c_Owner c) node (call_op k) = false →
  f_Claims (b_claims (step b k)) !! node = Some c.
Proof.
  unfold step. destruct (call_op k); intros; [by apply claim_keeps_hold|by apply release_keeps_hold|by apply report_keeps_hold].
Qed.

Lemma run_keeps_hold b ks node c :
  f_Claims (b_claims b) !! node = Some c → c_Released c = false →
  Forall (λ k, call_now k < c_Expires c ∧ ends_hold (b_graph b) (c_Owner c) node (call_op k) = false) ks →
  f_Claims (b_claims (run b ks)) !! node = Some c ∧ b_graph (run b ks) = b_graph b.
Proof.
  intros Hc Hr Hks. revert b Hc Hks. induction ks as [|k ks IH]; intros b Hc Hks; [done|].
  apply Forall_cons in Hks as [[He Hop] Hks]. change (run b (k :: ks)) with (run (step b k) ks).
  destruct (IH (step b k)) as [? Hg].
  - apply step_keeps_hold; [done| |done]. by apply Live_spec.
  - by rewrite step_graph.
  - by rewrite Hg, step_graph.
Qed.

(** Nobody else is granted a node with a live claim. *)
Lemma claim_refused io actor nodeID owner lease req now wall b c :
  f_Claims (b_claims b) !! nodeID = Some c → Live (Some c) now = true → trim_space owner ≠ c_Owner c →
  ∃ r, ClaimNode io actor nodeID owner lease req now wall b = (b, r) ∧
       match r with Ok r => cr_Claim r = Some c | Fail _ => True | _ => False end.
Proof.
  intros Hc Hl Ho. apply Live_spec in Hl as Hl'. destruct Hl' as [_ He]. unfold ClaimNode.
  destruct (String.eqb _ _); [by eexists|]. rewrite (prune_live _ _ _ _ Hc He).
  destruct (alreadyDone _ _); [by eexists|]. destruct (claim_refusal _ _ _); [by eexists|].
  rewrite Hl, (proj2 (String.eqb_neq _ _)) by done. by eexists.
Qed.

(** * What a call that succeeds did *)

Lemma map_last_snoc {A} (f : A → A) xs x : map_last f (xs ++ [x]) = xs ++ [f x].
Proof. unfold map_last. by rewrite last_snoc, removelast_last. Qed.

(** The board after a status write: one event more, the node's state set. *)
Record status_written (b : Board) (nodeID : string) (status : Status) (by_ note : string) (rs : RunState) : Prop := {
  sw_node : is_Some (NodeByID (b_graph b) nodeID);
  sw_valid : ValidStatus status = true;
  sw_state : ∃ at_, rs_Nodes rs = <[nodeID := mkNodeState status at_ by_]> (rs_Nodes (b_state b));
  sw_event : ∃ ev, rs_History rs = rs_History (b_state b) ++ [ev] ∧ he_Event ev = "status" ∧ he_Node ev = nodeID ∧
               he_To ev = status ∧ he_By ev = by_ ∧ he_Note ev = note ∧
               he_From ev = default EmptyString (ComputeStatuses (b_graph b) (Some (b_state b)) !! nodeID);
}.

Lemma setStatusLocked_Ok io wall b nodeID status by_ note rs :
  setStatusLocked io wall b nodeID status by_ note = Ok rs → status_written b nodeID status by_ note rs.
Proof.
  unfold setStatusLocked. destruct (NodeByID _ _) eqn:En; [|done].
  destruct (String.eqb _ CompletionNone); [done|]. destruct (negb (status_defined _ _)); [done|].
  destruct (negb (CanTransition _ _)); [done|]. unfold SetStatus.
  destruct (ValidStatus status) eqn:Ev; [|done]. unfold CanTransition. rewrite Ev. cbn [negb].
  destruct (negb (forallb _ _)); [done|]. destruct (append_ok io); [|done]. intros [= <-]. cbn [rs_History with_history]. rewrite map_last_snoc.
  split; [by eexists|done|by eexists|]. eexists. split; [done|]. done.
Qed.

Lemma setStatusLocked_settles io wall b nodeID status by_ note : settled (setStatusLocked io wall b nodeID status by_ note).
Proof. unfold setStatusLocked, SetStatus. repeat (case_match; simplify_eq/=; try done). Qed.

Lemma claim_fresh_Ok io nodeID owner lease req now wall b file b' r :
  claim_fresh io nodeID owner lease req now wall b file = (b', Ok r) →
  (is_Some (ready_task b nodeID) ∨ abandoned b nodeID (f_Claims file !! nodeID) = true) ∧
  status_written b nodeID StatusInProgress owner ("claimed by " +:+ owner) (b_state b') ∧
  let c := mkClaim nodeID owner now (now + clampLease lease) false in
  cr_Claim r = Some c ∧ f_Claims (b_claims b') = <[nodeID := c]> (f_Claims file).
Proof.
  unfold claim_fresh.
  destruct (negb (bool_decide (is_Some (ready_task b nodeID))) && negb (abandoned b nodeID (f_Claims file !! nodeID))) eqn:Ea;
    [done|].
  destruct (setStatusLocked _ _ _ _ _ _ _) eqn:Es; try done. destruct (save_ok io); [|done]. intros [= <- <-].
  split_and!; [|by eapply setStatusLocked_Ok|done|cbn; by rewrite record_claims].
  apply andb_false_iff in Ea as [Ea|Ea]; apply negb_false_iff in Ea; [left; by apply bool_decide_eq_true in Ea|by right].
Qed.

Lemma ready_task_ready b nodeID :
  is_Some (ready_task b nodeID) → nodeID ∈ rn_ID <$> Ready (ComputeReadiness (Some (b_graph b)) (Some (b_state b))).
Proof.
  intros [t Ht]. apply find_some in Ht as [Hin He]. apply String.eqb_eq in He as <-.
  apply list_elem_of_fmap. exists t. split; [done|]. by apply list_elem_of_In.
Qed.

(** The lease a claim call grants. *)
Definition granted (owner nodeID : string) (now : Z) (b' : Board) (r : ClaimResult) (c : Claim) : Prop :=
  cr_Claim r = Some c ∧ f_Claims (b_claims b') !! nodeID = Some c ∧
  c_Owner c = owner ∧ c_Released c = false ∧ now + MinLease ≤ c_Expires c ≤ now + MaxLease.

(** What made a node claimable. *)
Definition claimable (b : Board) (nodeID : string) (now : Z) : Prop :=
  nodeID ∈ rn_ID <$> Ready (ComputeReadiness (Some (b_graph b)) (Some (b_state b))) ∨
  ∃ old, f_Claims (b_claims b) !! nodeID = Some old ∧ c_Released old = false ∧ c_Expires old ≤ now ∧
    ComputeStatuses (b_graph b) (Some (b_state b)) !! nodeID = Some StatusInProgress.

Lemma claimable_intro b nodeID now file :
  file = prune now (b_claims b) → Live (f_Claims file !! nodeID) now = false →
  is_Some (ready_task b nodeID) ∨ abandoned b nodeID (f_Claims file !! nodeID) = true → claimable b nodeID now.
Proof.
  intros -> Hl [Hr|Ha]; [left; by apply ready_task_ready|right].
  destruct (f_Claims (prune now (b_claims b)) !! nodeID) as [old|] eqn:Eo; [|done].
  apply prune_claims in Eo as [Eo _]. apply andb_true_iff in Ha as [Hr Hs]. apply bool_decide_eq_true in Hs.
  exists old. apply negb_true_iff in Hr as Hr'. unfold Live in Hl. rewrite Hr in Hl. cbn in Hl. apply Z.ltb_ge in Hl. done.
Qed.

Lemma claim_refusal_None actor g nodeID :
  claim_refusal actor g nodeID = None →
  ∃ n, NodeByID g nodeID = Some n ∧ checkNodeWrite actor (Some n) = None ∧
       checkRole actor g CapClaim (Some n) = None ∧
       (IsAgent actor = true → nt_AgentMode (TypeOf (Some g) (Some n)) ≠ AgentNone).
Proof.
  unfold claim_refusal. repeat (case_match; try done). intros _. eexists. split_and!; [done|done|done|].
  intros Ha. rewrite Ha in *. cbn [andb] in *. by apply String.eqb_neq.
Qed.

(** * Retries *)

(** What a call leaves of the remembered requests: what it found, pruned or
    not, with at most one new request. *)
Definition replay_step (old new : gmap string Z) (now : Z) : Prop :=
  ∃ kept, (kept = old ∨ ∃ file, f_Replayed file = old ∧ kept = f_Replayed (prune now file)) ∧
    (new = kept ∨ ∃ req, kept !! req = None ∧ new = <[req := now]> kept).

Lemma replay_step_same old now : replay_step old old now.
Proof. exists old. split; [by left|by left]. Qed.

Lemma replay_step_record file req now claims :
  alreadyDone (prune now file) req = false →
  replay_step (f_Replayed file) (f_Replayed (record req now (mkClaimsFile claims (f_Replayed (prune now file))))) now.
Proof.
  intros Hd. exists (f_Replayed (prune now file)). split; [right; by exists file|]. unfold record.
  unfold alreadyDone in Hd. destruct (String.eqb req EmptyString); [by left|]. right. exists req.
  split; [|done]. apply bool_decide_eq_false in Hd. by apply eq_None_not_Some.
Qed.

Lemma replay_step_pruned file now : replay_step (f_Replayed file) (f_Replayed (prune now file)) now.
Proof. exists (f_Replayed (prune now file)). split; [right; by exists file|by left]. Qed.

Lemma put_claim_replayed nodeID c file :
  put_claim nodeID c file = mkClaimsFile (f_Claims (put_claim nodeID c file)) (f_Replayed file).
Proof. by destruct c, file. Qed.

Lemma step_replayed b k : replay_step (f_Replayed (b_claims b)) (f_Replayed (b_claims (step b k))) (call_now k).
Proof.
  unfold step, ClaimNode, claim_fresh, ReleaseClaim, ReportStatus.
  destruct (call_op k); repeat (case_match; cbn [fst b_claims with_state with_claims]; try apply replay_step_same);
    try apply replay_step_pruned; try (apply replay_step_record; assumption).
  all: rewrite put_claim_replayed; by apply replay_step_record.
Qed.

(** A remembered request stays remembered for an hour, while fewer than 256
    others are as recent. *)
Lemma step_remembers b k req t :
  f_Replayed (b_claims b) !! req = Some t → t ≤ call_now k ≤ t + replayRetention →
  (fresher t (f_Replayed (b_claims b)) ≤ maxReplayed)%nat →
  f_Replayed (b_claims (step b k)) !! req = Some t ∧
  (fresher t (f_Replayed (b_claims (step b k))) ≤ S (fresher t (f_Replayed (b_claims b))))%nat.
Proof.
  intros Hr Ht Hf. destruct (step_replayed b k) as (kept & Hk & Hnew).
  assert (kept !! req = Some t ∧ (fresher t kept ≤ fresher t (f_Replayed (b_claims b)))%nat) as [Hkr Hkf].
  { destruct Hk as [->|(file & Hfile & ->)]; [done|]. rewrite <- Hfile in *.
    split; [apply prune_keeps_request; [done|lia|done]|apply fresher_mono, prune_replayed]. }
  destruct Hnew as [->|(req' & Hreq' & ->)]; [split; [done|lia]|]. split.
  - rewrite lookup_insert_ne; [done|]. intros ->. congruence.
  - pose proof (fresher_insert t kept req' (call_now k) Hreq'). lia.
Qed.

Lemma run_remembers b ks req t :
  f_Replayed (b_claims b) !! req = Some t → Forall (λ k, t ≤ call_now k ≤ t + replayRetention) ks →
  (fresher t (f_Replayed (b_claims b)) + length ks ≤ maxReplayed)%nat →
  f_Replayed (b_claims (run b ks)) !! req = Some t ∧ (fresher t (f_Replayed (b_claims (run b ks))) ≤ maxReplayed)%nat.
Proof.
  revert b. induction ks as [|k ks IH]; intros b Hr Ht Hf; simpl in Hf; [split; [done|simpl; lia]|].
  apply Forall_cons in Ht as [Hk Ht]. change (run b (k :: ks)) with (run (step b k) ks).
  destruct (step_remembers b k req t Hr Hk) as [Hr' Hf']; [lia|]. apply IH; [done|done|lia].
Qed.

Lemma remembered_done b req t now :
  req ≠ EmptyString → f_Replayed (b_claims b) !! req = Some t → now ≤ t + replayRetention →
  (fresher t (f_Replayed (b_claims b)) ≤ maxReplayed)%nat → alreadyDone (prune now (b_claims b)) req = true.
Proof.
  intros Hr Ht Hnow Hf. apply alreadyDone_spec. split; [done|]. exists t.
  apply prune_keeps_request; [done|lia|done].
Qed.

Lemma ClaimNode_replay io actor nodeID owner lease req now wall b :
  trim_space owner ≠ EmptyString → alreadyDone (prune now (b_claims b)) req = true →
  ClaimNode io actor nodeID owner lease req now wall b =
  (b, Ok (mkClaimResult (f_Claims (prune now (b_claims b)) !! nodeID) (b_state b) None)).
Proof. intros Ho Hd. unfold ClaimNode. by rewrite (proj2 (String.eqb_neq _ _) Ho), Hd. Qed.

Lemma ReportStatus_replay io actor nodeID status by_ note owner req now wall b :
  report_refusal actor (b_graph b) nodeID status = None → alreadyDone (prune now (b_claims b)) req = true →
  ReportStatus io actor nodeID status by_ note owner req now wall b = (b, Ok (b_state b)).
Proof. intros Hc Hd. unfold ReportStatus. by rewrite Hc, Hd. Qed.

(** A report that goes through for the first time remembers its request. *)
Lemma ReportStatus_records io actor nodeID status by_ note owner req now wall b b' rs :
  ReportStatus io actor nodeID status by_ note owner req now wall b = (b', Ok rs) →
  alreadyDone (prune now (b_claims b)) req = false → req ≠ EmptyString →
  f_Replayed (b_claims b') = <[req := now]> (f_Replayed (prune now (b_claims b))) ∧
  report_refusal actor (b_graph b) nodeID status = None ∧ b_graph b' = b_graph b.
Proof.
  intros Hc Hd Hr. unfold ReportStatus in Hc. rewrite Hd in Hc. repeat (case_match; simplify_eq/=; try done).
  rewrite put_claim_replayed. unfold record. by rewrite (proj2 (String.eqb_neq _ _) Hr).
Qed.

Lemma run_graph b ks : b_graph (run b ks) = b_graph b.
Proof. unfold run. revert b. induction ks as [|k ks IH]; intros b; [done|]. cbn [foldl]. by rewrite IH, step_graph. Qed.

(** * Reports *)

Lemma report_owner_Ok now claim by_ note owner note' claim' :
  report_owner now claim by_ note owner = Ok (note', claim') →
  (owner ≠ EmptyString → ∃ c, claim = Some c ∧ Live (Some c) now = true ∧ c_Owner c = owner) ∧
  ((note' = note ∧ claim' = claim ∧
    (owner = EmptyString → ∀ c, claim = Some c → Live (Some c) now = true → c_Owner c = by_)) ∨
   ∃ c, claim = Some c ∧ Live (Some c) now = true ∧ c_Owner c ≠ by_ ∧ owner = EmptyString ∧
     note' = trim_space (note +:+ " (overriding " +:+ c_Owner c +:+ ")") ∧ claim' = Some (released c)).
Proof.
  unfold report_owner. destruct (String.eqb_spec owner EmptyString) as [->|Ho].
  - destruct claim as [c|]; [|intros [= <- <-]; split; [done|left; naive_solver]].
    destruct (Live (Some c) now && negb (String.eqb (c_Owner c) by_)) eqn:E; intros [= <- <-]; split; try done.
    + right. exists c. apply andb_true_iff in E as [? E]. apply negb_true_iff, String.eqb_neq in E. done.
    + left. split_and!; [done|done|]. intros _ d [= <-] Hl. rewrite Hl in E. apply negb_false_iff, String.eqb_eq in E. done.
  - destruct claim as [c|]; [|done]. destruct (Live (Some c) now) eqn:El; [|done]. cbn [negb].
    destruct (String.eqb_spec (c_Owner c) owner); [|done]. cbn [negb]. intros [= <- <-]. split; [by exists c|left; done].
Qed.

Lemma released_not_live c t : Live (released <$> c) t = false.
Proof. by destruct c. Qed.

Lemma put_claim_lookup nodeID c file :
  f_Claims (put_claim nodeID c file) !! nodeID = match c with Some c => Some c | None => f_Claims file !! nodeID end.
Proof. destruct c; [apply lookup_insert_eq|done]. Qed.

(** * When a status write goes through *)

(** The flags the event of a status write shows: the declared ones under the
    runtime ones, with the node's effects applied when it is done. *)
Definition flags_after (b : Board) (n : Node) (status : Status) : gmap string value :=
  let flags := if String.eqb status StatusDone
               then default ∅ (ApplyEffects (Some n) (Some (default ∅ (rs_Flags (b_state b)))))
               else default ∅ (rs_Flags (b_state b)) in
  flags ∪ GFlags (b_graph b).

Lemma forallb_map (m : gmap string value) :
  forallb (λ kv, encodable kv.2) (map_to_list m) = true ↔ ∀ f v, m !! f = Some v → encodable v = true.
Proof.
  rewrite forallb_forall. setoid_rewrite <- list_elem_of_In. split.
  - intros Hm f v Hv. apply (Hm (f, v)). by apply elem_of_map_to_list.
  - intros Hm [f v] Hv. apply elem_of_map_to_list in Hv. by eapply Hm.
Qed.

Lemma event_encodable_spec ev flags (graph : gmap string value) :
  he_StateFlags ev = flags → he_Flags ev = Some (default ∅ flags ∪ graph) →
  event_encodable ev = true ↔ ∀ f v, (default ∅ flags ∪ graph) !! f = Some v → encodable v = true.
Proof.
  intros Hs Hf. unfold event_encodable. rewrite Hs, Hf, andb_true_iff, !forallb_map. cbn [default]. split; [naive_solver|].
  intros Hall. split; [done|]. intros f v Hv. apply (Hall f v). by apply lookup_union_Some_l.
Qed.
End Facts.

(** * A worked board *)

Definition good_io : Io := mkIo true true.
Definition agent (name : string) : Actor := mkActor name name "member" AgentWorker EmptyString EmptyString EmptyString.

(** Task "a" is open to agents; nobody has started it. *)
Definition task_graph : Graph := plain_graph [plain_node "a" "task" EmptyString; plain_node "b" "task" "a"] [].
Definition fresh_board : Board := mkBoard task_graph (NewRunState 0) (mkClaimsFile ∅ ∅).

Definition board_of (r : Board * outcome ClaimError ClaimResult) : Board := r.1.
Definition result_of (r : Board * outcome ClaimError ClaimResult) : ClaimResult :=
  match r.2 with Ok r => r | _ => mkClaimResult None empty_state None end.

Definition sample_claim : Claim := mkClaim "a" "ann" 0 (30 * minute) false.
Definition first_claim : Board * outcome ClaimError ClaimResult :=
  ClaimNode good_io (agent "ann") "a" " ann " 0 "req-1" 0 0 fresh_board.
Definition held_board : Board := board_of first_claim.

(** Somebody else claims, releases and reports on the node. *)
Definition rival_calls : list Call :=
  [mkCall minute minute good_io (OpClaim (agent "bob") "a" "bob" 0 "req-2");
   mkCall (2 * minute) minute good_io (OpRelease "a" "bob");
   mkCall (3 * minute) minute good_io (OpReport (agent "bob") "a" StatusDone "bob" EmptyString "bob" "req-3")].

(** C5: one node, one holder.  While a claim is live, every sequence of claims,
    releases and reports that are not the holder's own, do not settle the
    node and do not override the holder leaves the claim exactly as it was, and
    any other caller who then asks for the node gets nothing but the holder's
    claim and leaves the board alone. Every journal append and every save of the
    sidecar may fail; what the calls read (the graph, the run state and the
    sidecar) is taken to be readable each time. *)
Theorem live_claim_exclusive `{Unicode} (b : Board) (ks : list Call) (node : string) (c : Claim)
    (Hclaim : f_Claims (b_claims b) !! node = Some c) (Hheld : c_Released c = false)
    (Hothers : Forall (λ k, call_now k < c_Expires c ∧ ends_hold (b_graph b) (c_Owner c) node (call_op k) = false) ks) :
  f_Claims (b_claims (run b ks)) !! node = Some c ∧
  ∀ io actor owner lease req now wall, trim_space owner ≠ c_Owner c → now < c_Expires c →
    ∃ r, ClaimNode io actor node owner lease req now wall (run b ks) = (run b ks, r) ∧
         match r with Ok r => cr_Claim r = Some c | Fail _ => True | Panic | OutOfFuel => False end.
Proof.
  destruct (run_keeps_hold _ _ _ _ Hclaim Hheld Hothers) as [Hkept _]. split; [done|].
  intros io actor owner lease req now wall Ho Hnow. apply claim_refused; [done| |done]. by apply Live_spec.
Qed.

Lemma live_claim_exclusive_witness :
  f_Claims (b_claims (run held_board rival_calls)) !! "a" = Some sample_claim ∧
  ∀ io actor owner lease req now wall, trim_space owner ≠ "ann" → now < 30 * minute →
    ∃ r, ClaimNode io actor "a" owner lease req now wall (run held_board rival_calls) = (run held_board rival_calls, r) ∧
         match r with Ok r => cr_Claim r = Some sample_claim | Fail _ => True | Panic | OutOfFuel => False end.
Proof.
  apply (live_claim_exclusive held_board rival_calls "a" sample_claim); [by vm_compute|done|].
  repeat constructor; by vm_compute.
Defined.

(** A granted claim is a bounded lease on work that was there to take.  A
    claim that succeeds for the first time (the request is not a repeat) passed
    the write, role and type checks; the claim it answers with is the one on
    the board, in the caller's name and for between one minute and eight hours;
    and either the caller already held the node and only its lease changed, or
    the node was ready and unblocked, or in progress under a lease that ran
    out, and the board now has it in progress by the caller, with one event. *)
Theorem claim_granted `{Unicode} (io : Io) (actor : Actor) (nodeID owner req : string) (lease now wall : Z)
    (b b' : Board) (r : ClaimResult)
    (Hclaim : ClaimNode io actor nodeID owner lease req now wall b = (b', Ok r))
    (Hnew : alreadyDone (prune now (b_claims b)) req = false) :
  ∃ n c, NodeByID (b_graph b) nodeID = Some n ∧ checkNodeWrite actor (Some n) = None ∧
    checkRole actor (b_graph b) CapClaim (Some n) = None ∧
    (IsAgent actor = true → nt_AgentMode (TypeOf (Some (b_graph b)) (Some n)) ≠ AgentNone) ∧
    granted (trim_space owner) nodeID now b' r c ∧ trim_space owner ≠ EmptyString ∧
    ((∃ old, f_Claims (b_claims b) !! nodeID = Some old ∧ Live (Some old) now = true ∧
        c_Owner old = trim_space owner ∧ b_state b' = b_state b) ∨
     (claimable b nodeID now ∧
      status_written b nodeID StatusInProgress (trim_space owner) ("claimed by " +:+ trim_space owner) (b_state b'))).
Proof.
  unfold ClaimNode in Hclaim. destruct (String.eqb_spec (trim_space owner) EmptyString) as [|Ho]; [done|].
  rewrite Hnew in Hclaim. destruct (claim_refusal _ _ _) eqn:Er; [done|].
  apply claim_refusal_None in Er as (n & Hn & Hw & Hrole & Ht). pose proof (clampLease_bounds lease) as Hb.
  assert (Live (f_Claims (prune now (b_claims b)) !! nodeID) now = false →
          claim_fresh io nodeID (trim_space owner) lease req now wall b (prune now (b_claims b)) = (b', Ok r) →
          ∃ c, granted (trim_space owner) nodeID now b' r c ∧ claimable b nodeID now ∧
            status_written b nodeID StatusInProgress (trim_space owner) ("claimed by " +:+ trim_space owner) (b_state b'))
    as Hfresh.
  { intros Hl Hf. apply claim_fresh_Ok in Hf as (Ha & Hs & Hr & Hc). eexists. split_and!; [|by eapply claimable_intro|done].
    split_and!; [done|rewrite Hc; apply lookup_insert_eq|done|done|cbn; lia|cbn; lia]. }
  destruct (f_Claims (prune now (b_claims b)) !! nodeID) as [old|] eqn:Eo.
  - destruct (Live (Some old) now) eqn:El.
    + destruct (String.eqb_spec (c_Owner old) (trim_space owner)) as [He|]; [|done]. cbn [negb] in Hclaim.
      destruct (save_ok io); [|done]. injection Hclaim as <- <-. apply prune_claims in Eo as [Eo _].
      exists n, (extended old (now + clampLease lease)). split_and!; try done.
      * split_and!; [done| |done|by apply Live_spec in El as [? _]|cbn; lia|cbn; lia].
        cbn. rewrite record_claims. apply lookup_insert_eq.
      * left. by exists old.
    + destruct (Hfresh eq_refl Hclaim) as (c & Hg & Hc & Hs). exists n, c. by split_and!; try done; right.
  - destruct (Hfresh eq_refl Hclaim) as (c & Hg & Hc & Hs). exists n, c. by split_and!; try done; right.
Qed.

Lemma claim_granted_witness :
  let b' := held_board in let r := result_of first_claim in
  ∃ n c, NodeByID task_graph "a" = Some n ∧ checkNodeWrite (agent "ann") (Some n) = None ∧
    checkRole (agent "ann") task_graph CapClaim (Some n) = None ∧
    (IsAgent (agent "ann") = true → nt_AgentMode (TypeOf (Some task_graph) (Some n)) ≠ AgentNone) ∧
    granted (trim_space " ann ") "a" 0 b' r c ∧ trim_space " ann " ≠ EmptyString ∧
    ((∃ old, f_Claims (b_claims fresh_board) !! "a" = Some old ∧ Live (Some old) 0 = true ∧
        c_Owner old = trim_space " ann " ∧ b_state b' = b_state fresh_board) ∨
     (claimable fresh_board "a" 0 ∧
      status_written fresh_board "a" StatusInProgress (trim_space " ann ") ("claimed by " +:+ trim_space " ann ") (b_state b'))).
Proof.
  apply (claim_granted good_io (agent "ann") "a" " ann " "req-1" 0 0 0 fresh_board); [by vm_compute|by vm_compute].
Defined.

(** Ann reports her node done; a person overrides her on another day. *)
Definition first_report : Board * outcome ClaimError RunState :=
  ReportStatus good_io (agent "ann") "a" StatusDone "ann" "tests pass" "ann" "req-4" minute minute held_board.
Definition report_state (r : Board * outcome ClaimError RunState) : RunState :=
  match r.2 with Ok rs => rs | _ => empty_state end.

(** C37: a retried request is carried out once.  After a status report with a
    request id has gone through, the same report sent again within the hour,
    with any of up to 255 other calls in between, is answered with the state the
    board has then, and neither the journal nor the claims change. The appends
    and saves of the calls in between, and of the retry, may fail; what the calls
    read (the graph, the run state and the sidecar) is taken to be readable each
    time. *)
Theorem retried_report_is_idempotent `{Unicode} (io : Io) (actor : Actor) (nodeID : string) (status : Status)
    (by_ note owner req : string) (now wall : Z) (b b' : Board) (rs : RunState) (ks : list Call)
    (Hfirst : ReportStatus io actor nodeID status by_ note owner req now wall b = (b', Ok rs))
    (Hnew : alreadyDone (prune now (b_claims b)) req = false) (Hreq : req ≠ EmptyString)
    (Hclock : Forall (λ k, now ≤ call_now k ≤ now + replayRetention) ks)
    (Hfew : (fresher now (f_Replayed (b_claims b)) + length ks < maxReplayed)%nat) :
  ∀ io' now' wall', now' ≤ now + replayRetention →
    ReportStatus io' actor nodeID status by_ note owner req now' wall' (run b' ks) =
    (run b' ks, Ok (b_state (run b' ks))).
Proof.
  intros io' now' wall' Hnow. destruct (ReportStatus_records _ _ _ _ _ _ _ _ _ _ _ _ _ Hfirst Hnew Hreq) as (Hrep & Hperm & Hg).
  assert (f_Replayed (prune now (b_claims b)) !! req = None) as Hnone.
  { apply eq_None_not_Some. intros Hs. assert (alreadyDone (prune now (b_claims b)) req = true); [by apply alreadyDone_spec|congruence]. }
  pose proof (fresher_insert now _ _ now Hnone) as Hf. pose proof (fresher_mono now _ _ (prune_replayed now (b_claims b))) as Hm.
  destruct (run_remembers b' ks req now) as [Hr Hle]; [|done| |].
  - rewrite Hrep. apply lookup_insert_eq.
  - rewrite Hrep. lia.
  - apply ReportStatus_replay; [by rewrite run_graph, Hg|]. by eapply remembered_done.
Qed.

Lemma retried_report_is_idempotent_witness :
  let b' := run first_report.1 rival_calls in
  ReportStatus good_io (agent "ann") "a" StatusDone "ann" "tests pass" "ann" "req-4" hour hour b' = (b', Ok (b_state b')).
Proof.
  apply (retried_report_is_idempotent good_io (agent "ann") "a" StatusDone "ann" "tests pass" "ann" "req-4"
           minute minute held_board first_report.1 (report_state first_report) rival_calls).
  - by vm_compute.
  - by vm_compute.
  - done.
  - repeat constructor; by vm_compute.
  - apply Nat.ltb_lt. by vm_compute.
  - by vm_compute.
Defined.

(** Reports respect the holder.  A report that goes through for the first
    time passed the four permission checks; made in a holder's name it found
    that holder's live claim on the node; made outside any claim over somebody
    else's live claim it ends that claim and names the holder in the timeline;
    it writes one event with the status asked for; and a settled node is held
    by nobody from then on. *)
Theorem report_respects_holder `{Unicode} (io : Io) (actor : Actor) (nodeID : string) (status : Status)
    (by_ note owner req : string) (now wall : Z) (b b' : Board) (rs : RunState)
    (Hreport : ReportStatus io actor nodeID status by_ note owner req now wall b = (b', Ok rs))
    (Hnew : alreadyDone (prune now (b_claims b)) req = false) :
  report_refusal actor (b_graph b) nodeID status = None ∧
  (trim_space owner ≠ EmptyString →
     ∃ c, f_Claims (b_claims b) !! nodeID = Some c ∧ Live (Some c) now = true ∧ c_Owner c = trim_space owner) ∧
  (∃ note', status_written b nodeID status by_ note' rs ∧ b_state b' = rs ∧
     ∀ c, trim_space owner = EmptyString → f_Claims (b_claims b) !! nodeID = Some c → Live (Some c) now = true →
       if decide (c_Owner c = by_) then note' = note
       else note' = trim_space (note +:+ " (overriding " +:+ c_Owner c +:+ ")") ∧
            f_Claims (b_claims b') !! nodeID = Some (released c)) ∧
  (Settled status (statusDefinitions (Some (b_graph b))) = true →
     ∀ t, Live (f_Claims (b_claims b') !! nodeID) t = false).
Proof.
  unfold ReportStatus in Hreport. rewrite Hnew in Hreport. destruct (report_refusal _ _ _ _); [done|].
  destruct (report_owner _ _ _ _ _) as [[note' claim]| | |] eqn:Eo; try done.
  destruct (setStatusLocked _ _ _ _ _ _ _) as [rs'| | |] eqn:Es; try done. destruct (save_ok io); [|done].
  injection Hreport as <- <-. cbn [b_claims b_state]. rewrite record_claims, put_claim_lookup.
  apply setStatusLocked_Ok in Es. apply report_owner_Ok in Eo as [Hown Hcase]. split_and!; [done| | |].
  - intros Ho. destruct (Hown Ho) as (c & Hc & Hl & Hc'). apply prune_claims in Hc as [Hc _]. by exists c.
  - exists note'. split_and!; [done|done|]. intros c Ho Hc Hl. apply Live_spec in Hl as Hl'.
    pose proof (prune_live now _ _ _ Hc (proj2 Hl')) as Hp. rewrite Hp in Hcase.
    destruct Hcase as [(Hn & Hcl & Hby)|(d & Hd & _ & Hne & _ & Hn & Hcl)].
    + rewrite decide_True by by apply Hby. done.
    + injection Hd as <-. rewrite decide_False by done. split; [done|]. rewrite Hcl. unfold settle_claim.
      by destruct (Settled _ _).
  - intros Hset t. unfold settle_claim. rewrite Hset. destruct claim as [c|]; [done|].
    destruct Hcase as [(_ & Hcl & _)|(d & _ & _ & _ & _ & _ & Hcl)]; [|done]. change (Live (f_Claims (prune now (b_claims b)) !! nodeID) t = false).
    by rewrite <- Hcl.
Qed.

Lemma report_respects_holder_witness :
  let b' := (ReportStatus good_io person "a" StatusDone "Ann B" "shipped" EmptyString "req-5" minute minute held_board).1 in
  let rs := report_state (ReportStatus good_io person "a" StatusDone "Ann B" "shipped" EmptyString "req-5" minute minute held_board) in
  report_refusal person task_graph "a" StatusDone = None ∧
  (trim_space EmptyString ≠ EmptyString →
     ∃ c, f_Claims (b_claims held_board) !! "a" = Some c ∧ Live (Some c) minute = true ∧ c_Owner c = trim_space EmptyString) ∧
  (∃ note', status_written held_board "a" StatusDone "Ann B" note' rs ∧ b_state b' = rs ∧
     ∀ c, trim_space EmptyString = EmptyString → f_Claims (b_claims held_board) !! "a" = Some c → Live (Some c) minute = true →
       if decide (c_Owner c = "Ann B") then note' = "shipped"
       else note' = trim_space ("shipped" +:+ " (overriding " +:+ c_Owner c +:+ ")") ∧
            f_Claims (b_claims b') !! "a" = Some (released c)) ∧
  (Settled StatusDone (statusDefinitions (Some task_graph)) = true →
     ∀ t, Live (f_Claims (b_claims b') !! "a") t = false).
Proof.
  apply (report_respects_holder good_io person "a" StatusDone "Ann B" "shipped" EmptyString "req-5"
           minute minute held_board); [by vm_compute|by vm_compute].
Defined.

(** Exactly when a status is recorded: the node exists and its type takes a
    status, the status is a built-in one or defined in the project, every flag
    the event shows can be written as JSON, and the disk takes the line. In
    particular nothing else about the run state, the claims or the earlier
    status refuses the write. *)
Theorem status_write_succeeds_iff `{Unicode} (io : Io) (wall : Z) (b : Board) (nodeID : string) (status : Status)
    (by_ note : string) :
  (∃ rs, setStatusLocked io wall b nodeID status by_ note = Ok rs) ↔
  ∃ n, NodeByID (b_graph b) nodeID = Some n ∧
    nt_Completion (TypeOf (Some (b_graph b)) (Some n)) ≠ CompletionNone ∧
    status_defined (b_graph b) status = true ∧ ValidStatus status = true ∧
    (∀ f v, flags_after b n status !! f = Some v → encodable v = true) ∧ append_ok io = true.
Proof.
  unfold setStatusLocked. destruct (NodeByID (b_graph b) nodeID) as [n|]; [|naive_solver].
  destruct (String.eqb_spec (nt_Completion (TypeOf (Some (b_graph b)) (Some n))) CompletionNone); [naive_solver|].
  destruct (status_defined (b_graph b) status) eqn:Ed; cbn [negb]; [|naive_solver].
  unfold SetStatus, CanTransition. destruct (ValidStatus status) eqn:Ev; cbn [negb]; [|naive_solver].
  cbn [rs_History rs_Flags with_history]. rewrite map_last_snoc, last_snoc. cbn [option_list forallb]. rewrite andb_true_r.
  set (flags := if String.eqb status StatusDone then _ else _).
  assert (default ∅ flags ∪ GFlags (b_graph b) = flags_after b n status) as Hflags.
  { unfold flags, flags_after. by destruct (String.eqb status StatusDone). }
  match goal with |- context [event_encodable ?ev] =>
    pose proof (event_encodable_spec ev flags (GFlags (b_graph b)) eq_refl eq_refl) as He; destruct (event_encodable ev)
  end; cbn [negb]; rewrite Hflags in He.
  - destruct (append_ok io); [|naive_solver]. split; [intros _|by eexists]. exists n. split_and!; naive_solver.
  - split; [naive_solver|]. intros (m & [= <-] & _ & _ & _ & Hall & _). by apply He in Hall.
Qed.

(** An effect that validation accepts can make its node impossible to finish:
    strconv.ParseFloat reads "inf" and "nan", and the event cannot be encoded. *)
Lemma infinite_effect_blocks_done io wall by_ note :
  let n := with_effects (plain_node "a" "task" EmptyString) ["score = inf"] in
  let b := mkBoard (plain_graph [n] []) (NewRunState 0) (mkClaimsFile ∅ ∅) in
  ValidateEffect "score = inf" = None ∧ setStatusLocked io wall b "a" StatusDone by_ note = Fail Unencodable.
Proof. split; vm_compute; reflexivity. Qed.
