(* ===== verification/NodeFile.v ===== *)
(** Node documents (internal/engine/nodefile.go): YAML frontmatter between two
    delimiter lines, and a body.  The YAML codec is a parameter; what a
    frontmatter can hold, as far as the code looks, is [meta_value]. *)

From S2P Require Import Prelude GoStr Graph.
From Stdlib Require Import Ascii.

(** * Trimming *)

Fixpoint trim_left (cutset s : string) : string :=
  match s with
  | String c s' => if has_char c cutset then trim_left cutset s' else s
  | EmptyString => EmptyString
  end.

Definition trim_right (cutset s : string) : string := String.rev (trim_left cutset (String.rev s)).

(** strings.CutSuffix. *)
Definition cut_suffix (s p : string) : option string :=
  if has_suffix s p then Some (str_take (String.length s - String.length p) s) else None.

Definition LF : string := String "010" EmptyString.
Definition CRLF : string := String "013" (String "010" EmptyString).

(** * The frontmatter *)

(** A decoded value: the kinds the code tells apart.  [MOther] is a scalar that
    is no string. *)
Inductive meta_value :=
  | MString (s : string)
  | MList (vs : list meta_value)
  | MMap (kvs : list (string * meta_value))
  | MOther (text : string).

Abbreviation Meta := (gmap string meta_value).

Record NodeFile := mkNodeFile { nf_Meta : Meta; nf_Body : string }.

Inductive NodeFileError := BadFrontmatter | MissingDelimiter.

Definition fmDelim : string := "---".

Section Codec.
Variable decode : string → option Meta.
Variable encode : Meta → option string.

Definition markers : list string :=
  [LF +:+ fmDelim +:+ LF; LF +:+ fmDelim +:+ CRLF; CRLF +:+ fmDelim +:+ CRLF; CRLF +:+ fmDelim +:+ LF].

(** The first of the closing delimiter lines. *)
Definition nearer (rest : string) (idx : option nat) (marker : string) : option nat :=
  match str_index rest marker, idx with
  | Some i, Some j => if (i <? j)%nat then Some i else Some j
  | Some i, None => Some i
  | None, _ => idx
  end.

Definition closing (rest : string) : option nat := foldl (nearer rest) None markers.

Definition with_meta (text body : string) : outcome NodeFileError NodeFile :=
  match decode text with
  | None => Fail BadFrontmatter
  | Some meta => Ok (mkNodeFile meta body)
  end.

Definition ParseNodeFile (s : string) : outcome NodeFileError NodeFile :=
  if negb (has_prefix s (fmDelim +:+ LF)) && negb (has_prefix s (fmDelim +:+ CRLF)) then Ok (mkNodeFile ∅ s)
  else
    let rest := trim_prefix (trim_prefix (str_drop (String.length fmDelim) s) CRLF) LF in
    match closing rest with
    | None =>
        match cut_suffix (trim_right CRLF rest) (LF +:+ fmDelim) with
        | Some text => with_meta text EmptyString
        | None => Fail MissingDelimiter
        end
    | Some idx =>
        let body := trim_prefix (trim_prefix (trim_prefix (str_drop idx rest) LF) CRLF) fmDelim in
        with_meta (str_take idx rest) (trim_left CRLF body)
    end.

Definition ComposeNodeFile (nf : NodeFile) : option string :=
  match encode (nf_Meta nf) with
  | None => None
  | Some text =>
      let body := trim_left CRLF (nf_Body nf) in
      Some (fmDelim +:+ LF +:+ text +:+ fmDelim +:+ LF
            +:+ (if String.eqb body EmptyString then EmptyString else LF +:+ body))
  end.

(** setOrDelete on the string fields and on the lists. *)
Definition setOrDelete (m : Meta) (key : string) (v : meta_value) (keep : bool) : Meta :=
  if keep then <[key := v]> m else delete key m.

Definition put_text (key text : string) (m : Meta) : Meta :=
  setOrDelete m key (MString text) (negb (String.eqb text EmptyString)).

Definition put_list (key : string) (vs : list meta_value) (m : Meta) : Meta :=
  setOrDelete m key (MList vs) (match vs with [] => false | _ => true end).

Definition SyncFrontmatter (nf : NodeFile) (n : Node) : NodeFile :=
  mkNodeFile
    (put_list "effects" ((λ e, MMap [("set", MString (ef_Set e))]) <$> n_Effects n)
     (put_list "refs" (MString <$> n_Refs n)
     (put_list "tags" (MString <$> n_Tags n)
     (put_text "requires" (n_Requires n)
     (put_text "write_access" (n_WriteAccess n)
     (put_text "assignee" (n_Assignee n)
     (put_text "priority" (n_Priority n)
     (put_text "kind" (n_Kind n)
     (put_text "title" (n_Title n)
     (<["id" := MString (n_ID n)]> (nf_Meta nf)))))))))))
    (nf_Body nf).

(** The document of a node brought up to date: what prepareNodeFileUpdate and
    the creation of nodes write. *)
Definition sync_document (n : Node) (doc : option string) : outcome NodeFileError string :=
  nf ← match doc with Some data => ParseNodeFile data | None => Ok (mkNodeFile ∅ EmptyString) end;
  match ComposeNodeFile (SyncFrontmatter nf n) with
  | Some out => Ok out
  | None => Fail BadFrontmatter
  end.
End Codec.

(** * Reading it back (hydrateNodeFromMeta of internal/store/graph_crud.go) *)

(** A failed type assertion leaves the zero value. *)
Definition meta_text (m : Meta) (key : string) : string :=
  match m !! key with Some (MString s) => s | _ => EmptyString end.

Definition fill (field : string) (m : Meta) (key : string) : string :=
  if String.eqb field EmptyString then meta_text m key else field.

Definition meta_list (m : Meta) (key : string) : list meta_value :=
  match m !! key with Some (MList vs) => vs | _ => [] end.

Definition text_of (v : meta_value) : option string := match v with MString s => Some s | _ => None end.

Definition effect_of (v : meta_value) : option Effect :=
  match v with
  | MMap kvs => match (list_to_map kvs : Meta) !! "set" with Some (MString s) => Some (mkEffect s) | _ => None end
  | _ => None
  end.

Definition hydrateNodeFromMeta (n : Node) (m : Meta) : Node :=
  mkNode (n_ID n) (fill (n_Title n) m "title") (fill (n_Kind n) m "kind") (fill (n_Priority n) m "priority")
    (fill (n_Assignee n) m "assignee") (n_Deadline n) (n_WriteAccess n) (fill (n_Requires n) m "requires")
    (match n_Tags n with [] => omap text_of (meta_list m "tags") | tags => tags end)
    (match n_Effects n with [] => omap effect_of (meta_list m "effects") | effects => effects end)
    (n_Links n) (n_Refs n) (n_Acceptance n) (n_Workflow n).
