(* ===== verification/NodeFileFacts.v ===== *)
(** Node documents read back as they were written: the frontmatter and the body,
    a node's fields, and a second synchronisation changes nothing. *)

From S2P Require Import Prelude GoStr Graph NodeFile.
From Stdlib Require Import Ascii.
Open Scope nat_scope.

(** * Strings *)

Lemma trim_left_idem cutset s : trim_left cutset (trim_left cutset s) = trim_left cutset s.
Proof. induction s as [|c s IH]; simpl; [done|]. destruct (has_char c cutset) eqn:E; [done|]. simpl. by rewrite E. Qed.

Lemma has_prefix_app p s : has_prefix (p +:+ s) p = true.
Proof. induction p as [|c p IH]; [by destruct s|]. simpl. by rewrite Ascii.eqb_refl. Qed.

Lemma has_prefix_trans s p q : has_prefix s (p +:+ q) = true → has_prefix s p = true.
Proof.
  revert s. induction p as [|c p IH]; intros s; [by destruct s|]. destruct s as [|d s]; simpl; [done|].
  intros [? ?]%andb_true_iff. apply andb_true_iff. auto.
Qed.

Lemma str_drop_all (a b : string) : str_drop (String.length a) (a +:+ b) = b.
Proof. induction a; simpl; auto. Qed.

Lemma str_take_all (a b : string) : str_take (String.length a) (a +:+ b) = a.
Proof. induction a as [|c a IH]; simpl; [by destruct b|]. by rewrite IH. Qed.

Lemma trim_prefix_app p s : trim_prefix (p +:+ s) p = s.
Proof. unfold trim_prefix, cut_prefix. rewrite has_prefix_app. simpl. apply str_drop_all. Qed.

Lemma trim_prefix_none p s : has_prefix s p = false → trim_prefix s p = s.
Proof. unfold trim_prefix, cut_prefix. by intros ->. Qed.

(** * The closing delimiter *)

(** What an encoder writes: whole lines ended by a line feed, none of which
    starts like a delimiter. *)
Definition dash_line : string := LF +:+ fmDelim.

Definition plain_lines (t : string) : Prop :=
  str_index (t +:+ LF) dash_line = None ∧ has_suffix t (str_of_char "013") = false.

Lemma dash_line_inside c t rest :
  has_prefix (String c t +:+ LF +:+ rest) dash_line = true → has_prefix (String c t +:+ LF) dash_line = true.
Proof.
  destruct t as [|c1 [|c2 [|c3 [|c4 t]]]]; simpl; rewrite ?andb_false_r; done.
Qed.

Lemma has_suffix_cons c a p : String.length p ≤ String.length a → has_suffix (String c a) p = has_suffix a p.
Proof.
  intros Hl. unfold has_suffix. simpl. destruct (Nat.leb_spec (String.length p) (String.length a)); [|lia].
  destruct (String.length p) as [|n] eqn:En; simpl.
  - destruct p; [|done]. rewrite Nat.sub_0_r.
    pose proof (str_drop_all a EmptyString) as Hd. rewrite str_app_nil_r in Hd.
    by rewrite ?Hd.
  - destruct (Nat.leb_spec n (String.length a)); [|lia]. by replace (String.length a - n) with (S (String.length a - S n)) by lia.
Qed.

(** No marker starts before the end of the frontmatter. *)
Lemma marker_after m t rest :
  m ∈ markers → str_index (t +:+ LF) dash_line = None → has_suffix t (str_of_char "013") = false →
  match str_index (t +:+ LF +:+ rest) m with Some i => String.length t ≤ i | None => True end.
Proof.
  intros Hm. induction t as [|c t IH]; intros Hd Hs; [destruct (str_index _ m); [apply Nat.le_0_l|done]|].
  change (String c t +:+ LF +:+ rest) with (String c (t +:+ LF +:+ rest)).
  change (String c t +:+ LF) with (String c (t +:+ LF)) in Hd. simpl in Hd.
  destruct (has_prefix (String c (t +:+ LF)) dash_line) eqn:Ed; [by simpl in Ed; rewrite Ed in Hd|].
  assert (str_index (t +:+ LF) dash_line = None) as Hd'.
  { simpl in Ed. rewrite Ed in Hd. by destruct (str_index (t +:+ LF) dash_line). }
  assert (has_suffix t (str_of_char "013") = false) as Hs'.
  { destruct t as [|c' t]; [done|]. by rewrite has_suffix_cons in Hs by (simpl; lia). }
  specialize (IH Hd' Hs').
  assert (has_prefix (String c (t +:+ LF +:+ rest)) m = false) as Hno.
  { destruct (has_prefix (String c (t +:+ LF +:+ rest)) m) eqn:Ep; [|done]. exfalso.
    assert (has_prefix (String c (t +:+ LF +:+ rest)) dash_line = true ∨
            (c = "013"%char ∧ has_prefix (t +:+ LF +:+ rest) dash_line = true)) as [Hp|[-> Hp]].
    { unfold markers in Hm. repeat (apply elem_of_cons in Hm as [->|Hm]); [left|left|right|right|by apply elem_of_nil in Hm].
      - by apply (has_prefix_trans _ dash_line LF).
      - by apply (has_prefix_trans _ dash_line CRLF).
      - change (Ascii.eqb "013" c && has_prefix (t +:+ LF +:+ rest) (dash_line +:+ CRLF) = true) in Ep.
        apply andb_true_iff in Ep as [Ec%Ascii.eqb_eq Ep]. split; [done|]. by apply has_prefix_trans in Ep.
      - change (Ascii.eqb "013" c && has_prefix (t +:+ LF +:+ rest) (dash_line +:+ LF) = true) in Ep.
        apply andb_true_iff in Ep as [Ec%Ascii.eqb_eq Ep]. split; [done|]. by apply has_prefix_trans in Ep. }
    - apply (dash_line_inside c t rest) in Hp. change (String c t +:+ LF) with (String c (t +:+ LF)) in Hp. congruence.
    - destruct t as [|c' t]; [by vm_compute in Hs|]. apply dash_line_inside in Hp.
      simpl in Hp, Hd'. rewrite Hp in Hd'. done. }
  simpl. simpl in Hno. rewrite Hno. destruct (str_index (t +:+ LF +:+ rest) m); simpl; [lia|done].
Qed.

Lemma str_index_upto t x m : has_prefix x m = true → ∃ i, str_index (t +:+ x) m = Some i ∧ i ≤ String.length t.
Proof.
  intros Hx. induction t as [|c t (i & Hi & ?)].
  - exists 0. split; [|done]. change (EmptyString +:+ x) with x. destruct x; simpl in *; by rewrite Hx.
  - change (String c t +:+ x) with (String c (t +:+ x)). cbn [str_index].
    destruct (has_prefix (String c (t +:+ x)) m); [exists 0; split; [done|simpl; lia]|].
    rewrite Hi. exists (S i). split; [done|simpl; lia].
Qed.

Lemma closing_spec t tail :
  str_index (t +:+ LF) dash_line = None → has_suffix t (str_of_char "013") = false →
  closing (t +:+ LF +:+ fmDelim +:+ LF +:+ tail) = Some (String.length t).
Proof.
  intros Hd Hs. set (s := t +:+ LF +:+ fmDelim +:+ LF +:+ tail).
  assert (∀ m, m ∈ markers → match str_index s m with Some i => String.length t ≤ i | None => True end) as Hafter
    by (intros m Hm; exact (marker_after m t (fmDelim +:+ LF +:+ tail) Hm Hd Hs)).
  assert (str_index s (LF +:+ fmDelim +:+ LF) = Some (String.length t)) as Hfirst.
  { specialize (Hafter (LF +:+ fmDelim +:+ LF) ltac:(left)).
    destruct (str_index_upto t (LF +:+ fmDelim +:+ LF +:+ tail) (LF +:+ fmDelim +:+ LF)) as (i & Hi & ?).
    - rewrite <- !str_app_assoc. apply has_prefix_app.
    - fold s in Hi. rewrite Hi in *. f_equal. lia. }
  assert (∀ m, m ∈ markers → nearer s (Some (String.length t)) m = Some (String.length t)) as Hkeep.
  { intros m Hm. unfold nearer. specialize (Hafter m Hm). destruct (str_index s m) as [i|]; [|done].
    by destruct (Nat.ltb_spec i (String.length t)); [lia|]. }
  unfold closing, markers in *. cbn [foldl]. unfold nearer at 4. rewrite Hfirst.
  rewrite !Hkeep; [done|set_solver..].
Qed.

(** * A document reads back as it was composed *)

Section Codec.
Variable decode : string → option Meta.
Variable encode : Meta → option string.

Definition reads_back (m : Meta) : Prop := ∃ t, encode m = Some (t +:+ LF) ∧ decode t = Some m ∧ plain_lines t.

Lemma parse_compose nf :
  reads_back (nf_Meta nf) →
  ∃ doc, ComposeNodeFile encode nf = Some doc ∧ ParseNodeFile decode doc = Ok (mkNodeFile (nf_Meta nf) (trim_left CRLF (nf_Body nf))).
Proof.
  intros (t & He & Hdec & Hd & Hs). unfold ComposeNodeFile. rewrite He. eexists. split; [done|].
  set (tail := if String.eqb _ _ then _ else _).
  assert (trim_left CRLF (LF +:+ tail) = trim_left CRLF (nf_Body nf)) as Htail.
  { change (trim_left CRLF (LF +:+ tail)) with (trim_left CRLF tail). unfold tail.
    destruct (String.eqb_spec (trim_left CRLF (nf_Body nf)) EmptyString) as [->|_]; [done|].
    change (trim_left CRLF (LF +:+ ?x)) with (trim_left CRLF x). apply trim_left_idem. }
  unfold ParseNodeFile. replace (has_prefix _ (fmDelim +:+ LF)) with true by (rewrite <- str_app_assoc; symmetry; apply has_prefix_app).
  cbn [negb andb]. rewrite str_drop_all, (trim_prefix_none CRLF), trim_prefix_app by done.
  rewrite str_app_assoc, closing_spec by done. rewrite str_take_all, str_drop_all, trim_prefix_app.
  rewrite (trim_prefix_none CRLF), trim_prefix_app by done. unfold with_meta. by rewrite Hdec, Htail.
Qed.

(** ** Synchronising twice *)

End Codec.

Lemma lookup_set_or_delete m key v keep k :
  setOrDelete m key v keep !! k = if String.eqb key k then (if keep then Some v else None) else m !! k.
Proof.
  unfold setOrDelete. destruct (String.eqb_spec key k) as [->|]; [destruct keep; [apply lookup_insert_eq|apply lookup_delete_eq]|].
  destruct keep; [by rewrite lookup_insert_ne|by rewrite lookup_delete_ne].
Qed.

Lemma lookup_put_text key text m k :
  put_text key text m !! k =
    if String.eqb key k then (if String.eqb text EmptyString then None else Some (MString text)) else m !! k.
Proof. unfold put_text. rewrite lookup_set_or_delete. destruct (String.eqb key k); [|done]. by destruct (String.eqb text EmptyString). Qed.

Lemma lookup_put_list key vs m k :
  put_list key vs m !! k = if String.eqb key k then (match vs with [] => None | _ => Some (MList vs) end) else m !! k.
Proof. unfold put_list. rewrite lookup_set_or_delete. destruct (String.eqb key k); [|done]. by destruct vs. Qed.

Create Rewrite HintDb frontmatter.
#[export] Hint Rewrite lookup_put_text lookup_put_list : frontmatter.

(** Synchronising again changes nothing. *)
Lemma sync_frontmatter_idem nf n body :
  nf_Meta (SyncFrontmatter (mkNodeFile (nf_Meta (SyncFrontmatter nf n)) body) n) = nf_Meta (SyncFrontmatter nf n).
Proof.
  apply map_eq. intros k. unfold SyncFrontmatter. simpl. autorewrite with frontmatter.
  repeat match goal with |- context [String.eqb ?key k] => destruct (String.eqb key k) eqn:?; [done|] end.
  destruct (decide (k = "id")) as [->|Hid]; [by rewrite !lookup_insert_eq|].
  rewrite (lookup_insert_ne _ "id") by done. autorewrite with frontmatter.
  by repeat match goal with H : String.eqb _ k = false |- _ => rewrite H; clear H end.
Qed.

Lemma omap_fmap_inv {A B} (f : A → B) (g : B → option A) (xs : list A) : (∀ x, g (f x) = Some x) → omap g (f <$> xs) = xs.
Proof. intros Hg. induction xs as [|x xs IH]; [done|]. simpl. rewrite Hg. f_equal. exact IH. Qed.

(** What a node's own frontmatter gives back to a node that has only its id and
    what a frontmatter does not keep. *)
Definition unnamed (n : Node) : Node :=
  mkNode (n_ID n) EmptyString EmptyString EmptyString EmptyString (n_Deadline n) (n_WriteAccess n) EmptyString
    [] [] (n_Links n) (n_Refs n) (n_Acceptance n) (n_Workflow n).

Lemma hydrate_sync nf n : hydrateNodeFromMeta (unnamed n) (nf_Meta (SyncFrontmatter nf n)) = n.
Proof.
  assert (∀ s, match (if String.eqb s EmptyString then None else Some (MString s)) with Some (MString s) => s | _ => EmptyString end = s)
    as Htext by (intros s; by destruct (String.eqb_spec s EmptyString)).
  assert (∀ A (g : meta_value → option A) (f : A → meta_value) (xs : list A), (∀ x, g (f x) = Some x) →
    omap g (match (match f <$> xs with [] => None | _ => Some (MList (f <$> xs)) end) with Some (MList vs) => vs | _ => [] end) = xs) as Hlist.
  { intros A g f xs Hg. destruct xs as [|x xs]; [done|]. by apply (omap_fmap_inv f g (x :: xs)). }
  destruct n as [id title kind priority assignee deadline access requires tags effects links refs acceptance workflow].
  unfold hydrateNodeFromMeta, fill, meta_text, meta_list, SyncFrontmatter, unnamed. simpl. autorewrite with frontmatter.
  simpl. rewrite !Htext.
  rewrite (Hlist _ text_of MString), (Hlist _ effect_of (λ e, MMap [("set", MString (ef_Set e))])); [done| |done].
  intros [x]. simpl. by rewrite lookup_insert_eq.
Qed.

(** A document that parses can be brought up to date, and parses again. *)
Definition parses (decode : string → option Meta) (doc : string) : Prop := ∃ nf, ParseNodeFile decode doc = Ok nf.

Lemma sync_document_ok decode encode n doc :
  (∀ m, reads_back decode encode m) → (∀ d, doc = Some d → parses decode d) →
  ∃ out, sync_document decode encode n doc = Ok out ∧ parses decode out.
Proof.
  intros Hcodec Hdoc.
  assert (∃ nf, match doc with Some data => ParseNodeFile decode data | None => Ok (mkNodeFile ∅ EmptyString) end = Ok nf) as [nf Hnf].
  { destruct doc as [d|]; [by apply Hdoc|eauto]. }
  destruct (parse_compose decode encode (SyncFrontmatter nf n) (Hcodec _)) as (out & Hout & Hparse).
  exists out. split; [|by eexists]. unfold sync_document. rewrite Hnf. simpl in *. by rewrite Hout.
Qed.

(** * Properties *)

(** C40: a node document survives being written.  For every frontmatter the YAML
    codec writes in whole lines and reads back, the composed document parses to
    the same frontmatter and the same body, blank lines at its head aside; and
    bringing it up to date for the node it was written for changes not a byte. *)
Theorem document_roundtrip (decode : string → option Meta) (encode : Meta → option string) (n : Node) (nf : NodeFile)
    (Hcodec : reads_back decode encode (nf_Meta (SyncFrontmatter nf n))) :
  ∃ doc, ComposeNodeFile encode (SyncFrontmatter nf n) = Some doc ∧
    ParseNodeFile decode doc = Ok (mkNodeFile (nf_Meta (SyncFrontmatter nf n)) (trim_left CRLF (nf_Body nf))) ∧
    sync_document decode encode n (Some doc) = Ok doc ∧
    hydrateNodeFromMeta (unnamed n) (nf_Meta (SyncFrontmatter nf n)) = n.
Proof.
  destruct (parse_compose decode encode (SyncFrontmatter nf n) Hcodec) as (doc & Hdoc & Hparse). exists doc.
  split_and!; [done|done| |apply hydrate_sync].
  assert (SyncFrontmatter (mkNodeFile (nf_Meta (SyncFrontmatter nf n)) (trim_left CRLF (nf_Body nf))) n =
          mkNodeFile (nf_Meta (SyncFrontmatter nf n)) (trim_left CRLF (nf_Body nf))) as Hsame.
  { pose proof (sync_frontmatter_idem nf n (trim_left CRLF (nf_Body nf))) as Hm.
    destruct (SyncFrontmatter (mkNodeFile _ _) n) as [m b] eqn:E. simpl in Hm. subst m.
    assert (b = trim_left CRLF (nf_Body nf)) as -> by (by apply (f_equal nf_Body) in E). done. }
  assert (ComposeNodeFile encode (mkNodeFile (nf_Meta (SyncFrontmatter nf n)) (trim_left CRLF (nf_Body nf))) = Some doc) as Hagain.
  { revert Hdoc. unfold ComposeNodeFile. cbn [nf_Meta nf_Body]. by rewrite trim_left_idem. }
  unfold sync_document. rewrite Hparse.
  transitivity (match ComposeNodeFile encode (SyncFrontmatter (mkNodeFile (nf_Meta (SyncFrontmatter nf n)) (trim_left CRLF (nf_Body nf))) n) with
                | Some out => Ok out | None => Fail BadFrontmatter end : outcome NodeFileError string); [done|].
  by rewrite Hsame, Hagain.
Qed.

(** * A codec that satisfies the hypotheses

    Any injection into plain lines will do: a frontmatter as the bits of its
    number. *)

Fixpoint to_tree (v : meta_value) : gen_tree (bool * string) :=
  match v with
  | MString s => GenLeaf (true, s)
  | MOther s => GenLeaf (false, s)
  | MList vs => GenNode 0 (map to_tree vs)
  | MMap kvs => GenNode 1 (map (λ kv, GenNode 2 [GenLeaf (true, kv.1); to_tree kv.2]) kvs)
  end.

Fixpoint of_tree (t : gen_tree (bool * string)) : meta_value :=
  match t with
  | GenLeaf (true, s) => MString s
  | GenLeaf (false, s) => MOther s
  | GenNode 1 kvs =>
      MMap (map (λ t, match t with GenNode _ [GenLeaf (_, k); v] => (k, of_tree v) | _ => (EmptyString, MOther EmptyString) end) kvs)
  | GenNode _ vs => MList (map of_tree vs)
  end.

Lemma of_to_tree : ∀ v, of_tree (to_tree v) = v.
Proof.
  fix IH 1. intros [s|vs|kvs|s]; simpl; [done| | |done]; f_equal.
  - induction vs as [|v vs IHvs]; simpl; [done|]. by rewrite IH, IHvs.
  - induction kvs as [|[k v] kvs IHkvs]; simpl; [done|]. by rewrite IH, IHkvs.
Qed.

#[export] Instance meta_value_eq_dec : EqDecision meta_value.
Proof.
  refine (λ x y, cast_if (decide (to_tree x = to_tree y))).
  - rewrite <- (of_to_tree x), <- (of_to_tree y). congruence.
  - congruence.
Defined.

#[export] Instance meta_value_countable : Countable meta_value := inj_countable' to_tree of_tree of_to_tree.

Fixpoint bits (p : positive) : string :=
  match p with xH => EmptyString | xO p => String "0" (bits p) | xI p => String "1" (bits p) end.

Fixpoint number (s : string) : positive :=
  match s with
  | EmptyString => xH
  | String c s' => if Ascii.eqb c "0" then xO (number s') else xI (number s')
  end.

Definition bit_encode (m : Meta) : option string := Some (bits (encode m) +:+ LF).
Definition bit_decode (s : string) : option Meta := decode (number s).

Lemma number_bits p : number (bits p) = p.
Proof. induction p; simpl; by rewrite ?IHp. Qed.

Lemma plain_bits p : plain_lines (bits p).
Proof.
  split; [induction p as [p IH|p IH|]; [simpl; by rewrite IH|simpl; by rewrite IH|done]|].
  induction p as [p IH|p IH|]; [| |done]; simpl; (destruct (bits p) as [|c s] eqn:E; [done|]);
    rewrite has_suffix_cons by (simpl; lia); done.
Qed.

Lemma bits_read_back m : reads_back bit_decode bit_encode m.
Proof.
  exists (bits (encode m)). split_and!; [done| |apply plain_bits]. unfold bit_decode. by rewrite number_bits, decode_encode.
Qed.

Lemma document_roundtrip_witness :
  let n := plain_node "a" "task" "b and c" in
  let nf := mkNodeFile {[ "note" := MOther "7" ]} "hello" in
  ∃ doc, ComposeNodeFile bit_encode (SyncFrontmatter nf n) = Some doc ∧
    ParseNodeFile bit_decode doc = Ok (mkNodeFile (nf_Meta (SyncFrontmatter nf n)) (trim_left CRLF (nf_Body nf))) ∧
    sync_document bit_decode bit_encode n (Some doc) = Ok doc ∧
    hydrateNodeFromMeta (unnamed n) (nf_Meta (SyncFrontmatter nf n)) = n.
Proof. apply (document_roundtrip bit_decode bit_encode). apply bits_read_back. Defined.
