(* ===== verification/GraphOps.v ===== *)
(** Graph commands (internal/store/graph_ops.go and graph_requires_wires.go):
    the smallest changes people and agents make to a graph, each applied under
    the store's write lock, and the search that refuses a dependency cycle. *)

From S2P Require Import Prelude GoStr GoFloat GoTime Dsl Graph NodeTypes Workflow Roles State Readiness Cycles Validate Permission.
From Stdlib Require Import Ascii.
Open Scope Z_scope.

Definition maxNodeRefs : nat := 32.

(** * One change *)

(** GraphOp.  A nil pointer means "leave alone" and is [None]. *)
Record GraphOp := mkGraphOp {
  op_Kind : string;
  op_NodeID : string;
  op_X : option float64;
  op_Y : option float64;
  op_Width : option float64;
  op_Height : option float64;
  op_Title : option string;
  op_NodeKind : option string;
  op_Priority : option string;
  op_Assignee : option string;
  op_Deadline : option string;
  op_WriteAccess : option string;
  op_Tags : option (list string);
  op_From : string;
  op_To : string;
  op_Relation : option string;
  op_Line : option string;
  op_Order : list string;
  op_Ref : string;
  op_Acceptance : option Acceptance;
  op_Workflow : option Workflow;
  op_AgentRoles : list AgentRoleDef;
}.

(** Requests with only the named fields, for examples. *)
Definition empty_op (kind : string) : GraphOp :=
  mkGraphOp kind EmptyString None None None None None None None None None None None
    EmptyString EmptyString None None [] EmptyString None None [].

Definition edge_op (kind from to : string) : GraphOp :=
  mkGraphOp kind EmptyString None None None None None None None None None None None
    from to None None [] EmptyString None None [].

Definition style_op (from to : string) (relation line : option string) : GraphOp :=
  mkGraphOp "set-edge-style" EmptyString None None None None None None None None None None None
    from to relation line [] EmptyString None None [].

(** The refusals, with what their sentences name. *)
Inductive OpError :=
  | NoNode (id : string)
  | NeedsFinite (kind : string)
  | Forbidden (d : Denied)
  | BadWriteAccess (access : string)
  | EndMissing (from to : string)
  | DependsOnSelf
  | GateControlled (from to gate : string)
  | BadRequires (node : string) (e : ParseError)
  | WouldCycle (from to : string) (cycle : list string)
  | StyleNeedsField
  | EdgeNotFound (from to : string)
  | RefTargetMissing (id : string)
  | RefersToSelf
  | TooManyRefs (node : string)
  | BadAcceptance (e : AcceptanceError)
  | WorkflowOnNonGoal (node : string)
  | BadWorkflow (e : WorkflowError)
  | BadRoles (ps : list RoleProblem)
  | UnknownOp (kind : string).

Abbreviation answer A := (outcome OpError A).

(** A check that returns only an error, followed by the rest. *)
Definition guard_op {A} (refusal : option OpError) (k : answer A) : answer A :=
  match refusal with Some e => Fail e | None => k end.

Definition allowed {A} (d : option Denied) (k : answer A) : answer A := guard_op (Forbidden <$> d) k.

Definition finite (v : float64) : bool := negb (is_nan v) && negb (is_inf v).

(** * Writes through the pointers a graph hands out *)

Definition set_refs (n : Node) (refs : list string) : Node :=
  mkNode (n_ID n) (n_Title n) (n_Kind n) (n_Priority n) (n_Assignee n) (n_Deadline n)
    (n_WriteAccess n) (n_Requires n) (n_Tags n) (n_Effects n) (n_Links n) refs (n_Acceptance n) (n_Workflow n).

Definition set_workflow (n : Node) (w : option Workflow) : Node :=
  mkNode (n_ID n) (n_Title n) (n_Kind n) (n_Priority n) (n_Assignee n) (n_Deadline n)
    (n_WriteAccess n) (n_Requires n) (n_Tags n) (n_Effects n) (n_Links n) (n_Refs n) (n_Acceptance n) w.

Definition set_relation (e : Edge) (relation : string) : Edge := mkEdge (e_From e) (e_To e) relation (e_Line e).
Definition set_line (e : Edge) (line : string) : Edge := mkEdge (e_From e) (e_To e) (e_Relation e) line.

Definition is_edge (from to : string) (e : Edge) : bool := String.eqb (e_From e) from && String.eqb (e_To e) to.

(** The loop that stops at the first edge between two nodes, and the write
    through the pointer it stopped at. *)
Fixpoint find_edge (from to : string) (edges : list (option Edge)) : option Edge :=
  match edges with
  | [] => None
  | Some e :: edges' => if is_edge from to e then Some e else find_edge from to edges'
  | None :: edges' => find_edge from to edges'
  end.

Fixpoint update_edge (from to : string) (f : Edge → Edge) (edges : list (option Edge)) : list (option Edge) :=
  match edges with
  | [] => []
  | Some e :: edges' =>
      if is_edge from to e then Some (f e) :: edges' else Some e :: update_edge from to f edges'
  | None :: edges' => None :: update_edge from to f edges'
  end.

Definition set_positions (ui : UIState) (m : gmap string Position) : UIState :=
  mkUIState m (ui_TimelineOrder ui) (ui_Gates ui) (ui_LogicGates ui) (ui_EdgeLabels ui)
    (ui_WireVertices ui) (ui_Plans ui) (ui_PlanStatuses ui) (ui_CustomStatuses ui)
    (ui_NodeStyles ui) (ui_EntryOverrides ui) (ui_Groups ui) (ui_Annotations ui) (ui_SavedViews ui).

Definition set_styles (ui : UIState) (m : gmap string NodeStyle) : UIState :=
  mkUIState (ui_Positions ui) (ui_TimelineOrder ui) (ui_Gates ui) (ui_LogicGates ui) (ui_EdgeLabels ui)
    (ui_WireVertices ui) (ui_Plans ui) (ui_PlanStatuses ui) (ui_CustomStatuses ui)
    m (ui_EntryOverrides ui) (ui_Groups ui) (ui_Annotations ui) (ui_SavedViews ui).

Definition set_order (ui : UIState) (order : list string) : UIState :=
  mkUIState (ui_Positions ui) order (ui_Gates ui) (ui_LogicGates ui) (ui_EdgeLabels ui)
    (ui_WireVertices ui) (ui_Plans ui) (ui_PlanStatuses ui) (ui_CustomStatuses ui)
    (ui_NodeStyles ui) (ui_EntryOverrides ui) (ui_Groups ui) (ui_Annotations ui) (ui_SavedViews ui).

Definition set_wires (ui : UIState) (gates : gmap string GatePlacement) (labels : gmap string EdgeLabelPlacement)
    (vertices : gmap string (list Position)) : UIState :=
  mkUIState (ui_Positions ui) (ui_TimelineOrder ui) gates (ui_LogicGates ui) labels
    vertices (ui_Plans ui) (ui_PlanStatuses ui) (ui_CustomStatuses ui)
    (ui_NodeStyles ui) (ui_EntryOverrides ui) (ui_Groups ui) (ui_Annotations ui) (ui_SavedViews ui).

Definition set_graph_workflow (g : Graph) (w : option Workflow) : Graph :=
  mkGraph (Version g) (Type_ g) (Users g) (Nodes g) (Edges g) (GFlags g) (NodeTypes g)
    (AgentRoles g) w (OfficeStyle g) (UI g).

Definition set_roles (g : Graph) (roles : list AgentRoleDef) : Graph :=
  mkGraph (Version g) (Type_ g) (Users g) (Nodes g) (Edges g) (GFlags g) (NodeTypes g)
    roles (GWorkflow g) (OfficeStyle g) (UI g).

(** The style a node has, or the zero style. *)
Definition zero_style : NodeStyle :=
  mkNodeStyle f_zero f_zero EmptyString EmptyString EmptyString EmptyString EmptyString EmptyString.

Definition resize (s : NodeStyle) (width height : float64) : NodeStyle :=
  mkNodeStyle width height (ns_Color s) (ns_TextColor s) (ns_BorderColor s) (ns_Align s) (ns_VAlign s) (ns_Shape s).

(** A use of graph.UI, a nil-pointer panic without one. *)
Definition with_editor {A} (g : Graph) (k : UIState → answer A) : answer A :=
  match UI g with Some ui => k ui | None => Panic end.

(** * Logic gates *)

Definition relationGateOperator (operator : string) : bool :=
  String.eqb operator "optional" || String.eqb operator "deprecated".

(** The gates of a graph; a graph without editor data has none. *)
Definition gates_of (g : Graph) : list LogicGate :=
  match UI g with Some ui => ui_LogicGates ui | None => [] end.

(** booleanGateForOutput and logicGateOwningEdge return a gate's id, empty
    when there is no such gate. *)
Definition booleanGateForOutput (g : Graph) (output : string) : string :=
  match find (λ gate, negb (relationGateOperator (lg_Operator gate)) && existsb (String.eqb output) (OutputNodes gate))
          (gates_of g) with
  | Some gate => lg_ID gate
  | None => EmptyString
  end.

Definition logicGateOwningEdge (g : Graph) (from to : string) : string :=
  match find (λ gate, existsb (String.eqb from) (Inputs gate) && existsb (String.eqb to) (OutputNodes gate))
          (gates_of g) with
  | Some gate => lg_ID gate
  | None => EmptyString
  end.

Definition requiresWireGate (g : Graph) (from to : string) : string :=
  let owner := logicGateOwningEdge g from to in
  if negb (String.eqb owner EmptyString) then owner else booleanGateForOutput g to.

(** The refusal of an edge a gate controls. *)
Definition gate_refusal (from to gate : string) : option OpError :=
  if negb (String.eqb gate EmptyString) then Some (GateControlled from to gate) else None.

(** * Conditions *)

Section Ops.
Context `{Unicode}.

Definition containsNodeRef (e : option Expr) (nodeID : string) : bool :=
  match e with Some e => existsb (λ ref, String.eqb ref nodeID) (NodeRefs e) | None => false end.

(** The node a condition is written to, and whether it changed. *)
Definition appendNodeRequirement (n : Node) (sourceID : string) : answer (Node * bool) :=
  match Parse (n_Requires n) with
  | Ok expr =>
      if containsNodeRef expr sourceID then Ok (n, false)
      else
        let ref := NodeRef sourceID 0 in
        Ok (with_requires n (match expr with
                             | None => print ref
                             | Some expr => print (Binary "and" expr ref 0)
                             end), true)
  | Fail e => Fail (BadRequires (n_ID n) e)
  | Panic => Panic
  | OutOfFuel => OutOfFuel
  end.

Definition requires_ref (requires sourceID : string) : bool :=
  match Parse requires with Ok (Some expr) => containsNodeRef (Some expr) sourceID | _ => false end.

(** nodeRequiresRef reads node.Requires first: a nil node is a panic. *)
Definition nodeRequiresRef (n : option Node) (sourceID : string) : answer bool :=
  match n with None => Panic | Some n => Ok (requires_ref (n_Requires n) sourceID) end.

Definition pruneNodeRequirement (n : Node) (sourceID : string) : answer (Node * bool) :=
  match Parse (n_Requires n) with
  | Ok None => Ok (n, false)
  | Ok (Some expr) =>
      if negb (containsNodeRef (Some expr) sourceID) then Ok (n, false)
      else Ok (with_requires n (match PruneNodeRefs expr (λ id, String.eqb id sourceID) with
                                | None => EmptyString
                                | Some pruned => print pruned
                                end), true)
  | Fail e => Fail (BadRequires (n_ID n) e)
  | Panic => Panic
  | OutOfFuel => OutOfFuel
  end.

(** * Dependencies *)

Definition dependsOn (g : Graph) (n : Node) (from : string) : bool :=
  requires_ref (n_Requires n) from
  || existsb (λ e, Blocks (Some e) && is_edge from (n_ID n) e) (edge_list g).

(** deps[id] = append(deps[id], more...). *)
Definition append_deps (deps : gmap string (list string)) (id : string) (more : list string) : gmap string (list string) :=
  <[id := default [] (deps !! id) ++ more]> deps.

Definition requires_step (deps : gmap string (list string)) (n : Node) : gmap string (list string) :=
  match Parse (n_Requires n) with
  | Ok (Some expr) => append_deps deps (n_ID n) (NodeRefs expr)
  | _ => deps
  end.

Definition wire_step (deps : gmap string (list string)) (e : Edge) : gmap string (list string) :=
  if Blocks (Some e) then append_deps deps (e_To e) [e_From e] else deps.

(** The map refuseDependencyCycle builds: what every node waits for. *)
Definition dependency_map (g : Graph) : gmap string (list string) :=
  foldl wire_step (foldl requires_step ∅ (node_list g)) (edge_list g).
End Ops.

(** ** The breadth-first search *)

Section Search.
Variable deps : gmap string (list string).

(** The loop over what the current node waits for: [previous] and the queue. *)
Fixpoint discover (current : string) (nexts : list string) (previous : gmap string string) (queue : list string)
    : gmap string string * list string :=
  match nexts with
  | [] => (previous, queue)
  | next :: nexts' =>
      match previous !! next with
      | Some _ => discover current nexts' previous queue
      | None => discover current nexts' (<[next := current]> previous) (queue ++ [next])
      end
  end.

(** The queue loop: [Some previous] when it meets [to], [None] when the queue
    empties.  Every node enters the queue at most once. *)
Fixpoint bfs (fuel : nat) (to : string) (previous : gmap string string) (queue : list string)
    : outcome OpError (option (gmap string string)) :=
  match queue with
  | [] => Ok None
  | current :: queue' =>
      match fuel with
      | O => OutOfFuel
      | S fuel' =>
          if String.eqb current to then Ok (Some previous)
          else let '(previous', queue'') := discover current (succs deps current) previous queue' in
               bfs fuel' to previous' queue''
      end
  end.

(** The path back from [to]: for id := to; id != ""; id = previous[id].  A
    missing key reads as the empty string. *)
Fixpoint path_back (fuel : nat) (previous : gmap string string) (id : string) : outcome OpError (list string) :=
  if String.eqb id EmptyString then Ok []
  else match fuel with
       | O => OutOfFuel
       | S fuel' => rest ← path_back fuel' previous (default EmptyString (previous !! id)); Ok (id :: rest)
       end.

(** Every node the search can meet: [from] and what the map names. *)
Definition bfs_fuel : nat := S (size (universe deps)).

(** refuseDependencyCycle on the map: the refusal names the loop, each node
    waiting for the next. *)
Definition refuse_cycle (from to : string) : outcome OpError unit :=
  found ← bfs bfs_fuel to {[ from := EmptyString ]} [from];
  match found with
  | None => Ok tt
  | Some previous =>
      path ← path_back (S bfs_fuel) previous to;
      Fail (WouldCycle from to (to :: rev path))
  end.
End Search.

Definition refuseDependencyCycle `{Unicode} (g : Graph) (from to : string) : answer unit :=
  refuse_cycle (dependency_map g) from to.

(** * The operations *)

Section Apply.
Context `{Unicode}.
Variables (actor : Actor) (createdBy : string → bool).

Abbreviation result := (answer (Graph * gset string)).

(** The node an operation names, or the refusal. *)
Definition with_node (g : Graph) (id : string) (k : Node → result) : result :=
  match NodeByID g id with Some n => k n | None => Fail (NoNode id) end.

Definition put_node (g : Graph) (n : Node) : Graph := update_node g (n_ID n) (λ _, n).

Definition touch (changed : bool) (id : string) (touched : gset string) : gset string :=
  if changed then {[ id ]} ∪ touched else touched.

Definition op_move (g : Graph) (op : GraphOp) (touched : gset string) : result :=
  with_node g (op_NodeID op) (λ _,
    match op_X op, op_Y op with
    | Some x, Some y =>
        if negb (finite x) || negb (finite y) then Fail (NeedsFinite "move")
        else with_editor g (λ ui,
          Ok (with_ui g (Some (set_positions ui (<[op_NodeID op := mkPosition x y]> (ui_Positions ui)))), touched))
    | _, _ => Fail (NeedsFinite "move")
    end).

Definition op_node_size (g : Graph) (op : GraphOp) (touched : gset string) : result :=
  with_node g (op_NodeID op) (λ _,
    match op_Width op, op_Height op with
    | Some w, Some h =>
        if negb (finite w) || negb (finite h) then Fail (NeedsFinite "node-size")
        else with_editor g (λ ui,
          let style := resize (default zero_style (ui_NodeStyles ui !! op_NodeID op)) w h in
          Ok (with_ui g (Some (set_styles ui (<[op_NodeID op := style]> (ui_NodeStyles ui)))), touched))
    | _, _ => Fail (NeedsFinite "node-size")
    end).

Definition accesses : list string :=
  [WriteAccessAll; WriteAccessWorker; WriteAccessOrchestrator; WriteAccessHumanOnly].

Definition next_access (n : Node) (op : GraphOp) : answer string :=
  match op_WriteAccess op with
  | None => Ok (n_WriteAccess n)
  | Some raw =>
      let access := normalizeWriteAccess raw in
      if one_of access accesses then Ok access else Fail (BadWriteAccess raw)
  end.

Definition next_kind (g : Graph) (n : Node) (op : GraphOp) : answer string :=
  match op_NodeKind op with
  | None => Ok (n_Kind n)
  | Some raw =>
      let kind := NormalizeNodeKind raw in
      if negb (KnownNodeKind (Some g) kind) && negb (String.eqb kind (n_Kind n))
      then Fail (Forbidden (unknownNodeTypeError (n_ID n) kind))
      else allowed (checkKindChange actor (Some g) (n_Kind n) kind) (Ok kind)
  end.

Definition op_metadata (g : Graph) (op : GraphOp) (touched : gset string) : result :=
  with_node g (op_NodeID op) (λ n,
    allowed (checkNodeWrite actor (Some n)) (
    allowed (checkRole actor g CapMeta (Some n)) (
    access ← next_access n op;
    kind ← next_kind g n op;
    let n' := mkNode (n_ID n) (default (n_Title n) (op_Title op)) kind (default (n_Priority n) (op_Priority op))
                (default (n_Assignee n) (op_Assignee op)) (default (n_Deadline n) (op_Deadline op)) access
                (n_Requires n) (default (n_Tags n) (op_Tags op)) (n_Effects n) (n_Links n) (n_Refs n)
                (n_Acceptance n) (n_Workflow n) in
    Ok (put_node g n', touch true (n_ID n) touched)))).

(** The cycle check both ways of adding a dependency make. *)
Definition check_dependency (g : Graph) (target : Node) (from : string) : answer unit :=
  if dependsOn g target from then Ok tt else refuseDependencyCycle g from (n_ID target).

Definition op_add_edge (g : Graph) (op : GraphOp) (touched : gset string) : result :=
  let from := op_From op in let to := op_To op in
  match NodeByID g from, NodeByID g to with
  | Some _, Some target =>
      allowed (checkNodeWrite actor (Some target)) (
      allowed (checkRoleLink actor g (Some target) false) (
      if String.eqb from to then Fail DependsOnSelf
      else
        guard_op (gate_refusal from to (booleanGateForOutput g to)) (
        guard_op (gate_refusal from to (logicGateOwningEdge g from to)) (
        _ ← check_dependency g target from;
        '(target', changed) ← appendNodeRequirement target from;
        let edges := match find_edge from to (Edges g) with
                     | Some _ => update_edge from to (λ e, set_relation e RelationRequired) (Edges g)
                     | None => Edges g ++ [Some (mkEdge from to RelationRequired EmptyString)]
                     end in
        Ok (put_node (with_edges g edges) target', touch changed (n_ID target) touched)))))
  | _, _ => Fail (EndMissing from to)
  end.

(** The wires and placements remove-edge sweeps. *)
Definition sweep_wire (ui : UIState) (from to : string) (hasIncoming : bool) : UIState :=
  let key := from +:+ "->" +:+ to in
  let vertices := delete key (ui_WireVertices ui) in
  let labels := delete key (ui_EdgeLabels ui) in
  if hasIncoming then set_wires ui (ui_Gates ui) labels vertices
  else set_wires ui (delete to (ui_Gates ui)) labels (delete ("gate:" +:+ to) vertices).

Definition joins (from to : string) (e : option Edge) : bool :=
  match e with Some e => is_edge from to e | None => false end.

Definition op_remove_edge (g : Graph) (op : GraphOp) (touched : gset string) : result :=
  let from := op_From op in let to := op_To op in
  match NodeByID g from, NodeByID g to with
  | Some _, Some target =>
      allowed (checkNodeWrite actor (Some target)) (
      allowed (checkRoleLink actor g (Some target) false) (
      guard_op (gate_refusal from to (logicGateOwningEdge g from to)) (
      let removedRequired := existsb (λ e, joins from to e && Blocks e) (Edges g) in
      guard_op (if removedRequired then gate_refusal from to (booleanGateForOutput g to) else None) (
      let wired := existsb (joins from to) (Edges g) in
      let kept := List.filter (λ e, negb (joins from to e)) (Edges g) in
      with_editor g (λ ui,
        let hasIncoming := existsb (λ e, match e with Some e => String.eqb (e_To e) to | None => false end) kept in
        let g' := with_ui (with_edges g kept) (Some (sweep_wire ui from to hasIncoming)) in
        if removedRequired || (negb wired && requires_ref (n_Requires target) from) then
          '(target', changed) ← pruneNodeRequirement target from;
          Ok (put_node g' target', touch changed (n_ID target) touched)
        else Ok (g', touched))))))
  | _, _ => Fail (EndMissing from to)
  end.

(** The edge set-edge-style works on: the first explicit one, or the one a
    condition alone stands for, which it writes first. *)
Definition style_target (g : Graph) (from to : string) : answer (Edge * bool) :=
  match find_edge from to (Edges g) with
  | Some e => Ok (e, false)
  | None =>
      match NodeByID g from with
      | None => Fail (EdgeNotFound from to)
      | Some _ =>
          named ← nodeRequiresRef (NodeByID g to) from;
          if (named : bool) then Ok (mkEdge from to RelationRequired EmptyString, true) else Fail (EdgeNotFound from to)
      end
  end.

(** The condition follows the relation: a wire that stops being required
    takes its reference out, one that becomes required puts it in. *)
Definition relate (g : Graph) (target : option Node) (selected : Edge) (next : string) : answer (option (Node * bool)) :=
  let from := e_From selected in
  if Blocks (Some selected) && negb (String.eqb next RelationRequired) then
    match target with
    | None => Panic
    | Some n => r ← pruneNodeRequirement n from; Ok (Some r)
    end
  else if negb (Blocks (Some selected)) && String.eqb next RelationRequired then
    match target with
    | None => Panic
    | Some n => _ ← check_dependency g n from; r ← appendNodeRequirement n from; Ok (Some r)
    end
  else Ok None.

Definition op_set_edge_style (g : Graph) (op : GraphOp) (touched : gset string) : result :=
  let from := op_From op in let to := op_To op in
  if bool_decide (op_Relation op = None) && bool_decide (op_Line op = None) then Fail StyleNeedsField
  else
    '(selected, requiresOnly) ← style_target g from to;
    allowed (checkNodeWrite actor (NodeByID g to)) (
    allowed (checkRoleLink actor g (NodeByID g to) false) (
    guard_op (if (requiresOnly : bool) then gate_refusal from to (requiresWireGate g from to) else None) (
    let g1 := if requiresOnly then with_edges g (Edges g ++ [Some selected]) else g in
    let next := default (e_Relation selected) (op_Relation op) in
    '(g2, touched') ← (
      if String.eqb next (e_Relation selected) then Ok (g1, touched)
      else
        guard_op (gate_refusal from to (logicGateOwningEdge g1 from to)) (
        guard_op (if Blocks (Some selected) || String.eqb next RelationRequired
                  then gate_refusal from to (booleanGateForOutput g1 to) else None) (
        written ← relate g1 (NodeByID g1 to) selected next;
        let g1' := match written with Some (n', _) => put_node g1 n' | None => g1 end in
        let touched' := match written with Some (n', changed) => touch changed (n_ID n') touched | None => touched end in
        Ok (with_edges g1' (update_edge from to (λ e, set_relation e next) (Edges g1')), touched'))));
    Ok (match op_Line op with
        | Some line => with_edges g2 (update_edge from to (λ e, set_line e line) (Edges g2))
        | None => g2
        end, touched')))).

Definition op_add_ref (g : Graph) (op : GraphOp) (touched : gset string) : result :=
  with_node g (op_NodeID op) (λ n,
    allowed (checkNodeWrite actor (Some n)) (
    allowed (checkRoleLink actor g (Some n) true) (
    match NodeByID g (op_Ref op) with
    | None => Fail (RefTargetMissing (op_Ref op))
    | Some _ =>
        if String.eqb (op_Ref op) (n_ID n) then Fail RefersToSelf
        else if HasRef (Some n) (op_Ref op) then Ok (g, touched)
        else if (maxNodeRefs <=? length (n_Refs n))%nat then Fail (TooManyRefs (n_ID n))
        else Ok (put_node g (set_refs n (n_Refs n ++ [op_Ref op])), touch true (n_ID n) touched)
    end))).

Definition op_remove_ref (g : Graph) (op : GraphOp) (touched : gset string) : result :=
  with_node g (op_NodeID op) (λ n,
    allowed (checkNodeWrite actor (Some n)) (
    allowed (checkRoleLink actor g (Some n) true) (
    if negb (HasRef (Some n) (op_Ref op)) then Ok (g, touched)
    else Ok (put_node g (set_refs n (List.filter (λ ref, negb (String.eqb ref (op_Ref op))) (n_Refs n))),
             touch true (n_ID n) touched)))).

Fixpoint known_nodes (g : Graph) (ids : list string) : answer unit :=
  match ids with
  | [] => Ok tt
  | id :: ids' => match NodeByID g id with None => Fail (NoNode id) | Some _ => known_nodes g ids' end
  end.

Definition op_timeline (g : Graph) (op : GraphOp) (touched : gset string) : result :=
  _ ← known_nodes g (op_Order op);
  with_editor g (λ ui, Ok (with_ui g (Some (set_order ui (op_Order op))), touched)).

(** Who an agent's criteria are by: whoever wrote them, unless they are as
    they were. *)
Definition signed (before after : option Acceptance) : option Acceptance :=
  match after with
  | Some a =>
      if IsAgent actor then
        Some (mkAcceptance (acc_Items a) (acc_Locked a)
                (match before with
                 | Some b => if EqualItems after before then acc_By b else acceptanceAttribution actor
                 | None => acceptanceAttribution actor
                 end))
      else after
  | None => None
  end.

Definition op_acceptance (g : Graph) (op : GraphOp) (touched : gset string) : result :=
  with_node g (op_NodeID op) (λ n,
    allowed (checkNodeWrite actor (Some n)) (
    let before := n_Acceptance n in
    let after := normalizeAcceptance actor before (op_Acceptance op) in
    allowed (checkAcceptanceWrite actor g (Some n) before after (createdBy (n_ID n))) (
    let n' := with_acceptance n (signed before after) in
    let g' := put_node g n' in
    guard_op (BadAcceptance <$> ValidateNodeAcceptance (Some g') (Some n')) (Ok (g', touched))))).

Definition op_workflow (g : Graph) (op : GraphOp) (touched : gset string) : result :=
  allowed (checkWorkflowEdit actor EmptyString (GWorkflow g) (op_Workflow op)) (
  guard_op (BadWorkflow <$> ValidateWorkflow (op_Workflow op)) (Ok (set_graph_workflow g (op_Workflow op), touched))).

Definition op_node_workflow (g : Graph) (op : GraphOp) (touched : gset string) : result :=
  with_node g (op_NodeID op) (λ n,
    allowed (checkNodeWrite actor (Some n)) (
    allowed (checkWorkflowEdit actor (n_ID n) (n_Workflow n) (op_Workflow op)) (
    if bool_decide (op_Workflow op ≠ None) && negb (String.eqb (nt_AgentMode (TypeOf (Some g) (Some n))) AgentAutopilot)
    then Fail (WorkflowOnNonGoal (n_ID n))
    else guard_op (BadWorkflow <$> ValidateWorkflow (op_Workflow op))
           (Ok (put_node g (set_workflow n (op_Workflow op)), touched))))).

Definition op_agent_roles (g : Graph) (op : GraphOp) (touched : gset string) : result :=
  allowed (checkAgentRolesEdit actor (AgentRoles g) (op_AgentRoles op)) (
  match ValidateAgentRoleDefs (op_AgentRoles op) with
  | Fail ps => Fail (BadRoles ps)
  | Ok _ => Ok (set_roles g (op_AgentRoles op), touched)
  | Panic => Panic
  | OutOfFuel => OutOfFuel
  end).

(** applyGraphOp: the switch on the kind. *)
Definition applyGraphOp (g : Graph) (op : GraphOp) (touched : gset string) : result :=
  let kind := op_Kind op in
  if String.eqb kind "move" then op_move g op touched
  else if String.eqb kind "node-size" then op_node_size g op touched
  else if String.eqb kind "node-metadata" then op_metadata g op touched
  else if String.eqb kind "add-edge" then op_add_edge g op touched
  else if String.eqb kind "remove-edge" then op_remove_edge g op touched
  else if String.eqb kind "set-edge-style" then op_set_edge_style g op touched
  else if String.eqb kind "add-ref" then op_add_ref g op touched
  else if String.eqb kind "remove-ref" then op_remove_ref g op touched
  else if String.eqb kind "timeline-order" then op_timeline g op touched
  else if String.eqb kind "acceptance" then op_acceptance g op touched
  else if String.eqb kind "workflow" then op_workflow g op touched
  else if String.eqb kind "node-workflow" then op_node_workflow g op touched
  else if String.eqb kind "agent-roles" then op_agent_roles g op touched
  else Fail (UnknownOp (trim_space kind)).

(** The loop of applyGraphOpsLocked over a request's changes. *)
Fixpoint apply_ops (g : Graph) (ops : list GraphOp) (touched : gset string) : result :=
  match ops with
  | [] => Ok (g, touched)
  | op :: ops' => '(g', touched') ← applyGraphOp g op touched; apply_ops g' ops' touched'
  end.
End Apply.
