(* ===== verification/GraphOpsFacts.v ===== *)
(** The breadth-first search of refuseDependencyCycle
    (internal/store/graph_requires_wires.go): it always ends within its fuel,
    it refuses exactly when the new dependency would close a loop, and the
    loop it names is one.

    Graph commands keep the dependencies of a graph free of loops: what each
    operation does to the relation "waits for", and the conditions it writes. *)

From stdpp Require Import relations.
From S2P Require Import Prelude GoStr GoFloat GoTime Dsl DslFacts DslRoundtrip Graph NodeTypes Workflow Roles State Readiness Cycles Validate Permission GraphOps.
Open Scope Z_scope.

Section Discover.
Variable deps : gmap string (list string).

Lemma discover_spec current nexts previous queue previous' queue' :
  discover current nexts previous queue = (previous', queue') →
  ∃ new, queue' = queue ++ new ∧ NoDup new ∧
    (∀ x, x ∈ new → previous !! x = None ∧ x ∈ nexts ∧ previous' !! x = Some current) ∧
    (∀ x, x ∉ new → previous' !! x = previous !! x) ∧
    (∀ x, x ∈ nexts → is_Some (previous' !! x)).
Proof.
  revert previous queue. induction nexts as [|next nexts IH]; intros previous queue; simpl.
  - intros [= <- <-]. exists []. split_and!; [by rewrite app_nil_r|constructor|set_solver|done|set_solver].
  - destruct (previous !! next) as [p|] eqn:E; intros H.
    + apply IH in H as (new & -> & Hnd & Hnew & Hold & Hall). exists new. split_and!; [done..| |done|].
      * intros x Hx. apply Hnew in Hx as (? & ? & ?). set_solver.
      * intros x [->|Hx]%elem_of_cons; [|by apply Hall].
        destruct (decide (next ∈ new)) as [Hin|Hni]; [apply Hnew in Hin as (Hn & _); congruence|].
        rewrite Hold by done. by exists p.
    + apply IH in H as (new & -> & Hnd & Hnew & Hold & Hall). exists (next :: new).
      assert (Hni : next ∉ new) by (intros (Hn & _)%Hnew; rewrite lookup_insert_eq in Hn; done).
      split_and!.
      * by rewrite <- (assoc_L (++)).
      * by constructor.
      * intros x [->|Hx]%elem_of_cons.
        -- rewrite (Hold next) by done. rewrite lookup_insert_eq. split_and!; [done|by left|done].
        -- apply Hnew in Hx as (Hn & ? & ?). apply lookup_insert_None in Hn as [? ?]. set_solver.
      * intros x Hx. rewrite Hold by set_solver. apply lookup_insert_ne. set_solver.
      * intros x [->|Hx]%elem_of_cons; [|by apply Hall]. rewrite Hold by done. rewrite lookup_insert_eq. by eexists.
Qed.
End Discover.

Section Search.
Variables (deps : gmap string (list string)) (from to : string).

(** The chain of predecessors of a discovered node, back to [from]. *)
Inductive trail (previous : gmap string string) : string → list string → Prop :=
  | trail_start : previous !! from = Some EmptyString → trail previous from [from]
  | trail_step x p l : previous !! x = Some p → depends deps p x → trail previous p l → trail previous x (x :: l).

Lemma trail_head previous x l : trail previous x l → ∃ l', l = x :: l'.
Proof. destruct 1; eauto. Qed.

Lemma trail_rtc previous x l : trail previous x l → rtc (depends deps) from x.
Proof. induction 1 as [|x p l _ Hd _ IH]; [done|]. by eapply rtc_r. Qed.

Lemma trail_dom previous x l y : trail previous x l → y ∈ l → is_Some (previous !! y).
Proof.
  induction 1 as [Hf|x p l Hp _ _ IH]; intros Hy.
  - apply list_elem_of_singleton in Hy as ->. eauto.
  - apply elem_of_cons in Hy as [->|Hy]; eauto.
Qed.

Lemma trail_mono previous previous' x l :
  (∀ y, is_Some (previous !! y) → previous' !! y = previous !! y) → trail previous x l → trail previous' x l.
Proof.
  intros Hm. induction 1 as [Hf|x p l Hp Hd _ IH].
  - constructor. rewrite Hm; eauto.
  - econstructor; [rewrite Hm; eauto|done..].
Qed.

(** Read from [from] on, a trail is a chain of dependencies ending at its node. *)
Lemma trail_chain previous x l : trail previous x l → chain deps (rev l) ∧ head (rev l) = Some from ∧ last (rev l) = Some x.
Proof.
  induction 1 as [_|x p l _ Hd Ht (Hc & Hh & Hl)]; [done|]. simpl. split_and!.
  - apply chain_snoc; [done|]. unfold next_ok. by rewrite Hl.
  - destruct (rev l); [done|]. done.
  - by rewrite last_snoc.
Qed.

Record searching (visited queue : list string) (previous : gmap string string) : Prop := {
  se_nodup : NoDup (visited ++ queue);
  se_dom : ∀ x, is_Some (previous !! x) ↔ x ∈ visited ++ queue;
  se_closed : ∀ x y, x ∈ visited → depends deps x y → y ∈ visited ++ queue;
  se_trail : ∀ x, x ∈ visited ++ queue → ∃ l, trail previous x l ∧ NoDup l;
  se_to : to ∉ visited;
  se_start : from ∈ visited ++ queue;
}.

Lemma searching_start : searching [] [from] {[ from := EmptyString ]}.
Proof.
  split; simpl.
  - repeat constructor. set_solver.
  - intros x. rewrite lookup_singleton_is_Some, list_elem_of_singleton. naive_solver.
  - set_solver.
  - intros x ->%list_elem_of_singleton. exists [from]. split; [|repeat constructor; set_solver].
    constructor. by rewrite lookup_singleton_eq.
  - set_solver.
  - set_solver.
Qed.

Lemma searching_step visited current queue previous previous' queue' :
  current ≠ to → searching visited (current :: queue) previous →
  discover current (succs deps current) previous queue = (previous', queue') →
  searching (visited ++ [current]) queue' previous'.
Proof.
  intros Hne [Hnd Hdom Hcl Htr Hto Hst] (new & -> & Hndn & Hnew & Hold & Hall)%discover_spec.
  assert (Happ : (visited ++ [current]) ++ queue ++ new = (visited ++ current :: queue) ++ new)
    by (by rewrite <- !(assoc_L (++))).
  assert (Hfresh : ∀ x, x ∈ new → x ∉ visited ++ current :: queue).
  { intros x (Hn & _)%Hnew Hin%Hdom. rewrite Hn in Hin. by destruct Hin. }
  assert (Hkeep : ∀ y, is_Some (previous !! y) → previous' !! y = previous !! y).
  { intros y Hy. apply Hold. intros (Hn & _)%Hnew. rewrite Hn in Hy. by destruct Hy. }
  split; rewrite ?Happ.
  - apply NoDup_app. split_and!; [done| |done]. intros x Hx Hxn. by destruct (Hfresh x).
  - intros x. rewrite elem_of_app, <- Hdom. destruct (decide (x ∈ new)) as [Hin|Hni].
    + destruct (Hnew x Hin) as (_ & _ & ->). naive_solver.
    + rewrite Hold by done. naive_solver.
  - intros x y [Hx| ->%list_elem_of_singleton]%elem_of_app Hd.
    + apply elem_of_app. left. by eapply Hcl.
    + apply Hall in Hd. apply elem_of_app. destruct (decide (y ∈ new)); [by right|left].
      rewrite Hold in Hd by done. by apply Hdom.
  - intros x [Hx|Hx]%elem_of_app.
    + destruct (Htr x Hx) as (l & Hl & Hl'). exists l. split; [|done]. by eapply trail_mono.
    + destruct (Htr current) as (l & Hl & Hl'); [set_solver|]. destruct (Hnew x Hx) as (Hn & Hs & Hp).
      exists (x :: l). split; [econstructor; [done|done|]; by eapply trail_mono|].
      constructor; [|done]. intros Hxl. eapply trail_dom in Hxl; [|done]. rewrite Hn in Hxl. by destruct Hxl.
  - set_solver.
  - apply elem_of_app. by left.
Qed.

(** Everything discovered is [from] or in the map. *)
Lemma searching_bound visited queue previous :
  searching visited queue previous → (length (visited ++ queue) ≤ bfs_fuel deps)%nat.
Proof.
  intros [Hnd _ _ Htr _ _]. unfold bfs_fuel.
  assert (Hsub : list_to_set (visited ++ queue) ⊆@{gset string} {[ from ]} ∪ universe deps).
  { intros x Hx%elem_of_list_to_set. destruct (Htr x Hx) as (l & Hl & _). apply elem_of_union.
    destruct Hl as [_|x p l _ Hd _]; [left; set_solver|right]. by apply elem_of_succs in Hd as [_ ?]. }
  apply subseteq_size in Hsub. rewrite size_list_to_set in Hsub by done.
  pose proof (size_union_alt {[ from ]} (universe deps)) as Hs. rewrite size_singleton in Hs.
  pose proof (subseteq_size (universe deps ∖ {[ from ]}) (universe deps) ltac:(set_solver)). lia.
Qed.

(** An empty queue: all that is reachable was visited, and [to] was not. *)
Lemma searching_done visited previous : searching visited [] previous → ¬ rtc (depends deps) from to.
Proof.
  intros [_ _ Hcl _ Hto Hst] Hr. rewrite app_nil_r in Hst. apply Hto. clear Hto.
  induction Hr as [|x y z Hxy _ IH]; [done|]. apply IH. specialize (Hcl _ _ Hst Hxy). by rewrite app_nil_r in Hcl.
Qed.

Lemma bfs_spec fuel visited queue previous :
  searching visited queue previous → (bfs_fuel deps ≤ fuel + length visited)%nat →
  (∃ previous' l, bfs deps fuel to previous queue = Ok (Some previous') ∧ trail previous' to l ∧ NoDup l ∧
     (length l ≤ bfs_fuel deps)%nat) ∨
  (bfs deps fuel to previous queue = Ok None ∧ ¬ rtc (depends deps) from to).
Proof.
  revert visited queue previous. induction fuel as [|fuel IH]; intros visited queue previous Hs Hf;
    destruct queue as [|current queue]; simpl.
  1,3: right; split; [done|by eapply searching_done].
  - pose proof (searching_bound _ _ _ Hs) as Hb. rewrite length_app in Hb. simpl in *. lia.
  - destruct (String.eqb_spec current to) as [->|Hne].
    + left. destruct (se_trail _ _ _ Hs to) as (l & Hl & Hnl); [set_solver|].
      exists previous, l. split_and!; [done..|].
      pose proof (searching_bound _ _ _ Hs) as Hb.
      assert (Hsub : l ⊆ visited ++ to :: queue).
      { intros y Hy. apply (se_dom _ _ _ Hs). by eapply trail_dom. }
      pose proof (submseteq_length l (visited ++ to :: queue) (NoDup_submseteq _ _ Hnl Hsub)). lia.
    + destruct (discover current (succs deps current) previous queue) as [previous' queue'] eqn:Ed.
      eapply searching_step in Ed; [|done..]. apply (IH (visited ++ [current])); [done|].
      rewrite length_app. simpl. lia.
Qed.

Lemma path_back_trail previous x l fuel :
  trail previous x l → (length l ≤ fuel)%nat →
  ∃ l', path_back fuel previous x = Ok l' ∧ (EmptyString ∉ l → l' = l).
Proof.
  intros Ht. revert fuel. induction Ht as [Hf|x p l Hp _ _ IH]; intros fuel Hl; simpl in Hl.
  - destruct fuel as [|fuel]; [lia|]. simpl. destruct (String.eqb_spec from EmptyString) as [->|Hne].
    + exists []. split; [done|]. set_solver.
    + rewrite Hf. simpl. exists [from]. split; [|done]. by destruct fuel.
  - destruct fuel as [|fuel]; [lia|]. simpl. destruct (String.eqb_spec x EmptyString) as [->|Hne].
    + exists []. split; [done|]. set_solver.
    + rewrite Hp. simpl. destruct (IH fuel) as (l' & -> & Hl'); [lia|]. simpl.
      exists (x :: l'). split; [done|]. intros Hno. rewrite Hl'; set_solver.
Qed.
End Search.

(** The search settles: a refusal names a chain of dependencies from [from] to
    [to], and there is none otherwise. *)
Lemma refuse_cycle_spec deps from to :
  (refuse_cycle deps from to = Ok tt ∧ ¬ rtc (depends deps) from to) ∨
  (∃ path, refuse_cycle deps from to = Fail (WouldCycle from to (to :: path)) ∧ rtc (depends deps) from to ∧
    ((∀ x, rtc (depends deps) from x → x ≠ EmptyString) →
     chain deps path ∧ head path = Some from ∧ last path = Some to)).
Proof.
  unfold refuse_cycle. destruct (bfs_spec deps from to (bfs_fuel deps) [] [from] {[ from := EmptyString ]})
    as [(previous & l & Hb & Ht & Hnd & Hlen)|[Hb Hno]]; [apply searching_start|lia| |].
  - right. rewrite Hb. cbn [mbind outcome_bind].
    destruct (path_back_trail _ _ _ _ _ (S (bfs_fuel deps)) Ht) as (l' & Hl & Heq); [lia|]. rewrite Hl. cbn [mbind outcome_bind].
    exists (rev l'). split_and!; [done|by eapply trail_rtc|]. intros Hne.
    rewrite Heq; [by eapply trail_chain|]. intros Hin. destruct (Hne EmptyString); [|done].
    clear -Ht Hin. induction Ht as [|x p l _ Hd Ht IH].
    + by apply list_elem_of_singleton in Hin as <-.
    + apply elem_of_cons in Hin as [->|Hin]; [|by apply IH]. eapply rtc_r; [by eapply trail_rtc|done].
  - left. by rewrite Hb.
Qed.

(** * Conditions that print as they parse *)

Section Tidy.
Context `{Unicode}.

(** Room for one more operand: the canonical text nests within the limit also
    as the left operand of an [and]. *)
Definition and_depth (e : Expr) : Z := pdepth (needsParens e precAnd) (depth e).

(** A condition whose string literals need no escape and whose canonical form
    fits; an empty or unparseable one names nothing. *)
Definition tidy (requires : string) : Prop :=
  match Parse requires with
  | Ok (Some e) => plain e = true ∧ and_depth e ≤ maxNesting
  | _ => True
  end.

Definition tidyb (requires : string) : bool :=
  match Parse requires with
  | Ok (Some e) => plain e && (and_depth e <=? maxNesting)
  | _ => true
  end.

Lemma tidyb_spec requires : tidyb requires = true → tidy requires.
Proof.
  unfold tidyb, tidy. destruct (Parse requires) as [[e|]| | |]; try done.
  rewrite andb_true_iff, Z.leb_le. done.
Qed.

Lemma erase_shape e e' : erase e' = erase e →
  plain e' = plain e ∧ depth e' = depth e ∧ level e' = level e ∧
  (∀ p, needsParens e' p = needsParens e p) ∧ all_refs e' = all_refs e.
Proof.
  assert (Hone : ∀ x, plain (erase x) = plain x ∧ depth (erase x) = depth x ∧ level (erase x) = level x ∧
    (∀ p, needsParens (erase x) p = needsParens x p) ∧ (∀ p, rparen_r (erase x) p = rparen_r x p) ∧
    all_refs (erase x) = all_refs x).
  { clear. induction x as [id p|f op v p|op x IH p|op l IHl r IHr p]; simpl; try done.
    - destruct IH as (H1 & H2 & H3 & H4 & H5 & H6). rewrite !all_refs_unary, H2, H4. done.
    - destruct IHl as (H1 & H2 & H3 & H4 & H5 & H6), IHr as (J1 & J2 & J3 & J4 & J5 & J6).
      rewrite !all_refs_binary, H1, H2, H4, H6, J1, J2, J5, J6. done. }
  intros He. destruct (Hone e) as (H1 & H2 & H3 & H4 & _ & H6), (Hone e') as (J1 & J2 & J3 & J4 & _ & J6).
  rewrite He in *. split_and!; try congruence.
Qed.

(** ** What pruning does to the printed depth *)

Lemma pdepth_bounds b n : n ≤ pdepth b n ≤ n + 1.
Proof. unfold pdepth. destruct b; lia. Qed.

Lemma pdepth_mono b m n : m ≤ n → pdepth b m ≤ pdepth b n.
Proof. unfold pdepth. destruct b; lia. Qed.

Lemma prune_depth e drop e' : PruneNodeRefs e drop = Some e' →
  (∀ p, pdepth (needsParens e' p) (depth e') ≤ pdepth (needsParens e p) (depth e)) ∧
  (∀ p, pdepth (rparen_r e' p) (depth e') ≤ pdepth (rparen_r e p) (depth e)).
Proof.
  revert e'. induction e as [id q|f op v q|op x IH q|op l IHl r IHr q]; intros e'; cbn [PruneNodeRefs].
  - destruct (drop id); [done|]. intros [= <-]. done.
  - intros [= <-]. done.
  - destruct (PruneNodeRefs x drop) as [x'|]; [|done]. intros [= <-].
    destruct (IH _ eq_refl) as [IH1 _]. specialize (IH1 precNot).
    split; intros p; apply pdepth_mono; cbn [depth]; lia.
  - destruct (PruneNodeRefs l drop) as [l'|], (PruneNodeRefs r drop) as [r'|]; intros [= <-];
      try destruct (IHl _ eq_refl) as [L1 L2]; try destruct (IHr _ eq_refl) as [R1 R2].
    + specialize (L1 (opPrec op)). specialize (R2 (opPrec op)).
      split; intros p; apply pdepth_mono; cbn [depth]; lia.
    + split; intros p; [specialize (L1 p)|specialize (L2 p)];
        pose proof (pdepth_bounds (needsParens l (opPrec op)) (depth l));
        destruct l; simpl in *; unfold rparen_r, pdepth in *; simpl in *; repeat case_match; lia.
    + split; intros p; [specialize (R1 p)|specialize (R2 p)];
        pose proof (pdepth_bounds (rparen_r r (opPrec op)) (depth r));
        destruct r; simpl in *; unfold rparen_r, pdepth in *; simpl in *; repeat case_match; lia.
Qed.

Lemma prune_plain e drop e' : PruneNodeRefs e drop = Some e' → plain e = true → plain e' = true.
Proof.
  revert e'. induction e as [id q|f op v q|op x IH q|op l IHl r IHr q]; intros e'; simpl.
  - destruct (drop id); by intros [= <-].
  - by intros [= <-].
  - destruct (PruneNodeRefs x drop); [|done]. intros [= <-]. simpl. eauto.
  - destruct (PruneNodeRefs l drop), (PruneNodeRefs r drop); intros [= <-] [??]%andb_true_iff; simpl; eauto.
    rewrite (IHl _ eq_refl), (IHr _ eq_refl); done.
Qed.

Lemma prune_wf e drop e' : PruneNodeRefs e drop = Some e' → wf_expr e → wf_expr e'.
Proof.
  intros Hp Hw. revert e' Hp. induction Hw as [id p Hn|f p Hf|f op v p Hf Hop Hv|x p Hx IH|op l r p Hop Hl IHl Hr IHr];
    intros e'; simpl.
  - destruct (drop id); intros [= <-]. by constructor.
  - intros [= <-]. by constructor.
  - intros [= <-]. by constructor.
  - destruct (PruneNodeRefs x drop); [|done]. intros [= <-]. constructor. eauto.
  - destruct (PruneNodeRefs l drop), (PruneNodeRefs r drop); intros [= <-]; eauto. constructor; eauto.
Qed.

(** ** What the written conditions name *)

Lemma requires_ref_spec requires y :
  requires_ref requires y = true ↔ ∃ e, Parse requires = Ok (Some e) ∧ y ∈ all_refs e.
Proof.
  unfold requires_ref. destruct (Parse requires) as [[e|]| | |]; try naive_solver.
  unfold containsNodeRef. rewrite existsb_elem. split.
  - intros (ref & Href & ->%String.eqb_eq). exists e. split; [done|]. by apply elem_of_NodeRefs.
  - intros (e' & [= <-] & Hy). exists y. rewrite String.eqb_eq, elem_of_NodeRefs. done.
Qed.

Lemma contains_requires_ref requires e y :
  Parse requires = Ok e → containsNodeRef e y = requires_ref requires y.
Proof. unfold requires_ref. intros ->. by destruct e. Qed.

(** A printed tidy condition names what its tree names, and stays tidy. *)
Lemma print_tidy e : wf_expr e → plain e = true → and_depth e ≤ maxNesting →
  tidy (print e) ∧ ∀ y, requires_ref (print e) y = true ↔ y ∈ all_refs e.
Proof.
  intros Hw Hp Hd. pose proof (pdepth_bounds (needsParens e precAnd) (depth e)) as Hb. unfold and_depth in Hd.
  destruct (Parse_print e Hw Hp) as (e' & He' & Her); [lia|].
  apply erase_shape in Her as (H1 & H2 & _ & H4 & H5). split.
  - unfold tidy. rewrite He'. unfold and_depth. rewrite H1, H2, H4. done.
  - intros y. rewrite requires_ref_spec, He'. split; [intros (? & [= <-] & ?)|intros ?; exists e'; split]; congruence.
Qed.

Lemma append_requirement_spec n source n' changed :
  tidy (n_Requires n) → wf_name source → appendNodeRequirement n source = Ok (n', changed) →
  n_ID n' = n_ID n ∧ tidy (n_Requires n') ∧ requires_ref (n_Requires n') source = true ∧
  ∀ y, requires_ref (n_Requires n') y = true → requires_ref (n_Requires n) y = true ∨ y = source.
Proof.
  intros Ht Hs. unfold appendNodeRequirement. pose proof (Parse_good (n_Requires n)) as Hg. unfold tidy in Ht.
  destruct (Parse (n_Requires n)) as [expr| | |] eqn:E; try done.
  destruct (containsNodeRef expr source) eqn:Ec; intros [= <- <-].
  { rewrite (contains_requires_ref _ _ source E) in Ec. split_and!; [done| |done|by left]. unfold tidy. by rewrite E. }
  assert (Hone : depth (NodeRef source 0) = 1) by done.
  destruct expr as [e|].
  - destruct Ht as [Hp Hd].
    assert (Hmax : 1 ≤ maxNesting) by (vm_compute; congruence).
    destruct (print_tidy (Binary "and" e (NodeRef source 0) 0)) as [Htidy Hrefs].
    + constructor; [unfold binops; set_solver|done|by constructor].
    + simpl. by rewrite Hp.
    + unfold and_depth in *. cbn [depth needsParens]. change (opPrec "and") with precAnd.
      rewrite Z.ltb_irrefl. unfold pdepth at 1. unfold rparen_r. cbn [needsParens samePrecBinary orb pdepth]. lia.
    + change (n_Requires (with_requires n ?x)) with x.
      assert (Hrefs' : ∀ y, requires_ref (print (Binary "and" e (NodeRef source 0) 0)) y = true ↔
        requires_ref (n_Requires n) y = true ∨ y = source).
      { intros y. rewrite Hrefs, all_refs_binary, requires_ref_spec, E. unfold all_refs at 2. simpl.
        rewrite elem_of_app, list_elem_of_singleton. naive_solver. }
      split_and!; [done|done|apply Hrefs'; by right|intros y; apply Hrefs'].
  - destruct (print_tidy (NodeRef source 0)) as [Htidy Hrefs]; [by constructor|done|vm_compute; congruence|].
    change (n_Requires (with_requires n ?x)) with x.
    assert (Hall : all_refs (NodeRef source 0) = [source]) by done.
    split_and!; [done|done|apply Hrefs; rewrite Hall; set_solver|]. intros y Hy%Hrefs. right. rewrite Hall in Hy. set_solver.
Qed.

(** A tidy condition without the references a test drops. *)
Lemma pruned_condition requires e drop :
  tidy requires → Parse requires = Ok (Some e) →
  let pruned := match PruneNodeRefs e drop with Some e' => print e' | None => EmptyString end in
  tidy pruned ∧ ∀ y, requires_ref pruned y = true ↔ requires_ref requires y = true ∧ drop y = false.
Proof.
  intros Ht E. pose proof (Parse_good requires) as Hg. unfold tidy in Ht. rewrite E in Ht, Hg. destruct Ht as [Hp Hd].
  assert (Hall : ∀ y, requires_ref requires y = true ↔ y ∈ all_refs e) by (intros y; rewrite requires_ref_spec, E; naive_solver).
  pose proof (prune_leaves e drop) as Hl. destruct (PruneNodeRefs e drop) as [e'|] eqn:Epr; simpl.
  - destruct Hl as (Hrefs & _ & _). destruct (prune_depth _ _ _ Epr) as [Hdep _].
    destruct (print_tidy e') as [Htidy Hr]; [by eapply prune_wf|by eapply prune_plain| |].
    + unfold and_depth in *. specialize (Hdep precAnd). lia.
    + split; [done|]. intros y. rewrite Hr, Hrefs, list_elem_of_filter, Hall. unfold keep. naive_solver.
  - destruct Hl as [Hnone _]. split; [vm_compute; done|]. intros y. rewrite Hall. split; [by vm_compute|].
    intros [Hy Hne]. assert (Hin : y ∈ filter (keep drop) (all_refs e)) by (by apply list_elem_of_filter).
    rewrite Hnone in Hin. by apply elem_of_nil in Hin.
Qed.

Lemma prune_requirement_spec n source n' changed :
  tidy (n_Requires n) → pruneNodeRequirement n source = Ok (n', changed) →
  n_ID n' = n_ID n ∧ tidy (n_Requires n') ∧
  ∀ y, requires_ref (n_Requires n') y = true ↔ requires_ref (n_Requires n) y = true ∧ y ≠ source.
Proof.
  intros Ht. unfold pruneNodeRequirement. destruct (Parse (n_Requires n)) as [[e|]| | |] eqn:E; try done; cycle 1.
  { intros [= <- <-]. split_and!; [done|done|]. intros y. rewrite requires_ref_spec, E. naive_solver. }
  destruct (containsNodeRef (Some e) source) eqn:Ec; simpl; intros [= <- <-]; cycle 1.
  { split_and!; [done|done|]. intros y. split; [|naive_solver].
    intros Hy. split; [done|]. intros ->. rewrite (contains_requires_ref _ _ source E) in Ec. congruence. }
  change (n_Requires (with_requires n ?x)) with x.
  destruct (pruned_condition _ e (λ id, String.eqb id source) Ht E) as [Htidy Hrefs].
  split_and!; [done|done|]. intros y. by rewrite Hrefs, String.eqb_neq.
Qed.
End Tidy.

(** * The relation "waits for" *)

Section Waits.
Context `{Unicode}.

Definition waits (g : Graph) (x y : string) : Prop := depends (dependency_map g) x y.

(** No node waits for itself, through however many others. *)
Definition acyclic (g : Graph) : Prop := ∀ x, ¬ tc (waits g) x x.

Lemma depends_append deps id more x y :
  depends (append_deps deps id more) x y ↔ depends deps x y ∨ (x = id ∧ y ∈ more).
Proof.
  unfold depends, succs, append_deps. destruct (decide (id = x)) as [->|Hne].
  - rewrite lookup_insert_eq. simpl. rewrite elem_of_app. naive_solver.
  - rewrite lookup_insert_ne by done. naive_solver.
Qed.

Lemma depends_requires ns deps x y :
  depends (foldl requires_step deps ns) x y ↔
  depends deps x y ∨ ∃ n, n ∈ ns ∧ n_ID n = x ∧ requires_ref (n_Requires n) y = true.
Proof.
  revert deps. induction ns as [|n ns IH]; intros deps; simpl; [set_solver|]. rewrite IH.
  assert (Hstep : depends (requires_step deps n) x y ↔ depends deps x y ∨ (n_ID n = x ∧ requires_ref (n_Requires n) y = true)).
  { unfold requires_step. rewrite requires_ref_spec. destruct (Parse (n_Requires n)) as [[e|]| | |]; try naive_solver.
    rewrite depends_append, elem_of_NodeRefs. naive_solver. }
  rewrite Hstep. setoid_rewrite elem_of_cons. naive_solver.
Qed.

Lemma depends_wires es deps x y :
  depends (foldl wire_step deps es) x y ↔
  depends deps x y ∨ ∃ e, e ∈ es ∧ Blocks (Some e) = true ∧ e_To e = x ∧ e_From e = y.
Proof.
  revert deps. induction es as [|e es IH]; intros deps; cbn [foldl]; [set_solver|]. rewrite IH.
  assert (Hstep : depends (wire_step deps e) x y ↔
    depends deps x y ∨ (Blocks (Some e) = true ∧ e_To e = x ∧ e_From e = y)).
  { unfold wire_step. destruct (Blocks (Some e)); [|naive_solver].
    rewrite depends_append, list_elem_of_singleton. naive_solver. }
  rewrite Hstep. setoid_rewrite elem_of_cons. naive_solver.
Qed.

(** A node waits for what its condition names and for its required wires. *)
Lemma waits_spec g x y :
  waits g x y ↔
  (∃ n, n ∈ node_list g ∧ n_ID n = x ∧ requires_ref (n_Requires n) y = true) ∨
  (∃ e, e ∈ edge_list g ∧ Blocks (Some e) = true ∧ e_To e = x ∧ e_From e = y).
Proof.
  unfold waits, dependency_map. rewrite depends_wires, depends_requires.
  assert (¬ depends ∅ x y) by (unfold depends, succs; rewrite lookup_empty; simpl; set_solver). naive_solver.
Qed.

Lemma acyclic_shrink g g' : (∀ x y, waits g' x y → waits g x y) → acyclic g → acyclic g'.
Proof. intros Hsub Ha x Ht. apply (Ha x). by eapply tc_mono. Qed.

(** One more dependency closes a loop only if there is a way back. *)
Lemma acyclic_grow g g' a b :
  (∀ x y, waits g' x y → waits g x y ∨ (x = a ∧ y = b)) → ¬ rtc (waits g) b a → acyclic g → acyclic g'.
Proof.
  intros Hsub Hno Ha x Ht.
  assert (Hcase : ∀ x y, tc (waits g') x y → tc (waits g) x y ∨ (rtc (waits g) x a ∧ rtc (waits g) b y)).
  { clear x Ht Hno Ha. intros x y Ht. induction Ht as [x y Hxy|x y z Hxy _ IH].
    - destruct (Hsub _ _ Hxy) as [?|[-> ->]]; [left; by apply tc_once|by right].
    - destruct (Hsub _ _ Hxy) as [Hg|[-> ->]], IH as [Ht|[Hl Hr]].
      + left. by eapply tc_l.
      + right. split; [by eapply rtc_l|done].
      + right. split; [done|]. by apply tc_rtc.
      + right. done. }
  destruct (Hcase x x Ht) as [?|[Hl Hr]]; [by eapply Ha|]. apply Hno. by etrans.
Qed.

Lemma depends_on_spec g n from :
  n ∈ node_list g → dependsOn g n from = true → waits g (n_ID n) from.
Proof.
  intros Hn. unfold dependsOn. rewrite orb_true_iff, existsb_elem, waits_spec. intros [Hr|(e & He & Hb)].
  - left. by exists n.
  - right. apply andb_true_iff in Hb as [Hb [Hf Hto]%andb_true_iff]. apply String.eqb_eq in Hf, Hto. by exists e.
Qed.

(** A dependency the check lets through keeps the graph free of loops. *)
Lemma check_dependency_acyclic g g' n from :
  n ∈ node_list g → check_dependency g n from = Ok tt →
  (∀ x y, waits g' x y → waits g x y ∨ (x = n_ID n ∧ y = from)) → acyclic g → acyclic g'.
Proof.
  unfold check_dependency. intros Hn Hc Hsub Ha. destruct (dependsOn g n from) eqn:Ed.
  - apply (acyclic_shrink g); [|done]. intros x y Hxy. destruct (Hsub x y Hxy) as [?|[-> ->]]; [done|].
    by apply depends_on_spec.
  - eapply (acyclic_grow g _ (n_ID n) from); [done| |done]. unfold refuseDependencyCycle in Hc.
    destruct (refuse_cycle_spec (dependency_map g) from (n_ID n)) as [[_ ?]|(path & Hf & _)]; [done|congruence].
Qed.

(** * Writes through pointers *)

Lemma elem_of_update_first f id nodes m :
  Some m ∈ update_first f id nodes → Some m ∈ nodes ∨ ∃ n, NodeByID_in nodes id = Some n ∧ m = f n.
Proof.
  induction nodes as [|[n|] nodes IH]; simpl; [set_solver| |].
  - destruct (String.eqb (n_ID n) id); intros [Heq|Hm]%elem_of_cons.
    + simplify_eq. right. by exists n.
    + left. by right.
    + simplify_eq. left. by left.
    + destruct (IH Hm) as [?|(n' & ? & ?)]; [left; by right|right; eauto].
  - intros [Heq|Hm]%elem_of_cons; [done|]. destruct (IH Hm) as [?|(n' & ? & ?)]; [left; by right|right; eauto].
Qed.

Lemma elem_of_put_node g n m : m ∈ node_list (put_node g n) → m ∈ node_list g ∨ m = n.
Proof.
  rewrite !elem_of_node_list. unfold put_node, update_node. simpl.
  intros [?|(n' & _ & ->)]%elem_of_update_first; auto.
Qed.

Lemma elem_of_update_edge from to f edges e :
  Some e ∈ update_edge from to f edges →
  Some e ∈ edges ∨ ∃ e0, find_edge from to edges = Some e0 ∧ e = f e0.
Proof.
  induction edges as [|[e1|] edges IH]; simpl; [set_solver| |].
  - destruct (is_edge from to e1); intros [Heq|Hm]%elem_of_cons.
    + simplify_eq. right. by exists e1.
    + left. by right.
    + simplify_eq. left. by left.
    + destruct (IH Hm) as [?|(n' & ? & ?)]; [left; by right|right; eauto].
  - intros [Heq|Hm]%elem_of_cons; [done|]. destruct (IH Hm) as [?|(n' & ? & ?)]; [left; by right|right; eauto].
Qed.

Lemma find_edge_Some from to edges e : find_edge from to edges = Some e → Some e ∈ edges ∧ e_From e = from ∧ e_To e = to.
Proof.
  induction edges as [|[e1|] edges IH]; simpl; [done| |].
  - destruct (is_edge from to e1) eqn:E.
    + intros [= ->]. apply andb_true_iff in E as [?%String.eqb_eq ?%String.eqb_eq]. set_solver.
    + intros ?%IH. set_solver.
  - intros ?%IH. set_solver.
Qed.

(** * Graphs in order *)

(** Names the language can write, tidy conditions, no loop. *)
Record orderly (g : Graph) : Prop := {
  or_names : ∀ n, n ∈ node_list g → wf_name (n_ID n);
  or_wires : ∀ e, e ∈ edge_list g → wf_name (e_From e);
  or_tidy : ∀ n, n ∈ node_list g → tidy (n_Requires n);
  or_acyclic : acyclic g;
}.

(** What dependencies are made of, for writes that leave them alone. *)
Definition anatomy (g : Graph) : list (string * string) * list (option Edge) :=
  ((λ n, (n_ID n, n_Requires n)) <$> node_list g, Edges g).

Lemma anatomy_waits g g' x y : anatomy g' = anatomy g → waits g' x y → waits g x y.
Proof.
  intros [= Hn He]. rewrite !waits_spec. unfold edge_list. rewrite He. intros [(n & Hin & <- & Hr)|?]; [left|by right].
  apply (list_elem_of_fmap_2 (λ n, (n_ID n, n_Requires n))) in Hin. rewrite Hn in Hin.
  apply list_elem_of_fmap in Hin as (m & Heq & Hm). simplify_eq. exists m. split_and!; congruence.
Qed.

Lemma anatomy_orderly g g' : anatomy g' = anatomy g → orderly g → orderly g'.
Proof.
  intros Ha [Hn Hw Ht Hac].
  assert (Hall : ∀ m, m ∈ node_list g' → ∃ n, n ∈ node_list g ∧ n_ID n = n_ID m ∧ n_Requires n = n_Requires m).
  { intros m Hm. injection Ha as Ha _. apply (list_elem_of_fmap_2 (λ n, (n_ID n, n_Requires n))) in Hm.
    rewrite Ha in Hm. apply list_elem_of_fmap in Hm as (n & Heq & Hn'). simplify_eq. eauto. }
  split.
  - intros m (n & Hn' & <- & _)%Hall. auto.
  - intros e He. apply Hw. injection Ha as _ Ha. revert He. by rewrite !elem_of_edge_list, Ha.
  - intros m (n & Hn' & _ & <-)%Hall. auto.
  - eapply acyclic_shrink; [|done]. intros x y. by apply anatomy_waits.
Qed.

Lemma anatomy_put_node g n n' :
  NodeByID g (n_ID n) = Some n → n_ID n' = n_ID n → n_Requires n' = n_Requires n → anatomy (put_node g n') = anatomy g.
Proof.
  intros Hn Hid Hr. unfold anatomy, put_node, update_node, node_list. f_equal. rewrite Hid. revert Hn. unfold NodeByID. simpl.
  induction (Nodes g) as [|[m|] ms IH]; simpl; [done| |done].
  destruct (String.eqb (n_ID m) (n_ID n)).
  - intros [= ->]. simpl. congruence.
  - intros Hm. simpl. f_equal. by apply IH.
Qed.
End Waits.

Create HintDb anatomy.
#[export] Hint Resolve anatomy_put_node : anatomy.

(** * The operations *)

Section Steps.
Context `{Unicode}.

Lemma guard_op_ok {A} r (k : answer A) a : guard_op r k = Ok a ↔ r = None ∧ k = Ok a.
Proof. unfold guard_op. destruct r; naive_solver. Qed.

Lemma allowed_ok {A} d (k : answer A) a : allowed d k = Ok a ↔ d = None ∧ k = Ok a.
Proof. unfold allowed. rewrite guard_op_ok. destruct d; naive_solver. Qed.

Lemma with_node_ok {A} g id (k : Node → answer A) a :
  match NodeByID g id with Some n => k n | None => Fail (NoNode id) end = Ok a ↔
  ∃ n, NodeByID g id = Some n ∧ k n = Ok a.
Proof. destruct (NodeByID g id); naive_solver. Qed.

Lemma with_editor_ok {A} g (k : UIState → answer A) a :
  with_editor g k = Ok a ↔ ∃ ui, UI g = Some ui ∧ k ui = Ok a.
Proof. unfold with_editor. destruct (UI g); naive_solver. Qed.
End Steps.

(** Takes a successful operation apart into what its guards let through. *)
Ltac op_inv :=
  repeat match goal with
         | H : with_node _ _ _ = Ok _ |- _ => apply with_node_ok in H as (? & ? & H)
         | H : allowed _ _ = Ok _ |- _ => apply allowed_ok in H as [? H]
         | H : guard_op _ _ = Ok _ |- _ => apply guard_op_ok in H as [? H]
         | H : with_editor _ _ = Ok _ |- _ => apply with_editor_ok in H as (? & ? & H)
         | H : _ ≫= _ = Ok _ |- _ => apply bind_ok in H as (? & ? & H)
         | H : (let '(_, _) := ?p in _) = Ok _ |- _ => destruct p eqn:?
         | H : match ?x with _ => _ end = Ok _ |- _ => destruct x eqn:?; try discriminate H
         | H : Ok _ = Ok _ |- _ => injection H as H
         | H : (_, _) = (_, _) |- _ => injection H as ? ?
         | x : () |- _ => destruct x
         end; subst.

Section Orderly.
Context `{Unicode}.
Variables (actor : Actor) (createdBy : string → bool).

Lemma named_node g id n : NodeByID g id = Some n → NodeByID g (n_ID n) = Some n ∧ n ∈ node_list g ∧ n_ID n = id.
Proof. intros Hn. pose proof (NodeByID_Some g id n Hn) as [Hin <-]. done. Qed.

(** A node put back with its id and condition, by the lookup that found it. *)
Ltac written :=
  match goal with
  | Hput : ∀ _ _ _, _, H : NodeByID _ (op_NodeID _) = Some _ |- _ => by apply (Hput _ _ _ H)
  end.

(** The operations that leave ids, conditions and wires as they are. *)
Lemma quiet_ops g op touched g' touched' :
  applyGraphOp actor createdBy g op touched = Ok (g', touched') →
  op_Kind op ∉ ["add-edge"; "remove-edge"; "set-edge-style"] → anatomy g' = anatomy g.
Proof.
  assert (Hput : ∀ id n n', NodeByID g id = Some n → n_ID n' = n_ID n → n_Requires n' = n_Requires n →
    anatomy (put_node g n') = anatomy g).
  { intros id n n' (Hn & _ & _)%named_node. by apply anatomy_put_node. }
  intros Hop Hk. unfold applyGraphOp in Hop.
  repeat match type of Hop with
         | (if String.eqb (op_Kind op) ?k then _ else _) = _ =>
             let E := fresh "E" in destruct (String.eqb (op_Kind op) k) eqn:E;
             [apply String.eqb_eq in E; try (destruct Hk; rewrite E; set_solver)|clear E]
         end; try discriminate Hop.
  - unfold op_move in Hop. op_inv. done.
  - unfold op_node_size in Hop. op_inv. done.
  - unfold op_metadata in Hop. op_inv. by written.
  - unfold op_add_ref in Hop. op_inv; [done|]. by written.
  - unfold op_remove_ref in Hop. op_inv; [done|]. by written.
  - unfold op_timeline in Hop. op_inv. done.
  - unfold op_acceptance in Hop. op_inv. by written.
  - unfold op_workflow in Hop. op_inv. done.
  - unfold op_node_workflow in Hop. op_inv. by written.
  - unfold op_agent_roles in Hop. op_inv. done.
Qed.

(** A graph whose nodes are those of [g] except one rewritten node. *)
Lemma rewritten_orderly g g' n n' :
  orderly g → n ∈ node_list g → n_ID n' = n_ID n → tidy (n_Requires n') →
  (∀ m, m ∈ node_list g' → m ∈ node_list g ∨ m = n') →
  (∀ e, e ∈ edge_list g' → wf_name (e_From e)) → acyclic g' → orderly g'.
Proof.
  intros [Hn _ Ht _] Hin Hid Htidy Hall Hw Hac. split; [|done| |done].
  - intros m [?| ->]%Hall; [auto|]. rewrite Hid. auto.
  - intros m [?| ->]%Hall; auto.
Qed.

(** The dependency an edit adds, whatever else it drops. *)
Lemma grown_orderly g g' n n' changed from :
  orderly g → n ∈ node_list g → wf_name from → check_dependency g n from = Ok tt →
  appendNodeRequirement n from = Ok (n', changed) →
  (∀ m, m ∈ node_list g' → m ∈ node_list g ∨ m = n') →
  (∀ e, e ∈ edge_list g' → Blocks (Some e) = true →
     (∃ e0, e0 ∈ edge_list g ∧ Blocks (Some e0) = true ∧ e_From e0 = e_From e ∧ e_To e0 = e_To e)
     ∨ (e_From e = from ∧ e_To e = n_ID n)) →
  (∀ e, e ∈ edge_list g' → wf_name (e_From e)) → orderly g'.
Proof.
  intros Ho Hin Hs Hc Ha Hnodes Hedges Hwires.
  apply append_requirement_spec in Ha as (Hid & Htidy & _ & Hrefs); [|by apply (or_tidy _ Ho)|done].
  eapply rewritten_orderly; [done..|]. eapply check_dependency_acyclic; [done..| |apply Ho].
  intros x y. rewrite !waits_spec. intros [(m & Hm & <- & Hr)|(e & He & Hb & <- & <-)].
  - apply Hnodes in Hm as [Hm| ->]; [left; left; eauto|]. apply Hrefs in Hr as [Hr| ->]; [|right; by rewrite Hid].
    left; left. exists n. done.
  - destruct (Hedges e He Hb) as [(e0 & He0 & Hb0 & Hf & Hto)|[-> ->]]; [left; right|by right].
    exists e0. rewrite Hf, Hto. done.
Qed.

(** An edit that only drops dependencies. *)
Lemma shrunk_orderly g g' n n' :
  orderly g → n ∈ node_list g → n_ID n' = n_ID n → tidy (n_Requires n') →
  (∀ y, requires_ref (n_Requires n') y = true → requires_ref (n_Requires n) y = true) →
  (∀ m, m ∈ node_list g' → m ∈ node_list g ∨ m = n') →
  (∀ e, e ∈ edge_list g' → Blocks (Some e) = true →
     (∃ e0, e0 ∈ edge_list g ∧ Blocks (Some e0) = true ∧ e_From e0 = e_From e ∧ e_To e0 = e_To e)
     ∨ requires_ref (n_Requires n) (e_From e) = true ∧ e_To e = n_ID n) →
  (∀ e, e ∈ edge_list g' → wf_name (e_From e)) → orderly g'.
Proof.
  intros Ho Hin Hid Htidy Hrefs Hnodes Hedges Hwires. eapply rewritten_orderly; [done..|].
  eapply acyclic_shrink; [|apply Ho]. intros x y. rewrite !waits_spec. intros [(m & Hm & <- & Hr)|(e & He & Hb & <- & <-)].
  - left. apply Hnodes in Hm as [Hm| ->]; eauto 6.
  - destruct (Hedges e He Hb) as [(e0 & He0 & Hb0 & Hf & Hto)|[Hr Hto]].
    + right. exists e0. rewrite Hf, Hto. done.
    + left. exists n. done.
Qed.

Lemma op_add_edge_orderly g op touched g' touched' :
  orderly g → op_add_edge actor g op touched = Ok (g', touched') → orderly g'.
Proof.
  intros Ho Hop. unfold op_add_edge in Hop. op_inv.
  match goal with
  | H1 : NodeByID g (op_From op) = Some ?s, H2 : NodeByID g (op_To op) = Some ?t |- _ =>
      apply named_node in H1 as (_ & Hs & Hsid); apply named_node in H2 as (_ & Ht & Htid)
  end.
  eapply grown_orderly; [done|exact Ht| |eassumption|eassumption| | |].
  - rewrite <- Hsid. by apply (or_names _ Ho).
  - intros m Hm%elem_of_put_node. done.
  - intros e He Hb. apply elem_of_edge_list in He. simpl in He. rewrite Htid.
    destruct (find_edge (op_From op) (op_To op) (Edges g)) as [e1|] eqn:Ef.
    + apply find_edge_Some in Ef as Hin. destruct Hin as (_ & Hf & Hto).
      apply elem_of_update_edge in He as [He|(e0 & [= <-]%(eq_trans (eq_sym Ef)) & ->)].
      * left. exists e. by rewrite elem_of_edge_list.
      * right. done.
    + apply elem_of_app in He as [He|He%list_elem_of_singleton].
      * left. exists e. by rewrite elem_of_edge_list.
      * simplify_eq. by right.
  - intros e He. apply elem_of_edge_list in He. simpl in He.
    assert (Hold : ∀ e, Some e ∈ Edges g → wf_name (e_From e)).
    { intros e1 He1. apply (or_wires _ Ho). by rewrite elem_of_edge_list. }
    destruct (find_edge (op_From op) (op_To op) (Edges g)) as [e1|] eqn:Ef.
    + apply elem_of_update_edge in He as [He|(e0 & He0 & ->)]; [auto|]. apply find_edge_Some in He0 as [? _]. simpl. auto.
    + apply elem_of_app in He as [He|He%list_elem_of_singleton]; [auto|]. simplify_eq. simpl. rewrite <- Hsid.
      by apply (or_names _ Ho).
Qed.

Lemma op_remove_edge_orderly g op touched g' touched' :
  orderly g → op_remove_edge actor g op touched = Ok (g', touched') → orderly g'.
Proof.
  intros Ho Hop. unfold op_remove_edge in Hop. op_inv;
  match goal with
  | H2 : NodeByID g (op_To op) = Some ?t |- _ => apply named_node in H2 as (_ & Ht & Htid)
  end.
  - match goal with
    | Hp : pruneNodeRequirement _ _ = Ok _ |- _ => apply prune_requirement_spec in Hp as (Hid & Htidy & Hrefs)
    end; [|by apply (or_tidy _ Ho)].
    eapply shrunk_orderly; [done|exact Ht|done|done|naive_solver| | |].
    + intros m Hm%elem_of_put_node. done.
    + intros e He Hb. apply elem_of_edge_list, elem_of_list_filter in He as [_ He]. left. exists e. by rewrite elem_of_edge_list.
    + intros e He. apply elem_of_edge_list, elem_of_list_filter in He as [_ He]. apply (or_wires _ Ho). by rewrite elem_of_edge_list.
  - destruct Ho as [Hn Hw Hti Ha]. split; [done| |done|].
    { intros e He. apply elem_of_edge_list, elem_of_list_filter in He as [_ He]. apply Hw. by rewrite elem_of_edge_list. }
    eapply acyclic_shrink; [|done].
    intros y z. rewrite !waits_spec. intros [?|(e & He & ?)]; [by left|right].
    apply elem_of_edge_list, elem_of_list_filter in He as [_ He]. exists e. by rewrite elem_of_edge_list.
Qed.

(** Rewiring that says nothing new. *)
Lemma rewired_orderly g edges :
  orderly g → (∀ e, Some e ∈ edges → wf_name (e_From e) ∧ (Blocks (Some e) = true → waits g (e_To e) (e_From e))) →
  orderly (with_edges g edges).
Proof.
  intros [Hn Hw Ht Ha] He. split; [done| |done|].
  - intros e Hin%elem_of_edge_list. by apply He.
  - eapply acyclic_shrink; [|done]. intros x y. rewrite (waits_spec (with_edges g edges)).
    intros [?|(e & Hin%elem_of_edge_list & Hb & <- & <-)]; [apply waits_spec; by left|by apply He].
Qed.

Lemma edge_known g e : orderly g → Some e ∈ Edges g →
  wf_name (e_From e) ∧ (Blocks (Some e) = true → waits g (e_To e) (e_From e)).
Proof.
  intros Ho He. rewrite <- elem_of_edge_list in He. split; [by apply (or_wires _ Ho)|].
  intros Hb. apply waits_spec. right. by exists e.
Qed.

(** The wire a change of style works on is there, and writing it changes no
    dependency. *)
Lemma style_target_spec g from to selected requiresOnly :
  orderly g → style_target g from to = Ok (selected, requiresOnly) →
  let g1 := if requiresOnly then with_edges g (Edges g ++ [Some selected]) else g in
  orderly g1 ∧ node_list g1 = node_list g ∧ find_edge from to (Edges g1) = Some selected.
Proof.
  intros Ho Hs. unfold style_target in Hs. destruct (find_edge from to (Edges g)) as [e|] eqn:Ef.
  - injection Hs as <- <-. done.
  - destruct (NodeByID g from) as [s|] eqn:Es; [|done]. apply bind_ok in Hs as (named & Hn & Hs).
    destruct named; [|done]. injection Hs as <- <-. simpl.
    apply named_node in Es as (_ & Hsin & <-). unfold nodeRequiresRef in Hn.
    destruct (NodeByID g to) as [n|] eqn:En; [|done]. injection Hn as Hn. apply named_node in En as (_ & Hin & <-).
    split_and!; [|done|].
    + apply rewired_orderly; [done|]. intros e [He|He%list_elem_of_singleton]%elem_of_app; [by apply edge_known|].
      simplify_eq. simpl. split; [by apply (or_names _ Ho)|]. intros _. apply waits_spec. left. by exists n.
    + revert Ef. clear. induction (Edges g) as [|[e|] es IH]; simpl; [|destruct (is_edge _ _ e); [done|]|]; auto.
      intros _. unfold is_edge. simpl. by rewrite !String.eqb_refl.
Qed.

(** The two steps after it: the relation with its condition, then the line. *)
Lemma relate_orderly g from to selected next written :
  orderly g → find_edge from to (Edges g) = Some selected → next ≠ e_Relation selected →
  relate g (NodeByID g to) selected next = Ok written →
  let g' := match written with Some (n', _) => put_node g n' | None => g end in
  orderly (with_edges g' (update_edge from to (λ e, set_relation e next) (Edges g'))).
Proof.
  intros Ho Hf Hne Hr. destruct (find_edge_Some _ _ _ _ Hf) as (Hsel & Hfrom & Hto).
  unfold relate in Hr.
  assert (Hedge : ∀ g' e, Edges g' = Edges g → Some e ∈ update_edge from to (λ e, set_relation e next) (Edges g') →
    (Some e ∈ Edges g) ∨ (e = set_relation selected next)).
  { intros g' e -> [?|(e0 & [= <-]%(eq_trans (eq_sym Hf)) & ->)]%elem_of_update_edge; auto. }
  assert (Hnames : ∀ g' e, Edges g' = Edges g → Some e ∈ update_edge from to (λ e, set_relation e next) (Edges g') →
    wf_name (e_From e)).
  { intros g' e Heq [?| ->]%Hedge; [by apply (edge_known g)|by apply (edge_known g selected)|done]. }
  destruct (Blocks (Some selected) && negb (String.eqb next RelationRequired)) eqn:E1;
    [|destruct (negb (Blocks (Some selected)) && String.eqb next RelationRequired) eqn:E2].
  - op_inv. match goal with H1 : NodeByID g _ = Some ?t |- _ => apply named_node in H1 as (_ & Ht & Htid) end.
    destruct x as [n' changed]. simpl.
    match goal with H1 : pruneNodeRequirement _ _ = Ok _ |- _ => apply prune_requirement_spec in H1 as (Hid & Htidy & Hrefs) end;
      [|by apply (or_tidy _ Ho)].
    apply andb_true_iff in E1 as [_ E1]. apply negb_true_iff in E1.
    eapply shrunk_orderly; [done|exact Ht|done|done|naive_solver| | |].
    + intros m Hm%elem_of_put_node. done.
    + intros e He Hb. apply elem_of_edge_list in He. apply Hedge in He as [He| ->]; [|simpl in Hb; congruence|done].
      left. exists e. by rewrite elem_of_edge_list.
    + intros e He%elem_of_edge_list. by eapply Hnames.
  - op_inv. match goal with H1 : NodeByID g _ = Some ?t |- _ => apply named_node in H1 as (_ & Ht & Htid) end.
    match goal with y : Node * bool |- _ => destruct y as [n' changed] end. simpl.
    eapply grown_orderly; [done|exact Ht| |eassumption|eassumption| | |].
    + by apply (edge_known g selected).
    + intros m Hm%elem_of_put_node. done.
    + intros e He Hb. apply elem_of_edge_list in He. apply Hedge in He as [He| ->]; [|right; simpl; split; congruence|done].
      left. exists e. by rewrite elem_of_edge_list.
    + intros e He%elem_of_edge_list. by eapply Hnames.
  - injection Hr as <-. apply rewired_orderly; [done|].
    intros e [He| ->]%Hedge; [by apply edge_known| |done]. split; [by apply (edge_known g selected)|].
    simpl. intros Hb. exfalso. rewrite Hb in E1, E2. simpl in *. destruct (String.eqb (e_Relation selected) RelationRequired) eqn:E;
      [|simpl in *; congruence]. apply String.eqb_eq in E, Hb. congruence.
Qed.

Lemma op_set_edge_style_orderly g op touched g' touched' :
  orderly g → op_set_edge_style actor g op touched = Ok (g', touched') → orderly g'.
Proof.
  intros Ho Hop. unfold op_set_edge_style in Hop.
  destruct (bool_decide _ && bool_decide _); [done|]. apply bind_ok in Hop as ([selected requiresOnly] & Hs & Hop).
  apply allowed_ok in Hop as [_ Hop]. apply allowed_ok in Hop as [_ Hop]. apply guard_op_ok in Hop as [_ Hop].
  destruct (style_target_spec _ _ _ _ _ Ho Hs) as (Ho1 & _ & Hf). simpl in *.
  set (g1 := if requiresOnly then _ else _) in *. clearbody g1.
  apply bind_ok in Hop as ([g2 touched2] & H2 & Hop). injection Hop as <- <-.
  assert (Ho2 : orderly g2).
  { destruct (String.eqb_spec (default (e_Relation selected) (op_Relation op)) (e_Relation selected)) as [Heq|Hne].
    - by injection H2 as <- <-.
    - apply guard_op_ok in H2 as [_ H2]. apply guard_op_ok in H2 as [_ H2]. apply bind_ok in H2 as (written & Hw & H2).
      injection H2 as <- <-. by eapply relate_orderly. }
  destruct (op_Line op) as [line|]; [|done]. apply rewired_orderly; [done|].
  intros e [He|(e0 & He0 & ->)]%elem_of_update_edge; [by apply edge_known|].
  apply find_edge_Some in He0 as (He0 & _ & _). by apply edge_known in He0.
Qed.

(** Every operation keeps a graph in order. *)
Lemma op_orderly g op touched g' touched' :
  orderly g → applyGraphOp actor createdBy g op touched = Ok (g', touched') → orderly g'.
Proof.
  intros Ho Hop. destruct (decide (op_Kind op ∈ ["add-edge"; "remove-edge"; "set-edge-style"])) as [Hk|Hk].
  - unfold applyGraphOp in Hop. repeat (apply elem_of_cons in Hk as [Hk|Hk]; [rewrite Hk in Hop; simpl in Hop|]).
    + by eapply op_add_edge_orderly.
    + by eapply op_remove_edge_orderly.
    + by eapply op_set_edge_style_orderly.
    + set_solver.
  - eapply anatomy_orderly; [|done]. by eapply quiet_ops.
Qed.

Lemma ops_orderly ops g touched g' touched' :
  orderly g → apply_ops actor createdBy g ops touched = Ok (g', touched') → orderly g'.
Proof.
  revert g touched. induction ops as [|op ops IH]; intros g touched Ho; simpl.
  - by intros [= <- <-].
  - intros ([g1 touched1] & H1 & H2)%bind_ok. eapply IH; [|done]. by eapply op_orderly.
Qed.
End Orderly.
