(* ===== verification/GraphStore.v ===== *)
(** What a graph must satisfy to be written (internal/store/graph_validate.go),
    what writing repairs on the way (graph_requires_wires.go,
    graph_cleanup.go), and the commit of a batch of graph commands
    (graph_ops.go, graph_ops_batch.go). *)

From S2P Require Import Prelude GoStr GoFloat GoTime Dsl Graph NodeTypes Workflow Roles State Readiness Cycles Validate Permission GraphOps.
From Stdlib Require Import Ascii.
Open Scope Z_scope.

Definition MaxGraphNodes : nat := Z.to_nat 10000.
Definition maxGraphEdges : nat := Z.to_nat 50000.
Definition maxGraphUsers : nat := Z.to_nat 10000.
Definition maxLogicGates : nat := Z.to_nat 10000.
Definition maxNodeLinks : nat := 64.
Definition maxText : nat := Z.to_nat (Z.shiftl 64 10).

(** More than [limit] entries. *)
Definition above (limit n : nat) : bool := (limit <? n)%nat.

(** The refusals: what is wrong, and with which entry. *)
Inductive StorageError :=
  | GraphIsNull
  | TooManyOf (what : string)
  | OversizedText (node : string)
  | BadNodeTypes (ps : list TypeProblem)
  | UnknownOfficeStyle (style : string)
  | BadAgentRoles (ps : list RoleProblem)
  | BadGraphWorkflow (e : WorkflowError)
  | BadCriteria (e : AcceptanceError)
  | InvalidId (what id : string)
  | DuplicateId (what id : string)
  | BadName (what id : string)
  | NullNode (index : nat)
  | NullEdge (index : nat)
  | InvalidField (what owner value : string)
  | UnknownId (what owner id : string)
  | InvalidNumbers (what id : string).

Abbreviation stored A := (outcome StorageError A).

(** * Repairs *)

(** strings.Cut s "->": the parts around the first arrow. *)
Definition cut_arrow (s : string) : option (string * string) :=
  match str_index s "->" with
  | Some i => Some (str_take i s, str_drop (i + 2) s)
  | None => None
  end.

(** strings.Cut s ":" and its first part. *)
Definition before_colon (s : string) : string :=
  match split_char ":" s with x :: _ => x | [] => s end.

Definition live_edges (g : Graph) : gset string := edge_keys g.

(** The nodes by id; the first of an id wins, as NodeByID has it. *)
Definition live_nodes (g : Graph) : gset string := list_to_set (n_ID <$> node_list g).

(** gateFor: the first gate that drives each output. *)
Definition gate_for (gates : list LogicGate) (output : string) : option LogicGate :=
  find (λ gate, existsb (String.eqb output) (OutputNodes gate)) gates.

Definition gated (gates : list LogicGate) (from to : string) : bool :=
  match gate_for gates to with
  | None => false
  | Some gate => if negb (relationGateOperator (lg_Operator gate)) then true else existsb (String.eqb from) (Inputs gate)
  end.

Section Storage.
Context `{Unicode}.

(** The edge a decorated wire stands for, when it is named only in requires. *)
Definition wire_edge (g : Graph) (live : gset string) (key : string) : option Edge :=
  if bool_decide (key ∈ live) || has_prefix key "gate:" || has_prefix key "logic:" then None
  else match cut_arrow key with
       | None => None
       | Some (from, to) =>
           if String.eqb from EmptyString || String.eqb to EmptyString || String.eqb from to then None
           else match NodeByID g from, NodeByID g to with
                | Some _, Some target =>
                    if requires_ref (n_Requires target) from && negb (gated (gates_of g) from to)
                    then Some (mkEdge from to RelationRequired EmptyString) else None
                | _, _ => None
                end
       end.

(** consider, over the keys of the two maps: the edges written so far are
    live. *)
Fixpoint consider_keys (g : Graph) (live : gset string) (keys : list string) : list Edge :=
  match keys with
  | [] => []
  | key :: keys' =>
      match wire_edge g live key with
      | Some e => e :: consider_keys g ({[ key ]} ∪ live) keys'
      | None => consider_keys g live keys'
      end
  end.

Definition decoration_keys (ui : UIState) : list string :=
  (map_to_list (ui_WireVertices ui)).*1 ++ (map_to_list (ui_EdgeLabels ui)).*1.

Definition materializeRequiresWires (g : Graph) : Graph :=
  match UI g with
  | None => g
  | Some ui => with_edges g (Edges g ++ (Some <$> consider_keys g (live_edges g) (decoration_keys ui)))
  end.

(** Whether a bend-point placement still has its wire. *)
Definition wire_alive (g : Graph) (key : string) : bool :=
  match cut_prefix key "gate:" with
  | Some target => bool_decide (target ∈ live_nodes g)
  | None =>
      match cut_prefix key "logic:" with
      | Some rest => existsb (λ gate, String.eqb (lg_ID gate) (before_colon rest)) (gates_of g)
      | None => bool_decide (key ∈ live_edges g)
      end
  end.

Definition pruneEdgeDecorations (g : Graph) : Graph :=
  match UI g with
  | None => g
  | Some ui =>
      with_ui g (Some (set_wires ui (ui_Gates ui)
        (filter (λ kv, kv.1 ∈ live_edges g) (ui_EdgeLabels ui))
        (filter (λ kv, wire_alive g kv.1 = true) (ui_WireVertices ui))))
  end.
End Storage.

(** * One node *)

Section NodeStorage.
Context `{Unicode}.

Definition oversized (s : string) : bool := above maxText (String.length s).

Definition checkNodeTextSize (n : Node) : stored unit :=
  refuse (oversized (n_Requires n) || oversized (n_Title n)) (OversizedText (n_ID n)).

(** unicode.IsControl. *)
Definition is_control (r : Z) : bool := in_range 0 31 r || in_range 127 159 r.

Definition set_access (n : Node) (access : string) : Node :=
  mkNode (n_ID n) (n_Title n) (n_Kind n) (n_Priority n) (n_Assignee n) (n_Deadline n)
    access (n_Requires n) (n_Tags n) (n_Effects n) (n_Links n) (n_Refs n) (n_Acceptance n) (n_Workflow n).

Definition blank_or_long (limit : nat) (s : string) : bool :=
  String.eqb (trim_space s) EmptyString || above limit (String.length s).

Definition link_check (n : Node) (link : NodeLinkRef) : stored unit :=
  _ ← refuse (negb (ValidNodeID (nl_Node link))) (InvalidId "link" (nl_Node link));
  let label := trim_space (nl_Label link) in
  _ ← refuse (String.eqb label EmptyString || above 128 (String.length label)) (BadName "link" (n_ID n));
  refuse (negb (String.eqb (nl_Project link) EmptyString) && negb (ValidProjectRef (nl_Project link)))
    (InvalidId "project" (nl_Project link)).

Definition ref_check (n : Node) (seen : gset string) (ref : string) : stored (gset string) :=
  _ ← refuse (negb (ValidNodeID ref)) (InvalidId "reference" ref);
  _ ← refuse (String.eqb ref (n_ID n)) (InvalidField "reference" (n_ID n) ref);
  _ ← refuse (bool_decide (ref ∈ seen)) (DuplicateId "reference" ref);
  Ok ({[ ref ]} ∪ seen).

(** validateNodeForStorage: the node it leaves behind, its write access in the
    stored form. *)
Definition validateNodeForStorage (users : gset string) (n : Node) : stored Node :=
  _ ← checkNodeTextSize n;
  _ ← refuse (above 64 (String.length (n_Kind n)) || existsb is_control (runes (n_Kind n)))
        (InvalidField "type" (n_ID n) (n_Kind n));
  _ ← refuse (negb (one_of (n_Priority n) [EmptyString; "urgent"; "high"; "medium"; "low"]))
        (InvalidField "priority" (n_ID n) (n_Priority n));
  let n := set_access n (normalizeWriteAccess (n_WriteAccess n)) in
  _ ← refuse (negb (one_of (n_WriteAccess n) accesses)) (InvalidField "write_access" (n_ID n) (n_WriteAccess n));
  _ ← refuse (above 64 (length (n_Tags n))) (TooManyOf "tags");
  _ ← refuse (existsb (blank_or_long 128) (n_Tags n)) (InvalidField "tag" (n_ID n) EmptyString);
  _ ← refuse (negb (String.eqb (n_Assignee n) EmptyString) && negb (bool_decide (n_Assignee n ∈ users)))
        (UnknownId "assignee" (n_ID n) (n_Assignee n));
  _ ← refuse (existsb (λ e, above 4096 (String.length (ef_Set e))) (n_Effects n)) (OversizedText (n_ID n));
  _ ← refuse (above maxNodeLinks (length (n_Links n))) (TooManyOf "links");
  _ ← fold_checks (λ _, link_check n) tt (n_Links n);
  _ ← refuse (above maxNodeRefs (length (n_Refs n))) (TooManyOf "references");
  _ ← fold_checks (ref_check n) ∅ (n_Refs n);
  Ok n.

(** * Acceptance, users, nodes and edges *)

Definition user_check (seen : gset string * gset string) (u : User) : stored (gset string * gset string) :=
  let '(ids, names) := seen in
  _ ← refuse (negb (ValidNodeID (u_ID u))) (InvalidId "user" (u_ID u));
  let name := trim_space (u_Name u) in
  _ ← refuse (String.eqb name EmptyString || above 256 (String.length name)) (BadName "user" (u_ID u));
  _ ← refuse (bool_decide (u_ID u ∈ ids)) (DuplicateId "user" (u_ID u));
  _ ← refuse (bool_decide (to_lower name ∈ names)) (DuplicateId "user name" name);
  Ok ({[ u_ID u ]} ∪ ids, {[ to_lower name ]} ∪ names).

(** A node's criteria with ids; the type is judged on the graph. *)
Definition number_acceptance (n : Node) : Node :=
  match n_Acceptance n with
  | None => n
  | Some a => with_acceptance n (Some (mkAcceptance (default [] (AssignAcceptanceIDs (Some (acc_Items a))))
                                        (acc_Locked a) (acc_By a)))
  end.

Definition acceptance_check (g : Graph) (n : option Node) : stored (option Node) :=
  match n with
  | None => Ok None
  | Some n =>
      let n' := number_acceptance n in
      match ValidateNodeAcceptance (Some g) (Some n') with
      | Some e => Fail (BadCriteria e)
      | None => Ok (Some n')
      end
  end.

(** One step of the loop over the nodes: what it has stored, the ids so far. *)
Definition node_check (users : gset string) (st : list (option Node) * gset string) (n : option Node)
    : stored (list (option Node) * gset string) :=
  let '(out, ids) := st in
  match n with
  | None => Fail (NullNode (length out))
  | Some n =>
      _ ← refuse (negb (ValidNodeID (n_ID n))) (InvalidId "node" (n_ID n));
      _ ← refuse (bool_decide (n_ID n ∈ ids)) (DuplicateId "node" (n_ID n));
      n' ← validateNodeForStorage users n;
      Ok (out ++ [Some n'], {[ n_ID n ]} ∪ ids)
  end.

Definition relations : list string := [RelationRequired; RelationOptional; RelationDeprecated].
Definition lines : list string := [EmptyString; "solid"; "dashed"; "dotted"].

Definition edge_check (index : nat) (e : option Edge) : stored nat :=
  match e with
  | None => Fail (NullEdge index)
  | Some e =>
      _ ← refuse (negb (one_of (e_Relation e) relations)) (InvalidField "relation" (e_To e) (e_Relation e));
      _ ← refuse (negb (one_of (e_Line e) lines)) (InvalidField "line" (e_To e) (e_Line e));
      Ok (S index)
  end.
End NodeStorage.

(** * Editor data *)

Section EditorStorage.
Context `{Unicode}.
Variable ids : gset string.

Definition known (what owner id : string) : stored unit :=
  refuse (negb (bool_decide (id ∈ ids))) (UnknownId what owner id).

(** A list of known ids without repetition: the set of them. *)
Definition listed (what owner : string) (seen : gset string) (id : string) : stored (gset string) :=
  _ ← known what owner id;
  _ ← refuse (bool_decide (id ∈ seen)) (DuplicateId what id);
  Ok ({[ id ]} ∪ seen).

Definition placement_check (_ : unit) (kv : string * GatePlacement) : stored unit :=
  let '(id, p) := kv in
  _ ← known "gate placement" EmptyString id;
  match gp_X p, gp_Y p with
  | Some x, Some y => refuse (not_finite x || not_finite y) (InvalidNumbers "gate placement" id)
  | None, None => refuse (bad_ratio (default f_zero (gp_Ratio p))) (InvalidNumbers "gate placement" id)
  | _, _ => Fail (InvalidNumbers "gate placement" id)
  end.

Definition built_in_statuses : gset string := {[ StatusStarted; StatusInProgress; StatusDone ]}.

Definition plan_status_check (seen : gset string * gset string) (d : PlanStatusDefinition)
    : stored (gset string * gset string) :=
  let '(statuses, labels) := seen in
  _ ← refuse (negb (has_prefix (psd_ID d) "custom-") || negb (ValidNodeID (psd_ID d))) (InvalidId "plan status" (psd_ID d));
  let label := trim_space (psd_Label d) in
  _ ← refuse (String.eqb label EmptyString || above 128 (String.length label)) (BadName "plan status" (psd_ID d));
  _ ← refuse (bool_decide (psd_ID d ∈ statuses)) (DuplicateId "plan status" (psd_ID d));
  _ ← refuse (bool_decide (to_lower label ∈ labels)) (DuplicateId "plan status label" label);
  Ok ({[ psd_ID d ]} ∪ statuses, {[ to_lower label ]} ∪ labels).

Definition gate_operators : list string := ["must"; "and"; "or"; "xor"; "nand"; "nor"; "optional"; "deprecated"].

(** The outputs of one gate: known, distinct and owned by no earlier gate. *)
Definition output_check (st : gset string * gset string) (output : string) : stored (gset string * gset string) :=
  let '(seen, owned) := st in
  seen' ← listed "gate output" EmptyString seen output;
  _ ← refuse (bool_decide (output ∈ owned)) (DuplicateId "gate output" output);
  Ok (seen', {[ output ]} ∪ owned).

(** One gate; the ids and the outputs of the gates before it. *)
Definition logic_gate_check (st : gset string * gset string) (gate : LogicGate) : stored (gset string * gset string) :=
  let '(gateIDs, owned) := st in
  _ ← refuse (negb (ValidNodeID (lg_ID gate))) (InvalidId "logic gate" (lg_ID gate));
  _ ← refuse (bool_decide (lg_ID gate ∈ gateIDs)) (DuplicateId "logic gate" (lg_ID gate));
  _ ← refuse (negb (one_of (lg_Operator gate) gate_operators)) (InvalidField "operator" (lg_ID gate) (lg_Operator gate));
  _ ← refuse (not_finite (lg_X gate) || not_finite (lg_Y gate)) (InvalidNumbers "logic gate" (lg_ID gate));
  _ ← refuse (above MaxGraphNodes (length (Inputs gate))) (TooManyOf "gate inputs");
  _ ← fold_checks (listed "gate input" (lg_ID gate)) ∅ (Inputs gate);
  _ ← refuse (String.eqb (lg_Operator gate) "must" && above 1 (length (Inputs gate))) (TooManyOf "MUST inputs");
  _ ← refuse (above 1 (length (OutputNodes gate)) && negb (relationGateOperator (lg_Operator gate))) (TooManyOf "gate outputs");
  '(_, owned') ← fold_checks output_check (∅, owned) (OutputNodes gate);
  _ ← refuse (above maxText (String.length (lg_Applied gate))) (OversizedText (lg_ID gate));
  Ok ({[ lg_ID gate ]} ∪ gateIDs, owned').

Definition milestone_check (statuses : gset string) (owner : string) (_ : unit) (plan : PlanMilestone) : stored unit :=
  _ ← refuse (negb (bool_decide (pm_Status plan ∈ statuses))) (InvalidField "plan status" owner (pm_Status plan));
  refuse (above 4096 (String.length (pm_Note plan))) (OversizedText owner).

Definition plans_check (statuses : gset string) (_ : unit) (kv : string * list PlanMilestone) : stored unit :=
  _ ← refuse (above 32 (length kv.2)) (TooManyOf "milestones");
  fold_checks (milestone_check statuses kv.1) tt kv.2.

(** cssColor and safeCSSColor. *)
Definition css_char (c : ascii) : bool :=
  ascii_letter c || is_digit c || has_char c "#(),.% -".
Definition safeCSSColor (v : string) : bool := (String.length v <=? 32)%nat && str_all css_char v.

Definition style_check (_ : unit) (kv : string * NodeStyle) : stored unit :=
  let '(id, s) := kv in
  _ ← known "node style" EmptyString id;
  _ ← refuse (not_finite (ns_Width s) || not_finite (ns_Height s)
              || bad_dimension (ns_Width s) 120 360 || bad_dimension (ns_Height s) 52 180) (InvalidNumbers "node style" id);
  refuse (negb (safeCSSColor (ns_Color s)) || negb (safeCSSColor (ns_TextColor s)) || negb (safeCSSColor (ns_BorderColor s)))
    (InvalidField "color" id EmptyString).

Definition override_check (_ : unit) (kv : string * bool) : stored unit := known "entry override" EmptyString kv.1.

(** validateDecoration on the fields of a group or an annotation. *)
Definition decoration_check (seen : gset string) (d : string * (float64 * float64 * float64 * float64) * string * string)
    : stored (gset string) :=
  let '(id, (x, y, w, h), text, color) := d in
  _ ← refuse (negb (ValidNodeID id)) (InvalidId "decoration" id);
  _ ← refuse (bool_decide (id ∈ seen)) (DuplicateId "decoration" id);
  _ ← refuse (not_finite x || not_finite y || not_finite w || not_finite h || f_ltb x f_zero || f_ltb y f_zero
              || outside w (f_of_int 80) (f_of_int 10000) || outside h (f_of_int 60) (f_of_int 10000))
        (InvalidNumbers "decoration" id);
  _ ← refuse (above maxText (String.length text)) (OversizedText id);
  _ ← refuse (negb (safeCSSColor color)) (InvalidField "color" id color);
  Ok ({[ id ]} ∪ seen).

Definition decorations (ui : UIState) : list (string * (float64 * float64 * float64 * float64) * string * string) :=
  ((λ c, (cg_ID c, (cg_X c, cg_Y c, cg_Width c, cg_Height c), cg_Title c, cg_Color c)) <$> ui_Groups ui)
  ++ ((λ c, (ca_ID c, (ca_X c, ca_Y c, ca_Width c, ca_Height c), ca_Text c, ca_Color c)) <$> ui_Annotations ui).

Definition view_check (seen : gset string) (v : SavedView) : stored (gset string) :=
  _ ← refuse (negb (ValidNodeID (sv_ID v)) || String.eqb (trim_space (sv_Name v)) EmptyString
              || above 128 (String.length (sv_Name v))) (InvalidId "saved view" (sv_ID v));
  _ ← refuse (bool_decide (sv_ID v ∈ seen)) (DuplicateId "saved view" (sv_ID v));
  _ ← refuse (negb (one_of (sv_Sort v) [EmptyString; "manual"; "title"; "priority"; "status"; "assignee"]))
        (InvalidField "sort" (sv_ID v) (sv_Sort v));
  Ok ({[ sv_ID v ]} ∪ seen).

(** The checks of graph.UI. *)
Definition editor_check (ui : UIState) : stored unit :=
  _ ← refuse (above MaxGraphNodes (length (ui_TimelineOrder ui))) (TooManyOf "timeline order");
  _ ← fold_checks (listed "timeline order" EmptyString) ∅ (ui_TimelineOrder ui);
  _ ← refuse (above MaxGraphNodes (size (ui_Gates ui))) (TooManyOf "gate placements");
  _ ← fold_checks placement_check tt (map_to_list (ui_Gates ui));
  _ ← refuse (above 64 (length (ui_PlanStatuses ui))) (TooManyOf "plan statuses");
  '(statuses, _) ← fold_checks plan_status_check (built_in_statuses, ∅) (ui_PlanStatuses ui);
  _ ← refuse (above maxLogicGates (length (ui_LogicGates ui))) (TooManyOf "logic gates");
  _ ← fold_checks logic_gate_check (∅, ∅) (ui_LogicGates ui);
  _ ← fold_checks (plans_check statuses) tt (map_to_list (ui_Plans ui));
  _ ← refuse (above MaxGraphNodes (size (ui_NodeStyles ui))) (TooManyOf "node styles");
  _ ← refuse (above MaxGraphNodes (size (ui_EntryOverrides ui))) (TooManyOf "entry overrides");
  _ ← fold_checks override_check tt (map_to_list (ui_EntryOverrides ui));
  _ ← fold_checks style_check tt (map_to_list (ui_NodeStyles ui));
  _ ← refuse (above 512 (length (ui_Groups ui)) || above 512 (length (ui_Annotations ui))) (TooManyOf "decorations");
  _ ← fold_checks decoration_check ∅ (decorations ui);
  _ ← refuse (above 128 (length (ui_SavedViews ui))) (TooManyOf "saved views");
  _ ← fold_checks view_check ∅ (ui_SavedViews ui);
  Ok tt.
End EditorStorage.

(** * The whole graph *)

Definition OfficeStyles : list string := ["default"; "engineering"; "study"; "studio"; "cafe"].
Definition ValidOfficeStyle (s : string) : bool := String.eqb s EmptyString || one_of s OfficeStyles.

Section GraphStorage.
Context `{Unicode}.

(** The sizes checked before the repairs. *)
Definition size_check (g : Graph) : stored unit :=
  _ ← refuse (above MaxGraphNodes (length (Nodes g))) (TooManyOf "nodes");
  _ ← refuse (above maxGraphEdges (length (Edges g))) (TooManyOf "edges");
  _ ← refuse (above maxLogicGates (length (gates_of g))) (TooManyOf "logic gates");
  fold_checks (λ _ n, match n with Some n => checkNodeTextSize n | None => Ok tt end) tt (Nodes g).

(** What the repairs of a graph leave behind. *)
Definition repaired (g : Graph) : Graph := pruneEdgeDecorations (materializeRequiresWires g).

Definition of_problems {E A} (m : outcome E A) (f : E → StorageError) : stored A :=
  match m with Ok a => Ok a | Fail e => Fail (f e) | Panic => Panic | OutOfFuel => OutOfFuel end.

Definition of_option {E} (o : option E) (f : E → StorageError) : stored unit :=
  match o with None => Ok tt | Some e => Fail (f e) end.

Definition ValidateGraphForStorage (g : option Graph) : stored Graph :=
  match g with
  | None => Fail GraphIsNull
  | Some g =>
      _ ← size_check g;
      let g := repaired g in
      _ ← refuse (above maxGraphEdges (length (Edges g))) (TooManyOf "edges");
      _ ← refuse (above maxGraphUsers (length (Users g))) (TooManyOf "users");
      _ ← of_problems (ValidateNodeTypeDefs (NodeTypes g)) BadNodeTypes;
      _ ← refuse (negb (ValidOfficeStyle (OfficeStyle g))) (UnknownOfficeStyle (OfficeStyle g));
      _ ← of_problems (ValidateAgentRoleDefs (AgentRoles g)) BadAgentRoles;
      _ ← of_option (ValidateGraphWorkflows (Some g)) BadGraphWorkflow;
      numbered ← map_checks (acceptance_check g) (Nodes g);
      '(users, _) ← fold_checks user_check (∅, ∅) (Users g);
      '(nodes, ids) ← fold_checks (node_check users) ([], ∅) numbered;
      _ ← fold_checks edge_check 0%nat (Edges g);
      _ ← (match UI g with Some ui => editor_check ids ui | None => Ok tt end);
      Ok (with_nodes g nodes)
  end.
End GraphStorage.
