(* ===== verification/GraphStoreFacts.v ===== *)
(** What passing ValidateGraphForStorage means (internal/store/graph_validate.go):
    the graph it leaves is well formed, in order when it was, and passes again
    unchanged. *)

From S2P Require Import Prelude GoStr GoFloat GoTime Dsl DslFacts DslRoundtrip Graph NodeTypes Workflow Roles State Readiness Cycles Validate Permission GraphOps GraphOpsFacts GraphStore.
From stdpp Require Import relations.
Open Scope Z_scope.

(** * The checks, one at a time *)

(** Takes a passed sequence of checks apart. *)
Ltac checks_inv :=
  repeat match goal with
         | H : _ ≫= _ = Ok _ |- _ => apply bind_ok in H as (? & ? & H)
         | H : refuse _ _ = Ok _ |- _ => apply refuse_ok in H
         | H : (let '(_, _) := ?p in _) = Ok _ |- _ => destruct p eqn:?
         | H : Ok _ = Ok _ |- _ => injection H as H
         | H : (_, _) = (_, _) |- _ => injection H as ? ?
         | x : () |- _ => destruct x
         end; subst.

(** A fold that collects distinct, individually checked entries. *)
Lemma fold_checks_unit {E A} (f : A → outcome E unit) xs :
  fold_checks (λ _, f) tt xs = Ok tt ↔ ∀ x, x ∈ xs → f x = Ok tt.
Proof.
  induction xs as [|x xs IH]; simpl; [set_solver|]. rewrite bind_ok. split.
  - intros ([] & Hx & Hxs) y [->|Hy]%elem_of_cons; [done|]. by apply IH.
  - intros Hall. exists tt. split; [apply Hall; by left|]. apply IH. intros y Hy. apply Hall. by right.
Qed.

Lemma fold_distinct {E A} (f : gset string → A → outcome E (gset string)) (key : A → string) (P : A → Prop) seen xs seen' :
  (∀ s x s', f s x = Ok s' → key x ∉ s ∧ s' = {[ key x ]} ∪ s ∧ P x) →
  fold_checks f seen xs = Ok seen' →
  NoDup (key <$> xs) ∧ (∀ x, x ∈ xs → key x ∉ seen ∧ P x) ∧ seen' = list_to_set (key <$> xs) ∪ seen.
Proof.
  intros Hf. revert seen. induction xs as [|x xs IH]; intros seen; simpl.
  - intros [= <-]. split_and!; [constructor|set_solver|set_solver].
  - intros (s & (Hk & -> & HP)%Hf & Hrest)%bind_ok. apply IH in Hrest as (Hnd & Hall & ->).
    split_and!.
    + constructor; [|done]. intros (y & Hy & Hin)%list_elem_of_fmap. apply Hall in Hin as [Hin _]. set_solver.
    + intros y [->|Hy]%elem_of_cons; [done|]. apply Hall in Hy as [Hy ?]. set_solver.
    + set_solver.
Qed.

Section Nodes.
Context `{Unicode}.

Lemma normalizeWriteAccess_idem v : normalizeWriteAccess (normalizeWriteAccess v) = normalizeWriteAccess v.
Proof. unfold normalizeWriteAccess. destruct (String.eqb v "all") eqn:E; [done|]. by rewrite E. Qed.

Lemma validateNode_set users n :
  validateNodeForStorage users (set_access n (normalizeWriteAccess (n_WriteAccess n))) = validateNodeForStorage users n.
Proof.
  destruct n as [id title kind priority assignee deadline access requires tags effects links refs acc wf].
  unfold validateNodeForStorage, checkNodeTextSize, set_access.
  cbn [n_ID n_Title n_Kind n_Priority n_Assignee n_Deadline n_WriteAccess n_Requires n_Tags n_Effects n_Links n_Refs
    n_Acceptance n_Workflow]. by rewrite normalizeWriteAccess_idem.
Qed.

Lemma validateNode_ok users n m :
  validateNodeForStorage users n = Ok m →
  m = set_access n (normalizeWriteAccess (n_WriteAccess n)) ∧ validateNodeForStorage users m = Ok m.
Proof.
  intros Hv. assert (Hm : m = set_access n (normalizeWriteAccess (n_WriteAccess n))).
  { unfold validateNodeForStorage in Hv. checks_inv. done. }
  split; [done|]. by rewrite Hm, validateNode_set, <- Hm.
Qed.

Lemma assign_ids_id m items : (∀ i, i ∈ items → ai_ID i ≠ EmptyString) → assign_ids m items = items.
Proof.
  revert m. induction items as [|i items IH]; intros m Hall; simpl; [done|].
  rewrite (proj2 (String.eqb_neq _ _)) by (apply Hall; by left). f_equal. apply IH. intros j Hj. apply Hall. by right.
Qed.

Lemma assign_ids_nonempty m items i : i ∈ assign_ids m items → ai_ID i ≠ EmptyString.
Proof.
  revert m. induction items as [|j items IH]; intros m; simpl; [set_solver|].
  destruct (String.eqb_spec (ai_ID j) EmptyString); intros [->|Hi]%elem_of_cons; eauto.
Qed.

Lemma number_acceptance_idem n : number_acceptance (number_acceptance n) = number_acceptance n.
Proof.
  unfold number_acceptance. destruct (n_Acceptance n) as [a|] eqn:E; simpl; [|by rewrite E].
  rewrite (assign_ids_id _ (assign_ids _ _)); [done|]. intros i. apply assign_ids_nonempty.
Qed.

(** The type of a node depends on the project's types and its kind. *)
Lemma TypeOf_same g g' n n' : NodeTypes g = NodeTypes g' → n_Kind n = n_Kind n' →
  TypeOf (Some g) (Some n) = TypeOf (Some g') (Some n').
Proof.
  intros Ht Hk. unfold TypeOf, TypeOfKind, nodeTypeByID, ResolvedNodeTypes, stored_types. by rewrite Ht, Hk.
Qed.

Lemma ValidateNodeAcceptance_same g g' n n' : NodeTypes g = NodeTypes g' → n_Kind n = n_Kind n' → n_ID n = n_ID n' →
  n_Acceptance n = n_Acceptance n' →
  ValidateNodeAcceptance (Some g) (Some n) = ValidateNodeAcceptance (Some g') (Some n').
Proof.
  intros Ht Hk Hid Ha. unfold ValidateNodeAcceptance, AcceptanceAllowed.
  by rewrite (TypeOf_same g g' n n' Ht Hk), Ha, Hid.
Qed.

(** What the two passes over the nodes do to one node. *)
Definition stored_node (n : Node) : Node :=
  set_access (number_acceptance n) (normalizeWriteAccess (n_WriteAccess n)).

Lemma stored_node_fields n :
  n_ID (stored_node n) = n_ID n ∧ n_Requires (stored_node n) = n_Requires n ∧ n_Kind (stored_node n) = n_Kind n ∧
  n_Title (stored_node n) = n_Title n ∧ n_Workflow (stored_node n) = n_Workflow n ∧
  n_Acceptance (stored_node n) = n_Acceptance (number_acceptance n) ∧
  n_WriteAccess (number_acceptance n) = n_WriteAccess n.
Proof. unfold stored_node, number_acceptance. destruct (n_Acceptance n); done. Qed.

Lemma acceptance_pass g nodes numbered :
  map_checks (acceptance_check g) nodes = Ok numbered →
  numbered = option_map number_acceptance <$> nodes ∧
  ∀ n, Some n ∈ nodes → ValidateNodeAcceptance (Some g) (Some (number_acceptance n)) = None.
Proof.
  rewrite map_checks_ok. induction 1 as [|[n|] y ns ys Hy _ [-> IH]]; [split; [done|set_solver]|..];
    unfold acceptance_check in Hy; rewrite fmap_cons; cbn [option_map].
  - destruct (ValidateNodeAcceptance (Some g) (Some (number_acceptance n))) eqn:E; [done|]. injection Hy as <-. split; [done|].
    intros m [[= ->]|Hm]%elem_of_cons; auto.
  - injection Hy as <-. split; [done|]. intros m [Hm|Hm]%elem_of_cons; [done|auto].
Qed.

Lemma node_pass users out ids nodes out' ids' :
  fold_checks (node_check users) (out, ids) nodes = Ok (out', ids') →
  ∃ ns, nodes = Some <$> ns ∧
    out' = out ++ ((λ n, Some (set_access n (normalizeWriteAccess (n_WriteAccess n)))) <$> ns) ∧
    ids' = list_to_set (n_ID <$> ns) ∪ ids ∧ NoDup (n_ID <$> ns) ∧
    ∀ n, n ∈ ns → ValidNodeID (n_ID n) = true ∧ n_ID n ∉ ids ∧ is_Some (match validateNodeForStorage users n with Ok m => Some m | _ => None end).
Proof.
  revert out ids. induction nodes as [|[n|] nodes IH]; intros out ids; simpl; [|intros Hc|done].
  - intros [= <- <-]. exists []. split_and!; [done|by rewrite app_nil_r|set_solver|constructor|set_solver].
  - checks_inv. apply negb_false_iff in H1. apply bool_decide_eq_false in H2.
    destruct (validateNode_ok _ _ _ H3) as [Heq _]. apply IH in Hc as (ns & -> & -> & -> & Hnd & Hall).
    exists (n :: ns). simpl. split_and!; [done| |set_solver| |].
    + rewrite <- (assoc_L (++)). by rewrite Heq.
    + constructor; [|done]. intros (m & Hm & Hin)%list_elem_of_fmap. apply Hall in Hin as (_ & Hin & _). set_solver.
    + intros m [->|Hm]%elem_of_cons; [split_and!; [done|done|rewrite H3; by eexists]|].
      apply Hall in Hm as (? & ? & ?). split_and!; [done|set_solver|done].
Qed.
End Nodes.

(** * The repairs *)

Section Repairs.
Context `{Unicode}.

Lemma wire_edge_spec g live key e : wire_edge g live key = Some e →
  (∃ n, n ∈ node_list g ∧ n_ID n = e_From e) ∧ waits g (e_To e) (e_From e) ∧ e_Relation e = RelationRequired.
Proof.
  unfold wire_edge. intros He. repeat case_match; simplify_eq. cbn [e_From e_To e_Relation].
  match goal with H1 : NodeByID g ?from = Some ?s, H2 : NodeByID g ?to = Some ?t |- _ =>
    apply named_node in H1 as (_ & Hs & Hsid); apply named_node in H2 as (_ & Ht & Htid) end.
  split_and!; [eauto| |done]. apply waits_spec. left. eexists. split_and!; [exact Ht|done|].
  match goal with H1 : _ && _ = true |- _ => by apply andb_true_iff in H1 as [? _] end.
Qed.

Lemma consider_keys_spec g live keys e : e ∈ consider_keys g live keys → ∃ live' key, wire_edge g live' key = Some e.
Proof.
  revert live. induction keys as [|key keys IH]; intros live; simpl; [set_solver|].
  destruct (wire_edge g live key) as [e'|] eqn:E; [intros [->|?]%elem_of_cons|]; eauto.
Qed.

(** What a repair leaves alone. *)
Lemma repaired_same g :
  Nodes (repaired g) = Nodes g ∧ Users (repaired g) = Users g ∧ NodeTypes (repaired g) = NodeTypes g ∧
  AgentRoles (repaired g) = AgentRoles g ∧ GWorkflow (repaired g) = GWorkflow g ∧ OfficeStyle (repaired g) = OfficeStyle g ∧
  gates_of (repaired g) = gates_of g.
Proof.
  unfold repaired, materializeRequiresWires, pruneEdgeDecorations, gates_of.
  destruct (UI g) as [ui|] eqn:E; simpl; rewrite ?E; done.
Qed.

Lemma repaired_edges g :
  Edges (repaired g) = Edges g ++ (Some <$> match UI g with
                                           | Some ui => consider_keys g (live_edges g) (decoration_keys ui)
                                           | None => []
                                           end).
Proof.
  unfold repaired, materializeRequiresWires, pruneEdgeDecorations.
  destruct (UI g) as [ui|] eqn:E; simpl; rewrite ?E; simpl; [done|]. by rewrite app_nil_r.
Qed.

(** The wires it writes say what the conditions already said. *)
Lemma repaired_orderly g : orderly g → orderly (repaired g).
Proof.
  intros Ho.
  assert (He : orderly (with_edges g (Edges (repaired g)))).
  { rewrite repaired_edges. apply rewired_orderly; [done|]. intros e [He|He]%elem_of_app; [by apply edge_known|].
    apply list_elem_of_fmap in He as (e' & [= <-] & He). destruct (UI g) as [ui|]; [|set_solver].
    apply consider_keys_spec in He as (live & key & ((n & Hn & <-) & Hw & _)%wire_edge_spec).
    split; [by apply (or_names _ Ho)|done]. }
  eapply anatomy_orderly; [|exact He]. unfold anatomy, node_list. simpl.
  destruct (repaired_same g) as (-> & _). done.
Qed.

Lemma repaired_ui g :
  UI (repaired g) = match UI g with
                    | Some ui => Some (set_wires ui (ui_Gates ui)
                        (filter (λ kv, kv.1 ∈ live_edges (repaired g)) (ui_EdgeLabels ui))
                        (filter (λ kv, wire_alive (repaired g) kv.1 = true) (ui_WireVertices ui)))
                    | None => None
                    end.
Proof.
  unfold repaired, materializeRequiresWires, pruneEdgeDecorations.
  destruct (UI g) as [ui|] eqn:E; [|by rewrite E]. simpl. rewrite E. simpl.
  unfold live_edges, edge_keys, wire_alive, live_nodes, gates_of, live_edges, edge_keys, edge_list, node_list. simpl.
  rewrite ?E. done.
Qed.

Lemma wire_edge_dead g key : (wire_alive g key = true ∨ key ∈ live_edges g) → wire_edge g (live_edges g) key = None.
Proof.
  unfold wire_edge, wire_alive, cut_prefix. intros Ha. destruct (bool_decide (key ∈ live_edges g)) eqn:E; [done|].
  apply bool_decide_eq_false in E. destruct (has_prefix key "gate:"); [done|].
  destruct (has_prefix key "logic:"); [done|]. by destruct Ha.
Qed.

Lemma consider_keys_dead g keys :
  (∀ key, key ∈ keys → wire_edge g (live_edges g) key = None) → consider_keys g (live_edges g) keys = [].
Proof.
  induction keys as [|key keys IH]; intros Hall; simpl; [done|].
  rewrite Hall by (by left). apply IH. intros k Hk. apply Hall. by right.
Qed.

(** A graph whose decorations all have their wires needs no repair. *)
Definition decorated (g : Graph) : Prop :=
  match UI g with
  | None => True
  | Some ui =>
      (∀ key, is_Some (ui_EdgeLabels ui !! key) → key ∈ live_edges g) ∧
      (∀ key, is_Some (ui_WireVertices ui !! key) → wire_alive g key = true)
  end.

Lemma with_edges_same g : with_edges g (Edges g) = g.
Proof. by destruct g. Qed.

Lemma set_wires_same ui : set_wires ui (ui_Gates ui) (ui_EdgeLabels ui) (ui_WireVertices ui) = ui.
Proof. by destruct ui. Qed.

Lemma decorated_repaired g : decorated g → repaired g = g.
Proof.
  unfold decorated, repaired, materializeRequiresWires. destruct (UI g) as [ui|] eqn:E.
  - intros [Hl Hv]. rewrite consider_keys_dead.
    + simpl. rewrite app_nil_r, with_edges_same. unfold pruneEdgeDecorations. rewrite E.
      rewrite !map_filter_id.
      * rewrite set_wires_same. clear -E. destruct g; simpl in *. by rewrite E.
      * intros k p Hk. simpl. eauto.
      * intros k p Hk. simpl. eauto.
    + intros key Hk. apply wire_edge_dead. unfold decoration_keys in Hk.
      apply elem_of_app in Hk as [Hk|Hk]; apply list_elem_of_fmap in Hk as ([k v] & -> & Hk%elem_of_map_to_list);
        [left; apply Hv|right; apply Hl]; by eexists.
  - intros _. unfold pruneEdgeDecorations. by rewrite E.
Qed.

Lemma repaired_decorated g : decorated (repaired g).
Proof.
  unfold decorated. pose proof (repaired_ui g) as Hu.
  destruct (UI (repaired g)) as [ui'|], (UI g) as [ui|]; try done. injection Hu as ->.
  split; simpl; intros key [v Hv].
  - by apply map_lookup_filter_Some in Hv as [_ ?].
  - by apply map_lookup_filter_Some in Hv as [_ ?].
Qed.
End Repairs.

(** * The whole check *)

Section Whole.
Context `{Unicode}.

(** The node the node checks store. *)
Definition norm (n : Node) : Node := set_access n (normalizeWriteAccess (n_WriteAccess n)).

Lemma node_pass_again users out ids ns out' ids' out2 :
  fold_checks (node_check users) (out, ids) (Some <$> ns) = Ok (out', ids') →
  fold_checks (node_check users) (out2, ids) (Some <$> (norm <$> ns)) = Ok (out2 ++ (Some <$> (norm <$> ns)), ids').
Proof.
  revert out ids out2. induction ns as [|n ns IH]; intros out ids out2; rewrite ?fmap_cons, ?fmap_nil; cbn [fold_checks].
  - intros [= <- <-]. by rewrite app_nil_r.
  - cbn [node_check]. intros Hc. checks_inv.
    match goal with H1 : validateNodeForStorage users n = Ok _ |- _ => apply validateNode_ok in H1 as [-> Hv] end.
    change (n_ID (norm n)) with (n_ID n). unfold refuse.
    repeat match goal with H1 : ?b = false |- context [if ?b then _ else _] => rewrite H1; cbn [mbind outcome_bind] end.
    fold (norm n) in Hv. rewrite Hv. cbn [mbind outcome_bind]. erewrite IH by done. by rewrite <- (assoc_L (++)).
Qed.

Lemma node_workflows_same g g' ns :
  NodeTypes g = NodeTypes g' → node_workflows g' (Some <$> (stored_node <$> ns)) = node_workflows g (Some <$> ns).
Proof.
  intros Ht. induction ns as [|n ns IH]; [done|]. rewrite !fmap_cons. cbn [node_workflows].
  destruct (stored_node_fields n) as (Hid & _ & Hk & _ & Hw & _). rewrite Hw, Hid, IH.
  by rewrite (TypeOf_same g g' n (stored_node n)).
Qed.

Lemma of_option_ok {E} (o : option E) f u : of_option o f = Ok u ↔ o = None.
Proof. destruct o, u; simpl; naive_solver. Qed.

Lemma of_problems_ok {E A} (m : outcome E A) f a : of_problems m f = Ok a ↔ m = Ok a.
Proof. destruct m; simpl; naive_solver. Qed.

(** What a pass has established. *)
Record pass (g g' : Graph) (ms : list Node) (users ids : gset string) : Prop := {
  pa_nodes : Nodes g = Some <$> ms;
  pa_result : g' = with_nodes (repaired g) (Some <$> (stored_node <$> ms));
  pa_sizes : size_check g = Ok tt;
  pa_edges : above maxGraphEdges (length (Edges (repaired g))) = false;
  pa_users : above maxGraphUsers (length (Users g)) = false;
  pa_types : ValidateNodeTypeDefs (NodeTypes g) = Ok tt;
  pa_style : ValidOfficeStyle (OfficeStyle g) = true;
  pa_roles : ValidateAgentRoleDefs (AgentRoles g) = Ok tt;
  pa_workflows : ValidateGraphWorkflows (Some (repaired g)) = None;
  pa_criteria : ∀ m, m ∈ ms → ValidateNodeAcceptance (Some (repaired g)) (Some (number_acceptance m)) = None;
  pa_people : ∃ names, fold_checks user_check (∅, ∅) (Users g) = Ok (users, names);
  pa_checked : ∃ out, fold_checks (node_check users) ([], ∅) (Some <$> (number_acceptance <$> ms)) = Ok (out, ids);
  pa_lines : is_Some (match fold_checks edge_check 0%nat (Edges (repaired g)) with Ok n => Some n | _ => None end);
  pa_editor : ∀ ui, UI (repaired g) = Some ui → editor_check ids ui = Ok tt;
}.

Lemma validate_pass g g' : ValidateGraphForStorage (Some g) = Ok g' → ∃ ms users ids, pass g g' ms users ids.
Proof.
  intros Hv. unfold ValidateGraphForStorage in Hv.
  destruct (repaired_same g) as (En & Eu & Et & Er & _ & Eo & _). checks_inv.
  repeat match goal with
         | H1 : of_option _ _ = Ok _ |- _ => apply of_option_ok in H1
         | H1 : of_problems _ _ = Ok _ |- _ => apply of_problems_ok in H1
         end.
  match goal with H1 : map_checks _ _ = Ok _ |- _ => apply acceptance_pass in H1 as [-> Hacc] end.
  match goal with H1 : fold_checks (node_check ?u) _ _ = Ok (?o, ?i) |- _ =>
    pose proof (node_pass _ _ _ _ _ _ H1) as (ns & Hns & Hout & Hids & _ & _); exists (omap id (Nodes g)), u, i end.
  rewrite En in *.
  assert (Hms : Nodes g = Some <$> omap id (Nodes g)).
  { clear -Hns. revert ns Hns. induction (Nodes g) as [|[n|] nodes IH]; intros [|m ns]; intros Hns; try done.
    simpl. injection Hns as _ Hns. f_equal. eauto. }
  set (ms := omap id (Nodes g)) in *. clearbody ms.
  assert (Hnum : option_map number_acceptance <$> Nodes g = Some <$> (number_acceptance <$> ms)).
  { rewrite Hms. rewrite <- !list_fmap_compose. done. }
  rewrite Hnum in *. assert (Hns' : ns = number_acceptance <$> ms) by (by apply (inj (fmap Some)) in Hns as <-). subst ns.
  rewrite Eu, Et, Er, Eo in *. split; try done.
  - f_equal. rewrite Hout. simpl. rewrite <- !list_fmap_compose. apply list_fmap_ext. intros i n _. unfold stored_node. simpl.
    by destruct (stored_node_fields n) as (_ & _ & _ & _ & _ & _ & ->).
  - by apply negb_false_iff.
  - intros m Hm. apply Hacc. rewrite Hms. by apply list_elem_of_fmap_2.
  - eauto.
  - eauto.
  - match goal with H1 : fold_checks edge_check _ _ = Ok _ |- _ => rewrite H1 end. eauto.
  - intros ui Hui. rewrite Hui in *. done.
Qed.

Lemma number_stored n : number_acceptance (stored_node n) = stored_node n.
Proof.
  unfold stored_node.
  assert (Hset : ∀ m a, number_acceptance (set_access m a) = set_access (number_acceptance m) a).
  { intros m a. unfold number_acceptance. simpl. by destruct (n_Acceptance m). }
  by rewrite Hset, number_acceptance_idem.
Qed.

(** The stored graph field by field. *)
Lemma pass_fields g g' ms users ids : pass g g' ms users ids →
  Nodes g' = Some <$> (stored_node <$> ms) ∧ Edges g' = Edges (repaired g) ∧ UI g' = UI (repaired g) ∧
  Users g' = Users g ∧ NodeTypes g' = NodeTypes g ∧ AgentRoles g' = AgentRoles g ∧ OfficeStyle g' = OfficeStyle g ∧
  GWorkflow g' = GWorkflow g ∧ gates_of g' = gates_of g ∧ live_nodes g' = live_nodes g.
Proof.
  intros Hp. destruct (repaired_same g) as (En & Eu & Et & Er & Ew & Eo & Eg). rewrite (pa_result _ _ _ _ _ Hp).
  split_and!; try done. unfold live_nodes, node_list. simpl. rewrite (pa_nodes _ _ _ _ _ Hp). f_equal.
  clear. induction ms as [|m ms IH]; [done|]. simpl. f_equal; [apply (stored_node_fields m)|done].
Qed.

Lemma pass_decorated g g' ms users ids : pass g g' ms users ids → decorated g'.
Proof.
  intros Hp. destruct (pass_fields _ _ _ _ _ Hp) as (_ & Ee & Eu & _ & _ & _ & _ & _ & Eg & En).
  pose proof (repaired_decorated g) as Hd. unfold decorated in *. rewrite Eu.
  assert (Hl : live_edges g' = live_edges (repaired g)) by (unfold live_edges, edge_keys, edge_list; by rewrite Ee).
  destruct (repaired_same g) as (Hn & _ & _ & _ & _ & _ & Hg).
  assert (Hln : live_nodes g = live_nodes (repaired g)) by (unfold live_nodes, node_list; by rewrite Hn).
  unfold wire_alive. rewrite Hl, En, Hln, Eg, <- Hg. done.
Qed.

Lemma size_check_stored g g' ms users ids : pass g g' ms users ids → size_check g' = Ok tt.
Proof.
  intros Hp. destruct (pass_fields _ _ _ _ _ Hp) as (En & Ee & _ & _ & _ & _ & _ & _ & Eg & _).
  pose proof (pa_sizes _ _ _ _ _ Hp) as Hs. unfold size_check in *. rewrite Ee, Eg, En.
  rewrite (pa_nodes _ _ _ _ _ Hp) in Hs. rewrite !length_fmap in *. checks_inv. unfold refuse.
  rewrite (pa_edges _ _ _ _ _ Hp).
  repeat match goal with H1 : ?b = false |- context [if ?b then _ else _] => rewrite H1; cbn [mbind outcome_bind] end.
  apply fold_checks_unit. intros n Hn. apply list_elem_of_fmap in Hn as (s & -> & (m & -> & Hm)%list_elem_of_fmap).
  destruct (stored_node_fields m) as (Hid & Hr & _ & Ht & _). unfold checkNodeTextSize. rewrite Hid, Hr, Ht.
  rewrite fold_checks_unit in Hs. apply (Hs (Some m)). by apply list_elem_of_fmap_2.
Qed.

Lemma stored_again g g' ms users ids : pass g g' ms users ids → ValidateGraphForStorage (Some g') = Ok g'.
Proof.
  intros Hp. destruct (pass_fields _ _ _ _ _ Hp) as (En & Ee & Ei & Eu & Et & Er & Eo & Ew & _ & _).
  destruct (repaired_same g) as (_ & _ & Et' & _ & Ew' & _ & _).
  unfold ValidateGraphForStorage. rewrite (size_check_stored _ _ _ _ _ Hp). cbn [mbind outcome_bind].
  rewrite (decorated_repaired g') by by eapply pass_decorated.
  rewrite Eu, Et, Er, Eo, Ee. unfold refuse at 1 2 3.
  rewrite (pa_edges _ _ _ _ _ Hp), (pa_users _ _ _ _ _ Hp), (pa_types _ _ _ _ _ Hp), (pa_style _ _ _ _ _ Hp),
    (pa_roles _ _ _ _ _ Hp). cbn [mbind outcome_bind of_problems negb].
  assert (Hwf : ValidateGraphWorkflows (Some g') = None).
  { rewrite <- (pa_workflows _ _ _ _ _ Hp). unfold ValidateGraphWorkflows. rewrite Ew, Ew', En.
    destruct (repaired_same g) as (-> & _). rewrite (pa_nodes _ _ _ _ _ Hp).
    by rewrite (node_workflows_same (repaired g) g') by congruence. }
  rewrite Hwf. cbn [mbind outcome_bind of_option]. rewrite En.
  assert (Hacc : map_checks (acceptance_check g') (Some <$> (stored_node <$> ms)) = Ok (Some <$> (stored_node <$> ms))).
  { apply map_checks_ok. apply Forall2_fmap_l, Forall2_fmap_l. apply Forall2_fmap_r, Forall2_fmap_r.
    apply Forall_Forall2_diag, Forall_forall. intros m Hm. unfold acceptance_check.
    destruct (stored_node_fields m) as (Hid & _ & Hk & _ & _ & Ha & _).
    cbn [acceptance_check compose]. cbv beta zeta. rewrite number_stored.
    rewrite (ValidateNodeAcceptance_same g' (repaired g) (stored_node m) (number_acceptance m)); [|congruence| | |done].
    - by rewrite (pa_criteria _ _ _ _ _ Hp m Hm).
    - rewrite Hk. unfold number_acceptance. by destruct (n_Acceptance m).
    - rewrite Hid. unfold number_acceptance. by destruct (n_Acceptance m). }
  rewrite Hacc. cbn [mbind outcome_bind].
  destruct (pa_people _ _ _ _ _ Hp) as (names & ->). cbn [mbind outcome_bind].
  destruct (pa_checked _ _ _ _ _ Hp) as (out & Hc). apply (node_pass_again _ _ _ _ _ _ []) in Hc.
  assert (Hst : norm <$> (number_acceptance <$> ms) = stored_node <$> ms).
  { rewrite <- list_fmap_compose. apply list_fmap_ext. intros i m _. unfold norm, stored_node. simpl.
    by destruct (stored_node_fields m) as (_ & _ & _ & _ & _ & _ & ->). }
  rewrite Hst in Hc. rewrite Hc. cbn [mbind outcome_bind app].
  pose proof (pa_lines _ _ _ _ _ Hp) as [k Hk]. destruct (fold_checks edge_check 0%nat (Edges (repaired g))); try done.
  cbn [mbind outcome_bind]. rewrite Ei. pose proof (pa_editor _ _ _ _ _ Hp) as Hed.
  assert (Hsame : with_nodes g' (Some <$> (stored_node <$> ms)) = g') by (rewrite <- En; by destruct g').
  destruct (UI (repaired g)) as [ui|]; [rewrite (Hed ui eq_refl)|]; cbn [mbind outcome_bind]; by rewrite Hsame.
Qed.

Lemma stored_orderly g g' : orderly g → ValidateGraphForStorage (Some g) = Ok g' → orderly g'.
Proof.
  intros Ho (ms & users & ids & Hp)%validate_pass.
  destruct (pass_fields _ _ _ _ _ Hp) as (En & Ee & _). destruct (repaired_same g) as (Hn & _).
  eapply anatomy_orderly; [|by apply (repaired_orderly g)]. unfold anatomy, node_list.
  rewrite En, Ee, Hn, (pa_nodes _ _ _ _ _ Hp). f_equal. clear.
  induction ms as [|m ms IH]; [done|]. rewrite !fmap_cons. cbn [omap list_omap id]. rewrite !fmap_cons.
  destruct (stored_node_fields m) as (-> & -> & _). f_equal. apply IH.
Qed.

(** ** What a stored graph is *)

Lemma edge_pass n edges m : fold_checks edge_check n edges = Ok m →
  ∀ e, e ∈ edges → ∃ e', e = Some e' ∧ e_Relation e' ∈ relations ∧ e_Line e' ∈ lines.
Proof.
  revert n. induction edges as [|[e|] edges IH]; intros n; cbn [fold_checks edge_check]; [set_solver| |done].
  intros Hc. checks_inv. rewrite !negb_false_iff, !one_of_spec in *.
  intros e' [->|He]%elem_of_cons; [eauto|by eapply IH].
Qed.

Lemma refs_pass users n m : validateNodeForStorage users n = Ok m →
  NoDup (n_Refs n) ∧ n_ID n ∉ n_Refs n ∧ (length (n_Refs n) ≤ maxNodeRefs)%nat ∧
  (String.length (n_Requires n) ≤ maxText)%nat ∧ (n_Assignee n = EmptyString ∨ n_Assignee n ∈ users).
Proof.
  intros Hv. unfold validateNodeForStorage, checkNodeTextSize in Hv. checks_inv. simpl in *.
  match goal with H1 : fold_checks (ref_check _) _ _ = Ok _ |- _ =>
    apply (fold_distinct _ (λ r, r) (λ r, r ≠ n_ID n)) in H1 as (Hnd & Hall & _) end.
  - rewrite list_fmap_id in Hnd. unfold above, oversized in *. bool_to_prop. split_and!; [done| |done|unfold above in *; bool_to_prop; done|].
    + intros Hin. by apply Hall in Hin as [_ ?].
    + destruct (String.eqb_spec (n_Assignee n) EmptyString); [by left|right].
      simpl in *. by match goal with H1 : negb (bool_decide _) = false |- _ =>
        apply negb_false_iff, bool_decide_eq_true in H1 end.
  - intros s r s' Hr. unfold ref_check in Hr. checks_inv. bool_to_prop. done.
Qed.

Section Gates.
Variable ids : gset string.

Lemma listed_pass what owner seen xs seen' : fold_checks (listed ids what owner) seen xs = Ok seen' →
  NoDup xs ∧ ∀ x, x ∈ xs → x ∈ ids.
Proof.
  intros Hc. apply (fold_distinct _ (λ r, r) (λ r, r ∈ ids)) in Hc as (Hnd & Hall & _).
  - rewrite list_fmap_id in Hnd. split; [done|]. intros x Hx. by apply Hall in Hx as [_ ?].
  - intros s x s' Hx. unfold listed, known in Hx. checks_inv.
    by repeat match goal with
      | H1 : negb _ = false |- _ => apply negb_false_iff, bool_decide_eq_true in H1
      | H1 : bool_decide _ = false |- _ => apply bool_decide_eq_false in H1 end.
Qed.

Lemma outputs_pass seen owned xs r : fold_checks (output_check ids) (seen, owned) xs = Ok r →
  NoDup xs ∧ (∀ x, x ∈ xs → x ∈ ids ∧ x ∉ owned) ∧ r.2 = list_to_set xs ∪ owned.
Proof.
  revert seen owned. induction xs as [|x xs IH]; intros seen owned; cbn [fold_checks output_check].
  - intros [= <-]. split_and!; [constructor|set_solver|set_solver].
  - intros ([seen1 owned1] & Ho & Hrest)%bind_ok. apply IH in Hrest as (Hnd & Hall & ->).
    unfold output_check, listed, known in Ho. checks_inv.
    repeat match goal with
      | H1 : negb _ = false |- _ => apply negb_false_iff, bool_decide_eq_true in H1
      | H1 : bool_decide _ = false |- _ => apply bool_decide_eq_false in H1 end.
    split_and!; [constructor; [intros Hin; apply Hall in Hin as [_ Hin]; set_solver|done]| |set_solver].
    intros y [->|Hy]%elem_of_cons; [done|]. apply Hall in Hy as [??]. set_solver.
Qed.

(** Gates have distinct ids, inputs that are nodes, and no two of them drive
    the same node. *)
Lemma gates_pass gateIDs owned gates r : fold_checks (logic_gate_check ids) (gateIDs, owned) gates = Ok r →
  NoDup (lg_ID <$> gates) ∧ NoDup (mjoin (OutputNodes <$> gates)) ∧
  (∀ x, x ∈ mjoin (OutputNodes <$> gates) → x ∈ ids ∧ x ∉ owned) ∧
  (∀ gate, gate ∈ gates → lg_ID gate ∉ gateIDs ∧ ValidNodeID (lg_ID gate) = true ∧ NoDup (Inputs gate) ∧
     (∀ x, x ∈ Inputs gate → x ∈ ids) ∧ lg_Operator gate ∈ gate_operators).
Proof.
  revert gateIDs owned. induction gates as [|gate gates IH]; intros gateIDs owned; cbn [fold_checks].
  - intros [= <-]. simpl. split_and!; [constructor|constructor|set_solver|set_solver].
  - intros ([ids1 owned1] & Hg & Hrest)%bind_ok. apply IH in Hrest as (G1 & G2 & G3 & G4).
    unfold logic_gate_check in Hg. checks_inv. bool_to_prop.
    match goal with H1 : fold_checks (listed _ _ _) _ _ = Ok _ |- _ => apply listed_pass in H1 as [Hin1 Hin2] end.
    match goal with H1 : fold_checks (output_check _) _ _ = Ok _ |- _ => apply outputs_pass in H1 as (Ho1 & Ho2 & Ho3) end.
    simpl in Ho3. subst.
    rewrite !fmap_cons. cbn [mjoin list_join concat]. split_and!.
    + constructor; [|done]. intros (h & Hh & Hin)%list_elem_of_fmap. apply G4 in Hin as [Hin _]. rewrite <- Hh in Hin. set_solver.
    + apply NoDup_app. split_and!; [done| |done]. intros x Hx Hx2. apply G3 in Hx2 as [_ Hx2]. set_solver.
    + intros x [Hx|Hx]%elem_of_app; [auto|]. apply G3 in Hx as [??]. set_solver.
    + intros h [->|Hh]%elem_of_cons.
      * rewrite one_of_spec in *. done.
      * apply G4 in Hh as (? & ? & ? & ? & ?). set_solver.
Qed.
End Gates.
End Whole.

(** * Properties *)

(** The invariants of a graph on disk. *)
Record well_stored `{Unicode} (g : Graph) : Prop := {
  ws_nodes : ∃ ns, Nodes g = Some <$> ns ∧ NoDup (n_ID <$> ns) ∧ (length ns ≤ MaxGraphNodes)%nat ∧
    ∀ n, n ∈ ns → ValidNodeID (n_ID n) = true ∧ (String.length (n_Requires n) ≤ maxText)%nat ∧
      n_WriteAccess n ∈ accesses ∧ NoDup (n_Refs n) ∧ n_ID n ∉ n_Refs n ∧ (length (n_Refs n) ≤ maxNodeRefs)%nat ∧
      (n_Assignee n = EmptyString ∨ n_Assignee n ∈ u_ID <$> Users g) ∧
      ValidateNodeAcceptance (Some g) (Some n) = None;
  ws_edges : (length (Edges g) ≤ maxGraphEdges)%nat ∧
    ∀ e, e ∈ Edges g → ∃ e', e = Some e' ∧ e_Relation e' ∈ relations ∧ e_Line e' ∈ lines;
  ws_decorated : decorated g;
  ws_gates : NoDup (lg_ID <$> gates_of g) ∧ NoDup (mjoin (OutputNodes <$> gates_of g)) ∧
    ∀ gate, gate ∈ gates_of g → ValidNodeID (lg_ID gate) = true ∧ lg_Operator gate ∈ gate_operators ∧
      (∀ id, id ∈ Inputs gate ∨ id ∈ OutputNodes gate → id ∈ live_nodes g) ∧ NoDup (Inputs gate);
  ws_timeline : ∀ ui, UI g = Some ui → NoDup (ui_TimelineOrder ui) ∧ ∀ id, id ∈ ui_TimelineOrder ui → id ∈ live_nodes g;
}.

Lemma users_pass `{Unicode} ids names us users names' :
  fold_checks user_check (ids, names) us = Ok (users, names') → users = list_to_set (u_ID <$> us) ∪ ids.
Proof.
  revert ids names. induction us as [|u us IH]; intros ids names; cbn [fold_checks].
  - intros [= <- <-]. set_solver.
  - intros ([ids1 names1] & Hu & Hrest)%bind_ok. apply IH in Hrest as ->. unfold user_check in Hu. checks_inv. set_solver.
Qed.

Lemma editor_pass `{Unicode} ids ui : editor_check ids ui = Ok tt →
  (NoDup (ui_TimelineOrder ui) ∧ ∀ id, id ∈ ui_TimelineOrder ui → id ∈ ids) ∧
  ∃ r, fold_checks (logic_gate_check ids) (∅, ∅) (ui_LogicGates ui) = Ok r.
Proof.
  unfold editor_check. intros Hc. apply bind_ok in Hc as (? & _ & Hc). apply bind_ok in Hc as (? & Hl & Hc).
  split; [by eapply listed_pass|]. checks_inv. eauto.
Qed.

Lemma access_pass `{Unicode} users n m : validateNodeForStorage users n = Ok m →
  normalizeWriteAccess (n_WriteAccess n) ∈ accesses.
Proof.
  unfold validateNodeForStorage. intros Hv. do 3 apply bind_ok in Hv as (? & _ & Hv).
  apply bind_ok in Hv as (? & Ha & _). by apply refuse_ok, negb_false_iff, one_of_spec in Ha.
Qed.

(** What a pass that changes nothing shows of its graph. *)
Lemma pass_well_stored `{Unicode} g ms users ids : pass g g ms users ids → well_stored g.
Proof.
  intros Hp. destruct (pass_fields _ _ _ _ _ Hp) as (En & Ee & Ei & _).
  destruct (pa_checked _ _ _ _ _ Hp) as (out & Hc). pose proof (node_pass _ _ _ _ _ _ Hc) as (ns & Hns & _ & Hids & Hnd & Hall).
  apply (inj (fmap Some)) in Hns as <-. destruct (pa_people _ _ _ _ _ Hp) as (names & Hu). apply users_pass in Hu.
  pose proof (pa_nodes _ _ _ _ _ Hp) as Hms. rewrite Hms in En. apply (inj (fmap Some)) in En.
  assert (Hkeep : ∀ m, m ∈ ms → stored_node m = m ∧ number_acceptance m = m).
  { clear -En. induction ms as [|m ms IH]; [set_solver|]. rewrite fmap_cons in En. injection En as Hm En.
    intros x [->|Hx]%elem_of_cons; [|by apply IH]. split; [done|]. rewrite Hm at 1. rewrite number_stored. done. }
  assert (Hnum : number_acceptance <$> ms = ms).
  { clear -Hkeep. induction ms as [|m ms IH]; [done|]. rewrite fmap_cons. f_equal; [apply Hkeep; by left|].
    apply IH. intros x Hx. apply Hkeep. by right. }
  rewrite Hnum in *.
  assert (Hlive : ids = live_nodes g).
  { rewrite Hids, (right_id_L ∅ (∪)). unfold live_nodes, node_list. rewrite Hms. f_equal. clear.
    induction ms as [|m ms IH]; [done|]. simpl. by f_equal. }
  split.
  - exists ms. split_and!; [done|done| |].
    + pose proof (pa_sizes _ _ _ _ _ Hp) as Hs. unfold size_check in Hs. rewrite Hms, length_fmap in Hs. checks_inv.
      unfold above in *. by bool_to_prop.
    + intros n Hn. destruct (Hall n Hn) as (Hid & _ & Hv). destruct (validateNodeForStorage users n) as [m| | |] eqn:Ev; try by destruct Hv.
      destruct (validateNode_ok _ _ _ Ev) as [Hm _].
      apply refs_pass in Ev as Hr. destruct Hr as (R1 & R2 & R3 & R4 & R5). destruct (Hkeep n Hn) as [Hst Hna].
      split_and!; try done.
      * rewrite <- Hst. by apply access_pass in Ev.
      * destruct R5 as [?|R5]; [by left|right]. rewrite Hu in R5. set_solver.
      * rewrite <- (pa_criteria _ _ _ _ _ Hp n Hn), Hna. by apply ValidateNodeAcceptance_same; [destruct (repaired_same g) as (_ & _ & -> & _)|..].
  - rewrite Ee. pose proof (pa_edges _ _ _ _ _ Hp) as Hl. unfold above in Hl. bool_to_prop. split; [done|].
    pose proof (pa_lines _ _ _ _ _ Hp) as Hk. destruct (fold_checks edge_check 0%nat (Edges (repaired g))) eqn:E; try by destruct Hk.
    by eapply edge_pass.
  - by eapply pass_decorated.
  - unfold gates_of. destruct (UI g) as [ui|] eqn:Eu.
    + destruct (editor_pass _ _ (pa_editor _ _ _ _ _ Hp _ (eq_sym Ei))) as [_ [r Hr]].
      apply gates_pass in Hr as (G1 & G2 & G3 & G4). split_and!; [done|done|]. intros gate Hgate.
      destruct (G4 gate Hgate) as (_ & V & I1 & I2 & O). split_and!; [done|done| |done]. rewrite <- Hlive.
      intros id [Hid|Hid]; [auto|]. apply G3. apply list_elem_of_join. exists (OutputNodes gate). split; [done|].
      by apply list_elem_of_fmap_2.
    + simpl. split_and!; [constructor|constructor|set_solver].
  - intros ui Hui. rewrite Ei in Hui. destruct (editor_pass _ _ (pa_editor _ _ _ _ _ Hp _ Hui)) as [[? ?] _].
    rewrite <- Hlive. done.
Qed.

(** Passing the storage check is final: what the check leaves of a graph
    (conditions' wires written out, stale decorations swept, criteria
    numbered, access levels normalized) passes again and is left exactly as it
    is, so loading and saving a stored graph changes nothing. *)
Theorem validated_graph_is_stable `{Unicode} (g g' : Graph) (Hvalid : ValidateGraphForStorage (Some g) = Ok g') :
  ValidateGraphForStorage (Some g') = Ok g' ∧ repaired g' = g'.
Proof.
  apply validate_pass in Hvalid as (ms & users & ids & Hp). split; [by eapply stored_again|].
  apply decorated_repaired. by eapply pass_decorated.
Qed.

(** C35: every graph the check lets through is well formed: no nil node or
    edge, distinct valid ids, known relations and lines, references distinct
    and never to the node itself, people who exist, criteria the node's type
    may carry, decorations only on wires that are there, logic gates with
    distinct ids whose ends are nodes and that never share an output, and a
    timeline of distinct nodes. *)
Theorem stored_graph_well_formed `{Unicode} (g g' : Graph) (Hvalid : ValidateGraphForStorage (Some g) = Ok g') :
  well_stored g'.
Proof.
  apply validate_pass in Hvalid as (ms & users & ids & Hp). apply stored_again in Hp.
  apply validate_pass in Hp as (ms' & users' & ids' & Hp). by eapply pass_well_stored.
Qed.

(** A graph as a hand edit leaves it: a wire only the condition names, bent; a
    bend and a label of wires that are gone; an unnumbered criterion; an access
    level spelled out. *)
Definition hand_edited : Graph :=
  let ui := set_wires empty_ui ∅ {[ "x->y" := mkEdgeLabelPlacement f_one ]}
              (<["a->b" := [mkPosition f_one f_one]]> {[ "old->b" := [] ]}) in
  let b := with_acceptance (plain_node "b" "task" "a and not flag(done)")
             (Some (mkAcceptance [mkAcceptanceItem EmptyString "Tests pass"] false EmptyString)) in
  with_ui (plain_graph [set_access (plain_node "a" "task" EmptyString) "all"; b] []) (Some ui).

Definition storedOr (g : Graph) : Graph := match ValidateGraphForStorage (Some g) with Ok g' => g' | _ => g end.

Lemma validated_graph_is_stable_witness :
  ValidateGraphForStorage (Some (storedOr hand_edited)) = Ok (storedOr hand_edited) ∧
  repaired (storedOr hand_edited) = storedOr hand_edited.
Proof. apply (validated_graph_is_stable hand_edited). vm_compute. reflexivity. Defined.

Lemma stored_graph_well_formed_witness :
  Edges (storedOr hand_edited) = [Some (mkEdge "a" "b" RelationRequired EmptyString)] ∧ well_stored (storedOr hand_edited).
Proof. split; [vm_compute; reflexivity|]. apply (stored_graph_well_formed hand_edited). vm_compute. reflexivity. Defined.
