(* ===== verification/GraphCommit.v ===== *)
(** Committing graph commands (internal/store/graph_ops.go,
    graph_ops_batch.go): one request's changes on the graph, a batch of
    requests written once, and the queue whose first waiting caller leads. *)

From S2P Require Import Prelude GoStr GoFloat GoTime Dsl Graph NodeTypes Workflow Roles State Readiness Cycles Validate Permission NodeFile GraphOps GraphStore.
From Stdlib Require Import Ascii.
Open Scope Z_scope.

Definition maxGraphOps : nat := Z.to_nat 2000.
Definition maxGraphOpsBatch : nat := 64.

(** The answers a caller can get instead of a new revision. *)
Inductive CallError :=
  | OpRefused (e : OpError)
  | GraphRefused (e : StorageError)
  | NoOperations
  | TooManyOps
  | LoadFailed
  | MarshalFailed
  | SyncFailed (node : string)
  | WriteFailed
  | Abandoned.

(** One ApplyGraphOps call: who asks, and for what. *)
Record Call := mkCall { call_actor : Actor; call_ops : list GraphOp }.

(** The call's answer: the revision the commit wrote and the node files it
    rewrote for this call, or the error. *)
Inductive Answer :=
  | Committed (rev : string) (synced : list string)
  | Refusal (e : CallError).

(** ** One call *)

Section OneCall.
Context `{Unicode}.

(** createdByActorRunLocked; [sidecar] is the file of nodes by the run that
    created them. *)
Definition createdByActorRun (sidecar : gmap string string) (actor : Actor) (id : string) : bool :=
  if negb (HasRole actor) || String.eqb (a_RunID actor) EmptyString then false
  else String.eqb (default EmptyString (sidecar !! id)) (a_RunID actor).

Definition ensure_ui (g : Graph) : Graph :=
  match UI g with None => with_ui g (Some empty_ui) | Some _ => g end.

(** applyGraphOpsLocked: the graph a call leaves and the nodes it touched. *)
Definition applyGraphOpsLocked (sidecar : gmap string string) (g : Graph) (call : Call)
    : outcome CallError (Graph * gset string) :=
  match apply_ops (call_actor call) (createdByActorRun sidecar (call_actor call)) (ensure_ui g) (call_ops call) ∅ with
  | Ok (g', touched) =>
      match ValidateGraphForStorage (NormalizeLogicGates (Some g')) with
      | Ok g'' => Ok (g'', touched)
      | Fail e => Fail (GraphRefused e)
      | Panic => Panic
      | OutOfFuel => OutOfFuel
      end
  | Fail e => Fail (OpRefused e)
  | Panic => Panic
  | OutOfFuel => OutOfFuel
  end.

(** ApplyGraphOpsSynced's own checks, before a call is queued. *)
Definition admit_call (call : Call) : option CallError :=
  if negb (nonempty (call_ops call)) then Some NoOperations
  else if (maxGraphOps <? length (call_ops call))%nat then Some TooManyOps
  else None.

(** ** A batch *)

(** What the loop over the batch has so far: the graph, the verdicts of the
    calls it went through, and whether a call panicked. *)
Record Progress := mkProgress {
  pr_graph : Graph;
  pr_verdicts : list (CallError + gset string);
  pr_panicked : bool;
}.

Definition verdict_of (out : outcome CallError (Graph * gset string)) : option (CallError + Graph * gset string) :=
  match out with
  | Ok r => Some (inr r)
  | Fail e => Some (inl e)
  | Panic | OutOfFuel => None
  end.

(** Each call works on a copy of the graph as the calls before it left it, so a
    refused one takes none of its changes along. *)
Fixpoint apply_calls (sidecar : gmap string string) (g : Graph) (calls : list Call) : Progress :=
  match calls with
  | [] => mkProgress g [] false
  | call :: calls' =>
      match verdict_of (applyGraphOpsLocked sidecar g call) with
      | None => mkProgress g [] true
      | Some (inl e) =>
          let p := apply_calls sidecar g calls' in
          mkProgress (pr_graph p) (inl e :: pr_verdicts p) (pr_panicked p)
      | Some (inr (g', touched)) =>
          let p := apply_calls sidecar g' calls' in
          mkProgress (pr_graph p) (inr touched :: pr_verdicts p) (pr_panicked p)
      end
  end.
End OneCall.

(** The project directory: graph.yaml and the node documents. *)
Record Disk := mkDisk { d_graph : string; d_files : gmap string string }.

Section Batch.
Context `{Unicode}.
(** The codecs of graph.yaml and of frontmatters, and the hash; the run
    sidecar. *)
Variable readGraph : string → option Graph.
Variable marshalGraph : Graph → option string.
Variable decode : string → option Meta.
Variable encode : Meta → option string.
Variable Rev : string → string.
Variable sidecar : gmap string string.

(** prepareNodeFileUpdate for one node: the new document when it changes. *)
Definition prepareNodeFileUpdate (files : gmap string string) (n : Node) : outcome CallError (option string) :=
  match sync_document decode encode n (files !! n_ID n) with
  | Ok out => if bool_decide (files !! n_ID n = Some out) then Ok None else Ok (Some out)
  | Fail _ => Fail (SyncFailed (n_ID n))
  | Panic => Panic
  | OutOfFuel => OutOfFuel
  end.

(** The touched nodes in order of their ids, those still in the graph. *)
Fixpoint sync_nodes (g : Graph) (files : gmap string string) (ids : list string) : outcome CallError (list (string * string)) :=
  match ids with
  | [] => Ok []
  | id :: ids' =>
      match NodeByID g id with
      | None => sync_nodes g files ids'
      | Some n =>
          update ← prepareNodeFileUpdate files n;
          rest ← sync_nodes g files ids';
          Ok (match update with Some out => (n_ID n, out) :: rest | None => rest end)
      end
  end.

Definition touched_of (v : CallError + gset string) : gset string :=
  match v with inl _ => ∅ | inr touched => touched end.

Definition sorted_ids (s : gset string) : list string := merge_sort String.le (elements s).

Definition accepted (v : CallError + gset string) : bool := match v with inr _ => true | inl _ => false end.

(** The answers when the commit of the accepted calls failed. *)
Definition failed (e : CallError) (v : CallError + gset string) : Answer :=
  match v with inl e' => Refusal e' | inr _ => Refusal e end.

Definition answered (rev : string) (synced : gset string) (v : CallError + gset string) : Answer :=
  match v with
  | inl e => Refusal e
  | inr touched => Committed rev (sorted_ids (touched ∩ synced))
  end.

(** applyGraphOpsBatchLocked with the deferred answers of commitGraphOpsBatch:
    [fault] says whether the write of the files fails, which leaves the disk
    as it was. *)
Definition applyGraphOpsBatchLocked (disk : Disk) (batch : list Call) (fault : bool) : Disk * list Answer :=
  match readGraph (d_graph disk) with
  | None => (disk, (λ _, Refusal LoadFailed) <$> batch)
  | Some g =>
      let p := apply_calls sidecar g batch in
      if pr_panicked p then
        (disk, (failed Abandoned <$> pr_verdicts p)
               ++ replicate (length batch - length (pr_verdicts p)) (Refusal Abandoned))
      else if negb (existsb accepted (pr_verdicts p)) then (disk, failed Abandoned <$> pr_verdicts p)
      else
        let undone e := (disk, failed e <$> pr_verdicts p) in
        match marshalGraph (pr_graph p) with
        | None => undone MarshalFailed
        | Some data =>
            let ids := sorted_ids (⋃ (touched_of <$> pr_verdicts p)) in
            match sync_nodes (pr_graph p) (d_files disk) ids with
            | Ok updates =>
                if fault then undone WriteFailed
                else
                  (mkDisk data (list_to_map updates ∪ d_files disk),
                   answered (Rev data) (list_to_set updates.*1) <$> pr_verdicts p)
            | Fail e => undone e
            | _ => undone Abandoned
            end
        end
  end.
End Batch.
