(* ===== verification/GraphCommitFacts.v ===== *)
(** Committing graph commands: edits never close a dependency loop, cutting the
    queue into batches differently changes nothing but the revisions, and one
    malformed request takes a whole batch down. *)

From S2P Require Import Prelude GoStr GoFloat GoTime Dsl DslFacts DslRoundtrip Graph NodeTypes Workflow Roles State Readiness Cycles Validate Permission NodeFile NodeFileFacts GraphOps GraphOpsFacts GraphStore GraphStoreFacts GraphCommit.
From stdpp Require Import relations.
Open Scope Z_scope.

(** * One call *)

Section Call.
Context `{Unicode}.

Lemma ensure_ui_orderly g : orderly g → orderly (ensure_ui g).
Proof. apply anatomy_orderly. unfold ensure_ui. by destruct (UI g). Qed.

Lemma normalize_gates_some g : ∃ g', NormalizeLogicGates (Some g) = Some g' ∧ anatomy g' = anatomy g.
Proof. unfold NormalizeLogicGates. destruct (UI g); eauto. Qed.

Lemma call_orderly sidecar g call g' touched :
  orderly g → applyGraphOpsLocked sidecar g call = Ok (g', touched) → orderly g'.
Proof.
  intros Ho. unfold applyGraphOpsLocked. destruct (apply_ops _ _ _ _ _) as [[g1 touched1]| | |] eqn:E; try done.
  apply ops_orderly in E; [|by apply ensure_ui_orderly].
  destruct (normalize_gates_some g1) as (g2 & -> & Han). destruct (ValidateGraphForStorage (Some g2)) eqn:Ev; try done.
  intros [= <- <-]. eapply stored_orderly; [|done]. by eapply anatomy_orderly.
Qed.

Lemma call_stored sidecar g call g' touched :
  applyGraphOpsLocked sidecar g call = Ok (g', touched) → ValidateGraphForStorage (Some g') = Ok g'.
Proof.
  unfold applyGraphOpsLocked. destruct (apply_ops _ _ _ _ _) as [[g1 touched1]| | |] eqn:E; try done.
  destruct (normalize_gates_some g1) as (g2 & -> & _). destruct (ValidateGraphForStorage (Some g2)) eqn:Ev; try done.
  intros [= <- <-]. apply validate_pass in Ev as (ms & users & ids & Hp). by eapply stored_again.
Qed.

Lemma verdict_inv out :
  match verdict_of out with
  | Some (inr r) => out = Ok r
  | Some (inl e) => out = Fail e
  | None => out = Panic ∨ out = OutOfFuel
  end.
Proof. destruct out; simpl; auto. Qed.

Lemma calls_orderly sidecar g calls : orderly g → orderly (pr_graph (apply_calls sidecar g calls)).
Proof.
  revert g. induction calls as [|call calls IH]; intros g Ho; simpl; [done|].
  pose proof (verdict_inv (applyGraphOpsLocked sidecar g call)) as Hv.
  destruct (verdict_of _) as [[e|[g' touched]]|]; simpl; auto. apply IH. by eapply call_orderly.
Qed.

(** A batch in two parts. *)
Lemma apply_calls_app sidecar g c1 c2 :
  let p1 := apply_calls sidecar g c1 in
  pr_panicked p1 = false →
  apply_calls sidecar g (c1 ++ c2) =
    let p2 := apply_calls sidecar (pr_graph p1) c2 in
    mkProgress (pr_graph p2) (pr_verdicts p1 ++ pr_verdicts p2) (pr_panicked p2).
Proof.
  revert g. induction c1 as [|call c1 IH]; intros g; simpl; [by destruct (apply_calls sidecar g c2)|].
  destruct (verdict_of _) as [[e|[g' touched]]|]; simpl; try done; intros Hp; by rewrite IH.
Qed.

Lemma panicked_app sidecar g c1 c2 :
  pr_panicked (apply_calls sidecar g (c1 ++ c2)) = false → pr_panicked (apply_calls sidecar g c1) = false.
Proof.
  revert g. induction c1 as [|call c1 IH]; intros g; simpl; [done|].
  destruct (verdict_of _) as [[e|[g' touched]]|]; simpl; auto.
Qed.

(** The graph is the old one, or one that passes the storage check. *)
Lemma calls_stored sidecar g calls :
  let p := apply_calls sidecar g calls in
  if existsb accepted (pr_verdicts p) then ValidateGraphForStorage (Some (pr_graph p)) = Ok (pr_graph p)
  else pr_graph p = g.
Proof.
  revert g. induction calls as [|call calls IH]; intros g; simpl; [done|].
  pose proof (verdict_inv (applyGraphOpsLocked sidecar g call)) as Hv.
  destruct (verdict_of _) as [[e|[g' touched]]|]; simpl; [apply IH| |done].
  specialize (IH g'). apply call_stored in Hv. simpl in IH. destruct (existsb accepted (pr_verdicts (apply_calls sidecar g' calls))); [done|by rewrite IH].
Qed.

Lemma verdicts_length sidecar g calls :
  pr_panicked (apply_calls sidecar g calls) = false → length (pr_verdicts (apply_calls sidecar g calls)) = length calls.
Proof.
  revert g. induction calls as [|call calls IH]; intros g; simpl; [done|].
  destruct (verdict_of _) as [[e|[g' touched]]|]; simpl; intros; try done; f_equal; auto.
Qed.
End Call.

(** * Batches *)

Section Batches.
Context `{Unicode}.
Variable readGraph : string → option Graph.
Variable marshalGraph : Graph → option string.
Variable decode : string → option Meta.
Variable encode : Meta → option string.
Variable Rev : string → string.
Variable sidecar : gmap string string.

(** graph.yaml reads back as it was written. *)
Definition faithful (g : Graph) : Prop := ∃ data, marshalGraph g = Some data ∧ readGraph data = Some g.

(** Frontmatters read back as they are written, and the documents on disk
    parse. *)
Hypothesis codec : ∀ m, reads_back decode encode m.
Definition readable (disk : Disk) : Prop := ∀ id doc, d_files disk !! id = Some doc → parses decode doc.

Abbreviation commit disk batch := (applyGraphOpsBatchLocked readGraph marshalGraph decode encode Rev sidecar disk batch false).

(** The batches one after another, each reading what the one before wrote. *)
Fixpoint serve (disk : Disk) (batches : list (list Call)) : Disk * list Answer :=
  match batches with
  | [] => (disk, [])
  | batch :: batches' =>
      let '(disk', answers) := commit disk batch in
      let '(disk'', answers') := serve disk' batches' in
      (disk'', answers ++ answers')
  end.

(** What a caller is told, revisions aside. *)
Definition refusal (a : Answer) : option CallError := match a with Refusal e => Some e | Committed _ _ => None end.

Definition refused (v : CallError + gset string) : option CallError := match v with inl e => Some e | inr _ => None end.

Lemma refusal_answered rev synced (vs : list (CallError + gset string)) : refusal <$> (answered rev synced <$> vs) = refused <$> vs.
Proof. rewrite <- list_fmap_compose. apply list_fmap_ext. intros i v _. by destruct v. Qed.

Lemma refusal_failed e vs : existsb accepted vs = false → refusal <$> (failed e <$> vs) = refused <$> vs.
Proof.
  induction vs as [|v vs IH]; [done|]. cbn [existsb]. intros [Hv Hvs]%orb_false_iff. rewrite !fmap_cons, IH by done.
  by destruct v.
Qed.

Lemma sync_nodes_ok g disk ids :
  readable disk →
  ∃ updates, sync_nodes decode encode g (d_files disk) ids = Ok updates ∧ ∀ id out, (id, out) ∈ updates → parses decode out.
Proof using codec.
  intros Hdisk. induction ids as [|id ids (updates & IH & Hup)]; simpl; [exists []; split; [done|set_solver]|].
  destruct (NodeByID g id) as [n|]; [|eauto].
  destruct (sync_document_ok decode encode n (d_files disk !! n_ID n) codec) as (out & Hout & Hparse); [by apply Hdisk|].
  unfold prepareNodeFileUpdate. rewrite Hout. destruct (bool_decide _); rewrite IH; simpl; [eauto|].
  eexists. split; [done|]. intros id' out' [[= -> ->]|?]%elem_of_cons; eauto.
Qed.

Lemma readable_update disk data updates :
  readable disk → (∀ id out, (id, out) ∈ updates → parses decode out) →
  readable (mkDisk data (list_to_map updates ∪ d_files disk)).
Proof.
  intros Hdisk Hup id doc. simpl. intros [Hd|[_ Hd]]%lookup_union_Some_raw; [|by eapply Hdisk].
  eapply Hup. by apply elem_of_list_to_map_2.
Qed.

Lemma commit_spec disk g batch :
  readGraph (d_graph disk) = Some g → readable disk →
  let p := apply_calls sidecar g batch in
  pr_panicked p = false → faithful (pr_graph p) →
  readGraph (d_graph (commit disk batch).1) = Some (pr_graph p) ∧ readable (commit disk batch).1 ∧
  (if existsb accepted (pr_verdicts p) then marshalGraph (pr_graph p) = Some (d_graph (commit disk batch).1)
   else (commit disk batch).1 = disk) ∧
  refusal <$> (commit disk batch).2 = refused <$> pr_verdicts p.
Proof using codec.
  intros Hr Hdisk p Hp (data & Hm & Hd). unfold applyGraphOpsBatchLocked. rewrite Hr. fold p. rewrite Hp.
  pose proof (calls_stored sidecar g batch) as Hs. cbv zeta in Hs. fold p in Hs.
  destruct (existsb accepted (pr_verdicts p)) eqn:Ea; simpl.
  - rewrite Hm.
    destruct (sync_nodes_ok (pr_graph p) disk (sorted_ids (⋃ (touched_of <$> pr_verdicts p))) Hdisk) as (updates & -> & Hup).
    simpl. split_and!; [done|by apply readable_update|done|apply refusal_answered].
  - split_and!; [congruence|done|done|by apply refusal_failed].
Qed.

Lemma serve_spec disk g batches :
  readGraph (d_graph disk) = Some g → readable disk →
  let p := apply_calls sidecar g (concat batches) in
  pr_panicked p = false →
  (∀ n, faithful (pr_graph (apply_calls sidecar g (take n (concat batches))))) →
  (if existsb accepted (pr_verdicts p) then marshalGraph (pr_graph p) = Some (d_graph (serve disk batches).1)
   else (serve disk batches).1 = disk) ∧
  refusal <$> (serve disk batches).2 = refused <$> pr_verdicts p.
Proof using codec.
  revert disk g. induction batches as [|batch batches IH]; intros disk g Hr Hdisk; simpl; [done|].
  intros Hp Hf. pose proof (panicked_app _ _ _ _ Hp) as Hp1. rewrite apply_calls_app in Hp |- * by done. simpl in *.
  assert (Hf1 : faithful (pr_graph (apply_calls sidecar g batch))).
  { specialize (Hf (length batch)). by rewrite take_app_length in Hf. }
  assert (Hf2 : ∀ n, faithful (pr_graph (apply_calls sidecar (pr_graph (apply_calls sidecar g batch)) (take n (concat batches))))).
  { intros n. specialize (Hf (length batch + n)%nat). by rewrite take_app_add, apply_calls_app in Hf. }
  destruct (commit_spec disk g batch Hr Hdisk Hp1 Hf1) as (Hr1 & Hdisk1 & Hg1 & Ha1).
  destruct (commit disk batch) as [disk1 answers1]. simpl in *.
  destruct (IH disk1 _ Hr1 Hdisk1 Hp Hf2) as [Hg2 Ha2]. destruct (serve disk1 batches) as [disk2 answers2]. simpl in *.
  split.
  - rewrite existsb_app. destruct (existsb accepted (pr_verdicts (apply_calls sidecar (pr_graph (apply_calls sidecar g batch)) (concat batches)))) eqn:E2.
    + by rewrite orb_true_r.
    + rewrite orb_false_r. cbv zeta in Hg2. subst disk2. pose proof (calls_stored sidecar (pr_graph (apply_calls sidecar g batch)) (concat batches)) as Hs.
      cbv zeta in Hs. rewrite E2 in Hs. rewrite Hs. done.
  - rewrite !fmap_app. by rewrite Ha1, Ha2.
Qed.
End Batches.

(** * Properties *)

(** C18: edits never close a dependency loop.  Whatever graph commands whoever
    sends, in batches of any length and with any of them refused or panicking,
    a graph whose nodes wait for each other without a loop (ids the condition
    language can write, conditions that print as they parse) is still such a
    graph afterwards: the required wires and the conditions, which the commands
    rewrite together, never disagree into a cycle. *)
Theorem edits_never_close_a_loop `{Unicode} (sidecar : gmap string string) (g : Graph) (calls : list Call)
    (Hnames : ∀ n, n ∈ node_list g → wf_name (n_ID n)) (Hwires : ∀ e, e ∈ edge_list g → wf_name (e_From e))
    (Htidy : ∀ n, n ∈ node_list g → tidy (n_Requires n)) (Hacyclic : ∀ x, ¬ tc (waits g) x x) :
  let g' := pr_graph (apply_calls sidecar g calls) in
  (∀ x, ¬ tc (waits g') x x) ∧ (∀ n, n ∈ node_list g' → wf_name (n_ID n) ∧ tidy (n_Requires n)) ∧
  (∀ e, e ∈ edge_list g' → wf_name (e_From e)).
Proof.
  intros g'. assert (Ho : orderly g') by (apply calls_orderly; by split). destruct Ho as [Hn Hw Ht Ha].
  split_and!; [done|by auto|done].
Qed.

(** The check that guards every new dependency is exact: it settles, it
    refuses making [to] wait for [from] precisely when [from] already waits,
    directly or not, for [to], and the loop it names is one: [to], then a chain
    of nodes from [from] on in which each waits for the next, back to [to]. *)
Theorem cycle_check_exact `{Unicode} (g : Graph) (from to : string)
    (Hids : ∀ x, rtc (waits g) from x → x ≠ EmptyString) :
  (refuseDependencyCycle g from to = Ok tt ∧ ¬ rtc (waits g) from to) ∨
  (∃ path, refuseDependencyCycle g from to = Fail (WouldCycle from to (to :: path)) ∧ rtc (waits g) from to ∧
     chain (dependency_map g) path ∧ head path = Some from ∧ last path = Some to).
Proof.
  unfold refuseDependencyCycle. destruct (refuse_cycle_spec (dependency_map g) from to) as [?|(path & He & Hr & Hp)]; [by left|].
  right. exists path. destruct (Hp Hids) as (? & ? & ?). done.
Qed.

(** C28: group commit is invisible as long as nothing goes wrong.  However the
    queue of calls is cut into batches, graph.yaml ends up the same and every
    call gets the same answer (committed, or the same refusal): as if each had
    been read, applied, checked and written on its own, in arrival order.  This
    holds when no call of the queue panics (one that does takes the answers of
    its whole batch with it: [dangling_style_abandons_batch]), no write of a
    batch fails, graph.yaml and the node documents there at the start can be
    read, and the codecs are faithful: a document's metadata reads back as it
    was written, and so does each graph the queue passes through.  Of the node
    documents nothing is said. *)
Theorem batching_is_invisible `{Unicode} (readGraph : string → option Graph) (marshalGraph : Graph → option string)
    (decode : string → option Meta) (encode : Meta → option string) (Rev : string → string) (sidecar : gmap string string)
    (disk : Disk) (g : Graph) (batches : list (list Call))
    (Hyaml : ∀ m, reads_back decode encode m) (Hdocs : readable decode disk) (Hread : readGraph (d_graph disk) = Some g)
    (Hcodec : ∀ n, faithful readGraph marshalGraph (pr_graph (apply_calls sidecar g (take n (concat batches)))))
    (Hpanic : pr_panicked (apply_calls sidecar g (concat batches)) = false) :
  let together := serve readGraph marshalGraph decode encode Rev sidecar disk batches in
  let apart := serve readGraph marshalGraph decode encode Rev sidecar disk ((λ call, [call]) <$> concat batches) in
  d_graph together.1 = d_graph apart.1 ∧ refusal <$> together.2 = refusal <$> apart.2.
Proof.
  intros together apart.
  assert (Hcat : concat ((λ call, [call]) <$> concat batches) = concat batches).
  { generalize (concat batches). intros calls. induction calls as [|c calls IH]; [done|]. simpl. by f_equal. }
  destruct (serve_spec readGraph marshalGraph decode encode Rev sidecar Hyaml disk g batches Hread Hdocs Hpanic Hcodec) as [Hg1 Ha1].
  destruct (serve_spec readGraph marshalGraph decode encode Rev sidecar Hyaml disk g ((λ call, [call]) <$> concat batches) Hread Hdocs)
    as [Hg2 Ha2]; [by rewrite Hcat..|]. rewrite Hcat in Hg2, Ha2. fold together in Hg1, Ha1. fold apart in Hg2, Ha2.
  split; [|by rewrite Ha1, Ha2]. destruct (existsb accepted _); [|by rewrite Hg1, Hg2].
  rewrite Hg1 in Hg2. by injection Hg2.
Qed.

(** One malformed request takes a batch down.  A set-edge-style command
    from a node that exists to one that does not, with no wire between them,
    reads the condition of a nil node: the panic leaves graph.yaml alone, but
    every call of the batch that was not already refused, accepted ones and
    those behind it included, is answered "not applied". *)
Theorem dangling_style_abandons_batch `{Unicode} (readGraph : string → option Graph) (marshalGraph : Graph → option string)
    (decode : string → option Meta) (encode : Meta → option string) (Rev : string → string) (sidecar : gmap string string)
    (disk : Disk) (g : Graph) (before after : list Call) (actor : Actor) (from to : string) (line : option string)
    (relation : string) (ops : list GraphOp) (fault : bool)
    (Hread : readGraph (d_graph disk) = Some g) (Hpanic : pr_panicked (apply_calls sidecar g before) = false)
    (Hfrom : is_Some (NodeByID (pr_graph (apply_calls sidecar g before)) from))
    (Hto : NodeByID (pr_graph (apply_calls sidecar g before)) to = None)
    (Hedge : find_edge from to (Edges (pr_graph (apply_calls sidecar g before))) = None) :
  let bad := mkCall actor (style_op from to (Some relation) line :: ops) in
  applyGraphOpsBatchLocked readGraph marshalGraph decode encode Rev sidecar disk (before ++ bad :: after) fault =
  (disk, (failed Abandoned <$> pr_verdicts (apply_calls sidecar g before)) ++ replicate (S (length after)) (Refusal Abandoned)).
Proof.
  intros bad. set (g1 := pr_graph (apply_calls sidecar g before)) in *.
  assert (Hbad : applyGraphOpsLocked sidecar g1 bad = Panic).
  { unfold applyGraphOpsLocked. cbn [call_ops bad apply_ops].
    assert (Hui : NodeByID (ensure_ui g1) = NodeByID g1 ∧ Edges (ensure_ui g1) = Edges g1) by (unfold ensure_ui; by destruct (UI g1)).
    destruct Hui as [Hn He]. unfold applyGraphOp, style_op. cbn -[op_set_edge_style]. unfold op_set_edge_style, style_target.
    cbn [op_Relation op_Line op_From op_To]. rewrite bool_decide_eq_false_2 by done. cbn [andb].
    rewrite He, Hedge, Hn, Hto. destruct Hfrom as [s ->]. done. }
  unfold applyGraphOpsBatchLocked. rewrite Hread, apply_calls_app by done. cbn [apply_calls]. fold g1. rewrite Hbad. cbn.
  rewrite app_nil_r. do 3 f_equal. rewrite verdicts_length, length_app by done. change (Refusal Abandoned :: replicate (length after) (Refusal Abandoned)) with (replicate (S (length after)) (Refusal Abandoned)). f_equal. simpl. lia.
Qed.

(** * A board to try them on *)

Definition editor : Actor := mkActor "u-1" "Ann" "member" EmptyString EmptyString EmptyString EmptyString.

(** [b] waits for [a], through its condition only. *)
Definition small_board : Graph :=
  plain_graph [plain_node "a" "task" EmptyString; plain_node "b" "task" "a or flag(go)"; plain_node "c" "task" EmptyString] [].

Definition wire (from to : string) : Call := mkCall editor [edge_op "add-edge" from to].

(** The second call would close a loop and is refused. *)
Definition small_queue : list Call := [wire "b" "c"; wire "c" "a"; wire "a" "c"].

Lemma forall_list {A} (P : A → Prop) (xs : list A) : Forall P xs → ∀ x, x ∈ xs → P x.
Proof. intros Hall x. by apply Forall_forall. Qed.

Lemma edits_never_close_a_loop_witness :
  let g' := pr_graph (apply_calls ∅ small_board small_queue) in
  (∀ x, ¬ tc (waits g') x x) ∧ (∀ n, n ∈ node_list g' → wf_name (n_ID n) ∧ tidy (n_Requires n)) ∧
  (∀ e, e ∈ edge_list g' → wf_name (e_From e)).
Proof.
  apply (edits_never_close_a_loop ∅ small_board small_queue).
  - apply forall_list. repeat (apply Forall_cons_2; [split; vm_compute; reflexivity|]). apply Forall_nil_2.
  - apply forall_list. apply Forall_nil_2.
  - apply forall_list. repeat (apply Forall_cons_2; [apply tidyb_spec; vm_compute; reflexivity|]). apply Forall_nil_2.
  - apply (findCycles_nil (dependency_map small_board)). vm_compute. reflexivity.
Defined.

Lemma cycle_check_exact_witness :
  (refuseDependencyCycle small_board "b" "a" = Ok tt ∧ ¬ rtc (waits small_board) "b" "a") ∨
  (∃ path, refuseDependencyCycle small_board "b" "a" = Fail (WouldCycle "b" "a" ("a" :: path)) ∧
     rtc (waits small_board) "b" "a" ∧
     chain (dependency_map small_board) path ∧ head path = Some "b" ∧ last path = Some "a").
Proof.
  apply (cycle_check_exact small_board "b" "a"). intros x Hx. destruct (decide (x = EmptyString)) as [->|]; [|done]. exfalso.
  apply rtc_inv_r in Hx as [Heq|(z & _ & Hz)]; [done|]. apply elem_of_succs in Hz as [_ Hz].
  assert (Hno : bool_decide (EmptyString ∈ universe (dependency_map small_board)) = false) by (vm_compute; reflexivity).
  by apply bool_decide_eq_false in Hno.
Defined.

(** Codecs that tell the four graphs of the small queue apart by their wires. *)
Definition toy_marshal (g : Graph) : option string := Some (itoa (Z.of_nat (length (Edges g)))).

Definition toy_read (data : string) : option Graph :=
  let reach n := pr_graph (apply_calls ∅ small_board (take n small_queue)) in
  find (λ g, bool_decide (toy_marshal g = Some data)) [small_board; reach 1%nat; reach 3%nat].

Definition toy_disk : Disk := mkDisk "0" ∅.

Lemma batching_is_invisible_witness :
  let together := serve toy_read toy_marshal bit_decode bit_encode id ∅ toy_disk [[wire "b" "c"; wire "c" "a"]; [wire "a" "c"]] in
  let apart := serve toy_read toy_marshal bit_decode bit_encode id ∅ toy_disk ((λ call, [call]) <$> small_queue) in
  d_graph together.1 = d_graph apart.1 ∧ refusal <$> together.2 = refusal <$> apart.2.
Proof.
  apply (batching_is_invisible toy_read toy_marshal bit_decode bit_encode id ∅ toy_disk small_board
           [[wire "b" "c"; wire "c" "a"]; [wire "a" "c"]]).
  - apply bits_read_back.
  - intros id doc Hd. simpl in Hd. by rewrite lookup_empty in Hd.
  - vm_compute. reflexivity.
  - intros n. assert (Hn : take n (concat [[wire "b" "c"; wire "c" "a"]; [wire "a" "c"]]) = take (n `min` 3) small_queue)
      by (destruct n as [|[|[|[|n]]]]; reflexivity).
    rewrite Hn. destruct (n `min` 3)%nat as [|[|[|[|m]]]] eqn:E; [exists "0"|exists "1"|exists "1"|exists "2"|lia];
      split; vm_compute; reflexivity.
  - vm_compute. reflexivity.
Defined.

Lemma dangling_style_abandons_batch_witness :
  let bad := mkCall editor (style_op "a" "gone" (Some "optional") None :: []) in
  applyGraphOpsBatchLocked toy_read toy_marshal bit_decode bit_encode id ∅ toy_disk ([wire "b" "c"] ++ bad :: [wire "a" "c"]) false =
  (toy_disk, [Refusal Abandoned; Refusal Abandoned; Refusal Abandoned]).
Proof.
  apply (dangling_style_abandons_batch toy_read toy_marshal bit_decode bit_encode id ∅ toy_disk small_board
           [wire "b" "c"] [wire "a" "c"] editor "a" "gone" None "optional" [] false); vm_compute; by eexists || reflexivity.
Defined.
