(* ===== verification/CommitQueue.v ===== *)
(** The commit queue (internal/store/graph_ops_batch.go: queueGraphOps,
    commitGraphOpsBatch): the callers' goroutines, the queue, the lead that
    passes from call to call, and the store's lock, as one step function whose
    actions are the code's atomic sections.  A call is named by its place in the
    order of arrival. *)

From S2P Require Import Prelude GoStr GoFloat GoTime Dsl Graph NodeTypes Workflow Roles State Readiness Cycles Validate Permission NodeFile GraphOps GraphStore GraphCommit.
Open Scope nat_scope.

(** Where a caller's goroutine is: in the select of queueGraphOps, or in
    commitGraphOpsBatch, or returned. *)
Inductive Stage :=
  | Waiting
  | AtLock
  | Holding
  | Drained (batch : list nat)
  | Applied (batch : list nat)
  | Unlocked (batch : list nat)
  | Closing (rest : list nat)
  | Returned.

(** Who holds the store's lock. *)
Inductive Holder := HeldBy (call : nat) | HeldElsewhere.

Record CommitQueue := mkCommitQueue {
  opsQueue : list nat;
  opsLeading : bool;
  lead : gset nat;             (** calls whose [lead] channel is closed *)
  done : gset nat;             (** calls whose [done] channel is closed *)
  calls : list Call;
  stages : list Stage;
  mu : option Holder;
  disk : Disk;
  answers : gmap nat Answer;
}.

Definition idle_queue (d : Disk) : CommitQueue := mkCommitQueue [] false ∅ ∅ [] [] None d ∅.

(** The atomic sections.  [Apply] carries what the batch reads and meets
    outside the queue: the run sidecar, and whether the write fails. *)
Inductive Action :=
  | Arrive (call : Call)
  | ReceiveLead (t : nat)
  | LockStore (t : nat)
  | Drain (t : nat)
  | Apply (t : nat) (sidecar : gmap string string) (fault : bool)
  | UnlockStore (t : nat)
  | HandOver (t : nat)
  | CloseDone (t : nat)
  | Return (t : nat)
  | OtherLocks
  | OtherUnlocks (d : Disk).

Definition set_stage (s : CommitQueue) (t : nat) (st : Stage) : CommitQueue :=
  mkCommitQueue (opsQueue s) (opsLeading s) (lead s) (done s) (calls s) (<[t := st]> (stages s)) (mu s) (disk s) (answers s).
Definition with_queue (s : CommitQueue) (q : list nat) (leading : bool) : CommitQueue :=
  mkCommitQueue q leading (lead s) (done s) (calls s) (stages s) (mu s) (disk s) (answers s).
Definition with_mu (s : CommitQueue) (m : option Holder) : CommitQueue :=
  mkCommitQueue (opsQueue s) (opsLeading s) (lead s) (done s) (calls s) (stages s) m (disk s) (answers s).
Definition with_disk (s : CommitQueue) (d : Disk) : CommitQueue :=
  mkCommitQueue (opsQueue s) (opsLeading s) (lead s) (done s) (calls s) (stages s) (mu s) d (answers s).
Definition with_answers (s : CommitQueue) (a : gmap nat Answer) : CommitQueue :=
  mkCommitQueue (opsQueue s) (opsLeading s) (lead s) (done s) (calls s) (stages s) (mu s) (disk s) a.
Definition with_call (s : CommitQueue) (call : Call) : CommitQueue :=
  mkCommitQueue (opsQueue s) (opsLeading s) (lead s) (done s) (calls s ++ [call]) (stages s ++ [Waiting]) (mu s) (disk s)
    (answers s).

(** close of a channel: closing it twice panics. *)
Definition close_lead (s : CommitQueue) (c : nat) : outcome unit CommitQueue :=
  if decide (c ∈ lead s) then Panic
  else Ok (mkCommitQueue (opsQueue s) (opsLeading s) ({[c]} ∪ lead s) (done s) (calls s) (stages s) (mu s) (disk s) (answers s)).
Definition close_done (s : CommitQueue) (c : nat) : outcome unit CommitQueue :=
  if decide (c ∈ done s) then Panic
  else Ok (mkCommitQueue (opsQueue s) (opsLeading s) (lead s) ({[c]} ∪ done s) (calls s) (stages s) (mu s) (disk s) (answers s)).

Section Step.
Context `{Unicode}.
Variable readGraph : string → option Graph.
Variable marshalGraph : Graph → option string.
Variable decode : string → option Meta.
Variable encode : Meta → option string.
Variable Rev : string → string.

Definition serve (sidecar : gmap string string) : Disk → list Call → bool → Disk * list Answer :=
  applyGraphOpsBatchLocked readGraph marshalGraph decode encode Rev sidecar.

(** The requests behind a batch. *)
Definition requests (s : CommitQueue) (batch : list nat) : list Call := omap (λ c, calls s !! c) batch.

(** queueGraphOps up to its select. *)
Definition arrive (s : CommitQueue) (call : Call) : outcome unit CommitQueue :=
  let c := length (stages s) in
  let s1 := with_queue (with_call s call) (opsQueue s ++ [c]) (opsLeading s) in
  if opsLeading s then Ok s1 else close_lead (with_queue s1 (opsQueue s1) true) c.

(** The section of commitGraphOpsBatch that takes the batch off the queue. *)
Definition drain (s : CommitQueue) (t : nat) : CommitQueue :=
  let n := Nat.min (length (opsQueue s)) maxGraphOpsBatch in
  set_stage (with_queue s (drop n (opsQueue s)) (opsLeading s)) t (Drained (take n (opsQueue s))).

(** The batch is applied and answered, with the lock held. *)
Definition apply_batch (s : CommitQueue) (t : nat) (batch : list nat) (sidecar : gmap string string) (fault : bool) : CommitQueue :=
  let r := serve sidecar (disk s) (requests s batch) fault in
  set_stage (with_answers (with_disk s r.1) (list_to_map (zip batch r.2) ∪ answers s)) t (Applied batch).

(** The deferred section that passes the lead on. *)
Definition hand_over (s : CommitQueue) (t : nat) (batch : list nat) : outcome unit CommitQueue :=
  let s1 := set_stage s t (Closing batch) in
  match opsQueue s with
  | next :: _ => close_lead s1 next
  | [] => Ok (with_queue s1 [] false)
  end.

(** One action: [Fail] when the goroutine is not there or has to wait. *)
Definition step (s : CommitQueue) (a : Action) : outcome unit CommitQueue :=
  let blocked := Fail tt in
  match a with
  | Arrive call => arrive s call
  | ReceiveLead t =>
      match stages s !! t with
      | Some Waiting => if decide (t ∈ lead s) then Ok (set_stage s t AtLock) else blocked
      | _ => blocked
      end
  | LockStore t =>
      match stages s !! t, mu s with
      | Some AtLock, None => Ok (with_mu (set_stage s t Holding) (Some (HeldBy t)))
      | _, _ => blocked
      end
  | Drain t => match stages s !! t with Some Holding => Ok (drain s t) | _ => blocked end
  | Apply t sidecar fault =>
      match stages s !! t with
      | Some (Drained batch) => Ok (apply_batch s t batch sidecar fault)
      | _ => blocked
      end
  | UnlockStore t =>
      match stages s !! t with
      | Some (Applied batch) => Ok (with_mu (set_stage s t (Unlocked batch)) None)
      | _ => blocked
      end
  | HandOver t =>
      match stages s !! t with Some (Unlocked batch) => hand_over s t batch | _ => blocked end
  | CloseDone t =>
      match stages s !! t with
      | Some (Closing (c :: rest)) => close_done (set_stage s t (Closing rest)) c
      | _ => blocked
      end
  | Return t =>
      match stages s !! t with
      | Some Waiting | Some (Closing []) => if decide (t ∈ done s) then Ok (set_stage s t Returned) else blocked
      | _ => blocked
      end
  | OtherLocks => match mu s with None => Ok (with_mu s (Some HeldElsewhere)) | _ => blocked end
  | OtherUnlocks d =>
      match mu s with Some HeldElsewhere => Ok (with_mu (with_disk s d) None) | _ => blocked end
  end.

(** A schedule, from any state. *)
Definition run (s : CommitQueue) (schedule : list Action) : outcome unit CommitQueue := fold_checks step s schedule.
End Step.

(** The goroutine an action belongs to; none for arrivals and other operations
    of the store. *)
Definition actor_of (a : Action) : option nat :=
  match a with
  | Arrive _ | OtherLocks | OtherUnlocks _ => None
  | ReceiveLead t | LockStore t | Drain t | Apply t _ _ | UnlockStore t | HandOver t | CloseDone t | Return t => Some t
  end.
