(* ===== verification/CommitQueueFacts.v ===== *)
(** The commit queue keeps its promises: one leader at a time, calls served once
    each and in order, nobody left waiting, and the files on disk those of the
    batches applied one after the other. *)

From S2P Require Import Prelude GoStr GoFloat GoTime Dsl Graph NodeTypes Workflow Roles State Readiness Cycles Validate Permission NodeFile NodeFileFacts GraphOps GraphStore GraphCommit GraphCommitFacts CommitQueue.
Open Scope nat_scope.

(** * The invariant *)

(** The calls a goroutine has taken and not yet answered. *)
Definition pending (st : Stage) : list nat :=
  match st with Drained b | Applied b | Unlocked b | Closing b => b | _ => [] end.

(** A goroutine that has the lead: its turn to commit is not over. *)
Definition leads (ls : gset nat) (t : nat) (st : Stage) : Prop :=
  match st with
  | Waiting => t ∈ ls
  | AtLock | Holding | Drained _ | Applied _ | Unlocked _ => True
  | Closing _ | Returned => False
  end.

Definition holds (st : Stage) : Prop :=
  match st with Holding | Drained _ | Applied _ => True | _ => False end.

Definition answered_all (ans : gmap nat Answer) (b : list nat) : Prop := ∀ c, c ∈ b → is_Some (ans !! c).

(** What a stage says about the first call still queued, [k]. *)
Definition stage_ok (ls ds : gset nat) (ans : gmap nat Answer) (k t : nat) (st : Stage) : Prop :=
  match st with
  | Waiting => t ∈ ls → t = k
  | AtLock | Holding => t = k
  | Drained b => t < k ∧ b = seq t (k - t) ∧ length b ≤ maxGraphOpsBatch
  | Applied b | Unlocked b => t < k ∧ b = seq t (k - t) ∧ length b ≤ maxGraphOpsBatch ∧ answered_all ans b
  | Closing b => t < k ∧ (∃ m, b = seq m (length b) ∧ m + length b ≤ k) ∧ length b ≤ maxGraphOpsBatch ∧ answered_all ans b ∧ (t ∈ b ∨ t ∈ ds)
  | Returned => t ∈ ds
  end.

Record Inv (s : CommitQueue) (k : nat) (leader : option nat) : Prop := mkInv {
  inv_queue : opsQueue s = seq k (length (stages s) - k);
  inv_k : k ≤ length (stages s);
  inv_calls : length (calls s) = length (stages s);
  inv_leading : match leader with None => opsLeading s = false ∧ k = length (stages s)
                                | Some t => opsLeading s = true ∧ t < length (stages s) end;
  inv_leader : ∀ t st, stages s !! t = Some st → (leads (lead s) t st ↔ leader = Some t);
  inv_lead : ∀ c, c ∈ lead s → c < k ∨ (c = k ∧ leader = Some k);
  inv_stage : ∀ t st, stages s !! t = Some st → stage_ok (lead s) (done s) (answers s) k t st;
  inv_mu : ∀ t, mu s = Some (HeldBy t) ↔ ∃ st, stages s !! t = Some st ∧ holds st;
  inv_apart : ∀ t t' st st' c, stages s !! t = Some st → stages s !! t' = Some st' →
    c ∈ pending st → c ∈ pending st' → t = t';
  inv_served : ∀ c, c < k → c ∈ done s ∨ ∃ t st, stages s !! t = Some st ∧ c ∈ pending st;
  inv_done : ∀ c, c ∈ done s → c < k ∧ is_Some (answers s !! c) ∧ ∀ t st, stages s !! t = Some st → c ∉ pending st;
}.

Lemma idle_inv d : Inv (idle_queue d) 0 None.
Proof. split; simpl; try done; try set_solver; try lia. Qed.

(** A changed entry of the stage list. *)
Ltac stage_cases :=
  repeat match goal with
  | H : <[_ := _]> _ !! _ = Some _ |- _ => apply list_lookup_insert_Some in H as [(? & ? & ?)|[? H]]; simplify_eq/=
  | H : (_ ++ [_]) !! _ = Some _ |- _ => apply lookup_snoc_Some in H as [[? H]|[? ?]]; simplify_eq/=
  end.

Section Step.
Context `{Unicode}.
Variable readGraph : string → option Graph.
Variable marshalGraph : Graph → option string.
Variable decode : string → option Meta.
Variable encode : Meta → option string.
Variable Rev : string → string.
Notation serve := (serve readGraph marshalGraph decode encode Rev).
Notation step := (step readGraph marshalGraph decode encode Rev).
Notation run := (run readGraph marshalGraph decode encode Rev).

Lemma verdicts_short sidecar g cs : length (pr_verdicts (apply_calls sidecar g cs)) ≤ length cs.
Proof.
  revert g. induction cs as [|call cs IH]; intros g; simpl; [done|].
  destruct (verdict_of _) as [[e|[g' touched]]|]; simpl; [specialize (IH g)|specialize (IH g')|]; lia.
Qed.

(** Every call of a batch gets an answer, whatever happens. *)
Lemma serve_answers sidecar d cs fault : length (serve sidecar d cs fault).2 = length cs.
Proof.
  unfold CommitQueue.serve, applyGraphOpsBatchLocked. destruct (readGraph (d_graph d)) as [g|]; simpl; [|by rewrite length_fmap].
  pose proof (verdicts_short sidecar g cs). destruct (pr_panicked _) eqn:Ep; simpl.
  - rewrite length_app, length_fmap, length_replicate. lia.
  - apply verdicts_length in Ep. repeat case_match; simpl; by rewrite length_fmap.
Qed.

(** ** One step keeps it *)

Lemma stage_bound (s : CommitQueue) t st : stages s !! t = Some st → t < length (stages s).
Proof. apply lookup_lt_Some. Qed.

Lemma stage_ok_answers ls ds ans ans' k t st :
  (∀ c, is_Some (ans !! c) → is_Some (ans' !! c)) → stage_ok ls ds ans k t st → stage_ok ls ds ans' k t st.
Proof. destruct st; simpl; unfold answered_all; naive_solver. Qed.

(** The leader goes from one stage to the next, keeping the lead and what it
    has taken. *)
Lemma move_inv s k l t st st' m d ans :
  Inv s k l → stages s !! t = Some st → pending st' = pending st →
  (leads (lead s) t st' ↔ leads (lead s) t st) →
  stage_ok (lead s) (done s) ans k t st' →
  (∀ c, is_Some (answers s !! c) → is_Some (ans !! c)) →
  (∀ u, m = Some (HeldBy u) ↔ (u = t ∧ holds st') ∨ (u ≠ t ∧ mu s = Some (HeldBy u))) →
  Inv (mkCommitQueue (opsQueue s) (opsLeading s) (lead s) (done s) (calls s) (<[t := st']> (stages s)) m d ans) k l.
Proof.
  intros HI Ht Hp Hl Hok Hans Hm. destruct HI. pose proof (stage_bound _ _ _ Ht).
  split; simpl; rewrite ?length_insert; try done.
  - intros u su ?. stage_cases; [rewrite Hl|]; by eapply inv_leader0.
  - intros u su ?. stage_cases; [done|]. eapply stage_ok_answers; [exact Hans|eauto].
  - intros u. rewrite Hm. destruct (decide (u = t)) as [->|].
    + rewrite list_lookup_insert_eq by done. naive_solver.
    + rewrite list_lookup_insert_ne by done. specialize (inv_mu0 u). naive_solver.
  - intros t1 t2 s1 s2 c ???. stage_cases; rewrite ?Hp in *; eauto.
  - intros c Hc. destruct (inv_served0 c Hc) as [?|(u & su & Hu & Hin)]; [by left|]. right.
    destruct (decide (u = t)) as [->|].
    + exists t, st'. rewrite list_lookup_insert_eq by done. split; [done|]. rewrite Hp. by simplify_eq.
    + exists u, su. by rewrite list_lookup_insert_ne.
  - intros c Hc. destruct (inv_done0 c Hc) as (? & ? & Hno). split_and!; [done|by apply Hans|].
    intros u su ?. stage_cases; rewrite ?Hp; eauto.
Qed.

Lemma receive_inv s k l t s' : Inv s k l → step s (ReceiveLead t) = Ok s' → Inv s' k l.
Proof.
  intros HI. simpl. destruct (stages s !! t) as [[]|] eqn:Ht; try done. destruct (decide _); [|done]. intros [= <-].
  pose proof (inv_stage _ _ _ HI _ _ Ht) as Hok. simpl in Hok. eapply (move_inv s); try done; simpl; auto.
  intros u. rewrite (inv_mu _ _ _ HI u). destruct (decide (u = t)) as [->|]; naive_solver.
Qed.

Lemma lock_inv s k l t s' : Inv s k l → step s (LockStore t) = Ok s' → Inv s' k l.
Proof.
  intros HI. simpl. destruct (stages s !! t) as [[]|] eqn:Ht; try done. destruct (mu s) eqn:Em; [done|]. intros [= <-].
  pose proof (inv_stage _ _ _ HI _ _ Ht) as Hok. simpl in Hok. eapply (move_inv s); try done; simpl; auto.
  intros u. rewrite Em. destruct (decide (u = t)) as [->|]; naive_solver.
Qed.

Lemma unlock_inv s k l t s' : Inv s k l → step s (UnlockStore t) = Ok s' → Inv s' k l.
Proof.
  intros HI. simpl. destruct (stages s !! t) as [[]|] eqn:Ht; try done. intros [= <-].
  pose proof (inv_stage _ _ _ HI _ _ Ht) as Hok. simpl in Hok. eapply (move_inv s); try done; simpl; auto.
  assert (mu s = Some (HeldBy t)) as Em by (apply (inv_mu _ _ _ HI); by eexists).
  intros u. rewrite Em. destruct (decide (u = t)) as [->|]; naive_solver.
Qed.

(** The answers of a batch, by call. *)
Lemma zip_answers (b : list nat) (xs : list Answer) c :
  length b = length xs → c ∈ b → is_Some ((list_to_map (zip b xs) : gmap nat Answer) !! c).
Proof.
  intros Hlen Hc. apply not_eq_None_Some. rewrite <- not_elem_of_list_to_map, fst_zip by lia. auto.
Qed.

Lemma requests_length s b : (∀ c, c ∈ b → c < length (calls s)) → length (requests s b) = length b.
Proof.
  unfold requests. induction b as [|c b IH]; intros Hb; simpl; [done|].
  destruct (lookup_lt_is_Some_2 (calls s) c) as [call ->]; [apply Hb; left|]. simpl. f_equal. apply IH.
  intros c' ?. apply Hb. by right.
Qed.

Lemma apply_inv s k l t sidecar fault s' : Inv s k l → step s (Apply t sidecar fault) = Ok s' → Inv s' k l.
Proof.
  intros HI. simpl. destruct (stages s !! t) as [[]|] eqn:Ht; try done. intros [= <-].
  pose proof (inv_stage _ _ _ HI _ _ Ht) as Hok. simpl in Hok. destruct Hok as (Htk & Hb & Hlen).
  pose proof (inv_k _ _ _ HI). pose proof (inv_calls _ _ _ HI).
  eapply (move_inv s); try done; simpl.
  - split_and!; [done..|]. intros c Hc. apply lookup_union_is_Some. left. apply zip_answers; [|done].
    rewrite serve_answers, requests_length; [done|]. intros c'. rewrite Hb, elem_of_seq. lia.
  - intros c ?. apply lookup_union_is_Some. by right.
  - assert (mu s = Some (HeldBy t)) as Em by (apply (inv_mu _ _ _ HI); by eexists).
    intros u. rewrite Em. destruct (decide (u = t)) as [->|]; naive_solver.
Qed.

Lemma other_locks_inv s k l s' : Inv s k l → step s OtherLocks = Ok s' → Inv s' k l.
Proof.
  intros HI. simpl. destruct (mu s) eqn:Em; [done|]. intros [= <-]. destruct HI. split; simpl; try done.
  intros t. rewrite <- inv_mu0, Em. done.
Qed.

Lemma other_unlocks_inv s k l d s' : Inv s k l → step s (OtherUnlocks d) = Ok s' → Inv s' k l.
Proof.
  intros HI. simpl. destruct (mu s) as [[]|] eqn:Em; [done| |done]. intros [= <-]. destruct HI. split; simpl; try done.
  intros t. rewrite <- inv_mu0, Em. done.
Qed.

Lemma return_inv s k l t s' : Inv s k l → step s (Return t) = Ok s' → Inv s' k l.
Proof.
  intros HI. simpl.
  assert (∀ st, stages s !! t = Some st → (st = Waiting ∨ st = Closing []) →
    (if decide (t ∈ done s) then Ok (set_stage s t Returned) else Fail tt) = Ok s' → Inv s' k l).
  { intros st Ht Hst. case_decide as Hd; [|done]. intros [= <-]. pose proof (inv_stage _ _ _ HI _ _ Ht) as Hok.
    pose proof (inv_done _ _ _ HI _ Hd) as (? & _ & _). eapply (move_inv s); try done; simpl.
    - by destruct Hst as [-> | ->].
    - destruct Hst as [-> | ->]; simpl; [|done]. simpl in Hok. split; [done|]. intros ?. assert (t = k) by auto. lia.
    - intros u. rewrite (inv_mu _ _ _ HI u). destruct (decide (u = t)) as [->|]; naive_solver. }
  destruct (stages s !! t) as [[]|] eqn:Ht; try done; [eauto|]. destruct rest; eauto; done.
Qed.

Lemma pending_old ls ds ans k t st c : stage_ok ls ds ans k t st → c ∈ pending st → c < k.
Proof.
  destruct st; simpl; try (intros _ []%elem_of_nil); [intros (? & -> & _) | intros (? & -> & _) | intros (? & -> & _) |
    intros (? & (m & Hm & ?) & _); rewrite Hm]; rewrite elem_of_seq; lia.
Qed.

(** A call joins the queue; the lead [ls] it then sees is the caller's. *)
Lemma enqueue_inv s k l l' ls ld call :
  let n := length (stages s) in
  Inv s k l →
  match l' with None => False | Some t => ld = true ∧ t < S n end →
  (∀ u su, u < n → stages s !! u = Some su → leads ls u su ↔ l' = Some u) →
  (n ∈ ls ↔ l' = Some n) →
  (∀ c, c ∈ ls → c < k ∨ c = k ∧ l' = Some k) →
  (∀ u su, u < n → stages s !! u = Some su → stage_ok ls (done s) (answers s) k u su) →
  (n ∈ ls → n = k) →
  Inv (mkCommitQueue (opsQueue s ++ [n]) ld ls (done s) (calls s ++ [call]) (stages s ++ [Waiting]) (mu s) (disk s) (answers s)) k l'.
Proof.
  intros n HI Hld Hleads Hnl Hls Hok Hnk. destruct HI.
  assert (∀ u su, stages s !! u = Some su → u < n) as Hlt by (intros u su ?; by eapply lookup_lt_Some).
  assert (∀ u su, stages s !! u = Some su → (stages s ++ [Waiting]) !! u = Some su) as Hold by (intros; by apply lookup_app_l_Some).
  split; simpl; rewrite ?length_app; simpl.
  - rewrite inv_queue0. replace (length (stages s) + 1 - k) with ((length (stages s) - k) + 1) by lia.
    rewrite seq_app. f_equal. simpl. f_equal. unfold n. lia.
  - lia.
  - lia.
  - destruct l'; [|done]. rewrite Nat.add_1_r. done.
  - intros u su ?. stage_cases; [by eapply Hleads; eauto|done].
  - done.
  - intros u su ?. stage_cases; [by eapply Hok; eauto|done].
  - intros u. rewrite inv_mu0. split; intros (su & Hu & Hh); exists su; [by auto|]. stage_cases; [done|done].
  - intros t1 t2 s1 s2 c ????. stage_cases; [eauto|set_solver..].
  - intros c Hc. destruct (inv_served0 c Hc) as [?|(u & su & Hu & ?)]; [by left|right]. eauto.
  - intros c Hc. destruct (inv_done0 c Hc) as (? & ? & Hno). split_and!; [done..|]. intros u su ?. stage_cases; [eauto|set_solver].
Qed.

Lemma arrive_inv s k l call :
  Inv s k l →
  ∃ s', step s (Arrive call) = Ok s' ∧ Inv s' k (Some (default k l)) ∧ opsQueue s' = opsQueue s ++ [length (stages s)].
Proof.
  intros HI. set (n := length (stages s)). simpl. unfold arrive, close_lead. simpl. fold n.
  pose proof (inv_k _ _ _ HI) as Hk. fold n in Hk. pose proof (inv_lead _ _ _ HI) as Hlead.
  pose proof (inv_leading _ _ _ HI) as Hl. fold n in Hl. destruct l as [t|]; destruct Hl as [-> Hl]; simpl.
  - eexists. split_and!; [done| |done]. apply (enqueue_inv s k (Some t)); simpl; try done; fold n.
    + split; [done|lia].
    + intros u su ??. by apply (inv_leader s k (Some t)).
    + split; [|by intros [= ->]; lia]. intros Hn. destruct (Hlead n Hn) as [?|[? [= <-]]]; lia.
    + intros. by eapply inv_stage.
    + intros Hn. destruct (Hlead n Hn) as [?|[? ?]]; lia.
  - assert (n ∉ lead s) as Hn by (intros Hn; destruct (Hlead n Hn) as [?|[? ?]]; [lia|done]).
    rewrite decide_False by done. eexists. split_and!; [done| |done].
    assert (∀ u su, u < n → leads ({[n]} ∪ lead s) u su ↔ leads (lead s) u su) as Hleads.
    { intros u su Hu. destruct su; simpl; try done. rewrite elem_of_union, elem_of_singleton. naive_solver lia. }
    apply (enqueue_inv s k None); simpl; try done; fold n.
    + split; [done|lia].
    + intros u su Hu ?. rewrite Hleads, (inv_leader _ _ _ HI) by done. naive_solver lia.
    + rewrite Hl. set_solver.
    + intros c Hc. apply elem_of_union in Hc as [->%elem_of_singleton|Hc]; [right; by rewrite Hl|]. left.
      destruct (Hlead c Hc) as [?|[? ?]]; done.
    + intros u su Hu Hs. pose proof (inv_stage _ _ _ HI _ _ Hs) as Hok. specialize (Hleads u su Hu).
      destruct su; simpl in *; auto. intros ?. apply Hok. by apply Hleads.
Qed.

Lemma drain_inv s k l t s' :
  Inv s k l → step s (Drain t) = Ok s' →
  let n := Nat.min (length (opsQueue s)) maxGraphOpsBatch in
  t = k ∧ 0 < n ∧ Inv s' (k + n) l ∧ opsQueue s' = drop n (opsQueue s) ∧ stages s' !! t = Some (Drained (seq k n)).
Proof.
  intros HI. simpl. destruct (stages s !! t) as [[]|] eqn:Ht; try done. intros [= <-].
  pose proof (inv_stage _ _ _ HI _ _ Ht) as Hok. simpl in Hok. subst t. pose proof (stage_bound _ _ _ Ht) as Hlt.
  pose proof (inv_queue _ _ _ HI) as Hq. unfold drain. set (n := Nat.min _ _).
  assert (length (opsQueue s) = length (stages s) - k) as Hlen by (by rewrite Hq, length_seq).
  assert (0 < n ∧ k + n ≤ length (stages s) ∧ n ≤ maxGraphOpsBatch) as (Hn & Hkn & Hmax) by (unfold n, maxGraphOpsBatch; lia).
  assert (take n (opsQueue s) = seq k n) as -> by (rewrite Hq, take_seq; f_equal; lia).
  assert (leader_is : l = Some k) by (by apply (inv_leader _ _ _ HI _ _ Ht)). subst l.
  assert (∀ u su, u ≠ k → stages s !! u = Some su → ¬ leads (lead s) u su) as Hothers.
  { intros u su Hu Hs Hl. apply (inv_leader _ _ _ HI _ _ Hs) in Hl. naive_solver. }
  split_and!; [done|done| |done|simpl; by rewrite list_lookup_insert_eq]. destruct HI. split; simpl; rewrite ?length_insert; try done.
  - rewrite Hq, drop_seq. f_equal. lia.
  - intros u su ?. stage_cases; [done|]. naive_solver.
  - intros c Hc. left. destruct (inv_lead0 c Hc) as [?|[-> _]]; lia.
  - intros u su ?. stage_cases; [rewrite length_seq; split_and!; [lia|f_equal; lia|done]|].
    specialize (Hothers u su). specialize (inv_stage0 u su). destruct su; simpl in *; naive_solver lia.
  - intros u. rewrite inv_mu0. destruct (decide (u = k)) as [->|].
    + rewrite list_lookup_insert_eq by done. naive_solver.
    + by rewrite list_lookup_insert_ne by done.
  - assert (∀ u su c, stages s !! u = Some su → c ∈ pending su → c < k) as Hpend by (intros; eapply pending_old; eauto).
    intros t1 t2 s1 s2 c ????. stage_cases; simpl in *; rewrite ?elem_of_seq in *; eauto.
    all: exfalso; match goal with Hs : stages _ !! _ = Some ?su, Hc : _ ∈ pending ?su, Hp : (∀ u su c, _ → c ∈ pending su → c < _) |- _ => apply (Hp _ _ _ Hs) in Hc end; lia.
  - intros c Hc. destruct (decide (c < k)) as [Hck|].
    + destruct (inv_served0 c Hck) as [?|(u & su & Hu & ?)]; [by left|right]. exists u, su.
      rewrite list_lookup_insert_ne; [done|]. intros <-. simplify_eq. set_solver.
    + right. exists k, (Drained (seq k n)). rewrite list_lookup_insert_eq by done. split; [done|]. simpl. apply elem_of_seq. lia.
  - intros c Hc. destruct (inv_done0 c Hc) as (? & ? & Hno). split_and!; [lia|done|]. intros u su ?. stage_cases; [|eauto].
    simpl. rewrite elem_of_seq. lia.
Qed.

(** Passing the lead on: a second closing of [lead] never happens. *)
Lemma hand_over_inv s k l t b :
  Inv s k l → stages s !! t = Some (Unlocked b) →
  ∃ s', hand_over s t b = Ok s' ∧ Inv s' k (head (opsQueue s)) ∧ stages s' = <[t := Closing b]> (stages s)
        ∧ opsQueue s' = opsQueue s.
Proof.
  intros HI Ht. pose proof (inv_stage _ _ _ HI _ _ Ht) as Hok. simpl in Hok. destruct Hok as (Htk & Hb & Hmax & Hans).
  assert (leader_is : l = Some t) by (by apply (inv_leader _ _ _ HI _ _ Ht)). subst l.
  pose proof (stage_bound _ _ _ Ht) as Hlt. pose proof (inv_queue _ _ _ HI) as Hq. pose proof (inv_k _ _ _ HI) as Hk.
  assert (∀ u su, u ≠ t → stages s !! u = Some su → ¬ leads (lead s) u su) as Hothers.
  { intros u su Hu Hs Hl. apply (inv_leader _ _ _ HI _ _ Hs) in Hl. naive_solver. }
  assert (∀ ld ls l',
    match l' with None => ld = false ∧ k = length (stages s) | Some u => ld = true ∧ u < length (stages s) end →
    (∀ u su, u ≠ t → stages s !! u = Some su → leads ls u su ↔ l' = Some u) → l' ≠ Some t →
    (∀ c, c ∈ ls → c < k ∨ (c = k ∧ l' = Some k)) → (∀ u, u ∈ ls → u ∈ lead s ∨ u = k) →
    Inv (mkCommitQueue (opsQueue s) ld ls (done s) (calls s) (<[t := Closing b]> (stages s)) (mu s) (disk s) (answers s)) k l') as Hgen.
  { intros ld ls l' Hld Hls Hnt Hlead Hsub. destruct HI. split; simpl; rewrite ?length_insert; try done.
    - intros u su ?. stage_cases; [done|by apply Hls].
    - intros u su ?. stage_cases.
      + rewrite length_seq in *. split_and!; [done|eexists; split; [reflexivity|lia]|done|done|left; apply elem_of_seq; lia].
      + specialize (inv_stage0 u su). destruct su; simpl in *; auto. intros Hin. destruct (Hsub _ Hin); auto.
    - intros u. rewrite inv_mu0. destruct (decide (u = t)) as [->|].
      + rewrite list_lookup_insert_eq by done. naive_solver.
      + by rewrite list_lookup_insert_ne by done.
    - intros t1 t2 s1 s2 c ????. stage_cases; eauto.
    - intros c Hc. destruct (inv_served0 c Hc) as [?|(u & su & Hu & Hin)]; [by left|]. right. destruct (decide (u = t)) as [->|].
      + exists t, (Closing b). rewrite list_lookup_insert_eq by done. split; [done|]. by simplify_eq.
      + exists u, su. by rewrite list_lookup_insert_ne.
    - intros c Hc. destruct (inv_done0 c Hc) as (? & ? & Hno). split_and!; [done..|]. intros u su ?. stage_cases; [|eauto].
      by apply (Hno _ _ Ht). }
  unfold hand_over. destruct (opsQueue s) as [|next q] eqn:Eq.
  - eexists. split_and!; [done| |done|done]. unfold with_queue, set_stage. simpl.
    assert (k = length (stages s)) by (apply (f_equal length) in Hq; rewrite length_seq in Hq; simpl in Hq; lia).
    apply Hgen; simpl; try done; [| |by left].
    + intros u su Hu Hs. split; [|done]. intros Hl. by destruct (Hothers u su Hu Hs).
    + intros c Hc. destruct (inv_lead _ _ _ HI c Hc) as [?|[? ?]]; [by left|]. naive_solver lia.
  - assert (next = k ∧ k < length (stages s)) as [-> Hkn].
    { destruct (length (stages s) - k) eqn:E; [done|]. simpl in Hq. split; [congruence|lia]. }
    assert (k ∉ lead s) as Hno by (intros Hin; destruct (inv_lead _ _ _ HI k Hin) as [?|[_ [= ->]]]; lia).
    unfold close_lead. simpl. rewrite decide_False by done. eexists. split_and!; [done| |done|by rewrite Eq]. simpl. rewrite Eq.
    replace (opsLeading s) with true by (by destruct (inv_leading _ _ _ HI) as [-> _]).
    apply Hgen; simpl; try done.
    + intros u su Hu Hs. specialize (Hothers u su Hu Hs).
      assert (u = k → su = Waiting) as Hk'. { intros ->. pose proof (inv_stage _ _ _ HI _ _ Hs) as Hok. clear - HI Hok Hothers.
        destruct su; simpl in *; try done; try (by destruct Hothers); try (destruct Hok; lia). destruct (inv_done _ _ _ HI k Hok). lia. }
      destruct su; simpl in *; rewrite ?elem_of_union, ?elem_of_singleton; naive_solver.
    + intros [= ->]. lia.
    + intros c [->%elem_of_singleton|Hc]%elem_of_union; [by right|]. destruct (inv_lead _ _ _ HI c Hc) as [?|[? [= ->]]]; [by left|lia].
    + intros u. rewrite elem_of_union, elem_of_singleton. naive_solver.
Qed.

Lemma close_done_inv s k l t c rest :
  Inv s k l → stages s !! t = Some (Closing (c :: rest)) →
  ∃ s', step s (CloseDone t) = Ok s' ∧ Inv s' k l ∧ stages s' = <[t := Closing rest]> (stages s)
        ∧ done s' = {[c]} ∪ done s ∧ opsQueue s' = opsQueue s.
Proof.
  intros HI Ht. simpl. rewrite Ht. unfold close_done. simpl.
  pose proof (inv_stage _ _ _ HI _ _ Ht) as Hok. simpl in Hok. destruct Hok as (Htk & (m & Hm & Hmk) & Hmax & Hans & Hself).
  simpl in Hm. injection Hm as <- Hrest. pose proof (stage_bound _ _ _ Ht) as Hlt.
  assert (c ∉ rest) as Hnd by (rewrite Hrest, elem_of_seq; lia).
  assert (c ∉ done s) as Hno. { intros Hin. destruct (inv_done _ _ _ HI c Hin) as (_ & _ & Hp). apply (Hp _ _ Ht). simpl. left. }
  rewrite decide_False by done. eexists. split_and!; [done| |done|done|done]. pose proof (inv_apart _ _ _ HI t) as Hapart.
  destruct HI. split; simpl; rewrite ?length_insert; try done.
  - intros u su ?. stage_cases; [|by apply inv_leader0]. split; [done|]. intros ->. by apply (inv_leader0 _ _ Ht).
  - intros u su ?. stage_cases.
    + simpl. split_and!; [done|exists (S c); split; [done|simpl in Hmk; lia]|simpl in Hmax; lia| |].
      * intros x ?. apply Hans. by right.
      * destruct Hself as [[->|?]%elem_of_cons|?]; [right; set_solver|by left|right; set_solver].
    + specialize (inv_stage0 u su). destruct su; simpl in *; auto; [naive_solver set_solver|set_solver].
  - intros u. rewrite inv_mu0. destruct (decide (u = t)) as [->|].
    + rewrite list_lookup_insert_eq by done. naive_solver.
    + by rewrite list_lookup_insert_ne by done.
  - assert (∀ x, x ∈ pending (Closing rest) → x ∈ pending (Closing (c :: rest))) as Hsub by (intros x ?; by right).
    intros t1 t2 s1 s2 x ????. stage_cases; eauto.
  - intros x Hx. destruct (inv_served0 x Hx) as [?|(u & su & Hu & Hin)]; [left; set_solver|]. destruct (decide (u = t)) as [->|].
    + simplify_eq. simpl in Hin. apply elem_of_cons in Hin as [->|Hin]; [left; set_solver|]. right. exists t, (Closing rest).
      by rewrite list_lookup_insert_eq.
    + right. exists u, su. by rewrite list_lookup_insert_ne.
  - intros x [->%elem_of_singleton|Hx]%elem_of_union.
    + split_and!; [simpl in Hmk; lia|apply Hans; left|]. intros u su ?. stage_cases; [done|]. intros Hin.
      assert (t = u) by (eapply Hapart; [done|done|simpl; left|done]). done.
    + destruct (inv_done0 x Hx) as (? & ? & Hp). split_and!; [done..|]. intros u su ?. stage_cases; [|eauto].
      intros Hin. apply (Hp _ _ Ht). by right.
Qed.

(** The calls drained so far only grow, and an action never panics. *)
Ltac kept lem :=
  match goal with
  | HI : Inv _ _ _ |- match ?m with _ => _ end =>
      let E := fresh "E" in destruct m eqn:E; [|done|..]; [apply (lem _ _ _ _ HI) in E; eauto|..]; exfalso; simpl in E; by case_tests
  end.

Lemma step_inv s k l a :
  Inv s k l →
  match step s a with
  | Ok s' => ∃ k' l', Inv s' k' l' ∧ k ≤ k'
  | Fail _ => True
  | Panic | OutOfFuel => False
  end.
Proof.
  intros HI. destruct a.
  - destruct (arrive_inv s k l call HI) as (s' & -> & ? & _). eauto.
  - kept (λ s k l s', receive_inv s k l t s').
  - kept (λ s k l s', lock_inv s k l t s').
  - destruct (step s (Drain t)) eqn:E; [|done|..]; [|exfalso; simpl in E; by case_tests..].
    destruct (drain_inv _ _ _ _ _ HI E) as (-> & ? & ? & _). eexists _, _. split; [done|lia].
  - kept (λ s k l s', apply_inv s k l t sidecar fault s').
  - kept (λ s k l s', unlock_inv s k l t s').
  - simpl. destruct (stages s !! t) as [[]|] eqn:Ht; try done.
    destruct (hand_over_inv s k l t batch HI Ht) as (s' & -> & ? & _). eauto.
  - simpl. destruct (stages s !! t) as [[| | | | | |[|c rest]|]|] eqn:Ht; try done.
    destruct (close_done_inv s k l t c rest HI Ht) as (s' & E & ? & _). simpl in E. rewrite Ht in E. rewrite E. eauto.
  - kept (λ s k l s', return_inv s k l t s').
  - kept other_locks_inv.
  - kept (λ s k l s', other_unlocks_inv s k l d s').
Qed.

Lemma run_inv s k l schedule :
  Inv s k l →
  match run s schedule with
  | Ok s' => ∃ k' l', Inv s' k' l' ∧ k ≤ k'
  | Fail _ => True
  | Panic | OutOfFuel => False
  end.
Proof.
  revert s k l. induction schedule as [|a schedule IH]; intros s k l HI; simpl; [eauto|].
  pose proof (step_inv s k l a HI) as Hs. unfold run in *. simpl.
  destruct (step s a) as [s1|[]| |]; simpl in *; try done.
  destruct Hs as (k1 & l1 & HI1 & ?). specialize (IH s1 k1 l1 HI1). destruct (fold_checks _ _ _); try done.
  destruct IH as (k2 & l2 & ? & ?). eexists _, _. split; [done|lia].
Qed.

(** * Waiting: who a call waits on, and for how many of its steps *)

(** How far the leader is from taking the next batch, and from answering the
    one it has. *)
Definition to_next_drain (st : Stage) : nat :=
  match st with Waiting => 3 | AtLock => 2 | Holding => 1 | Drained _ => 6 | Applied _ => 5 | Unlocked _ => 4 | _ => 0 end.

Definition to_closing (st : Stage) : nat :=
  match st with Drained _ => 3 | Applied _ => 2 | Unlocked _ => 1 | _ => 0 end.

Inductive waits_on (s : CommitQueue) (c : nat) : nat → nat → Prop :=
  | waits_in_queue t st i :
      stages s !! t = Some st → leads (lead s) t st → opsQueue s !! i = Some c →
      waits_on s c t (to_next_drain st + 6 * (i / maxGraphOpsBatch) + 4 + i mod maxGraphOpsBatch)
  | waits_in_batch t st i :
      stages s !! t = Some st → pending st !! i = Some c → waits_on s c t (to_closing st + i + 1).

Lemma someone_serves s k l c :
  Inv s k l → c < length (stages s) → c ∉ done s → ∃ t d, waits_on s c t d.
Proof.
  intros HI Hc Hd. destruct (decide (c < k)) as [Hk|Hk].
  - destruct (inv_served _ _ _ HI c Hk) as [?|(t & st & Ht & [i Hi]%list_elem_of_lookup)]; [done|].
    eexists _, _. by eapply waits_in_batch.
  - pose proof (inv_leading _ _ _ HI) as Hl. destruct l as [t|]; [|lia]. destruct Hl as [_ [st Ht]%lookup_lt_is_Some].
    eexists _, _. eapply waits_in_queue; [done|by apply (inv_leader _ _ _ HI)|].
    rewrite (inv_queue _ _ _ HI). apply (lookup_seq _ _ (c - k)). lia.
Qed.

(** The actions of another goroutine leave the wait as it is. *)
Lemma set_stage_waits s s' c t d :
  waits_on s c t d → (∀ st, stages s !! t = Some st → stages s' !! t = Some st) →
  lead s ⊆ lead s' → (∃ q, opsQueue s' = opsQueue s ++ q) → waits_on s' c t d.
Proof.
  intros Hw Hkeep Hlead [q Hq]. destruct Hw as [t st i Ht Hl Hi|t st i Ht Hi].
  - apply waits_in_queue; [auto| |rewrite Hq; by apply lookup_app_l_Some]. destruct st; simpl in *; auto.
  - apply waits_in_batch; auto.
Qed.

Ltac waits_kept s :=
  apply (set_stage_waits s); simpl;
    [done
    |intros ? ?; first [done | by apply lookup_app_l_Some | rewrite list_lookup_insert_ne; [done|congruence]]
    |set_solver
    |first [by eexists | by exists []; rewrite app_nil_r | eexists []; rewrite app_nil_r; congruence]].

Lemma other_step_waits s k l a s' c t d :
  Inv s k l → waits_on s c t d → step s a = Ok s' → actor_of a ≠ Some t → waits_on s' c t d.
Proof.
  intros HI Hw Hs Hne. destruct a as [call|u|u|u|u sidecar fault|u|u|u|u| |d0]; simpl in Hne.
  4: { destruct (drain_inv _ _ _ _ _ HI Hs) as (-> & _). simpl in Hs. destruct (stages s !! k) as [[]|] eqn:Hu; simplify_eq/=.
    assert (l = Some k) as -> by (by apply (inv_leader _ _ _ HI _ _ Hu)). destruct Hw as [t st i Ht Hl Hi|t st i Ht Hi].
    - apply (inv_leader _ _ _ HI _ _ Ht) in Hl. congruence.
    - apply waits_in_batch; [|done]. simpl. rewrite list_lookup_insert_ne; congruence. }
  all: simpl in Hs; unfold arrive, hand_over, close_lead, close_done in Hs; repeat (case_match; simplify_eq/=).
  all: waits_kept s.
Qed.

(** The stages a leader can be in, seen from a queued call or one it took. *)
Lemma leading_stage_waits s s' c t st st' i d :
  stages s !! t = Some st → stages s' = <[t := st']> (stages s) → lead s ⊆ lead s' → opsQueue s' = opsQueue s →
  leads (lead s) t st → leads (lead s') t st' → opsQueue s !! i = Some c →
  to_next_drain st + d = S (to_next_drain st' + d) → 
  ∃ t' d', waits_on s' c t' d' ∧ to_next_drain st + 6 * (i / maxGraphOpsBatch) + 4 + i mod maxGraphOpsBatch = S d'.
Proof.
  intros Ht Hst Hlead Hq Hl Hl' Hi Hd. eexists t, _. split.
  - apply waits_in_queue; [rewrite Hst; apply list_lookup_insert_eq; by eapply lookup_lt_Some|exact Hl'|rewrite Hq; exact Hi].
  - lia.
Qed.

Lemma batch_stage_waits s s' c t st st' i j :
  stages s !! t = Some st → stages s' = <[t := st']> (stages s) →
  pending st' !! j = Some c → to_closing st + i = S (to_closing st' + j) →
  ∃ t' d', waits_on s' c t' d' ∧ to_closing st + i + 1 = S d'.
Proof.
  intros Ht Hst Hj Hd. eexists t, _. split.
  - eapply waits_in_batch; [rewrite Hst; apply list_lookup_insert_eq; by eapply lookup_lt_Some|exact Hj].
  - lia.
Qed.

(** The batch a call at place [i] of the queue is taken in: the next one, or a
    later one. *)
Lemma drained_waits s k l t s' c i :
  Inv s k l → step s (Drain t) = Ok s' → opsQueue s !! i = Some c →
  ∃ t' d', waits_on s' c t' d' ∧ 1 + 6 * (i / maxGraphOpsBatch) + 4 + i mod maxGraphOpsBatch = S d'.
Proof.
  intros HI Hs Hi. destruct (drain_inv _ _ _ _ _ HI Hs) as (-> & Hn & _ & Hq & Hst).
  pose proof (lookup_lt_Some _ _ _ Hi) as Hlt. assert (c = k + i) as ->.
  { rewrite (inv_queue _ _ _ HI) in Hi. by apply lookup_seq in Hi as [-> _]. }
  unfold maxGraphOpsBatch in *. destruct (decide (i < 64)).
  - eexists k, _. split; [apply (waits_in_batch _ _ _ _ i Hst); simpl; apply lookup_seq; lia|].
    rewrite Nat.div_small, Nat.mod_small by done. simpl. lia.
  - assert (∃ j, i = j + 1 * 64) as [j ->] by (exists (i - 64); lia).
    eexists k, _. split; [eapply (waits_in_queue _ _ _ _ j Hst); [done|]|].
    + rewrite Hq, lookup_drop. replace (Nat.min _ _ + _) with (j + 1 * 64) by lia. done.
    + unfold maxGraphOpsBatch. rewrite Nat.div_add, Nat.Div0.mod_add by done. simpl. lia.
Qed.

(** The lead goes to a call that is still in its select. *)
Lemma handed_to s k l t b s' :
  Inv s k l → stages s !! t = Some (Unlocked b) → Inv s' k (head (opsQueue s)) →
  stages s' = <[t := Closing b]> (stages s) → opsQueue s ≠ [] →
  ∃ next, head (opsQueue s) = Some next ∧ stages s' !! next = Some Waiting ∧ leads (lead s') next Waiting.
Proof.
  intros HI Ht HI1 Hst Hne. destruct (opsQueue s) as [|next q] eqn:Eq; [done|]. simpl in *. exists next. split; [done|].
  destruct (inv_leading _ _ _ HI1) as [_ [st1 Hst1]%lookup_lt_is_Some].
  pose proof (proj2 (inv_leader _ _ _ HI1 _ _ Hst1) eq_refl) as Hl1.
  assert (st1 = Waiting) as ->; [|done]. rewrite Hst in Hst1. stage_cases; try done.
  assert (l = Some t) as -> by (by apply (inv_leader _ _ _ HI _ _ Ht)).
  destruct st1; try done; exfalso;
    by assert (Some t = Some next) by (by apply (inv_leader _ _ _ HI _ _ Hst1)); simplify_eq.
Qed.

(** One step of the goroutine a call waits on brings its answer one step
    nearer. *)
Lemma own_step_waits s k l a s' c t d :
  Inv s k l → waits_on s c t d → step s a = Ok s' → actor_of a = Some t →
  (d = 1 ∧ c ∈ done s') ∨ ∃ t' d', waits_on s' c t' d' ∧ d = S d'.
Proof.
  intros HI Hw Hs Hne. destruct Hw as [t st i Ht Hl Hi|t st i Ht Hi].
  - right. pose proof (inv_stage _ _ _ HI _ _ Ht) as Hok.
    destruct a as [call|u|u|u|u sidecar fault|u|u|u|u| |d0]; simpl in Hne; simplify_eq.
    + simpl in Hs. rewrite Ht in Hs. destruct st; try done. case_match; simplify_eq.
      by eapply (leading_stage_waits s _ c t _ AtLock i 0).
    + simpl in Hs. rewrite Ht in Hs. destruct st; try done. case_match; simplify_eq.
      by eapply (leading_stage_waits s _ c t _ Holding i 0).
    + assert (st = Holding) as ->. { simpl in Hs. rewrite Ht in Hs. by destruct st. } by eapply drained_waits.
    + simpl in Hs. rewrite Ht in Hs. destruct st; try done. simplify_eq. by eapply (leading_stage_waits s _ c t _ (Applied _) i 0).
    + simpl in Hs. rewrite Ht in Hs. destruct st; try done. simplify_eq. by eapply (leading_stage_waits s _ c t _ (Unlocked _) i 0).
    + simpl in Hs. rewrite Ht in Hs. destruct st as [| | | | |b| |]; try done.
      destruct (hand_over_inv s k l t b HI Ht) as (s1 & E & HI1 & Hst & Hq). rewrite E in Hs. simplify_eq.
      destruct (handed_to s k l t b s' HI Ht HI1 Hst) as (next & Hnext & Hw & Hlw); [by intros H0; rewrite H0 in Hi|].
      eexists next, _. split; [eapply waits_in_queue; [done|done|by rewrite Hq]|done].
    + simpl in Hs. rewrite Ht in Hs. by destruct st.
    + simpl in Hs. rewrite Ht in Hs. destruct st as [| | | | | |[|]|]; try done. case_decide as Hd; [|done].
      destruct (inv_done _ _ _ HI t Hd). simpl in *. assert (t = k) by auto. lia.
  - destruct a as [call|u|u|u|u sidecar fault|u|u|u|u| |d0]; simpl in Hne; simplify_eq.
    all: simpl in Hs; rewrite Ht in Hs; destruct st as [| | |b|b|b|[|c1 b]|]; try done; simpl in Hi.
    + right. simplify_eq. by eapply (batch_stage_waits s _ c t _ (Applied b) i i).
    + right. simplify_eq. by eapply (batch_stage_waits s _ c t _ (Unlocked b) i i).
    + right. destruct (hand_over_inv s k l t b HI Ht) as (s1 & E & HI1 & Hst1 & Hq). rewrite E in Hs. simplify_eq.
      by eapply (batch_stage_waits s _ c t _ (Closing b) i i).
    + destruct (close_done_inv s k l t c1 b HI Ht) as (s1 & E & _ & Hst1 & Hd1 & _). simpl in E. rewrite Ht in E.
      rewrite E in Hs. simplify_eq. destruct i as [|i]; simpl in Hi.
      * left. simplify_eq. split; [done|]. rewrite Hd1. set_solver.
      * right. by eapply (batch_stage_waits s _ c t _ (Closing b) (S i) i).
Qed.
(** That goroutine can move, unless it waits for the store's lock and an
    operation outside the queue has it. *)
Lemma server_moves s k l c t d :
  Inv s k l → waits_on s c t d →
  (∃ a s', actor_of a = Some t ∧ step s a = Ok s') ∨ (stages s !! t = Some AtLock ∧ mu s = Some HeldElsewhere).
Proof.
  intros HI Hw.
  assert (∃ st, stages s !! t = Some st ∧ (leads (lead s) t st ∨ ∃ c1 b, st = Closing (c1 :: b))) as (st & Ht & Hst).
  { destruct Hw as [t st i Ht Hl _|t st i Ht Hi]; exists st; (split; [done|]); [by left|].
    destruct st as [| | |b|b|b|[|c1 b]|]; simpl in *; eauto; done. }
  destruct Hst as [Hl|(c1 & b & ->)].
  2: { left. destruct (close_done_inv s k l t c1 b HI Ht) as (s' & E & _). by exists (CloseDone t), s'. }
  destruct st as [| | |b|b|b|b|]; simpl in Hl; try done.
  - left. exists (ReceiveLead t). eexists. split; [done|]. simpl. by rewrite Ht, decide_True.
  - destruct (mu s) as [[u|]|] eqn:Em; [|by right|left; exists (LockStore t); eexists; split; [done|]; simpl; by rewrite Ht, Em].
    exfalso. apply (inv_mu _ _ _ HI) in Em as (su & Hu & Hh). assert (leads (lead s) u su) as Hlu by (by destruct su).
    assert (l = Some t) as -> by (by apply (inv_leader _ _ _ HI _ _ Ht)). apply (inv_leader _ _ _ HI _ _ Hu) in Hlu. by simplify_eq.
  - left. exists (Drain t). eexists. split; [done|]. simpl. by rewrite Ht.
  - left. exists (Apply t ∅ false). eexists. split; [done|]. simpl. by rewrite Ht.
  - left. exists (UnlockStore t). eexists. split; [done|]. simpl. by rewrite Ht.
  - left. destruct (hand_over_inv s k l t b HI Ht) as (s' & E & _). exists (HandOver t), s'. split; [done|]. simpl. by rewrite Ht.
Qed.
End Step.

(** The goroutine a call waits on, computed. *)
#[export] Instance leads_dec ls t st : Decision (leads ls t st).
Proof. destruct st; simpl; apply _. Defined.

Definition leading (s : CommitQueue) (t : nat) : bool :=
  match stages s !! t with Some st => bool_decide (leads (lead s) t st) | None => false end.

Definition server (s : CommitQueue) (c : nat) : option nat :=
  match list_find (λ st, c ∈ pending st) (stages s) with
  | Some (t, _) => Some t
  | None => if decide (c ∈ opsQueue s) then List.find (leading s) (seq 0 (length (stages s))) else None
  end.

Lemma waits_on_server s k l c t d : Inv s k l → waits_on s c t d → server s c = Some t.
Proof.
  intros HI [t' st i Ht Hl Hi|t' st i Ht Hi]; unfold server.
  - destruct (list_find _ _) as [[u su]|] eqn:E.
    + apply list_find_Some in E as (Hu & Hp & _). pose proof (pending_old _ _ _ _ _ _ _ (inv_stage _ _ _ HI _ _ Hu) Hp).
      rewrite (inv_queue _ _ _ HI) in Hi. apply lookup_seq in Hi. lia.
    + rewrite decide_True by (by eapply list_elem_of_lookup_2). destruct (List.find _ _) as [u|] eqn:Ef.
      * apply List.find_some in Ef as [_ Hu]. unfold leading in Hu. destruct (stages s !! u) as [su|] eqn:Hsu; [|done].
        apply bool_decide_eq_true in Hu. apply (inv_leader _ _ _ HI _ _ Hsu) in Hu. apply (inv_leader _ _ _ HI _ _ Ht) in Hl. congruence.
      * eapply List.find_none in Ef; [|apply list_elem_of_In, elem_of_seq; split; [lia|by eapply lookup_lt_Some]].
        unfold leading in Ef. rewrite Ht in Ef. by apply bool_decide_eq_false in Ef.
  - destruct (list_find _ _) as [[u su]|] eqn:E.
    + apply list_find_Some in E as (Hu & Hp & _). f_equal.
      eapply (inv_apart _ _ _ HI); [done|done|done|by eapply list_elem_of_lookup_2].
    + apply list_find_None in E. rewrite Forall_lookup in E. destruct (E _ _ Ht). by eapply list_elem_of_lookup_2.
Qed.

(** * What the queue promises *)

Section Promises.
Context `{Unicode}.
Variable readGraph : string → option Graph.
Variable marshalGraph : Graph → option string.
Variable decode : string → option Meta.
Variable encode : Meta → option string.
Variable Rev : string → string.
Notation serve := (serve readGraph marshalGraph decode encode Rev).
Notation step := (step readGraph marshalGraph decode encode Rev).
Notation run := (run readGraph marshalGraph decode encode Rev).

(** How many steps of a schedule the goroutine that call [c] waits on takes. *)
Fixpoint helped (s : CommitQueue) (c : nat) (schedule : list Action) : nat :=
  match schedule with
  | [] => 0
  | a :: schedule' =>
      match step s a with
      | Ok s' => (if decide (actor_of a = server s c ∧ is_Some (server s c)) then 1 else 0) + helped s' c schedule'
      | _ => 0
      end
  end.

Lemma step_done s a s' : step s a = Ok s' → done s ⊆ done s'.
Proof.
  destruct a; simpl; unfold arrive, hand_over, close_lead, close_done; intros Hs;
    repeat (case_match; simplify_eq/=); set_solver.
Qed.

Lemma run_cons s a schedule : run s (a :: schedule) = (s' ← step s a; run s' schedule).
Proof. done. Qed.

Lemma run_done s schedule s' : run s schedule = Ok s' → done s ⊆ done s'.
Proof.
  revert s. induction schedule as [|a schedule IH]; intros s; [by intros [= ->]|].
  rewrite run_cons. intros (s1 & Hs & Hr)%bind_ok. etrans; [by eapply step_done|]. by apply IH.
Qed.

Lemma step_stages s a s' : step s a = Ok s' → length (stages s) ≤ length (stages s').
Proof.
  destruct a; simpl; unfold arrive, hand_over, close_lead, close_done; intros Hs;
    repeat (case_match; simplify_eq/=); rewrite ?length_insert, ?length_app; lia.
Qed.

Lemma run_stages s schedule s' : run s schedule = Ok s' → length (stages s) ≤ length (stages s').
Proof.
  revert s. induction schedule as [|a schedule IH]; intros s; [by intros [= ->]|].
  rewrite run_cons. intros (s1 & Hs & Hr)%bind_ok. etrans; [by eapply step_stages|]. by apply IH.
Qed.

Lemma helped_enough s k l c t d schedule s' :
  Inv s k l → waits_on s c t d → run s schedule = Ok s' → d ≤ helped s c schedule → c ∈ done s'.
Proof.
  revert s k l t d. induction schedule as [|a schedule IH]; intros s k l t d HI Hw Hr Hd.
  { simpl in Hd. destruct Hw; lia. }
  rewrite run_cons in Hr. apply bind_ok in Hr as (s1 & Hs & Hr). simpl in Hd. rewrite Hs in Hd.
  pose proof (step_inv readGraph marshalGraph decode encode Rev s k l a HI) as HI1. rewrite Hs in HI1. destruct HI1 as (k1 & l1 & HI1 & _).
  pose proof (waits_on_server s k l c t d HI Hw) as Hsrv. destruct (decide (actor_of a = Some t)) as [Ha|Ha].
  - rewrite decide_True in Hd by (rewrite Hsrv; eauto).
    destruct (own_step_waits _ _ _ _ _ s k l a s1 c t d HI Hw Hs Ha) as [[-> Hdone]|(t1 & d1 & Hw1 & ->)].
    + by eapply run_done.
    + eapply IH; [done|done|done|lia].
  - rewrite decide_False in Hd by (rewrite Hsrv; naive_solver). eapply IH; [done| |done|exact Hd].
    exact (other_step_waits _ _ _ _ _ s k l a s1 c t d HI Hw Hs Ha).
Qed.

Lemma place_bound s k l c i : Inv s k l → opsQueue s !! i = Some c →
  ∃ t d, waits_on s c t d ∧ d ≤ 10 + 6 * (i / maxGraphOpsBatch) + i mod maxGraphOpsBatch.
Proof.
  intros HI Hi. pose proof (inv_leading _ _ _ HI) as Hl. pose proof (lookup_lt_Some _ _ _ Hi) as Hlt.
  rewrite (inv_queue _ _ _ HI), length_seq in Hlt. destruct l as [t|]; [|lia]. destruct Hl as [_ [st Ht]%lookup_lt_is_Some].
  exists t. eexists. split; [eapply waits_in_queue; [done|by apply (inv_leader _ _ _ HI)|done]|]. destruct st; simpl; lia.
Qed.

(** C24: nobody is left waiting.  Whatever the goroutines, the arrivals and the
    store's other operations do in between, a call with [i] calls ahead of it
    has its answer once the goroutine it waits on (the leader, then the leader
    of its batch) has taken 10 + 6(i/64) + (i mod 64) steps; and until then that
    goroutine can take a step, unless it waits for the store's lock while an
    operation outside the queue holds it. *)
Theorem every_call_is_answered d before s i c after s'
    (Hbefore : run (idle_queue d) before = Ok s) (Hplace : opsQueue s !! i = Some c) (Hafter : run s after = Ok s') :
  (10 + 6 * (i / maxGraphOpsBatch) + i mod maxGraphOpsBatch ≤ helped s c after → c ∈ done s' ∧ is_Some (answers s' !! c)) ∧
  (c ∉ done s' → ∃ t, server s' c = Some t ∧
     ((∃ a s2, actor_of a = Some t ∧ step s' a = Ok s2) ∨ (stages s' !! t = Some AtLock ∧ mu s' = Some HeldElsewhere))).
Proof.
  pose proof (run_inv readGraph marshalGraph decode encode Rev _ _ _ before (idle_inv d)) as HI. rewrite Hbefore in HI.
  destruct HI as (k & l & HI & _). pose proof (run_inv readGraph marshalGraph decode encode Rev _ _ _ after HI) as HI'.
  rewrite Hafter in HI'. destruct HI' as (k' & l' & HI' & _). split.
  - intros Hh. destruct (place_bound s k l c i HI Hplace) as (t & n & Hw & Hn).
    assert (c ∈ done s') as Hd by (apply (helped_enough s k l c t n after s'); [done..|lia]). split; [done|]. by apply (inv_done _ _ _ HI').
  - intros Hd. assert (c < length (stages s')) as Hc.
    { apply list_elem_of_lookup_2 in Hplace. rewrite (inv_queue _ _ _ HI), elem_of_seq in Hplace.
      apply run_stages in Hafter. lia. }
    destruct (someone_serves s' k' l' c HI' Hc Hd) as (t & n & Hw). exists t. split; [by eapply waits_on_server|].
    by eapply server_moves.
Qed.
(** The queue's discipline.  In whatever order the goroutines run, no channel
    is closed twice and no schedule panics; the queue holds exactly the calls not
    yet drained, oldest first, and is empty when nobody leads; there is at most
    one leader, and the batch a leader drains contains its own call and at most 64
    calls; a call that is told it is done has its answer and is in no batch any
    more. *)
Theorem one_leader_serves_in_order d schedule :
  match run (idle_queue d) schedule with
  | Ok s =>
      (∃ drained, opsQueue s = seq drained (length (calls s) - drained) ∧
         ∀ c, c ∈ done s → c < drained ∧ is_Some (answers s !! c) ∧ ∀ t st, stages s !! t = Some st → c ∉ pending st) ∧
      (opsLeading s = false → opsQueue s = []) ∧
      (∀ t t' st st', stages s !! t = Some st → stages s !! t' = Some st' →
         leads (lead s) t st → leads (lead s) t' st' → t = t') ∧
      (∀ t st, stages s !! t = Some st → leads (lead s) t st → pending st ≠ [] →
         t ∈ pending st ∧ length (pending st) ≤ maxGraphOpsBatch)
  | Fail _ => True
  | Panic | OutOfFuel => False
  end.
Proof.
  pose proof (run_inv readGraph marshalGraph decode encode Rev _ _ _ schedule (idle_inv d)) as HI.
  destruct (run (idle_queue d) schedule) as [s| | |]; try done. destruct HI as (k & l & HI & _). split_and!.
  - exists k. split; [rewrite (inv_calls _ _ _ HI); apply (inv_queue _ _ _ HI)|]. apply (inv_done _ _ _ HI).
  - intros Hl. pose proof (inv_leading _ _ _ HI) as Hlead. destruct l; [destruct Hlead; congruence|]. destruct Hlead as [_ ->].
    by rewrite (inv_queue _ _ _ HI), Nat.sub_diag.
  - intros t t' st st' Ht Ht' Hl Hl'. apply (inv_leader _ _ _ HI _ _ Ht) in Hl. apply (inv_leader _ _ _ HI _ _ Ht') in Hl'. congruence.
  - intros t st Ht Hl Hp. pose proof (inv_stage _ _ _ HI _ _ Ht) as Hok.
    destruct st; simpl in *; try done; destruct Hok as (? & -> & ? & _) || destruct Hok as (? & -> & ?); (split; [apply elem_of_seq; lia|done]).
Qed.

(** ** The files are those of the batches, one after the other *)

Inductive StoreEvent :=
  | BatchCommitted (batch : list Call) (sidecar : gmap string string) (fault : bool)
  | OtherWrite (d : Disk).

(** The specification: events on the disk, no goroutines. *)
Definition store_event (st : Disk * list Answer) (e : StoreEvent) : Disk * list Answer :=
  match e with
  | BatchCommitted batch sidecar fault =>
      let r := serve sidecar st.1 batch fault in (r.1, st.2 ++ r.2)
  | OtherWrite d => (d, st.2)
  end.

Definition store_run (d : Disk) (events : list StoreEvent) : Disk * list Answer := foldl store_event (d, []) events.

Definition batch_of (e : StoreEvent) : list Call := match e with BatchCommitted batch _ _ => batch | OtherWrite _ => [] end.

(** The calls applied so far: all that were drained, but for the batch at
    hand. *)
Definition applied_calls (s : CommitQueue) (n : nat) : Prop :=
  (∃ t b, stages s !! t = Some (Drained b) ∧ n = t) ∨
  ((∀ t b, stages s !! t ≠ Some (Drained b)) ∧ n = length (stages s) - length (opsQueue s)).

Definition follows (d : Disk) (s : CommitQueue) (events : list StoreEvent) : Prop :=
  ∃ n, applied_calls s n ∧ concat (batch_of <$> events) = take n (calls s) ∧
    Forall (λ e, length (batch_of e) ≤ maxGraphOpsBatch) events ∧
    (store_run d events).1 = disk s ∧ length (store_run d events).2 = n ∧ n ≤ length (calls s) ∧
    (∀ c, answers s !! c = (store_run d events).2 !! c).

Lemma store_run_snoc d events e : store_run d (events ++ [e]) = store_event (store_run d events) e.
Proof. unfold store_run. by rewrite foldl_app. Qed.

(** Steps that touch neither the files nor a drained batch. *)
Lemma quiet_follows d s s' events t st :
  follows d s events → disk s' = disk s → answers s' = answers s → opsQueue s' = opsQueue s → calls s' = calls s →
  stages s' = <[t := st]> (stages s) →
  (∀ b, stages s !! t ≠ Some (Drained b)) → (∀ b, st ≠ Drained b) → follows d s' events.
Proof.
  intros (n & Hn & Hc & Hb & Hd & Hl & Hle & Ha) Hd' Ha' Hq' Hc' Hs' Ht Hst. exists n. rewrite Hd', Ha', Hc'. split_and!; try done.
  destruct Hn as [(u & b & Hu & ->)|[Hno ->]].
  - left. exists u, b. split; [|done]. rewrite Hs', list_lookup_insert_ne; [done|]. intros ->. by destruct (Ht b).
  - right. rewrite Hs', Hq', length_insert. split; [|done]. intros u b Hu. stage_cases; [by destruct (Hst b)|by destruct (Hno u b)].
Qed.
Lemma zip_seq_lookup t (xs : list Answer) c :
  (list_to_map (zip (seq t (length xs)) xs) : gmap nat Answer) !! c = if decide (c < t) then None else xs !! (c - t).
Proof.
  revert t. induction xs as [|x xs IH]; intros t; simpl; [by case_decide|]. destruct (decide (c = t)) as [->|Hne].
  - rewrite lookup_insert_eq, decide_False by lia. by rewrite Nat.sub_diag.
  - rewrite lookup_insert_ne by done. rewrite IH. repeat case_decide; try lia; [done|].
    by replace (c - t) with (S (c - S t)) by lia.
Qed.

Lemma requests_seq s t m : t + m ≤ length (calls s) → requests s (seq t m) = take m (drop t (calls s)).
Proof.
  unfold requests. revert t. induction m as [|m IH]; intros t Hm; simpl; [done|].
  destruct (lookup_lt_is_Some_2 (calls s) t) as [call Hc]; [lia|]. rewrite Hc. simpl. rewrite (drop_S _ call) by done.
  simpl. f_equal. apply IH. lia.
Qed.

(** At most one batch is drained and not yet applied: it is the leader's. *)
Lemma one_drained s k l t st u b :
  Inv s k l → stages s !! t = Some st → leads (lead s) t st → stages s !! u = Some (Drained b) → u = t.
Proof.
  intros HI Ht Hl Hu. apply (inv_leader _ _ _ HI _ _ Ht) in Hl.
  assert (l = Some u) by (by apply (inv_leader _ _ _ HI _ _ Hu)). congruence.
Qed.

Lemma apply_follows d s k l events t sidecar fault s' :
  Inv s k l → follows d s events → step s (Apply t sidecar fault) = Ok s' → ∃ events', follows d s' events'.
Proof.
  intros HI (n & Hn & Hc & Hb & Hd & Hl & Hle & Ha) Hs. simpl in Hs.
  destruct (stages s !! t) as [[| | |b| | | |]|] eqn:Ht; try done. injection Hs as <-.
  pose proof (inv_stage _ _ _ HI _ _ Ht) as (Htk & Hbs & Hmax). pose proof (inv_k _ _ _ HI). pose proof (inv_calls _ _ _ HI).
  assert (n = t) as ->.
  { destruct Hn as [(u & b' & Hu & ->)|[Hno _]]; [|by destruct (Hno t b)]. by eapply (one_drained s k l t _ u b'). }
  assert (requests s b = take (k - t) (drop t (calls s))) as Hreq by (rewrite Hbs; apply requests_seq; lia).
  exists (events ++ [BatchCommitted (requests s b) sidecar fault]), k. unfold apply_batch. simpl.
  pose proof (serve_answers readGraph marshalGraph decode encode Rev sidecar (disk s) (requests s b) fault) as Hserve.
  assert (length (requests s b) = k - t) as Hlen by (rewrite Hreq, length_take, length_drop; lia).
  rewrite store_run_snoc. simpl. rewrite Hd. split_and!; try done.
  - right. simpl. rewrite length_insert, (inv_queue _ _ _ HI), length_seq. split; [|lia].
    intros u b' Hu. apply list_lookup_insert_Some in Hu as [(_ & ? & _)|[Hne Hu]]; [done|].
    by destruct Hne; symmetry; eapply (one_drained s k l t _ u b').
  - rewrite fmap_app, concat_app, Hc. simpl. rewrite app_nil_r, Hreq.
    rewrite <- (take_drop t (take k (calls s))), take_take, skipn_firstn_comm. by rewrite Nat.min_l by lia.
  - apply Forall_app. split; [done|]. apply Forall_singleton. simpl. rewrite Hlen. rewrite Hbs, length_seq in Hmax. done.
  - rewrite length_app, Hl, Hserve, Hlen. lia.
  - lia.
  - intros c. rewrite lookup_union. rewrite Hbs at 1. rewrite <- Hlen, <- Hserve, zip_seq_lookup, Ha. case_decide as Hct.
    + rewrite (left_id_L None _). by rewrite lookup_app_l by lia.
    + rewrite (lookup_ge_None_2 (store_run d events).2) by lia. rewrite (right_id_L None _).
      rewrite lookup_app_r by lia. by rewrite Hl.
Qed.

Lemma step_follows d s k l events a s' :
  Inv s k l → follows d s events → step s a = Ok s' → ∃ events', follows d s' events'.
Proof.
  intros HI Hf Hs. destruct a as [call|u|u|u|u sidecar fault|u|u|u|u| |d0].
  4: { destruct (drain_inv readGraph marshalGraph decode encode Rev s k l u s' HI Hs) as (-> & Hn & HI' & Hq & Hst). exists events.
    simpl in Hs. destruct (stages s !! k) as [[]|] eqn:Hk; try done. injection Hs as <-.
    destruct Hf as (n & Ha & Hf). exists n. simpl. split; [|done].
    left. exists k. eexists. split; [done|]. destruct Ha as [(u & b & Hu & ->)|[_ ->]].
    - by eapply (one_drained s k l k _ u b).
    - rewrite (inv_queue _ _ _ HI), length_seq. pose proof (inv_k _ _ _ HI). lia. }
  4: by eapply apply_follows.
  all: try (exists events; simpl in Hs; unfold hand_over, close_lead, close_done in Hs; repeat (case_match; simplify_eq/=);
    eapply (quiet_follows d s _ events u); simpl; try done; intros; congruence).
  - exists events. destruct (arrive_inv readGraph marshalGraph decode encode Rev s k l call HI) as (s1 & E & _ & Hq). rewrite E in Hs. simplify_eq.
    assert (stages s' = stages s ++ [Waiting] ∧ calls s' = calls s ++ [call] ∧ disk s' = disk s ∧ answers s' = answers s) as (Hst & Hca & Hdi & Han).
    { simpl in E. unfold arrive, close_lead in E. by repeat (case_match; simplify_eq/=). }
    destruct Hf as (n & Hn & Hc & Hb & Hd & Hl & Hle & Ha). exists n. rewrite Hca, Hdi, Han, take_app_le by done.
    split_and!; try done; [|rewrite length_app; lia]. destruct Hn as [(u & b & Hu & ->)|[Hno ->]].
    + left. exists u, b. split; [|done]. rewrite Hst. by apply lookup_app_l_Some.
    + right. rewrite Hst, Hq, !length_app. simpl. split; [|lia]. intros u b Hu. stage_cases; by destruct (Hno u b).
  - exists events. simpl in Hs. destruct (mu s); simplify_eq. exact Hf.
  - exists (events ++ [OtherWrite d0]). simpl in Hs. destruct (mu s) as [[]|]; simplify_eq.
    destruct Hf as (n & Hn & Hc & Hb & Hd & Hl & Hle & Ha). exists n. rewrite store_run_snoc, fmap_app, concat_app. simpl.
    rewrite app_nil_r. split_and!; try done. apply Forall_app. split; [done|]. apply Forall_singleton. simpl. lia.
Qed.

(** C25: the queue refines an atomic store.  However the goroutines are scheduled,
    the files on disk and every answer given are those of a plain sequence of
    events, batches of at most 64 calls and the other operations' writes, each
    done in one step; the batches' calls, one after the other, are the calls in
    order of arrival, and every call told it is done is among them. *)
Theorem queue_refines_atomic_batches d schedule s (Hrun : run (idle_queue d) schedule = Ok s) :
  ∃ events, let result := store_run d events in
    disk s = result.1 ∧ (∀ c, answers s !! c = result.2 !! c) ∧
    concat (batch_of <$> events) `prefix_of` calls s ∧
    Forall (λ e, length (batch_of e) ≤ maxGraphOpsBatch) events ∧
    (∀ c, c ∈ done s → c < length (concat (batch_of <$> events))).
Proof.
  assert (∀ sched s0 k l events, Inv s0 k l → follows d s0 events → run s0 sched = Ok s →
    ∃ k' l' events', Inv s k' l' ∧ follows d s events') as Hgen.
  { clear Hrun schedule. induction sched as [|a sched IH]; intros s0 k l events HI Hf Hr; [injection Hr as <-; eauto|].
    rewrite run_cons in Hr. apply bind_ok in Hr as (s1 & Hs & Hr).
    pose proof (step_inv readGraph marshalGraph decode encode Rev s0 k l a HI) as HI1. rewrite Hs in HI1. destruct HI1 as (k1 & l1 & HI1 & _).
    destruct (step_follows d s0 k l events a s1 HI Hf Hs) as [events1 Hf1]. eauto. }
  destruct (Hgen schedule (idle_queue d) 0 None []) as (k & l & events & HI & n & _ & Hc & Hb & Hd & Hl & Hle & Ha).
  - apply idle_inv.
  - exists 0. split_and!; try done. right. split; [|done]. by intros [].
  - done.
  - exists events. split_and!; try done.
    + rewrite Hc. by eexists; symmetry; apply take_drop.
    + intros c Hcd. rewrite Hc, length_take, Nat.min_l by lia. rewrite <- Hl.
      destruct (inv_done _ _ _ HI c Hcd) as (_ & [x Hx] & _). rewrite Ha in Hx. by eapply lookup_lt_Some.
Qed.
End Promises.

(** ** The theorems on a small schedule: a second call arrives while the first
    one's batch is being applied, and waits the longest a head can. *)
Definition arrivals : list Action :=
  [Arrive (wire "b" "c"); ReceiveLead 0; LockStore 0; Drain 0; Arrive (wire "c" "a")].

Definition servings : list Action :=
  [Apply 0 ∅ false; UnlockStore 0; HandOver 0; CloseDone 0; ReceiveLead 1; OtherLocks; OtherUnlocks toy_disk; LockStore 1;
   Drain 1; Apply 1 ∅ false; UnlockStore 1; HandOver 1; CloseDone 1].

Definition ending (schedule : list Action) : CommitQueue :=
  match run toy_read toy_marshal bit_decode bit_encode id (idle_queue toy_disk) schedule with Ok s => s | _ => idle_queue toy_disk end.

Lemma every_call_is_answered_witness :
  1 ∈ done (ending (arrivals ++ servings)) ∧ is_Some (answers (ending (arrivals ++ servings)) !! 1).
Proof.
  apply (every_call_is_answered toy_read toy_marshal bit_decode bit_encode id toy_disk arrivals (ending arrivals) 0 1 servings
           (ending (arrivals ++ servings))); [vm_compute; reflexivity..|]. apply Nat.leb_le. vm_compute. reflexivity.
Defined.

Lemma queue_refines_atomic_batches_witness :
  let s := ending (arrivals ++ servings) in
  ∃ events, let result := store_run toy_read toy_marshal bit_decode bit_encode id toy_disk events in
    disk s = result.1 ∧ (∀ c, answers s !! c = result.2 !! c) ∧
    concat (batch_of <$> events) `prefix_of` calls s ∧
    Forall (λ e, length (batch_of e) ≤ maxGraphOpsBatch) events ∧
    (∀ c, c ∈ done s → c < length (concat (batch_of <$> events))).
Proof.
  apply (queue_refines_atomic_batches toy_read toy_marshal bit_decode bit_encode id toy_disk (arrivals ++ servings)).
  vm_compute. reflexivity.
Defined.
