(* ===== verification/GraphCrud.v ===== *)
(** Creating, duplicating and deleting nodes (internal/store/graph_crud.go,
    graph_cleanup.go): the graph each leaves, and what creating one writes. *)

From S2P Require Import Prelude GoStr GoFloat GoTime Dsl Graph NodeTypes Workflow Roles State Readiness Validate Permission NodeFile GraphOps GraphStore GraphCommit.
From Stdlib Require Import Ascii SpecFloat.
Open Scope Z_scope.

Inductive CrudError :=
  | NodeRequired
  | NoNodeIds
  | InvalidNodeId
  | NodeMissing (id : string)
  | NodeExists (id : string)
  | FileExists (id : string)
  | CrudDenied (d : Denied)
  | BadDocument (e : NodeFileError)
  | IdsExhausted
  | TrashUnreadable
  | CrudStorage (e : StorageError)
  | CrudLoad
  | CrudMarshal
  | CrudWrite.

Abbreviation crud A := (outcome CrudError A).

Definition permitted {A} (d : option Denied) (k : crud A) : crud A :=
  match d with Some e => Fail (CrudDenied e) | None => k end.

(** * Automatic ids *)

(** fmt.Sprintf "node-%04d". *)
Definition pad4 (digits : string) : string :=
  concat_str (replicate (4 - String.length digits) "0") +:+ digits.
Definition node_name (number : Z) : string := "node-" +:+ pad4 (itoa number).

(** What the search for fresh ids keeps: the next number, the ids in use, the
    ids found, newest first, and how many are still wanted. *)
Record IdSearch := mkIdSearch { is_number : Z; is_used : gset string; is_found : list string; is_wanted : nat }.

Definition last_number : Z := 9999999.

(** Whether the loop runs its body once more. *)
Definition searching (st : IdSearch) : bool := (is_number st <=? last_number) && (0 <? is_wanted st)%nat.

(** The body of the loop; [on_disk] is statPath of the node's file. *)
Definition id_step (on_disk : string → bool) (st : IdSearch) : IdSearch :=
  let id := node_name (is_number st) in
  if bool_decide (id ∈ is_used st) || on_disk id
  then mkIdSearch (is_number st + 1) (is_used st) (is_found st) (is_wanted st)
  else mkIdSearch (is_number st + 1) ({[ id ]} ∪ is_used st) (id :: is_found st) (pred (is_wanted st)).

(** At most 2^depth steps; 24 is more than the seven-digit numbers need. *)
Fixpoint id_steps (depth : nat) (on_disk : string → bool) (st : IdSearch) : IdSearch :=
  if negb (searching st) then st
  else match depth with
       | O => id_step on_disk st
       | S depth' => id_steps depth' on_disk (id_steps depth' on_disk st)
       end.

(** nextNodeIDsLocked; [trash] is the list of node ids in the trash, [None]
    when it cannot be read. *)
Definition nextNodeIDs (g : Graph) (trash : option (list string)) (on_disk : string → bool) (n : nat) : crud (list string) :=
  match trash with
  | None => Fail TrashUnreadable
  | Some items =>
      let used := list_to_set (n_ID <$> node_list g) ∪ list_to_set (List.filter (λ id, negb (String.eqb id EmptyString)) items) in
      let st := id_steps 24 on_disk (mkIdSearch 1 used [] n) in
      if (0 <? is_wanted st)%nat then Fail IdsExhausted else Ok (rev (is_found st))
  end.

(** * Creating *)

Section Create.
Context `{Unicode}.

Definition set_id (n : Node) (id : string) : Node :=
  mkNode id (n_Title n) (n_Kind n) (n_Priority n) (n_Assignee n) (n_Deadline n)
    (n_WriteAccess n) (n_Requires n) (n_Tags n) (n_Effects n) (n_Links n) (n_Refs n) (n_Acceptance n) (n_Workflow n).

Definition set_kind (n : Node) (kind : string) : Node :=
  mkNode (n_ID n) (n_Title n) kind (n_Priority n) (n_Assignee n) (n_Deadline n)
    (n_WriteAccess n) (n_Requires n) (n_Tags n) (n_Effects n) (n_Links n) (n_Refs n) (n_Acceptance n) (n_Workflow n).

(** The node as it comes, with what its document says and defaults filled
    in. *)
Definition settle_kind (n : Node) : Node :=
  let kind := NormalizeNodeKind (n_Kind n) in
  set_kind n (if String.eqb kind EmptyString then NodeKindTask else kind).

Definition incoming (n : Node) (meta : Meta) : Node :=
  let n := settle_kind (hydrateNodeFromMeta n meta) in
  set_access n (normalizeWriteAccess (n_WriteAccess n)).

(** The criteria of a new node: unlocked, and by whoever creates it. *)
Definition new_acceptance (actor : Actor) (a : option Acceptance) : option Acceptance :=
  match normalizeAcceptance actor None a with
  | Some a => Some (mkAcceptance (acc_Items a) false (acceptanceAttribution actor))
  | None => None
  end.

(** The checks on a node that is to be created, and the node that passes. *)
Definition admit_node (actor : Actor) (g : Graph) (n : Node) : crud Node :=
  permitted (if negb (KnownNodeKind (Some g) (n_Kind n)) then Some (unknownNodeTypeError (n_ID n) (n_Kind n)) else None) (
  permitted (checkRole actor g CapCreate (Some n)) (
  permitted (if bool_decide (n_Workflow n ≠ None) then checkWorkflowEdit actor (n_ID n) None (n_Workflow n) else None) (
  if bool_decide (n_Acceptance n = None) then Ok n
  else
    let acceptance := new_acceptance actor (n_Acceptance n) in
    permitted (checkAcceptanceWrite actor g (Some n) None acceptance true) (Ok (with_acceptance n acceptance))))).

Definition of_storage {A} (m : outcome StorageError A) : crud A :=
  match m with Ok a => Ok a | Fail e => Fail (CrudStorage e) | Panic => Panic | OutOfFuel => OutOfFuel end.

Definition of_document {A} (m : outcome NodeFileError A) : crud A :=
  match m with Ok a => Ok a | Fail e => Fail (BadDocument e) | Panic => Panic | OutOfFuel => OutOfFuel end.

(** CreateNode between loading the graph and writing: the node, its document and
    the graph with it. *)
Definition create_in_graph (encode : Meta → option string) (actor : Actor) (g : Graph)
    (files : gmap string string) (trash : option (list string)) (n : Node) (nf : NodeFile) : crud (Node * string * Graph) :=
  n ← admit_node actor g (incoming n (nf_Meta nf));
  let on_disk id := bool_decide (is_Some (files !! id)) in
  n ← (if String.eqb (n_ID n) EmptyString
       then ids ← nextNodeIDs g trash on_disk 1; match ids with id :: _ => Ok (set_id n id) | [] => Panic end
       else Ok n);
  if negb (ValidNodeID (n_ID n)) then Fail InvalidNodeId
  else match ComposeNodeFile encode (SyncFrontmatter nf n) with
       | None => Fail (BadDocument BadFrontmatter)
       | Some out =>
           if bool_decide (NodeByID g (n_ID n) ≠ None) then Fail (NodeExists (n_ID n))
           else if on_disk (n_ID n) then Fail (FileExists (n_ID n))
           else g' ← of_storage (ValidateGraphForStorage (Some (with_nodes g (Nodes g ++ [Some n]))));
                Ok (n, out, g')
       end.

(** CreateNode: the project directory and the new id. *)
Definition CreateNode (readGraph : string → option Graph) (marshalGraph : Graph → option string)
    (decode : string → option Meta) (encode : Meta → option string) (actor : Actor) (disk : Disk)
    (trash : option (list string)) (fault : bool) (n : option Node) (body : string) : Disk * crud string :=
  match n with
  | None => (disk, Fail NodeRequired)
  | Some n =>
      match of_document (ParseNodeFile decode body), readGraph (d_graph disk) with
      | Ok nf, Some g =>
          match create_in_graph encode actor g (d_files disk) trash n nf with
          | Ok (n', out, g') =>
              match marshalGraph g' with
              | None => (disk, Fail CrudMarshal)
              | Some data =>
                  if fault then (disk, Fail CrudWrite)
                  else (mkDisk data (<[n_ID n' := out]> (d_files disk)), Ok (n_ID n'))
              end
          | Fail e => (disk, Fail e)
          | Panic => (disk, Panic)
          | OutOfFuel => (disk, OutOfFuel)
          end
      | Ok _, None => (disk, Fail CrudLoad)
      | Fail e, _ => (disk, Fail e)
      | Panic, _ => (disk, Panic)
      | OutOfFuel, _ => (disk, OutOfFuel)
      end
  end.
End Create.

(** * Deleting *)

Section Delete.
Context `{Unicode}.
Variable removing : gset string.

Definition gone (id : string) : bool := bool_decide (id ∈ removing).

(** The references and the condition of a node that stays. *)
Definition detach_refs (n : Node) : Node :=
  match n_Refs n with
  | [] => n
  | refs => set_refs n (List.filter (λ ref, negb (gone ref)) refs)
  end.

Definition detach_requires (n : Node) : Node :=
  if String.eqb (n_Requires n) EmptyString then n
  else match RequiresExpr n with
       | Ok (Some expr) =>
           if negb (existsb gone (NodeRefs expr)) then n
           else with_requires n (match PruneNodeRefs expr gone with Some pruned => print pruned | None => EmptyString end)
       | _ => n
       end.

Definition detach_node (n : Node) : Node := detach_requires (detach_refs n).

(** A gate: without the outputs and inputs that go, or gone itself. *)
Definition set_outputs (gate : LogicGate) (outputs : list string) : LogicGate :=
  mkLogicGate (lg_ID gate) (lg_Operator gate) (lg_X gate) (lg_Y gate) (lg_Inputs gate) (lg_Output gate) outputs (lg_Applied gate).

Definition set_inputs (gate : LogicGate) (inputs : option (list string)) : LogicGate :=
  mkLogicGate (lg_ID gate) (lg_Operator gate) (lg_X gate) (lg_Y gate) inputs (lg_Output gate) (lg_Outputs gate) (lg_Applied gate).

Definition detach_gate (gate : LogicGate) : option LogicGate :=
  let wired := nonempty (OutputNodes gate) in
  let gate1 := if nonempty (lg_Outputs gate)
               then set_outputs gate (List.filter (λ o, negb (gone o)) (lg_Outputs gate)) else gate in
  if gone (lg_Output gate1) || (wired && negb (nonempty (OutputNodes gate1))) then None
  else
    let gate2 := set_inputs gate1 (List.filter (λ i, negb (gone i)) <$> lg_Inputs gate1) in
    if nonempty (Inputs gate2) then Some gate2 else None.

(** detachRemovedNodes: the nodes that stay, and the editor data. *)
Definition detachRemovedNodes (kept : list (option Node)) (ui : option UIState) : list (option Node) * option UIState :=
  (map (option_map detach_node) kept, option_map (λ ui, with_logic_gates ui (omap (M:=list) detach_gate (ui_LogicGates ui))) ui).

(** removeNodeUIState; [live] is the edges' keys. *)
Definition wire_kept (live : gset string) (key : string) : bool :=
  match cut_prefix key "gate:" with
  | Some target => negb (gone target)
  | None => bool_decide (key ∈ live)
  end.

Definition drop_ids {A} (m : gmap string A) : gmap string A := filter (λ kv, gone kv.1 = false) m.

Definition removeNodeUIState (g : Graph) : Graph :=
  match UI g with
  | None => g
  | Some ui =>
      with_ui g (Some (mkUIState
        (drop_ids (ui_Positions ui))
        (List.filter (λ id, negb (gone id)) (ui_TimelineOrder ui))
        (drop_ids (ui_Gates ui)) (ui_LogicGates ui)
        (filter (λ kv, kv.1 ∈ live_edges g) (ui_EdgeLabels ui))
        (filter (λ kv, wire_kept (live_edges g) kv.1 = true) (ui_WireVertices ui))
        (drop_ids (ui_Plans ui)) (ui_PlanStatuses ui) (ui_CustomStatuses ui)
        (drop_ids (ui_NodeStyles ui)) (drop_ids (ui_EntryOverrides ui))
        (ui_Groups ui) (ui_Annotations ui) (ui_SavedViews ui)))
  end.

(** The loop that takes the nodes out: the first refusal, or the nodes that
    stay and the ids that were there. *)
Fixpoint take_out (actor : Actor) (nodes : list (option Node)) : crud (list (option Node) * gset string) :=
  match nodes with
  | [] => Ok ([], ∅)
  | None :: nodes' => '(kept, found) ← take_out actor nodes'; Ok (None :: kept, found)
  | Some n :: nodes' =>
      if gone (n_ID n) then
        permitted (checkNodeWrite actor (Some n)) ('(kept, found) ← take_out actor nodes'; Ok (kept, {[ n_ID n ]} ∪ found))
      else '(kept, found) ← take_out actor nodes'; Ok (Some n :: kept, found)
  end.

Definition stays (e : option Edge) : bool :=
  match e with Some e => negb (gone (e_From e) || gone (e_To e)) | None => false end.

Definition without (g : Graph) (kept : list (option Node)) : Graph :=
  let '(nodes, ui) := detachRemovedNodes kept (UI g) in
  removeNodeUIState (with_edges (with_ui (with_nodes g nodes) ui) (List.filter stays (Edges g))).
End Delete.

(** The ids of a selection once each, in order. *)
Definition unique_ids (ids : list string) : list string := foldl (λ acc id, if existsb (String.eqb id) acc then acc else acc ++ [id]) [] ids.

(** DeleteNodes between loading the graph and writing it. *)
Definition delete_in_graph `{Unicode} (actor : Actor) (g : Graph) (ids : list string) : crud Graph :=
  match unique_ids ids with
  | [] => Fail NoNodeIds
  | (first :: _) as unique =>
      if negb (forallb ValidNodeID ids) then Fail InvalidNodeId
      else
        permitted (checkRoleDelete actor first) (
        let removing := list_to_set unique in
        '(kept, found) ← take_out removing actor (Nodes g);
        match find (λ id, negb (bool_decide (id ∈ found))) unique with
        | Some id => Fail (NodeMissing id)
        | None => Ok (without removing g kept)
        end)
  end.

(** checkNodesRemovable: what the selection's check reports before it goes. *)
Inductive NotRemovable :=
  | RequiredBy (id by_node : string)
  | OutputOf (id gate : string)
  | InputOf (id gate : string).

Definition checkNodesRemovable `{Unicode} (g : Graph) (kept : list (option Node)) (removing : gset string) : option NotRemovable :=
  let by_node n := match RequiresExpr n with
                   | Ok (Some expr) => (λ ref, RequiredBy ref (n_ID n)) <$> find (gone removing) (NodeRefs expr)
                   | _ => None
                   end in
  let by_gate gate := match find (gone removing) (OutputNodes gate) with
                      | Some output => Some (OutputOf output (lg_ID gate))
                      | None => (λ input, InputOf input (lg_ID gate)) <$> find (gone removing) (Inputs gate)
                      end in
  match head (omap by_node (omap id kept)) with
  | Some e => Some e
  | None => head (omap by_gate (gates_of g))
  end.
