(* ===== verification/GraphCrudFacts.v ===== *)
(** Creating and deleting nodes: automatic ids are the first free ones;
    what deletion takes out, and what it leaves as it was. *)

From S2P Require Import Prelude GoStr GoFloat GoTime Dsl DslFacts DslRoundtrip Graph NodeTypes Workflow Roles State Readiness Cycles Validate Permission NodeFile NodeFileFacts GraphOps GraphOpsFacts GraphStore GraphStoreFacts GraphCommit GraphCommitFacts GraphCrud.
Open Scope Z_scope.

(** * Automatic ids *)

Lemma digits_zeros n acc s : acc = 0 → digits_value acc (concat_str (replicate n "0") +:+ s) = digits_value 0 s.
Proof. intros ->. induction n as [|n IH]; [done|]. exact IH. Qed.

Lemma node_name_inj a b : 0 ≤ a → 0 ≤ b → node_name a = node_name b → a = b.
Proof.
  intros Ha Hb Hn. apply (f_equal (str_drop 5)) in Hn. apply (f_equal (digits_value 0)) in Hn.
  change (str_drop 5 (node_name ?x)) with (pad4 (itoa x)) in Hn. unfold pad4 in Hn.
  rewrite !digits_zeros, !itoa_value in Hn by done. done.
Qed.

Section Ids.
Variables (used : gset string) (on_disk : string → bool).

(** The ids an automatic node may take. *)
Definition free (id : string) : bool := negb (bool_decide (id ∈ used) || on_disk id).

Definition names (from : Z) (k : nat) : list string := node_name <$> seqZ from (Z.of_nat k).

(** [k] iterations from [st] on. *)
Definition advanced (st st' : IdSearch) (k : nat) : Prop :=
  is_number st' = is_number st + Z.of_nat k ∧
  is_found st' = rev (List.filter free (names (is_number st) k)) ++ is_found st ∧
  (length (List.filter free (names (is_number st) k)) + is_wanted st' = is_wanted st)%nat.

(** What is used beyond the ids used at first are the ones found. *)
Definition sane (st : IdSearch) : Prop :=
  1 ≤ is_number st ≤ last_number + 1 ∧ is_used st = list_to_set (is_found st) ∪ used ∧
  ∀ id, id ∈ is_found st → ∃ j, id = node_name j ∧ 1 ≤ j < is_number st.

Lemma names_S from k : names from (S k) = node_name from :: names (from + 1) k.
Proof. unfold names. rewrite seqZ_cons by lia. simpl. do 2 f_equal; f_equal; lia. Qed.

Lemma id_step_advances st : sane st → searching st = true → sane (id_step on_disk st) ∧ advanced st (id_step on_disk st) 1.
Proof.
  intros (Hn & Hu & Hf) Hs. unfold id_step.
  assert (bool_decide (node_name (is_number st) ∈ is_used st) = bool_decide (node_name (is_number st) ∈ used)) as ->.
  { apply bool_decide_ext. rewrite Hu, elem_of_union, elem_of_list_to_set. split; [|by right]. intros [Hin|?]; [|done].
    destruct (Hf _ Hin) as (j & Hj & ?). apply node_name_inj in Hj; lia. }
  unfold searching in Hs. apply andb_true_iff in Hs as [Hle%Z.leb_le Hw%Nat.ltb_lt].
  unfold advanced, sane. rewrite names_S. simpl.
  destruct (bool_decide (node_name (is_number st) ∈ used) || on_disk (node_name (is_number st))) eqn:E; unfold free; simpl; rewrite E; simpl;
    (split; [|split_and!; [lia|done|lia]]); split_and!; try lia; try done.
  - intros id Hid. destruct (Hf id Hid) as (j & ? & ?). exists j. split; [done|lia].
  - rewrite Hu. set_solver.
  - intros id [->|Hid]%elem_of_cons; [exists (is_number st); split; [done|lia]|]. destruct (Hf id Hid) as (j & ? & ?). exists j. split; [done|lia].
Qed.

Lemma advanced_trans st1 st2 st3 j k : advanced st1 st2 j → advanced st2 st3 k → advanced st1 st3 (j + k).
Proof.
  intros (Hn1 & Hf1 & Hw1) (Hn2 & Hf2 & Hw2).
  assert (names (is_number st1) (j + k) = names (is_number st1) j ++ names (is_number st2) k) as Happ.
  { unfold names. rewrite Nat2Z.inj_add, seqZ_app by lia. rewrite fmap_app. by rewrite Hn1. }
  unfold advanced. rewrite Happ, List.filter_app, List.rev_app_distr, length_app. split_and!; [lia| |lia].
  rewrite Hf2, Hf1. by rewrite app_assoc.
Qed.

Lemma advanced_refl st : advanced st st 0.
Proof. unfold advanced. simpl. split_and!; [lia|done|lia]. Qed.

Lemma id_steps_advance depth st :
  sane st → ∃ k, sane (id_steps depth on_disk st) ∧ advanced st (id_steps depth on_disk st) k ∧
    (searching (id_steps depth on_disk st) = false ∨ (2 ^ depth ≤ k)%nat) ∧
    (∀ j, (j < k)%nat → searching st = true).
Proof.
  revert st. induction depth as [|depth IH]; intros st Hs; simpl.
  - destruct (searching st) eqn:E; simpl; [|exists 0%nat; split_and!; [done|apply advanced_refl|by left|lia]].
    destruct (id_step_advances st Hs E) as [? ?]. exists 1%nat. split_and!; try done. by right.
  - destruct (searching st) eqn:E; simpl; [|exists 0%nat; split_and!; [done|apply advanced_refl|by left|lia]].
    destruct (IH st Hs) as (k1 & Hs1 & Ha1 & Hd1 & _). destruct (IH _ Hs1) as (k2 & Hs2 & Ha2 & Hd2 & Hk2).
    exists (k1 + k2)%nat. split_and!; [done|by eapply advanced_trans| |done].
    destruct Hd2 as [?|Hd2]; [by left|]. destruct Hd1 as [Hd1|Hd1]; [|right; lia].
    exfalso. assert (0 < k2)%nat by (pose proof (Nat.pow_nonzero 2 depth); lia). specialize (Hk2 0%nat ltac:(lia)). congruence.
Qed.

End Ids.

Lemma filter_take {A} (f : A → bool) (xs : list A) j : ∃ m, List.filter f (take j xs) = take m (List.filter f xs).
Proof.
  revert j. induction xs as [|x xs IH]; intros j; [exists 0%nat; by destruct j|]. destruct j as [|j]; [by exists 0%nat|].
  destruct (IH j) as [m Hm]. simpl. destruct (f x); [exists (S m)|exists m]; simpl; congruence.
Qed.

Definition ids_in_use (g : Graph) (items : list string) : gset string :=
  list_to_set (n_ID <$> node_list g) ∪ list_to_set (List.filter (λ id, negb (String.eqb id EmptyString)) items).

Lemma sane_start used n : sane used (mkIdSearch 1 used [] n).
Proof.
  split_and!; simpl; [lia|by compute|symmetry; apply (left_id_L ∅ _)|by intros id ?%elem_of_nil].
Qed.

(** Where the search ends, from the number of candidates [total]. *)
Lemma search_ends used on_disk n st k total :
  Z.of_nat total = last_number → is_number st = 1 + Z.of_nat k → (Z.of_nat k ≤ last_number) →
  is_found st = rev (List.filter (free used on_disk) (names 1 k)) →
  (length (List.filter (free used on_disk) (names 1 k)) + is_wanted st = n)%nat → searching st = false →
  let free_ids := List.filter (free used on_disk) (names 1 total) in
  (if (0 <? is_wanted st)%nat then @Fail CrudError _ IdsExhausted else Ok (rev (is_found st))) =
  if (length free_ids <? n)%nat then Fail IdsExhausted else Ok (take n free_ids).
Proof.
  intros Hlast Hn Hmax Hf Hw Hdone free_ids.
  assert (names 1 k = take k (names 1 total)) as Hnames.
  { unfold names. rewrite <- fmap_take. f_equal. replace (Z.of_nat total) with (Z.of_nat k + (last_number - Z.of_nat k)) by lia.
    rewrite seqZ_app by lia. rewrite take_app_le by (rewrite length_seqZ; lia). rewrite take_ge; [done|]. rewrite length_seqZ. lia. }
  destruct (filter_take (free used on_disk) (names 1 total) k) as [m Hm]. rewrite <- Hnames in Hm. fold free_ids in Hm.
  rewrite Hf, List.rev_involutive, Hm. rewrite Hm, length_take in Hw.
  unfold searching in Hdone. apply andb_false_iff in Hdone as [Hnum%Z.leb_gt|Hzero].
  - assert (Hm' : take m free_ids = free_ids).
    { rewrite <- Hm, Hnames. unfold free_ids. rewrite (take_ge (names 1 total)); [done|]. unfold names. rewrite length_fmap, length_seqZ. lia. }
    rewrite Hm'. apply (f_equal length) in Hm'. rewrite length_take in Hm'.
    destruct (Nat.ltb_spec 0 (is_wanted st)), (Nat.ltb_spec (length free_ids) n); try lia; [done|]. rewrite take_ge by lia. done.
  - rewrite Hzero. apply Nat.ltb_ge in Hzero. destruct (Nat.ltb_spec (length free_ids) n); [lia|].
    destruct (decide (m ≤ length free_ids)%nat).
    + by replace m with n by lia.
    + rewrite !take_ge by lia. done.
Qed.

Lemma search_done used on_disk n :
  ∃ k, let st := id_steps 24 on_disk (mkIdSearch 1 used [] n) in
  is_number st = 1 + Z.of_nat k ∧ (Z.of_nat k ≤ last_number) ∧
  is_found st = rev (List.filter (free used on_disk) (names 1 k)) ∧
  (length (List.filter (free used on_disk) (names 1 k)) + is_wanted st = n)%nat ∧ searching st = false.
Proof.
  generalize (eq_refl 24%nat). generalize 24%nat at 1 3. intros depth Hdepth.
  destruct (id_steps_advance used on_disk depth _ (sane_start used n)) as (k & ([_ Hmax] & _) & (Hn & Hf & Hw) & Hd & _).
  exists k. cbv zeta. rewrite app_nil_r in Hf. cbn [is_number is_found is_wanted] in Hn, Hf, Hw.
  split_and!; [done|lia|done|done|].
  destruct Hd as [?|Hd]; [done|]. apply Nat2Z.inj_le in Hd. rewrite Nat2Z.inj_pow, Hdepth in Hd.
  change (Z.of_nat 2 ^ Z.of_nat 24) with 16777216 in Hd. unfold last_number in Hmax. lia.
Qed.

(** The search is the first free ids of the whole range, and never runs short of
    steps. *)
Lemma next_ids_spec g items on_disk n total :
  Z.of_nat total = last_number →
  let free_ids := List.filter (free (ids_in_use g items) on_disk) (names 1 total) in
  nextNodeIDs g (Some items) on_disk n = if (length free_ids <? n)%nat then Fail IdsExhausted else Ok (take n free_ids).
Proof.
  intros Hlast. unfold nextNodeIDs. fold (ids_in_use g items).
  destruct (search_done (ids_in_use g items) on_disk n) as (k & Hn & Hk & Hf & Hw & Hdone). by eapply search_ends.
Qed.

(** * Deleting *)

Section Delete.
Context `{Unicode}.
Variable removing : gset string.

Abbreviation gone := (gone removing).

Lemma gone_spec id : gone id = true ↔ id ∈ removing.
Proof. apply bool_decide_eq_true. Qed.

Lemma gone_false id : gone id = false ↔ id ∉ removing.
Proof. apply bool_decide_eq_false. Qed.

(** A node that stays: the same, but for what it said of the nodes that go. *)
Lemma detach_node_fields n :
  n_ID (detach_node removing n) = n_ID n ∧ n_Refs (detach_node removing n) = List.filter (λ r, negb (gone r)) (n_Refs n).
Proof.
  assert (∀ m, n_ID (detach_requires removing m) = n_ID m ∧ n_Refs (detach_requires removing m) = n_Refs m) as Hreq.
  { intros m. unfold detach_requires. destruct (String.eqb _ _); [done|]. destruct (RequiresExpr m) as [[e|]| | |]; try done.
    by destruct (existsb _ _). }
  unfold detach_node. destruct (Hreq (detach_refs removing n)) as [-> ->]. unfold detach_refs. by destruct (n_Refs n) eqn:E; rewrite ?E.
Qed.

Lemma detach_node_requires n :
  tidy (n_Requires n) →
  tidy (n_Requires (detach_node removing n)) ∧
  ∀ y, requires_ref (n_Requires (detach_node removing n)) y = true ↔ requires_ref (n_Requires n) y = true ∧ y ∉ removing.
Proof.
  intros Ht. unfold detach_node, detach_requires.
  assert (n_Requires (detach_refs removing n) = n_Requires n) as Hr by (unfold detach_refs; by destruct (n_Refs n)).
  unfold RequiresExpr. rewrite Hr.
  assert (∀ m, n_Requires m = n_Requires n → (∀ e, Parse (n_Requires n) = Ok (Some e) → existsb gone (NodeRefs e) = false) →
    tidy (n_Requires m) ∧ ∀ y, requires_ref (n_Requires m) y = true ↔ requires_ref (n_Requires n) y = true ∧ y ∉ removing) as Hsame.
  { intros m -> Hno. split; [done|]. intros y. split; [|naive_solver]. intros Hy. split; [done|]. intros Hin.
    apply requires_ref_spec in Hy as (e & He & Hye). specialize (Hno e He). apply not_true_iff_false in Hno. apply Hno.
    apply existsb_elem. exists y. split; [by apply elem_of_NodeRefs|by apply gone_spec]. }
  destruct (String.eqb_spec (n_Requires n) EmptyString) as [Hempty|_].
  { apply Hsame; [done|]. intros e He. rewrite Hempty in He. by vm_compute in He. }
  destruct (Parse (n_Requires n)) as [[e|]| | |] eqn:E; try (by apply Hsame).
  destruct (existsb gone (NodeRefs e)) eqn:Eg; simpl.
  - change (n_Requires (with_requires ?m ?x)) with x. destruct (pruned_condition _ e gone Ht E) as [Htidy Hrefs].
    split; [done|]. intros y. by rewrite Hrefs, gone_false.
  - apply Hsame; [done|]. intros e' [= <-]. done.
Qed.

(** Filtering out what goes changes nothing in a list that has none of it. *)
Lemma keep_all l : (∀ r, r ∈ l → r ∉ removing) → List.filter (λ r, negb (gone r)) l = l.
Proof.
  induction l as [|x xs IH]; intros Hl; simpl; [done|].
  assert (gone x = false) as -> by (apply gone_false, Hl; left). simpl. f_equal. apply IH. intros y Hy. apply Hl. by right.
Qed.

(** What mentions nothing that goes is left alone. *)
Lemma detach_node_same n :
  (∀ r, r ∈ n_Refs n → r ∉ removing) → (∀ y, requires_ref (n_Requires n) y = true → y ∉ removing) →
  detach_node removing n = n.
Proof.
  intros Hrefs Hreq. unfold detach_node.
  assert (detach_refs removing n = n) as ->.
  { unfold detach_refs. destruct (n_Refs n) as [|r rs] eqn:E; [done|]. rewrite keep_all by done. rewrite <- E. by destruct n. }
  unfold detach_requires. destruct (String.eqb _ _); [done|]. unfold RequiresExpr.
  destruct (Parse (n_Requires n)) as [[e|]| | |] eqn:E; try done.
  destruct (existsb gone (NodeRefs e)) eqn:Eg; [|done]. exfalso.
  apply existsb_elem in Eg as (y & Hy & Hg%gone_spec). apply (Hreq y); [|done]. apply requires_ref_spec. exists e.
  split; [done|]. by apply elem_of_NodeRefs.
Qed.

(** The nodes taken out. *)
Lemma take_out_spec actor nodes kept found :
  take_out removing actor nodes = Ok (kept, found) →
  kept = List.filter (λ n, match n with Some n => negb (gone (n_ID n)) | None => true end) nodes ∧
  (∀ id, id ∈ found ↔ id ∈ removing ∧ ∃ n, Some n ∈ nodes ∧ n_ID n = id) ∧
  (∀ n, Some n ∈ nodes → n_ID n ∈ removing → checkNodeWrite actor (Some n) = None).
Proof.
  revert kept found. induction nodes as [|[n|] nodes IH]; intros kept found; cbn [take_out List.filter].
  - intros [= <- <-]. split_and!; [done|set_solver|set_solver].
  - destruct (gone (n_ID n)) eqn:Eg; cbn [negb].
    + unfold permitted. destruct (checkNodeWrite actor (Some n)) eqn:Ew; [done|].
      intros ([k f] & Hk & [= <- <-])%bind_ok. destruct (IH _ _ Hk) as (-> & Hf & Hw). apply gone_spec in Eg. split_and!; [done| |].
      * intros id. rewrite elem_of_union, elem_of_singleton, Hf. setoid_rewrite elem_of_cons. naive_solver.
      * intros m [[= ->]|?]%elem_of_cons ?; auto.
    + intros ([k f] & Hk & [= <- <-])%bind_ok. destruct (IH _ _ Hk) as (-> & Hf & Hw). apply gone_false in Eg. split_and!; [done| |].
      * intros id. rewrite Hf. setoid_rewrite elem_of_cons. naive_solver.
      * intros m [[= ->]|?]%elem_of_cons ?; [done|auto].
  - intros ([k f] & Hk & [= <- <-])%bind_ok. destruct (IH _ _ Hk) as (-> & Hf & Hw). split_and!; [done| |].
    + intros id. rewrite Hf. setoid_rewrite elem_of_cons. naive_solver.
    + intros m [?|?]%elem_of_cons ?; [done|auto].
Qed.

(** A gate that stays names nothing that goes. *)
Lemma detach_gate_clean gate gate' :
  detach_gate removing gate = Some gate' →
  lg_ID gate' = lg_ID gate ∧ Inputs gate' ≠ [] ∧
  (∀ i, i ∈ Inputs gate' → i ∈ Inputs gate ∧ i ∉ removing) ∧ (∀ o, o ∈ OutputNodes gate' → o ∉ removing).
Proof.
  unfold detach_gate. set (gate1 := if nonempty (lg_Outputs gate) then _ else _).
  destruct (gone (lg_Output gate1) || _) eqn:Eo; [done|]. apply orb_false_iff in Eo as [Hout%gone_false _].
  destruct (nonempty (Inputs _)) eqn:Ei; [|done]. intros [= <-].
  assert (lg_ID gate1 = lg_ID gate ∧ lg_Output gate1 = lg_Output gate ∧ lg_Inputs gate1 = lg_Inputs gate ∧
          lg_Outputs gate1 = List.filter (λ o, negb (gone o)) (lg_Outputs gate)) as (H1 & H2 & H3 & H4).
  { unfold gate1. destruct (lg_Outputs gate) eqn:E; simpl; rewrite ?E; done. }
  split_and!; [done| | |].
  - intros Hnil. rewrite Hnil in Ei. done.
  - intros i. unfold Inputs. simpl. rewrite H3. destruct (lg_Inputs gate) as [ins|]; simpl; [|by intros ?%elem_of_nil].
    rewrite elem_of_list_filter, negb_true_iff, gone_false. naive_solver.
  - intros o. unfold OutputNodes. simpl. rewrite H4, H2. rewrite H2 in Hout. intros Ho.
    destruct (List.filter _ (lg_Outputs gate)) as [|o1 os] eqn:E.
    + destruct (String.eqb (lg_Output gate) EmptyString); simpl in Ho; [by apply elem_of_nil in Ho|].
      by apply list_elem_of_singleton in Ho as ->.
    + rewrite <- E in Ho. apply elem_of_list_filter in Ho as [Hg _]. by rewrite negb_true_iff, gone_false in Hg.
Qed.

(** A gate that names nothing that goes, and has inputs, stays as it is. *)
Lemma detach_gate_same gate :
  Inputs gate ≠ [] → (∀ x, x ∈ Inputs gate ∨ x = lg_Output gate ∨ x ∈ lg_Outputs gate → x ∉ removing) →
  detach_gate removing gate = Some gate.
Proof.
  intros Hin Hnone. unfold detach_gate.
  assert (keep_all_in : ∀ xs, (∀ x, x ∈ xs → x ∉ removing) → List.filter (λ x, negb (gone x)) xs = xs) by (intros; by apply keep_all).
  assert (Hout : (if nonempty (lg_Outputs gate) then set_outputs gate (List.filter (λ o, negb (gone o)) (lg_Outputs gate)) else gate) = gate).
  { destruct (nonempty _); [|done]. unfold set_outputs. rewrite keep_all_in by (intros x Hx; apply Hnone; tauto). by destruct gate. }
  rewrite Hout. rewrite (proj2 (gone_false _)) by (apply Hnone; tauto). rewrite andb_negb_r. simpl.
  assert (Hset : set_inputs gate (List.filter (λ i, negb (gone i)) <$> lg_Inputs gate) = gate).
  { unfold set_inputs. destruct gate as [i o x y [ins|] out outs ap]; simpl in *; [|done]. f_equal. f_equal.
    apply keep_all_in. intros z Hz. apply Hnone. by left. }
  rewrite Hset. by destruct (Inputs gate).
Qed.
End Delete.

Lemma unique_ids_from acc ids x :
  x ∈ foldl (λ acc id, if existsb (String.eqb id) acc then acc else acc ++ [id]) acc ids ↔ x ∈ acc ∨ x ∈ ids.
Proof.
  revert acc. induction ids as [|i ids IH]; intros acc; cbn [foldl]; [set_solver|]. rewrite IH, elem_of_cons.
  destruct (existsb (String.eqb i) acc) eqn:E; [|set_solver].
  apply existsb_elem in E as (y & Hy & ->%String.eqb_eq). set_solver.
Qed.

Lemma elem_of_unique_ids ids x : x ∈ unique_ids ids ↔ x ∈ ids.
Proof. unfold unique_ids. rewrite unique_ids_from. set_solver. Qed.

(** What a map keeps. *)
Definition keeps {A} (keep : string → bool) (m m' : gmap string A) : Prop := ∀ key, m' !! key = if keep key then m !! key else None.

(** [g'] is [g] with the nodes [removing] and whatever named them taken out. *)
Record erased `{Unicode} (removing : gset string) (g g' : Graph) : Prop := {
  er_nodes : node_list g' = detach_node removing <$> List.filter (λ n, negb (gone removing (n_ID n))) (node_list g);
  er_mentions : ∀ n, n ∈ node_list g' →
    n_ID n ∉ removing ∧ (∀ r, r ∈ n_Refs n → r ∉ removing) ∧ (∀ y, requires_ref (n_Requires n) y = true → y ∉ removing);
  er_untouched : ∀ n, n ∈ node_list g → n_ID n ∉ removing →
    (∀ r, r ∈ n_Refs n → r ∉ removing) → (∀ y, requires_ref (n_Requires n) y = true → y ∉ removing) → n ∈ node_list g';
  er_edges : edge_list g' = List.filter (λ e, negb (gone removing (e_From e) || gone removing (e_To e))) (edge_list g);
  er_rest : g' = with_ui (with_edges (with_nodes g (Nodes g')) (Edges g')) (UI g');
  er_gates : gates_of g' = omap (detach_gate removing) (gates_of g)
    ∧ (∀ gate' x, gate' ∈ gates_of g' → x ∈ Inputs gate' ∨ x ∈ OutputNodes gate' → x ∉ removing)
    ∧ (∀ gate, gate ∈ gates_of g → Inputs gate ≠ [] →
         (∀ x, x ∈ Inputs gate ∨ x = lg_Output gate ∨ x ∈ lg_Outputs gate → x ∉ removing) → gate ∈ gates_of g');
  er_editor : match UI g, UI g' with
    | Some ui, Some ui' =>
        let stays id := negb (gone removing id) in
        let wired key := match cut_prefix key "gate:" with Some target => stays target | None => bool_decide (key ∈ live_edges g') end in
        keeps stays (ui_Positions ui) (ui_Positions ui') ∧ keeps stays (ui_Gates ui) (ui_Gates ui') ∧
        keeps stays (ui_Plans ui) (ui_Plans ui') ∧ keeps stays (ui_NodeStyles ui) (ui_NodeStyles ui') ∧
        keeps stays (ui_EntryOverrides ui) (ui_EntryOverrides ui') ∧
        ui_TimelineOrder ui' = List.filter stays (ui_TimelineOrder ui) ∧
        keeps (λ key, bool_decide (key ∈ live_edges g')) (ui_EdgeLabels ui) (ui_EdgeLabels ui') ∧
        keeps wired (ui_WireVertices ui) (ui_WireVertices ui') ∧
        ui_PlanStatuses ui' = ui_PlanStatuses ui ∧ ui_CustomStatuses ui' = ui_CustomStatuses ui ∧
        ui_Groups ui' = ui_Groups ui ∧ ui_Annotations ui' = ui_Annotations ui ∧ ui_SavedViews ui' = ui_SavedViews ui
    | None, None => True
    | _, _ => False
    end;
}.

Section Erase.
Context `{Unicode}.

Lemma without_nodes removing g kept : Nodes (without removing g kept) = map (option_map (detach_node removing)) kept.
Proof. unfold without, detachRemovedNodes, removeNodeUIState. by destruct (UI g). Qed.

Lemma without_edges removing g kept : Edges (without removing g kept) = List.filter (stays removing) (Edges g).
Proof. unfold without, detachRemovedNodes, removeNodeUIState. by destruct (UI g). Qed.

Lemma some_list_map {A B} (f : A → B) xs : omap id (map (option_map f) xs) = f <$> omap id xs.
Proof. induction xs as [|[x|] xs IH]; [done| |exact IH]. exact (f_equal (cons (f x)) IH). Qed.

Lemma some_list_filter {A} (f : A → bool) (keep : option A → bool) xs :
  (∀ x, keep (Some x) = f x) → omap id (List.filter keep xs) = List.filter f (omap id xs).
Proof.
  intros Hk. induction xs as [|[x|] xs IH]; [done| |]; cbn [List.filter].
  - rewrite Hk. change (omap id (Some x :: xs)) with (x :: omap id xs). cbn [List.filter].
    destruct (f x); [exact (f_equal (cons x) IH)|exact IH].
  - destruct (keep None); exact IH.
Qed.

Lemma filter_keeps {A} (P : string * A → Prop) `{!∀ kv, Decision (P kv)} (keep : string → bool) (m : gmap string A) :
  (∀ kv, P kv ↔ keep kv.1 = true) → keeps keep m (filter P m).
Proof.
  intros Hkeep key. destruct (keep key) eqn:E.
  - destruct (m !! key) eqn:Em; [apply map_lookup_filter_Some; by rewrite Hkeep|]. apply map_lookup_filter_None. by left.
  - apply map_lookup_filter_None. right. intros v _ Hv%Hkeep. simpl in Hv. congruence.
Qed.

Lemma drop_ids_keeps {A} removing (m : gmap string A) : keeps (λ id, negb (gone removing id)) m (drop_ids removing m).
Proof. apply filter_keeps. intros kv. by destruct (gone removing kv.1). Qed.

(** Taking nodes out of a tidy graph erases them. *)
Lemma without_erased removing actor g kept found :
  (∀ n, n ∈ node_list g → tidy (n_Requires n)) → take_out removing actor (Nodes g) = Ok (kept, found) →
  erased removing g (without removing g kept).
Proof.
  intros Htidy (-> & _)%take_out_spec. set (keep := λ n : option Node, _). set (g' := without removing g _).
  assert (node_list g' = detach_node removing <$> List.filter (λ n, negb (gone removing (n_ID n))) (node_list g)) as Hnodes.
  { unfold node_list, g'. rewrite without_nodes, some_list_map. f_equal. by apply some_list_filter. }
  assert (edge_list g' = List.filter (λ e, negb (gone removing (e_From e) || gone removing (e_To e))) (edge_list g)) as Hedges.
  { unfold edge_list, g'. rewrite without_edges. by apply some_list_filter. }
  split; [done| | |done| | |].
  - rewrite Hnodes. intros n' (n & -> & [Hg Hn]%elem_of_list_filter)%list_elem_of_fmap. rewrite negb_true_iff, gone_false in Hg.
    destruct (detach_node_fields removing n) as [-> ->], (detach_node_requires removing n (Htidy n Hn)) as [_ Hr]. split_and!; [done| |].
    + intros r [Hr' _]%elem_of_list_filter. by rewrite negb_true_iff, gone_false in Hr'.
    + by intros y [_ ?]%Hr.
  - intros n Hn Hid Hrefs Hreq. rewrite Hnodes, <- (detach_node_same removing n Hrefs Hreq). apply list_elem_of_fmap_2.
    apply elem_of_list_filter. by rewrite negb_true_iff, gone_false.
  - unfold g', without, detachRemovedNodes, removeNodeUIState. by destruct (UI g).
  - assert (gates_of g' = omap (detach_gate removing) (gates_of g)) as Hgates.
    { unfold gates_of, g', without, detachRemovedNodes, removeNodeUIState. simpl. by destruct (UI g). }
    rewrite Hgates. split; [done|]. split.
    + intros gate' x (gate & _ & Hd)%list_elem_of_omap. destruct (detach_gate_clean _ _ _ Hd) as (_ & _ & Hi & Ho).
      intros [Hx|Hx]; [by apply Hi|by apply Ho].
    + intros gate Hgate Hin Hnone. apply list_elem_of_omap. exists gate. split; [done|]. by apply detach_gate_same.
  - unfold g', without, detachRemovedNodes, removeNodeUIState. simpl. destruct (UI g) as [ui|]; simpl; [|done].
    split_and!; try done; try apply drop_ids_keeps; apply filter_keeps; intros [key v]; [by rewrite bool_decide_eq_true|done].
Qed.

(** Erasing adds no dependency, so it closes no loop. *)
Lemma erased_orderly removing g g' : erased removing g g' → orderly g → orderly g'.
Proof.
  intros [Hnodes _ _ Hedges _ _ _] [Hn Hw Ht Hac].
  assert (∀ n', n' ∈ node_list g' → ∃ n, n ∈ node_list g ∧ n' = detach_node removing n) as Hback.
  { intros n'. rewrite Hnodes. intros (n & -> & [_ Hn']%elem_of_list_filter)%list_elem_of_fmap. eauto. }
  assert (∀ e, e ∈ edge_list g' → e ∈ edge_list g) as Hedge.
  { intros e. rewrite Hedges. by intros [_ ?]%elem_of_list_filter. }
  split.
  - intros n' (n & Hin & ->)%Hback. destruct (detach_node_fields removing n) as [-> _]. auto.
  - auto.
  - intros n' (n & Hin & ->)%Hback. by apply detach_node_requires, Ht.
  - eapply acyclic_shrink; [|done]. intros x y. rewrite !waits_spec. intros [(n' & (n & Hin & ->)%Hback & <- & Hr)|(e & He & ?)].
    + left. exists n. destruct (detach_node_fields removing n) as [-> _]. split_and!; [done|done|].
      by apply (detach_node_requires removing n (Ht n Hin)) in Hr as [? _].
    + right. exists e. auto.
Qed.
End Erase.

(** C34: deleting nodes takes out them and what named them.  Every node of the
    selection existed and its guard let the actor write it.  Left is the graph
    in the same order without them and their edges, and without their names in
    references, conditions and gates: a node that named none of them is
    unchanged, and so is a gate with inputs that named none.  Of the editor's
    data exactly their positions, gate places, plans, styles, overrides and
    places on the timeline go, with the labels of edges that are not there and
    the bends of wires that are neither an edge there nor into a node's own gate
    that stays (the bends of all wires of logic gates are among those, whether
    the gate stays or not).  Nothing else of the graph or of the editor's data
    changes, and a graph in order (no node waits for itself) stays in order. *)
Theorem deletion_leaves_no_trace `{Unicode} (actor : Actor) (g : Graph) (ids : list string) (g' : Graph)
    (Horderly : orderly g) (Hdelete : delete_in_graph actor g ids = Ok g') :
  ids ≠ [] ∧
  (∀ id, id ∈ ids → ∃ n, n ∈ node_list g ∧ n_ID n = id) ∧
  (∀ n, n ∈ node_list g → n_ID n ∈ ids → checkNodeWrite actor (Some n) = None) ∧
  erased (list_to_set ids) g g' ∧ orderly g'.
Proof.
  unfold delete_in_graph in Hdelete. destruct (unique_ids ids) as [|first unique] eqn:Eu; [done|]. rewrite <- Eu in Hdelete.
  assert (list_to_set (unique_ids ids) = (list_to_set ids : gset string)) as Hset.
  { apply set_eq. intros x. by rewrite !elem_of_list_to_set, elem_of_unique_ids. }
  destruct (forallb ValidNodeID ids); [|done]. simpl in Hdelete. unfold permitted in Hdelete. destruct (checkRoleDelete actor first); [done|].
  rewrite Hset in Hdelete. apply bind_ok in Hdelete as ([kept found] & Hout & Hdelete).
  destruct (find _ _) eqn:Ef; [done|]. injection Hdelete as <-.
  destruct (take_out_spec _ _ _ _ _ Hout) as (_ & Hfound & Hwrite).
  assert (erased (list_to_set ids) g (without (list_to_set ids) g kept)) as Her
    by (eapply without_erased; [by intros n Hn; apply Horderly|done]).
  split_and!; [|intros id Hid|intros n Hn%elem_of_node_list Hid|done|by eapply erased_orderly].
  - intros ->. done.
  - apply elem_of_unique_ids in Hid. pose proof (find_none _ _ Ef id) as Hno. rewrite <- list_elem_of_In, negb_false_iff in Hno.
    apply Hno, bool_decide_eq_true in Hid. apply Hfound in Hid as (_ & n & Hn & <-). exists n. by rewrite elem_of_node_list.
  - apply Hwrite; [done|]. by apply elem_of_list_to_set.
Qed.

Lemma next_ids_total g items on_disk n total :
  Z.of_nat total = last_number →
  let candidates := List.filter (λ id, negb (bool_decide (id ∈ ids_in_use g items) || on_disk id)) (node_name <$> seqZ 1 last_number) in
  NoDup candidates ∧
  nextNodeIDs g (Some items) on_disk n = if (length candidates <? n)%nat then Fail IdsExhausted else Ok (take n candidates).
Proof.
  intros Hlast. rewrite <- Hlast. split; [|by apply next_ids_spec]. apply NoDup_filter_bool, NoDup_fmap_2_strong.
  - intros a b Ha%elem_of_seqZ Hb%elem_of_seqZ. apply node_name_inj; lia.
  - apply NoDup_seqZ.
Qed.

(** An automatic id is the first number nobody uses: asking for n ids gives
    the first n of node-0001 ... node-9999999 that neither a node, nor the
    trash, nor a file on disk has, all different, or, when fewer are left,
    nothing at all; the search always ends. *)
Theorem automatic_ids_are_the_first_free (g : Graph) (items : list string) (on_disk : string → bool) (n : nat) :
  let candidates := List.filter (λ id, negb (bool_decide (id ∈ ids_in_use g items) || on_disk id)) (node_name <$> seqZ 1 last_number) in
  NoDup candidates ∧
  nextNodeIDs g (Some items) on_disk n = if (length candidates <? n)%nat then Fail IdsExhausted else Ok (take n candidates).
Proof. apply (next_ids_total g items on_disk n (Z.to_nat last_number)), Z2Nat.id. by compute. Qed.

(** * Creating *)

Section Created.
Context `{Unicode}.

Lemma stored_ids g g' : ValidateGraphForStorage (Some g) = Ok g' → n_ID <$> node_list g' = n_ID <$> node_list g.
Proof.
  intros (ms & users & ids & Hp)%validate_pass. destruct (pass_fields _ _ _ _ _ Hp) as (En & _).
  unfold node_list. rewrite En, (pa_nodes _ _ _ _ _ Hp). clear.
  induction ms as [|m ms IH]; [done|]. rewrite !fmap_cons. cbn [omap list_omap id]. rewrite !fmap_cons.
  destruct (stored_node_fields m) as (-> & _). f_equal. apply IH.
Qed.

Lemma of_storage_ok {A} (m : outcome StorageError A) a : of_storage m = Ok a → m = Ok a.
Proof. destruct m; simpl; congruence. Qed.

(** What creating adds. *)
Lemma create_in_graph_ok decode encode actor g files trash n nf n' out g' :
  (∀ m, reads_back decode encode m) → create_in_graph encode actor g files trash n nf = Ok (n', out, g') →
  checkRole actor g CapCreate (Some (incoming n (nf_Meta nf))) = None ∧
  KnownNodeKind (Some g) (n_Kind n') = true ∧
  ValidNodeID (n_ID n') = true ∧ NodeByID g (n_ID n') = None ∧ files !! n_ID n' = None ∧
  n_ID <$> node_list g' = (n_ID <$> node_list g) ++ [n_ID n'] ∧
  ValidateGraphForStorage (Some g') = Ok g' ∧
  ∃ doc, ParseNodeFile decode out = Ok doc ∧ hydrateNodeFromMeta (unnamed n') (nf_Meta doc) = n'.
Proof.
  intros Hcodec. unfold create_in_graph. intros (n1 & Hadmit & Hrest)%bind_ok.
  assert (checkRole actor g CapCreate (Some (incoming n (nf_Meta nf))) = None ∧ KnownNodeKind (Some g) (n_Kind n1) = true) as [Hrole Hkind].
  { unfold admit_node in Hadmit. set (m := incoming n (nf_Meta nf)) in *.
    destruct (KnownNodeKind (Some g) (n_Kind m)) eqn:Ek; [|done]. cbn [negb permitted] in Hadmit.
    destruct (checkRole actor g CapCreate (Some m)); [done|]. cbn [permitted] in Hadmit. split; [done|].
    destruct (if bool_decide (n_Workflow m ≠ None) then _ else _); [done|]. cbn [permitted] in Hadmit.
    case_bool_decide; [by injection Hadmit as <-|]. destruct (checkAcceptanceWrite _ _ _ _ _ _); [done|].
    by injection Hadmit as <-. }
  apply bind_ok in Hrest as (n2 & Hid & Hrest).
  assert (n_Kind n2 = n_Kind n1) as Hk2.
  { destruct (String.eqb (n_ID n1) EmptyString); [|by injection Hid as ->]. apply bind_ok in Hid as ([|id ?] & _ & Hid); [done|]. by injection Hid as <-. }
  destruct (ValidNodeID (n_ID n2)) eqn:Ev; [|done]. cbn [negb] in Hrest.
  destruct (parse_compose decode encode (SyncFrontmatter nf n2) (Hcodec _)) as (doc & Hdoc & Hparse). rewrite Hdoc in Hrest.
  destruct (NodeByID g (n_ID n2)) eqn:Hnew; [by rewrite bool_decide_eq_true_2 in Hrest|].
  rewrite bool_decide_eq_false_2 in Hrest by naive_solver.
  destruct (bool_decide (is_Some (files !! n_ID n2))) eqn:Ed; [done|]. apply bool_decide_eq_false, eq_None_not_Some in Ed.
  apply bind_ok in Hrest as (g2 & Hg2%of_storage_ok & Hrest). injection Hrest as <- <- <-.
  split_and!; [done|by rewrite Hk2|done|done|done| | |].
  - rewrite (stored_ids _ _ Hg2). unfold node_list. simpl. rewrite omap_app, fmap_app. done.
  - apply validate_pass in Hg2 as (ms & users & ids & Hp). by eapply stored_again.
  - eexists. split; [exact Hparse|]. apply hydrate_sync.
Qed.
End Created.

(** Creating a node writes all of it or nothing.  When CreateNode answers an
    id, the actor's role lets it create the node, no node and no file had that
    id, graph.yaml is the board with the one node added, in the form storing
    leaves alone, and the new document reads back as that node; any other answer
    leaves the project untouched. *)
Theorem creation_is_all_or_nothing `{Unicode} (readGraph : string → option Graph) (marshalGraph : Graph → option string)
    (decode : string → option Meta) (encode : Meta → option string) (actor : Actor) (disk : Disk)
    (trash : option (list string)) (fault : bool) (n : option Node) (body : string)
    (Hyaml : ∀ m, reads_back decode encode m) :
  match CreateNode readGraph marshalGraph decode encode actor disk trash fault n body with
  | (disk', Ok id) =>
      ∃ g g' n0 n' nf doc out,
        readGraph (d_graph disk) = Some g ∧ n = Some n0 ∧ ParseNodeFile decode body = Ok nf ∧
        checkRole actor g CapCreate (Some (incoming n0 (nf_Meta nf))) = None ∧ n_ID n' = id ∧
        ValidNodeID id = true ∧ NodeByID g id = None ∧ d_files disk !! id = None ∧
        n_ID <$> node_list g' = (n_ID <$> node_list g) ++ [id] ∧ ValidateGraphForStorage (Some g') = Ok g' ∧
        marshalGraph g' = Some (d_graph disk') ∧ d_files disk' = <[id := out]> (d_files disk) ∧
        ParseNodeFile decode out = Ok doc ∧ hydrateNodeFromMeta (unnamed n') (nf_Meta doc) = n'
  | (disk', _) => disk' = disk
  end.
Proof.
  unfold CreateNode. destruct n as [n|]; [|done].
  destruct (ParseNodeFile decode body) as [nf| | |]; try done. cbn [of_document]. destruct (readGraph (d_graph disk)) as [g|] eqn:Eg; [|done].
  destruct (create_in_graph encode actor g (d_files disk) trash n nf) as [[[n' out] g']| | |] eqn:Ec; try done.
  destruct (marshalGraph g') as [data|] eqn:Em; [|done]. destruct fault; [done|].
  destruct (create_in_graph_ok decode encode actor g _ _ _ _ _ _ _ Hyaml Ec) as (? & ? & ? & ? & ? & ? & ? & doc & ? & ?).
  by exists g, g', n, n', nf, doc, out.
Qed.

(** * Examples *)

(** Deleting from a board whose nodes name one another. *)
Lemma deletion_leaves_no_trace_witness :
  let g' := match delete_in_graph editor small_board ["a"; "c"; "a"] with Ok g' => g' | _ => small_board end in
  n_Requires <$> node_list g' = ["flag(go)"] ∧ n_ID <$> node_list g' = ["b"] ∧ erased (list_to_set ["a"; "c"; "a"]) small_board g'.
Proof.
  destruct (deletion_leaves_no_trace editor small_board ["a"; "c"; "a"]
    (match delete_in_graph editor small_board ["a"; "c"; "a"] with Ok g' => g' | _ => small_board end)) as (_ & _ & _ & Her & _).
  - split.
    + apply forall_list. repeat (apply Forall_cons_2; [split; vm_compute; reflexivity|]). apply Forall_nil_2.
    + apply forall_list. apply Forall_nil_2.
    + apply forall_list. repeat (apply Forall_cons_2; [apply tidyb_spec; vm_compute; reflexivity|]). apply Forall_nil_2.
    + intros x. change (¬ on_cycle (dependency_map small_board) x). revert x.
      apply (findCycles_nil (dependency_map small_board)). vm_compute. reflexivity.
  - vm_compute. reflexivity.
  - split_and!; [vm_compute; reflexivity|vm_compute; reflexivity|exact Her].
Defined.

Definition toy_create : Disk * crud string :=
  CreateNode (λ _, Some small_board) toy_marshal bit_decode bit_encode editor (mkDisk "0" {[ "node-0001" := "taken" ]})
    (Some ["node-0002"]) false (Some (plain_node EmptyString EmptyString "a")) "hello".

(** The first two automatic ids are taken, by a file and by the trash. *)
Lemma creation_is_all_or_nothing_witness :
  toy_create.2 = Ok "node-0003" ∧
  (is_Some (d_files toy_create.1 !! "node-0003")) ∧
  match toy_create with (disk', Ok id) => ValidNodeID id = true ∧ NodeByID small_board id = None | _ => False end.
Proof.
  assert (toy_create.2 = Ok "node-0003") as Hid by (vm_compute; reflexivity).
  pose proof (creation_is_all_or_nothing (λ _, Some small_board) toy_marshal bit_decode bit_encode editor
    (mkDisk "0" {[ "node-0001" := "taken" ]}) (Some ["node-0002"]) false (Some (plain_node EmptyString EmptyString "a")) "hello" bits_read_back) as Hall.
  fold toy_create in Hall. destruct toy_create as [disk' r]. simpl in *. subst r.
  destruct Hall as (g & g' & n0 & n' & nf & doc & out & [= <-] & _ & _ & _ & _ & Hv & Hn & _ & _ & _ & _ & Hf & _).
  split_and!; [done|rewrite Hf, lookup_insert_eq; eauto|done|done].
Defined.
