(* ===== verification/Runs.v ===== *)
(** Runs as the autopilot sees them (internal/runnerwire/runs.go, routing.go,
    roles.go, merge.go, changes.go; internal/runs/routing.go, sensitive.go,
    guard.go and the lifecycle of runs/store.go): records, statuses, routing
    rules, and the checks on changed files.  A record keeps the fields the
    modelled code reads. *)

From S2P Require Import Prelude GoStr GoFloat Dsl Graph NodeTypes Workflow Roles State Readiness Globs.
From Stdlib Require Import Ascii.
Open Scope Z_scope.

(** * Statuses *)

Definition RunQueued : string := "queued".
Definition RunOffered : string := "offered".
Definition RunDeclined : string := "declined".
Definition RunRunning : string := "running".
Definition RunSucceeded : string := "succeeded".
Definition RunFailed : string := "failed".
Definition RunCancelled : string := "cancelled".

Definition RunFinal (status : string) : bool := one_of status [RunDeclined; RunSucceeded; RunFailed; RunCancelled].

(** The lifecycle: from a status, the ones allowed next. *)
Definition legal (from : string) : list string :=
  if String.eqb from RunQueued then [RunOffered; RunCancelled]
  else if String.eqb from RunOffered then [RunRunning; RunDeclined; RunFailed; RunCancelled; RunQueued]
  else if String.eqb from RunRunning then [RunSucceeded; RunFailed; RunCancelled]
  else [].

Definition Legal (from to : string) : bool := one_of to (legal from).

(** Failure kinds. *)
Definition FailureRateLimit : string := "rate_limit".
Definition FailureQuota : string := "quota".
Definition FailureModel : string := "model_unavailable".
Definition FailureAgentAbsent : string := "agent_unavailable".
Definition FailureTask : string := "task".

Definition FallbackWorthy (kind : string) : bool :=
  one_of kind [FailureRateLimit; FailureQuota; FailureModel; FailureAgentAbsent].

Definition CleanFailureKind (kind : string) : string :=
  if one_of kind [EmptyString; FailureRateLimit; FailureQuota; FailureModel; FailureAgentAbsent; FailureTask]
  then kind else FailureTask.

Definition VerdictApprove : string := "approve".
Definition VerdictChanges : string := "changes".
Definition VerdictPass : string := "pass".
Definition VerdictFail : string := "fail".

Definition CleanVerdict (verdict : string) : string :=
  if one_of verdict [VerdictApprove; VerdictChanges; VerdictPass; VerdictFail] then verdict else EmptyString.

(** Job kinds. *)
Definition JobImplement : string := EmptyString.
Definition JobReview : string := "review".
Definition JobRevise : string := "revise".
Definition JobPlan : string := "plan".
Definition JobTest : string := "test".
Definition JobVerify : string := "verify".
Definition JobJudge : string := "judge".

(** Pull requests, their checks, merges. *)
Definition PRMerged : string := "merged".
Definition CIPending : string := "pending".
Definition CISuccess : string := "success".
Definition CIFailure : string := "failure".
Definition MergePending : string := "pending".
Definition MergeDone : string := "merged".
Definition MergeFailed : string := "failed".

Definition PipelineRunning : string := "running".
Definition PipelineApproved : string := "approved".
Definition PipelineChangesLeft : string := "changes_left".
Definition PipelineFailed : string := "failed".
Definition PipelineCancelled : string := "cancelled".

Definition MaxFallbacks : nat := 5.
Definition MaxReviewers : nat := 5.
Definition MaxPipelineRounds : Z := 3.
Definition MaxChangedFiles : nat := Pos.to_nat 2000.

(** * Records *)

Record AgentModel := mkAgentModel { am_Agent : string; am_Model : string }.

#[export] Instance AgentModel_eq_dec : EqDecision AgentModel.
Proof. solve_decision. Defined.

Definition no_agent : AgentModel := mkAgentModel EmptyString EmptyString.

(** The nil and the empty list of reviewers behave alike. *)
Record Pipeline := mkPipeline {
  pl_Implement : AgentModel;
  pl_Review : AgentModel;
  pl_MaxRounds : Z;
  pl_Reviewers : list AgentModel;
  pl_Quorum : Z;
  pl_Human : bool;
  pl_HumanAnyEditor : bool;
  pl_Tester : AgentModel;
}.

Definition ReviewersOf (p : Pipeline) : list AgentModel :=
  match pl_Reviewers p with
  | [] => if String.eqb (am_Agent (pl_Review p)) EmptyString then [] else [pl_Review p]
  | reviewers => reviewers
  end.

Definition QuorumOf (p : Pipeline) : Z :=
  let n := Z.of_nat (length (ReviewersOf p)) in
  if (pl_Quorum p <=? 0) || (n <? pl_Quorum p) then n else pl_Quorum p.

Record RouteRule := mkRouteRule {
  rr_ID : string; rr_Project : string; rr_Match : string; rr_Value : string; rr_RunnerID : string;
  rr_Target : AgentModel; rr_Fallbacks : list AgentModel; rr_Pipeline : option Pipeline }.

Record RouteSuggestion := mkSuggestion {
  rs_RuleID : string; rs_Match : string; rs_RunnerID : string;
  rs_Target : AgentModel; rs_Fallbacks : list AgentModel; rs_Pipeline : option Pipeline }.

Record VerifyResult := mkVerify {
  vr_Phase : string; vr_Head : string; vr_ExitCode : Z; vr_Passed : bool; vr_DurationMs : Z; vr_Output : string; vr_NoCommand : bool }.
Record CheckResult := mkCheck { ch_ID : string; ch_Pass : bool; ch_Note : string }.
Record MergeRequest := mkMerge {
  mr_Status : string; mr_Reason : string; mr_RequestedBy : string; mr_CreatedAt : string; mr_FinishedAt : string }.

Record RunRecord := mkRun {
  run_ID : string;
  run_RunnerName : string;
  run_RetryOf : string;
  run_Kind : string;
  run_Agent : string;
  run_Model : string;
  run_Status : string;
  run_Error : string;
  run_CreatedAt : string;
  run_StartedAt : string;
  run_FinishedAt : string;
  run_Commit : string;
  run_Branch : string;
  run_PRURL : string;
  run_PRState : string;
  run_PRError : string;
  run_PRHeadSHA : string;
  run_CIStatus : string;
  run_Merge : option MergeRequest;
  run_Verdict : string;
  run_Verify : option VerifyResult;
  run_Checks : list CheckResult;
  run_VerifyGreen : bool;      (* VerifySpec asks for the green phase *)
  run_RetryAt : string;
  run_PipelineID : string;
}.

Record PipelineRecord := mkPipelineRecord {
  pr_ID : string; pr_Status : string; pr_Reason : string; pr_Round : Z; pr_OwnerID : string }.

Record FileChange := mkFileChange {
  fc_Path : string; fc_OldPath : string; fc_Status : string; fc_Additions : Z; fc_Deletions : Z }.
Record RunChanges := mkRunChanges {
  rc_Commit : string; rc_Base : string; rc_Files : list FileChange; rc_Additions : Z; rc_Deletions : Z;
  rc_Patch : string; rc_PatchTruncated : bool }.

(** Runners, as their hello describes them. *)
Record ModelInfo := mkModel { mo_ID : string; mo_Default : bool }.
Record AgentInfo := mkAgentInfo { ai_Kind : string; ai_Installed : bool; ai_Models : list ModelInfo }.
Record RepoInfo := mkRepo { repo_ID : string; repo_Name : string; repo_Verify : bool }.
Record RunnerInfo := mkRunnerInfo {
  in_Agents : list AgentInfo; in_Repos : list RepoInfo; in_Capabilities : list string; in_MaxConcurrent : Z }.
Record Runner := mkRunner {
  rn_ID : string; rn_Name : string; rn_OwnerID : string; rn_Online : bool; rn_Info : option RunnerInfo }.

Definition CapHeadless : string := "headless".

Definition Headless (info : option RunnerInfo) : bool :=
  match info with Some i => one_of CapHeadless (in_Capabilities i) | None => false end.

(** * Routing *)

Definition RouteTag : string := "tag".
Definition RouteKind : string := "kind".
Definition RouteProject : string := "project".
Definition RouteDefault : string := "default".
Definition RouteRole : string := "role".
Definition RouteAuto : string := "auto".

Definition routeOrder (role : string) : list string :=
  if String.eqb role EmptyString then [RouteTag; RouteKind; RouteProject; RouteDefault]
  else if String.eqb role RoleExecutor then [RouteTag; RouteKind; RouteRole; RouteProject; RouteDefault]
  else [RouteRole; RouteProject; RouteDefault].

Record RouteNode := mkRouteNode { rt_Project : string; rt_Kind : string; rt_Tags : list string; rt_Role : string }.

(** utf8.ValidString: no byte decodes to an error of width one. *)
Definition ValidString (s : string) : bool :=
  forallb (λ x, negb ((x.1.1 =? rune_error) && (x.1.2 =? 1)%nat)) (runes_from 0 s).

(** strings.ToValidUTF8: a run of invalid bytes becomes one U+FFFD. *)
Fixpoint valid_utf8 (bad : bool) (rs : list (Z * nat * ascii)) : string :=
  match rs with
  | [] => EmptyString
  | (r, w, _) :: rs' =>
      if (r =? rune_error) && (w =? 1)%nat
      then (if bad then EmptyString else encode_rune rune_error) +:+ valid_utf8 true rs'
      else encode_rune r +:+ valid_utf8 false rs'
  end.

(** utf8.RuneStart of the byte at [i], true past the end. *)
Definition rune_start (s : string) (i : nat) : bool :=
  match String.get i s with Some c => negb (cont_byte (byte_val c)) | None => true end.

Fixpoint cut_back (s : string) (cut : nat) : nat :=
  match cut with O => O | S cut' => if rune_start s cut then cut else cut_back s cut' end.

(** Truncate of runs/store.go. *)
Definition Truncate (s : string) (max : nat) : string :=
  let s := if ValidString s then s else valid_utf8 false (runes_from 0 s) in
  if (String.length s <=? max)%nat then s else str_take (cut_back s max) s.

Definition validName (s : string) : bool :=
  (String.length s <=? 64)%nat && ValidString s && negb (contains_any s (String "000"%char newlines)).

Section Routing.
Context `{Unicode}.

Definition nodeKind (kind : string) : string :=
  let k := NormalizeNodeKind kind in if String.eqb k EmptyString then NodeKindTask else k.

(** matches: by what a rule looks at. *)
Definition rule_matches (node : RouteNode) (rule : RouteRule) : bool :=
  if String.eqb (rr_Match rule) RouteTag then existsb (λ tag, EqualFold (trim_space tag) (rr_Value rule)) (rt_Tags node)
  else if String.eqb (rr_Match rule) RouteKind then EqualFold (nodeKind (rt_Kind node)) (nodeKind (rr_Value rule))
  else if String.eqb (rr_Match rule) RouteRole
       then negb (String.eqb (rt_Role node) EmptyString) && String.eqb (rr_Value rule) (rt_Role node)
  else if String.eqb (rr_Match rule) RouteProject
       then negb (String.eqb (rr_Project rule) EmptyString) && String.eqb (rr_Project rule) (rt_Project node)
  else String.eqb (rr_Match rule) RouteDefault.

(** What the innermost loop takes, for one match kind and scope. *)
Definition takes (node : RouteNode) (kind : string) (scoped : bool) (rule : RouteRule) : bool :=
  String.eqb (rr_Match rule) kind && Bool.eqb (negb (String.eqb (rr_Project rule) EmptyString)) scoped
  && (String.eqb (rr_Project rule) EmptyString || String.eqb (rr_Project rule) (rt_Project node))
  && rule_matches node rule.

Definition no_suggestion : RouteSuggestion := mkSuggestion EmptyString EmptyString EmptyString no_agent [] None.

Definition suggestion (rule : RouteRule) : RouteSuggestion :=
  mkSuggestion (rr_ID rule) (rr_Match rule) (rr_RunnerID rule) (rr_Target rule) (rr_Fallbacks rule) (rr_Pipeline rule).

Definition first_rule (rules : list RouteRule) (node : RouteNode) : option RouteRule :=
  head (omap (M:=list) (λ ks, find (takes node ks.1 ks.2) rules)
         (flat_map (λ kind, [(kind, true); (kind, false)]) (routeOrder (rt_Role node)))).

Definition Suggest (rules : list RouteRule) (node : RouteNode) : RouteSuggestion :=
  match first_rule rules node with Some rule => suggestion rule | None => no_suggestion end.

(** What an agent and a chain of fallbacks must be. *)
Definition ValidateAgentModel (am : AgentModel) (requireModel : bool) : bool :=
  negb (String.eqb (trim_space (am_Agent am)) EmptyString) && validName (am_Agent am)
  && negb (requireModel && String.eqb (trim_space (am_Model am)) EmptyString) && validName (am_Model am).

Definition ValidateChain (chain : list AgentModel) (requireModel : bool) : bool :=
  (length chain <=? MaxFallbacks)%nat && forallb (λ am, ValidateAgentModel am requireModel) chain.

Definition ValidatePipeline (p : Pipeline) (requireModel : bool) : bool :=
  (1 <=? pl_MaxRounds p) && (pl_MaxRounds p <=? MaxPipelineRounds)
  && ValidateAgentModel (pl_Implement p) requireModel
  && (bool_decide (pl_Tester p = no_agent) || ValidateAgentModel (pl_Tester p) requireModel)
  && (length (pl_Reviewers p) <=? MaxReviewers)%nat
  && forallb (λ am, ValidateAgentModel am requireModel) (pl_Reviewers p)
  && (nonempty (pl_Reviewers p) || bool_decide (pl_Review p = no_agent) || ValidateAgentModel (pl_Review p) requireModel)
  && (0 <=? pl_Quorum p) && (pl_Quorum p <=? Z.of_nat (length (ReviewersOf p)))
  && negb (pl_HumanAnyEditor p && negb (pl_Human p)).
End Routing.

(** * Changed files *)

(** path.Clean: the elements left, newest first, as it walks the path; [..]
    takes one back unless nothing but [..] is left, and is dropped at the root. *)
Fixpoint clean_parts (rooted : bool) (parts acc : list string) : list string :=
  match parts with
  | [] => rev acc
  | part :: parts' =>
      if String.eqb part EmptyString || String.eqb part "." then clean_parts rooted parts' acc
      else if String.eqb part ".." then
        match acc with
        | top :: acc' => if String.eqb top ".." then clean_parts rooted parts' (part :: acc) else clean_parts rooted parts' acc'
        | [] => clean_parts rooted parts' (if rooted then [] else [part])
        end
      else clean_parts rooted parts' (part :: acc)
  end.

Definition path_clean (p : string) : string :=
  let rooted := has_prefix p "/" in
  let body := str_join (clean_parts rooted (split_char "/" p) []) "/" in
  if rooted then "/" +:+ body else if String.eqb body EmptyString then "." else body.

Definition sensitiveDirs : list string :=
  [".github"; ".gitlab"; ".circleci"; ".buildkite"; ".husky"; ".devcontainer";
   ".claude"; ".cursor"; ".vscode"; "scripts";
   ".codex"; ".gemini"; ".agents"; "_agents"; ".agent"; ".opencode"].

Definition sensitiveFiles : list string :=
  [".gitlab-ci.yml"; ".travis.yml"; "azure-pipelines.yml"; "jenkinsfile";
   "bitbucket-pipelines.yml"; ".drone.yml"; "appveyor.yml";
   ".pre-commit-config.yaml"; ".pre-commit-config.yml"; "lefthook.yml";
   ".dockerignore"; "compose.yaml"; "compose.yml";
   "makefile"; "gnumakefile"; "justfile"; "taskfile.yml";
   "claude.md"; "agents.md"; "gemini.md"; ".mcp.json";
   "opencode.json"; "opencode.jsonc"; "tui.json"; "tui.jsonc";
   "package.json"; "package-lock.json"; "npm-shrinkwrap.json"; "yarn.lock";
   "pnpm-lock.yaml"; "pnpm-workspace.yaml"; "bun.lock"; "bun.lockb";
   ".npmrc"; ".yarnrc"; ".yarnrc.yml"; ".pnpmfile.cjs";
   "go.mod"; "go.sum"; "go.work"; "go.work.sum";
   "cargo.toml"; "cargo.lock"; "build.rs";
   "pyproject.toml"; "poetry.lock"; "uv.lock"; "pipfile"; "pipfile.lock";
   "setup.py"; "setup.cfg"; "tox.ini"; "noxfile.py"; "conftest.py";
   "pytest.ini";
   "gemfile"; "gemfile.lock"; "composer.json"; "composer.lock";
   "pom.xml"; "build.gradle"; "build.gradle.kts"; "settings.gradle";
   "settings.gradle.kts"; "gradle-wrapper.properties"; "nuget.config";
   "directory.build.props"; "directory.build.targets"; "packages.lock.json"].

Definition testRunnerConfigs : list string :=
  ["vitest.config."; "vitest.workspace."; "vite.config."; "jest.config."; "playwright.config."; "cypress.config.";
   "karma.conf."; ".mocharc"; "phpunit.xml"].

(** strings.ReplaceAll of one character by another. *)
Fixpoint replace_char (a b : ascii) (s : string) : string :=
  match s with
  | EmptyString => EmptyString
  | String c s' => String (if Ascii.eqb c a then b else c) (replace_char a b s')
  end.

Definition sensitive_base (base : string) : bool :=
  one_of base sensitiveFiles
  || String.eqb base ".env" || has_prefix base ".env." || String.eqb base ".envrc"
  || has_prefix base ".git"
  || has_prefix base "dockerfile" || has_suffix base ".dockerfile"
  || has_prefix base "docker-compose" || has_prefix base "containerfile"
  || (has_prefix base "requirements" && has_suffix base ".txt")
  || existsb (has_prefix base) testRunnerConfigs.

Definition SensitivePath `{Unicode} (p : string) : bool :=
  let p := to_lower (trim_prefix (replace_char backslash "/" p) "./") in
  if String.eqb p EmptyString then false
  else
    let parts := split_char "/" (path_clean p) in
    existsb (λ dir, one_of dir sensitiveDirs) parts || sensitive_base (List.last parts EmptyString).

(** slices.Sort of strings. *)
Definition sort_strings (xs : list string) : list string := merge_sort String.le xs.

(** Both names of a change, the old one of a rename included. *)
Definition change_paths (changes : list FileChange) : list string :=
  List.filter (λ p, negb (String.eqb p EmptyString)) (flat_map (λ c, [fc_Path c; fc_OldPath c]) changes).

(** The loops that add a path once. *)
Definition add_once (keep : string → bool) (paths : list string) : list string :=
  foldl (λ out p, if keep p && negb (one_of p out) then out ++ [p] else out) [] paths.

Record GuardReport := mkGuard {
  gd_TestFiles : list string; gd_Touched : list string; gd_Sensitive : list string;
  gd_Approved : bool; gd_ApprovedBy : string }.

Definition Violation (g : GuardReport) : bool := nonempty (gd_Touched g) || nonempty (gd_Sensitive g).

Definition Guard `{Unicode} (testFiles : list string) (executor : list FileChange) : GuardReport :=
  mkGuard testFiles
    (sort_strings (add_once (λ p, one_of p testFiles) (change_paths executor)))
    (sort_strings (add_once SensitivePath (change_paths executor)))
    false EmptyString.

Definition test_globs (globs : list string) : list string := match globs with [] => DefaultTestGlobs | _ => globs end.

Definition executorTestFiles (globs testFiles : list string) (executor : list FileChange) : list string :=
  add_once (λ p, negb (one_of p testFiles) && MatchAnyGlob (test_globs globs) p) (change_paths executor).

Definition NonTestFiles (globs : list string) (changes : list FileChange) : list string :=
  sort_strings (add_once (λ p, negb (MatchAnyGlob (test_globs globs) p)) (change_paths changes)).

Definition changedPaths (changes : list FileChange) : list string :=
  sort_strings (add_once (λ _, true) (change_paths changes)).
