(* ===== verification/TaskRun.v ===== *)
(** A task read off its runs (internal/autopilot/derive.go): where a try
    stands, its stages and votes, derived from the runs and the pipeline every
    time. *)

From S2P Require Import Prelude GoStr GoFloat Dsl Graph NodeTypes Workflow Roles State Readiness Runs.
Open Scope Z_scope.

(** * The data of runnerwire/autopilot.go *)

Definition StageQueued : string := "queued".
Definition StageImplement : string := "implement".
Definition StageCommit : string := "commit".
Definition StagePush : string := "push".
Definition StagePR : string := "pr".
Definition StageCI : string := "ci".
Definition StageReview : string := "review".
Definition StageHuman : string := "human_review".
Definition StageRevise : string := "revise".
Definition StageApproved : string := "approved".
Definition StageMerge : string := "merge".
Definition StageDone : string := "done".
Definition StageTest : string := "test".
Definition StageVerifyRed : string := "verify_red".
Definition StageVerifyGreen : string := "verify_green".
Definition StageJudge : string := "judge".

Definition StageRunning : string := "running".
Definition StageOK : string := "success".
Definition StageFailed : string := "failed".
Definition StageWaiting : string := "waiting".

Record StageRecord := mkStage {
  sr_Stage : string; sr_Status : string; sr_At : string; sr_RunID : string; sr_Round : Z; sr_Detail : string }.

#[export] Instance StageRecord_eq_dec : EqDecision StageRecord.
Proof. solve_decision. Defined.

Record ReviewVote := mkVote { rv_Agent : string; rv_Model : string; rv_Verdict : string; rv_RunID : string; rv_Round : Z }.

#[export] Instance ReviewVote_eq_dec : EqDecision ReviewVote.
Proof. solve_decision. Defined.

(** * What derive reads and answers *)

Inductive phase := phaseIdle | phaseActive | phaseApproved | phaseMerged | phaseFailed.

Record observation := mkObservation {
  ob_runs : list RunRecord; ob_pipeline : option PipelineRecord; ob_prRun : option RunRecord }.

Record derived := mkDerived {
  dv_phase : phase;
  dv_reason : string;
  dv_waitingReview : bool;
  dv_waitingHuman : bool;
  dv_queued : bool;
  dv_retryAt : string;
  dv_ci : string;
  dv_prURL : string;
  dv_votes : list ReviewVote;
  dv_stages : list StageRecord;
  dv_latestRun : string;
}.

Definition idle : derived := mkDerived phaseIdle EmptyString false false false EmptyString EmptyString EmptyString [] [] EmptyString.

(** firstNonEmpty. *)
Fixpoint firstNonEmpty (values : list string) : string :=
  match values with
  | [] => EmptyString
  | v :: values' => if String.eqb (trim_space v) EmptyString then firstNonEmpty values' else v
  end.

Definition shortSHA (sha : string) : string := str_take 7 sha.

(** The run that fell back from [id]; the id, empty when there is none. *)
Definition retriedBy (all : list RunRecord) (id : string) : string :=
  match find (λ r, String.eqb (run_RetryOf r) id) all with Some r => run_ID r | None => EmptyString end.

Definition retried (all : list RunRecord) (id : string) : bool := negb (String.eqb (retriedBy all id) EmptyString).

(** A revise run that starts a round, not a fallback of one. *)
Definition opens_round (r : RunRecord) : bool := String.eqb (run_Kind r) JobRevise && String.eqb (run_RetryOf r) EmptyString.

(** roundOf, of the runs up to and including the one in question. *)
Definition round_after (before : list RunRecord) : Z := 1 + Z.of_nat (length (List.filter opens_round before)).

Definition waiting_status (status : string) : bool := one_of status [RunQueued; RunOffered].

(** The newest of a pass's time and the times the runs carry. *)
Definition later (a b : string) : string := if string_ltb a b then b else a.
Definition stamp_of (obs : observation) (stamp : string) : string :=
  foldl later stamp (flat_map (λ r, [run_CreatedAt r; run_StartedAt r; run_FinishedAt r]) (ob_runs obs)).

(** add. *)
Definition stage_at (stamp stage status at_ runID : string) (round : Z) (detail : string) : StageRecord :=
  mkStage stage status (if String.eqb at_ EmptyString then stamp else at_) runID round detail.

(** * Stages *)

Section Derive.
Variables (obs : observation) (stamp : string).

Definition add := stage_at stamp.

(** queued: from the first offer until a run of this try starts. *)
Definition queued_stage (first latest : RunRecord) : StageRecord :=
  match find (λ r, negb (String.eqb (run_StartedAt r) EmptyString)) (ob_runs obs) with
  | Some r => add StageQueued StageOK (run_StartedAt r) (run_ID first) 0 EmptyString
  | None =>
      if String.eqb (run_Status latest) RunDeclined
      then add StageQueued StageFailed (run_FinishedAt latest) (run_ID latest) 0 ("declined: " +:+ run_Error latest)
      else add StageQueued StageRunning (run_CreatedAt first) (run_ID first) 0 ("waiting for " +:+ run_RunnerName first)
  end.

(** The scan for rounds: the round, the newest implement or revise run, the
    review runs by round and the highest round. *)
Record rounds := mkRounds { rd_round : Z; rd_implement : option RunRecord; rd_reviews : list (Z * RunRecord); rd_max : Z }.

Definition scan_run (st : rounds) (r : RunRecord) : rounds :=
  let st' :=
    if String.eqb (run_Kind r) JobReview
    then mkRounds (rd_round st) (rd_implement st) (rd_reviews st ++ [(rd_round st, r)]) (rd_max st)
    else if String.eqb (run_Kind r) JobRevise
    then mkRounds (if String.eqb (run_RetryOf r) EmptyString then rd_round st + 1 else rd_round st) (Some r) (rd_reviews st) (rd_max st)
    else if one_of (run_Kind r) [JobPlan; JobVerify; JobJudge] then st
    else mkRounds (rd_round st) (Some r) (rd_reviews st) (rd_max st) in
  mkRounds (rd_round st') (rd_implement st') (rd_reviews st') (Z.max (rd_max st') (rd_round st')).

Definition scan_runs : rounds := foldl scan_run (mkRounds 1 None [] 1) (ob_runs obs).

(** The stage a run stands for, by its status; none while it waits. *)
Definition run_stage (stage : string) (round : Z) (detail : string) (r : RunRecord) : list StageRecord :=
  if waiting_status (run_Status r) then []
  else if String.eqb (run_Status r) RunRunning then [add stage StageRunning (run_StartedAt r) (run_ID r) round detail]
  else if String.eqb (run_Status r) RunSucceeded then [add stage StageOK (run_FinishedAt r) (run_ID r) round detail]
  else [add stage StageFailed (run_FinishedAt r) (run_ID r) round (firstNonEmpty [run_Error r; run_Status r])].

Definition agent_label (r : RunRecord) : string :=
  if String.eqb (run_Model r) EmptyString then run_Agent r else run_Agent r +:+ "/" +:+ run_Model r.

(** implement (round 1) and revise (later rounds). *)
Definition work_stage (i : nat) (r : RunRecord) : list StageRecord :=
  if negb (one_of (run_Kind r) [JobImplement; JobRevise]) || retried (ob_runs obs) (run_ID r) then []
  else if String.eqb (run_Kind r) JobRevise
  then run_stage StageRevise (round_after (take (S i) (ob_runs obs))) (agent_label r) r
  else run_stage StageImplement 1 (agent_label r) r.

(** The stages of a staged pipeline's roles. *)
Definition role_stage (r : RunRecord) : list StageRecord :=
  let stage :=
    if String.eqb (run_Kind r) JobTest then Some (StageTest, firstNonEmpty [run_Agent r; "tester"])
    else if String.eqb (run_Kind r) JobVerify
    then Some (if run_VerifyGreen r then StageVerifyGreen else StageVerifyRed,
               match run_Verify r with Some v => "exit " +:+ itoa (vr_ExitCode v) | None => EmptyString end)
    else if String.eqb (run_Kind r) JobJudge then Some (StageJudge, run_Verdict r)
    else None in
  match stage with
  | None => []
  | Some (stage, detail) => if retried (ob_runs obs) (run_ID r) then [] else run_stage stage 0 detail r
  end.

Definition commit_stages (implement : option RunRecord) : list StageRecord :=
  match implement with
  | None => []
  | Some r =>
      if negb (String.eqb (run_Status r) RunSucceeded) then []
      else if negb (String.eqb (run_Commit r) EmptyString)
      then [add StageCommit StageOK (run_FinishedAt r) (run_ID r) 0 (shortSHA (run_Commit r));
            add StagePush StageOK (run_FinishedAt r) (run_ID r) 0 (run_Branch r)]
      else if String.eqb (run_Kind r) JobImplement
      then [add StageCommit StageFailed (run_FinishedAt r) (run_ID r) 0 "the run changed nothing"]
      else []
  end.

(** The run that carries the pull request. *)
Definition pr_run : option RunRecord :=
  match ob_prRun obs with
  | Some r => Some r
  | None => find (λ r, negb (String.eqb (run_PRURL r) EmptyString)) (rev (ob_runs obs))
  end.

Definition pr_stages (implement : option RunRecord) : list StageRecord :=
  match pr_run, implement with
  | Some r, _ =>
      add StagePR StageOK (run_FinishedAt r) (run_ID r) 0 (run_PRURL r) ::
      (if String.eqb (run_CIStatus r) CIPending then [add StageCI StageRunning EmptyString (run_ID r) 0 "checks running"]
       else if String.eqb (run_CIStatus r) CISuccess then [add StageCI StageOK EmptyString (run_ID r) 0 "checks passed"]
       else if String.eqb (run_CIStatus r) CIFailure then [add StageCI StageFailed EmptyString (run_ID r) 0 "checks failed"]
       else [])
  | None, Some r =>
      if String.eqb (run_Status r) RunSucceeded && negb (String.eqb (run_PRError r) EmptyString)
      then [add StagePR StageFailed (run_FinishedAt r) (run_ID r) 0 (run_PRError r)] else []
  | None, None => []
  end.

(** * Review rounds *)

Definition review_vote (round : Z) (r : RunRecord) : ReviewVote :=
  mkVote (run_Agent r) (run_Model r) (if String.eqb (run_Status r) RunSucceeded then run_Verdict r else EmptyString) (run_ID r) round.

(** One round: its votes, its stage and whether reviewers are at work. *)
Definition review_round (reviews : list (Z * RunRecord)) (round : Z) : list ReviewVote * list StageRecord * bool :=
  let all := snd <$> List.filter (λ e, e.1 =? round) reviews in
  match all with
  | [] => ([], [], false)
  | _ =>
      let newest := List.filter (λ r, negb (retried (ob_runs obs) (run_ID r))) all in
      let votes := review_vote round <$> newest in
      let running := existsb (λ r, waiting_status (run_Status r) || String.eqb (run_Status r) RunRunning) newest in
      let count v := length (List.filter (λ x, String.eqb (rv_Verdict x) v) votes) in
      let approve := count VerdictApprove in
      let changes := count VerdictChanges in
      let at_ := foldl (λ a r, firstNonEmpty [run_FinishedAt r; run_StartedAt r; a]) EmptyString newest in
      let detail := itoa (Z.of_nat approve) +:+ " approve, " +:+ itoa (Z.of_nat changes) +:+ " changes" in
      let stage :=
        if running then add StageReview StageRunning at_ EmptyString round detail
        else if (0 <? changes)%nat && (approve =? 0)%nat
        then add StageReview StageFailed at_ EmptyString round (detail +:+ ": changes requested")
        else add StageReview StageOK at_ EmptyString round detail in
      (votes, [stage], running)
  end.

Definition review_rounds (rd : rounds) : list ReviewVote * list StageRecord * bool :=
  let each := review_round (rd_reviews rd) <$> seqZ 1 (rd_max rd) in
  (flat_map (λ x, x.1.1) each, flat_map (λ x, x.1.2) each,
   match review_round (rd_reviews rd) (rd_max rd) with (_, _, running) => running end).

(** * The outcome *)

Definition pipelineWaitingHuman : string := "waiting_human".

Definition pipeline_outcome (p : PipelineRecord) : phase * string * bool * list StageRecord :=
  if String.eqb (pr_Status p) PipelineApproved then (phaseApproved, EmptyString, false, [])
  else if String.eqb (pr_Status p) PipelineChangesLeft
  then (phaseFailed, firstNonEmpty [pr_Reason p; "changes still requested when the review rounds ran out"], false, [])
  else if String.eqb (pr_Status p) PipelineFailed then (phaseFailed, firstNonEmpty [pr_Reason p; "the pipeline failed"], false, [])
  else if String.eqb (pr_Status p) PipelineCancelled then (phaseFailed, firstNonEmpty [pr_Reason p; "the pipeline was cancelled"], false, [])
  else if String.eqb (pr_Status p) pipelineWaitingHuman
  then (phaseActive, EmptyString, true, [add StageHuman StageWaiting EmptyString EmptyString (pr_Round p) "waiting for a person"])
  else (phaseActive, EmptyString, false, []).

Definition run_outcome (r : RunRecord) : phase * string :=
  if negb (RunFinal (run_Status r)) then (phaseActive, EmptyString)
  else if negb (String.eqb (run_Status r) RunSucceeded)
  then (phaseFailed, "run " +:+ run_ID r +:+ " " +:+ run_Status r +:+ ": " +:+ firstNonEmpty [run_Error r; run_Status r])
  else if negb (String.eqb (run_PRURL r) EmptyString) then (phaseApproved, EmptyString)
  else if negb (String.eqb (run_PRError r) EmptyString) then (phaseFailed, "no pull request: " +:+ run_PRError r)
  else if String.eqb (run_Commit r) EmptyString then (phaseFailed, "the run changed nothing")
  else (phaseActive, EmptyString).

(** The merge, on the run that carries the pull request. *)
Definition merge_outcome (ph : phase) : phase * list StageRecord :=
  match pr_run with
  | None => (ph, [])
  | Some r =>
      if String.eqb (run_PRState r) PRMerged then (phaseMerged, [add StageMerge StageOK EmptyString (run_ID r) 0 "merged"])
      else match run_Merge r with
           | None => (ph, [])
           | Some m =>
               if String.eqb (mr_Status m) MergePending
               then (ph, [add StageMerge StageRunning (mr_CreatedAt m) (run_ID r) 0 ("approved by " +:+ mr_RequestedBy m)])
               else if String.eqb (mr_Status m) MergeDone
               then (phaseMerged, [add StageMerge StageOK (firstNonEmpty [mr_FinishedAt m; mr_CreatedAt m]) (run_ID r) 0 "merged"])
               else (ph, [add StageMerge StageFailed (firstNonEmpty [mr_FinishedAt m; mr_CreatedAt m]) (run_ID r) 0
                            (mr_Status m +:+ ": " +:+ mr_Reason m)])
           end
  end.
End Derive.

Definition derive (obs : observation) (stamp0 : string) : derived :=
  match ob_runs obs with
  | [] => idle
  | first :: _ =>
      let latest := List.last (ob_runs obs) first in
      let stamp := stamp_of obs stamp0 in
      let rd := scan_runs obs in
      let '(votes, reviews, reviewing) := review_rounds obs stamp rd in
      let '(ph, reason, human, human_stages) :=
        match ob_pipeline obs with
        | Some p => pipeline_outcome stamp p
        | None => let '(ph, reason) := run_outcome latest in (ph, reason, false, [])
        end in
      let '(ph', merges) := merge_outcome obs stamp ph in
      mkDerived ph' reason reviewing human
        (waiting_status (run_Status latest))
        (if String.eqb (run_Status latest) RunQueued then run_RetryAt latest else EmptyString)
        (match pr_run obs with Some r => run_CIStatus r | None => EmptyString end)
        (match pr_run obs with Some r => run_PRURL r | None => EmptyString end)
        votes
        ([queued_stage obs stamp first latest]
         ++ flat_map (λ ir, work_stage obs stamp ir.1 ir.2) (combine (seq 0 (length (ob_runs obs))) (ob_runs obs))
         ++ flat_map (role_stage obs stamp) (ob_runs obs)
         ++ commit_stages stamp (rd_implement rd)
         ++ pr_stages obs stamp (rd_implement rd)
         ++ reviews ++ human_stages ++ merges)
        (run_ID latest)
  end.

(** keepTimes: a stage seen before keeps what it said and when. *)
Definition same_stage (p n : StageRecord) : bool :=
  String.eqb (sr_Stage p) (sr_Stage n) && (sr_Round p =? sr_Round n) && String.eqb (sr_RunID p) (sr_RunID n).

Definition keep_detail (prev : list StageRecord) (n : StageRecord) : StageRecord :=
  if negb (String.eqb (sr_Detail n) EmptyString) then n
  else mkStage (sr_Stage n) (sr_Status n) (sr_At n) (sr_RunID n) (sr_Round n)
         (foldl (λ d p, if same_stage p n && negb (String.eqb (sr_Detail p) EmptyString) then sr_Detail p else d) EmptyString prev).

Definition keep_time (prev : list StageRecord) (n : StageRecord) : StageRecord :=
  match find (λ p, same_stage p n && String.eqb (sr_Status p) (sr_Status n)) prev with
  | Some p => mkStage (sr_Stage n) (sr_Status n) (sr_At p) (sr_RunID n) (sr_Round n) (sr_Detail n)
  | None => n
  end.

Definition keepTimes (prev next : list StageRecord) : list StageRecord := keep_time prev <$> (keep_detail prev <$> next).
