(* ===== verification/AutoPolicy.v ===== *)
(** Autopilot policies and the choice of an implementer
    (internal/autopilot/policy.go, advisor.go and the pick of
    orchestrator.go): what a policy must be, the pipeline it runs, and who
    implements a task. *)

From S2P Require Import Prelude GoStr GoFloat Dsl Graph NodeTypes Workflow Roles State Readiness Runs.
Open Scope Z_scope.

Definition ReviewNone : string := "none".
Definition ReviewAgents : string := "agents".
Definition ReviewHuman : string := "human".
Definition ReviewAgentsHuman : string := "agents+human".

Definition AdvisorRules : string := EmptyString.
Definition AdvisorLLM : string := "llm".
Definition AdvisorSystemOne : string := "systemone".

Definition MaxAutopilotParallel : Z := 8.
Definition MaxAutopilotTasks : nat := 25.

Record ReviewPolicy := mkReviewPolicy { rp_Mode : string; rp_Reviewers : list AgentModel; rp_Quorum : Z; rp_AnyEditor : bool }.

Record AutopilotPolicy := mkPolicy {
  po_Implement : list AgentModel;
  po_Review : ReviewPolicy;
  po_MaxParallel : Z;
  po_MaxRounds : Z;
  po_AutoMerge : bool;
  po_AllowAgentOnlyMerge : bool;
  po_Advisor : string;
  po_RunnerID : string;
  po_RepoID : string;
}.

Inductive PolicyError :=
  | BadImplement
  | BadMaxParallel
  | BadMaxRounds
  | BadAdvisor
  | NoReviewersInMode (mode : string)
  | BadReviewers (mode : string)
  | BadReviewer
  | BadQuorum
  | BadReviewMode
  | BadPins
  | MergeNeedsPerson.

(** humanReview: a person must approve after the agents. *)
Definition humanReview (p : AutopilotPolicy) : bool := one_of (rp_Mode (po_Review p)) [ReviewHuman; ReviewAgentsHuman].

(** The defaults filled in before each bound is checked. *)
Definition or_one (n : Z) : Z := if n =? 0 then 1 else n.

Definition settle_review (r : ReviewPolicy) : outcome PolicyError ReviewPolicy :=
  let mode := if String.eqb (rp_Mode r) EmptyString then ReviewNone else rp_Mode r in
  if one_of mode [ReviewNone; ReviewHuman] then
    if nonempty (rp_Reviewers r) then Fail (NoReviewersInMode mode) else Ok (mkReviewPolicy mode (rp_Reviewers r) 0 (rp_AnyEditor r))
  else if one_of mode [ReviewAgents; ReviewAgentsHuman] then
    if negb (nonempty (rp_Reviewers r)) || (MaxReviewers <? length (rp_Reviewers r))%nat then Fail (BadReviewers mode)
    else if negb (forallb (λ am, ValidateAgentModel am false) (rp_Reviewers r)) then Fail BadReviewer
    else if (rp_Quorum r <? 0) || (Z.of_nat (length (rp_Reviewers r)) <? rp_Quorum r) then Fail BadQuorum
    else Ok (mkReviewPolicy mode (rp_Reviewers r) (rp_Quorum r) (rp_AnyEditor r))
  else Fail BadReviewMode.

Definition ValidatePolicy (p : AutopilotPolicy) : outcome PolicyError AutopilotPolicy :=
  if negb (ValidateChain (po_Implement p) false) then Fail BadImplement
  else
    let maxParallel := or_one (po_MaxParallel p) in
    if (maxParallel <? 1) || (MaxAutopilotParallel <? maxParallel) then Fail BadMaxParallel
    else
      let maxRounds := or_one (po_MaxRounds p) in
      if (maxRounds <? 1) || (MaxPipelineRounds <? maxRounds) then Fail BadMaxRounds
      else if negb (one_of (po_Advisor p) [AdvisorRules; AdvisorLLM; AdvisorSystemOne]) then Fail BadAdvisor
      else
        review ← settle_review (po_Review p);
        if (64 <? String.length (po_RunnerID p))%nat || (64 <? String.length (po_RepoID p))%nat then Fail BadPins
        else
          let p' := mkPolicy (po_Implement p) review maxParallel maxRounds (po_AutoMerge p)
                      (po_AutoMerge p && po_AllowAgentOnlyMerge p) (po_Advisor p) (po_RunnerID p) (po_RepoID p) in
          if po_AutoMerge p && negb (humanReview p') && negb (po_AllowAgentOnlyMerge p) then Fail MergeNeedsPerson
          else Ok p'.

(** reviewed and pipelineFor. *)
Definition reviewed (p : AutopilotPolicy) : bool := negb (one_of (rp_Mode (po_Review p)) [ReviewNone; EmptyString]).

Definition pipelineFor (p : AutopilotPolicy) (implement : AgentModel) : option Pipeline :=
  if negb (reviewed p) then None
  else
    let agents := one_of (rp_Mode (po_Review p)) [ReviewAgents; ReviewAgentsHuman] in
    Some (mkPipeline implement no_agent (po_MaxRounds p)
            (if agents then rp_Reviewers (po_Review p) else [])
            (if agents then rp_Quorum (po_Review p) else 0)
            (humanReview p) (humanReview p && rp_AnyEditor (po_Review p)) no_agent).

(** pipelineHandlesHuman: the pipelines wait for a person themselves. *)
Definition pipelineHandlesHuman : bool := true.

(** * Who implements a task *)

Record Choice := mkChoice { ci_Implement : list AgentModel; ci_Reason : string }.

(** The agents the entries of a chain can run on. *)
Definition offers (agent : AgentInfo) (model : string) : bool :=
  String.eqb model EmptyString || String.eqb model "default" || one_of model (mo_ID <$> ai_Models agent).

Definition can_run (agents : list AgentInfo) (am : AgentModel) : bool :=
  match find (λ a, String.eqb (ai_Kind a) (am_Agent am) && ai_Installed a) agents with
  | Some a => offers a (am_Model am)
  | None => false
  end.

Definition usable (chain : list AgentModel) (agents : list AgentInfo) : list AgentModel :=
  foldl (λ out am, if can_run agents am && negb (bool_decide (am ∈ out)) then out ++ [am] else out) [] chain.

(** mergeAgents: the runners' lists by kind, installed if installed anywhere,
    with every model any of them offers. *)
Definition add_models (have more : list ModelInfo) : list ModelInfo :=
  foldl (λ out m, if one_of (mo_ID m) (mo_ID <$> out) then out else out ++ [m]) have more.

Fixpoint merge_agent (out : list AgentInfo) (a : AgentInfo) : list AgentInfo :=
  match out with
  | [] => [a]
  | o :: out' =>
      if String.eqb (ai_Kind o) (ai_Kind a)
      then mkAgentInfo (ai_Kind o) (ai_Installed o || ai_Installed a) (add_models (ai_Models o) (ai_Models a)) :: out'
      else o :: merge_agent out' a
  end.

Definition mergeAgents (runners : list Runner) : list AgentInfo :=
  foldl merge_agent [] (flat_map (λ r, match rn_Info r with Some i => in_Agents i | None => [] end) runners).

Inductive ChooseError := NoRouting | NoAgent.

(** rulesAdvisor.Choose; [rules] is the owner's routing, [None] when it cannot
    be read, [route] what auto routing makes of the rules' pick. *)
Definition rules_choose `{Unicode} (rules : option (list RouteRule)) (route : RouteSuggestion → RouteSuggestion)
    (node : RouteNode) (policy : AutopilotPolicy) (agents : list AgentInfo) : outcome ChooseError Choice :=
  match usable (po_Implement policy) agents with
  | (_ :: _) as chain => Ok (mkChoice chain "the autopilot's implement chain")
  | [] =>
      match rules with
      | None => Fail NoRouting
      | Some rules =>
          let s := route (Suggest rules node) in
          let chain := if String.eqb (rs_RuleID s) EmptyString then [] else usable (rs_Target s :: rs_Fallbacks s) agents in
          match chain with
          | _ :: _ => Ok (mkChoice chain ("routing rule " +:+ rs_RuleID s))
          | [] =>
              match find ai_Installed agents with
              | Some a => Ok (mkChoice [mkAgentModel (ai_Kind a) EmptyString] "the first installed agent")
              | None => Fail NoAgent
              end
          end
      end
  end.

(** choose: the policy's advisor first, [None] when there is none or it fails,
    the rules otherwise. *)
Definition choose `{Unicode} (advised : option Choice) (rules : option (list RouteRule)) (route : RouteSuggestion → RouteSuggestion)
    (node : RouteNode) (policy : AutopilotPolicy) (agents : list AgentInfo) : outcome ChooseError Choice :=
  let asked := if one_of (po_Advisor policy) [AdvisorLLM; AdvisorSystemOne] then advised else None in
  match asked with
  | Some c =>
      match usable (ci_Implement c) agents with
      | (_ :: _) as chain => Ok (mkChoice chain (ci_Reason c))
      | [] => rules_choose rules route node policy agents
      end
  | None => rules_choose rules route node policy agents
  end.
