(* ===== verification/Autopilot.v ===== *)
(** The autopilot orchestrator (internal/autopilot/orchestrator.go, sensitive.go):
    a goal's tasks as a graph, each pass reading what their runs say, holding
    and failing what must be, dispatching what is ready and merging what is
    approved.  What a pass asks of the outside (the run dispatcher, the boards)
    is a log of acts; every answer is a reading of the world as those acts left
    it. *)

From S2P Require Import Prelude GoStr GoFloat GoTime Dsl Graph NodeTypes Workflow Roles State Readiness Dag Runs TaskRun AutoPolicy.
From Stdlib Require Import Ascii.
Open Scope Z_scope.

(** * Data *)

Definition AutopilotRunning : string := "running".
Definition AutopilotPaused : string := "paused".
Definition AutopilotSucceeded : string := "succeeded".
Definition AutopilotFailed : string := "failed".
Definition AutopilotCancelled : string := "cancelled".

Definition final (status : string) : bool := one_of status [AutopilotSucceeded; AutopilotFailed; AutopilotCancelled].

Definition TaskNone : string := "none".
Definition TaskScheduled : string := "scheduled".
Definition TaskQueued : string := "queued".
Definition TaskRunning : string := "running".
Definition TaskWaitingReview : string := "waiting_review".
Definition TaskWaitingHuman : string := "waiting_human".
Definition TaskSuccess : string := "success".
Definition TaskFailed : string := "failed".
Definition TaskUpstreamFailed : string := "upstream_failed".
Definition TaskSkipped : string := "skipped".

(** final1: an end state of a task. *)
Definition final1 (state : string) : bool := one_of state [TaskSuccess; TaskFailed; TaskUpstreamFailed; TaskSkipped].

Definition HoldChanged : string := "changed".
Definition HoldRemoved : string := "removed".
Definition HoldSensitive : string := "sensitive".
Definition HoldPerson : string := "person".

(** A task instance; UpdatedAt, which only the store writes, is left out. *)
Record TaskInstance := mkTask {
  t_NodeID : string;
  t_Title : string;
  t_State : string;
  t_Stage : string;
  t_Try : Z;
  t_Upstream : list string;
  t_RunID : string;
  t_PipelineID : string;
  t_PRURL : string;
  t_CIStatus : string;
  t_Votes : list ReviewVote;
  t_HumanVerdict : string;
  t_Stages : list StageRecord;
  t_Reason : string;
  t_Advisor : string;
  t_ContentHash : string;
  t_Hold : string;
}.

#[export] Instance TaskInstance_eq_dec : EqDecision TaskInstance.
Proof. solve_decision. Defined.

(** An autopilot's record; what only its listing shows is left out. *)
Record Record_ := mkRecord {
  ap_ID : string;
  ap_Project : string;
  ap_GoalNodeID : string;
  ap_Status : string;
  ap_Policy : AutopilotPolicy;
  ap_Reason : string;
  ap_CreatedBy : string;
  ap_CreatedByName : string;
  ap_FinishedAt : string;
  ap_GoalPhase : string;
  ap_QARound : Z;
  ap_QARunID : string;
  ap_SteppedUpAt : string;
  ap_Workflow : option Workflow;
  ap_PlanRunID : string;
}.

(** What a pass asks the dispatcher to start. *)
Record StartRequest := mkStart {
  sq_NodeID : string; sq_RunnerID : string; sq_Agent : string; sq_Model : string; sq_RepoID : string;
  sq_Prompt : string; sq_Fallbacks : list AgentModel; sq_Pipeline : option Pipeline; sq_Kind : string; sq_Role : string;
  sq_Project : string; sq_ActorID : string; sq_ActorName : string; sq_SteppedUpAt : string; sq_Roles : list AgentRole;
  sq_Title : string; sq_Content : string; sq_Type : string; sq_AgentMode : AgentMode;
  sq_Acceptance : option Acceptance; sq_Workflow : option Workflow; sq_LockAcceptance : bool }.

Inductive StartAnswer :=
  | Started (run pipeline createdAt : string)
  | StartLater (msg : string)       (* StartBudget or StartPrecondition *)
  | StartRefused (msg : string)     (* any other refusal *)
  | StartBroken (msg : string).     (* an error that is no refusal *)

Inductive MergeAnswer := Merging | MergeNotYet (msg : string) | MergeBroken.

(** The acts of a pass, in order. *)
Inductive Act :=
  | AStart (req : StartRequest)
  | AMerge (run head : string)
  | ASetStatus (node : string) (status : Status) (by_ note : string)
  | ACancelRun (run reason : string)
  | ACancelPipeline (pipeline reason : string)
  | AHumanReview (pipeline who verdict comment : string)
  | AQARound (round : Z) (run outcome : string) (fixTasks : Z) (reason : string).

Definition QAOutcomePass : string := "pass".
Definition QAOutcomeFail : string := "fail".
Definition QAOutcomeNone : string := "none".

(** What the world answers: runs.Dispatcher, the runner registry, the boards,
    the member store and the clock; [None] is a returned error. *)
Record World := mkWorld {
  w_graph : option (Graph * option RunState);
  w_content : string → option string;
  w_createdByRun : string → string;
  w_setStatus : string → Status → bool;
  w_may : option bool;
  w_owned : option (list Runner);
  w_busy : string → option Z;
  w_routing : option (list RouteRule);
  w_route : string → string → RouteSuggestion → RouteSuggestion;   (* by node and role *)
  w_advised : string → string → AutopilotPolicy → list AgentInfo → option Choice;
  w_get : string → option RunRecord;
  w_nodeRuns : string → option (list RunRecord);
  w_pipeline : string → option PipelineRecord;
  w_pipelineRuns : string → option (list RunRecord);
  w_changes : string → option (option RunChanges);
  w_start : StartRequest → StartAnswer;
  w_merge : string → string → MergeAnswer;
  w_humanReview : string → bool;
  w_clock : Z;
}.

(** One pass's view of an autopilot, and the acts so far. *)
Record work := mkWork {
  wk_rec : Record_;
  wk_tasks : gmap string TaskInstance;
  wk_dag : dag;
  wk_graph : Graph;
  wk_state : option RunState;
  wk_dirty : bool;
  wk_now : string;
  wk_added : list string;
  wk_acts : list Act;
}.

(** ** Writing fields *)

Definition setState (t : TaskInstance) (state stage reason : string) : TaskInstance :=
  mkTask (t_NodeID t) (t_Title t) state (if String.eqb stage EmptyString then t_Stage t else stage) (t_Try t) (t_Upstream t)
    (t_RunID t) (t_PipelineID t) (t_PRURL t) (t_CIStatus t) (t_Votes t) (t_HumanVerdict t) (t_Stages t) reason
    (t_Advisor t) (t_ContentHash t) (t_Hold t).

Definition set_hold (t : TaskInstance) (hold : string) : TaskInstance :=
  mkTask (t_NodeID t) (t_Title t) (t_State t) (t_Stage t) (t_Try t) (t_Upstream t) (t_RunID t) (t_PipelineID t) (t_PRURL t)
    (t_CIStatus t) (t_Votes t) (t_HumanVerdict t) (t_Stages t) (t_Reason t) (t_Advisor t) (t_ContentHash t) hold.

Definition set_stage (t : TaskInstance) (stage : string) : TaskInstance :=
  mkTask (t_NodeID t) (t_Title t) (t_State t) stage (t_Try t) (t_Upstream t) (t_RunID t) (t_PipelineID t) (t_PRURL t)
    (t_CIStatus t) (t_Votes t) (t_HumanVerdict t) (t_Stages t) (t_Reason t) (t_Advisor t) (t_ContentHash t) (t_Hold t).

Definition set_stages (t : TaskInstance) (stages : list StageRecord) : TaskInstance :=
  mkTask (t_NodeID t) (t_Title t) (t_State t) (t_Stage t) (t_Try t) (t_Upstream t) (t_RunID t) (t_PipelineID t) (t_PRURL t)
    (t_CIStatus t) (t_Votes t) (t_HumanVerdict t) stages (t_Reason t) (t_Advisor t) (t_ContentHash t) (t_Hold t).

Definition set_reason (t : TaskInstance) (reason : string) : TaskInstance :=
  mkTask (t_NodeID t) (t_Title t) (t_State t) (t_Stage t) (t_Try t) (t_Upstream t) (t_RunID t) (t_PipelineID t) (t_PRURL t)
    (t_CIStatus t) (t_Votes t) (t_HumanVerdict t) (t_Stages t) reason (t_Advisor t) (t_ContentHash t) (t_Hold t).

Definition set_hash (t : TaskInstance) (hash : string) : TaskInstance :=
  mkTask (t_NodeID t) (t_Title t) (t_State t) (t_Stage t) (t_Try t) (t_Upstream t) (t_RunID t) (t_PipelineID t) (t_PRURL t)
    (t_CIStatus t) (t_Votes t) (t_HumanVerdict t) (t_Stages t) (t_Reason t) (t_Advisor t) hash (t_Hold t).

Definition set_verdict (t : TaskInstance) (verdict : string) : TaskInstance :=
  mkTask (t_NodeID t) (t_Title t) (t_State t) (t_Stage t) (t_Try t) (t_Upstream t) (t_RunID t) (t_PipelineID t) (t_PRURL t)
    (t_CIStatus t) (t_Votes t) verdict (t_Stages t) (t_Reason t) (t_Advisor t) (t_ContentHash t) (t_Hold t).

(** The board's title and edges of a task. *)
Definition set_place (t : TaskInstance) (title : string) (upstream : list string) : TaskInstance :=
  mkTask (t_NodeID t) title (t_State t) (t_Stage t) (t_Try t) upstream (t_RunID t) (t_PipelineID t) (t_PRURL t)
    (t_CIStatus t) (t_Votes t) (t_HumanVerdict t) (t_Stages t) (t_Reason t) (t_Advisor t) (t_ContentHash t) (t_Hold t).

Definition with_tasks (w : work) (tasks : gmap string TaskInstance) : work :=
  mkWork (wk_rec w) tasks (wk_dag w) (wk_graph w) (wk_state w) (wk_dirty w) (wk_now w) (wk_added w) (wk_acts w).

Definition put_task (w : work) (id : string) (t : TaskInstance) : work := with_tasks w (<[id := t]> (wk_tasks w)).

Definition with_added (w : work) (added : list string) : work :=
  mkWork (wk_rec w) (wk_tasks w) (wk_dag w) (wk_graph w) (wk_state w) (wk_dirty w) (wk_now w) added (wk_acts w).

Definition with_rec (w : work) (rec : Record_) : work :=
  mkWork rec (wk_tasks w) (wk_dag w) (wk_graph w) (wk_state w) true (wk_now w) (wk_added w) (wk_acts w).

Definition with_state (w : work) (state : option RunState) : work :=
  mkWork (wk_rec w) (wk_tasks w) (wk_dag w) (wk_graph w) state (wk_dirty w) (wk_now w) (wk_added w) (wk_acts w).

Definition act_log (w : work) (a : Act) : work :=
  mkWork (wk_rec w) (wk_tasks w) (wk_dag w) (wk_graph w) (wk_state w) (wk_dirty w) (wk_now w) (wk_added w) (wk_acts w ++ [a]).

Definition set_status (r : Record_) (status reason : string) : Record_ :=
  mkRecord (ap_ID r) (ap_Project r) (ap_GoalNodeID r) status (ap_Policy r) reason (ap_CreatedBy r) (ap_CreatedByName r)
    (ap_FinishedAt r) (ap_GoalPhase r) (ap_QARound r) (ap_QARunID r) (ap_SteppedUpAt r) (ap_Workflow r) (ap_PlanRunID r).

Definition boardStatuses (g : Graph) : list StatusDefinition := match UI g with Some ui => ui_CustomStatuses ui | None => [] end.

(** hold: set aside for a person. *)
Definition hold (t : TaskInstance) (kind stage reason : string) : TaskInstance :=
  let t := setState (set_hold t kind) TaskWaitingHuman stage reason in
  if String.eqb stage EmptyString then set_stage t EmptyString else t.

(** A task with a try going. *)
Definition dispatched (t : TaskInstance) : bool :=
  negb (String.eqb (t_RunID t) EmptyString) || negb (String.eqb (t_PipelineID t) EmptyString).

Definition held (t : TaskInstance) : bool := negb (String.eqb (t_Hold t) EmptyString).

Definition skippedOnBoard (status : Status) : bool := one_of status [StatusSkipped; StatusDeprecated].

(** A task that failed, or failed because another did. *)
Definition failed_task (t : TaskInstance) : bool := one_of (t_State t) [TaskFailed; TaskUpstreamFailed].

(** * A pass *)

Section Pass.
Context `{Unicode}.
Variables (contentHash : string → string → string) (world : list Act → World).

(** The world as the acts so far left it. *)
Definition now_world (w : work) : World := world (wk_acts w).

(** checkContent: whether a pending task's node is the one it started with. *)
Definition checkContent (t : TaskInstance) (body : string) : TaskInstance * bool :=
  let h := contentHash (t_Title t) body in
  if String.eqb (t_ContentHash t) EmptyString then (set_hash t h, true)
  else if String.eqb (t_ContentHash t) h then (t, true)
  else (hold t HoldChanged EmptyString
          "the task changed after the autopilot started: a person must retry it to work the new content", false).

(** ** syncMembers *)

(** The board's word on a task, if it settles it. *)
Definition settled_on_board (t : TaskInstance) (status : Status) (defs : list StatusDefinition) (reason : string) : option TaskInstance :=
  if skippedOnBoard status then Some (setState t TaskSkipped StageDone (status +:+ " on the board"))
  else if Settled status defs then Some (setState t TaskSuccess StageDone reason)
  else None.

Definition pending_member (w : work) (id : string) (status : Status) (t : TaskInstance) : TaskInstance :=
  let d := wk_dag w in
  let nodeType := dag_type d id in
  match settled_on_board t status (boardStatuses (wk_graph w)) ("already " +:+ status +:+ " on the board") with
  | Some t' => t'
  | None =>
      if negb (dispatchable d id) then
        if one_of (nt_Completion nodeType) [CompletionPeople; CompletionAnyone]
        then hold t HoldPerson EmptyString ("a " +:+ nt_Label nodeType +:+ " node: waiting for a person")
        else setState t TaskSkipped StageDone ("not a task (" +:+ nt_Label nodeType +:+ "): nothing to implement")
      else if inCycle d id then setState t TaskFailed EmptyString "on a dependency cycle: it can never become ready"
      else match w_content (now_world w) id with
           | Some body => (checkContent t body).1
           | None => t
           end
  end.

Definition sync_task (w : work) (id : string) (status : Status) (t0 : TaskInstance) : TaskInstance :=
  let t := set_place t0 (dag_title (wk_dag w) id) (dag_up (wk_dag w) id) in
  if String.eqb (t_Hold t) HoldPerson && negb (dispatched t) && negb (final1 (t_State t)) then
    default t (settled_on_board (set_hold t EmptyString) status (boardStatuses (wk_graph w)) (status +:+ " on the board"))
  else if dispatched t || final1 (t_State t) || held t then t
  else pending_member w id status t.

Definition sync_member (statuses : gmap string Status) (w : work) (id : string) : work :=
  match wk_tasks w !! id with
  | None => with_added w (wk_added w ++ [id])
  | Some t => put_task w id (sync_task w id (default EmptyString (statuses !! id)) t)
  end.

(** A pending task that left the goal is held, not skipped. *)
Definition left_goal (d : dag) (id : string) (t : TaskInstance) : TaskInstance :=
  if bool_decide (is_Some (dg_nodes d !! id)) || final1 (t_State t) || held t || dispatched t then t
  else hold t HoldRemoved EmptyString "it left the goal after the autopilot started: skip it, or retry it once it is back".

Definition syncMembers (w : work) : work :=
  let statuses := ComputeStatuses (wk_graph w) (wk_state w) in
  let w' := foldl (sync_member statuses) (with_added w []) (dg_order (wk_dag w)) in
  with_tasks w' (map_imap (λ id t, Some (left_goal (wk_dag w') id t)) (wk_tasks w')).

(** ** refresh *)

(** The fallback chain from a run on: each retry names the run it replaced. *)
Fixpoint fallback_chain (fuel : nat) (all : list RunRecord) (cur : string) : outcome unit (list RunRecord) :=
  match find (λ r, String.eqb (run_RetryOf r) cur) all with
  | None => Ok []
  | Some r =>
      match fuel with
      | O => OutOfFuel
      | S fuel' => rest ← fallback_chain fuel' all (run_ID r); Ok (r :: rest)
      end
  end.

Definition read {A} (answer : option A) : outcome unit A := match answer with Some a => Ok a | None => Fail tt end.

(** observe: a task's runs in its current try. *)
Definition observe (wd : World) (t : TaskInstance) : outcome unit observation :=
  '(pipeline, runs) ←
    (if negb (String.eqb (t_PipelineID t) EmptyString) then
       p ← read (w_pipeline wd (t_PipelineID t));
       runs ← read (w_pipelineRuns wd (t_PipelineID t));
       Ok (Some p, runs)
     else
       first ← read (w_get wd (t_RunID t));
       all ← read (w_nodeRuns wd (t_NodeID t));
       rest ← fallback_chain (length all) all (run_ID first);
       Ok (None, first :: rest));
  match find (λ r, negb (String.eqb (run_PRURL r) EmptyString)) (rev runs) with
  | None => Ok (mkObservation runs pipeline None)
  | Some r => pr ← read (w_get wd (run_ID r)); Ok (mkObservation runs pipeline (Some pr))
  end.

(** after: now, or the latest stage's time when that is later. *)
Definition after (stages : list StageRecord) (now : string) : string := foldl (λ at_ s, later at_ (sr_At s)) now stages.

Definition add_stage (now : string) (stages : list StageRecord) (stage status detail : string) : list StageRecord :=
  stages ++ [mkStage stage status (after stages now) EmptyString 0 detail].

(** markBoard: a node's status on the board, unless it has it already. *)
Definition autopilot_name (r : Record_) : string :=
  if String.eqb (ap_CreatedByName r) EmptyString then "autopilot" else "autopilot (" +:+ ap_CreatedByName r +:+ ")".

Definition markBoard (w : work) (nodeID : string) (status : Status) (note : string) : work :=
  if bool_decide (default EmptyString (ComputeStatuses (wk_graph w) (wk_state w) !! nodeID) = status) then w
  else
    let by_ := autopilot_name (wk_rec w) in
    let w' := act_log w (ASetStatus nodeID status by_ note) in
    if w_setStatus (now_world w) nodeID status then
      with_state w' (match wk_state w' with
                     | Some rs => Some (match SetStatus rs nodeID status by_ (w_clock (now_world w)) with Ok rs' => rs' | _ => rs end)
                     | None => None
                     end)
    else w'.

(** mergeHold: why a try's pull request must not merge without a person, empty
    when nothing says so. *)
Definition maxHoldPaths : nat := 8.

Record seen_changes := mkSeen { sc_touched : list string; sc_commits : list string; sc_reported : bool }.

Definition see_change (sc : seen_changes) (ch : RunChanges) : seen_changes :=
  mkSeen (foldl (λ out p, if SensitivePath p && negb (one_of p out) then out ++ [p] else out) (sc_touched sc) (change_paths (rc_Files ch)))
    (if String.eqb (rc_Commit ch) EmptyString then sc_commits sc else sc_commits sc ++ [rc_Commit ch]) true.

Fixpoint see_runs (wd : World) (runs : list RunRecord) (sc : seen_changes) : string + seen_changes :=
  match runs with
  | [] => inr sc
  | r :: runs' =>
      if negb (one_of (run_Kind r) [JobImplement; JobRevise]) then see_runs wd runs' sc
      else match w_changes wd (run_ID r) with
           | None => inl "its changed files cannot be read"
           | Some None => see_runs wd runs' sc
           | Some (Some ch) =>
               if (MaxChangedFiles <=? length (rc_Files ch))%nat then inl "it changes too many files to check"
               else see_runs wd runs' (see_change sc ch)
           end
  end.

Definition mergeHold (wd : World) (obs : observation) : string :=
  match ob_prRun obs with
  | None => "the pull request's run is unknown"
  | Some pr =>
      match see_runs wd (ob_runs obs) (mkSeen [] [] false) with
      | inl why => why
      | inr sc =>
          let head := run_PRHeadSHA pr in
          if negb (sc_reported sc) then "its runner reported no changed files"
          else if negb (String.eqb head EmptyString) && negb (one_of head (sc_commits sc))
          then "its head " +:+ shortSHA head +:+ " is not a commit the autopilot made"
          else if negb (nonempty (sc_touched sc)) then EmptyString
          else
            let touched := sort_strings (sc_touched sc) in
            let extra := (length touched - maxHoldPaths)%nat in
            "it changes " +:+ str_join (take maxHoldPaths touched) ", "
              +:+ (if (0 <? extra)%nat then " and " +:+ itoa (Z.of_nat extra) +:+ " more" else EmptyString)
      end
  end.

Definition holdFor (wd : World) (t : TaskInstance) : string :=
  match observe wd t with Ok obs => mergeHold wd obs | _ => "its runs cannot be read" end.

(** What acting on a derived try answers: the pass, the task, its stages. *)
Abbreviation acted := (work * TaskInstance * list StageRecord)%type.

(** merge: the run's runner is asked to merge, once per head. *)
Definition merge (w : work) (t0 : TaskInstance) (stages : list StageRecord) : acted :=
  let t := setState t0 TaskRunning StageMerge EmptyString in
  match observe (now_world w) t with
  | Ok obs =>
      match ob_prRun obs with
      | None => (w, t, stages)
      | Some pr =>
          let status := match run_Merge pr with Some m => mr_Status m | None => EmptyString end in
          if one_of status [MergePending; MergeDone] then (w, t, stages)
          else if String.eqb status MergeFailed
          then (w, setState t TaskFailed StageMerge
                     ("the merge failed: " +:+ match run_Merge pr with Some m => mr_Reason m | None => EmptyString end), stages)
          else
            let w' := act_log w (AMerge (run_ID pr) (run_PRHeadSHA pr)) in
            match w_merge (now_world w) (run_ID pr) (run_PRHeadSHA pr) with
            | Merging => (w', t, stages ++ [mkStage StageMerge StageRunning (after stages (wk_now w)) (run_ID pr) 0 "merge requested"])
            | MergeNotYet msg => (w', set_reason t ("not merging yet: " +:+ msg), stages)
            | MergeBroken => (w', t, stages)
            end
      end
  | _ => (w, t, stages)
  end.

(** done: the node is done on the board. *)
Definition done (w : work) (t : TaskInstance) (stages : list StageRecord) (note : string) : acted :=
  (markBoard w (t_NodeID t) StatusDone ("autopilot: " +:+ note),
   setState t TaskSuccess StageDone EmptyString, add_stage (wk_now w) stages StageDone StageOK EmptyString).

(** An approved task moves on: to a person, to the merge, or to done. *)
Definition act_approved (w : work) (t : TaskInstance) (d : derived) (stages0 : list StageRecord) : acted :=
  let pol := ap_Policy (wk_rec w) in
  let add := add_stage (wk_now w) in
  let asked := humanReview pol && negb pipelineHandlesHuman in
  if asked && negb (String.eqb (t_HumanVerdict t) VerdictApprove) then
    (w, setState t TaskWaitingHuman StageHuman EmptyString, add stages0 StageHuman StageWaiting "waiting for a person")
  else
    let stages1 := if asked then add stages0 StageHuman StageOK "approved" else stages0 in
    let stages := add stages1 StageApproved StageOK EmptyString in
    if negb (po_AutoMerge pol) then
      (markBoard w (t_NodeID t) StatusDone ("approved by the autopilot; PR " +:+ t_PRURL t),
       setState t TaskSuccess StageApproved "approved; merging is left to a person", stages)
    else
      let person := String.eqb (t_Hold t) HoldSensitive && String.eqb (t_HumanVerdict t) VerdictApprove in
      let why := if humanReview pol || person then EmptyString else holdFor (now_world w) t in
      if negb (String.eqb why EmptyString) then
        (w, hold t HoldSensitive StageHuman ("not merging without a person: " +:+ why), add stages StageHuman StageWaiting why)
      else
        let stages' := if negb (humanReview pol) && person then add stages StageHuman StageOK "merge approved by a person" else stages in
        if String.eqb (dv_ci d) CIFailure then (w, setState t TaskFailed EmptyString "the pull request's checks failed", stages')
        else if negb (String.eqb (dv_ci d) CISuccess)
        then (w, setState t TaskRunning StageCI "waiting for the pull request's checks", stages')
        else merge w t stages'.

Definition act (w : work) (t : TaskInstance) (d : derived) (stages : list StageRecord) : acted :=
  match dv_phase d with
  | phaseFailed => (w, setState t TaskFailed EmptyString (dv_reason d), stages)
  | phaseActive | phaseIdle =>
      (w,
       (if dv_waitingHuman d then setState t TaskWaitingHuman StageHuman EmptyString
        else if dv_waitingReview d then setState t TaskWaitingReview EmptyString EmptyString
        else if dv_queued d && negb (String.eqb (dv_retryAt d) EmptyString)
        then setState t TaskQueued EmptyString ("waiting for the usage limit to reset; retry at " +:+ dv_retryAt d)
        else if dv_queued d then setState t TaskQueued EmptyString EmptyString
        else setState t TaskRunning EmptyString EmptyString), stages)
  | phaseMerged => done w t (add_stage (wk_now w) stages StageApproved StageOK EmptyString) ("merged " +:+ t_PRURL t)
  | phaseApproved => act_approved w t d stages
  end.

Definition stageOrder : list string :=
  [StageQueued; StageTest; StageVerifyRed; StageImplement; StageCommit; StagePush; StagePR; StageVerifyGreen; "guard";
   StageJudge; StageReview; StageHuman; StageRevise; StageApproved; StageCI; StageMerge; StageDone].

(** stageRank: zero for a stage it does not list. *)
Definition stageRank (stage : string) : nat :=
  match find (λ e, String.eqb e.2 stage) (combine (seq 0 (length stageOrder)) stageOrder) with Some e => e.1 | None => 0%nat end.

Definition stage_less (a b : StageRecord) : bool :=
  if String.eqb (sr_At a) (sr_At b) then (stageRank (sr_Stage a) <? stageRank (sr_Stage b))%nat else string_ltb (sr_At a) (sr_At b).

(** One task read off its runs. *)
Definition with_derived (t : TaskInstance) (d : derived) : TaskInstance :=
  mkTask (t_NodeID t) (t_Title t) (t_State t) EmptyString (t_Try t) (t_Upstream t)
    (firstNonEmpty [dv_latestRun d; t_RunID t]) (t_PipelineID t) (dv_prURL d) (dv_ci d) (dv_votes d)
    (t_HumanVerdict t) (t_Stages t) (t_Reason t) (t_Advisor t) (t_ContentHash t) (t_Hold t).

Definition refresh_task (w : work) (id : string) : work :=
  match wk_tasks w !! id with
  | None => w
  | Some t0 =>
      if negb (dispatched t0) || final1 (t_State t0) then w
      else match observe (now_world w) t0 with
           | Ok obs =>
               let d := derive obs (wk_now w) in
               let '(w', t, stages) := act w (with_derived t0 d) d (dv_stages d) in
               let t := set_stages t (slice_stable stage_less (keepTimes (t_Stages t) stages)) in
               let latest := match last (t_Stages t) with Some s => sr_Stage s | None => EmptyString end in
               put_task w' id (if String.eqb (t_Stage t) EmptyString then set_stage t latest else t)
           | _ => w
           end
  end.

Definition sortedIDs (tasks : gmap string TaskInstance) : list string := sort_strings (map_to_list tasks).*1.

Definition refresh (w : work) : work := foldl refresh_task w (sortedIDs (wk_tasks w)).

(** ** propagateFailures *)

Definition pending_state (t : TaskInstance) : bool := one_of (t_State t) [TaskNone; TaskScheduled].

(** The first upstream task that failed. *)
Definition failed_upstream (w : work) (id : string) : option TaskInstance :=
  head (omap (M:=list) (λ up, match wk_tasks w !! up with Some u => if failed_task u then Some u else None | None => None end)
          (dag_up (wk_dag w) id)).

Definition propagate_one (st : work * bool) (id : string) : work * bool :=
  match wk_tasks st.1 !! id with
  | Some t =>
      if negb (pending_state t) then st
      else match failed_upstream st.1 id with
           | Some u => (put_task st.1 id (setState t TaskUpstreamFailed EmptyString ("waits on " +:+ t_Title u +:+ ", which failed")), true)
           | None => st
           end
  | None => st
  end.

(** Rounds until one changes nothing; each that does fails one task more. *)
Fixpoint propagate (fuel : nat) (w : work) : work :=
  let '(w', changed) := foldl propagate_one (w, false) (dg_order (wk_dag w)) in
  match fuel with
  | O => w'
  | S fuel' => if changed then propagate fuel' w' else w'
  end.

Definition propagateFailures (w : work) : work := propagate (size (wk_tasks w)) w.

(** ** schedule *)

(** A task that holds one of the policy's slots. *)
Definition active (t : TaskInstance) : bool :=
  negb (held t && negb (dispatched t)) && one_of (t_State t) [TaskQueued; TaskRunning; TaskWaitingReview; TaskWaitingHuman].

Definition active_count (w : work) : Z := Z.of_nat (length (List.filter active (map_to_list (wk_tasks w)).*2)).

(** settled: an upstream that nothing waits on any more. *)
Definition settled_task (w : work) (id : string) : bool :=
  match wk_tasks w !! id with Some t => one_of (t_State t) [TaskSuccess; TaskSkipped] | None => false end.

Definition passes (w : work) (statuses : gmap string Status) (up : string) : bool :=
  settled_task w up
  || (bool_decide (wk_tasks w !! up = None) && Settled (default EmptyString (statuses !! up)) (boardStatuses (wk_graph w))).

(** What holds a task back, with the reason it is given. *)
Definition not_ready (w : work) (statuses : gmap string Status) (id : string) (t : TaskInstance) : option string :=
  match find (λ up, negb (passes w statuses up)) (dag_up (wk_dag w) id) with
  | Some up =>
      Some (match wk_tasks w !! up with
            | Some _ => t_Reason t
            | None => "waits on " +:+ dag_title (wk_dag w) up
                      +:+ ", which joined the goal after the autopilot started: finish it, or start a new autopilot"
            end)
  | None =>
      match externalBlockers (Some (wk_graph w)) (wk_state w) (wk_dag w) id with
      | [] => None
      | blockers => Some ("waits on " +:+ str_join blockers ", " +:+ " outside this goal")
      end
  end.

Definition humanChangesPrefix : string := "changes requested: ".
Definition MaxExtraPrompt : nat := Pos.to_nat (8 * 2 ^ 10).
Definition two_lines : string := String "010"%char (String "010"%char EmptyString).

Definition eligible_runners (pol : AutopilotPolicy) (owned : list Runner) : list Runner :=
  List.filter (λ r, rn_Online r && Headless (rn_Info r)
                    && (String.eqb (po_RunnerID pol) EmptyString || String.eqb (rn_ID r) (po_RunnerID pol))
                    && match rn_Info r with Some i => one_of (po_RepoID pol) (repo_ID <$> in_Repos i) | None => false end) owned.

(** The runners least busy first, and the first that can run an agent. *)
Definition busy (wd : World) (runnerID : string) : Z := default (2 ^ 20) (w_busy wd runnerID).
Definition by_busy (wd : World) (runners : list Runner) : list Runner :=
  slice_stable (λ a b, busy wd (rn_ID a) <? busy wd (rn_ID b)) runners.
Definition runner_for (runners : list Runner) (am : AgentModel) : option Runner :=
  find (λ r, nonempty (usable [am] (mergeAgents [r]))) runners.

Definition label (am : AgentModel) : string :=
  if String.eqb (am_Model am) EmptyString then am_Agent am else am_Agent am +:+ "/" +:+ am_Model am.

(** The node a rule looks at, from the board. *)
Definition route_node (wd : World) (project id role : string) : RouteNode :=
  match w_graph wd with
  | Some (g, _) =>
      match NodeByID g id with
      | Some n => mkRouteNode project (n_Kind n) (n_Tags n) role
      | None => mkRouteNode project EmptyString [] role
      end
  | None => mkRouteNode project EmptyString [] role
  end.

(** stagedPipeline: a task's pipeline under the frozen workflow. *)
Definition by_role (wd : World) (rec : Record_) (role : string) : option AgentModel :=
  match w_routing wd with
  | None => None
  | Some rules =>
      let s := Suggest rules (mkRouteNode (ap_Project rec) EmptyString [] role) in
      if String.eqb (rs_RuleID s) EmptyString then
        let s := w_route wd (ap_GoalNodeID rec) role s in
        if negb (String.eqb (rs_RuleID s) EmptyString) && String.eqb (rs_Match s) RouteAuto then Some (rs_Target s) else None
      else if String.eqb (rs_Match s) RouteRole then Some (rs_Target s) else None
  end.

Definition stagedPipeline (wd : World) (rec : Record_) (p : option Pipeline) (head : AgentModel) : option Pipeline :=
  let wf := Normalized (ap_Workflow rec) in
  if negb (Staged wf) then p
  else
    let out := default (mkPipeline head no_agent 2 [] 0 false false no_agent) p in
    let rounds := if pl_MaxRounds out <? 1 then 2 else pl_MaxRounds out in
    let tester := if String.eqb (am_Agent (pl_Tester out)) EmptyString then default head (by_role wd rec RoleTester) else pl_Tester out in
    let reviewers :=
      if match wf with Some wf => st_Reviewer (wf_Stages wf) | None => false end && negb (nonempty (ReviewersOf out))
      then [default head (by_role wd rec RoleReviewer)] else pl_Reviewers out in
    Some (mkPipeline (pl_Implement out) (pl_Review out) rounds reviewers (pl_Quorum out) (pl_Human out) (pl_HumanAnyEditor out) tester).

(** The request a task's try starts with. *)
Definition task_request (w : work) (t : TaskInstance) (content runnerID : string) (head : AgentModel) (fallbacks : list AgentModel)
    : StartRequest :=
  let rec := wk_rec w in
  let pol := ap_Policy rec in
  let extra := "This task is part of an autopilot run for goal " +:+ ap_GoalNodeID rec +:+ "."
    +:+ (if negb (String.eqb (t_Reason t) EmptyString) && has_prefix (t_Reason t) humanChangesPrefix
         then two_lines +:+ "A reviewer asked for changes on the previous attempt:" +:+ str_of_char "010"%char +:+ trim_prefix (t_Reason t) humanChangesPrefix
         else EmptyString) in
  let nodeType := dag_type (wk_dag w) (t_NodeID t) in
  let staged := bool_decide (ap_Workflow rec ≠ None) in
  mkStart (t_NodeID t) runnerID (am_Agent head) (am_Model head) (po_RepoID pol) (Truncate extra MaxExtraPrompt) fallbacks
    (if staged then stagedPipeline (now_world w) rec (pipelineFor pol head) head else pipelineFor pol head)
    JobImplement EmptyString (ap_Project rec) (ap_CreatedBy rec) (ap_CreatedByName rec) (ap_SteppedUpAt rec)
    (if staged then ResolvedAgentRoles (Some (wk_graph w)) else [])
    (t_Title t) content (nt_ID nodeType) (nt_AgentMode nodeType)
    (match NodeByID (wk_graph w) (t_NodeID t) with Some n => n_Acceptance n | None => None end)
    (ap_Workflow rec) staged.

(** A task whose try started. *)
Definition started_task (t : TaskInstance) (run pipeline at_ reason : string) : TaskInstance :=
  mkTask (t_NodeID t) (t_Title t) TaskQueued StageQueued (t_Try t + 1) (t_Upstream t) run pipeline EmptyString EmptyString []
    EmptyString [mkStage StageQueued StageRunning at_ run 0 reason] EmptyString reason (t_ContentHash t) (t_Hold t).

(** dispatch: the task's try is started, or the task says why not. *)
Definition dispatch (w : work) (t : TaskInstance) : work * TaskInstance * bool :=
  let wd := now_world w in
  let rec := wk_rec w in
  let wait t reason := (w, setState t TaskScheduled StageQueued reason, false) in
  match w_owned wd with
  | None => wait t "cannot list runners"
  | Some owned =>
      match eligible_runners (ap_Policy rec) owned with
      | [] => wait t "waiting for an online runner with the repository"
      | eligible =>
          match w_content wd (t_NodeID t) with
          | None => wait t "cannot read the task"
          | Some content =>
              let '(t, same) := checkContent t content in
              if negb same then (w, t, false)
              else
                let agents := mergeAgents eligible in
                match choose (w_advised wd (t_Title t) content (ap_Policy rec) agents) (w_routing wd)
                        (w_route wd (t_NodeID t) RoleExecutor) (route_node wd (ap_Project rec) (t_NodeID t) EmptyString)
                        (ap_Policy rec) agents with
                | Ok (mkChoice (head :: fallbacks) reason) =>
                    match runner_for (by_busy wd eligible) head with
                    | None => wait t ("no online runner has " +:+ label head)
                    | Some r =>
                        let req := task_request w t content (rn_ID r) head fallbacks in
                        let w' := act_log w (AStart req) in
                        match w_start wd req with
                        | Started run pipeline createdAt =>
                            (w', started_task t run pipeline (firstNonEmpty [createdAt; wk_now w]) reason, true)
                        | StartLater msg => (w', setState t TaskScheduled StageQueued msg, false)
                        | StartRefused msg => (w', setState t TaskFailed EmptyString msg, false)
                        | StartBroken msg => (w', setState t TaskScheduled StageQueued ("could not start: " +:+ msg), false)
                        end
                    end
                | Fail NoAgent =>
                    (w, setState t TaskFailed EmptyString "no installed agent on the owner's runners can take this task", false)
                | _ => (w, setState t TaskFailed EmptyString "the routing rules cannot be read", false)
                end
          end
      end
  end.

(** One task of the loop, with the room left. *)
Definition schedule_one (statuses : gmap string Status) (st : work * Z) (id : string) : work * Z :=
  let '(w, room) := st in
  match wk_tasks w !! id with
  | None => st
  | Some t =>
      if negb (pending_state t) then st
      else match not_ready w statuses id t with
           | Some reason =>
               let t := set_reason t reason in
               (put_task w id (if String.eqb (t_State t) TaskNone then t else setState t TaskNone EmptyString reason), room)
           | None =>
               if room <=? 0 then (put_task w id (setState t TaskScheduled StageQueued "waiting for a free slot"), room)
               else
                 let '(w', t', ok) := dispatch w t in
                 (put_task w' id t', if ok then room - 1 else room)
           end
  end.

Definition schedule (w : work) : work :=
  (foldl (schedule_one (ComputeStatuses (wk_graph w) (wk_state w)))
     (w, po_MaxParallel (ap_Policy (wk_rec w)) - active_count w) (dg_order (wk_dag w))).1.

(** ** The end of a pass *)

Definition count_failed (w : work) : nat := length (List.filter failed_task (map_to_list (wk_tasks w)).*2).
Definition all_final (w : work) : bool := forallb (λ t, final1 (t_State t)) (map_to_list (wk_tasks w)).*2.

Definition added_note (w : work) : string :=
  "; " +:+ itoa (Z.of_nat (length (wk_added w))) +:+ " added to the goal after the start were not worked".

Definition finishIfDone (w : work) : work :=
  if bool_decide (wk_tasks w = ∅) || negb (all_final w) then w
  else if (0 <? count_failed w)%nat
  then with_rec w (set_status (wk_rec w) AutopilotFailed (itoa (Z.of_nat (count_failed w)) +:+ " task(s) failed"))
  else if nonempty (wk_added w)
  then with_rec w (set_status (wk_rec w) AutopilotSucceeded ("every task is done" +:+ added_note w))
  else
    let w' := with_rec w (set_status (wk_rec w) AutopilotSucceeded "every task is done") in
    markBoard w' (ap_GoalNodeID (wk_rec w')) StatusDone "autopilot: every task is done".
End Pass.
