(* ===== verification/GoalFlow.v ===== *)
(** The goal flow under workflow stages (internal/autopilot/goalflow.go): QA's
    criteria, the planner's breakdown, the tasks, QA's verification in bounded
    rounds, a person's review. *)

From S2P Require Import Prelude GoStr GoFloat GoTime Dsl Graph NodeTypes Workflow Roles State Readiness Dag Runs TaskRun AutoPolicy Autopilot.
From Stdlib Require Import Ascii.
Open Scope Z_scope.

Definition GoalPhaseAcceptance : string := "acceptance".
Definition GoalPhasePlan : string := "plan".
Definition GoalPhaseTasks : string := "tasks".
Definition GoalPhaseQA : string := "qa".
Definition GoalPhaseHuman : string := "human".
Definition GoalPhaseDone : string := "done".

Definition maxFixTasksPerRound : nat := 5.
Definition QAFixTag : string := "qa-fix".

(** initialGoalPhase, of the goal's criteria and its number of members. *)
Definition initialGoalPhase (wf : Workflow) (goal : Node) (members : nat) : string :=
  if st_GoalQA (wf_Stages wf) && Acceptance_Empty (n_Acceptance goal) then GoalPhaseAcceptance
  else if st_Planner (wf_Stages wf) && (members =? 0)%nat then GoalPhasePlan
  else GoalPhaseTasks.

(** ** Writing the record *)

Definition set_phase (r : Record_) (phase : string) : Record_ :=
  mkRecord (ap_ID r) (ap_Project r) (ap_GoalNodeID r) (ap_Status r) (ap_Policy r) (ap_Reason r) (ap_CreatedBy r) (ap_CreatedByName r)
    (ap_FinishedAt r) phase (ap_QARound r) (ap_QARunID r) (ap_SteppedUpAt r) (ap_Workflow r) (ap_PlanRunID r).

Definition set_qa_run (r : Record_) (run : string) : Record_ :=
  mkRecord (ap_ID r) (ap_Project r) (ap_GoalNodeID r) (ap_Status r) (ap_Policy r) (ap_Reason r) (ap_CreatedBy r) (ap_CreatedByName r)
    (ap_FinishedAt r) (ap_GoalPhase r) (ap_QARound r) run (ap_SteppedUpAt r) (ap_Workflow r) (ap_PlanRunID r).

Definition set_plan_run (r : Record_) (run : string) : Record_ :=
  mkRecord (ap_ID r) (ap_Project r) (ap_GoalNodeID r) (ap_Status r) (ap_Policy r) (ap_Reason r) (ap_CreatedBy r) (ap_CreatedByName r)
    (ap_FinishedAt r) (ap_GoalPhase r) (ap_QARound r) (ap_QARunID r) (ap_SteppedUpAt r) (ap_Workflow r) run.

Definition set_qa_round (r : Record_) (round : Z) : Record_ :=
  mkRecord (ap_ID r) (ap_Project r) (ap_GoalNodeID r) (ap_Status r) (ap_Policy r) (ap_Reason r) (ap_CreatedBy r) (ap_CreatedByName r)
    (ap_FinishedAt r) (ap_GoalPhase r) round (ap_QARunID r) (ap_SteppedUpAt r) (ap_Workflow r) (ap_PlanRunID r).

Definition set_why (r : Record_) (reason : string) : Record_ := set_status r (ap_Status r) reason.

Definition setPhase (w : work) (phase : string) : work := with_rec w (set_phase (wk_rec w) phase).

Definition goalNode (w : work) : option Node := NodeByID (wk_graph w) (ap_GoalNodeID (wk_rec w)).

Definition is_running (w : work) : bool := String.eqb (ap_Status (wk_rec w)) AutopilotRunning.

(** Workflow.Normalized of the frozen workflow, read for its stages. *)
Definition stages_of (w : work) : Stages :=
  match Normalized (ap_Workflow (wk_rec w)) with Some wf => wf_Stages wf | None => mkStages false false false false false false end.

Definition max_qa_rounds (w : work) : Z :=
  match Normalized (ap_Workflow (wk_rec w)) with Some wf => wf_MaxQARounds wf | None => 0 end.

(** afterAcceptance, which reads the workflow as it is stored. *)
Definition afterAcceptance (w : work) : string :=
  if match ap_Workflow (wk_rec w) with Some wf => st_Planner (wf_Stages wf) | None => false end && bool_decide (wk_tasks w = ∅)
  then GoalPhasePlan else GoalPhaseTasks.

(** qaPassed: every criterion passes, the verdict is pass and the tests passed. *)
Definition qaPassed (r : RunRecord) : bool :=
  String.eqb (run_Status r) RunSucceeded && String.eqb (run_Verdict r) VerdictPass
  && forallb ch_Pass (run_Checks r)
  && match run_Verify r with Some v => vr_NoCommand v || (vr_ExitCode v =? 0) | None => true end.

Section GoalFlow.
Context `{Unicode}.
Variables (contentHash : string → string → string) (world : list Act → World).

Local Notation now_world := (now_world world).
Local Notation markBoard := (markBoard world).
Local Notation syncMembers := (syncMembers contentHash world).
Local Notation schedule := (schedule contentHash world).

(** ** Starting a run on the goal *)

(** The agents for a role: its routing rule's target, then the advisor's
    chain. *)
Definition goal_chain (w : work) (role content : string) (agents : list AgentInfo) : list AgentModel :=
  let wd := now_world w in
  let rec := wk_rec w in
  let ruled :=
    match w_routing wd with
    | Some rules =>
        let s := w_route wd (ap_GoalNodeID rec) role (Suggest rules (mkRouteNode (ap_Project rec) EmptyString [] role)) in
        if String.eqb (rs_RuleID s) EmptyString then [] else [rs_Target s]
    | None => []
    end in
  let chosen :=
    match choose (w_advised wd (dag_title (wk_dag w) (ap_GoalNodeID rec)) content (ap_Policy rec) agents) (w_routing wd)
            (w_route wd (ap_GoalNodeID rec) RoleExecutor) (route_node wd (ap_Project rec) (ap_GoalNodeID rec) EmptyString)
            (ap_Policy rec) agents with
    | Ok c => ci_Implement c
    | _ => []
    end in
  ruled ++ chosen.

(** goalRunner: a runner and an agent, or why there is none. *)
Definition goalRunner (w : work) (role content : string) : string + (string * AgentModel) :=
  let wd := now_world w in
  match w_owned wd with
  | None => inl "cannot list runners"
  | Some owned =>
      match eligible_runners (ap_Policy (wk_rec w)) owned with
      | [] => inl "waiting for an online runner with the repository"
      | eligible =>
          let runners := by_busy wd eligible in
          match head (omap (M:=list) (λ am, (λ r, (rn_ID r, am)) <$> runner_for runners am)
                        (goal_chain w role content (mergeAgents eligible))) with
          | Some found => inr found
          | None => inl ("no online runner has an agent for the " +:+ role +:+ " role")
          end
      end
  end.

(** startGoalRun, with how the run's id is kept. *)
Definition startGoalRun (w : work) (kind role : string) (keep : Record_ → string → Record_) (extra : string) : work :=
  let rec := wk_rec w in
  let refuse reason := with_rec w (set_why rec reason) in
  match goalNode w with
  | None => w
  | Some goal =>
      match w_content (now_world w) (ap_GoalNodeID rec) with
      | None => refuse "cannot read the goal"
      | Some content =>
          match goalRunner w role content with
          | inl why => refuse why
          | inr (runnerID, am) =>
              let nodeType := TypeOf (Some (wk_graph w)) (Some goal) in
              let req := mkStart (ap_GoalNodeID rec) runnerID (am_Agent am) (am_Model am) (po_RepoID (ap_Policy rec))
                           (Truncate extra MaxExtraPrompt) [] None kind role (ap_Project rec) (ap_CreatedBy rec)
                           (ap_CreatedByName rec) (ap_SteppedUpAt rec) (ResolvedAgentRoles (Some (wk_graph w)))
                           (n_Title goal) content (nt_ID nodeType) (nt_AgentMode nodeType) (n_Acceptance goal)
                           (ap_Workflow rec) false in
              let w' := act_log w (AStart req) in
              match w_start (now_world w) req with
              | Started run _ _ => with_rec w' (keep (wk_rec w') run)
              | StartLater msg | StartRefused msg => with_rec w' (set_why (wk_rec w') msg)
              | StartBroken _ => w'
              end
          end
      end
  end.

(** A goal run that has ended; [None] while it works or cannot be read. *)
Definition ended_run (w : work) (id : string) : option RunRecord :=
  match w_get (now_world w) id with
  | Some r => if RunFinal (run_Status r) then Some r else None
  | None => None
  end.

(** ** The phases *)

Definition acceptancePhase (w : work) : work :=
  match goalNode w with
  | None => w
  | Some goal =>
      let written := negb (Acceptance_Empty (n_Acceptance goal)) in
      if String.eqb (ap_QARunID (wk_rec w)) EmptyString then
        if written then setPhase w (afterAcceptance w)
        else if negb (is_running w) then w
        else startGoalRun w JobPlan RoleQA set_qa_run
               "Goal QA: write this goal's acceptance criteria with set_acceptance (checkable one-line items). Create no tasks."
      else match ended_run w (ap_QARunID (wk_rec w)) with
           | None => w
           | Some r =>
               if String.eqb (run_Status r) RunSucceeded && written then
                 let w' := with_rec w (set_qa_run (wk_rec w) EmptyString) in setPhase w' (afterAcceptance w')
               else with_rec w (set_status (wk_rec w) AutopilotFailed
                      ("QA wrote no acceptance criteria for the goal (run " +:+ run_ID r +:+ " " +:+ run_Status r
                       +:+ "); write them and start a new autopilot"))
           end
  end.

(** adopt: the members that are not tasks yet and that [keep] says to, at most
    [limit] of them (0 for no limit). *)
Definition new_task (d : dag) (id body : string) : TaskInstance :=
  mkTask id (dag_title d id) TaskNone EmptyString 0 (dag_up d id) EmptyString EmptyString EmptyString EmptyString [] EmptyString []
    EmptyString EmptyString (contentHash (dag_title d id) body) EmptyString.

Fixpoint adopt_loop (w : work) (keep : string → bool) (limit : nat) (ids : list string) (adopted : nat) : work * nat :=
  match ids with
  | [] => (w, adopted)
  | id :: ids' =>
      if bool_decide (is_Some (wk_tasks w !! id)) || negb (keep id) then adopt_loop w keep limit ids' adopted
      else if (0 <? limit)%nat && (limit <=? adopted)%nat then (w, adopted)
      else match w_content (now_world w) id with
           | None => adopt_loop w keep limit ids' adopted
           | Some body => adopt_loop (put_task w id (new_task (wk_dag w) id body)) keep limit ids' (S adopted)
           end
  end.

Definition adopt (w : work) (keep : string → bool) (limit : nat) : work * nat :=
  let '(w', adopted) := adopt_loop w keep limit (dg_order (wk_dag w)) 0 in
  if (0 <? adopted)%nat then (syncMembers (with_rec w' (wk_rec w')), adopted) else (w', adopted).

Definition planPhase (w : work) : work :=
  let rec := wk_rec w in
  if String.eqb (ap_PlanRunID rec) EmptyString then
    if negb (is_running w) then w
    else startGoalRun w JobPlan RolePlanner set_plan_run
           "Break this goal down into tasks with create_subgraph; give every task 2-6 checkable acceptance criteria."
  else match ended_run w (ap_PlanRunID rec) with
       | None => w
       | Some r =>
           if negb (String.eqb (run_Status r) RunSucceeded)
           then with_rec w (set_status rec AutopilotFailed ("the planner run " +:+ run_ID r +:+ " " +:+ run_Status r))
           else
             let '(w', adopted) := adopt w (λ id, String.eqb (w_createdByRun (now_world w) id) (ap_PlanRunID rec)) 0 in
             if (adopted =? 0)%nat
             then with_rec w' (set_status (wk_rec w') AutopilotFailed "the planner created no tasks for the goal")
             else setPhase w' GoalPhaseTasks
       end.

Definition goalDone (w : work) (reason : string) : work :=
  let why := reason +:+ (if nonempty (wk_added w) then added_note w else EmptyString) in
  let w' := setPhase (with_rec w (set_status (wk_rec w) AutopilotSucceeded why)) GoalPhaseDone in
  markBoard w' (ap_GoalNodeID (wk_rec w')) StatusDone ("autopilot: " +:+ reason).

Definition tasksDone (w : work) : work :=
  if bool_decide (wk_tasks w = ∅) || negb (all_final w) then w
  else if (0 <? count_failed w)%nat
  then with_rec w (set_status (wk_rec w) AutopilotFailed (itoa (Z.of_nat (count_failed w)) +:+ " task(s) failed"))
  else if st_GoalQA (stages_of w) then setPhase (with_rec w (set_qa_run (wk_rec w) EmptyString)) GoalPhaseQA
  else if st_GoalReview (stages_of w)
  then setPhase (with_rec w (set_why (wk_rec w) "every task is done; waiting for a person to review the goal")) GoalPhaseHuman
  else goalDone w "every task is done".

Definition record_qa (w : work) (round : Z) (run outcome : string) (fixTasks : nat) (reason : string) : work :=
  act_log w (AQARound round run outcome (Z.of_nat fixTasks) reason).

(** A fix task of the goal, made by the QA run that failed it. *)
Definition is_fix_task (w : work) (qaRun id : string) : bool :=
  match NodeByID (wk_graph w) id with
  | Some n => one_of QAFixTag (n_Tags n) && one_of (GoalTag (ap_GoalNodeID (wk_rec w))) (n_Tags n)
              && String.eqb (w_createdByRun (now_world w) id) qaRun
  | None => false
  end.

Definition to_person (w : work) (round : Z) (run outcome reason : string) : work :=
  setPhase (record_qa (with_rec w (set_why (wk_rec w) reason)) round run outcome 0 reason) GoalPhaseHuman.

Definition qa_extra (w : work) : string :=
  "Goal QA, round " +:+ itoa (ap_QARound (wk_rec w) + 1)
  +:+ ": verify the finished goal against its acceptance criteria. On failure create at most " +:+ itoa (Z.of_nat maxFixTasksPerRound)
  +:+ " fix tasks with create_subgraph, tagged " +:+ GoalTag (ap_GoalNodeID (wk_rec w)) +:+ " and " +:+ QAFixTag
  +:+ ", each with acceptance criteria.".

(** A verification that failed: another round of fix tasks, or a person. *)
Definition qa_failed (w0 : work) (r : RunRecord) : work :=
  let round := ap_QARound (wk_rec w0) + 1 in
  let w := with_rec w0 (set_qa_round (wk_rec w0) round) in
  if max_qa_rounds w <=? round
  then to_person w round (run_ID r) QAOutcomeFail ("QA still failing after " +:+ itoa round +:+ " round(s); a person decides")
  else
    let '(w', adopted) := adopt w (is_fix_task w (ap_QARunID (wk_rec w))) maxFixTasksPerRound in
    if (adopted =? 0)%nat
    then to_person w' round (run_ID r) QAOutcomeNone
           ("QA failed in round " +:+ itoa round +:+ " and created no fix tasks; a person decides")
    else
      let why := "QA round " +:+ itoa round +:+ " failed: " +:+ itoa (Z.of_nat adopted) +:+ " fix task(s) added" in
      setPhase (record_qa (with_rec w' (set_why (wk_rec w') why)) round (run_ID r) QAOutcomeFail adopted why) GoalPhaseTasks.

Definition qaPhase (w : work) : work :=
  let rec := wk_rec w in
  if String.eqb (ap_QARunID rec) EmptyString then
    if negb (is_running w) then w else startGoalRun w JobJudge RoleQA set_qa_run (qa_extra w)
  else match ended_run w (ap_QARunID rec) with
       | None => w
       | Some r =>
           if qaPassed r then
             let w' := record_qa w (ap_QARound rec + 1) (run_ID r) QAOutcomePass 0 "QA verified the goal" in
             if st_GoalReview (stages_of w)
             then setPhase (with_rec w' (set_why rec "QA verified the goal; waiting for a person to review it")) GoalPhaseHuman
             else goalDone w' "QA verified the goal"
           else qa_failed w r
       end.

(** humanPhase waits for a person to finish the goal on the board. *)
Definition humanPhase (w : work) : work :=
  let status := default EmptyString (ComputeStatuses (wk_graph w) (wk_state w) !! ap_GoalNodeID (wk_rec w)) in
  if Settled status (boardStatuses (wk_graph w))
  then setPhase (with_rec w (set_status (wk_rec w) AutopilotSucceeded ("a person finished the goal (" +:+ status +:+ ")"))) GoalPhaseDone
  else w.

Definition phase_step (w : work) : work :=
  let phase := ap_GoalPhase (wk_rec w) in
  if String.eqb phase GoalPhaseAcceptance then acceptancePhase w
  else if String.eqb phase GoalPhasePlan then planPhase w
  else if String.eqb phase GoalPhaseQA then qaPhase w
  else if String.eqb phase GoalPhaseHuman then humanPhase w
  else if String.eqb phase GoalPhaseDone then w
  else tasksDone (if is_running w then schedule w else w).

(** goalFlow: at most four phases in one pass. *)
Fixpoint goal_steps (n : nat) (w : work) : work :=
  match n with
  | O => w
  | S n' =>
      let w' := phase_step w in
      if String.eqb (ap_GoalPhase (wk_rec w')) (ap_GoalPhase (wk_rec w)) || negb (is_running w') then w' else goal_steps n' w'
  end.

Definition goalFlow (w : work) : work := goal_steps 4 w.
End GoalFlow.
