(* ===== verification/Orchestrator.v ===== *)
(** Reconciling and steering autopilots (internal/autopilot/orchestrator.go,
    store.go): what a pass reads and writes, and every action of the API, on
    the autopilots' store.  The lock of an autopilot makes each of them one
    step. *)

From S2P Require Import Prelude GoStr GoFloat GoTime Dsl Graph NodeTypes Workflow Roles State Readiness Dag Runs TaskRun AutoPolicy Autopilot GoalFlow.
From Stdlib Require Import Ascii.
Open Scope Z_scope.

(** * The store *)

(** autopilot_runs and autopilot_tasks by autopilot. *)
Record Db := mkDb { db_runs : gmap string Record_; db_tasks : gmap string (gmap string TaskInstance) }.

(** Where everything stands: the store, and all that was asked of the world. *)
Record Machine := mkMachine { mc_db : Db; mc_acts : list Act }.

Inductive ApError :=
  | ApNotFound
  | ApConflict (what : string)
  | ApInvalid (what : string)
  | ApPolicy (e : PolicyError)
  | ApNodeType (label : string)
  | ApUnreadable
  | ApStore.

Abbreviation answer A := (Machine * outcome ApError A)%type.

Definition tasks_of (db : Db) (id : string) : gmap string TaskInstance := default ∅ (db_tasks db !! id).

Definition finish_stamp (r : Record_) (now : string) : Record_ :=
  mkRecord (ap_ID r) (ap_Project r) (ap_GoalNodeID r) (ap_Status r) (ap_Policy r) (ap_Reason r) (ap_CreatedBy r) (ap_CreatedByName r)
    now (ap_GoalPhase r) (ap_QARound r) (ap_QARunID r) (ap_SteppedUpAt r) (ap_Workflow r) (ap_PlanRunID r).

(** The record as it is stored: the planner's run goes with the workflow. *)
Definition stored (r : Record_) (now : string) : Record_ :=
  let r := if final (ap_Status r) && String.eqb (ap_FinishedAt r) EmptyString then finish_stamp r now else r in
  if bool_decide (ap_Workflow r = None) then set_plan_run r EmptyString else r.

(** autopilot_runs_live: a goal has one live autopilot. *)
Definition live_run (r : Record_) : bool := one_of (ap_Status r) [AutopilotRunning; AutopilotPaused].

Definition same_goal (r r' : Record_) : bool := String.eqb (ap_Project r') (ap_Project r) && String.eqb (ap_GoalNodeID r') (ap_GoalNodeID r).

Definition live_elsewhere (db : Db) (r : Record_) : bool :=
  existsb (λ kr, negb (String.eqb kr.1 (ap_ID r)) && same_goal r kr.2 && live_run kr.2) (map_to_list (db_runs db)).

(** Store.Save, with the tasks that changed; [None] when the index refuses. *)
Definition Save (db : Db) (r : Record_) (changed : gmap string TaskInstance) (now : string) : option Db :=
  if live_run r && live_elsewhere db r then None
  else Some (mkDb (<[ap_ID r := stored r now]> (db_runs db)) (<[ap_ID r := changed ∪ tasks_of db (ap_ID r)]> (db_tasks db))).

(** fingerprint. *)
Definition fingerprint (t : TaskInstance) : string :=
  str_join [t_State t; t_Stage t; itoa (t_Try t); t_RunID t; t_PipelineID t; t_PRURL t; t_CIStatus t; t_HumanVerdict t;
            t_Reason t; t_Hold t; t_ContentHash t; EmptyString] "|"
  +:+ concat_str (map (λ s, str_join [sr_Stage s; sr_Status s; itoa (sr_Round s); sr_RunID s; sr_Detail s] ":" +:+ ";") (t_Stages t))
  +:+ concat_str (map (λ v, str_join [rv_Agent v; rv_Model v; rv_Verdict v; itoa (rv_Round v)] "/" +:+ ";") (t_Votes t)).

(** What changed since the tasks were loaded. *)
Definition changed_tasks (before after : gmap string TaskInstance) : gmap string TaskInstance :=
  filter (λ kv, fingerprint <$> before !! kv.1 ≠ Some (fingerprint kv.2)) after.

Section Orchestrator.
Context `{Unicode}.
Variables (contentHash : string → string → string) (world : list Act → World).

(** ** Passes *)

(** load: one pass's view; [now] is the pass's stamp. *)
Definition load (m : Machine) (id now : string) : outcome ApError work :=
  match db_runs (mc_db m) !! id with
  | None => Fail ApNotFound
  | Some rec =>
      match w_graph (world (mc_acts m)) with
      | None => Fail ApUnreadable
      | Some (g, rs) =>
          match buildDAG (Some g) (ap_GoalNodeID rec) with
          | None => OutOfFuel
          | Some d => Ok (mkWork rec (tasks_of (mc_db m) id) d g rs false now [] (mc_acts m))
          end
      end
  end.

(** save: [written] is whether the write succeeds. *)
Definition save (m : Machine) (w : work) (before : gmap string TaskInstance) (written : bool) : answer unit :=
  let changed := changed_tasks before (wk_tasks w) in
  if bool_decide (changed = ∅) && negb (wk_dirty w) then (mkMachine (mc_db m) (wk_acts w), Ok tt)
  else match (if written then Save (mc_db m) (wk_rec w) changed (wk_now w) else None) with
       | Some db => (mkMachine db (wk_acts w), Ok tt)
       | None => (mkMachine (mc_db m) (wk_acts w), Fail ApStore)
       end.

Definition ReasonCreatorLostAccess : string := "paused: its creator can no longer change this project".

(** A pass over an autopilot whose creator may work on its project. *)
Definition run_pass (w : work) : work :=
  let w := propagateFailures (refresh world (syncMembers contentHash world w)) in
  if bool_decide (ap_Workflow (wk_rec w) ≠ None) then goalFlow contentHash world w
  else
    let w := if is_running w then schedule contentHash world w else w in
    finishIfDone world w.

Definition reconcileLocked (m : Machine) (id now : string) (written : bool) : answer unit :=
  match load m id now with
  | Ok w =>
      if final (ap_Status (wk_rec w)) then (m, Ok tt)
      else match w_may (world (mc_acts m)) with
           | None => (m, Fail ApStore)
           | Some false =>
               save m (if is_running w then with_rec w (set_status (wk_rec w) AutopilotPaused ReasonCreatorLostAccess) else w)
                 (wk_tasks w) written
           | Some true => save m (run_pass w) (wk_tasks w) written
           end
  | Fail e => (m, Fail e)
  | Panic => (m, Panic)
  | OutOfFuel => (m, OutOfFuel)
  end.

(** What the actions are told of the outside besides the world: the stamps of
    their own pass and of the one they end with, and whether each is written. *)
Record Io := mkIo { io_now : string; io_written : bool; io_then : string; io_then_written : bool }.

(** The pass an action ends with; its error is only logged. *)
Definition Reconcile (m : Machine) (id : string) (io : Io) : Machine := (reconcileLocked m id (io_then io) (io_then_written io)).1.

(** ** Pausing and resuming *)

Definition setStatus (m : Machine) (id from to reason : string) (io : Io) : answer unit :=
  match db_runs (mc_db m) !! id with
  | None => (m, Fail ApNotFound)
  | Some rec =>
      if negb (String.eqb (ap_Status rec) from) then (m, Fail (ApConflict (ap_Status rec)))
      else match (if io_written io then Save (mc_db m) (set_status rec to reason) ∅ (io_now io) else None) with
           | Some db => (Reconcile (mkMachine db (mc_acts m)) id io, Ok tt)
           | None => (m, Fail ApStore)
           end
  end.

Definition Pause (m : Machine) (id : string) (io : Io) : answer unit := setStatus m id AutopilotRunning AutopilotPaused "paused" io.

Definition CreatorLostAccess : ApError :=
  ApConflict "its creator can no longer change this project: give them the project back, or cancel the autopilot".

Definition Resume (m : Machine) (id : string) (io : Io) : answer unit :=
  match db_runs (mc_db m) !! id with
  | None => (m, Fail ApNotFound)
  | Some _ =>
      match w_may (world (mc_acts m)) with
      | None => (m, Fail ApStore)
      | Some false => (m, Fail CreatorLostAccess)
      | Some true => setStatus m id AutopilotPaused AutopilotRunning EmptyString io
      end
  end.

(** ** Adopting a revised goal *)

(** A task with no try going takes the board's word, or its new content. *)
Definition adopt_pending (w : work) (statuses : gmap string Status) (id : string) (t : TaskInstance) : outcome ApError TaskInstance :=
  let status := default EmptyString (statuses !! id) in
  if final1 (t_State t) || dispatched t then Ok t
  else if bool_decide (dg_nodes (wk_dag w) !! id = None)
  then Ok (setState (set_hold t EmptyString) TaskSkipped EmptyString "left the goal in a revision")
  else if skippedOnBoard status then Ok (setState (set_hold t EmptyString) TaskSkipped StageDone (status +:+ " on the board"))
  else match w_content (world (wk_acts w)) id with
       | None => Fail ApUnreadable
       | Some body =>
           let t := set_hash t (contentHash (dag_title (wk_dag w) id) body) in
           Ok (if one_of (t_Hold t) [HoldChanged; HoldRemoved]
               then setState (set_stage (set_hold t EmptyString) EmptyString) TaskNone EmptyString EmptyString else t)
       end.

(** The members that are not tasks yet. *)
Definition adopt_member (w : work) (id : string) : outcome ApError work :=
  match wk_tasks w !! id with
  | Some _ => Ok w
  | None =>
      match w_content (world (wk_acts w)) id with
      | None => Fail ApUnreadable
      | Some body => Ok (put_task w id (new_task contentHash (wk_dag w) id body))
      end
  end.

Definition adopt_task (statuses : gmap string Status) (w : work) (id : string) : outcome ApError work :=
  match wk_tasks w !! id with
  | None => Ok w
  | Some t => t' ← adopt_pending w statuses id t; Ok (put_task w id t')
  end.

Definition todo_count (d : dag) (ids : list string) : nat :=
  length (List.filter (λ id, bool_decide (is_Some (dg_nodes d !! id)) && dispatchable d id) ids).

Definition Adopt (m : Machine) (id : string) (io : Io) : answer unit :=
  match load m id (io_now io) with
  | Ok w =>
      match w_may (world (mc_acts m)) with
      | None => (m, Fail ApStore)
      | Some false => (m, Fail CreatorLostAccess)
      | Some true =>
          if negb (String.eqb (ap_Status (wk_rec w)) AutopilotPaused) then (m, Fail (ApConflict (ap_Status (wk_rec w))))
          else
            let statuses := ComputeStatuses (wk_graph w) (wk_state w) in
            match (w1 ← fold_checks adopt_member w (dg_order (wk_dag w));
                   w2 ← fold_checks (adopt_task statuses) w1 (sortedIDs (wk_tasks w1));
                   if (MaxAutopilotTasks <? todo_count (wk_dag w2) (sortedIDs (wk_tasks w2)))%nat
                   then Fail (ApInvalid "tasks") else Ok w2) with
            | Ok w' =>
                let w' := with_rec w' (set_status (wk_rec w') AutopilotRunning EmptyString) in
                match save m w' (wk_tasks w) (io_written io) with
                | (m', Ok _) => (Reconcile m' id io, Ok tt)
                | failed => failed
                end
            | Fail e => (m, Fail e)
            | Panic => (m, Panic)
            | OutOfFuel => (m, OutOfFuel)
            end
      end
  | Fail e => (m, Fail e)
  | Panic => (m, Panic)
  | OutOfFuel => (m, OutOfFuel)
  end.

(** ** Cancelling *)

(** stopTry: a task's pipeline or run, if it is still going. *)
Definition stopTry (w : work) (t : TaskInstance) (reason : string) : work :=
  if negb (String.eqb (t_PipelineID t) EmptyString) then act_log w (ACancelPipeline (t_PipelineID t) reason)
  else if negb (String.eqb (t_RunID t) EmptyString) then act_log w (ACancelRun (t_RunID t) reason)
  else w.

Definition cancel_task (w : work) (kt : string * TaskInstance) : work :=
  if final1 (t_State kt.2) then w
  else put_task (stopTry w kt.2 "autopilot cancelled") kt.1
         (set_hold (setState kt.2 TaskSkipped EmptyString "the autopilot was cancelled") EmptyString).

Definition Cancel (m : Machine) (id reason : string) (io : Io) : answer unit :=
  match load m id (io_now io) with
  | Ok w =>
      if final (ap_Status (wk_rec w)) then (m, Fail (ApConflict (ap_Status (wk_rec w))))
      else
        let w' := foldl cancel_task w (map_to_list (wk_tasks w)) in
        save m (with_rec w' (set_status (wk_rec w') AutopilotCancelled (firstNonEmpty [reason; "cancelled"]))) (wk_tasks w) (io_written io)
  | Fail e => (m, Fail e)
  | Panic => (m, Panic)
  | OutOfFuel => (m, OutOfFuel)
  end.

(** ** One task *)

(** clear: a task reset for a new try, its try count kept. *)
Definition clear (t : TaskInstance) (reason : string) : TaskInstance :=
  mkTask (t_NodeID t) (t_Title t) TaskNone EmptyString (t_Try t) (t_Upstream t) EmptyString EmptyString EmptyString EmptyString []
    EmptyString [] reason EmptyString (t_ContentHash t) EmptyString.

(** What failed because another did, cleared. *)
Definition clear_upstream_failed (w : work) : work :=
  with_tasks w ((λ t, if String.eqb (t_State t) TaskUpstreamFailed then clear t EmptyString else t) <$> wk_tasks w).

Definition reopened (r : Record_) : Record_ := if final (ap_Status r) then finish_stamp (set_status r AutopilotRunning EmptyString) EmptyString else r.

(** taskAction: the action on one task, the autopilot reopened, saved, and a
    pass. *)
Definition taskAction (m : Machine) (id nodeID : string) (io : Io) (fn : work → TaskInstance → outcome ApError work) : answer unit :=
  match load m id (io_now io) with
  | Ok w =>
      match wk_tasks w !! nodeID with
      | None => (m, Fail ApNotFound)
      | Some t =>
          if String.eqb (ap_Status (wk_rec w)) AutopilotCancelled then (m, Fail (ApConflict AutopilotCancelled))
          else match fn w t with
               | Ok w' =>
                   match save m (with_rec w' (reopened (wk_rec w'))) (wk_tasks w) (io_written io) with
                   | (m', Ok _) => (Reconcile m' id io, Ok tt)
                   | failed => failed
                   end
               | Fail e => (m, Fail e)
               | Panic => (m, Panic)
               | OutOfFuel => (m, OutOfFuel)
               end
      end
  | Fail e => (m, Fail e)
  | Panic => (m, Panic)
  | OutOfFuel => (m, OutOfFuel)
  end.

Definition retry_task (nodeID : string) (w : work) (t : TaskInstance) : outcome ApError work :=
  let ended := one_of (t_State t) [TaskFailed; TaskUpstreamFailed; TaskSkipped] in
  let set_aside := one_of (t_Hold t) [HoldChanged; HoldRemoved] in
  if negb ended && negb set_aside then Fail (ApConflict (t_State t))
  else if negb ended && bool_decide (dg_nodes (wk_dag w) !! nodeID = None) then Fail (ApConflict "left the goal")
  else
    t ← (if String.eqb (t_Hold t) HoldChanged
         then match w_content (world (wk_acts w)) nodeID with
              | Some body => Ok (set_hash t (contentHash (dag_title (wk_dag w) nodeID) body))
              | None => Fail ApUnreadable
              end
         else Ok t);
    Ok (clear_upstream_failed (put_task w nodeID (clear t EmptyString))).

Definition Retry (m : Machine) (id nodeID : string) (io : Io) : answer unit := taskAction m id nodeID io (retry_task nodeID).

Definition skip_task (nodeID : string) (w : work) (t : TaskInstance) : outcome ApError work :=
  if one_of (t_State t) [TaskSuccess; TaskSkipped] then Fail (ApConflict (t_State t))
  else
    let w' := if final1 (t_State t) then w else stopTry w t "skipped in the autopilot" in
    Ok (clear_upstream_failed (put_task w' nodeID (set_hold (setState t TaskSkipped EmptyString "skipped by a person") EmptyString))).

Definition Skip (m : Machine) (id nodeID : string) (io : Io) : answer unit := taskAction m id nodeID io (skip_task nodeID).

(** ** Reviews *)

Record Reviewer := mkReviewer { re_ID : string; re_Name : string }.

Definition changes_reason (comment : string) : string := humanChangesPrefix +:+ firstNonEmpty [trim_space comment; "(no comment)"].

(** What a person's verdict does to a task waiting for one. *)
Definition review_task (nodeID verdict comment : string) (w : work) (t : TaskInstance) : outcome ApError work :=
  if negb (String.eqb (t_State t) TaskWaitingHuman) then Fail (ApConflict (t_State t))
  else if String.eqb verdict VerdictApprove then Ok (put_task w nodeID (set_verdict t verdict))
  else Ok (put_task w nodeID (clear t (changes_reason comment))).

(** reviewHold: only a merge held for its sensitive paths is reviewed. *)
Definition review_held (nodeID : string) (who : Reviewer) (verdict comment : string) (w : work) (t : TaskInstance) : outcome ApError work :=
  if negb (String.eqb (t_Hold t) HoldSensitive) || negb (String.eqb (t_State t) TaskWaitingHuman) then Fail (ApConflict (t_State t))
  else if String.eqb verdict VerdictApprove
  then Ok (put_task w nodeID (set_reason (set_verdict t verdict) ("merge approved by " +:+ firstNonEmpty [re_Name who; re_ID who])))
  else Ok (put_task w nodeID (clear t (changes_reason comment))).

Definition reviewHold (m : Machine) (rec : Record_) (nodeID : string) (who : Reviewer) (admin : bool) (verdict comment : string) (io : Io)
    : answer unit :=
  if negb admin && negb (String.eqb (ap_CreatedBy rec) (re_ID who)) then (m, Fail ApNotFound)
  else taskAction m (ap_ID rec) nodeID io (review_held nodeID who verdict comment).

Definition MaxComment : nat := Pos.to_nat (8 * 2 ^ 10).

Definition Review (m : Machine) (id nodeID : string) (who : Reviewer) (admin : bool) (verdict0 comment : string) (io : Io) : answer unit :=
  let verdict := trim_space verdict0 in
  if negb (one_of verdict [VerdictApprove; VerdictChanges]) then (m, Fail (ApInvalid "verdict"))
  else if (MaxComment <? String.length comment)%nat then (m, Fail (ApInvalid "comment"))
  else match db_runs (mc_db m) !! id with
       | None => (m, Fail ApNotFound)
       | Some rec =>
           let allowed := admin || String.eqb (ap_CreatedBy rec) (re_ID who) || rp_AnyEditor (po_Review (ap_Policy rec)) in
           let plain :=
             if negb allowed then (m, Fail ApNotFound) else taskAction m id nodeID io (review_task nodeID verdict comment) in
           match tasks_of (mc_db m) id !! nodeID with
           | None => plain
           | Some t =>
               if held t then reviewHold m rec nodeID who admin verdict comment io
               else if pipelineHandlesHuman && negb (String.eqb (t_PipelineID t) EmptyString) then
                 let owns := match w_pipeline (world (mc_acts m)) (t_PipelineID t) with
                             | Some p => String.eqb (pr_OwnerID p) (re_ID who)
                             | None => false
                             end in
                 if negb allowed && negb owns then (m, Fail ApNotFound)
                 else if negb (String.eqb (t_State t) TaskWaitingHuman) then (m, Fail (ApConflict (t_State t)))
                 else
                   let m' := mkMachine (mc_db m) (mc_acts m ++ [AHumanReview (t_PipelineID t) (re_ID who) verdict comment]) in
                   if w_humanReview (world (mc_acts m)) (t_PipelineID t) then (Reconcile m' id io, Ok tt) else (m', Fail ApStore)
               else plain
           end
       end.

(** ** Creating *)

(** Store.Create: one live autopilot per goal; an id in use fails the same
    uniqueness error. *)
Definition insert_run (db : Db) (r : Record_) (tasks : gmap string TaskInstance) : outcome ApError Db :=
  if existsb (λ r', same_goal r r' && live_run r') (map_to_list (db_runs db)).*2 || bool_decide (is_Some (db_runs db !! ap_ID r))
  then Fail (ApConflict "this goal already has an autopilot running")
  else Ok (mkDb (<[ap_ID r := r]> (db_runs db)) (<[ap_ID r := tasks]> (db_tasks db))).

(** The tasks an autopilot starts with. *)
Definition first_task (d : dag) (wd : World) (tasks : gmap string TaskInstance) (id : string) : outcome ApError (gmap string TaskInstance) :=
  match w_content wd id with
  | Some body => Ok (<[id := new_task contentHash d id body]> tasks)
  | None => Fail ApUnreadable
  end.

(** The repository a policy leaves to be found: the only one there is. *)
Definition find_repo (wd : World) (pol : AutopilotPolicy) : outcome ApError AutopilotPolicy :=
  if negb (String.eqb (po_RepoID pol) EmptyString) then Ok pol
  else match w_owned wd with
       | None => Fail ApStore
       | Some owned =>
           let repos : gset string :=
             list_to_set (flat_map (λ r, match rn_Info r with
                                         | Some i => if String.eqb (po_RunnerID pol) EmptyString || String.eqb (rn_ID r) (po_RunnerID pol)
                                                     then repo_ID <$> in_Repos i else []
                                         | None => []
                                         end) owned) in
           match elements repos with
           | [id] => Ok (mkPolicy (po_Implement pol) (po_Review pol) (po_MaxParallel pol) (po_MaxRounds pol) (po_AutoMerge pol)
                           (po_AllowAgentOnlyMerge pol) (po_Advisor pol) (po_RunnerID pol) id)
           | _ => Fail (ApInvalid "repoId")
           end
       end.

(** Create between the request and storing it. *)
Definition plan_run (wd : World) (newID project goalID : string) (policy : AutopilotPolicy) (actorID actorName steppedUpAt : string)
    : outcome ApError (Record_ * gmap string TaskInstance) :=
  if negb (ValidNodeID goalID) then Fail (ApInvalid "goalNodeId")
  else
    pol ← match ValidatePolicy policy with Ok p => Ok p | Fail e => Fail (ApPolicy e) | Panic => Panic | OutOfFuel => OutOfFuel end;
    match w_graph wd with
    | None => Fail ApUnreadable
    | Some (g, _) =>
        match NodeByID g goalID with
        | None => Fail ApNotFound
        | Some goal =>
            let goalType := TypeOf (Some g) (Some goal) in
            if negb (one_of (nt_AgentMode goalType) [AgentDispatch; AgentAutopilot]) then Fail (ApNodeType (nt_Label goalType))
            else match buildDAG (Some g) goalID with
                 | None => OutOfFuel
                 | Some d =>
                     let wf := Normalized (EffectiveWorkflow (Some g) goalID) in
                     let phase := match wf with Some wf => initialGoalPhase wf goal (length (dg_order d)) | None => EmptyString end in
                     if negb (nonempty (dg_order d)) && one_of phase [EmptyString; GoalPhaseTasks] then Fail (ApInvalid "no tasks")
                     else if (MaxAutopilotTasks <? length (List.filter (dispatchable d) (dg_order d)))%nat then Fail (ApInvalid "too many tasks")
                     else
                       tasks ← fold_checks (first_task d wd) ∅ (dg_order d);
                       pol ← find_repo wd pol;
                       Ok (mkRecord newID project goalID AutopilotRunning pol EmptyString actorID
                             (if String.eqb actorName EmptyString then actorID else actorName) EmptyString phase 0 EmptyString
                             steppedUpAt wf EmptyString, tasks)
                 end
        end
    end.

Definition Create (m : Machine) (newID project goalID : string) (policy : AutopilotPolicy) (actorID actorName steppedUpAt : string) (io : Io)
    : answer string :=
  match ('(rec, tasks) ← plan_run (world (mc_acts m)) newID project goalID policy actorID actorName steppedUpAt;
         if io_written io then insert_run (mc_db m) rec tasks else Fail ApStore) with
  | Ok db => (Reconcile (mkMachine db (mc_acts m)) newID io, Ok newID)
  | Fail e => (m, Fail e)
  | Panic => (m, Panic)
  | OutOfFuel => (m, OutOfFuel)
  end.
End Orchestrator.
