(* ===== verification/AutopilotFacts.v ===== *)
(** What a pass of the autopilot guarantees: work starts only when it is ready
    and never more of it than the policy allows, ended tasks stay ended, failures
    reach everything downstream, and nothing is merged that was not approved. *)

From S2P Require Import Prelude GoStr GoFloat GoTime Dsl Graph NodeTypes Workflow Roles State Readiness Dag DagFacts Runs TaskRun AutoPolicy Autopilot.
From Stdlib Require Import Ascii.
Open Scope Z_scope.

(** * Tasks in order *)

(** A task under its own id; one that waits to start has no try and no hold. *)
Record sound_task (id : string) (t : TaskInstance) : Prop := {
  st_id : t_NodeID t = id;
  st_idle : pending_state t = true → dispatched t = false ∧ held t = false;
}.

Definition sound_tasks (tasks : gmap string TaskInstance) : Prop := map_Forall sound_task tasks.

Lemma sound_insert tasks id t : sound_task id t → sound_tasks tasks → sound_tasks (<[id := t]> tasks).
Proof. intros Ht Hs. by apply map_Forall_insert_2. Qed.

(** Ending or starting a task leaves no pending one. *)
Lemma sound_not_pending id t : t_NodeID t = id → pending_state t = false → sound_task id t.
Proof. intros Hid Hp. split; [done|]. by rewrite Hp. Qed.

Lemma setState_pending t state stage reason :
  one_of state [TaskNone; TaskScheduled] = false → pending_state (setState t state stage reason) = false.
Proof. done. Qed.

(** The states there are. *)
Definition task_states : list string :=
  [TaskNone; TaskScheduled; TaskQueued; TaskRunning; TaskWaitingReview; TaskWaitingHuman; TaskSuccess; TaskFailed; TaskUpstreamFailed;
   TaskSkipped].

(** A task in a known state that waits for a person only with a try or a hold,
    and works without one of them only when nothing holds it. *)
Record shaped (t : TaskInstance) : Prop := {
  sh_known : t_State t ∈ task_states;
  sh_waiting : t_State t = TaskWaitingHuman → dispatched t = true ∨ held t = true;
  sh_working : t_State t ∈ [TaskQueued; TaskRunning; TaskWaitingReview] → dispatched t = true ∨ held t = false;
}.

Definition still : list string := [TaskNone; TaskScheduled; TaskSuccess; TaskFailed; TaskUpstreamFailed; TaskSkipped].

Lemma shaped_still t : t_State t ∈ still → shaped t.
Proof.
  intros Hs. unfold still in Hs.
  repeat (apply elem_of_cons in Hs as [Hs|Hs]; [split; [|by rewrite Hs|]; rewrite Hs; [by apply one_of_spec|by intros ?%one_of_spec]|]).
  by apply elem_of_nil in Hs.
Qed.

Lemma shaped_held t : t_State t = TaskWaitingHuman → held t = true → shaped t.
Proof. intros Hs Hh. split; [rewrite Hs; by apply one_of_spec|by right|]. rewrite Hs. by intros ?%one_of_spec. Qed.

Lemma shaped_dispatched t : t_State t ∈ task_states → dispatched t = true → shaped t.
Proof. intros Hs Hd. split; [done|by left|by left]. Qed.

Lemma shaped_queued t : t_State t = TaskQueued → held t = false → shaped t.
Proof. intros Hs Hh. split; [rewrite Hs; by apply one_of_spec|by rewrite Hs|by right]. Qed.

(** Between two shaped tasks in one state, a slot is kept when the try is. *)
Lemma shaped_slot t t' : shaped t → shaped t' → t_State t' = t_State t → (dispatched t = true → dispatched t' = true) →
  active t = true → active t' = true.
Proof.
  intros [_ Hw _] [_ _ Hk'] Hst Hd. unfold active. rewrite Hst in *. intros [Hn Hs]%andb_true_iff. rewrite Hs, andb_true_r.
  apply one_of_spec in Hs. destruct (dispatched t) eqn:Ed; [by rewrite (Hd eq_refl), andb_false_r|]. rewrite andb_true_r in Hn.
  destruct (decide (t_State t = TaskWaitingHuman)) as [He|Hne].
  - destruct (Hw He) as [?|Hh]; [done|]. by rewrite Hh in Hn.
  - assert (t_State t ∈ [TaskQueued; TaskRunning; TaskWaitingReview]) as Hin.
    { rewrite !elem_of_cons, elem_of_nil in *. naive_solver. }
    destruct (Hk' Hin) as [->| ->]; [by rewrite andb_false_r|done].
Qed.

(** ** Counting tasks *)

Definition count (f : TaskInstance → bool) (tasks : gmap string TaskInstance) : Z :=
  Z.of_nat (length (List.filter f (map_to_list tasks).*2)).

Lemma filter_length_perm {A} (f : A → bool) xs ys : xs ≡ₚ ys → length (List.filter f xs) = length (List.filter f ys).
Proof. induction 1; simpl; repeat case_match; simpl; lia. Qed.

(** Replacing one task changes a count by that task alone. *)
Lemma count_insert f tasks id t t' :
  tasks !! id = Some t → count f (<[id := t']> tasks) = count f tasks - Z.b2z (f t) + Z.b2z (f t').
Proof.
  intros Ht. unfold count.
  assert (∀ x, length (List.filter f (map_to_list (<[id := x]> tasks)).*2) =
    ((if f x then 1 else 0) + length (List.filter f (map_to_list (delete id tasks)).*2))%nat) as Hone.
  { intros x. rewrite <- insert_delete_eq, (filter_length_perm f _ (x :: (map_to_list (delete id tasks)).*2)).
    - simpl. by destruct (f x).
    - by rewrite map_to_list_insert by apply lookup_delete_eq. }
  rewrite (Hone t'). replace tasks with (<[id := t]> tasks) at 2 by by apply insert_id.
  rewrite (Hone t). destruct (f t), (f t'); simpl; lia.
Qed.

Lemma map_to_list_2 (tasks : gmap string TaskInstance) t : t ∈ (map_to_list tasks).*2 ↔ ∃ id, tasks !! id = Some t.
Proof.
  rewrite list_elem_of_fmap. split.
  - intros ([id t'] & -> & Hin%elem_of_map_to_list). by exists id.
  - intros (id & Hin%elem_of_map_to_list). by exists (id, t).
Qed.

(** What a step over the tasks leaves alone. *)
Record same_frame (w w' : work) : Prop := {
  sf_rec : wk_rec w' = wk_rec w;
  sf_dag : wk_dag w' = wk_dag w;
  sf_graph : wk_graph w' = wk_graph w;
  sf_now : wk_now w' = wk_now w;
}.

#[export] Instance same_frame_refl : Reflexive same_frame.
Proof. by split. Qed.

#[export] Instance same_frame_trans : Transitive same_frame.
Proof. intros x y z [] []. split; congruence. Qed.

Section Pass.
Context `{Unicode}.
Variables (contentHash : string → string → string) (world : list Act → World).

(** ** dispatch *)

(** What holds of a request a task's try starts with: the runner is one of the
    creator's, online, with the repository and the agent asked for, and the
    content is the one the task started with. *)
Definition fair_request (w : work) (t : TaskInstance) (req : StartRequest) : Prop :=
  sq_NodeID req = t_NodeID t ∧ sq_ActorID req = ap_CreatedBy (wk_rec w) ∧
  w_content (now_world world w) (t_NodeID t) = Some (sq_Content req) ∧
  (t_ContentHash t = EmptyString ∨ t_ContentHash t = contentHash (t_Title t) (sq_Content req)) ∧
  ∃ owned r, w_owned (now_world world w) = Some owned ∧ r ∈ owned ∧ rn_ID r = sq_RunnerID req ∧
    rn_Online r = true ∧ Headless (rn_Info r) = true ∧
    (∃ info, rn_Info r = Some info ∧ sq_RepoID req ∈ repo_ID <$> in_Repos info ∧ sq_RepoID req = po_RepoID (ap_Policy (wk_rec w))) ∧
    can_run (mergeAgents [r]) (mkAgentModel (sq_Agent req) (sq_Model req)) = true.

(** A task keeps its run, or has the one the dispatcher started for it. *)
Definition given_run (t t' : TaskInstance) : Prop :=
  t_RunID t' = t_RunID t ∨ ∃ acts req pipeline at_, w_start (world acts) req = Started (t_RunID t') pipeline at_.

Lemma checkContent_spec t body t' same : checkContent contentHash t body = (t', same) →
  t_NodeID t' = t_NodeID t ∧ t_Title t' = t_Title t ∧ t_RunID t' = t_RunID t ∧ t_PipelineID t' = t_PipelineID t ∧ (t_ContentHash t = EmptyString ∨ t_ContentHash t' = t_ContentHash t) ∧
  if same then t_State t' = t_State t ∧ t_Hold t' = t_Hold t ∧
               (t_ContentHash t = EmptyString ∨ t_ContentHash t = contentHash (t_Title t) body)
  else t_State t' = TaskWaitingHuman ∧ t_Hold t' = HoldChanged.
Proof.
  unfold checkContent. destruct (String.eqb_spec (t_ContentHash t) EmptyString); [intros [= <- <-]; auto 10|].
  destruct (String.eqb_spec (t_ContentHash t) (contentHash (t_Title t) body)); intros [= <- <-]; auto 10.
Qed.

Lemma usable_one am agents : nonempty (usable [am] agents) = true → can_run agents am = true.
Proof. unfold usable. simpl. by destruct (can_run agents am). Qed.

Lemma by_busy_perm wd runners : by_busy wd runners ≡ₚ runners.
Proof. apply slice_stable_perm. Qed.

(** The goals of a task that is not started. *)
Local Ltac not_dispatched := intros [= <- <- <-]; split_and!; first [done|by left|set_solver|by right].

Lemma dispatch_spec w t w' t' ok :
  dispatch contentHash world w t = (w', t', ok) →
  t_NodeID t' = t_NodeID t ∧
  (w' = w ∨ ∃ req, w' = act_log w (AStart req) ∧ fair_request w t req) ∧
  (if ok then t_State t' = TaskQueued ∧ t_Hold t' = t_Hold t
   else t_State t' ∈ [TaskScheduled; TaskFailed] ∨ (t_State t' = TaskWaitingHuman ∧ held t' = true)) ∧
  (ok = false → t_RunID t' = t_RunID t ∧ t_PipelineID t' = t_PipelineID t ∧ (t_State t' = TaskScheduled → t_Hold t' = t_Hold t)) ∧
  t_Title t' = t_Title t ∧ (t_ContentHash t = EmptyString ∨ t_ContentHash t' = t_ContentHash t) ∧ given_run t t'.
Proof.
  unfold dispatch. destruct (w_owned (now_world world w)) as [owned|] eqn:Eo; [|not_dispatched].
  destruct (eligible_runners _ owned) as [|r0 rest] eqn:Ee; [not_dispatched|].
  destruct (w_content (now_world world w) (t_NodeID t)) as [content|] eqn:Ec; [|not_dispatched].
  destruct (checkContent contentHash t content) as [t1 same] eqn:Ech. apply checkContent_spec in Ech as (Hid & Htitle & Hrun & Hpipe & Hkeep & Hcase).
  destruct same; cbn [negb].
  2: { destruct Hcase as [Hst Hh]. intros [= <- <- <-]. split_and!; [done|by left| | |done|done|by left].
       - right. split; [done|]. unfold held. by rewrite Hh.
       - intros _. split_and!; [done..|]. by rewrite Hst. }
  destruct Hcase as (Hst & Hhold & Hhash).
  destruct (choose _ _ _ _ _ _) as [[[|am chain] reason]|[]| |]; try (not_dispatched).
  destruct (runner_for _ am) as [r|] eqn:Er; [|not_dispatched].
  set (req := task_request _ _ _ _ _ _ _).
  assert (fair_request w t req) as Hfair.
  { apply find_some in Er as [Hin Hcan]. apply usable_one in Hcan. apply list_elem_of_In in Hin. rewrite by_busy_perm, <- Ee in Hin.
    apply elem_of_list_filter in Hin as [Hel Hin]. rewrite !andb_true_iff in Hel. destruct Hel as (((Hon & Hhl) & _) & Hrepo).
    destruct (rn_Info r) as [info|] eqn:Ei; [|done]. split_and!.
    - by rewrite <- Hid.
    - done.
    - by rewrite Ec.
    - done.
    - exists owned, r. rewrite Ei. split_and!; try done.
      exists info. split_and!; [done| |done]. by apply one_of_spec in Hrepo. }
  destruct (w_start _ _) eqn:Es; intros [= <- <- <-]; split_and!; try done; try (by left); try (right; by exists req); try set_solver.
  right. by exists (wk_acts w), req, pipeline, createdAt.
Qed.

(** ** schedule *)

(** A task of the loop, next to what it was when the loop began. *)
Definition carries (t0 t : TaskInstance) : Prop :=
  t_NodeID t = t_NodeID t0 ∧ t_Title t = t_Title t0 ∧ (pending_state t = true → pending_state t0 = true) ∧
  (t_ContentHash t0 = EmptyString ∨ t_ContentHash t = t_ContentHash t0) ∧
  one_of (t_State t) [TaskSuccess; TaskSkipped] = one_of (t_State t0) [TaskSuccess; TaskSkipped] ∧
  (pending_state t0 = false → t = t0) ∧ (shaped t0 → shaped t) ∧ given_run t0 t.

(** What starting a task of [w0] took: it waited, everything it waits for is
    settled, nothing outside the goal blocks it, and the request is fair. *)
Definition due (w0 : work) (statuses : gmap string Status) (req : StartRequest) : Prop :=
  ∃ t0, wk_tasks w0 !! sq_NodeID req = Some t0 ∧ pending_state t0 = true ∧
    (∀ up, up ∈ dag_up (wk_dag w0) (sq_NodeID req) → passes w0 statuses up = true) ∧
    externalBlockers (Some (wk_graph w0)) (wk_state w0) (wk_dag w0) (sq_NodeID req) = [] ∧
    (t_ContentHash t0 = EmptyString ∨ t_ContentHash t0 = contentHash (t_Title t0) (sq_Content req)) ∧
    ∃ w t, same_frame w0 w ∧ fair_request w t req.

Record scheduling (w0 : work) (statuses : gmap string Status) (room0 : Z) (w : work) (room : Z) : Prop := {
  sd_frame : same_frame w0 w;
  sd_state : wk_state w = wk_state w0;
  sd_sound : sound_tasks (wk_tasks w);
  sd_dom : ∀ id, wk_tasks w !! id = None ↔ wk_tasks w0 !! id = None;
  sd_carries : ∀ id t0 t, wk_tasks w0 !! id = Some t0 → wk_tasks w !! id = Some t → carries t0 t;
  sd_active : count active (wk_tasks w) + room = count active (wk_tasks w0) + room0;
  sd_room : Z.min room0 0 ≤ room ≤ room0;
  sd_acts : ∃ reqs, wk_acts w = wk_acts w0 ++ (AStart <$> reqs) ∧ ∀ req, req ∈ reqs → due w0 statuses req;
}.

Lemma scheduling_start w0 statuses room : sound_tasks (wk_tasks w0) → scheduling w0 statuses room w0 room.
Proof.
  intros Hs. split; try done; try lia.
  - intros id t0 t -> [= ->]. split_and!; auto. by left.
  - exists []. split; [by rewrite app_nil_r|]. by intros req ?%elem_of_nil.
Qed.

Lemma scheduling_passes w0 statuses room0 w room up :
  scheduling w0 statuses room0 w room → passes w statuses up = passes w0 statuses up.
Proof.
  intros Hs. unfold passes, settled_task. rewrite (sf_graph _ _ (sd_frame _ _ _ _ _ Hs)).
  pose proof (sd_dom _ _ _ _ _ Hs up) as Hdom. pose proof (sd_carries _ _ _ _ _ Hs up) as Hc.
  destruct (wk_tasks w !! up) as [t|], (wk_tasks w0 !! up) as [t0|]; try (exfalso; naive_solver).
  - destruct (Hc t0 t eq_refl eq_refl) as (_ & _ & _ & _ & -> & _). by rewrite !bool_decide_eq_false_2.
  - by rewrite !bool_decide_eq_true_2.
Qed.

Lemma scheduling_ready w0 statuses room0 w room id t :
  scheduling w0 statuses room0 w room → not_ready w statuses id t = None →
  (∀ up, up ∈ dag_up (wk_dag w0) id → passes w0 statuses up = true) ∧
  externalBlockers (Some (wk_graph w0)) (wk_state w0) (wk_dag w0) id = [].
Proof.
  intros Hs. unfold not_ready. destruct (find _ _) eqn:Ef; [done|].
  destruct (sd_frame _ _ _ _ _ Hs) as [_ Hd Hg _]. rewrite Hd, Hg, (sd_state _ _ _ _ _ Hs) in *.
  destruct (externalBlockers _ _ _ _); [|done]. intros _. split; [|done]. intros up Hup.
  rewrite <- (scheduling_passes _ _ _ _ _ up Hs). apply list_elem_of_In in Hup. pose proof (find_none _ _ Ef up Hup) as Hn.
  by apply negb_false_iff in Hn.
Qed.

(** Replacing the task that is looked at. *)
Lemma scheduling_put w0 statuses room0 w room id t t' w' room' :
  scheduling w0 statuses room0 w room → wk_tasks w !! id = Some t → pending_state t = true →
  (w' = w ∨ ∃ req, w' = act_log w (AStart req) ∧ due w0 statuses req) →
  t_NodeID t' = t_NodeID t → t_Title t' = t_Title t → sound_task id t' → shaped t' → given_run t t' →
  (t_ContentHash t = EmptyString ∨ t_ContentHash t' = t_ContentHash t) →
  one_of (t_State t') [TaskSuccess; TaskSkipped] = false →
  (active t' = true ∧ room' = room - 1 ∧ 0 < room ∨ active t' = false ∧ room' = room) →
  scheduling w0 statuses room0 (put_task w' id t') room'.
Proof.
  intros Hs Ht Hp Hw Hid Htitle Hsound Hshape Hgiven Hhash Hstate Hroom. pose proof Hs as [Hf Hst Hso Hdom Hc Hact Hrm (reqs & Ha & Hdue)].
  assert (same_frame w w' ∧ wk_state w' = wk_state w ∧ wk_tasks w' = wk_tasks w) as (Hfr & Hst' & Htk)
    by (destruct Hw as [->|(req & -> & _)]; by split_and!).
  assert (active t = false) as Hna.
  { unfold active. unfold pending_state in Hp. apply one_of_spec in Hp.
    assert (one_of (t_State t) [TaskQueued; TaskRunning; TaskWaitingReview; TaskWaitingHuman] = false) as ->; [|by rewrite andb_false_r].
    clear -Hp. apply elem_of_cons in Hp as [->|Hp]; [reflexivity|]. by apply list_elem_of_singleton in Hp as ->. }
  split.
  - transitivity w; [done|]. by destruct Hfr.
  - by rewrite <- Hst.
  - simpl. rewrite Htk. by apply sound_insert.
  - intros id'. simpl. rewrite Htk, <- Hdom, lookup_insert_None. split; [by intros [? _]|]. intros Hn. split; [done|].
    intros ->. by rewrite Ht in Hn.
  - intros id' t0 t1 H0. simpl. rewrite Htk. destruct (decide (id = id')) as [<-|Hne].
    + rewrite lookup_insert_eq. intros [= <-]. destruct (Hc id t0 t H0 Ht) as (Hi & Hti & Hpe & Hh & Hset & _ & _ & Hgr). split_and!.
      * congruence.
      * congruence.
      * auto.
      * destruct Hh as [?|Hh]; [by left|]. rewrite Hh in Hhash. by destruct Hhash as [?|Hhash]; [left|right].
      * rewrite <- Hset, Hstate. apply one_of_spec in Hp. clear -Hp.
        apply elem_of_cons in Hp as [->|Hp]; [reflexivity|]. by apply list_elem_of_singleton in Hp as ->.
      * intros Hn. rewrite (Hpe Hp) in Hn. done.
      * done.
      * destruct Hgiven as [He|?]; [|by right]. unfold given_run. rewrite He. done.
    + rewrite lookup_insert_ne by done. by apply Hc.
  - simpl. rewrite Htk. rewrite (count_insert active _ _ t) by done. rewrite Hna. destruct Hroom as [(-> & -> & _)|(-> & ->)]; simpl; lia.
  - destruct Hroom as [(_ & -> & ?)|(_ & ->)]; lia.
  - simpl. destruct Hw as [->|(req & -> & Hreq)]; [by exists reqs|]. exists (reqs ++ [req]). simpl. rewrite Ha, fmap_app, (assoc_L (++)).
    split; [done|]. intros r [?| ->%list_elem_of_singleton]%elem_of_app; auto.
Qed.

Lemma pending_set_state id t state stage reason :
  sound_task id t → pending_state t = true → one_of state [TaskNone; TaskScheduled] = true →
  sound_task id (setState t state stage reason) ∧ active (setState t state stage reason) = false ∧
  one_of (t_State (setState t state stage reason)) [TaskSuccess; TaskSkipped] = false ∧ shaped (setState t state stage reason).
Proof.
  intros [Hid Hidle] Hp Hst. destruct (Hidle Hp) as [Hd Hh]. apply one_of_spec in Hst. split_and!.
  - by split.
  - unfold active. simpl. apply elem_of_cons in Hst as [->|Hst]; [by rewrite andb_false_r|].
    apply list_elem_of_singleton in Hst as ->. by rewrite andb_false_r.
  - simpl. apply elem_of_cons in Hst as [->|Hst]; [done|]. by apply list_elem_of_singleton in Hst as ->.
  - apply shaped_still. simpl. unfold still. set_solver.
Qed.

(** What a task is after a try that did not start. *)
Lemma not_started id t t' :
  sound_task id t → pending_state t = true → t_NodeID t' = t_NodeID t →
  t_State t' ∈ [TaskScheduled; TaskFailed] ∨ (t_State t' = TaskWaitingHuman ∧ held t' = true) →
  t_RunID t' = t_RunID t ∧ t_PipelineID t' = t_PipelineID t ∧ (t_State t' = TaskScheduled → t_Hold t' = t_Hold t) →
  sound_task id t' ∧ active t' = false ∧ one_of (t_State t') [TaskSuccess; TaskSkipped] = false ∧ shaped t'.
Proof.
  intros [Hid Hidle] Hp Hid' Hst (Hr & Hpl & Hh). destruct (Hidle Hp) as [Hd Hheld].
  assert (dispatched t' = false) as Hd' by (unfold dispatched in *; by rewrite Hr, Hpl).
  destruct Hst as [Hst|[Hst Hh']].
  - apply elem_of_cons in Hst as [Hst|Hst%list_elem_of_singleton].
    + split_and!.
      * split; [congruence|]. intros _. split; [done|]. unfold held in *. by rewrite Hh.
      * unfold active. rewrite Hst. by rewrite andb_false_r.
      * by rewrite Hst.
      * apply shaped_still. rewrite Hst. unfold still. set_solver.
    + split_and!.
      * apply sound_not_pending; [congruence|]. unfold pending_state. by rewrite Hst.
      * unfold active. rewrite Hst. by rewrite andb_false_r.
      * by rewrite Hst.
      * apply shaped_still. rewrite Hst. unfold still. set_solver.
  - split_and!.
    + apply sound_not_pending; [congruence|]. unfold pending_state. by rewrite Hst.
    + unfold active. by rewrite Hh', Hd'.
    + by rewrite Hst.
    + by apply shaped_held.
Qed.

Lemma schedule_one_spec w0 statuses room0 w room id w' room' :
  scheduling w0 statuses room0 w room → schedule_one contentHash world statuses (w, room) id = (w', room') →
  scheduling w0 statuses room0 w' room'.
Proof.
  intros Hs. unfold schedule_one. destruct (wk_tasks w !! id) as [t|] eqn:Et; [|by intros [= <- <-]].
  destruct (pending_state t) eqn:Ep; cbn [negb]; [|by intros [= <- <-]].
  pose proof (sd_sound _ _ _ _ _ Hs id t Et) as Hsound. destruct (not_ready w statuses id t) as [reason|] eqn:En.
  - intros [= <- <-].
    destruct (pending_set_state id t TaskNone EmptyString reason Hsound Ep eq_refl) as (H1 & H2 & H3 & Hsh).
    assert (sound_task id (set_reason t reason) ∧ active (set_reason t reason) = false ∧
            one_of (t_State (set_reason t reason)) [TaskSuccess; TaskSkipped] = false ∧ shaped (set_reason t reason)) as (H4 & H5 & H6 & Hsh').
    { exact (pending_set_state id t (t_State t) EmptyString reason Hsound Ep Ep). }
    destruct (String.eqb (t_State t) TaskNone).
    + eapply scheduling_put; eauto; by left.
    + eapply scheduling_put; eauto; by left.
  - destruct (room <=? 0) eqn:Er.
    + intros [= <- <-].
      destruct (pending_set_state id t TaskScheduled StageQueued "waiting for a free slot" Hsound Ep eq_refl) as (H1 & H2 & H3 & Hsh).
      eapply scheduling_put; eauto; by left.
    + apply Z.leb_gt in Er. destruct (dispatch contentHash world w t) as [[w1 t1] ok] eqn:Ed. intros [= <- <-].
      pose proof (st_id _ _ Hsound) as Hid. destruct (scheduling_ready _ _ _ _ _ _ _ Hs En) as [Hups Hext].
      apply dispatch_spec in Ed as (Hid1 & Hw & Hcase & Hkeep & Htitle & Hhash & Hgiven).
      assert (w1 = w ∨ ∃ req, w1 = act_log w (AStart req) ∧ due w0 statuses req) as Hw'.
      { destruct Hw as [?|(req & ? & Hfair)]; [by left|right]. exists req. split; [done|].
        pose proof Hfair as (Hn & _ & _ & Hh & _). destruct (wk_tasks w0 !! id) as [t0|] eqn:E0.
        - destruct (sd_carries _ _ _ _ _ Hs id t0 t E0 Et) as (_ & Hti & Hpe & Hh0 & _ & _).
          exists t0. rewrite Hn, Hid. split_and!; try done; [by apply Hpe| |exists w, t; split; [apply Hs|done]].
          destruct Hh0 as [?|Hh0]; [by left|]. rewrite Hh0, Hti in Hh. done.
        - apply (sd_dom _ _ _ _ _ Hs) in E0. by rewrite E0 in Et. }
      destruct ok.
      * destruct Hcase as [Hq Hho]. eapply scheduling_put; eauto.
        -- apply sound_not_pending; [congruence|]. unfold pending_state. by rewrite Hq.
        -- apply shaped_queued; [done|]. unfold held. rewrite Hho. by destruct (st_idle _ _ Hsound Ep).
        -- by rewrite Hq.
        -- left. split_and!; [|lia|lia]. unfold active, held. rewrite Hq, Hho. destruct (st_idle _ _ Hsound Ep) as [_ Hnh]. unfold held in Hnh. by rewrite Hnh.
      * destruct (not_started id t t1 Hsound Ep Hid1 Hcase (Hkeep eq_refl)) as (H1 & H2 & H3 & Hsh). eapply scheduling_put; eauto; by left.
Qed.

Lemma schedule_loop w0 statuses room0 ids w room :
  scheduling w0 statuses room0 w room →
  let st := foldl (schedule_one contentHash world statuses) (w, room) ids in scheduling w0 statuses room0 st.1 st.2.
Proof.
  revert w room. induction ids as [|id ids IH]; intros w room Hs; [done|]. cbn [foldl].
  destruct (schedule_one contentHash world statuses (w, room) id) as [w' room'] eqn:E. apply IH. by eapply schedule_one_spec.
Qed.

Lemma schedule_spec w : sound_tasks (wk_tasks w) →
  ∃ room, scheduling w (ComputeStatuses (wk_graph w) (wk_state w)) (po_MaxParallel (ap_Policy (wk_rec w)) - count active (wk_tasks w))
    (schedule contentHash world w) room.
Proof. intros Hs. eexists. apply schedule_loop. by apply scheduling_start. Qed.

(** ** Ended tasks *)

(** Two maps of tasks with the same ids, in which ended tasks are the same but
    for their place on the board. *)
Definition keeps_ended (tasks tasks' : gmap string TaskInstance) : Prop :=
  ∀ id, match tasks !! id, tasks' !! id with
        | Some t, Some t' => final1 (t_State t) = true → ∃ title up, t' = set_place t title up
        | None, None => True
        | _, _ => False
        end.

#[export] Instance keeps_ended_refl : Reflexive keeps_ended.
Proof. intros tasks id. destruct (tasks !! id) as [t|]; [|done]. intros _. exists (t_Title t), (t_Upstream t). by destruct t. Qed.

#[export] Instance keeps_ended_trans : Transitive keeps_ended.
Proof.
  intros m1 m2 m3 H12 H23 id. specialize (H12 id). specialize (H23 id).
  destruct (m1 !! id) as [t1|], (m2 !! id) as [t2|], (m3 !! id) as [t3|]; try done. intros Hf.
  destruct (H12 Hf) as (title & up & ->). destruct (H23 Hf) as (title' & up' & ->). by exists title', up'.
Qed.

Lemma keeps_ended_insert tasks id t t' :
  tasks !! id = Some t → (final1 (t_State t) = true → ∃ title up, t' = set_place t title up) → keeps_ended tasks (<[id := t']> tasks).
Proof.
  intros Ht Hk id'. destruct (decide (id = id')) as [<-|Hne].
  - by rewrite Ht, lookup_insert_eq.
  - rewrite lookup_insert_ne by done. by apply (reflexivity (R := keeps_ended)).
Qed.

Lemma pending_not_final t : pending_state t = true → final1 (t_State t) = false.
Proof. intros [->|Hp]%one_of_spec%elem_of_cons; [done|]. by apply list_elem_of_singleton in Hp as ->. Qed.

Lemma pending_not_failed t : pending_state t = true → failed_task t = false.
Proof. unfold failed_task. intros [->|Hp]%one_of_spec%elem_of_cons; [done|]. by apply list_elem_of_singleton in Hp as ->. Qed.

(** ** syncMembers *)

Definition wk_steady (w w' : work) : Prop :=
  same_frame w w' ∧ wk_state w' = wk_state w ∧ wk_acts w' = wk_acts w.

Lemma settled_on_board_spec t status defs reason t' :
  settled_on_board t status defs reason = Some t' → t_NodeID t' = t_NodeID t ∧ one_of (t_State t') [TaskSuccess; TaskSkipped] = true.
Proof. unfold settled_on_board. destruct (skippedOnBoard status), (Settled status defs); intros [= <-]; done. Qed.

Lemma settled_sound id t t' : t_NodeID t = id → t_NodeID t' = t_NodeID t → one_of (t_State t') [TaskSuccess; TaskSkipped] = true → sound_task id t'.
Proof.
  intros Hid Hid' Hs. apply sound_not_pending; [congruence|]. unfold pending_state. apply one_of_spec in Hs.
  apply elem_of_cons in Hs as [->|Hs]; [done|]. by apply list_elem_of_singleton in Hs as ->.
Qed.

Lemma hold_sound id t kind stage reason : t_NodeID t = id → sound_task id (hold t kind stage reason).
Proof.
  intros Hid. apply sound_not_pending.
  - unfold hold. by destruct (String.eqb stage EmptyString).
  - unfold hold, pending_state. by destruct (String.eqb stage EmptyString).
Qed.

Lemma sync_task_sound w id status t : sound_task id t → sound_task id (sync_task contentHash world w id status t).
Proof.
  intros Ht. pose proof (st_id _ _ Ht) as Hid. unfold sync_task. set (t1 := set_place t _ _).
  assert (sound_task id t1) as Ht1 by (destruct Ht; by split).
  destruct (String.eqb (t_Hold t1) HoldPerson && negb (dispatched t1) && negb (final1 (t_State t1))).
  - destruct (settled_on_board (set_hold t1 EmptyString) _ _ _) as [t2|] eqn:E; [|done].
    apply settled_on_board_spec in E as [H1 H2]. by eapply (settled_sound id (set_hold t1 EmptyString)).
  - destruct (dispatched t1 || final1 (t_State t1) || held t1); [done|]. unfold pending_member.
    destruct (settled_on_board t1 _ _ _) as [t2|] eqn:E; [apply settled_on_board_spec in E as [H1 H2]; by eapply (settled_sound id t1)|].
    destruct (negb (dispatchable _ id)).
    + destruct (one_of _ _); [by apply hold_sound|]. by apply sound_not_pending.
    + destruct (inCycle _ id); [by apply sound_not_pending|]. destruct (w_content _ id) as [body|]; [|done].
      destruct (checkContent contentHash t1 body) as [t2 same] eqn:Ec. apply checkContent_spec in Ec as (Hi & _ & Hr & Hp & _ & Hc).
      simpl. destruct same.
      * destruct Hc as (Hs & Hh & _). split; [by rewrite Hi|]. unfold pending_state, dispatched, held. rewrite Hs, Hr, Hp, Hh. apply Ht1.
      * destruct Hc as [Hs _]. apply sound_not_pending; [by rewrite Hi|]. unfold pending_state. by rewrite Hs.
Qed.

Lemma sync_task_ended w id status t : final1 (t_State t) = true →
  sync_task contentHash world w id status t = set_place t (dag_title (wk_dag w) id) (dag_up (wk_dag w) id).
Proof.
  intros Hf. unfold sync_task. set (t1 := set_place t _ _). assert (final1 (t_State t1) = true) as -> by done.
  cbn [negb]. by rewrite andb_false_r, orb_true_r.
Qed.

Lemma sync_member_spec statuses w id : sound_tasks (wk_tasks w) →
  let w' := sync_member contentHash world statuses w id in
  sound_tasks (wk_tasks w') ∧ keeps_ended (wk_tasks w) (wk_tasks w') ∧ wk_steady w w'.
Proof.
  intros Hs. unfold sync_member. destruct (wk_tasks w !! id) as [t|] eqn:Et.
  - split_and!; [by apply sound_insert; [apply sync_task_sound, Hs|]| |by split_and!].
    eapply keeps_ended_insert; [done|]. intros Hf. rewrite sync_task_ended by done. eauto.
  - split_and!; [done|done|by split_and!].
Qed.

Lemma left_goal_spec d id t : sound_task id t →
  sound_task id (left_goal d id t) ∧ (final1 (t_State t) = true → left_goal d id t = t).
Proof.
  intros Ht. unfold left_goal. destruct (bool_decide _ || _ || _ || _) eqn:E; [done|]. split; [by apply hold_sound, (st_id _ _ Ht)|].
  intros Hf. rewrite Hf, orb_true_r in E. done.
Qed.

Lemma syncMembers_spec w : sound_tasks (wk_tasks w) →
  let w' := syncMembers contentHash world w in
  sound_tasks (wk_tasks w') ∧ keeps_ended (wk_tasks w) (wk_tasks w') ∧ wk_steady w w'.
Proof.
  intros Hs. unfold syncMembers. set (statuses := ComputeStatuses _ _).
  assert (∀ ids w1, sound_tasks (wk_tasks w1) → let w' := foldl (sync_member contentHash world statuses) w1 ids in
    sound_tasks (wk_tasks w') ∧ keeps_ended (wk_tasks w1) (wk_tasks w') ∧ wk_steady w1 w') as Hfold.
  { induction ids as [|id ids IH]; intros w1 H1; [by split_and!|]. cbn [foldl].
    destruct (sync_member_spec statuses w1 id H1) as (H2 & H3 & (H4 & H5 & H6)).
    destruct (IH _ H2) as (H7 & H8 & (H9 & H10 & H11)).
    split_and!; [done|by etrans|]. split_and!; [by etrans|congruence|congruence]. }
  destruct (Hfold (dg_order (wk_dag w)) (with_added w []) Hs) as (H1 & H2 & (H3 & H4 & H5)). set (w1 := foldl _ _ _) in *.
  split_and!.
  - intros id t'. cbn [with_tasks wk_tasks]. rewrite map_lookup_imap. destruct (wk_tasks w1 !! id) as [t|] eqn:Et; [|done].
    intros [= <-]. by apply left_goal_spec, H1.
  - etrans; [exact H2|]. intros id. cbn [with_tasks wk_tasks]. rewrite map_lookup_imap.
    destruct (wk_tasks w1 !! id) as [t|] eqn:Et; [|done]. simpl. intros Hf.
    destruct (left_goal_spec (wk_dag w1) id t (H1 id t Et)) as [_ Hk]. rewrite (Hk Hf). exists (t_Title t), (t_Upstream t). by destruct t.
  - split_and!; [|done|done]. destruct H3. by split.
Qed.

(** ** refresh *)

(** A try that stands approved, as [observe] and [derive] have it. *)
Definition approved_try (w : work) (t : TaskInstance) (d : derived) : Prop :=
  ∃ obs, observe (now_world world w) t = Ok obs ∧ d = derive obs (wk_now w) ∧ dv_phase d = phaseApproved.

(** What merging a task's pull request took. *)
Definition merge_allowed (w : work) (t : TaskInstance) (run head : string) : Prop :=
  let pol := ap_Policy (wk_rec w) in
  let wd := now_world world w in
  ∃ d obs pr, approved_try w t d ∧ dv_ci d = CISuccess ∧ po_AutoMerge pol = true ∧
    observe wd (setState (with_derived t d) TaskRunning StageMerge EmptyString) = Ok obs ∧
    ob_prRun obs = Some pr ∧ run_ID pr = run ∧ run_PRHeadSHA pr = head ∧
    (humanReview pol = true ∨
     (t_Hold t = HoldSensitive ∧ t_HumanVerdict t = VerdictApprove) ∨
     mergeHold wd obs = EmptyString).

(** The acts of one task's reading. *)
Definition reading_act (w : work) (t : TaskInstance) (a : Act) : Prop :=
  match a with
  | AMerge run head => merge_allowed w t run head
  | ASetStatus node status _ _ => node = t_NodeID t ∧ status = StatusDone ∧
      ∃ obs, observe (now_world world w) t = Ok obs ∧
        let d := derive obs (wk_now w) in
        dv_phase d = phaseMerged ∨ (dv_phase d = phaseApproved ∧ po_AutoMerge (ap_Policy (wk_rec w)) = false)
  | _ => False
  end.

Record reading (w : work) (t : TaskInstance) (w' : work) (t' : TaskInstance) : Prop := {
  rg_id : t_NodeID t' = t_NodeID t;
  rg_state : one_of (t_State t') [TaskNone; TaskScheduled; TaskUpstreamFailed; TaskSkipped] = false;
  rg_frame : same_frame w w';
  rg_tasks : wk_tasks w' = wk_tasks w;
  rg_acts : wk_acts w' = wk_acts w ∨ ∃ a, wk_acts w' = wk_acts w ++ [a] ∧ reading_act w t a;
}.

Lemma markBoard_spec w node status note :
  same_frame w (markBoard world w node status note) ∧ wk_tasks (markBoard world w node status note) = wk_tasks w ∧
  (wk_acts (markBoard world w node status note) = wk_acts w ∨
   ∃ by_, wk_acts (markBoard world w node status note) = wk_acts w ++ [ASetStatus node status by_ note]).
Proof.
  unfold markBoard. case_bool_decide; [split_and!; [done|done|by left]|].
  destruct (w_setStatus _ _ _); (split_and!; [by split|done|right; by eexists]).
Qed.

Lemma observe_setState wd t state stage reason : observe wd (setState t state stage reason) = observe wd t.
Proof. done. Qed.

Lemma act_spec w t0 obs :
  observe (now_world world w) t0 = Ok obs →
  let d := derive obs (wk_now w) in
  let '(w', t', _) := act world w (with_derived t0 d) d (dv_stages d) in reading w t0 w' t'.
Proof.
  intros Hobs d. assert (∀ stages, let '(w', t', _) := act world w (with_derived t0 d) d stages in reading w t0 w' t') as Hall; [|apply Hall].
  intros stages. unfold act. destruct (dv_phase d) eqn:Ep.
  1,2: repeat case_match; by split; try (by left).
  - unfold act_approved, pipelineHandlesHuman. rewrite andb_false_r. cbn [andb]. destruct (po_AutoMerge _) eqn:Ea; cbn [negb].
    2: { destruct (markBoard_spec w (t_NodeID (with_derived t0 d)) StatusDone ("approved by the autopilot; PR " +:+ t_PRURL (with_derived t0 d)))
           as (Hf & Ht & Hacts). split; try done. destruct Hacts as [?|[by_ ->]]; [by left|right]. eexists. split; [done|].
         split_and!; [done|done|]. exists obs. split; [done|]. by right. }
    set (person := String.eqb _ _ && String.eqb _ _).
    destruct (String.eqb_spec (if humanReview (ap_Policy (wk_rec w)) || person then EmptyString else holdFor (now_world world w) (with_derived t0 d)) EmptyString)
      as [Hwhy|_]; cbn [negb]; [|by split; try (by left)].
    destruct (String.eqb (dv_ci d) CIFailure); [by split; try (by left)|].
    destruct (String.eqb_spec (dv_ci d) CISuccess) as [Hci|]; cbn [negb]; [|by split; try (by left)].
    unfold merge. rewrite observe_setState. destruct (observe (now_world world w) (with_derived t0 d)) as [obs'| | |] eqn:Eo; try by split; try (by left).
    destruct (ob_prRun obs') as [pr|] eqn:Epr; [|by split; try (by left)].
    destruct (one_of _ [MergePending; MergeDone]); [by split; try (by left)|].
    destruct (String.eqb _ MergeFailed); [by split; try (by left)|].
    assert (merge_allowed w t0 (run_ID pr) (run_PRHeadSHA pr)) as Hallow.
    { exists d, obs', pr. split_and!; try done; [by exists obs|].
      destruct (humanReview (ap_Policy (wk_rec w))) eqn:Eh; [by left|right]. destruct person eqn:Epe.
      - left. unfold person in Epe. apply andb_true_iff in Epe as [?%String.eqb_eq ?%String.eqb_eq]. done.
      - right. simpl in Hwhy. unfold holdFor in Hwhy. by rewrite Eo in Hwhy. }
    destruct (w_merge _ _ _); (split; try done; right; eexists; split; [done|exact Hallow]).
  - unfold done. destruct (markBoard_spec w (t_NodeID (with_derived t0 d)) StatusDone ("autopilot: merged " +:+ t_PRURL (with_derived t0 d)))
      as (Hf & Ht & Hacts). split; try done. destruct Hacts as [?|[by_ ?]]; [by left|right]. eexists. split; [done|].
    split_and!; [done|done|]. exists obs. split; [done|]. by left.
  - by split; try (by left).
Qed.

Lemma refresh_task_spec w id : sound_tasks (wk_tasks w) →
  let w' := refresh_task world w id in
  sound_tasks (wk_tasks w') ∧ keeps_ended (wk_tasks w) (wk_tasks w') ∧ same_frame w w' ∧
  (∀ id', id' ≠ id → wk_tasks w' !! id' = wk_tasks w !! id') ∧
  (wk_acts w' = wk_acts w ∨ ∃ a t, wk_tasks w !! id = Some t ∧ final1 (t_State t) = false ∧
     wk_acts w' = wk_acts w ++ [a] ∧ reading_act w t a).
Proof.
  intros Hs. unfold refresh_task. destruct (wk_tasks w !! id) as [t|] eqn:Et; [|by split_and!; try (by left)].
  destruct (negb (dispatched t) || final1 (t_State t)) eqn:Ed; [by split_and!; try (by left)|].
  apply orb_false_iff in Ed as [_ Hf].
  destruct (observe (now_world world w) t) as [obs| | |] eqn:Eo; try by split_and!; try (by left).
  pose proof (act_spec w t obs Eo) as Hact. cbv zeta in Hact. destruct (act world w _ _ _) as [[w1 t1] stages].
  destruct Hact as [Hid Hstate Hframe Htasks Hacts]. cbv zeta.
  set (t2 := set_stages t1 _). set (t3 := if String.eqb (t_Stage t2) EmptyString then _ else _).
  assert (t_NodeID t3 = t_NodeID t1 ∧ t_State t3 = t_State t1) as [H3 H4] by (unfold t3; by destruct (String.eqb _ _)).
  split_and!.
  - cbn [put_task with_tasks wk_tasks]. rewrite Htasks. apply sound_insert; [|done]. apply sound_not_pending; [rewrite H3, Hid; by apply Hs|].
    unfold pending_state. rewrite H4. destruct (one_of (t_State t1) [TaskNone; TaskScheduled]) eqn:E; [|done].
    apply one_of_spec in E. apply not_true_iff_false in Hstate. exfalso. apply Hstate, one_of_spec. set_solver.
  - cbn [put_task with_tasks wk_tasks]. rewrite Htasks. eapply keeps_ended_insert; [done|]. by rewrite Hf.
  - destruct Hframe. by split.
  - intros id' Hne. cbn [put_task with_tasks wk_tasks]. rewrite Htasks. by rewrite lookup_insert_ne.
  - destruct Hacts as [?|(a & ? & ?)]; [by left|right]. by exists a, t.
Qed.

(** What the acts of a whole reading come from: each from one task, as it was
    when the reading began. *)
Definition read_from (w0 : work) (a : Act) : Prop :=
  ∃ w1 id t, same_frame w0 w1 ∧ wk_tasks w0 !! id = Some t ∧ final1 (t_State t) = false ∧ reading_act w1 t a.

Lemma refresh_spec w : sound_tasks (wk_tasks w) →
  let w' := refresh world w in
  sound_tasks (wk_tasks w') ∧ keeps_ended (wk_tasks w) (wk_tasks w') ∧ same_frame w w' ∧
  ∃ acts, wk_acts w' = wk_acts w ++ acts ∧ ∀ a, a ∈ acts → read_from w a.
Proof.
  intros Hs. unfold refresh.
  assert (∀ ids w1, NoDup ids → sound_tasks (wk_tasks w1) → same_frame w w1 →
    (∀ id, id ∈ ids → wk_tasks w1 !! id = wk_tasks w !! id) →
    let w' := foldl (refresh_task world) w1 ids in
    sound_tasks (wk_tasks w') ∧ keeps_ended (wk_tasks w1) (wk_tasks w') ∧ same_frame w1 w' ∧
    ∃ acts, wk_acts w' = wk_acts w1 ++ acts ∧ ∀ a, a ∈ acts → read_from w a) as Hfold.
  { induction ids as [|id ids IH]; intros w1 Hnd H1 Hfr Hsame.
    - split_and!; try done. exists []. split; [by rewrite app_nil_r|]. by intros a ?%elem_of_nil.
    - apply NoDup_cons in Hnd as [Hni Hnd]. cbn [foldl].
      destruct (refresh_task_spec w1 id H1) as (H2 & H3 & H4 & H5 & H6).
      destruct (IH (refresh_task world w1 id) Hnd H2) as (H7 & H8 & H9 & (acts & Ha & Hr)); [by etrans| |].
      { intros id' Hid'. rewrite H5; [apply Hsame; by right|]. by intros ->. }
      split_and!; [done|by etrans|by etrans|].
      destruct H6 as [H6|(a & t & Ht & Hf & H6 & Hread)].
      + exists acts. rewrite Ha, H6. done.
      + exists (a :: acts). rewrite Ha, H6. split; [by rewrite <- (assoc_L (++))|]. intros b [->|Hb]%elem_of_cons; [|auto].
        exists w1, id, t. split_and!; try done. by rewrite <- Hsame by (by left). }
  apply (Hfold (sortedIDs (wk_tasks w)) w); try done. unfold sortedIDs, sort_strings.
  rewrite merge_sort_Permutation. apply NoDup_fst_map_to_list.
Qed.

(** ** propagateFailures *)

Definition pending_count (w : work) : Z := count pending_state (wk_tasks w).

(** A task that failed because another did. *)
Definition blamed (w0 w : work) : Prop :=
  ∀ id, match wk_tasks w0 !! id, wk_tasks w !! id with
        | Some t0, Some t => t = t0 ∨
            (pending_state t0 = true ∧ t_State t = TaskUpstreamFailed ∧ t_NodeID t = t_NodeID t0 ∧ t_RunID t = t_RunID t0 ∧
             ∃ up u, up ∈ dag_up (wk_dag w0) id ∧ wk_tasks w !! up = Some u ∧ failed_task u = true)
        | None, None => True
        | _, _ => False
        end.

Lemma failed_upstream_spec w id : match failed_upstream w id with
  | Some u => ∃ up, up ∈ dag_up (wk_dag w) id ∧ wk_tasks w !! up = Some u ∧ failed_task u = true
  | None => ∀ up u, up ∈ dag_up (wk_dag w) id → wk_tasks w !! up = Some u → failed_task u = false
  end.
Proof.
  unfold failed_upstream. destruct (head _) as [u|] eqn:Eh.
  - apply head_Some_elem_of in Eh. apply list_elem_of_omap in Eh as (up & Hup & Hu).
    destruct (wk_tasks w !! up) as [u'|] eqn:E; [|done]. destruct (failed_task u') eqn:Ef; [|done]. injection Hu as ->. by exists up.
  - intros up u Hup Hu. apply head_None in Eh. destruct (failed_task u) eqn:Ef; [|done]. exfalso.
    assert (u ∈ omap (M:=list) (λ up, match wk_tasks w !! up with Some u => if failed_task u then Some u else None | None => None end)
      (dag_up (wk_dag w) id)) as Hin; [|rewrite Eh in Hin; by apply elem_of_nil in Hin].
    apply list_elem_of_omap. exists up. split; [done|]. by rewrite Hu, Ef.
Qed.

Record blaming (w0 w : work) : Prop := {
  bl_steady : wk_steady w0 w;
  bl_sound : sound_tasks (wk_tasks w);
  bl_blamed : blamed w0 w;
}.

Lemma blaming_start w : sound_tasks (wk_tasks w) → blaming w w.
Proof. intros Hs. split; [by split_and!|done|]. intros id. destruct (wk_tasks w !! id); [by left|done]. Qed.

(** One round over some ids: it fails a task more, or changes nothing and has
    found no failed task upstream of a pending one. *)
Lemma propagate_step w0 w changed id :
  blaming w0 w →
  let st := propagate_one (w, changed) id in
  blaming w0 st.1 ∧
  ((st = (w, changed) ∧ ∀ t, wk_tasks w !! id = Some t → pending_state t = true → failed_upstream w id = None) ∨
   (st.2 = true ∧ pending_count st.1 < pending_count w)).
Proof.
  intros Hb. unfold propagate_one. cbn [fst snd]. destruct (wk_tasks w !! id) as [t|] eqn:Et; [|by split; [|left]].
  destruct (pending_state t) eqn:Ep; cbn [negb]; [|split; [done|left; split; [done|]; intros t' [= <-]; by rewrite Ep]].
  pose proof (failed_upstream_spec w id) as Hup. destruct (failed_upstream w id) as [u|] eqn:Eu; [|by split; [|left]].
  destruct Hup as (up & Hin & Hu & Hfail). set (t' := setState t TaskUpstreamFailed _ _). cbn [fst snd].
  destruct Hb as [(Hfr & Hst & Hacts) Hs Hbl]. split; [split|right].
  - split_and!; [|done|done]. destruct Hfr. by split.
  - apply sound_insert; [|done]. apply sound_not_pending; [|done]. exact (st_id _ _ (Hs id t Et)).
  - intros id'. specialize (Hbl id'). cbn [put_task with_tasks wk_tasks].
    assert (∀ x y, wk_tasks w !! x = Some y → failed_task y = true → <[id := t']> (wk_tasks w) !! x = Some y) as Hpersist.
    { intros x y Hx Hy. rewrite lookup_insert_ne; [done|]. intros <-. rewrite Et in Hx. injection Hx as ->.
      by rewrite (pending_not_failed _ Ep) in Hy. }
    destruct (decide (id = id')) as [<-|Hne].
    + rewrite lookup_insert_eq. rewrite Et in Hbl. destruct (wk_tasks w0 !! id) as [t0|] eqn:E0; [|done].
      destruct Hbl as [->|(_ & Hstate & _)]; [|unfold pending_state in Ep; rewrite Hstate in Ep; done].
      right. split_and!; [done..|]. exists up, u. split_and!; [by rewrite <- (sf_dag _ _ Hfr)|by apply Hpersist|done].
    + rewrite lookup_insert_ne by done. destruct (wk_tasks w0 !! id') as [t0|], (wk_tasks w !! id') as [t1|]; try done.
      destruct Hbl as [?|(? & ? & ? & ? & up' & u' & ? & ? & ?)]; [by left|right]. split_and!; try done. exists up', u'. split_and!; auto.
  - split; [done|]. unfold pending_count. cbn [put_task with_tasks wk_tasks]. rewrite (count_insert _ _ _ t) by done. rewrite Ep.
    assert (pending_state t' = false) as -> by done. simpl. lia.
Qed.

Lemma propagate_round w0 ids w changed :
  blaming w0 w →
  let st := foldl propagate_one (w, changed) ids in
  blaming w0 st.1 ∧ pending_count st.1 ≤ pending_count w ∧
  ((st = (w, changed) ∧ ∀ id t, id ∈ ids → wk_tasks w !! id = Some t → pending_state t = true → failed_upstream w id = None) ∨
   (st.2 = true ∧ pending_count st.1 < pending_count w)).
Proof.
  revert w changed. induction ids as [|id ids IH]; intros w changed Hb; [split_and!; [done|done|left; split; [done|set_solver]]|].
  cbn [foldl]. destruct (propagate_step w0 w changed id Hb) as [Hb1 Hcase]. destruct (propagate_one (w, changed) id) as [w1 c1] eqn:E1.
  cbn [fst snd] in Hb1, Hcase. destruct (IH w1 c1 Hb1) as (Hb2 & Hle & Hcase2). destruct Hcase as [[[= -> ->] Hid]|[Hc1 Hlt]].
  - split_and!; [done|done|]. destruct Hcase2 as [[Heq Hids]|?]; [left|by right]. split; [done|].
    intros id' t [->|Hin]%elem_of_cons; [apply Hid|by apply Hids].
  - simpl in Hc1. subst c1. split_and!; [done|lia|right]. destruct Hcase2 as [[Heq _]|[? ?]]; [|split; [done|lia]].
    rewrite Heq. cbn [fst snd]. split; [done|lia].
Qed.

Lemma propagate_spec w0 fuel w :
  blaming w0 w → pending_count w ≤ Z.of_nat fuel →
  let w' := propagate fuel w in
  blaming w0 w' ∧ ∀ id t, id ∈ dg_order (wk_dag w') → wk_tasks w' !! id = Some t → pending_state t = true → failed_upstream w' id = None.
Proof.
  revert w. induction fuel as [|fuel IH]; intros w Hb Hf; cbn [propagate];
    destruct (propagate_round w0 (dg_order (wk_dag w)) w false Hb) as (Hb1 & Hle & Hcase);
    destruct (foldl propagate_one (w, false) (dg_order (wk_dag w))) as [w1 c1]; cbn [fst snd] in *.
  - destruct Hcase as [[[= -> ->] Hall]|[_ Hlt]]; [by split|]. exfalso. unfold pending_count, count in *. lia.
  - destruct Hcase as [[[= -> ->] Hall]|[-> Hlt]]; [by split|]. apply IH; [done|lia].
Qed.

Lemma pending_count_size w : pending_count w ≤ Z.of_nat (size (wk_tasks w)).
Proof.
  unfold pending_count, count. rewrite <- length_map_to_list, <- (length_fmap snd). apply inj_le.
  induction (map_to_list (wk_tasks w)).*2 as [|t ts IH]; simpl; [done|]. destruct (pending_state t); simpl; lia.
Qed.

Lemma propagateFailures_spec w : sound_tasks (wk_tasks w) →
  let w' := propagateFailures w in
  blaming w w' ∧ ∀ id t, id ∈ dg_order (wk_dag w') → wk_tasks w' !! id = Some t → pending_state t = true → failed_upstream w' id = None.
Proof. intros Hs. apply propagate_spec; [by apply blaming_start|apply pending_count_size]. Qed.

Lemma blamed_keeps w0 w : blamed w0 w → keeps_ended (wk_tasks w0) (wk_tasks w).
Proof.
  intros Hb id. specialize (Hb id). destruct (wk_tasks w0 !! id) as [t0|], (wk_tasks w !! id) as [t|]; try done.
  intros Hf. destruct Hb as [->|(Hp & _)]; [|by rewrite pending_not_final in Hf].
  exists (t_Title t0), (t_Upstream t0). by destruct t0.
Qed.

(** ** The end of a pass *)

Lemma finishIfDone_spec w :
  let w' := finishIfDone world w in
  wk_tasks w' = wk_tasks w ∧
  (∀ run head, AMerge run head ∈ wk_acts w' → AMerge run head ∈ wk_acts w) ∧
  (ap_Status (wk_rec w') ≠ ap_Status (wk_rec w) →
   (∀ id t, wk_tasks w !! id = Some t → final1 (t_State t) = true) ∧
   if bool_decide (count failed_task (wk_tasks w) = 0) then ap_Status (wk_rec w') = AutopilotSucceeded
   else ap_Status (wk_rec w') = AutopilotFailed).
Proof.
  unfold finishIfDone. destruct (bool_decide (wk_tasks w = ∅) || negb (all_final w)) eqn:E; [split_and!; try done; congruence|].
  apply orb_false_iff in E as [_ Hall%negb_false_iff].
  assert (∀ id t, wk_tasks w !! id = Some t → final1 (t_State t) = true) as Hfinal.
  { intros id t Ht. unfold all_final in Hall. rewrite forallb_forall in Hall. apply Hall, list_elem_of_In, map_to_list_2. by exists id. }
  destruct (0 <? count_failed w)%nat eqn:Ec.
  - split_and!; try done. intros _. split; [done|]. rewrite bool_decide_eq_false_2; [done|].
    apply Nat.ltb_lt in Ec. unfold count, count_failed in *. lia.
  - apply Nat.ltb_ge in Ec. assert (bool_decide (count failed_task (wk_tasks w) = 0) = true) as Hc
      by (apply bool_decide_eq_true; unfold count, count_failed in *; lia).
    destruct (nonempty (wk_added w)); [split_and!; try done; intros _; split; [done|by rewrite Hc]|].
    match goal with |- context [markBoard world ?w1 ?n ?s ?note] => destruct (markBoard_spec w1 n s note) as (Hf & Ht & Ha) end.
    cbv zeta. split_and!.
    + rewrite Ht. done.
    + intros run head. destruct Ha as [->|[by_ ->]]; [done|]. intros [?|?%list_elem_of_singleton]%elem_of_app; done.
    + intros _. split; [done|]. rewrite Hc, (sf_rec _ _ Hf). done.
Qed.

(** ** What a merge nobody reviewed has been checked for *)

(** The runs of a try that change files. *)
Definition changing (obs : observation) (r : RunRecord) : Prop := r ∈ ob_runs obs ∧ run_Kind r ∈ [JobImplement; JobRevise].

Lemma see_runs_spec wd runs sc sc' :
  see_runs wd runs sc = inr sc' →
  (∀ p, p ∈ sc_touched sc → p ∈ sc_touched sc') ∧
  (∀ r, r ∈ runs → run_Kind r ∈ [JobImplement; JobRevise] → ∃ changes, w_changes wd (run_ID r) = Some changes ∧
     ∀ ch, changes = Some ch → (length (rc_Files ch) < MaxChangedFiles)%nat ∧
       ∀ p, p ∈ change_paths (rc_Files ch) → SensitivePath p = true → p ∈ sc_touched sc') ∧
  (∀ c, c ∈ sc_commits sc' → c ∈ sc_commits sc ∨
     ∃ r ch, r ∈ runs ∧ run_Kind r ∈ [JobImplement; JobRevise] ∧ w_changes wd (run_ID r) = Some (Some ch) ∧ rc_Commit ch = c) ∧
  (sc_reported sc' = true → sc_reported sc = true ∨
     ∃ r ch, r ∈ runs ∧ run_Kind r ∈ [JobImplement; JobRevise] ∧ w_changes wd (run_ID r) = Some (Some ch)).
Proof.
  revert sc. induction runs as [|r runs IH]; intros sc; cbn [see_runs].
  - intros [= <-]. split_and!; [done|by intros r ?%elem_of_nil|by left|by left].
  - destruct (one_of (run_Kind r) [JobImplement; JobRevise]) eqn:Ek; cbn [negb].
    2: { intros (H1 & H2 & H3 & H4)%IH. split_and!; [done| | |].
         - intros r' [->|Hr]%elem_of_cons Hk; [|by apply H2]. apply one_of_spec in Hk. congruence.
         - intros c Hc. destruct (H3 c Hc) as [?|(r' & ch & ? & ?)]; [by left|right]. exists r', ch. split; [by right|done].
         - intros Hr. destruct (H4 Hr) as [?|(r' & ch & ? & ?)]; [by left|right]. exists r', ch. split; [by right|done]. }
    apply one_of_spec in Ek. destruct (w_changes wd (run_ID r)) as [[ch|]|] eqn:Ew; [| |done].
    + destruct (MaxChangedFiles <=? length (rc_Files ch))%nat eqn:El; [done|]. apply Nat.leb_gt in El. intros (H1 & H2 & H3 & H4)%IH.
      assert (∀ ps out, (∀ p, p ∈ out → p ∈ foldl (λ out p, if SensitivePath p && negb (one_of p out) then out ++ [p] else out) out ps) ∧
        ∀ p, p ∈ ps → SensitivePath p = true → p ∈ foldl (λ out p, if SensitivePath p && negb (one_of p out) then out ++ [p] else out) out ps) as Hfold.
      { induction ps as [|q ps IHp]; intros out; [split; [done|set_solver]|]. cbn [foldl].
        destruct (IHp (if SensitivePath q && negb (one_of q out) then out ++ [q] else out)) as [Ha Hb]. split.
        - intros p Hp. apply Ha. destruct (_ && _); [apply elem_of_app; by left|done].
        - intros p [->|Hp]%elem_of_cons Hsp; [|by apply Hb]. apply Ha. rewrite Hsp. cbn [andb].
          destruct (one_of q out) eqn:Eq; cbn [negb]; [by apply one_of_spec in Eq|]. apply elem_of_app. right. by left. }
      destruct (Hfold (change_paths (rc_Files ch)) (sc_touched sc)) as [Ha Hb]. split_and!.
      * intros p Hp. apply H1. by apply Ha.
      * intros r' [->|Hr]%elem_of_cons Hk; [|by apply H2]. exists (Some ch). split; [done|]. intros ch' [= <-]. split; [done|].
        intros p Hp Hsp. apply H1. by apply Hb.
      * intros c Hc. destruct (H3 c Hc) as [Hin|(r' & ch' & ? & ?)].
        -- simpl in Hin. destruct (String.eqb (rc_Commit ch) EmptyString); [by left|].
           apply elem_of_app in Hin as [?|Hin%list_elem_of_singleton]; [by left|right]. exists r, ch. split_and!; [by left|done|done|done].
        -- right. exists r', ch'. split; [by right|done].
      * intros _. right. exists r, ch. split_and!; [by left|done|done].
    + intros (H1 & H2 & H3 & H4)%IH. split_and!; [done| | |].
      * intros r' [->|Hr]%elem_of_cons Hk; [|by apply H2]. exists None. done.
      * intros c Hc. destruct (H3 c Hc) as [?|(r' & ch & ? & ?)]; [by left|right]. exists r', ch. split; [by right|done].
      * intros Hr. destruct (H4 Hr) as [?|(r' & ch & ? & ?)]; [by left|right]. exists r', ch. split; [by right|done].
Qed.

(** Nothing sensitive was changed, every change is known, and the head is a
    commit the try made. *)
Definition checked_changes (wd : World) (obs : observation) (head : string) : Prop :=
  (∀ r, changing obs r → ∃ changes, w_changes wd (run_ID r) = Some changes ∧
     ∀ ch, changes = Some ch → (length (rc_Files ch) < MaxChangedFiles)%nat ∧ ∀ p, p ∈ change_paths (rc_Files ch) → SensitivePath p = false) ∧
  (∃ r ch, changing obs r ∧ w_changes wd (run_ID r) = Some (Some ch)) ∧
  (head = EmptyString ∨ ∃ r ch, changing obs r ∧ w_changes wd (run_ID r) = Some (Some ch) ∧ rc_Commit ch = head).

Lemma mergeHold_spec wd obs pr :
  mergeHold wd obs = EmptyString → ob_prRun obs = Some pr → checked_changes wd obs (run_PRHeadSHA pr).
Proof.
  unfold mergeHold. intros Hm Hpr. rewrite Hpr in Hm. destruct (see_runs wd (ob_runs obs) (mkSeen [] [] false)) as [why|sc] eqn:Es.
  - exfalso. clear -Es Hm. subst why. revert Es. generalize (mkSeen [] [] false). induction (ob_runs obs) as [|r rs IH]; intros sc; cbn [see_runs]; [done|].
    destruct (negb _); [apply IH|]. destruct (w_changes wd (run_ID r)) as [[ch|]|]; [|apply IH|done].
    destruct (_ <=? _)%nat; [done|apply IH].
  - apply see_runs_spec in Es as (_ & H2 & H3 & H4). destruct (sc_reported sc); [|done]. cbn [negb] in Hm.
    destruct (negb (String.eqb (run_PRHeadSHA pr) EmptyString) && negb (one_of (run_PRHeadSHA pr) (sc_commits sc))) eqn:Eh; [done|].
    destruct (sc_touched sc) as [|p ps] eqn:Et; [|done]. split_and!.
    + intros r [Hr Hk]. destruct (H2 r Hr Hk) as (changes & Hc & Hch). exists changes. split; [done|].
      intros ch Heq. destruct (Hch ch Heq) as [? Hp]. split; [done|]. intros q Hq. apply not_true_iff_false. intros Hsp.
      by apply (Hp q Hq), elem_of_nil in Hsp.
    + destruct (H4 eq_refl) as [?|(r & ch & Hr & Hk & Hc)]; [done|]. exists r, ch. done.
    + apply andb_false_iff in Eh as [Eh|Eh]; apply negb_false_iff in Eh; [left; by apply String.eqb_eq|right].
      apply one_of_spec in Eh. destruct (H3 _ Eh) as [?%elem_of_nil|(r & ch & Hr & Hk & Hc & He)]; [done|]. by exists r, ch.
Qed.

Lemma derive_approved obs stamp :
  dv_phase (derive obs stamp) = phaseApproved →
  match ob_pipeline obs with
  | Some p => pr_Status p = PipelineApproved
  | None => ∃ r, last (ob_runs obs) = Some r ∧ run_Status r = RunSucceeded ∧ run_PRURL r ≠ EmptyString
  end.
Proof.
  unfold derive. destruct (ob_runs obs) as [|first rest] eqn:Er; [done|]. set (latest := List.last _ _). set (st := stamp_of _ _).
  destruct (review_rounds _ _ _) as [[votes reviews] reviewing].
  assert (∀ ph, (merge_outcome obs st ph).1 = phaseApproved → ph = phaseApproved) as Hmerge.
  { intros ph. unfold merge_outcome. destruct (pr_run obs) as [r|]; [|done]. destruct (String.eqb _ _); [done|].
    destruct (run_Merge r) as [m|]; [|done]. destruct (String.eqb _ MergePending); [done|]. by destruct (String.eqb _ MergeDone). }
  destruct (ob_pipeline obs) as [p|].
  - destruct (pipeline_outcome st p) as [[[ph reason] human] hs] eqn:Ep. destruct (merge_outcome obs st ph) as [ph' merges] eqn:Em.
    intros Hph. simpl in Hph. subst ph'. specialize (Hmerge ph). rewrite Em in Hmerge. rewrite (Hmerge eq_refl) in Ep.
    unfold pipeline_outcome in Ep. destruct (String.eqb_spec (pr_Status p) PipelineApproved); [done|]. by repeat case_match.
  - destruct (run_outcome latest) as [ph reason] eqn:Ep. destruct (merge_outcome obs st ph) as [ph' merges] eqn:Em.
    intros Hph. simpl in Hph. subst ph'. specialize (Hmerge ph). rewrite Em in Hmerge. rewrite (Hmerge eq_refl) in Ep.
    exists latest. split.
    + unfold latest. generalize first at 3. clear. revert first. induction rest as [|x rest IH]; intros first first'; [done|]. apply IH.
    + unfold run_outcome in Ep. destruct (RunFinal _); [|done]. cbn [negb] in Ep.
      destruct (String.eqb_spec (run_Status latest) RunSucceeded); [|done]. cbn [negb] in Ep.
      destruct (String.eqb_spec (run_PRURL latest) EmptyString); [|done]. cbn [negb] in Ep. by repeat case_match.
Qed.
End Pass.
