(* ===== verification/PassFacts.v ===== *)
(** A pass of the autopilot as a whole: the tasks stay in order, the slots in
    use never pass the policy's limit, and every act of the pass is accounted
    for, with the goal flow's phases too.

    What the goal flow guarantees of each of its phases, and of a whole pass:
    it works only a running autopilot, starts only what is due, merges nothing
    itself and keeps to the policy's slots. *)

From S2P Require Import Prelude GoStr GoFloat GoTime Dsl Graph NodeTypes Workflow Roles State Readiness Dag DagFacts Runs TaskRun AutoPolicy Autopilot GoalFlow AutopilotFacts.
From Stdlib Require Import Ascii.
Open Scope Z_scope.

(** * Tasks between two moments *)

(** Shaped, and with no blank run id. *)
Definition real_run (t : TaskInstance) : Prop := t_RunID t = EmptyString ∨ trim_space (t_RunID t) ≠ EmptyString.

Definition neat (t : TaskInstance) : Prop := shaped t ∧ real_run t.

Definition ordered (tasks : gmap string TaskInstance) : Prop := sound_tasks tasks ∧ map_Forall (λ _, neat) tasks.

(** No slot is taken and no try is forgotten. *)
Definition calm (t t' : TaskInstance) : Prop :=
  (active t' = true → active t = true) ∧ (dispatched t = true → dispatched t' = true).

#[export] Instance calm_refl : Reflexive calm.
Proof. by split. Qed.

#[export] Instance calm_trans : Transitive calm.
Proof. intros x y z [] []. split; auto. Qed.

(** Tasks are only added, idle ones, and the others stay calm. *)
Record calmly (m m' : gmap string TaskInstance) : Prop := {
  ca_old : ∀ id t, m !! id = Some t → ∃ t', m' !! id = Some t' ∧ calm t t';
  ca_new : ∀ id t', m !! id = None → m' !! id = Some t' → active t' = false;
}.

#[export] Instance calmly_refl : Reflexive calmly.
Proof. intros m. split; [intros id t Ht; by exists t|congruence]. Qed.

#[export] Instance calmly_trans : Transitive calmly.
Proof.
  intros m1 m2 m3 [Ho Hn] [Ho' Hn']. split.
  - intros id t (t1 & H1 & Hc)%Ho. apply Ho' in H1 as (t2 & H2 & Hc'). exists t2. split; [done|]. by etrans.
  - intros id t' H1 H3. destruct (m2 !! id) as [t2|] eqn:H2; [|eauto]. destruct (Ho' id t2 H2) as (t3 & H3' & Hc & _).
    rewrite H3 in H3'. injection H3' as <-. specialize (Hn id t2 H1 H2). destruct (active t'); [|done]. by rewrite Hc in Hn.
Qed.

Lemma calmly_insert m id t t' : m !! id = Some t → calm t t' → calmly m (<[id := t']> m).
Proof.
  intros Ht Hc. split.
  - intros id' t0 H0. destruct (decide (id = id')) as [<-|Hne].
    + exists t'. rewrite lookup_insert_eq. split; [done|]. congruence.
    + exists t0. by rewrite lookup_insert_ne.
  - intros id' t0 H0. rewrite lookup_insert_ne by (intros ->; congruence). by rewrite H0.
Qed.

(** ** Counting *)

Lemma count_size f (m : gmap string TaskInstance) : count f m = Z.of_nat (size (filter (λ kv, f kv.2 = true) m)).
Proof.
  induction m as [|id t m Hn IH] using map_ind; [done|]. unfold count in *.
  rewrite (filter_length_perm f _ (t :: (map_to_list m).*2)) by by rewrite map_to_list_insert.
  simpl. destruct (f t) eqn:E; simpl.
  - rewrite map_filter_insert_True by done. rewrite map_size_insert_None; [lia|]. apply map_lookup_filter_None. by left.
  - rewrite map_filter_insert_False by (simpl; congruence). rewrite delete_id by done. lia.
Qed.

(** Counts compare by the ids that count. *)
Lemma count_le f (m m' : gmap string TaskInstance) :
  (∀ id t', m' !! id = Some t' → f t' = true → ∃ t, m !! id = Some t ∧ f t = true) → count f m' ≤ count f m.
Proof.
  intros Hall. rewrite !count_size. apply inj_le. rewrite <- !(size_dom (D := gset string)). apply subseteq_size.
  intros id. rewrite !elem_of_dom. intros [t' [H1 H2]%map_lookup_filter_Some]. destruct (Hall id t' H1 H2) as (t & Ht & Hf).
  exists t. by apply map_lookup_filter_Some.
Qed.

Lemma calmly_count m m' : calmly m m' → count active m' ≤ count active m.
Proof.
  intros [Ho Hn]. apply count_le. intros id t' Ht' Ha. destruct (m !! id) as [t|] eqn:Ht.
  - exists t. split; [done|]. destruct (Ho id t Ht) as (t1 & H1 & Hc & _). naive_solver.
  - by rewrite (Hn id t' Ht Ht') in Ha.
Qed.

Lemma ordered_insert tasks id t : sound_task id t → neat t → ordered tasks → ordered (<[id := t]> tasks).
Proof. intros H1 H2 [H3 H4]. split; by apply map_Forall_insert_2. Qed.

(** What becomes of one task: still neat, and calm. *)
Definition settles (t t' : TaskInstance) : Prop := neat t' ∧ calm t t'.

Lemma settles_refl t : neat t → settles t t.
Proof. by split. Qed.

Lemma settles_still t t' : real_run t → t_State t' ∈ still → t_RunID t' = t_RunID t → t_PipelineID t' = t_PipelineID t → settles t t'.
Proof.
  intros Hreal Hs Hr Hp. split; [split; [by apply shaped_still|unfold real_run; by rewrite Hr]|]. split; [|unfold dispatched; by rewrite Hr, Hp].
  unfold active. intros [_ Ha]%andb_true_iff. exfalso. unfold still in Hs.
  repeat (apply elem_of_cons in Hs as [Hs|Hs]; [by rewrite Hs in Ha|]). by apply elem_of_nil in Hs.
Qed.

(** A hold on a task that no try works takes no slot. *)
Lemma settles_held t t' : real_run t' → t_State t' = TaskWaitingHuman → held t' = true → dispatched t = false → dispatched t' = false →
  settles t t'.
Proof.
  intros Hreal Hs Hh Hd Hd'. split; [split; [by apply shaped_held|done]|]. split; [unfold active; by rewrite Hh, Hd'|by rewrite Hd].
Qed.

Section Pass.
Context `{Unicode}.
Variables (contentHash : string → string → string) (world : list Act → World).

(** ** syncMembers *)

Lemma hold_fields t kind stage reason :
  t_State (hold t kind stage reason) = TaskWaitingHuman ∧ t_Hold (hold t kind stage reason) = kind ∧
  t_RunID (hold t kind stage reason) = t_RunID t ∧ t_PipelineID (hold t kind stage reason) = t_PipelineID t.
Proof. unfold hold. by destruct (String.eqb stage EmptyString). Qed.

Lemma settles_hold t kind stage reason :
  real_run t → dispatched t = false → String.eqb kind EmptyString = false → settles t (hold t kind stage reason).
Proof.
  intros Hreal Hd Hk. destruct (hold_fields t kind stage reason) as (H1 & H2 & H3 & H4). apply settles_held; [|done| |done|].
  - unfold real_run. by rewrite H3.
  - unfold held. by rewrite H2, Hk.
  - unfold dispatched. by rewrite H3, H4.
Qed.

Lemma settled_on_board_fields t status defs reason t' :
  settled_on_board t status defs reason = Some t' → t_State t' ∈ still ∧ t_RunID t' = t_RunID t ∧ t_PipelineID t' = t_PipelineID t.
Proof.
  unfold settled_on_board. destruct (skippedOnBoard status), (Settled status defs); intros [= <-]; (split_and!; [by apply one_of_spec|done|done]).
Qed.

Lemma set_place_neat t title up : neat t → neat (set_place t title up).
Proof. by intros [[H1 H2 H3] Hr]. Qed.

Lemma sync_task_settles w id status t : neat t → settles t (sync_task contentHash world w id status t).
Proof.
  intros Ht. unfold sync_task. set (t1 := set_place t _ _).
  assert (settles t t1) as H1 by (split; [by apply set_place_neat|done]).
  assert (real_run t1) as Hreal by apply Ht.
  assert (∀ t2, settles t1 t2 → settles t t2) as Hthen by (intros t2 [H2 H3]; split; [done|]; etrans; [apply H1|done]).
  destruct (String.eqb (t_Hold t1) HoldPerson && negb (dispatched t1) && negb (final1 (t_State t1))).
  - destruct (settled_on_board (set_hold t1 EmptyString) _ _ _) as [t2|] eqn:E; [|done]. simpl.
    apply Hthen. apply settled_on_board_fields in E as (H2 & H3 & H4). by apply settles_still.
  - destruct (dispatched t1 || final1 (t_State t1) || held t1) eqn:E; [done|]. apply orb_false_iff in E as [[Hd _]%orb_false_iff Hh].
    apply Hthen. unfold pending_member.
    destruct (settled_on_board t1 _ _ _) as [t2|] eqn:E2.
    { apply settled_on_board_fields in E2 as (H2 & H3 & H4). by apply settles_still. }
    destruct (negb (dispatchable _ id)).
    + destruct (one_of _ _); [by apply settles_hold|]. apply settles_still; [done| |done|done]. by apply one_of_spec.
    + destruct (inCycle _ id); [apply settles_still; [done|by apply one_of_spec|done|done]|].
      destruct (w_content _ id) as [body|]; [|by apply settles_refl, H1]. unfold checkContent.
      destruct (String.eqb (t_ContentHash t1) EmptyString); [split; [|done]; split; [by destruct H1 as [[[] _] _]|done]|].
      destruct (String.eqb (t_ContentHash t1) _); [by apply settles_refl, H1|]. by apply settles_hold.
Qed.

Lemma left_goal_settles d id t : neat t → settles t (left_goal d id t).
Proof.
  intros Ht. unfold left_goal. destruct (bool_decide _ || _ || _ || _) eqn:E; [by apply settles_refl|].
  apply orb_false_iff in E as [_ Hd]. apply settles_hold; [apply Ht|done|done].
Qed.

Lemma syncMembers_ordered w : ordered (wk_tasks w) →
  let w' := syncMembers contentHash world w in ordered (wk_tasks w') ∧ calmly (wk_tasks w) (wk_tasks w').
Proof.
  intros [Hs Hsh]. pose proof (syncMembers_spec contentHash world w Hs) as (Hs' & _). cbv zeta in *. unfold syncMembers in *.
  set (statuses := ComputeStatuses _ _) in *.
  assert (∀ ids w1, map_Forall (λ _, neat) (wk_tasks w1) → let w' := foldl (sync_member contentHash world statuses) w1 ids in
    map_Forall (λ _, neat) (wk_tasks w') ∧ calmly (wk_tasks w1) (wk_tasks w')) as Hfold.
  { induction ids as [|id ids IH]; intros w1 H1; [done|]. cbn [foldl].
    assert (map_Forall (λ _, neat) (wk_tasks (sync_member contentHash world statuses w1 id)) ∧
            calmly (wk_tasks w1) (wk_tasks (sync_member contentHash world statuses w1 id))) as [H2 H3].
    { unfold sync_member. destruct (wk_tasks w1 !! id) as [t|] eqn:Et; [|done].
      destruct (sync_task_settles w1 id (default EmptyString (statuses !! id)) t (H1 id t Et)) as [H3 H4]. split.
      - by apply map_Forall_insert_2.
      - by eapply calmly_insert. }
    destruct (IH _ H2) as [H4 H5]. split; [done|by etrans]. }
  destruct (Hfold (dg_order (wk_dag w)) (with_added w []) Hsh) as [H1 H2]. set (w1 := foldl _ _ _) in *. split.
  - split; [done|]. intros id t'. cbn [with_tasks wk_tasks]. rewrite map_lookup_imap. destruct (wk_tasks w1 !! id) as [t|] eqn:Et; [|done].
    intros [= <-]. apply left_goal_settles. by eapply H1.
  - etrans; [exact H2|]. cbn [with_tasks wk_tasks]. split.
    + intros id t Et. exists (left_goal (wk_dag w1) id t). rewrite map_lookup_imap, Et. split; [done|]. apply left_goal_settles. by eapply H1.
    + intros id t' Et. by rewrite map_lookup_imap, Et.
Qed.

(** ** refresh *)

Lemma pending_not_state t : pending_state t = false → final1 (t_State t) = false → t_State t ∈ task_states →
  t_State t ∈ [TaskQueued; TaskRunning; TaskWaitingReview; TaskWaitingHuman].
Proof.
  intros Hp Hf Hs. unfold pending_state, final1 in *. unfold task_states in Hs.
  repeat (apply elem_of_cons in Hs as [Hs|Hs]; [first [by rewrite Hs in Hp|by rewrite Hs in Hf|rewrite Hs; by apply one_of_spec]|]).
  by apply elem_of_nil in Hs.
Qed.

(** Acting on a try keeps it. *)
Lemma act_keeps w t d stages : let '(_, t', _) := act world w t d stages in
  t_State t' ∈ task_states ∧ t_RunID t' = t_RunID t ∧ t_PipelineID t' = t_PipelineID t.
Proof.
  unfold act, act_approved, merge, done, hold. repeat case_match; simplify_eq; (split_and!; [by apply one_of_spec|done|done]).
Qed.

Lemma firstNonEmpty_spec values : match firstNonEmpty values with
  | EmptyString => ∀ v, v ∈ values → trim_space v = EmptyString
  | v => trim_space v ≠ EmptyString
  end.
Proof.
  induction values as [|v values IH]; [by intros v ?%elem_of_nil|]. simpl. destruct (String.eqb_spec (trim_space v) EmptyString) as [He|Hne].
  - destruct (firstNonEmpty values); [|done]. intros u [->|Hu]%elem_of_cons; auto.
  - destruct v; [|done]. exfalso; by apply Hne.
Qed.

Lemma refresh_task_settles w id t : wk_tasks w !! id = Some t → sound_task id t → neat t →
  ∃ t', wk_tasks (refresh_task world w id) !! id = Some t' ∧ settles t t'.
Proof.
  intros Et [_ Hidle] [Hsh Hreal]. unfold refresh_task. rewrite Et. destruct (negb (dispatched t) || final1 (t_State t)) eqn:Ed; [by exists t|].
  apply orb_false_iff in Ed as [Hd%negb_false_iff Hf].
  destruct (observe (now_world world w) t) as [obs| | |]; try by exists t.
  pose proof (act_keeps w (with_derived t (derive obs (wk_now w))) (derive obs (wk_now w)) (dv_stages (derive obs (wk_now w)))) as Ha.
  destruct (act world w _ _ _) as [[w1 t1] stages]. destruct Ha as (Hst & Hr & Hp).
  cbn [put_task with_tasks wk_tasks]. rewrite lookup_insert_eq. eexists. split; [done|].
  set (t2 := set_stages t1 _). set (t3 := if String.eqb (t_Stage t2) EmptyString then _ else _).
  assert (t_State t3 = t_State t1 ∧ t_RunID t3 = t_RunID t1 ∧ t_PipelineID t3 = t_PipelineID t1) as (H1 & H2 & H3)
    by (unfold t3; by destruct (String.eqb _ _)).
  pose proof (firstNonEmpty_spec [dv_latestRun (derive obs (wk_now w)); t_RunID t]) as Hrun. rewrite <- H2 in Hr.
  change (t_RunID (with_derived t _)) with (firstNonEmpty [dv_latestRun (derive obs (wk_now w)); t_RunID t]) in Hr. rewrite <- Hr in Hrun.
  assert (dispatched t3 = true) as Hd3.
  { unfold dispatched in *. rewrite H3, Hp. change (t_PipelineID (with_derived t _)) with (t_PipelineID t).
    destruct (negb (String.eqb (t_PipelineID t) EmptyString)); [by rewrite orb_true_r|]. rewrite orb_false_r in *.
    destruct (t_RunID t3); [|done]. destruct Hreal as [He|Hne]; [by rewrite He in Hd|]. by rewrite (Hrun (t_RunID t)) in Hne by set_solver. }
  assert (real_run t3) as Hreal3 by (unfold real_run; destruct (t_RunID t3); auto).
  split; [split; [apply shaped_dispatched; [by rewrite H1|done]|done]|]. split; [|done]. intros _. unfold active. rewrite Hd, andb_false_r. cbn [negb andb].
  apply one_of_spec, pending_not_state; [|done|apply Hsh]. destruct (pending_state t) eqn:Ep; [|done]. destruct (Hidle eq_refl). congruence.
Qed.

Lemma refresh_ordered w : ordered (wk_tasks w) →
  let w' := refresh world w in ordered (wk_tasks w') ∧ calmly (wk_tasks w) (wk_tasks w').
Proof.
  unfold refresh. generalize (sortedIDs (wk_tasks w)). intros ids. revert w.
  induction ids as [|id ids IH]; intros w Ho; [done|]. cbn [foldl]. pose proof Ho as [Hs Hsh].
  destruct (refresh_task_spec contentHash world w id Hs) as (H1 & _ & _ & H2 & _).
  assert (map_Forall (λ _, neat) (wk_tasks (refresh_task world w id)) ∧ calmly (wk_tasks w) (wk_tasks (refresh_task world w id))) as [H3 H4].
  { destruct (wk_tasks w !! id) as [t|] eqn:Et.
    - destruct (refresh_task_settles w id t Et (Hs id t Et) (Hsh id t Et)) as (t' & Ht' & Hse).
      assert (wk_tasks (refresh_task world w id) = <[id := t']> (wk_tasks w)) as ->.
      { apply map_eq. intros id'. destruct (decide (id' = id)) as [->|Hne]; [by rewrite lookup_insert_eq|].
        rewrite lookup_insert_ne by done. by apply H2. }
      split; [apply map_Forall_insert_2; [apply Hse|done]|]. eapply calmly_insert; [done|apply Hse].
    - unfold refresh_task. by rewrite Et. }
  destruct (IH (refresh_task world w id)) as [H5 H6]; [by split|]. split; [done|by etrans].
Qed.

(** ** propagateFailures and schedule *)

Lemma blamed_ordered w0 w : ordered (wk_tasks w0) → sound_tasks (wk_tasks w) → blamed w0 w →
  ordered (wk_tasks w) ∧ calmly (wk_tasks w0) (wk_tasks w).
Proof.
  intros [Hs0 Hsh0] Hs Hb.
  assert (∀ id t0 t, wk_tasks w0 !! id = Some t0 → wk_tasks w !! id = Some t → settles t0 t) as Hset.
  { intros id t0 t H0 H1. specialize (Hb id). rewrite H0, H1 in Hb. destruct Hb as [->|(Hp & Hst & _ & Hr & _)]; [by apply settles_refl, (Hsh0 id)|].
    destruct (Hsh0 id t0 H0) as [_ Hreal]. split; [split; [apply shaped_still; rewrite Hst; by apply one_of_spec|unfold real_run; by rewrite Hr]|]. split.
    - unfold active. by rewrite Hst, andb_false_r.
    - destruct (st_idle _ _ (Hs0 id t0 H0) Hp) as [-> _]. done. }
  split.
  - split; [done|]. intros id t Ht. specialize (Hb id). destruct (wk_tasks w0 !! id) as [t0|] eqn:E0; [by eapply Hset|]. by rewrite Ht in Hb.
  - split.
    + intros id t0 H0. pose proof (Hb id) as Hb'. rewrite H0 in Hb'. destruct (wk_tasks w !! id) as [t|] eqn:E; [|done].
      exists t. split; [done|]. by eapply Hset.
    + intros id t' H0 Ht'. specialize (Hb id). by rewrite H0, Ht' in Hb.
Qed.

(** A task kept with its try. *)
Definition keeps_tries (m m' : gmap string TaskInstance) : Prop :=
  ∀ id t, m !! id = Some t → ∃ t', m' !! id = Some t' ∧ (dispatched t = true → dispatched t' = true).

#[export] Instance keeps_tries_refl : Reflexive keeps_tries.
Proof. intros m id t Ht. by exists t. Qed.

#[export] Instance keeps_tries_trans : Transitive keeps_tries.
Proof. intros m1 m2 m3 H1 H2 id t (t1 & Ht1 & Hd)%H1. apply H2 in Ht1 as (t2 & Ht2 & Hd2). exists t2. auto. Qed.

Lemma calmly_keeps m m' : calmly m m' → keeps_tries m m'.
Proof. intros [Ho _] id t (t' & ? & _ & ?)%Ho. by exists t'. Qed.

(** The dispatcher's run ids are not blank. *)
Hypothesis run_ids : ∀ acts req run pipeline at_, w_start (world acts) req = Started run pipeline at_ → trim_space run ≠ EmptyString.

Lemma schedule_ordered w : ordered (wk_tasks w) →
  let w' := schedule contentHash world w in
  ordered (wk_tasks w') ∧ keeps_tries (wk_tasks w) (wk_tasks w') ∧
  count active (wk_tasks w') ≤ Z.max (count active (wk_tasks w)) (po_MaxParallel (ap_Policy (wk_rec w))).
Proof.
  intros [Hs Hsh]. destruct (schedule_spec contentHash world w Hs) as (room & [Hf Hst Hso Hdom Hc Hact Hrm _]). cbv zeta in *.
  set (w' := schedule contentHash world w) in *. split_and!; [split; [done|]| |lia].
  - intros id t Ht. destruct (wk_tasks w !! id) as [t0|] eqn:E0; [|apply Hdom in E0; congruence].
    destruct (Hc id t0 t E0 Ht) as (_ & _ & _ & _ & _ & _ & Hsh' & Hg). destruct (Hsh id t0 E0) as [H1 H2]. split; [by apply Hsh'|].
    destruct Hg as [Hg|(acts & req & pl & at_ & Hg)]; [unfold real_run; by rewrite Hg|]. right. by eapply run_ids.
  - intros id t0 E0. destruct (wk_tasks w' !! id) as [t|] eqn:Et; [|apply Hdom in Et; congruence]. exists t. split; [done|].
    destruct (Hc id t0 t E0 Et) as (_ & _ & _ & _ & _ & Hsame & _ & _). destruct (pending_state t0) eqn:Ep.
    + destruct (st_idle _ _ (Hs id t0 E0) Ep) as [-> _]. done.
    + by rewrite Hsame.
Qed.
End Pass.

(** What of an autopilot's record no pass changes. *)
Record same_run (r r' : Record_) : Prop := {
  sr_id : ap_ID r' = ap_ID r;
  sr_project : ap_Project r' = ap_Project r;
  sr_goal : ap_GoalNodeID r' = ap_GoalNodeID r;
  sr_policy : ap_Policy r' = ap_Policy r;
  sr_creator : ap_CreatedBy r' = ap_CreatedBy r;
  sr_workflow : ap_Workflow r' = ap_Workflow r;
}.

#[export] Instance same_run_refl : Reflexive same_run.
Proof. by split. Qed.

#[export] Instance same_run_trans : Transitive same_run.
Proof. intros x y z [] []. split; congruence. Qed.

Section Flow.
Context `{Unicode}.
Variables (contentHash : string → string → string) (world : list Act → World).
Hypothesis run_ids : ∀ acts req run pipeline at_, w_start (world acts) req = Started run pipeline at_ → trim_space run ≠ EmptyString.

(** What a pass may start: a task that is due as the pass has the graph, or a
    planner's or QA's run on the goal itself. *)
Definition may_start (w : work) (req : StartRequest) : Prop :=
  is_running w = true ∧
  ((∃ w1, wk_dag w1 = wk_dag w ∧ wk_graph w1 = wk_graph w ∧ same_run (wk_rec w) (wk_rec w1) ∧
      due contentHash world w1 (ComputeStatuses (wk_graph w1) (wk_state w1)) req) ∨
   (sq_Role req ∈ [RolePlanner; RoleQA] ∧ sq_NodeID req = ap_GoalNodeID (wk_rec w))).

Definition flow_act (w : work) (a : Act) : Prop :=
  match a with
  | AStart req => may_start w req
  | ASetStatus node status _ _ => node = ap_GoalNodeID (wk_rec w) ∧ status = StatusDone
  | AQARound _ _ _ fixTasks _ => 0 ≤ fixTasks ≤ Z.of_nat maxFixTasksPerRound
  | _ => False
  end.

(** A step of the goal flow, on tasks in order. *)
Record flowing (w w' : work) : Prop := {
  fl_dag : wk_dag w' = wk_dag w;
  fl_graph : wk_graph w' = wk_graph w;
  fl_rec : same_run (wk_rec w) (wk_rec w');
  fl_running : is_running w' = true → is_running w = true;
  fl_acts : ∃ acts, wk_acts w' = wk_acts w ++ acts ∧ ∀ a, a ∈ acts → flow_act w a;
  fl_ordered : ordered (wk_tasks w');
  fl_tries : keeps_tries (wk_tasks w) (wk_tasks w');
  fl_active : count active (wk_tasks w') ≤ Z.max (count active (wk_tasks w)) (po_MaxParallel (ap_Policy (wk_rec w)));
}.

Definition flow (w w' : work) : Prop := ordered (wk_tasks w) → flowing w w'.

Lemma no_acts w w' : wk_acts w' = wk_acts w → ∃ acts, wk_acts w' = wk_acts w ++ acts ∧ ∀ a, a ∈ acts → flow_act w a.
Proof. intros ->. exists []. split; [by rewrite app_nil_r|]. by intros a ?%elem_of_nil. Qed.

#[export] Instance flow_refl : Reflexive flow.
Proof. intros w Ho. split; try done; [by apply no_acts|lia]. Qed.

Lemma flow_act_later w w' a : flowing w w' → flow_act w' a → flow_act w a.
Proof.
  intros [Hd Hg Hr Hrun _ _ _ _]. destruct a; simpl; try done.
  - intros [H1 H2]. split; [auto|]. rewrite (sr_goal _ _ Hr) in H2. destruct H2 as [(w1 & H3 & H4 & H5 & H6)|?]; [left|by right].
    exists w1. split_and!; [congruence|congruence|by etrans|done].
  - intros [-> ->]. by rewrite (sr_goal _ _ Hr).
Qed.

#[export] Instance flow_trans : Transitive flow.
Proof.
  intros x y z Hxy Hyz Ho. pose proof (Hxy Ho) as F1. pose proof (Hyz (fl_ordered _ _ F1)) as F2.
  pose proof F1 as [D1 G1 R1 U1 (a1 & A1 & B1) O1 T1 C1]. pose proof F2 as [D2 G2 R2 U2 (a2 & A2 & B2) O2 T2 C2]. split.
  - congruence.
  - congruence.
  - by etrans.
  - auto.
  - exists (a1 ++ a2). split; [by rewrite A2, A1, (assoc_L (++))|].
    intros a [Ha|Ha]%elem_of_app; [by apply B1|]. apply (flow_act_later x y); auto.
  - done.
  - by etrans.
  - rewrite (sr_policy _ _ R1) in C2. lia.
Qed.

(** ** The steps a phase is made of *)

Lemma flow_rec w r : same_run (wk_rec w) r → (String.eqb (ap_Status r) AutopilotRunning = true → is_running w = true) → flow w (with_rec w r).
Proof. intros Hr Hst Ho. split; try done; [by apply no_acts|simpl; lia]. Qed.

Lemma flow_log w a : flow_act w a → flow w (act_log w a).
Proof.
  intros Ha Ho. split; try done; [|simpl; lia]. exists [a]. split; [done|]. by intros b ->%list_elem_of_singleton.
Qed.

Lemma flow_same w w' : wk_dag w' = wk_dag w → wk_graph w' = wk_graph w → wk_rec w' = wk_rec w → wk_tasks w' = wk_tasks w →
  wk_acts w' = wk_acts w → flow w w'.
Proof.
  intros Hd Hg Hr Ht Ha Ho. split; try done.
  - by rewrite Hr.
  - unfold is_running. by rewrite Hr.
  - by apply no_acts.
  - by rewrite Ht.
  - by rewrite Ht.
  - rewrite Ht. lia.
Qed.

Lemma setPhase_flow w phase : flow w (setPhase w phase).
Proof. apply flow_rec; [by split|done]. Qed.

Lemma set_why_flow w reason : flow w (with_rec w (set_why (wk_rec w) reason)).
Proof. apply flow_rec; [by split|done]. Qed.

Lemma set_status_flow w status reason : String.eqb status AutopilotRunning = false → flow w (with_rec w (set_status (wk_rec w) status reason)).
Proof. intros Hs. apply flow_rec; [by split|]. simpl. by rewrite Hs. Qed.

Lemma markBoard_flow w note : flow w (markBoard world w (ap_GoalNodeID (wk_rec w)) StatusDone note).
Proof.
  unfold markBoard. case_bool_decide; [done|]. set (w1 := act_log w _).
  assert (flow w w1) as H1 by (apply flow_log; done).
  destruct (w_setStatus _ _ _); [|done]. etrans; [exact H1|]. by apply flow_same.
Qed.

Lemma schedule_flow w : is_running w = true → flow w (schedule contentHash world w).
Proof.
  intros Hrun Ho. destruct (schedule_spec contentHash world w (proj1 Ho)) as (room & [[Hr Hd Hg _] _ _ _ _ _ _ (reqs & Ha & Hdue)]).
  destruct (schedule_ordered contentHash world run_ids w Ho) as (Ho' & Ht & Hc). split; try done.
  - by rewrite Hr.
  - exists (AStart <$> reqs). split; [done|]. intros a (req & -> & Hin)%list_elem_of_fmap. split; [done|]. left. exists w.
    split_and!; [done..|by apply Hdue].
Qed.

Lemma syncMembers_flow w : flow w (syncMembers contentHash world w).
Proof.
  intros Ho. destruct (syncMembers_ordered contentHash world w Ho) as [Ho' Hc].
  destruct (syncMembers_spec contentHash world w (proj1 Ho)) as (_ & _ & [Hr Hd Hg _] & _ & Ha). split; try done.
  - by rewrite Hr.
  - unfold is_running. by rewrite Hr.
  - by apply no_acts.
  - by apply calmly_keeps.
  - apply calmly_count in Hc. lia.
Qed.

Lemma startGoalRun_flow w kind role keep extra : role ∈ [RolePlanner; RoleQA] →
  (∀ r run, same_run r (keep r run) ∧ ap_Status (keep r run) = ap_Status r) → is_running w = true →
  flow w (startGoalRun world w kind role keep extra).
Proof.
  intros Hrole Hkeep Hrun. unfold startGoalRun. destruct (goalNode w) as [goal|]; [|done].
  destruct (w_content _ _) as [content|]; [|apply set_why_flow].
  destruct (goalRunner _ _ _ _) as [why|[runner am]]; [apply set_why_flow|].
  match goal with |- context [act_log w (AStart ?r)] => set (req := r) end.
  assert (flow w (act_log w (AStart req))) as Hlog by (apply flow_log; split; [done|]; right; done).
  destruct (w_start _ _) as [run p c|msg|msg|msg].
  - etrans; [exact Hlog|]. destruct (Hkeep (wk_rec (act_log w (AStart req))) run) as [H1 H2]. apply flow_rec; [done|]. by rewrite H2.
  - etrans; [exact Hlog|apply set_why_flow].
  - etrans; [exact Hlog|apply set_why_flow].
  - exact Hlog.
Qed.

(** adopt: new tasks wait to start. *)
Lemma new_task_idle d id body : sound_task id (new_task contentHash d id body) ∧ neat (new_task contentHash d id body) ∧
  active (new_task contentHash d id body) = false.
Proof. split_and!; [by split|split; [by apply shaped_still, one_of_spec|by left]|done]. Qed.

Lemma put_new_flow w id t : wk_tasks w !! id = None → sound_task id t → neat t → active t = false → flow w (put_task w id t).
Proof.
  intros Hn Hs Hne Ha Ho. split; try done; simpl.
  - by apply no_acts.
  - by apply ordered_insert.
  - intros id' t0 H0. exists t0. rewrite lookup_insert_ne; [done|]. intros ->. congruence.
  - assert (calmly (wk_tasks w) (<[id := t]> (wk_tasks w))) as Hc.
    { split.
      - intros id' t0 H0. exists t0. rewrite lookup_insert_ne; [done|]. intros ->. congruence.
      - intros id' t0 H0. destruct (decide (id = id')) as [<-|Hne']; [rewrite lookup_insert_eq; congruence|].
        rewrite lookup_insert_ne by done. congruence. }
    apply calmly_count in Hc. lia.
Qed.

Lemma adopt_loop_flow keep limit ids : ∀ w adopted w' n, adopt_loop contentHash world w keep limit ids adopted = (w', n) →
  flow w w' ∧ (0 < limit → adopted ≤ limit → n ≤ limit)%nat.
Proof.
  induction ids as [|id ids IH]; intros w adopted w' n; cbn [adopt_loop]; [intros [= <- <-]; split; [done|lia]|].
  destruct (bool_decide (is_Some (wk_tasks w !! id)) || negb (keep id)) eqn:Ek; [apply IH|].
  apply orb_false_iff in Ek as [Hn%bool_decide_eq_false _]. apply eq_None_not_Some in Hn.
  destruct ((0 <? limit)%nat && (limit <=? adopted)%nat) eqn:El; [intros [= <- <-]; split; [done|lia]|].
  destruct (w_content _ id) as [body|]; [|apply IH]. intros [Hf Hle]%IH. split.
  - etrans; [|exact Hf]. destruct (new_task_idle (wk_dag w) id body) as (H1 & H2 & H3). by apply put_new_flow.
  - intros H1 H2. apply Hle; [done|]. destruct (0 <? limit)%nat eqn:E0; [|apply Nat.ltb_ge in E0; lia]. simpl in El. apply Nat.leb_gt in El. lia.
Qed.

Lemma adopt_flow w keep limit w' n : adopt contentHash world w keep limit = (w', n) → flow w w' ∧ (0 < limit → n ≤ limit)%nat.
Proof.
  unfold adopt. destruct (adopt_loop _ _ _ _ _ _ _) as [w1 n1] eqn:E. apply adopt_loop_flow in E as [Hf Hle].
  destruct (0 <? n1)%nat; intros [= <- <-]; (split; [|intros; apply Hle; lia]); [|done].
  etrans; [exact Hf|]. etrans; [|apply syncMembers_flow]. apply flow_rec; [done|by unfold is_running].
Qed.

(** ** The phases *)

Lemma keep_qa_run r run : same_run r (set_qa_run r run) ∧ ap_Status (set_qa_run r run) = ap_Status r.
Proof. by split. Qed.

Lemma keep_plan_run r run : same_run r (set_plan_run r run) ∧ ap_Status (set_plan_run r run) = ap_Status r.
Proof. by split. Qed.

Lemma set_qa_run_flow w run : flow w (with_rec w (set_qa_run (wk_rec w) run)).
Proof. apply flow_rec; [apply keep_qa_run|done]. Qed.

Lemma goalDone_flow w reason : flow w (goalDone world w reason).
Proof. unfold goalDone. etrans; [|apply markBoard_flow]. etrans; [|apply setPhase_flow]. by apply set_status_flow. Qed.

Lemma acceptancePhase_flow w : flow w (acceptancePhase world w).
Proof.
  unfold acceptancePhase. destruct (goalNode w) as [goal|]; [|done]. destruct (String.eqb _ _).
  - destruct (negb (Acceptance_Empty _)); [apply setPhase_flow|]. destruct (is_running w) eqn:Er; [|done].
    apply startGoalRun_flow; [by apply one_of_spec|apply keep_qa_run|done].
  - destruct (ended_run world w _) as [r|]; [|done]. destruct (_ && _); [|by apply set_status_flow].
    etrans; [apply set_qa_run_flow|apply setPhase_flow].
Qed.

Lemma planPhase_flow w : flow w (planPhase contentHash world w).
Proof.
  unfold planPhase. destruct (String.eqb _ _).
  - destruct (is_running w) eqn:Er; [|done]. apply startGoalRun_flow; [by apply one_of_spec|apply keep_plan_run|done].
  - destruct (ended_run world w _) as [r|]; [|done]. destruct (negb _); [by apply set_status_flow|].
    destruct (adopt contentHash world w _ 0) as [w' n] eqn:Ea. apply adopt_flow in Ea as [Hf _]. etrans; [exact Hf|].
    destruct (n =? 0)%nat; [by apply set_status_flow|apply setPhase_flow].
Qed.

Lemma tasksDone_flow w : flow w (tasksDone world w).
Proof.
  unfold tasksDone. destruct (_ || _); [done|]. destruct (0 <? count_failed w)%nat; [by apply set_status_flow|].
  destruct (st_GoalQA _); [etrans; [apply set_qa_run_flow|apply setPhase_flow]|].
  destruct (st_GoalReview _); [etrans; [apply set_why_flow|apply setPhase_flow]|apply goalDone_flow].
Qed.

Lemma record_qa_flow w round run outcome n reason : (n ≤ maxFixTasksPerRound)%nat → flow w (record_qa w round run outcome n reason).
Proof. intros Hn. apply flow_log. simpl. lia. Qed.

Lemma to_person_flow w round run outcome reason : flow w (to_person w round run outcome reason).
Proof.
  unfold to_person. etrans; [apply set_why_flow|]. etrans; [|apply setPhase_flow]. apply record_qa_flow. unfold maxFixTasksPerRound. lia.
Qed.

Lemma qa_failed_flow w r : flow w (qa_failed contentHash world w r).
Proof.
  unfold qa_failed. set (w1 := with_rec w _). assert (flow w w1) as H1 by (by apply flow_rec).
  destruct (max_qa_rounds w1 <=? _); [etrans; [exact H1|apply to_person_flow]|].
  destruct (adopt contentHash world w1 _ maxFixTasksPerRound) as [w2 n] eqn:Ea.
  apply adopt_flow in Ea as [H2 Hn]. specialize (Hn ltac:(unfold maxFixTasksPerRound; lia)).
  etrans; [exact H1|]. etrans; [exact H2|]. destruct (n =? 0)%nat; [apply to_person_flow|].
  etrans; [|apply setPhase_flow]. etrans; [apply set_why_flow|by apply record_qa_flow].
Qed.

Lemma qaPhase_flow w : flow w (qaPhase contentHash world w).
Proof.
  unfold qaPhase. destruct (String.eqb _ _).
  - destruct (is_running w) eqn:Er; [|done]. apply startGoalRun_flow; [by apply one_of_spec|apply keep_qa_run|done].
  - destruct (ended_run world w _) as [r|]; [|done]. destruct (qaPassed r); [|apply qa_failed_flow].
    etrans; [apply (record_qa_flow w (ap_QARound (wk_rec w) + 1) (run_ID r) QAOutcomePass 0 "QA verified the goal"); unfold maxFixTasksPerRound; lia|].
    destruct (st_GoalReview _); [|apply goalDone_flow]. etrans; [|apply setPhase_flow]. by apply flow_rec.
Qed.

Lemma humanPhase_flow w : flow w (humanPhase w).
Proof.
  unfold humanPhase. destruct (Settled _ _); [|done]. etrans; [|apply setPhase_flow]. by apply set_status_flow.
Qed.

Lemma phase_step_flow w : flow w (phase_step contentHash world w).
Proof.
  unfold phase_step. repeat (destruct (String.eqb _ _); [first [apply acceptancePhase_flow|apply planPhase_flow|apply qaPhase_flow|apply humanPhase_flow|done]|]).
  destruct (is_running w) eqn:Er; [|apply tasksDone_flow]. etrans; [by apply schedule_flow|apply tasksDone_flow].
Qed.

Lemma goalFlow_flow w : flow w (goalFlow contentHash world w).
Proof.
  unfold goalFlow. generalize 4%nat. intros n. revert w. induction n as [|n IH]; intros w; [done|]. cbn [goal_steps].
  destruct (_ || _); [apply phase_step_flow|]. etrans; [apply phase_step_flow|apply IH].
Qed.

Lemma finishIfDone_flow w : flow w (finishIfDone world w).
Proof.
  unfold finishIfDone. destruct (_ || _); [done|]. destruct (0 <? count_failed w)%nat; [by apply set_status_flow|].
  destruct (nonempty _); [by apply set_status_flow|]. cbv zeta. etrans; [|apply markBoard_flow]. by apply set_status_flow.
Qed.
End Flow.
