(* ===== verification/OrchestratorFacts.v ===== *)
(** What holds of the autopilots' store after any history of passes and API
    actions: one live autopilot per goal, tasks in order, and never more tasks
    in progress than the policy allows; and what each pass may do on the way. *)

From S2P Require Import Prelude GoStr GoFloat GoTime Dsl Graph NodeTypes Workflow Roles State Readiness Dag DagFacts Runs TaskRun AutoPolicy Autopilot GoalFlow Orchestrator AutopilotFacts PassFacts.
From Stdlib Require Import Ascii.
Open Scope Z_scope.

(** * Whole passes *)

Section Passes.
Context `{Unicode}.
Variables (contentHash : string → string → string) (world : list Act → World).
Hypothesis run_ids : ∀ acts req run pipeline at_, w_start (world acts) req = Started run pipeline at_ → trim_space run ≠ EmptyString.

(** A merge of a pass over [w]: the task it is of, as the board's members were
    synced, and what allowed it. *)
Definition may_merge (w : work) (run head : string) : Prop :=
  ∃ w1 id t, same_frame w w1 ∧ wk_tasks (syncMembers contentHash world w) !! id = Some t ∧ final1 (t_State t) = false ∧
    merge_allowed world w1 t run head.

(** An act of a pass. *)
Definition pass_act (w : work) (a : Act) : Prop :=
  match a with
  | AStart req => may_start contentHash world w req
  | AMerge run head => may_merge w run head
  | ASetStatus node status _ _ => status = StatusDone
  | AQARound _ _ _ fixTasks _ => 0 ≤ fixTasks ≤ Z.of_nat maxFixTasksPerRound
  | _ => False
  end.

Record passing (w w' : work) : Prop := {
  pa_rec : same_run (wk_rec w) (wk_rec w');
  pa_ordered : ordered (wk_tasks w');
  pa_tries : keeps_tries (wk_tasks w) (wk_tasks w');
  pa_active : count active (wk_tasks w') ≤ Z.max (count active (wk_tasks w)) (po_MaxParallel (ap_Policy (wk_rec w)));
  pa_acts : ∃ acts, wk_acts w' = wk_acts w ++ acts ∧ ∀ a, a ∈ acts → pass_act w a;
}.

Lemma flow_act_pass w w1 a : same_frame w w1 → flow_act contentHash world w1 a → pass_act w a.
Proof.
  intros [Hr Hd Hg Hn]. destruct a; simpl; try done; [|by intros [_ ->]]. unfold may_start, is_running. rewrite Hr. intros [H1 H2]. split; [done|].
  destruct H2 as [(w2 & H3 & H4 & H5 & H6)|?]; [left|by right]. exists w2. split_and!; [congruence|congruence|done|done].
Qed.

Lemma run_pass_spec w : ordered (wk_tasks w) → passing w (run_pass contentHash world w).
Proof.
  intros Ho. unfold run_pass. set (w1 := syncMembers contentHash world w).
  destruct (syncMembers_ordered contentHash world w Ho) as [O1 C1]. fold w1 in O1, C1.
  destruct (syncMembers_spec contentHash world w (proj1 Ho)) as (_ & _ & F1 & _ & A1). fold w1 in F1, A1. cbv zeta.
  destruct (refresh_ordered contentHash world w1 O1) as [O2 C2].
  destruct (refresh_spec contentHash world w1 (proj1 O1)) as (_ & _ & F2 & acts2 & A2 & R2). set (w2 := refresh world w1) in *.
  destruct (propagateFailures_spec w2 (proj1 O2)) as [[(F3 & _ & A3) S3 B3] _]. set (w3 := propagateFailures w2) in *.
  destruct (blamed_ordered w2 w3 O2 S3 B3) as [O3 C3].
  assert (same_frame w w3) as Hf by (etrans; [exact F1|]; etrans; [exact F2|exact F3]).
  assert (calmly (wk_tasks w) (wk_tasks w3)) as Hc by (etrans; [exact C1|]; etrans; [exact C2|exact C3]).
  match goal with |- passing _ ?x => assert (flow contentHash world w3 x) as Hflow; [|revert Hflow; generalize x; intros w4 Hflow] end.
  { case_bool_decide; [by apply goalFlow_flow|]. destruct (is_running w3) eqn:Er; [|apply finishIfDone_flow].
    etrans; [by apply schedule_flow|apply finishIfDone_flow]. }
  destruct (Hflow O3) as [_ _ R4 _ (acts4 & A4 & P4) O4 T4 C4]. rewrite (sf_rec _ _ Hf) in R4, C4. split.
  - done.
  - done.
  - etrans; [by apply calmly_keeps|done].
  - apply calmly_count in Hc. lia.
  - exists (acts2 ++ acts4). split; [by rewrite A4, A3, A2, A1, (assoc_L (++))|].
    intros a [Ha|Ha]%elem_of_app; [|by eapply flow_act_pass, P4].
    destruct (R2 a Ha) as (wr & id & t & Hfr & Ht & Hfin & Hact). destruct a; simpl in Hact; try done.
    + exists wr, id, t. split_and!; try done. etrans; [exact F1|exact Hfr].
    + simpl. tauto.
Qed.
End Passes.

(** * The store *)

(** ** What the fingerprint keeps apart *)

Lemma task_state_no_bar s s' x x' : s ∈ task_states → s' ∈ task_states → s +:+ String "|" x = s' +:+ String "|" x' → s = s'.
Proof.
  unfold task_states. intros Hs Hs' Heq.
  repeat (apply elem_of_cons in Hs as [->|Hs];
    [repeat (apply elem_of_cons in Hs' as [->|Hs']; [first [reflexivity|discriminate Heq]|]); by apply elem_of_nil in Hs'|]).
  by apply elem_of_nil in Hs.
Qed.

Lemma str_join_bar s y ys rest : ∃ x, str_join (s :: y :: ys) "|" +:+ rest = s +:+ String "|" x.
Proof. exists (str_join (y :: ys) "|" +:+ rest). cbn [str_join]. by rewrite !str_app_assoc. Qed.

Lemma fingerprint_state t t' : t_State t ∈ task_states → t_State t' ∈ task_states → fingerprint t = fingerprint t' → t_State t = t_State t'.
Proof.
  intros Hs Hs'. unfold fingerprint.
  match goal with |- str_join (_ :: ?y :: ?ys) _ +:+ ?r = str_join (_ :: ?y' :: ?ys') _ +:+ ?r' → _ =>
    destruct (str_join_bar (t_State t) y ys r) as [x ->]; destruct (str_join_bar (t_State t') y' ys' r') as [x' ->] end.
  by apply task_state_no_bar.
Qed.

(** ** Saving the tasks that changed *)

(** Slots outlive a step that leaves a task's state. *)
Definition keeps_slots (m m' : gmap string TaskInstance) : Prop :=
  ∀ id t, m !! id = Some t → ∃ t', m' !! id = Some t' ∧ (t_State t' = t_State t → active t = true → active t' = true).

Lemma keeps_tries_slots m m' : ordered m → ordered m' → keeps_tries m m' → keeps_slots m m'.
Proof.
  intros [_ H1] [_ H2] Hk id t Ht. destruct (Hk id t Ht) as (t' & Ht' & Hd). exists t'. split; [done|]. intros Hs.
  destruct (H1 id t Ht) as [Hsh _], (H2 id t' Ht') as [Hsh' _]. by apply shaped_slot.
Qed.

Lemma saved_lookup (m m' : gmap string TaskInstance) id : keeps_slots m m' →
  (changed_tasks m m' ∪ m) !! id = m' !! id ∨
  ∃ t t', (changed_tasks m m' ∪ m) !! id = Some t ∧ m !! id = Some t ∧ m' !! id = Some t' ∧ fingerprint t = fingerprint t'.
Proof.
  intros Hk. rewrite lookup_union. unfold changed_tasks. destruct (m' !! id) as [t'|] eqn:E'.
  - destruct (decide (fingerprint <$> m !! id = Some (fingerprint t'))) as [Hfp|Hfp].
    + right. destruct (m !! id) as [t|] eqn:E; [|done]. injection Hfp as Hfp. exists t, t'. split_and!; try done.
      rewrite (map_lookup_filter_None_2 (M := gmap string)); [done|]. right. intros t1. rewrite E'. intros [= <-]. simpl. rewrite E. simpl. congruence.
    + left. rewrite (map_lookup_filter_Some_2 (M := gmap string) _ _ _ t'); [by destruct (m !! id)|done|done].
  - left. rewrite (map_lookup_filter_None_2 (M := gmap string)); [|by left]. destruct (m !! id) as [t|] eqn:E; [|done].
    destruct (Hk id t E) as (t' & Ht' & _). congruence.
Qed.

Lemma saved_ordered m m' : ordered m → ordered m' → keeps_slots m m' →
  ordered (changed_tasks m m' ∪ m) ∧ count active (changed_tasks m m' ∪ m) ≤ count active m'.
Proof.
  intros Ho Ho' Hk. split.
  - split; intros id t Ht; destruct (saved_lookup m m' id Hk) as [He|(t1 & t' & He & Hm & Hm' & _)]; rewrite Ht in He.
    + by apply Ho'.
    + injection He as <-. by apply Ho.
    + symmetry in He. by apply Ho' in He.
    + injection He as <-. by apply Ho in Hm.
  - apply count_le. intros id t Ht Ha. destruct (saved_lookup m m' id Hk) as [He|(t1 & t' & He & Hm & Hm' & Hfp)]; rewrite Ht in He.
    + by exists t.
    + injection He as <-. exists t'. split; [done|]. destruct (Hk id t Hm) as (t2 & Ht2 & Hs). rewrite Hm' in Ht2. injection Ht2 as <-.
      apply Hs; [|done]. symmetry. apply fingerprint_state; [|by apply Ho' in Hm' as [[]]|done]. by apply Ho in Hm as [[]].
Qed.

(** ** What an action does to a task *)

(** Ended, cleared or put aside for good; or what its slot hangs on is as it
    was. *)
Definition quiet (t t' : TaskInstance) : Prop :=
  t_NodeID t' = t_NodeID t ∧ (t_RunID t' = t_RunID t ∨ t_RunID t' = EmptyString) ∧
  ((t_State t' ∈ still ∧ (pending_state t' = true → dispatched t' = false ∧ held t' = false)) ∨
   (t_State t' = t_State t ∧ t_Hold t' = t_Hold t ∧ t_RunID t' = t_RunID t ∧ t_PipelineID t' = t_PipelineID t)).

#[export] Instance quiet_refl : Reflexive quiet.
Proof. intros t. split_and!; [done|by left|by right]. Qed.

#[export] Instance quiet_trans : Transitive quiet.
Proof.
  intros x y z (H1 & H2 & H3) (H4 & H5 & H6). split_and!; [congruence|destruct H5 as [->|]; auto|].
  destruct H6 as [?|(Hs & Hh & Hr & Hp)]; [by left|]. destruct H3 as [[H3 H3']|(? & ? & ? & ?)]; [left|right; split_and!; congruence].
  unfold pending_state, dispatched, held in *. rewrite Hs, Hh, Hr, Hp. done.
Qed.

Lemma still_idle t : t_State t ∈ still → active t = false.
Proof.
  unfold active, still. intros Hs.
  repeat (apply elem_of_cons in Hs as [Hs|Hs]; [by rewrite Hs, andb_false_r|]). by apply elem_of_nil in Hs.
Qed.

Record quietly (m m' : gmap string TaskInstance) : Prop := {
  qu_old : ∀ id t, m !! id = Some t → ∃ t', m' !! id = Some t' ∧ quiet t t';
  qu_new : ∀ id t', m !! id = None → m' !! id = Some t' → sound_task id t' ∧ neat t' ∧ t_State t' ∈ still;
}.

#[export] Instance quietly_refl : Reflexive quietly.
Proof. intros m. split; [intros id t Ht; by exists t|congruence]. Qed.

Lemma quiet_task id t t' : sound_task id t → neat t → quiet t t' → sound_task id t' ∧ neat t'.
Proof.
  intros [Hid Hidle] [[S1 S2 S3] Hr] (Hn & Hrun & Hcase). split.
  - split; [congruence|]. destruct Hcase as [[_ ?]|(Hs & Hh & Hru & Hp)]; [done|]. unfold pending_state, dispatched, held in *.
    by rewrite Hs, Hh, Hru, Hp.
  - split; [|destruct Hrun as [Hrun|Hrun]; unfold real_run; rewrite Hrun; [done|by left]].
    destruct Hcase as [[? _]|(Hs & Hh & Hru & Hp)]; [by apply shaped_still|]. unfold dispatched, held in *.
    split; unfold dispatched, held; by rewrite Hs, ?Hh, ?Hru, ?Hp.
Qed.

Lemma quietly_ordered m m' : ordered m → quietly m m' →
  ordered m' ∧ keeps_slots m m' ∧ count active m' ≤ count active m.
Proof.
  intros [Ho1 Ho2] [Hold Hnew].
  assert (∀ id t', m' !! id = Some t' → sound_task id t' ∧ neat t') as Hall.
  { intros id t' Ht'. destruct (m !! id) as [t|] eqn:E.
    - destruct (Hold id t E) as (t1 & Ht1 & Hq). rewrite Ht' in Ht1. injection Ht1 as <-. apply (quiet_task id t); [by apply Ho1|by apply (Ho2 id)|done].
    - destruct (Hnew id t' E Ht') as (? & ? & _). done. }
  split_and!.
  - split; intros id t' Ht'; by apply (Hall id).
  - intros id t Ht. destruct (Hold id t Ht) as (t' & Ht' & _ & _ & Hcase). exists t'. split; [done|]. intros Hs Ha.
    destruct Hcase as [[Hst _]|(_ & Hh & Hr & Hp)].
    + rewrite Hs in Hst. apply still_idle in Hst. congruence.
    + unfold active, held, dispatched in *. by rewrite Hs, Hh, Hr, Hp.
  - apply count_le. intros id t' Ht' Ha. destruct (m !! id) as [t|] eqn:E.
    + exists t. split; [done|]. destruct (Hold id t E) as (t1 & Ht1 & _ & _ & Hcase). rewrite Ht' in Ht1. injection Ht1 as <-.
      destruct Hcase as [[Hst _]|(Hs & Hh & Hr & Hp)]; [apply still_idle in Hst; congruence|].
      unfold active, held, dispatched in *. by rewrite <- Hs, <- Hh, <- Hr, <- Hp.
    + destruct (Hnew id t' E Ht') as (_ & _ & Hst). apply still_idle in Hst. congruence.
Qed.

(** ** The invariant *)

Record good_run (db : Db) (id : string) (r : Record_) : Prop := {
  gr_id : ap_ID r = id;
  gr_ordered : ordered (tasks_of db id);
  gr_limit : 1 ≤ po_MaxParallel (ap_Policy r) ≤ MaxAutopilotParallel;
  gr_active : count active (tasks_of db id) ≤ po_MaxParallel (ap_Policy r);
}.

(** No two live autopilots work one goal. *)
Definition one_live (db : Db) : Prop :=
  ∀ id1 id2 r1 r2, db_runs db !! id1 = Some r1 → db_runs db !! id2 = Some r2 →
    same_goal r1 r2 = true → live_run r1 = true → live_run r2 = true → id1 = id2.

Definition good_db (db : Db) : Prop := map_Forall (good_run db) (db_runs db) ∧ one_live db.

(** Only one autopilot's record and tasks are touched. *)
Definition only (id : string) (db db' : Db) : Prop :=
  ∀ id', id' ≠ id → db_runs db' !! id' = db_runs db !! id' ∧ tasks_of db' id' = tasks_of db id'.

#[export] Instance only_refl id : Reflexive (only id).
Proof. by intros db id' _. Qed.

#[export] Instance only_trans id : Transitive (only id).
Proof. intros d1 d2 d3 H1 H2 id' Hne. destruct (H1 id' Hne), (H2 id' Hne). split; congruence. Qed.

(** A step about one autopilot: it keeps the invariant, and the others. *)
Definition fine (id : string) (m m' : Machine) : Prop := good_db (mc_db m) → good_db (mc_db m') ∧ only id (mc_db m) (mc_db m').

#[export] Instance fine_refl id : Reflexive (fine id).
Proof. by intros m Hg. Qed.

#[export] Instance fine_trans id : Transitive (fine id).
Proof. intros m1 m2 m3 H1 H2 Hg. destruct (H1 Hg) as [G1 O1], (H2 G1) as [G2 O2]. split; [done|by etrans]. Qed.

Lemma stored_same r now : same_run r (stored r now) ∧ ap_Status (stored r now) = ap_Status r.
Proof. unfold stored. destruct (_ && _); case_bool_decide; by split. Qed.

Lemma Save_spec db r changed now db' : Save db r changed now = Some db' →
  db_runs db' = <[ap_ID r := stored r now]> (db_runs db) ∧ db_tasks db' = <[ap_ID r := changed ∪ tasks_of db (ap_ID r)]> (db_tasks db) ∧
  (live_run r = true → live_elsewhere db r = false).
Proof. unfold Save. destruct (live_run r), (live_elsewhere db r); intros [= <-]; done. Qed.

Lemma Save_only db r changed now db' : Save db r changed now = Some db' → only (ap_ID r) db db'.
Proof.
  intros (Hr & Ht & _)%Save_spec id' Hne. unfold tasks_of. rewrite Hr, Ht, !lookup_insert_ne by done. done.
Qed.

Lemma live_elsewhere_spec db r : live_elsewhere db r = false →
  ∀ id r', db_runs db !! id = Some r' → same_goal r r' = true → live_run r' = true → id = ap_ID r.
Proof.
  intros Hl id r' Hr Hs Hv. destruct (decide (id = ap_ID r)) as [|Hne]; [done|]. exfalso. unfold live_elsewhere in Hl.
  apply not_true_iff_false in Hl. apply Hl. apply existsb_exists. exists (id, r'). split; [by apply list_elem_of_In, elem_of_map_to_list|].
  simpl. rewrite Hs, Hv, !andb_true_r. by apply negb_true_iff, String.eqb_neq.
Qed.

Lemma same_goal_spec r r' : same_goal r r' = true ↔ ap_Project r' = ap_Project r ∧ ap_GoalNodeID r' = ap_GoalNodeID r.
Proof. unfold same_goal. by rewrite andb_true_iff, !String.eqb_eq. Qed.

Lemma Save_good db r0 r changed now db' :
  good_db db → db_runs db !! ap_ID r = Some r0 → same_run r0 r → Save db r changed now = Some db' →
  ordered (changed ∪ tasks_of db (ap_ID r)) → count active (changed ∪ tasks_of db (ap_ID r)) ≤ po_MaxParallel (ap_Policy r) →
  good_db db'.
Proof.
  intros [Hall Hlive] H0 Hsame (Hr & Ht & Hl)%Save_spec Ho Hc. destruct (stored_same r now) as [Hst Hss].
  pose proof (same_run_trans _ _ _ Hsame Hst) as Hs0. split.
  - intros id r'. rewrite Hr. destruct (decide (ap_ID r = id)) as [<-|Hne].
    + rewrite lookup_insert_eq. intros [= <-]. destruct (Hall _ _ H0) as [_ _ Hlim _]. split.
      * apply Hst.
      * unfold tasks_of. rewrite Ht, lookup_insert_eq. done.
      * by rewrite (sr_policy _ _ Hs0).
      * unfold tasks_of. rewrite Ht, lookup_insert_eq. by rewrite (sr_policy _ _ Hst).
    + rewrite lookup_insert_ne by done. intros Hr'. destruct (Hall _ _ Hr') as [G1 G2 G3 G4].
      assert (tasks_of db' id = tasks_of db id) as Heq by (unfold tasks_of; by rewrite Ht, lookup_insert_ne).
      split; rewrite ?Heq; done.
  - assert (∀ id r', db_runs db' !! id = Some r' → live_run r' = true → same_goal r r' = true → live_run r = true → id = ap_ID r) as Hone.
    { intros id r'. rewrite Hr. destruct (decide (ap_ID r = id)) as [<-|Hne]; [done|]. rewrite lookup_insert_ne by done.
      intros Hr' Hv Hg Hvr. by apply (live_elsewhere_spec db r (Hl Hvr) id r'). }
    assert (live_run (stored r now) = live_run r) as Hlv by (unfold live_run; by rewrite Hss).
    assert (∀ r', same_goal (stored r now) r' = same_goal r r') as Hsg
      by (intros r'; unfold same_goal; by rewrite (sr_project _ _ Hst), (sr_goal _ _ Hst)).
    assert (∀ r', same_goal r' (stored r now) = same_goal r' r) as Hsg'
      by (intros r'; unfold same_goal; by rewrite (sr_project _ _ Hst), (sr_goal _ _ Hst)).
    assert (∀ r', same_goal r' r = same_goal r r') as Hsym
      by (intros r'; apply Bool.eq_iff_eq_true; rewrite !same_goal_spec; naive_solver).
    intros id1 id2 r1 r2 H1 H2 Hg V1 V2. pose proof H1 as H1'. pose proof H2 as H2'. rewrite Hr in H1', H2'.
    destruct (decide (ap_ID r = id1)) as [<-|N1].
    + rewrite lookup_insert_eq in H1'. injection H1' as <-. symmetry. rewrite Hsg in Hg. rewrite Hlv in V1. by apply (Hone id2 r2).
    + rewrite lookup_insert_ne in H1' by done. destruct (decide (ap_ID r = id2)) as [<-|N2].
      * rewrite lookup_insert_eq in H2'. injection H2' as <-. rewrite Hsg', Hsym in Hg. rewrite Hlv in V2. by apply (Hone id1 r1).
      * rewrite lookup_insert_ne in H2' by done. by apply (Hlive id1 id2 r1 r2).
Qed.

Lemma save_fine m w r0 before written :
  db_runs (mc_db m) !! ap_ID r0 = Some r0 → same_run r0 (wk_rec w) → before = tasks_of (mc_db m) (ap_ID r0) →
  ordered (wk_tasks w) → keeps_slots before (wk_tasks w) → count active (wk_tasks w) ≤ po_MaxParallel (ap_Policy r0) →
  fine (ap_ID r0) m (save m w before written).1.
Proof.
  intros H0 Hs -> Ho Hk Hc Hg. unfold save. destruct (_ && _); [done|]. destruct written; [|done].
  destruct (Save _ _ _ _) as [db'|] eqn:E; [|done]. simpl. pose proof (proj1 Hg _ _ H0) as G0.
  destruct (saved_ordered _ _ (gr_ordered _ _ _ G0) Ho Hk) as [So Sc]. pose proof (sr_id _ _ Hs) as Hid.
  split; [|rewrite <- Hid; by eapply Save_only].
  apply (Save_good (mc_db m) r0 (wk_rec w) _ (wk_now w)) in E; rewrite ?Hid; try done. rewrite (sr_policy _ _ Hs). lia.
Qed.

(** * Histories *)

(** The dispatcher's run ids are not blank. *)
Definition real_ids (world : list Act → World) : Prop :=
  ∀ acts req run pipeline at_, w_start (world acts) req = Started run pipeline at_ → trim_space run ≠ EmptyString.

(** A pass, or a call of the API. *)
Inductive Command :=
  | CPass (id now : string) (written : bool)
  | CCreate (newID project goalID : string) (policy : AutopilotPolicy) (actorID actorName steppedUpAt : string) (io : Io)
  | CPause (id : string) (io : Io)
  | CResume (id : string) (io : Io)
  | CAdopt (id : string) (io : Io)
  | CCancel (id reason : string) (io : Io)
  | CRetry (id nodeID : string) (io : Io)
  | CSkip (id nodeID : string) (io : Io)
  | CReview (id nodeID : string) (who : Reviewer) (admin : bool) (verdict comment : string) (io : Io).

Section Histories.
Context `{Unicode}.
Variable contentHash : string → string → string.

Definition perform (world : list Act → World) (cmd : Command) (m : Machine) : Machine :=
  match cmd with
  | CPass id now written => (reconcileLocked contentHash world m id now written).1
  | CCreate newID project goalID policy actorID actorName steppedUpAt io =>
      (Create contentHash world m newID project goalID policy actorID actorName steppedUpAt io).1
  | CPause id io => (Pause contentHash world m id io).1
  | CResume id io => (Resume contentHash world m id io).1
  | CAdopt id io => (Adopt contentHash world m id io).1
  | CCancel id reason io => (Cancel world m id reason io).1
  | CRetry id nodeID io => (Retry contentHash world m id nodeID io).1
  | CSkip id nodeID io => (Skip contentHash world m id nodeID io).1
  | CReview id nodeID who admin verdict comment io => (Review contentHash world m id nodeID who admin verdict comment io).1
  end.

(** Commands in order, each in the world it finds. *)
Definition history (steps : list ((list Act → World) * Command)) (m : Machine) : Machine :=
  foldl (λ m s, perform s.1 s.2 m) m steps.

Section Step.
Variable world : list Act → World.
Hypothesis run_ids : real_ids world.

Lemma load_spec m id now w : load world m id now = Ok w →
  db_runs (mc_db m) !! id = Some (wk_rec w) ∧ wk_tasks w = tasks_of (mc_db m) id ∧ wk_acts w = mc_acts m ∧ wk_added w = [].
Proof.
  unfold load. destruct (db_runs _ !! id) as [rec|]; [|done]. destruct (w_graph _) as [[g rs]|]; [|done].
  destruct (buildDAG _ _) as [d|]; [|done]. by intros [= <-].
Qed.

(** What a good store loads. *)
Lemma load_good m id now w : good_db (mc_db m) → load world m id now = Ok w →
  ap_ID (wk_rec w) = id ∧ db_runs (mc_db m) !! ap_ID (wk_rec w) = Some (wk_rec w) ∧ wk_tasks w = tasks_of (mc_db m) (ap_ID (wk_rec w)) ∧
  ordered (wk_tasks w) ∧ count active (wk_tasks w) ≤ po_MaxParallel (ap_Policy (wk_rec w)).
Proof.
  intros Hg (Hrec & Ht & _)%load_spec. destruct (proj1 Hg _ _ Hrec) as [G1 G2 G3 G4]. rewrite Ht, G1. done.
Qed.

Lemma reconcile_fine m id now written : fine id m (reconcileLocked contentHash world m id now written).1.
Proof.
  intros Hg. unfold reconcileLocked. destruct (load world m id now) as [w| | |] eqn:El; try done.
  apply (load_good _ _ _ _ Hg) in El as (<- & Hrec & Ht & Ho & Hc). destruct (final _); [done|]. destruct (w_may _) as [[|]|]; [| |done].
  - destruct (run_pass_spec contentHash world run_ids w Ho) as [P1 P2 P3 P4 _]. eapply save_fine; eauto; [|lia].
    by apply keeps_tries_slots.
  - assert (keeps_slots (wk_tasks w) (wk_tasks w)) as Hk by by apply keeps_tries_slots.
    destruct (is_running w); eapply save_fine; eauto; by split.
Qed.

Lemma Reconcile_fine m id io : fine id m (Reconcile contentHash world m id io).
Proof. apply reconcile_fine. Qed.

(** An action that leaves the record its identity and the tasks quiet. *)
Lemma action_fine m id now w w' written :
  load world m id now = Ok w → same_run (wk_rec w) (wk_rec w') → quietly (wk_tasks w) (wk_tasks w') →
  fine id m (save m w' (wk_tasks w) written).1.
Proof.
  intros Hl Hs Hq Hg. apply (load_good _ _ _ _ Hg) in Hl as (<- & Hrec & Ht & Ho & Hc).
  destruct (quietly_ordered _ _ Ho Hq) as (Q1 & Q2 & Q3). eapply save_fine; eauto. lia.
Qed.

(** Saved, and then reconciled. *)
Lemma saved_fine m id now w w' io :
  load world m id now = Ok w → same_run (wk_rec w) (wk_rec w') → quietly (wk_tasks w) (wk_tasks w') →
  fine id m (match save m w' (wk_tasks w) (io_written io) with
             | (m', Ok _) => (Reconcile contentHash world m' id io, Ok tt)
             | failed => failed
             end).1.
Proof.
  intros Hl Hs Hq. pose proof (action_fine m id now w w' (io_written io) Hl Hs Hq) as Hf.
  destruct (save _ _ _ _) as [m' [[]| | |]]; try done. etrans; [exact Hf|apply Reconcile_fine].
Qed.

Lemma setStatus_fine m id from to reason io : fine id m (setStatus contentHash world m id from to reason io).1.
Proof.
  unfold setStatus. destruct (db_runs _ !! id) as [rec|] eqn:Er; [|done]. destruct (negb _); [done|].
  destruct (io_written io); [|done]. destruct (Save _ _ _ _) as [db'|] eqn:E; [|done]. etrans; [|apply Reconcile_fine].
  intros Hg. pose proof (proj1 Hg _ _ Er) as [G1 G2 G3 G4]. rewrite <- G1 in G2, G4. simpl.
  split; [|rewrite <- G1; by eapply Save_only in E].
  apply (Save_good (mc_db m) rec) in E; try done; simpl; rewrite ?(left_id_L ∅ (∪)); try done. by rewrite G1.
Qed.

Lemma Resume_fine m id io : fine id m (Resume contentHash world m id io).1.
Proof. unfold Resume. destruct (db_runs _ !! id); [|done]. destruct (w_may _) as [[|]|]; [|done|done]. apply setStatus_fine. Qed.

(** Quiet steps over the tasks of a pass's view. *)
Lemma quietly_put m m' id t : quietly m m' →
  (∀ t0, m !! id = Some t0 → quiet t0 t) → (m !! id = None → sound_task id t ∧ neat t ∧ t_State t ∈ still) → quietly m (<[id := t]> m').
Proof.
  intros [Ho Hn] Hold Hnew. split.
  - intros id' t0 H0. destruct (decide (id = id')) as [<-|Hne].
    + exists t. rewrite lookup_insert_eq. split; [done|by apply Hold].
    + rewrite lookup_insert_ne by done. by apply Ho.
  - intros id' t' H0. destruct (decide (id = id')) as [<-|Hne].
    + rewrite lookup_insert_eq. intros [= <-]. by apply Hnew.
    + rewrite lookup_insert_ne by done. by apply Hn.
Qed.

Lemma quiet_still t t' : t_NodeID t' = t_NodeID t → t_RunID t' = t_RunID t ∨ t_RunID t' = EmptyString → t_State t' ∈ still →
  (pending_state t' = true → dispatched t' = false ∧ held t' = false) → quiet t t'.
Proof. intros. split_and!; [done|done|by left]. Qed.

Lemma clear_quiet t reason : quiet t (clear t reason).
Proof. apply quiet_still; [done|by right|by apply one_of_spec|done]. Qed.

Lemma skipped_quiet t stage reason hold : quiet t (set_hold (setState t TaskSkipped stage reason) hold).
Proof. apply quiet_still; [done|by left|by apply one_of_spec|done]. Qed.

Lemma skip_hold_quiet t stage reason hold : quiet t (setState (set_hold t hold) TaskSkipped stage reason).
Proof. apply quiet_still; [done|by left|by apply one_of_spec|done]. Qed.

Lemma clear_upstream_quietly m w : quietly m (wk_tasks w) → quietly m (wk_tasks (clear_upstream_failed w)).
Proof.
  intros [Ho Hn]. unfold clear_upstream_failed. cbn [with_tasks wk_tasks].
  assert (∀ t, quiet t (if String.eqb (t_State t) TaskUpstreamFailed then clear t EmptyString else t)) as Hq
    by (intros t; destruct (String.eqb _ _); [apply clear_quiet|done]).
  split.
  - intros id t (t1 & Ht1 & Hq1)%Ho. rewrite lookup_fmap, Ht1. simpl. eexists. split; [done|]. etrans; [exact Hq1|apply Hq].
  - intros id t' H0. rewrite lookup_fmap. destruct (wk_tasks w !! id) as [t1|] eqn:E; [|done]. intros [= <-].
    destruct (Hn id t1 H0 E) as (H1 & H2 & H3). destruct (quiet_task id t1 _ H1 H2 (Hq t1)) as [H4 H5]. split_and!; [done|done|].
    destruct (String.eqb _ _); [by apply one_of_spec|done].
Qed.

Lemma reopened_same r : same_run r (reopened r).
Proof. unfold reopened. by destruct (final _). Qed.

Lemma taskAction_fine m id nodeID io fn :
  (∀ w t w', wk_tasks w !! nodeID = Some t → fn w t = Ok w' → wk_rec w' = wk_rec w ∧ quietly (wk_tasks w) (wk_tasks w')) →
  fine id m (taskAction contentHash world m id nodeID io fn).1.
Proof.
  intros Hfn. unfold taskAction. destruct (load world m id _) as [w| | |] eqn:El; try done.
  destruct (wk_tasks w !! nodeID) as [t|] eqn:Et; [|done]. destruct (String.eqb _ _); [done|].
  destruct (fn w t) as [w'| | |] eqn:Ef; try done. destruct (Hfn w t w' Et Ef) as [Hr Hq].
  eapply saved_fine; [done| |done]. simpl. rewrite Hr. apply reopened_same.
Qed.

Lemma put_quietly w nodeID t t' : wk_tasks w !! nodeID = Some t → quiet t t' → quietly (wk_tasks w) (wk_tasks (put_task w nodeID t')).
Proof. intros Ht Hq. simpl. apply quietly_put; [done| |]; congruence. Qed.

Lemma Retry_fine m id nodeID io : fine id m (Retry contentHash world m id nodeID io).1.
Proof.
  apply taskAction_fine. intros w t w' Ht. unfold retry_task. destruct (_ && _); [done|]. destruct (_ && _); [done|].
  intros (t1 & Ht1 & [= <-])%bind_ok. split; [done|]. apply clear_upstream_quietly. eapply put_quietly; [done|].
  destruct (String.eqb (t_Hold t) HoldChanged); [destruct (w_content _ _); [|done]|]; injection Ht1 as <-; [|apply clear_quiet].
  apply quiet_still; [done|by right|by apply one_of_spec|done].
Qed.

Lemma Skip_fine m id nodeID io : fine id m (Skip contentHash world m id nodeID io).1.
Proof.
  apply taskAction_fine. intros w t w' Ht. unfold skip_task. destruct (one_of _ _); [done|]. intros [= <-].
  assert (wk_rec (stopTry w t "skipped in the autopilot") = wk_rec w ∧ wk_tasks (stopTry w t "skipped in the autopilot") = wk_tasks w) as [H1 H2]
    by (unfold stopTry; destruct (negb _); [done|]; by destruct (negb _)).
  split; [by destruct (final1 _)|]. apply clear_upstream_quietly. simpl. destruct (final1 _); rewrite ?H2;
    (eapply put_quietly; [done|apply skipped_quiet]).
Qed.

Lemma review_held_quiet nodeID who verdict comment w t w' : wk_tasks w !! nodeID = Some t → review_held nodeID who verdict comment w t = Ok w' →
  wk_rec w' = wk_rec w ∧ quietly (wk_tasks w) (wk_tasks w').
Proof.
  intros Ht. unfold review_held. destruct (_ || _); [done|]. destruct (String.eqb _ _); intros [= <-]; (split; [done|]);
    (eapply put_quietly; [done|]); [|apply clear_quiet]. split_and!; [done|by left|by right].
Qed.

Lemma review_task_quiet nodeID verdict comment w t w' : wk_tasks w !! nodeID = Some t → review_task nodeID verdict comment w t = Ok w' →
  wk_rec w' = wk_rec w ∧ quietly (wk_tasks w) (wk_tasks w').
Proof.
  intros Ht. unfold review_task. destruct (negb _); [done|]. destruct (String.eqb _ _); intros [= <-]; (split; [done|]);
    (eapply put_quietly; [done|]); [|apply clear_quiet]. split_and!; [done|by left|by right].
Qed.

Lemma Review_fine m id nodeID who admin verdict comment io : fine id m (Review contentHash world m id nodeID who admin verdict comment io).1.
Proof.
  unfold Review. destruct (negb _); [done|]. destruct (_ <? _)%nat; [done|]. destruct (db_runs _ !! id) as [rec|] eqn:Er; [|done].
  assert (∀ allowed : bool, fine id m (if negb allowed then (m, Fail ApNotFound)
    else taskAction contentHash world m id nodeID io (review_task nodeID (trim_space verdict) comment)).1) as Hplain.
  { intros [|]; [|done]. apply taskAction_fine. intros w t w'. apply review_task_quiet. }
  destruct (tasks_of _ _ !! nodeID) as [t|]; [|apply Hplain]. destruct (held t).
  - unfold reviewHold. destruct (_ && _); [done|]. intros Hg. destruct (proj1 Hg _ _ Er) as [-> _ _ _]. revert Hg. apply taskAction_fine. intros w t1 w'. apply review_held_quiet.
  - destruct (_ && _); [|apply Hplain]. destruct (_ && _); [done|]. destruct (negb _); [done|]. cbv zeta.
    destruct (w_humanReview _ _); [|done]. etrans; [|apply Reconcile_fine]. by intros Hg.
Qed.

Lemma Cancel_fine m id reason io : fine id m (Cancel world m id reason io).1.
Proof.
  unfold Cancel. destruct (load world m id _) as [w| | |] eqn:El; try done. destruct (final _); [done|].
  assert (∀ kts w1, (∀ kt, kt ∈ kts → wk_tasks w !! kt.1 = Some kt.2) → wk_rec w1 = wk_rec w → quietly (wk_tasks w) (wk_tasks w1) →
    let w' := foldl cancel_task w1 kts in wk_rec w' = wk_rec w ∧ quietly (wk_tasks w) (wk_tasks w')) as Hfold.
  { induction kts as [|[k t] kts IH]; intros w1 Hin Hr Hq; [done|]. cbn [foldl].
    pose proof (Hin (k, t) ltac:(by left)) as Hk. simpl in Hk.
    assert (wk_rec (stopTry w1 t "autopilot cancelled") = wk_rec w1 ∧ wk_tasks (stopTry w1 t "autopilot cancelled") = wk_tasks w1) as [H1 H2]
      by (unfold stopTry; destruct (negb _); [done|]; by destruct (negb _)).
    apply IH; [intros kt ?; apply Hin; by right| |]; unfold cancel_task; cbn [fst snd]; destruct (final1 (t_State t)); try done.
    - simpl. by rewrite H1.
    - simpl. rewrite H2. apply quietly_put; [done| |congruence]. rewrite Hk. intros t0 [= <-]. apply skipped_quiet. }
  destruct (Hfold (map_to_list (wk_tasks w)) w) as [H1 H2]; [by intros [k t] ?%elem_of_map_to_list|done|done|].
  eapply action_fine; [done| |done]. simpl. by rewrite H1.
Qed.

Lemma Adopt_fine m id io : fine id m (Adopt contentHash world m id io).1.
Proof.
  intros Hg. unfold Adopt. destruct (load world m id _) as [w| | |] eqn:El; try done. destruct (w_may _) as [[|]|]; [|done|done].
  destruct (negb _); [done|]. set (statuses := ComputeStatuses _ _).
  match goal with |- context [match ?x with Ok _ => _ | _ => _ end] => destruct x as [w'| | |] eqn:Ex end; try done.
  assert (wk_rec w' = wk_rec w ∧ quietly (wk_tasks w) (wk_tasks w')) as [Hr Hq]; [|].
  { pose proof (load_spec _ _ _ _ El) as (Hrec & Htk & _). pose proof (proj1 Hg _ _ Hrec) as [_ Hord _ _]. rewrite <- Htk in Hord.
    apply bind_ok in Ex as (w1 & H1 & Ex). apply bind_ok in Ex as (w2 & H2 & Ex). destruct (_ <? _)%nat; [done|]. injection Ex as <-.
    assert (∀ ids wa wb, fold_checks (adopt_member contentHash world) wa ids = Ok wb → wk_rec wa = wk_rec w → quietly (wk_tasks w) (wk_tasks wa) →
      wk_rec wb = wk_rec w ∧ quietly (wk_tasks w) (wk_tasks wb)) as Hmember.
    { induction ids as [|i ids IH]; intros wa wb; cbn [fold_checks]; [by intros [= <-]|]. intros (wc & Hc & Hrest)%bind_ok Hra Hqa.
      revert Hc. unfold adopt_member. destruct (wk_tasks wa !! i) as [t|] eqn:Ei; [intros [= <-]; by eapply IH|].
      destruct (w_content _ _) as [body|]; [|done]. intros [= <-]. eapply IH; [exact Hrest|done|]. simpl. apply quietly_put; [done| |].
      - intros t0 H0. destruct (qu_old _ _ Hqa i t0 H0) as (t1 & ? & _). congruence.
      - intros _. destruct (new_task_idle contentHash (wk_dag wa) i body) as (N1 & N2 & N3). split_and!; [done|done|by apply one_of_spec]. }
    destruct (Hmember _ _ _ H1 eq_refl (reflexivity _)) as [R1 Q1].
    assert (∀ ids wa wb, fold_checks (adopt_task contentHash world statuses) wa ids = Ok wb → wk_rec wa = wk_rec w → quietly (wk_tasks w) (wk_tasks wa) →
      wk_rec wb = wk_rec w ∧ quietly (wk_tasks w) (wk_tasks wb)) as Htask; [|by apply (Htask _ _ _ H2)].
    induction ids as [|i ids IH]; intros wa wb; cbn [fold_checks]; [by intros [= <-]|]. intros (wc & Hc & Hrest)%bind_ok Hra Hqa.
    revert Hc. unfold adopt_task. destruct (wk_tasks wa !! i) as [t|] eqn:Ei; [|intros [= <-]; by eapply IH].
    intros (t' & Ht' & [= <-])%bind_ok. eapply IH; [exact Hrest|done|]. simpl.
    assert (quiet t t') as Hqt.
    { revert Ht'. unfold adopt_pending. destruct (final1 (t_State t) || dispatched t) eqn:Ed; [by intros [= <-]|].
      apply orb_false_iff in Ed as [_ Hd]. case_bool_decide; [intros [= <-]; apply skip_hold_quiet|].
      destruct (skippedOnBoard _); [intros [= <-]; apply skip_hold_quiet|]. destruct (w_content _ _) as [body|]; [|done].
      destruct (one_of _ _); intros [= <-].
      - apply quiet_still; [done|by left|by apply one_of_spec|]. intros _. split; [exact Hd|done].
      - split_and!; [done|by left|by right]. }
    destruct (wk_tasks w !! i) as [t0|] eqn:E0.
    - apply quietly_put; [done| |congruence]. intros t1 [= <-]%(eq_trans (eq_sym E0)). destruct (qu_old _ _ Hqa i t0 E0) as (t2 & Ht2 & Hq2).
      rewrite Ei in Ht2. injection Ht2 as <-. by etrans.
    - apply quietly_put; [done|congruence|]. intros _. destruct (qu_new _ _ Hqa i t E0 Ei) as (N1 & N2 & N3).
      destruct (quiet_task i t t' N1 N2 Hqt) as [? ?]. split_and!; [done|done|]. destruct Hqt as (_ & _ & [[? _]|(Hs & _)]); [done|by rewrite Hs]. }
  revert Hg. eapply saved_fine; [done| |done]. simpl. by rewrite Hr.
Qed.

(** ** Creating *)

Lemma find_repo_limit wd pol pol' : find_repo wd pol = Ok pol' → po_MaxParallel pol' = po_MaxParallel pol.
Proof.
  unfold find_repo. destruct (negb _); [by intros [= <-]|]. destruct (w_owned wd); [|done]. cbv zeta.
  destruct (elements _) as [|x [|]]; [done| |done]. by intros [= <-].
Qed.

Lemma ValidatePolicy_limit p p' : ValidatePolicy p = Ok p' → 1 ≤ po_MaxParallel p' ≤ MaxAutopilotParallel.
Proof.
  unfold ValidatePolicy. destruct (negb _); [done|]. cbv zeta. destruct (_ || _) eqn:E; [done|]. destruct ((or_one (po_MaxRounds p) <? 1) || _); [done|].
  destruct (negb (one_of (po_Advisor p) _)); [done|]. intros (r & _ & Hr)%bind_ok. destruct (_ || _) in Hr; [done|]. destruct (_ && _) in Hr; [done|].
  injection Hr as <-. simpl. lia.
Qed.

Lemma first_tasks_idle d wd ids : ∀ m m', fold_checks (first_task contentHash d wd) m ids = Ok m' →
  map_Forall (λ id t, sound_task id t ∧ neat t ∧ active t = false) m → map_Forall (λ id t, sound_task id t ∧ neat t ∧ active t = false) m'.
Proof.
  induction ids as [|id ids IH]; intros m m'; cbn [fold_checks]; [by intros [= <-]|]. intros (m1 & H1 & Hrest)%bind_ok Hm.
  revert H1. unfold first_task. destruct (w_content wd id) as [body|]; [|done]. intros [= <-]. eapply IH; [exact Hrest|].
  apply map_Forall_insert_2; [|done]. apply new_task_idle.
Qed.

Lemma plan_run_spec wd newID project goalID policy actorID actorName stepped r tasks :
  plan_run contentHash wd newID project goalID policy actorID actorName stepped = Ok (r, tasks) →
  ap_ID r = newID ∧ ap_Project r = project ∧ ap_GoalNodeID r = goalID ∧ ap_Status r = AutopilotRunning ∧
  1 ≤ po_MaxParallel (ap_Policy r) ≤ MaxAutopilotParallel ∧
  map_Forall (λ id t, sound_task id t ∧ neat t ∧ active t = false) tasks.
Proof.
  unfold plan_run. destruct (negb (ValidNodeID goalID)); [done|]. intros (pol & Hpol & Hx)%bind_ok.
  destruct (ValidatePolicy policy) as [p| | |] eqn:Ev; try done. injection Hpol as ->. apply ValidatePolicy_limit in Ev.
  revert Hx. destruct (w_graph wd) as [[g rs]|]; [|done]. destruct (NodeByID g goalID) as [goal|]; [|done]. cbv zeta.
  destruct (negb _); [done|]. destruct (buildDAG _ _) as [d|]; [|done]. destruct (_ && _); [done|]. destruct (_ <? _)%nat; [done|].
  intros (ts & Hts & (pol' & Hp & [= <- <-])%bind_ok)%bind_ok. simpl. apply find_repo_limit in Hp. rewrite Hp. split_and!; try done; try lia.
  by eapply first_tasks_idle.
Qed.

Lemma Create_fine m newID project goalID policy actorID actorName stepped io :
  fine newID m (Create contentHash world m newID project goalID policy actorID actorName stepped io).1 ∧
  (is_Some (db_runs (mc_db m) !! newID) → mc_db (Create contentHash world m newID project goalID policy actorID actorName stepped io).1 = mc_db m).
Proof.
  unfold Create.
  match goal with |- context [match ?x with Ok _ => _ | _ => _ end] => destruct x as [db| | |] eqn:Ex end; try done.
  apply bind_ok in Ex as ([r tasks] & Hplan & Hins). apply plan_run_spec in Hplan as (Hid & Hp & Hgo & Hst & Hlim & Htasks).
  destruct (io_written io); [|done]. revert Hins. unfold insert_run.
  destruct (_ || _) eqn:El; [done|]. intros [= <-]. apply orb_false_iff in El as [Hl Hfresh%bool_decide_eq_false].
  split; [|by rewrite <- Hid]. apply eq_None_not_Some in Hfresh. etrans; [|apply Reconcile_fine]. intros Hg. simpl.
  split; [|intros id' Hne; unfold tasks_of; simpl; by rewrite !lookup_insert_ne by congruence].
  assert (∀ id r', db_runs (mc_db m) !! id = Some r' → same_goal r r' = true → live_run r' = false) as Hnone.
  { intros id r' Hr' Hsg. destruct (live_run r') eqn:Ev; [|done]. exfalso. apply not_true_iff_false in Hl. apply Hl.
    apply existsb_exists. exists r'. rewrite Hsg, Ev. split; [|done]. apply list_elem_of_In, list_elem_of_fmap. exists (id, r').
    split; [done|]. by apply elem_of_map_to_list. }
  destruct Hg as [Hall Hlive]. split.
  - intros id r'. simpl. destruct (decide (ap_ID r = id)) as [<-|Hne].
    + rewrite lookup_insert_eq. intros [= <-]. unfold tasks_of. split; unfold tasks_of; simpl; rewrite ?lookup_insert_eq; simpl; try done.
      * split; intros i t Ht; by destruct (Htasks i t Ht) as (? & ? & _).
      * assert (count active tasks ≤ count active ∅); [|change (count active ∅) with 0 in *; lia]. apply count_le. intros i t Ht Ha.
        destruct (Htasks i t Ht) as (_ & _ & ?). congruence.
    + rewrite lookup_insert_ne by done. intros Hr'. destruct (Hall _ _ Hr') as [G1 G2 G3 G4].
      split; unfold tasks_of in *; simpl; rewrite ?lookup_insert_ne by done; done.
  - intros id1 id2 r1 r2. simpl. destruct (decide (ap_ID r = id1)) as [<-|N1], (decide (ap_ID r = id2)) as [<-|N2];
      rewrite ?lookup_insert_eq, ?lookup_insert_ne by done.
    + done.
    + intros [= <-] H2 Hs _ V2. by rewrite (Hnone _ _ H2 Hs) in V2.
    + intros H1 [= <-] Hs V1 _. rewrite (Hnone _ _ H1) in V1; [done|]. apply same_goal_spec. apply same_goal_spec in Hs. naive_solver.
    + apply Hlive.
Qed.

(** What a command is about. *)
Definition subject (cmd : Command) : string :=
  match cmd with
  | CPass id _ _ | CCreate id _ _ _ _ _ _ _ | CPause id _ | CResume id _ | CAdopt id _ | CCancel id _ _
  | CRetry id _ _ | CSkip id _ _ | CReview id _ _ _ _ _ _ => id
  end.

Lemma perform_fine cmd m : fine (subject cmd) m (perform world cmd m).
Proof.
  destruct cmd; simpl.
  - apply reconcile_fine.
  - apply Create_fine.
  - apply setStatus_fine.
  - apply Resume_fine.
  - apply Adopt_fine.
  - apply Cancel_fine.
  - apply Retry_fine.
  - apply Skip_fine.
  - apply Review_fine.
Qed.

(** A cancelled autopilot's record and tasks, which no command changes. *)
Lemma cancelled_still cmd m id r :
  good_db (mc_db m) → db_runs (mc_db m) !! id = Some r → ap_Status r = AutopilotCancelled →
  db_runs (mc_db (perform world cmd m)) !! id = Some r ∧ tasks_of (mc_db (perform world cmd m)) id = tasks_of (mc_db m) id.
Proof.
  intros Hg Hr Hst. destruct (decide (id = subject cmd)) as [->|Hne].
  2: { destruct (perform_fine cmd m Hg) as [_ Ho]. destruct (Ho id Hne) as [-> ->]. done. }
  assert (mc_db (perform world cmd m) = mc_db m) as ->; [|done].
  assert (∀ acts now, match load world (mkMachine (mc_db m) acts) (subject cmd) now with Ok w => wk_rec w = r | _ => True end) as Hload'.
  { intros acts now. unfold load. cbn [mc_db]. rewrite Hr. destruct (w_graph _) as [[g rs]|]; [|done]. by destruct (buildDAG _ _). }
  assert (∀ now, match load world m (subject cmd) now with Ok w => wk_rec w = r | _ => True end) as Hload
    by (destruct m; apply Hload').
  assert (∀ acts now written, mc_db (reconcileLocked contentHash world (mkMachine (mc_db m) acts) (subject cmd) now written).1 = mc_db m) as Hrec.
  { intros acts now written. unfold reconcileLocked. specialize (Hload' acts now). destruct (load _ _ _ _); try done. by rewrite Hload', Hst. }
  assert (∀ nodeID io fn, mc_db (taskAction contentHash world m (subject cmd) nodeID io fn).1 = mc_db m) as Htask.
  { intros nodeID io fn. unfold taskAction. specialize (Hload (io_now io)). destruct (load _ _ _ _); try done.
    destruct (_ !! nodeID); [|done]. by rewrite Hload, Hst. }
  assert (∀ to reason io, mc_db (setStatus contentHash world m (subject cmd) AutopilotRunning to reason io).1 = mc_db m ∧
                          mc_db (setStatus contentHash world m (subject cmd) AutopilotPaused to reason io).1 = mc_db m) as Hset
    by (intros to reason io; unfold setStatus; by rewrite Hr, Hst).
  destruct cmd; cbn [perform subject] in *.
  - destruct m. apply Hrec.
  - by apply Create_fine.
  - apply Hset.
  - unfold Resume. rewrite Hr. destruct (w_may _) as [[|]|]; [apply Hset|done|done].
  - unfold Adopt. specialize (Hload (io_now io)). destruct (load _ _ _ _); try done. destruct (w_may _) as [[|]|]; try done.
    by rewrite Hload, Hst.
  - unfold Cancel. specialize (Hload (io_now io)). destruct (load _ _ _ _); try done. by rewrite Hload, Hst.
  - apply Htask.
  - apply Htask.
  - destruct (proj1 Hg _ _ Hr) as [Hid _ _ _]. unfold Review. rewrite Hr. destruct (negb _); [done|]. destruct (_ <? _)%nat; [done|].
    destruct (tasks_of _ _ !! _) as [t|]; [|destruct (negb _); [done|apply Htask]]. destruct (held t).
    + unfold reviewHold. rewrite Hid. destruct (_ && _); [done|apply Htask].
    + destruct (_ && _); [|destruct (negb _); [done|apply Htask]]. destruct (_ && _); [done|]. destruct (negb _); [done|]. cbv zeta.
      destruct (w_humanReview _ _); [apply Hrec|done].
Qed.
End Step.

Lemma history_good steps m : Forall (λ s, real_ids s.1) steps → good_db (mc_db m) → good_db (mc_db (history steps m)).
Proof.
  intros Hall. revert m. induction Hall as [|[world cmd] steps Hw _ IH]; intros m Hg; [done|]. apply IH. by apply (perform_fine world Hw).
Qed.

(** The machine before anything happened. *)
Definition fresh : Machine := mkMachine (mkDb ∅ ∅) [].

Lemma fresh_good : good_db (mc_db fresh).
Proof. split; [by intros id r ?|by intros id1 id2 r1 r2 ?]. Qed.
End Histories.
