(* ===== verification/AutopilotGoals.v ===== *)
(** The autopilot's guarantees, over every history of passes and API calls:
    how much it works at once, what it starts, what it merges, how failures
    spread and what a cancellation leaves. *)

From S2P Require Import Prelude GoStr GoFloat GoTime Dsl Graph NodeTypes Workflow Roles State Readiness Dag DagFacts Runs TaskRun AutoPolicy Autopilot GoalFlow Orchestrator AutopilotFacts PassFacts OrchestratorFacts.
From Stdlib Require Import Ascii.
Open Scope Z_scope.

(** ** An example *)

(** A goal of two tasks, a runner that can work them, and a dispatcher that
    starts whatever it is asked to. *)
Definition demo_graph : Graph :=
  plain_graph [plain_node "goal" "task" EmptyString; plain_node "a" "task" EmptyString; plain_node "b" "task" EmptyString]
    [mkEdge "a" "goal" EmptyString EmptyString; mkEdge "b" "goal" EmptyString EmptyString].

Definition demo_runner : Runner :=
  mkRunner "r1" "r1" "u" true (Some (mkRunnerInfo [mkAgentInfo "claude" true []] [mkRepo "repo" "repo" true] [CapHeadless] 1)).

(** A run that ended well, with a green pull request. *)
Definition demo_run (id : string) : RunRecord :=
  mkRun id "r1" EmptyString JobImplement "claude" EmptyString RunSucceeded EmptyString "2026" "2026" "2026" "c1" "br" "pr/1" EmptyString
    EmptyString "c1" CISuccess None EmptyString None [] false EmptyString EmptyString.

Definition demo_world (_ : list Act) : World :=
  mkWorld (Some (demo_graph, None)) (λ id, Some ("do " +:+ id)) (λ _, EmptyString) (λ _ _, true) (Some true) (Some [demo_runner])
    (λ _, Some 0) (Some []) (λ _ _ s, s) (λ _ _ _ _, None) (λ id, Some (demo_run id)) (λ _, Some [demo_run "run"])
    (λ _, None) (λ _, None) (λ _, Some (Some (mkRunChanges "c1" "main" [mkFileChange "main.go" EmptyString "modified" 1 0] 1 0 EmptyString false)))
    (λ _, Started "run" EmptyString "2026") (λ _ _, Merging) (λ _, true) 0.

Definition demo_policy : AutopilotPolicy :=
  mkPolicy [] (mkReviewPolicy EmptyString [] 0 false) 1 1 true true EmptyString EmptyString EmptyString.

Definition demo_hash (title body : string) : string := title +:+ body.
Definition demo_io : Io := mkIo "2026" true "2026" true.

Lemma demo_ids : real_ids demo_world.
Proof. intros acts req run pipeline at_ [= <- _ _]. by vm_compute. Qed.

Definition demo_steps : list ((list Act → World) * Command) :=
  [(demo_world, CCreate "ap" "p" "goal" demo_policy "u" "U" EmptyString demo_io)].

Lemma demo_steps_ids : Forall (λ s, real_ids s.1) demo_steps.
Proof. repeat constructor. apply demo_ids. Qed.

(** * The guarantees *)

Section Goals.
Context `{Unicode}.
Variable contentHash : string → string → string.

Lemma reached_good steps : Forall (λ s, real_ids s.1) steps → good_db (mc_db (history contentHash steps fresh)).
Proof. intros Hs. apply history_good; [done|apply fresh_good]. Qed.

(** C10: the policy's limit is kept. Whatever passes ran and whatever people
    created, paused, resumed, adopted, retried, skipped, reviewed or cancelled,
    in any order and with any answers of the world and any writes failing, no
    autopilot has more tasks in progress than its policy's MaxParallel, which
    is between 1 and 8. *)
Theorem never_more_than_allowed steps id r :
  Forall (λ s, real_ids s.1) steps →
  let m := history contentHash steps fresh in
  db_runs (mc_db m) !! id = Some r →
  count active (tasks_of (mc_db m) id) ≤ po_MaxParallel (ap_Policy r) ∧ 1 ≤ po_MaxParallel (ap_Policy r) ≤ 8.
Proof. intros Hs m Hr. by destruct (proj1 (reached_good steps Hs) _ _ Hr) as [_ _ ? ?]. Qed.

(** C19: one goal, one autopilot. After any such history no two autopilots that
    are running or paused work the same goal of the same project, every record
    is stored under its own id, and every task of it under its node's id in a
    state the autopilot knows, a task that waits to start having no try and no
    hold. *)
Theorem one_autopilot_per_goal steps :
  Forall (λ s, real_ids s.1) steps →
  let db := mc_db (history contentHash steps fresh) in
  (∀ id1 id2 r1 r2, db_runs db !! id1 = Some r1 → db_runs db !! id2 = Some r2 →
     one_of (ap_Status r1) [AutopilotRunning; AutopilotPaused] = true → one_of (ap_Status r2) [AutopilotRunning; AutopilotPaused] = true →
     ap_Project r1 = ap_Project r2 → ap_GoalNodeID r1 = ap_GoalNodeID r2 → id1 = id2) ∧
  (∀ id r, db_runs db !! id = Some r → ap_ID r = id ∧
     ∀ node t, tasks_of db id !! node = Some t → t_NodeID t = node ∧ t_State t ∈ task_states ∧
       (pending_state t = true → dispatched t = false ∧ held t = false)).
Proof.
  intros Hs db. destruct (reached_good steps Hs) as [Hall Hlive]. split.
  - intros id1 id2 r1 r2 H1 H2 V1 V2 Hp Hg. apply (Hlive id1 id2 r1 r2); try done. by apply same_goal_spec.
  - intros id r Hr. destruct (Hall _ _ Hr) as [Hid [Ho1 Ho2] _ _]. split; [done|]. intros node t Ht.
    destruct (Ho1 node t Ht) as [? ?]. by destruct (Ho2 node t Ht) as [[? _ _] _].
Qed.

(** ** What a pass may do *)

(** What a pass of an autopilot is, once its work is loaded. *)
Definition pass_of (world : list Act → World) (m m' : Machine) (r : Record_) (w : work) (acts : list Act) : Prop :=
  mc_acts m' = mc_acts m ++ acts ∧
  (acts = [] ∨
   wk_rec w = r ∧ wk_acts w = mc_acts m ∧ ordered (wk_tasks w) ∧ final (ap_Status r) = false ∧ w_may (world (mc_acts m)) = Some true ∧
   ∀ a, a ∈ acts → pass_act contentHash world w a).

Lemma save_acts m w before written : mc_acts (save m w before written).1 = wk_acts w.
Proof. unfold save. destruct (_ && _); [done|]. by destruct (if written then _ else _). Qed.

Lemma reconcile_pass world m id now written r :
  real_ids world → good_db (mc_db m) → db_runs (mc_db m) !! id = Some r →
  let m' := (reconcileLocked contentHash world m id now written).1 in
  mc_acts m' = mc_acts m ∨
  ∃ w acts, load world m id now = Ok w ∧ pass_of world m m' r w acts.
Proof.
  intros Hids Hg Hr m'. unfold m', reconcileLocked. destruct (load world m id now) as [w| | |] eqn:El; try by left.
  pose proof (load_spec _ _ _ _ _ El) as (Hrec & Ht & Ha & _). rewrite Hr in Hrec. injection Hrec as Hrec.
  destruct (load_good _ _ _ _ _ Hg El) as (_ & _ & _ & Ho & _).
  destruct (final _) eqn:Ef; [by left|]. destruct (w_may _) as [[|]|] eqn:Em; [| |by left].
  - right. destruct (run_pass_spec contentHash world Hids w Ho) as [_ _ _ _ (acts & Hacts & Hall)].
    exists w, acts. split; [done|]. split; [by rewrite save_acts, Hacts, Ha|]. right. rewrite Hrec. by split_and!.
  - left. rewrite save_acts. by destruct (is_running w).
Qed.

(** What merging a pull request took, read off the world as [seen] left it: the
    try's pipeline is approved, or its last run succeeded with a pull request;
    the checks are green; the merge names the pull request's run and the head
    it was read at; and a person is to approve every merge, or approved this
    one, or every change of the try is known, none of it sensitive, and the head
    is a commit the try made. *)
Record cleared (world : list Act → World) (policy : AutopilotPolicy) (seen : list Act) (t : TaskInstance) (run head : string) : Prop := {
  cl_auto : po_AutoMerge policy = true;
  cl_approved : ∃ obs stamp, observe (world seen) t = Ok obs ∧ dv_ci (derive obs stamp) = CISuccess ∧
    match ob_pipeline obs with
    | Some p => pr_Status p = PipelineApproved
    | None => ∃ r, last (ob_runs obs) = Some r ∧ run_Status r = RunSucceeded ∧ run_PRURL r ≠ EmptyString
    end;
  cl_head : ∃ t' obs pr, t_NodeID t' = t_NodeID t ∧ t_PipelineID t' = t_PipelineID t ∧ observe (world seen) t' = Ok obs ∧
    ob_prRun obs = Some pr ∧ run_ID pr = run ∧ run_PRHeadSHA pr = head ∧
    (humanReview policy = true ∨ (t_Hold t = HoldSensitive ∧ t_HumanVerdict t = VerdictApprove) ∨ checked_changes (world seen) obs head);
}.

(** C11: nothing is merged unanswered for. Whatever came before, a pass asks for
    nothing at all when its autopilot is over or its creator may no longer
    change the project; and every merge it asks for is of a task it was still
    working, under a policy that merges, approved, with green checks, at the
    head that was looked at, and either left to a person's approval or found
    to change nothing sensitive. *)
Theorem nothing_merges_unanswered steps world id now written r :
  Forall (λ s, real_ids s.1) steps → real_ids world →
  let m := history contentHash steps fresh in
  db_runs (mc_db m) !! id = Some r →
  ∃ acts, mc_acts (reconcileLocked contentHash world m id now written).1 = mc_acts m ++ acts ∧
    (acts ≠ [] → final (ap_Status r) = false ∧ w_may (world (mc_acts m)) = Some true) ∧
    ∀ run head, AMerge run head ∈ acts → ∃ seen t, final1 (t_State t) = false ∧ cleared world (ap_Policy r) seen t run head.
Proof.
  intros Hs Hids m Hr. destruct (reconcile_pass world m id now written r Hids (reached_good steps Hs) Hr) as [Ha|(w & acts & Hl & Ha & Hcase)].
  { exists []. rewrite app_nil_r. split_and!; [done|done|by intros ? ? ?%elem_of_nil]. }
  exists acts. split; [done|]. destruct Hcase as [->|(Hrec & _ & _ & Hf & Hm & Hall)]; [split; [done|by intros ? ? ?%elem_of_nil]|].
  split; [done|]. intros run head Hin. destruct (Hall _ Hin) as (w1 & nid & t & Hfr & Ht & Hfin & Hallow).
  exists (wk_acts w1), t. split; [done|]. rewrite <- Hrec, <- (sf_rec _ _ Hfr).
  destruct Hallow as (d & obs & pr & (obs0 & Hobs0 & Hd & Hph) & Hci & Hauto & Hobs & Hpr & <- & <- & Hwho). subst d. split.
  - done.
  - exists obs0, (wk_now w1). split_and!; [done|done|]. by apply (derive_approved obs0 (wk_now w1)).
  - eexists _, obs, pr. split_and!; [| |exact Hobs|done|done|done|]; [done|done|].
    destruct Hwho as [?|[?|Hhold]]; [by left|right; by left|right; right]. by eapply mergeHold_spec.
Qed.

(** C23: only what is ready starts. Every run a pass asks for is of a running
    autopilot; it is the planner's or QA's run on the goal itself, or the try of
    a task that was waiting, with everything it waits on in the goal settled,
    nothing outside the goal blocking it, the content it was created or adopted
    with, and one of the creator's runners that is online, headless, has the
    policy's repository and the agent asked for. *)
Theorem only_ready_work_starts steps world id now written r :
  Forall (λ s, real_ids s.1) steps → real_ids world →
  let m := history contentHash steps fresh in
  db_runs (mc_db m) !! id = Some r →
  ∃ acts, mc_acts (reconcileLocked contentHash world m id now written).1 = mc_acts m ++ acts ∧
    ∀ req, AStart req ∈ acts → ap_Status r = AutopilotRunning ∧
      ((sq_Role req ∈ [RolePlanner; RoleQA] ∧ sq_NodeID req = ap_GoalNodeID r) ∨
       ∃ g rs d w, w_graph (world (mc_acts m)) = Some (g, rs) ∧ buildDAG (Some g) (ap_GoalNodeID r) = Some d ∧
         wk_dag w = d ∧ wk_graph w = g ∧ ap_CreatedBy (wk_rec w) = ap_CreatedBy r ∧ ap_Policy (wk_rec w) = ap_Policy r ∧
         due contentHash world w (ComputeStatuses g (wk_state w)) req).
Proof.
  intros Hs Hids m Hr. destruct (reconcile_pass world m id now written r Hids (reached_good steps Hs) Hr) as [Ha|(w & acts & Hl & Ha & Hcase)].
  { exists []. rewrite app_nil_r. split; [done|by intros ? ?%elem_of_nil]. }
  exists acts. split; [done|]. destruct Hcase as [->|(Hrec & _ & _ & _ & _ & Hall)]; [by intros ? ?%elem_of_nil|].
  intros req Hin. destruct (Hall _ Hin) as [Hrun Hkind]. rewrite Hrec in Hkind. unfold is_running in Hrun. rewrite Hrec in Hrun.
  split; [by apply String.eqb_eq|]. destruct Hkind as [(w1 & Hd & Hg & Hsame & Hdue)|?]; [right|by left].
  revert Hl. unfold load. rewrite Hr. destruct (w_graph _) as [[g rs]|] eqn:Eg; [|done]. destruct (buildDAG _ _) as [d|] eqn:Ed; [|done].
  intros [= <-]. simpl in *. exists g, rs, d, w1. rewrite Hg in Hdue. split_and!; try done; apply Hsame.
Qed.

(** ** Failures *)

(** C27: failures reach everything that waits on them, and nothing else. The
    rounds of propagateFailures settle within one per task; then no task of the
    goal waits to start on a task that failed, every task that changed was
    waiting, failed as upstream_failed and has a failed task upstream, and all
    others are as they were. *)
Theorem failures_spread_exactly w :
  ordered (wk_tasks w) →
  let w' := propagateFailures w in
  (∀ id t, id ∈ dg_order (wk_dag w') → wk_tasks w' !! id = Some t → pending_state t = true →
     ∀ up u, up ∈ dag_up (wk_dag w') id → wk_tasks w' !! up = Some u → failed_task u = false) ∧
  (∀ id t, wk_tasks w !! id = Some t → ∃ t', wk_tasks w' !! id = Some t' ∧
     (t' = t ∨ pending_state t = true ∧ t_State t' = TaskUpstreamFailed ∧
       ∃ up u, up ∈ dag_up (wk_dag w) id ∧ wk_tasks w' !! up = Some u ∧ failed_task u = true)) ∧
  wk_acts w' = wk_acts w ∧ wk_rec w' = wk_rec w.
Proof.
  intros [Hs _] w'. pose proof (propagateFailures_spec w Hs) as Hspec. fold w' in Hspec. destruct Hspec as [[(Hf & _ & Ha) _ Hb] Hfix]. split_and!.
  - intros id t Hid Ht Hp up u Hup Hu. pose proof (failed_upstream_spec w' id) as Hspec. rewrite (Hfix id t Hid Ht Hp) in Hspec. by eapply Hspec.
  - intros id t Ht. specialize (Hb id). rewrite Ht in Hb. destruct (wk_tasks w' !! id) as [t'|]; [|done].
    exists t'. split; [done|]. destruct Hb as [->|(? & ? & _ & _ & ?)]; [by left|by right].
  - done.
  - apply Hf.
Qed.

(** ** Cancelling *)

Definition stop_acts (kt : string * TaskInstance) : list Act :=
  if final1 (t_State kt.2) then []
  else if negb (String.eqb (t_PipelineID kt.2) EmptyString) then [ACancelPipeline (t_PipelineID kt.2) "autopilot cancelled"]
  else if negb (String.eqb (t_RunID kt.2) EmptyString) then [ACancelRun (t_RunID kt.2) "autopilot cancelled"] else [].

Lemma final_still state : final1 state = true → state ∈ still ∧ state ∈ task_states.
Proof.
  intros Hf%one_of_spec. repeat (apply elem_of_cons in Hf as [->|Hf]; [split; by apply one_of_spec|]). by apply elem_of_nil in Hf.
Qed.

Lemma final_inactive t : final1 (t_State t) = true → active t = false.
Proof. intros Hf. by apply still_idle, final_still. Qed.

(** Saving tasks that all ended stores ended tasks. *)
Lemma saved_final m m' : map_Forall (λ _, neat) m →
  (∀ id t, m !! id = Some t → ∃ t', m' !! id = Some t' ∧ final1 (t_State t') = true) → (∀ id, m !! id = None → m' !! id = None) →
  ∀ id t, (changed_tasks m m' ∪ m) !! id = Some t → final1 (t_State t) = true.
Proof.
  intros Hsh Hfin Hdom id t Ht.
  assert (keeps_slots m m') as Hk.
  { intros i t0 H0. destruct (Hfin i t0 H0) as (t' & H1 & Hf). exists t'. split; [done|]. intros Hs Ha. rewrite Hs in Hf.
    apply final_inactive in Hf. congruence. }
  assert (∀ i t', m' !! i = Some t' → final1 (t_State t') = true) as Hall.
  { intros i t' Hi. destruct (m !! i) as [t0|] eqn:E; [|by rewrite (Hdom i E) in Hi]. destruct (Hfin i t0 E) as (t1 & H1 & ?). congruence. }
  destruct (saved_lookup m m' id Hk) as [He|(t1 & t' & He & Hm & Hm' & Hfp)]; rewrite Ht in He; [by eapply Hall|].
  injection He as <-. rewrite (fingerprint_state t t'); [by eapply Hall|by destruct (Hsh id t Hm) as [[] _]|by eapply final_still, Hall|done].
Qed.

Lemma cancel_fold kts w : NoDup kts.*1 → (∀ kt, kt ∈ kts → wk_tasks w !! kt.1 = Some kt.2) →
  let w' := foldl cancel_task w kts in
  wk_acts w' = wk_acts w ++ flat_map stop_acts kts ∧
  wk_rec w' = wk_rec w ∧
  (∀ id, id ∉ kts.*1 → wk_tasks w' !! id = wk_tasks w !! id) ∧
  (∀ kt, kt ∈ kts → ∃ t', wk_tasks w' !! kt.1 = Some t' ∧ final1 (t_State t') = true).
Proof.
  revert w. induction kts as [|[k t] kts IH]; intros w Hnd Hin; [split_and!; [by rewrite app_nil_r|done..|by intros kt ?%elem_of_nil]|].
  cbn [foldl fmap list_fmap fst snd] in *. apply NoDup_cons in Hnd as [Hni Hnd].
  pose proof (Hin (k, t) ltac:(by left)) as Hk. simpl in Hk. set (w1 := cancel_task w (k, t)).
  assert (wk_acts w1 = wk_acts w ++ stop_acts (k, t) ∧ wk_rec w1 = wk_rec w ∧ (∀ id, id ≠ k → wk_tasks w1 !! id = wk_tasks w !! id) ∧
          ∃ t', wk_tasks w1 !! k = Some t' ∧ final1 (t_State t') = true) as (A1 & R1 & K1 & t' & T1 & F1).
  { unfold w1, cancel_task, stop_acts, stopTry. cbn [fst snd]. destruct (final1 (t_State t)) eqn:Ef.
    { split_and!; [by rewrite app_nil_r|done|done|]. by exists t. }
    split_and!.
    - destruct (negb _); [done|]. destruct (negb _); [done|]. simpl. by rewrite app_nil_r.
    - destruct (negb _); [done|]. by destruct (negb _).
    - intros id Hne. simpl. rewrite lookup_insert_ne by done. destruct (negb _); [done|]. by destruct (negb _).
    - eexists. simpl. rewrite lookup_insert_eq. done. }
  destruct (IH w1 Hnd) as (A2 & R2 & K2 & T2).
  { intros [k' t''] Hkt. cbn [fst snd]. rewrite K1; [apply (Hin (k', t'')); by right|]. intros ->. apply Hni, list_elem_of_fmap. by exists (k, t''). }
  split_and!.
  - rewrite A2, A1, <- (assoc_L (++)). done.
  - congruence.
  - intros id Hid. apply not_elem_of_cons in Hid as [H1 H2]. rewrite K2 by done. by apply K1.
  - intros kt [->|Hkt]%elem_of_cons; [|by apply T2]. cbn [fst]. exists t'. split; [|done]. by rewrite K2.
Qed.

(** C26: a cancelled autopilot is over. A cancel that succeeds on one that was
    not leaves its record cancelled and every task ended, and has asked for the
    pipeline, or else the run, of every task still in progress to be stopped,
    and for nothing else; and from then on no command of any kind, in any world,
    changes the record or a task of it. *)
Theorem cancelled_is_over steps world m id reason io m' :
  Forall (λ s, real_ids s.1) steps → m = history contentHash steps fresh →
  Cancel world m id reason io = (m', Ok tt) →
  (∃ r, db_runs (mc_db m') !! id = Some r ∧ ap_Status r = AutopilotCancelled) ∧
  (∀ node t, tasks_of (mc_db m') id !! node = Some t → final1 (t_State t) = true) ∧
  mc_acts m' = mc_acts m ++ flat_map stop_acts (map_to_list (tasks_of (mc_db m) id)) ∧
  ∀ world' cmd, real_ids world' →
    db_runs (mc_db (perform contentHash world' cmd m')) !! id = db_runs (mc_db m') !! id ∧
    tasks_of (mc_db (perform contentHash world' cmd m')) id = tasks_of (mc_db m') id.
Proof.
  intros Hs Hm Hc. assert (good_db (mc_db m)) as Hg by (rewrite Hm; by apply reached_good).
  assert (good_db (mc_db m')) as Hg'.
  { replace m' with (Cancel world m id reason io).1 by by rewrite Hc. by apply Cancel_fine. }
  assert ((∃ r, db_runs (mc_db m') !! id = Some r ∧ ap_Status r = AutopilotCancelled) ∧
    (∀ node t, tasks_of (mc_db m') id !! node = Some t → final1 (t_State t) = true) ∧
    mc_acts m' = mc_acts m ++ flat_map stop_acts (map_to_list (tasks_of (mc_db m) id))) as (Hr & Hfin & Hacts).
  { clear Hs Hm Hg'. revert Hc. unfold Cancel. destruct (load world m id _) as [w| | |] eqn:El; try done.
    destruct (load_good _ _ _ _ _ Hg El) as (Hid & _ & _ & [_ Ho] & _). pose proof (load_spec _ _ _ _ _ El) as (_ & Ht & Ha & _).
    destruct (final _); [done|].
    destruct (cancel_fold (map_to_list (wk_tasks w)) w) as (A & R & K & F).
    { apply NoDup_fst_map_to_list. }
    { by intros [k t] ?%elem_of_map_to_list. }
    set (w1 := foldl cancel_task w _) in *. intros Hsave.
    pose proof (save_acts m (with_rec w1 (set_status (wk_rec w1) AutopilotCancelled (firstNonEmpty [reason; "cancelled"]))) (wk_tasks w) (io_written io)) as Hacts.
    rewrite Hsave in Hacts. simpl in Hacts. split_and!; [| |by rewrite Hacts, A, Ha, Ht].
    - revert Hsave. unfold save. rewrite andb_false_r. destruct (io_written io); [|done].
      destruct (Save _ _ _ _) as [db|] eqn:E; [|done]. intros [= <-]. apply Save_spec in E as (Hruns & _ & _). simpl in *.
      rewrite R, Hid in Hruns. rewrite Hruns, lookup_insert_eq. eexists. split; [done|]. apply stored_same.
    - revert Hsave. unfold save. rewrite andb_false_r. destruct (io_written io); [|done].
      destruct (Save _ _ _ _) as [db|] eqn:E; [|done]. intros [= <-]. apply Save_spec in E as (_ & Htasks & _). simpl in *.
      rewrite R, Hid in Htasks. unfold tasks_of at 1. rewrite Htasks, lookup_insert_eq, <- Ht. simpl. apply saved_final; [done| |].
      + intros node t Hn. apply (F (node, t)). by apply elem_of_map_to_list.
      + intros node Hn. rewrite K; [done|]. intros ([k t] & -> & Hin%elem_of_map_to_list)%list_elem_of_fmap. simpl in Hn. congruence. }
  split_and!; [done..|]. intros world' cmd Hids. destruct Hr as (r & Hr & Hst).
  destruct (cancelled_still contentHash world' Hids cmd m' id r Hg' Hr Hst) as [-> ->]. by rewrite Hr.
Qed.
(** ** Reopened goals *)

(** What follows the refresh of a pass over a goal that is done does nothing. *)
Lemma done_goal_waits world w : ap_GoalPhase (wk_rec w) = GoalPhaseDone → goalFlow contentHash world w = w.
Proof. intros Hp. unfold goalFlow. cbn [goal_steps]. unfold phase_step. rewrite Hp. simpl. by rewrite Hp. Qed.

(** A staged goal that was done and is reopened stands still. Retrying or
    skipping a task of it sets the autopilot running again, but the goal stays in
    its done phase: a pass over it leaves the record as it is, neither ended nor
    moved to another phase, and starts no run, whatever tasks are ready. *)
Theorem reopened_goal_stands_still world w :
  sound_tasks (wk_tasks w) → ap_Workflow (wk_rec w) ≠ None → ap_GoalPhase (wk_rec w) = GoalPhaseDone →
  wk_rec (run_pass contentHash world w) = wk_rec w ∧
  ∃ acts, wk_acts (run_pass contentHash world w) = wk_acts w ++ acts ∧ ∀ req, AStart req ∉ acts.
Proof.
  intros Hs Hw Hp. unfold run_pass. cbv zeta.
  destruct (syncMembers_spec contentHash world w Hs) as (S1 & _ & F1 & _ & A1). set (w1 := syncMembers contentHash world w) in *.
  destruct (refresh_spec contentHash world w1 S1) as (S2 & _ & F2 & acts & A2 & R2). set (w2 := refresh world w1) in *.
  destruct (propagateFailures_spec w2 S2) as [[(F3 & _ & A3) _ _] _]. set (w3 := propagateFailures w2) in *.
  assert (wk_rec w3 = wk_rec w) as Hr by (rewrite (sf_rec _ _ F3), (sf_rec _ _ F2); apply F1).
  rewrite Hr, bool_decide_eq_true_2, done_goal_waits by (by rewrite ?Hr). split; [done|]. exists acts.
  split; [by rewrite A3, A2, A1|]. intros req Hin. by destruct (R2 _ Hin) as (? & ? & ? & _ & _ & _ & ?).
Qed.
End Goals.

(** ** Policies *)

Lemma settle_review_spec r r' : settle_review r = Ok r' →
  settle_review r' = Ok r' ∧ 0 ≤ rp_Quorum r' ≤ Z.of_nat (length (rp_Reviewers r')) ∧ (length (rp_Reviewers r') ≤ MaxReviewers)%nat ∧
  forallb (λ am, ValidateAgentModel am false) (rp_Reviewers r') = true ∧
  (one_of (rp_Mode r') [ReviewAgents; ReviewAgentsHuman] = true → rp_Reviewers r' ≠ []).
Proof.
  unfold settle_review. set (mode := if String.eqb (rp_Mode r) EmptyString then _ else _).
  assert (mode ≠ EmptyString) as Hmode by (unfold mode; by destruct (String.eqb_spec (rp_Mode r) EmptyString)).
  apply String.eqb_neq in Hmode. destruct (one_of mode [ReviewNone; ReviewHuman]) eqn:E1.
  - destruct (rp_Reviewers r) as [|a l] eqn:Er; [|done]. intros [= <-]. cbn [rp_Mode rp_Reviewers rp_Quorum rp_AnyEditor]. rewrite Hmode, E1.
    split_and!; [done|done|done|unfold MaxReviewers; simpl; lia|done|]. intros Hm. exfalso. apply one_of_spec in E1, Hm.
    rewrite !elem_of_cons, elem_of_nil in *. destruct E1 as [E1|[E1|[]]]; rewrite E1 in Hm; naive_solver.
  - destruct (one_of mode [ReviewAgents; ReviewAgentsHuman]) eqn:E2; [|done].
    destruct (negb (nonempty (rp_Reviewers r)) || _) eqn:E3; [done|]. destruct (negb (forallb _ _)) eqn:E4; [done|].
    destruct ((rp_Quorum r <? 0) || _) eqn:E5; [done|]. intros [= <-]. cbn [rp_Mode rp_Reviewers rp_Quorum rp_AnyEditor].
    rewrite Hmode, E1, E2, E3, E4, E5. apply orb_false_iff in E3 as [E3 E3'], E5 as [E5 E5']. apply negb_false_iff in E3, E4.
    split_and!; [done|lia|lia|apply Nat.ltb_ge in E3'; lia|done|]. intros _ Hn. by rewrite Hn in E3.
Qed.

Lemma or_one_twice n : or_one (or_one n) = or_one n.
Proof. unfold or_one. destruct (n =? 0) eqn:E; [done|]. by rewrite E. Qed.

(** What a policy that passes validation promises. At most eight tasks at
    once and three review rounds; a quorum that its own reviewers can reach; a
    person approves every merge, or the policy says in so many words that
    agents may merge alone; validating it again changes nothing; and every
    pipeline it makes for a valid implementer passes the dispatcher's own
    validation of pipelines. *)
Theorem valid_policy_is_safe p p' :
  ValidatePolicy p = Ok p' →
  1 ≤ po_MaxParallel p' ≤ 8 ∧ 1 ≤ po_MaxRounds p' ≤ 3 ∧
  0 ≤ rp_Quorum (po_Review p') ≤ Z.of_nat (length (rp_Reviewers (po_Review p'))) ∧
  (po_AutoMerge p' = true → humanReview p' = true ∨ po_AllowAgentOnlyMerge p' = true) ∧
  ValidatePolicy p' = Ok p' ∧
  ∀ am, ValidateAgentModel am false = true →
    match pipelineFor p' am with Some pl => ValidatePipeline pl false = true ∧ pl_Human pl = humanReview p' | None => humanReview p' = false end.
Proof.
  unfold ValidatePolicy. destruct (negb (ValidateChain _ _)) eqn:Ec; [done|]. cbv zeta.
  destruct ((or_one (po_MaxParallel p) <? 1) || _) eqn:Ep; [done|]. destruct ((or_one (po_MaxRounds p) <? 1) || _) eqn:Er; [done|].
  destruct (negb (one_of (po_Advisor p) _)) eqn:Ea; [done|]. intros (r & Hr & Hx)%bind_ok. revert Hx.
  destruct ((64 <? String.length (po_RunnerID p))%nat || _) eqn:El; [done|]. destruct (_ && negb (po_AllowAgentOnlyMerge p)) eqn:Em; [done|].
  intros [= <-]. destruct (settle_review_spec _ _ Hr) as (Hagain & Hq & Hlen & Hall & Hne).
  cbn [po_MaxParallel po_MaxRounds po_Review po_AutoMerge po_AllowAgentOnlyMerge po_Implement po_Advisor po_RunnerID po_RepoID] in *.
  unfold MaxAutopilotParallel, MaxPipelineRounds in *. split_and!; [lia|lia|lia|lia|lia|lia| | |].
  - intros Ham. revert Em. rewrite Ham. cbn [andb]. destruct (humanReview _); [by left|right]. cbn [negb andb] in *. by apply negb_false_iff.
  - rewrite Ec, !or_one_twice, Ep, Er, Ea, Hagain. cbn [mbind outcome_bind]. rewrite El.
    unfold humanReview in *. cbn [po_Review] in *.
    assert (po_AutoMerge p && (po_AutoMerge p && po_AllowAgentOnlyMerge p) = po_AutoMerge p && po_AllowAgentOnlyMerge p) as Hsame
      by (by destruct (po_AutoMerge p)). rewrite Hsame.
    destruct (po_AutoMerge p); [|done]. cbn [andb] in *. by rewrite Em.
  - intros am Ham. unfold pipelineFor, reviewed. cbn [po_Review po_MaxRounds].
    destruct (one_of (rp_Mode r) [ReviewNone; EmptyString]) eqn:En; cbn [negb].
    { unfold humanReview. cbn [po_Review]. apply one_of_spec in En. rewrite !elem_of_cons, elem_of_nil in En.
      destruct En as [->|[->|[]]]; done. }
    cbn [pl_Human]. split; [|done]. unfold ValidatePipeline. cbn [pl_MaxRounds pl_Implement pl_Tester pl_Reviewers pl_Review pl_Quorum pl_HumanAnyEditor pl_Human].
    assert (∀ b1 b2 : bool, negb ((b1 && b2) && negb b1) = true) as Hh by (intros [] []; done). rewrite Hh, andb_true_r.
    unfold ReviewersOf. cbn [pl_Reviewers pl_Review]. unfold no_agent. cbn [am_Agent].
    rewrite Ham, bool_decide_eq_true_2 by done.
    rewrite !orb_true_r, !andb_true_r. unfold MaxPipelineRounds in *.
    destruct (one_of (rp_Mode r) [ReviewAgents; ReviewAgentsHuman]) eqn:E2.
    + specialize (Hne eq_refl). rewrite Hall. destruct (rp_Reviewers r) as [|a l]; [done|]. rewrite !andb_true_iff, !Z.leb_le, Nat.leb_le.
      split_and!; try done; lia.
    + cbn [length forallb]. rewrite !andb_true_iff, !Z.leb_le, Nat.leb_le. unfold MaxReviewers. split_and!; try done; lia.
Qed.

Lemma valid_policy_is_safe_witness :
  ∃ p', ValidatePolicy demo_policy = Ok p' ∧ (po_AutoMerge p' = true → humanReview p' = true ∨ po_AllowAgentOnlyMerge p' = true).
Proof.
  eexists. split; [vm_compute; reflexivity|]. refine (proj1 (proj2 (proj2 (proj2 (valid_policy_is_safe demo_policy _ _))))). by vm_compute.
Defined.

(** * Witnesses *)

Definition demo_machine : Machine := history demo_hash demo_steps fresh.

Lemma demo_machine_is : demo_machine = history demo_hash demo_steps fresh.
Proof. done. Qed.

Definition demo_record : Record_ :=
  mkRecord "ap" "p" "goal" AutopilotRunning
    (mkPolicy [] (mkReviewPolicy ReviewNone [] 0 false) 1 1 true true EmptyString EmptyString "repo")
    EmptyString "u" "U" EmptyString EmptyString 0 EmptyString EmptyString None EmptyString.

Lemma demo_stored : db_runs (mc_db (history demo_hash demo_steps fresh)) !! "ap" = Some demo_record.
Proof. by vm_compute. Qed.

(** Two tasks, one slot: one is in progress, the other waits. *)
Lemma never_more_than_allowed_witness :
  count active (tasks_of (mc_db demo_machine) "ap") = 1 ∧
  (count active (tasks_of (mc_db demo_machine) "ap") ≤ po_MaxParallel (ap_Policy demo_record) ∧ 1 ≤ po_MaxParallel (ap_Policy demo_record) ≤ 8).
Proof.
  split; [by vm_compute|]. unfold demo_machine. apply (never_more_than_allowed demo_hash demo_steps "ap" demo_record demo_steps_ids demo_stored).
Defined.

(** A second autopilot for the goal is refused. *)
Definition demo_twice : list ((list Act → World) * Command) :=
  demo_steps ++ [(demo_world, CCreate "ap2" "p" "goal" demo_policy "u" "U" EmptyString demo_io)].

Lemma one_autopilot_per_goal_witness :
  db_runs (mc_db (history demo_hash demo_twice fresh)) !! "ap2" = None ∧
  (∀ id r, db_runs (mc_db (history demo_hash demo_twice fresh)) !! id = Some r → ap_ID r = id).
Proof.
  split; [by vm_compute|]. intros id r Hr.
  assert (Forall (λ s, real_ids s.1) demo_twice) as Hs by (repeat constructor; apply demo_ids).
  destruct (one_autopilot_per_goal demo_hash demo_twice Hs) as [_ Hb]. by destruct (Hb id r Hr).
Defined.

(** The next pass merges the first task's green pull request. *)
Lemma nothing_merges_unanswered_witness :
  mc_acts (reconcileLocked demo_hash demo_world demo_machine "ap" "2027" true).1 = mc_acts demo_machine ++ [AMerge "run" "c1"] ∧
  ∃ seen t, final1 (t_State t) = false ∧ cleared demo_world (ap_Policy demo_record) seen t "run" "c1".
Proof.
  assert (mc_acts (reconcileLocked demo_hash demo_world demo_machine "ap" "2027" true).1 = mc_acts demo_machine ++ [AMerge "run" "c1"]) as Ha
    by by vm_compute.
  split; [done|].
  destruct (nothing_merges_unanswered demo_hash demo_steps demo_world "ap" "2027" true demo_record demo_steps_ids demo_ids demo_stored)
    as (acts & Hacts & _ & Hm). cbv zeta in Hacts. fold demo_machine in Hacts, Hm.
  revert Ha Hacts Hm. generalize (mc_acts (reconcileLocked demo_hash demo_world demo_machine "ap" "2027" true).1) (mc_acts demo_machine).
  intros all before -> Hacts%app_inv_head Hm. subst acts. apply Hm. by left.
Defined.

(** Before it is created, nothing; created again elsewhere, its first task
    starts. *)
Definition idle_policy : AutopilotPolicy :=
  mkPolicy [] (mkReviewPolicy EmptyString [] 0 false) 2 1 false false EmptyString EmptyString EmptyString.

(** A world with no runner online, in which a new autopilot waits. *)
Definition away_world (acts : list Act) : World :=
  let w := demo_world acts in
  mkWorld (w_graph w) (w_content w) (w_createdByRun w) (w_setStatus w) (w_may w) (Some [mkRunner "r1" "r1" "u" false (rn_Info demo_runner)])
    (w_busy w) (w_routing w) (w_route w) (w_advised w) (w_get w) (w_nodeRuns w) (w_pipeline w) (w_pipelineRuns w) (w_changes w)
    (w_start w) (w_merge w) (w_humanReview w) (w_clock w).

Definition away_steps : list ((list Act → World) * Command) :=
  [(away_world, CCreate "ap" "p" "goal" idle_policy "u" "U" EmptyString demo_io)].

Definition away_record : Record_ :=
  mkRecord "ap" "p" "goal" AutopilotRunning
    (mkPolicy [] (mkReviewPolicy ReviewNone [] 0 false) 2 1 false false EmptyString EmptyString "repo")
    EmptyString "u" "U" EmptyString EmptyString 0 EmptyString EmptyString None EmptyString.

Lemma only_ready_work_starts_witness :
  let m' := (reconcileLocked demo_hash demo_world (history demo_hash away_steps fresh) "ap" "2027" true).1 in
  length (mc_acts m') = 2%nat ∧
  ∃ acts, mc_acts m' = mc_acts (history demo_hash away_steps fresh) ++ acts ∧ ∀ req, AStart req ∈ acts → ap_Status away_record = AutopilotRunning.
Proof.
  split; [by vm_compute|].
  assert (Forall (λ s, real_ids s.1) away_steps) as Hs by (repeat constructor; exact demo_ids).
  destruct (only_ready_work_starts demo_hash away_steps demo_world "ap" "2027" true away_record Hs demo_ids) as (acts & Ha & Hall);
    [by vm_compute|]. exists acts. split; [done|]. intros req Hreq. by destruct (Hall req Hreq).
Defined.

(** A failed task with one waiting on it. *)
Definition failing_tasks : gmap string TaskInstance :=
  list_to_map [("a", setState (new_task demo_hash (mkDag "goal" [] ∅ ∅ None) "a" "x") TaskFailed EmptyString "broken");
               ("b", new_task demo_hash (mkDag "goal" [] ∅ ∅ None) "b" "y")].

Definition failing_work : work :=
  mkWork demo_record failing_tasks (mkDag "goal" ["a"; "b"] {[ "b" := ["a"] ]} ∅ None) demo_graph None false "2026" [] [].

Lemma failing_ordered : ordered failing_tasks.
Proof.
  split; intros id t Ht; unfold failing_tasks in Ht; simpl in Ht;
    (apply lookup_insert_Some in Ht as [[<- <-]|[_ Ht]]; [|apply lookup_insert_Some in Ht as [[<- <-]|[_ Ht]]; [|by rewrite lookup_empty in Ht]]).
  - by split.
  - by split.
  - split; [apply shaped_still; by apply one_of_spec|by left].
  - split; [apply shaped_still; by apply one_of_spec|by left].
Qed.

Lemma failures_spread_exactly_witness :
  t_State <$> wk_tasks (propagateFailures failing_work) !! "b" = Some TaskUpstreamFailed ∧
  wk_acts (propagateFailures failing_work) = [].
Proof.
  split; [by vm_compute|]. destruct (failures_spread_exactly failing_work failing_ordered) as (_ & _ & Ha & _). exact Ha.
Defined.

Lemma cancelled_is_over_witness :
  let out := Cancel demo_world demo_machine "ap" "stop" demo_io in
  out.2 = Ok tt ∧ mc_acts out.1 = mc_acts demo_machine ++ [ACancelRun "run" "autopilot cancelled"] ∧
  ∃ r, db_runs (mc_db out.1) !! "ap" = Some r ∧ ap_Status r = AutopilotCancelled.
Proof.
  cbv zeta. split; [by vm_compute|]. split; [by vm_compute|].
  assert (Cancel demo_world demo_machine "ap" "stop" demo_io = ((Cancel demo_world demo_machine "ap" "stop" demo_io).1, Ok tt)) as Hc by by vm_compute.
  destruct (cancelled_is_over demo_hash demo_steps demo_world demo_machine "ap" "stop" demo_io _ demo_steps_ids demo_machine_is Hc) as [Hr _].
  exact Hr.
Defined.

(** A goal that is done, its task skipped by a person, then retried. *)
Definition plain_workflow : Workflow := mkWorkflow EmptyString (mkStages false false false false false false) 0 0 0 0 None EmptyString.

Definition done_record : Record_ :=
  mkRecord "ap" "p" "goal" AutopilotSucceeded
    (mkPolicy [] (mkReviewPolicy ReviewNone [] 0 false) 1 1 true true EmptyString EmptyString "repo")
    "every task is done" "u" "U" "2026" GoalPhaseDone 0 EmptyString EmptyString (Some plain_workflow) EmptyString.

Definition done_tasks : gmap string TaskInstance :=
  {[ "a" := setState (new_task demo_hash (mkDag "goal" [] ∅ ∅ None) "a" "do a") TaskSkipped EmptyString "skipped by a person" ]}.

Definition done_machine : Machine := mkMachine (mkDb {[ "ap" := done_record ]} {[ "ap" := done_tasks ]}) [].

Lemma reopened_goal_stands_still_witness :
  let out := Retry demo_hash demo_world done_machine "ap" "a" demo_io in
  out.2 = Ok tt ∧ mc_acts out.1 = [] ∧
  (ap_Status <$> db_runs (mc_db out.1) !! "ap") = Some AutopilotRunning ∧
  ∃ w, load demo_world out.1 "ap" "2027" = Ok w ∧ wk_rec (run_pass demo_hash demo_world w) = wk_rec w.
Proof.
  cbv zeta. split; [by vm_compute|]. split; [by vm_compute|]. split; [by vm_compute|]. eexists. split; [vm_compute; reflexivity|].
  apply (reopened_goal_stands_still demo_hash demo_world); [|by vm_compute|by vm_compute].
  apply map_Forall_to_list. vm_compute. repeat constructor.
Defined.
