(* ===== verification/Hub.v ===== *)
(** The stamps of the run store (internal/runs/store.go): times as text of a
    fixed width, so that text order is time order, and time.Parse of the
    RFC 3339 layouts they are read back with.  A time is a number of
    nanoseconds since 1970 UTC, as in [GoTime].

    The run hub's state (internal/runs: Record, PipelineRecord, Vote and the
    tables behind them) and the calls that act on it.

    The hub's goroutines share one database.  A call is a program of the monad
    [M]: it runs between other calls, so before each of its statements the
    other calls may have written ([e_other]), and each statement may fail
    ([e_fault]).  What a call asks of the outside world (is the runner online,
    does a send arrive, what time is it) is a function of the moment, a number
    that grows with every statement.  Mutexes are held by a call for a stretch
    of its program ([locked]); taking one it holds already is the end of it:
    Go's mutexes are not reentrant, so the goroutine waits for itself.

    The JSON columns are kept decoded; the columns updated_at, and of a run its
    usage, cost, node type and acceptance size, which only the analytics read,
    are left out, as are the events runners send. *)

From S2P Require Import Prelude GoStr GoFloat GoTime Dsl Graph NodeTypes Workflow Roles State Readiness Globs Runs.
From Stdlib Require Import Ascii.
Open Scope Z_scope.

Definition microsecond : Z := 1000.

(** formatStamp: the layout 2006-01-02T15:04:05.000000Z07:00, in UTC. *)
Definition formatStamp (ns : Z) : string :=
  let secs := ns / second in
  let '(y, m, d) := civil (secs / 86400) in
  let tod := secs mod 86400 in
  pad 4 y +:+ "-" +:+ pad 2 m +:+ "-" +:+ pad 2 d +:+ "T" +:+
  pad 2 (tod / 3600) +:+ ":" +:+ pad 2 (tod mod 3600 / 60) +:+ ":" +:+ pad 2 (tod mod 60) +:+ "." +:+
  pad 6 (ns mod second / microsecond) +:+ "Z".

Example formatStamp_sample : formatStamp (1700000000 * second + 5000999) = "2023-11-14T22:13:20.005000Z".
Proof. reflexivity. Qed.

(** The day count of a civil date, the inverse of [civil]. *)
Definition days_of (y m d : Z) : Z :=
  let y := if m <=? 2 then y - 1 else y in
  let era := y / 400 in
  let yoe := y - era * 400 in
  let doy := (153 * (if m <=? 2 then m + 9 else m - 3) + 2) / 5 + d - 1 in
  era * 146097 + (yoe * 365 + yoe / 4 - yoe / 100 + doy) - 719468.

(** time.Parse with the layouts RFC3339 and RFC3339Nano, which accept the
    same text: a fraction of a second is taken after the seconds whether the
    layout has one or not, and the hour may have one digit. *)
Section Parse.

(** getnum: two digits, or one where the layout allows it. *)
Definition getnum (fixed : bool) (s : string) : option (Z * string) :=
  match s with
  | String a s' =>
      if negb (is_digit a) then None
      else match s' with
           | String b s'' =>
               if is_digit b then Some (10 * (byte_val a - 48) + (byte_val b - 48), s'')
               else if fixed then None else Some (byte_val a - 48, s')
           | EmptyString => if fixed then None else Some (byte_val a - 48, s')
           end
  | EmptyString => None
  end.

Definition literal (c : ascii) (s : string) : option string :=
  match s with String a s' => if Ascii.eqb a c then Some s' else None | EmptyString => None end.

Fixpoint span_digits (s : string) : string * string :=
  match s with
  | String c s' => if is_digit c then let (ds, rest) := span_digits s' in (String c ds, rest) else (EmptyString, s)
  | EmptyString => (EmptyString, EmptyString)
  end.

(** parseNanoseconds: at most nine digits count. *)
Definition nanoseconds (ds : string) : Z :=
  let ds := str_take 9 ds in
  default 0 (decimal 0 ds) * 10 ^ (9 - Z.of_nat (String.length ds)).

Definition fraction (s : string) : Z * string :=
  match s with
  | String p ((String d _) as s') =>
      if (Ascii.eqb p "." || Ascii.eqb p ",") && is_digit d
      then let (ds, rest) := span_digits s' in (nanoseconds ds, rest) else (0, s)
  | _ => (0, s)
  end.

(** The zone: Z, or a sign, two digits, a colon and two digits. *)
Definition zone (s : string) : option (Z * string) :=
  match s with
  | String c s' =>
      if Ascii.eqb c "Z" then Some (0, s')
      else
        '(hr, s1) ← getnum true s'; s2 ← literal ":" s1; '(mm, s3) ← getnum true s2;
        if (24 <? hr) || (60 <? mm) then None
        else if Ascii.eqb c "+" then Some ((hr * 60 + mm) * 60, s3)
        else if Ascii.eqb c "-" then Some (- ((hr * 60 + mm) * 60), s3)
        else None
  | EmptyString => None
  end.

Definition parse_rfc3339 (s : string) : option Z :=
  let ys := str_take 4 s in
  if negb ((String.length ys =? 4)%nat) then None else
  y ← decimal 0 ys;
  s ← literal "-" (str_drop 4 s);
  '(m, s) ← getnum true s;
  s ← literal "-" s;
  '(d, s) ← getnum true s;
  s ← literal "T" s;
  '(hh, s) ← getnum false s;
  s ← literal ":" s;
  '(mi, s) ← getnum true s;
  s ← literal ":" s;
  '(ss, s) ← getnum true s;
  let (ns, s) := fraction s in
  '(off, s) ← zone s;
  if String.eqb s EmptyString && in_range 1 12 m && in_range 1 (days_in y m) d
     && (hh <? 24) && (mi <? 60) && (ss <? 60)
  then Some ((days_of y m d * 86400 + hh * 3600 + mi * 60 + ss - off) * second + ns)
  else None.
End Parse.

Example parse_sample : parse_rfc3339 "2023-11-14T22:13:20.005000Z" = Some (1700000000 * second + 5000000).
Proof. reflexivity. Qed.

Example parse_zone : parse_rfc3339 "2023-11-14T23:13:20,5+01:00" = Some (1700000000 * second + 500000000).
Proof. reflexivity. Qed.

(** * Runs *)

Definition ModeHeadless : string := EmptyString.
Definition ModeInteractive : string := "interactive".

Definition VerifyRed : string := "red".
Definition VerifyGreen : string := "green".

Record VerifySpec := mkSpec { vs_Phase : string; vs_Head : string }.

Record JobRoles := mkJobRoles {
  jr_Tools : list string; jr_TestFiles : list string; jr_Acceptance : list AcceptanceItem; jr_VerifySpec : option VerifySpec }.

Definition no_roles : JobRoles := mkJobRoles [] [] [] None.

(** Where a run works and for whom; a follow-up run works in the same place. *)
Record Place := mkPlace {
  pc_Project : string; pc_NodeID : string; pc_NodeTitle : string;
  pc_RunnerID : string; pc_RunnerName : string; pc_OwnerID : string;
  pc_RepoID : string; pc_RepoName : string; pc_CreatedBy : string; pc_CreatedByName : string; pc_SteppedUpAt : string }.

Record New := mkNew {
  nw_place : Place;
  nw_Agent : string; nw_Model : string; nw_Base : string;
  nw_Prompt : string; nw_JobPrompt : string;
  nw_Kind : string; nw_JobBranch : string; nw_JobPRURL : string; nw_Review : string;
  nw_RetryOf : string; nw_PipelineID : string; nw_Fallbacks : list AgentModel;
  nw_Mode : string; nw_JobHandoffBranch : string; nw_JobHandoffNote : string;
  nw_RetryAt : string; nw_LimitWaits : Z;
  nw_Role : string; nw_Override : string; nw_JobRoles : JobRoles }.

(** What changes as a run goes on. *)
Record Progress := mkProgress {
  pg_Status : string; pg_Base : string; pg_Branch : string; pg_Error : string; pg_Summary : string;
  pg_ExitCode : Z; pg_FailureKind : string; pg_Verdict : string;
  pg_HandoffBranch : string; pg_HandoffNote : string;
  pg_Verify : option VerifyResult; pg_Checks : list CheckResult;
  pg_StartedAt : string; pg_FinishedAt : string; pg_RetryAt : string }.

Record PRInfo := mkPR {
  pi_URL : string; pi_Number : Z; pi_State : string; pi_CI : string; pi_Error : string; pi_HeadSHA : string }.

(** Record: a row of runs.  [rw_ResetAt] and [rw_GuardAck] are what its finish
    said; the table does not keep them. *)
Record Row := mkRow {
  rw_ID : string; rw_CreatedAt : string; rw_job : New; rw_prog : Progress; rw_pull : PRInfo; rw_Commit : string;
  rw_ResetAt : string; rw_GuardAck : bool }.

Definition rw_place (r : Row) : Place := nw_place (rw_job r).
Definition rw_RunnerID (r : Row) : string := pc_RunnerID (rw_place r).
Definition rw_OwnerID (r : Row) : string := pc_OwnerID (rw_place r).
Definition rw_Project (r : Row) : string := pc_Project (rw_place r).
Definition rw_Kind (r : Row) : string := nw_Kind (rw_job r).
Definition rw_Role (r : Row) : string := nw_Role (rw_job r).
Definition rw_PipelineID (r : Row) : string := nw_PipelineID (rw_job r).
Definition rw_RetryOf (r : Row) : string := nw_RetryOf (rw_job r).
Definition rw_Status (r : Row) : string := pg_Status (rw_prog r).
Definition rw_RetryAt (r : Row) : string := pg_RetryAt (rw_prog r).
Definition rw_agent (r : Row) : AgentModel := mkAgentModel (nw_Agent (rw_job r)) (nw_Model (rw_job r)).

Definition set_prog (p : Progress) (r : Row) : Row :=
  mkRow (rw_ID r) (rw_CreatedAt r) (rw_job r) p (rw_pull r) (rw_Commit r) (rw_ResetAt r) (rw_GuardAck r).
Definition set_pull (p : PRInfo) (r : Row) : Row :=
  mkRow (rw_ID r) (rw_CreatedAt r) (rw_job r) (rw_prog r) p (rw_Commit r) (rw_ResetAt r) (rw_GuardAck r).
Definition set_commit (c : string) (r : Row) : Row :=
  mkRow (rw_ID r) (rw_CreatedAt r) (rw_job r) (rw_prog r) (rw_pull r) c (rw_ResetAt r) (rw_GuardAck r).
Definition set_said (resetAt : string) (ack : bool) (r : Row) : Row :=
  mkRow (rw_ID r) (rw_CreatedAt r) (rw_job r) (rw_prog r) (rw_pull r) (rw_Commit r) resetAt ack.

(** Record.Job: what a runner is offered. *)
Record Job := mkJob {
  jb_RunID : string; jb_Project : string; jb_NodeID : string; jb_NodeTitle : string; jb_Prompt : string;
  jb_Agent : string; jb_Model : string; jb_RepoID : string; jb_Base : string; jb_RequestedBy : string;
  jb_Kind : string; jb_Branch : string; jb_PRURL : string; jb_Review : string; jb_Mode : string;
  jb_HandoffBranch : string; jb_HandoffNote : string; jb_Role : string; jb_roles : JobRoles; jb_SteppedUp : bool }.

Definition job_of (r : Row) (steppedUp : bool) : Job :=
  let w := rw_job r in let pl := nw_place w in
  mkJob (rw_ID r) (pc_Project pl) (pc_NodeID pl) (pc_NodeTitle pl) (nw_JobPrompt w)
    (nw_Agent w) (nw_Model w) (pc_RepoID pl) (pg_Base (rw_prog r)) (pc_CreatedByName pl)
    (nw_Kind w) (nw_JobBranch w) (nw_JobPRURL w) (nw_Review w) (nw_Mode w)
    (nw_JobHandoffBranch w) (nw_JobHandoffNote w) (nw_Role w) (nw_JobRoles w) steppedUp.

(** * Pipelines and votes *)

(** A map from roles to tools, in no order the model depends on. *)
Record StagedConfig := mkConfig {
  sc_Workflow : option Workflow; sc_Staged : bool; sc_Story : bool;
  sc_Tools : gmap string (list string); sc_Acceptance : list AcceptanceItem }.

Record Tries := mkTries { tr_Tester : Z; tr_Green : Z; tr_CI : Z; tr_RedHead : string; tr_GreenHead : string }.

Record NewPipeline := mkNewPipeline {
  np_OwnerID : string; np_CreatedBy : string; np_Project : string; np_NodeID : string;
  np_Pipeline : Pipeline; np_Fallbacks : list AgentModel; np_JobPrompt : string; np_Prompt : string;
  np_Config : option StagedConfig; np_Phase : string }.

(** PipelineRecord: a row of run_pipelines, [pp_new] being what it was made
    with. *)
Record PipeRow := mkPipe {
  pp_ID : string; pp_new : NewPipeline;
  pp_Branch : string; pp_PRURL : string; pp_Round : Z; pp_Status : string; pp_Reason : string; pp_Awaiting : string;
  pp_Phase : string; pp_TestFiles : list string; pp_Guard : option GuardReport; pp_Tries : Tries }.

Definition pp_Pipeline (p : PipeRow) : Pipeline := np_Pipeline (pp_new p).
Definition pp_Config (p : PipeRow) : option StagedConfig := np_Config (pp_new p).

Definition set_pr (branch url : string) (p : PipeRow) : PipeRow :=
  mkPipe (pp_ID p) (pp_new p) branch url (pp_Round p) (pp_Status p) (pp_Reason p) (pp_Awaiting p)
    (pp_Phase p) (pp_TestFiles p) (pp_Guard p) (pp_Tries p).
Definition set_round (round : Z) (p : PipeRow) : PipeRow :=
  mkPipe (pp_ID p) (pp_new p) (pp_Branch p) (pp_PRURL p) round (pp_Status p) (pp_Reason p) (pp_Awaiting p)
    (pp_Phase p) (pp_TestFiles p) (pp_Guard p) (pp_Tries p).
Definition set_end (status reason : string) (p : PipeRow) : PipeRow :=
  mkPipe (pp_ID p) (pp_new p) (pp_Branch p) (pp_PRURL p) (pp_Round p) status reason (pp_Awaiting p)
    (pp_Phase p) (pp_TestFiles p) (pp_Guard p) (pp_Tries p).
Definition set_awaiting (awaiting : string) (p : PipeRow) : PipeRow :=
  mkPipe (pp_ID p) (pp_new p) (pp_Branch p) (pp_PRURL p) (pp_Round p) (pp_Status p) (pp_Reason p) awaiting
    (pp_Phase p) (pp_TestFiles p) (pp_Guard p) (pp_Tries p).
Definition set_stage (phase : string) (files : list string) (g : option GuardReport) (t : Tries) (p : PipeRow) : PipeRow :=
  mkPipe (pp_ID p) (pp_new p) (pp_Branch p) (pp_PRURL p) (pp_Round p) (pp_Status p) (pp_Reason p) (pp_Awaiting p)
    phase files g t.

(** A row of review_votes; its key is the pipeline, the round and the reviewer. *)
Record Vote := mkVote {
  vt_Pipeline : string; vt_Round : Z; vt_Reviewer : string; vt_Agent : string; vt_Model : string;
  vt_Verdict : string; vt_RunID : string; vt_Comment : string; vt_ActorID : string }.

Definition set_verdict (verdict : string) (v : Vote) : Vote :=
  mkVote (vt_Pipeline v) (vt_Round v) (vt_Reviewer v) (vt_Agent v) (vt_Model v) verdict (vt_RunID v) (vt_Comment v) (vt_ActorID v).
Definition set_seat (run : string) (v : Vote) : Vote :=
  mkVote (vt_Pipeline v) (vt_Round v) (vt_Reviewer v) (vt_Agent v) (vt_Model v) (vt_Verdict v) run (vt_Comment v) (vt_ActorID v).

(** A row of run_verdicts: what a review or judge run says in structure. *)
Record VerdictRow := mkVerdict {
  vd_Role : string; vd_Round : Z; vd_Subject : string; vd_Outcome : string; vd_Severity : string;
  vd_Reasons : list string; vd_Note : string; vd_Source : string }.

Record RoleSetting := mkRoleSetting { rl_Owner : string; rl_Project : string; rl_Role : string; rl_MaxConcurrent : Z }.

(** What the hub did that is seen outside the tables, in order: messages to
    runners, evidence, finished nodes, notes on runs, announcements.
    [SeatSettled] records how the statement that settles a vote ended. *)
Inductive HubAct :=
  | OfferSent (runner : string) (job : Job)
  | CancelSent (runner run reason : string)
  | Evidence (run pipeline kind outcome summary : string)
  | NodeApproved (project node evidence : string)
  | Noted (run text : string)
  | SeatSettled (run verdict : string) (settled : bool)
  | RunChanged (run status : string)
  | RunNotified (run : string)
  | PipelineSeen (pipeline status : string).

Record Hub := mkHub {
  h_runs : list Row; h_pipes : list PipeRow; h_votes : list Vote;
  h_changes : gmap string RunChanges; h_verdicts : gmap string VerdictRow; h_roles : list RoleSetting;
  h_last : Z; h_log : list HubAct }.

Definition set_runs (rs : list Row) (h : Hub) : Hub :=
  mkHub rs (h_pipes h) (h_votes h) (h_changes h) (h_verdicts h) (h_roles h) (h_last h) (h_log h).
Definition set_pipes (ps : list PipeRow) (h : Hub) : Hub :=
  mkHub (h_runs h) ps (h_votes h) (h_changes h) (h_verdicts h) (h_roles h) (h_last h) (h_log h).
Definition set_votes (vs : list Vote) (h : Hub) : Hub :=
  mkHub (h_runs h) (h_pipes h) vs (h_changes h) (h_verdicts h) (h_roles h) (h_last h) (h_log h).
Definition set_changes (cs : gmap string RunChanges) (h : Hub) : Hub :=
  mkHub (h_runs h) (h_pipes h) (h_votes h) cs (h_verdicts h) (h_roles h) (h_last h) (h_log h).
Definition set_verdicts (vs : gmap string VerdictRow) (h : Hub) : Hub :=
  mkHub (h_runs h) (h_pipes h) (h_votes h) (h_changes h) vs (h_roles h) (h_last h) (h_log h).
Definition set_last (t : Z) (h : Hub) : Hub :=
  mkHub (h_runs h) (h_pipes h) (h_votes h) (h_changes h) (h_verdicts h) (h_roles h) t (h_log h).
Definition set_log (l : list HubAct) (h : Hub) : Hub :=
  mkHub (h_runs h) (h_pipes h) (h_votes h) (h_changes h) (h_verdicts h) (h_roles h) (h_last h) l.

(** * Calls *)

(** Errors of the store.  A refused status change says what the run is. *)
Inductive StoreError := NotFound | BadTransition (r : Row) | Invalid | Precondition | Broken.

Definition Res (A : Type) : Type := (StoreError + A)%type.

Inductive Lock := RunnerLock (id : string) | PipelineLock (id : string).

#[export] Instance Lock_eq_dec : EqDecision Lock.
Proof. solve_decision. Defined.

(** How a call stops short: at a lock it holds, or, in the model, out of fuel. *)
Inductive Halt := Deadlock (l : Lock) | NoFuel.

Record Env := mkEnv {
  e_other : list Lock → nat → Hub → Hub;   (* what other calls wrote meanwhile *)
  e_fault : nat → bool;                     (* the database fails the statement *)
  e_now : nat → Z;                          (* time.Now *)
  e_id : nat → string;                      (* the random id *)
  e_online : nat → string → bool;           (* Registry.Online *)
  e_runner : nat → string → option Runner;  (* Registry.Get *)
  e_sent : nat → string → bool;             (* Registry.Send succeeds *)
  e_budget : nat → Hub → string → Res string;           (* BudgetStatus: the message, when exceeded *)
  e_role_budget : nat → Hub → string → string → Res string;
  e_note_room : nat → bool;                 (* the run's events are under their cap *)
  e_reset : Z → Row → Z;                    (* resetTime *)
  e_link : string → bool;                   (* url.Parse takes it, with a host and no user *)
  e_error : StoreError → string;            (* what an error says *)
  e_no_model : option RunnerInfo → AgentModel → string; (* what ResolveAgentModel's error says *)
  e_seconds : Z → string;                   (* milliseconds as %.1f seconds *)
  e_step_up : option Z;                     (* the step-up window, None when not required *)
}.

Definition M (A : Type) : Type := list Lock → nat * Hub → (nat * Hub) * (A + Halt).

#[export] Instance M_ret : MRet M := λ A a _ s, (s, inl a).

#[export] Instance M_bind : MBind M := λ A B k m held s,
  let (s', o) := m held s in
  match o with inl a => k a held s' | inr halt => (s', inr halt) end.

Definition halt {A} (x : Halt) : M A := λ _ s, (s, inr x).

(** Go on with the value, or hand an error on. *)
Definition bind_res {A B} (m : M (Res A)) (k : A → M (Res B)) : M (Res B) :=
  r ← m; match r with inl e => mret (inl e) | inr a => k a end.
Notation "x ←? m ; k" := (bind_res m (λ x, k)) (at level 20, m at level 100, k at level 200, right associativity).
Notation "' x ←? m ; k" := (bind_res m (λ x, k)) (at level 20, x strict pattern, m at level 100, k at level 200, right associativity).

(** Fallible answers without a program. *)
Definition fail {A} (e : StoreError) : M (Res A) := mret (inl e).
Definition done_with {A} (a : A) : M (Res A) := mret (inr a).

(** A mutex held while [m] runs, released when it ends. *)
Definition locked {A} (l : Lock) (m : M A) : M A := λ held s,
  if decide (l ∈ held) then (s, inr (Deadlock l)) else m (l :: held) s.

Fixpoint each {A} (f : A → M unit) (xs : list A) : M unit :=
  match xs with [] => mret tt | x :: xs' => f x ≫= λ _, each f xs' end.

Section Calls.
Context (env : Env).

(** One moment: the others have written, the statement acts, time moves on. *)
Definition prim {A} (f : nat → Hub → Hub * A) : M A := λ held s,
  let '(n, h) := s in let (h', a) := f n (e_other env held n h) in ((S n, h'), inl a).

Definition ask {A} (f : nat → Hub → A) : M A := prim (λ n h, (h, f n h)).
Definition act (a : HubAct) : M unit := prim (λ _ h, (set_log (h_log h ++ [a]) h, tt)).

(** A statement, which the database may fail, and a query. *)
Definition sql {A} (stmt : Hub → Hub * A) : M (Res A) :=
  prim (λ n h, if e_fault env n then (h, inl Broken) else let (h', a) := stmt h in (h', inr a)).
Definition query {A} (f : Hub → A) : M (Res A) := sql (λ h, (h, f h)).

(** stamp: microseconds, and never the same twice. *)
Definition stamp : M string :=
  prim (λ n h,
    let t := e_now env n / microsecond * microsecond in
    let t := if h_last h <? t then t else h_last h + microsecond in
    (set_last t h, formatStamp t)).
End Calls.
