(* ===== verification/RunStore.v ===== *)
(** The run store (internal/runs: store.go, pipelines.go, changes.go, handoff.go,
    verdicts.go, roles_store.go): reading and moving runs, pipelines, votes,
    changes and pull requests, one Definition per method. *)

From S2P Require Import Prelude GoStr GoFloat GoTime Dsl Graph NodeTypes Workflow Roles State Readiness Globs Runs Hub.
From stdpp Require Import pretty.
From Stdlib Require Import Ascii.
Open Scope Z_scope.

Definition MaxErrorBytes : nat := Pos.to_nat 4096.
Definition MaxOverrideBytes : nat := Pos.to_nat 200.
Definition maxShortField : nat := Pos.to_nat 256.
Definition MaxPromptBytes : nat := Pos.to_nat 65536.
Definition MaxSummaryBytes : nat := Pos.to_nat 4096.
Definition MaxRevisionBytes : nat := Pos.to_nat 16384.
Definition MaxHandoffNoteBytes : nat := Pos.to_nat 8192.
Definition MaxTestFiles : nat := Pos.to_nat 500.
Definition MaxPRURLBytes : nat := Pos.to_nat 512.
Definition MaxPathBytes : nat := Pos.to_nat 1024.
Definition MaxPatchBytes : nat := Pos.to_nat 1048576.
Definition MaxVerifyOutput : nat := Pos.to_nat 8192.
Definition MaxCheckResults : nat := 30.
Definition MaxCheckNote : nat := Pos.to_nat 300.
Definition maxCommitBytes : nat := 64.
Definition maxVoteComment : nat := Pos.to_nat 16384.

Definition AwaitingHuman : string := "human".
Definition HumanReviewerKey : string := "human".
Definition HumanReviewer : string := "human".
Definition PipelineWaitingHuman : string := "waiting_human".
Definition VerdictAbstain : string := "abstain".

(** HandoffWorthy and ValidHandoffBranch of runnerwire/handoff.go; the
    pattern is one to a hundred letters, digits, underscores and dashes. *)
Definition HandoffWorthy (kind : string) : bool := one_of kind [FailureQuota; FailureRateLimit].
Definition HandoffBranchPrefix : string := "nodevas/handoff/".

Definition run_id_char (c : ascii) : bool :=
  let z := byte_val c in in_range 48 57 z || in_range 65 90 z || in_range 97 122 z || Ascii.eqb c "_" || Ascii.eqb c "-".

Definition ValidHandoffBranch (name : string) : bool :=
  match cut_prefix name HandoffBranchPrefix with
  | Some id => (1 <=? String.length id)%nat && (String.length id <=? 100)%nat && str_all run_id_char id
  | None => false
  end.

(** * Rows *)

Definition run_by_id (id : string) (h : Hub) : option Row := find (λ r, String.eqb (rw_ID r) id) (h_runs h).
Definition pipe_by_id (id : string) (h : Hub) : option PipeRow := find (λ p, String.eqb (pp_ID p) id) (h_pipes h).

(** UPDATE ... WHERE: the rows that match are rewritten, and how many
    there were. *)
Definition update {A} (where_ : A → bool) (f : A → A) (xs : list A) : list A := map (λ x, if where_ x then f x else x) xs.

Definition update_runs (where_ : Row → bool) (f : Row → Row) (h : Hub) : Hub * nat :=
  (set_runs (update where_ f (h_runs h)) h, length (List.filter where_ (h_runs h))).
Definition update_pipes (where_ : PipeRow → bool) (f : PipeRow → PipeRow) (h : Hub) : Hub * nat :=
  (set_pipes (update where_ f (h_pipes h)) h, length (List.filter where_ (h_pipes h))).
Definition update_votes (where_ : Vote → bool) (f : Vote → Vote) (h : Hub) : Hub * nat :=
  (set_votes (update where_ f (h_votes h)) h, length (List.filter where_ (h_votes h))).

(** ORDER BY created_at, id. *)
Definition row_before (a b : Row) : bool :=
  String.ltb (rw_CreatedAt a) (rw_CreatedAt b)
  || (String.eqb (rw_CreatedAt a) (rw_CreatedAt b) && String.ltb (rw_ID a) (rw_ID b)).
Definition oldest_first (rs : list Row) : list Row := slice_stable row_before rs.

Definition first_progress (base retryAt : string) : Progress :=
  mkProgress RunQueued base EmptyString EmptyString EmptyString 0 EmptyString EmptyString EmptyString EmptyString
    None [] EmptyString EmptyString retryAt.
Definition no_pr : PRInfo := mkPR EmptyString 0 EmptyString EmptyString EmptyString EmptyString.

Definition jobKinds : list string := [JobImplement; JobReview; JobRevise; JobPlan; JobTest; JobVerify; JobJudge].

Definition clip_roles (j : JobRoles) : JobRoles :=
  mkJobRoles (jr_Tools j) (firstn MaxTestFiles (jr_TestFiles j)) (jr_Acceptance j) (jr_VerifySpec j).

(** What Create refuses. *)
Definition create_ok (w : New) : bool :=
  let pl := nw_place w in
  forallb (λ field, negb (String.eqb (trim_space field) EmptyString))
    ([pc_Project pl; pc_NodeID pl; pc_RunnerID pl; pc_OwnerID pl; pc_RepoID pl; pc_CreatedBy pl]
       ++ if String.eqb (nw_Kind w) JobVerify then [] else [nw_Agent w])
  && (String.eqb (nw_Role w) EmptyString || ValidRoleID (nw_Role w))
  && (String.length (nw_Override w) <=? MaxOverrideBytes)%nat
  && (String.eqb (nw_Mode w) ModeHeadless || String.eqb (nw_Mode w) ModeInteractive)
  && (String.length (nw_JobPrompt w) <=? MaxPromptBytes)%nat
  && one_of (nw_Kind w) jobKinds
  && (String.eqb (nw_JobHandoffBranch w) EmptyString
      || (ValidHandoffBranch (nw_JobHandoffBranch w) && (String.eqb (nw_Kind w) JobImplement || String.eqb (nw_Kind w) JobTest))).

(** What the row keeps of it. *)
Definition stored (w : New) : New :=
  let pl := nw_place w in
  let reviewCap := if String.eqb (nw_Kind w) JobPlan then MaxRevisionBytes else MaxSummaryBytes in
  {| nw_place := mkPlace (pc_Project pl) (pc_NodeID pl) (pc_NodeTitle pl) (pc_RunnerID pl) (pc_RunnerName pl) (pc_OwnerID pl)
                   (pc_RepoID pl) (pc_RepoName pl) (pc_CreatedBy pl) (pc_CreatedByName pl) (Truncate (pc_SteppedUpAt pl) 64);
     nw_Agent := nw_Agent w; nw_Model := nw_Model w; nw_Base := nw_Base w;
     nw_Prompt := nw_Prompt w; nw_JobPrompt := nw_JobPrompt w; nw_Kind := nw_Kind w;
     nw_JobBranch := Truncate (nw_JobBranch w) maxShortField; nw_JobPRURL := Truncate (nw_JobPRURL w) MaxPRURLBytes;
     nw_Review := Truncate (nw_Review w) reviewCap;
     nw_RetryOf := nw_RetryOf w; nw_PipelineID := nw_PipelineID w; nw_Fallbacks := nw_Fallbacks w;
     nw_Mode := nw_Mode w; nw_JobHandoffBranch := nw_JobHandoffBranch w;
     nw_JobHandoffNote := Truncate (nw_JobHandoffNote w) MaxHandoffNoteBytes;
     nw_RetryAt := Truncate (nw_RetryAt w) 64; nw_LimitWaits := nw_LimitWaits w;
     nw_Role := nw_Role w; nw_Override := nw_Override w; nw_JobRoles := clip_roles (nw_JobRoles w) |}.

Definition fresh_row (id now : string) (w : New) : Row :=
  mkRow id now (stored w) (first_progress (nw_Base w) (nw_RetryAt (stored w))) no_pr EmptyString EmptyString false.

Section Store.
Context (env : Env).

(** A statement that may refuse by itself. *)
Definition sql_res {A} (stmt : Hub → Hub * Res A) : M (Res A) := r ←? sql env stmt; mret r.

(** An update that is to touch one row, and whether it did. *)
Definition sql_one (stmt : Hub → Hub * nat) : M (Res bool) := n ←? sql env stmt; done_with (n =? 1)%nat.

(** * Runs *)

Definition Get (id : string) : M (Res Row) :=
  sql_res (λ h, (h, match run_by_id id h with Some r => inr r | None => inl NotFound end)).

(** INSERT INTO runs: an id that is taken violates the primary key. *)
Definition insert_run (r : Row) (h : Hub) : Hub * Res unit :=
  match run_by_id (rw_ID r) h with
  | Some _ => (h, inl Broken)
  | None => (set_runs (h_runs h ++ [r]) h, inr tt)
  end.

Definition Create (w : New) : M (Res Row) :=
  if negb (create_ok w) then fail Invalid
  else
    id ← ask env (λ n _, e_id env n);
    now ← stamp env;
    _ ←? sql_res (insert_run (fresh_row id now w));
    Get id.

Definition ForRunner (runnerID : string) (statuses : list string) : M (Res (list Row)) :=
  match statuses with
  | [] => done_with []
  | _ => query env (λ h, oldest_first
           (List.filter (λ r, String.eqb (rw_RunnerID r) runnerID && one_of (rw_Status r) statuses) (h_runs h)))
  end.

Definition holds (r : Row) : bool := one_of (rw_Status r) [RunOffered; RunRunning].

Definition busy (runnerID : string) (h : Hub) : Z :=
  Z.of_nat (length (List.filter (λ r, String.eqb (rw_RunnerID r) runnerID && holds r) (h_runs h))).

Definition Busy (runnerID : string) : M (Res Z) := query env (busy runnerID).

(** What a transition writes besides the status; zero fields are left. *)
Record Change := mkChange {
  cg_Runner : string; cg_Base : string; cg_Branch : string; cg_Error : string; cg_Summary : string;
  cg_ExitCode : option Z; cg_FailureKind : string; cg_Verdict : string;
  cg_HandoffBranch : string; cg_HandoffNote : string;
  cg_Verify : option VerifyResult; cg_Checks : list CheckResult }.

Definition no_change : Change :=
  mkChange EmptyString EmptyString EmptyString EmptyString EmptyString None EmptyString EmptyString EmptyString EmptyString None [].
Definition error_change (text : string) : Change :=
  mkChange EmptyString EmptyString EmptyString text EmptyString None EmptyString EmptyString EmptyString EmptyString None [].

Definition keep (new old : string) : string := if String.eqb new EmptyString then old else new.
Definition keep_cut (new : string) (max : nat) (old : string) : string :=
  if String.eqb new EmptyString then old else Truncate new max.

Definition moved (to now : string) (c : Change) (p : Progress) : Progress :=
  {| pg_Status := to;
     pg_Base := keep_cut (cg_Base c) maxShortField (pg_Base p);
     pg_Branch := keep_cut (cg_Branch c) maxShortField (pg_Branch p);
     pg_Error := if negb (String.eqb (cg_Error c) EmptyString) then Truncate (cg_Error c) MaxErrorBytes
                 else if String.eqb to RunQueued then EmptyString else pg_Error p;
     pg_Summary := keep_cut (cg_Summary c) MaxSummaryBytes (pg_Summary p);
     pg_ExitCode := default (pg_ExitCode p) (cg_ExitCode c);
     pg_FailureKind := keep (cg_FailureKind c) (pg_FailureKind p);
     pg_Verdict := keep (cg_Verdict c) (pg_Verdict p);
     pg_HandoffBranch := keep (cg_HandoffBranch c) (pg_HandoffBranch p);
     pg_HandoffNote := if String.eqb (cg_HandoffBranch c) EmptyString then pg_HandoffNote p
                       else Truncate (cg_HandoffNote c) MaxHandoffNoteBytes;
     pg_Verify := match cg_Verify c with Some v => Some v | None => pg_Verify p end;
     pg_Checks := match cg_Checks c with [] => pg_Checks p | checks => checks end;
     pg_StartedAt := if String.eqb to RunRunning then now else pg_StartedAt p;
     pg_FinishedAt := if RunFinal to then now else pg_FinishedAt p;
     pg_RetryAt := pg_RetryAt p |}.

Definition is_run (id : string) (r : Row) : bool := String.eqb (rw_ID r) id.

(** The conditional update: only from the status that was read. *)
Definition move_stmt (id from to now : string) (c : Change) : Hub → Hub * nat :=
  update_runs (λ r, is_run id r && String.eqb (rw_Status r) from) (λ r, set_prog (moved to now c (rw_prog r)) r).

Definition Transition (id to : string) (c : Change) : M (Res Row) :=
  current ←? Get id;
  if negb (String.eqb (cg_Runner c) EmptyString) && negb (String.eqb (rw_RunnerID current) (cg_Runner c)) then fail NotFound
  else if negb (Legal (rw_Status current) to) then fail (BadTransition current)
  else
    now ← stamp env;
    n ←? sql env (move_stmt id (rw_Status current) to now c);
    if (n =? 0)%nat then latest ←? Get id; fail (BadTransition latest)
    else Get id.

(** * Verdicts in structure *)

Definition VerdictOutcomePass : string := "pass".
Definition VerdictOutcomeFail : string := "fail".
Definition VerdictSourceMCP : string := "mcp".
Definition VerdictSourceFinish : string := "finish".
Definition SeverityNone : string := "none".
Definition SeverityMedium : string := "medium".

Definition slotOf (role : string) : string :=
  if one_of role [RolePlanner; RoleQA; RoleTester; RoleExecutor; RoleReviewer; RoleResearcher] then role else EmptyString.

Definition VerdictRole (r : Row) : string :=
  if negb (String.eqb (rw_Role r) EmptyString) then
    let slot := slotOf (rw_Role r) in
    if String.eqb slot RoleReviewer then RoleReviewer else if String.eqb slot RoleQA then RoleQA else EmptyString
  else if String.eqb (rw_Kind r) JobReview then RoleReviewer
  else if String.eqb (rw_Kind r) JobJudge then RoleQA
  else EmptyString.

Definition VerdictFor (runID : string) : M (Res (option VerdictRow)) := query env (λ h, h_verdicts h !! runID).

Definition reconcileVerdict (r : Row) (textual : string) : M string :=
  if String.eqb (VerdictRole r) EmptyString then mret textual
  else
    found ← VerdictFor (rw_ID r);
    mret match found with
    | inr (Some v) =>
        if negb (String.eqb (vd_Source v) VerdictSourceMCP) then textual
        else
          let pass := String.eqb (vd_Outcome v) VerdictOutcomePass in
          if String.eqb (rw_Kind r) JobReview then (if pass then VerdictApprove else VerdictChanges)
          else if String.eqb (rw_Kind r) JobJudge then (if pass then VerdictPass else VerdictFail)
          else textual
    | _ => textual
    end.

(** verdictRound: the round, and the run a review judges. *)
Definition verdictRound (r : Row) (role : string) : M (Res (Z * string)) :=
  if String.eqb role RoleQA then
    query env (λ h, (Z.of_nat (length (List.filter
      (λ o, String.eqb (rw_Project o) (rw_Project r) && String.eqb (pc_NodeID (rw_place o)) (pc_NodeID (rw_place r))
            && negb (String.eqb (rw_ID o) (rw_ID r))
            && match h_verdicts h !! rw_ID o with Some v => String.eqb (vd_Role v) RoleQA | None => false end)
      (h_runs h))) + 1, EmptyString))
  else if String.eqb (rw_PipelineID r) EmptyString then done_with (1, EmptyString)
  else
    round ←? query env (λ h, match pipe_by_id (rw_PipelineID r) h with Some p => pp_Round p | None => 1 end);
    subject ←? query env (λ h,
      match last (oldest_first (List.filter (λ o, String.eqb (rw_PipelineID o) (rw_PipelineID r)
               && one_of (rw_Kind o) [JobImplement; JobRevise; "implement"]
               && String.ltb (rw_CreatedAt o) (rw_CreatedAt r) && negb (String.eqb (rw_ID o) (rw_ID r))) (h_runs h))) with
      | Some o => rw_ID o
      | None => EmptyString
      end);
    done_with (Z.max round 1, subject).

Definition put_verdict (runID : string) (v : VerdictRow) (h : Hub) : Hub * unit :=
  (set_verdicts (<[runID := v]> (h_verdicts h)) h, tt).

(** submitVerdict, of a verdict ValidateVerdict accepts. *)
Definition submitVerdict (r : Row) (role outcome severity : string) (reasons : list string) (note source : string) : M (Res unit) :=
  '(round, subject) ←? verdictRound r role;
  sql env (put_verdict (rw_ID r) (mkVerdict role round subject outcome severity reasons note source)).

Definition synthesizeVerdict (r : Row) : M unit :=
  if negb (one_of (rw_Kind r) [JobReview; JobJudge]) then mret tt
  else
    let role := if negb (String.eqb (VerdictRole r) EmptyString) then VerdictRole r
                else if String.eqb (rw_Kind r) JobJudge then RoleQA else RoleReviewer in
    let verdict := pg_Verdict (rw_prog r) in
    let write outcome severity reasons :=
      found ← VerdictFor (rw_ID r);
      match found with
      | inr None => _ ← submitVerdict r role outcome severity reasons EmptyString VerdictSourceFinish; mret tt
      | _ => mret tt
      end in
    if one_of verdict [VerdictApprove; VerdictPass] then write VerdictOutcomePass SeverityNone []
    else if one_of verdict [VerdictChanges; VerdictFail] then
      write VerdictOutcomeFail SeverityMedium
        [if String.eqb (rw_Kind r) JobJudge && existsb (λ c, negb (ch_Pass c)) (pg_Checks (rw_prog r)) then "criteria_unmet" else "other"]
    else mret tt.

(** * Finishing *)

Record RunResult := mkResult {
  rs_Status : string; rs_Error : string; rs_Summary : string; rs_ExitCode : Z; rs_FailureKind : string; rs_Verdict : string;
  rs_HandoffBranch : string; rs_HandoffNote : string; rs_ResetAt : string;
  rs_Verify : option VerifyResult; rs_Checks : list CheckResult; rs_GuardAck : bool }.

Definition clampBytes (s : string) (n : nat) : string :=
  if (String.length s <=? n)%nat then s else str_take (cut_back s n) s.

Fixpoint skip_cont (s : string) : string :=
  match s with String c s' => if cont_byte (byte_val c) then skip_cont s' else s | EmptyString => s end.

Definition tailBytes (s : string) (n : nat) : string :=
  if (String.length s <=? n)%nat then s else skip_cont (str_drop (String.length s - n) s).

Definition clamp_check (c : CheckResult) : CheckResult :=
  mkCheck (clampBytes (ch_ID c) 16) (ch_Pass c) (clampBytes (ch_Note c) MaxCheckNote).
Definition clamp_verify (v : VerifyResult) : VerifyResult :=
  mkVerify (clampBytes (vr_Phase v) 16) (clampBytes (vr_Head v) 64) (vr_ExitCode v) (vr_Passed v) (vr_DurationMs v)
    (tailBytes (vr_Output v) MaxVerifyOutput) (vr_NoCommand v).

Definition ClampRoleFields (s : RunResult) : RunResult :=
  mkResult (rs_Status s) (rs_Error s) (rs_Summary s) (rs_ExitCode s) (rs_FailureKind s) (rs_Verdict s)
    (rs_HandoffBranch s) (rs_HandoffNote s) (rs_ResetAt s)
    (clamp_verify <$> rs_Verify s) (clamp_check <$> firstn MaxCheckResults (rs_Checks s)) (rs_GuardAck s).

(** The change a finish writes, given the reconciled verdict. *)
Definition finish_change (runnerID : string) (s : RunResult) (verdict : string) : Change :=
  let failed := String.eqb (rs_Status s) RunFailed in
  let failureKind := if failed then CleanFailureKind (rs_FailureKind s) else EmptyString in
  let handed := failed && HandoffWorthy failureKind && ValidHandoffBranch (rs_HandoffBranch s) in
  mkChange runnerID EmptyString EmptyString (rs_Error s) (rs_Summary s) (Some (rs_ExitCode s)) failureKind verdict
    (if handed then rs_HandoffBranch s else EmptyString) (if handed then rs_HandoffNote s else EmptyString)
    (rs_Verify s) (rs_Checks s).

Definition StoreFinish (id runnerID : string) (result : RunResult) : M (Res Row) :=
  if negb (one_of (rs_Status result) [RunSucceeded; RunFailed; RunCancelled]) then fail Invalid
  else
    let result := ClampRoleFields result in
    current ← Get id;
    verdict ← match current with
              | inr r => reconcileVerdict r (CleanVerdict (rs_Verdict result))
              | inl _ => mret (CleanVerdict (rs_Verdict result))
              end;
    r ←? Transition id (rs_Status result) (finish_change runnerID result verdict);
    let resetAt := if String.eqb (rs_Status result) RunFailed then Truncate (rs_ResetAt result) 64 else rw_ResetAt r in
    let r := set_said resetAt (rs_GuardAck result) r in
    _ ← synthesizeVerdict r;
    done_with r.

(** * Waits for a usage limit *)

Definition DueRetries (now : Z) : M (Res (list Row)) :=
  query env (λ h, slice_stable
    (λ a b, String.ltb (rw_RetryAt a) (rw_RetryAt b) || (String.eqb (rw_RetryAt a) (rw_RetryAt b) && String.ltb (rw_ID a) (rw_ID b)))
    (List.filter (λ r, String.eqb (rw_Status r) RunQueued && negb (String.eqb (rw_RetryAt r) EmptyString)
                       && negb (String.ltb (formatStamp now) (rw_RetryAt r))) (h_runs h))).

Definition released (p : Progress) : Progress :=
  mkProgress (pg_Status p) (pg_Base p) (pg_Branch p) (pg_Error p) (pg_Summary p) (pg_ExitCode p) (pg_FailureKind p)
    (pg_Verdict p) (pg_HandoffBranch p) (pg_HandoffNote p) (pg_Verify p) (pg_Checks p) (pg_StartedAt p) (pg_FinishedAt p) EmptyString.

Definition ReleaseRetry (id at_ : string) : M (Res bool) :=
  sql_one (update_runs (λ r, is_run id r && String.eqb (rw_Status r) RunQueued && String.eqb (rw_RetryAt r) at_
                             && negb (String.eqb (rw_RetryAt r) EmptyString))
             (λ r, set_prog (released (rw_prog r)) r)).

(** * Changes and pull requests *)

Definition isHex (s : string) : bool :=
  str_all (λ c, let z := byte_val c in in_range 48 57 z || in_range 97 102 z || in_range 65 70 z) s.

Definition nul : ascii := "000"%char.

Definition validPath (p : string) (required : bool) : bool :=
  if String.eqb p EmptyString then negb required
  else (String.length p <=? MaxPathBytes)%nat && ValidString p && negb (has_char nul p).

Definition fileStatuses : list string := ["added"; "modified"; "deleted"; "renamed"].
Definition prStates : list string := ["open"; PRMerged; "closed"].
Definition ciStatuses : list string := [EmptyString; CIPending; CISuccess; CIFailure].

Definition valid_file (f : FileChange) : bool :=
  validPath (fc_Path f) true && validPath (fc_OldPath f) false && one_of (fc_Status f) fileStatuses
  && (0 <=? fc_Additions f) && (0 <=? fc_Deletions f).

Definition ValidateChanges (ch : RunChanges) : bool :=
  (String.length (rc_Commit ch) <=? maxCommitBytes)%nat && isHex (rc_Commit ch)
  && (String.length (rc_Base ch) <=? maxShortField)%nat && ValidString (rc_Base ch) && negb (has_char nul (rc_Base ch))
  && (length (rc_Files ch) <=? MaxChangedFiles)%nat
  && (String.length (rc_Patch ch) <=? MaxPatchBytes)%nat
  && (0 <=? rc_Additions ch) && (0 <=? rc_Deletions ch)
  && forallb valid_file (rc_Files ch).

(** unicode.IsSpace and unicode.IsControl. *)
Definition is_space_rune (r : Z) : bool :=
  in_range 9 13 r || (r =? 32) || (r =? 133) || (r =? 160) || (r =? 5760) || in_range 8192 8202 r
  || (r =? 8232) || (r =? 8233) || (r =? 8239) || (r =? 8287) || (r =? 12288).
Definition is_control_rune (r : Z) : bool := in_range 0 31 r || in_range 127 159 r.

Definition ValidatePR (pr : PRInfo) : bool :=
  (if negb (String.eqb (pi_URL pr) EmptyString) then
     (String.length (pi_URL pr) <=? MaxPRURLBytes)%nat && has_prefix (pi_URL pr) "https://"
     && negb (existsb (λ r, is_space_rune r || is_control_rune r) (runes (pi_URL pr)))
     && e_link env (pi_URL pr) && one_of (pi_State pr) prStates
   else String.eqb (pi_State pr) EmptyString || one_of (pi_State pr) prStates)
  && (0 <=? pi_Number pr) && (pi_Number pr <=? 2 ^ 31 - 1)
  && one_of (pi_CI pr) ciStatuses
  && (String.length (pi_HeadSHA pr) <=? maxCommitBytes)%nat && isHex (pi_HeadSHA pr).

Definition ChangesGrace : Z := hour.

Definition acceptsChanges (now : Z) (r : Row) : bool :=
  if String.eqb (rw_Status r) RunRunning then true
  else if one_of (rw_Status r) [RunSucceeded; RunFailed; RunCancelled] then
    negb (String.eqb (pg_StartedAt (rw_prog r)) EmptyString)
    && match parse_rfc3339 (pg_FinishedAt (rw_prog r)) with
       | Some finished => now - finished <=? ChangesGrace
       | None => false
       end
  else false.

Fixpoint remove_char (c : ascii) (s : string) : string :=
  match s with
  | EmptyString => EmptyString
  | String a s' => if Ascii.eqb a c then remove_char c s' else String a (remove_char c s')
  end.

Definition kept_changes (ch : RunChanges) : RunChanges :=
  mkRunChanges (rc_Commit ch) (rc_Base ch) (rc_Files ch) (rc_Additions ch) (rc_Deletions ch)
    (remove_char nul (Truncate (rc_Patch ch) MaxPatchBytes)) (rc_PatchTruncated ch).

(** The transaction: the first report is kept, and copied onto the run. *)
Definition changes_stmt (runID : string) (ch : RunChanges) (h : Hub) : Hub * bool :=
  match h_changes h !! runID with
  | Some _ => (h, false)
  | None =>
      let h := set_changes (<[runID := kept_changes ch]> (h_changes h)) h in
      ((update_runs (is_run runID) (set_commit (rc_Commit ch)) h).1, true)
  end.

Definition SetChanges (runID runnerID : string) (ch : RunChanges) : M (Res (Row * bool)) :=
  if negb (ValidateChanges ch) then fail Invalid
  else
    current ←? Get runID;
    if negb (String.eqb (rw_RunnerID current) runnerID) then fail NotFound
    else
      now ← ask env (λ n _, e_now env n);
      if negb (acceptsChanges now current) then fail (BadTransition current)
      else
        wrote ←? sql env (changes_stmt runID ch);
        if wrote : bool then latest ←? Get runID; done_with (latest, true)
        else done_with (current, false).

Definition Changes (runID : string) : M (Res (option RunChanges)) := query env (λ h, h_changes h !! runID).

(** setPR: the run before, the run after, and whether anything changed. *)
Definition setPR (runID runnerID : string) (pr : PRInfo) : M (Res (Row * Row * bool)) :=
  if negb (ValidatePR pr) then fail Invalid
  else
    current ←? Get runID;
    if negb (String.eqb (rw_RunnerID current) runnerID) then fail NotFound
    else
      let seen := mkPR (pi_URL pr) (pi_Number pr) (pi_State pr) (pi_CI pr)
                    (remove_char nul (Truncate (pi_Error pr) MaxErrorBytes)) (pi_HeadSHA pr) in
      let old := rw_pull current in
      if String.eqb (pi_URL old) (pi_URL seen) && (pi_Number old =? pi_Number seen) && String.eqb (pi_State old) (pi_State seen)
         && String.eqb (pi_CI old) (pi_CI seen) && String.eqb (pi_Error old) (pi_Error seen)
         && String.eqb (pi_HeadSHA old) (pi_HeadSHA seen)
      then done_with (current, current, false)
      else
        _ ←? sql env (update_runs (λ r, is_run runID r && String.eqb (rw_RunnerID r) runnerID) (set_pull seen));
        latest ←? Get runID;
        done_with (current, latest, true).

(** Store.Note: a line on a run that has ended, while its events have room. *)
Definition note_stmt (room : bool) (runID text : string) (h : Hub) : Hub * Res unit :=
  match run_by_id runID h with
  | None => (h, inl Broken)
  | Some r =>
      if negb (RunFinal (rw_Status r)) || negb room then (h, inr tt)
      else (set_log (h_log h ++ [Noted runID ("hub: " +:+ text)]) h, inr tt)
  end.

Definition StoreNote (runID text : string) : M (Res unit) :=
  room ← ask env (λ n _, e_note_room env n);
  sql_res (note_stmt room runID text).

(** * Roles *)

(** roleSetting: the project's own, else the owner's for every project. *)
Definition roleSetting (ownerID project role : string) : M (Res (option RoleSetting)) :=
  query env (λ h,
    let mine := List.filter (λ s, String.eqb (rl_Owner s) ownerID && String.eqb (rl_Role s) role) (h_roles h) in
    match (if String.eqb project EmptyString then None else find (λ s, String.eqb (rl_Project s) project) mine) with
    | Some s => Some s
    | None => last (List.filter (λ s, String.eqb (rl_Project s) EmptyString) mine)
    end).

Definition role_busy (ownerID project role : string) (h : Hub) : Z :=
  Z.of_nat (length (List.filter (λ r, String.eqb (rw_OwnerID r) ownerID && String.eqb (rw_Role r) role && holds r
    && (String.eqb project EmptyString || String.eqb (rw_Project r) project)) (h_runs h))).

Definition roleHasRoom (r : Row) : M (Res bool) :=
  if String.eqb (rw_Role r) EmptyString then done_with true
  else
    setting ←? roleSetting (rw_OwnerID r) (rw_Project r) (rw_Role r);
    match setting with
    | None => done_with true
    | Some s =>
        if rl_MaxConcurrent s <=? 0 then done_with true
        else n ←? query env (role_busy (rw_OwnerID r) (rl_Project s) (rw_Role r)); done_with (n <? rl_MaxConcurrent s)
    end.
End Store.
