(* ===== verification/PipeStore.v ===== *)
(** The run store's pipelines and votes (internal/runs/pipelines.go): each
    write is one conditional statement, and says whether it took. *)

From S2P Require Import Prelude GoStr GoFloat GoTime Dsl Graph NodeTypes Workflow Roles State Readiness Globs Runs Hub RunStore.
From stdpp Require Import pretty.
Open Scope Z_scope.

Definition no_tries : Tries := mkTries 0 0 0 EmptyString EmptyString.

Definition fresh_pipe (id : string) (w : NewPipeline) : PipeRow :=
  mkPipe id w EmptyString EmptyString 1 PipelineRunning EmptyString EmptyString (np_Phase w) [] None no_tries.

(** A frozen configuration without a workflow is read as none. *)
Definition read_config (c : option StagedConfig) : option StagedConfig :=
  c ← c; match sc_Workflow c with Some _ => Some c | None => None end.

Definition with_config (c : option StagedConfig) (w : NewPipeline) : NewPipeline :=
  mkNewPipeline (np_OwnerID w) (np_CreatedBy w) (np_Project w) (np_NodeID w) (np_Pipeline w) (np_Fallbacks w)
    (np_JobPrompt w) (np_Prompt w) c (np_Phase w).

(** A running pipeline that waits for a person is shown as such. *)
Definition shown (p : PipeRow) : PipeRow :=
  mkPipe (pp_ID p) (with_config (read_config (pp_Config p)) (pp_new p)) (pp_Branch p) (pp_PRURL p) (pp_Round p)
    (if String.eqb (pp_Status p) PipelineRunning && String.eqb (pp_Awaiting p) AwaitingHuman then PipelineWaitingHuman else pp_Status p)
    (pp_Reason p) (pp_Awaiting p) (pp_Phase p) (pp_TestFiles p) (pp_Guard p) (pp_Tries p).

(** ORDER BY round, the person last, LENGTH(reviewer), reviewer. *)
Definition vote_before (a b : Vote) : bool :=
  let person v := String.eqb (vt_Reviewer v) HumanReviewerKey in
  let len v := String.length (vt_Reviewer v) in
  (vt_Round a <? vt_Round b)
  || ((vt_Round a =? vt_Round b)
      && ((negb (person a) && person b)
          || (Bool.eqb (person a) (person b)
              && ((len a <? len b)%nat || ((len a =? len b)%nat && String.ltb (vt_Reviewer a) (vt_Reviewer b)))))).

Definition is_pipe (id : string) (p : PipeRow) : bool := String.eqb (pp_ID p) id.
Definition pipe_running (p : PipeRow) : bool := String.eqb (pp_Status p) PipelineRunning.

Definition same_key (v w : Vote) : bool :=
  String.eqb (vt_Pipeline v) (vt_Pipeline w) && (vt_Round v =? vt_Round w) && String.eqb (vt_Reviewer v) (vt_Reviewer w).

Definition pending_seat (run : string) (v : Vote) : bool := String.eqb (vt_RunID v) run && String.eqb (vt_Verdict v) EmptyString.

Section PipeStore.
Context (env : Env).

Definition Votes (pipelineID : string) : M (Res (list Vote)) :=
  query env (λ h, slice_stable vote_before (List.filter (λ v, String.eqb (vt_Pipeline v) pipelineID) (h_votes h))).

Definition RoundVotes (pipelineID : string) (round : Z) : M (Res (list Vote)) :=
  all ←? Votes pipelineID;
  done_with (List.filter (λ v, vt_Round v =? round) all).

(** Store.Pipeline: the row, then its votes and its runs' ids, which the API
    shows and the dispatcher does not use. *)
Definition GetPipeline (id : string) : M (Res PipeRow) :=
  p ←? sql_res env (λ h, (h, match pipe_by_id id h with Some p => inr (shown p) | None => inl NotFound end));
  _ ←? Votes id;
  _ ←? query env (λ h, rw_ID <$> oldest_first (List.filter (λ r, String.eqb (rw_PipelineID r) id) (h_runs h)));
  done_with p.

Definition insert_pipe (p : PipeRow) (h : Hub) : Hub * Res unit :=
  match pipe_by_id (pp_ID p) h with
  | Some _ => (h, inl Broken)
  | None => (set_pipes (h_pipes h ++ [p]) h, inr tt)
  end.

Definition CreatePipeline (w : NewPipeline) : M (Res PipeRow) :=
  if existsb (String.eqb EmptyString) [np_OwnerID w; np_CreatedBy w; np_Project w; np_NodeID w] then fail Invalid
  else if negb (ValidatePipeline (np_Pipeline w) false) then fail Invalid
  else
    id ← ask env (λ n _, e_id env n);
    _ ← stamp env;
    _ ←? sql_res env (insert_pipe (fresh_pipe id w));
    GetPipeline id.

(** EndPipeline: a running pipeline ends once. *)
Definition EndPipeline (id status reason : string) : M (Res bool) :=
  if negb (one_of status [PipelineApproved; PipelineChangesLeft; PipelineFailed; PipelineCancelled]) then fail Invalid
  else sql_one env (update_pipes (λ p, is_pipe id p && pipe_running p)
                  (λ p, set_awaiting EmptyString (set_end status (Truncate reason MaxErrorBytes) p))).

Definition ClaimPR (id branch prURL : string) : M (Res bool) :=
  if String.eqb prURL EmptyString then fail Invalid
  else sql_one env (update_pipes (λ p, is_pipe id p && pipe_running p && String.eqb (pp_PRURL p) EmptyString)
                  (set_pr (Truncate branch maxShortField) (Truncate prURL MaxPRURLBytes))).

Definition SetPipelinePR (id branch prURL : string) : M (Res bool) :=
  if String.eqb prURL EmptyString then fail Invalid
  else sql_one env (update_pipes (λ p, is_pipe id p && pipe_running p)
                  (set_pr (Truncate branch maxShortField) (Truncate prURL MaxPRURLBytes))).

Definition NextRound (id : string) (round : Z) : M (Res bool) :=
  sql_one env (update_pipes (λ p, is_pipe id p && pipe_running p && (pp_Round p =? round))
             (λ p, set_awaiting EmptyString (set_round (round + 1) p))).

Definition PipelineRuns (id : string) : M (Res (list Row)) :=
  if String.eqb id EmptyString then fail Invalid
  else query env (λ h, oldest_first (List.filter (λ r, String.eqb (rw_PipelineID r) id) (h_runs h))).

Definition AwaitHuman (id : string) (round : Z) : M (Res bool) :=
  sql_one env (update_pipes (λ p, is_pipe id p && pipe_running p && (pp_Round p =? round) && String.eqb (pp_Awaiting p) EmptyString)
             (set_awaiting AwaitingHuman)).

Definition AwaitHumanReason (id : string) (round : Z) (reason : string) : M (Res bool) :=
  sql_one env (update_pipes (λ p, is_pipe id p && pipe_running p && (pp_Round p =? round) && String.eqb (pp_Awaiting p) EmptyString)
             (λ p, set_awaiting AwaitingHuman (set_end (pp_Status p) (Truncate reason MaxErrorBytes) p))).

Definition SetStaged (id phase : string) (testFiles : list string) (guard : option GuardReport) (tries : Tries) : M (Res bool) :=
  sql_one env (update_pipes (λ p, is_pipe id p && pipe_running p) (set_stage phase (firstn MaxTestFiles testFiles) guard tries)).

(** * Votes *)

(** INSERT INTO review_votes: a seat taken in the round violates the key. *)
Definition insert_vote (v : Vote) (h : Hub) : Hub * Res unit :=
  if existsb (same_key v) (h_votes h) then (h, inl Broken) else (set_votes (h_votes h ++ [v]) h, inr tt).

Definition StartVote (pipelineID : string) (round : Z) (index : nat) (am : AgentModel) (runID : string) : M (Res unit) :=
  sql_res env (insert_vote (mkVote pipelineID round (pretty index) (Truncate (am_Agent am) maxShortField)
                              (Truncate (am_Model am) maxShortField) EmptyString runID EmptyString EmptyString)).

(** The statement, and how it ended. *)
Definition settle_stmt (runID verdict : string) (h : Hub) : Hub * nat :=
  let (h', n) := update_votes (pending_seat runID) (set_verdict verdict) h in
  (set_log (h_log h' ++ [SeatSettled runID verdict (n =? 1)%nat]) h', n).

Definition SettleVote (runID verdict : string) : M (Res bool) :=
  if negb (one_of verdict [VerdictApprove; VerdictChanges; VerdictAbstain]) then fail Invalid
  else if String.eqb runID EmptyString then fail Invalid
  else sql_one env (settle_stmt runID verdict).

Definition MoveVote (fromRunID toRunID : string) : M (Res unit) :=
  if String.eqb fromRunID EmptyString || String.eqb toRunID EmptyString then fail Invalid
  else
    _ ←? sql env (update_votes (pending_seat fromRunID) (set_seat toRunID));
    done_with tt.

(** ON CONFLICT DO NOTHING: a second vote of a person in the round is refused. *)
Definition HumanVote (pipelineID : string) (round : Z) (actorID name verdict comment : string) : M (Res unit) :=
  if negb (one_of verdict [VerdictApprove; VerdictChanges]) then fail Invalid
  else sql_res env (λ h,
    let v := mkVote pipelineID round HumanReviewerKey HumanReviewer (Truncate name maxShortField) verdict EmptyString
               (Truncate comment maxVoteComment) actorID in
    if existsb (same_key v) (h_votes h) then (h, inl Precondition) else (set_votes (h_votes h ++ [v]) h, inr tt)).
End PipeStore.
