(* ===== verification/Dispatch.v ===== *)
(** The run dispatcher's common part (internal/runs: dispatcher.go,
    dispatcher_routing.go, routing.go): offering queued runs to a runner,
    notes and announcements, recording a follow-up run, ending a pipeline. *)

From S2P Require Import Prelude GoStr GoFloat GoTime Dsl Graph NodeTypes Workflow Roles State Readiness Globs Runs Hub RunStore PipeStore.
From stdpp Require Import pretty.
From Stdlib Require Import Ascii.
Open Scope Z_scope.

Definition newline : string := String "010"%char EmptyString.

Definition Capacity (info : option RunnerInfo) : Z :=
  match info with
  | None => 1
  | Some i => if in_MaxConcurrent i <=? 0 then 1 else in_MaxConcurrent i
  end.

Definition label (am : AgentModel) : string :=
  if String.eqb (am_Model am) EmptyString then am_Agent am else am_Agent am +:+ "/" +:+ am_Model am.

(** The model a run asks for: the one named, which the runner must offer, or
    its default. *)
Definition ResolveAgentModel (info : option RunnerInfo) (am : AgentModel) : option string :=
  info ← info;
  agent ← find (λ a, String.eqb (ai_Kind a) (am_Agent am)) (in_Agents info);
  if negb (ai_Installed agent) then None
  else if String.eqb (am_Model am) EmptyString then
    Some (match find mo_Default (ai_Models agent) with Some m => mo_ID m | None => "default" end)
  else if existsb (λ m, String.eqb (mo_ID m) (am_Model am)) (ai_Models agent) then Some (am_Model am)
  else None.

Definition stepName (kind : string) : string := if String.eqb kind JobImplement then "implement" else kind.

(** A review is never the part that is cut. *)
Definition RevisePrompt (base review : string) : string :=
  let tail := Truncate (newline +:+ newline +:+ "Review to address:" +:+ newline +:+ trim_space review) (Nat.div MaxPromptBytes 2) in
  Truncate base (MaxPromptBytes - String.length tail) +:+ tail.

Definition shortHead (head : string) : string := if (7 <? String.length head)%nat then str_take 7 head else head.
Definition shortRunID (id : string) : string := if (8 <? String.length id)%nat then str_take 8 id else id.

(** Evidence outcomes. *)
Definition EvidencePass : string := "pass".
Definition EvidenceFail : string := "fail".
Definition EvidenceSkip : string := "skip".
Definition EvidenceInfo : string := "info".
Definition passFail (ok : bool) : string := if ok then EvidencePass else EvidenceFail.
Definition ciOutcome (status : string) : string :=
  if String.eqb status CISuccess then EvidencePass else if String.eqb status CIFailure then EvidenceFail else EvidenceInfo.

(** Phases of a staged pipeline. *)
Definition PhaseTest : string := "test".
Definition PhaseVerifyRed : string := "verify_red".
Definition PhaseImplement : string := "implement".
Definition PhaseVerifyGreen : string := "verify_green".
Definition PhaseGuard : string := "guard".
Definition PhaseCI : string := "ci".
Definition PhaseReview : string := "review".
Definition PhaseHuman : string := "human".
Definition PhaseJudge : string := "judge".

Definition empty_workflow : Workflow :=
  mkWorkflow EmptyString (mkStages false false false false false false) 0 0 0 0 None EmptyString.

(** workflowOf: the frozen workflow with its levers' defaults. *)
Definition workflowOf (p : PipeRow) : Workflow :=
  let w := match pp_Config p with Some c => default empty_workflow (sc_Workflow c) | None => empty_workflow end in
  default empty_workflow (Normalized (Some w)).

Definition is_staged (p : PipeRow) : bool := match pp_Config p with Some c => sc_Staged c | None => false end.
Definition is_story (p : PipeRow) : bool := match pp_Config p with Some c => sc_Story c | None => false end.
Definition stages_of (p : PipeRow) : Stages := wf_Stages (workflowOf p).

(** A role's tools and the acceptance items, from the frozen configuration. *)
Definition role_tools (c : StagedConfig) (role : string) : list string := default [] (sc_Tools c !! role).

Section Dispatch.
Context (env : Env).

(** * Telling *)

Definition notifyChanged (r : Row) : M unit := act env (RunChanged (rw_ID r) (rw_Status r)).
Definition notifyRun (r : Row) : M unit := act env (RunNotified (rw_ID r)).
Definition finished (r : Row) : M unit :=
  if one_of (rw_Status r) [RunSucceeded; RunFailed] then notifyRun r else mret tt.

Definition note (r : Row) (text : string) : M unit := _ ← StoreNote env (rw_ID r) text; mret tt.

Definition recordEvidence (r : Row) (kind outcome summary : string) : M unit :=
  act env (Evidence (rw_ID r) (rw_PipelineID r) kind outcome (summary +:+ " (run " +:+ shortRunID (rw_ID r) +:+ ")")).

Definition pipelineChanged (id : string) : M unit :=
  p ← GetPipeline env id;
  match p with
  | inl _ => mret tt
  | inr p => act env (PipelineSeen id (pp_Status p))
  end.

(** * Asking *)

Definition reg_Get (runnerID : string) : M (option Runner) := ask env (λ n _, e_runner env n runnerID).
Definition clockNow : M Z := ask env (λ n _, e_now env n).
Definition BudgetStatus (ownerID : string) : M (Res string) := ask env (λ n h, e_budget env n h ownerID).
Definition RoleBudgetStatus (ownerID role : string) : M (Res string) := ask env (λ n h, e_role_budget env n h ownerID role).

(** Registry.Send: whether it went out; what went out is logged. *)
Definition send (runnerID : string) (message : HubAct) : M bool :=
  prim env (λ n h, if e_sent env n runnerID then (set_log (h_log h ++ [message]) h, true) else (h, false)).

Definition sendCancel (r : Row) (reason : string) : M bool := send (rw_RunnerID r) (CancelSent (rw_RunnerID r) (rw_ID r) reason).

(** SteppedUp: the dispatcher's step-up at the run's making still stands. *)
Definition SteppedUp (r : Row) (now : Z) : bool :=
  match e_step_up env with
  | None => true
  | Some window =>
      if String.eqb (pc_SteppedUpAt (rw_place r)) EmptyString then false
      else match parse_rfc3339 (pc_SteppedUpAt (rw_place r)) with Some at_ => now <? at_ + window | None => false end
  end.

(** * Offers *)

Definition offer (r : Row) : M bool :=
  offered ← Transition env (rw_ID r) RunOffered no_change;
  match offered with
  | inl _ => mret false
  | inr offered =>
      now ← clockNow;
      sent ← send (rw_RunnerID r) (OfferSent (rw_RunnerID r) (job_of offered (SteppedUp offered now)));
      if sent : bool then notifyChanged offered ≫= λ _, mret true
      else
        back ← Transition env (rw_ID r) RunQueued no_change;
        _ ← notifyChanged (match back with inr b => b | inl _ => offered end);
        mret false
  end.

Fixpoint offer_queued (room : Z) (queued : list Row) : M unit :=
  match queued with
  | [] => mret tt
  | r :: queued' =>
      if room <=? 0 then mret tt
      else if negb (String.eqb (rw_RetryAt r) EmptyString) then offer_queued room queued'
      else
        ok ← roleHasRoom env r;
        match ok with
        | inr true => took ← offer r; offer_queued (if took : bool then room - 1 else room) queued'
        | _ => offer_queued room queued'
        end
  end.

(** Pump: the runner's queued runs, oldest first, while it has room. *)
Definition Pump (runnerID : string) : M unit :=
  locked (RunnerLock runnerID) (
    online ← ask env (λ n _, e_online env n runnerID);
    if negb online then mret tt
    else
      runner ← reg_Get runnerID;
      match runner with
      | None => mret tt
      | Some runner =>
          if negb (Headless (rn_Info runner)) then mret tt
          else
            busy ← Busy env runnerID;
            match busy with
            | inl _ => mret tt
            | inr busy =>
                let room := Capacity (rn_Info runner) - busy in
                if room <=? 0 then mret tt
                else
                  queued ← ForRunner env runnerID [RunQueued];
                  match queued with
                  | inl _ => mret tt
                  | inr queued => offer_queued room queued
                  end
            end
      end).

Definition Submit (r : Row) : M Row :=
  _ ← notifyChanged r;
  _ ← Pump (rw_RunnerID r);
  latest ← Get env (rw_ID r);
  mret match latest with inr l => l | inl _ => r end.

(** * Ending a pipeline *)

(** stagedApproved: what the evidence was, for the node that is marked done. *)
Definition approval_evidence (p : PipeRow) (reason : string) : string :=
  let tr := pp_Tries p in
  str_join (
    (if negb (String.eqb (tr_RedHead tr) EmptyString) then ["red at " +:+ shortHead (tr_RedHead tr)] else [])
    ++ (if negb (String.eqb (tr_GreenHead tr) EmptyString) then ["green at " +:+ shortHead (tr_GreenHead tr)]
        else match pp_Config p with
             | Some c => if negb (sc_Story c) && st_Tester (stages_of p) then ["green"] else []
             | None => []
             end)
    ++ match pp_Guard p with
       | Some g => [if Violation g then "protected changes approved by " +:+ gd_ApprovedBy g else "guard clean"]
       | None => []
       end
    ++ [reason]) "; ".

Definition stagedApproved (p : PipeRow) (reason : string) : M unit :=
  act env (NodeApproved (np_Project (pp_new p)) (np_NodeID (pp_new p)) (approval_evidence p reason)).

Definition endPipeline (p : PipeRow) (r : Row) (status reason : string) (notified : bool) : M unit :=
  ended ← EndPipeline env (pp_ID p) status reason;
  match ended with
  | inr true =>
      _ ← note r ("pipeline " +:+ status +:+ ": " +:+ reason);
      _ ← (if String.eqb status PipelineApproved && is_staged p then stagedApproved p reason else mret tt);
      _ ← act env (PipelineSeen (pp_ID p) status);
      _ ← notifyChanged r;
      if negb notified && negb (String.eqb status PipelineCancelled) then notifyRun r else mret tt
  | _ => mret tt
  end.

Definition awaitHuman (p : PipeRow) (from : Row) : M unit :=
  ok ← AwaitHuman env (pp_ID p) (pp_Round p);
  match ok with
  | inr true =>
      _ ← note from ("pipeline round " +:+ pretty (pp_Round p) +:+ ": waiting for a person to review " +:+ pp_PRURL p);
      _ ← pipelineChanged (pp_ID p);
      notifyChanged from
  | _ => mret tt
  end.

(** * Follow-up runs *)

(** The place of a run, its runner's name as the registry has it now. *)
Definition follow (r : Row) (runner : Runner) : Place :=
  let pl := rw_place r in
  mkPlace (pc_Project pl) (pc_NodeID pl) (pc_NodeTitle pl) (pc_RunnerID pl) (rn_Name runner) (pc_OwnerID pl)
    (pc_RepoID pl) (pc_RepoName pl) (pc_CreatedBy pl) (pc_CreatedByName pl) (pc_SteppedUpAt pl).

(** The same job again, on another model or at another time. *)
Definition again (r : Row) (runner : Runner) (am : AgentModel) (fallbacks : list AgentModel)
    (handoff : string * string) (retryAt : string) (waits : Z) : New :=
  let w := rw_job r in
  {| nw_place := follow r runner; nw_Agent := am_Agent am; nw_Model := am_Model am; nw_Base := pg_Base (rw_prog r);
     nw_Prompt := nw_Prompt w; nw_JobPrompt := nw_JobPrompt w; nw_Kind := nw_Kind w;
     nw_JobBranch := nw_JobBranch w; nw_JobPRURL := nw_JobPRURL w; nw_Review := nw_Review w;
     nw_RetryOf := rw_ID r; nw_PipelineID := nw_PipelineID w; nw_Fallbacks := fallbacks;
     nw_Mode := ModeHeadless; nw_JobHandoffBranch := handoff.1; nw_JobHandoffNote := handoff.2;
     nw_RetryAt := retryAt; nw_LimitWaits := waits;
     nw_Role := nw_Role w; nw_Override := EmptyString; nw_JobRoles := nw_JobRoles w |}.

(** The next step of a pipeline, where [from] worked. *)
Definition next_step (p : PipeRow) (from : Row) (runner : Runner) (am : AgentModel) (jobPrompt kind branch prURL review : string)
    (fallbacks : list AgentModel) (role : string) (roles : JobRoles) : New :=
  {| nw_place := follow from runner; nw_Agent := am_Agent am; nw_Model := am_Model am; nw_Base := pg_Base (rw_prog from);
     nw_Prompt := np_Prompt (pp_new p); nw_JobPrompt := jobPrompt; nw_Kind := kind;
     nw_JobBranch := branch; nw_JobPRURL := prURL; nw_Review := review;
     nw_RetryOf := EmptyString; nw_PipelineID := pp_ID p; nw_Fallbacks := fallbacks;
     nw_Mode := ModeHeadless; nw_JobHandoffBranch := EmptyString; nw_JobHandoffNote := EmptyString;
     nw_RetryAt := EmptyString; nw_LimitWaits := 0;
     nw_Role := role; nw_Override := EmptyString; nw_JobRoles := roles |}.

(** prepareStep: record the next run without offering it, or fail the pipeline. *)
Definition prepareStep (p : PipeRow) (from : Row) (kind : string) (am : AgentModel) (review : string) (notified : bool) : M (option Row) :=
  let fails reason : M (option Row) := _ ← endPipeline p from PipelineFailed reason notified; mret None in
  runner ← reg_Get (rw_RunnerID from);
  match runner with
  | None => fails "the runner is gone"
  | Some runner =>
      match ResolveAgentModel (rn_Info runner) am with
      | None => fails ("cannot start the " +:+ stepName kind +:+ " step: " +:+ e_no_model env (rn_Info runner) am)
      | Some model =>
          budget ← BudgetStatus (rw_OwnerID from);
          match budget with
          | inl e => fails ("cannot read the budget: " +:+ e_error env e)
          | inr exceeded =>
              if negb (String.eqb exceeded EmptyString) then fails exceeded
              else
                let revise := String.eqb kind JobRevise in
                let jobPrompt := if revise then RevisePrompt (np_JobPrompt (pp_new p)) review else np_JobPrompt (pp_new p) in
                let fallbacks := if revise then np_Fallbacks (pp_new p) else [] in
                let create role roles : M (option Row) :=
                  next ← Create env (next_step p from runner (mkAgentModel (am_Agent am) model) jobPrompt kind
                                       (pp_Branch p) (pp_PRURL p) review fallbacks role roles);
                  match next with
                  | inl e => fails ("cannot start the next step: " +:+ e_error env e)
                  | inr next => mret (Some next)
                  end in
                match pp_Config p with
                | None => create EmptyString no_roles
                | Some c =>
                    let role := if String.eqb kind JobReview then RoleReviewer else RoleExecutor in
                    let roles := mkJobRoles (role_tools c role) [] (sc_Acceptance c) None in
                    status ← RoleBudgetStatus (rw_OwnerID from) role;
                    match status with
                    | inr exceeded =>
                        if negb (String.eqb exceeded EmptyString) then fails ("role " +:+ role +:+ ": " +:+ exceeded)
                        else create role roles
                    | inl _ => create role roles
                    end
                end
          end
      end
  end.

Definition step (p : PipeRow) (from : Row) (kind : string) (am : AgentModel) (review : string) (notified : bool) : M unit :=
  next ← prepareStep p from kind am review notified;
  match next with
  | None => mret tt
  | Some next =>
      _ ← note from ("pipeline round " +:+ pretty (pp_Round p) +:+ ": " +:+ stepName kind +:+ " step on " +:+ am_Agent am +:+ "/"
                     +:+ am_Model (rw_agent next) +:+ " as run " +:+ rw_ID next);
      _ ← Submit next;
      pipelineChanged (pp_ID p)
  end.

(** retryReview: a review that ended without a verdict is tried once more,
    its seat moving with it. *)
Definition retryReview (r : Row) : M bool :=
  runner ← reg_Get (rw_RunnerID r);
  match runner with
  | None => mret false
  | Some runner =>
      budget ← BudgetStatus (rw_OwnerID r);
      match budget with
      | inl _ => mret false
      | inr exceeded =>
          if negb (String.eqb exceeded EmptyString) then mret false
          else
            next ← Create env (again r runner (rw_agent r) [] (EmptyString, EmptyString) EmptyString 0);
            match next with
            | inl e => _ ← note r ("not retrying the review: " +:+ e_error env e); mret false
            | inr next =>
                _ ← MoveVote env (rw_ID r) (rw_ID next);
                _ ← note r ("the review ended without a verdict; trying it once more as run " +:+ rw_ID next);
                _ ← Submit next;
                mret true
            end
      end
  end.

(** * Counting a round's votes *)

Record Tally := mkTally { ta_approvals : nat; ta_pending : nat; ta_approvers : list string; ta_changes : list Vote }.

Definition agent_votes (votes : list Vote) : list Vote := List.filter (λ v, negb (String.eqb (vt_Reviewer v) HumanReviewerKey)) votes.
Definition with_verdict (verdict : string) (votes : list Vote) : list Vote := List.filter (λ v, String.eqb (vt_Verdict v) verdict) votes.

Definition tally (votes : list Vote) : Tally :=
  let votes := agent_votes votes in
  let approved := with_verdict VerdictApprove votes in
  mkTally (length approved) (length (with_verdict EmptyString votes))
    (map (λ v, label (mkAgentModel (vt_Agent v) (vt_Model v))) approved) (with_verdict VerdictChanges votes).

Definition tally_text (approvals reviewers : nat) (needed : Z) : string :=
  pretty approvals +:+ " of " +:+ pretty reviewers +:+ " approved, " +:+ pretty needed +:+ " needed".

(** combinedReview: every review that asked for changes, under its name. *)
Definition review_text (v : Vote) : M string :=
  if String.eqb (vt_RunID v) EmptyString then mret (vt_Comment v)
  else
    run ← Get env (vt_RunID v);
    mret match run with inr r => pg_Summary (rw_prog r) | inl _ => vt_Comment v end.

Fixpoint headed_reviews (total i : nat) (changes : list Vote) : M string :=
  match changes with
  | [] => mret EmptyString
  | v :: changes' =>
      text ← review_text v;
      let who := if String.eqb (vt_Reviewer v) HumanReviewerKey then vt_Model v +:+ " (a person)"
                 else label (mkAgentModel (vt_Agent v) (vt_Model v)) in
      rest ← headed_reviews total (S i) changes';
      mret ((if (0 <? i)%nat then newline +:+ newline else EmptyString)
            +:+ "Review " +:+ pretty (S i) +:+ " of " +:+ pretty total +:+ ", by " +:+ who +:+ ":" +:+ newline +:+ trim_space text +:+ rest)
  end.

Definition combinedReview (changes : list Vote) : M string :=
  match changes with
  | [v] => if negb (String.eqb (vt_Reviewer v) HumanReviewerKey) then review_text v else headed_reviews 1 0 changes
  | _ => headed_reviews (length changes) 0 changes
  end.
End Dispatch.
