(* ===== verification/Staged.v ===== *)
(** The staged task pipeline (internal/runs/dispatcher_staged.go): test,
    verify red, implement, verify green, guard, CI, review, approval.  Each
    stage is a run the runner has to accept; the hub decides what follows from
    what the runs report.  [cancel] is the dispatcher's Cancel. *)

From S2P Require Import Prelude GoStr GoFloat GoTime Dsl Graph NodeTypes Workflow Roles State Readiness Globs Runs Hub RunStore PipeStore Dispatch.
From stdpp Require Import pretty.
From Stdlib Require Import Ascii.
Open Scope Z_scope.

Definition maxReviewOutput : nat := Pos.to_nat 4096.

(** The last bytes of a test run's output. *)
Definition tail (s : string) (n : nat) : string :=
  let s := trim_space s in
  if (String.length s <=? n)%nat then s else "…" +:+ skip_cont (str_drop (String.length s - n) s).

Record stagedStep := mkStep {
  ss_kind : string; ss_role : string; ss_phase : string; ss_am : AgentModel; ss_review : string;
  ss_verify : option VerifySpec; ss_noPR : bool }.

Definition testerOf (p : PipeRow) : AgentModel :=
  if negb (String.eqb (am_Agent (pl_Tester (pp_Pipeline p))) EmptyString) then pl_Tester (pp_Pipeline p)
  else pl_Implement (pp_Pipeline p).

Definition judgeOf (p : Pipeline) : AgentModel := match ReviewersOf p with am :: _ => am | [] => pl_Implement p end.

Definition executorStep (p : PipeRow) (review : string) : stagedStep :=
  if is_story p
  then mkStep JobImplement RoleExecutor PhaseImplement (pl_Implement (pp_Pipeline p)) review None true
  else mkStep JobRevise RoleExecutor PhaseImplement (pl_Implement (pp_Pipeline p)) review None false.

Definition verifyStep (phase verify head : string) : stagedStep :=
  mkStep JobVerify EmptyString phase no_agent EmptyString (Some (mkSpec verify head)) false.

Definition with_tries (t : Tries) (p : PipeRow) : PipeRow := set_stage (pp_Phase p) (pp_TestFiles p) (pp_Guard p) t p.
Definition with_guard (g : option GuardReport) (p : PipeRow) : PipeRow := set_stage (pp_Phase p) (pp_TestFiles p) g (pp_Tries p) p.
Definition with_files (files : list string) (p : PipeRow) : PipeRow := set_stage (pp_Phase p) files (pp_Guard p) (pp_Tries p) p.
Definition with_phase (phase : string) (p : PipeRow) : PipeRow := set_stage phase (pp_TestFiles p) (pp_Guard p) (pp_Tries p) p.

Definition tester_again (t : Tries) : Tries := mkTries (tr_Tester t + 1) (tr_Green t) (tr_CI t) (tr_RedHead t) (tr_GreenHead t).
Definition green_again (t : Tries) : Tries := mkTries (tr_Tester t) (tr_Green t + 1) (tr_CI t) (tr_RedHead t) (tr_GreenHead t).
Definition ci_again (t : Tries) : Tries := mkTries (tr_Tester t) (tr_Green t) (tr_CI t + 1) (tr_RedHead t) (tr_GreenHead t).
Definition red_at (head : string) (t : Tries) : Tries := mkTries (tr_Tester t) (tr_Green t) (tr_CI t) head (tr_GreenHead t).
Definition green_at (head : string) (t : Tries) : Tries := mkTries (tr_Tester t) (tr_Green t) (tr_CI t) (tr_RedHead t) head.

Definition guard_violated (p : PipeRow) : bool := match pp_Guard p with Some g => Violation g | None => false end.
Definition guard_approved (p : PipeRow) : bool := match pp_Guard p with Some g => gd_Approved g | None => false end.
Definition protected (p : PipeRow) : list string := match pp_Guard p with Some g => gd_Touched g ++ gd_Sensitive g | None => [] end.

Definition sign_off (by_ : string) (g : GuardReport) : GuardReport :=
  mkGuard (gd_TestFiles g) (gd_Touched g) (gd_Sensitive g) true by_.

Definition guardNotice (g : option GuardReport) : string :=
  match g with
  | Some g =>
      if negb (Violation g) then EmptyString
      else "Protected files changed by the Executor:" +:+ newline
           +:+ concat_str (map (λ p, "- " +:+ p +:+ " (written by the Tester)" +:+ newline) (gd_Touched g))
           +:+ concat_str (map (λ p, "- " +:+ p +:+ " (test or build infrastructure)" +:+ newline) (gd_Sensitive g))
           +:+ "Approve these changes only if they are justified, with a final line: TESTS: approve-changes"
  | None => EmptyString
  end.

(** What guardStep makes of the executor's changes. *)
Definition guard_report `{Unicode} (p : PipeRow) (files : list FileChange) : GuardReport :=
  let base := Guard (pp_TestFiles p) files in
  let extra := executorTestFiles (TestGlobs (workflowOf p)) (pp_TestFiles p) files in
  let sensitive := sort_strings (foldl (λ out x, if one_of x out then out else out ++ [x]) (gd_Sensitive base) extra) in
  match pp_Guard p with
  | Some g =>
      if gd_Approved g && bool_decide (gd_Touched g = gd_Touched base) && bool_decide (gd_Sensitive g = sensitive)
      then mkGuard (gd_TestFiles base) (gd_Touched base) sensitive true (gd_ApprovedBy g)
      else mkGuard (gd_TestFiles base) (gd_Touched base) sensitive false EmptyString
  | None => mkGuard (gd_TestFiles base) (gd_Touched base) sensitive false EmptyString
  end.

Definition guard_summary (g : GuardReport) : string :=
  if negb (Violation g) then "clean"
  else str_join ((if nonempty (gd_Touched g) then ["tester files changed: " +:+ str_join (gd_Touched g) ", "] else [])
                 ++ (if nonempty (gd_Sensitive g) then ["sensitive: " +:+ str_join (gd_Sensitive g) ", "] else [])) "; ".

Definition failing_checks (checks : list CheckResult) : list string :=
  map (λ c, let n := trim_space (ch_Note c) in if String.eqb n EmptyString then ch_ID c else ch_ID c +:+ ": " +:+ n)
    (List.filter (λ c, negb (ch_Pass c)) checks).

Section Staged.
Context (env : Env) `{Unicode} (cancel : string → string → M (Res Row)).

Definition saveStaged (p : PipeRow) (phase : string) : M bool :=
  ok ← SetStaged env (pp_ID p) phase (pp_TestFiles p) (pp_Guard p) (pp_Tries p);
  mret match ok with inr ok => ok | inl _ => false end.

Definition stagedHuman (p : PipeRow) (from : Row) (reason : string) : M unit :=
  ok ← AwaitHumanReason env (pp_ID p) (pp_Round p) reason;
  match ok with
  | inr true =>
      _ ← note env from ("pipeline waiting for a person: " +:+ reason);
      _ ← pipelineChanged env (pp_ID p);
      _ ← notifyChanged env from;
      notifyRun env from
  | _ => mret tt
  end.

(** What a step's run is offered besides its prompt. *)
Definition step_roles (p : PipeRow) (s : stagedStep) : JobRoles :=
  let tools := match pp_Config p with
               | Some c => if String.eqb (ss_role s) EmptyString then [] else role_tools c (ss_role s)
               | None => [] end in
  let acceptance := match pp_Config p with
                    | Some c => if String.eqb (ss_role s) EmptyString then [] else sc_Acceptance c
                    | None => [] end in
  let files := if String.eqb (ss_role s) RoleExecutor && String.eqb (ss_kind s) JobRevise then pp_TestFiles p
               else if String.eqb (ss_kind s) JobReview && guard_violated p then protected p
               else [] in
  mkJobRoles tools files acceptance (ss_verify s).

(** stagedRun: record the step's run, or fail the pipeline. *)
Definition stagedRun (p : PipeRow) (from : Row) (s : stagedStep) (notified : bool) : M (option Row) :=
  let fails reason : M (option Row) := _ ← endPipeline env p from PipelineFailed reason notified; mret None in
  let verify := String.eqb (ss_kind s) JobVerify in
  let create (runner : Runner) (model : string) : M (option Row) :=
    let work := one_of (ss_kind s) [JobRevise; JobImplement; JobTest] in
    let jobPrompt := if verify then EmptyString
                     else if work && negb (String.eqb (ss_review s) EmptyString)
                          then RevisePrompt (np_JobPrompt (pp_new p)) (ss_review s)
                          else np_JobPrompt (pp_new p) in
    let agent := if verify then EmptyString else am_Agent (ss_am s) in
    let fallbacks := if work then np_Fallbacks (pp_new p) else [] in
    next ← Create env (next_step p from runner (mkAgentModel agent model) jobPrompt (ss_kind s)
                         (if ss_noPR s then EmptyString else pp_Branch p) (if ss_noPR s then EmptyString else pp_PRURL p)
                         (ss_review s) fallbacks (ss_role s) (step_roles p s));
    match next with
    | inl e => fails ("cannot start the next step: " +:+ e_error env e)
    | inr next => mret (Some next)
    end in
  runner ← reg_Get env (rw_RunnerID from);
  match runner with
  | None => fails "the runner is gone"
  | Some runner =>
      if verify then create runner EmptyString
      else
        match ResolveAgentModel (rn_Info runner) (ss_am s) with
        | None => fails ("cannot start the " +:+ ss_kind s +:+ " step: " +:+ e_no_model env (rn_Info runner) (ss_am s))
        | Some model =>
            budget ← BudgetStatus env (rw_OwnerID from);
            match budget with
            | inl e => fails ("cannot read the budget: " +:+ e_error env e)
            | inr exceeded =>
                if negb (String.eqb exceeded EmptyString) then fails exceeded
                else if String.eqb (ss_role s) EmptyString then create runner model
                else
                  status ← RoleBudgetStatus env (rw_OwnerID from) (ss_role s);
                  match status with
                  | inl e => fails ("cannot read the role budget: " +:+ e_error env e)
                  | inr exceeded =>
                      if negb (String.eqb exceeded EmptyString) then fails ("role " +:+ ss_role s +:+ ": " +:+ exceeded)
                      else create runner model
                  end
            end
        end
  end.

Definition stagedStepNow (p : PipeRow) (from : Row) (s : stagedStep) (notified : bool) : M unit :=
  ok ← saveStaged p (ss_phase s);
  if negb ok then mret tt
  else
    next ← stagedRun (with_phase (ss_phase s) p) from s notified;
    match next with
    | None => mret tt
    | Some next =>
        let who := ss_kind s +:+ (if String.eqb (am_Agent (ss_am s)) EmptyString then EmptyString
                                  else " by " +:+ label (mkAgentModel (am_Agent (ss_am s)) (am_Model (rw_agent next)))) in
        _ ← note env from ("pipeline " +:+ ss_phase s +:+ ": " +:+ who +:+ " as run " +:+ rw_ID next);
        _ ← Submit env next;
        pipelineChanged env (pp_ID p)
    end.

(** * Approval and reviews *)

Definition stagedApprove (p : PipeRow) (r : Row) (reason : string) (notified : bool) : M unit :=
  if pl_Human (pp_Pipeline p) then
    ok ← saveStaged p PhaseHuman;
    if ok : bool then awaitHuman env (with_phase PhaseHuman p) r else mret tt
  else endPipeline env p r PipelineApproved reason notified.

(** The reviews already queued have nothing left to decide. *)
Definition cancel_started (started : list Row) : M unit :=
  each (λ run, _ ← cancel (rw_ID run) "the pipeline failed"; mret tt) started.

Definition announce_reviews (p : PipeRow) (from : Row) (started : list Row) : M unit :=
  _ ← each (λ next,
    _ ← note env from ("pipeline round " +:+ pretty (pp_Round p) +:+ ": review by " +:+ am_Agent (rw_agent next) +:+ "/"
                       +:+ am_Model (rw_agent next) +:+ " as run " +:+ rw_ID next);
    _ ← Submit env next; mret tt) started;
  pipelineChanged env (pp_ID p).

(** The loop over the reviewers: a run and a pending vote for each. *)
Fixpoint start_reviews (prepare : AgentModel → M (option Row)) (p : PipeRow) (from : Row) (i : nat)
    (reviewers : list AgentModel) (started : list Row) : M unit :=
  match reviewers with
  | [] => announce_reviews p from started
  | am :: reviewers' =>
      next ← prepare am;
      match next with
      | None => cancel_started started
      | Some next =>
          _ ← StartVote env (pp_ID p) (pp_Round p) i (mkAgentModel (am_Agent am) (am_Model (rw_agent next))) (rw_ID next);
          start_reviews prepare p from (S i) reviewers' (started ++ [next])
      end
  end.

Definition staged_reviewers (p : PipeRow) : list AgentModel :=
  match ReviewersOf (pp_Pipeline p) with [] => [pl_Implement (pp_Pipeline p)] | reviewers => reviewers end.

Definition startStagedReviews (p : PipeRow) (from : Row) (notified : bool) : M unit :=
  let notice := guardNotice (pp_Guard p) in
  start_reviews (λ am, stagedRun p from (mkStep JobReview RoleReviewer PhaseReview am notice None false) notified)
    p from 0 (staged_reviewers p) [].

(** afterCI: the review, or approval when there is none or the change is small. *)
Definition afterCI (p : PipeRow) (r : Row) (lines : Z) (notified : bool) : M unit :=
  let wf := workflowOf p in
  if negb (st_Reviewer (wf_Stages wf)) then stagedApprove p r "verified red then green; no review asked for" notified
  else if (0 <? wf_ReviewerSkipBelowLines wf) && (lines <? wf_ReviewerSkipBelowLines wf) && negb (guard_violated p) then
    _ ← recordEvidence env r PhaseReview EvidenceSkip
          ("skipped: " +:+ pretty lines +:+ " changed lines, under " +:+ pretty (wf_ReviewerSkipBelowLines wf));
    stagedApprove p r ("verified red then green; review skipped (" +:+ pretty lines +:+ " lines)") notified
  else
    ok ← saveStaged p PhaseReview;
    if ok : bool then startStagedReviews (with_phase PhaseReview p) r notified else mret tt.

(** * Guard and CI *)

(** executorChanges: the files the Executor's runs changed, and the lines. *)
Fixpoint add_changes (runs : list Row) (files : list FileChange) (lines : Z) : M (Res (list FileChange * Z)) :=
  match runs with
  | [] => done_with (files, lines)
  | run :: runs' =>
      if negb (String.eqb (rw_Role run) RoleExecutor) || negb (String.eqb (rw_Status run) RunSucceeded)
      then add_changes runs' files lines
      else
        ch ←? Changes env (rw_ID run);
        match ch with
        | None => add_changes runs' files lines
        | Some ch => add_changes runs' (files ++ rc_Files ch) (lines + (rc_Additions ch + rc_Deletions ch))
        end
  end.

Definition executorChanges (p : PipeRow) : M (Res (list FileChange * Z)) :=
  runs ←? PipelineRuns env (pp_ID p); add_changes runs [] 0.

Definition ciDecided (p : PipeRow) (r : Row) (notified : bool) : M unit :=
  let ci := pi_CI (rw_pull r) in let head := pi_HeadSHA (rw_pull r) in
  _ ← recordEvidence env r PhaseCI (ciOutcome ci) (ci +:+ " at " +:+ shortHead head);
  if String.eqb ci CIFailure then
    let p := with_tries (ci_again (pp_Tries p)) p in
    if wf_MaxGreenTries (workflowOf p) <=? tr_CI (pp_Tries p)
    then endPipeline env p r PipelineChangesLeft ("CI still fails after " +:+ pretty (tr_CI (pp_Tries p)) +:+ " tries") notified
    else stagedStepNow p r (executorStep p ("CI failed at " +:+ shortHead head +:+
           ": read the failing checks on the pull request and fix them without changing the Tester's tests.")) notified
  else
    changes ← executorChanges p;
    match changes with
    | inl e => endPipeline env p r PipelineFailed ("cannot read the Executor's changes: " +:+ e_error env e) notified
    | inr (_, lines) => afterCI p r lines notified
    end.

(** CI may already have reported on the green head. *)
Definition settled_ci (greenHead : string) (runs : list Row) : option Row :=
  find (λ r, String.eqb (pi_HeadSHA (rw_pull r)) greenHead && negb (String.eqb greenHead EmptyString)
             && one_of (pi_CI (rw_pull r)) [CISuccess; CIFailure]) (rev runs).

Definition guardStep (p : PipeRow) (r : Row) (notified : bool) : M unit :=
  changes ← executorChanges p;
  match changes with
  | inl e => endPipeline env p r PipelineFailed ("cannot read the Executor's changes: " +:+ e_error env e) notified
  | inr (files, lines) =>
      let report := guard_report p files in
      let p := with_guard (Some report) p in
      let wf := workflowOf p in
      _ ← recordEvidence env r PhaseGuard (passFail (negb (Violation report))) (guard_summary report);
      if Violation report && negb (gd_Approved report) && negb (st_Reviewer (wf_Stages wf)) then
        ok ← saveStaged p PhaseGuard;
        if ok : bool
        then stagedHuman (with_phase PhaseGuard p) r ("executor changed tester files or test infrastructure (" +:+ guard_summary report
               +:+ "); a person must approve or send it back")
        else mret tt
      else if st_CI (wf_Stages wf) then
        ok ← saveStaged p PhaseCI;
        if negb ok then mret tt
        else
          let p := with_phase PhaseCI p in
          runs ← PipelineRuns env (pp_ID p);
          match (match runs with inr runs => settled_ci (tr_GreenHead (pp_Tries p)) runs | inl _ => None end) with
          | Some run => ciDecided p run notified
          | None => pipelineChanged env (pp_ID p)
          end
      else afterCI p r lines notified
  end.

(** ciReported: CI settling on the green head moves a pipeline in its CI
    phase on; on any other head it does not count. *)
Definition ciReported (r : Row) : M unit :=
  if String.eqb (rw_PipelineID r) EmptyString || negb (one_of (pi_CI (rw_pull r)) [CISuccess; CIFailure]) then mret tt
  else
    locked (PipelineLock (rw_PipelineID r)) (
      p ← GetPipeline env (rw_PipelineID r);
      match p with
      | inl _ => mret tt
      | inr p =>
          if negb (is_staged p) || negb (String.eqb (pp_Status p) PipelineRunning) || negb (String.eqb (pp_Phase p) PhaseCI) then mret tt
          else if String.eqb (tr_GreenHead (pp_Tries p)) EmptyString
                  || negb (String.eqb (pi_HeadSHA (rw_pull r)) (tr_GreenHead (pp_Tries p))) then mret tt
          else ciDecided p r false
      end).

(** * The Tester and its tests *)

Definition no_tests : string :=
  "you wrote no tests: write tests for the acceptance criteria that fail until they are implemented".

Definition testerRetry (p : PipeRow) (r : Row) (review : string) (notified : bool) : M unit :=
  let p := with_tries (tester_again (pp_Tries p)) p in
  if wf_MaxTesterRounds (workflowOf p) <=? tr_Tester (pp_Tries p) then
    ok ← saveStaged p PhaseTest;
    if ok : bool
    then stagedHuman (with_phase PhaseTest p) r ("the Tester's round " +:+ pretty (tr_Tester (pp_Tries p)) +:+ " failed: " +:+ review)
    else mret tt
  else stagedStepNow p r (mkStep JobTest RoleTester PhaseTest (testerOf p) review None true) notified.

(** What a Tester's round with its pull request known leads to. *)
Definition testerChanges (p : PipeRow) (r : Row) (notified : bool) : M unit :=
  changes ← Changes env (rw_ID r);
  match changes with
  | inl e => endPipeline env p r PipelineFailed ("cannot read the Tester's changes: " +:+ e_error env e) notified
  | inr None => testerRetry p r no_tests notified
  | inr (Some ch) =>
      if negb (nonempty (rc_Files ch)) then testerRetry p r no_tests notified
      else
        match NonTestFiles (TestGlobs (workflowOf p)) (rc_Files ch) with
        | [] =>
            let head := pi_HeadSHA (rw_pull r) in
            let p := with_tries (red_at head (pp_Tries p)) (with_files (changedPaths (rc_Files ch)) p) in
            stagedStepNow p r (verifyStep PhaseVerifyRed VerifyRed head) notified
        | bad => testerRetry p r ("tester changed non-test files " +:+ str_join bad ", "
                   +:+ ": write tests only (files matching the test globs) and leave the implementation to the Executor") notified
        end
  end.

Definition claimed (r : Row) (p : PipeRow) : PipeRow :=
  set_pr (Truncate (pg_Branch (rw_prog r)) maxShortField) (Truncate (pi_URL (rw_pull r)) MaxPRURLBytes) p.

Definition testerEnded (p : PipeRow) (r : Row) (notified : bool) : M unit :=
  let url := pi_URL (rw_pull r) in
  if String.eqb url EmptyString then
    if negb (String.eqb (pi_Error (rw_pull r)) EmptyString)
    then endPipeline env p r PipelineFailed ("the Tester's run opened no pull request: " +:+ pi_Error (rw_pull r)) notified
    else if String.eqb (rw_Commit r) EmptyString then testerRetry p r no_tests notified
    else mret tt
  else if String.eqb (pp_PRURL p) url then testerChanges p r notified
  else
    moved ← SetPipelinePR env (pp_ID p) (pg_Branch (rw_prog r)) url;
    match moved with
    | inr true =>
        _ ← (if String.eqb (pp_PRURL p) EmptyString then mret tt
             else note env r ("the Tester's new round replaces pull request " +:+ pp_PRURL p +:+ " with " +:+ url));
        testerChanges (claimed r p) r notified
    | _ => mret tt
    end.

(** verifyEnded: the hub decides from the exit code; red passes when the
    tests fail. *)
Definition verifyEnded (p : PipeRow) (r : Row) (notified : bool) : M unit :=
  let '(phase, head) := match jr_VerifySpec (nw_JobRoles (rw_job r)) with
                        | Some spec => (vs_Phase spec, vs_Head spec) | None => (VerifyRed, EmptyString) end in
  match pg_Verify (rw_prog r) with
  | None => stagedHuman p r "the verify run reported no test result"
  | Some res =>
      let head := if String.eqb (vr_Head res) EmptyString then head else vr_Head res in
      let kind := if String.eqb phase VerifyGreen then PhaseVerifyGreen else PhaseVerifyRed in
      if vr_NoCommand res then
        _ ← recordEvidence env r kind EvidenceSkip "no test command on the runner";
        stagedHuman p r ("the runner has no test command for this repository; configure a test command (nodevas runner repo set <repo> --test-command "
                         +:+ String dquote "..." +:+ String dquote ") and continue")
      else
        _ ← recordEvidence env r kind (passFail (vr_Passed res))
              ("exit " +:+ pretty (vr_ExitCode res) +:+ " in " +:+ e_seconds env (vr_DurationMs res) +:+ "s at " +:+ shortHead head);
        let output := tail (vr_Output res) maxReviewOutput in
        let quoted title := if String.eqb output EmptyString then EmptyString
                            else newline +:+ newline +:+ title +:+ newline +:+ output in
        if String.eqb phase VerifyRed then
          if vr_ExitCode res =? 0
          then testerRetry p r ("your tests already pass at " +:+ shortHead head
                 +:+ ": they test nothing new. Write tests that fail until the acceptance criteria are implemented.") notified
          else stagedStepNow p r (executorStep p ("The Tester's tests fail as they should (red at " +:+ shortHead head
                 +:+ "). Make them pass without changing them." +:+ quoted "Red run output:")) notified
        else if negb (vr_ExitCode res =? 0) then
          let p := with_tries (green_again (pp_Tries p)) p in
          if wf_MaxGreenTries (workflowOf p) <=? tr_Green (pp_Tries p)
          then endPipeline env p r PipelineChangesLeft ("the tests still fail after " +:+ pretty (tr_Green (pp_Tries p)) +:+ " tries") notified
          else stagedStepNow p r (executorStep p ("The tests still fail at " +:+ shortHead head +:+ " (exit " +:+ pretty (vr_ExitCode res)
                 +:+ "). Make them pass without changing them." +:+ quoted "Test output:")) notified
        else guardStep (with_tries (green_at head (pp_Tries p)) p) r notified
  end.

(** * The Executor *)

Definition executorVerified (p : PipeRow) (r : Row) (notified : bool) : M unit :=
  let head := if String.eqb (pi_HeadSHA (rw_pull r)) EmptyString then tr_RedHead (pp_Tries p) else pi_HeadSHA (rw_pull r) in
  if st_Tester (stages_of p)
  then stagedStepNow p r (verifyStep PhaseVerifyGreen VerifyGreen head) notified
  else guardStep (with_tries (green_at head (pp_Tries p)) p) r notified.

Definition executorEnded (p : PipeRow) (r : Row) (notified : bool) : M unit :=
  let url := pi_URL (rw_pull r) in
  if is_story p then
    stagedStepNow p r (mkStep JobJudge RoleReviewer PhaseJudge (judgeOf (pp_Pipeline p)) EmptyString None true) notified
  else if String.eqb url EmptyString && String.eqb (pi_HeadSHA (rw_pull r)) EmptyString
          && negb (String.eqb (pi_Error (rw_pull r)) EmptyString)
  then endPipeline env p r PipelineFailed ("the Executor's run has no pull request: " +:+ pi_Error (rw_pull r)) notified
  else if String.eqb url EmptyString && String.eqb (pi_HeadSHA (rw_pull r)) EmptyString
          && negb (String.eqb (rw_Commit r) EmptyString)
  then mret tt
  else if String.eqb (pp_PRURL p) EmptyString && negb (String.eqb url EmptyString) then
    got ← ClaimPR env (pp_ID p) (pg_Branch (rw_prog r)) url;
    match got with inr true => executorVerified (claimed r p) r notified | _ => mret tt end
  else executorVerified p r notified.

(** * Votes and judges *)

(** stagedReviewEnded once the vote is in: the round's votes are counted. *)
Definition staged_tally (p : PipeRow) (r : Row) (unacknowledged notified : bool) : M unit :=
  votes ← RoundVotes env (pp_ID p) (pp_Round p);
  match votes with
  | inl _ => mret tt
  | inr votes =>
      let t := tally votes in
      _ ← pipelineChanged env (pp_ID p);
      if (0 <? ta_pending t)%nat then mret tt
      else
        let reviewers := match length (ReviewersOf (pp_Pipeline p)) with O => 1%nat | n => n end in
        let needed := if QuorumOf (pp_Pipeline p) =? 0 then Z.of_nat reviewers else QuorumOf (pp_Pipeline p) in
        let text := tally_text (ta_approvals t) reviewers needed in
        if needed <=? Z.of_nat (ta_approvals t) then
          _ ← recordEvidence env r PhaseReview EvidencePass ("approved by " +:+ str_join (ta_approvers t) ", ");
          stagedApprove p r ("verified red then green; approved by " +:+ str_join (ta_approvers t) ", " +:+ " (" +:+ text +:+ ")") notified
        else if negb (nonempty (ta_changes t))
        then endPipeline env p r PipelineFailed ("too few reviews approved and none asked for changes (" +:+ text +:+ ")") notified
        else if pl_MaxRounds (pp_Pipeline p) <=? pp_Round p
        then endPipeline env p r PipelineChangesLeft ("changes still requested after " +:+ pretty (pp_Round p) +:+ " round(s) (" +:+ text +:+ ")") notified
        else
          moved ← NextRound env (pp_ID p) (pp_Round p);
          match moved with
          | inr true =>
              let p := set_round (pp_Round p + 1) p in
              review ← combinedReview env (ta_changes t);
              let review := if unacknowledged || (guard_violated p && negb (guard_approved p))
                            then trim_space (review +:+ newline +:+ newline +:+
                                   "The reviewer did not approve your changes to protected files (" +:+ str_join (protected p) ", "
                                   +:+ "). Revert them, or make the case for them in your summary.")
                            else review in
              stagedStepNow p r (executorStep p review) notified
          | _ => mret tt
          end
  end.

Definition settle_staged (p : PipeRow) (r : Row) (verdict : string) (unacknowledged notified : bool) : M unit :=
  settled ← SettleVote env (rw_ID r) verdict;
  match settled with inr true => staged_tally p r unacknowledged notified | _ => mret tt end.

(** An approval of changed protected files counts only with its
    acknowledgement; without it, it asks for changes. *)
Definition stagedReviewEnded (p : PipeRow) (r : Row) (notified : bool) : M unit :=
  let said := CleanVerdict (pg_Verdict (rw_prog r)) in
  let verdict := if String.eqb (rw_Status r) RunSucceeded && one_of said [VerdictApprove; VerdictChanges]
                 then pg_Verdict (rw_prog r) else VerdictAbstain in
  if String.eqb verdict VerdictApprove && guard_violated p && negb (guard_approved p) then
    if rw_GuardAck r then
      let by_ := label (rw_agent r) in
      let p := with_guard (sign_off by_ <$> pp_Guard p) p in
      _ ← recordEvidence env r PhaseGuard EvidencePass ("protected changes approved by " +:+ by_);
      ok ← saveStaged p (pp_Phase p);
      if ok : bool then settle_staged p r verdict false notified else mret tt
    else
      _ ← note env r "the approval does not acknowledge the changed tester files (TESTS: approve-changes): counted as changes";
      settle_staged p r VerdictChanges true notified
  else settle_staged p r verdict false notified.

Definition judgeEnded (p : PipeRow) (r : Row) (notified : bool) : M unit :=
  let checks := pg_Checks (rw_prog r) in
  let failing := failing_checks checks in
  if String.eqb (pg_Verdict (rw_prog r)) VerdictPass && negb (nonempty failing) then
    _ ← recordEvidence env r PhaseJudge EvidencePass ("all " +:+ pretty (length checks) +:+ " criteria pass");
    stagedApprove p r "checklist judged: every criterion passes" notified
  else
    let failing := match failing with [] => ["the judge gave no passing verdict"] | _ => failing end in
    _ ← recordEvidence env r PhaseJudge EvidenceFail ("failing: " +:+ str_join failing "; ");
    let p := with_tries (green_again (pp_Tries p)) p in
    if wf_MaxGreenTries (workflowOf p) <=? tr_Green (pp_Tries p)
    then endPipeline env p r PipelineChangesLeft ("checklist still failing after " +:+ pretty (tr_Green (pp_Tries p)) +:+ " tries: "
           +:+ str_join failing "; ") notified
    else stagedStepNow p r (executorStep p ("Checklist items failing:" +:+ newline +:+ "- " +:+ str_join failing (newline +:+ "- "))) notified.

(** * Moving on *)

Definition advanceStaged (p : PipeRow) (r : Row) (notified : bool) : M unit :=
  let st := rw_Status r in let kind := rw_Kind r in
  if String.eqb (pp_Status p) PipelineWaitingHuman then mret tt
  else if String.eqb kind JobReview && String.eqb st RunFailed then
    retried ← (if String.eqb (rw_RetryOf r) EmptyString && String.eqb (pg_FailureKind (rw_prog r)) FailureTask
               then retryReview env r else mret false);
    if retried : bool then mret tt else stagedReviewEnded p r notified
  else if String.eqb st RunCancelled then endPipeline env p r PipelineCancelled ("run " +:+ rw_ID r +:+ " was cancelled") notified
  else if String.eqb st RunDeclined
  then endPipeline env p r PipelineFailed ("run " +:+ rw_ID r +:+ " was declined: " +:+ pg_Error (rw_prog r)) notified
  else if String.eqb st RunFailed
  then endPipeline env p r PipelineFailed ("run " +:+ rw_ID r +:+ " failed: " +:+ pg_Error (rw_prog r)) notified
  else if negb (String.eqb st RunSucceeded) then mret tt
  else if String.eqb kind JobTest then testerEnded p r notified
  else if String.eqb kind JobVerify then verifyEnded p r notified
  else if one_of kind [JobImplement; JobRevise] then executorEnded p r notified
  else if String.eqb kind JobReview then stagedReviewEnded p r notified
  else if String.eqb kind JobJudge then judgeEnded p r notified
  else mret tt.
End Staged.
