(* ===== verification/Start.v ===== *)
(** Starting a run (internal/runs/start.go): a request is checked against the
    caller, the runner's hello, the owner's budget and the node's workflow, the
    first run of the dispatch (and its pipeline) is recorded, and queued.

    A refusal keeps its code and what it names; the sentences people read are
    left out, as are the audit trail and the link to a routing pick. *)

From S2P Require Import Prelude GoStr GoFloat GoTime Dsl Graph NodeTypes Workflow Roles State Readiness Globs Runs Hub RunStore PipeStore Dispatch Staged.
From Stdlib Require Import Ascii.
Open Scope Z_scope.

Definition MaxExtraPrompt : nat := Pos.to_nat 8192.
Definition maxBaseLen : nat := Pos.to_nat 200.

Definition CapPlan : string := "plan".
Definition CapVerify : string := "verify".
Definition CapRoles : string := "roles".
Definition CapJudge : string := "judge".
Definition CapInteractive : string := "interactive".
Definition VerifyGoal : string := "goal".

(** CreateRunRequest: the body of POST /api/runs. *)
Record CreateRunRequest := mkCreate {
  cr_NodeID : string; cr_RunnerID : string; cr_Agent : string; cr_Model : string; cr_RepoID : string; cr_Base : string;
  cr_Prompt : string; cr_Fallbacks : list AgentModel; cr_Pipeline : option Pipeline; cr_Mode : string; cr_Kind : string;
  cr_Revision : string; cr_Role : string; cr_Override : string }.

Record Reference := mkReference { rf_ID : string; rf_Title : string; rf_TypeLabel : string; rf_Summary : string }.

Record NodeInfo := mkNodeInfo {
  ni_Title : string; ni_Content : string; ni_Type : string; ni_AgentMode : AgentMode;
  ni_References : list Reference; ni_ReferencesTruncated : bool;
  ni_Acceptance : option Acceptance; ni_Workflow : option Workflow }.

(** StartRequest; the two closures answer at the moment they are called. *)
Record StartRequest := mkStartRequest {
  sr_Body : CreateRunRequest; sr_Project : string; sr_ActorID : string; sr_ActorName : string; sr_SteppedUpAt : string;
  sr_LoadNode : nat → Hub → Res (option NodeInfo);
  sr_Roles : list AgentRole;
  sr_LockAcceptance : option (nat → Hub → Res unit) }.

(** StartError, and the failures that are none. *)
Inductive StartError :=
  | StartInvalid                                   (* the request itself *)
  | StartNotFound (what : string)                  (* the runner or the node *)
  | StartPrecondition (reason : string)            (* what the runner or the workflow needs *)
  | StartBudget (message : string)
  | StartNodeType (type : string) (mode : AgentMode)
  | StartFailed (e : StoreError).

Definition CodeAcceptanceRequired : string := "ACCEPTANCE_REQUIRED".
Definition CodeStagedNeedsHeadless : string := "STAGED_NEEDS_HEADLESS".

(** * Checks *)

(** ValidBase: a plausible branch name; every byte is one of a few. *)
Definition base_char (c : ascii) : bool :=
  let z := byte_val c in
  in_range 65 90 z || in_range 97 122 z || in_range 48 57 z || one_of (str_of_char c) ["."; "_"; "/"; "-"].

Definition ValidBase (base : string) : bool :=
  String.eqb base EmptyString
  || ((String.length base <=? maxBaseLen)%nat && negb (has_prefix base "-") && negb (str_contains base "..") && str_all base_char base).

Definition ValidMode (mode : string) : bool := String.eqb mode ModeHeadless || String.eqb mode ModeInteractive.

Definition capable (info : option RunnerInfo) (cap : string) : bool :=
  match info with Some i => one_of cap (in_Capabilities i) | None => false end.

Definition ModeSupported (info : option RunnerInfo) (mode : string) : bool :=
  negb (String.eqb mode ModeInteractive) || capable info CapInteractive.

(** AgentModeAllows: the node-type gate on a run. *)
Definition AgentModeAllows (mode : AgentMode) (kind : string) : bool :=
  if String.eqb kind JobPlan || String.eqb kind JobJudge
  then String.eqb mode AgentDispatch || String.eqb mode AgentAutopilot
  else String.eqb mode AgentDispatch.

(** CheckAgainstHello: the model to record and the repository. *)
Definition CheckAgainstHello (info : option RunnerInfo) (body : CreateRunRequest) : option (string * RepoInfo) :=
  model ← ResolveAgentModel info (mkAgentModel (cr_Agent body) (cr_Model body));
  i ← info;
  repo ← find (λ r, String.eqb (repo_ID r) (cr_RepoID body)) (in_Repos i);
  if String.eqb (cr_RepoID body) EmptyString then None else Some (model, repo).

(** ResolvePipeline (routing.go): every step's model resolved. *)
Definition resolved (info : option RunnerInfo) (am : AgentModel) : option AgentModel :=
  model ← ResolveAgentModel info am; Some (mkAgentModel (am_Agent am) model).

Definition ResolvePipeline (info : option RunnerInfo) (p : Pipeline) (implementModel : string) : option Pipeline :=
  tester ← (if String.eqb (am_Agent (pl_Tester p)) EmptyString then Some no_agent else resolved info (pl_Tester p));
  review ← (if negb (nonempty (pl_Reviewers p)) && negb (bool_decide (pl_Review p = no_agent)) then resolved info (pl_Review p)
            else Some no_agent);
  reviewers ← mapM (resolved info) (pl_Reviewers p);
  Some (mkPipeline (mkAgentModel (am_Agent (pl_Implement p)) implementModel) review (pl_MaxRounds p) reviewers
          (pl_Quorum p) (pl_Human p) (pl_HumanAnyEditor p) tester).

Definition storyType (nodeType : string) : bool := String.eqb nodeType "scene" || String.eqb nodeType "event".

(** roleTools: each role's tools on a node of this type. *)
Definition tools_for (nodeType : string) (role : AgentRole) : list string :=
  if String.eqb (Slot role) RoleExecutor && storyType nodeType && negb (one_of "update_node_body" (r_Tools role))
  then r_Tools role ++ ["update_node_body"] else r_Tools role.

Definition roleTools (roles : list AgentRole) (nodeType : string) : gmap string (list string) :=
  foldl (λ out role, <[r_ID role := tools_for nodeType role]> out) ∅ roles.

Definition acceptanceItems (acc : option Acceptance) : list AcceptanceItem :=
  match acc with Some a => acc_Items a | None => [] end.

(** * The prompt *)

(** strings.Fields: the words between white-space runes. *)
Fixpoint words_from (word : string) (s : string) : list string :=
  let flush rest := if String.eqb word EmptyString then rest else word :: rest in
  match s with
  | EmptyString => flush []
  | String a s1 =>
      if ascii_space a then flush (words_from EmptyString s1)
      else
        match s1 with
        | String b s2 =>
            if space2 a b then flush (words_from EmptyString s2)
            else
              match s2 with
              | String c s3 => if space3 a b c then flush (words_from EmptyString s3) else words_from (word +:+ str_of_char a) s1
              | EmptyString => words_from (word +:+ str_of_char a) s1
              end
        | EmptyString => words_from (word +:+ str_of_char a) s1
        end
  end.

Definition fields (s : string) : list string := words_from EmptyString s.
Definition oneLine (text : string) : string := str_join (fields text) " ".

Example fields_sample : fields ("  one" +:+ String "009"%char "two  ") = ["one"; "two"].
Proof. reflexivity. Qed.

(** strings.TrimRight with one character. *)
Fixpoint drop_lead (c : ascii) (s : string) : string :=
  match s with String a s' => if Ascii.eqb a c then drop_lead c s' else s | EmptyString => EmptyString end.
Definition trim_right_char (c : ascii) (s : string) : string := String.rev (drop_lead c (String.rev s)).

Definition reference_block (ref : Reference) : string :=
  let label := if String.eqb (rf_TypeLabel ref) EmptyString then "Note" else rf_TypeLabel ref in
  let summary := trim_space (rf_Summary ref) in
  newline +:+ "### " +:+ oneLine (rf_Title ref) +:+ " (" +:+ rf_ID ref +:+ ", " +:+ label +:+ ")" +:+ newline
  +:+ (if String.eqb summary EmptyString then EmptyString else summary +:+ newline).

Definition ReferencesBlock (refs : list Reference) (truncated : bool) : string :=
  if negb (nonempty refs) && negb truncated then EmptyString
  else
    trim_right_char "010"%char
      (newline +:+ newline +:+ "## Reference notes" +:+ newline
       +:+ "Read these before writing; they are this project's source of truth (characters, setting). get_node <id> returns the full text." +:+ newline
       +:+ concat_str (map reference_block refs)
       +:+ (if truncated then newline +:+ "(More references exist; get_node <node id> lists them.)" +:+ newline else EmptyString)).

Definition truncatedNote : string := newline +:+ newline +:+ "[node content truncated]".

(** BuildPrompt: the content gives way first. *)
Definition BuildPrompt (title content refs extra : string) : string :=
  let head := "# " +:+ trim_space title +:+ newline +:+ newline in
  let extra := trim_space extra in
  let tail := if String.eqb extra EmptyString then EmptyString
              else newline +:+ newline +:+ "Additional instructions:" +:+ newline +:+ extra in
  let content := trim_space content in
  let len s := Z.of_nat (String.length s) in
  let room := Z.of_nat MaxPromptBytes - len head - len refs - len tail in
  let content := if room <? len content
                 then Truncate content (Z.to_nat (Z.max (room - len truncatedNote) 0)) +:+ truncatedNote else content in
  Truncate (head +:+ content +:+ refs +:+ tail) MaxPromptBytes.

(** * The first run *)

Record stagedFirst := mkFirst { sf_kind : string; sf_role : string; sf_phase : string; sf_am : AgentModel }.

Definition judge_of (p : option Pipeline) : AgentModel :=
  match p with Some p => judgeOf p | None => no_agent end.

Definition firstStagedStep (wf : option Workflow) (story : bool) (content : string) (p : option Pipeline) (agent model : string) : stagedFirst :=
  let implement := match p with Some p => pl_Implement p | None => mkAgentModel agent model end in
  if story && String.eqb (trim_space content) EmptyString then mkFirst JobImplement RoleExecutor PhaseImplement implement
  else if story then mkFirst JobJudge RoleReviewer PhaseJudge (judge_of p)
  else if match wf with Some w => st_Tester (wf_Stages w) | None => false end then
    let tester := match p with
                  | Some p => if String.eqb (am_Agent (pl_Tester p)) EmptyString then implement else pl_Tester p
                  | None => implement end in
    mkFirst JobTest RoleTester PhaseTest tester
  else mkFirst JobImplement RoleExecutor PhaseImplement implement.

(** * Start *)

(** The body as Start reads it. *)
Definition clean_body (b : CreateRunRequest) : CreateRunRequest :=
  mkCreate (cr_NodeID b) (cr_RunnerID b) (cr_Agent b) (cr_Model b) (cr_RepoID b) (cr_Base b) (cr_Prompt b) (cr_Fallbacks b)
    (cr_Pipeline b) (cr_Mode b) (cr_Kind b) (cr_Revision b) (trim_space (cr_Role b)) (trim_space (cr_Override b)).

(** The pipeline's implement step is the first run. *)
Definition with_implement (b : CreateRunRequest) : CreateRunRequest :=
  match cr_Pipeline b with
  | None => b
  | Some p => mkCreate (cr_NodeID b) (cr_RunnerID b) (am_Agent (pl_Implement p)) (am_Model (pl_Implement p)) (cr_RepoID b) (cr_Base b)
                (cr_Prompt b) (cr_Fallbacks b) (cr_Pipeline b) (cr_Mode b) (cr_Kind b) (cr_Revision b) (cr_Role b) (cr_Override b)
  end.

(** What is asked of the request by itself. *)
Definition request_ok (b : CreateRunRequest) (roles : list AgentRole) : bool :=
  let plan_or_judge := String.eqb (cr_Kind b) JobPlan || String.eqb (cr_Kind b) JobJudge in
  let no_pipeline := match cr_Pipeline b with None => true | Some _ => false end in
  let headless := String.eqb (cr_Mode b) ModeHeadless in
  ValidNodeID (cr_NodeID b)
  && (String.length (cr_Prompt b) <=? MaxExtraPrompt)%nat && ValidString (cr_Prompt b)
  && ValidBase (cr_Base b) && ValidMode (cr_Mode b)
  && one_of (cr_Kind b) [JobImplement; JobPlan; JobJudge]
  && (negb plan_or_judge || (no_pipeline && headless))
  && (String.length (cr_Override b) <=? MaxOverrideBytes)%nat && ValidString (cr_Override b)
  && negb (contains_any (cr_Override b) (String "000"%char (String "013"%char newline)))
  && (String.eqb (cr_Override b) EmptyString
      || (String.eqb (cr_Role b) EmptyString && String.eqb (cr_Kind b) JobImplement && no_pipeline))
  && (String.eqb (cr_Role b) EmptyString || match find_role roles (cr_Role b) with Some _ => true | None => false end)
  && (negb (String.eqb (cr_Kind b) JobJudge) || negb (String.eqb (cr_Role b) EmptyString))
  && (String.eqb (cr_Revision b) EmptyString || String.eqb (cr_Kind b) JobPlan)
  && (String.length (cr_Revision b) <=? MaxRevisionBytes)%nat && ValidString (cr_Revision b)
  && ValidateChain (cr_Fallbacks b) false
  && match cr_Pipeline b with Some p => ValidatePipeline p false | None => true end.

(** What the workflow makes of the dispatch. *)
Record Dispatching := mkDispatching {
  dp_wf : option Workflow; dp_staged : bool; dp_story : bool; dp_role : option AgentRole }.

Definition slot_of (role : option AgentRole) : string := match role with Some r => Slot r | None => EmptyString end.
Definition works (slot : string) : bool := String.eqb slot RoleExecutor || String.eqb slot RoleTester.

(** Does the request ask for the Executor's work? *)
Definition executor_work (b : CreateRunRequest) (asked : option AgentRole) : bool :=
  String.eqb (cr_Override b) EmptyString && String.eqb (cr_Kind b) JobImplement
  && match asked with None => true | Some r => String.eqb (Slot r) RoleExecutor end.

Definition dispatching (b : CreateRunRequest) (roles : list AgentRole) (node : NodeInfo) : Dispatching :=
  let asked := if String.eqb (cr_Role b) EmptyString then None else find_role roles (cr_Role b) in
  let wf := Normalized (ni_Workflow node) in
  let story := match wf with Some w => is_checklist w && storyType (ni_Type node) | None => false end in
  let staged := Staged wf && executor_work b asked && String.eqb (cr_Mode b) ModeHeadless in
  let role :=
    match asked, wf with
    | None, Some _ =>
        if negb (String.eqb (cr_Override b) EmptyString) then None
        else if String.eqb (cr_Kind b) JobImplement then find_role roles RoleExecutor
        else if String.eqb (cr_Kind b) JobPlan then find_role roles RolePlanner
        else None
    | _, _ => asked
    end in
  mkDispatching wf staged story role.

(** Why the stages or the runner refuse it, in the code's order. *)
Definition stage_problem (b : CreateRunRequest) (roles : list AgentRole) (node : NodeInfo) (info : option RunnerInfo) (repo : RepoInfo)
    (d : Dispatching) : option StartError :=
  let asked := if String.eqb (cr_Role b) EmptyString then None else find_role roles (cr_Role b) in
  let tester := match dp_wf d with Some w => st_Tester (wf_Stages w) | None => false end in
  if negb (String.eqb (cr_Override b) EmptyString) && negb (Staged (dp_wf d)) then Some StartInvalid
  else if Staged (dp_wf d) && executor_work b asked && String.eqb (cr_Mode b) ModeInteractive
  then Some (StartPrecondition CodeStagedNeedsHeadless)
  else if String.eqb (cr_Override b) EmptyString && RequiresAcceptance (dp_wf d) && negb (nonempty (acceptanceItems (ni_Acceptance node)))
          && (dp_staged d || works (slot_of (dp_role d)))
  then Some (StartPrecondition CodeAcceptanceRequired)
  else if dp_staged d && (negb (capable info CapRoles) || (dp_story d && negb (capable info CapJudge))
                          || (negb (dp_story d) && tester && negb (capable info CapVerify)))
  then Some (StartPrecondition EmptyString)
  else if dp_staged d && negb (dp_story d) && tester && negb (repo_Verify repo) then Some (StartPrecondition EmptyString)
  else if String.eqb (cr_Kind b) JobJudge && negb (capable info CapJudge) then Some (StartPrecondition EmptyString)
  else None.

(** The pipeline of a staged dispatch: made up when none was asked for, with a
    Tester and, where the workflow has reviews, a reviewer. *)
Definition staged_pipeline (wf : option Workflow) (p : option Pipeline) (agent model : string) : Pipeline :=
  let p := match p with
           | Some p => p
           | None => mkPipeline (mkAgentModel agent model) no_agent 2 [] 0 false false no_agent end in
  let tester := if String.eqb (am_Agent (pl_Tester p)) EmptyString then pl_Implement p else pl_Tester p in
  let reviews := match wf with Some w => st_Reviewer (wf_Stages w) | None => false end in
  let reviewers := if reviews && negb (nonempty (ReviewersOf p)) then [pl_Implement p] else pl_Reviewers p in
  mkPipeline (pl_Implement p) (pl_Review p) (pl_MaxRounds p) reviewers (pl_Quorum p) (pl_Human p) (pl_HumanAnyEditor p) tester.

Section Start.
Context (env : Env).

Definition or_failed {A B} (m : M (Res A)) (k : A → M (StartError + B)) : M (StartError + B) :=
  r ← m; match r with inl e => mret (inl (StartFailed e)) | inr a => k a end.

Definition refuse {B} (e : StartError) : M (StartError + B) := mret (inl e).

(** NoteFirst: the first line of a run's events. *)
Definition NoteFirst (runID text : string) : M (Res unit) :=
  _ ← stamp env; sql env (λ h, (set_log (h_log h ++ [Noted runID ("hub: " +:+ text)]) h, tt)).

(** Once the checks are passed: the pipeline and the run are recorded. *)
Definition launch (req : StartRequest) (b : CreateRunRequest) (roles : list AgentRole) (node : NodeInfo) (runner : Runner)
    (model : string) (repo : RepoInfo) (pipeline : option Pipeline) (d : Dispatching) : M (StartError + Row) :=
  let wf := dp_wf d in
  let slot := slot_of (dp_role d) in
  let override := negb (String.eqb (cr_Override b) EmptyString) in
  let title := if String.eqb (ni_Title node) EmptyString then cr_NodeID b else ni_Title node in
  let name := if String.eqb (sr_ActorName req) EmptyString then sr_ActorID req else sr_ActorName req in
  let extra := match dp_role d with
               | Some r =>
                   if negb (r_Builtin r) && negb (String.eqb (trim_space (r_Instructions r)) EmptyString)
                   then trim_space (cr_Prompt b +:+ newline +:+ newline +:+ "Project policy for this role (" +:+ r_Label r +:+ "):" +:+ newline
                                    +:+ r_Instructions r)
                   else cr_Prompt b
               | None => cr_Prompt b end in
  let jobPrompt := BuildPrompt title (ni_Content node) (ReferencesBlock (ni_References node) (ni_ReferencesTruncated node)) extra in
  let acceptance := acceptanceItems (ni_Acceptance node) in
  let tools := roleTools roles (ni_Type node) in
  let asked := mkFirst (cr_Kind b) (match dp_role d with Some r => r_ID r | None => EmptyString end) EmptyString
                 (mkAgentModel (cr_Agent b) model) in
  let first := if dp_staged d then firstStagedStep wf (dp_story d) (ni_Content node) pipeline (cr_Agent b) model else asked in
  or_failed (if String.eqb (sf_role first) EmptyString then done_with EmptyString
             else RoleBudgetStatus env (rn_OwnerID runner) (sf_role first)) (λ exceeded,
  if negb (String.eqb exceeded EmptyString) then refuse (StartBudget exceeded)
  else
    let config := match wf with
                  | Some w => if negb override && (dp_staged d || match pipeline with Some _ => true | None => false end)
                              then Some (mkConfig (Some w) (dp_staged d) (dp_story d) tools acceptance) else None
                  | None => None end in
    let pipeline := if dp_staged d then Some (staged_pipeline wf pipeline (cr_Agent b) model) else pipeline in
    let first := if dp_staged d then firstStagedStep wf (dp_story d) (ni_Content node) pipeline (cr_Agent b) model else asked in
    or_failed (match pipeline with
               | None => done_with EmptyString
               | Some p =>
                   made ←? CreatePipeline env (mkNewPipeline (rn_OwnerID runner) (sr_ActorID req) (sr_Project req) (cr_NodeID b)
                                                 p (cr_Fallbacks b) jobPrompt (cr_Prompt b) config (sf_phase first));
                   done_with (pp_ID made)
               end) (λ pipelineID,
    let verify := if String.eqb (cr_Kind b) JobJudge && String.eqb slot RoleQA
                     && match wf with Some w => negb (is_checklist w) | None => true end && repo_Verify repo
                  then Some (mkSpec VerifyGoal EmptyString) else None in
    let jobRoles := mkJobRoles (if String.eqb (sf_role first) EmptyString then [] else default [] (tools !! sf_role first)) []
                      (if String.eqb (sf_role first) EmptyString then [] else acceptance) verify in
    record ← Create env
      {| nw_place := mkPlace (sr_Project req) (cr_NodeID b) title (rn_ID runner) (rn_Name runner) (rn_OwnerID runner)
                       (repo_ID repo) (repo_Name repo) (sr_ActorID req) name (sr_SteppedUpAt req);
         nw_Agent := am_Agent (sf_am first); nw_Model := am_Model (sf_am first); nw_Base := cr_Base b;
         nw_Prompt := cr_Prompt b; nw_JobPrompt := jobPrompt; nw_Kind := sf_kind first;
         nw_JobBranch := EmptyString; nw_JobPRURL := EmptyString; nw_Review := trim_space (cr_Revision b);
         nw_RetryOf := EmptyString; nw_PipelineID := pipelineID; nw_Fallbacks := cr_Fallbacks b;
         nw_Mode := cr_Mode b; nw_JobHandoffBranch := EmptyString; nw_JobHandoffNote := EmptyString;
         nw_RetryAt := EmptyString; nw_LimitWaits := 0;
         nw_Role := sf_role first; nw_Override := cr_Override b; nw_JobRoles := jobRoles |};
    let abandon reason : M unit :=
      if String.eqb pipelineID EmptyString then mret tt else _ ← EndPipeline env pipelineID PipelineFailed reason; mret tt in
    match record with
    | inl e => _ ← abandon (e_error env e); refuse (StartFailed e)
    | inr record =>
        let criteria := negb override && String.eqb (cr_Kind b) JobImplement && (dp_staged d || works slot) in
        locked ← (match sr_LockAcceptance req with
                  | Some lock => if criteria then ask env lock else done_with tt
                  | None => done_with tt end);
        match locked with
        | inl e =>
            _ ← Transition env (rw_ID record) RunCancelled (error_change ("criteria lock failed: " +:+ e_error env e));
            _ ← abandon "criteria lock failed";
            refuse (StartFailed e)
        | inr _ =>
            or_failed (if override then NoteFirst (rw_ID record) ("stage override by " +:+ name +:+ ": " +:+ cr_Override b)
                       else done_with tt) (λ _,
            r ← Submit env record; mret (inr r))
        end
    end)).

Definition Start (req : StartRequest) : M (StartError + Row) :=
  let b := clean_body (sr_Body req) in
  let roles := match sr_Roles req with [] => builtinAgentRoles | roles => roles end in
  if negb (request_ok b roles) then refuse StartInvalid
  else
    let b := with_implement b in
    runner ← reg_Get env (cr_RunnerID b);
    match runner with
    | None => refuse (StartNotFound "runner")
    | Some runner =>
        if negb (String.eqb (rn_OwnerID runner) (sr_ActorID req)) then refuse (StartNotFound "runner")
        else
          match CheckAgainstHello (rn_Info runner) b with
          | None => refuse StartInvalid
          | Some (model, repo) =>
              match (match cr_Pipeline b with
                     | Some p => Some <$> ResolvePipeline (rn_Info runner) p model
                     | None => Some None end) with
              | None => refuse StartInvalid
              | Some pipeline =>
                  if String.eqb (cr_Kind b) JobPlan && negb (capable (rn_Info runner) CapPlan) then refuse (StartPrecondition EmptyString)
                  else if negb (Headless (rn_Info runner)) then refuse (StartPrecondition EmptyString)
                  else if negb (ModeSupported (rn_Info runner) (cr_Mode b)) then refuse (StartPrecondition EmptyString)
                  else
                    or_failed (BudgetStatus env (rn_OwnerID runner)) (λ exceeded,
                    if negb (String.eqb exceeded EmptyString) then refuse (StartBudget exceeded)
                    else
                      or_failed (ask env (sr_LoadNode req)) (λ node,
                      match node with
                      | None => refuse (StartNotFound "node")
                      | Some node =>
                          if negb (AgentModeAllows (ni_AgentMode node) (cr_Kind b))
                          then refuse (StartNodeType (ni_Type node) (ni_AgentMode node))
                          else
                            let d := dispatching b roles node in
                            match stage_problem b roles node (rn_Info runner) repo d with
                            | Some e => refuse e
                            | None => launch req b roles node runner model repo pipeline d
                            end
                      end))
              end
          end
    end.
End Start.
