(* ===== verification/Steps.v ===== *)
(** What follows a run's end, and the dispatcher's calls (internal/runs:
    dispatcher.go, dispatcher_routing.go, handoff.go): fallbacks, waits for a
    usage limit, review rounds, and the messages of runners and people.

    Go's functions call each other in a circle: a run's end moves its pipeline
    on, which may cancel runs, whose end is handled in turn.  [afterEnd] follows
    the circle a bounded number of times; two are enough. *)

From S2P Require Import Prelude GoStr GoFloat GoTime Dsl Graph NodeTypes Workflow Roles State Readiness Globs Runs Hub RunStore PipeStore Dispatch Staged.
From stdpp Require Import pretty.
From Stdlib Require Import Ascii.
Open Scope Z_scope.

Definition MaxLimitWaits : Z := 3.

Definition ReasonLost : string := "runner restarted or lost the run".

Definition canHandOff (r : Row) : bool :=
  one_of (rw_Kind r) [JobImplement; JobTest] && String.eqb (nw_Mode (rw_job r)) ModeHeadless.

Definition canWaitForReset (r : Row) : bool :=
  one_of (rw_Kind r) [JobImplement; JobTest; JobRevise] && String.eqb (nw_Mode (rw_job r)) ModeHeadless.

(** handoffOf: what the run left, else what it was itself given. *)
Definition handoffOf (r : Row) : string * string :=
  if negb (canHandOff r) then (EmptyString, EmptyString)
  else if negb (String.eqb (pg_HandoffBranch (rw_prog r)) EmptyString)
  then (pg_HandoffBranch (rw_prog r), pg_HandoffNote (rw_prog r))
  else (nw_JobHandoffBranch (rw_job r), nw_JobHandoffNote (rw_job r)).

(** The minutes of a stamp, as the note says them. *)
Definition minutes (ns : Z) : string :=
  let s := formatStamp ns in str_take 10 s +:+ " " +:+ str_take 5 (str_drop 11 s) +:+ " UTC".

Section Steps.
Context (env : Env) `{Unicode}.

(** Is the run's pipeline, if it has one, still running (and not waiting)? *)
Definition pipeline_runs (r : Row) : M bool :=
  if String.eqb (rw_PipelineID r) EmptyString then mret true
  else
    p ← GetPipeline env (rw_PipelineID r);
    mret match p with inr p => String.eqb (pp_Status p) PipelineRunning | inl _ => false end.

(** * Fallbacks and waits *)

Fixpoint fall (r : Row) (runner : Runner) (chain : list AgentModel) : M bool :=
  match chain with
  | [] => _ ← note env r "fallback chain exhausted"; mret false
  | head :: chain' =>
      match ResolveAgentModel (rn_Info runner) head with
      | None =>
          _ ← note env r ("skipping fallback " +:+ label head +:+ ": " +:+ e_no_model env (rn_Info runner) head);
          fall r runner chain'
      | Some model =>
          let handoff := handoffOf r in
          next ← Create env (again r runner (mkAgentModel (am_Agent head) model) chain' handoff EmptyString (nw_LimitWaits (rw_job r)));
          match next with
          | inl e => _ ← note env r ("not falling back: " +:+ e_error env e); mret false
          | inr next =>
              _ ← (if String.eqb (rw_Kind r) JobReview then _ ← MoveVote env (rw_ID r) (rw_ID next); mret tt else mret tt);
              _ ← note env r ("falling back to " +:+ am_Agent head +:+ "/" +:+ model +:+ " (" +:+ pg_FailureKind (rw_prog r) +:+ ") as run " +:+ rw_ID next
                     +:+ (if String.eqb handoff.1 EmptyString then EmptyString else ", handing off the partial work on " +:+ handoff.1));
              _ ← Submit env next;
              mret true
          end
      end
  end.

Definition fallback (r : Row) : M bool :=
  runs ← pipeline_runs r;
  if negb runs then mret false
  else
    runner ← reg_Get env (rw_RunnerID r);
    match runner with
    | None => _ ← note env r "not falling back: the runner is gone"; mret false
    | Some runner =>
        budget ← BudgetStatus env (rw_OwnerID r);
        match budget with
        | inl _ => mret false
        | inr exceeded =>
            if negb (String.eqb exceeded EmptyString) then _ ← note env r ("not falling back: " +:+ exceeded); mret false
            else fall r runner (nw_Fallbacks (rw_job r))
        end
    end.

Definition waitForReset (r : Row) : M bool :=
  if negb (String.eqb (rw_Status r) RunFailed) || negb (HandoffWorthy (pg_FailureKind (rw_prog r))) || negb (canWaitForReset r)
  then mret false
  else
    runs ← pipeline_runs r;
    if negb runs then mret false
    else if MaxLimitWaits <=? nw_LimitWaits (rw_job r) then
      _ ← note env r ("not waiting for the usage limit again: this task already waited " +:+ pretty (nw_LimitWaits (rw_job r)) +:+ " times");
      mret false
    else
      runner ← reg_Get env (rw_RunnerID r);
      match runner with
      | None => _ ← note env r "not waiting for the usage limit: the runner is gone"; mret false
      | Some runner =>
          budget ← BudgetStatus env (rw_OwnerID r);
          match budget with
          | inl _ => mret false
          | inr exceeded =>
              if negb (String.eqb exceeded EmptyString) then _ ← note env r ("not waiting for the usage limit: " +:+ exceeded); mret false
              else
                now ← clockNow env;
                let at_ := e_reset env now r in
                let handoff := handoffOf r in
                next ← Create env (again r runner (rw_agent r) [] handoff (formatStamp at_) (nw_LimitWaits (rw_job r) + 1));
                match next with
                | inl e => _ ← note env r ("not waiting for the usage limit: " +:+ e_error env e); mret false
                | inr next =>
                    _ ← note env r ("waiting for the usage limit to reset: run " +:+ rw_ID next +:+ " retries " +:+ label (rw_agent r)
                           +:+ " at " +:+ minutes at_
                           +:+ (if String.eqb handoff.1 EmptyString then EmptyString else ", continuing from " +:+ handoff.1));
                    _ ← Submit env next;
                    mret true
                end
          end
      end.

(** * Review rounds *)

Section Rounds.
Context (cancel : string → string → M (Res Row)).

(** startReviews: a review per reviewer; without one, a person or approval. *)
Definition startReviews (p : PipeRow) (from : Row) (notified : bool) : M unit :=
  match ReviewersOf (pp_Pipeline p) with
  | [] =>
      if pl_Human (pp_Pipeline p) then awaitHuman env p from
      else endPipeline env p from PipelineApproved "no review asked for; the pull request is open" notified
  | reviewers =>
      start_reviews env cancel (λ am, prepareStep env p from JobReview am EmptyString notified) p from 0 reviewers []
  end.

(** A review this pipeline recorded no vote for: its verdict alone decides. *)
Definition legacyReviewEnded (p : PipeRow) (r : Row) (notified : bool) : M unit :=
  let verdict := pg_Verdict (rw_prog r) in
  if negb (String.eqb (rw_Status r) RunSucceeded)
  then endPipeline env p r PipelineFailed ("run " +:+ rw_ID r +:+ " failed: " +:+ pg_Error (rw_prog r)) notified
  else if String.eqb verdict VerdictApprove
  then endPipeline env p r PipelineApproved ("approved by " +:+ label (rw_agent r)) notified
  else if String.eqb verdict VerdictChanges then
    if pl_MaxRounds (pp_Pipeline p) <=? pp_Round p
    then endPipeline env p r PipelineChangesLeft ("changes still requested after " +:+ pretty (pp_Round p) +:+ " round(s)") notified
    else
      moved ← NextRound env (pp_ID p) (pp_Round p);
      match moved with
      | inr true => step env (set_round (pp_Round p + 1) p) r JobRevise (pl_Implement (pp_Pipeline p)) (pg_Summary (rw_prog r)) notified
      | _ => mret tt
      end
  else endPipeline env p r PipelineFailed "the review gave no verdict" notified.

(** Once a vote is in, the round's votes decide when none is pending. *)
Definition count_round (p : PipeRow) (r : Row) (notified : bool) : M unit :=
  votes ← RoundVotes env (pp_ID p) (pp_Round p);
  match votes with
  | inl _ => mret tt
  | inr votes =>
      let t := tally votes in
      _ ← pipelineChanged env (pp_ID p);
      if (0 <? ta_pending t)%nat then mret tt
      else
        let needed := QuorumOf (pp_Pipeline p) in
        let text := tally_text (ta_approvals t) (length (ReviewersOf (pp_Pipeline p))) needed in
        if needed <=? Z.of_nat (ta_approvals t) then
          if pl_Human (pp_Pipeline p) then awaitHuman env p r
          else endPipeline env p r PipelineApproved ("approved by " +:+ str_join (ta_approvers t) ", " +:+ " (" +:+ text +:+ ")") notified
        else if negb (nonempty (ta_changes t))
        then endPipeline env p r PipelineFailed ("too few reviews approved and none asked for changes (" +:+ text +:+ ")") notified
        else if pl_MaxRounds (pp_Pipeline p) <=? pp_Round p
        then endPipeline env p r PipelineChangesLeft ("changes still requested after " +:+ pretty (pp_Round p) +:+ " round(s) (" +:+ text +:+ ")") notified
        else
          moved ← NextRound env (pp_ID p) (pp_Round p);
          match moved with
          | inr true =>
              review ← combinedReview env (ta_changes t);
              step env (set_round (pp_Round p + 1) p) r JobRevise (pl_Implement (pp_Pipeline p)) review notified
          | _ => mret tt
          end
  end.

Definition reviewEnded (p : PipeRow) (r : Row) (notified : bool) : M unit :=
  let verdict := if String.eqb (rw_Status r) RunSucceeded && negb (String.eqb (CleanVerdict (pg_Verdict (rw_prog r))) EmptyString)
                 then pg_Verdict (rw_prog r) else VerdictAbstain in
  settled ← SettleVote env (rw_ID r) verdict;
  match settled with
  | inl _ => mret tt
  | inr false => legacyReviewEnded p r notified
  | inr true => count_round p r notified
  end.

(** advance: a pipeline moves on from one of its runs ending. *)
Definition advance (r : Row) (notified : bool) : M unit :=
  let st := rw_Status r in
  p ← GetPipeline env (rw_PipelineID r);
  match p with
  | inl _ => mret tt
  | inr p =>
      if negb (String.eqb (pp_Status p) PipelineRunning) then mret tt
      else if is_staged p then advanceStaged env cancel p r notified
      else if String.eqb (rw_Kind r) JobReview && String.eqb st RunFailed then
        retried ← (if String.eqb (rw_RetryOf r) EmptyString && String.eqb (pg_FailureKind (rw_prog r)) FailureTask
                   then retryReview env r else mret false);
        if retried : bool then mret tt else reviewEnded p r notified
      else if String.eqb st RunCancelled
      then endPipeline env p r PipelineCancelled ("run " +:+ rw_ID r +:+ " was cancelled") notified
      else if String.eqb st RunDeclined
      then endPipeline env p r PipelineFailed ("run " +:+ rw_ID r +:+ " was declined: " +:+ pg_Error (rw_prog r)) notified
      else if String.eqb st RunFailed
      then endPipeline env p r PipelineFailed ("run " +:+ rw_ID r +:+ " failed: " +:+ pg_Error (rw_prog r)) notified
      else if negb (String.eqb st RunSucceeded) then mret tt
      else if String.eqb (rw_Kind r) JobImplement then
        if negb (String.eqb (pi_URL (rw_pull r)) EmptyString) then
          got ← ClaimPR env (pp_ID p) (pg_Branch (rw_prog r)) (pi_URL (rw_pull r));
          match got with inr true => startReviews (claimed r p) r notified | _ => mret tt end
        else if negb (String.eqb (pi_Error (rw_pull r)) EmptyString)
        then endPipeline env p r PipelineFailed ("the implement run opened no pull request: " +:+ pi_Error (rw_pull r)) notified
        else if String.eqb (rw_Commit r) EmptyString
        then endPipeline env p r PipelineFailed "the implement run changed nothing, so there is nothing to review" notified
        else mret tt
      else if String.eqb (rw_Kind r) JobRevise then startReviews p r notified
      else if String.eqb (rw_Kind r) JobReview then reviewEnded p r notified
      else mret tt
  end.
End Rounds.

(** * A run's end *)

Definition in_pipeline {A} (id : string) (m : M A) : M A :=
  if String.eqb id EmptyString then m else locked (PipelineLock id) m.

(** Cancel, given what follows an end. *)
Section Cancelling.
Context (after : Row → bool → M unit).

Fixpoint cancel_attempts (attempts : nat) (runID reason : string) : M (Res Row) :=
  match attempts with
  | O => r ←? Get env runID; fail (BadTransition r)
  | S attempts =>
      r ←? Get env runID;
      if RunFinal (rw_Status r) then done_with r
      else if String.eqb (rw_Status r) RunRunning then
        sent ← sendCancel env r reason;
        if sent : bool then done_with r
        else
          next ← Transition env runID RunCancelled (error_change "cancelled while the runner was offline");
          match next with
          | inl (BadTransition _) => cancel_attempts attempts runID reason
          | inl e => fail e
          | inr next => _ ← notifyChanged env next; _ ← after next false; done_with next
          end
      else
        next ← Transition env runID RunCancelled no_change;
        match next with
        | inl (BadTransition _) => cancel_attempts attempts runID reason
        | inl e => fail e
        | inr next =>
            _ ← (if String.eqb (rw_Status r) RunOffered then _ ← sendCancel env r reason; mret tt else mret tt);
            _ ← notifyChanged env next;
            _ ← after next false;
            _ ← Pump env (rw_RunnerID r);
            done_with next
        end
  end.
End Cancelling.

Fixpoint afterEnd (fuel : nat) (r : Row) (notified : bool) : M unit :=
  match fuel with
  | O => halt NoFuel
  | S fuel =>
      if negb (RunFinal (rw_Status r)) then mret tt
      else in_pipeline (rw_PipelineID r) (
        fell ← (if String.eqb (rw_Status r) RunFailed && FallbackWorthy (pg_FailureKind (rw_prog r)) && nonempty (nw_Fallbacks (rw_job r))
                then fallback r else mret false);
        if fell : bool then mret tt
        else
          waits ← waitForReset r;
          if waits : bool then mret tt
          else if String.eqb (rw_PipelineID r) EmptyString then mret tt
          else advance (cancel_attempts (afterEnd fuel) 4) r notified)
  end.

Definition after_end : Row → bool → M unit := afterEnd 2.

(** Cancel as a step calls it, within a run's end already. *)
Definition cancel_inside : string → string → M (Res Row) := cancel_attempts (afterEnd 1) 4.

(** Cancel of the dispatcher, on behalf of a person. *)
Definition Cancel (runID reason : string) : M (Res Row) := cancel_attempts after_end 4 runID reason.

(** prReported: a pipeline whose run ended before its pull request was known. *)
Definition prReported (r : Row) : M unit :=
  if String.eqb (rw_PipelineID r) EmptyString || negb (String.eqb (rw_Status r) RunSucceeded) then mret tt
  else if negb (one_of (rw_Kind r) [JobImplement; JobTest; JobRevise]) then mret tt
  else locked (PipelineLock (rw_PipelineID r)) (
    if String.eqb (rw_Kind r) JobImplement then advance cancel_inside r false
    else
      p ← GetPipeline env (rw_PipelineID r);
      match p with
      | inr p => if is_staged p then advance cancel_inside r false else mret tt
      | inl _ => mret tt
      end).

(** * Runners *)

Definition Accept (runnerID runID base branch : string) : M (Res unit) :=
  r ← Transition env runID RunRunning
        (mkChange runnerID base branch EmptyString EmptyString None EmptyString EmptyString EmptyString EmptyString None []);
  match r with
  | inr r => _ ← notifyChanged env r; done_with tt
  | inl (BadTransition r as e) =>
      _ ← (if String.eqb (rw_RunnerID r) runnerID
           then _ ← sendCancel env r ("run is " +:+ rw_Status r +:+ " on the hub"); mret tt else mret tt);
      fail e
  | inl e => fail e
  end.

Definition Decline (runnerID runID reason : string) : M (Res unit) :=
  let reason := if String.eqb reason EmptyString then "declined at the runner" else reason in
  r ←? Transition env runID RunDeclined
         (mkChange runnerID EmptyString EmptyString reason EmptyString None EmptyString EmptyString EmptyString EmptyString None []);
  _ ← notifyChanged env r;
  _ ← after_end r false;
  _ ← Pump env runnerID;
  done_with tt.

Definition Finish (runnerID runID : string) (result : RunResult) : M (Res unit) :=
  r ←? StoreFinish env runID runnerID result;
  _ ← finished env r;
  _ ← after_end r (one_of (rw_Status r) [RunSucceeded; RunFailed]);
  _ ← notifyChanged env r;
  _ ← Pump env runnerID;
  done_with tt.

Definition ReportChanges (runnerID runID : string) (changes : RunChanges) : M (Res unit) :=
  '(r, wrote) ←? SetChanges env runID runnerID changes;
  _ ← (if wrote : bool then notifyChanged env r else mret tt);
  done_with tt.

Definition PR (runnerID runID : string) (pr : PRInfo) : M (Res unit) :=
  '(before, r, changed) ←? setPR env runID runnerID pr;
  if negb changed then done_with tt
  else
    _ ← notifyChanged env r;
    _ ← (if String.eqb (pi_CI (rw_pull r)) CIFailure && negb (String.eqb (pi_CI (rw_pull before)) CIFailure)
         then notifyRun env r else mret tt);
    _ ← (if String.eqb (pi_URL (rw_pull before)) EmptyString && String.eqb (pi_Error (rw_pull before)) EmptyString
         then prReported r else mret tt);
    _ ← (if negb (String.eqb (pi_CI (rw_pull r)) (pi_CI (rw_pull before)))
            || negb (String.eqb (pi_HeadSHA (rw_pull r)) (pi_HeadSHA (rw_pull before)))
         then ciReported env cancel_inside r else mret tt);
    done_with tt.

(** Attached: what the runner does not list is lost, or was never seen. *)
Definition reconcile_held (listed : list string) (r : Row) : M unit :=
  if one_of (rw_ID r) listed then mret tt
  else
    next ← (if String.eqb (rw_Status r) RunRunning
            then Transition env (rw_ID r) RunFailed (error_change ReasonLost)
            else Transition env (rw_ID r) RunQueued no_change);
    match next with
    | inl _ => mret tt
    | inr next => _ ← notifyChanged env next; _ ← finished env next; after_end next true
    end.

Definition reconcile_listed (runnerID id : string) : M unit :=
  r ← Get env id;
  match r with
  | inl _ => mret tt
  | inr r =>
      if negb (String.eqb (rw_RunnerID r) runnerID) then mret tt
      else if RunFinal (rw_Status r) || String.eqb (rw_Status r) RunQueued
      then _ ← sendCancel env r ("run is " +:+ rw_Status r +:+ " on the hub"); mret tt
      else mret tt
  end.

Definition Attached (runnerID : string) (active : list string) : M unit :=
  held ← ForRunner env runnerID [RunOffered; RunRunning];
  _ ← each (reconcile_held active) (match held with inr held => held | inl _ => [] end);
  _ ← each (reconcile_listed runnerID) (remove_dups active);
  Pump env runnerID.

(** * People and the clock *)

Definition HumanReview (id whoID whoName verdict comment : string) : M (Res PipeRow) :=
  let comment := trim_space comment in
  if String.eqb verdict VerdictChanges && String.eqb comment EmptyString then fail Invalid
  else locked (PipelineLock id) (
    p ←? GetPipeline env id;
    if negb (String.eqb (pp_Status p) PipelineWaitingHuman) then fail Precondition
    else
      runs ←? PipelineRuns env id;
      match last runs with
      | None => fail Precondition
      | Some from =>
          _ ←? HumanVote env (pp_ID p) (pp_Round p) whoID whoName verdict comment;
          _ ←? (if String.eqb verdict VerdictApprove
                then _ ← endPipeline env p from PipelineApproved ("approved by " +:+ whoName) false; done_with tt
                else if String.eqb verdict VerdictChanges then
                  if pl_MaxRounds (pp_Pipeline p) <=? pp_Round p
                  then _ ← endPipeline env p from PipelineChangesLeft (whoName +:+ " asked for changes after " +:+ pretty (pp_Round p) +:+ " round(s)") false;
                       done_with tt
                  else
                    moved ←? NextRound env (pp_ID p) (pp_Round p);
                    if moved : bool
                    then _ ← step env (set_round (pp_Round p + 1) p) from JobRevise (pl_Implement (pp_Pipeline p))
                               ("Review by " +:+ whoName +:+ " (a person):" +:+ newline +:+ comment) false;
                         done_with tt
                    else done_with tt
                else done_with tt);
          GetPipeline env id
      end).

Definition CancelPipeline (id reason : string) : M (Res unit) :=
  ended ←? locked (PipelineLock id) (EndPipeline env id PipelineCancelled reason);
  runs ←? PipelineRuns env id;
  _ ← each (λ r, if RunFinal (rw_Status r) then mret tt else _ ← Cancel (rw_ID r) reason; mret tt) runs;
  match last runs with
  | Some from => if ended : bool then _ ← note env from ("pipeline cancelled: " +:+ reason); _ ← notifyChanged env from; done_with tt else done_with tt
  | None => done_with tt
  end.

Definition release (r : Row) (why : string) : M (Res Row) :=
  exceeded ←? BudgetStatus env (rw_OwnerID r);
  if negb (String.eqb exceeded EmptyString) then
    next ←? Transition env (rw_ID r) RunCancelled (error_change ("not retried after the usage limit: " +:+ exceeded));
    _ ← notifyChanged env next;
    _ ← after_end next false;
    done_with next
  else
    ok ←? ReleaseRetry env (rw_ID r) (rw_RetryAt r);
    if negb ok then latest ←? Get env (rw_ID r); fail (BadTransition latest)
    else
      _ ← (if String.eqb (rw_RetryOf r) EmptyString then mret tt
           else
             prev ← Get env (rw_RetryOf r);
             match prev with
             | inr prev => note env prev (why +:+ ": offering run " +:+ rw_ID r +:+ " again")
             | inl _ => mret tt
             end);
      latest ←? Get env (rw_ID r);
      _ ← notifyChanged env latest;
      _ ← Pump env (rw_RunnerID r);
      after ← Get env (rw_ID r);
      done_with (match after with inr a => a | inl _ => latest end).

Fixpoint release_all (due : list Row) (n : nat) : M nat :=
  match due with
  | [] => mret n
  | r :: due' =>
      next ← release r "the usage limit should have reset";
      release_all due' (match next with inr next => if String.eqb (rw_Status next) RunCancelled then n else S n | inl _ => n end)
  end.

Definition ReleaseDue : M nat :=
  now ← clockNow env;
  due ← DueRetries env now;
  match due with inl _ => mret 0%nat | inr due => release_all due 0 end.

Definition RetryNow (id who : string) : M (Res Row) :=
  r ←? Get env id;
  if negb (String.eqb (rw_Status r) RunQueued) || String.eqb (rw_RetryAt r) EmptyString then fail Precondition
  else release r ("retried now by " +:+ who).
End Steps.
