(* ===== verification/HubSpec.v ===== *)
(** What calls of the hub may write ([write]), the invariant of its tables
    ([hub_ok]), and a program logic for calls that run between others.

    An assertion that writes never falsify ([Mono]) survives whatever other
    calls do meanwhile, so a call's proof keeps the facts it has learnt.

    The tables of the hub under any writes: what is never lost ([ext]), the
    invariant ([hub_ok]) and its preservation. *)

From S2P Require Import Prelude GoStr GoFloat GoTime Dsl Graph NodeTypes Workflow Roles State Readiness Globs Runs Hub RunStore PipeStore Dispatch Staged.
Open Scope Z_scope.

(** * What counts as approval *)

Definition of_pipe (id : string) (r : Row) : Prop := rw_PipelineID r = id.

Definition approves (id : string) (round : Z) (v : Vote) : bool :=
  String.eqb (vt_Pipeline v) id && (vt_Round v =? round)
  && negb (String.eqb (vt_Reviewer v) HumanReviewerKey) && String.eqb (vt_Verdict v) VerdictApprove.

Definition approvals (id : string) (round : Z) (h : Hub) : nat := length (List.filter (approves id round) (h_votes h)).

Definition person_approved (id : string) (h : Hub) : Prop :=
  ∃ v, v ∈ h_votes h ∧ vt_Pipeline v = id ∧ vt_Reviewer v = HumanReviewerKey ∧ vt_Verdict v = VerdictApprove.

(** The evidence of a kind and outcome was recorded for the pipeline. *)
Definition evidence (id kind outcome : string) (h : Hub) : Prop :=
  ∃ run text, Evidence run id kind outcome text ∈ h_log h.

(** The evidence of a run, as it is written down. *)
Definition recorded (run id kind outcome summary : string) (h : Hub) : Prop :=
  Evidence run id kind outcome (summary +:+ " (run " +:+ shortRunID run +:+ ")") ∈ h_log h.

(** A review that ended for the pipeline with no seat of its own. *)
Definition unseated_approval (id : string) (h : Hub) : Prop :=
  ∃ r, r ∈ h_runs h ∧ of_pipe id r ∧ rw_Kind r = JobReview ∧ rw_Status r = RunSucceeded
    ∧ pg_Verdict (rw_prog r) = VerdictApprove ∧ SeatSettled (rw_ID r) VerdictApprove false ∈ h_log h.

(** What a verify run was made to see, and the head it tested: the one it
    reports, or the one it was given. *)
Definition verify_phase (r : Row) : string :=
  match jr_VerifySpec (nw_JobRoles (rw_job r)) with Some spec => vs_Phase spec | None => VerifyRed end.
Definition verify_head (r : Row) (res : VerifyResult) : string :=
  if String.eqb (vr_Head res) EmptyString
  then match jr_VerifySpec (nw_JobRoles (rw_job r)) with Some spec => vs_Head spec | None => EmptyString end
  else vr_Head res.

(** The tests ran green at a head: a verify run of the pipeline, made to see
    them green, exited there with zero. *)
Definition green_run_at (id head : string) (h : Hub) : Prop :=
  ∃ r res, r ∈ h_runs h ∧ of_pipe id r ∧ rw_Kind r = JobVerify ∧ rw_Status r = RunSucceeded
    ∧ pg_Verify (rw_prog r) = Some res ∧ vr_NoCommand res = false ∧ vr_ExitCode res = 0
    ∧ verify_phase r ≠ VerifyRed ∧ verify_head r res = head.

Definition green_run (id : string) (h : Hub) : Prop := ∃ head, green_run_at id head h.

(** A judge passed the checklist: no item of it fails. *)
Definition judged (id : string) (h : Hub) : Prop :=
  ∃ r, r ∈ h_runs h ∧ of_pipe id r ∧ rw_Kind r = JobJudge ∧ rw_Status r = RunSucceeded
    ∧ pg_Verdict (rw_prog r) = VerdictPass ∧ failing_checks (pg_Checks (rw_prog r)) = [].

Definition needed (p : PipeRow) : Z :=
  if is_staged p && (QuorumOf (pp_Pipeline p) =? 0) then 1 else QuorumOf (pp_Pipeline p).

Definition quorum_met (p : PipeRow) (h : Hub) : Prop := ∃ round, needed p ≤ Z.of_nat (approvals (pp_ID p) round h).

Definition tested (p : PipeRow) (h : Hub) : Prop := st_Tester (stages_of p) = true → green_run (pp_ID p) h.

Definition guarded (p : PipeRow) (h : Hub) : Prop :=
  (∃ outcome, evidence (pp_ID p) PhaseGuard outcome h)
  ∧ (st_Reviewer (stages_of p) = false → evidence (pp_ID p) PhaseGuard EvidencePass h).

(** CI is recorded as passed for a head and, where there is a Tester, for one
    the tests ran green at. *)
Definition ci_passed_at (p : PipeRow) (head : string) (h : Hub) : Prop :=
  (∃ run, recorded run (pp_ID p) PhaseCI EvidencePass (CISuccess +:+ " at " +:+ shortHead head) h)
  ∧ head ≠ EmptyString ∧ (st_Tester (stages_of p) = true → green_run_at (pp_ID p) head h).
Definition ci_passed (p : PipeRow) (h : Hub) : Prop := st_CI (stages_of p) = true → ∃ head, ci_passed_at p head h.

Definition reviewed (p : PipeRow) (h : Hub) : Prop :=
  st_Reviewer (stages_of p) = true → quorum_met p h ∨ evidence (pp_ID p) PhaseReview EvidenceSkip h.

(** What stands behind an approved pipeline. *)
Definition backed (p : PipeRow) (h : Hub) : Prop :=
  person_approved (pp_ID p) h
  ∨ (is_staged p = false ∧ unseated_approval (pp_ID p) h)
  ∨ pl_Human (pp_Pipeline p) = false
    ∧ if is_staged p
      then (is_story p = true ∧ judged (pp_ID p) h) ∨ (tested p h ∧ guarded p h ∧ ci_passed p h ∧ reviewed p h)
      else ReviewersOf (pp_Pipeline p) = [] ∨ quorum_met p h.

(** * What a call may write *)

Definition known_pipe (id : string) (h : Hub) : Prop := ∃ q, q ∈ h_pipes h ∧ pp_ID q = id.

(** A run's job, against the pipeline it belongs to. *)
Definition job_ok (w : New) (h : Hub) : Prop :=
  nw_LimitWaits w ≤ 3
  ∧ (nw_PipelineID w ≠ EmptyString →
     ∃ q, q ∈ h_pipes h ∧ pp_ID q = nw_PipelineID w
       ∧ (nw_Kind w = JobReview → is_staged (shown q) = true → tested (shown q) h ∧ guarded (shown q) h ∧ ci_passed (shown q) h)
       ∧ (nw_Kind w = JobJudge → is_story (shown q) = true)).

Definition act_ok (a : HubAct) (h : Hub) : Prop :=
  match a with
  | Evidence run pipe _ _ _ => ∃ r, r ∈ h_runs h ∧ rw_ID r = run ∧ of_pipe pipe r
  | OfferSent runner j => ∃ r, r ∈ h_runs h ∧ rw_ID r = jb_RunID j ∧ rw_RunnerID r = runner
  | CancelSent runner run _ => ∃ r, r ∈ h_runs h ∧ rw_ID r = run ∧ rw_RunnerID r = runner
  | NodeApproved project node _ =>
      ∃ q, q ∈ h_pipes h ∧ pp_Status q = PipelineApproved ∧ is_staged (shown q) = true
        ∧ np_Project (pp_new q) = project ∧ np_NodeID (pp_new q) = node
  | _ => True
  end.

(** The phases after the guard, and a guard a reviewer signed off. *)
Definition phase_ok (p : PipeRow) (phase : string) (h : Hub) : Prop :=
  one_of phase [PhaseCI; PhaseReview] = true → is_staged p = true → tested p h ∧ guarded p h.
Definition guard_ok (p : PipeRow) (g : option GuardReport) (h : Hub) : Prop :=
  match g with Some g => gd_Approved g = true → evidence (pp_ID p) PhaseGuard EvidencePass h | None => True end.

(** The head called green is one the tests ran green at, where a Tester wrote
    them. *)
Definition tries_ok (p : PipeRow) (t : Tries) (h : Hub) : Prop :=
  tr_GreenHead t ≠ EmptyString → st_Tester (stages_of p) = true → green_run_at (pp_ID p) (tr_GreenHead t) h.
Definition marks_ok (p : PipeRow) (g : option GuardReport) (t : Tries) (h : Hub) : Prop := guard_ok p g h ∧ tries_ok p t h.

Definition end_statuses : list string := [PipelineApproved; PipelineChangesLeft; PipelineFailed; PipelineCancelled].

Inductive pipe_step (h : Hub) (q : PipeRow) : PipeRow → Prop :=
  | step_end status reason :
      one_of status end_statuses = true → (status = PipelineApproved → backed (shown q) h) →
      pipe_step h q (set_awaiting EmptyString (set_end status reason q))
  | step_pr branch url : pipe_step h q (set_pr branch url q)
  | step_round : pp_Round q < pl_MaxRounds (pp_Pipeline q) → pipe_step h q (set_awaiting EmptyString (set_round (pp_Round q + 1) q))
  | step_await reason : pipe_step h q (set_awaiting AwaitingHuman (set_end (pp_Status q) reason q))
  | step_stage phase files g t :
      phase_ok (shown q) phase h → marks_ok (shown q) g t h → pipe_step h q (set_stage phase files g t q).

Inductive run_step (r : Row) : option string → Row → Prop :=
  | step_move to now c :
      Legal (rw_Status r) to = true → to ≠ RunOffered → run_step r None (set_prog (moved to now c (rw_prog r)) r)
  | step_offer now c :
      rw_Status r = RunQueued → rw_RetryAt r = EmptyString →
      run_step r (Some (rw_RunnerID r)) (set_prog (moved RunOffered now c (rw_prog r)) r)
  | step_pull p : run_step r None (set_pull p r)
  | step_commit c : run_step r None (set_commit c r)
  | step_release : rw_Status r = RunQueued → run_step r None (set_prog (released (rw_prog r)) r).

Inductive vote_step (v : Vote) : Vote → Prop :=
  | step_settle verdict : vt_Verdict v = EmptyString → vote_step v (set_verdict verdict v)
  | step_seat run : vt_Verdict v = EmptyString → vote_step v (set_seat run v).

(** One write; its label names the runner whose lock it needs. *)
Inductive write : option string → Hub → Hub → Prop :=
  | write_log a h : act_ok a h → write None h (set_log (h_log h ++ [a]) h)
  | write_last t h : h_last h ≤ t → write None h (set_last t h)
  | write_run id now w h :
      run_by_id id h = None → job_ok w h → write None h (set_runs (h_runs h ++ [fresh_row id now w]) h)
  | write_runs lbl id where_ f h :
      (∀ r, where_ r = true → rw_ID r = id) →
      (∀ r, r ∈ h_runs h → where_ r = true → run_step r lbl (f r)) →
      write lbl h (update_runs where_ f h).1
  | write_changes cs h : (∀ k v, h_changes h !! k = Some v → cs !! k = Some v) → write None h (set_changes cs h)
  | write_verdicts vs h : write None h (set_verdicts vs h)
  | write_pipe id w h :
      pipe_by_id id h = None → 1 ≤ pl_MaxRounds (np_Pipeline w) ≤ MaxPipelineRounds → one_of (np_Phase w) [PhaseCI; PhaseReview] = false →
      write None h (set_pipes (h_pipes h ++ [fresh_pipe id w]) h)
  | write_pipes id where_ f h :
      (∀ q, where_ q = true → pp_ID q = id ∧ pp_Status q = PipelineRunning) →
      (∀ q, q ∈ h_pipes h → where_ q = true → pipe_step h q (f q)) →
      write None h (update_pipes where_ f h).1
  | write_vote v h : existsb (same_key v) (h_votes h) = false → write None h (set_votes (h_votes h ++ [v]) h)
  | write_votes where_ f h :
      (∀ v, v ∈ h_votes h → where_ v = true → vote_step v (f v)) → write None h (update_votes where_ f h).1.

Definition any_write (h h' : Hub) : Prop := ∃ lbl, write lbl h h'.

(** What others may write while the locks are held. *)
Definition other_write (held : list Lock) (h h' : Hub) : Prop :=
  ∃ lbl, write lbl h h' ∧ match lbl with Some x => RunnerLock x ∉ held | None => True end.

Class polite (env : Env) : Prop := politely : ∀ held n h, rtc (other_write held) h (e_other env held n h).

(** * Lists under an update *)

Lemma elem_of_update {A} (where_ : A → bool) (f : A → A) xs y :
  y ∈ update where_ f xs ↔ ∃ x, x ∈ xs ∧ y = if where_ x then f x else x.
Proof. unfold update. rewrite list_elem_of_In, in_map_iff. setoid_rewrite list_elem_of_In. naive_solver. Qed.

Lemma update_fmap {A B} (g : A → B) where_ (f : A → A) xs :
  (∀ x, x ∈ xs → where_ x = true → g (f x) = g x) → g <$> update where_ f xs = g <$> xs.
Proof.
  intros Hg. unfold update. induction xs as [|x xs IH]; [done|]. simpl. f_equal.
  - destruct (where_ x) eqn:E; [|done]. apply Hg; [by left|done].
  - apply IH. intros; apply Hg; [by right|done].
Qed.

Lemma filter_app_bool {A} (f : A → bool) xs ys : List.filter f (xs ++ ys) = List.filter f xs ++ List.filter f ys.
Proof. apply List.filter_app. Qed.

Lemma filter_map_le {A} (p : A → bool) (f : A → A) xs :
  (∀ x, x ∈ xs → p x = true → p (f x) = true) → (length (List.filter p xs) ≤ length (List.filter p (map f xs)))%nat.
Proof.
  induction xs as [|x xs IH]; intros Hp; simpl; [done|].
  assert (Hx : p x = true → p (f x) = true) by (apply Hp; by left).
  assert (IH' := IH ltac:(intros; apply Hp; [by right|done])).
  destruct (p x) eqn:E.
  - rewrite (Hx eq_refl). simpl. lia.
  - destruct (p (f x)); simpl; lia.
Qed.

(** * What is never lost *)

Record ext (h h' : Hub) : Prop := {
  ext_runs : ∀ r, r ∈ h_runs h → ∃ r', r' ∈ h_runs h' ∧ rw_ID r' = rw_ID r ∧ rw_CreatedAt r' = rw_CreatedAt r ∧ rw_job r' = rw_job r
               ∧ (RunFinal (rw_Status r) = true → rw_prog r' = rw_prog r) ∧ (rw_RetryAt r = EmptyString → rw_RetryAt r' = EmptyString);
  ext_pipes : ∀ q, q ∈ h_pipes h → ∃ q', q' ∈ h_pipes h' ∧ pp_ID q' = pp_ID q ∧ pp_new q' = pp_new q
               ∧ (pp_Status q ≠ PipelineRunning → q' = q);
  ext_approvals : ∀ id round, (approvals id round h ≤ approvals id round h')%nat;
  ext_votes : ∀ v, v ∈ h_votes h → vt_Verdict v ≠ EmptyString → v ∈ h_votes h';
  ext_log : ∃ l, h_log h' = h_log h ++ l;
}.

#[export] Instance ext_refl : Reflexive ext.
Proof. intros h. split; [naive_solver..|done|done|]. exists []. by rewrite app_nil_r. Qed.

Lemma find_id_exists {A} (f : A → string) id (xs : list A) x : x ∈ xs → f x = id → ∃ y, find (λ a, String.eqb (f a) id) xs = Some y.
Proof.
  induction xs as [|z xs IH]; intros Hx Hid; [by apply elem_of_nil in Hx|]. simpl.
  destruct (String.eqb (f z) id) eqn:E; [eauto|]. apply elem_of_cons in Hx as [->|Hx]; [|eauto].
  subst. by rewrite String.eqb_refl in E.
Qed.

#[export] Instance ext_trans : Transitive ext.
Proof.
  intros h1 h2 h3 [R1 P1 A1 V1 L1] [R2 P2 A2 V2 L2]. split.
  - intros r (r2 & H2 & Hid & Hc & Hj & Hf & Hra)%R1. destruct (R2 _ H2) as (r3 & H3 & Hid3 & Hc3 & Hj3 & Hf3 & Hra3).
    exists r3. split; [done|]. repeat split; try congruence; [|by auto]. intros Hfin. rewrite Hf3; [by apply Hf|].
    unfold rw_Status in *. by rewrite Hf.
  - intros q (q2 & H2 & Hid & Hn & Hs)%P1. destruct (P2 _ H2) as (q3 & H3 & Hid3 & Hn3 & Hs3).
    exists q3. split; [done|]. repeat split; try congruence. intros Hr. specialize (Hs Hr). subst q2. by apply Hs3.
  - intros id k. etrans; eauto.
  - intros v Hv Hne. eauto.
  - destruct L1 as [l1 E1], L2 as [l2 E2]. exists (l1 ++ l2). by rewrite E2, E1, app_assoc.
Qed.

(** An assertion no write falsifies. *)
Class Mono (P : Hub → Prop) : Prop := mono : ∀ h h', ext h h' → P h → P h'.

#[export] Instance mono_and P Q : Mono P → Mono Q → Mono (λ h, P h ∧ Q h).
Proof. intros HP HQ h h' He [??]. split; [by eapply HP|by eapply HQ]. Qed.
#[export] Instance mono_or P Q : Mono P → Mono Q → Mono (λ h, P h ∨ Q h).
Proof. intros HP HQ h h' He [?|?]; [left; by eapply HP|right; by eapply HQ]. Qed.
#[export] Instance mono_const P : Mono (λ _, P).
Proof. by intros h h' He. Qed.
#[export] Instance mono_exists {A} (P : A → Hub → Prop) : (∀ a, Mono (P a)) → Mono (λ h, ∃ a, P a h).
Proof. intros HP h h' He [a Ha]. exists a. by eapply HP. Qed.
#[export] Instance mono_impl (P : Prop) (Q : Hub → Prop) : Mono Q → Mono (λ h, P → Q h).
Proof. intros HQ h h' He Hi HP. eapply HQ; eauto. Qed.
#[export] Instance mono_forall {A} (P : A → Hub → Prop) : (∀ a, Mono (P a)) → Mono (λ h, ∀ a, P a h).
Proof. intros HP h h' He Ha a. eapply HP; eauto. Qed.
#[export] Instance mono_if (b : bool) P Q : Mono P → Mono Q → Mono (λ h, if b then P h else Q h).
Proof. by destruct b. Qed.

#[export] Instance mono_logged a : Mono (λ h, a ∈ h_log h).
Proof. intros h h' He Ha. destruct (ext_log _ _ He) as [l ->]. set_solver. Qed.

#[export] Instance mono_recorded run id kind outcome summary : Mono (recorded run id kind outcome summary).
Proof. unfold recorded. apply _. Qed.
#[export] Instance mono_evidence id kind outcome : Mono (evidence id kind outcome).
Proof. unfold evidence. apply _. Qed.

(** A run as some call read it: its job, and its end if it had ended. *)
Definition seen (r : Row) (h : Hub) : Prop :=
  ∃ r', r' ∈ h_runs h ∧ rw_ID r' = rw_ID r ∧ rw_job r' = rw_job r
    ∧ (RunFinal (rw_Status r) = true → rw_prog r' = rw_prog r) ∧ (rw_RetryAt r = EmptyString → rw_RetryAt r' = EmptyString).

#[export] Instance mono_seen r : Mono (seen r).
Proof.
  intros h h' He (r1 & H1 & Hid & Hj & Hf & Hra). destruct (ext_runs _ _ He _ H1) as (r2 & H2 & Hid2 & _ & Hj2 & Hf2 & Hra2).
  exists r2. repeat split; try congruence; [|by auto]. intros Hfin. specialize (Hf Hfin).
  rewrite Hf2; [done|]. unfold rw_Status in *. by rewrite Hf.
Qed.

#[export] Instance mono_green_run_at id head : Mono (green_run_at id head).
Proof.
  intros h h' He (r & res & Hr & Hp & Hk & Hs & Hv & Hn & Hx & Hph & Hhd).
  destruct (ext_runs _ _ He _ Hr) as (r' & Hr' & Hid & _ & Hj & Hf & _).
  assert (Hpr : rw_prog r' = rw_prog r) by (apply Hf; by rewrite Hs).
  exists r', res. unfold of_pipe, verify_phase, verify_head, rw_PipelineID, rw_Kind, rw_Status in *. by rewrite Hj, Hpr.
Qed.

#[export] Instance mono_green_run id : Mono (green_run id).
Proof. unfold green_run. apply _. Qed.

#[export] Instance mono_judged id : Mono (judged id).
Proof.
  intros h h' He (r & Hr & Hp & Hk & Hs & Hv & Hn).
  destruct (ext_runs _ _ He _ Hr) as (r' & Hr' & Hid & _ & Hj & Hf & _).
  assert (Hpr : rw_prog r' = rw_prog r) by (apply Hf; by rewrite Hs).
  exists r'. unfold of_pipe, rw_PipelineID, rw_Kind, rw_Status in *. by rewrite Hj, Hpr.
Qed.

#[export] Instance mono_unseated id : Mono (unseated_approval id).
Proof.
  intros h h' He (r & Hr & Hp & Hk & Hs & Hv & Hn).
  destruct (ext_runs _ _ He _ Hr) as (r' & Hr' & Hid & _ & Hj & Hf & _).
  assert (Hpr : rw_prog r' = rw_prog r) by (apply Hf; by rewrite Hs).
  exists r'. unfold of_pipe, rw_PipelineID, rw_Kind, rw_Status in *. rewrite Hj, Hpr, Hid. repeat split; try done.
  by eapply (mono_logged (SeatSettled (rw_ID r) VerdictApprove false)).
Qed.

#[export] Instance mono_person id : Mono (person_approved id).
Proof.
  intros h h' He (v & Hv & Hp & Hr & Ha). exists v. repeat split; try done.
  eapply (ext_votes _ _ He); [done|by rewrite Ha].
Qed.

#[export] Instance mono_approvals id round n : Mono (λ h, n ≤ Z.of_nat (approvals id round h)).
Proof. intros h h' He Hn. pose proof (ext_approvals _ _ He id round). lia. Qed.

#[export] Instance mono_quorum p : Mono (quorum_met p).
Proof. unfold quorum_met. apply _. Qed.
#[export] Instance mono_tested p : Mono (tested p).
Proof. unfold tested. apply _. Qed.
#[export] Instance mono_guarded p : Mono (guarded p).
Proof. unfold guarded. apply _. Qed.
#[export] Instance mono_ci_at p head : Mono (ci_passed_at p head).
Proof. unfold ci_passed_at. apply _. Qed.
#[export] Instance mono_ci p : Mono (ci_passed p).
Proof. unfold ci_passed. apply _. Qed.
#[export] Instance mono_reviewed p : Mono (reviewed p).
Proof. unfold reviewed. apply _. Qed.
#[export] Instance mono_backed p : Mono (backed p).
Proof. unfold backed. apply _. Qed.
#[export] Instance mono_phase p phase : Mono (phase_ok p phase).
Proof. unfold phase_ok. apply _. Qed.
#[export] Instance mono_guard p g : Mono (guard_ok p g).
Proof. unfold guard_ok. destruct g; apply _. Qed.
#[export] Instance mono_marks p g t : Mono (marks_ok p g t).
Proof. unfold marks_ok, tries_ok. apply _. Qed.

(** What is said of a pipeline looks at its id and what it was made with. *)
Definition same_pipe (p q : PipeRow) : Prop := pp_ID p = pp_ID q ∧ pp_new p = pp_new q.

Lemma shown_same p q : same_pipe p q → same_pipe (shown p) (shown q).
Proof. intros [Hid Hn]. unfold same_pipe, shown, pp_Config. simpl. by rewrite Hid, Hn. Qed.

Ltac same_pipe := intros [Hid Hn]; unfold backed, phase_ok, marks_ok, guard_ok, tries_ok, tested, guarded, ci_passed, ci_passed_at, reviewed, quorum_met, needed, stages_of,
  workflowOf, is_staged, is_story, pp_Pipeline, pp_Config; by rewrite ?Hid, ?Hn.

Lemma tested_same p q h : same_pipe p q → tested p h = tested q h. Proof. same_pipe. Qed.
Lemma guarded_same p q h : same_pipe p q → guarded p h = guarded q h. Proof. same_pipe. Qed.
Lemma ci_same p q h : same_pipe p q → ci_passed p h = ci_passed q h. Proof. same_pipe. Qed.
Lemma backed_same p q h : same_pipe p q → backed p h = backed q h. Proof. same_pipe. Qed.
Lemma phase_same p q x h : same_pipe p q → phase_ok p x h = phase_ok q x h. Proof. same_pipe. Qed.
Lemma marks_same p q g t h : same_pipe p q → marks_ok p g t h = marks_ok q g t h. Proof. same_pipe. Qed.
Lemma staged_same p q : same_pipe p q → is_staged p = is_staged q. Proof. same_pipe. Qed.
Lemma story_same p q : same_pipe p q → is_story p = is_story q. Proof. same_pipe. Qed.

#[export] Instance mono_job w : Mono (job_ok w).
Proof.
  intros h h' He [Hw Hp]. split; [done|]. intros Hne. destruct (Hp Hne) as (q & Hq & Hid & Hrev & Hjud).
  destruct (ext_pipes _ _ He _ Hq) as (q' & Hq' & Hid' & Hn' & _). exists q'.
  assert (Hs : same_pipe (shown q') (shown q)) by (apply shown_same; split; congruence).
  split; [done|]. split; [congruence|]. split.
  - intros Hk Hst. rewrite (staged_same _ _ Hs) in Hst. rewrite (tested_same _ _ _ Hs), (guarded_same _ _ _ Hs), (ci_same _ _ _ Hs).
    exact (mono (P := λ h, tested (shown q) h ∧ guarded (shown q) h ∧ ci_passed (shown q) h) _ _ He (Hrev Hk Hst)).
  - intros Hk. rewrite (story_same _ _ Hs). by apply Hjud.
Qed.

#[export] Instance mono_act a : Mono (act_ok a).
Proof.
  intros h h' He. destruct a; simpl; try done.
  1-3: intros (r & Hr & Hid & Hx); destruct (ext_runs _ _ He _ Hr) as (r' & Hr' & Hid' & _ & Hj & _); exists r';
    split; [done|]; split; [congruence|]; unfold of_pipe, rw_PipelineID, rw_RunnerID, rw_place in *; by rewrite Hj.
  intros (q & Hq & Hs & Hrest). destruct (ext_pipes _ _ He _ Hq) as (q' & Hq' & _ & _ & Heq).
  rewrite Heq in Hq' by by rewrite Hs. eauto.
Qed.

(** * Writes extend *)

(** The lifecycle, by cases. *)
Lemma Legal_cases from to : Legal from to = true →
  (from = RunQueued ∧ (to = RunOffered ∨ to = RunCancelled))
  ∨ (from = RunOffered ∧ one_of to [RunRunning; RunDeclined; RunFailed; RunCancelled; RunQueued] = true)
  ∨ (from = RunRunning ∧ one_of to [RunSucceeded; RunFailed; RunCancelled] = true).
Proof.
  unfold Legal, legal. intros Hl.
  destruct (String.eqb from RunQueued) eqn:E1; [apply String.eqb_eq in E1; left; split; [done|]|].
  { simpl in Hl. repeat (apply orb_true_iff in Hl as [Hl|Hl]; [apply String.eqb_eq in Hl; tauto|]). done. }
  destruct (String.eqb from RunOffered) eqn:E2; [apply String.eqb_eq in E2; tauto|].
  destruct (String.eqb from RunRunning) eqn:E3; [apply String.eqb_eq in E3; tauto|done].
Qed.

Lemma one_of_cases s xs : one_of s xs = true ↔ s ∈ xs.
Proof.
  unfold one_of. rewrite existsb_exists. setoid_rewrite <- list_elem_of_In. split.
  - intros (x & Hx & ->%String.eqb_eq). done.
  - intros Hx. exists s. split; [done|apply String.eqb_refl].
Qed.

Lemma run_step_fixed r lbl r' : run_step r lbl r' →
  rw_ID r' = rw_ID r ∧ rw_CreatedAt r' = rw_CreatedAt r ∧ rw_job r' = rw_job r
  ∧ (RunFinal (rw_Status r) = true → rw_prog r' = rw_prog r) ∧ (rw_RetryAt r = EmptyString → rw_RetryAt r' = EmptyString).
Proof.
  destruct 1 as [to now c Hl Hto|now c Hs|p|c|Hs]; simpl; repeat split; try done; intros Hf; exfalso.
  - apply Legal_cases in Hl as [[E _]|[[E _]|[E _]]]; rewrite E in Hf; by vm_compute in Hf.
  - rewrite Hs in Hf. by vm_compute in Hf.
  - rewrite Hs in Hf. by vm_compute in Hf.
Qed.

Lemma pipe_step_fixed h q q' : pipe_step h q q' → same_pipe q' q.
Proof. by destruct 1. Qed.

Lemma vote_step_pending v v' : vote_step v v' → vt_Verdict v = EmptyString.
Proof. by destruct 1. Qed.

Lemma ext_same h h' l :
  h_runs h' = h_runs h → h_pipes h' = h_pipes h → h_votes h' = h_votes h → h_log h' = h_log h ++ l → ext h h'.
Proof.
  intros Hr Hp Hv Hl. split.
  - intros r. rewrite Hr. naive_solver.
  - intros q. rewrite Hp. naive_solver.
  - intros id k. unfold approvals. by rewrite Hv.
  - intros v. by rewrite Hv.
  - eauto.
Qed.

Lemma write_ext lbl h h' : write lbl h h' → ext h h'.
Proof.
  destruct 1 as [a h Ha|t h Ht|id now w h Hnew Hok|lbl id where_ f h Hid Hstep|cs h Hc|vs h|id w h Hnew Hmax Hph|id where_ f h Hid Hstep
                |v h Hv|where_ f h Hstep].
  - by eapply (ext_same _ _ [a]).
  - eapply (ext_same _ _ []); simpl; by rewrite ?app_nil_r.
  - split; simpl; [|naive_solver|done|done|by exists []; rewrite app_nil_r].
    intros r Hr. exists r. split; [set_solver|done].
  - split; simpl; [|naive_solver|done|done|by exists []; rewrite app_nil_r].
    intros r Hr. exists (if where_ r then f r else r). split; [apply elem_of_update; eauto|].
    destruct (where_ r) eqn:E; [|done]. apply (run_step_fixed _ lbl). by apply Hstep.
  - eapply (ext_same _ _ []); simpl; by rewrite ?app_nil_r.
  - eapply (ext_same _ _ []); simpl; by rewrite ?app_nil_r.
  - split; simpl; [naive_solver| |done|done|by exists []; rewrite app_nil_r].
    intros q Hq. exists q. split; [set_solver|done].
  - split; simpl; [naive_solver| |done|done|by exists []; rewrite app_nil_r].
    intros q Hq. exists (if where_ q then f q else q). split; [apply elem_of_update; eauto|].
    destruct (where_ q) eqn:E; [|done]. destruct (Hid _ E) as [_ Hrun]. destruct (pipe_step_fixed _ _ _ (Hstep _ Hq E)) as [H1 H2].
    repeat split; try done.
  - split; simpl; [naive_solver|naive_solver| |set_solver|by exists []; rewrite app_nil_r].
    intros i k. unfold approvals. simpl. rewrite filter_app_bool, length_app. lia.
  - split; simpl; [naive_solver|naive_solver| | |by exists []; rewrite app_nil_r].
    + intros i k. unfold approvals. simpl. apply filter_map_le. intros v Hv Ha. destruct (where_ v) eqn:E; [|done].
      pose proof (vote_step_pending _ _ (Hstep _ Hv E)) as Hp. unfold approves in Ha. rewrite Hp in Ha. bool_to_prop. done.
    + intros v Hv Hne. apply elem_of_update. exists v. split; [done|]. destruct (where_ v) eqn:E; [|done].
      by rewrite (vote_step_pending _ _ (Hstep _ Hv E)) in Hne.
Qed.

(** * The invariant *)

Definition run_statuses : list string :=
  [RunQueued; RunOffered; RunDeclined; RunRunning; RunSucceeded; RunFailed; RunCancelled].

Definition seat (v : Vote) : string * Z * string := (vt_Pipeline v, vt_Round v, vt_Reviewer v).

Definition run_ok (r : Row) (h : Hub) : Prop :=
  job_ok (rw_job r) h ∧ one_of (rw_Status r) run_statuses = true
  ∧ (rw_RetryAt r ≠ EmptyString → one_of (rw_Status r) [RunQueued; RunCancelled] = true).

Definition pipe_ok (q : PipeRow) (h : Hub) : Prop :=
  one_of (pp_Status q) (PipelineRunning :: end_statuses) = true
  ∧ (pp_Status q = PipelineApproved → backed (shown q) h)
  ∧ 1 ≤ pp_Round q ≤ pl_MaxRounds (pp_Pipeline q) ≤ MaxPipelineRounds
  ∧ phase_ok (shown q) (pp_Phase q) h ∧ marks_ok (shown q) (pp_Guard q) (pp_Tries q) h.

Record hub_ok (h : Hub) : Prop := {
  ok_runs : NoDup (rw_ID <$> h_runs h);
  ok_pipes : NoDup (pp_ID <$> h_pipes h);
  ok_seats : NoDup (seat <$> h_votes h);
  ok_run : ∀ r, r ∈ h_runs h → run_ok r h;
  ok_pipe : ∀ q, q ∈ h_pipes h → pipe_ok q h;
  ok_log : ∀ a, a ∈ h_log h → act_ok a h;
}.

#[export] Instance mono_run_ok r : Mono (run_ok r).
Proof. unfold run_ok. apply _. Qed.
#[export] Instance mono_pipe_ok q : Mono (pipe_ok q).
Proof. unfold pipe_ok. apply _. Qed.

Lemma job_ok_stored w h : job_ok w h → job_ok (stored w) h.
Proof. done. Qed.

Lemma run_ok_step h r lbl r' : run_ok r h → run_step r lbl r' → run_ok r' h.
Proof.
  intros (Hj & Hs & Hw) Hst. unfold run_ok.
  destruct Hst as [to now c Hl Hto|now c Hq Hra|p|c|Hq]; unfold rw_Status, rw_RetryAt in *; simpl in *; (split; [apply Hj|]); try done.
  - split.
    + apply Legal_cases in Hl as [[_ [->| ->]]|[[_ Hl]|[_ Hl]]]; [done..| |]; rewrite one_of_cases in Hl;
        change (one_of to run_statuses = true); apply one_of_cases; set_solver.
    + intros Hra. specialize (Hw Hra).
      apply Legal_cases in Hl as [[_ [->| ->]]|[[E Hl]|[E Hl]]]; [done..| |]; rewrite E in Hw; by vm_compute in Hw.
Qed.

Lemma shown_id q : pp_ID (shown q) = pp_ID q. Proof. done. Qed.

Lemma pipe_ok_step h q q' : pipe_ok q h → pp_Status q = PipelineRunning → pipe_step h q q' → pipe_ok q' h.
Proof.
  intros (Hs & Ha & Hr & Hp & Hg) Hrun Hst. pose proof (shown_same _ _ (pipe_step_fixed _ _ _ Hst)) as Hsame.
  unfold pipe_ok. rewrite (backed_same _ _ h Hsame), (phase_same _ _ _ h Hsame), (marks_same _ _ _ _ h Hsame).
  destruct Hst as [status reason Hend Hback|branch url|Hround|reason|phase files g t Hph Hgu]; simpl; try done.
  - split; [|done]. change (one_of status (PipelineRunning :: end_statuses) = true).
    rewrite one_of_cases in Hend. apply one_of_cases. set_solver.
  - split; [done|]. split; [done|]. split; [|done]. unfold pp_Pipeline in *. simpl in *. lia.
Qed.

Definition held_by (x : string) (r : Row) : bool := String.eqb (rw_RunnerID r) x && holds r.

(** At most one row has an id. *)
Lemma one_row (h : Hub) (where_ : Row → bool) id :
  NoDup (rw_ID <$> h_runs h) → (∀ r, where_ r = true → rw_ID r = id) → (length (List.filter where_ (h_runs h)) ≤ 1)%nat.
Proof.
  intros Hnd Hw. induction (h_runs h) as [|r rs IH]; [simpl; lia|]. simpl in *. apply NoDup_cons in Hnd as [Hr Hnd].
  destruct (where_ r) eqn:E; [|by apply IH]. simpl. assert (Hnil : List.filter where_ rs = []); [|rewrite Hnil; simpl; lia].
  destruct (List.filter where_ rs) as [|y ys] eqn:E'; [done|]. exfalso. apply Hr. rewrite (Hw _ E).
  assert (Hy : y ∈ List.filter where_ rs) by (rewrite E'; by left). apply elem_of_list_filter in Hy as [Hwy Hy].
  rewrite <- (Hw _ Hwy). by apply list_elem_of_fmap_2.
Qed.

Lemma filter_map_bound {A} (p w : A → bool) (f : A → A) xs :
  (length (List.filter p (update w f xs)) ≤ length (List.filter p xs) + length (List.filter w xs))%nat.
Proof.
  unfold update. induction xs as [|x xs IH]; simpl; [done|]. destruct (w x); destruct (p _); simpl; destruct (p x); simpl; lia.
Qed.

Lemma filter_map_ge {A} (p : A → bool) (f : A → A) xs :
  (∀ x, x ∈ xs → p (f x) = true → p x = true) → (length (List.filter p (map f xs)) ≤ length (List.filter p xs))%nat.
Proof.
  induction xs as [|x xs IH]; intros Hp; simpl; [done|].
  pose proof (Hp x ltac:(by left)) as Hx. specialize (IH ltac:(intros; apply Hp; [by right|done])).
  destruct (p (f x)) eqn:E; simpl; [rewrite (Hx eq_refl); simpl; lia|]. destruct (p x); simpl; lia.
Qed.

(** Only an offer makes a runner hold one run more. *)
Lemma busy_write lbl h h' x : hub_ok h → write lbl h h' → lbl ≠ Some x → busy x h' ≤ busy x h.
Proof.
  intros Hok Hw Hx. destruct Hw as [| |id now w h Hnew Hj|lbl id where_ f h Hid Hstep| | | | | |]; try (unfold busy; simpl; done).
  - unfold busy. simpl. rewrite filter_app_bool, length_app. simpl.
    assert (Hf : holds (fresh_row id now w) = false) by done. rewrite Hf, andb_false_r. simpl. lia.
  - unfold busy. simpl. apply inj_le. apply filter_map_ge. intros r Hr Hb. destruct (where_ r) eqn:E; [|done].
    specialize (Hstep r Hr E). apply andb_true_iff in Hb as [Hb1 Hb2]. apply andb_true_iff.
    destruct Hstep as [to now c Hl Hto|now c Hq Hra|p|c|Hq]; unfold holds, rw_Status in *; simpl in *.
    + split; [done|]. apply Legal_cases in Hl as [[_ [E'|E']]|[[E' _]|[E' _]]]; [done| |by rewrite E'..].
      rewrite E' in Hb2. by vm_compute in Hb2.
    + exfalso. apply Hx. f_equal. by apply String.eqb_eq in Hb1.
    + by split.
    + by split.
    + rewrite Hq in Hb2. done.
Qed.

Lemma busy_offer x h h' : hub_ok h → write (Some x) h h' → busy x h' ≤ busy x h + 1.
Proof.
  intros Hok Hw. inversion Hw as [| | |lbl id where_ f h0 Hid Hstep| | | | | |]; subst.
  unfold busy. simpl. pose proof (filter_map_bound (held_by x) where_ f (h_runs h)) as Hb. unfold held_by in Hb.
  pose proof (one_row _ _ _ (ok_runs _ Hok) Hid). lia.
Qed.
