(* ===== verification/StoreSpecs.v ===== *)
(** The invariant is kept by every write, and the program logic: [triple held
    P m Q] says that [m], run with the locks [held] from tables in order where
    [P] holds, writes only what it may, whatever others write meanwhile, and
    ends where [Q] holds, or stops for ever at the lock of a pipeline.  It does
    not stop for want of fuel, nor at the lock of a runner.

    What the run store's operations promise their callers: one [Spec] per
    operation, found by its name. *)

From S2P Require Import Prelude GoStr GoFloat GoTime Dsl Graph NodeTypes Workflow Roles State Readiness Globs Runs Hub RunStore PipeStore Dispatch Staged HubSpec.
Open Scope Z_scope.

Lemma NoDup_snoc {A} (xs : list A) x : NoDup xs → x ∉ xs → NoDup (xs ++ [x]).
Proof.
  intros Hnd Hx. apply NoDup_app. split; [done|]. split; [|apply NoDup_singleton].
  intros y Hy Hyx. apply list_elem_of_singleton in Hyx. by subst.
Qed.

Lemma find_None_ids {A} (f : A → string) id (xs : list A) : find (λ a, String.eqb (f a) id) xs = None → id ∉ f <$> xs.
Proof.
  intros Hf Hin. apply list_elem_of_fmap in Hin as (x & -> & Hx).
  destruct (find_id_exists f (f x) xs x Hx eq_refl) as [y Hy]. by rewrite Hf in Hy.
Qed.

Lemma write_ok lbl h h' : hub_ok h → write lbl h h' → hub_ok h'.
Proof.
  intros Hok Hw. pose proof (write_ext _ _ _ Hw) as He.
  assert (Hrun : ∀ r, r ∈ h_runs h → run_ok r h') by (intros r Hr; eapply mono_run_ok; [done|by apply Hok]).
  assert (Hpipe : ∀ q, q ∈ h_pipes h → pipe_ok q h') by (intros q Hq; eapply mono_pipe_ok; [done|by apply Hok]).
  assert (Hlog : ∀ a, a ∈ h_log h → act_ok a h') by (intros a Ha; eapply mono_act; [done|by apply Hok]).
  destruct Hok as [H1 H2 H3 H4 H5 _].
  destruct Hw as [a h Ha|t h Ht|id now w h Hnew Hj|lbl id where_ f h Hid Hstep|cs h Hc|vs h|id w h Hnew Hmax Hph|id where_ f h Hid Hstep
                 |v h Hv|where_ f h Hstep]; split; try done; simpl in *.
  - intros a' [Ha'|Ha']%elem_of_app; [by apply Hlog|]. apply list_elem_of_singleton in Ha' as ->. by eapply mono_act.
  - rewrite fmap_app. apply NoDup_snoc; [done|]. by apply find_None_ids.
  - intros r [Hr|Hr]%elem_of_app; [by apply Hrun|]. apply list_elem_of_singleton in Hr as ->.
    split; [by eapply mono_job; [done|apply job_ok_stored]|]. split; done.
  - rewrite update_fmap; [done|]. intros r Hr E. by destruct (run_step_fixed _ _ _ (Hstep _ Hr E)).
  - intros r (r0 & Hr0 & ->)%elem_of_update. destruct (where_ r0) eqn:E; [|by apply Hrun].
    eapply mono_run_ok; [apply He|]. eapply run_ok_step; [apply H4, Hr0|by apply Hstep].
  - rewrite fmap_app. apply NoDup_snoc; [done|]. by apply find_None_ids.
  - intros q [Hq|Hq]%elem_of_app; [by apply Hpipe|]. apply list_elem_of_singleton in Hq as ->.
    split; [done|]. split; [done|]. split; [unfold pp_Pipeline; simpl; lia|]. split; [|split; [done|by intros []]].
    intros Hp. simpl in Hp. by rewrite Hph in Hp.
  - rewrite update_fmap; [done|]. intros q Hq E. by destruct (pipe_step_fixed _ _ _ (Hstep _ Hq E)).
  - intros q (q0 & Hq0 & ->)%elem_of_update. destruct (where_ q0) eqn:E; [|by apply Hpipe].
    eapply mono_pipe_ok; [apply He|]. eapply pipe_ok_step; [apply H5, Hq0|by apply Hid|by apply Hstep].
  - rewrite fmap_app. apply NoDup_snoc; [done|]. intros (v' & Hs & Hv')%list_elem_of_fmap.
    assert (existsb (same_key v) (h_votes h) = true); [|congruence]. apply existsb_exists. exists v'.
    split; [by apply list_elem_of_In|]. unfold seat in Hs. injection Hs as E1 E2 E3.
    unfold same_key. by rewrite E1, E2, E3, !String.eqb_refl, Z.eqb_refl.
  - rewrite update_fmap; [done|]. intros v Hv E. by destruct (Hstep _ Hv E).
Qed.

(** * Runs of writes *)

Definition grows : Hub → Hub → Prop := rtc any_write.

Lemma grows_ok h h' : hub_ok h → grows h h' → hub_ok h'.
Proof. intros Hok. induction 1 as [|h1 h2 h3 [lbl Hw] _ IH]; [done|]. apply IH. by eapply write_ok. Qed.

Lemma grows_ext h h' : grows h h' → ext h h'.
Proof. induction 1 as [|h1 h2 h3 [lbl Hw] _ IH]; [done|]. etrans; [by eapply write_ext|done]. Qed.

Lemma others_grow held h h' : rtc (other_write held) h h' → grows h h'.
Proof. induction 1 as [|h1 h2 h3 (lbl & Hw & _) _ IH]; [done|]. eapply rtc_l; [by exists lbl|done]. Qed.

Lemma grows_one lbl h h' : write lbl h h' → grows h h'.
Proof. intros Hw. apply rtc_once. by exists lbl. Qed.

(** * Triples *)

Definition assert := Hub → Prop.

(** Others leave the assertion standing while the locks are held. *)
Definition stable (held : list Lock) (P : assert) : Prop := ∀ h h', hub_ok h → rtc (other_write held) h h' → P h → P h'.

Lemma mono_stable held P : Mono P → stable held P.
Proof. intros HP h h' Hok Hr. eapply HP. by eapply grows_ext, others_grow. Qed.

(** How a call may stop short. *)
Definition stops (x : Halt) : Prop := match x with Deadlock (PipelineLock _) => True | _ => False end.

(** No runner's lock is held. *)
Class Unpumped (held : list Lock) : Prop := unpumped : ∀ x, RunnerLock x ∉ held.

#[export] Instance unpumped_nil : Unpumped [].
Proof. intros x Hx. by apply elem_of_nil in Hx. Qed.
#[export] Instance unpumped_cons id held : Unpumped held → Unpumped (PipelineLock id :: held).
Proof. intros Hu x [Hx|Hx]%elem_of_cons; [done|by apply (Hu x)]. Qed.

Definition triple {A} (held : list Lock) (P : assert) (m : M A) (Q : A → assert) : Prop :=
  ∀ n h, hub_ok h → P h →
    let '((n', h'), o) := m held (n, h) in
    grows h h' ∧ match o with inl a => Q a h' | inr x => stops x end.

Lemma triple_ret {A} held P (a : A) (Q : A → assert) : (∀ h, hub_ok h → P h → Q a h) → triple held P (mret a) Q.
Proof. intros HQ n h Hok HP. simpl. split; [done|]. by apply HQ. Qed.

Lemma triple_never {A} held (P : assert) (m : M A) Q : (∀ h, ¬ P h) → triple held P m Q.
Proof. intros HP n h Hok Hh. by destruct (HP h). Qed.

Lemma triple_bind {A B} held P (m : M A) (k : A → M B) Q R :
  triple held P m Q → (∀ a, triple held (Q a) (k a) R) → triple held P (m ≫= k) R.
Proof.
  intros Hm Hk n h Hok HP. specialize (Hm n h Hok HP). unfold mbind, M_bind.
  destruct (m held (n, h)) as [[n1 h1] [a|x]]; destruct Hm as [Hg HQ]; [|by split].
  specialize (Hk a n1 h1 (grows_ok _ _ Hok Hg) HQ). destruct (k a held (n1, h1)) as [[n2 h2] o].
  destruct Hk as [Hg2 HR]. split; [by etrans|done].
Qed.

Lemma triple_weaken {A} held (P P' : assert) (m : M A) (Q Q' : A → assert) :
  triple held P' m Q' → (∀ h, hub_ok h → P h → P' h) → (∀ a h, hub_ok h → Q' a h → Q a h) → triple held P m Q.
Proof.
  intros Hm HP HQ n h Hok Hh. specialize (Hm n h Hok (HP _ Hok Hh)). destruct (m held (n, h)) as [[n' h'] o].
  destruct Hm as [Hg Ho]. split; [done|]. destruct o; [|done]. apply HQ; [by eapply grows_ok|done].
Qed.

Lemma triple_pre {A} held (P P' : assert) (m : M A) Q :
  (∀ h, hub_ok h → P h → P' h) → triple held P' m Q → triple held P m Q.
Proof. intros HP Hm. eapply triple_weaken; [apply Hm|done|done]. Qed.

(** What the assertion says whatever the tables are. *)
Lemma triple_learn {A} held (P : assert) (φ : Prop) (m : M A) Q :
  (∀ h, hub_ok h → P h → φ) → (φ → triple held P m Q) → triple held P m Q.
Proof. intros Hφ Hm n h Hok HP. by apply (Hm (Hφ h Hok HP)). Qed.

(** What is known stays known. *)
Lemma triple_frame {A} held P (m : M A) Q R : Mono R → triple held P m Q → triple held (λ h, P h ∧ R h) m (λ a h, Q a h ∧ R h).
Proof.
  intros HR Hm n h Hok [HP Hh]. specialize (Hm n h Hok HP). destruct (m held (n, h)) as [[n' h'] o].
  destruct Hm as [Hg Ho]. split; [done|]. destruct o; [|done]. split; [done|]. eapply HR; [by apply grows_ext|done].
Qed.

(** The rule for a program's next call: what is known is kept, and what the
    call tells is added. *)
Lemma triple_seq {A B} held (P P' : assert) (m : M A) (k : A → M B) Q R :
  Mono P → triple held P' m Q → (∀ h, hub_ok h → P h → P' h) → (∀ a, triple held (λ h, P h ∧ Q a h) (k a) R) →
  triple held P (m ≫= k) R.
Proof.
  intros HP Hm Himp Hk. eapply triple_bind; [|apply Hk].
  eapply triple_weaken; [apply (triple_frame held P' m Q P HP Hm)|naive_solver|naive_solver].
Qed.

Lemma triple_locked {A} held id P (m : M A) Q :
  triple (PipelineLock id :: held) P m Q → triple held P (locked (PipelineLock id) m) Q.
Proof. intros Hm n h Hok HP. unfold locked. destruct (decide _); [by split|]. by apply Hm. Qed.

Lemma triple_pumping {A} held `{!Unpumped held} x P (m : M A) Q :
  triple (RunnerLock x :: held) P m Q → triple held P (locked (RunnerLock x) m) Q.
Proof. intros Hm n h Hok HP. unfold locked. destruct (decide _) as [Hx|_]; [by destruct (unpumped x)|]. by apply Hm. Qed.

(** A lock that is held: the call waits for itself. *)
Lemma triple_stuck {A} held id P (m : M A) Q : PipelineLock id ∈ held → triple held P (locked (PipelineLock id) m) Q.
Proof. intros Hl n h Hok HP. unfold locked. destruct (decide _); [by split|done]. Qed.

Lemma triple_each {A} held (P : assert) (f : A → M unit) xs :
  Mono P → (∀ x, x ∈ xs → triple held P (f x) (λ _ _, True)) → triple held P (each f xs) (λ _ _, True).
Proof.
  intros HP. induction xs as [|x xs IH]; intros Hf; [by apply triple_ret|]. simpl.
  eapply triple_seq; [done|apply Hf; by left|done|]. intros ?. eapply triple_weaken; [apply IH|naive_solver|done].
  intros y Hy. apply Hf. by right.
Qed.

(** What a fallible call ends with; a refused status change tells of a run
    that is there. *)
Definition err_ok (e : StoreError) (h : Hub) : Prop := match e with BadTransition r => seen r h | _ => True end.
Definition res_post {A} (Q : A → assert) (r : Res A) (h : Hub) : Prop := match r with inl e => err_ok e h | inr a => Q a h end.

#[export] Instance mono_err e : Mono (err_ok e).
Proof. intros h h' He. destruct e; simpl; try done. by apply mono_seen. Qed.

#[export] Instance mono_res {A} (Q : A → assert) r : (∀ a, Mono (Q a)) → Mono (res_post Q r).
Proof. intros HQ. destruct r; simpl; [apply mono_err|apply HQ]. Qed.

Section Prims.
Context (env : Env) (Hpolite : polite env).

Lemma triple_prim {A} held (P : assert) (f : nat → Hub → Hub * A) Q :
  stable held P →
  (∀ n h, hub_ok h → P h → grows h (f n h).1 ∧ Q (f n h).2 (f n h).1) →
  triple held P (prim env f) Q.
Proof using Hpolite.
  intros HP Hf n h Hok Hh. unfold prim. pose proof (Hpolite held n h) as Ho.
  pose proof (HP _ _ Hok Ho Hh) as Hh1. apply others_grow in Ho as Hg.
  pose proof (grows_ok _ _ Hok Hg) as Hok1. destruct (Hf n _ Hok1 Hh1) as [Hg2 HQ].
  destruct (f n (e_other env held n h)) as [h' a]. simpl in *. split; [by etrans|done].
Qed.

Lemma triple_ask {A} held (P : assert) (f : nat → Hub → A) (Q : A → assert) :
  stable held P → (∀ n h, hub_ok h → P h → Q (f n h) h) → triple held P (ask env f) Q.
Proof using Hpolite. intros HP Hf. apply triple_prim; [done|]. intros n h Hok Hh. simpl. split; [done|by apply Hf]. Qed.

Lemma triple_act held (P : assert) a : Mono P → (∀ h, hub_ok h → P h → act_ok a h) →
  triple held P (act env a) (λ _ h, a ∈ h_log h).
Proof using Hpolite.
  intros HP Ha. apply triple_prim; [by apply mono_stable|]. intros n h Hok Hh. simpl. split.
  - eapply grows_one, write_log. by apply Ha.
  - apply elem_of_app. right. by apply list_elem_of_singleton.
Qed.

Lemma triple_sql {A} held (P : assert) (stmt : Hub → Hub * A) (Q : A → assert) :
  stable held P →
  (∀ h, hub_ok h → P h → grows h (stmt h).1 ∧ Q (stmt h).2 (stmt h).1) →
  triple held P (sql env stmt) (res_post Q).
Proof using Hpolite.
  intros HP Hs. apply triple_prim; [done|]. intros n h Hok Hh. destruct (e_fault env n); [by repeat split|].
  specialize (Hs h Hok Hh). destruct (stmt h) as [h' a]. done.
Qed.

Lemma triple_query {A} held (P : assert) (f : Hub → A) (Q : A → assert) :
  stable held P → (∀ h, hub_ok h → P h → Q (f h) h) →
  triple held P (query env f) (res_post Q).
Proof using Hpolite. intros HP Hf. apply triple_sql; [done|]. intros h Hok Hh. split; [done|by apply Hf]. Qed.

Lemma triple_stamp held : triple held (λ _, True) (stamp env) (λ _ _, True).
Proof using Hpolite.
  apply triple_prim; [by apply mono_stable; apply _|]. intros n h Hok _. simpl. split; [|done].
  eapply grows_one, write_last. destruct (h_last h <? _) eqn:E; [apply Z.ltb_lt in E; lia|]. unfold microsecond. lia.
Qed.

(** Error-passing. *)
Lemma triple_res {A B} held (P P' : assert) (m : M (Res A)) (k : A → M (Res B)) Q R :
  Mono P → triple held P' m (res_post Q) → (∀ h, hub_ok h → P h → P' h) →
  (∀ e h, P h → err_ok e h → R (inl e) h) → (∀ a, triple held (λ h, P h ∧ Q a h) (k a) R) → triple held P (bind_res m k) R.
Proof using.
  intros HP Hm Himp He Hk. unfold bind_res. eapply triple_seq; [done|done|done|]. intros [e|a]; [|apply Hk].
  apply triple_ret. intros h _ [??]. by apply He.
Qed.
End Prims.

(** A pipeline as some call read it, perhaps changed since by that call. *)
Definition pipe_known (p : PipeRow) (h : Hub) : Prop := ∃ q, q ∈ h_pipes h ∧ same_pipe p (shown q).

#[export] Instance mono_pipe_known p : Mono (pipe_known p).
Proof.
  intros h h' He (q & Hq & Hs). destruct (ext_pipes _ _ He _ Hq) as (q' & Hq' & Hid & Hn & _). exists q'. split; [done|].
  destruct Hs as [H1 H2]. destruct (shown_same q' q) as [H3 H4]; [done|]. split; congruence.
Qed.

Definition pipe_good (p : PipeRow) (h : Hub) : Prop :=
  pipe_known p h ∧ phase_ok p (pp_Phase p) h ∧ marks_ok p (pp_Guard p) (pp_Tries p) h.

#[export] Instance mono_pipe_good p : Mono (pipe_good p).
Proof. unfold pipe_good. apply _. Qed.

(** A pipeline that ended stays as it is. *)
Definition pipe_ended (id status : string) (h : Hub) : Prop :=
  status ≠ PipelineRunning ∧ ∃ q, q ∈ h_pipes h ∧ pp_ID q = id ∧ pp_Status q = status.

#[export] Instance mono_pipe_ended id status : Mono (pipe_ended id status).
Proof.
  intros h h' He [Hne (q & Hq & Hid & Hs)]. split; [done|]. destruct (ext_pipes _ _ He _ Hq) as (q' & Hq' & _ & _ & Hend).
  exists q. rewrite Hend in Hq' by congruence. done.
Qed.

(** The conditions of the statements, as propositions. *)
Ltac row_tests := unfold is_run, is_pipe, pipe_running, pending_seat in *; bool_to_prop.

(** Rows found. *)
Lemma find_id_some {A} (f : A → string) id (xs : list A) x :
  find (λ a, String.eqb (f a) id) xs = Some x → x ∈ xs ∧ f x = id.
Proof. intros H. apply find_some in H as [H1 H2]. apply String.eqb_eq in H2. by rewrite list_elem_of_In. Qed.

Lemma seen_row h r : r ∈ h_runs h → seen r h.
Proof. intros Hr. by exists r. Qed.

Lemma known_row h q : q ∈ h_pipes h → pipe_known (shown q) h.
Proof. intros Hq. by exists q. Qed.

Lemma same_id_eq {A B} (f : A → B) (xs : list A) x y : NoDup (f <$> xs) → x ∈ xs → y ∈ xs → f x = f y → x = y.
Proof.
  intros Hnd. induction xs as [|z xs IH]; intros Hx Hy Hf; [by apply elem_of_nil in Hx|].
  simpl in Hnd. apply NoDup_cons in Hnd as [Hz Hnd].
  apply elem_of_cons in Hx as [->|Hx]; apply elem_of_cons in Hy as [->|Hy]; [done| | |by apply IH].
  - exfalso. apply Hz. rewrite Hf. by apply list_elem_of_fmap_2.
  - exfalso. apply Hz. rewrite <- Hf. by apply list_elem_of_fmap_2.
Qed.

Lemma slice_stable_elem {A} (less : A → A → bool) xs x : x ∈ slice_stable less xs ↔ x ∈ xs.
Proof. by rewrite slice_stable_perm. Qed.

(** An operation's specification, found by the operation. *)
Class Spec {A} (held : list Lock) (m : M A) (P : assert) (Q : A → assert) : Prop := spec : triple held P m Q.

(** ** Tactics

    [next] takes the program's next call by its specification; [branch]
    splits on what it answered. *)
Ltac side := try done; try (intros; apply I); try (intros ? ? ?; done); try naive_solver.
Ltac next := eapply triple_seq; [apply _|apply spec|side|intros ?].
Ltac next_res := eapply triple_res; [apply _|apply spec|side|side|intros ?].
Ltac finish := apply triple_ret; side.

Section Specs.
Context (env : Env) (Hpolite : polite env).

(** A pipeline's row is the one a call knows by its id. *)
Lemma known_same h p q : hub_ok h → pipe_known p h → q ∈ h_pipes h → pp_ID q = pp_ID p → same_pipe p (shown q).
Proof.
  intros Hok (q0 & Hq0 & Hs) Hq Hid. assert (q0 = q) as ->; [|done].
  apply (same_id_eq pp_ID (h_pipes h)); [by apply (ok_pipes _ Hok)|done..|]. destruct Hs as [Hs _]. simpl in Hs. congruence.
Qed.

Lemma seen_job h r : hub_ok h → seen r h → job_ok (rw_job r) h.
Proof. intros Hok (r' & Hr' & _ & <- & _). by apply (ok_run _ Hok). Qed.

Lemma spec_sql_res {A} held (stmt : Hub → Hub * Res A) (Q : A → assert) P :
  stable held P → (∀ h, hub_ok h → P h → grows h (stmt h).1 ∧ res_post Q (stmt h).2 (stmt h).1) →
  triple held P (sql_res env stmt) (res_post Q).
Proof using Hpolite.
  intros HP Hs. unfold sql_res, bind_res. eapply triple_bind.
  - apply (triple_sql _ Hpolite _ _ _ (res_post Q) HP Hs).
  - intros [e|[e|a]]; by apply triple_ret.
Qed.

Lemma spec_sql_one held (stmt : Hub → Hub * nat) (Q : bool → assert) P :
  stable held P → (∀ h, hub_ok h → P h → grows h (stmt h).1 ∧ Q ((stmt h).2 =? 1)%nat (stmt h).1) →
  triple held P (sql_one env stmt) (res_post Q).
Proof using Hpolite.
  intros HP Hs. unfold sql_one, bind_res. eapply triple_bind.
  - apply (triple_sql _ Hpolite _ _ _ (λ n, Q (n =? 1)%nat) HP Hs).
  - intros [e|a]; by apply triple_ret.
Qed.

Lemma stable_true held : stable held (λ _, True).
Proof. by intros h h'. Qed.

#[export] Instance Get_spec held id : Spec held (Get env id) (λ _, True) (res_post (λ r h, seen r h ∧ rw_ID r = id)).
Proof using Hpolite.
  apply spec_sql_res; [apply stable_true|]. intros h Hok _. simpl. split; [done|].
  destruct (run_by_id id h) as [r|] eqn:E; [|done]. apply find_id_some in E as [Hr Hid]. split; [by apply seen_row|done].
Qed.

#[export] Instance stamp_spec held : Spec held (stamp env) (λ _, True) (λ _ _, True).
Proof using Hpolite. by apply triple_stamp. Qed.

#[export] Instance ask_spec {A} held (f : nat → Hub → A) : Spec held (ask env f) (λ _, True) (λ _ _, True).
Proof using Hpolite. by apply (triple_ask _ Hpolite _ _ _ _ (stable_true held)). Qed.

#[export] Instance query_spec {A} held (f : Hub → A) : Spec held (query env f) (λ _, True) (res_post (λ _ _, True)) | 10.
Proof using Hpolite. by apply (triple_query _ Hpolite _ _ _ (λ _ _, True) (stable_true held)). Qed.

(** The row a created run has. *)
Definition created (id : string) (w : New) (h : Hub) : Prop := ∃ r, r ∈ h_runs h ∧ rw_ID r = id ∧ rw_job r = stored w.

#[export] Instance mono_created id w : Mono (created id w).
Proof. intros h h' He (r & Hr & <- & Hj). destruct (ext_runs _ _ He _ Hr) as (r' & Hr' & Hid & _ & Hj' & _). exists r'. by rewrite Hj'. Qed.

#[export] Instance Create_spec held w :
  Spec held (Create env w) (job_ok w) (res_post (λ r h, seen r h ∧ rw_job r = stored w)).
Proof using Hpolite.
  unfold Spec, Create. destruct (negb (create_ok w)); [by apply triple_ret|].
  eapply triple_seq; [apply _|apply ask_spec|done|]. intros id.
  eapply triple_seq; [apply _|apply stamp_spec|done|]. intros now.
  eapply (triple_res _ _ (job_ok w) _ _ (λ _, created id w)); [apply _| |naive_solver|done|].
  - apply spec_sql_res; [apply mono_stable; apply _|]. intros h Hok Hj. unfold insert_run. simpl.
    destruct (run_by_id id h) eqn:E; [by split|]. simpl. split; [by eapply grows_one, write_run|].
    eexists. split; [apply elem_of_app; right; by apply list_elem_of_singleton|done].
  - intros []. eapply triple_weaken; [apply (triple_frame _ _ _ _ (created id w) _ (Get_spec held id))| |].
    + intros h Hok [_ Hc]. by split.
    + intros [e|r] h Hok [HQ Hc]; [apply HQ|]. destruct HQ as [Hs Hid]. split; [done|]. destruct Hc as (r' & Hr' & Hid' & Hj').
      destruct Hs as (r2 & Hr2 & Hid2 & Hj2 & _). assert (r2 = r') as ->; [|congruence].
      apply (same_id_eq rw_ID (h_runs h)); [by apply (ok_runs _ Hok)|done..|congruence].
Qed.

#[export] Instance ForRunner_spec held x statuses :
  Spec held (ForRunner env x statuses) (λ _, True) (res_post (λ rs h, ∀ r, r ∈ rs → seen r h ∧ rw_RunnerID r = x)).
Proof using Hpolite.
  unfold Spec, ForRunner. destruct statuses as [|s ss].
  - apply triple_ret. intros h _ _ r Hr. by apply elem_of_nil in Hr.
  - apply (triple_query _ Hpolite _ _ _ (λ rs h, ∀ r, r ∈ rs → seen r h ∧ rw_RunnerID r = x) (stable_true held)).
    intros h Hok _ r. unfold oldest_first. rewrite slice_stable_elem, elem_of_list_filter. intros [Hx Hr]. bool_to_prop. split; [by apply seen_row|done].
Qed.

Lemma move_grows h id from to now c :
  Legal from to = true → to ≠ RunOffered → grows h (move_stmt id from to now c h).1.
Proof.
  intros Hl Hto. eapply grows_one, (write_runs None id).
  - intros r Hw. row_tests. done.
  - intros r Hr Hw. row_tests. simplify_eq. by apply step_move.
Qed.

Lemma Transition_spec held id to c : to ≠ RunOffered → Spec held (Transition env id to c) (λ _, True) (res_post (λ r h, seen r h ∧ rw_ID r = id)).
Proof using Hpolite.
  intros Hto. unfold Spec, Transition, bind_res.
  eapply triple_res; [apply _|apply Get_spec|done|done|]. intros current.
  destruct (_ && _); [by apply triple_ret|]. destruct (Legal _ to) eqn:Hl; simpl; [|by apply triple_ret; naive_solver].
  eapply triple_seq; [apply _|apply stamp_spec|done|]. intros now.
  eapply triple_res; [apply _|apply (triple_sql _ Hpolite _ (λ _, True) _ (λ _ _, True)); [apply stable_true|]|done|done|].
  { intros h Hok _. split; [by apply move_grows|done]. }
  intros n. destruct (n =? 0)%nat.
  - eapply triple_res; [apply _|apply Get_spec|done|done|]. intros latest. apply triple_ret. naive_solver.
  - eapply triple_weaken; [apply Get_spec|done|done].
Qed.

#[export] Instance VerdictFor_spec held id : Spec held (VerdictFor env id) (λ _, True) (res_post (λ _ _, True)).
Proof using Hpolite. apply query_spec. Qed.

#[export] Instance reconcile_spec held r t : Spec held (reconcileVerdict env r t) (λ _, True) (λ _ _, True).
Proof using Hpolite. unfold Spec, reconcileVerdict. destruct (String.eqb _ _); [finish|]. next. finish. Qed.

#[export] Instance verdictRound_spec held r role : Spec held (verdictRound env r role) (λ _, True) (res_post (λ _ _, True)).
Proof using Hpolite.
  unfold Spec, verdictRound. destruct (String.eqb role _); [apply query_spec|]. destruct (String.eqb _ _); [finish|].
  next_res. next_res. finish.
Qed.

#[export] Instance submitVerdict_spec held r role o sv rs n src :
  Spec held (submitVerdict env r role o sv rs n src) (λ _, True) (res_post (λ _ _, True)).
Proof using Hpolite.
  unfold Spec, submitVerdict. next_res. destruct a as [round subject].
  eapply triple_weaken; [apply (triple_sql _ Hpolite _ (λ _, True) _ (λ _ _, True)); [apply stable_true|]|done|done].
  intros h Hok _. split; [|done]. eapply grows_one. apply write_verdicts.
Qed.

#[export] Instance synthesize_spec held r : Spec held (synthesizeVerdict env r) (λ _, True) (λ _ _, True).
Proof using Hpolite.
  unfold Spec, synthesizeVerdict. destruct (negb _); [finish|].
  assert (Hw : ∀ o sv rs role, triple held (λ _, True)
    (found ← VerdictFor env (rw_ID r);
     match found with
     | inr None => _ ← submitVerdict env r role o sv rs EmptyString VerdictSourceFinish; mret tt
     | _ => mret tt
     end) (λ _ _, True)).
  { intros o sv rs role. next. destruct a as [e|[v|]]; [finish|finish|]. next. finish. }
  cbv zeta. destruct (one_of _ [VerdictApprove; _]); [apply Hw|]. destruct (one_of _ _); [apply Hw|finish].
Qed.

#[export] Instance StoreFinish_spec held id x result :
  Spec held (StoreFinish env id x result) (λ _, True) (res_post (λ r h, seen r h ∧ rw_ID r = id)).
Proof using Hpolite.
  unfold Spec, StoreFinish. destruct (negb _) eqn:Hs; [finish|]. apply negb_false_iff in Hs. next.
  eapply (triple_seq _ _ (λ _, True) _ _ (λ _ _, True)); [apply _| |done|].
  { destruct a; [by finish|apply spec]. }
  intros verdict. eapply triple_res; [apply _|apply Transition_spec|done|done|].
  { intros E. change (rs_Status (ClampRoleFields result)) with (rs_Status result) in E. rewrite E in Hs. done. }
  intros r. next. apply triple_ret. intros h Hok ((_ & Hr) & _). done.
Qed.

#[export] Instance DueRetries_spec held now : Spec held (DueRetries env now) (λ _, True) (res_post (λ rs h, ∀ r, r ∈ rs → seen r h)).
Proof using Hpolite.
  apply (triple_query _ Hpolite _ _ _ (λ rs h, ∀ r, r ∈ rs → seen r h) (stable_true held)).
  intros h Hok _ r. rewrite slice_stable_elem, elem_of_list_filter. intros [_ Hr]. by apply seen_row.
Qed.

#[export] Instance ReleaseRetry_spec held id at_ : Spec held (ReleaseRetry env id at_) (λ _, True) (res_post (λ _ _, True)).
Proof using Hpolite.
  apply spec_sql_one; [apply stable_true|]. intros h Hok _. split; [|done].
  eapply grows_one, (write_runs None id).
  - intros r Hw. row_tests. done.
  - intros r Hr Hw. row_tests. by apply step_release.
Qed.

#[export] Instance SetChanges_spec held id x ch :
  Spec held (SetChanges env id x ch) (λ _, True) (res_post (λ a h, seen a.1 h)).
Proof using Hpolite.
  unfold Spec, SetChanges. destruct (negb _); [finish|]. next_res. destruct (negb _); [finish|]. next.
  destruct (negb _); [finish|].
  eapply triple_res; [apply _|apply (triple_sql _ Hpolite _ (λ _, True) _ (λ _ _, True)); [apply stable_true|]|done|done|].
  { intros h Hok _. split; [|done]. unfold changes_stmt. destruct (h_changes h !! id) eqn:E; [done|]. simpl.
    eapply rtc_l; [exists None; apply (write_changes (<[id:=kept_changes ch]> (h_changes h)))|].
    - intros k v Hk. rewrite lookup_insert_ne; [done|]. intros ->. congruence.
    - apply (grows_one None).
      apply (write_runs None id (is_run id) (set_commit (rc_Commit ch)) (set_changes (<[id:=kept_changes ch]> (h_changes h)) h)).
      + intros r Hw. row_tests. done.
      + intros r Hr Hw. apply step_commit. }
  intros [|]; [|finish]. next_res. finish.
Qed.

#[export] Instance Changes_spec held id : Spec held (Changes env id) (λ _, True) (res_post (λ _ _, True)).
Proof using Hpolite. apply query_spec. Qed.

#[export] Instance setPR_spec held id x pr :
  Spec held (setPR env id x pr) (λ _, True) (res_post (λ a h, seen a.1.1 h ∧ seen a.1.2 h)).
Proof using Hpolite.
  unfold Spec, setPR. destruct (negb _); [finish|]. next_res. destruct (negb _); [finish|]. cbv zeta.
  destruct (_ && _); [finish|].
  eapply triple_res; [apply _|apply (triple_sql _ Hpolite _ (λ _, True) _ (λ _ _, True)); [apply stable_true|]|done|done|].
  { intros h Hok _. split; [|done]. eapply grows_one, (write_runs None id).
    - intros r Hw. row_tests. done.
    - intros r Hr Hw. apply step_pull. }
  intros n. next_res. finish.
Qed.

#[export] Instance StoreNote_spec held id text : Spec held (StoreNote env id text) (λ _, True) (res_post (λ _ _, True)).
Proof using Hpolite.
  unfold Spec, StoreNote. next. eapply triple_weaken; [apply (spec_sql_res _ _ (λ _ _, True) _ (stable_true held))|done|done].
  intros h Hok _. unfold note_stmt. destruct (run_by_id id h); [|done]. destruct (_ || _); [done|].
  split; [|done]. simpl. eapply grows_one. by apply write_log.
Qed.

#[export] Instance roleHasRoom_spec held r : Spec held (roleHasRoom env r) (λ _, True) (res_post (λ _ _, True)).
Proof using Hpolite.
  unfold Spec, roleHasRoom. destruct (String.eqb _ _); [finish|]. unfold roleSetting.
  eapply triple_res; [apply _|apply query_spec|done|done|]. intros [s|]; [|finish]. destruct (_ <=? _); [finish|].
  eapply triple_res; [apply _|apply query_spec|done|done|]. intros n. finish.
Qed.

(** ** Pipelines and votes *)

Lemma count_one {A} (where_ : A → bool) xs : (length (List.filter where_ xs) =? 1)%nat = true → ∃ x, x ∈ xs ∧ where_ x = true.
Proof.
  destruct (List.filter where_ xs) as [|x ys] eqn:E; [done|]. intros _. exists x.
  assert (Hx : x ∈ List.filter where_ xs) by (rewrite E; by left). by apply elem_of_list_filter in Hx as [??].
Qed.

Lemma filter_perm {A} (f : A → bool) xs ys : xs ≡ₚ ys → length (List.filter f xs) = length (List.filter f ys).
Proof. induction 1 as [|x ? ? ? IH|x y l|]; simpl; [done| | |congruence]; repeat case_match; simpl; lia. Qed.

Lemma filter_filter {A} (f g : A → bool) xs : List.filter f (List.filter g xs) = List.filter (λ x, g x && f x) xs.
Proof. induction xs as [|x xs IH]; [done|]. simpl. destruct (g x); simpl; [destruct (f x)|]; by rewrite ?IH. Qed.

Lemma filter_sub {A} (f g : A → bool) xs : (∀ x, f x = true → g x = true) → (length (List.filter f xs) ≤ length (List.filter g xs))%nat.
Proof.
  intros Hs. induction xs as [|x xs IH]; [done|]. simpl. specialize (Hs x).
  destruct (f x); [rewrite Hs by done|destruct (g x)]; simpl; lia.
Qed.

#[export] Instance Votes_spec held id : Spec held (Votes env id) (λ _, True) (res_post (λ _ _, True)).
Proof using Hpolite. apply query_spec. Qed.

#[export] Instance RoundVotes_spec held id k :
  Spec held (RoundVotes env id k) (λ _, True)
    (res_post (λ vs h, Z.of_nat (ta_approvals (tally vs)) ≤ Z.of_nat (approvals id k h))).
Proof using Hpolite.
  unfold Spec, RoundVotes.
  eapply (triple_res _ _ (λ _, True) _ _
    (λ vs h, Z.of_nat (ta_approvals (tally (List.filter (λ v, vt_Round v =? k) vs))) ≤ Z.of_nat (approvals id k h)));
    [apply _| |done|done|intros all; apply triple_ret; by intros h _ [_ Ha]].
  apply (triple_query _ Hpolite _ (λ _, True)); [apply stable_true|].
  intros h Hok _. unfold approvals, tally, agent_votes, with_verdict. simpl. apply inj_le.
  rewrite !filter_filter. erewrite filter_perm by apply slice_stable_perm. rewrite filter_filter.
  apply filter_sub. intros v Hv. unfold approves. rewrite !andb_true_iff in Hv |- *. tauto.
Qed.

#[export] Instance GetPipeline_spec held id :
  Spec held (GetPipeline env id) (λ _, True) (res_post (λ p h, pipe_good p h ∧ pp_ID p = id)).
Proof using Hpolite.
  unfold Spec, GetPipeline.
  eapply (triple_res _ _ (λ _, True) _ _ (λ p h, pipe_good p h ∧ pp_ID p = id)); [apply _| |done|done|].
  { apply spec_sql_res; [apply stable_true|]. intros h Hok _. split; [done|]. simpl.
    destruct (pipe_by_id id h) as [q|] eqn:E; [|done]. apply find_id_some in E as [Hq Hid]. simpl.
    destruct (ok_pipe _ Hok q Hq) as (_ & _ & _ & Hp & Hg). split; [|done]. split; [by apply known_row|by split]. }
  intros p. next_res. eapply triple_res; [apply _|apply query_spec|done|done|]. intros _ids. finish.
Qed.

#[export] Instance PipelineRuns_spec held id :
  Spec held (PipelineRuns env id) (λ _, True) (res_post (λ rs h, ∀ r, r ∈ rs → seen r h ∧ rw_PipelineID r = id)).
Proof using Hpolite.
  unfold Spec, PipelineRuns. destruct (String.eqb _ _); [finish|].
  apply (triple_query _ Hpolite _ (λ _, True)); [apply stable_true|]. intros h Hok _ r. unfold oldest_first.
  rewrite slice_stable_elem, elem_of_list_filter. intros [Hx Hr]. apply String.eqb_eq in Hx. split; [by apply seen_row|done].
Qed.

(** A conditional update of a running pipeline. *)
Lemma pipes_spec held id (where_ : PipeRow → bool) f (P : assert) (Q : bool → assert) :
  Mono P → (∀ q, where_ q = true → is_pipe id q = true ∧ pipe_running q = true) →
  (∀ h q, hub_ok h → P h → q ∈ h_pipes h → where_ q = true → pipe_step h q (f q)) →
  (∀ h b, P h → (b = true → ∃ q, q ∈ h_pipes h ∧ where_ q = true) →
     Q b (update_pipes where_ f h).1) →
  triple held P (sql_one env (update_pipes where_ f)) (res_post Q).
Proof using Hpolite.
  intros HP Hw Hstep HQ. apply spec_sql_one; [by apply mono_stable|]. intros h Hok Hh. split.
  - eapply grows_one, (write_pipes id).
    + intros q Hq. destruct (Hw q Hq). row_tests. done.
    + intros q Hq Hwq. by apply Hstep.
  - simpl. apply HQ; [done|]. intros Hone. by apply count_one.
Qed.

#[export] Instance EndPipeline_spec held id status reason :
  Spec held (EndPipeline env id status reason)
    (λ h, status = PipelineApproved → ∃ p, pp_ID p = id ∧ pipe_known p h ∧ backed p h)
    (res_post (λ b h, b = true → pipe_ended id status h)).
Proof using Hpolite.
  unfold Spec, EndPipeline. destruct (negb _) eqn:E; [finish|]. apply negb_false_iff in E.
  apply pipes_spec with (id := id); [apply _|..].
  - intros q Hq. by apply andb_true_iff.
  - intros h q Hok HP Hq Hw. apply step_end; [done|]. intros Ha. destruct (HP Ha) as (p & Hid & Hk & Hb).
    rewrite <- (backed_same p); [done|]. eapply known_same; [done..|]. row_tests. congruence.
  - intros h b HP Hb Ht. destruct (Hb Ht) as (q & Hq & Hw). split; [intros ->; by vm_compute in E|].
    eexists. split; [apply elem_of_update; exists q; split; [done|by rewrite Hw]|]. simpl. row_tests. done.
Qed.

#[export] Instance ClaimPR_spec held id branch url : Spec held (ClaimPR env id branch url) (λ _, True) (res_post (λ _ _, True)).
Proof using Hpolite.
  unfold Spec, ClaimPR. destruct (String.eqb _ _); [finish|]. apply pipes_spec with (id := id); [apply _| | |done].
  - intros q Hq. rewrite !andb_true_iff in Hq. naive_solver.
  - intros. apply step_pr.
Qed.

#[export] Instance SetPipelinePR_spec held id branch url : Spec held (SetPipelinePR env id branch url) (λ _, True) (res_post (λ _ _, True)).
Proof using Hpolite.
  unfold Spec, SetPipelinePR. destruct (String.eqb _ _); [finish|]. apply pipes_spec with (id := id); [apply _| | |done].
  - intros q Hq. by apply andb_true_iff.
  - intros. apply step_pr.
Qed.

#[export] Instance NextRound_spec held p :
  Spec held (NextRound env (pp_ID p) (pp_Round p)) (λ h, pipe_known p h ∧ pp_Round p < pl_MaxRounds (pp_Pipeline p)) (res_post (λ _ _, True)).
Proof using Hpolite.
  unfold Spec, NextRound. apply pipes_spec with (id := pp_ID p); [apply _| | |done].
  - intros q Hq. rewrite !andb_true_iff in Hq. naive_solver.
  - intros h q Hok [Hk Hlt] Hq Hw. rewrite !andb_true_iff in Hw. destruct Hw as [[Hw1 Hw2] Hw3]. row_tests. apply Z.eqb_eq in Hw3.
    rewrite <- Hw3. apply step_round. rewrite Hw3.
    destruct (known_same h p q Hok Hk Hq Hw1) as [_ Hn]. unfold pp_Pipeline in *. by rewrite Hn in Hlt.
Qed.

#[export] Instance AwaitHuman_spec held id round : Spec held (AwaitHuman env id round) (λ _, True) (res_post (λ _ _, True)).
Proof using Hpolite.
  unfold Spec, AwaitHuman. apply pipes_spec with (id := id); [apply _| | |done].
  - intros q Hq. rewrite !andb_true_iff in Hq. naive_solver.
  - intros h q _ _ _ _. apply (step_await h q (pp_Reason q)).
Qed.

#[export] Instance AwaitHumanReason_spec held id round reason :
  Spec held (AwaitHumanReason env id round reason) (λ _, True) (res_post (λ _ _, True)).
Proof using Hpolite.
  unfold Spec, AwaitHumanReason. apply pipes_spec with (id := id); [apply _| | |done].
  - intros q Hq. rewrite !andb_true_iff in Hq. naive_solver.
  - intros. apply step_await.
Qed.

#[export] Instance SetStaged_spec held p phase files g t :
  Spec held (SetStaged env (pp_ID p) phase files g t) (λ h, pipe_known p h ∧ phase_ok p phase h ∧ marks_ok p g t h) (res_post (λ _ _, True)).
Proof using Hpolite.
  unfold Spec, SetStaged. apply pipes_spec with (id := pp_ID p); [apply _| | |done].
  - intros q Hq. by apply andb_true_iff.
  - intros h q Hok (Hk & Hp & Hg) Hq Hw. apply andb_true_iff in Hw as [Hw _]. row_tests.
    pose proof (known_same h p q Hok Hk Hq Hw) as Hs.
    apply step_stage; [by rewrite <- (phase_same p _ _ _ Hs)|by rewrite <- (marks_same p _ _ _ _ Hs)].
Qed.

(** The row a created pipeline has. *)
Definition pipe_created (id : string) (w : NewPipeline) (h : Hub) : Prop := ∃ q, q ∈ h_pipes h ∧ pp_ID q = id ∧ pp_new q = w.

#[export] Instance mono_pipe_created id w : Mono (pipe_created id w).
Proof using. intros h h' He (q & Hq & <- & <-). destruct (ext_pipes _ _ He _ Hq) as (q' & Hq' & Hid & Hn & _). by exists q'. Qed.

#[export] Instance CreatePipeline_spec held w :
  Spec held (CreatePipeline env w) (λ _, one_of (np_Phase w) [PhaseCI; PhaseReview] = false)
    (res_post (λ p h, pipe_created (pp_ID p) w h)).
Proof using Hpolite.
  unfold Spec, CreatePipeline. destruct (existsb _ _); [finish|]. destruct (negb _) eqn:E; [finish|]. apply negb_false_iff in E.
  eapply triple_seq; [apply _|apply ask_spec|done|]. intros id. next.
  eapply (triple_res _ _ (λ _, one_of (np_Phase w) [PhaseCI; PhaseReview] = false) _ _ (λ _, pipe_created id w)); [apply _| |naive_solver|done|].
  { apply spec_sql_res; [apply mono_stable; apply _|]. intros h Hok Hph. unfold insert_pipe. simpl.
    destruct (pipe_by_id id h) eqn:Ef; [done|]. split.
    - eapply grows_one, write_pipe; try done.
      unfold ValidatePipeline in E. rewrite !andb_true_iff in E. split; apply Z.leb_le; tauto.
    - eexists. split; [apply elem_of_app; right; by apply list_elem_of_singleton|done]. }
  intros _u. eapply triple_weaken; [apply (triple_frame _ _ _ _ (pipe_created id w) _ (GetPipeline_spec held id))| |].
  - intros h Hok [_ Hc]. by split.
  - intros [e|p] h Hok [HQ Hc]; [done|]. destruct HQ as [_ Hid]. simpl. by rewrite Hid.
Qed.

Lemma insert_vote_grows v h : grows h (insert_vote v h).1.
Proof. unfold insert_vote. destruct (existsb _ _) eqn:E; [done|]. eapply grows_one. by apply write_vote. Qed.

#[export] Instance StartVote_spec held id round i am run : Spec held (StartVote env id round i am run) (λ _, True) (res_post (λ _ _, True)).
Proof using Hpolite.
  apply spec_sql_res; [apply stable_true|]. intros h Hok _. split; [apply insert_vote_grows|].
  unfold insert_vote. by destruct (existsb _ _).
Qed.

#[export] Instance SettleVote_spec held run verdict :
  Spec held (SettleVote env run verdict) (λ _, True) (res_post (λ b h, SeatSettled run verdict b ∈ h_log h)).
Proof using Hpolite.
  unfold Spec, SettleVote. destruct (negb _); [finish|]. destruct (String.eqb _ _); [finish|].
  apply spec_sql_one; [apply stable_true|]. intros h Hok _. unfold settle_stmt. simpl. split.
  - eapply rtc_l; [exists None; apply (write_votes (pending_seat run) (set_verdict verdict) h)|].
    + intros v Hv Hw. row_tests. by apply step_settle.
    + eapply (grows_one None). by apply (write_log (SeatSettled run verdict _) (update_votes (pending_seat run) (set_verdict verdict) h).1).
  - apply elem_of_app. right. by apply list_elem_of_singleton.
Qed.

#[export] Instance MoveVote_spec held a b : Spec held (MoveVote env a b) (λ _, True) (res_post (λ _ _, True)).
Proof using Hpolite.
  unfold Spec, MoveVote. destruct (_ || _); [finish|].
  eapply triple_res; [apply _|apply (triple_sql _ Hpolite _ (λ _, True) _ (λ _ _, True)); [apply stable_true|]|done|done|intros n; finish].
  intros h Hok _. split; [|done]. eapply grows_one, write_votes. intros v Hv Hw. row_tests. by apply step_seat.
Qed.

#[export] Instance HumanVote_spec held id round actor name verdict comment :
  Spec held (HumanVote env id round actor name verdict comment) (λ _, True)
    (res_post (λ _ h, verdict = VerdictApprove → person_approved id h)).
Proof using Hpolite.
  unfold Spec, HumanVote. destruct (negb _); [finish|].
  apply spec_sql_res; [apply stable_true|]. intros h Hok _. cbv zeta. destruct (existsb _ _) eqn:E; [done|]. simpl. split.
  - eapply grows_one. by apply write_vote.
  - intros ->. eexists. split; [apply elem_of_app; right; by apply list_elem_of_singleton|done].
Qed.
End Specs.
