(* ===== verification/DispatchSpecs.v ===== *)
(** What the dispatcher's common part promises: an offer goes to the run's own
    runner and never to a run that waits; a pipeline is ended as approved only
    with what stands behind it.

    What a staged pipeline's steps promise: every write is one a call may make,
    so an approval has the pipeline's evidence behind it. *)

From stdpp Require Import pretty.
From S2P Require Import Prelude GoStr GoFloat GoTime Dsl Graph NodeTypes Workflow Roles State Readiness Globs Runs Hub RunStore PipeStore Dispatch Staged HubSpec StoreSpecs.
Open Scope Z_scope.

(** Where an assertion is a conjunction, and what is asked follows from one
    part of it. *)
Ltac from_known := intros h Hok HP; simpl in *; repeat match goal with H : _ ∧ _ |- _ => destruct H end; try done.
Ltac next_by tac := eapply triple_seq; [apply _|apply spec|tac|intros ?].
Ltac call := eapply triple_pre; [|apply spec].

Section Specs.
Context (env : Env) (Hpolite : polite env).

#[export] Instance act_spec held a : Spec held (act env a) (act_ok a) (λ _ h, a ∈ h_log h).
Proof using Hpolite. apply triple_act; [done|apply _|done]. Qed.

#[export] Instance notifyChanged_spec held r : Spec held (notifyChanged env r) (λ _, True) (λ _ _, True).
Proof using Hpolite. eapply triple_weaken; [apply act_spec|done|done]. Qed.

#[export] Instance notifyRun_spec held r : Spec held (notifyRun env r) (λ _, True) (λ _ _, True).
Proof using Hpolite. eapply triple_weaken; [apply act_spec|done|done]. Qed.

#[export] Instance finished_spec held r : Spec held (finished env r) (λ _, True) (λ _ _, True).
Proof using Hpolite. unfold Spec, finished. destruct (one_of _ _); [apply spec|finish]. Qed.

#[export] Instance note_spec held r text : Spec held (note env r text) (λ _, True) (λ _ _, True).
Proof using Hpolite. unfold Spec, note. next. finish. Qed.

Lemma recordEvidence_said held r kind outcome summary :
  triple held (seen r) (recordEvidence env r kind outcome summary) (λ _, recorded (rw_ID r) (rw_PipelineID r) kind outcome summary).
Proof using Hpolite.
  eapply triple_weaken; [apply act_spec| |by intros []].
  intros h Hok (r' & Hr' & Hid & Hj & _). exists r'. repeat split; try done. unfold of_pipe, rw_PipelineID. by rewrite Hj.
Qed.

#[export] Instance recordEvidence_spec held r kind outcome summary :
  Spec held (recordEvidence env r kind outcome summary) (seen r) (λ _ h, evidence (rw_PipelineID r) kind outcome h).
Proof using Hpolite. eapply triple_weaken; [apply recordEvidence_said|done|]. intros u h Hok Hin. exists (rw_ID r). eexists. exact Hin. Qed.

#[export] Instance pipelineChanged_spec held id : Spec held (pipelineChanged env id) (λ _, True) (λ _ _, True).
Proof using Hpolite.
  unfold Spec, pipelineChanged. next. destruct a as [e|p]; [finish|]. eapply triple_weaken; [apply act_spec|done|done].
Qed.

#[export] Instance reg_Get_spec held x : Spec held (reg_Get env x) (λ _, True) (λ _ _, True).
Proof using Hpolite. apply ask_spec. done. Qed.
#[export] Instance clockNow_spec held : Spec held (clockNow env) (λ _, True) (λ _ _, True).
Proof using Hpolite. apply ask_spec. done. Qed.

(** What the budget answers says nothing of runs. *)
Lemma budget_answer {A} held (f : nat → Hub → Res A) : Spec held (ask env f) (λ _, True) (λ _ _, True).
Proof using Hpolite. by apply ask_spec. Qed.
#[export] Instance BudgetStatus_spec held x : Spec held (BudgetStatus env x) (λ _, True) (λ _ _, True).
Proof using Hpolite. apply budget_answer. Qed.
#[export] Instance RoleBudgetStatus_spec held x role : Spec held (RoleBudgetStatus env x role) (λ _, True) (λ _ _, True).
Proof using Hpolite. apply budget_answer. Qed.

#[export] Instance send_spec held x message : Spec held (send env x message) (act_ok message) (λ _ _, True).
Proof using Hpolite.
  apply triple_prim; [done|apply mono_stable; apply _|]. intros n h Hok Ha. destruct (e_sent env n x); [|done]. simpl.
  split; [|done]. eapply grows_one. by apply write_log.
Qed.

#[export] Instance sendCancel_spec held r reason : Spec held (sendCancel env r reason) (seen r) (λ _ _, True).
Proof using Hpolite.
  unfold Spec, sendCancel. eapply triple_pre; [|apply send_spec]. intros h Hok (r' & Hr' & Hid & Hj & _). simpl. exists r'.
  repeat split; try done. unfold rw_RunnerID, rw_place. by rewrite Hj.
Qed.

(** ** Offers *)

Lemma mark_spec held r :
  rw_RetryAt r = EmptyString →
  Spec held (Transition env (rw_ID r) RunOffered no_change) (seen r) (res_post (λ o h, seen o h ∧ rw_ID o = rw_ID r)).
Proof using Hpolite.
  intros Hra. unfold Spec, Transition.
  eapply triple_res; [apply _|apply Get_spec; done|done|done|]. intros current.
  destruct (_ && _); [finish|]. destruct (Legal _ RunOffered) eqn:Hl; simpl; [|apply triple_ret; naive_solver].
  eapply triple_seq; [apply _|apply stamp_spec; done|done|]. intros now.
  assert (Hq : rw_Status current = RunQueued).
  { apply Legal_cases in Hl as [[? _]|[[_ Hl]|[_ Hl]]]; [done|by vm_compute in Hl..]. }
  rewrite Hq. eapply (triple_res _ _ (seen r) _ _ (λ _ _, True)); [apply _| |naive_solver|done|].
  { apply triple_sql; [done|apply mono_stable; apply _|]. intros h Hok Hs. split; [|done].
    eapply grows_one, (write_runs (Some (rw_RunnerID r)) (rw_ID r)).
    - intros r' Hw. row_tests. done.
    - intros r' Hr' Hw. row_tests. destruct Hs as (r2 & Hr2 & Hid2 & Hj2 & _ & Hra2).
      assert (r2 = r') as -> by (apply (same_id_eq rw_ID (h_runs h)); [by apply (ok_runs _ Hok)|done..|congruence]).
      assert (Hx : rw_RunnerID r = rw_RunnerID r') by (unfold rw_RunnerID, rw_place; congruence).
      rewrite Hx. apply step_offer; [done|by apply Hra2]. }
  intros n. destruct (n =? 0)%nat.
  - eapply triple_res; [apply _|apply Get_spec; done|done|done|]. intros latest. apply triple_ret. naive_solver.
  - call. done.
Qed.

#[export] Instance offer_spec held r : Spec held (offer env r) (λ h, seen r h ∧ rw_RetryAt r = EmptyString) (λ _ _, True).
Proof using Hpolite.
  unfold Spec. apply (triple_learn _ _ (rw_RetryAt r = EmptyString)); [naive_solver|]. intros Hra.
  apply (triple_pre _ _ (seen r)); [naive_solver|]. unfold offer.
  eapply triple_seq; [apply _|by apply mark_spec|done|]. intros [e|o]; [finish|]. next.
  eapply triple_seq; [apply _|apply spec| |].
  { from_known. destruct H as (r' & Hr' & Hid & Hj & _). exists r'. split; [done|]. split; [by rewrite Hid|].
    unfold rw_RunnerID, rw_place. by rewrite Hj. }
  intros [|]; [next; finish|]. eapply triple_seq; [apply _|by apply Transition_spec|done|]. intros back. next. finish.
Qed.

Lemma offer_queued_spec held room queued :
  triple held (λ h, ∀ r, r ∈ queued → seen r h) (offer_queued env room queued) (λ _ _, True).
Proof using Hpolite.
  revert room. induction queued as [|r queued IH]; intros room; simpl; [finish|].
  assert (Hrest : ∀ room (Q : assert), triple held (λ h, (∀ r0, r0 ∈ r :: queued → seen r0 h) ∧ Q h) (offer_queued env room queued) (λ _ _, True)).
  { intros k Q. eapply triple_pre; [|apply IH]. intros h Hok [Hs _] r0 Hr0. apply Hs. by right. }
  destruct (room <=? 0); [finish|]. destruct (String.eqb (rw_RetryAt r) EmptyString) eqn:E; simpl.
  2: { eapply triple_pre; [|apply (Hrest room (λ _, True))]. done. }
  apply String.eqb_eq in E. next. destruct a as [e|[|]]; [apply Hrest| |apply Hrest].
  eapply triple_seq; [apply _|apply spec| |].
  { intros h Hok [Hs _]. split; [apply Hs; by left|done]. }
  intros took. eapply triple_pre; [|apply (Hrest _ (λ _, True))]. naive_solver.
Qed.

#[export] Instance Pump_spec held `{!Unpumped held} x : Spec held (Pump env x) (λ _, True) (λ _ _, True).
Proof using Hpolite.
  unfold Spec, Pump. apply triple_pumping; [done|]. next. destruct (negb a); [finish|]. next. destruct a0 as [runner|]; [|finish].
  destruct (negb _); [finish|]. unfold Busy. next. destruct a0 as [e|n]; [finish|]. cbv zeta. destruct (_ <=? 0); [finish|].
  next. destruct a0 as [e|queued]; [finish|]. eapply triple_pre; [|apply offer_queued_spec].
  intros h Hok [_ Hq] r Hr. by apply Hq.
Qed.

#[export] Instance Submit_spec held `{!Unpumped held} r : Spec held (Submit env r) (λ _, True) (λ _ _, True).
Proof using Hpolite. unfold Spec, Submit. next. next. next. finish. Qed.

(** ** Ending a pipeline *)

#[export] Instance endPipeline_spec held p r status reason notified :
  Spec held (endPipeline env p r status reason notified)
    (λ h, status = PipelineApproved → pipe_known p h ∧ backed p h) (λ _ _, True).
Proof using Hpolite.
  unfold Spec, endPipeline.
  eapply triple_seq; [apply _|apply spec| |].
  { intros h Hok HP Ha. exists p. by destruct (HP Ha). }
  intros [e|[|]]; [finish| |finish]. next.
  eapply (triple_seq _ _ (λ h, (status = PipelineApproved → pipe_known p h) ∧ pipe_ended (pp_ID p) status h) _ _ (λ _ _, True)); [apply _| | |].
  - destruct (_ && _) eqn:E; [|finish]. apply andb_true_iff in E as [->%String.eqb_eq Hst].
    unfold stagedApproved. eapply triple_weaken; [apply act_spec| |done]. intros h Hok [Hk (_ & q & Hq & Hid & Hs)].
    destruct (known_same h p q Hok (Hk eq_refl) Hq Hid) as [Hid' Hn]. exists q. split; [done|]. split; [done|].
    rewrite (staged_same p (shown q)) in Hst by done. split; [done|]. by rewrite Hn.
  - intros h Hok [[HP He] _]. split; [naive_solver|by apply He].
  - intros ?. next. next. destruct (_ && _); [call; done|finish].
Qed.

(** Any end but approval. *)
Lemma endPipeline_other held p r status reason notified (P : assert) :
  status ≠ PipelineApproved → triple held P (endPipeline env p r status reason notified) (λ _ _, True).
Proof using Hpolite. intros Hs. call. naive_solver. Qed.

#[export] Instance awaitHuman_spec held p r : Spec held (awaitHuman env p r) (λ _, True) (λ _ _, True).
Proof using Hpolite.
  unfold Spec, awaitHuman. next. destruct a as [e|[|]]; [finish| |finish]. next. next. call. done.
Qed.

(** ** Follow-ups *)

(** A run of the same kind in the same pipeline may be made again. *)
Lemma job_again h r runner am chain handoff at_ waits :
  hub_ok h → seen r h → waits ≤ 3 → job_ok (again r runner am chain handoff at_ waits) h.
Proof using. intros Hok Hs Hw. split; [done|]. by apply (seen_job h r Hok Hs). Qed.

(** A pipeline's step: no review before its guard and CI, no judge but a
    story's. *)
Definition step_kind_ok (p : PipeRow) (kind : string) (h : Hub) : Prop :=
  (kind = JobReview → is_staged p = true → tested p h ∧ guarded p h ∧ ci_passed p h) ∧ (kind = JobJudge → is_story p = true).

#[export] Instance mono_step_kind p kind : Mono (step_kind_ok p kind).
Proof. unfold step_kind_ok. apply _. Qed.

Lemma job_step h p from runner am prompt kind branch url review fallbacks role roles :
  hub_ok h → pipe_known p h → step_kind_ok p kind h →
  job_ok (next_step p from runner am prompt kind branch url review fallbacks role roles) h.
Proof using.
  intros Hok (q & Hq & Hs) [Hr Hj]. split; [simpl; lia|]. intros _. exists q. split; [done|]. split; [by destruct Hs|]. simpl.
  rewrite <- (staged_same p _ Hs), <- (story_same p _ Hs), <- (tested_same p _ _ Hs), <- (guarded_same p _ _ Hs), <- (ci_same p _ _ Hs). done.
Qed.

(** What preparing a step tells: the run is there, and it is the pipeline's. *)
Definition prepared (p : PipeRow) (kind : string) (o : option Row) (h : Hub) : Prop :=
  match o with Some r => seen r h ∧ rw_PipelineID r = pp_ID p ∧ rw_Kind r = kind | None => True end.

#[export] Instance mono_prepared p kind o : Mono (prepared p kind o).
Proof. destruct o; simpl; unfold prepared; apply _. Qed.

#[export] Instance prepareStep_spec held p from kind am review notified :
  Spec held (prepareStep env p from kind am review notified) (λ h, pipe_known p h ∧ step_kind_ok p kind h) (prepared p kind).
Proof using Hpolite.
  unfold Spec, prepareStep. cbv zeta.
  assert (Hfail : ∀ reason (P : assert), Mono P → triple held P
    (_ ← endPipeline env p from PipelineFailed reason notified; mret None) (prepared p kind)).
  { intros reason P HP. eapply (triple_seq _ _ P); [done|by apply endPipeline_other|done|]. intros ?. by apply triple_ret. }
  next. destruct a as [runner|]; [|apply Hfail; apply _].
  destruct (ResolveAgentModel _ am) as [model|]; [|apply Hfail; apply _].
  next. destruct a as [e|exceeded]; [apply Hfail; apply _|]. destruct (negb _); [apply Hfail; apply _|].
  assert (Hcreate : ∀ role roles (P : assert), Mono P → (∀ h, P h → pipe_known p h ∧ step_kind_ok p kind h) → triple held P
    (next ← Create env (next_step p from runner (mkAgentModel (am_Agent am) model)
        (if String.eqb kind JobRevise then RevisePrompt (np_JobPrompt (pp_new p)) review else np_JobPrompt (pp_new p)) kind
        (pp_Branch p) (pp_PRURL p) review (if String.eqb kind JobRevise then np_Fallbacks (pp_new p) else []) role roles);
     match next with
     | inl e => _ ← endPipeline env p from PipelineFailed ("cannot start the next step: " +:+ e_error env e) notified; mret None
     | inr next => mret (Some next)
     end) (prepared p kind)).
  { intros role roles P HP Himp. eapply triple_seq; [done|apply spec| |].
    - intros h Hok HPh. destruct (Himp _ HPh). by apply job_step.
    - intros [e|nx]; [apply Hfail; apply _|]. apply triple_ret. intros h Hok [_ [Hs Hj]].
      split; [done|]. unfold rw_PipelineID, rw_Kind. by rewrite Hj. }
  destruct (pp_Config p) as [c|]; [|apply Hcreate; [apply _|naive_solver]].
  next. destruct a as [e|ex]; [apply Hcreate; [apply _|naive_solver]|].
  destruct (negb _); [apply Hfail; apply _|apply Hcreate; [apply _|naive_solver]].
Qed.

#[export] Instance step_spec held `{!Unpumped held} p from kind am review notified :
  Spec held (step env p from kind am review notified) (λ h, pipe_known p h ∧ step_kind_ok p kind h) (λ _ _, True).
Proof using Hpolite.
  unfold Spec, step. next_by done. destruct a as [nx|]; [|finish]. next. next. call. done.
Qed.

#[export] Instance retryReview_spec held `{!Unpumped held} r : Spec held (retryReview env r) (seen r) (λ _ _, True).
Proof using Hpolite.
  unfold Spec, retryReview. next. destruct a as [runner|]; [|finish]. next. destruct a as [e|ex]; [finish|].
  destruct (negb _); [finish|]. eapply triple_seq; [apply _|apply spec| |].
  { from_known. by apply job_again. }
  intros [e|nx]; [next; finish|]. next. next. next. finish.
Qed.

#[export] Instance review_text_spec held v : Spec held (review_text env v) (λ _, True) (λ _ _, True).
Proof using Hpolite. unfold Spec, review_text. destruct (String.eqb _ _); [finish|]. next. finish. Qed.

Lemma headed_reviews_spec held total i changes : Spec held (headed_reviews env total i changes) (λ _, True) (λ _ _, True).
Proof using Hpolite.
  unfold Spec. revert i. induction changes as [|v vs IH]; intros i; simpl; [finish|]. next.
  eapply triple_seq; [apply _|apply IH|done|]. intros rest. finish.
Qed.

#[export] Instance combinedReview_spec held changes : Spec held (combinedReview env changes) (λ _, True) (λ _ _, True).
Proof using Hpolite.
  unfold Spec, combinedReview. destruct changes as [|v [|w vs]]; try apply headed_reviews_spec.
  destruct (negb _); [apply spec|apply headed_reviews_spec].
Qed.
End Specs.

Lemma not_one_of s xs ys : s ∈ xs → forallb (λ x, negb (one_of x ys)) xs = true → one_of s ys = false.
Proof. intros Hs Ha. rewrite forallb_forall in Ha. apply negb_true_iff, Ha. by rewrite <- list_elem_of_In. Qed.

(** What a pipeline's record says of its guard and its green head. *)
Definition marked (p : PipeRow) : assert := marks_ok p (pp_Guard p) (pp_Tries p).

#[export] Instance mono_marked p : Mono (marked p).
Proof. unfold marked. apply _. Qed.

(** A pipeline and the run it moves on from. *)
Definition at_work (p : PipeRow) (r : Row) (h : Hub) : Prop := pipe_known p h ∧ marked p h ∧ seen r h.

#[export] Instance mono_at_work p r : Mono (at_work p r).
Proof. unfold at_work. apply _. Qed.

(** What saving a phase asks. *)
Lemma save_late p phase h : pipe_known p h → marked p h → tested p h → guarded p h →
  pipe_known p h ∧ phase_ok p phase h ∧ marked p h.
Proof. intros Hk Hg Ht Hgu. split; [assumption|]. split; [|assumption]. intros _ _. by split. Qed.

Lemma save_early p phase h : one_of phase [PhaseCI; PhaseReview] = false → pipe_known p h → marked p h →
  pipe_known p h ∧ phase_ok p phase h ∧ marked p h.
Proof. intros Hp Hk Hg. split; [assumption|]. split; [|assumption]. intros E. congruence. Qed.

(** The run [r] of the staged pipeline [p], whose lock is held. *)
Definition on_pipe (held : list Lock) (p : PipeRow) (r : Row) : Prop :=
  is_staged p = true ∧ rw_PipelineID r = pp_ID p ∧ PipelineLock (pp_ID p) ∈ held ∧ rw_PipelineID r ≠ EmptyString.

Section Specs.
Context (env : Env) (Hpolite : polite env) `{Unicode} (cancel : string → string → M (Res Row)).
Context (held : list Lock) `{!Unpumped held}.
Context (Hcancel : ∀ r reason, rw_PipelineID r ≠ EmptyString → PipelineLock (rw_PipelineID r) ∈ held →
  triple held (seen r) (cancel (rw_ID r) reason) (λ _ _, True)).

#[export] Instance saveStaged_spec p phase :
  Spec held (saveStaged env p phase) (λ h, pipe_known p h ∧ phase_ok p phase h ∧ marked p h) (λ _ _, True).
Proof using Hpolite Unpumped0. unfold Spec, saveStaged. next_by done. finish. Qed.

#[export] Instance stagedHuman_spec p r reason : Spec held (stagedHuman env p r reason) (λ _, True) (λ _ _, True).
Proof using Hpolite Unpumped0.
  unfold Spec, stagedHuman. next. destruct a as [e|[|]]; [finish| |finish]. next. next. next. call. done.
Qed.

#[export] Instance stagedRun_spec p from s notified :
  Spec held (stagedRun env p from s notified) (λ h, pipe_known p h ∧ step_kind_ok p (ss_kind s) h) (prepared p (ss_kind s)).
Proof using Hpolite Unpumped0.
  unfold Spec, stagedRun. cbv zeta.
  assert (Hfail : ∀ reason (P : assert), Mono P → triple held P
    (_ ← endPipeline env p from PipelineFailed reason notified; mret None) (prepared p (ss_kind s))).
  { intros reason P HP. eapply (triple_seq _ _ P); [done|by apply endPipeline_other|done|]. intros ?. by apply triple_ret. }
  next. destruct a as [runner|]; [|apply Hfail; apply _].
  assert (Hcreate : ∀ am prompt b u fb (P : assert), Mono P → (∀ h, P h → pipe_known p h ∧ step_kind_ok p (ss_kind s) h) → triple held P
      (next ← Create env (next_step p from runner am prompt (ss_kind s) b u (ss_review s) fb (ss_role s) (step_roles p s));
       match next with
       | inl e => _ ← endPipeline env p from PipelineFailed ("cannot start the next step: " +:+ e_error env e) notified; mret None
       | inr next => mret (Some next)
       end) (prepared p (ss_kind s))).
  { intros am prompt b u fb P HP Himp. eapply triple_seq; [done|apply spec| |].
    - intros h Hok HPh. destruct (Himp _ HPh). by apply job_step.
    - intros [e|nx]; [apply Hfail; apply _|]. apply triple_ret. intros h Hok [_ [Hs Hj]].
      split; [done|]. unfold rw_PipelineID, rw_Kind. by rewrite Hj. }
  destruct (String.eqb (ss_kind s) JobVerify); [apply Hcreate; [apply _|naive_solver]|].
  destruct (ResolveAgentModel _ _) as [model|]; [|apply Hfail; apply _].
  next. destruct a as [e|exceeded]; [apply Hfail; apply _|]. destruct (negb _); [apply Hfail; apply _|].
  destruct (String.eqb (ss_role s) _); [apply Hcreate; [apply _|naive_solver]|].
  next. destruct a as [e|ex]; [apply Hfail; apply _|].
  destruct (negb _); [apply Hfail; apply _|apply Hcreate; [apply _|naive_solver]].
Qed.

#[export] Instance stagedStepNow_spec p from s notified :
  Spec held (stagedStepNow env p from s notified)
    (λ h, pipe_known p h ∧ marked p h ∧ phase_ok p (ss_phase s) h ∧ step_kind_ok p (ss_kind s) h) (λ _ _, True).
Proof using Hpolite Unpumped0.
  unfold Spec, stagedStepNow. next_by ltac:(intros h Hok (?&?&?&?); split; [assumption|split; assumption]). destruct (negb a); [finish|].
  eapply triple_seq; [apply _|apply spec|intros h Hok [HP _]; split; [apply HP|apply HP]|]. intros [nx|]; [|finish].
  next. next. call. done.
Qed.

(** The steps that are neither a review nor a judge need no more. *)
Lemma plain_step p r s notified (P : assert) :
  ss_phase s ∈ [PhaseTest; PhaseVerifyRed; PhaseImplement; PhaseVerifyGreen] →
  ss_kind s ∈ [JobImplement; JobRevise; JobTest; JobVerify] →
  (∀ h, P h → at_work p r h) → triple held P (stagedStepNow env p r s notified) (λ _ _, True).
Proof using Hpolite Unpumped0.
  intros Hph Hk HP. call. intros h Hok Hh. destruct (HP h Hh) as (Hkn & Hg & Hs). split; [done|]. split; [done|].
  split; [intros Hp; by rewrite (not_one_of _ _ _ Hph) in Hp|].
  pose proof (not_one_of _ _ [JobReview; JobJudge] Hk eq_refl) as Hn. split; intros E; by rewrite E in Hn.
Qed.

Lemma executor_step p r review notified (P : assert) :
  (∀ h, P h → at_work p r h) → triple held P (stagedStepNow env p r (executorStep p review) notified) (λ _ _, True).
Proof using Hpolite Unpumped0. intros HP. unfold executorStep. destruct (is_story p); (apply plain_step; [apply one_of_cases; reflexivity..|done]). Qed.

Lemma verify_step p r phase verify head notified (P : assert) :
  phase = PhaseVerifyRed ∨ phase = PhaseVerifyGreen →
  (∀ h, P h → at_work p r h) → triple held P (stagedStepNow env p r (verifyStep phase verify head) notified) (λ _ _, True).
Proof using Hpolite Unpumped0. intros Hph HP. destruct Hph as [->| ->]; (apply plain_step; [by apply one_of_cases..|done]). Qed.

#[export] Instance stagedApprove_spec p r reason notified :
  Spec held (stagedApprove env p r reason notified)
    (λ h, pipe_known p h ∧ marked p h ∧ (pl_Human (pp_Pipeline p) = false → backed p h)) (λ _ _, True).
Proof using Hpolite Unpumped0.
  unfold Spec, stagedApprove. destruct (pl_Human (pp_Pipeline p)).
  - next_by ltac:(intros h Hok (?&?&?); by apply save_early). destruct a; [call; done|finish].
  - call. naive_solver.
Qed.

(** ** Reviews *)

#[export] Instance announce_spec p from started : Spec held (announce_reviews env p from started) (λ _, True) (λ _ _, True).
Proof using Hpolite Unpumped0.
  unfold Spec, announce_reviews. eapply (triple_seq _ _ (λ _, True) _ _ (λ _ _, True)); [apply _| |done|].
  - apply (triple_each _ (λ _, True)); [apply _|]. intros x Hx. next. next. finish.
  - intros ?. call. done.
Qed.

Lemma start_reviews_spec p from i reviewers started prepare (P : assert) :
  pp_ID p ≠ EmptyString → PipelineLock (pp_ID p) ∈ held →
  Mono P → (∀ am, triple held P (prepare am) (prepared p JobReview)) →
  triple held (λ h, P h ∧ ∀ x, x ∈ started → prepared p JobReview (Some x) h)
    (start_reviews env cancel prepare p from i reviewers started) (λ _ _, True).
Proof using Hpolite Hcancel Unpumped0.
  intros Hne Hl HP Hprep. revert i started. induction reviewers as [|am reviewers IH]; intros i started; simpl; [call; done|].
  eapply (triple_seq _ _ P); [unfold prepared; apply _|apply Hprep|by intros h _ [? _]|]. intros [nx|].
  - next. eapply triple_pre; [|apply IH]. intros h Hok [[[HPh Hs] Hnx] _]. split; [done|].
    intros x [Hx|Hx%list_elem_of_singleton]%elem_of_app; [by apply Hs|by subst].
  - unfold cancel_started. apply triple_each; [unfold prepared; apply _|]. intros x Hx.
    apply (triple_learn _ _ (rw_PipelineID x = pp_ID p)); [intros h Hok [[_ Hs] _]; by apply Hs|]. intros Hid.
    eapply triple_seq; [unfold prepared; apply _|apply (Hcancel x); by rewrite Hid|intros h Hok [[_ Hs] _]; by apply Hs|].
    intros ?. finish.
Qed.

#[export] Instance startStagedReviews_spec p from notified :
  pp_ID p ≠ EmptyString → PipelineLock (pp_ID p) ∈ held →
  Spec held (startStagedReviews env cancel p from notified) (λ h, pipe_known p h ∧ step_kind_ok p JobReview h) (λ _ _, True).
Proof using Hpolite Hcancel Unpumped0.
  intros Hne Hl. unfold Spec, startStagedReviews.
  eapply triple_pre; [|apply (start_reviews_spec p from 0 _ [] _ (λ h, pipe_known p h ∧ step_kind_ok p JobReview h)); [done|done|apply _|]].
  - intros h Hok HPh. split; [done|]. intros x Hx. by apply elem_of_nil in Hx.
  - intros am. call. done.
Qed.

#[export] Instance afterCI_spec p r lines notified :
  on_pipe held p r →
  Spec held (afterCI env cancel p r lines notified)
    (λ h, at_work p r h ∧ tested p h ∧ guarded p h ∧ ci_passed p h) (λ _ _, True).
Proof using Hpolite Hcancel Unpumped0.
  intros Hon. pose proof Hon as (Hst & Hid & Hl & Hne). unfold Spec, afterCI. cbv zeta.
  assert (Hback : ∀ h, tested p h ∧ guarded p h ∧ ci_passed p h → reviewed p h → pl_Human (pp_Pipeline p) = false → backed p h).
  { intros h (?&?&?) ? ?. right. right. split; [done|]. rewrite Hst. by right. }
  destruct (st_Reviewer (wf_Stages (workflowOf p))) eqn:Hrev; simpl.
  - destruct (_ && _).
    + eapply triple_seq; [apply _|apply spec|intros h Hok [(?&?&?) _]; done|]. intros ?. call.
      intros h Hok [[(?&?&?) Hrest] Hev]. split; [done|]. split; [done|]. apply Hback; [done|]. intros _. right. by rewrite <- Hid.
    + next_by ltac:(intros h Hok [(?&?&?) (?&?&?)]; by apply save_late).
      destruct a; [|finish]. eapply triple_pre; [|apply startStagedReviews_spec; [simpl; congruence|done]].
      intros h Hok [[(Hk&_) Hrest] _]. split; [exact Hk|]. split; [by intros _ _|done].
  - call. intros h Hok [(?&?&?) Hrest]. split; [done|]. split; [done|]. apply Hback; [done|]. intros Hr. unfold stages_of in Hr. congruence.
Qed.

(** ** Guard and CI *)

#[export] Instance add_changes_spec runs files lines : Spec held (add_changes env runs files lines) (λ _, True) (res_post (λ _ _, True)).
Proof using Hpolite Unpumped0.
  unfold Spec. revert files lines. induction runs as [|r runs IH]; intros files lines; simpl; [finish|].
  destruct (_ || _); [apply IH|]. next_res. destruct a as [ch|]; (eapply triple_pre; [|apply IH]; done).
Qed.

#[export] Instance executorChanges_spec p : Spec held (executorChanges env p) (λ _, True) (res_post (λ _ _, True)).
Proof using Hpolite Unpumped0. unfold Spec, executorChanges. next_res. call. done. Qed.

#[export] Instance ciDecided_spec p r notified :
  on_pipe held p r → one_of (pi_CI (rw_pull r)) [CISuccess; CIFailure] = true →
  tr_GreenHead (pp_Tries p) ≠ EmptyString → pi_HeadSHA (rw_pull r) = tr_GreenHead (pp_Tries p) →
  Spec held (ciDecided env cancel p r notified) (λ h, at_work p r h ∧ tested p h ∧ guarded p h) (λ _ _, True).
Proof using Hpolite Hcancel Unpumped0.
  intros Hon Hci Hgr Hhd. pose proof Hon as (Hst & Hid & Hl & Hne). unfold Spec, ciDecided. cbv zeta.
  eapply triple_seq; [apply _|by apply recordEvidence_said|intros h Hok [(?&?&?) _]; done|]. intros ?.
  destruct (String.eqb (pi_CI (rw_pull r)) CIFailure) eqn:E.
  - destruct (_ <=? _); [by apply endPipeline_other|]. apply executor_step. by intros h [[Hw _] _].
  - assert (Hs : pi_CI (rw_pull r) = CISuccess).
    { rewrite one_of_cases in Hci. apply String.eqb_neq in E. set_solver. }
    next. destruct a0 as [e|[files lines]]; [by apply endPipeline_other|].
    eapply triple_pre; [|by apply afterCI_spec]. intros h Hok [[[Hw [Ht Hg]] Hev] _].
    split; [done|]. split; [done|]. split; [done|].
    intros _. exists (tr_GreenHead (pp_Tries p)). split; [|split; [done|by apply Hw]].
    exists (rw_ID r). rewrite Hs, Hhd, Hid in Hev. exact Hev.
Qed.

Lemma guard_report_approved p files : gd_Approved (guard_report p files) = true → guard_approved p = true.
Proof.
  unfold guard_report, guard_approved. destruct (pp_Guard p) as [g|]; [|done]. simpl.
  destruct (gd_Approved g && _ && _) eqn:E; [|done]. rewrite !andb_true_iff in E. naive_solver.
Qed.

#[export] Instance guardStep_spec p r notified :
  on_pipe held p r →
  Spec held (guardStep env cancel p r notified) (λ h, at_work p r h ∧ tested p h) (λ _ _, True).
Proof using Hpolite Hcancel Unpumped0.
  intros Hon. pose proof Hon as (Hst & Hid & Hl & Hne). unfold Spec, guardStep. next. destruct a as [e|[files lines]]; [by apply endPipeline_other|]. cbv zeta.
  set (report := guard_report p files). set (p' := with_guard (Some report) p).
  assert (Hguard : ∀ h, marked p h → marked p' h).
  { intros h [Hg Ht]. split; [|exact Ht]. intros Ha. apply guard_report_approved in Ha. unfold guard_approved in Ha.
    unfold guard_ok in Hg. destruct (pp_Guard p); [|done]. by apply Hg. }
  set (P := λ h, at_work p' r h ∧ tested p' h ∧ evidence (pp_ID p') PhaseGuard (passFail (negb (Violation report))) h).
  assert (HP : Mono P) by apply _.
  eapply (triple_seq _ _ (seen r) _ _ (λ _, evidence (pp_ID p') PhaseGuard (passFail (negb (Violation report))))).
  { apply _. }
  { eapply triple_weaken; [apply recordEvidence_spec; done|done|]. intros ? h _. simpl. by rewrite Hid. }
  { intros h Hok [[(?&?&?) _] _]. done. }
  intros ?. apply (triple_pre _ _ P).
  { intros h Hok [[[(?&?&?) ?] _] ?]. split; [split; [done|split; [by apply Hguard|done]]|by split]. }
  destruct (Violation report && negb (gd_Approved report) && negb (st_Reviewer (wf_Stages (workflowOf p')))) eqn:E.
  { next_by ltac:(intros h Hok [(?&?&?) _]; by apply save_early). destruct a0; [|finish]. call. done. }
  assert (Hg : ∀ h, P h → guarded p' h).
  { intros h [(_&Hgo&_) [_ Hev]]. split; [by eexists|]. intros Hrev. unfold stages_of in Hrev. rewrite Hrev in E.
    destruct (Violation report); simpl in *; [|done]. destruct (gd_Approved report) eqn:Ha; [|done]. by apply (proj1 Hgo). }
  destruct (st_CI _) eqn:Hci.
  - next_by ltac:(intros h Hok HPh; pose proof (Hg h HPh); destruct HPh as [(?&?&?) [? _]]; by apply save_late).
    destruct (negb a0); [finish|]. next.
    destruct (match a1 with inr runs => _ | inl _ => None end) as [run|] eqn:Hrun; [|call; done].
    destruct a1 as [e|runs]; [done|]. unfold settled_ci in Hrun. apply find_some in Hrun as [Hin Hc]. apply in_rev in Hin.
    rewrite !andb_true_iff in Hc. destruct Hc as [[Hhd%String.eqb_eq Hgr%negb_true_iff%String.eqb_neq] Hc].
    apply (triple_learn _ _ (rw_PipelineID run = pp_ID p')).
    { intros h Hok [_ Hruns]. apply (Hruns run). by rewrite list_elem_of_In. }
    intros Hpid. eapply triple_pre; [|apply (ciDecided_spec (with_phase PhaseCI p') run notified); [|done..]].
    2: { split; [done|]. split; [done|]. split; [done|]. rewrite Hpid. simpl. by rewrite <- Hid. }
    intros h Hok [[HPh _] Hruns]. destruct (Hruns run) as [Hs _]; [by rewrite list_elem_of_In|].
    pose proof (Hg h HPh) as Hgu. destruct HPh as [(?&?&?) [? _]]. split; [by split|]. by split.
  - eapply triple_pre; [|by apply afterCI_spec]. intros h Hok HPh. pose proof (Hg h HPh). destruct HPh as [Hw [Ht _]].
    split; [done|]. split; [done|]. split; [done|]. intros Hc. unfold stages_of in Hc. congruence.
Qed.

(** ** The Tester and its tests *)

#[export] Instance testerRetry_spec p r review notified : Spec held (testerRetry env p r review notified) (at_work p r) (λ _ _, True).
Proof using Hpolite Unpumped0.
  unfold Spec, testerRetry. cbv zeta. destruct (_ <=? _).
  - next_by ltac:(intros h Hok (?&?&?); by apply save_early). destruct a; [call; done|finish].
  - apply plain_step; [by apply one_of_cases..|done].
Qed.

#[export] Instance testerChanges_spec p r notified : Spec held (testerChanges env p r notified) (at_work p r) (λ _ _, True).
Proof using Hpolite Unpumped0.
  unfold Spec, testerChanges. next. destruct a as [e|[ch|]]; [by apply endPipeline_other| |call; naive_solver].
  destruct (negb _); [call; naive_solver|]. destruct (NonTestFiles _ _); [|call; naive_solver].
  apply verify_step; [by left|]. by intros h [Hw _].
Qed.

#[export] Instance testerEnded_spec p r notified : Spec held (testerEnded env p r notified) (at_work p r) (λ _ _, True).
Proof using Hpolite Unpumped0.
  unfold Spec, testerEnded. cbv zeta. destruct (String.eqb (pi_URL _) _).
  - destruct (negb _); [by apply endPipeline_other|]. destruct (String.eqb _ _); [call; done|finish].
  - destruct (String.eqb _ _); [call; done|]. next. destruct a as [e|[|]]; [finish| |finish].
    eapply (triple_seq _ _ (λ _, True) _ _ (λ _ _, True)); [apply _|destruct (String.eqb _ _); [finish|apply spec]|done|].
    intros ?. call. by intros h Hok [[Hw _] _].
Qed.

Lemma green_seen h r res : seen r h → rw_Kind r = JobVerify → rw_Status r = RunSucceeded →
  pg_Verify (rw_prog r) = Some res → vr_NoCommand res = false → vr_ExitCode res = 0 → verify_phase r ≠ VerifyRed →
  green_run_at (rw_PipelineID r) (verify_head r res) h.
Proof.
  intros (r' & Hr' & Hid & Hj & Hf & _) Hk Hs Hv Hn Hx Hph. assert (Hp : rw_prog r' = rw_prog r) by (apply Hf; by rewrite Hs).
  exists r', res. unfold of_pipe, verify_phase, verify_head, rw_PipelineID, rw_Kind, rw_Status in *. by rewrite Hj, Hp.
Qed.

#[export] Instance verifyEnded_spec p r notified :
  on_pipe held p r → rw_Kind r = JobVerify → rw_Status r = RunSucceeded →
  Spec held (verifyEnded env cancel p r notified) (at_work p r) (λ _ _, True).
Proof using Hpolite Hcancel Unpumped0.
  intros Hon Hk Hs. pose proof Hon as (Hst & Hid & Hl & Hne). unfold Spec, verifyEnded.
  destruct (match jr_VerifySpec _ with Some _ => _ | None => _ end) as [phase head] eqn:Espec.
  assert (Hwhat : verify_phase r = phase ∧ ∀ res, verify_head r res = if String.eqb (vr_Head res) EmptyString then head else vr_Head res).
  { unfold verify_phase, verify_head. by destruct (jr_VerifySpec _); injection Espec as <- <-. }
  destruct Hwhat as [Hwhat Hhead].
  destruct (pg_Verify (rw_prog r)) as [res|] eqn:Hv; [|call; done]. cbv zeta.
  destruct (vr_NoCommand res) eqn:Hn.
  { next_by ltac:(intros h Hok (?&?&?); done). call. done. }
  next_by ltac:(intros h Hok (?&?&?); done).
  destruct (String.eqb phase VerifyRed) eqn:Hred.
  - destruct (_ =? 0); [call; naive_solver|]. apply executor_step. by intros h [Hw _].
  - destruct (_ =? 0) eqn:Hx; simpl.
    + apply Z.eqb_eq in Hx. apply String.eqb_neq in Hred. rewrite <- Hwhat in Hred. rewrite <- Hhead.
      eapply triple_pre; [|by apply guardStep_spec]. intros h Hok [(Hkn & [Hgu _] & Hse) _].
      assert (Hgreen : green_run_at (pp_ID p) (verify_head r res) h) by (rewrite <- Hid; by apply green_seen).
      split; [split; [done|split; [split; [exact Hgu|by intros _ _]|done]]|]. intros _. by eexists.
    + destruct (_ <=? _); [by apply endPipeline_other|]. apply executor_step. by intros h [Hw _].
Qed.

(** ** The Executor *)

#[export] Instance executorVerified_spec p r notified :
  on_pipe held p r →
  Spec held (executorVerified env cancel p r notified) (at_work p r) (λ _ _, True).
Proof using Hpolite Hcancel Unpumped0.
  intros Hon. pose proof Hon as (Hst & Hid & Hl & Hne). unfold Spec, executorVerified. cbv zeta. destruct (st_Tester (stages_of p)) eqn:Ht.
  - apply verify_step; [by right|done].
  - eapply triple_pre; [|by apply guardStep_spec]. intros h Hok (Hkn & [Hgu _] & Hse).
    split; [split; [done|split; [split; [exact Hgu|intros _ E]|done]]|intros E]; change (st_Tester (stages_of p) = true) in E; congruence.
Qed.

#[export] Instance executorEnded_spec p r notified :
  on_pipe held p r →
  Spec held (executorEnded env cancel p r notified) (at_work p r) (λ _ _, True).
Proof using Hpolite Hcancel Unpumped0.
  intros Hon. pose proof Hon as (Hst & Hid & Hl & Hne). unfold Spec, executorEnded. cbv zeta. destruct (is_story p) eqn:Hsto.
  { call. intros h Hok (Hk & Hg & _). split; [done|]. split; [done|]. split; [by intros E|]. split; [by intros E|done]. }
  destruct (_ && _); [by apply endPipeline_other|]. destruct (_ && _); [finish|].
  destruct (_ && _); [|by apply executorVerified_spec]. next. destruct a as [e|[|]]; [finish| |finish].
  eapply triple_pre; [|by apply executorVerified_spec]. by intros h Hok [Hw _].
Qed.

(** ** Votes and judges *)

(** What a review of a staged pipeline rests on. *)
Definition on_review (p : PipeRow) (r : Row) (h : Hub) : Prop :=
  at_work p r h ∧ tested p h ∧ guarded p h ∧ ci_passed p h.

#[export] Instance mono_on_review p r : Mono (on_review p r).
Proof using. unfold on_review. apply _. Qed.

Lemma needed_le p n :
  is_staged p = true →
  (if QuorumOf (pp_Pipeline p) =? 0
   then Z.of_nat (match length (ReviewersOf (pp_Pipeline p)) with O => 1%nat | n => n end) else QuorumOf (pp_Pipeline p)) ≤ n →
  needed p ≤ n.
Proof using. intros Hst. unfold needed. rewrite Hst. simpl. destruct (_ =? 0); [|done]. destruct (length _); lia. Qed.

#[export] Instance staged_tally_spec p r unacknowledged notified :
  on_pipe held p r →
  Spec held (staged_tally env p r unacknowledged notified) (on_review p r) (λ _ _, True).
Proof using Hpolite Unpumped0.
  intros Hon. pose proof Hon as (Hst & Hid & Hl & Hne). unfold Spec, staged_tally. next. destruct a as [e|votes]; [finish|]. cbv zeta. next.
  destruct (_ <? _)%nat; [finish|]. destruct (_ <=? Z.of_nat (ta_approvals _)) eqn:Hn.
  - apply Z.leb_le, needed_le in Hn; [|done].
    next_by ltac:(intros h Hok [[[(?&?&?) _] _] _]; done). call. intros h Hok [[[[(?&?&?) Hrest] Hv] _] _].
    split; [done|]. split; [done|]. intros Hhu. right. right. split; [done|]. rewrite Hst. right. destruct Hrest as (?&?&?).
    split; [done|]. split; [done|]. split; [done|]. intros _. left. exists (pp_Round p). unfold res_post in Hv. lia.
  - destruct (negb _); [by apply endPipeline_other|]. destruct (pl_MaxRounds _ <=? _) eqn:Hr; [by apply endPipeline_other|].
    apply Z.leb_gt in Hr. next_by ltac:(intros h Hok [[[(?&?&?) _] _] _]; done). destruct a0 as [e|[|]]; [finish| |finish].
    next. apply executor_step. by intros h [[[[[Hw _] _] _] _] _].
Qed.

#[export] Instance settle_staged_spec p r verdict unacknowledged notified :
  on_pipe held p r →
  Spec held (settle_staged env p r verdict unacknowledged notified) (on_review p r) (λ _ _, True).
Proof using Hpolite Unpumped0.
  intros Hon. pose proof Hon as (Hst & Hid & Hl & Hne). unfold Spec, settle_staged. next. destruct a as [e|[|]]; [finish| |finish].
  eapply triple_pre; [|by apply staged_tally_spec]. by intros h Hok [Hw _].
Qed.

#[export] Instance stagedReviewEnded_spec p r notified :
  on_pipe held p r →
  Spec held (stagedReviewEnded env p r notified) (on_review p r) (λ _ _, True).
Proof using Hpolite Unpumped0.
  intros Hon. pose proof Hon as (Hst & Hid & Hl & Hne). unfold Spec, stagedReviewEnded. cbv zeta. destruct (_ && _ && _); [|by apply settle_staged_spec].
  destruct (rw_GuardAck r).
  - next_by ltac:(intros h Hok [(?&?&?) _]; done).
    set (p' := with_guard _ p).
    apply (triple_pre _ _ (on_review p' r)).
    { intros h Hok [[(Hk&[_ Ht]&Hs) Hrest] Hev]. split; [|done]. split; [done|]. split; [|done]. split; [|exact Ht].
      simpl. unfold guard_ok. destruct (pp_Guard p); simpl; [|done]. intros _. by rewrite <- Hid. }
    next_by ltac:(intros h Hok [(?&?&?) (?&?&?)]; by apply (save_late p')). destruct a0; [|finish].
    eapply triple_pre; [|by apply settle_staged_spec]. by intros h Hok [Hw _].
  - next. eapply triple_pre; [|by apply settle_staged_spec]. by intros h Hok [Hw _].
Qed.

Lemma judged_seen h r : seen r h → rw_Kind r = JobJudge → rw_Status r = RunSucceeded →
  pg_Verdict (rw_prog r) = VerdictPass → failing_checks (pg_Checks (rw_prog r)) = [] → judged (rw_PipelineID r) h.
Proof using.
  intros (r' & Hr' & Hid & Hj & Hf & _) Hk Hs Hv Hc. assert (Hp : rw_prog r' = rw_prog r) by (apply Hf; by rewrite Hs).
  exists r'. unfold of_pipe, rw_PipelineID, rw_Kind, rw_Status in *. by rewrite Hj, Hp.
Qed.

#[export] Instance judgeEnded_spec p r notified :
  on_pipe held p r → is_story p = true → rw_Kind r = JobJudge → rw_Status r = RunSucceeded →
  Spec held (judgeEnded env p r notified) (at_work p r) (λ _ _, True).
Proof using Hpolite Unpumped0.
  intros Hon Hsto Hk Hs. pose proof Hon as (Hst & Hid & Hl & Hne). unfold Spec, judgeEnded. cbv zeta. destruct (_ && _) eqn:E.
  - apply andb_true_iff in E as [Hv%String.eqb_eq Hc]. destruct (failing_checks _) eqn:Hf; [|done].
    next_by ltac:(intros h Hok (?&?&?); done). call. intros h Hok [(?&?&?) _]. split; [done|]. split; [done|].
    intros Hhu. right. right. split; [done|]. rewrite Hst. left. split; [done|]. rewrite <- Hid. by apply judged_seen.
  - next_by ltac:(intros h Hok (?&?&?); done). destruct (_ <=? _); [by apply endPipeline_other|].
    apply executor_step. by intros h [Hw _].
Qed.

(** ** Moving on *)

Lemma its_job h p r :
  hub_ok h → pipe_known p h → seen r h → rw_PipelineID r = pp_ID p → rw_PipelineID r ≠ EmptyString → step_kind_ok p (rw_Kind r) h.
Proof using.
  intros Hok Hk Hs Hid Hne. destruct (seen_job h r Hok Hs) as [_ Hj]. destruct (Hj Hne) as (q & Hq & Hqid & Hrev & Hjud).
  assert (Hsame : same_pipe p (shown q)) by (eapply known_same; [done..|]; rewrite Hqid; exact Hid).
  unfold step_kind_ok. rewrite (staged_same p _ Hsame), (story_same p _ Hsame), (tested_same p _ h Hsame), (guarded_same p _ h Hsame),
    (ci_same p _ h Hsame). by split.
Qed.

#[export] Instance advanceStaged_spec p r notified :
  on_pipe held p r →
  Spec held (advanceStaged env cancel p r notified) (at_work p r) (λ _ _, True).
Proof using Hpolite Hcancel Unpumped0.
  intros Hon. pose proof Hon as (Hst & Hid & Hl & Hne). unfold Spec, advanceStaged. cbv zeta.
  assert (Hreview : ∀ P : assert, rw_Kind r = JobReview → (∀ h, P h → at_work p r h) →
    triple held P (stagedReviewEnded env p r notified) (λ _ _, True)).
  { intros P Hk HP. eapply triple_pre; [|by apply stagedReviewEnded_spec]. intros h Hok Hh. pose proof (HP h Hh) as Hw.
    split; [done|]. destruct Hw as (Hkn&_&Hs). by apply (its_job h p r Hok Hkn Hs Hid Hne). }
  destruct (String.eqb (pp_Status p) _); [finish|].
  destruct (String.eqb (rw_Kind r) JobReview && _) eqn:E.
  { apply andb_true_iff in E as [Hk%String.eqb_eq _].
    eapply (triple_seq _ _ (at_work p r) _ _ (λ _ _, True)); [apply _| |done|].
    - destruct (_ && _); [|finish]. call. by intros h Hok (_&_&Hs).
    - intros [|]; [finish|]. apply Hreview; [done|]. by intros h [Hw _]. }
  clear E. do 3 (destruct (String.eqb (rw_Status r) _); [by apply endPipeline_other|]).
  destruct (negb (String.eqb (rw_Status r) RunSucceeded)) eqn:Es; [finish|]. apply negb_false_iff, String.eqb_eq in Es.
  destruct (String.eqb (rw_Kind r) JobTest); [call; done|].
  destruct (String.eqb (rw_Kind r) JobVerify) eqn:Ev; [apply String.eqb_eq in Ev; by apply verifyEnded_spec|].
  destruct (one_of (rw_Kind r) _); [by apply executorEnded_spec|].
  destruct (String.eqb (rw_Kind r) JobReview) eqn:Er; [apply String.eqb_eq in Er; by apply Hreview|].
  destruct (String.eqb (rw_Kind r) JobJudge) eqn:Ej; [|finish]. apply String.eqb_eq in Ej.
  apply (triple_learn _ _ (is_story p = true)); [|intros Hsto; by apply judgeEnded_spec].
  intros h Hok (Hk&_&Hs). by apply (its_job h p r Hok Hk Hs Hid Hne).
Qed.
End Specs.
