(* ===== verification/CallSpecs.v ===== *)
(** What follows a run's end, and the dispatcher's calls: each writes only what
    a call may, from any tables in order.

    The hub's calls: what runners, people and the clock start.  Each keeps the
    tables in order and comes to an end.

    A runner's places: while its lock is held only the holder offers it runs,
    so Pump, when the statements and the sends succeed, never fills more places
    than it counted free. *)

From stdpp Require Import pretty.
From S2P Require Import Prelude GoStr GoFloat GoTime Dsl Graph NodeTypes Workflow Roles State Readiness Globs Runs Hub RunStore PipeStore Dispatch Staged Start Steps HubSpec StoreSpecs DispatchSpecs.
Open Scope Z_scope.

(** How a step within a run's end may cancel: runs of pipelines whose lock is
    held. *)
Definition cancels (held : list Lock) (cancel : string → string → M (Res Row)) : Prop :=
  ∀ r reason, rw_PipelineID r ≠ EmptyString → PipelineLock (rw_PipelineID r) ∈ held →
    triple held (seen r) (cancel (rw_ID r) reason) (λ _ _, True).

Section Specs.
Context (env : Env) (Hpolite : polite env) `{Unicode}.

#[export] Instance pipeline_runs_spec held r : Spec held (pipeline_runs env r) (λ _, True) (λ _ _, True).
Proof using Hpolite. unfold Spec, pipeline_runs. destruct (String.eqb _ _); [finish|]. next. finish. Qed.

(** ** Fallbacks and waits *)

Lemma fall_spec held `{!Unpumped held} r runner chain : triple held (seen r) (fall env r runner chain) (λ _ _, True).
Proof using Hpolite.
  induction chain as [|am chain IH]; simpl; [next; finish|]. destruct (ResolveAgentModel _ am) as [model|].
  - eapply triple_seq; [apply _|apply spec| |].
    { intros h Hok Hs. apply job_again; [done..|]. by apply (seen_job h r Hok Hs). }
    intros [e|nx]; [next; finish|].
    eapply (triple_seq _ _ (λ _, True) _ _ (λ _ _, True)); [apply _|destruct (String.eqb _ _); [next; finish|finish]|done|].
    intros ?. next. next. finish.
  - next. eapply triple_pre; [|apply IH]. naive_solver.
Qed.

#[export] Instance fallback_spec held `{!Unpumped held} r : Spec held (fallback env r) (seen r) (λ _ _, True).
Proof using Hpolite.
  unfold Spec, fallback. next. destruct (negb a); [finish|]. next. destruct a0 as [runner|]; [|next; finish].
  next. destruct a0 as [e|exceeded]; [finish|]. destruct (negb _); [next; finish|].
  eapply triple_pre; [|by apply fall_spec]. naive_solver.
Qed.

#[export] Instance waitForReset_spec held `{!Unpumped held} r : Spec held (waitForReset env r) (seen r) (λ _ _, True).
Proof using Hpolite.
  unfold Spec, waitForReset. destruct (_ || _); [finish|]. next. destruct (negb a); [finish|].
  destruct (MaxLimitWaits <=? _) eqn:Hw; [next; finish|]. apply Z.leb_gt in Hw. unfold MaxLimitWaits in Hw.
  next. destruct a0 as [runner|]; [|next; finish]. next. destruct a0 as [e|exceeded]; [finish|]. destruct (negb _); [next; finish|].
  next. cbv zeta. eapply triple_seq; [apply _|apply spec| |].
  { from_known. apply job_again; [done..|lia]. }
  intros [e|nx]; [next; finish|]. next. next. finish.
Qed.

(** ** Review rounds *)

Section Rounds.
Context (cancel : string → string → M (Res Row)) (held : list Lock) `{!Unpumped held} (Hcancel : cancels held cancel).

#[export] Instance startReviews_spec p from notified :
  is_staged p = false → pp_ID p ≠ EmptyString → PipelineLock (pp_ID p) ∈ held →
  Spec held (startReviews env cancel p from notified) (pipe_known p) (λ _ _, True).
Proof using Hpolite Hcancel Unpumped0.
  intros Hst Hne Hl. unfold Spec, startReviews.
  assert (Hr : ∀ rs, triple held (pipe_known p)
    (start_reviews env cancel (λ am, prepareStep env p from JobReview am EmptyString notified) p from 0 rs []) (λ _ _, True)).
  { intros rs. eapply triple_pre; [|apply (start_reviews_spec env Hpolite cancel held Hcancel p from 0 rs [] _ (pipe_known p)); [done|done|apply _|]].
    - intros h Hok HPh. split; [done|]. intros x Hx. by apply elem_of_nil in Hx.
    - intros am. call. intros h Hok Hk. split; [done|]. split; [intros _ E; congruence|done]. }
  destruct (ReviewersOf (pp_Pipeline p)) eqn:E; [|apply Hr]. destruct (pl_Human (pp_Pipeline p)) eqn:Hhu; [call; done|].
  call. intros h Hok Hk _. split; [done|]. right. right. split; [done|]. rewrite Hst. by left.
Qed.

(** A step is no review, and no judge. *)
Lemma revise_step p r am review notified (P : assert) :
  (∀ h, P h → pipe_known p h) → triple held P (step env p r JobRevise am review notified) (λ _ _, True).
Proof using Hpolite Unpumped0. intros HP. call. intros h Hok Hh. split; [by apply HP|]. by split. Qed.

Lemma legacy_spec p r notified (P : assert) :
  Mono P → is_staged p = false → rw_PipelineID r = pp_ID p → rw_Kind r = JobReview →
  (∀ h, P h → pipe_known p h ∧ seen r h) →
  (∀ h, P h → rw_Status r = RunSucceeded → pg_Verdict (rw_prog r) = VerdictApprove → SeatSettled (rw_ID r) VerdictApprove false ∈ h_log h) →
  triple held P (legacyReviewEnded env p r notified) (λ _ _, True).
Proof using Hpolite Unpumped0.
  intros HP Hst Hid Hk Hkn Hlog. unfold legacyReviewEnded. cbv zeta.
  destruct (negb _) eqn:Es; [by apply endPipeline_other|]. apply negb_false_iff, String.eqb_eq in Es.
  destruct (String.eqb _ VerdictApprove) eqn:Ev.
  { apply String.eqb_eq in Ev. call. intros h Hok Hh _. destruct (Hkn h Hh) as [? (r' & Hr' & Hid' & Hj & Hf & _)]. split; [done|].
    right. left. split; [done|]. assert (Hp : rw_prog r' = rw_prog r) by (apply Hf; by rewrite Es).
    exists r'. unfold of_pipe, rw_PipelineID, rw_Kind, rw_Status in *. rewrite Hj, Hp, Hid'. repeat split; try done. by apply Hlog. }
  destruct (String.eqb _ VerdictChanges); [|by apply endPipeline_other].
  destruct (pl_MaxRounds _ <=? _) eqn:Hr; [by apply endPipeline_other|]. apply Z.leb_gt in Hr.
  next_by ltac:(intros h Hok Hh; split; [by apply Hkn|done]). destruct a as [e|[|]]; [finish| |finish].
  apply revise_step. intros h [Hh _]. by apply (Hkn h Hh).
Qed.

#[export] Instance count_round_spec p r notified :
  is_staged p = false → Spec held (count_round env p r notified) (pipe_known p) (λ _ _, True).
Proof using Hpolite Unpumped0.
  intros Hst. unfold Spec, count_round. next. destruct a as [e|votes]; [finish|]. cbv zeta. next. destruct (_ <? _)%nat; [finish|].
  destruct (QuorumOf _ <=? _) eqn:Hq.
  { apply Z.leb_le in Hq. destruct (pl_Human _) eqn:Hhu; [call; done|]. call. intros h Hok [[Hk Hv] _] _. split; [done|].
    right. right. split; [done|]. rewrite Hst. right. exists (pp_Round p). unfold needed. rewrite Hst. simpl. unfold res_post in Hv. lia. }
  destruct (negb _); [by apply endPipeline_other|]. destruct (pl_MaxRounds _ <=? _) eqn:Hr; [by apply endPipeline_other|].
  apply Z.leb_gt in Hr. next_by ltac:(intros h Hok [[Hk _] _]; done). destruct a0 as [e|[|]]; [finish| |finish].
  next. apply revise_step. by intros h [[[[Hk _] _] _] _].
Qed.

#[export] Instance reviewEnded_spec p r notified :
  is_staged p = false → rw_PipelineID r = pp_ID p → rw_Kind r = JobReview →
  Spec held (reviewEnded env p r notified) (λ h, pipe_known p h ∧ seen r h) (λ _ _, True).
Proof using Hpolite Unpumped0.
  intros Hst Hid Hk. unfold Spec, reviewEnded. cbv zeta. next. destruct a as [e|[|]]; [finish| |].
  - eapply triple_pre; [|by apply count_round_spec]. by intros h Hok [[? _] _].
  - apply legacy_spec; try done; [apply _|by intros h [? _]|]. intros h [_ Hlog] Hs Hv. unfold res_post in Hlog.
    by rewrite Hs, Hv in Hlog.
Qed.

(** A pipeline moves on. *)
#[export] Instance advance_spec r notified :
  rw_PipelineID r ≠ EmptyString → PipelineLock (rw_PipelineID r) ∈ held →
  Spec held (advance env cancel r notified) (seen r) (λ _ _, True).
Proof using Hpolite Hcancel Unpumped0.
  intros Hne Hl. unfold Spec, advance. cbv zeta. next. destruct a as [e|p]; [finish|].
  destruct (negb (String.eqb (pp_Status p) _)); [finish|].
  apply (triple_learn _ _ (rw_PipelineID r = pp_ID p)); [naive_solver|]. intros Hid.
  apply (triple_pre _ _ (λ h, pipe_good p h ∧ seen r h)); [naive_solver|].
  destruct (is_staged p) eqn:Hst.
  { eapply triple_pre; [|apply (advanceStaged_spec env Hpolite cancel held Hcancel p r notified)].
    - intros h Hok [(?&?&?) ?]. by split.
    - split; [done|]. split; [done|]. by rewrite <- Hid. }
  destruct (String.eqb (rw_Kind r) JobReview && _) eqn:E.
  { apply andb_true_iff in E as [Hk%String.eqb_eq _].
    eapply (triple_seq _ _ (λ h, pipe_good p h ∧ seen r h) _ _ (λ _ _, True)); [apply _| |done|].
    - destruct (_ && _); [|finish]. call. by intros h Hok [_ Hs].
    - intros [|]; [finish|]. eapply triple_pre; [|by apply reviewEnded_spec]. by intros h Hok [[(?&_) ?] _]. }
  clear E. do 3 (destruct (String.eqb (rw_Status r) _); [by apply endPipeline_other|]).
  destruct (negb (String.eqb (rw_Status r) RunSucceeded)); [finish|].
  rewrite Hid in Hne, Hl.
  destruct (String.eqb (rw_Kind r) JobImplement).
  { destruct (negb (String.eqb (pi_URL _) _)).
    - next. destruct a as [e|[|]]; [finish| |finish]. eapply triple_pre; [|by apply startReviews_spec]. by intros h Hok [[(?&_) _] _].
    - destruct (negb _); [by apply endPipeline_other|]. destruct (String.eqb _ _); [by apply endPipeline_other|finish]. }
  destruct (String.eqb (rw_Kind r) JobRevise).
  { eapply triple_pre; [|by apply startReviews_spec]. by intros h Hok [(?&_) _]. }
  destruct (String.eqb (rw_Kind r) JobReview) eqn:Er; [|finish]. apply String.eqb_eq in Er.
  eapply triple_pre; [|by apply reviewEnded_spec]. by intros h Hok [(?&_) ?].
Qed.
End Rounds.

(** ** A run's end *)

(** What is known of a run before it is read: what its job is, or nothing that
    matters. *)
Definition job_known (id : string) (R : New → Prop) (h : Hub) : Prop :=
  (∀ w, R w) ∨ ∃ r, seen r h ∧ rw_ID r = id ∧ R (rw_job r).

#[export] Instance mono_job_known id R : Mono (job_known id R).
Proof using. unfold job_known. apply _. Qed.

Lemma job_known_seen h id R r : hub_ok h → job_known id R h → seen r h → rw_ID r = id → R (rw_job r).
Proof using.
  intros Hok [HR|(r0 & Hs0 & Hid0 & HR)] Hs Hid; [apply HR|].
  destruct Hs0 as (a & Ha & Hida & Hja & _), Hs as (b & Hb & Hidb & Hjb & _). rewrite <- Hjb.
  assert (a = b) as ->; [|by rewrite Hjb, <- Hjb, Hja].
  apply (same_id_eq rw_ID (h_runs h)); [by apply (ok_runs _ Hok)|done..|congruence].
Qed.

Lemma cancel_attempts_spec held `{!Unpumped held} (after : Row → bool → M unit) (R : New → Prop) attempts id reason :
  (∀ r b, R (rw_job r) → triple held (seen r) (after r b) (λ _ _, True)) →
  triple held (job_known id R) (cancel_attempts env after attempts id reason) (λ _ _, True).
Proof using Hpolite.
  intros Hafter. induction attempts as [|attempts IH]; simpl.
  { unfold bind_res. next. destruct a; finish. }
  eapply triple_seq; [apply _|apply spec|done|]. intros [e|r]; [finish|].
  destruct (RunFinal _); [finish|].
  assert (Hend : ∀ next b (P : assert), Mono P → (∀ h, P h → job_known id R h ∧ seen next h ∧ rw_ID next = id) →
    triple held P (after next b) (λ _ _, True)).
  { intros nx b P HP Hk. apply (triple_learn _ _ (R (rw_job nx))).
    - intros h Hok Hh. destruct (Hk h Hh) as (?&?&?). by eapply job_known_seen.
    - intros HR. eapply triple_pre; [|by apply Hafter]. intros h Hok Hh. by apply (Hk h Hh). }
  assert (Hagain : ∀ (Q : assert), triple held (λ h, job_known id R h ∧ Q h) (cancel_attempts env after attempts id reason) (λ _ _, True)).
  { intros Q. eapply triple_pre; [|apply IH]. naive_solver. }
  destruct (String.eqb _ RunRunning).
  - eapply triple_seq; [apply _|apply spec|naive_solver|]. intros [|]; [finish|].
    eapply triple_seq; [apply _|by apply Transition_spec|done|]. intros [[]|nx]; try finish.
    + eapply triple_pre; [|apply (Hagain (λ _, True))]. naive_solver.
    + next. eapply triple_seq; [apply _|apply (Hend nx false (λ h, job_known id R h ∧ seen nx h ∧ rw_ID nx = id)); [apply _|done]|naive_solver|].
      intros ?. finish.
  - eapply triple_seq; [apply _|by apply Transition_spec|done|]. intros [[]|nx]; try finish.
    + eapply triple_pre; [|apply (Hagain (λ _, True))]. naive_solver.
    + eapply (triple_seq _ _ (seen r) _ _ (λ _ _, True)); [apply _| |naive_solver|].
      { destruct (String.eqb _ _); [|finish]. next_by done. finish. }
      intros ?. next. eapply triple_seq; [apply _|apply (Hend nx false (λ h, job_known id R h ∧ seen nx h ∧ rw_ID nx = id)); [apply _|done]|naive_solver|].
      intros ?. next. finish.
Qed.

(** Within the end of a run of the pipeline, a further end waits for the lock
    that is held: for ever. *)
Lemma afterEnd_inside held fuel r notified (P : assert) :
  rw_PipelineID r ≠ EmptyString → PipelineLock (rw_PipelineID r) ∈ held → triple held P (afterEnd env (S fuel) r notified) (λ _ _, True).
Proof using.
  intros Hne Hl. simpl. destruct (negb _); [finish|]. unfold in_pipeline. apply String.eqb_neq in Hne. rewrite Hne.
  by apply triple_stuck.
Qed.

Lemma cancels_inside held `{!Unpumped held} fuel : cancels held (cancel_attempts env (afterEnd env (S fuel)) 4).
Proof using Hpolite.
  intros r reason Hne Hl.
  eapply triple_pre; [|apply (cancel_attempts_spec held _ (λ w, nw_PipelineID w ≠ EmptyString ∧ PipelineLock (nw_PipelineID w) ∈ held))].
  - intros h Hok Hs. right. exists r. done.
  - intros r' b [Hne' Hl']. by apply afterEnd_inside.
Qed.

#[export] Instance afterEnd_spec held `{!Unpumped held} fuel r notified :
  Spec held (afterEnd env (S (S fuel)) r notified) (seen r) (λ _ _, True).
Proof using Hpolite.
  unfold Spec. cbn [afterEnd]. fold (afterEnd env (S fuel)). destruct (negb _); [finish|].
  assert (Hmain : ∀ held', Unpumped held' → (rw_PipelineID r ≠ EmptyString → PipelineLock (rw_PipelineID r) ∈ held') → triple held' (seen r)
    (fell ← (if String.eqb (rw_Status r) RunFailed && FallbackWorthy (pg_FailureKind (rw_prog r)) && nonempty (nw_Fallbacks (rw_job r))
             then fallback env r else mret false);
     if fell : bool then mret tt
     else
       waits ← waitForReset env r;
       if waits : bool then mret tt
       else if String.eqb (rw_PipelineID r) EmptyString then mret tt
       else advance env (cancel_attempts env (afterEnd env (S fuel)) 4) r notified) (λ _ _, True)).
  { intros held' Hu Hl. eapply (triple_seq _ _ (seen r) _ _ (λ _ _, True)); [apply _|destruct (_ && _); [apply spec|finish]|done|].
    intros [|]; [finish|]. next. destruct a; [finish|]. destruct (String.eqb _ _) eqn:E; [finish|]. apply String.eqb_neq in E.
    eapply triple_pre; [|apply (advance_spec _ held' (cancels_inside held' fuel)); [done|by apply Hl]]. naive_solver. }
  unfold in_pipeline. destruct (String.eqb (rw_PipelineID r) EmptyString) eqn:E.
  - apply Hmain; [done|]. by apply String.eqb_eq in E.
  - apply triple_locked. apply Hmain; [apply _|]. intros _. by left.
Qed.
End Specs.

Section Specs.
Context (env : Env) (Hpolite : polite env) `{Unicode}.

#[export] Instance after_end_spec held `{!Unpumped held} r notified : Spec held (after_end env r notified) (seen r) (λ _ _, True).
Proof using Hpolite. by apply afterEnd_spec. Qed.

#[export] Instance Cancel_spec held `{!Unpumped held} id reason : Spec held (Cancel env id reason) (λ _, True) (λ _ _, True).
Proof using Hpolite.
  eapply triple_pre; [|by apply (cancel_attempts_spec env Hpolite held _ (λ _, True)); intros; apply spec].
  intros h _ _. by left.
Qed.

Lemma inside held `{!Unpumped held} : cancels held (cancel_inside env).
Proof using Hpolite. by apply cancels_inside. Qed.

#[export] Instance ciReported_spec held `{!Unpumped held} r : Spec held (ciReported env (cancel_inside env) r) (seen r) (λ _ _, True).
Proof using Hpolite.
  unfold Spec, ciReported. destruct (_ || _) eqn:E; [finish|].
  rewrite orb_false_iff, negb_false_iff, String.eqb_neq in E. destruct E as [Hne E].
  apply triple_locked. next. destruct a as [e|p]; [finish|]. destruct (_ || _) eqn:E2; [finish|].
  rewrite !orb_false_iff, !negb_false_iff in E2. destruct E2 as [[Hst _] Hph%String.eqb_eq].
  destruct (_ || _) eqn:E3; [finish|]. rewrite orb_false_iff, negb_false_iff, String.eqb_neq, String.eqb_eq in E3. destruct E3 as [Hgr Hhd].
  apply (triple_learn _ _ (rw_PipelineID r = pp_ID p)); [naive_solver|]. intros Hid.
  eapply triple_pre; [|apply (ciDecided_spec env Hpolite _ _ (inside _)); [|done..]].
  - intros h Hok [Hs [(Hk & Hp & Hg) _]]. split; [by split|]. apply Hp; [by rewrite Hph|done].
  - split; [done|]. split; [done|]. split; [rewrite Hid; by left|done].
Qed.

#[export] Instance prReported_spec held `{!Unpumped held} r : Spec held (prReported env r) (seen r) (λ _ _, True).
Proof using Hpolite.
  unfold Spec, prReported. destruct (_ || _) eqn:E; [finish|]. apply orb_false_iff in E as [Hne%String.eqb_neq _].
  destruct (negb _); [finish|]. apply triple_locked.
  assert (Hadv : triple (PipelineLock (rw_PipelineID r) :: held) (seen r) (advance env (cancel_inside env) r false) (λ _ _, True)).
  { apply (advance_spec env Hpolite _ _ (inside _)); [done|by left]. }
  destruct (String.eqb _ JobImplement); [done|]. next. destruct a as [e|p]; [finish|]. destruct (is_staged p); [|finish].
  eapply triple_pre; [|apply Hadv]. naive_solver.
Qed.

(** ** Runners *)

#[export] Instance Accept_spec held x id base branch : Spec held (Accept env x id base branch) (λ _, True) (λ _ _, True).
Proof using Hpolite.
  unfold Spec, Accept. eapply triple_seq; [apply _|by apply Transition_spec|done|]. intros [[]|r]; try finish.
  - eapply (triple_seq _ _ (seen r) _ _ (λ _ _, True)); [apply _|destruct (String.eqb _ _); [next_by done; finish|finish]|naive_solver|].
    intros ?. finish.
  - next. finish.
Qed.

#[export] Instance Decline_spec held `{!Unpumped held} x id reason : Spec held (Decline env x id reason) (λ _, True) (λ _ _, True).
Proof using Hpolite.
  unfold Spec, Decline. cbv zeta. eapply triple_res; [apply _|by apply Transition_spec|done|done|]. intros r.
  next. next. next. finish.
Qed.

#[export] Instance Finish_spec held `{!Unpumped held} x id result : Spec held (Finish env x id result) (λ _, True) (λ _ _, True).
Proof using Hpolite. unfold Spec, Finish. next_res. next. next. next. next. finish. Qed.

#[export] Instance ReportChanges_spec held x id ch : Spec held (ReportChanges env x id ch) (λ _, True) (λ _ _, True).
Proof using Hpolite.
  unfold Spec, ReportChanges. next_res. destruct a as [r wrote].
  eapply (triple_seq _ _ (λ _, True) _ _ (λ _ _, True)); [apply _|destruct wrote; [apply spec|finish]|done|]. intros ?. finish.
Qed.

#[export] Instance PR_spec held `{!Unpumped held} x id pr : Spec held (PR env x id pr) (λ _, True) (λ _ _, True).
Proof using Hpolite.
  unfold Spec, PR. next_res. destruct a as [[before r] changed]. destruct (negb changed); [finish|].
  apply (triple_pre _ _ (seen r)); [naive_solver|]. next.
  eapply (triple_seq _ _ (seen r) _ _ (λ _ _, True)); [apply _|destruct (_ && _); [call; done|finish]|naive_solver|]. intros ?.
  eapply (triple_seq _ _ (seen r) _ _ (λ _ _, True)); [apply _|destruct (_ && _); [apply spec|finish]|naive_solver|]. intros ?.
  eapply (triple_seq _ _ (seen r) _ _ (λ _ _, True)); [apply _|destruct (_ || _); [apply spec|finish]|naive_solver|]. intros ?.
  finish.
Qed.

#[export] Instance reconcile_held_spec held `{!Unpumped held} listed r :
  Spec held (reconcile_held env listed r) (λ _, True) (λ _ _, True).
Proof using Hpolite.
  unfold Spec, reconcile_held. destruct (one_of _ _); [finish|].
  eapply (triple_seq _ _ (λ _, True) _ _ (res_post (λ nx h, seen nx h ∧ rw_ID nx = rw_ID r))); [apply _| |done|].
  { destruct (String.eqb _ _); by apply Transition_spec. }
  intros [e|nx]; [finish|]. next. next. call. naive_solver.
Qed.

#[export] Instance reconcile_listed_spec held x id : Spec held (reconcile_listed env x id) (λ _, True) (λ _ _, True).
Proof using Hpolite.
  unfold Spec, reconcile_listed. next. destruct a as [e|r]; [finish|]. destruct (negb _); [finish|]. destruct (_ || _); [|finish].
  next. finish.
Qed.

#[export] Instance Attached_spec held `{!Unpumped held} x active : Spec held (Attached env x active) (λ _, True) (λ _ _, True).
Proof using Hpolite.
  unfold Spec, Attached. next.
  eapply (triple_seq _ _ (λ _, True) _ _ (λ _ _, True)); [apply _|apply (triple_each _ (λ _, True)); [apply _|intros; apply spec]|done|].
  intros ?. eapply (triple_seq _ _ (λ _, True) _ _ (λ _ _, True)); [apply _|apply (triple_each _ (λ _, True)); [apply _|intros; apply spec]|done|].
  intros ?. call. done.
Qed.

(** ** People and the clock *)

#[export] Instance HumanReview_spec held `{!Unpumped held} id who name verdict comment :
  Spec held (HumanReview env id who name verdict comment) (λ _, True) (λ _ _, True).
Proof using Hpolite.
  unfold Spec, HumanReview. cbv zeta. destruct (_ && _); [finish|]. apply triple_locked.
  next_res. rename a into p. destruct (negb _); [finish|]. next_res. destruct (last a) as [from|]; [|finish]. next_res.
  eapply (triple_res _ _ (λ h, pipe_known p h ∧ (verdict = VerdictApprove → person_approved (pp_ID p) h)) _ _ (λ _ _, True));
    [apply _| |intros h Hok [[[_ [[Hk _] _]] _] Hv]; by split|done|intros ?; eapply triple_weaken; [apply GetPipeline_spec; done|done|done]].
  destruct (String.eqb verdict VerdictApprove) eqn:Ev.
  { apply String.eqb_eq in Ev. eapply triple_seq; [apply _|apply spec| |intros ?; finish].
    intros h Hok [Hk Hv] _. split; [done|]. left. by apply Hv. }
  destruct (String.eqb verdict VerdictChanges); [|finish]. destruct (pl_MaxRounds _ <=? _) eqn:Hr.
  { eapply (triple_seq _ _ (λ _, True) _ _ (λ _ _, True)); [apply _|by apply endPipeline_other|done|]. intros ?. finish. }
  apply Z.leb_gt in Hr. eapply triple_res; [apply _|apply spec|intros h Hok [Hk _]; by split|done|]. intros [|]; [|finish].
  eapply (triple_seq _ _ (pipe_known p) _ _ (λ _ _, True)); [apply _|apply (revise_step env Hpolite); [apply _|done]|by intros h Hok [[Hk _] _]|]. intros ?. finish.
Qed.

#[export] Instance CancelPipeline_spec held `{!Unpumped held} id reason : Spec held (CancelPipeline env id reason) (λ _, True) (λ _ _, True).
Proof using Hpolite.
  unfold Spec, CancelPipeline.
  eapply (triple_res _ _ (λ _, True) _ _ (λ _ _, True)); [apply _| |done|done|].
  { apply triple_locked. eapply triple_weaken; [apply spec|by intros|]. by intros []. }
  intros ended. next_res.
  eapply (triple_seq _ _ (λ _, True) _ _ (λ _ _, True)); [apply _|apply (triple_each _ (λ _, True)); [apply _|]|done|].
  { intros r Hr. destruct (RunFinal _); [finish|]. next. finish. }
  intros ?. destruct (last _); [|finish]. destruct ended; [|finish]. next. next. finish.
Qed.

#[export] Instance release_spec held `{!Unpumped held} r why : Spec held (release env r why) (λ _, True) (λ _ _, True).
Proof using Hpolite.
  unfold Spec, release. unfold bind_res at 1. next. destruct a as [e|exceeded]; [finish|]. destruct (negb _).
  - eapply triple_res; [apply _|by apply Transition_spec|done|done|]. intros nx. next. next. finish.
  - next_res. destruct (negb _); [next_res; finish|].
    eapply (triple_seq _ _ (λ _, True) _ _ (λ _ _, True)); [apply _| |done|].
    { destruct (String.eqb _ _); [finish|]. next. destruct a0; [finish|]. call. done. }
    intros ?. next_res. next. next. next. finish.
Qed.

Lemma release_all_spec held `{!Unpumped held} due n : triple held (λ _, True) (release_all env due n) (λ _ _, True).
Proof using Hpolite. revert n. induction due as [|r due IH]; intros n; simpl; [finish|]. next. eapply triple_pre; [|apply IH]. done. Qed.

#[export] Instance ReleaseDue_spec held `{!Unpumped held} : Spec held (ReleaseDue env) (λ _, True) (λ _ _, True).
Proof using Hpolite.
  unfold Spec, ReleaseDue. next. next. destruct a0 as [e|due]; [finish|]. eapply triple_pre; [|by apply release_all_spec]. done.
Qed.

#[export] Instance RetryNow_spec held `{!Unpumped held} id who : Spec held (RetryNow env id who) (λ _, True) (λ _ _, True).
Proof using Hpolite. unfold Spec, RetryNow. next_res. destruct (_ || _); [finish|]. call. done. Qed.

(** ** Starting *)

#[export] Instance NoteFirst_spec held id text : Spec held (NoteFirst env id text) (λ _, True) (res_post (λ _ _, True)).
Proof using Hpolite.
  unfold Spec, NoteFirst. next.
  eapply triple_weaken; [apply (triple_sql _ Hpolite _ (λ _, True) _ (λ _ _, True)); [apply stable_true|]|done|done].
  intros h Hok _. split; [|done]. eapply grows_one. by apply write_log.
Qed.

(** A fallible call, whose failure ends the start. *)
Lemma triple_or_failed {A B} held (P P' : assert) (m : M (Res A)) (k : A → M (StartError + B)) (Q : A → assert) R :
  Mono P → triple held P' m (λ r h, match r with inl _ => True | inr a => Q a h end) → (∀ h, hub_ok h → P h → P' h) →
  (∀ e h, R (inl e) h) → (∀ a, triple held (λ h, P h ∧ Q a h) (k a) R) → triple held P (or_failed m k) R.
Proof using.
  intros HP Hm Himp He Hk. unfold or_failed. eapply triple_seq; [done|done|done|]. intros [e|a]; [|apply Hk]. by apply triple_ret.
Qed.

(** The first run of a dispatch is neither a review nor, but for a story, a
    judge of a pipeline. *)
Lemma first_step wf story content p agent model :
  let first := firstStagedStep wf story content p agent model in
  one_of (sf_phase first) [PhaseCI; PhaseReview] = false ∧ sf_kind first ≠ JobReview ∧ (sf_kind first = JobJudge → story = true).
Proof using.
  cbv zeta. unfold firstStagedStep. destruct story; cbn [andb].
  - destruct (String.eqb (trim_space content) EmptyString); (split; [reflexivity|]; split; [discriminate|done]).
  - destruct (match wf with Some _ => _ | None => _ end); (split; [reflexivity|]; split; [discriminate|discriminate]).
Qed.

Lemma dispatching_staged b roles node :
  dp_staged (dispatching b roles node) = true →
  (∃ w, dp_wf (dispatching b roles node) = Some w) ∧ cr_Override b = EmptyString ∧ cr_Kind b = JobImplement.
Proof using.
  unfold dispatching, executor_work. simpl. rewrite !andb_true_iff. intros [[Hw [[Ho Hk] _]] _].
  apply String.eqb_eq in Ho. apply String.eqb_eq in Hk. split; [|done]. destruct (Normalized _); [eauto|done].
Qed.

Lemma launch_spec held `{!Unpumped held} req b roles node runner model repo pipeline :
  cr_Kind b ≠ JobReview → (cr_Kind b = JobJudge → pipeline = None) →
  triple held (λ _, True) (launch env req b roles node runner model repo pipeline (dispatching b roles node)) (λ _ _, True).
Proof using Hpolite.
  intros Hrev Hjud. set (d := dispatching b roles node). unfold launch. cbv zeta.
  match goal with |- context [BuildPrompt ?t ?c ?r ?e] => generalize (BuildPrompt t c r e) end. intros jobPrompt.
  set (first0 := if dp_staged d then _ else _).
  eapply (triple_or_failed _ _ (λ _, True) _ _ (λ _ _, True)); [apply _| |done|done|].
  { eapply triple_weaken with (P' := λ _, True) (Q' := λ _ _, True); [|done|by intros [] ???].
    destruct (String.eqb _ _); [finish|apply spec]. }
  intros exceeded. destruct (negb _); [finish|].
  set (config := match dp_wf d with Some _ => _ | None => _ end).
  set (pipe := if dp_staged d then Some _ else _).
  set (first := if dp_staged d then _ else _).
  assert (Hfirst : one_of (sf_phase first) [PhaseCI; PhaseReview] = false ∧ sf_kind first ≠ JobReview
            ∧ (sf_kind first = JobJudge → ∀ p, pipe = Some p → dp_staged d = true ∧ dp_story d = true)).
  { unfold first, pipe. destruct (dp_staged d) eqn:Hst.
    - destruct (first_step (dp_wf d) (dp_story d) (ni_Content node) (Some (staged_pipeline (dp_wf d) pipeline (cr_Agent b) model)) (cr_Agent b) model)
        as (H1&H2&H3). split; [done|]. split; [done|]. intros E p _. by split; [|apply H3].
    - simpl. split; [done|]. split; [done|]. intros E p Hp. rewrite (Hjud E) in Hp. done. }
  assert (Hconfig : dp_staged d = true → ∃ c, config = Some c ∧ sc_Workflow c ≠ None ∧ sc_Story c = dp_story d).
  { intros Hst. destruct (dispatching_staged b roles node Hst) as ([w Hw] & Ho & _). unfold config. fold d in Hw.
    rewrite Hw, Hst, Ho. by eexists. }
  clearbody first0 config pipe first.
  set (made := λ id : string, match pipe with
    | Some p => pipe_created id (mkNewPipeline (rn_OwnerID runner) (sr_ActorID req) (sr_Project req) (cr_NodeID b) p (cr_Fallbacks b) jobPrompt (cr_Prompt b) config (sf_phase first))
    | None => λ _ : Hub, id = EmptyString end).
  eapply (triple_or_failed _ _ (λ _, True) _ _ made); [apply _| |done|done|].
  { unfold made. destruct pipe as [p|]; [|finish]. unfold bind_res. eapply triple_seq; [apply _|apply spec|intros; apply Hfirst|].
    intros [e|q]; finish. }
  intros pipelineID. eapply triple_seq; [unfold made; destruct pipe; apply _|apply spec| |].
  { intros h Hok [_ Hm]. split; [simpl; lia|]. simpl. intros Hne. unfold made in Hm.
    destruct pipe as [p|] eqn:Hp; [|done]. destruct Hm as (q & Hq & Hid & Hn). exists q. split; [done|]. split; [done|].
    destruct Hfirst as (_ & H2 & H3). split; [intros E; done|]. intros E. destruct (H3 E p eq_refl) as [Hst Hsto].
    destruct (Hconfig Hst) as (c & Hc & Hwf & Hs). unfold is_story, shown, pp_Config. simpl. rewrite Hn. simpl. rewrite Hc. simpl.
    destruct (sc_Workflow c); [simpl; by rewrite Hs|done]. }
  intros [e|record].
  - eapply (triple_seq _ _ (λ _, True) _ _ (λ _ _, True)); [unfold made; destruct pipe; apply _| |done|intros ?; finish].
    destruct (String.eqb _ _); [finish|]. next_by done. finish.
  - eapply (triple_seq _ _ (λ _, True) _ _ (λ _ _, True)); [unfold made; destruct pipe; apply _| |done|].
    { destruct (sr_LockAcceptance req); [|finish]. destruct (_ && _); [apply spec|finish]. }
    intros [e|[]].
    + eapply (triple_seq _ _ (λ _, True)); [unfold made; destruct pipe; apply _|by apply Transition_spec|done|]. intros ?.
      eapply (triple_seq _ _ (λ _, True) _ _ (λ _ _, True)); [unfold made; destruct pipe; apply _| |done|intros ?; finish].
      destruct (String.eqb _ _); [finish|]. next_by done. finish.
    + eapply (triple_or_failed _ _ (λ _, True) _ _ (λ _ _, True)); [unfold made; destruct pipe; apply _| |done|done|].
      { eapply triple_weaken with (P' := λ _, True) (Q' := λ _ _, True); [|done|by intros [] ???].
        destruct (negb _); [|finish]. eapply triple_weaken; [apply spec|done|done]. }
      intros ?. eapply (triple_seq _ _ (λ _, True)); [unfold made; destruct pipe; apply _|apply spec|done|]. intros ?. finish.
Qed.

#[export] Instance Start_spec held `{!Unpumped held} req : Spec held (Start env req) (λ _, True) (λ _ _, True).
Proof using Hpolite.
  unfold Spec, Start. cbv zeta. destruct (negb (request_ok _ _)) eqn:Er; [finish|]. apply negb_false_iff in Er.
  set (b := with_implement _). set (roles := match sr_Roles req with [] => _ | _ => _ end) in *.
  assert (Hb : cr_Kind b ≠ JobReview ∧ (cr_Kind b = JobJudge → cr_Pipeline b = None)).
  { assert (Hk : one_of (cr_Kind (clean_body (sr_Body req))) [JobImplement; JobPlan; JobJudge] = true).
    { unfold request_ok in Er. rewrite !andb_true_iff in Er. tauto. }
    assert (Hpj : String.eqb (cr_Kind (clean_body (sr_Body req))) JobJudge = true → cr_Pipeline (clean_body (sr_Body req)) = None).
    { intros E. unfold request_ok in Er. rewrite E, orb_true_r in Er. rewrite !andb_true_iff in Er.
      destruct (cr_Pipeline _); [|done]. exfalso. simpl in Er. intuition discriminate. }
    unfold b, with_implement. destruct (cr_Pipeline (clean_body _)) as [p|] eqn:Ep; simpl in *.
    - split; [intros E; by rewrite E in Hk|]. intros E. rewrite E in Hpj. by specialize (Hpj eq_refl).
    - split; [intros E; by rewrite E in Hk|done]. }
  destruct Hb as [Hrev Hjud].
  next. destruct a as [runner|]; [|finish]. destruct (negb _); [finish|].
  destruct (CheckAgainstHello _ _) as [[model repo]|]; [|finish].
  destruct (match cr_Pipeline b with Some _ => _ | None => _ end) as [pipeline|] eqn:Ep; [|finish].
  destruct (_ && _); [finish|]. destruct (negb (Headless _)); [finish|]. destruct (negb (ModeSupported _ _)); [finish|].
  eapply (triple_or_failed _ _ (λ _, True) _ _ (λ _ _, True)); [apply _|eapply triple_weaken; [apply spec|done|by intros [] ???]|done|done|].
  intros exceeded. destruct (negb _); [finish|].
  eapply (triple_or_failed _ _ (λ _, True) _ _ (λ _ _, True)); [apply _|eapply triple_weaken; [apply ask_spec; done|done|by intros [] ???]|done|done|].
  intros [node|]; [|finish]. destruct (negb _); [finish|]. destruct (stage_problem _ _ _ _ _ _); [finish|].
  eapply triple_pre; [|apply launch_spec; [done..|]]; [done|]. intros E. rewrite (Hjud E) in Ep. congruence.
Qed.
End Specs.

(** There is room for [room] runs more, up to [top] of them. *)
Definition slack (x : string) (top room : Z) (h : Hub) : Prop := busy x h + room ≤ top.

(** An assertion only offers to the runner may falsify. *)
Class Calm (x : string) (P : assert) : Prop :=
  calm : ∀ lbl h h', hub_ok h → write lbl h h' → lbl ≠ Some x → P h → P h'.

#[export] Instance calm_mono x P : Mono P → Calm x P | 10.
Proof. intros HP lbl h h' Hok Hw _. eapply HP. by eapply write_ext. Qed.

#[export] Instance calm_and x P Q : Calm x P → Calm x Q → Calm x (λ h, P h ∧ Q h).
Proof. intros HP HQ lbl h h' Hok Hw Hne [??]. split; [by eapply HP|by eapply HQ]. Qed.

#[export] Instance calm_slack x top room : Calm x (slack x top room).
Proof. intros lbl h h' Hok Hw Hne. unfold slack. pose proof (busy_write _ _ _ x Hok Hw Hne). lia. Qed.

Lemma calm_stable held x P : RunnerLock x ∈ held → Calm x P → stable held P.
Proof.
  intros Hin HP h h' Hok Hr. revert Hok. induction Hr as [|h1 h2 h3 (lbl & Hw & Hl) _ IH]; intros Hok Hs; [done|].
  apply IH; [by eapply write_ok|]. eapply HP; [done..| |done]. intros ->. by apply Hl.
Qed.

Section Pump.
Context (env : Env) (Hpolite : polite env).
Context (held : list Lock) (x : string) (Hin : RunnerLock x ∈ held).
Context (Hquiet : ∀ n, e_fault env n = false) (Hsent : ∀ n, e_sent env n x = true).

(** ** Statements that offer nothing *)

Lemma calm_prim {A} (P : assert) `{!Calm x P} (f : nat → Hub → Hub * A) :
  (∀ n h, hub_ok h → P h → (f n h).1 = h ∨ write None h (f n h).1) → triple held P (prim env f) (λ _, P).
Proof using Hpolite Hin.
  intros Hf. apply triple_prim; [done|by eapply calm_stable|]. intros n h Hok Hs. destruct (Hf n h Hok Hs) as [->|Hw]; [done|].
  split; [by eapply grows_one|]. by eapply calm.
Qed.

Lemma calm_ask {A} (P : assert) `{!Calm x P} (f : nat → Hub → A) : triple held P (ask env f) (λ _, P).
Proof using Hpolite Hin. apply calm_prim; [done|]. by left. Qed.

Lemma calm_stamp (P : assert) `{!Calm x P} : triple held P (stamp env) (λ _, P).
Proof using Hpolite Hin.
  apply calm_prim; [done|]. intros n h Hok _. right. simpl. apply write_last.
  destruct (h_last h <? _) eqn:E; [apply Z.ltb_lt in E; lia|]. unfold microsecond. lia.
Qed.

Lemma calm_act (P : assert) `{!Calm x P} a : (∀ h, P h → act_ok a h) → triple held P (act env a) (λ _, P).
Proof using Hpolite Hin. intros Ha. apply calm_prim; [done|]. intros n h Hok Hh. right. apply write_log. by apply Ha. Qed.

(** A query, which does not fail. *)
Lemma calm_query {A} (P : assert) `{!Calm x P} (f : Hub → A) (Q : A → assert) :
  (∀ h, hub_ok h → P h → Q (f h) h) →
  triple held P (query env f) (λ r h, match r with inr a => P h ∧ Q a h | inl _ => False end).
Proof using Hpolite Hin Hquiet.
  intros HQ. apply triple_prim; [done|by eapply calm_stable|]. intros n h Hok Hh. rewrite Hquiet. simpl.
  split; [done|]. split; [done|by apply HQ].
Qed.

(** A run that is known to be there is found. *)
Lemma calm_Get (P : assert) `{!Calm x P} r :
  (∀ h, P h → seen r h) →
  triple held P (Get env (rw_ID r)) (λ res h, P h ∧ match res with inr o => seen o h ∧ rw_ID o = rw_ID r | inl _ => False end).
Proof using Hpolite Hin Hquiet.
  intros Hs. unfold Get, sql_res, bind_res.
  eapply (triple_bind _ _ _ _ (λ res h, P h ∧ match res with inr (inr o) => seen o h ∧ rw_ID o = rw_ID r | _ => False end)).
  - apply triple_prim; [done|by eapply calm_stable|]. intros n h Hok Hh. rewrite Hquiet. simpl. split; [done|]. split; [done|].
    destruct (Hs h Hh) as (r' & Hr' & Hid' & _). destruct (find_id_exists rw_ID (rw_ID r) (h_runs h) r' Hr' Hid') as [o Ho].
    unfold run_by_id. rewrite Ho. apply find_id_some in Ho as [? ?]. split; [by apply seen_row|done].
  - intros [e|[e|o]]; apply triple_ret; intros h Hok [??]; done.
Qed.

Lemma calm_roleHasRoom (P : assert) `{!Calm x P} r : triple held P (roleHasRoom env r) (λ _, P).
Proof using Hpolite Hin Hquiet.
  unfold roleHasRoom, roleSetting, bind_res. destruct (String.eqb _ _); [by apply triple_ret|].
  eapply triple_bind; [apply (calm_query P _ (λ _ _, True)); done|]. intros [e|[s|]];
    [by apply triple_ret|apply (triple_pre _ _ P); [by intros ?? []|]|apply triple_ret; by intros ?? []].
  destruct (_ <=? _); [by apply triple_ret|].
  eapply triple_bind; [apply (calm_query P _ (λ _ _, True)); done|]. intros [e|k]; apply triple_ret; [done|by intros ?? []].
Qed.

(** ** Offers *)

(** Marking a run takes a place when it takes at all. *)
Lemma move_offer h r top room now c :
  rw_RunnerID r = x → rw_RetryAt r = EmptyString → hub_ok h → seen r h → slack x top room h →
  grows h (move_stmt (rw_ID r) RunQueued RunOffered now c h).1 ∧
  slack x top (if ((move_stmt (rw_ID r) RunQueued RunOffered now c h).2 =? 0)%nat then room else room - 1)
    (move_stmt (rw_ID r) RunQueued RunOffered now c h).1.
Proof using.
  intros Hx Hra Hok Hs Hsl.
  assert (Hw : write (Some x) h (move_stmt (rw_ID r) RunQueued RunOffered now c h).1).
  { apply (write_runs _ (rw_ID r)).
    - intros r' Hw. row_tests. done.
    - intros r' Hr' Hw. row_tests. destruct Hs as (r2 & Hr2 & Hid2 & Hj2 & _ & Hra2).
      assert (r2 = r') as -> by (apply (same_id_eq rw_ID (h_runs h)); [by apply (ok_runs _ Hok)|done..|congruence]).
      assert (Hx' : rw_RunnerID r' = x) by (unfold rw_RunnerID, rw_place in *; congruence).
      rewrite <- Hx'. apply step_offer; [done|by apply Hra2]. }
  split; [by eapply grows_one|]. destruct (_ =? 0)%nat eqn:E.
  - apply Nat.eqb_eq in E. unfold move_stmt in *. simpl in *. unfold slack, busy in *. simpl.
    pose proof (filter_map_bound (λ r0, String.eqb (rw_RunnerID r0) x && holds r0)
      (λ r0, is_run (rw_ID r) r0 && String.eqb (rw_Status r0) RunQueued)
      (λ r0, set_prog (moved RunOffered now c (rw_prog r0)) r0) (h_runs h)). lia.
  - pose proof (busy_offer x h _ Hok Hw). unfold slack in *. lia.
Qed.

Lemma mark_offered r top room :
  rw_RunnerID r = x → rw_RetryAt r = EmptyString →
  triple held (λ h, seen r h ∧ slack x top room h) (Transition env (rw_ID r) RunOffered no_change)
    (λ res h, seen r h ∧ match res with
                         | inr o => slack x top (room - 1) h ∧ seen o h ∧ rw_ID o = rw_ID r
                         | inl _ => slack x top room h end).
Proof using Hpolite Hin Hquiet.
  intros Hx Hra. unfold Transition, bind_res.
  eapply triple_bind; [apply (calm_Get (λ h, seen r h ∧ slack x top room h) r); by intros h []|]. intros [e|current].
  { apply triple_ret. by intros h _ [_ ?]. }
  destruct (_ && _); [apply triple_ret; naive_solver|].
  destruct (Legal _ RunOffered) eqn:Hl; simpl; [|apply triple_ret; naive_solver].
  assert (Hq : rw_Status current = RunQueued).
  { apply Legal_cases in Hl as [[? _]|[[_ Hl]|[_ Hl]]]; [done|by vm_compute in Hl..]. }
  rewrite Hq. apply (triple_pre _ _ (λ h, seen r h ∧ slack x top room h)); [naive_solver|].
  eapply triple_bind; [apply calm_stamp; apply _|]. intros now.
  eapply (triple_bind _ _ _ _ (λ res h, match res with
    | inr k => seen r h ∧ slack x top (if (k =? 0)%nat then room else room - 1) h | inl _ => False end)).
  { apply triple_prim; [done|eapply calm_stable; [done|apply _]|]. intros n h Hok [Hs Hsl]. rewrite Hquiet.
    pose proof (move_offer h r top room now no_change Hx Hra Hok Hs Hsl) as [Hg Hsl'].
    destruct (move_stmt _ _ _ _ _ _) as [h' k]. simpl in *. split; [done|]. split; [|done].
    eapply mono_seen; [by eapply grows_ext|done]. }
  intros [e|k]; [apply triple_never; intros ? []|]. destruct (k =? 0)%nat.
  - eapply triple_bind; [apply (calm_Get (λ h, seen r h ∧ slack x top room h) r); by intros h []|].
    intros [e|latest]; apply triple_ret; [by intros h _ [_ ?]|by intros h _ [[? ?] _]].
  - eapply triple_weaken; [apply (calm_Get (λ h, seen r h ∧ slack x top (room - 1) h) r); by intros h []|done|].
    intros [e|o] h _ Hh; [by destruct Hh|]. destruct Hh as [[? ?] [? ?]]. done.
Qed.

Lemma offer_places r top room :
  rw_RunnerID r = x → rw_RetryAt r = EmptyString →
  triple held (λ h, seen r h ∧ slack x top room h) (offer env r) (λ took h, slack x top (if took : bool then room - 1 else room) h).
Proof using Hpolite Hin Hquiet Hsent.
  intros Hx Hra. unfold offer. eapply triple_bind; [by apply mark_offered|]. intros [e|o].
  { apply triple_ret. by intros h _ [_ ?]. }
  set (P := λ h, seen r h ∧ slack x top (room - 1) h ∧ seen o h ∧ rw_ID o = rw_ID r).
  assert (HP : Calm x P) by (unfold P; apply _).
  eapply triple_bind; [by apply (calm_ask P)|]. intros now.
  eapply (triple_bind _ _ _ _ (λ (b : bool) h, b = true ∧ P h)).
  { apply triple_prim; [done|by eapply calm_stable|]. intros n h Hok Hh. rewrite Hx, Hsent. simpl.
    assert (Hw : write None h (set_log (h_log h ++ [OfferSent x (job_of o (SteppedUp env o now))]) h)).
    { apply write_log. simpl. destruct Hh as (Hs & _ & _ & Hid). destruct Hs as (r' & Hr' & Hid' & Hj & _). exists r'.
      split; [done|]. split; [congruence|]. unfold rw_RunnerID, rw_place in *. congruence. }
    split; [by eapply grows_one|]. split; [done|]. by eapply calm. }
  intros [|].
  - eapply triple_bind; [eapply triple_pre; [|apply (calm_act P); done]; by intros h _ [_ ?]|].
    intros ?. apply triple_ret. by intros h _ (_ & ? & _).
  - apply triple_never. by intros h [? _].
Qed.

Lemma offer_queued_places top queued room :
  (∀ r, r ∈ queued → rw_RunnerID r = x) → 0 ≤ room →
  triple held (λ h, (∀ r, r ∈ queued → seen r h) ∧ slack x top room h) (offer_queued env room queued) (λ _, slack x top 0).
Proof using Hpolite Hin Hquiet Hsent.
  assert (Hdone : ∀ k (Q : assert), 0 ≤ k → (∀ h, Q h → slack x top k h) → triple held Q (mret tt) (λ _, slack x top 0)).
  { intros k Q Hk HQ. apply triple_ret. intros h _ Hh. specialize (HQ h Hh). unfold slack in *. lia. }
  revert room. induction queued as [|r queued IH]; intros room Hx Hroom; simpl; [apply (Hdone room); [done|by intros h [_ ?]]|].
  destruct (room <=? 0) eqn:Er; [apply (Hdone room); [done|by intros h [_ ?]]|]. apply Z.leb_gt in Er.
  assert (Hrest : ∀ k (Q : assert), 0 ≤ k → (∀ h, Q h → (∀ r0, r0 ∈ r :: queued → seen r0 h) ∧ slack x top k h) →
    triple held Q (offer_queued env k queued) (λ _, slack x top 0)).
  { intros k Q Hk HQ. eapply triple_pre; [|apply IH; [intros r0 Hr0; apply Hx; by right|done]].
    intros h _ Hh. destruct (HQ h Hh) as [Hs Hsl]. split; [|done]. intros r0 Hr0. apply Hs. by right. }
  destruct (String.eqb (rw_RetryAt r) EmptyString) eqn:E; simpl; [|by apply (Hrest room)]. apply String.eqb_eq in E.
  eapply triple_bind; [apply (calm_roleHasRoom (λ h, (∀ r0, r0 ∈ r :: queued → seen r0 h) ∧ slack x top room h))|].
  intros [e|[|]]; [by apply (Hrest room)| |by apply (Hrest room)].
  eapply (triple_bind _ _ _ _ (λ (took : bool) h, (∀ r0, r0 ∈ r :: queued → seen r0 h) ∧ slack x top (if took then room - 1 else room) h)).
  - eapply triple_weaken; [apply (triple_frame _ _ _ _ (λ h, ∀ r0, r0 ∈ r :: queued → seen r0 h) _ (offer_places r top room (Hx r ltac:(by left)) E))| |].
    + intros h _ [Hs Hsl]. split; [|done]. split; [|done]. apply Hs. by left.
    + intros took h _ [? ?]. by split.
  - intros [|]; (apply Hrest; [lia|done]).
Qed.
End Pump.

(** ** Pump *)

(** Places may be given back while Pump counts and offers, and none is filled
    beyond what it counted. *)
Lemma pump_places env held x runner k :
  polite env → Unpumped held →
  (∀ n, e_fault env n = false) → (∀ n, e_sent env n x = true) → (∀ n, e_runner env n x = Some runner) →
  triple held (slack x k 0) (Pump env x) (λ _, slack x (Z.max k (Capacity (rn_Info runner))) 0).
Proof.
  intros Hpolite Hun Hquiet Hsent Hrunner. unfold Pump. apply triple_pumping; [done|].
  set (held' := RunnerLock x :: held). assert (Hin : RunnerLock x ∈ held') by by left.
  set (top := Z.max k (Capacity (rn_Info runner))).
  assert (Hstop : ∀ Q : assert, (∀ h, Q h → slack x k 0 h) → triple held' Q (mret tt) (λ _, slack x top 0)).
  { intros Q HQ. apply triple_ret. intros h _ Hh. specialize (HQ h Hh). unfold slack, top in *. lia. }
  eapply triple_bind; [by apply (calm_ask env Hpolite held' x Hin (slack x k 0))|]. intros online.
  destruct (negb online); [by apply Hstop|].
  eapply (triple_bind _ _ _ _ (λ o h, slack x k 0 h ∧ o = Some runner)).
  { apply triple_ask; [done|by eapply calm_stable; [|apply _]|]. intros n h _ Hh. by rewrite Hrunner. }
  intros o. apply (triple_learn _ _ (o = Some runner)); [by intros h _ [_ ?]|]. intros ->.
  destruct (negb _); [apply Hstop; by intros h [? _]|].
  unfold Busy. eapply triple_bind.
  { eapply triple_pre; [|apply (calm_query env Hpolite held' x Hin Hquiet (slack x k 0) (busy x)
      (λ b, slack x top (Capacity (rn_Info runner) - b)))]; [by intros h _ [? _]|].
    intros h _ _. unfold slack, top. lia. }
  intros [e|b]; [apply triple_never; intros ? []|]. cbv zeta. destruct (_ <=? 0) eqn:Er; [apply Hstop; by intros h [? _]|].
  apply Z.leb_gt in Er. set (room := Capacity (rn_Info runner) - b) in *.
  eapply triple_bind.
  { eapply triple_pre; [|apply (calm_query env Hpolite held' x Hin Hquiet (slack x top room)
      (λ h, oldest_first (List.filter (λ r, String.eqb (rw_RunnerID r) x && one_of (rw_Status r) [RunQueued]) (h_runs h)))
      (λ rs h, ∀ r, r ∈ rs → seen r h ∧ rw_RunnerID r = x))]; [by intros h _ [_ ?]|].
    intros h _ _ r. unfold oldest_first. rewrite slice_stable_elem, elem_of_list_filter. intros [Hx Hr]. row_tests.
    split; [by apply seen_row|done]. }
  intros [e|queued]; [apply triple_never; intros ? []|].
  apply (triple_learn _ _ (∀ r, r ∈ queued → rw_RunnerID r = x)); [intros h _ [_ Hq] r Hr; by apply Hq|]. intros Hx.
  eapply triple_pre; [|apply (offer_queued_places env Hpolite held' x Hin Hquiet Hsent top queued room Hx); lia].
  intros h _ [Hsl Hq]. split; [|done]. intros r Hr. by apply Hq.
Qed.

(** ** Pump returns *)

(** A program without locks, which comes back whatever the world does. *)
Class Returns {A} (m : M A) : Prop := returns : ∀ held s, ∃ s' a, m held s = (s', inl a).

#[export] Instance returns_ret {A} (a : A) : Returns (mret a).
Proof. intros held s. by eexists _, _. Qed.
#[export] Instance returns_prim {A} env (f : nat → Hub → Hub * A) : Returns (prim env f).
Proof. intros held [n h]. unfold prim. destruct (f _ _). by eexists _, _. Qed.
#[export] Instance returns_bind {A B} (m : M A) (k : A → M B) : Returns m → (∀ a, Returns (k a)) → Returns (m ≫= k).
Proof.
  intros Hm Hk held s. destruct (Hm held s) as (s' & a & E). destruct (Hk a held s') as (s2 & b & E2).
  exists s2, b. unfold mbind, M_bind. by rewrite E, E2.
Qed.

Ltac returning :=
  repeat first
    [ apply returns_ret | apply returns_prim | apply returns_bind; [|intros ?]
    | match goal with |- Returns (match ?x with _ => _ end) => destruct x end
    | progress unfold Transition, Get, roleHasRoom, roleSetting, sql_res, sql_one, bind_res, sql, query, ask, act, send, stamp, note,
        notifyChanged, clockNow, reg_Get, Busy, ForRunner, fail, done_with ].

#[export] Instance returns_offer env r : Returns (offer env r).
Proof. unfold offer. returning. Qed.

#[export] Instance returns_offer_queued env room queued : Returns (offer_queued env room queued).
Proof.
  revert room. induction queued as [|r queued IH]; intros room; simpl; [apply _|].
  destruct (_ <=? _); [apply _|]. destruct (negb _); [apply IH|]. apply returns_bind; [returning|]. intros [e|[|]]; [apply IH| |apply IH].
  apply returns_bind; [apply _|]. intros [|]; apply IH.
Qed.

Lemma pump_returns env x held s : Unpumped held → ∃ s', Pump env x held s = (s', inl tt).
Proof.
  intros Hun. unfold Pump, locked. destruct (decide _) as [Hx|_]; [by destruct (Hun x)|].
  assert (Hret : ∀ m : M unit, Returns m → ∃ s', m (RunnerLock x :: held) s = (s', inl tt)).
  { intros m Hm. destruct (Hm (RunnerLock x :: held) s) as (s' & [] & E). by exists s'. }
  apply Hret. apply returns_bind; [returning|]. intros online. destruct (negb online); [apply _|].
  apply returns_bind; [returning|]. intros [runner|]; [|apply _]. destruct (negb _); [apply _|].
  apply returns_bind; [returning|]. intros [e|b]; [apply _|]. cbv zeta. destruct (_ <=? _); [apply _|].
  apply returns_bind; [returning|]. intros [e|queued]; apply _.
Qed.
