(* ===== verification/DispatchGoals.v ===== *)
(** The run hub's guarantees, over every history of calls, each run between
    any others and with any statement failing. *)

From S2P Require Import Prelude GoStr GoFloat GoTime Dsl Graph NodeTypes Workflow Roles State Readiness Globs Runs Hub RunStore PipeStore Dispatch Staged Start Steps HubSpec StoreSpecs DispatchSpecs CallSpecs.
From stdpp Require Import pretty.
From Stdlib Require Import Ascii.
Open Scope Z_scope.

(** * Histories *)

(** The calls of runners, people and the clock. *)
Inductive HubCall :=
  | CallStart (req : StartRequest)
  | CallPump (runner : string)
  | CallAccept (runner run base branch : string)
  | CallDecline (runner run reason : string)
  | CallFinish (runner run : string) (result : RunResult)
  | CallReportChanges (runner run : string) (changes : RunChanges)
  | CallPR (runner run : string) (pr : PRInfo)
  | CallAttached (runner : string) (active : list string)
  | CallCancel (run reason : string)
  | CallHumanReview (pipeline who name verdict comment : string)
  | CallCancelPipeline (pipeline reason : string)
  | CallReleaseDue
  | CallRetryNow (run who : string).

Definition perform `{Unicode} (env : Env) (call : HubCall) : M unit :=
  match call with
  | CallStart req => _ ← Start env req; mret tt
  | CallPump x => Pump env x
  | CallAccept x run base branch => _ ← Accept env x run base branch; mret tt
  | CallDecline x run reason => _ ← Decline env x run reason; mret tt
  | CallFinish x run result => _ ← Finish env x run result; mret tt
  | CallReportChanges x run ch => _ ← ReportChanges env x run ch; mret tt
  | CallPR x run pr => _ ← PR env x run pr; mret tt
  | CallAttached x active => Attached env x active
  | CallCancel run reason => _ ← Steps.Cancel env run reason; mret tt
  | CallHumanReview id who name verdict comment => _ ← HumanReview env id who name verdict comment; mret tt
  | CallCancelPipeline id reason => _ ← CancelPipeline env id reason; mret tt
  | CallReleaseDue => _ ← ReleaseDue env; mret tt
  | CallRetryNow run who => _ ← RetryNow env run who; mret tt
  end.

Definition after_call `{Unicode} (env : Env) (call : HubCall) (n : nat) (h : Hub) : Hub := (perform env call [] (n, h)).1.2.
Definition outcome_of `{Unicode} (env : Env) (call : HubCall) (n : nat) (h : Hub) : unit + Halt := (perform env call [] (n, h)).2.

(** One call, on any outside world whose other calls keep to the rules. *)
Inductive calls `{Unicode} (h : Hub) : Hub → Prop :=
  | calls_one env call n : polite env → calls h (after_call env call n h).

Definition no_runs : Hub := mkHub [] [] [] ∅ ∅ [] 0 [].

(** What a hub may hold: anything calls lead to, from nothing. *)
Definition reached `{Unicode} : Hub → Prop := rtc calls no_runs.

(** ** An example *)

Definition demo_info (models : list ModelInfo) : RunnerInfo :=
  mkRunnerInfo [mkAgentInfo "claude" true models] [mkRepo "repo" "repo" true] [CapHeadless; CapRoles; CapVerify] 2.

(** A runner that is online and within budget, no other calls, and the
    statements that fail. *)
Definition demo_world (online fault : nat → bool) (models : list ModelInfo) : Env := {|
  e_other := λ _ _ h, h; e_fault := fault; e_now := λ n, 1700000000 * second + Z.of_nat n * second;
  e_id := λ n, "id" +:+ pretty n; e_online := λ n _, online n;
  e_runner := λ _ id, Some (mkRunner id "laptop" "ann" true (Some (demo_info models)));
  e_sent := λ _ _, true; e_budget := λ _ _ _, inr EmptyString; e_role_budget := λ _ _ _ _, inr EmptyString;
  e_note_room := λ _, true; e_reset := λ now _, now + hour; e_link := λ _, true; e_error := λ _, "failed";
  e_no_model := λ _ _, "no such model"; e_seconds := λ _, "1.0"; e_step_up := None |}.

Definition demo_env : (nat → bool) → list ModelInfo → Env := demo_world (λ _, true).

Definition opus : AgentModel := mkAgentModel "claude" "opus".
Definition haiku : AgentModel := mkAgentModel "claude" "haiku".
Definition both_models : list ModelInfo := [mkModel "opus" true; mkModel "haiku" false].
Definition good_env : Env := demo_env (λ _, false) both_models.

(** A dispatch of a node to that runner, to be reviewed. *)
Definition demo_start (reviewers : list AgentModel) (human : bool) : StartRequest :=
  mkStartRequest
    (mkCreate "node" "r1" "claude" "opus" "repo" EmptyString EmptyString []
       (Some (mkPipeline opus no_agent 2 reviewers 0 human false no_agent)) EmptyString EmptyString EmptyString EmptyString EmptyString)
    "proj" "ann" "Ann" EmptyString
    (λ _ _, inr (Some (mkNodeInfo "Node" "Do it." "task" AgentDispatch [] false None None))) [] None.

Definition went_well (verdict : string) : RunResult :=
  mkResult RunSucceeded EmptyString "done" 0 EmptyString verdict EmptyString EmptyString EmptyString None [] false.

Lemma demo_polite fault models : polite (demo_env fault models).
Proof. intros held n h. simpl. done. Qed.

(** A script of calls, the moments going on. *)
Fixpoint play `{Unicode} (calls : list (Env * HubCall)) (n : nat) (h : Hub) : nat * Hub :=
  match calls with
  | [] => (n, h)
  | (env, call) :: calls' => let s := (perform env call [] (n, h)).1 in play calls' s.1 s.2
  end.

Section Goals.
Context `{Unicode}.

Lemma perform_spec env call held `{!Unpumped held} : polite env → triple held (λ _, True) (perform env call) (λ _ _, True).
Proof. intros Hp. destruct call; cbn [perform]; [| apply Pump_spec; done | | | | | | apply Attached_spec; done | | | | |]; next; finish. Qed.

Lemma call_grows env call n h : polite env → hub_ok h → grows h (after_call env call n h).
Proof.
  intros Hp Hok. pose proof (perform_spec env call [] Hp n h Hok I) as Hs. unfold after_call.
  destruct (perform env call [] (n, h)) as [[n' h'] o]. apply Hs.
Qed.

Lemma calls_grow h h' : hub_ok h → rtc calls h h' → grows h h'.
Proof.
  intros Hok. induction 1 as [|h1 h2 h3 [env call n Hp] _ IH]; [done|]. pose proof (call_grows env call n h1 Hp Hok) as Hg.
  etrans; [done|]. apply IH. by eapply grows_ok.
Qed.

Lemma empty_ok : hub_ok no_runs.
Proof. split; simpl; try apply NoDup_nil_2; intros x Hx; by apply elem_of_nil in Hx. Qed.

Lemma reached_ok h : reached h → hub_ok h.
Proof. intros Hr. eapply grows_ok; [apply empty_ok|]. by apply calls_grow; [apply empty_ok|]. Qed.

Lemma play_reached cs : Forall (λ c, polite c.1) cs → ∀ n h, reached h → reached (play cs n h).2.
Proof.
  induction 1 as [|[env call] cs Hp _ IH]; intros n h Hr; simpl in *; [done|].
  apply (IH (perform env call [] (n, h)).1.1 (perform env call [] (n, h)).1.2).
  eapply rtc_r; [exact Hr|]. exact (calls_one h env call n Hp).
Qed.

Lemma play_calls cs n h : Forall (λ c, polite c.1) cs → rtc calls h (play cs n h).2.
Proof.
  intros Hp. revert n h. induction Hp as [|[env call] cs Hp _ IH]; intros n h; simpl in *; [done|].
  eapply rtc_l; [exact (calls_one h env call n Hp)|]. apply IH.
Qed.

(** ** The guarantees *)

Definition lawful (from to : string) : Prop := Legal from to = true.

Lemma write_moves lbl h h' r : write lbl h h' → r ∈ h_runs h →
  ∃ r', r' ∈ h_runs h' ∧ rw_ID r' = rw_ID r ∧ rtc lawful (rw_Status r) (rw_Status r').
Proof.
  destruct 1 as [| |id now w h Hnew Hok|lbl id where_ f h Hid Hstep| | | | | |]; intros Hr; try (exists r; by repeat split).
  - exists r. split; [set_solver|done].
  - exists (if where_ r then f r else r). split; [apply elem_of_update; eauto|].
    destruct (where_ r) eqn:E; [|done]. specialize (Hstep r Hr E).
    split; [by apply run_step_fixed in Hstep as (? & _)|].
    destruct Hstep as [to now c Hl Hto|now c Hq Hra|p|c|Hq]; unfold rw_Status in *; simpl; try done.
    + by apply rtc_once.
    + apply rtc_once. unfold lawful. by rewrite Hq.
Qed.

Lemma grows_moves h h' r : hub_ok h → grows h h' → r ∈ h_runs h →
  ∃ r', r' ∈ h_runs h' ∧ rw_ID r' = rw_ID r ∧ rtc lawful (rw_Status r) (rw_Status r').
Proof.
  intros Hok Hg. revert r. induction Hg as [h|h1 h2 h3 [lbl Hw] _ IH]; intros r Hr; [by exists r|].
  destruct (write_moves _ _ _ r Hw Hr) as (r2 & Hr2 & Hid2 & Hm2).
  destruct (IH (write_ok _ _ _ Hok Hw) r2 Hr2) as (r3 & Hr3 & Hid3 & Hm3). exists r3.
  split; [done|]. split; [congruence|]. by etrans.
Qed.

(** C1: an approval has what was asked for behind it. In whatever order calls
    come, however their statements interleave with other calls' and whichever
    of them fail, an approved pipeline was approved by a person, or asks for no
    person and has its workflow's evidence: where there is a Tester, a verify
    run, made to see the tests green, that exited with zero; a recorded guard,
    passed or signed off where there is no reviewer; where CI is asked for, a
    recorded pass of CI for a head (the record has its short form) that is not
    empty and, where there is a Tester too, is the very head at which such a
    verify run exited with zero; a
    quorum of approving reviews or a recorded skip; for a story, a judge no criterion of whose
    list fails; without stages, a quorum or no reviewers. The one other way is a
    review that lost its seat, whose verdict alone decides. A node is marked
    done only for an approved staged pipeline. *)
Theorem approval_is_backed h :
  reached h →
  (∀ q, q ∈ h_pipes h → pp_Status q = PipelineApproved → backed (shown q) h)
  ∧ (∀ project node text, NodeApproved project node text ∈ h_log h →
      ∃ q, q ∈ h_pipes h ∧ np_Project (pp_new q) = project ∧ np_NodeID (pp_new q) = node
        ∧ is_staged (shown q) = true ∧ pp_Status q = PipelineApproved ∧ backed (shown q) h).
Proof.
  intros Hr. pose proof (reached_ok h Hr) as Hok.
  assert (Hq : ∀ q, q ∈ h_pipes h → pp_Status q = PipelineApproved → backed (shown q) h).
  { intros q Hq. by apply (ok_pipe _ Hok q Hq). }
  split; [done|]. intros project node text Hin. destruct (ok_log _ Hok _ Hin) as (q & Hin' & Ha & Hst & Hp & Hn).
  exists q. split_and!; try done. by apply Hq.
Qed.

(** C7: a run keeps its lifecycle. Between any two moments a run keeps its id
    and its job, and its status has moved only along the lifecycle's edges; once
    it has ended, its progress stays as it is: its status, base and branch,
    error, summary, exit code, kind of failure, verdict, hand-off, the results
    of its verification and its checks, and its times. (Its pull request, its
    commit and its changes may still be recorded after that.) No two runs share
    an id. *)
Theorem runs_keep_their_lifecycle h h' r :
  reached h → rtc calls h h' → r ∈ h_runs h →
  NoDup (rw_ID <$> h_runs h')
  ∧ ∃ r', r' ∈ h_runs h' ∧ rw_ID r' = rw_ID r ∧ rw_job r' = rw_job r ∧ rtc lawful (rw_Status r) (rw_Status r')
      ∧ (RunFinal (rw_Status r) = true → rw_prog r' = rw_prog r).
Proof.
  intros Hr Hc Hin. pose proof (reached_ok h Hr) as Hok. pose proof (calls_grow h h' Hok Hc) as Hg.
  pose proof (grows_ok _ _ Hok Hg) as Hok'. split; [apply (ok_runs _ Hok')|].
  destruct (grows_moves _ _ _ Hok Hg Hin) as (r1 & Hr1 & Hid1 & Hm).
  destruct (ext_runs _ _ (grows_ext _ _ Hg) _ Hin) as (r2 & Hr2 & Hid2 & _ & Hj & Hf & _).
  assert (r1 = r2) as -> by (apply (same_id_eq rw_ID (h_runs h')); [by apply (ok_runs _ Hok')|done..|congruence]).
  by exists r2.
Qed.

(** C6: a call stops for no reason of its own but one. Given that the locks
    other calls hold are given back to it, a call comes to an end, or waits for
    ever at the lock of a pipeline that it holds itself already (a step that
    cancels a review does: see [a_review_that_cannot_start_hangs_the_call]; the
    lock is then never given back, and every later call for that pipeline waits
    behind it, which is not a case of this theorem). A call never runs out of
    the model's fuel, so two nested ends are as many as there are, and it never
    takes the lock of a runner twice. *)
Theorem calls_come_to_an_end env call n h :
  polite env → reached h →
  match outcome_of env call n h with inl _ => True | inr x => ∃ id, x = Deadlock (PipelineLock id) end.
Proof.
  intros Hp Hr. pose proof (perform_spec env call [] Hp n h (reached_ok h Hr) I) as Hs. unfold outcome_of.
  destruct (perform env call [] (n, h)) as [[n' h'] [u|x]]; [done|]. destruct Hs as [_ Hs].
  destruct x as [[id|id]|]; simpl in *; [done| |done]. by exists id.
Qed.

(** C21: what is counted stays within its limits. A run waits for a usage limit
    three times at most, and one that waits is queued or cancelled, so it was
    never offered; a pipeline's round is between one and the rounds it was
    given, which are three at most. *)
Theorem attempts_are_bounded h :
  reached h →
  (∀ r, r ∈ h_runs h →
     nw_LimitWaits (rw_job r) ≤ MaxLimitWaits
     ∧ (rw_RetryAt r ≠ EmptyString → rw_Status r = RunQueued ∨ rw_Status r = RunCancelled))
  ∧ (∀ q, q ∈ h_pipes h → 1 ≤ pp_Round q ≤ pl_MaxRounds (pp_Pipeline q) ≤ 3).
Proof.
  intros Hr. pose proof (reached_ok h Hr) as Hok. split.
  - intros r Hin. destruct (ok_run _ Hok r Hin) as ([Hw _] & _ & Hra). split; [done|]. intros Hne. specialize (Hra Hne).
    unfold one_of in Hra. simpl in Hra. rewrite !orb_true_iff, !String.eqb_eq in Hra. naive_solver.
  - intros q Hin. by apply (ok_pipe _ Hok q Hin).
Qed.

(** C22: a message goes to the run's own runner: what the hub offers a runner is
    a run made for it, with the run's own id, and what it cancels there is too. *)
Theorem messages_reach_the_runs_runner h :
  reached h →
  (∀ x job, OfferSent x job ∈ h_log h → ∃ r, r ∈ h_runs h ∧ rw_ID r = jb_RunID job ∧ rw_RunnerID r = x)
  ∧ (∀ x run reason, CancelSent x run reason ∈ h_log h → ∃ r, r ∈ h_runs h ∧ rw_ID r = run ∧ rw_RunnerID r = x).
Proof.
  intros Hr. pose proof (reached_ok h Hr) as Hok. split; [intros x job Hin|intros x run reason Hin]; apply (ok_log _ Hok _ Hin).
Qed.

(** C13: a vote that is cast stays. A reviewer has one seat in a round, and the
    verdict in it, once there, is never changed nor taken away. *)
Theorem cast_votes_stay h h' v :
  reached h → rtc calls h h' → v ∈ h_votes h → vt_Verdict v ≠ EmptyString →
  v ∈ h_votes h' ∧ (∀ w, w ∈ h_votes h' → seat w = seat v → w = v).
Proof.
  intros Hr Hc Hin Hne. pose proof (reached_ok h Hr) as Hok. pose proof (calls_grow h h' Hok Hc) as Hg.
  pose proof (ext_votes _ _ (grows_ext _ _ Hg) v Hin Hne) as Hin'. split; [done|]. intros w Hw Hs.
  by apply (same_id_eq seat (h_votes h')); [apply (ok_seats _ (grows_ok _ _ Hok Hg))|..].
Qed.

(** C12: a runner is not overfilled. When no statement and no send of a Pump
    fails, then whatever other calls do meanwhile, the runner holds after it no
    more runs than its capacity, or than it held already. *)
Theorem pump_never_overfills env x runner n h :
  polite env → reached h →
  (∀ n, e_fault env n = false) → (∀ n, e_sent env n x = true) → (∀ n, e_runner env n x = Some runner) →
  busy x (after_call env (CallPump x) n h) ≤ Z.max (busy x h) (Capacity (rn_Info runner)).
Proof.
  intros Hp Hr Hquiet Hsent Hrunner.
  pose proof (pump_places env [] x runner (busy x h) Hp _ Hquiet Hsent Hrunner n h (reached_ok h Hr)) as Ht.
  assert (Hn : slack x (busy x h) 0 h) by (unfold slack; lia). specialize (Ht Hn).
  unfold after_call. cbn [perform]. destruct (pump_returns env x [] (n, h) _) as [[n' h'] E]. rewrite E in Ht |- *.
  destruct Ht as [_ Ho]. simpl. unfold slack in Ho. lia.
Qed.
End Goals.

(** ** What goes wrong *)

Definition pr_open : PRInfo := mkPR "https://example.org/pull/1" 1 "open" EmptyString EmptyString "abc".

(** A dispatch up to the end of its implement run. *)
Definition implemented (reviewers : list AgentModel) (human : bool) : list (Env * HubCall) :=
  [(good_env, CallStart (demo_start reviewers human)); (good_env, CallAccept "r1" "id9" "main" "work");
   (good_env, CallPR "r1" "id9" pr_open)].

Definition implement_ended : HubCall := CallFinish "r1" "id9" (went_well EmptyString).

Lemma implemented_polite reviewers human : Forall (λ c, polite c.1) (implemented reviewers human).
Proof. repeat constructor; apply demo_polite. Qed.

(** The runner lost the second reviewer's model meanwhile. *)
Definition one_model_left : Env := demo_env (λ _, false) [mkModel "opus" true].

(** C20: a review that cannot start hangs the call. There is a history, with
    nothing failing and nobody else at work, after which the report that the
    implement run ended never returns: of two reviewers the second's model is
    gone from the runner, so the pipeline is failed and the first review is
    cancelled, whose own end then waits for the pipeline's lock that the same
    call holds. *)
Theorem a_review_that_cannot_start_hangs_the_call :
  ∃ h n, reached h ∧ polite one_model_left ∧ (∀ k, e_fault one_model_left k = false)
    ∧ outcome_of one_model_left implement_ended n h = inr (Deadlock (PipelineLock "id3"))
    ∧ map pp_Status (h_pipes (after_call one_model_left implement_ended n h)) = [PipelineFailed].
Proof.
  exists (play (implemented [opus; haiku] false) 0 no_runs).2, (play (implemented [opus; haiku] false) 0 no_runs).1.
  split; [apply play_reached; [apply implemented_polite|constructor]|]. split; [apply demo_polite|]. split; [done|].
  split; vm_compute; reflexivity.
Qed.

(** The first review's seat is not written. *)
Definition seat_lost : Env := demo_env (λ n, (n =? 51)%nat) both_models.

Definition one_approval : list (Env * HubCall) :=
  implemented [opus; haiku] true
  ++ [(seat_lost, implement_ended); (good_env, CallAccept "r1" "id47" "main" "work");
      (good_env, CallFinish "r1" "id47" (went_well VerdictApprove))].

Lemma one_approval_reached : reached (play one_approval 0 no_runs).2.
Proof.
  apply play_reached; [|constructor]. unfold one_approval. apply Forall_app. split; [apply implemented_polite|].
  repeat constructor; apply demo_polite.
Qed.

Lemma one_approval_ends :
  ∃ h q v, reached h ∧ h_pipes h = [q] ∧ h_votes h = [v] ∧ pp_Status q = PipelineApproved ∧ pl_Human (pp_Pipeline q) = true
    ∧ length (ReviewersOf (pp_Pipeline q)) = 2%nat ∧ vt_Verdict v = EmptyString.
Proof.
  exists (play one_approval 0 no_runs).2. eexists _, _. split; [apply one_approval_reached|].
  split; [vm_compute; reflexivity|]. split; [vm_compute; reflexivity|]. by repeat split.
Qed.

(** A lost seat decides alone. There is a history in which one write fails,
    that of a review's seat, and a pipeline of two reviewers that a person was
    to approve is approved on that one review: no person approved it, no
    approving vote was cast, and the other review was still to come. *)
Theorem a_lost_seat_decides_alone :
  ∃ h q, reached h ∧ q ∈ h_pipes h ∧ pp_Status q = PipelineApproved
    ∧ pl_Human (pp_Pipeline q) = true ∧ length (ReviewersOf (pp_Pipeline q)) = 2%nat
    ∧ ¬ person_approved (pp_ID q) h ∧ (∀ round, approvals (pp_ID q) round h = 0%nat)
    ∧ existsb (λ v, String.eqb (vt_Verdict v) EmptyString) (h_votes h) = true.
Proof.
  destruct one_approval_ends as (h & q & v & Hr & Hq & Hv & Ha & Hhu & Hlen & Hpend).
  exists h, q. split; [done|].
  rewrite Hq, Hv. split; [by left|]. split; [done|]. split; [done|]. split; [done|]. split; [|split].
  - intros (w & Hw & _ & _ & Hap). rewrite Hv in Hw. apply list_elem_of_singleton in Hw as ->. by rewrite Hpend in Hap.
  - intros round. unfold approvals, approves. rewrite Hv. simpl. rewrite Hpend. simpl. by rewrite andb_false_r.
  - simpl. by rewrite Hpend.
Qed.

(** Three runs queued for a runner that is away. *)
Definition away : Env := demo_world (λ _, false) (λ _, false) both_models.
Definition three_queued : Hub := (play (replicate 3 (away, CallStart (demo_start [opus] false))) 0 no_runs).2.
Definition a_failed_read : Env := demo_env (λ n, (n =? 55)%nat) both_models.

Lemma three_reached : reached three_queued.
Proof. apply play_reached; [|constructor]. repeat constructor; apply demo_polite. Qed.

(** One failed read is enough to overfill a runner: the run is marked as
    offered, but as it cannot be read back Pump counts its place as free, and
    the offer is never sent. *)
Lemma a_failed_read_overfills :
  reached three_queued
  ∧ Capacity (Some (demo_info both_models)) = 2
  ∧ busy "r1" (after_call a_failed_read (CallPump "r1") 48 three_queued) = 3
  ∧ length (List.filter (λ a, match a with OfferSent _ _ => true | _ => false end)
             (h_log (after_call a_failed_read (CallPump "r1") 48 three_queued))) = 2%nat.
Proof. split; [exact three_reached|]. by repeat split; vm_compute. Qed.

(** ** The guarantees, on the example *)

(** One review, which approves. *)
Definition demo_script : list (Env * HubCall) :=
  implemented [opus] false
  ++ [(good_env, implement_ended); (good_env, CallAccept "r1" "id47" "main" "work");
      (good_env, CallFinish "r1" "id47" (went_well VerdictApprove))].

Lemma demo_script_polite : Forall (λ c, polite c.1) demo_script.
Proof. apply Forall_app. split; [apply implemented_polite|]. repeat constructor; apply demo_polite. Qed.

Definition halfway : Hub := (play (implemented [opus] false) 0 no_runs).2.
Definition demo_hub : Hub := (play demo_script 0 no_runs).2.

Lemma halfway_reached : reached halfway.
Proof. apply play_reached; [apply implemented_polite|constructor]. Qed.
Lemma demo_reached : reached demo_hub.
Proof. apply play_reached; [apply demo_script_polite|constructor]. Qed.

Lemma first_of {A} (x : A) (xs ys : list A) : xs = x :: ys → x ∈ xs.
Proof. intros ->. by left. Qed.

Definition the_first {A} (xs : list A) (d : A) : A := match xs with x :: _ => x | [] => d end.

Definition no_row : Row := fresh_row EmptyString EmptyString
  (mkNew (mkPlace EmptyString EmptyString EmptyString EmptyString EmptyString EmptyString EmptyString EmptyString EmptyString EmptyString EmptyString)
     EmptyString EmptyString EmptyString EmptyString EmptyString EmptyString EmptyString EmptyString EmptyString EmptyString EmptyString []
     EmptyString EmptyString EmptyString EmptyString 0 EmptyString EmptyString no_roles).

(** A node whose workflow has a Tester and CI: the tests are written and found
    red, the implementation follows, the tests are found green at [bbb], and CI
    reports, first on another head, which does not count. *)
Definition tested_flow : Workflow :=
  mkWorkflow EmptyString (mkStages false false true false true false) 0 0 0 0 None EmptyString.

Definition staged_start : StartRequest :=
  mkStartRequest
    (mkCreate "node" "r1" "claude" "opus" "repo" EmptyString EmptyString [] None
       EmptyString EmptyString EmptyString EmptyString EmptyString)
    "proj" "ann" "Ann" EmptyString
    (λ _ _, inr (Some (mkNodeInfo "Node" "Do it." "task" AgentDispatch [] false
       (Some (mkAcceptance [mkAcceptanceItem "a1" "it works"] false EmptyString)) (Some tested_flow)))) [] None.

Definition pr_at (ci head : string) : PRInfo := mkPR "https://example.org/pull/1" 1 "open" ci EmptyString head.
Definition changed (path : string) : RunChanges :=
  mkRunChanges "c0ffee" "main" [mkFileChange path EmptyString "modified" 3 1] 3 1 EmptyString false.
Definition tests_exit (exit : Z) (head : string) : RunResult :=
  mkResult RunSucceeded EmptyString "done" 0 EmptyString EmptyString EmptyString EmptyString EmptyString
    (Some (mkVerify EmptyString head exit (exit =? 0) 10 EmptyString false)) [] false.

(** A run that is accepted, reports its changes and its head, and ends. *)
Definition worked (run path head : string) : list HubCall :=
  [CallAccept "r1" run "main" "work"; CallReportChanges "r1" run (changed path);
   CallPR "r1" run (pr_at EmptyString head); CallFinish "r1" run (went_well EmptyString)].
Definition tested_run (run : string) (exit : Z) (head : string) : list HubCall :=
  [CallAccept "r1" run "main" "work"; CallFinish "r1" run (tests_exit exit head)].

Definition staged_script : list (Env * HubCall) :=
  (λ call, (good_env, call)) <$>
    CallStart staged_start :: worked "id10" "pkg/a_test.go" "aaa" ++ tested_run "id55" 1 "aaa"
    ++ worked "id102" "pkg/a.go" "bbb" ++ tested_run "id156" 0 "bbb"
    ++ [CallPR "r1" "id102" (pr_at CISuccess "aaa"); CallPR "r1" "id102" (pr_at CISuccess "bbb")].
Definition staged_hub : Hub := (play staged_script 0 no_runs).2.

Lemma staged_reached : reached staged_hub.
Proof. apply play_reached; [|constructor]. unfold staged_script. repeat constructor; apply demo_polite. Qed.

Lemma approval_is_backed_witness :
  reached staged_hub
  ∧ ∃ q, q ∈ h_pipes staged_hub ∧ pp_Status q = PipelineApproved
      ∧ st_Tester (stages_of (shown q)) = true ∧ st_CI (stages_of (shown q)) = true ∧ backed (shown q) staged_hub.
Proof.
  split; [exact staged_reached|]. destruct (approval_is_backed staged_hub staged_reached) as [Hb _].
  eexists. assert (Hin : _ ∈ h_pipes staged_hub) by (eapply first_of; vm_compute; reflexivity).
  split; [exact Hin|]. split; [reflexivity|]. split; [reflexivity|]. split; [reflexivity|]. apply (Hb _ Hin). reflexivity.
Defined.

Lemma runs_keep_their_lifecycle_witness :
  ∃ r, r ∈ h_runs halfway ∧ rw_Status r = RunRunning
    ∧ NoDup (rw_ID <$> h_runs demo_hub)
    ∧ ∃ r', r' ∈ h_runs demo_hub ∧ rw_ID r' = rw_ID r ∧ rw_job r' = rw_job r ∧ rtc lawful (rw_Status r) (rw_Status r')
        ∧ (RunFinal (rw_Status r) = true → rw_prog r' = rw_prog r).
Proof.
  exists (the_first (h_runs halfway) no_row). assert (Hin : the_first (h_runs halfway) no_row ∈ h_runs halfway).
  { eapply first_of. vm_compute. reflexivity. }
  split; [exact Hin|]. split; [vm_compute; reflexivity|].
  apply (runs_keep_their_lifecycle halfway demo_hub _ halfway_reached); [|exact Hin].
  assert (Hrest : demo_hub = (play (drop 3 demo_script) (play (implemented [opus] false) 0 no_runs).1 halfway).2) by (vm_compute; reflexivity).
  rewrite Hrest. apply play_calls. repeat constructor; apply demo_polite.
Defined.

Lemma calls_come_to_an_end_witness :
  polite good_env ∧ reached halfway
  ∧ match outcome_of good_env implement_ended 35 halfway with inl _ => True | inr x => ∃ id, x = Deadlock (PipelineLock id) end.
Proof.
  split; [apply demo_polite|]. split; [exact halfway_reached|].
  exact (calls_come_to_an_end good_env implement_ended 35 halfway (demo_polite _ _) halfway_reached).
Defined.

Lemma attempts_are_bounded_witness :
  reached demo_hub ∧ ∃ q, q ∈ h_pipes demo_hub ∧ 1 ≤ pp_Round q ≤ pl_MaxRounds (pp_Pipeline q) ≤ 3.
Proof.
  split; [exact demo_reached|]. eexists. assert (Hin : _ ∈ h_pipes demo_hub) by (eapply first_of; vm_compute; reflexivity).
  split; [exact Hin|]. exact (proj2 (attempts_are_bounded demo_hub demo_reached) _ Hin).
Defined.

Lemma messages_reach_the_runs_runner_witness :
  reached demo_hub ∧ ∃ x job, OfferSent x job ∈ h_log demo_hub ∧ ∃ r, r ∈ h_runs demo_hub ∧ rw_ID r = jb_RunID job ∧ rw_RunnerID r = x.
Proof.
  split; [exact demo_reached|].
  assert (Hin : ∃ x job, OfferSent x job ∈ h_log demo_hub).
  { eexists _, _. eapply (list_elem_of_lookup_2 _ 1%nat). vm_compute. reflexivity. }
  destruct Hin as (x & job & Hin). exists x, job. split; [exact Hin|].
  exact (proj1 (messages_reach_the_runs_runner demo_hub demo_reached) _ _ Hin).
Defined.

(** The review's seat, its vote cast, and the hub a moment later. *)
Definition later : list (Env * HubCall) := [(good_env, CallReleaseDue); (good_env, CallCancel "id47" "too late")].
Definition later_hub : Hub := (play later 100 demo_hub).2.
Definition no_vote : Vote := mkVote EmptyString 0 EmptyString EmptyString EmptyString EmptyString EmptyString EmptyString EmptyString.

Lemma cast_votes_stay_witness :
  ∃ v, vt_Verdict v = VerdictApprove ∧ v ∈ h_votes later_hub ∧ (∀ w, w ∈ h_votes later_hub → seat w = seat v → w = v).
Proof.
  exists (the_first (h_votes demo_hub) no_vote). split; [vm_compute; reflexivity|].
  apply (cast_votes_stay demo_hub later_hub _ demo_reached).
  - apply play_calls. repeat constructor; apply demo_polite.
  - eapply first_of. vm_compute. reflexivity.
  - vm_compute. discriminate.
Defined.

Lemma pump_never_overfills_witness :
  reached demo_hub
  ∧ busy "r1" (after_call good_env (CallPump "r1") 100 demo_hub) ≤ Z.max (busy "r1" demo_hub) (Capacity (Some (demo_info both_models))).
Proof.
  split; [exact demo_reached|].
  exact (pump_never_overfills good_env "r1" (mkRunner "r1" "laptop" "ann" true (Some (demo_info both_models))) 100 demo_hub
           (demo_polite _ _) demo_reached (λ _, eq_refl) (λ _, eq_refl) (λ _, eq_refl)).
Defined.
