(* ===== verification/Sidecar.v ===== *)
(** Where a live document goes when nobody holds it (internal/realtime,
    docstore.go): the names of documents and of their sidecar files, the
    sidecar's format, and the checks on what a client sends of either.  Reading
    and writing the files is in [Live].  [GoRev] is store.Rev, a prefix of a
    SHA-256 sum. *)

From stdpp Require Import pretty.
From Stdlib Require Import Ascii.
From S2P Require Import Prelude GoStr.
Open Scope Z_scope.

Class GoRev := Rev : string → string.

(** * Bounds *)

Definition maxDocUpdateBytes : Z := 49152.
Definition maxDocSnapshotBytes : Z := 49152.
Definition maxDocSnapshotTotalBytes : Z := 25165824.
Definition maxDocSnapshotChunks : Z := 512.
Definition maxDocRevBytes : Z := 64.
Definition maxDocLogBytes : Z := 1048576.
Definition maxDocDeltaEntries : Z := 4096.
Definition maxDocSidecarBytes : Z := maxDocSnapshotTotalBytes + maxDocLogBytes + maxDocUpdateBytes + 65536.
Definition maxDocSidecarNameBytes : nat := 96.

Definition len (s : string) : Z := Z.of_nat (String.length s).

(** What a list of updates weighs. *)
Fixpoint bytes (updates : list string) : Z :=
  match updates with [] => 0 | u :: us => len u + bytes us end.

(** * Names *)

Definition slash : ascii := "/".

(** docKey: a node's document, or one of its subpages. *)
Definition docKey (nodeID pageID : string) : string :=
  if String.eqb pageID EmptyString then nodeID else nodeID +:+ String slash pageID.

Fixpoint splitDocKey (key : string) : string * string :=
  match key with
  | EmptyString => (EmptyString, EmptyString)
  | String c key' => if Ascii.eqb c slash then (EmptyString, key') else let '(node, page) := splitDocKey key' in (String c node, page)
  end.

Definition hex_upper (z : Z) : ascii := byte_of (if z <? 10 then 48 + z else 55 + z).
Definition plain_char (c : ascii) : bool :=
  let z := byte_val c in in_range 97 122 z || in_range 65 90 z || in_range 48 57 z || (z =? 45) || (z =? 95).

(** What one byte of a key is in a file name. *)
Definition escape_char (c : ascii) : string :=
  if plain_char c then str_of_char c
  else String "%" (String (hex_upper (byte_val c / 16)) (str_of_char (hex_upper (byte_val c mod 16)))).

Fixpoint escape (key : string) : string :=
  match key with EmptyString => EmptyString | String c key' => escape_char c +:+ escape key' end.

Definition escapeDocKey `{GoRev} (key : string) : string :=
  let name := escape key in
  if (String.length name <=? maxDocSidecarNameBytes)%nat then name
  else str_take maxDocSidecarNameBytes name +:+ "-" +:+ Rev key.

Definition docSidecarSuffix : string := ".bin".
Definition docSidecarName `{GoRev} (key : string) : string := escapeDocKey key +:+ docSidecarSuffix.

(** * What a client may name *)

Definition is_digit (c : ascii) : bool := in_range 48 57 (byte_val c).
Definition hex_char (c : ascii) : bool :=
  let z := byte_val c in in_range 48 57 z || in_range 97 102 z || in_range 65 70 z.

Definition validDocRev (rev : string) : bool :=
  negb (String.eqb rev EmptyString) && (len rev <=? maxDocRevBytes) && str_all hex_char rev.

Fixpoint digits_val (acc : Z) (s : string) : option Z :=
  match s with
  | EmptyString => Some acc
  | String c s' => if is_digit c then digits_val (acc * 10 + (byte_val c - 48)) s' else None
  end.

(** strconv.ParseUint(s, 10, 64). *)
Definition ParseUint (s : string) : option Z :=
  if String.eqb s EmptyString then None
  else v ← digits_val 0 s; if v <? 2 ^ 64 then Some v else None.

(** strconv.Atoi: a sign and digits, within an int. *)
Definition Atoi (s : string) : option Z :=
  let '(neg, ds) := match s with
                    | String c s' => if Ascii.eqb c "-" then (true, s') else if Ascii.eqb c "+" then (false, s') else (false, s)
                    | EmptyString => (false, EmptyString)
                    end in
  if String.eqb ds EmptyString then None
  else
    v ← digits_val 0 ds;
    let v := if neg : bool then - v else v in
    if (- 2 ^ 63 <=? v) && (v <? 2 ^ 63) then Some v else None.

Definition validDocToken (token : string) : bool :=
  if String.eqb token EmptyString || (20 <? len token)
     || ((1 <? len token) && match token with String c _ => Ascii.eqb c "0" | EmptyString => false end)
  then false
  else match ParseUint token with
       | Some v => negb (v =? 0) && String.eqb (pretty v) token
       | None => false
       end.

(** * The sidecar *)

(** docSidecar: a session's log, and the revision of the file it belongs to. *)
Record Card := mkCard { cd_rev : string; cd_updates : list string; cd_snapshot : bool }.

Definition docSidecarMagicV1 : string := "nodevas-crdt v1".
Definition docSidecarMagic : string := "nodevas-crdt v2".

Definition nl : ascii := "010".
Definition space : ascii := " ".
Definition bool_text (b : bool) : string := if b then "true" else "false".

Definition encode_update (u : string) : string := pretty (len u) +:+ String nl (u +:+ str_of_char nl).

Definition encodeDocSidecar (card : Card) : string :=
  docSidecarMagic +:+ String space (cd_rev card +:+ String space (bool_text (cd_snapshot card) +:+ String nl
    (concat_str (map encode_update (cd_updates card))))).

Inductive BadSidecar :=
  | NoHeader | BadHeader | NotOurs | BadRevision
  | NoBase | Truncated | BadLength | BigDelta | ManyDeltas | BigTail | BigLog | Unterminated.

(** bufio.Reader.ReadSlice: a line must end within the reader's buffer. *)
Definition buffer_bytes : nat := Pos.to_nat 4096.

Fixpoint cut_line (n : nat) (s : string) : option (string * string) :=
  match n, s with
  | S n', String c s' => if Ascii.eqb c nl then Some (EmptyString, s') else '(line, rest) ← cut_line n' s'; Some (String c line, rest)
  | _, _ => None
  end.

Fixpoint cut_char (sep : ascii) (s : string) : option (string * string) :=
  match s with
  | EmptyString => None
  | String c s' => if Ascii.eqb c sep then Some (EmptyString, s') else '(a, b) ← cut_char sep s'; Some (String c a, b)
  end.

Definition readDocSidecarHeader (s : string) : outcome BadSidecar (string * string) :=
  match cut_line buffer_bytes s with Some lr => Ok lr | None => Fail NoHeader end.

Record Header := mkHeader { hd_rev : string; hd_snapshot : bool; hd_legacy : bool }.

Definition parseDocSidecarHeader (line : string) : outcome BadSidecar Header :=
  hd ← match cut_prefix line (docSidecarMagic +:+ str_of_char space) with
       | Some rest =>
           match cut_char space rest with
           | Some (rev, encoded) =>
               if String.eqb encoded "true" || String.eqb encoded "false"
               then Ok (mkHeader rev (String.eqb encoded "true") false) else Fail BadHeader
           | None => Fail BadHeader
           end
       | None =>
           match cut_prefix line (docSidecarMagicV1 +:+ str_of_char space) with
           | Some rev => Ok (mkHeader rev false true)
           | None => Fail NotOurs
           end
       end;
  if validDocRev (hd_rev hd) then Ok hd else Fail BadRevision.

(** One entry: its length on a line, its bytes, a newline.  [snapshot] says the
    first entry is the base; a v1 file says so by its size. *)
Definition read_entry (legacy snapshot : bool) (entry : nat) (total tail : Z) (s : string) :
    outcome BadSidecar (string * bool * Z * Z * string) :=
  match cut_line buffer_bytes s with
  | None => Fail Truncated
  | Some (line, rest) =>
      match Atoi line with
      | None => Fail BadLength
      | Some size =>
          if (size <=? 0) || (maxDocSnapshotTotalBytes <? size) then Fail BadLength
          else
            let first := (entry =? 0)%nat in
            let big := negb (snapshot && first) && (maxDocUpdateBytes <? size) in
            if big && negb (legacy && first) then Fail BigDelta
            else
              let snapshot := snapshot || big in
              let tail := if snapshot && first then tail else tail + size in
              let entries := Z.of_nat entry + 1 - (if snapshot then 1 else 0) in
              if maxDocDeltaEntries <? entries then Fail ManyDeltas
              else if maxDocLogBytes + maxDocUpdateBytes <? tail then Fail BigTail
              else
                let total := total + size in
                if maxDocSnapshotTotalBytes + maxDocLogBytes + maxDocUpdateBytes <? total then Fail BigLog
                else
                  let n := Z.to_nat size in
                  if (String.length rest <? n)%nat then Fail Truncated
                  else match str_drop n rest with
                       | String c rest' => if Ascii.eqb c nl then Ok (str_take n rest, snapshot, total, tail, rest') else Fail Unterminated
                       | EmptyString => Fail Unterminated
                       end
      end
  end.

(** Every entry takes some of the input, so its length is fuel enough. *)
Fixpoint read_entries (fuel : nat) (legacy snapshot : bool) (updates : list string) (total tail : Z) (s : string) :
    outcome BadSidecar (list string * bool) :=
  match fuel with
  | O => OutOfFuel
  | S fuel =>
      if String.eqb s EmptyString then
        if snapshot && match updates with [] => true | _ => false end then Fail NoBase else Ok (updates, snapshot)
      else
        '(u, snapshot, total, tail, rest) ← read_entry legacy snapshot (length updates) total tail s;
        read_entries fuel legacy snapshot (updates ++ [u]) total tail rest
  end.

Definition decodeDocSidecarBody (s : string) (hd : Header) : outcome BadSidecar Card :=
  '(updates, snapshot) ← read_entries (S (String.length s)) (hd_legacy hd) (hd_snapshot hd) [] 0 0 s;
  Ok (mkCard (hd_rev hd) updates snapshot).

Definition decodeDocSidecar (s : string) : outcome BadSidecar Card :=
  '(line, rest) ← readDocSidecarHeader s;
  hd ← parseDocSidecarHeader line;
  decodeDocSidecarBody rest hd.
