(* ===== verification/SidecarFacts.v ===== *)
(** The sidecar of a live document: what is written is read back, it stays
    within its size, and distinct documents have distinct files. *)

From stdpp Require Import pretty.
From Stdlib Require Import Ascii.
From S2P Require Import Prelude GoStr Sidecar.
Open Scope Z_scope.

(** * Strings *)

Lemma len_app (a b : string) : len (a +:+ b) = len a + len b.
Proof. unfold len. rewrite str_length_app. lia. Qed.

Lemma len_cons c s : len (String c s) = 1 + len s.
Proof. unfold len. simpl. lia. Qed.

Lemma len_nonneg s : 0 <= len s.
Proof. unfold len. lia. Qed.

Lemma bytes_app us vs : bytes (us ++ vs) = bytes us + bytes vs.
Proof. induction us as [|u us IH]; simpl; [done|]. rewrite IH. lia. Qed.

Lemma bytes_nonneg us : 0 <= bytes us.
Proof. induction us as [|u us IH]; simpl; [lia|]. pose proof (len_nonneg u). lia. Qed.

Lemma str_take_len (a b : string) : str_take (String.length a) (a +:+ b) = a.
Proof. induction a as [|c a IH]; simpl; [by destruct b|]. by rewrite IH. Qed.

Lemma str_drop_len (a b : string) : str_drop (String.length a) (a +:+ b) = b.
Proof. induction a as [|c a IH]; simpl; [by destruct b|]. done. Qed.

Lemma str_all_app f (a b : string) : str_all f (a +:+ b) = str_all f a && str_all f b.
Proof. induction a as [|c a IH]; [done|]. simpl. rewrite IH. by rewrite andb_assoc. Qed.

Lemma str_all_impl (f g : ascii → bool) (s : string) : (∀ c, f c = true → g c = true) → str_all f s = true → str_all g s = true.
Proof. intros Hfg. induction s as [|c s IH]; [done|]. simpl. rewrite !andb_true_iff. naive_solver. Qed.

(** * Decimal numbers *)

Lemma digit_char x : (x < 10)%N → is_digit (pretty_N_char x) = true ∧ byte_val (pretty_N_char x) - 48 = Z.of_N x.
Proof.
  intros Hx. assert (Hc : x = 0%N ∨ x = 1%N ∨ x = 2%N ∨ x = 3%N ∨ x = 4%N ∨ x = 5%N ∨ x = 6%N ∨ x = 7%N ∨ x = 8%N ∨ x = 9%N) by lia.
  by destruct_or! Hc; subst.
Qed.

Lemma digits_go x : ∀ s, digits_val 0 (pretty_N_go x s) = digits_val (Z.of_N x) s.
Proof.
  induction (N.lt_wf_0 x) as [x _ IH]. intros s. destruct (decide (0 < x)%N) as [Hx|Hx].
  - rewrite pretty_N_go_step by done. rewrite IH by (apply N.div_lt; lia). simpl.
    destruct (digit_char (x `mod` 10)%N) as [-> ->]; [by apply N.mod_lt|]. f_equal.
    pose proof (N.div_mod' x 10) as Hdm. lia.
  - assert (x = 0%N) as -> by lia. by rewrite pretty_N_go_0.
Qed.

Lemma go_digits x : ∀ s, str_all is_digit s = true → str_all is_digit (pretty_N_go x s) = true.
Proof.
  induction (N.lt_wf_0 x) as [x _ IH]. intros s Hs. destruct (decide (0 < x)%N) as [Hx|Hx].
  - rewrite pretty_N_go_step by done. apply IH; [apply N.div_lt; lia|]. simpl.
    rewrite (proj1 (digit_char _ (N.mod_lt x 10 ltac:(done)))). done.
  - assert (x = 0%N) as -> by lia. by rewrite pretty_N_go_0.
Qed.

Lemma go_length x : ∀ s, (String.length s <= String.length (pretty_N_go x s))%nat.
Proof.
  induction (N.lt_wf_0 x) as [x _ IH]. intros s. destruct (decide (0 < x)%N) as [Hx|Hx].
  - rewrite pretty_N_go_step by done. etrans; [|apply IH; apply N.div_lt; lia]. simpl. lia.
  - assert (x = 0%N) as -> by lia. by rewrite pretty_N_go_0.
Qed.

(** A number's text is digits, as many as its bound says. *)
Lemma go_short k : ∀ x s, Z.of_N x < 10 ^ Z.of_nat k → (String.length (pretty_N_go x s) <= k + String.length s)%nat.
Proof.
  induction k as [|k IH]; intros x s Hx.
  - assert (x = 0%N) as -> by (simpl in Hx; lia). rewrite pretty_N_go_0. lia.
  - destruct (decide (0 < x)%N) as [Hp|Hp].
    + rewrite pretty_N_go_step by done. etrans; [apply IH|simpl; lia].
      rewrite N2Z.inj_div. apply Z.div_lt_upper_bound; [done|]. rewrite <- Z.pow_succ_r by lia. by rewrite <- Nat2Z.inj_succ.
    + assert (x = 0%N) as -> by lia. rewrite pretty_N_go_0. lia.
Qed.

Lemma pretty_pos z : 0 < z → pretty z = pretty_N_go (Z.to_N z) EmptyString.
Proof. intros Hz. destruct z as [|p|]; [lia| |lia]. done. Qed.

Lemma pretty_digits z : 0 < z → str_all is_digit (pretty z) = true.
Proof. intros Hz. rewrite pretty_pos by done. by apply go_digits. Qed.

Lemma pretty_nonempty z : 0 < z → ∃ c s, pretty z = String c s ∧ is_digit c = true.
Proof.
  intros Hz. pose proof (pretty_digits z Hz) as Hd. destruct (pretty z) as [|c s] eqn:E.
  - exfalso. rewrite pretty_pos, pretty_N_go_step in E by lia.
    pose proof (go_length (Z.to_N z `div` 10) (String (pretty_N_char (Z.to_N z `mod` 10)) EmptyString)) as Hl.
    rewrite E in Hl. simpl in Hl. lia.
  - exists c, s. simpl in Hd. by apply andb_true_iff in Hd as [? _].
Qed.

Lemma pretty_short k z : 0 < z < 10 ^ Z.of_nat k → (String.length (pretty z) <= k)%nat.
Proof. intros Hz. rewrite pretty_pos by lia. etrans; [apply (go_short k); lia|simpl; lia]. Qed.

Lemma digits_pretty z : 0 < z → digits_val 0 (pretty z) = Some z.
Proof. intros Hz. rewrite pretty_pos, digits_go by done. simpl. by rewrite Z2N.id by lia. Qed.

Lemma digit_not_sign c : is_digit c = true → Ascii.eqb c "-" = false ∧ Ascii.eqb c "+" = false.
Proof. intros Hc. split; apply Ascii.eqb_neq; intros ->; done. Qed.

Lemma Atoi_pretty z : 0 < z < 2 ^ 63 → Atoi (pretty z) = Some z.
Proof.
  intros Hz. destruct (pretty_nonempty z) as (c & s & E & Hc); [lia|]. unfold Atoi. rewrite E.
  destruct (digit_not_sign c Hc) as [-> ->].
  change (String.eqb (String c s) EmptyString) with false. cbv beta iota. rewrite <- E, digits_pretty by lia. simpl.
  rewrite (proj2 (Z.leb_le _ _)), (proj2 (Z.ltb_lt _ _)) by lia. done.
Qed.

Lemma ParseUint_pretty z : 0 < z < 2 ^ 64 → ParseUint (pretty z) = Some z.
Proof.
  intros Hz. destruct (pretty_nonempty z) as (c & s & E & Hc); [lia|]. unfold ParseUint. rewrite E.
  change (String.eqb (String c s) EmptyString) with false. cbv beta iota. rewrite <- E, digits_pretty by lia. simpl.
  by rewrite (proj2 (Z.ltb_lt _ _)) by lia.
Qed.

(** * Lines *)

Lemma cut_line_spec n a b : str_all (λ c, negb (Ascii.eqb c nl)) a = true → (String.length a < n)%nat →
  cut_line n (a +:+ String nl b) = Some (a, b).
Proof.
  revert n. induction a as [|c a IH]; intros n Ha Hn; destruct n as [|n]; simpl in *; try lia; [done|].
  apply andb_true_iff in Ha as [Hc Ha]. apply negb_true_iff in Hc. rewrite Hc, IH by (done || lia). done.
Qed.

Lemma cut_char_spec sep a b : str_all (λ c, negb (Ascii.eqb c sep)) a = true → cut_char sep (a +:+ String sep b) = Some (a, b).
Proof.
  induction a as [|c a IH]; intros Ha; simpl in *; [by rewrite Ascii.eqb_refl|].
  apply andb_true_iff in Ha as [Hc Ha]. apply negb_true_iff in Hc. by rewrite Hc, IH.
Qed.

Lemma cut_prefix_app p s : cut_prefix (p +:+ s) p = Some s.
Proof.
  unfold cut_prefix. assert (has_prefix (p +:+ s) p = true) as ->.
  { induction p as [|c p IH]; simpl; [by destruct s|]. by rewrite Ascii.eqb_refl. }
  by rewrite str_drop_len.
Qed.

Lemma digits_no_nl s : str_all is_digit s = true → str_all (λ c, negb (Ascii.eqb c nl)) s = true.
Proof. apply str_all_impl. intros c Hc. apply negb_true_iff, Ascii.eqb_neq. by intros ->. Qed.

(** * Entries *)

(** What a session's log may be: a base where there is a snapshot, then deltas
    within the ceilings the live session keeps to. *)
Record log_ok (snapshot : bool) (log : list string) : Prop := {
  lo_base : snapshot = true → ∃ base tail, log = base :: tail;
  lo_size : ∀ u, u ∈ log → 0 < len u ≤ maxDocSnapshotTotalBytes;
  lo_delta : ∀ u, u ∈ (if snapshot then tail log else log) → len u ≤ maxDocUpdateBytes;
  lo_count : Z.of_nat (length (if snapshot then tail log else log)) ≤ maxDocDeltaEntries;
  lo_bytes : bytes (if snapshot then tail log else log) ≤ maxDocLogBytes + maxDocUpdateBytes;
}.

Lemma total_size_bound z : 0 < z ≤ maxDocSnapshotTotalBytes → 0 < z < 2 ^ 63.
Proof. unfold maxDocSnapshotTotalBytes. lia. Qed.

Lemma encode_update_app u rest : encode_update u +:+ rest = pretty (len u) +:+ String nl (u +:+ String nl rest).
Proof. unfold encode_update. rewrite str_app_assoc. f_equal. rewrite str_app_cons. f_equal. by rewrite str_app_assoc. Qed.

Lemma read_entry_spec snapshot entry total tail u rest :
  let base := snapshot && (entry =? 0)%nat in
  0 < len u ≤ maxDocSnapshotTotalBytes →
  (base = false → len u ≤ maxDocUpdateBytes) →
  Z.of_nat entry + 1 - (if snapshot then 1 else 0) ≤ maxDocDeltaEntries →
  (if base then tail else tail + len u) ≤ maxDocLogBytes + maxDocUpdateBytes →
  total + len u ≤ maxDocSnapshotTotalBytes + maxDocLogBytes + maxDocUpdateBytes →
  read_entry false snapshot entry total tail (encode_update u +:+ rest)
  = Ok (u, snapshot, total + len u, if base then tail else tail + len u, rest).
Proof.
  intros base Hsize Hdelta Hcount Htail Htotal. unfold read_entry. rewrite encode_update_app.
  rewrite cut_line_spec.
  2:{ apply digits_no_nl, pretty_digits. lia. }
  2:{ pose proof (pretty_short 8 (len u) ltac:(unfold maxDocSnapshotTotalBytes in *; simpl; lia)) as Hs. unfold buffer_bytes. lia. }
  rewrite Atoi_pretty by (by apply total_size_bound).
  rewrite (proj2 (Z.leb_gt _ _)), (proj2 (Z.ltb_ge _ _)) by lia. simpl orb. cbv beta iota.
  assert (negb base && (maxDocUpdateBytes <? len u) = false) as Hbig.
  { destruct base eqn:Eb; [done|]. simpl. apply Z.ltb_ge. by apply Hdelta. }
  fold base. rewrite Hbig. simpl andb. cbv beta iota. rewrite orb_false_r. fold base.
  rewrite (proj2 (Z.ltb_ge _ _)) by done. rewrite (proj2 (Z.ltb_ge _ _)) by done. rewrite (proj2 (Z.ltb_ge _ _)) by done.
  unfold len at 1 2 3. rewrite Nat2Z.id.
  rewrite (proj2 (Nat.ltb_ge _ _)) by (rewrite str_length_app; lia).
  rewrite str_drop_len, str_take_len. simpl. done.
Qed.

Lemma entry_length u : (0 < String.length (encode_update u))%nat.
Proof. unfold encode_update. rewrite str_length_app. simpl. lia. Qed.

Definition deltas (snapshot : bool) (log : list string) : list string := if snapshot then tail log else log.

Lemma concat_cons x xs : concat_str (x :: xs) = x +:+ concat_str xs.
Proof. done. Qed.

Lemma log_total snapshot log : log_ok snapshot log →
  bytes log ≤ maxDocSnapshotTotalBytes + maxDocLogBytes + maxDocUpdateBytes.
Proof.
  intros [Hb Hs _ _ Hbytes]. destruct snapshot.
  - destruct (Hb eq_refl) as (base & us & ->). simpl in *. pose proof (Hs base ltac:(left)). lia.
  - unfold maxDocSnapshotTotalBytes. lia.
Qed.

Lemma deltas_app snapshot a b : (snapshot = true → a ≠ [] ∨ b = []) → deltas snapshot (a ++ b) = deltas snapshot a ++ b.
Proof. intros H. destruct snapshot; [|done]. destruct a; [|done]. destruct (H eq_refl) as [?| ->]; done. Qed.

(** The entries of a log that is within the ceilings are read, whatever follows. *)
Lemma read_on snapshot log more : log_ok snapshot log → ∀ rest_ done_ fuel,
  log = done_ ++ rest_ →
  (String.length (concat_str (map encode_update rest_) +:+ more) < fuel)%nat →
  ∃ fuel', (String.length more < fuel')%nat ∧
    read_entries fuel false snapshot done_ (bytes done_) (bytes (deltas snapshot done_)) (concat_str (map encode_update rest_) +:+ more)
    = read_entries fuel' false snapshot log (bytes log) (bytes (deltas snapshot log)) more.
Proof.
  intros Hok rest_. induction rest_ as [|u rest_ IH]; intros done_ fuel Hlog Hfuel.
  - rewrite app_nil_r in Hlog. subst done_. by exists fuel.
  - destruct fuel as [|fuel]; [lia|]. assert (Hin : u ∈ log) by (rewrite Hlog; set_solver).
    simpl map in *. rewrite concat_cons, str_app_assoc in *.
    assert (Hne : encode_update u +:+ concat_str (map encode_update rest_) +:+ more ≠ EmptyString).
    { unfold encode_update. destruct (pretty_nonempty (len u)) as (c & s & -> & _); [by apply (lo_size _ _ Hok)|]. done. }
    cbn [read_entries]. rewrite (proj2 (String.eqb_neq _ _)) by done.
    assert (Hd : deltas snapshot log = deltas snapshot (done_ ++ [u]) ++ rest_).
    { rewrite Hlog. change (u :: rest_) with ([u] ++ rest_). rewrite app_assoc. apply deltas_app. intros _. left. by destruct done_. }
    assert (Hbase : bytes (deltas snapshot (done_ ++ [u]))
              = if snapshot && (length done_ =? 0)%nat then bytes (deltas snapshot done_) else bytes (deltas snapshot done_) + len u).
    { destruct snapshot, done_ as [|d ds]; simpl; rewrite ?bytes_app; simpl; lia. }
    rewrite read_entry_spec.
    + simpl. specialize (IH (done_ ++ [u]) fuel). rewrite Hbase in IH. rewrite bytes_app in IH. simpl in IH. rewrite Z.add_0_r in IH.
      apply IH; [by rewrite <- app_assoc|]. rewrite str_length_app in Hfuel. pose proof (entry_length u). lia.
    + by apply (lo_size _ _ Hok).
    + intros Hb. apply (lo_delta _ _ Hok). fold (deltas snapshot log). rewrite Hd.
      destruct snapshot, done_ as [|d ds]; simpl in *; try done; set_solver.
    + pose proof (lo_count _ _ Hok) as Hc. fold (deltas snapshot log) in Hc. rewrite Hd, length_app in Hc.
      destruct snapshot, done_ as [|d ds]; simpl in *; rewrite ?length_app in *; simpl in *; lia.
    + rewrite <- Hbase. pose proof (lo_bytes _ _ Hok) as Hb. fold (deltas snapshot log) in Hb. rewrite Hd, bytes_app in Hb.
      pose proof (bytes_nonneg rest_). lia.
    + pose proof (log_total _ _ Hok) as Ht. rewrite Hlog, bytes_app in Ht. simpl in Ht. pose proof (bytes_nonneg rest_). lia.
Qed.

Lemma bytes_no_deltas snapshot : bytes (deltas snapshot []) = 0.
Proof. by destruct snapshot. Qed.

(** Nothing follows: that gives the log. *)
Lemma read_entries_spec snapshot log fuel : log_ok snapshot log →
  (String.length (concat_str (map encode_update log)) < fuel)%nat →
  read_entries fuel false snapshot [] 0 0 (concat_str (map encode_update log)) = Ok (log, snapshot).
Proof.
  intros Hok Hf. destruct (read_on snapshot log EmptyString Hok log [] fuel eq_refl) as (fuel' & Hf' & E).
  { by rewrite str_app_nil_r. }
  rewrite str_app_nil_r, bytes_no_deltas in E. etrans; [exact E|]. destruct fuel' as [|fuel']; [simpl in Hf'; lia|]. simpl.
  destruct snapshot; [|done]. by destruct (lo_base _ _ Hok eq_refl) as (b & us & ->).
Qed.

(** One more than a document may have is turned away. *)
Lemma too_many_deltas log u fuel : log_ok false log → Z.of_nat (length log) = maxDocDeltaEntries → 0 < len u ≤ maxDocUpdateBytes →
  (String.length (concat_str (map encode_update (log ++ [u]))) < fuel)%nat →
  read_entries fuel false false [] 0 0 (concat_str (map encode_update (log ++ [u]))) = Fail ManyDeltas.
Proof.
  intros Hok Hn Hu. assert (E : concat_str (map encode_update (log ++ [u])) = concat_str (map encode_update log) +:+ encode_update u).
  { clear. induction log as [|x log IH]; simpl app; simpl map; rewrite !concat_cons; [by rewrite str_app_nil_r|]. by rewrite IH, str_app_assoc. }
  rewrite E. intros Hf. destruct (read_on false log (encode_update u) Hok log [] fuel eq_refl Hf) as (fuel' & Hf' & E').
  simpl bytes in E'. rewrite E'. destruct fuel' as [|fuel']; [lia|]. cbn [read_entries].
  pose proof (entry_length u) as Hl. destruct (String.eqb_spec (encode_update u) EmptyString) as [Ee|_]; [rewrite Ee in Hl; simpl in Hl; lia|].
  unfold read_entry, encode_update.
  rewrite cut_line_spec.
  2:{ apply digits_no_nl, pretty_digits. lia. }
  2:{ pose proof (pretty_short 8 (len u) ltac:(unfold maxDocUpdateBytes in *; simpl; lia)) as Hs. unfold buffer_bytes. lia. }
  rewrite Atoi_pretty by (unfold maxDocUpdateBytes in *; lia).
  assert (Hmax : maxDocUpdateBytes ≤ maxDocSnapshotTotalBytes) by (by vm_compute).
  rewrite (proj2 (Z.leb_gt _ _)), (proj2 (Z.ltb_ge _ _)) by lia. simpl orb. cbv beta iota.
  rewrite (proj2 (Z.ltb_ge _ _)) by lia. simpl andb. cbv beta iota. simpl orb. cbv iota.
  rewrite (proj2 (Z.ltb_lt _ _)) by lia. done.
Qed.

(** * The whole file *)

Lemma rev_chars rev : validDocRev rev = true →
  str_all (λ c, negb (Ascii.eqb c space)) rev = true ∧ str_all (λ c, negb (Ascii.eqb c nl)) rev = true ∧ len rev ≤ 64.
Proof.
  unfold validDocRev. rewrite !andb_true_iff, Z.leb_le. intros [[_ Hl] Hh]. split_and!; [| |done];
    (eapply str_all_impl; [|exact Hh]); intros c Hc; apply negb_true_iff, Ascii.eqb_neq; by intros ->.
Qed.

Definition header_line (card : Card) : string :=
  docSidecarMagic +:+ String space (cd_rev card +:+ String space (bool_text (cd_snapshot card))).

Lemma encode_split card :
  encodeDocSidecar card = header_line card +:+ String nl (concat_str (map encode_update (cd_updates card))).
Proof.
  unfold encodeDocSidecar, header_line. rewrite str_app_assoc. f_equal. rewrite str_app_cons. f_equal.
  rewrite str_app_assoc. f_equal.
Qed.

Lemma header_line_ok card : validDocRev (cd_rev card) = true →
  str_all (λ c, negb (Ascii.eqb c nl)) (header_line card) = true ∧ (String.length (header_line card) < buffer_bytes)%nat.
Proof.
  intros Hr. destruct (rev_chars _ Hr) as (_ & Hn & Hl). unfold header_line. split.
  - rewrite str_all_app. simpl. rewrite str_all_app, Hn. by destruct (cd_snapshot card).
  - rewrite str_length_app. simpl. rewrite str_length_app. simpl. unfold len in Hl. unfold buffer_bytes.
    destruct (cd_snapshot card); simpl; lia.
Qed.

Lemma parse_header card : validDocRev (cd_rev card) = true →
  parseDocSidecarHeader (header_line card) = Ok (mkHeader (cd_rev card) (cd_snapshot card) false).
Proof.
  intros Hr. destruct (rev_chars _ Hr) as (Hs & _ & _). unfold parseDocSidecarHeader, header_line.
  change (docSidecarMagic +:+ String space ?x) with ((docSidecarMagic +:+ str_of_char space) +:+ x).
  rewrite cut_prefix_app, cut_char_spec by done. destruct (cd_snapshot card); simpl; by rewrite Hr.
Qed.

(** What a session leaves behind is what the next one finds. *)
Lemma sidecar_roundtrip card :
  validDocRev (cd_rev card) = true → log_ok (cd_snapshot card) (cd_updates card) →
  decodeDocSidecar (encodeDocSidecar card) = Ok card.
Proof.
  intros Hr Hok. rewrite encode_split. unfold decodeDocSidecar, readDocSidecarHeader.
  destruct (header_line_ok card Hr) as [Hn Hl]. rewrite cut_line_spec by done. simpl. rewrite parse_header by done. simpl.
  unfold decodeDocSidecarBody. simpl hd_legacy. simpl hd_snapshot. simpl hd_rev.
  rewrite (read_entries_spec _ _ _ Hok) by lia. simpl. by destruct card.
Qed.

(** The file stays within the ceiling recovery has for it. *)
Lemma updates_length us : (∀ u, u ∈ us → 0 < len u ≤ maxDocSnapshotTotalBytes) →
  len (concat_str (map encode_update us)) ≤ bytes us + 10 * Z.of_nat (length us).
Proof.
  induction us as [|u us IH]; intros Hs; [done|]. simpl map. rewrite concat_cons, len_app. simpl bytes.
  assert (Hu : len (encode_update u) ≤ len u + 10).
  { unfold encode_update. rewrite len_app, len_cons, len_app.
    pose proof (pretty_short 8 (len u)) as Hp. pose proof (Hs u ltac:(left)) as Hb. unfold maxDocSnapshotTotalBytes in Hb.
    specialize (Hp ltac:(simpl; lia)). unfold len at 1. change (len (str_of_char nl)) with 1. lia. }
  specialize (IH ltac:(intros; apply Hs; by right)). simpl length. lia.
Qed.

Lemma sidecar_fits card :
  validDocRev (cd_rev card) = true → log_ok (cd_snapshot card) (cd_updates card) →
  len (encodeDocSidecar card) ≤ maxDocSidecarBytes.
Proof.
  intros Hr Hok. rewrite encode_split, len_app, len_cons.
  destruct (header_line_ok card Hr) as [_ Hl]. pose proof (updates_length _ (lo_size _ _ Hok)) as Hu.
  pose proof (log_total _ _ Hok) as Ht. pose proof (lo_count _ _ Hok) as Hc.
  assert (Hn : Z.of_nat (length (cd_updates card)) ≤ maxDocDeltaEntries + 1).
  { destruct (cd_snapshot card); [|lia]. destruct (lo_base _ _ Hok eq_refl) as (b & us & E). rewrite E in *. simpl in *. lia. }
  unfold len at 1. unfold buffer_bytes in Hl. unfold maxDocSidecarBytes, maxDocDeltaEntries in *. lia.
Qed.

(** * Names *)

Lemma hex_upper_inj x y : 0 ≤ x < 16 → 0 ≤ y < 16 → hex_upper x = hex_upper y → x = y.
Proof.
  intros Hx Hy.
  assert (Hcases : ∀ z, 0 ≤ z < 16 → byte_val (hex_upper z) = if z <? 10 then 48 + z else 55 + z).
  { intros z Hz. unfold hex_upper, byte_val, byte_of.
    rewrite N_ascii_embedding by (destruct (z <? 10); lia). rewrite Z2N.id by (destruct (z <? 10) eqn:E; lia). done. }
  intros E. pose proof (Hcases x Hx) as E1. rewrite E, (Hcases y Hy) in E1.
  destruct (Z.ltb_spec x 10), (Z.ltb_spec y 10); lia.
Qed.

Lemma byte_val_range c : 0 ≤ byte_val c < 256.
Proof. unfold byte_val. pose proof (N_ascii_bounded c). lia. Qed.

Lemma byte_val_inj c d : byte_val c = byte_val d → c = d.
Proof. unfold byte_val. intros E. apply N2Z.inj in E. by rewrite <- (ascii_N_embedding c), E, ascii_N_embedding. Qed.

Lemma escape_char_inj c d a b : escape_char c +:+ a = escape_char d +:+ b → c = d ∧ a = b.
Proof.
  unfold escape_char. destruct (plain_char c) eqn:Ec, (plain_char d) eqn:Ed; simpl; intros E; inversion E; subst; try done.
  apply hex_upper_inj in H0; [|pose proof (byte_val_range c)|pose proof (byte_val_range d)];
    [|split; [apply Z.div_pos; lia|apply Z.div_lt_upper_bound; lia]..].
  apply hex_upper_inj in H1; [|by apply Z.mod_pos_bound..]. split; [|done]. apply byte_val_inj.
  rewrite (Z.div_mod (byte_val c) 16), (Z.div_mod (byte_val d) 16) by done. lia.
Qed.

Lemma escape_inj k k' : escape k = escape k' → k = k'.
Proof.
  assert (Hpos : ∀ c s, escape (String c s) ≠ EmptyString).
  { intros c s. simpl. unfold escape_char. by destruct (plain_char c). }
  revert k'. induction k as [|c k IH]; intros [|d k'] E; [done|by destruct (Hpos d k')|by destruct (Hpos c k)|].
  simpl in E. apply escape_char_inj in E as [-> E]. by rewrite (IH k').
Qed.

Section Names.
Context `{GoRev}.

(** A name within the limit is kept whole. *)
Definition short_key (key : string) : bool := (String.length (escape key) <=? maxDocSidecarNameBytes)%nat.

(** No two documents share a file unless both names are too long. *)
Lemma escapeDocKey_inj k k' : short_key k = true → escapeDocKey k = escapeDocKey k' → k = k'.
Proof.
  unfold escapeDocKey, short_key. intros Hk. rewrite Hk. apply Nat.leb_le in Hk.
  destruct (String.length (escape k') <=? maxDocSidecarNameBytes)%nat eqn:Hk'; [apply escape_inj|].
  apply Nat.leb_gt in Hk'. intros E. exfalso. rewrite E, !str_length_app in Hk. change (String.length "-") with 1%nat in Hk.
  assert (Hl : ∀ n s, (n <= String.length s)%nat → String.length (str_take n s) = n).
  { intros n. induction n as [|n IHn]; intros [|c s]; simpl; try lia. intros ?. rewrite IHn; lia. }
  rewrite Hl in Hk by lia. lia.
Qed.

(** A file name is of letters, digits, dashes, underscores and percents. *)
Definition name_char (c : ascii) : bool := plain_char c || Ascii.eqb c "%".

Lemma hex_upper_plain z : 0 ≤ z < 16 → name_char (hex_upper z) = true.
Proof.
  intros Hz. unfold name_char, plain_char, hex_upper, byte_val, byte_of.
  rewrite N_ascii_embedding by (destruct (z <? 10) eqn:E; lia). rewrite Z2N.id by (destruct (z <? 10) eqn:E; lia).
  unfold in_range. destruct (Z.ltb_spec z 10); rewrite !orb_true_iff, !andb_true_iff, !Z.leb_le; lia.
Qed.

Lemma escape_chars k : str_all name_char (escape k) = true.
Proof.
  induction k as [|c k IH]; [done|]. simpl. rewrite str_all_app, IH, andb_true_r. unfold escape_char.
  destruct (plain_char c) eqn:E; simpl; [unfold name_char; by rewrite E|]. pose proof (byte_val_range c).
  rewrite !hex_upper_plain; [done|by apply Z.mod_pos_bound|].
  split; [apply Z.div_pos; lia|apply Z.div_lt_upper_bound; lia].
Qed.

Lemma take_keeps_all f n s : str_all f s = true → str_all f (str_take n s) = true.
Proof. revert n. induction s as [|c s IH]; intros [|n]; simpl; try done. rewrite !andb_true_iff. naive_solver. Qed.

Lemma escapeDocKey_chars k : str_all hex_char (Rev k) = true → str_all name_char (escapeDocKey k) = true.
Proof.
  intros Hrev. unfold escapeDocKey. destruct (_ <=? _)%nat; [apply escape_chars|].
  rewrite str_all_app, (take_keeps_all _ _ _ (escape_chars k)). simpl. eapply str_all_impl; [|exact Hrev].
  intros c. unfold hex_char, name_char, plain_char, in_range. rewrite !orb_true_iff, !andb_true_iff, !Z.leb_le. lia.
Qed.
End Names.

(** A document's key names its node and its page, as a node id has no slash. *)
Lemma splitDocKey_docKey node page :
  str_all (λ c, negb (Ascii.eqb c slash)) node = true → splitDocKey (docKey node page) = (node, page).
Proof.
  unfold docKey. intros Hn. destruct (String.eqb_spec page EmptyString) as [->|Hp].
  - induction node as [|c node IH]; [done|]. simpl in *. apply andb_true_iff in Hn as [Hc Hn].
    apply negb_true_iff in Hc. by rewrite Hc, IH.
  - induction node as [|c node IH]; simpl in *; [done|]. apply andb_true_iff in Hn as [Hc Hn].
    apply negb_true_iff in Hc. by rewrite Hc, IH.
Qed.

Lemma go_leading x : (0 < x)%N → ∀ s, ∃ c t, pretty_N_go x s = String c t ∧ c ≠ "0"%char.
Proof.
  induction (N.lt_wf_0 x) as [x _ IH]. intros Hx s. rewrite pretty_N_go_step by done.
  destruct (decide (0 < x / 10)%N) as [Hd|Hd]; [apply IH; [apply N.div_lt; lia|done]|].
  assert (E : (x / 10 = 0)%N) by (by apply N.le_0_r, N.nlt_ge). rewrite E, pretty_N_go_0. eexists _, _. split; [done|].
  apply N.div_small_iff in E; [|done]. rewrite N.mod_small by done.
  assert (Hc : x = 1%N ∨ x = 2%N ∨ x = 3%N ∨ x = 4%N ∨ x = 5%N ∨ x = 6%N ∨ x = 7%N ∨ x = 8%N ∨ x = 9%N) by lia.
  by destruct_or! Hc; subst.
Qed.

Lemma leading_zero v s : 0 < v → pretty v ≠ String "0" s.
Proof. intros Hv. rewrite pretty_pos by done. destruct (go_leading (Z.to_N v)) with (s := EmptyString) as (c & t & -> & Hc); [lia|]. congruence. Qed.

(** A token is a number's own text. *)
Lemma validDocToken_iff token : validDocToken token = true ↔ ∃ v, 0 < v < 2 ^ 64 ∧ token = pretty v.
Proof.
  split.
  - unfold validDocToken. destruct (_ || _); [done|]. destruct (ParseUint token) as [v|] eqn:E; [|done].
    rewrite andb_true_iff, negb_true_iff, Z.eqb_neq, String.eqb_eq. intros [Hv <-]. exists v. split; [|done].
    unfold ParseUint in E. destruct (String.eqb (pretty v) EmptyString); [done|].
    destruct (digits_val 0 (pretty v)) as [x|] eqn:Ed; [|done]. simpl in E. destruct (Z.ltb_spec x (2 ^ 64)); [|done].
    injection E as ->. split; [|done]. destruct (Z.lt_total 0 v) as [?|[?|Hneg]]; [done|lia|]. exfalso.
    destruct v as [| |p]; try lia. simpl in Ed. unfold pretty, pretty_Z in Ed. simpl in Ed. done.
  - intros (v & Hv & ->). unfold validDocToken.
    destruct (pretty_nonempty v) as (c & s & E & Hc); [lia|].
    assert (Hlen : len (pretty v) ≤ 20).
    { unfold len. pose proof (pretty_short 20 v ltac:(simpl; lia)). lia. }
    assert (Hne : String.eqb (pretty v) EmptyString = false) by (by rewrite E).
    assert (Hz : (1 <? len (pretty v)) && match pretty v with String c _ => Ascii.eqb c "0" | EmptyString => false end = false).
    { apply andb_false_iff. right. rewrite E. apply Ascii.eqb_neq. intros ->. by apply (leading_zero v s); [lia|]. }
    rewrite Hne, Hz, (proj2 (Z.ltb_ge _ _)) by done. simpl. rewrite ParseUint_pretty by done.
    rewrite String.eqb_refl. rewrite (proj2 (Z.eqb_neq _ _)) by lia. done.
Qed.
