(* ===== verification/Live.v ===== *)
(** The live hub (internal/realtime, hub.go and the types of docsession.go):
    its connections, their queues, the documents people type into together, the
    soft locks, and what the hub's goroutines are made of.

    A goroutine is a program: sections that run under the hub's mutex, and in
    between the taking and giving back of a document's turn, waits for removals,
    and calls of [remove], which run to their end before the caller goes on.  A
    section is a
    function of the [World] (the clock, the access checks, the disk, whether a
    client's writer made room meanwhile) and the hub.  Programs of many
    goroutines interleave section by section ([LivePool]).

    A pointer is a number that is never given out twice: a client, a session, a
    snapshot.  The two-level map of documents is one map from room and key.
    What the hub did is kept in [h_trace], in order; nothing reads it.  The
    counts behind rate limits are not modelled: whether a message is within
    them is the World's answer.  [docEncode], which lets one large sidecar be
    encoded at a time, and the timers' objects are left out: a timeout may fire
    at any time and looks at its deadline itself. *)

From stdpp Require Import pretty.
From stdpp Require Export gmap.
From Stdlib Require Import Ascii.
From S2P Require Import Prelude GoStr GoFloat GoTime Dsl Graph NodeTypes Workflow Roles Sidecar.
Open Scope Z_scope.

(** * Bounds *)

Definition docSnapshotTimeout : Z := 120 * second.
Definition maxDocSessions : Z := 256.
Definition maxDocSessionsPerActor : Z := 16.
Definition maxDocParticipants : Z := 16.
Definition docCompactUpdates : Z := 256.
Definition docCompactBytes : Z := 524288.
Definition maxHubSnapshotBytes : Z := 134217728.
Definition docSessionGrace : Z := 60 * second.
Definition maxWSConnections : Z := 512.
Definition maxWSConnectionsPerActor : Z := 16.
Definition maxWSConnectionsPerIP : Z := 32.
Definition maxLocksPerActor : Z := 2 * maxWSConnectionsPerActor.
Definition outboundCapacity : nat := 32.
Definition maxAwarenessBytes : Z := 16384.
Definition maxDragIDs : Z := 200.

(** * Data *)

(** A room and a document in it. *)
Notation DocKey := (string * string)%type.

Record DragGhost := mkDrag { dg_IDs : list string; dg_DX : float64; dg_DY : float64; dg_Active : bool }.

Record Peer := mkPeer { pe_ID : string; pe_Actor : Actor; pe_NodeID : string; pe_Editing : bool }.

Record LockEntry := mkLockEntry { le_NodeID : string; le_Actor : Actor; le_Since : Z; le_Mine : bool }.

(** Event: what a client is told, by its type. *)
Inductive Event :=
  | Hello (self : string)
  | DocState (key : string) (seed leader : bool)
  | DocUpdate (key payload from : string)
  | DocLeader (key : string) (leader : bool)
  | DocFlushed (key rev from : string)
  | DocCompact (key token : string)
  | DocPersistenceError (key : string)
  | DocPersistenceRestored (key : string)
  | SnapshotReady (key token : string)
  | SnapshotRejected (key token : string)
  | SnapshotAccepted (key token : string)
  | SnapshotBegins (key token : string) (size chunks : Z) (from : string)
  | SnapshotPiece (key token : string) (seq : Z) (payload from : string)
  | SnapshotEnds (key token from : string)
  | LockDenied (node : string) (holder : option Actor)
  | AccessDenied (project : string)
  | PresenceTable (project : string) (peers : list Peer)
  | LocksTable (project : string) (locks : list LockEntry)
  | Awareness (from payload : string)
  | GraphDrag (from : string) (ghost : DragGhost)
  | GraphOps (from ops : string)
  | News (type id : string).

(** docOutboundSnapshot: a snapshot on its way to a client. *)
Record Job := mkJob { jo_id : string; jo_token : string; jo_from : string; jo_blob : nat; jo_tail : list string }.

Inductive Frame := FEvent (e : Event) | FJob (j : Job).

(** docSnapshotBlob. *)
Record Blob := mkBlob { bl_payload : string; bl_refs : nat }.

Record Assembly := mkAssembly { as_size : Z; as_chunks : Z; as_next : Z; as_data : string }.

Record Compaction := mkCompaction {
  cp_token : string; cp_client : nat; cp_prefixLen : nat; cp_until : Z; cp_assembly : option Assembly }.

(** docSession.  [ss_uid] stands for its address; [ss_emptyAt] is [None] for the
    zero time. *)
Record Session := mkSession {
  ss_uid : nat;
  ss_members : gset nat;
  ss_leader : option nat;
  ss_log : list string;
  ss_logBytes : Z;
  ss_generation : Z;
  ss_degraded : bool;
  ss_frozen : bool;
  ss_compacted : bool;
  ss_emptyAt : option Z;
  ss_emptiedBy : string;
  ss_emptiedSeq : Z;
  ss_fileRev : string;
  ss_compaction : option Compaction;
  ss_snapshot : option nat }.

Definition with_uid (x : nat) (s : Session) : Session :=
  mkSession x (ss_members s) (ss_leader s) (ss_log s) (ss_logBytes s) (ss_generation s) (ss_degraded s) (ss_frozen s) (ss_compacted s) (ss_emptyAt s) (ss_emptiedBy s) (ss_emptiedSeq s) (ss_fileRev s) (ss_compaction s) (ss_snapshot s).
Definition with_members (x : gset nat) (s : Session) : Session :=
  mkSession (ss_uid s) x (ss_leader s) (ss_log s) (ss_logBytes s) (ss_generation s) (ss_degraded s) (ss_frozen s) (ss_compacted s) (ss_emptyAt s) (ss_emptiedBy s) (ss_emptiedSeq s) (ss_fileRev s) (ss_compaction s) (ss_snapshot s).
Definition with_leader (x : option nat) (s : Session) : Session :=
  mkSession (ss_uid s) (ss_members s) x (ss_log s) (ss_logBytes s) (ss_generation s) (ss_degraded s) (ss_frozen s) (ss_compacted s) (ss_emptyAt s) (ss_emptiedBy s) (ss_emptiedSeq s) (ss_fileRev s) (ss_compaction s) (ss_snapshot s).
Definition with_log (x : list string) (s : Session) : Session :=
  mkSession (ss_uid s) (ss_members s) (ss_leader s) x (ss_logBytes s) (ss_generation s) (ss_degraded s) (ss_frozen s) (ss_compacted s) (ss_emptyAt s) (ss_emptiedBy s) (ss_emptiedSeq s) (ss_fileRev s) (ss_compaction s) (ss_snapshot s).
Definition with_logBytes (x : Z) (s : Session) : Session :=
  mkSession (ss_uid s) (ss_members s) (ss_leader s) (ss_log s) x (ss_generation s) (ss_degraded s) (ss_frozen s) (ss_compacted s) (ss_emptyAt s) (ss_emptiedBy s) (ss_emptiedSeq s) (ss_fileRev s) (ss_compaction s) (ss_snapshot s).
Definition with_generation (x : Z) (s : Session) : Session :=
  mkSession (ss_uid s) (ss_members s) (ss_leader s) (ss_log s) (ss_logBytes s) x (ss_degraded s) (ss_frozen s) (ss_compacted s) (ss_emptyAt s) (ss_emptiedBy s) (ss_emptiedSeq s) (ss_fileRev s) (ss_compaction s) (ss_snapshot s).
Definition with_degraded (x : bool) (s : Session) : Session :=
  mkSession (ss_uid s) (ss_members s) (ss_leader s) (ss_log s) (ss_logBytes s) (ss_generation s) x (ss_frozen s) (ss_compacted s) (ss_emptyAt s) (ss_emptiedBy s) (ss_emptiedSeq s) (ss_fileRev s) (ss_compaction s) (ss_snapshot s).
Definition with_frozen (x : bool) (s : Session) : Session :=
  mkSession (ss_uid s) (ss_members s) (ss_leader s) (ss_log s) (ss_logBytes s) (ss_generation s) (ss_degraded s) x (ss_compacted s) (ss_emptyAt s) (ss_emptiedBy s) (ss_emptiedSeq s) (ss_fileRev s) (ss_compaction s) (ss_snapshot s).
Definition with_compacted (x : bool) (s : Session) : Session :=
  mkSession (ss_uid s) (ss_members s) (ss_leader s) (ss_log s) (ss_logBytes s) (ss_generation s) (ss_degraded s) (ss_frozen s) x (ss_emptyAt s) (ss_emptiedBy s) (ss_emptiedSeq s) (ss_fileRev s) (ss_compaction s) (ss_snapshot s).
Definition with_emptyAt (x : option Z) (s : Session) : Session :=
  mkSession (ss_uid s) (ss_members s) (ss_leader s) (ss_log s) (ss_logBytes s) (ss_generation s) (ss_degraded s) (ss_frozen s) (ss_compacted s) x (ss_emptiedBy s) (ss_emptiedSeq s) (ss_fileRev s) (ss_compaction s) (ss_snapshot s).
Definition with_emptiedBy (x : string) (s : Session) : Session :=
  mkSession (ss_uid s) (ss_members s) (ss_leader s) (ss_log s) (ss_logBytes s) (ss_generation s) (ss_degraded s) (ss_frozen s) (ss_compacted s) (ss_emptyAt s) x (ss_emptiedSeq s) (ss_fileRev s) (ss_compaction s) (ss_snapshot s).
Definition with_emptiedSeq (x : Z) (s : Session) : Session :=
  mkSession (ss_uid s) (ss_members s) (ss_leader s) (ss_log s) (ss_logBytes s) (ss_generation s) (ss_degraded s) (ss_frozen s) (ss_compacted s) (ss_emptyAt s) (ss_emptiedBy s) x (ss_fileRev s) (ss_compaction s) (ss_snapshot s).
Definition with_fileRev (x : string) (s : Session) : Session :=
  mkSession (ss_uid s) (ss_members s) (ss_leader s) (ss_log s) (ss_logBytes s) (ss_generation s) (ss_degraded s) (ss_frozen s) (ss_compacted s) (ss_emptyAt s) (ss_emptiedBy s) (ss_emptiedSeq s) x (ss_compaction s) (ss_snapshot s).
Definition with_compaction (x : option Compaction) (s : Session) : Session :=
  mkSession (ss_uid s) (ss_members s) (ss_leader s) (ss_log s) (ss_logBytes s) (ss_generation s) (ss_degraded s) (ss_frozen s) (ss_compacted s) (ss_emptyAt s) (ss_emptiedBy s) (ss_emptiedSeq s) (ss_fileRev s) x (ss_snapshot s).
Definition with_snapshot (x : option nat) (s : Session) : Session :=
  mkSession (ss_uid s) (ss_members s) (ss_leader s) (ss_log s) (ss_logBytes s) (ss_generation s) (ss_degraded s) (ss_frozen s) (ss_compacted s) (ss_emptyAt s) (ss_emptiedBy s) (ss_emptiedSeq s) (ss_fileRev s) (ss_compaction s) x.

(** wsClient.  [cl_writing] holds the snapshots taken off the queue and not
    released yet; [cl_once] says that remove has begun, [cl_gone] that it is over:
    together they are the client's [sync.Once]. *)
Record Client := mkClient {
  cl_id : string;
  cl_actor : Actor;
  cl_ip : string;
  cl_room : string;
  cl_project : string;
  cl_nodeID : string;
  cl_editing : bool;
  cl_queue : list Frame;
  cl_removed : bool;
  cl_once : bool;
  cl_gone : bool;
  cl_writing : list Job;
  cl_stalePresence : bool;
  cl_staleLocks : bool;
  cl_staleDragEnds : list string;
  cl_snapshotActive : string;
  cl_snapshotKey : string;
  cl_snapshotNext : Z }.

Definition set_id (x : string) (c : Client) : Client :=
  mkClient x (cl_actor c) (cl_ip c) (cl_room c) (cl_project c) (cl_nodeID c) (cl_editing c) (cl_queue c) (cl_removed c) (cl_once c) (cl_gone c) (cl_writing c) (cl_stalePresence c) (cl_staleLocks c) (cl_staleDragEnds c) (cl_snapshotActive c) (cl_snapshotKey c) (cl_snapshotNext c).
Definition set_actor (x : Actor) (c : Client) : Client :=
  mkClient (cl_id c) x (cl_ip c) (cl_room c) (cl_project c) (cl_nodeID c) (cl_editing c) (cl_queue c) (cl_removed c) (cl_once c) (cl_gone c) (cl_writing c) (cl_stalePresence c) (cl_staleLocks c) (cl_staleDragEnds c) (cl_snapshotActive c) (cl_snapshotKey c) (cl_snapshotNext c).
Definition set_ip (x : string) (c : Client) : Client :=
  mkClient (cl_id c) (cl_actor c) x (cl_room c) (cl_project c) (cl_nodeID c) (cl_editing c) (cl_queue c) (cl_removed c) (cl_once c) (cl_gone c) (cl_writing c) (cl_stalePresence c) (cl_staleLocks c) (cl_staleDragEnds c) (cl_snapshotActive c) (cl_snapshotKey c) (cl_snapshotNext c).
Definition set_room (x : string) (c : Client) : Client :=
  mkClient (cl_id c) (cl_actor c) (cl_ip c) x (cl_project c) (cl_nodeID c) (cl_editing c) (cl_queue c) (cl_removed c) (cl_once c) (cl_gone c) (cl_writing c) (cl_stalePresence c) (cl_staleLocks c) (cl_staleDragEnds c) (cl_snapshotActive c) (cl_snapshotKey c) (cl_snapshotNext c).
Definition set_project (x : string) (c : Client) : Client :=
  mkClient (cl_id c) (cl_actor c) (cl_ip c) (cl_room c) x (cl_nodeID c) (cl_editing c) (cl_queue c) (cl_removed c) (cl_once c) (cl_gone c) (cl_writing c) (cl_stalePresence c) (cl_staleLocks c) (cl_staleDragEnds c) (cl_snapshotActive c) (cl_snapshotKey c) (cl_snapshotNext c).
Definition set_nodeID (x : string) (c : Client) : Client :=
  mkClient (cl_id c) (cl_actor c) (cl_ip c) (cl_room c) (cl_project c) x (cl_editing c) (cl_queue c) (cl_removed c) (cl_once c) (cl_gone c) (cl_writing c) (cl_stalePresence c) (cl_staleLocks c) (cl_staleDragEnds c) (cl_snapshotActive c) (cl_snapshotKey c) (cl_snapshotNext c).
Definition set_editing (x : bool) (c : Client) : Client :=
  mkClient (cl_id c) (cl_actor c) (cl_ip c) (cl_room c) (cl_project c) (cl_nodeID c) x (cl_queue c) (cl_removed c) (cl_once c) (cl_gone c) (cl_writing c) (cl_stalePresence c) (cl_staleLocks c) (cl_staleDragEnds c) (cl_snapshotActive c) (cl_snapshotKey c) (cl_snapshotNext c).
Definition set_queue (x : list Frame) (c : Client) : Client :=
  mkClient (cl_id c) (cl_actor c) (cl_ip c) (cl_room c) (cl_project c) (cl_nodeID c) (cl_editing c) x (cl_removed c) (cl_once c) (cl_gone c) (cl_writing c) (cl_stalePresence c) (cl_staleLocks c) (cl_staleDragEnds c) (cl_snapshotActive c) (cl_snapshotKey c) (cl_snapshotNext c).
Definition set_removed (x : bool) (c : Client) : Client :=
  mkClient (cl_id c) (cl_actor c) (cl_ip c) (cl_room c) (cl_project c) (cl_nodeID c) (cl_editing c) (cl_queue c) x (cl_once c) (cl_gone c) (cl_writing c) (cl_stalePresence c) (cl_staleLocks c) (cl_staleDragEnds c) (cl_snapshotActive c) (cl_snapshotKey c) (cl_snapshotNext c).
Definition set_once (x : bool) (c : Client) : Client :=
  mkClient (cl_id c) (cl_actor c) (cl_ip c) (cl_room c) (cl_project c) (cl_nodeID c) (cl_editing c) (cl_queue c) (cl_removed c) x (cl_gone c) (cl_writing c) (cl_stalePresence c) (cl_staleLocks c) (cl_staleDragEnds c) (cl_snapshotActive c) (cl_snapshotKey c) (cl_snapshotNext c).
Definition set_gone (x : bool) (c : Client) : Client :=
  mkClient (cl_id c) (cl_actor c) (cl_ip c) (cl_room c) (cl_project c) (cl_nodeID c) (cl_editing c) (cl_queue c) (cl_removed c) (cl_once c) x (cl_writing c) (cl_stalePresence c) (cl_staleLocks c) (cl_staleDragEnds c) (cl_snapshotActive c) (cl_snapshotKey c) (cl_snapshotNext c).
Definition set_writing (x : list Job) (c : Client) : Client :=
  mkClient (cl_id c) (cl_actor c) (cl_ip c) (cl_room c) (cl_project c) (cl_nodeID c) (cl_editing c) (cl_queue c) (cl_removed c) (cl_once c) (cl_gone c) x (cl_stalePresence c) (cl_staleLocks c) (cl_staleDragEnds c) (cl_snapshotActive c) (cl_snapshotKey c) (cl_snapshotNext c).
Definition set_stalePresence (x : bool) (c : Client) : Client :=
  mkClient (cl_id c) (cl_actor c) (cl_ip c) (cl_room c) (cl_project c) (cl_nodeID c) (cl_editing c) (cl_queue c) (cl_removed c) (cl_once c) (cl_gone c) (cl_writing c) x (cl_staleLocks c) (cl_staleDragEnds c) (cl_snapshotActive c) (cl_snapshotKey c) (cl_snapshotNext c).
Definition set_staleLocks (x : bool) (c : Client) : Client :=
  mkClient (cl_id c) (cl_actor c) (cl_ip c) (cl_room c) (cl_project c) (cl_nodeID c) (cl_editing c) (cl_queue c) (cl_removed c) (cl_once c) (cl_gone c) (cl_writing c) (cl_stalePresence c) x (cl_staleDragEnds c) (cl_snapshotActive c) (cl_snapshotKey c) (cl_snapshotNext c).
Definition set_staleDragEnds (x : list string) (c : Client) : Client :=
  mkClient (cl_id c) (cl_actor c) (cl_ip c) (cl_room c) (cl_project c) (cl_nodeID c) (cl_editing c) (cl_queue c) (cl_removed c) (cl_once c) (cl_gone c) (cl_writing c) (cl_stalePresence c) (cl_staleLocks c) x (cl_snapshotActive c) (cl_snapshotKey c) (cl_snapshotNext c).
Definition set_snapshotActive (x : string) (c : Client) : Client :=
  mkClient (cl_id c) (cl_actor c) (cl_ip c) (cl_room c) (cl_project c) (cl_nodeID c) (cl_editing c) (cl_queue c) (cl_removed c) (cl_once c) (cl_gone c) (cl_writing c) (cl_stalePresence c) (cl_staleLocks c) (cl_staleDragEnds c) x (cl_snapshotKey c) (cl_snapshotNext c).
Definition set_snapshotKey (x : string) (c : Client) : Client :=
  mkClient (cl_id c) (cl_actor c) (cl_ip c) (cl_room c) (cl_project c) (cl_nodeID c) (cl_editing c) (cl_queue c) (cl_removed c) (cl_once c) (cl_gone c) (cl_writing c) (cl_stalePresence c) (cl_staleLocks c) (cl_staleDragEnds c) (cl_snapshotActive c) x (cl_snapshotNext c).
Definition set_snapshotNext (x : Z) (c : Client) : Client :=
  mkClient (cl_id c) (cl_actor c) (cl_ip c) (cl_room c) (cl_project c) (cl_nodeID c) (cl_editing c) (cl_queue c) (cl_removed c) (cl_once c) (cl_gone c) (cl_writing c) (cl_stalePresence c) (cl_staleLocks c) (cl_staleDragEnds c) (cl_snapshotActive c) (cl_snapshotKey c) x.

Record NodeLock := mkNodeLock { nl_client : nat; nl_actor : Actor; nl_since : Z }.

Record ConnectionLimits := mkLimits { li_Total : Z; li_PerAccount : Z; li_PerIP : Z }.

Definition DefaultConnectionLimits : ConnectionLimits :=
  mkLimits maxWSConnections maxWSConnectionsPerActor maxWSConnectionsPerIP.

(** What happened, for the theorems to speak of: frames that were queued, those
    there was no room for, what clients said, and what became of sessions. *)
Inductive Happened :=
  | Sent (c : nat) (e : Event)
  | SentSnapshot (c : nat) (key token payload : string) (tail : list string)
  | Spilled (c : nat)
  | Joined (c : nat) (dk : DocKey) (uid : nat)
  | Opened (dk : DocKey) (uid : nat) (log : list string)
  | Said (c : nat) (dk : DocKey) (uid : nat) (update : string)
  | Asked (dk : DocKey) (uid : nat) (token : string) (c : nat)
  | Replaced (dk : DocKey) (uid : nat) (token : string) (c : nat) (payload : string)
  | Saved (dk : DocKey) (card : Card)             (* written to the document's file *)
  | Erased (dk : DocKey) (card : Card)            (* or the file removed: an empty log, or no known revision *)
  | MemoryOnly (dk : DocKey)
  | Dropped (dk : DocKey)
  | Thawed (dk : DocKey) (uid : nat)            (* a freeze lifted although the log is past its line *)
  | Retired (dk : DocKey) (uid : nat) (card : Card).

(** Hub.  [h_locks] is keyed by room and node, [h_disk] by room and file name;
    [h_fresh] is the next address; [h_recovering] is what recoveries under way
    have reserved; [h_removals] counts the removals under way. *)
Record Hub := mkHub {
  h_clients : gmap nat Client;
  h_conns : gset nat;
  h_locks : gmap DocKey NodeLock;
  h_docs : gmap DocKey Session;
  h_blobs : gmap nat Blob;
  h_snapshotBytes : Z;
  h_nextDocToken : Z;
  h_emptiedSeq : Z;
  h_fresh : nat;
  h_disk : gmap DocKey string;
  h_recovering : gmap DocKey Z;
  h_reserved : Z;
  h_actorConns : gmap string Z;
  h_ipConns : gmap string Z;
  h_limits : ConnectionLimits;
  h_closed : bool;
  h_removals : Z;
  h_trace : list Happened }.

Definition put_clients (x : gmap nat Client) (h : Hub) : Hub :=
  mkHub x (h_conns h) (h_locks h) (h_docs h) (h_blobs h) (h_snapshotBytes h) (h_nextDocToken h) (h_emptiedSeq h) (h_fresh h) (h_disk h) (h_recovering h) (h_reserved h) (h_actorConns h) (h_ipConns h) (h_limits h) (h_closed h) (h_removals h) (h_trace h).
Definition put_conns (x : gset nat) (h : Hub) : Hub :=
  mkHub (h_clients h) x (h_locks h) (h_docs h) (h_blobs h) (h_snapshotBytes h) (h_nextDocToken h) (h_emptiedSeq h) (h_fresh h) (h_disk h) (h_recovering h) (h_reserved h) (h_actorConns h) (h_ipConns h) (h_limits h) (h_closed h) (h_removals h) (h_trace h).
Definition put_locks (x : gmap DocKey NodeLock) (h : Hub) : Hub :=
  mkHub (h_clients h) (h_conns h) x (h_docs h) (h_blobs h) (h_snapshotBytes h) (h_nextDocToken h) (h_emptiedSeq h) (h_fresh h) (h_disk h) (h_recovering h) (h_reserved h) (h_actorConns h) (h_ipConns h) (h_limits h) (h_closed h) (h_removals h) (h_trace h).
Definition put_docs (x : gmap DocKey Session) (h : Hub) : Hub :=
  mkHub (h_clients h) (h_conns h) (h_locks h) x (h_blobs h) (h_snapshotBytes h) (h_nextDocToken h) (h_emptiedSeq h) (h_fresh h) (h_disk h) (h_recovering h) (h_reserved h) (h_actorConns h) (h_ipConns h) (h_limits h) (h_closed h) (h_removals h) (h_trace h).
Definition put_blobs (x : gmap nat Blob) (h : Hub) : Hub :=
  mkHub (h_clients h) (h_conns h) (h_locks h) (h_docs h) x (h_snapshotBytes h) (h_nextDocToken h) (h_emptiedSeq h) (h_fresh h) (h_disk h) (h_recovering h) (h_reserved h) (h_actorConns h) (h_ipConns h) (h_limits h) (h_closed h) (h_removals h) (h_trace h).
Definition put_snapshotBytes (x : Z) (h : Hub) : Hub :=
  mkHub (h_clients h) (h_conns h) (h_locks h) (h_docs h) (h_blobs h) x (h_nextDocToken h) (h_emptiedSeq h) (h_fresh h) (h_disk h) (h_recovering h) (h_reserved h) (h_actorConns h) (h_ipConns h) (h_limits h) (h_closed h) (h_removals h) (h_trace h).
Definition put_nextDocToken (x : Z) (h : Hub) : Hub :=
  mkHub (h_clients h) (h_conns h) (h_locks h) (h_docs h) (h_blobs h) (h_snapshotBytes h) x (h_emptiedSeq h) (h_fresh h) (h_disk h) (h_recovering h) (h_reserved h) (h_actorConns h) (h_ipConns h) (h_limits h) (h_closed h) (h_removals h) (h_trace h).
Definition put_emptiedSeq (x : Z) (h : Hub) : Hub :=
  mkHub (h_clients h) (h_conns h) (h_locks h) (h_docs h) (h_blobs h) (h_snapshotBytes h) (h_nextDocToken h) x (h_fresh h) (h_disk h) (h_recovering h) (h_reserved h) (h_actorConns h) (h_ipConns h) (h_limits h) (h_closed h) (h_removals h) (h_trace h).
Definition put_fresh (x : nat) (h : Hub) : Hub :=
  mkHub (h_clients h) (h_conns h) (h_locks h) (h_docs h) (h_blobs h) (h_snapshotBytes h) (h_nextDocToken h) (h_emptiedSeq h) x (h_disk h) (h_recovering h) (h_reserved h) (h_actorConns h) (h_ipConns h) (h_limits h) (h_closed h) (h_removals h) (h_trace h).
Definition put_disk (x : gmap DocKey string) (h : Hub) : Hub :=
  mkHub (h_clients h) (h_conns h) (h_locks h) (h_docs h) (h_blobs h) (h_snapshotBytes h) (h_nextDocToken h) (h_emptiedSeq h) (h_fresh h) x (h_recovering h) (h_reserved h) (h_actorConns h) (h_ipConns h) (h_limits h) (h_closed h) (h_removals h) (h_trace h).
Definition put_recovering (x : gmap DocKey Z) (h : Hub) : Hub :=
  mkHub (h_clients h) (h_conns h) (h_locks h) (h_docs h) (h_blobs h) (h_snapshotBytes h) (h_nextDocToken h) (h_emptiedSeq h) (h_fresh h) (h_disk h) x (h_reserved h) (h_actorConns h) (h_ipConns h) (h_limits h) (h_closed h) (h_removals h) (h_trace h).
Definition put_reserved (x : Z) (h : Hub) : Hub :=
  mkHub (h_clients h) (h_conns h) (h_locks h) (h_docs h) (h_blobs h) (h_snapshotBytes h) (h_nextDocToken h) (h_emptiedSeq h) (h_fresh h) (h_disk h) (h_recovering h) x (h_actorConns h) (h_ipConns h) (h_limits h) (h_closed h) (h_removals h) (h_trace h).
Definition put_actorConns (x : gmap string Z) (h : Hub) : Hub :=
  mkHub (h_clients h) (h_conns h) (h_locks h) (h_docs h) (h_blobs h) (h_snapshotBytes h) (h_nextDocToken h) (h_emptiedSeq h) (h_fresh h) (h_disk h) (h_recovering h) (h_reserved h) x (h_ipConns h) (h_limits h) (h_closed h) (h_removals h) (h_trace h).
Definition put_ipConns (x : gmap string Z) (h : Hub) : Hub :=
  mkHub (h_clients h) (h_conns h) (h_locks h) (h_docs h) (h_blobs h) (h_snapshotBytes h) (h_nextDocToken h) (h_emptiedSeq h) (h_fresh h) (h_disk h) (h_recovering h) (h_reserved h) (h_actorConns h) x (h_limits h) (h_closed h) (h_removals h) (h_trace h).
Definition put_limits (x : ConnectionLimits) (h : Hub) : Hub :=
  mkHub (h_clients h) (h_conns h) (h_locks h) (h_docs h) (h_blobs h) (h_snapshotBytes h) (h_nextDocToken h) (h_emptiedSeq h) (h_fresh h) (h_disk h) (h_recovering h) (h_reserved h) (h_actorConns h) (h_ipConns h) x (h_closed h) (h_removals h) (h_trace h).
Definition put_closed (x : bool) (h : Hub) : Hub :=
  mkHub (h_clients h) (h_conns h) (h_locks h) (h_docs h) (h_blobs h) (h_snapshotBytes h) (h_nextDocToken h) (h_emptiedSeq h) (h_fresh h) (h_disk h) (h_recovering h) (h_reserved h) (h_actorConns h) (h_ipConns h) (h_limits h) x (h_removals h) (h_trace h).
Definition put_removals (x : Z) (h : Hub) : Hub :=
  mkHub (h_clients h) (h_conns h) (h_locks h) (h_docs h) (h_blobs h) (h_snapshotBytes h) (h_nextDocToken h) (h_emptiedSeq h) (h_fresh h) (h_disk h) (h_recovering h) (h_reserved h) (h_actorConns h) (h_ipConns h) (h_limits h) (h_closed h) x (h_trace h).
Definition put_trace (x : list Happened) (h : Hub) : Hub :=
  mkHub (h_clients h) (h_conns h) (h_locks h) (h_docs h) (h_blobs h) (h_snapshotBytes h) (h_nextDocToken h) (h_emptiedSeq h) (h_fresh h) (h_disk h) (h_recovering h) (h_reserved h) (h_actorConns h) (h_ipConns h) (h_limits h) (h_closed h) (h_removals h) x.

Definition NewHub : Hub :=
  mkHub ∅ ∅ ∅ ∅ ∅ 0 0 0 0 ∅ ∅ 0 ∅ ∅ DefaultConnectionLimits false 0 [].

(** How a project's name resolves: to a room, to nothing, or not now. *)
Inductive Resolved := RoomOf (room : string) | NoProject | LookupFault.

(** What a section asks of the world outside. *)
Record World := mkWorld {
  w_now : Z;
  w_room : nat → nat → bool;                 (* a client's writer took a frame meanwhile, given the frames queued *)
  w_access : option (Actor → string → bool);
  w_writeAccess : option (Actor → string → bool);
  w_resolve : option (string → Resolved);
  w_allowed : bool;                          (* within the rate limits *)
  w_authorized : bool;
  w_root : string → bool;                    (* the room is a project directory *)
  w_docRev : DocKey → option string;         (* docFileRev *)
  w_fileRev : DocKey → option string;        (* existingDocFileRev *)
  w_reads : bool;                            (* an existing sidecar can be opened *)
  w_writes : bool;                           (* a file can be written or removed *)
}.

(** * Sections and programs *)

Definition St (A : Type) : Type := Hub → Hub * A.
#[export] Instance St_ret : MRet St := λ A a h, (h, a).
#[export] Instance St_bind : MBind St := λ A B k m h, let '(h', a) := m h in k a h'.

Definition get {A} (f : Hub → A) : St A := λ h, (h, f h).
Definition modify (f : Hub → Hub) : St unit := λ h, (f h, tt).
Definition skip : St unit := mret tt.
Definition when (b : bool) (m : St unit) : St unit := if b then m else skip.

Fixpoint each_ {A} (f : A → St unit) (xs : list A) : St unit :=
  match xs with [] => skip | x :: xs' => _ ← f x; each_ f xs' end.

(** clientMessage: what a browser sends. *)
Record clientMessage := mkMessage {
  m_Type : string; m_Project : string; m_NodeID : string; m_Editing : bool; m_Steal : bool; m_PageID : string;
  m_Rev : string; m_Token : string; m_Seq : Z; m_Size : Z; m_Chunks : Z;
  m_Payload : string; m_IDs : list string; m_DX : float64; m_DY : float64; m_Active : bool }.

Definition message_key (m : clientMessage) : string := docKey (m_NodeID m) (m_PageID m).

(** Who a piece of news is for. *)
Inductive Audience := ToAll | ToActor (id : string) | ToRoom (room : string) | ToReaders (room : string).

(** What a goroutine is started for; [TRemove] is also done inline ([call]). *)
Inductive Task :=
  | TConnect (id : string) (actor : Actor) (ip : string)
  | TMessage (c : nat) (m : clientMessage)
  | TWrite (c : nat)
  | TPing (c : nat)
  | TRemove (c : nat)
  | TTimeout (dk : DocKey) (c : nat) (token : string)
  | TRecheck
  | TSend (to : Audience) (e : Event)
  | TClose.

(** What a goroutine may wait for besides a document's turn: a client's removal
    that another has begun ([sync.Once]), or all removals ([removals.Wait]). *)
Inductive Wait := ForRemoval (c : nat) | ForRemovals.
#[export] Instance Wait_eq_dec : EqDecision Wait.
Proof. solve_decision. Defined.

Inductive prog :=
  | Done
  | Sec (f : World → Hub → Hub * prog)
  | Acquire (dk : DocKey) (p : prog)
  | Release (dk : DocKey) (p : prog)
  | Await (x : Wait) (p : prog)
  | Call (t : Task) (p : prog).          (* the task's work is done here, and then the rest *)

(** One program after the other. *)
Fixpoint andthen (p q : prog) : prog :=
  match p with
  | Done => q
  | Sec f => Sec (λ w h, let '(h', p') := f w h in (h', andthen p' q))
  | Acquire dk p' => Acquire dk (andthen p' q)
  | Release dk p' => Release dk (andthen p' q)
  | Await x p' => Await x (andthen p' q)
  | Call t p' => Call t (andthen p' q)
  end.

(** Induction on programs, into what a section goes on with. *)
Lemma prog_induction (P : prog → Prop) :
  P Done → (∀ f, (∀ w h, P (f w h).2) → P (Sec f)) → (∀ dk p, P p → P (Acquire dk p)) → (∀ dk p, P p → P (Release dk p)) →
  (∀ x p, P p → P (Await x p)) → (∀ t p, P p → P (Call t p)) → ∀ p, P p.
Proof.
  intros HD HS HA HR HW HC. fix IH 1. intros [|f|dk p|dk p|x p|t p].
  - exact HD.
  - apply HS. intros w h. destruct (f w h) as [h' p]. apply IH.
  - apply HA, IH.
  - apply HR, IH.
  - apply HW, IH.
  - apply HC, IH.
Qed.

Definition ready (x : Wait) (h : Hub) : bool :=
  match x with
  | ForRemoval c => match h_clients h !! c with Some cl => cl_gone cl | None => true end
  | ForRemovals => h_removals h =? 0
  end.

(** Programs are written with their continuation. *)
Definition M (A : Type) : Type := (A → prog) → prog.
#[export] Instance M_ret : MRet M := λ A a k, k a.
#[export] Instance M_bind : MBind M := λ A B f m k, m (λ a, f a k).

Definition sec {A} (f : World → St A) : M A := λ k, Sec (λ w h, let '(h', a) := f w h in (h', k a)).
Definition turn (dk : DocKey) : M unit := λ k, Acquire dk (k tt).
Definition yield_turn (dk : DocKey) : M unit := λ k, Release dk (k tt).
Definition await (x : Wait) : M unit := λ k, Await x (k tt).
Definition call (t : Task) : M unit := λ k, Call t (k tt).
Definition finish (m : M unit) : prog := m (λ _, Done).
Definition nothing : M unit := mret tt.

Fixpoint each {A} (f : A → M unit) (xs : list A) : M unit :=
  match xs with [] => nothing | x :: xs' => _ ← f x; each f xs' end.

(** * Who may *)

Definition actorConnectionKey (a : Actor) : string := if negb (String.eqb (a_ID a) EmptyString) then a_ID a else a_Name a.

Definition deniedRoomPrefix : string := String "000" "denied:".
Definition isDeniedRoom (room : string) : bool := has_prefix room deniedRoomPrefix.

Definition mayWrite (w : World) (actor : Actor) (room : string) : bool :=
  match w_writeAccess w with
  | None => true
  | Some fn => if String.eqb room EmptyString || isDeniedRoom room then false else fn actor room
  end.

Definition mayWatch (w : World) (actor : Actor) (room : string) : bool :=
  if String.eqb room EmptyString || isDeniedRoom room then true
  else match w_access w with None => true | Some fn => fn actor room end.

(** * Queues *)

Definition note (x : Happened) : St unit := modify (λ h, put_trace (h_trace h ++ [x]) h).

Definition client (c : nat) : St (option Client) := get (λ h, h_clients h !! c).

(** A frame for a client had no room. *)
Definition spill (c : nat) : St unit := cl ← client c; match cl with Some _ => note (Spilled c) | None => skip end.
Definition set_client (c : nat) (f : Client → Client) : St unit := modify (λ h, put_clients (alter f c (h_clients h)) h).

Definition blob_payload (h : Hub) (b : nat) : string := match h_blobs h !! b with Some bl => bl_payload bl | None => EmptyString end.

Definition sent_as (h : Hub) (c : nat) (f : Frame) : Happened :=
  match f with
  | FEvent e => Sent c e
  | FJob j => SentSnapshot c (jo_id j) (jo_token j) (blob_payload h (jo_blob j)) (jo_tail j)
  end.

(** enqueue never removes a slow client.  The queue has room when it is not
    full, or when the writer took a frame meanwhile. *)
Definition enqueue (w : World) (c : nat) (f : Frame) : St bool :=
  cl ← client c;
  match cl with
  | None => mret false
  | Some cl =>
      let n := length (cl_queue cl) in
      if negb (cl_removed cl) && ((n <? outboundCapacity)%nat || w_room w c n) then
        _ ← set_client c (set_queue (cl_queue cl ++ [f]));
        _ ← modify (λ h, put_trace (h_trace h ++ [sent_as h c f]) h);
        mret true
      else _ ← spill c; mret false
  end.

Definition queueEvent (w : World) (c : nat) (e : Event) : St bool := enqueue w c (FEvent e).

(** The clients of a list that had no room for the event. *)
Fixpoint queue_all (w : World) (targets : list nat) (e : Event) : St (list nat) :=
  match targets with
  | [] => mret []
  | c :: targets' => ok ← queueEvent w c e; slow ← queue_all w targets' e; mret (if ok : bool then slow else c :: slow)
  end.

(** sendTo, outside the hub's lock; a client without room is removed, here and
    now, before the sender goes on. *)
Definition sendTo (c : nat) (e : Event) : M unit :=
  ok ← sec (λ w, queueEvent w c e); if ok : bool then nothing else call (TRemove c).

(** The slow clients of a delivery, removed one after the other by who delivered. *)
Definition remove_all (slow : list nat) : M unit := each (λ c, call (TRemove c)) slow.

(** offer: a frame the sender's next one supersedes; a client half a queue
    behind skips it. *)
Definition offerLocked (c : nat) (f : Frame) : St bool :=
  cl ← client c;
  match cl with
  | None => mret false
  | Some cl =>
      if cl_removed cl || (outboundCapacity / 2 <=? length (cl_queue cl))%nat then mret false
      else
        _ ← set_client c (set_queue (cl_queue cl ++ [f]));
        _ ← modify (λ h, put_trace (h_trace h ++ [sent_as h c f]) h);
        mret true
  end.

Definition offer (c : nat) (e : Event) : St unit := _ ← offerLocked c (FEvent e); skip.

Definition remove_str (x : string) (xs : list string) : list string := List.filter (λ y, negb (String.eqb y x)) xs.

(** offerDrag: the end of a drag is owed to a client that skips it. *)
Definition offerDrag (c : nat) (from : string) (active : bool) (e : Event) : St unit :=
  ok ← offerLocked c (FEvent e);
  if ok : bool then set_client c (λ cl, set_staleDragEnds (remove_str from (cl_staleDragEnds cl)) cl)
  else set_client c (λ cl,
    if negb active && negb (cl_removed cl) && (Z.of_nat (length (cl_staleDragEnds cl)) <? maxWSConnections)
    then set_staleDragEnds (from :: remove_str from (cl_staleDragEnds cl)) cl else cl).

(** offerTable: a room's table, which a client that is behind is owed. *)
Definition offerTable (c : nat) (presence : bool) (e : Event) : St unit :=
  let mark (stale : bool) (cl : Client) := if presence then set_stalePresence stale cl else set_staleLocks stale cl in
  ok ← offerLocked c (FEvent e);
  if ok : bool then set_client c (mark false)
  else set_client c (λ cl, if cl_removed cl then cl else mark true cl).

(** * Snapshot payloads, and what they weigh *)

Definition add_snapshotBytes (z : Z) : St unit := modify (λ h, put_snapshotBytes (h_snapshotBytes h + z) h).

Definition fresh_address : St nat :=
  n ← get h_fresh;
  _ ← modify (λ h, put_fresh (n + 1)%nat h);
  mret n.

Definition new_blob (payload : string) (refs : nat) : St nat :=
  b ← fresh_address;
  _ ← modify (λ h, put_blobs (<[b := mkBlob payload refs]> (h_blobs h)) h);
  mret b.

Definition clampSnapshotBytesLocked : St unit :=
  modify (λ h, if h_snapshotBytes h <? 0 then put_snapshotBytes 0 h else h).

Definition retainSnapshotBlobLocked (b : nat) : St unit :=
  bl ← get (λ h, h_blobs h !! b);
  match bl with
  | None => skip
  | Some bl =>
      _ ← when (bl_refs bl =? 0)%nat (add_snapshotBytes (len (bl_payload bl)));
      modify (λ h, put_blobs (<[b := mkBlob (bl_payload bl) (bl_refs bl + 1)]> (h_blobs h)) h)
  end.

Definition releaseSnapshotBlobLocked (b : nat) : St unit :=
  bl ← get (λ h, h_blobs h !! b);
  match bl with
  | None => skip
  | Some bl =>
      if (bl_refs bl =? 0)%nat then skip
      else
        _ ← modify (λ h, put_blobs (<[b := mkBlob (bl_payload bl) (bl_refs bl - 1)]> (h_blobs h)) h);
        when (bl_refs bl =? 1)%nat (_ ← add_snapshotBytes (- len (bl_payload bl)); clampSnapshotBytesLocked)
  end.

Definition releaseSnapshotJobLocked (j : Job) : St unit :=
  _ ← releaseSnapshotBlobLocked (jo_blob j);
  _ ← add_snapshotBytes (- bytes (jo_tail j));
  clampSnapshotBytesLocked.

Definition queueSnapshotLocked (w : World) (c : nat) (j : Job) : St bool :=
  bl ← get (λ h, h_blobs h !! jo_blob j);
  match bl with
  | None => _ ← spill c; mret false
  | Some bl =>
      let additional := bytes (jo_tail j) + (if (bl_refs bl =? 0)%nat then len (bl_payload bl) else 0) in
      held ← get h_snapshotBytes;
      if String.eqb (jo_token j) EmptyString || (maxHubSnapshotBytes <? held + additional)
      then _ ← spill c; mret false
      else
        _ ← retainSnapshotBlobLocked (jo_blob j);
        _ ← add_snapshotBytes (bytes (jo_tail j));
        ok ← enqueue w c (FJob j);
        if ok : bool then mret true else _ ← releaseSnapshotJobLocked j; mret false
  end.

(** Each target is queued the snapshot, and a word with it if there is one; those
    that had no room. *)
Fixpoint queue_snapshots (w : World) (targets : list nat) (j : Job) (word : option Event) : St (list nat) :=
  match targets with
  | [] => mret []
  | c :: targets' =>
      ok ← queueSnapshotLocked w c j;
      ok' ← match word with Some e => queueEvent w c e | None => mret true end;
      slow ← queue_snapshots w targets' j word;
      let slow := if ok' : bool then slow else c :: slow in
      mret (if ok : bool then slow else c :: slow)
  end.

(** snapshotEvents: the frames a snapshot becomes on the wire.  A payload is cut
    in at most as many pieces as it has bytes. *)
Fixpoint pieces (fuel : nat) (key token from : string) (seq : Z) (payload : string) : list Event :=
  match fuel with
  | O => []
  | S fuel =>
      if String.eqb payload EmptyString then []
      else
        let n := Z.to_nat maxDocSnapshotBytes in
        SnapshotPiece key token seq (str_take n payload) from :: pieces fuel key token from (seq + 1) (str_drop n payload)
  end.

Definition chunks_for (size : Z) : Z := (size + maxDocSnapshotBytes - 1) / maxDocSnapshotBytes.

Definition snapshotEvents (h : Hub) (j : Job) : list Event :=
  let payload := blob_payload h (jo_blob j) in
  SnapshotBegins (jo_id j) (jo_token j) (len payload) (chunks_for (len payload)) (jo_from j)
  :: pieces (String.length payload) (jo_id j) (jo_token j) (jo_from j) 0 payload
  ++ SnapshotEnds (jo_id j) (jo_token j) (jo_from j)
  :: map (λ u, DocUpdate (jo_id j) u (jo_from j)) (jo_tail j).
