(* ===== verification/LiveDocs.v ===== *)
(** Live documents (internal/realtime, docsession.go, with the recovery and the
    saving of docstore.go): who leads a document, what joins and leaves do,
    updates, compaction by a participant's snapshot, and the sidecar an emptied
    session leaves.  Every operation of the file is here, section by section. *)

From stdpp Require Import pretty.
From Stdlib Require Import Ascii.
From S2P Require Import Prelude GoStr Roles Sidecar Live.
Open Scope Z_scope.

(** * Sessions *)

Definition session_at (dk : DocKey) : St (option Session) := get (λ h, h_docs h !! dk).
Definition set_session (dk : DocKey) (f : Session → Session) : St unit := modify (λ h, put_docs (alter f dk (h_docs h)) h).

(** What a call does to the session it knows, if the table still has it. *)
Definition with_session (dk : DocKey) (uid : nat) (f : Session → St unit) : St unit :=
  s ← session_at dk;
  match s with Some s => if (ss_uid s =? uid)%nat then f s else skip | None => skip end.

Definition is_member (c : nat) (s : option Session) : bool :=
  match s with Some s => bool_decide (c ∈ ss_members s) | None => false end.

Definition deltas_of (s : Session) : list string := match ss_snapshot s with Some _ => tail (ss_log s) | None => ss_log s end.

Definition deltaStatsLocked (s : Session) : Z * Z :=
  match ss_snapshot s, ss_log s with
  | Some _, base :: _ => (Z.of_nat (length (ss_log s)) - 1, ss_logBytes s - len base)
  | _, _ => (Z.of_nat (length (ss_log s)), ss_logBytes s)
  end.

(** Past what a document may hold beside its snapshot. *)
Definition over_line (s : Session) : bool :=
  let '(count, weight) := deltaStatsLocked s in (maxDocLogBytes <? weight) || (maxDocDeltaEntries <=? count).

Definition sidecarLocked (s : Session) : Card :=
  mkCard (ss_fileRev s) (ss_log s) (match ss_snapshot s with Some _ => true | None => false end).

Definition allLocked (s : Session) : list nat := elements (ss_members s).
Definition othersLocked (except : nat) (s : Session) : list nat := elements (ss_members s ∖ {[except]}).

Definition wrap64 (z : Z) : Z := z mod 2 ^ 64.

Definition nextDocTokenLocked : St string :=
  _ ← modify (λ h, let t := wrap64 (h_nextDocToken h + 1) in put_nextDocToken (if t =? 0 then 1 else t) h);
  get (λ h, pretty (h_nextDocToken h)).

Definition nextEmptied : St Z :=
  _ ← modify (λ h, put_emptiedSeq (wrap64 (h_emptiedSeq h + 1)) h);
  get h_emptiedSeq.

(** * Compaction *)

Definition forget_upload (token : string) (cl : Client) : Client :=
  if String.eqb (cl_snapshotActive cl) token then set_snapshotActive EmptyString (set_snapshotKey EmptyString (set_snapshotNext 0 cl)) else cl.

Definition clearCompactionLocked (dk : DocKey) : St unit :=
  s ← session_at dk;
  match s with
  | None => skip
  | Some s =>
      _ ← match ss_compaction s with
          | None => skip
          | Some cp =>
              _ ← match cp_assembly cp with
                  | Some a => _ ← add_snapshotBytes (- as_size a); clampSnapshotBytesLocked
                  | None => skip
                  end;
              set_client (cp_client cp) (forget_upload (cp_token cp))
          end;
      set_session dk (λ s, with_compaction None (with_compacted false s))
  end.

Definition expireCompactionLocked (dk : DocKey) (now : Z) : St unit :=
  s ← session_at dk;
  match s with
  | Some s => match ss_compaction s with
              | Some cp => when (cp_until cp <=? now) (clearCompactionLocked dk)
              | None => skip
              end
  | None => skip
  end.

Definition beginCompactionLocked (dk : DocKey) (c : nat) (now : Z) : St string :=
  token ← nextDocTokenLocked;
  s ← session_at dk;
  match s with
  | None => mret token
  | Some s =>
      _ ← set_session dk (λ s, with_compacted true (with_compaction
            (Some (mkCompaction token c (length (ss_log s)) (now + docSnapshotTimeout) None)) s));
      _ ← note (Asked dk (ss_uid s) token c);
      mret token
  end.

(** * Leaders *)

Definition client_id (h : Hub) (c : nat) : string := match h_clients h !! c with Some cl => cl_id cl | None => EmptyString end.

Definition lower (h : Hub) (chosen : option nat) (c : nat) : option nat :=
  match chosen with
  | None => Some c
  | Some b => if String.ltb (client_id h c) (client_id h b) then Some c else Some b
  end.

(** elect: the lowest id among the participants. *)
Definition elect (h : Hub) (members : gset nat) : option nat := fold_left (lower h) (elements members) None.

Definition elect_leader (dk : DocKey) : St unit :=
  modify (λ h, put_docs (alter (λ s, with_leader (elect h (ss_members s)) s) dk (h_docs h)) h).

(** leaderNotices: whose answer to "am I the leader" changed. *)
Definition leaderNotices (previous : option nat) (skipped : nat) (s : Session) : list (nat * bool) :=
  if bool_decide (previous = ss_leader s) then []
  else
    match previous with
    | Some b => if negb (b =? skipped)%nat && bool_decide (b ∈ ss_members s) then [(b, false)] else []
    | None => []
    end ++
    match ss_leader s with
    | Some b => if negb (b =? skipped)%nat then [(b, true)] else []
    | None => []
    end.

Definition announceLeader (key : string) (notices : list (nat * bool)) : M unit :=
  each (λ n, sendTo n.1 (DocLeader key n.2)) notices.

Definition tell_compact (key : string) (ask : option (nat * string)) : M unit :=
  match ask with Some (c, token) => sendTo c (DocCompact key token) | None => nothing end.

(** * The table's shares *)

Definition docSessionCountLocked (h : Hub) : Z := Z.of_nat (size (h_docs h)).

Definition actor_key (h : Hub) (c : nat) : string :=
  match h_clients h !! c with Some cl => actorConnectionKey (cl_actor cl) | None => EmptyString end.

Definition heldByLocked (h : Hub) (actorKey : string) (s : Session) : bool :=
  if bool_decide (ss_members s = ∅) then String.eqb (ss_emptiedBy s) actorKey
  else existsb (λ c, String.eqb (actor_key h c) actorKey) (elements (ss_members s)).

Definition actorDocSessionsLocked (h : Hub) (actorKey : string) : Z :=
  Z.of_nat (length (List.filter (λ kv, heldByLocked h actorKey kv.2) (map_to_list (h_docs h)))).

(** * The sidecar on disk *)

Section Disk.
Context `{GoRev}.

Definition disk_key (dk : DocKey) : DocKey := (dk.1, docSidecarName dk.2).

(** docStoreRoot. *)
Definition docStoreRoot (w : World) (room : string) : bool := negb (String.eqb room EmptyString) && w_root w room.

(** persistDoc; true when nothing failed. *)
Definition persistDoc (w : World) (dk : DocKey) (card : Card) : St bool :=
  if negb (docStoreRoot w dk.1) then _ ← note (MemoryOnly dk); mret true
  else if String.eqb (cd_rev card) EmptyString || match cd_updates card with [] => true | _ => false end then
    if w_writes w then
      _ ← modify (λ h, put_disk (delete (disk_key dk) (h_disk h)) h);
      _ ← note (Erased dk card); mret true
    else mret false
  else
    let data := encodeDocSidecar card in
    if maxDocSidecarBytes <? len data then mret false
    else if w_writes w then
      _ ← modify (λ h, put_disk (<[disk_key dk := data]> (h_disk h)) h);
      _ ← note (Saved dk card); mret true
    else mret false.

Definition dropDocSidecar (w : World) (dk : DocKey) : St unit :=
  if w_writes w then _ ← modify (λ h, put_disk (delete (disk_key dk) (h_disk h)) h); note (Dropped dk) else skip.

(** What a document brings back when its first client opens it. *)
Record Recovered := mkRecovered {
  rc_updates : list string; rc_rev : string; rc_snapshot : bool; rc_reserved : Z; rc_blocked : bool }.

Definition nothing_stored (rev : string) : Recovered := mkRecovered [] rev false 0 false.
Definition blocked (rev : string) : Recovered := mkRecovered [] rev false 0 true.

(** The first look: the answer, or a sidecar's body to decode. *)
Inductive Look := Answer (r : Recovered) | Body (rev rest : string) (hd : Header) (size : Z).

Definition large_sidecar (size : Z) : bool := maxDocLogBytes + maxDocUpdateBytes + 65536 <? size.

Definition look_sidecar (w : World) (dk : DocKey) : St Look :=
  if negb (docStoreRoot w dk.1) then mret (Answer (nothing_stored EmptyString))
  else match w_docRev w dk with
  | None => mret (Answer (nothing_stored EmptyString))
  | Some rev =>
      let dropped := _ ← dropDocSidecar w dk; mret (Answer (nothing_stored rev)) in
      data ← get (λ h, h_disk h !! disk_key dk);
      match (if w_reads w then data else None) with
      | None => mret (Answer (nothing_stored rev))
      | Some data =>
          if maxDocSidecarBytes <? len data then dropped
          else match readDocSidecarHeader data with
          | Ok (line, rest) =>
              match parseDocSidecarHeader line with
              | Ok hd =>
                  if negb (String.eqb (hd_rev hd) rev) then dropped
                  else if large_sidecar (len data) && (negb (hd_snapshot hd) || hd_legacy hd) then mret (Answer (blocked rev))
                  else mret (Body rev rest hd (len data))
              | _ => dropped
              end
          | _ => dropped
          end
      end
  end.

Definition reserve_recovery (dk : DocKey) (z : Z) : St unit :=
  _ ← add_snapshotBytes z;
  modify (λ h, put_recovering (<[dk := default 0 (h_recovering h !! dk) + z]> (h_recovering h)) h).

(** Give back what a recovery still reserves. *)
Definition release_recovery (dk : DocKey) (reserved : Z) : St unit :=
  if reserved =? 0 then skip
  else _ ← add_snapshotBytes (- reserved); modify (λ h, put_recovering (delete dk (h_recovering h)) h).

Definition decode_recovered (dk : DocKey) (rev rest : string) (hd : Header) (reserved : Z) : M Recovered :=
  match decodeDocSidecarBody rest hd with
  | Ok card =>
      let base := match cd_updates card with u :: _ => if cd_snapshot card then len u else 0 | [] => 0 end in
      if reserved =? 0 then mret (mkRecovered (cd_updates card) rev (cd_snapshot card) 0 false)
      else
        _ ← sec (λ _, reserve_recovery dk (base - reserved));
        mret (mkRecovered (cd_updates card) rev (cd_snapshot card) base false)
  | _ =>
      _ ← sec (λ _, release_recovery dk reserved);
      _ ← sec (λ w, dropDocSidecar w dk);
      mret (nothing_stored rev)
  end.

Definition recoverDoc (dk : DocKey) : M Recovered :=
  look ← sec (λ w, look_sidecar w dk);
  match look with
  | Answer r => mret r
  | Body rev rest hd size =>
      if large_sidecar size then
        full ← sec (λ _, held ← get h_snapshotBytes;
          if maxHubSnapshotBytes <? held + size then mret true else _ ← reserve_recovery dk size; mret false);
        if full : bool then mret (blocked rev) else decode_recovered dk rev rest hd size
      else decode_recovered dk rev rest hd 0
  end.

(** * Health *)

(** persistenceStatus: the warning a session carries, and who hears of it. *)
Definition persistenceStatus (dk : DocKey) (uid : nat) (ok : bool) : St (list nat * option Event) :=
  s ← session_at dk;
  match s with
  | None => mret ([], None)
  | Some s =>
      if negb (ss_uid s =? uid)%nat then mret ([], None)
      else if negb ok then
        _ ← set_session dk (with_degraded true); mret (allLocked s, Some (DocPersistenceError dk.2))
      else if ss_frozen s || negb (ss_degraded s) then mret ([], None)
      else _ ← set_session dk (with_degraded false); mret (allLocked s, Some (DocPersistenceRestored dk.2))
  end.

Definition announcePersistence (what : list nat * option Event) : M unit :=
  match what.2 with Some e => each (λ c, sendTo c e) what.1 | None => nothing end.

(** * Sessions nobody is in *)

Definition resetEmptyDoc (dk : DocKey) (uid : nat) (now : Z) : St unit :=
  with_session dk uid (λ s,
    if bool_decide (ss_members s = ∅)
    then seq ← nextEmptied; set_session dk (λ s, with_emptyAt (Some now) (with_emptiedSeq seq s))
    else skip).

Definition deleteEmptyDoc (dk : DocKey) (uid : nat) : St unit :=
  with_session dk uid (λ s,
    if bool_decide (ss_members s = ∅) then
      _ ← clearCompactionLocked dk;
      _ ← match ss_snapshot s with Some b => releaseSnapshotBlobLocked b | None => skip end;
      _ ← modify (λ h, put_docs (delete dk (h_docs h)) h);
      note (Retired dk uid (sidecarLocked s))
    else skip).

Record emptyDoc := mkEmptyDoc { em_dk : DocKey; em_uid : nat; em_seq : Z }.

(** One candidate: saved and dropped if it is still the same empty session. *)
Definition retire_one (now : M Z) (due : Session → bool) (d : emptyDoc) : M bool :=
  let dk := em_dk d in
  _ ← turn dk;
  card ← sec (λ _, s ← session_at dk;
    mret match s with
         | Some s => if (ss_uid s =? em_uid d)%nat && bool_decide (ss_members s = ∅) && due s then Some (sidecarLocked s) else None
         | None => None
         end);
  ok ← match card with
       | None => mret true
       | Some card =>
           ok ← sec (λ w, persistDoc w dk card);
           if ok : bool then _ ← sec (λ _, deleteEmptyDoc dk (em_uid d)); mret true
           else
             at_ ← now;
             _ ← sec (λ _, resetEmptyDoc dk (em_uid d) at_);
             _ ← sec (λ _, persistenceStatus dk (em_uid d) false);
             mret false
       end;
  _ ← yield_turn dk;
  mret ok.

Definition retireEmptyDocs (candidates : list emptyDoc) (now : Z) (due : Session → bool) : M unit :=
  each (λ d, _ ← retire_one (mret now) (λ s, bool_decide (is_Some (ss_emptyAt s)) && due s) d; nothing) candidates.

Definition grace_over (now : Z) (s : Session) : bool :=
  match ss_emptyAt s with Some at_ => docSessionGrace <=? now - at_ | None => false end.

Definition empty_docs (h : Hub) (pick : Session → bool) : list emptyDoc :=
  map (λ kv, mkEmptyDoc kv.1 (ss_uid kv.2) (ss_emptiedSeq kv.2))
    (List.filter (λ kv, bool_decide (ss_members kv.2 = ∅) && pick kv.2) (map_to_list (h_docs h))).

Definition sweepDocSessions (now : Z) : M unit :=
  candidates ← sec (λ _,
    keys ← get (λ h, (map_to_list (h_docs h)).*1);
    _ ← each_ (λ dk, expireCompactionLocked dk now) keys;
    get (λ h, empty_docs h (grace_over now)));
  retireEmptyDocs candidates now (grace_over now).

Definition by_seq (a b : emptyDoc) : bool := em_seq a <? em_seq b.

(** The account's empty sessions, oldest first, make way for a new one. *)
Definition retireActorEmptyDocs (actorKey : string) (dk : DocKey) (now : Z) : M unit :=
  let left_by s := String.eqb (ss_emptiedBy s) actorKey in
  candidates ← sec (λ _, get (λ h,
    match h_docs h !! dk with
    | Some _ => []
    | None =>
        let excess := actorDocSessionsLocked h actorKey - maxDocSessionsPerActor + 1 in
        if 0 <? excess then
          let all := empty_docs h (λ s, bool_decide (is_Some (ss_emptyAt s)) && left_by s) in
          firstn (Z.to_nat excess) (slice_stable by_seq all)
        else []
    end));
  retireEmptyDocs candidates now left_by.

(** retryEmptyDocSessions: the shutdown form; true when every save went through. *)
Fixpoint retry_all (candidates : list emptyDoc) : M bool :=
  match candidates with
  | [] => mret true
  | d :: candidates' =>
      ok ← retire_one (sec (λ w, mret (w_now w))) (λ _, true) d;
      rest ← retry_all candidates';
      mret (ok && rest)
  end.

Definition retryEmptyDocSessions : M bool :=
  candidates ← sec (λ _, get (λ h, empty_docs h (λ _, true)));
  retry_all candidates.
End Disk.
