(* ===== verification/LiveOps.v ===== *)
(** What clients do with live documents (internal/realtime, docsession.go):
    opening and closing, updates, flushes, and a snapshot's upload from its
    request to its commit.  Each operation is a program of sections, with the
    document's turn taken and given back where the code does. *)

From Stdlib Require Import Ascii.
From S2P Require Import Prelude GoStr Roles Sidecar Live LiveDocs.
Open Scope Z_scope.

Section Ops.
Context `{GoRev}.

(** Where a client is and who it is. *)
Definition place_of (c : nat) : M (string * Actor) :=
  sec (λ _, get (λ h, match h_clients h !! c with
                      | Some cl => (cl_room cl, cl_actor cl)
                      | None => (EmptyString, System)
                      end)).

Definition slow_if (ok : bool) (c : nat) : list nat := if ok then [] else [c].

Definition queue_notices (w : World) (key : string) (notices : list (nat * bool)) : St (list nat) :=
  (fix walk (ns : list (nat * bool)) : St (list nat) :=
     match ns with
     | [] => mret []
     | (c, leads) :: ns' => ok ← queueEvent w c (DocLeader key leads); slow ← walk ns'; mret (slow_if ok c ++ slow)
     end) notices.

(** The stored updates, until the client's queue is full. *)
Fixpoint queue_updates (w : World) (c : nat) (key : string) (updates : list string) : St bool :=
  match updates with
  | [] => mret true
  | u :: us => ok ← queueEvent w c (DocUpdate key u EmptyString); if ok : bool then queue_updates w c key us else mret false
  end.

(** * Opening *)

(** The session a first opener finds: what was stored, or nothing yet. *)
Definition create_session (dk : DocKey) (rc : Recovered) : St bool :=
  let log := rc_updates rc in
  held ← get h_snapshotBytes;
  let based := rc_snapshot rc && match log with [] => false | _ => true end in
  let base := match log with u :: _ => u | [] => EmptyString end in
  if based && (rc_reserved rc =? 0) && (maxHubSnapshotBytes <? held + len base) then mret false
  else
    uid ← fresh_address;
    snapshot ← (if based then
        b ← new_blob base (if rc_reserved rc =? 0 then O else 1%nat);
        _ ← (if rc_reserved rc =? 0 then retainSnapshotBlobLocked b
             else modify (λ h, put_recovering (delete dk (h_recovering h)) h));
        mret (Some b)
      else mret None);
    let s := mkSession uid ∅ None log (bytes log) 0 false false false None EmptyString 0 (rc_rev rc) None snapshot in
    let frozen := over_line s in
    _ ← modify (λ h, put_docs (<[dk := with_frozen frozen (with_degraded frozen s)]> (h_docs h)) h);
    _ ← note (Opened dk uid log);
    mret true.

(** The client becomes a participant: who leads, what it is told. *)
Definition join_session (w : World) (c : nat) (dk : DocKey) : St (list nat) :=
  let key := dk.2 in
  s ← session_at dk;
  match s with
  | None => mret []
  | Some s =>
      let seed := bool_decide (ss_members s = ∅) && match ss_log s with [] => true | _ => false end in
      _ ← set_session dk (λ s, with_members ({[c]} ∪ ss_members s) (with_emptyAt None (with_emptiedBy EmptyString s)));
      _ ← elect_leader dk;
      _ ← note (Joined c dk (ss_uid s));
      leader ← get (λ h, s' ← h_docs h !! dk; ss_leader s');
      let notices := leaderNotices (ss_leader s) c (with_leader leader (with_members ({[c]} ∪ ss_members s) s)) in
      ok ← queueEvent w c (DocState key seed (bool_decide (leader = Some c)));
      slow1 ← match ss_snapshot s with
              | Some b =>
                  token ← nextDocTokenLocked;
                  sent ← queueSnapshotLocked w c (mkJob key token EmptyString b (tail (ss_log s)));
                  mret (slow_if sent c)
              | None => sent ← queue_updates w c key (ss_log s); mret (slow_if sent c)
              end;
      slow2 ← (if ss_degraded s || ss_frozen s
               then sent ← queueEvent w c (DocPersistenceError key); mret (slow_if sent c) else mret []);
      slow3 ← match (if ss_frozen s then leader else None) with
              | Some l =>
                  token ← match ss_compaction s with
                          | Some cp => mret (cp_token cp)
                          | None => beginCompactionLocked dk l (w_now w)
                          end;
                  sent ← queueEvent w l (DocCompact key token); mret (slow_if sent l)
              | None => mret []
              end;
      slow4 ← queue_notices w key notices;
      mret (slow_if ok c ++ slow1 ++ slow2 ++ slow3 ++ slow4)
  end.

(** The commit of a join, first: the session, or a refusal. *)
Definition find_session (w : World) (dk : DocKey) (actor : Actor) (rc : Recovered) : St (option Event) :=
  s ← session_at dk;
  match s with
  | Some _ => _ ← release_recovery dk (rc_reserved rc); mret None
  | None =>
      if rc_blocked rc then mret (Some (DocPersistenceError dk.2))
      else
        full ← get (λ h, (maxDocSessions <=? docSessionCountLocked h)
                         || (maxDocSessionsPerActor <=? actorDocSessionsLocked h (actorConnectionKey actor)));
        if full : bool then
          _ ← release_recovery dk (rc_reserved rc);
          mret (Some (match rc_updates rc with [] => DocState dk.2 true true | _ => DocPersistenceError dk.2 end))
        else
          made ← create_session dk rc;
          mret (if made : bool then None else Some (DocPersistenceError dk.2))
  end.

(** Then, with the session that was there or was made: a seat, or another refusal. *)
Definition take_seat (w : World) (c : nat) (dk : DocKey) : St (option Event * list nat) :=
  s ← session_at dk;
  match s with
  | None => mret (None, [])
  | Some s =>
      let joined := bool_decide (c ∈ ss_members s) in
      held ← get h_snapshotBytes;
      let tail_heavy := match ss_snapshot s with
                        | Some _ => maxHubSnapshotBytes <? held + bytes (tail (ss_log s))
                        | None => false
                        end in
      if negb joined && tail_heavy then mret (Some (DocPersistenceError dk.2), [])
      else if negb joined && (maxDocParticipants <=? Z.of_nat (size (ss_members s)))
      then mret (Some (DocState dk.2 true false), [])
      else slow ← join_session w c dk; mret (None, slow)
  end.

(** The commit: what to tell a client that did not get in, and who turned out
    slow. *)
Definition join (w : World) (c : nat) (dk : DocKey) (actor : Actor) (rc : Recovered) : St (option Event * list nat) :=
  closed ← get h_closed;
  live ← get (λ h, bool_decide (c ∈ h_conns h));
  if closed || negb live then _ ← release_recovery dk (rc_reserved rc); mret (None, [])
  else if negb (mayWrite w actor dk.1) then _ ← release_recovery dk (rc_reserved rc); mret (Some (DocState dk.2 true false), [])
  else
    refusal ← find_session w dk actor rc;
    match refusal with
    | Some e => mret (Some e, [])
    | None => take_seat w c dk
    end.

Definition openDoc (c : nat) (key : string) : M unit :=
  if String.eqb key EmptyString then nothing
  else
    '(room, actor) ← place_of c;
    let dk := (room, key) in
    may ← sec (λ w, mret (mayWrite w actor room));
    if negb may then sendTo c (DocState key true false)
    else
      now ← sec (λ w, mret (w_now w));
      _ ← sweepDocSessions now;
      _ ← retireActorEmptyDocs (actorConnectionKey actor) dk now;
      _ ← turn dk;
      absent ← sec (λ _, get (λ h, bool_decide (h_docs h !! dk = None)));
      rc ← (if absent : bool then recoverDoc dk else mret (mkRecovered [] EmptyString false 0 false));
      '(answer, slow) ← sec (λ w, join w c dk actor rc);
      _ ← yield_turn dk;
      _ ← match answer with Some e => sendTo c e | None => nothing end;
      remove_all slow.

(** * Leaving *)

(** dropLocked: one participant fewer; who must hear of a new leader, and
    whether that was the last one. *)
Definition dropLocked (c : nat) (dk : DocKey) (now : Z) : St (list (nat * bool) * bool) :=
  s ← session_at dk;
  match s with
  | None => mret ([], false)
  | Some s =>
      if negb (bool_decide (c ∈ ss_members s)) then mret ([], false)
      else
        let members := ss_members s ∖ {[c]} in
        _ ← set_session dk (with_members members);
        _ ← elect_leader dk;
        leader ← get (λ h, s' ← h_docs h !! dk; ss_leader s');
        let emptied := bool_decide (members = ∅) in
        _ ← when emptied (
              seq ← nextEmptied;
              by_ ← get (λ h, actor_key h c);
              set_session dk (λ s, with_emptyAt (Some now) (with_emptiedBy by_ (with_emptiedSeq seq s))));
        mret (leaderNotices (ss_leader s) c (with_leader leader (with_members members s)), emptied)
  end.

Record Left := mkLeft {
  lf_uid : nat; lf_notices : list (nat * bool); lf_ask : option (nat * string); lf_card : option Card }.

(** What a leave does to the session: the upload of a client that left is
    forgotten, and a frozen session asks its leader for a snapshot. *)
Definition leave_session (c : nat) (dk : DocKey) (now compactNow : Z) : St (option Left) :=
  s ← session_at dk;
  match s with
  | None => mret None
  | Some s =>
      '(notices, emptied) ← dropLocked c dk now;
      _ ← when (emptied || match ss_compaction s with Some cp => (cp_client cp =? c)%nat | None => false end)
            (clearCompactionLocked dk);
      s' ← session_at dk;
      let asks := match s' with
                  | Some s' => if negb emptied && ss_frozen s' && match ss_compaction s' with None => true | Some _ => false end
                               then ss_leader s' else None
                  | None => None
                  end in
      ask ← match asks with
            | Some l => token ← beginCompactionLocked dk l compactNow; mret (Some (l, token))
            | None => mret None
            end;
      let card := match s' with Some s' => if emptied then Some (sidecarLocked s') else None | None => None end in
      mret (Some (mkLeft (ss_uid s) notices ask card))
  end.

Definition closeDoc (c : nat) (key : string) : M unit :=
  if String.eqb key EmptyString then nothing
  else
    '(room, _) ← place_of c;
    let dk := (room, key) in
    _ ← turn dk;
    left_ ← sec (λ w, leave_session c dk (w_now w) (w_now w));
    match left_ with
    | None => yield_turn dk
    | Some lf =>
        told ← match lf_card lf with
               | None => mret None
               | Some card =>
                   ok ← sec (λ w, persistDoc w dk card);
                   if ok : bool then status ← sec (λ _, persistenceStatus dk (lf_uid lf) true); mret status.2
                   else
                     _ ← sec (λ w, resetEmptyDoc dk (lf_uid lf) (w_now w));
                     _ ← sec (λ _, persistenceStatus dk (lf_uid lf) false);
                     mret (Some (DocPersistenceError key))
               end;
        _ ← yield_turn dk;
        _ ← match told with Some e => sendTo c e | None => nothing end;
        _ ← announceLeader key (lf_notices lf);
        tell_compact key (lf_ask lf)
    end.

(** One document a disconnecting client was in. *)
Definition leave_one (c : nat) (now : Z) (dk : DocKey) : M (list (nat * bool) * option (nat * string)) :=
  _ ← turn dk;
  left_ ← sec (λ _, leave_session c dk now now);
  answer ← match left_ with
    | None => mret ([], None)
    | Some lf =>
        _ ← match lf_card lf with
            | None => nothing
            | Some card =>
                ok ← sec (λ w, persistDoc w dk card);
                _ ← (if ok : bool then nothing else sec (λ _, resetEmptyDoc dk (lf_uid lf) now));
                _ ← sec (λ _, persistenceStatus dk (lf_uid lf) ok);
                nothing
            end;
        mret (lf_notices lf, lf_ask lf)
    end;
  _ ← yield_turn dk;
  mret answer.

Fixpoint leave_each (c : nat) (now : Z) (dks : list DocKey) : M (list (DocKey * (list (nat * bool) * option (nat * string)))) :=
  match dks with
  | [] => mret []
  | dk :: dks' => a ← leave_one c now dk; rest ← leave_each c now dks'; mret ((dk, a) :: rest)
  end.

(** leaveAllDocs: out of every session, then the announcements. *)
Definition leaveAllDocs (c : nat) : M unit :=
  now ← sec (λ w, mret (w_now w));
  dks ← sec (λ _, get (λ h, (List.filter (λ kv, bool_decide (c ∈ ss_members kv.2)) (map_to_list (h_docs h))).*1));
  outcomes ← leave_each c now dks;
  _ ← each (λ o, announceLeader o.1.2 o.2.1) outcomes;
  each (λ o, tell_compact o.1.2 o.2.2) outcomes.

(** * Updates *)

(** The token a client that is over the line is given: a new one, its own, or
    none while another client's snapshot is under way. *)
Definition compaction_token (w : World) (dk : DocKey) (c : nat) (s : Session) : St (option string) :=
  match ss_compaction s with
  | None => token ← beginCompactionLocked dk c (w_now w); mret (Some token)
  | Some cp => mret (if (cp_client cp =? c)%nat then Some (cp_token cp) else None)
  end.

Definition queue_token (w : World) (c : nat) (key : string) (token : option string) : St (list nat) :=
  match token with
  | Some token => ok ← queueEvent w c (DocCompact key token); mret (slow_if ok c)
  | None => mret []
  end.

(** How an update went: done with, or over the line, to be saved first. *)
Inductive Updated := Finished (slow : list nat) | Overflowed (uid : nat) (card : Card) (targets : list nat) (token : option string).

Definition take_update (w : World) (c : nat) (dk : DocKey) (payload : string) : St Updated :=
  let key := dk.2 in
  s ← session_at dk;
  match s with
  | None => mret (Finished [])
  | Some s =>
      if negb (bool_decide (c ∈ ss_members s)) then mret (Finished [])
      else if ss_frozen s then
        token ← compaction_token w dk c s;
        ok ← queueEvent w c (DocPersistenceError key);
        slow ← queue_token w c key token;
        mret (Finished (slow_if ok c ++ slow))
      else
        let s1 := with_log (ss_log s ++ [payload]) (with_logBytes (ss_logBytes s + len payload)
                    (with_generation (wrap64 (ss_generation s + 1)) s)) in
        _ ← modify (λ h, put_docs (<[dk := s1]> (h_docs h)) h);
        _ ← note (Said c dk (ss_uid s) payload);
        let '(count, weight) := deltaStatsLocked s1 in
        if over_line s1 then
          token ← compaction_token w dk c s1;
          mret (Overflowed (ss_uid s) (sidecarLocked s1) (othersLocked c s1) token)
        else
          token ← match ss_compaction s1 with
                  | None => if (docCompactUpdates <=? count) || (docCompactBytes <=? weight)
                            then token ← beginCompactionLocked dk c (w_now w); mret (Some token) else mret None
                  | Some _ => mret None
                  end;
          from ← get (λ h, client_id h c);
          slow1 ← queue_all w (othersLocked c s1) (DocUpdate key payload from);
          slow2 ← queue_token w c key token;
          mret (Finished (slow1 ++ slow2))
  end.

(** The update that crossed the line is kept and relayed; the session freezes. *)
Definition freeze_after (w : World) (c : nat) (dk : DocKey) (uid : nat) (payload : string) (targets : list nat) (token : option string) : St (list nat) :=
  let key := dk.2 in
  s ← session_at dk;
  match s with
  | None => mret []
  | Some s =>
      if negb (ss_uid s =? uid)%nat then mret []
      else
        _ ← set_session dk (λ s, with_frozen true (with_degraded true s));
        from ← get (λ h, client_id h c);
        slow1 ← queue_all w targets (DocUpdate key payload from);
        slow2 ← queue_token w c key token;
        slow3 ← queue_all w (allLocked s) (DocPersistenceError key);
        mret (slow1 ++ slow2 ++ slow3)
  end.

Definition docUpdate (c : nat) (key payload : string) : M unit :=
  '(room, _) ← place_of c;
  let dk := (room, key) in
  _ ← turn dk;
  up ← sec (λ w, take_update w c dk payload);
  slow ← match up with
         | Finished slow => mret slow
         | Overflowed uid card targets token =>
             _ ← sec (λ w, persistDoc w dk card);
             sec (λ w, freeze_after w c dk uid payload targets token)
         end;
  _ ← yield_turn dk;
  remove_all slow.

(** * Flushes *)

(** What the leader's claim is held against after the file was read. *)
Inductive Flush := Stale | Newer (uid : nat) (card : Card) | Flushed (uid : nat) (card : Card) (targets : list nat).

Definition accept_flush (c : nat) (dk : DocKey) (uid : nat) (generation : Z) (actual : string) : St Flush :=
  s ← session_at dk;
  match s with
  | None => mret Stale
  | Some s =>
      if negb (ss_uid s =? uid)%nat then mret Stale
      else if negb (bool_decide (ss_leader s = Some c)) || negb (ss_generation s =? generation) then
        _ ← set_session dk (with_fileRev actual);
        mret (Newer uid (sidecarLocked (with_fileRev actual s)))
      else if negb (bool_decide (c ∈ ss_members s)) then mret Stale
      else
        _ ← set_session dk (with_fileRev actual);
        mret (Flushed uid (sidecarLocked (with_fileRev actual s)) (othersLocked c s))
  end.

(** The old sidecar is cleared, or failing that replaced by one of the same
    revision; true when either went through. *)
Definition clear_sidecar (dk : DocKey) (card : Card) : M bool :=
  cleared ← sec (λ w, persistDoc w dk (mkCard EmptyString [] false));
  if cleared : bool then mret true else sec (λ w, persistDoc w dk card).

Definition docFlushed (c : nat) (key rev : string) : M unit :=
  '(room, _) ← place_of c;
  let dk := (room, key) in
  claim ← sec (λ _, s ← session_at dk;
    mret match s with
         | Some s => if bool_decide (ss_leader s = Some c) && bool_decide (c ∈ ss_members s) then Some (ss_uid s, ss_generation s) else None
         | None => None
         end);
  match claim with
  | None => nothing
  | Some (uid, generation) =>
      actual ← sec (λ w, mret (w_fileRev w dk));
      match actual with
      | None => nothing
      | Some actual =>
          if negb (String.eqb actual rev) then nothing
          else
            _ ← turn dk;
            fl ← sec (λ _, accept_flush c dk uid generation actual);
            match fl with
            | Stale => yield_turn dk
            | Newer uid card =>
                ok ← sec (λ w, persistDoc w dk card);
                status ← sec (λ _, persistenceStatus dk uid ok);
                _ ← yield_turn dk;
                announcePersistence status
            | Flushed uid card targets =>
                persisted ← clear_sidecar dk card;
                bad ← (if persisted : bool then mret ([], None) else sec (λ _, persistenceStatus dk uid false));
                _ ← sec (λ _, with_session dk uid (λ s,
                       _ ← when (over_line s) (note (Thawed dk uid)); set_session dk (with_frozen false)));
                status ← (if persisted : bool then sec (λ _, persistenceStatus dk uid true) else mret bad);
                _ ← yield_turn dk;
                from ← sec (λ _, get (λ h, client_id h c));
                _ ← each (λ t, sendTo t (DocFlushed key actual from)) targets;
                announcePersistence status
            end
      end
  end.

(** * A snapshot's upload *)

Definition reject (w : World) (c : nat) (key token : string) : St (list nat) :=
  ok1 ← queueEvent w c (SnapshotRejected key token);
  ok2 ← queueEvent w c (DocPersistenceError key);
  mret (slow_if (ok1 && ok2) c).

(** What docCompactRequest does in its turn. *)
Definition request_section (w : World) (c : nat) (dk : DocKey) : St (list nat) :=
  _ ← expireCompactionLocked dk (w_now w);
  s ← session_at dk;
  match s with
  | None => mret []
  | Some s =>
      if negb (bool_decide (c ∈ ss_members s)) then mret []
      else
        token ← compaction_token w dk c s;
        match token with
        | Some token => ok ← queueEvent w c (DocCompact dk.2 token); mret (slow_if ok c)
        | None => reject w c dk.2 EmptyString
        end
  end.

Definition docCompactRequest (c : nat) (key : string) : M unit :=
  '(room, _) ← place_of c;
  let dk := (room, key) in
  _ ← turn dk;
  slow ← sec (λ w, request_section w c dk);
  _ ← yield_turn dk;
  remove_all slow.

(** The compaction of a session, when it is this client's and goes by this token. *)
Definition upload_of (s : Session) (c : nat) (token : string) : option Compaction :=
  match ss_compaction s with
  | Some cp => if (cp_client cp =? c)%nat && String.eqb (cp_token cp) token then Some cp else None
  | None => None
  end.

Definition in_time (w : World) (cp : Compaction) : bool := w_now w <? cp_until cp.

Definition client_idle (h : Hub) (c : nat) : bool :=
  match h_clients h !! c with Some cl => String.eqb (cl_snapshotActive cl) EmptyString | None => false end.

(** What docSnapshotStart does in its turn: the upload's bytes are paid for. *)
Definition start_section (w : World) (c : nat) (dk : DocKey) (token : string) (size : Z) (chunks : Z) : St (list nat) :=
  _ ← expireCompactionLocked dk (w_now w);
  s ← session_at dk;
  idle ← get (λ h, client_idle h c);
  held ← get h_snapshotBytes;
  match (s ← s; cp ← (if bool_decide (c ∈ ss_members s) then upload_of s c token else None);
         if in_time w cp && negb (bool_decide (is_Some (cp_assembly cp))) && idle
            && (held + size <=? maxHubSnapshotBytes) && (0 <? size) && w_allowed w then Some cp else None) with
  | None => reject w c dk.2 token
  | Some cp =>
      _ ← add_snapshotBytes size;
      _ ← set_session dk (with_compaction (Some (mkCompaction (cp_token cp) (cp_client cp) (cp_prefixLen cp) (cp_until cp)
            (Some (mkAssembly size chunks 0 EmptyString)))));
      _ ← set_client c (λ cl, set_snapshotActive token (set_snapshotKey dk.2 (set_snapshotNext 0 cl)));
      ok ← queueEvent w c (SnapshotReady dk.2 token);
      mret (slow_if ok c)
  end.

Definition docSnapshotStart (c : nat) (key token : string) (size chunks : Z) : M unit :=
  '(room, _) ← place_of c;
  let dk := (room, key) in
  _ ← turn dk;
  slow ← sec (λ w, start_section w c dk token size chunks);
  _ ← yield_turn dk;
  remove_all slow.

(** What a deadline does in its turn. *)
Definition timeout_section (w : World) (c : nat) (dk : DocKey) (token : string) : St (list nat) :=
  s ← session_at dk;
  match (s ← s; ss_compaction s) with
  | Some cp =>
      if String.eqb (cp_token cp) token && (cp_until cp <=? w_now w)
      then _ ← clearCompactionLocked dk; reject w c dk.2 token else mret []
  | None => mret []
  end.

(** The timer's callback: an upload past its time is forgotten. *)
Definition docCompactionTimeout (dk : DocKey) (c : nat) (token : string) : M unit :=
  _ ← turn dk;
  slow ← sec (λ w, timeout_section w c dk token);
  _ ← yield_turn dk;
  remove_all slow.

(** A message about an upload that is not there, or too late. *)
Definition refuse_upload (w : World) (c : nat) (dk : DocKey) (token : string) : St (list nat) :=
  s ← session_at dk;
  _ ← match (s ← s; upload_of s c token) with Some _ => clearCompactionLocked dk | None => skip end;
  reject w c dk.2 token.

(** What docSnapshotChunk does in its turn. *)
Definition chunk_section (w : World) (c : nat) (dk : DocKey) (token : string) (seq : Z) (payload : string) : St (list nat) :=
  s ← session_at dk;
  match (s ← s; cp ← upload_of s c token; a ← cp_assembly cp; if in_time w cp then Some (cp, a) else None) with
  | None => refuse_upload w c dk token
  | Some (cp, a) =>
      if negb (seq =? as_next a) || (maxDocSnapshotBytes <? len payload) || (as_size a <? len (as_data a) + len payload)
      then _ ← clearCompactionLocked dk; reject w c dk.2 token
      else
        _ ← set_session dk (with_compaction (Some (mkCompaction (cp_token cp) (cp_client cp) (cp_prefixLen cp) (cp_until cp)
              (Some (mkAssembly (as_size a) (as_chunks a) (as_next a + 1) (as_data a +:+ payload))))));
        _ ← set_client c (set_snapshotNext (as_next a + 1));
        mret []
  end.

Definition docSnapshotChunk (c : nat) (key token : string) (seq : Z) (payload : string) : M unit :=
  '(room, _) ← place_of c;
  let dk := (room, key) in
  _ ← turn dk;
  slow ← sec (λ w, chunk_section w c dk token seq payload);
  _ ← yield_turn dk;
  remove_all slow.

(** What docSnapshotAbort does in its turn. *)
Definition abort_section (w : World) (c : nat) (dk : DocKey) (token : string) : St (list nat) :=
  s ← session_at dk;
  match (s ← s; upload_of s c token) with
  | Some _ => _ ← clearCompactionLocked dk; reject w c dk.2 token
  | None => mret []
  end.

Definition docSnapshotAbort (c : nat) (key token : string) : M unit :=
  '(room, _) ← place_of c;
  let dk := (room, key) in
  _ ← turn dk;
  slow ← sec (λ w, abort_section w c dk token);
  _ ← yield_turn dk;
  remove_all slow.

(** A commit's first half: the snapshot takes the place of the log it covers. *)
Inductive Commit := Refused (slow : list nat) | Swapped (uid blob : nat) (card : Card) (targets : list nat).

Definition swap_base (w : World) (c : nat) (dk : DocKey) (token : string) : St Commit :=
  s ← session_at dk;
  match (s ← s; cp ← (if bool_decide (c ∈ ss_members s) then upload_of s c token else None);
         a ← cp_assembly cp; if in_time w cp then Some (s, cp, a) else None) with
  | None => slow ← refuse_upload w c dk token; mret (Refused slow)
  | Some (s, cp, a) =>
      let payload := as_data a in
      let tail_ := drop (cp_prefixLen cp) (ss_log s) in
      if negb (as_next a =? as_chunks a) || negb (len payload =? as_size a)
         || (maxDocLogBytes + maxDocUpdateBytes <? bytes tail_) || (maxDocDeltaEntries <? Z.of_nat (length tail_))
      then _ ← clearCompactionLocked dk; slow ← reject w c dk.2 token; mret (Refused slow)
      else
        blob ← new_blob payload 1;
        _ ← set_client c (forget_upload token);
        let s1 := with_log (payload :: tail_) (with_logBytes (len payload + bytes tail_) (with_snapshot (Some blob)
                    (with_generation (wrap64 (ss_generation s + 1)) (with_compacted false (with_compaction None s))))) in
        _ ← modify (λ h, put_docs (<[dk := s1]> (h_docs h)) h);
        _ ← match ss_snapshot s with Some old => releaseSnapshotBlobLocked old | None => skip end;
        _ ← note (Replaced dk (ss_uid s) token c payload);
        mret (Swapped (ss_uid s) blob (sidecarLocked s1) (othersLocked c s1))
  end.

(** Its second half, once the sidecar was written or not. *)
Definition tell_base (w : World) (c : nat) (dk : DocKey) (token : string) (uid blob : nat) (targets : list nat) (saved : bool) : St (list nat) :=
  let key := dk.2 in
  s ← session_at dk;
  match s with
  | None => mret []
  | Some s =>
      if negb (ss_uid s =? uid)%nat then mret []
      else
        from ← get (λ h, client_id h c);
        let job := mkJob key token from blob [] in
        if saved then
          _ ← when (over_line s) (note (Thawed dk uid));
          _ ← set_session dk (λ s, with_frozen false (with_degraded false s));
          ok1 ← queueEvent w c (SnapshotAccepted key token);
          ok2 ← queueEvent w c (DocPersistenceRestored key);
          slow ← queue_snapshots w targets job (if ss_degraded s then Some (DocPersistenceRestored key) else None);
          mret (slow_if ok1 c ++ slow_if ok2 c ++ slow)
        else
          _ ← set_session dk (λ s, with_frozen true (with_degraded true s));
          ok ← queueEvent w c (SnapshotRejected key token);
          slow ← queue_snapshots w targets job None;
          slow' ← queue_all w (allLocked s) (DocPersistenceError key);
          mret (slow_if ok c ++ slow ++ slow')
  end.

Definition docSnapshotCommit (c : nat) (key token : string) : M unit :=
  '(room, _) ← place_of c;
  let dk := (room, key) in
  _ ← turn dk;
  cm ← sec (λ w, swap_base w c dk token);
  slow ← match cm with
         | Refused slow => mret slow
         | Swapped uid blob card targets =>
             saved ← sec (λ w, persistDoc w dk card);
             sec (λ w, tell_base w c dk token uid blob targets saved)
         end;
  _ ← yield_turn dk;
  remove_all slow.
End Ops.
