(* ===== verification/LiveHub.v ===== *)
(** The live hub's connections, rooms, soft locks and tables (internal/realtime,
    hub.go, hub_http.go, access.go), and what each goroutine runs. *)

From Stdlib Require Import Ascii.
From S2P Require Import Prelude GoStr GoFloat Roles Sidecar Live LiveDocs LiveOps.
Open Scope Z_scope.

(** * Connections *)

Definition count_of (k : string) (m : gmap string Z) : Z := default 0 (m !! k).
Definition count_up (k : string) (m : gmap string Z) : gmap string Z := <[k := count_of k m + 1]> m.
Definition count_down (k : string) (m : gmap string Z) : gmap string Z :=
  if count_of k m <=? 1 then delete k m else <[k := count_of k m - 1]> m.

Definition SetConnectionLimits (l : ConnectionLimits) : St unit :=
  let d := DefaultConnectionLimits in
  let or_default x y := if x <=? 0 then y else x in
  modify (put_limits (mkLimits (or_default (li_Total l) (li_Total d)) (or_default (li_PerAccount l) (li_PerAccount d))
                        (or_default (li_PerIP l) (li_PerIP d)))).

Definition reserveConnection (actor : Actor) (ip : string) : St bool :=
  let key := actorConnectionKey actor in
  full ← get (λ h, h_closed h || (li_Total (h_limits h) <=? h_reserved h)
                   || (li_PerAccount (h_limits h) <=? count_of key (h_actorConns h))
                   || (li_PerIP (h_limits h) <=? count_of ip (h_ipConns h)));
  if full : bool then mret false
  else
    _ ← modify (λ h, put_reserved (h_reserved h + 1) (put_actorConns (count_up key (h_actorConns h)) (put_ipConns (count_up ip (h_ipConns h)) h)));
    mret true.

Definition releaseReservationLocked (key ip : string) : St unit :=
  modify (λ h, put_reserved (if 0 <? h_reserved h then h_reserved h - 1 else h_reserved h)
    (put_actorConns (count_down key (h_actorConns h)) (put_ipConns (count_down ip (h_ipConns h)) h))).

Definition new_client (id : string) (actor : Actor) (ip : string) : Client :=
  mkClient id actor ip EmptyString EmptyString EmptyString false [] false false false [] false false [] EmptyString EmptyString 0.

Definition install (c : Client) : St (option nat) :=
  closed ← get h_closed;
  if closed : bool then mret None
  else
    n ← get h_fresh;
    _ ← modify (λ h, put_fresh (n + 1)%nat (put_clients (<[n := c]> (h_clients h)) (put_conns ({[n]} ∪ h_conns h) h)));
    mret (Some n).

(** * Tables *)

Definition in_room (room : string) (h : Hub) (c : nat) : bool :=
  match h_clients h !! c with Some cl => String.eqb (cl_room cl) room | None => false end.

Definition project_of (h : Hub) (c : nat) : string := match h_clients h !! c with Some cl => cl_project cl | None => EmptyString end.

Definition targets_of (room : string) (only : option nat) (h : Hub) : list nat :=
  List.filter (λ c, in_room room h c && match only with Some o => (c =? o)%nat | None => true end) (elements (h_conns h)).

Definition peer_of (h : Hub) (c : nat) : list Peer :=
  match h_clients h !! c with Some cl => [mkPeer (cl_id cl) (cl_actor cl) (cl_nodeID cl) (cl_editing cl)] | None => [] end.

(** sendPresence: the table is read under the lock and offered outside it. *)
Definition sendPresence (room : string) (only : option nat) : M unit :=
  '(peers, targets) ← sec (λ _, get (λ h,
    (flat_map (peer_of h) (List.filter (in_room room h) (elements (h_conns h))), targets_of room only h)));
  each (λ c, sec (λ _, project ← get (λ h, project_of h c); offerTable c true (PresenceTable project peers))) targets.

Definition publishPresence (room : string) : M unit := sendPresence room None.

Definition room_locks (room : string) (h : Hub) : list (string * NodeLock) :=
  flat_map (λ kv, if String.eqb kv.1.1 room then [(kv.1.2, kv.2)] else []) (map_to_list (h_locks h)).

Definition lock_entry (c : nat) (l : string * NodeLock) : LockEntry :=
  mkLockEntry l.1 (nl_actor l.2) (nl_since l.2) (nl_client l.2 =? c)%nat.

Definition sendLocks (room : string) (only : option nat) : M unit :=
  '(held, targets) ← sec (λ _, get (λ h, (room_locks room h, targets_of room only h)));
  each (λ c, sec (λ _, project ← get (λ h, project_of h c); offerTable c false (LocksTable project (map (lock_entry c) held)))) targets.

Definition publishLocks (room : string) : M unit := sendLocks room None.

(** * Soft locks *)

Definition actorLockCountLocked (h : Hub) (key : string) : Z :=
  Z.of_nat (length (List.filter (λ kv, String.eqb (actorConnectionKey (nl_actor kv.2)) key) (map_to_list (h_locks h)))).

Inductive LockAnswer := Ignored | OwnAlready | HeldBy (a : Actor) | TooMany | Taken.

Definition try_lock (w : World) (c : nat) (actor : Actor) (room node : string) (steal : bool) : St LockAnswer :=
  let key := actorConnectionKey actor in
  closed ← get h_closed;
  live ← get (λ h, bool_decide (c ∈ h_conns h));
  if closed || negb live then mret Ignored
  else
    held ← get (λ h, h_locks h !! (room, node));
    count ← get (λ h, actorLockCountLocked h key);
    let own := match held with Some l => (nl_client l =? c)%nat | None => false end in
    let others := match held with Some l => negb (String.eqb (actorConnectionKey (nl_actor l)) key) | None => true end in
    match held with
    | Some l =>
        if own then mret OwnAlready
        else if negb steal then mret (HeldBy (nl_actor l))
        else if others && (maxLocksPerActor <=? count) then mret TooMany
        else _ ← modify (λ h, put_locks (<[(room, node) := mkNodeLock c actor (w_now w)]> (h_locks h)) h); mret Taken
    | None =>
        if maxLocksPerActor <=? count then mret TooMany
        else _ ← modify (λ h, put_locks (<[(room, node) := mkNodeLock c actor (w_now w)]> (h_locks h)) h); mret Taken
    end.

Section Hub.
Context `{GoRev}.

Definition acquireLock (c : nat) (node : string) (steal : bool) : M unit :=
  if String.eqb node EmptyString then nothing
  else
    '(room, actor) ← place_of c;
    may ← sec (λ w, mret (mayWrite w actor room));
    if negb may then sendTo c (LockDenied node None)
    else
      answer ← sec (λ w, try_lock w c actor room node steal);
      match answer with
      | Ignored => nothing
      | OwnAlready => sendLocks room (Some c)
      | HeldBy holder => sendTo c (LockDenied node (Some holder))
      | TooMany => sendTo c (LockDenied node None)
      | Taken => publishLocks room
      end.

Definition releaseLock (c : nat) (node : string) : M unit :=
  '(room, _) ← place_of c;
  released ← sec (λ _,
    held ← get (λ h, h_locks h !! (room, node));
    match held with
    | Some l => if (nl_client l =? c)%nat then _ ← modify (λ h, put_locks (delete (room, node) (h_locks h)) h); mret true else mret false
    | None => mret false
    end);
  if released : bool then publishLocks room else nothing.

Definition locks_without (c : nat) (room : string) (h : Hub) : gmap DocKey NodeLock :=
  filter (λ kv, ¬ (kv.1.1 = room ∧ nl_client kv.2 = c)) (h_locks h).

Definition releaseAll (c : nat) (room : string) : M unit :=
  changed ← sec (λ _,
    before ← get (λ h, size (h_locks h));
    _ ← modify (λ h, put_locks (locks_without c room h) h);
    after ← get (λ h, size (h_locks h));
    mret (negb (before =? after)%nat));
  if changed : bool then publishLocks room else nothing.

(** * Goodbyes *)

Definition job_of_frame (f : Frame) : list Job := match f with FJob j => [j] | FEvent _ => [] end.

Fixpoint remove_job (j : nat) (js : list Job) : list Job :=
  match js, j with [], _ => [] | _ :: js', O => js' | x :: js', S j' => x :: remove_job j' js' end.

(** One snapshot taken off the queue is released; [pick] is its place among
    those the client has not released yet. *)
Definition release_written (c : nat) (pick : nat) : St unit :=
  cl ← client c;
  match (cl ← cl; cl_writing cl !! pick) with
  | Some j => _ ← set_client c (λ cl, set_writing (remove_job pick (cl_writing cl)) cl); releaseSnapshotJobLocked j
  | None => skip
  end.

(** The client's queue is closed and drained; how many snapshots were on it. *)
Definition drain (c : nat) : St nat :=
  cl ← client c;
  match cl with
  | None => mret O
  | Some cl =>
      let abandoned := flat_map job_of_frame (cl_queue cl) in
      _ ← set_client c (λ cl, set_removed true (set_queue [] (set_writing (abandoned ++ cl_writing cl) cl)));
      mret (length abandoned)
  end.

(** The first half of remove, under the hub's lock; only the first call counts. *)
Definition strike (c : nat) : St bool :=
  cl ← client c;
  match cl with
  | None => mret false
  | Some cl =>
      if cl_once cl then mret false
      else
        _ ← set_client c (set_once true);
        _ ← modify (λ h, put_conns (h_conns h ∖ {[c]}) h);
        _ ← releaseReservationLocked (actorConnectionKey (cl_actor cl)) (cl_ip cl);
        _ ← modify (λ h, put_removals (h_removals h + 1) h);
        _ ← set_client c (set_snapshotActive EmptyString);
        mret true
  end.

(** remove: the first call does the work, and says so when it is done; another
    waits for that ([sync.Once]). *)
Definition remove (c : nat) : M unit :=
  first ← sec (λ _, strike c);
  if negb first then await (ForRemoval c)
  else
    n ← sec (λ _, drain c);
    _ ← each (λ _, sec (λ _, release_written c 0)) (seq 0 n);
    '(room, _) ← place_of c;
    _ ← releaseAll c room;
    _ ← leaveAllDocs c;
    _ ← publishPresence room;
    _ ← sec (λ _, modify (λ h, put_removals (h_removals h - 1) h));
    sec (λ _, set_client c (set_gone true)).

(** deny: the client is parked in a room of its own. *)
Definition deny (c : nat) (previous project : string) : M unit :=
  _ ← sec (λ _, set_client c (λ cl, set_room (deniedRoomPrefix +:+ cl_id cl) (set_nodeID EmptyString (set_editing false cl))));
  _ ← (if negb (String.eqb previous EmptyString) && negb (isDeniedRoom previous) then
         _ ← releaseAll c previous;
         _ ← leaveAllDocs c;
         publishPresence previous
       else nothing);
  sendTo c (AccessDenied project).

Definition writesIn (h : Hub) (c : nat) (room : string) : bool :=
  existsb (λ l, (nl_client l.2 =? c)%nat) (room_locks room h)
  || existsb (λ kv, String.eqb kv.1.1 room && bool_decide (c ∈ ss_members kv.2)) (map_to_list (h_docs h)).

(** RecheckAccess: who lost access leaves the room; who may only read now is
    disconnected if it holds anything. *)
Definition recheck_one (c : nat) : M unit :=
  '(room, actor) ← place_of c;
  project ← sec (λ _, get (λ h, project_of h c));
  if isDeniedRoom room then nothing
  else
    watch ← sec (λ w, mret (mayWatch w actor room));
    if negb (String.eqb room EmptyString) && negb watch then deny c room project
    else
      write ← sec (λ w, mret (mayWrite w actor room));
      writes ← sec (λ _, get (λ h, writesIn h c room));
      if negb write && writes then call (TRemove c) else nothing.

Definition RecheckAccess : M unit :=
  clients ← sec (λ _, get (λ h, elements (h_conns h)));
  each recheck_one clients.

(** * Rooms *)

(** Where a name leads a client: a room, nowhere for now, or a refusal. *)
Inductive Destination := Room (room : string) | Stay | Refused_.

Definition destination (w : World) (actor : Actor) (project : string) : Destination :=
  match w_resolve w with
  | Some resolve =>
      if String.eqb project EmptyString then Room EmptyString
      else match resolve project with
           | LookupFault => Stay
           | NoProject => if bool_decide (is_Some (w_access w)) && negb (IsAdmin actor) then Refused_ else Room EmptyString
           | RoomOf room => Room room
           end
  | None => Room EmptyString
  end.

Definition subscribe (c : nat) (project : string) : M unit :=
  '(previous, actor) ← place_of c;
  dest ← sec (λ w, mret (destination w actor project));
  match dest with
  | Stay => nothing
  | Refused_ => deny c previous project
  | Room room =>
      may ← sec (λ w, mret (mayWatch w actor room));
      if negb may then deny c previous project
      else
        '(previous, unchanged) ← sec (λ _,
          cl ← client c;
          match cl with
          | Some cl =>
              _ ← set_client c (λ cl, set_room room (set_project project (set_nodeID EmptyString (set_editing false cl))));
              mret (cl_room cl, String.eqb (cl_room cl) room && String.eqb (cl_nodeID cl) EmptyString && negb (cl_editing cl))
          | None => mret (room, true)
          end);
        _ ← (if negb (String.eqb previous room) then
               _ ← releaseAll c previous;
               _ ← leaveAllDocs c;
               publishPresence previous
             else nothing);
        _ ← (if unchanged : bool then sendPresence room (Some c) else publishPresence room);
        sendLocks room (Some c)
  end.

(** * News *)

Definition wants (w : World) (h : Hub) (to : Audience) (c : nat) : bool :=
  match h_clients h !! c with
  | None => false
  | Some cl =>
      match to with
      | ToAll => true
      | ToActor id => String.eqb (a_ID (cl_actor cl)) id
      | ToRoom room => String.eqb (cl_room cl) room || (String.eqb (cl_room cl) EmptyString && mayWatch w (cl_actor cl) room)
      | ToReaders room => String.eqb (cl_room cl) room || mayWatch w (cl_actor cl) room
      end
  end.

(** send, to the clients that want it; an empty room is every client, an empty
    actor none. *)
Definition send (to : Audience) (e : Event) : M unit :=
  let to := match to with
            | ToRoom room | ToReaders room => if String.eqb room EmptyString then ToAll else to
            | _ => to
            end in
  match to with
  | ToActor id => if String.eqb id EmptyString then nothing
                  else slow ← sec (λ w, targets ← get (λ h, List.filter (wants w h to) (elements (h_conns h))); queue_all w targets e); remove_all slow
  | _ => slow ← sec (λ w, targets ← get (λ h, List.filter (wants w h to) (elements (h_conns h))); queue_all w targets e); remove_all slow
  end.

Definition BroadcastOps (room from ops : string) : M unit :=
  if String.eqb ops EmptyString then send (ToRoom room) (News "graph-changed" EmptyString)
  else send (if String.eqb room EmptyString then ToAll else ToRoom room) (GraphOps from ops).

(** relay: to the rest of the sender's room, within its account's allowance. *)
Definition relay (c : nat) (make : string → Event) (ghost : option bool) : M unit :=
  '(room, _) ← place_of c;
  sec (λ w,
    if negb (w_allowed w) then skip
    else
      from ← get (λ h, client_id h c);
      targets ← get (λ h, List.filter (λ t, negb (t =? c)%nat && in_room room h t) (elements (h_conns h)));
      each_ (λ t, match ghost with
                  | Some active => offerDrag t from active (make from)
                  | None => offer t (make from)
                  end) targets).

(** * A client's writer *)

(** catchUp: what a client skipped while it was behind. *)
Fixpoint owed_ends (c : nat) (owed : list string) : St unit :=
  match owed with
  | [] => skip
  | from :: owed' =>
      ok ← offerLocked c (FEvent (GraphDrag from (mkDrag [] (SpecFloat.S754_zero false) (SpecFloat.S754_zero false) false)));
      if ok : bool then _ ← set_client c (λ cl, set_staleDragEnds (remove_str from (cl_staleDragEnds cl)) cl); owed_ends c owed'
      else skip
  end.

Definition catchUp (c : nat) : M unit :=
  '(presence, locks) ← sec (λ _,
    cl ← client c;
    match cl with
    | None => mret (false, false)
    | Some cl =>
        if cl_removed cl || (outboundCapacity / 2 <=? length (cl_queue cl))%nat then mret (false, false)
        else
          _ ← owed_ends c (cl_staleDragEnds cl);
          _ ← set_client c (λ cl, set_stalePresence false (set_staleLocks false cl));
          mret (cl_stalePresence cl, cl_staleLocks cl)
    end);
  if negb (presence || locks) then nothing
  else
    '(room, _) ← place_of c;
    _ ← (if presence : bool then sendPresence room (Some c) else nothing);
    if locks : bool then sendLocks room (Some c) else nothing.

(** The frame at the head of the queue; a snapshot is being written from then on. *)
Definition pop (c : nat) : St (option Frame) :=
  cl ← client c;
  match cl with
  | None => mret None
  | Some cl =>
      match cl_queue cl with
      | [] => mret None
      | f :: fs =>
          _ ← set_client c (λ cl, set_queue fs (set_writing (job_of_frame f ++ cl_writing cl) cl));
          mret (Some f)
      end
  end.

(** One turn of writeLoop; [wrote] is whether the socket took the frame. *)
Definition write_one (c : nat) : M unit :=
  f ← sec (λ _, pop c);
  match f with
  | None => nothing
  | Some f =>
      wrote ← sec (λ w, mret (w_writes w));
      _ ← (match f with FJob _ => sec (λ _, release_written c 0) | FEvent _ => nothing end);
      if wrote : bool then catchUp c else call (TRemove c)
  end.

Definition ping (c : nat) : M unit :=
  ok ← sec (λ w, mret (w_authorized w));
  if ok : bool then nothing else call (TRemove c).

(** * Messages *)

Definition text_ok (s : string) : bool := (len s <=? 256) && negb (contains_any s (String "000" (String "013" (String "010" EmptyString)))).

Definition isFinite (f : float64) : bool :=
  match f with SpecFloat.S754_zero _ | SpecFloat.S754_finite _ _ _ => true | _ => false end.

Definition validClientMessage (m : clientMessage) : bool :=
  let named := negb (String.eqb (m_NodeID m) EmptyString) in
  let payload max := negb (String.eqb (m_Payload m) EmptyString) && (len (m_Payload m) <=? max) in
  let typ := String.eqb (m_Type m) in
  text_ok (m_Project m) && text_ok (m_NodeID m) && text_ok (m_PageID m)
  && (if typ "subscribe" then negb (String.eqb (m_Project m) EmptyString)
      else if typ "presence" then true
      else if typ "lock" || typ "unlock" then named
      else if typ "awareness" then payload maxAwarenessBytes
      else if typ "graph-drag" then
        negb (m_Active m && match m_IDs m with [] => true | _ => false end)
        && (Z.of_nat (length (m_IDs m)) <=? maxDragIDs)
        && forallb (λ id, negb (String.eqb id EmptyString) && text_ok id) (m_IDs m)
        && isFinite (m_DX m) && isFinite (m_DY m)
      else if typ "doc-open" || typ "doc-close" then named
      else if typ "doc-update" then named && payload maxDocUpdateBytes
      else if typ "doc-snapshot" then named && payload maxDocSnapshotBytes
      else if typ "doc-compact-request" then named
      else if typ "doc-snapshot-start" then
        named && validDocToken (m_Token m) && (0 <? m_Size m) && (m_Size m <=? maxDocSnapshotTotalBytes)
        && (0 <? m_Chunks m) && (m_Chunks m <=? maxDocSnapshotChunks) && (m_Chunks m =? chunks_for (m_Size m))
      else if typ "doc-snapshot-chunk" then
        named && validDocToken (m_Token m) && (0 <=? m_Seq m) && (m_Seq m <? maxDocSnapshotChunks) && payload maxDocSnapshotBytes
      else if typ "doc-snapshot-commit" || typ "doc-snapshot-abort" then named && validDocToken (m_Token m)
      else if typ "doc-flushed" then named && validDocRev (m_Rev m)
      else false).

Definition presence (c : nat) (nodeID : string) (editing : bool) : M unit :=
  '(room, changed) ← sec (λ _,
    cl ← client c;
    match cl with
    | None => mret (EmptyString, false)
    | Some cl =>
        _ ← set_client c (λ cl, set_nodeID nodeID (set_editing editing cl));
        mret (cl_room cl, negb (String.eqb (cl_nodeID cl) nodeID) || negb (Bool.eqb (cl_editing cl) editing))
    end);
  if changed : bool then publishPresence room else nothing.

Definition drag (c : nat) (ghost : DragGhost) : M unit :=
  '(room, actor) ← place_of c;
  may ← sec (λ w, mret (mayWrite w actor room));
  if negb may then nothing else relay c (λ from, GraphDrag from ghost) (Some (dg_Active ghost)).

Definition handleMessage (c : nat) (m : clientMessage) : M unit :=
  let typ := String.eqb (m_Type m) in
  let key := message_key m in
  if typ "subscribe" then subscribe c (m_Project m)
  else if typ "presence" then presence c (m_NodeID m) (m_Editing m)
  else if typ "lock" then acquireLock c (m_NodeID m) (m_Steal m)
  else if typ "unlock" then releaseLock c (m_NodeID m)
  else if typ "awareness" then relay c (λ from, Awareness from (m_Payload m)) None
  else if typ "graph-drag" then drag c (mkDrag (m_IDs m) (m_DX m) (m_DY m) (m_Active m))
  else if typ "doc-open" then openDoc c key
  else if typ "doc-close" then closeDoc c key
  else if typ "doc-update" || typ "doc-snapshot" then docUpdate c key (m_Payload m)
  else if typ "doc-flushed" then docFlushed c key (m_Rev m)
  else if typ "doc-compact-request" then docCompactRequest c key
  else if typ "doc-snapshot-start" then docSnapshotStart c key (m_Token m) (m_Size m) (m_Chunks m)
  else if typ "doc-snapshot-chunk" then docSnapshotChunk c key (m_Token m) (m_Seq m) (m_Payload m)
  else if typ "doc-snapshot-commit" then docSnapshotCommit c key (m_Token m)
  else if typ "doc-snapshot-abort" then docSnapshotAbort c key (m_Token m)
  else nothing.

(** allowSnapshotChunk: a chunk is paid for by the start it follows. *)
Definition allowSnapshotChunk (h : Hub) (c : nat) (key token : string) (seq : Z) : bool :=
  match h_clients h !! c with
  | Some cl => String.eqb (cl_snapshotActive cl) token && negb (String.eqb token EmptyString)
               && String.eqb (cl_snapshotKey cl) key && (cl_snapshotNext cl =? seq)
  | None => false
  end.

(** One message as the connection's loop reads it: checked, charged, handled. *)
Definition receive (c : nat) (m : clientMessage) : M unit :=
  authorized ← sec (λ w, mret (w_authorized w));
  if negb authorized || negb (validClientMessage m) then call (TRemove c)
  else
    allowed ← sec (λ w, if String.eqb (m_Type m) "doc-snapshot-chunk"
                        then get (λ h, allowSnapshotChunk h c (message_key m) (m_Token m) (m_Seq m))
                        else mret (w_allowed w));
    if negb allowed then call (TRemove c) else handleMessage c m.

(** Handle, up to its loop: a place is reserved, the client installed, greeted. *)
Definition connect (id : string) (actor : Actor) (ip : string) : M unit :=
  reserved ← sec (λ _, reserveConnection actor ip);
  if negb reserved then nothing
  else
    accepted ← sec (λ w, mret (w_authorized w));
    c ← (if accepted : bool then sec (λ _, install (new_client id actor ip)) else mret None);
    match c with
    | None => sec (λ _, releaseReservationLocked (actorConnectionKey actor) ip)
    | Some c => sendTo c (Hello id)
    end.

(** Close: everybody is removed; removals others have begun are waited for; then
    the empty sessions are saved, true when every save went through. *)
Definition Close : M bool :=
  clients ← sec (λ _, _ ← modify (put_closed true); get (λ h, elements (h_conns h)));
  _ ← remove_all clients;
  _ ← await ForRemovals;
  retryEmptyDocSessions.

Definition run (t : Task) : prog :=
  finish match t with
         | TConnect id actor ip => connect id actor ip
         | TMessage c m => receive c m
         | TWrite c => write_one c
         | TPing c => ping c
         | TRemove c => remove c
         | TTimeout dk c token => docCompactionTimeout dk c token
         | TRecheck => RecheckAccess
         | TSend to e => send to e
         | TClose => _ ← Close; nothing
         end.
End Hub.
