(* ===== verification/LivePool.v ===== *)
(** The hub's goroutines at work: a pool of programs that take turns over one
    hub, one section at a time, and a logic for programs in such a pool.  A
    program is shown to keep an invariant and to leave alone the documents whose
    turn is another's, given that the others do; then every run of the pool
    keeps the invariant ([pool_keeps]).

    Runs of the hub that can be computed: a script says which goroutine begins
    or moves next, and in what world. *)

From stdpp Require Import strings.
From S2P Require Import Prelude GoStr GoFloat GoTime Roles Sidecar Live LiveDocs LiveOps LiveHub.
Open Scope Z_scope.

(** * The pool *)

(** A goroutine; a connection's loop handles one message after the other. *)
Record Thread := mkThread { th_reader : option nat; th_prog : prog }.

Record Pool := mkPool {
  p_hub : Hub;
  p_turns : gmap DocKey nat;       (* whose turn a document is *)
  p_threads : gmap nat Thread;
  p_next : nat;
  p_ids : gset string;             (* connection ids given out *)
}.

Definition with_thread (i : nat) (th : Thread) (h : Hub) (p : Pool) : Pool :=
  mkPool h (p_turns p) (<[i := th]> (p_threads p)) (p_next p) (p_ids p).

Definition reader_of (t : Task) : option nat := match t with TMessage c _ => Some c | _ => None end.

Definition add_thread `{GoRev} (t : Task) (p : Pool) : Pool :=
  mkPool (p_hub p) (p_turns p) (<[p_next p := mkThread (reader_of t) (run t)]> (p_threads p)) (S (p_next p))
    (match t with TConnect id _ _ => {[id]} ∪ p_ids p | _ => p_ids p end).

(** What may begin: a message when its connection's last one is dealt with, a
    connection under a new id, anything else at any time. *)
Definition may_begin (t : Task) (p : Pool) : Prop :=
  match t with
  | TMessage c _ => ∀ i th, p_threads p !! i = Some th → th_reader th ≠ Some c
  | TConnect id _ _ => id ∉ p_ids p
  | _ => True
  end.

(** A move of one goroutine. *)
Inductive moves `{GoRev} (i : nat) (p : Pool) : Pool → Prop :=
  | moves_section r f w h' q :
      p_threads p !! i = Some (mkThread r (Sec f)) → f w (p_hub p) = (h', q) →
      moves i p (with_thread i (mkThread r q) h' p)
  | moves_acquire r dk q :
      p_threads p !! i = Some (mkThread r (Acquire dk q)) → p_turns p !! dk = None →
      moves i p (mkPool (p_hub p) (<[dk := i]> (p_turns p)) (<[i := mkThread r q]> (p_threads p)) (p_next p) (p_ids p))
  | moves_release r dk q :
      p_threads p !! i = Some (mkThread r (Release dk q)) → p_turns p !! dk = Some i →
      moves i p (mkPool (p_hub p) (delete dk (p_turns p)) (<[i := mkThread r q]> (p_threads p)) (p_next p) (p_ids p))
  | moves_await r x q :
      p_threads p !! i = Some (mkThread r (Await x q)) → ready x (p_hub p) = true →
      moves i p (with_thread i (mkThread r q) (p_hub p) p)
  | moves_call r t q :
      p_threads p !! i = Some (mkThread r (Call t q)) →
      moves i p (with_thread i (mkThread r (andthen (run t) q)) (p_hub p) p)
  | moves_end r :
      p_threads p !! i = Some (mkThread r Done) →
      moves i p (mkPool (p_hub p) (p_turns p) (delete i (p_threads p)) (p_next p) (p_ids p)).

Inductive pool_step `{GoRev} (p : Pool) : Pool → Prop :=
  | step_begin t : may_begin t p → pool_step p (add_thread t p)
  | step_move i p' : moves i p p' → pool_step p p'.

(** Nobody can move. *)
Definition still `{GoRev} (p : Pool) : Prop := ∀ i p', ¬ moves i p p'.

(** Left to itself, the goroutine gives the document's turn back: it never has to
    wait for anybody before, whatever the world answers it, and does not go on
    for ever. *)
Inductive gives_back `{GoRev} (i : nat) (dk : DocKey) (p : Pool) : Prop :=
  | given_back : p_turns p !! dk ≠ Some i → gives_back i dk p
  | moves_on p1 : moves i p p1 → (∀ p', moves i p p' → gives_back i dk p') → gives_back i dk p.

Definition start_pool (disk : gmap DocKey string) : Pool := mkPool (put_disk disk NewHub) ∅ ∅ 0 ∅.

Definition reachable `{GoRev} (disk : gmap DocKey string) (p : Pool) : Prop := rtc pool_step (start_pool disk) p.

(** Some world, to run a section in. *)
Definition inhabitant_world : World :=
  mkWorld 0 (λ _ _, true) None None None true true (λ _, true) (λ _, None) (λ _, None) true true.

(** A program's sections in a row, in one world and undisturbed. *)
Inductive runs (w : World) : prog → Hub → prog → Hub → Prop :=
  | runs_here p h : runs w p h p h
  | runs_section f h h1 p1 p' h' : f w h = (h1, p1) → runs w p1 h1 p' h' → runs w (Sec f) h p' h'.

(** So the program comes to its answer. *)
Definition returns {A} (w : World) (m : M A) (h : Hub) (a : A) (h' : Hub) : Prop := ∀ k, runs w (m k) h (k a) h'.

Lemma runs_trans w p1 h1 p2 h2 p3 h3 : runs w p1 h1 p2 h2 → runs w p2 h2 p3 h3 → runs w p1 h1 p3 h3.
Proof. induction 1; [done|]. intros. eapply runs_section; eauto. Qed.

Lemma returns_ret {A} w (a : A) h : returns w (mret a) h a h.
Proof. intros k. apply runs_here. Qed.

Lemma returns_sec {A} w (f : World → St A) h : returns w (sec f) h (f w h).2 (f w h).1.
Proof. intros k. unfold sec. destruct (f w h) as [h' a] eqn:E. eapply runs_section; [by rewrite E|apply runs_here]. Qed.

Lemma returns_bind {A B} w (m : M A) (f : A → M B) h a h1 b h2 :
  returns w m h a h1 → returns w (f a) h1 b h2 → returns w (m ≫= f) h b h2.
Proof. intros Hm Hf k. eapply runs_trans; [apply Hm|apply Hf]. Qed.

(** * The logic *)

Section Logic.
Context `{GoRev}.
(** What is known of the hub already; the invariant, given the documents whose
    turn is taken; what others may do meanwhile, at all and to a document whose
    turn is one's own. *)
Context (Known : Hub → Prop) (Inv : gset DocKey → Hub → Prop) (ext : Hub → Hub → Prop) (stable : DocKey → Hub → Hub → Prop).
Context (ext_refl : ∀ h, ext h h) (ext_trans : ∀ a b c, ext a b → ext b c → ext a c).
Context (stable_refl : ∀ dk h, stable dk h h) (stable_trans : ∀ dk a b c, stable dk a b → stable dk b c → stable dk a c).
Context (Inv_more : ∀ B B' h, B ⊆ B' → Inv B h → Inv B' h).

Definition rely (held : option DocKey) (h h' : Hub) : Prop :=
  ext h h' ∧ match held with Some dk => stable dk h h' | None => True end.

Definition guar (B : gset DocKey) (held : option DocKey) (h h' : Hub) : Prop :=
  ext h h' ∧ ∀ dk, dk ∈ B → held ≠ Some dk → stable dk h h'.

Definition holds_turn (held : option DocKey) (B : gset DocKey) : Prop :=
  match held with Some dk => dk ∈ B | None => True end.

Fixpoint wp (p : prog) (held : option DocKey) (h : Hub) : Prop :=
  match p with
  | Done => held = None
  | Sec f => ∀ B h' w, holds_turn held B → Known h' → Inv B h' → rely held h h' →
      match f w h' with (h'', q) => Inv B h'' ∧ guar B held h' h'' ∧ wp q held h'' end
  | Acquire dk q => held = None ∧ ∀ B h', dk ∉ B → Known h' → Inv B h' → ext h h' → wp q (Some dk) h'
  | Release dk q => held = Some dk ∧
      (∀ B h', dk ∈ B → Known h' → Inv B h' → rely held h h' → Inv (B ∖ {[dk]}) h') ∧ ∀ h', rely held h h' → wp q None h'
  | Await _ q | Call _ q => held = None ∧ ∀ h', ext h h' → wp q None h'
  end.

Lemma rely_refl held h : rely held h h.
Proof. split; [done|]. destruct held; [apply stable_refl|done]. Qed.

Lemma rely_trans held a b c : rely held a b → rely held b c → rely held a c.
Proof. intros [? H1] [? H2]. split; [by eapply ext_trans|]. destruct held; [by eapply stable_trans|done]. Qed.

(** What is known of a program survives what the others do. *)
Lemma wp_rely p : ∀ held h h', rely held h h' → wp p held h → wp p held h'.
Proof.
  induction p as [|f IH|dk p IH|dk p IH|x p IH|t p IH] using prog_induction; simpl; intros held h h' Hr Hw; try done.
  - intros B h1 w HB HK HI Hr1. apply Hw; [done..|]. by eapply rely_trans.
  - destruct Hw as [-> Hw]. split; [done|]. intros B h1 Hdk HK HI He. apply (Hw B); [done..|]. eapply ext_trans; [apply Hr|done].
  - destruct Hw as (-> & Hi & Hw). split; [done|]. split.
    + intros B h1 HB HK HI Hr1. apply Hi; [done..|]. by eapply rely_trans.
    + intros h1 Hr1. apply Hw. by eapply rely_trans.
  - destruct Hw as [-> Hw]. split; [done|]. intros h1 He. apply Hw. eapply ext_trans; [apply Hr|done].
  - destruct Hw as [-> Hw]. split; [done|]. intros h1 He. apply Hw. eapply ext_trans; [apply Hr|done].
Qed.

(** What is called is done, and then the rest. *)
Lemma wp_andthen q p : ∀ held h, (∀ h', ext h h' → wp q None h') → wp p held h → wp (andthen p q) held h.
Proof.
  induction p as [|f IH|dk p IH|dk p IH|x p IH|t p IH] using prog_induction; simpl; intros held h Hq Hw.
  - subst held. apply Hq, ext_refl.
  - intros B h1 w HB HK HI [He Hs]. specialize (Hw B h1 w HB HK HI (conj He Hs)). destruct (f w h1) as [h2 p'] eqn:E.
    destruct Hw as (? & [He2 Hg] & Hw). split_and!; [done|by split|].
    specialize (IH w h1). rewrite E in IH. apply IH; [|done]. intros h3 He3. apply Hq. eapply ext_trans; [exact He|]. by eapply ext_trans.
  - destruct Hw as [-> Hw]. split; [done|]. intros B h1 Hdk HK HI He. apply IH; [|by apply (Hw B)].
    intros h2 He2. apply Hq. by eapply ext_trans.
  - destruct Hw as (-> & Hi & Hw). split; [done|]. split; [done|]. intros h1 Hr. apply IH; [|by apply Hw].
    intros h2 He2. apply Hq. eapply ext_trans; [apply Hr|done].
  - destruct Hw as [-> Hw]. split; [done|]. intros h1 He. apply IH; [|by apply Hw]. intros h2 He2. apply Hq. by eapply ext_trans.
  - destruct Hw as [-> Hw]. split; [done|]. intros h1 He. apply IH; [|by apply Hw]. intros h2 He2. apply Hq. by eapply ext_trans.
Qed.

(** * Triples for programs with a continuation *)

Definition spec {A} (held held' : option DocKey) (P : Hub → Prop) (m : M A) (Q : A → Hub → Prop) : Prop :=
  ∀ k h, P h → (∀ a h', Q a h' → wp (k a) held' h') → wp (m k) held h.

Lemma spec_ret {A} held (P : Hub → Prop) (Q : A → Hub → Prop) a : (∀ h, P h → Q a h) → spec held held P (mret a) Q.
Proof. intros HPQ k h HP Hk. apply Hk. by apply HPQ. Qed.

Lemma spec_bind {A B} held1 held2 held3 P (m : M A) (f : A → M B) R Q :
  spec held1 held2 P m R → (∀ a, spec held2 held3 (R a) (f a) Q) → spec held1 held3 P (m ≫= f) Q.
Proof. intros Hm Hf k h HP Hk. apply Hm; [done|]. intros a h' HR. by apply Hf. Qed.

Lemma spec_weaken {A} held held' (P P' : Hub → Prop) (m : M A) (Q Q' : A → Hub → Prop) :
  spec held held' P' m Q' → (∀ h, P h → P' h) → (∀ a h, Q' a h → Q a h) → spec held held' P m Q.
Proof. intros Hm HP HQ k h Hh Hk. apply Hm; [by apply HP|]. intros a h' Ha. apply Hk. by apply HQ. Qed.

Lemma spec_sec {A} held (P : Hub → Prop) (f : World → St A) (Q : A → Hub → Prop) :
  (∀ B h h' w, holds_turn held B → Known h' → Inv B h' → rely held h h' → P h →
     let '(h'', a) := f w h' in Inv B h'' ∧ guar B held h' h'' ∧ Q a h'') →
  spec held held P (sec f) Q.
Proof.
  intros Hf k h HP Hk B h' w HB HK HI Hr. specialize (Hf B h h' w HB HK HI Hr HP).
  destruct (f w h') as [h'' a]. destruct Hf as (? & ? & ?). eauto.
Qed.

Lemma spec_turn dk P (R : Hub → Prop) :
  (∀ B h h', dk ∉ B → Known h' → Inv B h' → ext h h' → P h → R h') → spec None (Some dk) P (turn dk) (λ _, R).
Proof. intros HR k h HP Hk. split; [done|]. intros B h' Hdk HK HI He. apply Hk. by eapply HR. Qed.

Lemma spec_yield dk (P R : Hub → Prop) :
  (∀ B h h', dk ∈ B → Known h' → Inv B h' → rely (Some dk) h h' → P h → Inv (B ∖ {[dk]}) h') →
  (∀ h h', rely (Some dk) h h' → P h → R h') →
  spec (Some dk) None P (yield_turn dk) (λ _, R).
Proof.
  intros HI HR k h HP Hk. split; [done|]. split.
  - intros B h' HB HK Hi Hr. by eapply HI.
  - intros h' Hr. apply Hk. by eapply HR.
Qed.

Lemma spec_await (P R : Hub → Prop) x : (∀ h h', ext h h' → P h → R h') → spec None None P (await x) (λ _, R).
Proof. intros HR k h HP Hk. split; [done|]. intros h' He. apply Hk. by eapply HR. Qed.

Lemma spec_call (P R : Hub → Prop) t : (∀ h h', ext h h' → P h → R h') → spec None None P (call t) (λ _, R).
Proof. intros HR k h HP Hk. split; [done|]. intros h' He. apply Hk. by eapply HR. Qed.

Lemma spec_each {A} held (P : Hub → Prop) (f : A → M unit) xs :
  (∀ x, x ∈ xs → spec held held P (f x) (λ _, P)) → spec held held P (each f xs) (λ _, P).
Proof.
  induction xs as [|x xs IH]; intros Hf; [by apply spec_ret|]. simpl. eapply spec_bind; [apply Hf; left|].
  intros ?. apply IH. intros y Hy. apply Hf. by right.
Qed.

Lemma spec_finish (m : M unit) : spec None None (λ _, True) m (λ _ _, True) → ∀ h, wp (finish m) None h.
Proof. intros Hm h. by apply Hm. Qed.

(** * The pool keeps the invariant *)

Definition held_by (p : Pool) (i : nat) (held : option DocKey) : Prop :=
  ∀ dk, p_turns p !! dk = Some i ↔ held = Some dk.

Record pool_ok (p : Pool) : Prop := {
  po_inv : Inv (dom (p_turns p)) (p_hub p);
  po_threads : ∀ i th, p_threads p !! i = Some th → ∃ held, held_by p i held ∧ wp (th_prog th) held (p_hub p);
  po_turns : ∀ dk i, p_turns p !! dk = Some i → is_Some (p_threads p !! i);
  po_next : ∀ i, is_Some (p_threads p !! i) → (i < p_next p)%nat;
}.

Context (run_ok : ∀ t h, wp (run t) None h).

Lemma held_by_fresh p i : pool_ok p → p_threads p !! i = None → held_by p i None.
Proof.
  intros Hok Hi dk. split; [|done]. intros Ht. destruct (po_turns _ Hok _ _ Ht) as [th Hth]. congruence.
Qed.

Lemma pool_ok_begin p t : pool_ok p → pool_ok (add_thread t p).
Proof.
  intros Hok. assert (Hn : p_threads p !! p_next p = None).
  { destruct (p_threads p !! p_next p) eqn:E; [|done]. assert (p_next p < p_next p)%nat; [|lia]. apply (po_next _ Hok). by rewrite E. }
  split; simpl.
  - apply (po_inv _ Hok).
  - intros i th. rewrite lookup_insert_Some. intros [[<- <-]|[Hne Hi]].
    + exists None. split; [by apply (held_by_fresh p)|apply run_ok].
    + by apply (po_threads _ Hok).
  - intros dk i Ht. destruct (po_turns _ Hok _ _ Ht) as [th Hth]. destruct (decide (p_next p = i)) as [<-|Hne].
    + by rewrite Hth in Hn.
    + rewrite lookup_insert_ne by done. by exists th.
  - intros i. rewrite lookup_insert_is_Some. intros [<-|[_ Hi]]; [lia|]. pose proof (po_next _ Hok i Hi). lia.
Qed.

(** A thread's step leaves what is known of the others. *)
Lemma others_keep p i held h' j th :
  pool_ok p → held_by p i held → guar (dom (p_turns p)) held (p_hub p) h' →
  p_threads p !! j = Some th → i ≠ j →
  ∃ held', held_by p j held' ∧ wp (th_prog th) held' h'.
Proof.
  intros Hok Hi [He Hg] Hj Hne. destruct (po_threads _ Hok _ _ Hj) as (held' & Hh' & Hw). exists held'. split; [done|].
  eapply wp_rely; [|exact Hw]. split; [done|]. destruct held' as [dk|]; [|done].
  assert (Ht : p_turns p !! dk = Some j) by (by apply Hh'). apply Hg; [by apply elem_of_dom|].
  intros ->. assert (p_turns p !! dk = Some i) by (by apply Hi). congruence.
Qed.

(** A thread that goes on with another program, and nothing else. *)
Lemma pool_ok_goes_on p i r q q' : pool_ok p → p_threads p !! i = Some (mkThread r q) → held_by p i None → wp q' None (p_hub p) →
  pool_ok (with_thread i (mkThread r q') (p_hub p) p).
Proof.
  intros Hok Hth Hh Hw. split; simpl.
  - apply (po_inv _ Hok).
  - intros j th. rewrite lookup_insert_Some. intros [[<- <-]|[Hne Hj]]; [by exists None|]. by apply (po_threads _ Hok).
  - intros dk j Ht. rewrite lookup_insert_is_Some'. right. by eapply (po_turns _ Hok).
  - intros j. rewrite lookup_insert_is_Some'. intros [<-|Hj]; apply (po_next _ Hok); [by rewrite Hth|done].
Qed.

Lemma pool_ok_move p i p' : Known (p_hub p) → pool_ok p → moves i p p' → pool_ok p'.
Proof.
  intros HK Hok Hm. destruct Hm as [r f w h' q Hth Hf|r dk q Hth Hfree|r dk q Hth Hmine|r x q Hth Hready|r t q Hth|r Hth].
  - destruct (po_threads _ Hok _ _ Hth) as (held & Hh & Hw). simpl in Hw.
    assert (HB : holds_turn held (dom (p_turns p))).
    { destruct held as [dk|]; [|done]. simpl. apply elem_of_dom. exists i. by apply Hh. }
    specialize (Hw (dom (p_turns p)) (p_hub p) w HB HK (po_inv _ Hok) (rely_refl _ _)). rewrite Hf in Hw.
    destruct Hw as (HI & Hg & Hw). split; simpl; [done| | |].
    + intros j th. rewrite lookup_insert_Some. intros [[<- <-]|[Hne Hj]]; [by exists held|]. by eapply (others_keep p i).
    + intros dk j Ht. rewrite lookup_insert_is_Some'. right. by eapply (po_turns _ Hok).
    + intros j. rewrite lookup_insert_is_Some'. intros [<-|Hj]; apply (po_next _ Hok); [by rewrite Hth|done].
  - destruct (po_threads _ Hok _ _ Hth) as (held & Hh & Hw). simpl in Hw. destruct Hw as [-> Hw]. split; simpl.
    + eapply Inv_more; [|apply (po_inv _ Hok)]. rewrite dom_insert_L. set_solver.
    + intros j th. rewrite lookup_insert_Some. intros [[<- <-]|[Hne Hj]].
      * exists (Some dk). split.
        { intros dk'. simpl. rewrite lookup_insert_Some. split; [intros [[<- _]|[_ Ht]]; [done|]|intros [= ->]; by left].
          by apply Hh in Ht. }
        apply (Hw (dom (p_turns p))); [by apply not_elem_of_dom|done|apply (po_inv _ Hok)|done].
      * destruct (po_threads _ Hok _ _ Hj) as (held' & Hh' & Hw'). exists held'. split; [|done].
        intros dk'. simpl. rewrite lookup_insert_Some. rewrite <- (Hh' dk'). split; [intros [[<- <-]|[_ ?]]; done|].
        intros Ht. right. split; [|done]. intros <-. congruence.
    + intros dk' j. rewrite lookup_insert_Some, lookup_insert_is_Some'. intros [[<- <-]|[_ Ht]]; [by left|right; by eapply (po_turns _ Hok)].
    + intros j. rewrite lookup_insert_is_Some'. intros [<-|Hj]; apply (po_next _ Hok); [by rewrite Hth|done].
  - destruct (po_threads _ Hok _ _ Hth) as (held & Hh & Hw). simpl in Hw. destruct Hw as (-> & HI & Hw). split; simpl.
    + rewrite dom_delete_L. apply HI; [apply elem_of_dom; by exists i|done|apply (po_inv _ Hok)|apply rely_refl].
    + intros j th. rewrite lookup_insert_Some. intros [[<- <-]|[Hne Hj]].
      * exists None. split; [|apply Hw, rely_refl]. intros dk'. simpl. split; [|done]. rewrite lookup_delete_Some. intros [Hd Ht].
        apply Hh in Ht. congruence.
      * destruct (po_threads _ Hok _ _ Hj) as (held' & Hh' & Hw'). exists held'. split; [|done].
        intros dk'. simpl. rewrite lookup_delete_Some, (Hh' dk'). split; [by intros [_ ?]|]. intros Ht. split; [|done].
        intros <-. apply Hh' in Ht. congruence.
    + intros dk' j. rewrite lookup_delete_Some, lookup_insert_is_Some'. intros [_ Ht]. right. by eapply (po_turns _ Hok).
    + intros j. rewrite lookup_insert_is_Some'. intros [<-|Hj]; apply (po_next _ Hok); [by rewrite Hth|done].
  - destruct (po_threads _ Hok _ _ Hth) as (held & Hh & Hw). simpl in Hw. destruct Hw as [-> Hw].
    eapply (pool_ok_goes_on p i r _ q Hok Hth Hh). by apply Hw, ext_refl.
  - destruct (po_threads _ Hok _ _ Hth) as (held & Hh & Hw). simpl in Hw. destruct Hw as [-> Hw].
    eapply (pool_ok_goes_on p i r _ _ Hok Hth Hh). apply wp_andthen; [apply Hw|apply run_ok].
  - destruct (po_threads _ Hok _ _ Hth) as (held & Hh & Hw). simpl in Hw. subst held. split; simpl.
    + apply (po_inv _ Hok).
    + intros j th. rewrite lookup_delete_Some. intros [Hne Hj]. by apply (po_threads _ Hok).
    + intros dk j Ht. destruct (po_turns _ Hok _ _ Ht) as [th Hj]. exists th. rewrite lookup_delete_ne; [done|].
      intros <-. apply Hh in Ht. done.
    + intros j [th Hj]. apply (po_next _ Hok). apply lookup_delete_Some in Hj as [_ Hj]. by exists th.
Qed.

(** What a move does to the hub is of the kind others rely on. *)
Lemma move_ext p i p' : Known (p_hub p) → pool_ok p → moves i p p' → ext (p_hub p) (p_hub p').
Proof.
  intros HK Hok Hm. destruct Hm as [r f w h' q Hth Hf|r dk q Hth Hfree|r dk q Hth Hmine|r x q Hth Hready|r t q Hth|r Hth]; simpl; try apply ext_refl.
  destruct (po_threads _ Hok _ _ Hth) as (held & Hh & Hw). simpl in Hw.
  assert (HB : holds_turn held (dom (p_turns p))).
  { destruct held as [dk|]; [|done]. simpl. apply elem_of_dom. exists i. by apply Hh. }
  specialize (Hw (dom (p_turns p)) (p_hub p) w HB HK (po_inv _ Hok) (rely_refl _ _)). rewrite Hf in Hw. apply Hw.
Qed.

(** Every run keeps the invariant. *)
Lemma pool_keeps p p' : (∀ q, rtc pool_step p q → Known (p_hub q)) → pool_ok p → rtc pool_step p p' → pool_ok p'.
Proof.
  intros HK Hok Hr. induction Hr as [|p p1 p2 Hs _ IH]; [done|]. apply IH.
  - intros q Hq. apply HK. by eapply rtc_l.
  - assert (Known (p_hub p)) by (apply HK; done). destruct Hs; [by apply pool_ok_begin|by eapply pool_ok_move].
Qed.

(** A thread that has a turn gives it back. *)
Lemma pool_gives_back dk i q : (∀ h, Known h) → ∀ p r, pool_ok p → p_threads p !! i = Some (mkThread r q) → p_turns p !! dk = Some i →
  gives_back i dk p.
Proof.
  intros HK. assert (Hw0 : ∀ p r q0, pool_ok p → p_threads p !! i = Some (mkThread r q0) → p_turns p !! dk = Some i → wp q0 (Some dk) (p_hub p)).
  { intros p r q0 Hok Hth Ht. destruct (po_threads _ Hok _ _ Hth) as (held & Hh & Hw). by rewrite (proj1 (Hh dk) Ht) in Hw. }
  induction q as [|f IH|dk' q IH|dk' q IH|x q IH|t q IH] using prog_induction; intros p r Hok Hth Ht; pose proof (Hw0 _ _ _ Hok Hth Ht) as Hw; simpl in Hw;
    [done| |by destruct Hw as [? _]| |by destruct Hw as [? _]|by destruct Hw as [? _]].
  - destruct (f inhabitant_world (p_hub p)) as [h' q] eqn:E. eapply moves_on; [by eapply moves_section|].
    intros p' Hm. assert (Hok' : pool_ok p') by (by eapply pool_ok_move). destruct Hm as [r0 f0 w h0 q0 Hth0 Ef|? ? ? Hth0|? ? ? Hth0|? ? ? Hth0|? ? ? Hth0|? Hth0];
      rewrite Hth in Hth0; try done. injection Hth0 as <- <-. specialize (IH w (p_hub p)). rewrite Ef in IH. simpl in IH.
    apply (IH _ r Hok'); [apply lookup_insert_eq|done].
  - destruct Hw as [[= <-] _]. eapply moves_on; [by eapply moves_release|]. intros p' Hm. apply given_back.
    destruct Hm as [? ? ? ? ? Hth0|? ? ? Hth0|r0 dk0 q0 Hth0|? ? ? Hth0|? ? ? Hth0|? Hth0]; rewrite Hth in Hth0; try done.
    injection Hth0 as <- <- <-. simpl. by rewrite lookup_delete_eq.
Qed.

(** When nobody can move, no turn is taken and who is left waits for a removal. *)
Lemma pool_still p : (∀ h, Known h) → pool_ok p → still p →
  p_turns p = ∅ ∧ ∀ i th, p_threads p !! i = Some th → ∃ x q, th_prog th = Await x q ∧ ready x (p_hub p) = false.
Proof.
  intros HK Hok Hst. assert (Hno : p_turns p = ∅).
  { apply map_eq. intros dk. rewrite lookup_empty. destruct (p_turns p !! dk) as [j|] eqn:Ht; [|done]. exfalso.
    destruct (po_turns _ Hok _ _ Ht) as [[r q] Hj]. destruct (pool_gives_back dk j q HK p r Hok Hj Ht) as [?|p1 Hm _]; [done|by eapply Hst]. }
  split; [done|]. intros i [r q] Hi. destruct (po_threads _ Hok _ _ Hi) as (held & Hh & Hw). simpl in Hw.
  destruct q as [|f|dk q|dk q|x q|t q].
  - exfalso. eapply Hst. by eapply moves_end.
  - exfalso. destruct (f inhabitant_world (p_hub p)) as [h' q] eqn:E. eapply Hst. by eapply moves_section.
  - exfalso. eapply Hst. eapply moves_acquire; [done|]. by rewrite Hno.
  - destruct Hw as (-> & _). assert (Ht : p_turns p !! dk = Some i) by by apply Hh. by rewrite Hno in Ht.
  - exists x, q. split; [done|]. destruct (ready x (p_hub p)) eqn:E; [|done]. exfalso. eapply Hst. by eapply moves_await.
  - exfalso. eapply Hst. by eapply moves_call.
Qed.
End Logic.

Section Play.
Context `{GoRev}.

Inductive Choice :=
  | Begin (t : Task)
  | Move (i : nat) (w : World)
  | Finish (i : nat) (w : World).        (* to its end, or until it must wait *)

#[global] Instance may_begin_dec t p : Decision (may_begin t p).
Proof.
  destruct t as [id actor ip|c m|c|c|c|dk c token| |to e|]; simpl; try apply _.
Defined.

Definition move (i : nat) (w : World) (p : Pool) : option Pool :=
  th ← p_threads p !! i;
  let put q := <[i := mkThread (th_reader th) q]> (p_threads p) in
  match th_prog th with
  | Sec f => let '(h', q) := f w (p_hub p) in Some (mkPool h' (p_turns p) (put q) (p_next p) (p_ids p))
  | Acquire dk q =>
      match p_turns p !! dk with
      | None => Some (mkPool (p_hub p) (<[dk := i]> (p_turns p)) (put q) (p_next p) (p_ids p))
      | Some _ => None
      end
  | Release dk q =>
      if bool_decide (p_turns p !! dk = Some i) then Some (mkPool (p_hub p) (delete dk (p_turns p)) (put q) (p_next p) (p_ids p)) else None
  | Await x q => if ready x (p_hub p) then Some (mkPool (p_hub p) (p_turns p) (put q) (p_next p) (p_ids p)) else None
  | Call t q => Some (mkPool (p_hub p) (p_turns p) (put (andthen (run t) q)) (p_next p) (p_ids p))
  | Done => Some (mkPool (p_hub p) (p_turns p) (delete i (p_threads p)) (p_next p) (p_ids p))
  end.

Fixpoint move_on (fuel : nat) (i : nat) (w : World) (p : Pool) : Pool :=
  match fuel with
  | O => p
  | S fuel => match move i w p with Some p' => move_on fuel i w p' | None => p end
  end.

Definition longest : nat := 200.

Definition choose (ch : Choice) (p : Pool) : option Pool :=
  match ch with
  | Begin t => if bool_decide (may_begin t p) then Some (add_thread t p) else None
  | Move i w => move i w p
  | Finish i w => Some (move_on longest i w p)
  end.

Fixpoint play (script : list Choice) (p : Pool) : option Pool :=
  match script with
  | [] => Some p
  | ch :: script' => p' ← choose ch p; play script' p'
  end.

Lemma move_moves i w p p' : move i w p = Some p' → moves i p p'.
Proof.
  unfold move. destruct (p_threads p !! i) as [[r q]|] eqn:E; [|done]. simpl. destruct q as [|f|dk q|dk q|x q|t q].
  - intros [= <-]. by eapply moves_end.
  - destruct (f w (p_hub p)) as [h' q] eqn:Ef. intros [= <-]. by eapply (moves_section _ _ r f w h' q).
  - destruct (p_turns p !! dk) eqn:Et; [done|]. intros [= <-]. by apply moves_acquire.
  - case_bool_decide; [|done]. intros [= <-]. by apply moves_release.
  - destruct (ready x (p_hub p)) eqn:Er; [|done]. intros [= <-]. by eapply moves_await.
  - intros [= <-]. by eapply moves_call.
Qed.

Lemma move_on_steps fuel i w p : rtc pool_step p (move_on fuel i w p).
Proof.
  revert p. induction fuel as [|fuel IH]; intros p; simpl; [done|]. destruct (move i w p) as [p'|] eqn:E; [|done].
  eapply rtc_l; [|apply IH]. eapply step_move. by apply (move_moves i w).
Qed.

(** A script's run is one of the pool's. *)
Lemma play_steps script p p' : play script p = Some p' → rtc pool_step p p'.
Proof.
  revert p. induction script as [|ch script IH]; intros p; simpl; [by intros [= ->]|].
  destruct (choose ch p) as [p1|] eqn:E; [|done]. simpl. intros Hp. etrans; [|by apply IH]. destruct ch as [t|i w|i w]; unfold choose in E.
  - case_bool_decide; [|done]. injection E as <-. apply rtc_once. by apply step_begin.
  - apply rtc_once. eapply step_move. by apply (move_moves i w).
  - assert (p1 = move_on longest i w p) as -> by congruence. apply move_on_steps.
Qed.

Lemma play_reachable disk script p : play script (start_pool disk) = Some p → reachable disk p.
Proof. apply play_steps. Qed.

(** A script that ends as the test says shows such a state can be reached. *)
Lemma play_shows disk script (test : Pool → bool) :
  match play script (start_pool disk) with Some p => test p | None => false end = true → ∃ p, reachable disk p ∧ test p = true.
Proof. destruct (play script (start_pool disk)) as [p|] eqn:E; [|done]. intros Ht. exists p. split; [by eapply play_reachable|done]. Qed.

(** Where a script leads from an empty disk. *)
Definition after (script : list Choice) : Pool := default (start_pool ∅) (play script (start_pool ∅)).

Lemma after_reachable script : reachable ∅ (after script).
Proof. unfold after. destruct (play script (start_pool ∅)) as [p|] eqn:E; [by apply (play_reachable _ script)|apply rtc_refl]. Qed.
End Play.

(** * Small scripts *)

Definition plain_message (typ project node : string) : clientMessage :=
  mkMessage typ project node false false EmptyString EmptyString EmptyString 0 0 0 EmptyString []
    (SpecFloat.S754_zero false) (SpecFloat.S754_zero false) false.
Definition update_message (node payload : string) : clientMessage :=
  mkMessage "doc-update" EmptyString node false false EmptyString EmptyString EmptyString 0 0 0 payload []
    (SpecFloat.S754_zero false) (SpecFloat.S754_zero false) false.

Definition person (id : string) : Actor := mkActor id id EmptyString EmptyString EmptyString EmptyString EmptyString.

(** A world where all is allowed and every project is its own room. *)
Definition fine_world : World :=
  mkWorld 0 (λ _ _, true) None None (Some RoomOf) true true (λ _, true) (λ _, Some "a1") (λ _, Some "a1") true true.

(** Store revisions, for the scripts. *)
Definition some_rev : GoRev := λ _, "0".

(** The client with number [c] says something; the goroutine is the [i]th. *)
Definition says_now `{GoRev} (c i : nat) (m : clientMessage) : list Choice := [Begin (TMessage c m); Finish i fine_world].

Definition connects `{GoRev} (id : string) (i : nat) : list Choice := [Begin (TConnect id (person id) id); Finish i fine_world].

(** Two people in one document, who have typed a little. *)
Definition two_writers `{GoRev} : list Choice :=
  connects "b" 0 ++ says_now 0 1 (plain_message "subscribe" "room" EmptyString) ++ says_now 0 2 (plain_message "doc-open" EmptyString "doc") ++
  connects "a" 3.

(** What a client was last told about leading a document. *)
Definition last_word (c : nat) (key : string) (tr : list Happened) : option bool :=
  fold_left (λ acc x, match x with
    | Sent c' (DocState key' _ leads) | Sent c' (DocLeader key' leads) => if (c' =? c)%nat && String.eqb key' key then Some leads else acc
    | _ => acc
    end) tr None.

Definition open_doc `{GoRev} (c i : nat) : list Choice := says_now c i (plain_message "doc-open" EmptyString "doc").
Definition enter `{GoRev} (id : string) (c i : nat) : list Choice := connects id i ++ says_now c (S i) (plain_message "subscribe" "room" EmptyString).

(** "b" leaves while "a" comes: the word that "c" leads now is sent last. *)
Definition late_word `{GoRev} : list Choice :=
  enter "b" 0 0 ++ open_doc 0 2 ++ enter "c" 2 3 ++ open_doc 2 5 ++ enter "a" 3 6
  ++ [Begin (TMessage 0 (plain_message "doc-close" EmptyString "doc"))] ++ repeat (Move 8 fine_world) 6
  ++ open_doc 3 9 ++ [Finish 8 fine_world].

Definition both_lead (p : Pool) : bool :=
  match h_docs (p_hub p) !! ("room", "doc") with
  | Some s => bool_decide (2%nat ∈ ss_members s) && bool_decide (3%nat ∈ ss_members s)
              && bool_decide (p_threads p = ∅)
              && bool_decide (last_word 2 "doc" (h_trace (p_hub p)) = Some true) && bool_decide (last_word 3 "doc" (h_trace (p_hub p)) = Some true)
  | None => false
  end.

(** Access to the room is taken away from everyone. *)
Definition closed_world : World :=
  mkWorld 0 (λ _ _, true) (Some (λ _ _, false)) (Some (λ _ _, false)) (Some RoomOf) true true (λ _, true) (λ _, Some "a1") (λ _, Some "a1") true true.

(** "b" asks for a lock, loses access before it has it, and then goes. *)
Definition late_lock `{GoRev} : list Choice :=
  enter "b" 0 0 ++ [Begin (TMessage 0 (plain_message "lock" EmptyString "node"))] ++ repeat (Move 2 fine_world) 4
  ++ [Begin TRecheck; Finish 3 closed_world; Finish 2 closed_world; Begin (TRemove 0); Finish 4 closed_world].

Definition lock_outlives (p : Pool) : bool :=
  match h_locks (p_hub p) !! ("room", "node") with
  | Some l => (nl_client l =? 0)%nat && bool_decide (h_conns (p_hub p) = ∅) && bool_decide (p_threads p = ∅)
  | None => false
  end.

(** Two people in a document, one of whom typed. *)
Definition typed `{GoRev} : list Choice :=
  enter "b" 0 0 ++ open_doc 0 2 ++ enter "c" 2 3 ++ open_doc 2 5 ++ says_now 0 6 (update_message "doc" "hello").

(** And then both left, one by one, and a minute went by. *)
Definition later_world : World :=
  mkWorld (61 * second) (λ _ _, true) None None (Some RoomOf) true true (λ _, true) (λ _, Some "a1") (λ _, Some "a1") true true.

Definition typed_and_gone `{GoRev} : list Choice :=
  typed ++ says_now 0 7 (plain_message "doc-close" EmptyString "doc") ++ says_now 2 8 (plain_message "doc-close" EmptyString "doc")
  ++ [Begin (TMessage 0 (plain_message "doc-open" EmptyString "other")); Finish 9 later_world].

(** The document two people typed into, with nobody's turn on it. *)
Definition in_the_doc (test : Session → bool) (p : Pool) : bool :=
  bool_decide (p_turns p !! ("room", "doc") = None) && match h_docs (p_hub p) !! ("room", "doc") with Some s => test s | None => false end.

Lemma in_the_doc_spec test p : in_the_doc test p = true →
  p_turns p !! ("room", "doc") = None ∧ ∃ s, h_docs (p_hub p) !! ("room", "doc") = Some s ∧ test s = true.
Proof.
  unfold in_the_doc. intros [Ht%bool_decide_eq_true Hs]%andb_true_iff. split; [done|].
  destruct (h_docs (p_hub p) !! ("room", "doc")) as [s|]; [by exists s|done].
Qed.
