(* ===== verification/LiveTurns.v ===== *)
(** What every program of the hub does with turns: it takes one only when it
    holds none, removes nobody and waits for nobody while it holds one, gives it
    back, and ends with none.  So whoever has a turn gives it back, and the hub's
    goroutines can only be stuck in removals; which does happen.  The walk
    through the programs is the same for every invariant that sections keep by
    themselves: [tame] says so, and [walk] does it. *)

From stdpp Require Import strings.
From S2P Require Import Prelude GoStr GoFloat Roles Sidecar Live LiveDocs LiveOps LiveHub LivePool.
Open Scope Z_scope.

(** * Programs whose sections keep an invariant *)

Section Tame.
Context `{GoRev} (Known I : Hub → Prop).

Definition kept {A} (f : World → St A) : Prop := ∀ w h, Known h → I h → I (f w h).1.

Definition tame {A} (held held' : option DocKey) (m : M A) : Prop :=
  spec Known (λ _, I) (λ _ _, True) (λ _ _ _, True) held held' (λ _, True) m (λ _ _, True).

Lemma tame_ret {A} held (a : A) : tame held held (mret a).
Proof. by apply spec_ret. Qed.

Lemma tame_bind {A B} held1 held2 held3 (m : M A) (f : A → M B) :
  tame held1 held2 m → (∀ a, tame held2 held3 (f a)) → tame held1 held3 (m ≫= f).
Proof. intros Hm Hf. eapply spec_bind; [apply Hm|]. intros a. apply Hf. Qed.

Lemma tame_sec {A} held (f : World → St A) : kept f → tame held held (sec f).
Proof.
  intros Hf. apply spec_sec. intros B h h' w _ HK HI _ _. specialize (Hf w h' HK HI). destruct (f w h') as [h'' a]. done.
Qed.

Lemma tame_turn dk : tame None (Some dk) (turn dk).
Proof. by apply spec_turn. Qed.

Lemma tame_yield dk : tame (Some dk) None (yield_turn dk).
Proof. by apply spec_yield. Qed.

Lemma tame_await x : tame None None (await x).
Proof. by apply spec_await. Qed.

Lemma tame_call t : tame None None (call t).
Proof. by apply spec_call. Qed.

Lemma tame_each {A} held (f : A → M unit) xs : (∀ x, tame held held (f x)) → tame held held (each f xs).
Proof. intros Hf. apply spec_each. intros x _. apply Hf. Qed.

Lemma tame_finish (m : M unit) h :
  tame None None m → wp Known (λ _, I) (λ _ _, True) (λ _ _ _, True) (finish m) None h.
Proof. intros Hm. by apply spec_finish. Qed.

(** A pool of such programs keeps the invariant. *)
Lemma tame_pool disk p :
  (∀ t h, wp Known (λ _, I) (λ _ _, True) (λ _ _ _, True) (run t) None h) →
  (∀ q, reachable disk q → Known (p_hub q)) → I (put_disk disk NewHub) → reachable disk p →
  pool_ok Known (λ _, I) (λ _ _, True) (λ _ _ _, True) p.
Proof.
  intros Hrun HK HI Hr. eapply pool_keeps; [done..|exact HK| |exact Hr]. split; simpl; try done.
  intros i [th Hth]. done.
Qed.
End Tame.

Create HintDb tame discriminated.

(** One step into a program: a known operation, a section for [leaf], a turn, or
    whatever the program branches on. *)
Ltac walk_step leaf :=
  match goal with
  | |- tame _ _ _ _ _ => solve [eauto 2 with tame]
  | |- tame _ _ _ _ (mret _) => apply tame_ret
  | |- tame _ _ _ _ nothing => apply tame_ret
  | |- tame _ _ _ _ (_ ≫= _) => eapply tame_bind; [|intros ?]
  | |- tame _ _ _ _ (sec _) => apply tame_sec; leaf
  | |- tame _ _ _ _ (turn _) => apply tame_turn
  | |- tame _ _ _ _ (yield_turn _) => apply tame_yield
  | |- tame _ _ _ _ (await _) => apply tame_await
  | |- tame _ _ _ _ (call _) => apply tame_call
  | |- tame _ _ _ _ (each _ _) => apply tame_each; intros ?
  | |- tame _ _ _ _ (if ?b then _ else _) => destruct b
  | |- tame _ _ _ _ (match ?x with _ => _ end) => destruct x
  | |- tame _ _ _ _ (let _ := _ in _) => cbv zeta
  end.
Ltac walk leaf := repeat walk_step leaf.

(** * Turns *)

Section Turns.
Context `{GoRev}.
Notation orderly := (tame (λ _, True) (λ _, True)).

Ltac go_on := walk ltac:(done).

Lemma sendTo_orderly c e : orderly None None (sendTo c e).
Proof. unfold sendTo. go_on. Qed.
Hint Resolve sendTo_orderly : tame.

Lemma remove_all_orderly slow : orderly None None (remove_all slow).
Proof. unfold remove_all. go_on. Qed.
Hint Resolve remove_all_orderly : tame.
Lemma place_of_orderly held c : orderly held held (place_of c).
Proof. unfold place_of. go_on. Qed.
Hint Resolve place_of_orderly : tame.

Lemma retire_one_orderly now due d : orderly (Some (em_dk d)) (Some (em_dk d)) now → orderly None None (retire_one now due d).
Proof. intros Hnow. unfold retire_one. go_on. Qed.

Lemma retire_all_orderly cs now due : orderly None None (retireEmptyDocs cs now due).
Proof. unfold retireEmptyDocs. go_on. apply retire_one_orderly. go_on. Qed.
Hint Resolve retire_all_orderly : tame.

Lemma retry_all_orderly cs : orderly None None (retry_all cs).
Proof. induction cs; simpl; go_on. apply retire_one_orderly. go_on. Qed.
Hint Resolve retry_all_orderly : tame.

Lemma decode_recovered_orderly held dk rev rest hd z : orderly held held (decode_recovered dk rev rest hd z).
Proof. unfold decode_recovered. go_on. Qed.
Hint Resolve decode_recovered_orderly : tame.

Lemma recoverDoc_orderly held dk : orderly held held (recoverDoc dk).
Proof. unfold recoverDoc. go_on. Qed.
Hint Resolve recoverDoc_orderly : tame.

Lemma openDoc_orderly c key : orderly None None (openDoc c key).
Proof. unfold openDoc, sweepDocSessions, retireActorEmptyDocs. go_on. Qed.

Lemma announce_orderly key ns : orderly None None (announceLeader key ns).
Proof. unfold announceLeader. go_on. Qed.
Hint Resolve announce_orderly : tame.
Lemma tell_compact_orderly key ask : orderly None None (tell_compact key ask).
Proof. unfold tell_compact. go_on. Qed.
Hint Resolve tell_compact_orderly : tame.
Lemma announcePersistence_orderly what : orderly None None (announcePersistence what).
Proof. unfold announcePersistence. go_on. Qed.
Hint Resolve announcePersistence_orderly : tame.

Lemma closeDoc_orderly c key : orderly None None (closeDoc c key).
Proof. unfold closeDoc. go_on. Qed.

Lemma leave_one_orderly c now dk : orderly None None (leave_one c now dk).
Proof. unfold leave_one. go_on. Qed.
Hint Resolve leave_one_orderly : tame.
Lemma leave_each_orderly c now dks : orderly None None (leave_each c now dks).
Proof. induction dks; simpl; go_on. Qed.
Hint Resolve leave_each_orderly : tame.
Lemma leaveAllDocs_orderly c : orderly None None (leaveAllDocs c).
Proof. unfold leaveAllDocs. go_on. Qed.
Hint Resolve leaveAllDocs_orderly openDoc_orderly closeDoc_orderly : tame.

Lemma docUpdate_orderly c key payload : orderly None None (docUpdate c key payload).
Proof. unfold docUpdate. go_on. Qed.
Lemma clear_sidecar_orderly held dk card : orderly held held (clear_sidecar dk card).
Proof. unfold clear_sidecar. go_on. Qed.
Hint Resolve clear_sidecar_orderly docUpdate_orderly : tame.
Lemma docFlushed_orderly c key rev : orderly None None (docFlushed c key rev).
Proof. unfold docFlushed. go_on. Qed.

Lemma docCompactRequest_orderly c key : orderly None None (docCompactRequest c key).
Proof. unfold docCompactRequest. go_on. Qed.
Lemma docSnapshotStart_orderly c key token size chunks : orderly None None (docSnapshotStart c key token size chunks).
Proof. unfold docSnapshotStart. go_on. Qed.
Lemma docSnapshotChunk_orderly c key token seq payload : orderly None None (docSnapshotChunk c key token seq payload).
Proof. unfold docSnapshotChunk. go_on. Qed.
Lemma docSnapshotAbort_orderly c key token : orderly None None (docSnapshotAbort c key token).
Proof. unfold docSnapshotAbort. go_on. Qed.
Lemma docSnapshotCommit_orderly c key token : orderly None None (docSnapshotCommit c key token).
Proof. unfold docSnapshotCommit. go_on. Qed.
Lemma timeout_orderly dk c token : orderly None None (docCompactionTimeout dk c token).
Proof. unfold docCompactionTimeout. go_on. Qed.
Hint Resolve docFlushed_orderly docCompactRequest_orderly docSnapshotStart_orderly docSnapshotChunk_orderly
  docSnapshotAbort_orderly docSnapshotCommit_orderly timeout_orderly : tame.

Lemma sendPresence_orderly room only : orderly None None (sendPresence room only).
Proof. unfold sendPresence. go_on. Qed.
Lemma sendLocks_orderly room only : orderly None None (sendLocks room only).
Proof. unfold sendLocks. go_on. Qed.
Hint Resolve sendPresence_orderly sendLocks_orderly : tame.
Lemma releaseAll_orderly c room : orderly None None (releaseAll c room).
Proof. unfold releaseAll, publishLocks. go_on. Qed.
Hint Resolve releaseAll_orderly : tame.
Lemma remove_orderly c : orderly None None (remove c).
Proof. unfold remove, publishPresence. go_on. Qed.
Lemma deny_orderly c previous project : orderly None None (deny c previous project).
Proof. unfold deny, publishPresence. go_on. Qed.
Hint Resolve remove_orderly deny_orderly : tame.
Lemma relay_orderly c make ghost : orderly None None (relay c make ghost).
Proof. unfold relay. go_on. Qed.
Hint Resolve relay_orderly : tame.

Lemma handleMessage_orderly c m : orderly None None (handleMessage c m).
Proof.
  unfold handleMessage, subscribe, presence, drag, acquireLock, releaseLock, publishPresence, publishLocks. go_on.
Qed.
Hint Resolve handleMessage_orderly : tame.

Lemma run_orderly t h : wp (λ _, True) (λ _ _, True) (λ _ _, True) (λ _ _ _, True) (run t) None h.
Proof.
  apply tame_finish.
  unfold receive, write_one, catchUp, ping, RecheckAccess, recheck_one, send, Close, retryEmptyDocSessions, connect.
  destruct t; go_on.
Qed.

(** C8: a document's turn is always given back.  In every state any number of
    connections, messages, disconnects, timeouts, broadcasts, access checks and
    shutdowns lead to, whoever has a document's turn gives it back after finitely
    many steps of its own, whatever the world answers it, and needs nobody for
    that: it never waits for another turn or for a removal, nor removes anyone,
    while it has one.  So if no goroutine can move, no turn is taken, and every
    goroutine that is left waits for a client's removal that another has begun,
    or, at shutdown, for all removals. *)
Theorem turns_are_given_back disk p :
  reachable disk p →
  (∀ dk i, p_turns p !! dk = Some i → gives_back i dk p) ∧
  (still p → p_turns p = ∅ ∧ ∀ i th, p_threads p !! i = Some th → ∃ x q, th_prog th = Await x q ∧ ready x (p_hub p) = false).
Proof.
  intros Hr. pose proof (tame_pool (λ _, True) (λ _, True) disk p run_orderly (λ _ _, I) I Hr) as Hok. split.
  - intros dk i Ht. destruct (po_turns _ _ _ _ _ Hok dk i Ht) as [[r q] Hth].
    eapply (pool_gives_back (λ _, True) (λ _ _, True) (λ _ _, True) (λ _ _ _, True)); try done. apply run_orderly.
  - intros Hs. eapply (pool_still (λ _, True) (λ _ _, True) (λ _ _, True) (λ _ _ _, True)); try done. apply run_orderly.
Qed.
End Turns.

#[local] Existing Instance some_rev.

Lemma turns_are_given_back_witness :
  (∃ dk i, p_turns (after (two_writers ++ [Begin (TMessage 0 (update_message "doc" "x")); Move 4 fine_world; Move 4 fine_world; Move 4 fine_world; Move 4 fine_world])) !! dk = Some i
     ∧ gives_back i dk (after (two_writers ++ [Begin (TMessage 0 (update_message "doc" "x")); Move 4 fine_world; Move 4 fine_world; Move 4 fine_world; Move 4 fine_world]))).
Proof.
  set (p := after _). exists ("room", "doc"), 4%nat.
  assert (Ht : p_turns p !! ("room", "doc") = Some 4%nat) by (vm_compute; reflexivity). split; [exact Ht|].
  exact (proj1 (turns_are_given_back ∅ p (after_reachable _)) ("room", "doc") 4%nat Ht).
Defined.

(** * Removals that wait for each other *)

Definition doc_message (typ node token payload : string) (size : Z) : clientMessage :=
  mkMessage typ EmptyString node false false EmptyString EmptyString token 0 size 1 payload []
    (SpecFloat.S754_zero false) (SpecFloat.S754_zero false) false.

(** A world where nothing can be written. *)
Definition full_disk : World :=
  mkWorld 0 (λ _ _, true) None None (Some RoomOf) true true (λ _, true) (λ _, Some "a1") (λ _, Some "a1") true false.

Definition open_the (key : string) (c i : nat) : list Choice := says_now c i (plain_message "doc-open" EmptyString key).

(** "a" and "b" are in two documents; the one is frozen, as a snapshot of "a"
    could not be saved.  Both connections drop.  "a" leaves the other document,
    where "b" is to hear that it leads; "b" leaves both, and "a" is to hear that
    the frozen one wants a snapshot; neither can hear anything any more, so each
    is removed by the other, whose own removal is not over.  Then the server
    shuts down. *)
Definition crossed : list Choice :=
  enter "a" 0 0 ++ enter "b" 1 2 ++ open_the "doc" 0 4 ++ open_the "doc" 1 5 ++ open_the "other" 0 6 ++ open_the "other" 1 7
  ++ says_now 0 8 (plain_message "doc-compact-request" EmptyString "doc")
  ++ says_now 0 9 (doc_message "doc-snapshot-start" "doc" "1" EmptyString 3)
  ++ says_now 0 10 (doc_message "doc-snapshot-chunk" "doc" "1" "abc" 0)
  ++ [Begin (TMessage 0 (doc_message "doc-snapshot-commit" "doc" "1" EmptyString 0)); Finish 11 full_disk]
  ++ [Begin (TRemove 0); Begin (TRemove 1)] ++ repeat (Move 12 fine_world) 9 ++ [Finish 13 fine_world; Finish 12 fine_world]
  ++ [Begin TClose; Finish 14 fine_world].

Definition waits_for (th : Thread) : option Wait := match th_prog th with Await x _ => Some x | _ => None end.

Definition waiting (p : Pool) (i : nat) : option Wait := th ← p_threads p !! i; waits_for th.

Definition all_wait (p : Pool) : bool :=
  forallb (λ kv, match waits_for kv.2 with Some x => negb (ready x (p_hub p)) | None => false end) (map_to_list (p_threads p)).

Lemma all_wait_still p : all_wait p = true → still p.
Proof.
  intros Ha. assert (Hth : ∀ i r q, p_threads p !! i = Some (mkThread r q) → ∃ x q', q = Await x q' ∧ ready x (p_hub p) = false).
  { intros i r q Hi. apply elem_of_map_to_list, list_elem_of_In in Hi. apply (proj1 (forallb_forall _ _) Ha) in Hi. unfold waits_for in Hi. simpl in Hi.
    destruct q as [|?|?|?|x q|?]; try done. exists x, q. split; [done|]. by apply negb_true_iff. }
  intros i p' Hm. destruct Hm as [? ? ? ? ? Hi|? ? ? Hi|? ? ? Hi|r x q Hi Hx|? ? ? Hi|? Hi]; destruct (Hth _ _ _ Hi) as (x' & q' & E & Hr); try done.
  injection E as -> ->. congruence.
Qed.

(** Two removals can wait for each other for good, and the server's shutdown with
    them: [sync.Once] makes a second remover wait for the first, and whoever is
    being removed tells others what they lead or should send, removing them if
    they are gone themselves. *)
Theorem goodbyes_wait_for_each_other :
  ∃ p, reachable ∅ p ∧ still p ∧ waiting p 12 = Some (ForRemoval 1) ∧ waiting p 13 = Some (ForRemoval 0) ∧ waiting p 14 = Some ForRemovals.
Proof.
  destruct (play_shows ∅ crossed (λ p, all_wait p && bool_decide (waiting p 12 = Some (ForRemoval 1)) && bool_decide (waiting p 13 = Some (ForRemoval 0))
    && bool_decide (waiting p 14 = Some ForRemovals))) as (p & Hr & T); [vm_compute; reflexivity|].
  exists p. rewrite !andb_true_iff, !bool_decide_eq_true in T. destruct T as [[[Ha H1] H2] H3]. split_and!; [done|by apply all_wait_still|done..].
Qed.
