(* ===== verification/LiveFacts.v ===== *)
(** Reading the hub's past: what happened since the last event of a kind, what a
    client has heard of a document, what a snapshot covers, what the disk was
    last given.

    What a section leaves as it was: the names of clients, the payloads of
    snapshots and the past are for good ([later]); a document whose turn is
    another's keeps its session, but for a compaction that timed out, and
    nothing happens to it ([untouched]). *)

From S2P Require Import Prelude GoStr Roles Sidecar SidecarFacts Live LiveDocs LiveOps LiveHub LivePool.
Open Scope Z_scope.

(** * Since the last event of a kind *)

(** The last event of the kind, and what came after it. *)
Definition since (p : Happened → bool) (tr : list Happened) : option (Happened * list Happened) :=
  fold_left (λ acc x, if p x then Some (x, []) else (λ et, (et.1, et.2 ++ [x])) <$> acc) tr None.

Lemma since_snoc p tr x : since p (tr ++ [x]) = if p x then Some (x, []) else (λ et, (et.1, et.2 ++ [x])) <$> since p tr.
Proof. unfold since. by rewrite fold_left_app. Qed.

Lemma since_app p tr l e t : Forall (λ x, p x = false) l → since p tr = Some (e, t) → since p (tr ++ l) = Some (e, t ++ l).
Proof.
  intros Hl Hs. induction l as [|x l IH] using rev_ind; [by rewrite !app_nil_r|].
  apply Forall_app in Hl as [Hl Hx]. inversion Hx as [|? ? Hpx]; subst. rewrite app_assoc, since_snoc, Hpx, IH by done. simpl.
  by rewrite app_assoc.
Qed.

Lemma since_app_none p tr l : Forall (λ x, p x = false) l → since p tr = None → since p (tr ++ l) = None.
Proof.
  intros Hl Hs. induction l as [|x l IH] using rev_ind; [by rewrite !app_nil_r|].
  apply Forall_app in Hl as [Hl Hx]. inversion Hx as [|? ? Hpx]; subst. rewrite app_assoc, since_snoc, Hpx, IH by done. done.
Qed.

(** What the function finds is there. *)
Lemma since_split p tr e t : since p tr = Some (e, t) → ∃ a, tr = a ++ e :: t ∧ p e = true ∧ Forall (λ x, p x = false) t.
Proof.
  revert e t. induction tr as [|x tr IH] using rev_ind; intros e t; [done|]. rewrite since_snoc. destruct (p x) eqn:E.
  - intros [= <- <-]. exists tr. by split_and!.
  - destruct (since p tr) as [[e' t']|] eqn:Es; [|done]. simpl. intros [= <- <-]. destruct (IH _ _ eq_refl) as (a & -> & Hp & Hf).
    exists a. split_and!; [by rewrite <- app_assoc|done|]. apply Forall_app. split; [done|]. by constructor.
Qed.

Lemma since_intro p a e t : p e = true → Forall (λ x, p x = false) t → since p (a ++ e :: t) = Some (e, t).
Proof.
  intros Hp Hf. rewrite cons_middle, app_assoc. change (Some (e, t)) with (Some (e, [] ++ t)). apply since_app; [done|].
  by rewrite since_snoc, Hp.
Qed.

(** * Kinds of events *)

Definition about (dk : DocKey) (x : Happened) : Prop :=
  match x with
  | Joined _ dk' _ | Opened dk' _ _ | Said _ dk' _ _ | Asked dk' _ _ _ | Replaced dk' _ _ _ _
  | Saved dk' _ | Erased dk' _ | MemoryOnly dk' | Dropped dk' | Thawed dk' _ | Retired dk' _ _ => dk' = dk
  | Sent _ _ | SentSnapshot _ _ _ _ _ | Spilled _ => False
  end.

Definition opens (dk : DocKey) (x : Happened) : bool := match x with Opened dk' _ _ => bool_decide (dk' = dk) | _ => false end.
Definition joins (c : nat) (dk : DocKey) (x : Happened) : bool :=
  match x with Joined c' dk' _ => bool_decide (c' = c ∧ dk' = dk) | _ => false end.
Definition files (dk : DocKey) (x : Happened) : bool :=
  match x with Saved dk' _ | Erased dk' _ | MemoryOnly dk' | Dropped dk' => bool_decide (dk' = dk) | _ => false end.
Definition writes (dk : DocKey) (x : Happened) : bool :=
  match x with Saved dk' _ | Erased dk' _ | Dropped dk' => bool_decide (dk' = dk) | _ => false end.

Lemma not_about dk x : ¬ about dk x →
  opens dk x = false ∧ (∀ c, joins c dk x = false) ∧ files dk x = false ∧ writes dk x = false.
Proof. intros Ha. destruct x; simpl in *; split_and!; try done; intros; apply bool_decide_eq_false; naive_solver. Qed.

Definition uneventful (dk : DocKey) (l : list Happened) : Prop := Forall (λ x, ¬ about dk x) l.

Lemma uneventful_nil dk : uneventful dk [].
Proof. constructor. Qed.
#[export] Hint Resolve uneventful_nil : core.

Lemma uneventful_kind dk l p : uneventful dk l → (∀ x, ¬ about dk x → p x = false) → Forall (λ x, p x = false) l.
Proof. intros Hl Hp. eapply Forall_impl; [exact Hl|done]. Qed.

(** * What a client has heard *)

(** The client comes to know the update: it is sent to it, alone or in a
    snapshot, or it is its own. *)
Definition tells (c : nat) (dk : DocKey) (u : string) (x : Happened) : Prop :=
  match x with
  | Sent c' (DocUpdate key u' _) => c' = c ∧ key = dk.2 ∧ u' = u
  | SentSnapshot c' key _ payload tail => c' = c ∧ key = dk.2 ∧ (u = payload ∨ u ∈ tail)
  | Said c' dk' _ u' => c' = c ∧ dk' = dk ∧ u' = u
  | Replaced dk' _ _ c' payload => c' = c ∧ dk' = dk ∧ u = payload
  | _ => False
  end.

(** All of the list, unless a frame for the client had no room. *)
Definition has_heard (c : nat) (dk : DocKey) (us : list string) (t : list Happened) : Prop :=
  Spilled c ∈ t ∨ ∀ u, u ∈ us → Exists (tells c dk u) t.

(** Since it last joined. *)
Definition caught_up (t : list Happened) (c : nat) (dk : DocKey) (us : list string) : Prop :=
  ∃ e t', since (joins c dk) t = Some (e, t') ∧ has_heard c dk us t'.

Lemma has_heard_app c dk us t l : has_heard c dk us t → has_heard c dk us (t ++ l).
Proof.
  intros [Hs|Hu]; [left; apply elem_of_app; by left|right]. intros u Hin. apply Exists_app. left. by apply Hu.
Qed.

Lemma has_heard_add c dk us vs t l :
  has_heard c dk us t → has_heard c dk vs l → has_heard c dk (us ++ vs) (t ++ l).
Proof.
  intros [Hs|Hu] [Hs'|Hv]; try (left; apply elem_of_app; tauto). right. intros u. rewrite elem_of_app, Exists_app. naive_solver.
Qed.

Lemma has_heard_sub c dk us vs t : (∀ u, u ∈ us → u ∈ vs) → has_heard c dk vs t → has_heard c dk us t.
Proof. intros Hsub [Hs|Hv]; [by left|right; auto]. Qed.

Lemma has_heard_nil c dk t : has_heard c dk [] t.
Proof. right. intros u Hu. by apply elem_of_nil in Hu. Qed.

Lemma caught_up_app t c dk us l : Forall (λ x, joins c dk x = false) l → caught_up t c dk us → caught_up (t ++ l) c dk us.
Proof. intros Hl (e & t' & Hs & Hh). exists e, (t' ++ l). split; [by apply since_app|by apply has_heard_app]. Qed.

Lemma caught_up_add t c dk us vs l : Forall (λ x, joins c dk x = false) l → caught_up t c dk us → has_heard c dk vs l →
  caught_up (t ++ l) c dk (us ++ vs).
Proof. intros Hl (e & t' & Hs & Hh) Hv. exists e, (t' ++ l). split; [by apply since_app|by apply has_heard_add]. Qed.

Lemma caught_up_sub t c dk us vs : (∀ u, u ∈ us → u ∈ vs) → caught_up t c dk vs → caught_up t c dk us.
Proof. intros Hsub (e & t' & Hs & Hh). exists e, t'. split; [done|by eapply has_heard_sub]. Qed.

(** * What a snapshot covers *)

(** The client was asked for a snapshot when it had heard the list. *)
Definition asked (t : list Happened) (dk : DocKey) (token : string) (c : nat) (us : list string) : Prop :=
  ∃ t1 uid t2, t = t1 ++ Asked dk uid token c :: t2 ∧ caught_up t1 c dk us.

(** A snapshot took the update's place, made by a client that had heard it when
    it was asked. *)
Definition covered (t : list Happened) (dk : DocKey) (u : string) : Prop :=
  ∃ t1 uid token c payload t2 us, t = t1 ++ Replaced dk uid token c payload :: t2 ∧ asked t1 dk token c us ∧ u ∈ us.

(** What a session took over or accepted: the stored log it was opened with, the
    updates of its members, their snapshots. *)
Definition accepts (dk : DocKey) (u : string) (x : Happened) : Prop :=
  match x with
  | Said _ dk' _ u' => dk' = dk ∧ u' = u
  | Replaced dk' _ _ _ payload => dk' = dk ∧ payload = u
  | _ => False
  end.

Definition accepted (log : list string) (t : list Happened) (dk : DocKey) (u : string) : Prop := u ∈ log ∨ Exists (accepts dk u) t.

Lemma asked_app t dk token c us l : asked t dk token c us → asked (t ++ l) dk token c us.
Proof. intros (t1 & uid & t2 & -> & Hc). exists t1, uid, (t2 ++ l). by rewrite <- app_assoc. Qed.

Lemma asked_sub t dk token c us vs : (∀ u, u ∈ us → u ∈ vs) → asked t dk token c vs → asked t dk token c us.
Proof. intros Hsub (t1 & uid & t2 & -> & Hc). exists t1, uid, t2. split; [done|by eapply caught_up_sub]. Qed.

Lemma covered_app t dk u l : covered t dk u → covered (t ++ l) dk u.
Proof.
  intros (t1 & uid & token & c & payload & t2 & us & -> & Ha & Hu). exists t1, uid, token, c, payload, (t2 ++ l), us.
  by rewrite <- app_assoc.
Qed.

Lemma accepted_uneventful log t dk u l : uneventful dk l → accepted log (t ++ l) dk u → accepted log t dk u.
Proof.
  intros Hl [Hu|Hu]; [by left|]. apply Exists_app in Hu as [Hu|Hu]; [by right|]. exfalso.
  apply Exists_exists in Hu as (x & Hx & Ha). apply (proj1 (Forall_forall _ _) Hl) in Hx. destruct x; simpl in *; naive_solver.
Qed.

(** * The disk *)

Section Disk.
Context `{GoRev}.

(** What an event leaves in the document's file. *)
Definition leaves (x : Happened) : option string :=
  match x with
  | Saved _ card => Some (encodeDocSidecar card)
  | _ => None
  end.

Definition disk_ok (h : Hub) : Prop :=
  ∀ dk e t, short_key dk.2 = true → since (writes dk) (h_trace h) = Some (e, t) → h_disk h !! disk_key dk = leaves e.

(** What was done with the log of a session that may go: it was written to the
    document's file; or the file was removed, as the log is empty or the
    document's file was never read; or there is no project to save it to. *)
Definition kept_safe (dk : DocKey) (card : Card) (e : Happened) : Prop :=
  e = MemoryOnly dk
  ∨ e = Saved dk card ∧ cd_rev card ≠ EmptyString ∧ cd_updates card ≠ []
  ∨ e = Erased dk card ∧ (cd_rev card = EmptyString ∨ cd_updates card = []).

(** A session goes only once its log was seen to. *)
Definition retired_ok (tr : list Happened) : Prop :=
  ∀ t1 dk uid card t2, tr = t1 ++ Retired dk uid card :: t2 →
    ∃ e t, since (files dk) t1 = Some (e, t) ∧ kept_safe dk card e.

(** What the invariants of the past speak of. *)
Definition booked (x : Happened) : Prop := match x with Retired _ _ _ | Spilled _ => True | _ => False end.

Lemma retired_snoc tr x : ¬ booked x → retired_ok tr → retired_ok (tr ++ [x]).
Proof.
  intros Hx Hok t1 dk uid card t2 E. destruct t2 as [|y t2 _] using rev_ind.
  - apply app_inj_tail in E as [_ ->]. by destruct Hx.
  - rewrite app_comm_cons, app_assoc in E. apply app_inj_tail in E as [-> ->]. by eapply Hok.
Qed.

Lemma retired_now tr dk uid card e t :
  retired_ok tr → since (files dk) tr = Some (e, t) → kept_safe dk card e → retired_ok (tr ++ [Retired dk uid card]).
Proof.
  intros Hok Hs He t1 dk' uid' card' t2 E. destruct t2 as [|y t2 _] using rev_ind.
  - apply app_inj_tail in E as [<- [= -> -> ->]]. eauto.
  - rewrite app_comm_cons, app_assoc in E. apply app_inj_tail in E as [-> _]. by eapply Hok.
Qed.

Lemma str_app_inj_r (a b s : string) : a +:+ s = b +:+ s → a = b.
Proof.
  revert b. induction a as [|c a IH]; intros [|d b] E; simpl in *; [done| | |].
  - exfalso. apply (f_equal String.length) in E. simpl in E. rewrite ?str_length_app in E. simpl in E. rewrite ?str_length_app in E. lia.
  - exfalso. apply (f_equal String.length) in E. simpl in E. rewrite ?str_length_app in E. simpl in E. rewrite ?str_length_app in E. lia.
  - injection E as -> E. f_equal. by apply IH.
Qed.

Lemma disk_key_inj dk dk' : short_key dk.2 = true → disk_key dk' = disk_key dk → dk' = dk.
Proof.
  destruct dk as [r k], dk' as [r' k']. unfold disk_key, docSidecarName. simpl. intros Hs [= -> E]. f_equal.
  symmetry. apply escapeDocKey_inj; [done|]. symmetry. revert E. apply str_app_inj_r.
Qed.

Lemma disk_note h x : (∀ dk, writes dk x = false) → disk_ok h → disk_ok (put_trace (h_trace h ++ [x]) h).
Proof.
  intros Hx Hok dk e t Hs. simpl. rewrite since_snoc, Hx. destruct (since (writes dk) (h_trace h)) as [[e' t']|] eqn:E; [|done].
  intros [= <- <-]. by eapply Hok.
Qed.

(** The disk after it was given a card or lost one. *)
Lemma disk_written (h : Hub) (dk : DocKey) (x : Happened) (f : gmap DocKey string → gmap DocKey string) :
  writes dk x = true → (∀ dk', dk' ≠ dk → writes dk' x = false) →
  (∀ m, f m !! disk_key dk = leaves x) → (∀ m k, k ≠ disk_key dk → f m !! k = m !! k) →
  disk_ok h → disk_ok (put_trace (h_trace h ++ [x]) (put_disk (f (h_disk h)) h)).
Proof.
  intros Hx Hother Hf Hrest Hok dk' e t Hs. simpl. rewrite since_snoc. destruct (decide (dk' = dk)) as [->|Hne].
  - rewrite Hx. intros [= <- <-]. apply Hf.
  - rewrite Hother by done. destruct (since (writes dk') (h_trace h)) as [[e' t']|] eqn:E; [|done].
    intros [= <- <-]. rewrite Hrest; [by eapply Hok|]. intros E'. apply Hne. symmetry. by apply disk_key_inj.
Qed.
End Disk.

(** * The relations *)

Definition cleared (s : Session) : Session := with_compaction None (with_compacted false s).

Definition same_session (o o' : option Session) : Prop :=
  match o, o' with
  | None, None => True
  | Some s, Some s' => s' = s ∨ s' = cleared s
  | _, _ => False
  end.

Record later (h h' : Hub) : Prop := {
  lt_clients : ∀ c cl, h_clients h !! c = Some cl → ∃ cl', h_clients h' !! c = Some cl' ∧ cl_id cl' = cl_id cl ∧ cl_actor cl' = cl_actor cl
    ∧ (cl_once cl = true → cl_once cl' = true);
  lt_blobs : ∀ b bl, h_blobs h !! b = Some bl → ∃ bl', h_blobs h' !! b = Some bl' ∧ bl_payload bl' = bl_payload bl;
  lt_trace : ∃ l, h_trace h' = h_trace h ++ l;
}.

Record untouched (dk : DocKey) (h h' : Hub) : Prop := {
  un_doc : same_session (h_docs h !! dk) (h_docs h' !! dk);
  un_trace : ∃ l, h_trace h' = h_trace h ++ l ∧ uneventful dk l;
  un_recovering : h_recovering h' !! dk = h_recovering h !! dk;
}.

Record touches (D : option DocKey) (h h' : Hub) : Prop := {
  to_later : later h h';
  to_others : ∀ dk, D ≠ Some dk → untouched dk h h';
}.

(** Addresses given out are below the next one, who was short of room is a client,
    the disk is as the hub left it, and no session went before it was seen to. *)
Record base_ok `{GoRev} (h : Hub) : Prop := {
  bk_conns : ∀ c, c ∈ h_conns h → is_Some (h_clients h !! c);
  bk_clients : ∀ c, is_Some (h_clients h !! c) → (c < h_fresh h)%nat;
  bk_blobs : ∀ b, is_Some (h_blobs h !! b) → (b < h_fresh h)%nat;
  bk_spilled : ∀ c, Spilled c ∈ h_trace h → is_Some (h_clients h !! c);
  bk_disk : disk_ok h;
  bk_retired : retired_ok (h_trace h);
}.

Lemma same_refl o : same_session o o.
Proof. destruct o; simpl; auto. Qed.

Lemma cleared_twice s : cleared (cleared s) = cleared s.
Proof. done. Qed.

Lemma same_trans o1 o2 o3 : same_session o1 o2 → same_session o2 o3 → same_session o1 o3.
Proof. destruct o1, o2, o3; simpl; try done. intros [-> | ->] [-> | ->]; rewrite ?cleared_twice; auto. Qed.

Lemma same_cleared (o : option Session) : same_session o (cleared <$> o).
Proof. destruct o; simpl; auto. Qed.

#[export] Instance later_pre : PreOrder later.
Proof.
  split.
  - intros h. split; eauto. exists []. by rewrite app_nil_r.
  - intros a b c [C1 B1 [l1 T1]] [C2 B2 [l2 T2]]. split.
    + intros n cl Hn. destruct (C1 _ _ Hn) as (cl1 & Hn1 & E1 & A1 & O1). destruct (C2 _ _ Hn1) as (cl2 & Hn2 & E2 & A2 & O2).
      exists cl2. split_and!; [congruence..|auto].
    + intros n bl Hn. destruct (B1 _ _ Hn) as (bl1 & Hn1 & E1). destruct (B2 _ _ Hn1) as (bl2 & Hn2 & E2).
      exists bl2. split; congruence.
    + exists (l1 ++ l2). rewrite T2, T1. by rewrite app_assoc.
Qed.

#[export] Instance untouched_pre dk : PreOrder (untouched dk).
Proof.
  split.
  - intros h. split; [apply same_refl| |done]. exists []. by rewrite app_nil_r.
  - intros a b c [S1 (l1 & T1 & N1) R1] [S2 (l2 & T2 & N2) R2]. split.
    + by eapply same_trans.
    + exists (l1 ++ l2). rewrite T2, T1, app_assoc. split; [done|]. by apply (Forall_app _ l1 l2).
    + congruence.
Qed.

#[export] Instance touches_pre D : PreOrder (touches D).
Proof.
  split.
  - intros h. split; [reflexivity|]. intros. reflexivity.
  - intros a b c [L1 U1] [L2 U2]. split; [by etrans|]. intros dk HD. etrans; eauto.
Qed.

Lemma touches_more D h h' : touches None h h' → touches D h h'.
Proof. intros [L U]. split; [done|]. intros dk _. by apply U. Qed.

(** * Sections *)

Definition within `{GoRev} {A} (D : option DocKey) (m : St A) : Prop := ∀ h, base_ok h → base_ok (m h).1 ∧ touches D h (m h).1.

Lemma within_ret `{GoRev} {A} D (a : A) : within D (mret a).
Proof. intros h Hb. split; [done|]. simpl. reflexivity. Qed.

Lemma within_get `{GoRev} {A} D (f : Hub → A) : within D (get f).
Proof. intros h Hb. split; [done|]. simpl. reflexivity. Qed.

Lemma within_bind `{GoRev} {A B} D (m : St A) (k : A → St B) : within D m → (∀ a, within D (k a)) → within D (m ≫= k).
Proof.
  intros Hm Hk h Hb. unfold mbind, St_bind. destruct (Hm h Hb) as [Hb1 T1]. destruct (m h) as [h1 a]. simpl in *.
  destruct (Hk a h1 Hb1) as [Hb2 T2]. split; [done|by etrans].
Qed.

Lemma within_each `{GoRev} {A} D (f : A → St unit) xs : (∀ x, within D (f x)) → within D (each_ f xs).
Proof. intros Hf. induction xs as [|x xs IH]; simpl; [apply within_ret|]. apply within_bind; [apply Hf|by intros []]. Qed.

Lemma within_more `{GoRev} {A} D (m : St A) : within None m → within D m.
Proof. intros Hm h Hb. destruct (Hm h Hb) as [? ?]. split; [done|by apply touches_more]. Qed.

(** Fields no document depends on. *)
Lemma within_modify `{GoRev} D (f : Hub → Hub) :
  (∀ h, h_clients (f h) = h_clients h ∧ h_conns (f h) ⊆ h_conns h ∧ h_docs (f h) = h_docs h ∧ h_blobs (f h) = h_blobs h
        ∧ h_fresh (f h) = h_fresh h ∧ h_recovering (f h) = h_recovering h ∧ h_trace (f h) = h_trace h ∧ h_disk (f h) = h_disk h) →
  within D (modify f).
Proof.
  intros Hf h [B1 B2 B3 BS B4 B5]. destruct (Hf h) as (E1 & E2 & E3 & E4 & E5 & E6 & E7 & E8). simpl. split.
  - split; [|rewrite E1, E5; done|rewrite E4, E5; done|rewrite E1, E7; done|unfold disk_ok; rewrite E7, E8; done|by rewrite E7]. intros c Hc. rewrite E1. apply B1. set_solver.
  - split.
    + split; [rewrite E1; eauto|rewrite E4; eauto|]. exists []. by rewrite E7, app_nil_r.
    + intros dk _. split; [rewrite E3; apply same_refl| |by rewrite E6]. exists []. by rewrite E7, app_nil_r.
Qed.

Lemma spilled_snoc (P : nat → Prop) tr x : ¬ booked x → (∀ c, Spilled c ∈ tr → P c) → ∀ c, Spilled c ∈ tr ++ [x] → P c.
Proof. intros Hx Ht c [Hc|Hc%list_elem_of_singleton]%elem_of_app; [by apply Ht|by subst x; destruct Hx]. Qed.

Lemma within_note `{GoRev} (D : option DocKey) x :
  (∀ dk, about dk x → D = Some dk) → (∀ dk, writes dk x = false) → ¬ booked x → within D (note x).
Proof.
  intros Hx Hw Hr h [B1 B2 B3 BS B4 B5]. split; [split; simpl; try done; [by apply spilled_snoc|by apply disk_note|by apply retired_snoc]|]. simpl. split.
  - split; simpl; eauto.
  - intros dk Hne. split; simpl; [apply same_refl| |done]. exists [x]. split; [done|]. constructor; [|constructor].
    intros Ha. by apply Hne, Hx.
Qed.

Definition keeps_name (f : Client → Client) : Prop :=
  ∀ cl, cl_id (f cl) = cl_id cl ∧ cl_actor (f cl) = cl_actor cl ∧ (cl_once cl = true → cl_once (f cl) = true).

Lemma within_set_client `{GoRev} D c f : keeps_name f → within D (set_client c f).
Proof.
  intros Hf h [B1 B2 B3 BS B4 B5]. simpl. split.
  - split; simpl; [|intros n; rewrite lookup_alter_is_Some; apply B2|done| |done..]; intros n Hn; rewrite lookup_alter_is_Some; [by apply B1|by apply BS].
  - split.
    + split; simpl; eauto; [|by exists []; rewrite app_nil_r]. intros n cl Hn. rewrite lookup_alter. case_decide; [subst|by exists cl].
      rewrite Hn. simpl. eexists. split; [done|]. apply Hf.
    + intros dk _. split; simpl; [apply same_refl| |done]. by exists []; rewrite app_nil_r.
Qed.

(** A change of sessions, by its effect on the table. *)
Lemma within_docs `{GoRev} (D : option DocKey) (f : gmap DocKey Session → gmap DocKey Session) :
  (∀ docs dk, D ≠ Some dk → same_session (docs !! dk) (f docs !! dk)) →
  within D (modify (λ h, put_docs (f (h_docs h)) h)).
Proof.
  intros Hf h [B1 B2 B3 BS B4 B5]. split; [done|]. simpl. split.
  - split; simpl; eauto. by exists []; rewrite app_nil_r.
  - intros dk Hne. split; simpl; [by apply Hf| |done]. by exists []; rewrite app_nil_r.
Qed.

Lemma within_set_session `{GoRev} dk f : within (Some dk) (set_session dk f).
Proof. apply within_docs. intros docs dk' Hne. rewrite lookup_alter_ne by congruence. apply same_refl. Qed.

Lemma within_insert_session `{GoRev} dk s : within (Some dk) (modify (λ h, put_docs (<[dk := s]> (h_docs h)) h)).
Proof. apply (within_docs _ (λ docs, <[dk := s]> docs)). intros docs dk' Hne. rewrite lookup_insert_ne by congruence. apply same_refl. Qed.

Lemma within_delete_session `{GoRev} dk : within (Some dk) (modify (λ h, put_docs (delete dk (h_docs h)) h)).
Proof. apply (within_docs _ (λ docs, delete dk docs)). intros docs dk' Hne. rewrite lookup_delete_ne by congruence. apply same_refl. Qed.

Lemma within_clear_session `{GoRev} D dk : within D (set_session dk (λ s, with_compaction None (with_compacted false s))).
Proof.
  apply within_docs. intros docs dk' _. rewrite lookup_alter. case_decide; [subst|apply same_refl]. apply same_cleared.
Qed.

(** Reference counts come and go; payloads stay. *)
Lemma within_refs `{GoRev} D b refs : within D (modify (λ h, put_blobs (match h_blobs h !! b with Some bl => <[b := mkBlob (bl_payload bl) (refs bl)]> (h_blobs h) | None => h_blobs h end) h)).
Proof.
  intros h [B1 B2 B3 BS B4 B5]. simpl. split.
  - split; simpl; [done|done| |done..]. destruct (h_blobs h !! b) as [bl|] eqn:E; [|done]. intros n. rewrite lookup_insert_is_Some'.
    intros [<-|?]; apply B3; [by rewrite E|done].
  - split.
    + split; simpl; eauto; [|by exists []; rewrite app_nil_r]. intros n bl0 Hn. destruct (h_blobs h !! b) as [bl|] eqn:E; [|eauto].
      rewrite lookup_insert. case_decide; [subst|eauto]. exists (mkBlob (bl_payload bl) (refs bl)). split; [done|]. simpl. congruence.
    + intros dk _. split; simpl; [apply same_refl| |done]. by exists []; rewrite app_nil_r.
Qed.

Lemma within_recovering `{GoRev} (D : option DocKey) dk f : D = Some dk →
  (∀ m, ∀ dk', dk' ≠ dk → f m !! dk' = m !! dk') → within D (modify (λ h, put_recovering (f (h_recovering h)) h)).
Proof.
  intros -> Hf h [B1 B2 B3 BS B4 B5]. split; [done|]. simpl. split; [split; simpl; eauto; by exists []; rewrite app_nil_r|].
  intros dk' Hne. split; simpl; [apply same_refl| |apply Hf; congruence]. by exists []; rewrite app_nil_r.
Qed.

Lemma within_fresh `{GoRev} D : within D fresh_address.
Proof.
  intros h [B1 B2 B3 BS B4 B5]. simpl. split.
  - split; simpl; [done| | |done..]; intros n Hn; [specialize (B2 n Hn)|specialize (B3 n Hn)]; lia.
  - split; [split; simpl; eauto; by exists []; rewrite app_nil_r|]. intros dk _. split; simpl; [apply same_refl| |done].
    by exists []; rewrite app_nil_r.
Qed.

Lemma within_new_blob `{GoRev} D payload refs : within D (new_blob payload refs).
Proof.
  intros h [B1 B2 B3 BS B4 B5]. simpl. split.
  - split; simpl; [done| | |done..].
    + intros n Hn. specialize (B2 n Hn). lia.
    + intros n. rewrite lookup_insert_is_Some'. intros [<-|Hn]; [lia|]. specialize (B3 n Hn). lia.
  - split; [split; simpl; eauto; [|by exists []; rewrite app_nil_r]|].
    + intros n bl Hn. assert (n < h_fresh h)%nat by (apply B3; by rewrite Hn). rewrite lookup_insert_ne by lia. eauto.
    + intros dk _. split; simpl; [apply same_refl| |done]. by exists []; rewrite app_nil_r.
Qed.

Create HintDb within discriminated.
#[export] Hint Resolve within_set_session within_insert_session within_delete_session within_clear_session within_fresh within_new_blob : within.

Ltac keeps_names := intros ?; repeat case_match; done.
Ltac inside_step :=
  match goal with
  | |- within _ _ => solve [eauto 2 with within]
  | |- within _ (mret _) => apply within_ret
  | |- within _ skip => apply within_ret
  | |- within _ (get _) => apply within_get
  | |- within _ (_ ≫= _) => apply within_bind; [|intros ?]
  | |- within _ (each_ _ _) => apply within_each; intros ?
  | |- within _ (when _ _) => unfold when
  | |- within _ (note _) => apply within_note; [intros ?; simpl; first [done | by intros [] | by intros <-]|intros ?; reflexivity|by intros []]
  | |- within _ (set_client _ _) => apply within_set_client; keeps_names
  | |- within _ (modify (put_closed _)) => apply within_modify; intros ?; done
  | |- within _ (if ?b then _ else _) => destruct b
  | |- within _ (match ?x with _ => _ end) => destruct x
  | |- within _ (let _ := _ in _) => cbv zeta
  end.
Ltac inside := repeat inside_step.

(** * Every section *)

Lemma within_session_at `{GoRev} D dk : within D (session_at dk).
Proof. apply within_get. Qed.
Lemma within_client `{GoRev} D c : within D (client c).
Proof. apply within_get. Qed.
#[export] Hint Resolve within_session_at within_client : within.

Lemma within_trace `{GoRev} D (x : Hub → Happened) :
  (∀ h dk, ¬ about dk (x h)) → (∀ h, ¬ booked (x h)) → within D (modify (λ h, put_trace (h_trace h ++ [x h]) h)).
Proof.
  intros Hx Hr h Hb. apply (within_note D (x h)); [|intros dk; by apply not_about|apply Hr|done].
  intros dk Ha. by destruct (Hx h dk).
Qed.

Lemma sent_about h c f dk : ¬ about dk (sent_as h c f).
Proof. destruct f; simpl; tauto. Qed.

Lemma within_sent `{GoRev} D c f : within D (modify (λ h, put_trace (h_trace h ++ [sent_as h c f]) h)).
Proof. apply (within_trace D (λ h, sent_as h c f)); [intros h dk; apply sent_about|]. intros h. destruct f as [e|j]; simpl; tauto. Qed.
#[export] Hint Resolve within_sent : within.

Lemma within_read `{GoRev} {A B} D (f : Hub → A) (k : A → St B) :
  (∀ h, base_ok h → base_ok (k (f h) h).1 ∧ touches D h (k (f h) h).1) → within D (get f ≫= k).
Proof. intros Hk h Hb. by apply Hk. Qed.

Lemma within_spill `{GoRev} D c : within D (spill c).
Proof.
  apply within_read. intros h Hb. destruct (h_clients h !! c) as [cl|] eqn:Hc; [|split; [done|simpl; reflexivity]].
  pose proof Hb as [B1 B2 B3 BS B4 B5]. split.
  - split; simpl; try done; [|by apply disk_note|].
    + intros c' [Hc'|Hc'%list_elem_of_singleton]%elem_of_app; [by apply BS|]. injection Hc' as ->. by exists cl.
    + intros t1 dk uid card t2 E. destruct t2 as [|y t2 _] using rev_ind; [by apply app_inj_tail in E as [_ ?]|].
      rewrite app_comm_cons, app_assoc in E. apply app_inj_tail in E as [E _]. by eapply B5.
  - split; simpl; [split; simpl; eauto|]. intros dk _. split; simpl; [apply same_refl| |done]. exists [Spilled c]. split; [done|].
    constructor; [by intros []|constructor].
Qed.
#[export] Hint Resolve within_spill : within.

Lemma within_enqueue `{GoRev} D w c f : within D (enqueue w c f).
Proof. unfold enqueue. inside. Qed.
#[export] Hint Resolve within_enqueue : within.
Lemma within_queueEvent `{GoRev} D w c e : within D (queueEvent w c e).
Proof. apply within_enqueue. Qed.
#[export] Hint Resolve within_queueEvent : within.
Lemma within_queue_all `{GoRev} D w cs e : within D (queue_all w cs e).
Proof. induction cs; simpl; inside. Qed.
Lemma within_offerLocked `{GoRev} D c f : within D (offerLocked c f).
Proof. unfold offerLocked. inside. Qed.
#[export] Hint Resolve within_queue_all within_offerLocked : within.
Lemma within_offer `{GoRev} D c e : within D (offer c e).
Proof. unfold offer. inside. Qed.
Lemma within_offerDrag `{GoRev} D c from active e : within D (offerDrag c from active e).
Proof. unfold offerDrag. inside. Qed.
Lemma within_offerTable `{GoRev} D c p e : within D (offerTable c p e).
Proof. unfold offerTable. inside; apply within_set_client; intros cl; destruct p; repeat case_match; done. Qed.
#[export] Hint Resolve within_offer within_offerDrag within_offerTable : within.

Lemma within_add_snapshotBytes `{GoRev} D z : within D (add_snapshotBytes z).
Proof. apply within_modify. intros h. done. Qed.
Lemma within_clamp `{GoRev} D : within D clampSnapshotBytesLocked.
Proof. apply within_modify. intros h. by case_match. Qed.
#[export] Hint Resolve within_add_snapshotBytes within_clamp : within.

Lemma within_retain `{GoRev} D b : within D (retainSnapshotBlobLocked b).
Proof.
  apply within_read. intros h Hb. destruct (h_blobs h !! b) as [bl|] eqn:E; [|split; [done|simpl; reflexivity]].
  assert (W : within D (_ ← when (bl_refs bl =? 0)%nat (add_snapshotBytes (len (bl_payload bl)));
    modify (λ h, put_blobs (match h_blobs h !! b with Some bl => <[b := mkBlob (bl_payload bl) (bl_refs bl + 1)]> (h_blobs h) | None => h_blobs h end) h))).
  { inside; apply (within_refs D b (λ bl, bl_refs bl + 1)%nat). }
  specialize (W h Hb). revert W. destruct (bl_refs bl =? 0)%nat; simpl; by rewrite E.
Qed.

Lemma within_release `{GoRev} D b : within D (releaseSnapshotBlobLocked b).
Proof.
  apply within_read. intros h Hb. destruct (h_blobs h !! b) as [bl|] eqn:E; [|split; [done|simpl; reflexivity]].
  destruct (bl_refs bl =? 0)%nat; [split; [done|simpl; reflexivity]|].
  assert (W : within D (_ ← modify (λ h, put_blobs (match h_blobs h !! b with Some bl => <[b := mkBlob (bl_payload bl) (bl_refs bl - 1)]> (h_blobs h) | None => h_blobs h end) h);
    when (bl_refs bl =? 1)%nat (_ ← add_snapshotBytes (- len (bl_payload bl)); clampSnapshotBytesLocked))).
  { apply within_bind; [apply (within_refs D b (λ bl, bl_refs bl - 1)%nat)|intros ?; inside]. }
  specialize (W h Hb). revert W. destruct (bl_refs bl =? 1)%nat; simpl; by rewrite E.
Qed.
#[export] Hint Resolve within_retain within_release : within.

Lemma within_release_job `{GoRev} D j : within D (releaseSnapshotJobLocked j).
Proof. unfold releaseSnapshotJobLocked. inside. Qed.
#[export] Hint Resolve within_release_job : within.
Lemma within_queue_snapshot `{GoRev} D w c j : within D (queueSnapshotLocked w c j).
Proof. unfold queueSnapshotLocked. inside. Qed.
#[export] Hint Resolve within_queue_snapshot : within.
Lemma within_queue_snapshots `{GoRev} D w cs j word : within D (queue_snapshots w cs j word).
Proof. induction cs; simpl; inside. Qed.
#[export] Hint Resolve within_queue_snapshots : within.

Lemma within_token `{GoRev} D : within D nextDocTokenLocked.
Proof. apply within_bind; [apply within_modify; intros h; done|intros ?; inside]. Qed.
Lemma within_emptied `{GoRev} D : within D nextEmptied.
Proof. apply within_bind; [apply within_modify; intros h; done|intros ?; inside]. Qed.
#[export] Hint Resolve within_token within_emptied : within.

Lemma within_clearCompaction `{GoRev} D dk : within D (clearCompactionLocked dk).
Proof. unfold clearCompactionLocked, forget_upload. inside. Qed.
#[export] Hint Resolve within_clearCompaction : within.
Lemma within_expire `{GoRev} D dk now : within D (expireCompactionLocked dk now).
Proof. unfold expireCompactionLocked. inside. Qed.
Lemma within_begin `{GoRev} dk c now : within (Some dk) (beginCompactionLocked dk c now).
Proof. unfold beginCompactionLocked. inside. Qed.
Lemma within_elect `{GoRev} dk : within (Some dk) (elect_leader dk).
Proof.
  intros h Hb. apply (within_set_session dk (λ s, with_leader (elect h (ss_members s)) s) h Hb).
Qed.
#[export] Hint Resolve within_expire within_begin within_elect : within.


(** A file is written, and it is told. *)
Lemma within_written `{GoRev} (dk : DocKey) (x : Happened) (f : gmap DocKey string → gmap DocKey string) :
  about dk x → writes dk x = true → ¬ booked x → (∀ m, f m !! disk_key dk = leaves x) → (∀ m k, k ≠ disk_key dk → f m !! k = m !! k) →
  within (Some dk) (_ ← modify (λ h, put_disk (f (h_disk h)) h); note x).
Proof.
  intros Ha Hw Hbk Hf Hrest h [B1 B2 B3 BS B4 B5]. assert (Hother : ∀ dk', dk' ≠ dk → writes dk' x = false).
  { intros dk' Hne. apply not_about. intros Ha'. destruct x; simpl in *; congruence. }
  split.
  - split; simpl; try done; [by apply spilled_snoc| |by apply retired_snoc]. by apply (disk_written h dk x f).
  - split; simpl.
    + split; simpl; eauto.
    + intros dk' Hne. split; simpl; [apply same_refl| |done]. exists [x]. split; [done|]. constructor; [|constructor].
      intros Ha'. apply Hne. destruct x; simpl in *; congruence.
Qed.

Lemma within_then `{GoRev} {A B} D (m : St A) (k : A → St unit) (b : B) : within D (m ≫= k) → within D (a ← m; _ ← k a; mret b).
Proof.
  intros Hm h Hb. specialize (Hm h Hb). unfold mbind, St_bind in *. destruct (m h) as [h1 a]. by destruct (k a h1).
Qed.

Lemma within_persist `{GoRev} w dk card : within (Some dk) (persistDoc w dk card).
Proof.
  assert (Hnote : writes dk (Saved dk card) = true ∧ writes dk (Erased dk card) = true) by (split; by apply bool_decide_eq_true).
  unfold persistDoc. destruct (negb _); [inside|]. destruct (_ || _); [|destruct (_ <? _); [inside|]]; (destruct (w_writes w); [|inside]);
    apply within_then.
  - apply (within_written dk _ (delete (disk_key dk))); [done|apply Hnote|tauto|..].
    + intros m. by rewrite lookup_delete_eq.
    + intros m k Hne. by rewrite lookup_delete_ne.
  - apply (within_written dk _ (λ m, <[disk_key dk := encodeDocSidecar card]> m)); [done|apply Hnote|tauto|..].
    + intros m. by rewrite lookup_insert_eq.
    + intros m k Hne. by rewrite lookup_insert_ne.
Qed.

Lemma within_drop_sidecar `{GoRev} w dk : within (Some dk) (dropDocSidecar w dk).
Proof.
  unfold dropDocSidecar. destruct (w_writes w); [|inside]. apply (within_written dk _ (delete (disk_key dk))); [done|by apply bool_decide_eq_true|tauto|..].
  - intros m. by rewrite lookup_delete_eq.
  - intros m k Hne. by rewrite lookup_delete_ne.
Qed.
#[export] Hint Resolve within_persist within_drop_sidecar : within.
Lemma within_look `{GoRev} w dk : within (Some dk) (look_sidecar w dk).
Proof. unfold look_sidecar. inside. Qed.
Lemma within_reserve `{GoRev} dk z : within (Some dk) (reserve_recovery dk z).
Proof.
  unfold reserve_recovery. inside. intros h Hb.
  apply (within_recovering (Some dk) dk (λ m, <[dk := default 0 (h_recovering h !! dk) + z]> m) eq_refl); [|done].
  intros m dk' Hne. by rewrite lookup_insert_ne by congruence.
Qed.
Lemma within_unreserve `{GoRev} dk : within (Some dk) (modify (λ h, put_recovering (delete dk (h_recovering h)) h)).
Proof. apply (within_recovering _ dk (λ m, delete dk m)); [done|]. intros m dk' Hne. by rewrite lookup_delete_ne by congruence. Qed.
#[export] Hint Resolve within_reserve within_unreserve : within.
Lemma within_release_recovery `{GoRev} dk z : within (Some dk) (release_recovery dk z).
Proof. unfold release_recovery. inside. Qed.
Lemma within_status `{GoRev} dk uid ok : within (Some dk) (persistenceStatus dk uid ok).
Proof. unfold persistenceStatus. inside. Qed.
Lemma within_with_session `{GoRev} D dk uid f : (∀ s, within D (f s)) → within D (with_session dk uid f).
Proof. intros Hf. unfold with_session. inside. Qed.
Lemma within_reset `{GoRev} dk uid now : within (Some dk) (resetEmptyDoc dk uid now).
Proof. apply within_with_session. intros s. inside. Qed.
Lemma get_bind {A B} (f : Hub → A) (k : A → St B) h : (get f ≫= k) h = k (f h) h.
Proof. done. Qed.

Lemma modify_bind {B} (f : Hub → Hub) (k : unit → St B) h : (modify f ≫= k) h = k tt (f h).
Proof. done. Qed.

Lemma session_bind {B} dk (k : option Session → St B) h : (session_at dk ≫= k) h = k (h_docs h !! dk) h.
Proof. done. Qed.

Lemma bind_run {A B} (m : St A) (k : A → St B) h h' a : m h = (h', a) → (m ≫= k) h = k a h'.
Proof. intros E. unfold mbind, St_bind. by rewrite E. Qed.

(** Forgetting an upload, and a snapshot, is not told. *)
Lemma clear_trace dk h : h_trace (clearCompactionLocked dk h).1 = h_trace h.
Proof.
  unfold clearCompactionLocked, mbind, St_bind, session_at, get. destruct (h_docs h !! dk) as [s|]; [|done].
  destruct (ss_compaction s) as [cp|]; [|done]. destruct (cp_assembly cp); simpl; [|done]. by case_match.
Qed.

Lemma release_trace b h : h_trace (releaseSnapshotBlobLocked b h).1 = h_trace h.
Proof.
  unfold releaseSnapshotBlobLocked, mbind, St_bind, get. destruct (h_blobs h !! b) as [bl|]; [|done].
  destruct (_ =? 0)%nat; [done|]. unfold when. destruct (_ =? 1)%nat; simpl; [|done]. by case_match.
Qed.

(** An empty session goes when the last thing filed was its log. *)
Lemma within_delete `{GoRev} dk uid h : base_ok h →
  (∀ s, h_docs h !! dk = Some s → ss_members s = ∅ →
     ∃ e t, since (files dk) (h_trace h) = Some (e, t) ∧ kept_safe dk (sidecarLocked s) e) →
  base_ok (deleteEmptyDoc dk uid h).1 ∧ touches (Some dk) h (deleteEmptyDoc dk uid h).1.
Proof.
  intros Hb Hfiled. unfold deleteEmptyDoc, with_session. rewrite session_bind.
  destruct (h_docs h !! dk) as [s|] eqn:Hs; [|split; [done|simpl; reflexivity]].
  destruct (ss_uid s =? uid)%nat; [|split; [done|simpl; reflexivity]].
  case_bool_decide as Hm; [|split; [done|simpl; reflexivity]]. destruct (Hfiled s eq_refl Hm) as (e & t & Hsi & He).
  set (m := _ ← clearCompactionLocked dk;
            _ ← match ss_snapshot s with Some b => releaseSnapshotBlobLocked b | None => skip end;
            modify (λ h, put_docs (delete dk (h_docs h)) h)).
  assert (Hw : within (Some dk) m) by (unfold m; inside).
  assert (Ht : h_trace (m h).1 = h_trace h).
  { unfold m, mbind, St_bind. pose proof (clear_trace dk h) as Hc. destruct (clearCompactionLocked dk h) as [h1 []]. simpl in *.
    destruct (ss_snapshot s) as [b|]; simpl; [|done]. pose proof (release_trace b h1) as Hr.
    destruct (releaseSnapshotBlobLocked b h1) as [h2 []]. simpl in *. congruence. }
  set (x := Retired dk uid (sidecarLocked s)).
  assert (E : (_ ← clearCompactionLocked dk;
     _ ← match ss_snapshot s with Some b => releaseSnapshotBlobLocked b | None => skip end;
     _ ← modify (λ h, put_docs (delete dk (h_docs h)) h); note x) h = note x (m h).1).
  { unfold m, mbind, St_bind. destruct (clearCompactionLocked dk h) as [h1 []].
    destruct (ss_snapshot s) as [b|]; simpl; [|done]. by destruct (releaseSnapshotBlobLocked b h1). }
  rewrite E. destruct (Hw h Hb) as [[B1 B2 B3 BS B4 B5] T]. split.
  - split; simpl; try done; [intros c [Hc|Hc%list_elem_of_singleton]%elem_of_app; [by apply BS|done]|by apply disk_note|]. rewrite Ht. by apply (retired_now _ _ _ _ e t (bk_retired _ Hb)).
  - etrans; [exact T|]. split; simpl; [split; simpl; eauto|]. intros dk' Hne. split; simpl; [apply same_refl| |done].
    exists [x]. split; [done|]. constructor; [|constructor]. simpl. congruence.
Qed.

Lemma within_create `{GoRev} dk rc : within (Some dk) (create_session dk rc).
Proof. unfold create_session. inside. Qed.
Lemma within_queue_notices `{GoRev} D w key ns : within D (queue_notices w key ns).
Proof. unfold queue_notices. induction ns as [|[c b] ns IH]; inside. Qed.
Lemma within_queue_updates `{GoRev} D w c key us : within D (queue_updates w c key us).
Proof. induction us; simpl; inside. Qed.
#[export] Hint Resolve within_release_recovery within_create within_queue_notices within_queue_updates : within.
Lemma within_join_session `{GoRev} w c dk : within (Some dk) (join_session w c dk).
Proof. unfold join_session. inside. Qed.
#[export] Hint Resolve within_join_session : within.
Lemma within_join `{GoRev} w c dk actor rc : within (Some dk) (join w c dk actor rc).
Proof. unfold join, find_session, take_seat. inside. Qed.
Lemma within_dropLocked `{GoRev} c dk now : within (Some dk) (dropLocked c dk now).
Proof. unfold dropLocked. inside. Qed.
#[export] Hint Resolve within_dropLocked : within.
Lemma within_leave `{GoRev} c dk now now' : within (Some dk) (leave_session c dk now now').
Proof. unfold leave_session. inside. Qed.

Lemma within_compaction_token `{GoRev} w dk c s : within (Some dk) (compaction_token w dk c s).
Proof. unfold compaction_token. inside. Qed.
Lemma within_queue_token `{GoRev} D w c key token : within D (queue_token w c key token).
Proof. unfold queue_token. inside. Qed.
#[export] Hint Resolve within_compaction_token within_queue_token : within.
Lemma within_take `{GoRev} w c dk payload : within (Some dk) (take_update w c dk payload).
Proof. unfold take_update. inside. Qed.
Lemma within_freeze `{GoRev} w c dk uid payload targets token : within (Some dk) (freeze_after w c dk uid payload targets token).
Proof. unfold freeze_after. inside. Qed.
Lemma within_accept_flush `{GoRev} c dk uid g actual : within (Some dk) (accept_flush c dk uid g actual).
Proof. unfold accept_flush. inside. Qed.
Lemma within_reject `{GoRev} D w c key token : within D (reject w c key token).
Proof. unfold reject. inside. Qed.
#[export] Hint Resolve within_reject : within.
Lemma within_refuse `{GoRev} D w c dk token : within D (refuse_upload w c dk token).
Proof. unfold refuse_upload. inside. Qed.
#[export] Hint Resolve within_refuse : within.
Lemma within_swap `{GoRev} w c dk token : within (Some dk) (swap_base w c dk token).
Proof. unfold swap_base, forget_upload. inside. Qed.
Lemma within_tell `{GoRev} w c dk token uid blob targets saved : within (Some dk) (tell_base w c dk token uid blob targets saved).
Proof. unfold tell_base. inside. Qed.

Lemma within_request `{GoRev} w c dk : within (Some dk) (request_section w c dk).
Proof. unfold request_section. inside. Qed.
Lemma within_start `{GoRev} w c dk token size chunks : within (Some dk) (start_section w c dk token size chunks).
Proof. unfold start_section. inside. Qed.
Lemma within_timeout `{GoRev} D w c dk token : within D (timeout_section w c dk token).
Proof. unfold timeout_section. inside. Qed.
Lemma within_chunk `{GoRev} w c dk token seq payload : within (Some dk) (chunk_section w c dk token seq payload).
Proof. unfold chunk_section. inside. Qed.
Lemma within_abort `{GoRev} D w c dk token : within D (abort_section w c dk token).
Proof. unfold abort_section. inside. Qed.

Lemma within_reserveConnection `{GoRev} D actor ip : within D (reserveConnection actor ip).
Proof. unfold reserveConnection. inside; apply within_modify; done. Qed.
Lemma within_releaseReservation `{GoRev} D key ip : within D (releaseReservationLocked key ip).
Proof. apply within_modify. done. Qed.
#[export] Hint Resolve within_releaseReservation : within.
Lemma within_install `{GoRev} D cl : within D (install cl).
Proof.
  unfold install. apply within_bind; [apply within_get|intros []]; [inside|]. apply within_read. intros h [B1 B2 B3 BS B4 B5]. simpl. assert (Hn : h_clients h !! h_fresh h = None).
  { destruct (h_clients h !! h_fresh h) eqn:E; [|done]. assert (h_fresh h < h_fresh h)%nat by (apply B2; by rewrite E). lia. }
  split.
  - split; simpl.
    + intros c. rewrite lookup_insert_is_Some'. intros Hc. apply elem_of_union in Hc as [Hc|Hc]; [left; set_solver|right; auto].
    + intros c. rewrite lookup_insert_is_Some'. intros [<-|Hc]; [lia|]. specialize (B2 c Hc). lia.
    + intros b Hb. specialize (B3 b Hb). lia.
    + intros c Hc. rewrite lookup_insert_is_Some'. right. by apply BS.
    + done.
    + done.
  - split.
    + split; simpl; eauto; [|by exists []; rewrite app_nil_r]. intros c cl0 Hc. exists cl0. split; [|done].
      rewrite lookup_insert_ne; [done|]. intros <-. congruence.
    + intros dk _. split; simpl; [apply same_refl| |done]. by exists []; rewrite app_nil_r.
Qed.
Lemma within_try_lock `{GoRev} D w c actor room node steal : within D (try_lock w c actor room node steal).
Proof. unfold try_lock. inside; apply within_modify; done. Qed.
Lemma within_release_written `{GoRev} D c n : within D (release_written c n).
Proof. unfold release_written. inside. Qed.
Lemma within_drain `{GoRev} D c : within D (drain c).
Proof. unfold drain. inside. Qed.
Lemma within_strike `{GoRev} D c : within D (strike c).
Proof. unfold strike. inside; apply within_modify; intros h; split_and!; try done; simpl; set_solver. Qed.
Lemma within_owed `{GoRev} D c xs : within D (owed_ends c xs).
Proof. induction xs; simpl; inside. Qed.
Lemma within_pop `{GoRev} D c : within D (pop c).
Proof. unfold pop. inside. Qed.
#[export] Hint Resolve within_persist within_drop_sidecar within_look within_reserve within_release_recovery within_status within_reset
  within_queue_notices within_queue_updates within_join within_leave within_compaction_token
  within_queue_token within_take within_freeze within_accept_flush within_reject within_refuse within_swap within_tell within_request within_start within_timeout within_chunk within_abort
  within_reserveConnection within_releaseReservation within_install within_try_lock within_release_written within_drain
  within_strike within_owed within_pop : within.
