(* ===== verification/LiveSlow.v ===== *)
(** Who has no room for a frame is removed.  What a goroutine still has to do is
    read off its program: [will_remove] says that it removes a client before it
    ends.  A program is [tidy] when, whatever its sections leave without a frame,
    it goes on to remove; every program of the hub is, so that in every state the
    hub can reach whoever missed a frame is struck from the connections, or is
    about to be ([missed_are_removed]). *)

From S2P Require Import Prelude GoStr Roles Sidecar SidecarFacts Live LiveDocs LiveOps LiveHub LivePool LiveFacts.
Open Scope Z_scope.

(** The client's removal has begun. *)
Definition struck (h : Hub) (c : nat) : bool := match h_clients h !! c with Some cl => cl_once cl | None => false end.

(** Before it ends, whatever the world answers and whatever others do, the
    program strikes the client, or calls for its removal. *)
Fixpoint will_remove (c : nat) (p : prog) : Prop :=
  match p with
  | Done => False
  | Sec f => ∀ w h, is_Some (h_clients h !! c) → match f w h with (h', q) => struck h' c = true ∨ will_remove c q end
  | Acquire _ q | Release _ q | Await _ q => will_remove c q
  | Call t q => t = TRemove c ∨ will_remove c q
  end.

(** Who is short of room in a section is removed by what follows. *)
Fixpoint tidy (p : prog) : Prop :=
  match p with
  | Done => True
  | Sec f => ∀ w h, match f w h with (h', q) =>
      tidy q ∧ ∀ c, Spilled c ∈ h_trace h' → Spilled c ∈ h_trace h ∨ will_remove c q end
  | Acquire _ q | Release _ q | Await _ q | Call _ q => tidy q
  end.

Lemma will_remove_l c q p : will_remove c p → will_remove c (andthen p q).
Proof.
  induction p as [|f IH|dk p IH|dk p IH|x p IH|t p IH] using prog_induction; simpl; try done; auto.
  - intros Hf w h Hc. specialize (Hf w h Hc). specialize (IH w h). destruct (f w h) as [h' p]. simpl in IH. destruct Hf; auto.
  - intros [?|?]; auto.
Qed.

Lemma will_remove_r c q p : will_remove c q → will_remove c (andthen p q).
Proof.
  intros Hq. induction p as [|f IH|dk p IH|dk p IH|x p IH|t p IH] using prog_induction; simpl; auto.
  intros w h _. specialize (IH w h). destruct (f w h) as [h' p]. by right.
Qed.

Lemma tidy_andthen q p : tidy p → tidy q → tidy (andthen p q).
Proof.
  intros Hp Hq. induction p as [|f IH|dk p IH|dk p IH|x p IH|t p IH] using prog_induction; simpl in *; auto.
  intros w h. specialize (Hp w h). specialize (IH w h). destruct (f w h) as [h' p]. simpl in IH. destruct Hp as [Ht Hs]. split; [by apply IH|].
  intros c Hc. destruct (Hs c Hc); [by left|right; by apply will_remove_l].
Qed.

(** * Sections *)

(** Whoever had no room so far is in [P]; after the section, in [Q]. *)
Definition owing {A} (P : nat → Prop) (m : St A) (Q : A → nat → Prop) : Prop :=
  ∀ h, (∀ c, Spilled c ∈ h_trace h → P c) → ∀ c, Spilled c ∈ h_trace (m h).1 → Q (m h).2 c.

(** Everybody has room. *)
Definition quiet {A} (m : St A) : Prop := ∀ P, owing P m (λ _, P).

(** Those without room are listed in the result. *)
Definition lists_slow (m : St (list nat)) : Prop := ∀ P, owing P m (λ slow c, P c ∨ c ∈ slow).

Lemma owing_ret {A} P (Q : A → nat → Prop) a : (∀ c, P c → Q a c) → owing P (mret a) Q.
Proof. intros HQ h HP c Hc. by apply HQ, HP. Qed.

Lemma owing_bind {A B} P R Q (m : St A) (k : A → St B) : owing P m R → (∀ a, owing (R a) (k a) Q) → owing P (m ≫= k) Q.
Proof.
  intros Hm Hk h HP. specialize (Hm h HP). unfold mbind, St_bind. destruct (m h) as [h1 a]. simpl in Hm. by apply Hk.
Qed.

Lemma owing_weaken {A} P (Q Q' : A → nat → Prop) (m : St A) : owing P m Q' → (∀ a c, Q' a c → Q a c) → owing P m Q.
Proof. intros Hm HQ h HP c Hc. by apply HQ, Hm. Qed.

Lemma quiet_ret {A} (a : A) : quiet (mret a).
Proof. intros P. by apply owing_ret. Qed.
Lemma quiet_get {A} (f : Hub → A) : quiet (get f).
Proof. intros P h HP. done. Qed.
Lemma quiet_modify (f : Hub → Hub) : (∀ h, h_trace (f h) = h_trace h) → quiet (modify f).
Proof. intros Hf P h HP c. simpl. rewrite Hf. apply HP. Qed.
Lemma quiet_trace (x : Hub → Happened) : (∀ h c, x h ≠ Spilled c) → quiet (modify (λ h, put_trace (h_trace h ++ [x h]) h)).
Proof. intros Hx P h HP c. simpl. intros [Hc|Hc%list_elem_of_singleton]%elem_of_app; [by apply HP|by destruct (Hx h c)]. Qed.
Lemma quiet_note x : (∀ c, x ≠ Spilled c) → quiet (note x).
Proof. intros Hx. by apply (quiet_trace (λ _, x)). Qed.
Lemma quiet_sent c f : quiet (modify (λ h, put_trace (h_trace h ++ [sent_as h c f]) h)).
Proof. apply (quiet_trace (λ h, sent_as h c f)). intros h c'. by destruct f. Qed.
Lemma quiet_bind {A B} (m : St A) (k : A → St B) : quiet m → (∀ a, quiet (k a)) → quiet (m ≫= k).
Proof. intros Hm Hk P. eapply owing_bind; [apply Hm|]. intros a. apply Hk. Qed.
Lemma quiet_each {A} (f : A → St unit) xs : (∀ x, quiet (f x)) → quiet (each_ f xs).
Proof. intros Hf. induction xs as [|x xs IH]; simpl; [apply quiet_ret|]. apply quiet_bind; [apply Hf|done]. Qed.

Create HintDb quiet discriminated.
#[export] Hint Resolve quiet_sent : quiet.
Ltac quiet_step :=
  match goal with
  | |- quiet _ => solve [eauto 2 with quiet]
  | |- quiet (mret _) => apply quiet_ret
  | |- quiet skip => apply quiet_ret
  | |- quiet (get _) => apply quiet_get
  | |- quiet (client _) => apply quiet_get
  | |- quiet (session_at _) => apply quiet_get
  | |- quiet (_ ≫= _) => apply quiet_bind; [|intros ?]
  | |- quiet (each_ _ _) => apply quiet_each; intros ?
  | |- quiet (when _ _) => unfold when
  | |- quiet (note _) => by apply quiet_note
  | |- quiet (set_client _ _) => by apply quiet_modify
  | |- quiet (set_session _ _) => by apply quiet_modify
  | |- quiet (modify _) => apply quiet_modify; intros ?; by repeat case_match
  | |- quiet (if ?b then _ else _) => destruct b
  | |- quiet (match ?x with _ => _ end) => destruct x
  | |- quiet (let _ := _ in _) => cbv zeta
  end.
Ltac hush := repeat quiet_step.

Section Sections.
Context `{GoRev}.

Lemma quiet_offerLocked c f : quiet (offerLocked c f).
Proof. unfold offerLocked. hush. Qed.
Hint Resolve quiet_offerLocked : quiet.
Lemma quiet_offer c e : quiet (offer c e).
Proof. unfold offer. hush. Qed.
Lemma quiet_offerDrag c from active e : quiet (offerDrag c from active e).
Proof. unfold offerDrag. hush. Qed.
Lemma quiet_offerTable c p e : quiet (offerTable c p e).
Proof. unfold offerTable. hush. Qed.
Lemma quiet_fresh : quiet fresh_address.
Proof. unfold fresh_address. hush. Qed.
Hint Resolve quiet_fresh : quiet.
Lemma quiet_new_blob payload refs : quiet (new_blob payload refs).
Proof. unfold new_blob. hush. Qed.
Lemma quiet_add z : quiet (add_snapshotBytes z).
Proof. unfold add_snapshotBytes. hush. Qed.
Lemma quiet_clamp : quiet clampSnapshotBytesLocked.
Proof. unfold clampSnapshotBytesLocked. hush. Qed.
Hint Resolve quiet_offer quiet_offerDrag quiet_offerTable quiet_new_blob quiet_add quiet_clamp : quiet.
Lemma quiet_retain b : quiet (retainSnapshotBlobLocked b).
Proof. unfold retainSnapshotBlobLocked. hush. Qed.
Lemma quiet_release b : quiet (releaseSnapshotBlobLocked b).
Proof. unfold releaseSnapshotBlobLocked. hush. Qed.
Hint Resolve quiet_retain quiet_release : quiet.
Lemma quiet_release_job j : quiet (releaseSnapshotJobLocked j).
Proof. unfold releaseSnapshotJobLocked. hush. Qed.
Lemma quiet_token : quiet nextDocTokenLocked.
Proof. unfold nextDocTokenLocked. hush. Qed.
Lemma quiet_emptied : quiet nextEmptied.
Proof. unfold nextEmptied. hush. Qed.
Lemma quiet_clear dk : quiet (clearCompactionLocked dk).
Proof. unfold clearCompactionLocked. hush. Qed.
Hint Resolve quiet_release_job quiet_token quiet_emptied quiet_clear : quiet.
Lemma quiet_expire dk now : quiet (expireCompactionLocked dk now).
Proof. unfold expireCompactionLocked. hush. Qed.
Lemma quiet_begin dk c now : quiet (beginCompactionLocked dk c now).
Proof. unfold beginCompactionLocked. hush. Qed.
Lemma quiet_elect dk : quiet (elect_leader dk).
Proof. unfold elect_leader. hush. Qed.
Hint Resolve quiet_expire quiet_begin quiet_elect : quiet.
Lemma quiet_persist w dk card : quiet (persistDoc w dk card).
Proof. unfold persistDoc. hush. Qed.
Lemma quiet_drop w dk : quiet (dropDocSidecar w dk).
Proof. unfold dropDocSidecar. hush. Qed.
Hint Resolve quiet_persist quiet_drop : quiet.
Lemma quiet_look w dk : quiet (look_sidecar w dk).
Proof. unfold look_sidecar. hush. Qed.
Lemma quiet_reserve dk z : quiet (reserve_recovery dk z).
Proof. unfold reserve_recovery. hush. Qed.
Lemma quiet_release_recovery dk z : quiet (release_recovery dk z).
Proof. unfold release_recovery. hush. Qed.
Lemma quiet_status dk uid ok : quiet (persistenceStatus dk uid ok).
Proof. unfold persistenceStatus. hush. Qed.
Lemma quiet_with dk uid f : (∀ s, quiet (f s)) → quiet (with_session dk uid f).
Proof. intros Hf. unfold with_session. hush. Qed.
Hint Resolve quiet_look quiet_reserve quiet_release_recovery quiet_status : quiet.
Lemma quiet_reset dk uid now : quiet (resetEmptyDoc dk uid now).
Proof. apply quiet_with. intros s. hush. Qed.
Lemma quiet_delete dk uid : quiet (deleteEmptyDoc dk uid).
Proof. apply quiet_with. intros s. hush. Qed.
Lemma quiet_create dk rc : quiet (create_session dk rc).
Proof. unfold create_session. hush. Qed.
Hint Resolve quiet_reset quiet_delete quiet_create : quiet.
Lemma quiet_find w dk actor rc : quiet (find_session w dk actor rc).
Proof. unfold find_session. hush. Qed.
Lemma quiet_dropLocked c dk now : quiet (dropLocked c dk now).
Proof. unfold dropLocked. hush. Qed.
Hint Resolve quiet_find quiet_dropLocked : quiet.
Lemma quiet_leave c dk now now' : quiet (leave_session c dk now now').
Proof. unfold leave_session. hush. Qed.
Lemma quiet_compaction_token w dk c s : quiet (compaction_token w dk c s).
Proof. unfold compaction_token. hush. Qed.
Lemma quiet_accept_flush c dk uid g actual : quiet (accept_flush c dk uid g actual).
Proof. unfold accept_flush. hush. Qed.
Hint Resolve quiet_leave quiet_compaction_token quiet_accept_flush : quiet.
Lemma quiet_strike c : quiet (strike c).
Proof. unfold strike, releaseReservationLocked. hush. Qed.
Lemma quiet_drain c : quiet (drain c).
Proof. unfold drain. hush. Qed.
Lemma quiet_release_written c n : quiet (release_written c n).
Proof. unfold release_written. hush. Qed.
Lemma quiet_try_lock w c actor room node steal : quiet (try_lock w c actor room node steal).
Proof. unfold try_lock. hush. Qed.
Lemma quiet_owed c xs : quiet (owed_ends c xs).
Proof. induction xs; simpl; hush. Qed.
Lemma quiet_pop c : quiet (pop c).
Proof. unfold pop. hush. Qed.
Lemma quiet_install cl : quiet (install cl).
Proof. unfold install. hush. Qed.
Lemma quiet_reserveConnection actor ip : quiet (reserveConnection actor ip).
Proof. unfold reserveConnection. hush. Qed.
End Sections.
#[export] Hint Resolve quiet_offerLocked quiet_fresh quiet_offer quiet_offerDrag quiet_offerTable quiet_new_blob quiet_add quiet_clamp
  quiet_retain quiet_release quiet_release_job quiet_token quiet_emptied quiet_clear quiet_expire quiet_begin quiet_elect
  quiet_persist quiet_drop quiet_look quiet_reserve quiet_release_recovery quiet_status quiet_reset quiet_delete quiet_create
  quiet_find quiet_dropLocked quiet_leave quiet_compaction_token quiet_accept_flush quiet_strike quiet_drain quiet_release_written
  quiet_try_lock quiet_owed quiet_pop quiet_install quiet_reserveConnection : quiet.

(** * Sections that queue frames *)

Section Queues.
Context `{GoRev}.

Lemma slow_if_elem ok c c' : c' ∈ slow_if ok c ↔ ok = false ∧ c' = c.
Proof. destruct ok; simpl; rewrite ?list_elem_of_singleton; [|naive_solver]. split; [intros Hc; by apply elem_of_nil in Hc|naive_solver]. Qed.

Lemma owing_spill P c : owing P (spill c) (λ _ c', P c' ∨ c' = c).
Proof.
  intros h HP c'. unfold spill, client. rewrite get_bind. destruct (h_clients h !! c); simpl; [|by left; apply HP].
  intros [Hc|Hc%list_elem_of_singleton]%elem_of_app; [left; by apply HP|right; congruence].
Qed.

Lemma owing_enqueue P w c f : owing P (enqueue w c f) (λ ok c', P c' ∨ c' ∈ slow_if ok c).
Proof.
  unfold enqueue. eapply owing_bind; [apply (quiet_get _ P)|]. intros [cl|]; [|apply owing_ret; by left]. cbv zeta.
  destruct (_ && _).
  - eapply owing_weaken; [assert (Q : quiet (_ ← set_client c (set_queue (cl_queue cl ++ [f]));
      _ ← modify (λ h, put_trace (h_trace h ++ [sent_as h c f]) h); mret true)) by hush; apply (Q P)|]. by left.
  - eapply owing_bind; [apply owing_spill|]. intros ?; cbv beta. apply owing_ret. intros c' [?|?]; [by left|right; by apply slow_if_elem].
Qed.

Lemma owing_event P w c e : owing P (queueEvent w c e) (λ ok c', P c' ∨ c' ∈ slow_if ok c).
Proof. apply owing_enqueue. Qed.

Lemma owing_snapshot P w c j : owing P (queueSnapshotLocked w c j) (λ ok c', P c' ∨ c' ∈ slow_if ok c).
Proof.
  unfold queueSnapshotLocked. eapply owing_bind; [apply (quiet_get _ P)|].
  assert (Hsp : owing P (_ ← spill c; mret false) (λ ok c', P c' ∨ c' ∈ slow_if ok c)).
  { eapply owing_bind; [apply owing_spill|]. intros ?; cbv beta. apply owing_ret. intros c' [?|?]; [by left|right; by apply slow_if_elem]. }
  intros [bl|]; [|exact Hsp]. cbv zeta. eapply owing_bind; [apply (quiet_get _ P)|]. intros held. destruct (_ || _); [exact Hsp|].
  eapply owing_bind; [apply (quiet_retain _ P)|]. intros ?; cbv beta. eapply owing_bind; [apply (quiet_add _ P)|]. intros ?; cbv beta.
  eapply owing_bind; [apply owing_enqueue|]. intros [].
  - apply owing_ret. intros c' [?|?%slow_if_elem]; [by left|naive_solver].
  - eapply owing_bind; [apply (quiet_release_job j)|]. intros ?; cbv beta. by apply owing_ret.
Qed.

Lemma slow_all w cs e : lists_slow (queue_all w cs e).
Proof.
  induction cs as [|c cs IH]; intros P; simpl; [by apply owing_ret; left|].
  eapply owing_bind; [apply owing_event|]. intros ok. cbv beta. eapply owing_bind; [apply IH|]. intros slow. cbv beta. apply owing_ret.
  intros c'. rewrite slow_if_elem. destruct ok; [naive_solver|]. rewrite elem_of_cons. naive_solver.
Qed.
Lemma slow_notices w key ns : lists_slow (queue_notices w key ns).
Proof.
  unfold queue_notices. induction ns as [|[c b] ns IH]; intros P; [by apply owing_ret; left|].
  eapply owing_bind; [apply owing_event|]. intros ok. cbv beta. eapply owing_bind; [apply IH|]. intros slow. cbv beta. apply owing_ret.
  intros c'. rewrite elem_of_app. tauto.
Qed.
Lemma owing_updates P w c key us : owing P (queue_updates w c key us) (λ ok c', P c' ∨ c' ∈ slow_if ok c).
Proof.
  revert P. induction us as [|u us IH]; intros P; simpl; [by apply owing_ret; left|].
  eapply owing_bind; [apply owing_event|]. intros []; cbv beta; [|by apply owing_ret]. eapply owing_weaken; [apply IH|].
  intros ok c' [[?|?%slow_if_elem]|?]; [by left|naive_solver|by right].
Qed.
Lemma slow_snapshots w cs j word : lists_slow (queue_snapshots w cs j word).
Proof.
  induction cs as [|c cs IH]; intros P; simpl; [by apply owing_ret; left|].
  eapply owing_bind; [apply owing_snapshot|]. intros ok. cbv beta.
  eapply (owing_bind _ (λ ok' c', (P c' ∨ c' ∈ slow_if ok c) ∨ c' ∈ slow_if ok' c)).
  { destruct word; [apply owing_event|by apply owing_ret; left]. }
  intros ok'. cbv beta. eapply owing_bind; [apply IH|]. intros slow. cbv beta zeta. apply owing_ret.
  intros c'. rewrite !slow_if_elem. destruct ok, ok'; rewrite ?elem_of_cons; naive_solver.
Qed.
Lemma slow_token w c key token : lists_slow (queue_token w c key token).
Proof.
  intros P. unfold queue_token. destruct token; [|by apply owing_ret; left]. eapply owing_bind; [apply owing_event|].
  intros ok. cbv beta. by apply owing_ret.
Qed.
Lemma slow_reject w c key token : lists_slow (reject w c key token).
Proof.
  intros P. unfold reject. eapply owing_bind; [apply owing_event|]. intros ok1. cbv beta. eapply owing_bind; [apply owing_event|].
  intros ok2. cbv beta. apply owing_ret. intros c'. rewrite !slow_if_elem. destruct ok1, ok2; naive_solver.
Qed.

(** Through a section that ends in a list of those without room. *)
Ltac owe_step :=
  lazymatch goal with
  | |- owing _ (mret _) _ => apply owing_ret; intros ?; rewrite ?elem_of_app, ?slow_if_elem; try tauto
  | |- owing _ (queueEvent _ _ _ ≫= _) _ => eapply owing_bind; [apply owing_event|intros ?; cbv beta]
  | |- owing _ (queueSnapshotLocked _ _ _ ≫= _) _ => eapply owing_bind; [apply owing_snapshot|intros ?; cbv beta]
  | |- owing _ (queue_all _ _ _) _ => apply slow_all
  | |- owing _ (queue_notices _ _ _) _ => apply slow_notices
  | |- owing _ (queue_snapshots _ _ _ _) _ => apply slow_snapshots
  | |- owing _ (queue_token _ _ _ _) _ => apply slow_token
  | |- owing _ (reject _ _ _ _) _ => apply slow_reject
  | |- owing _ (queue_updates _ _ _ _ ≫= _) _ => eapply owing_bind; [apply owing_updates|intros ?; cbv beta]
  | |- owing ?P (?m ≫= _) _ =>
      lazymatch type of m with
      | St (list nat) => apply (owing_bind P (λ slow c, P c ∨ c ∈ slow)); [|intros ?; cbv beta]
      | _ => eapply owing_bind; [solve [let Q := fresh in assert (Q : quiet m) by hush; apply (Q P)]|intros ?; cbv beta]
      end
  | |- owing _ (if ?b then _ else _) _ => destruct b
  | |- owing _ (match ?x with _ => _ end) _ => destruct x
  | |- owing _ (let _ := _ in _) _ => cbv zeta
  end.
Ltac owe := repeat owe_step.

(** The sections of the operations. *)

Lemma slow_join_session w c dk : lists_slow (join_session w c dk).
Proof. intros P. unfold join_session. owe. Qed.

(** Who a step of an update left without room; and one of a commit. *)
Definition slow_of (up : Updated) : list nat := match up with Finished slow => slow | Overflowed _ _ _ _ => [] end.
Definition slow_in (cm : Commit) : list nat := match cm with Refused slow => slow | Swapped _ _ _ _ => [] end.

Lemma slow_join P w c dk actor rc : owing P (join w c dk actor rc) (λ r c', P c' ∨ c' ∈ r.2).
Proof.
  unfold join. owe; simpl; try tauto. unfold take_seat. owe; simpl; try tauto.
  apply slow_join_session.
Qed.
Lemma slow_take P w c dk payload : owing P (take_update w c dk payload) (λ up c', P c' ∨ c' ∈ slow_of up).
Proof. unfold take_update. owe; simpl; rewrite ?elem_of_app, ?slow_if_elem; try tauto. Qed.
Lemma slow_freeze w c dk uid payload targets token : lists_slow (freeze_after w c dk uid payload targets token).
Proof. intros P. unfold freeze_after. owe. Qed.
Lemma slow_request w c dk : lists_slow (request_section w c dk).
Proof. intros P. unfold request_section. owe. Qed.
Lemma slow_start w c dk token size chunks : lists_slow (start_section w c dk token size chunks).
Proof. intros P. unfold start_section. owe. Qed.
Lemma slow_timeout w c dk token : lists_slow (timeout_section w c dk token).
Proof. intros P. unfold timeout_section. owe. Qed.
Lemma slow_refuse w c dk token : lists_slow (refuse_upload w c dk token).
Proof. intros P. unfold refuse_upload. owe. Qed.
Lemma slow_chunk w c dk token seq payload : lists_slow (chunk_section w c dk token seq payload).
Proof. intros P. unfold chunk_section. owe. apply slow_refuse. Qed.
Lemma slow_abort w c dk token : lists_slow (abort_section w c dk token).
Proof. intros P. unfold abort_section. owe. Qed.
Lemma slow_swap P w c dk token : owing P (swap_base w c dk token) (λ cm c', P c' ∨ c' ∈ slow_in cm).
Proof. unfold swap_base. owe; simpl; try tauto. apply slow_refuse. Qed.
Lemma slow_tell w c dk token uid blob targets saved : lists_slow (tell_base w c dk token uid blob targets saved).
Proof. intros P. unfold tell_base. owe. Qed.
End Queues.

(** * Programs *)

(** Begun owing the removal of [P], it ends owing that of [Q]. *)
Definition duty {A} (P : nat → Prop) (m : M A) (Q : A → nat → Prop) : Prop :=
  ∀ k, (∀ a, tidy (k a) ∧ ∀ c, Q a c → will_remove c (k a)) → tidy (m k) ∧ ∀ c, P c → will_remove c (m k).

(** It sees to all it owes itself. *)
Definition honest {A} (m : M A) : Prop := ∀ P, duty P m (λ _, P).

Lemma duty_bind {A B} P R Q (m : M A) (f : A → M B) : duty P m R → (∀ a, duty (R a) (f a) Q) → duty P (m ≫= f) Q.
Proof. intros Hm Hf k Hk. apply Hm. intros a. by apply Hf. Qed.

Lemma duty_ret {A} P (Q : A → nat → Prop) a : (∀ c, P c → Q a c) → duty P (mret a) Q.
Proof. intros HQ k Hk. destruct (Hk a) as [Ht Hw]. split; [done|]. intros c Hc. by apply Hw, HQ. Qed.

Lemma duty_weaken {A} (P P' : nat → Prop) (Q Q' : A → nat → Prop) (m : M A) :
  duty P' m Q' → (∀ c, P c → P' c) → (∀ a c, Q' a c → Q a c) → duty P m Q.
Proof.
  intros Hm HP HQ k Hk. destruct (Hm k) as [Ht Hw].
  - intros a. destruct (Hk a) as [? Ha]. split; [done|]. intros c Hc. by apply Ha, HQ.
  - split; [done|]. intros c Hc. by apply Hw, HP.
Qed.

Lemma duty_sec {A} P (f : World → St A) R :
  (∀ w P', owing P' (f w) (λ a c, P' c ∨ R a c)) → duty P (sec f) (λ a c, P c ∨ R a c).
Proof.
  intros Hf k Hk. unfold sec. simpl. split.
  - intros w h. specialize (Hf w (λ c, Spilled c ∈ h_trace h) h (λ c Hc, Hc)). destruct (f w h) as [h' a]. simpl in Hf.
    destruct (Hk a) as [Ht Hw]. split; [done|]. intros c Hc. destruct (Hf c Hc); [by left|right]. apply Hw. by right.
  - intros c Hc w h _. destruct (f w h) as [h' a]. right. apply Hk. by left.
Qed.

Lemma honest_ret {A} (a : A) : honest (mret a).
Proof. intros P. by apply duty_ret. Qed.
Lemma honest_bind {A B} (m : M A) (f : A → M B) : honest m → (∀ a, honest (f a)) → honest (m ≫= f).
Proof. intros Hm Hf P. eapply duty_bind; [apply Hm|]. intros a. apply Hf. Qed.
Lemma honest_sec {A} (f : World → St A) : (∀ w, quiet (f w)) → honest (sec f).
Proof.
  intros Hf P. eapply duty_weaken; [apply (duty_sec P f (λ _ _, False))|done|by intros a c [?|[]]].
  intros w P'. eapply owing_weaken; [apply Hf|]. by left.
Qed.
Lemma honest_each {A} (f : A → M unit) xs : (∀ x, honest (f x)) → honest (each f xs).
Proof. intros Hf. induction xs as [|x xs IH]; simpl; [apply honest_ret|]. apply honest_bind; [apply Hf|done]. Qed.
Lemma honest_turn dk : honest (turn dk).
Proof. intros P k Hk. apply (Hk tt). Qed.
Lemma honest_yield dk : honest (yield_turn dk).
Proof. intros P k Hk. apply (Hk tt). Qed.
Lemma honest_await x : honest (await x).
Proof. intros P k Hk. apply (Hk tt). Qed.
Lemma duty_call P c : duty (λ c', P c' ∨ c' = c) (call (TRemove c)) (λ _, P).
Proof.
  intros k Hk. destruct (Hk tt) as [Ht Hw]. split; [done|]. intros c' [Hc| ->]; simpl; [right; by apply Hw|by left].
Qed.
Lemma honest_call t : honest (call t).
Proof. intros P k Hk. destruct (Hk tt) as [Ht Hw]. split; [done|]. intros c Hc. right. by apply Hw. Qed.

Lemma tidy_finish (m : M unit) : honest m → tidy (finish m).
Proof. intros Hm. apply (Hm (λ _, False)). by intros a. Qed.

Create HintDb honest discriminated.
Ltac honest_step :=
  match goal with
  | |- honest _ => solve [eauto 2 with honest]
  | |- honest (mret _) => apply honest_ret
  | |- honest nothing => apply honest_ret
  | |- honest (_ ≫= _) => apply honest_bind; [|intros ?]
  | |- honest (sec _) => apply honest_sec; intros ?; hush
  | |- honest (turn _) => apply honest_turn
  | |- honest (yield_turn _) => apply honest_yield
  | |- honest (await _) => apply honest_await
  | |- honest (call _) => apply honest_call
  | |- honest (each _ _) => apply honest_each; intros ?
  | |- honest (if ?b then _ else _) => destruct b
  | |- honest (match ?x with _ => _ end) => destruct x
  | |- honest (let _ := _ in _) => cbv zeta
  end.
Ltac march := repeat honest_step.

Section Programs.
Context `{GoRev}.

Lemma sendTo_honest c e : honest (sendTo c e).
Proof.
  intros P. unfold sendTo. eapply duty_bind; [apply (duty_sec P _ (λ ok c', c' ∈ slow_if ok c)); intros w P'; apply owing_event|].
  intros []; cbv beta.
  - apply duty_ret. intros c' [?|Hc%slow_if_elem]; [done|by destruct Hc].
  - eapply duty_weaken; [apply (duty_call P c)| |done]. intros c' [?|Hc%slow_if_elem]; [by left|right; apply Hc].
Qed.

Lemma remove_all_duty P slow : duty (λ c, P c ∨ c ∈ slow) (remove_all slow) (λ _, P).
Proof.
  unfold remove_all. induction slow as [|c slow IH]; simpl.
  - apply duty_ret. intros c [?|Hc]; [done|by apply elem_of_nil in Hc].
  - eapply duty_bind; [|intros ?; exact IH]. eapply duty_weaken; [apply (duty_call (λ c', P c' ∨ c' ∈ slow) c)| |done].
    intros c'. rewrite elem_of_cons. tauto.
Qed.

(** Whom a turn left without room is removed when it is given back. *)
Lemma duty_end P R dk (m : M (list nat)) :
  duty R m (λ slow c, P c ∨ c ∈ slow) → duty R (slow ← m; _ ← yield_turn dk; remove_all slow) (λ _, P).
Proof.
  intros Hm. eapply duty_bind; [exact Hm|]. intros slow. cbv beta. eapply duty_bind; [apply (honest_yield dk)|].
  intros ?. apply remove_all_duty.
Qed.

Lemma honest_block dk (m : M (list nat)) :
  (∀ P, duty P m (λ slow c, P c ∨ c ∈ slow)) → honest (_ ← turn dk; slow ← m; _ ← yield_turn dk; remove_all slow).
Proof. intros Hm P. eapply duty_bind; [apply (honest_turn dk P)|]. intros ?. cbv beta. apply duty_end, Hm. Qed.

Lemma honest_slow (f : World → St (list nat)) : (∀ w, lists_slow (f w)) → ∀ P, duty P (sec f) (λ slow c, P c ∨ c ∈ slow).
Proof. intros Hf P. apply duty_sec. intros w P'. apply Hf. Qed.
Hint Resolve sendTo_honest : honest.

Lemma place_of_honest c : honest (place_of c).
Proof. unfold place_of. march. Qed.
Lemma announce_honest key ns : honest (announceLeader key ns).
Proof. unfold announceLeader. march. Qed.
Lemma tell_compact_honest key ask : honest (tell_compact key ask).
Proof. unfold tell_compact. march. Qed.
Lemma announcePersistence_honest what : honest (announcePersistence what).
Proof. unfold announcePersistence. march. Qed.
Hint Resolve place_of_honest announce_honest tell_compact_honest announcePersistence_honest : honest.

Lemma retire_one_honest now due d : honest now → honest (retire_one now due d).
Proof. intros Hnow. unfold retire_one. march. Qed.
Lemma retire_all_honest cs now due : honest (retireEmptyDocs cs now due).
Proof. unfold retireEmptyDocs. march. apply retire_one_honest. march. Qed.
Hint Resolve retire_all_honest : honest.
Lemma retry_all_honest cs : honest (retry_all cs).
Proof. induction cs; simpl; march. apply retire_one_honest. march. Qed.
Hint Resolve retry_all_honest : honest.
Lemma decode_recovered_honest dk rev rest hd z : honest (decode_recovered dk rev rest hd z).
Proof. unfold decode_recovered. march. Qed.
Hint Resolve decode_recovered_honest : honest.
Lemma recoverDoc_honest dk : honest (recoverDoc dk).
Proof. unfold recoverDoc. march. Qed.
Hint Resolve recoverDoc_honest : honest.

Lemma openDoc_honest c key : honest (openDoc c key).
Proof.
  unfold openDoc. destruct (String.eqb key EmptyString); [march|]. apply honest_bind; [march|]. intros [room actor]. cbv zeta.
  apply honest_bind; [march|]. intros may. destruct (negb may); [march|]. unfold sweepDocSessions, retireActorEmptyDocs.
  do 3 (apply honest_bind; [march|]; intros ?). apply honest_bind; [march|]. intros ?. apply honest_bind; [march|]. intros absent.
  apply honest_bind; [march|]. intros rc P. eapply duty_bind; [apply (duty_sec P _ (λ r c', c' ∈ r.2)); intros w P'; apply slow_join|].
  intros [answer slow]. cbv beta. eapply duty_bind; [apply (honest_yield (room, key))|]. intros ?. cbv beta.
  eapply duty_bind; [|intros ?; apply remove_all_duty]. destruct answer; [apply sendTo_honest|by apply duty_ret].
Qed.

Lemma docUpdate_honest c key payload : honest (docUpdate c key payload).
Proof.
  unfold docUpdate. apply honest_bind; [march|]. intros [room actor]. cbv zeta. set (dk := (room, key)).
  intros P. eapply duty_bind; [apply (honest_turn dk)|]. intros ?. cbv beta.
  eapply duty_bind; [apply (duty_sec P _ (λ up c', c' ∈ slow_of up)); intros w P'; apply slow_take|]. intros up. cbv beta.
  apply duty_end. destruct up as [slow|uid card targets token]; [by apply duty_ret|]. eapply duty_bind; [apply honest_sec; intros w; hush|].
  intros ?. cbv beta. eapply duty_weaken; [apply (honest_slow _ (λ w, slow_freeze w c dk uid payload targets token) P)| |done].
  intros c' [?|Hc]; [done|by apply elem_of_nil in Hc].
Qed.

Lemma docSnapshotCommit_honest c key token : honest (docSnapshotCommit c key token).
Proof.
  unfold docSnapshotCommit. apply honest_bind; [march|]. intros [room actor]. cbv zeta. set (dk := (room, key)).
  intros P. eapply duty_bind; [apply (honest_turn dk)|]. intros ?. cbv beta. eapply duty_bind; [apply (duty_sec P _ (λ cm c', c' ∈ slow_in cm)); intros w P'; apply slow_swap|].
  intros cm. cbv beta. apply duty_end. destruct cm as [slow|uid blob card targets]; [by apply duty_ret|]. eapply duty_bind; [apply honest_sec; intros w; hush|].
  intros saved. cbv beta. eapply duty_weaken; [apply (honest_slow _ (λ w, slow_tell w c dk token uid blob targets saved) P)| |done].
  intros c' [?|Hc]; [done|by apply elem_of_nil in Hc].
Qed.
Hint Resolve openDoc_honest docUpdate_honest docSnapshotCommit_honest : honest.

Lemma closeDoc_honest c key : honest (closeDoc c key).
Proof. unfold closeDoc. march. Qed.
Lemma leave_one_honest c now dk : honest (leave_one c now dk).
Proof. unfold leave_one. march. Qed.
Hint Resolve leave_one_honest : honest.
Lemma leave_each_honest c now dks : honest (leave_each c now dks).
Proof. induction dks; simpl; march. Qed.
Hint Resolve leave_each_honest : honest.
Lemma leaveAllDocs_honest c : honest (leaveAllDocs c).
Proof. unfold leaveAllDocs. march. Qed.
Lemma docFlushed_honest c key rev : honest (docFlushed c key rev).
Proof. unfold docFlushed, clear_sidecar. march. apply quiet_with. intros ?. hush. Qed.
Hint Resolve closeDoc_honest leaveAllDocs_honest docFlushed_honest : honest.

(** The uploads' steps: a turn with one section. *)
Ltac one_turn lemma :=
  apply honest_bind; [march|]; intros [room actor]; cbv zeta; apply honest_block, honest_slow; intros w; apply lemma.

Lemma docCompactRequest_honest c key : honest (docCompactRequest c key).
Proof. unfold docCompactRequest. one_turn slow_request. Qed.
Lemma docSnapshotStart_honest c key token size chunks : honest (docSnapshotStart c key token size chunks).
Proof. unfold docSnapshotStart. one_turn slow_start. Qed.
Lemma docSnapshotChunk_honest c key token seq payload : honest (docSnapshotChunk c key token seq payload).
Proof. unfold docSnapshotChunk. one_turn slow_chunk. Qed.
Lemma docSnapshotAbort_honest c key token : honest (docSnapshotAbort c key token).
Proof. unfold docSnapshotAbort. one_turn slow_abort. Qed.
Lemma timeout_honest dk c token : honest (docCompactionTimeout dk c token).
Proof. unfold docCompactionTimeout. apply honest_block, honest_slow. intros w. apply slow_timeout. Qed.
Hint Resolve docCompactRequest_honest docSnapshotStart_honest docSnapshotChunk_honest docSnapshotAbort_honest timeout_honest : honest.

Lemma sendPresence_honest room only : honest (sendPresence room only).
Proof. unfold sendPresence. march. Qed.
Lemma sendLocks_honest room only : honest (sendLocks room only).
Proof. unfold sendLocks. march. Qed.
Hint Resolve sendPresence_honest sendLocks_honest : honest.
Lemma releaseAll_honest c room : honest (releaseAll c room).
Proof. unfold releaseAll, publishLocks. march. Qed.
Hint Resolve releaseAll_honest : honest.
Lemma remove_honest c : honest (remove c).
Proof. unfold remove, publishPresence. march. Qed.
Lemma deny_honest c previous project : honest (deny c previous project).
Proof. unfold deny, publishPresence. march. Qed.
Hint Resolve remove_honest deny_honest : honest.
Lemma relay_honest c make ghost : honest (relay c make ghost).
Proof. unfold relay. march. Qed.
Hint Resolve relay_honest : honest.
Lemma handleMessage_honest c m : honest (handleMessage c m).
Proof. unfold handleMessage, subscribe, presence, drag, acquireLock, releaseLock, publishPresence, publishLocks. march. Qed.
Hint Resolve handleMessage_honest : honest.

Lemma remove_all_honest slow : honest (remove_all slow).
Proof. intros P. eapply duty_weaken; [apply remove_all_duty|by left|done]. Qed.
Hint Resolve remove_all_honest : honest.

Lemma send_honest to e : honest (send to e).
Proof.
  assert (Hs : ∀ pick, honest (slow ← sec (λ w, targets ← get (pick w); queue_all w targets e); remove_all slow)).
  { intros pick P. eapply duty_bind; [|intros slow; apply remove_all_duty]. apply honest_slow. intros w P'.
    eapply owing_bind; [apply (quiet_get (pick w) P')|]. intros targets. apply slow_all. }
  unfold send. cbv zeta. destruct to; repeat case_match; first [apply honest_ret | apply (Hs (λ w h, _))].
Qed.
Hint Resolve send_honest : honest.

(** Every goroutine is tidy. *)
Lemma run_tidy t : tidy (run t).
Proof.
  apply tidy_finish.
  unfold receive, write_one, catchUp, ping, RecheckAccess, recheck_one, Close, retryEmptyDocSessions, connect, releaseReservationLocked.
  destruct t; march.
Qed.

(** A removal begins with the strike. *)
Lemma remove_strikes c : will_remove c (run (TRemove c)).
Proof.
  simpl. intros w h [cl Hc]. unfold strike, client. rewrite get_bind, Hc. destruct (cl_once cl) eqn:E.
  - left. unfold struck. simpl. by rewrite Hc.
  - left. unfold struck. simpl. by rewrite !lookup_alter_eq, Hc.
Qed.

(** * In the pool *)

(** The client's removal has begun, or a goroutine is about to begin it. *)
Definition being_removed (p : Pool) (c : nat) : Prop :=
  struck (p_hub p) c = true ∨ ∃ i th, p_threads p !! i = Some th ∧ will_remove c (th_prog th).

Record pool_tidy (p : Pool) : Prop := {
  pt_tidy : ∀ i th, p_threads p !! i = Some th → tidy (th_prog th);
  pt_fresh : ∀ i, is_Some (p_threads p !! i) → (i < p_next p)%nat;
  pt_removed : ∀ c, Spilled c ∈ h_trace (p_hub p) → being_removed p c;
}.

Lemma struck_later h h' c : later h h' → struck h c = true → struck h' c = true.
Proof.
  unfold struck. intros Hl. destruct (h_clients h !! c) as [cl|] eqn:E; [|done]. destruct (lt_clients _ _ Hl _ _ E) as (cl' & -> & _ & _ & Ho). exact Ho.
Qed.

Lemma tidy_begin p t : pool_tidy p → pool_tidy (add_thread t p).
Proof.
  intros [Ht Hf Hr]. assert (Hn : p_threads p !! p_next p = None).
  { destruct (p_threads p !! p_next p) eqn:E; [|done]. assert (p_next p < p_next p)%nat; [|lia]. apply Hf. by rewrite E. }
  split; simpl.
  - intros i th. rewrite lookup_insert_Some. intros [[<- <-]|[_ Hi]]; [apply run_tidy|by eapply Ht].
  - intros i. rewrite lookup_insert_is_Some'. intros [<-|Hi]; [lia|]. pose proof (Hf i Hi). lia.
  - intros c Hc. destruct (Hr c Hc) as [?|(i & th & Hi & Hw)]; [by left|right]. exists i, th. split; [|done]. simpl.
    rewrite lookup_insert_ne; [done|]. intros <-. congruence.
Qed.

(** A goroutine goes on with a program that still does what it owed. *)
Lemma tidy_goes_on p i r q q' turns :
  pool_tidy p → p_threads p !! i = Some (mkThread r q) → tidy q' → (∀ c, will_remove c q → will_remove c q') →
  pool_tidy (mkPool (p_hub p) turns (<[i := mkThread r q']> (p_threads p)) (p_next p) (p_ids p)).
Proof.
  intros [Ht Hf Hr] Hth Hq' Hw. split; simpl.
  - intros j th. rewrite lookup_insert_Some. intros [[<- <-]|[_ Hj]]; [done|by eapply Ht].
  - intros j. rewrite lookup_insert_is_Some'. intros [<-|Hj]; apply Hf; [by rewrite Hth|done].
  - intros c Hc. destruct (Hr c Hc) as [?|(j & th & Hj & Hwj)]; [by left|right]. destruct (decide (i = j)) as [<-|Hne].
    + rewrite Hth in Hj. injection Hj as <-. exists i, (mkThread r q'). split; [apply lookup_insert_eq|by apply Hw].
    + exists j, th. split; [|done]. simpl. by rewrite lookup_insert_ne.
Qed.

Lemma tidy_move p i p' :
  (∀ c, Spilled c ∈ h_trace (p_hub p) → is_Some (h_clients (p_hub p) !! c)) → later (p_hub p) (p_hub p') →
  pool_tidy p → moves i p p' → pool_tidy p'.
Proof.
  intros Hkn Hl Hp Hm. pose proof Hp as [Ht Hf Hr]. destruct Hm as [r f w h' q Hth E|r dk q Hth _|r dk q Hth _|r x q Hth _|r t q Hth|r Hth].
  - pose proof (Ht _ _ Hth w (p_hub p)) as Hs. rewrite E in Hs. destruct Hs as [Hq Hs]. split; simpl.
    + intros j th. rewrite lookup_insert_Some. intros [[<- <-]|[_ Hj]]; [done|by eapply Ht].
    + intros j. rewrite lookup_insert_is_Some'. intros [<-|Hj]; apply Hf; [by rewrite Hth|done].
    + intros c Hc. assert (Hme : will_remove c q → being_removed (with_thread i (mkThread r q) h' p) c).
      { intros Hw. right. exists i, (mkThread r q). split; [apply lookup_insert_eq|done]. }
      destruct (Hs c Hc) as [Hold|Hw]; [|by apply Hme]. destruct (Hr c Hold) as [?|(j & th & Hj & Hw)]; [left; by eapply struck_later|].
      destruct (decide (i = j)) as [<-|Hne].
      * rewrite Hth in Hj. injection Hj as <-. specialize (Hw w (p_hub p) (Hkn c Hold)). rewrite E in Hw. destruct Hw as [?|?]; [by left|by apply Hme].
      * right. exists j, th. split; [|done]. simpl. by rewrite lookup_insert_ne.
  - by eapply tidy_goes_on; [|exact Hth|apply (Ht _ _ Hth)|].
  - by eapply tidy_goes_on; [|exact Hth|apply (Ht _ _ Hth)|].
  - by eapply tidy_goes_on; [|exact Hth|apply (Ht _ _ Hth)|].
  - eapply tidy_goes_on; [done|exact Hth|apply tidy_andthen; [apply run_tidy|apply (Ht _ _ Hth)]|].
    intros c [-> |Hw]; [apply will_remove_l, remove_strikes|by apply will_remove_r].
  - split; simpl.
    + intros j th [_ Hj]%lookup_delete_Some. by eapply Ht.
    + intros j [th Hj]. apply lookup_delete_Some in Hj as [_ Hj]. apply Hf. by exists th.
    + intros c Hc. destruct (Hr c Hc) as [?|(j & th & Hj & Hw)]; [by left|right]. exists j, th. split; [|done]. simpl.
      rewrite lookup_delete_ne; [done|]. intros <-. rewrite Hth in Hj. by injection Hj as <-.
Qed.
End Programs.
