(* ===== verification/LiveInv.v ===== *)
(** What holds of every live document: who is in it and leads it, what its log
    is, what became of all it accepted, what its members have heard.  And how
    that survives what others do ([doc_with_rely]) and what does not touch the
    log ([doc_with_mild]).

    The hub's invariant, and the rules its programs are shown to keep it with:
    one for a section that no document minds, one for a section of the turn's
    holder that changes little, one for a section that does more, and those for
    the turn itself. *)

From S2P Require Import Prelude GoStr Roles Readiness ReadyFacts Sidecar SidecarFacts Live LiveDocs LiveOps LiveHub LivePool LiveFacts.
Open Scope Z_scope.

(** * The election *)

(** The leader is a member no other member's id is below. *)
Definition leads (h : Hub) (members : gset nat) (leader : option nat) : Prop :=
  match leader with
  | None => members = ∅
  | Some b => b ∈ members ∧ ∀ c, c ∈ members → string_ltb (client_id h c) (client_id h b) = false
  end.

Lemma ltb_trans a b c : string_ltb a b = true → string_ltb b c = true → string_ltb a c = true.
Proof. apply (string_lt_trans a b c). Qed.

(** The lowest of a list, with the one chosen before. *)
Lemma lower_fold h cs : ∀ b, ∃ b', fold_left (lower h) cs (Some b) = Some b' ∧ b' ∈ b :: cs
  ∧ ∀ c, c ∈ b :: cs → string_ltb (client_id h c) (client_id h b') = false.
Proof.
  induction cs as [|c cs IH]; intros b; simpl.
  - exists b. split_and!; [done|left|]. intros c Hc. apply list_elem_of_singleton in Hc as ->. apply string_lt_irrefl.
  - change String.ltb with string_ltb. destruct (string_ltb (client_id h c) (client_id h b)) eqn:E.
    + destruct (IH c) as (b' & -> & Hin & Hleast). exists b'. split_and!; [done|by right|]. intros x Hx.
      apply elem_of_cons in Hx as [-> |Hx]; [|by apply Hleast]. apply not_true_iff_false. intros Hb.
      assert (Hc : string_ltb (client_id h c) (client_id h b') = true) by (by eapply ltb_trans).
      rewrite Hleast in Hc; [done|left].
    + destruct (IH b) as (b' & -> & Hin & Hleast). exists b'. split_and!; [done|set_solver|]. intros x Hx.
      apply elem_of_cons in Hx as [-> |Hx]; [apply Hleast; left|]. apply elem_of_cons in Hx as [-> |Hx]; [|apply Hleast; by right].
      apply not_true_iff_false. intros Hc. specialize (Hleast b ltac:(left)).
      destruct (string_lt_total (client_id h c) (client_id h b)) as [?|[E'|Hbc]]; [congruence| |].
      * rewrite E' in Hc. congruence.
      * assert (Hbb : string_ltb (client_id h b) (client_id h b') = true) by (by eapply ltb_trans). congruence.
Qed.

Lemma elect_leads h members : leads h members (elect h members).
Proof.
  unfold elect. destruct (elements members) as [|b cs] eqn:E; simpl.
  - by apply leibniz_equiv, elements_empty_iff.
  - destruct (lower_fold h cs b) as (b' & -> & Hin & Hleast). rewrite <- E in *. simpl. split.
    + by apply elem_of_elements.
    + intros c Hc. apply Hleast. by apply elem_of_elements.
Qed.

Lemma client_id_later h h' c : is_Some (h_clients h !! c) → later h h' → client_id h' c = client_id h c.
Proof. intros [cl Hc] Hl. destruct (lt_clients _ _ Hl _ _ Hc) as (cl' & Hc' & E & _). unfold client_id. by rewrite Hc, Hc'. Qed.

Lemma leads_later h h' members l : (∀ c, c ∈ members → is_Some (h_clients h !! c)) → later h h' → leads h members l → leads h' members l.
Proof.
  intros Hm Hl. destruct l as [b|]; [|done]. intros [Hb Hleast]. split; [done|]. intros c Hc.
  rewrite !(client_id_later h h') by auto. by apply Hleast.
Qed.

(** * A document's book *)

Definition thawed (dk : DocKey) (t : list Happened) : Prop := ∃ uid, Thawed dk uid ∈ t.

(** At all times: [log] is what the session was opened with, [t] what happened
    since. *)
Record doc_ok (h : Hub) (dk : DocKey) (s : Session) (log : list string) (t : list Happened) : Prop := {
  ds_members : ∀ c, c ∈ ss_members s → is_Some (h_clients h !! c);
  ds_size : Z.of_nat (size (ss_members s)) ≤ maxDocParticipants;
  ds_leader : leads h (ss_members s) (ss_leader s);
  ds_bytes : ss_logBytes s = bytes (ss_log s);
  ds_base : ∀ b, ss_snapshot s = Some b →
    ∃ base us bl, ss_log s = base :: us ∧ h_blobs h !! b = Some bl ∧ bl_payload bl = base;
  ds_upload : ∀ cp, ss_compaction s = Some cp → cp_client cp ∈ ss_members s ∧ (cp_prefixLen cp <= length (ss_log s))%nat
    ∧ (ss_snapshot s ≠ None → (0 < cp_prefixLen cp)%nat)
    ∧ asked t dk (cp_token cp) (cp_client cp) (take (cp_prefixLen cp) (ss_log s))
    ∧ ∀ a, cp_assembly cp = Some a → 0 < as_size a ≤ maxDocSnapshotTotalBytes ∧ len (as_data a) ≤ as_size a;
  ds_kept : ∀ u, accepted log t dk u → u ∈ ss_log s ∨ covered t dk u;
  ds_fits : thawed dk t ∨ log_ok (cd_snapshot (sidecarLocked s)) (ss_log s);
}.

(** Whether a log past the line is frozen. *)
Definition frozen_ok (dk : DocKey) (s : Session) (t : list Happened) : Prop := thawed dk t ∨ ss_frozen s = true ∨ over_line s = false.

(** When nobody has its turn, also: its members have heard its log, and a log
    that is past the line is frozen. *)
Record settled (dk : DocKey) (s : Session) (t : list Happened) : Prop := {
  st_heard : ∀ c, c ∈ ss_members s → caught_up t c dk (ss_log s);
  st_frozen : frozen_ok dk s t;
}.

(** The document's session, if there is one, with something known of it and of
    what happened since it was opened. *)
Definition doc_with (pred : Session → list Happened → Prop) (h : Hub) (dk : DocKey) : Prop :=
  ∀ s, h_docs h !! dk = Some s → ∃ uid log t,
    since (opens dk) (h_trace h) = Some (Opened dk uid log, t) ∧ doc_ok h dk s log t ∧ pred s t.

(** * What changes little *)

(** Sessions that differ in nothing a document's book speaks of, but for the
    upload; and with an upload that is the same or was forgotten. *)
Record akin (s s' : Session) : Prop := {
  al_uid : ss_uid s' = ss_uid s;
  al_members : ss_members s' = ss_members s;
  al_leader : ss_leader s' = ss_leader s;
  al_log : ss_log s' = ss_log s;
  al_bytes : ss_logBytes s' = ss_logBytes s;
  al_snapshot : ss_snapshot s' = ss_snapshot s;
  al_frozen : ss_frozen s' = ss_frozen s;
}.

Record alike (s s' : Session) : Prop := {
  al_akin : akin s s';
  al_upload : ss_compaction s' = ss_compaction s ∨ ss_compaction s' = None;
}.

(** Events that add nothing to a document's log and nobody to it. *)
Definition dull (dk : DocKey) (x : Happened) : Prop :=
  opens dk x = false ∧ (∀ c, joins c dk x = false) ∧ ∀ u, ¬ accepts dk u x.

Record mild (dk : DocKey) (h h' : Hub) : Prop := {
  mi_session : match h_docs h !! dk, h_docs h' !! dk with Some s, Some s' => alike s s' | None, None => True | _, _ => False end;
  mi_trace : ∃ l, h_trace h' = h_trace h ++ l ∧ Forall (dull dk) l;
}.

#[export] Instance akin_pre : PreOrder akin.
Proof.
  split.
  - intros s. by split.
  - intros a b c [] []. split; congruence.
Qed.

#[export] Instance alike_pre : PreOrder alike.
Proof.
  split.
  - intros s. split; [reflexivity|by left].
  - intros a b c [K1 U1] [K2 U2]. split; [by etrans|]. destruct U1 as [E|E], U2 as [E'|E']; rewrite E'; auto.
Qed.

#[export] Instance mild_pre dk : PreOrder (mild dk).
Proof.
  split.
  - intros h. split; [|exists []; split; [by rewrite app_nil_r|constructor]]. destruct (h_docs h !! dk); [reflexivity|done].
  - intros a b c [S1 (l1 & T1 & D1)] [S2 (l2 & T2 & D2)]. split.
    + destruct (h_docs a !! dk), (h_docs b !! dk), (h_docs c !! dk); try done. by etrans.
    + exists (l1 ++ l2). rewrite T2, T1, app_assoc. split; [done|]. by apply Forall_app_2.
Qed.

Lemma dull_opens dk l : Forall (dull dk) l → Forall (λ x, opens dk x = false) l.
Proof. intros Hl. eapply Forall_impl; [exact Hl|]. by intros x (? & _). Qed.

Lemma dull_joins dk l c : Forall (dull dk) l → Forall (λ x, joins c dk x = false) l.
Proof. intros Hl. eapply Forall_impl; [exact Hl|]. by intros x (_ & Hj & _). Qed.

Lemma uneventful_dull dk l : uneventful dk l → Forall (dull dk) l.
Proof.
  intros Hl. eapply Forall_impl; [exact Hl|]. intros x Ha. destruct (not_about dk x Ha) as (Ho & Hj & _). split_and!; [done..|].
  intros u. destruct x; simpl in *; tauto.
Qed.

Lemma alike_cleared s : alike s (cleared s).
Proof. split; [by split|by right]. Qed.

Lemma untouched_mild dk h h' : untouched dk h h' → mild dk h h'.
Proof.
  intros [Hs (l & Ht & Hl) _]. split; [|exists l; split; [done|by apply uneventful_dull]].
  destruct (h_docs h !! dk), (h_docs h' !! dk); try done. destruct Hs as [-> | ->]; [reflexivity|apply alike_cleared].
Qed.

Lemma accepted_silent log t dk u l : Forall (λ x, ∀ u, ¬ accepts dk u x) l → accepted log (t ++ l) dk u → accepted log t dk u.
Proof.
  intros Hl [Hu|Hu]; [by left|]. apply Exists_app in Hu as [Hu|Hu]; [by right|]. exfalso.
  apply Exists_exists in Hu as (x & Hx & Ha). pose proof (proj1 (Forall_forall _ _) Hl x Hx) as Hn. by apply (Hn u).
Qed.

Lemma accepted_dull log t dk u l : Forall (dull dk) l → accepted log (t ++ l) dk u → accepted log t dk u.
Proof. intros Hl. apply accepted_silent. eapply Forall_impl; [exact Hl|]. by intros x (_ & _ & Hn). Qed.

Lemma thawed_app dk t l : thawed dk t → thawed dk (t ++ l).
Proof. intros [uid Ht]. exists uid. apply elem_of_app. by left. Qed.

Lemma akin_card s s' : akin s s' → cd_snapshot (sidecarLocked s') = cd_snapshot (sidecarLocked s).
Proof. intros []. simpl. by rewrite al_snapshot0. Qed.

Lemma akin_line s s' : akin s s' → over_line s' = over_line s.
Proof. intros []. unfold over_line, deltaStatsLocked. by rewrite al_snapshot0, al_log0, al_bytes0. Qed.

Lemma doc_ok_alike h h' dk s s' log t l :
  doc_ok h dk s log t → later h h' → Forall (dull dk) l → alike s s' → doc_ok h' dk s' log (t ++ l).
Proof.
  intros [M Z L B Ba U K F] Hl Hd [Ha a8]. pose proof Ha as [a1 a2 a3 a4 a5 a6 a7]. split.
  - intros c Hc. rewrite a2 in Hc. destruct (M c Hc) as [cl E]. destruct (lt_clients _ _ Hl _ _ E) as (cl' & E' & _). by exists cl'.
  - by rewrite a2.
  - rewrite a2, a3. by eapply leads_later.
  - by rewrite a4, a5.
  - intros b Hb. rewrite a6 in Hb. destruct (Ba b Hb) as (base & us & bl & E & E1 & E2).
    destruct (lt_blobs _ _ Hl _ _ E1) as (bl' & E1' & E2'). exists base, us, bl'. rewrite a4. split_and!; congruence.
  - intros cp Hcp. destruct a8 as [E|E]; rewrite E in Hcp; [|done]. rewrite a2, a4.
    destruct (U cp Hcp) as (? & ? & ? & ? & ?). rewrite a6. split_and!; try done. by apply asked_app.
  - intros u Hu. rewrite a4. destruct (K u) as [?|?]; [by eapply accepted_dull|by left|right; by apply covered_app].
  - rewrite a4, (akin_card s s') by done. destruct F as [?|?]; [left; by apply thawed_app|by right].
Qed.

(** * What is known survives *)

(** Known of a session whatever little changes. *)
Definition sturdy (dk : DocKey) (pred : Session → list Happened → Prop) : Prop :=
  ∀ s s' t l, pred s t → akin s s' → Forall (dull dk) l → pred s' (t ++ l).

(** Known of a session as long as its turn is held. *)
Definition robust (dk : DocKey) (pred : Session → list Happened → Prop) : Prop :=
  ∀ s s' t l, pred s t → s' = s ∨ s' = cleared s → uneventful dk l → pred s' (t ++ l).

Lemma sturdy_robust dk pred : sturdy dk pred → robust dk pred.
Proof.
  intros Hs s s' t l Hp He Hl. eapply Hs; [exact Hp| |by apply uneventful_dull].
  destruct He as [-> | ->]; [reflexivity|apply alike_cleared].
Qed.

Lemma frozen_ok_sturdy dk : sturdy dk (frozen_ok dk).
Proof.
  intros s s' t l Hp Ha _. unfold frozen_ok. rewrite (al_frozen _ _ Ha), (akin_line s s') by done.
  destruct Hp as [?|?]; [left; by apply thawed_app|by right].
Qed.

Lemma settled_sturdy dk : sturdy dk (settled dk).
Proof.
  intros s s' t l [H F] Ha Hd. split; [|by eapply frozen_ok_sturdy].
  intros c Hc. rewrite (al_members _ _ Ha) in Hc. rewrite (al_log _ _ Ha). apply caught_up_app; [by apply dull_joins|auto].
Qed.

Lemma sturdy_and dk pred pred' : sturdy dk pred → sturdy dk pred' → sturdy dk (λ s t, pred s t ∧ pred' s t).
Proof. intros H1 H2 s s' t l [? ?] ? ?. split; [by eapply H1|by eapply H2]. Qed.

Lemma doc_with_mild pred h h' dk : sturdy dk pred → doc_with pred h dk → later h h' → mild dk h h' → doc_with pred h' dk.
Proof.
  intros Hst Hw Hl [Hs (l & Ht & Hd)] s' Hs'. rewrite Hs' in Hs. destruct (h_docs h !! dk) as [s|] eqn:E; [|done].
  destruct (Hw s E) as (uid & log & t & Hsi & Hok & Hp). exists uid, log, (t ++ l). split_and!.
  - rewrite Ht. apply since_app; [by apply dull_opens|done].
  - by eapply doc_ok_alike.
  - eapply Hst; [exact Hp|apply Hs|done].
Qed.

Lemma doc_with_rely pred h h' dk : robust dk pred → doc_with pred h dk → later h h' → untouched dk h h' → doc_with pred h' dk.
Proof.
  intros Hst Hw Hl Hu s' Hs'. pose proof (untouched_mild _ _ _ Hu) as [Hm _]. destruct Hu as [Hs (l & Ht & Hd) _].
  rewrite Hs' in Hs, Hm. destruct (h_docs h !! dk) as [s|] eqn:E; [|done].
  destruct (Hw s E) as (uid & log & t & Hsi & Hok & Hp). exists uid, log, (t ++ l). split_and!.
  - rewrite Ht. apply since_app; [by apply dull_opens, uneventful_dull|done].
  - eapply doc_ok_alike; [done..|by apply uneventful_dull|done].
  - by eapply Hst.
Qed.

Lemma doc_with_weaken (pred pred' : Session → list Happened → Prop) h dk :
  (∀ s t, pred s t → pred' s t) → doc_with pred h dk → doc_with pred' h dk.
Proof. intros Hpp Hw s Hs. destruct (Hw s Hs) as (uid & log & t & ? & ? & ?). exists uid, log, t. auto. Qed.

Section Inv.
Context `{GoRev}.

(** With the documents whose turn is taken: every document's book is in order,
    and settled unless its turn is taken. *)
Record hub_ok (B : gset DocKey) (h : Hub) : Prop := {
  ho_base : base_ok h;
  ho_table : Z.of_nat (size (h_docs h)) ≤ maxDocSessions;
  ho_docs : ∀ dk, doc_with (λ s t, dk ∉ B → settled dk s t) h dk;
}.

Definition ok_spec {A} (held held' : option DocKey) (P : Hub → Prop) (m : M A) (Q : A → Hub → Prop) : Prop :=
  spec (λ _, True) hub_ok later untouched held held' P m Q.

Definition knows (dk : DocKey) (pred : Session → list Happened → Prop) (h : Hub) : Prop := doc_with pred h dk.

(** What a section does, as the rules ask for it. *)
Definition gently {A} (dk : DocKey) (m : St A) : Prop := ∀ h, base_ok h → base_ok (m h).1 ∧ mild dk h (m h).1.

Lemma settled_in_robust (B : gset DocKey) dk : robust dk (λ s t, dk ∉ B → settled dk s t).
Proof. intros s s' t l Hp He Hl HB. by apply (sturdy_robust _ _ (settled_sturdy dk) s s' t l (Hp HB)). Qed.

Lemma hub_ok_more B B' h : B ⊆ B' → hub_ok B h → hub_ok B' h.
Proof. intros HB [? ? Hd]. split; [done..|]. intros dk. eapply doc_with_weaken; [|apply Hd]. simpl. intros s t Hp Hn. apply Hp. set_solver. Qed.

Lemma docs_size D h h' : touches D h h' → (∀ dk, D = Some dk → h_docs h !! dk = None → h_docs h' !! dk = None) →
  (size (h_docs h') <= size (h_docs h))%nat.
Proof.
  intros [_ Ho] Hd. rewrite <- !(size_dom (D := gset DocKey)). apply subseteq_size. intros dk. rewrite !elem_of_dom. intros [s' Hs'].
  destruct (h_docs h !! dk) as [s|] eqn:E; [done|]. exfalso. destruct (decide (D = Some dk)) as [HD|HD].
  - by rewrite (Hd dk HD E) in Hs'.
  - destruct (Ho dk HD) as [Hs _ _]. by rewrite E, Hs' in Hs.
Qed.

(** A section of the holder of [D] keeps the invariant if it leaves [D] in order. *)
Lemma hub_ok_touches B D h h' : hub_ok B h → base_ok h' → touches D h h' →
  (∀ dk, D = Some dk → dk ∈ B ∧ doc_with (λ _ _, True) h' dk) → Z.of_nat (size (h_docs h')) ≤ maxDocSessions → hub_ok B h'.
Proof.
  intros [Hb Ht Hd] Hb' Hto HD Hsize. split; [done..|]. intros dk. destruct (decide (D = Some dk)) as [E|E].
  - destruct (HD dk E) as [HB Hw]. eapply doc_with_weaken; [|exact Hw]. simpl. done.
  - destruct Hto as [Hl Ho]. eapply doc_with_rely; [apply settled_in_robust|apply Hd|done|by apply Ho].
Qed.

Lemma touches_guar B D h h' : touches D h h' → guar later untouched B D h h'.
Proof. intros [Hl Ho]. split; [done|]. intros dk _ Hne. by apply Ho. Qed.

(** * The rules *)

(** A section in general: it leaves [dk] in order, knowing something more. *)
Lemma spec_any {A} dk pred (f : World → St A) (Q : A → Hub → Prop) :
  robust dk pred →
  (∀ w h, base_ok h → Z.of_nat (size (h_docs h)) ≤ maxDocSessions → knows dk pred h →
     (base_ok (f w h).1 ∧ touches (Some dk) h (f w h).1) ∧ doc_with (λ _ _, True) (f w h).1 dk ∧ Z.of_nat (size (h_docs (f w h).1)) ≤ maxDocSessions ∧ Q (f w h).2 (f w h).1) →
  ok_spec (Some dk) (Some dk) (knows dk pred) (sec f) Q.
Proof.
  intros Hr Hf. apply spec_sec. intros B h h' w HB _ HI [Hl Hu] Hp.
  assert (Hp' : knows dk pred h') by (by eapply doc_with_rely).
  destruct (Hf w h' (ho_base _ _ HI) (ho_table _ _ HI) Hp') as ([Hb Ht] & Hd & Hs & Hq). destruct (f w h') as [h'' a]. simpl in *. split_and!.
  - eapply hub_ok_touches; [done..| |done]. by intros ? [= <-].
  - by apply touches_guar.
  - done.
Qed.

(** One that does not open a session. *)
Lemma spec_doc {A} dk pred (f : World → St A) (Q : A → Session → list Happened → Prop) :
  robust dk pred → (∀ w, within (Some dk) (f w)) →
  (∀ w h, base_ok h → knows dk pred h →
     knows dk (Q (f w h).2) (f w h).1 ∧ (h_docs h !! dk = None → h_docs (f w h).1 !! dk = None)) →
  ok_spec (Some dk) (Some dk) (knows dk pred) (sec f) (λ a, knows dk (Q a)).
Proof.
  intros Hr Hw Hf. apply spec_any; [done|]. intros w h Hb Ht Hp. destruct (Hf w h Hb Hp) as [Hq Hn]. split_and!; [by apply Hw|by apply Hw|..].
  - eapply doc_with_weaken; [|exact Hq]. done.
  - destruct (Hw w h Hb) as [_ Hto]. etrans; [|exact Ht]. apply inj_le. eapply docs_size; [exact Hto|]. by intros ? [= <-].
  - done.
Qed.

Lemma spec_mild {A} dk pred (f : World → St A) :
  sturdy dk pred → (∀ w, within (Some dk) (f w)) → (∀ w, gently dk (f w)) →
  ok_spec (Some dk) (Some dk) (knows dk pred) (sec f) (λ _, knows dk pred).
Proof.
  intros Hs Hw Hg. apply (spec_doc dk pred f (λ _, pred)); [by apply sturdy_robust|done|]. intros w h Hb Hp.
  destruct (Hw w h Hb) as [_ [Hl _]]. destruct (Hg w h Hb) as [_ Hm]. split; [by eapply doc_with_mild|].
  intros E. destruct Hm as [Hm _]. rewrite E in Hm. by destruct (h_docs (f w h).1 !! dk).
Qed.

(** One that no document minds, in a turn and outside of one. *)
Lemma spec_in {A} dk pred (f : World → St A) :
  robust dk pred → (∀ w, within None (f w)) → ok_spec (Some dk) (Some dk) (knows dk pred) (sec f) (λ _, knows dk pred).
Proof.
  intros Hr Hw. apply (spec_doc dk pred f (λ _, pred)); [done|intros w; apply within_more, Hw|]. intros w h Hb Hp.
  destruct (Hw w h Hb) as [_ [Hl Hu]]. specialize (Hu dk ltac:(done)). split; [by eapply doc_with_rely|].
  intros E. destruct Hu as [Hu _ _]. rewrite E in Hu. by destruct (h_docs (f w h).1 !! dk).
Qed.

Lemma spec_out {A} (f : World → St A) : (∀ w, within None (f w)) → ok_spec None None (λ _, True) (sec f) (λ _ _, True).
Proof.
  intros Hw. apply spec_sec. intros B h h' w HB _ HI Hr _. destruct (Hw w h' (ho_base _ _ HI)) as [Hb Ht].
  destruct (f w h') as [h'' a]. simpl in *. split_and!; [|by apply touches_guar|done].
  eapply hub_ok_touches; [done..| |]; [done|]. etrans; [|apply HI]. apply inj_le. by eapply docs_size.
Qed.

Lemma spec_taken dk : ok_spec None (Some dk) (λ _, True) (turn dk) (λ _, knows dk (settled dk)).
Proof.
  apply spec_turn. intros B h h' HB _ HI _ _. eapply doc_with_weaken; [|apply (ho_docs _ _ HI dk)]. simpl. auto.
Qed.

Lemma spec_given dk : ok_spec (Some dk) None (knows dk (settled dk)) (yield_turn dk) (λ _ _, True).
Proof.
  apply spec_yield; [|done]. intros B h h' HB _ [Hb Ht Hd] [Hl Hu] Hp. split; [done..|]. intros dk'.
  destruct (decide (dk' = dk)) as [-> |Hne].
  - eapply doc_with_weaken; [|eapply doc_with_rely; [apply sturdy_robust, settled_sturdy|exact Hp|done|done]]. done.
  - eapply doc_with_weaken; [|apply Hd]. simpl. intros s t Hs Hn. apply Hs. set_solver.
Qed.

(** A turn with nothing known after it but that all is settled. *)
Lemma spec_easy {A} dk (m : M A) Q :
  (∀ a h, Q a h → knows dk (settled dk) h) →
  ok_spec (Some dk) (Some dk) (knows dk (settled dk)) m Q →
  ok_spec (Some dk) (Some dk) (knows dk (settled dk)) m (λ _, knows dk (settled dk)).
Proof. intros HQ Hm. eapply spec_weaken; [exact Hm|done|]. intros a h Ha. by eapply HQ. Qed.

(** * Gentle sections *)

Lemma gently_none {A} dk (m : St A) : within None m → gently dk m.
Proof. intros Hm h Hb. destruct (Hm h Hb) as [? [_ Hu]]. split; [done|]. by apply untouched_mild, Hu. Qed.

Lemma gently_mild {A} dk (m : St A) : within (Some dk) m → (∀ h, mild dk h (m h).1) → gently dk m.
Proof. intros Hm Hmi h Hb. destruct (Hm h Hb). by split. Qed.

Lemma gently_ret {A} dk (a : A) : gently dk (mret a).
Proof. apply gently_none, within_ret. Qed.

Lemma gently_bind {A B} dk (m : St A) (k : A → St B) : gently dk m → (∀ a, gently dk (k a)) → gently dk (m ≫= k).
Proof.
  intros Hm Hk h Hb. unfold mbind, St_bind. destruct (Hm h Hb) as [Hb1 M1]. destruct (m h) as [h1 a]. simpl in *.
  destruct (Hk a h1 Hb1) as [Hb2 M2]. split; [done|by etrans].
Qed.

Lemma gently_session dk f : (∀ s, alike s (f s)) → gently dk (set_session dk f).
Proof.
  intros Hf. apply gently_mild; [apply within_set_session|]. intros h. split; simpl.
  - rewrite lookup_alter_eq. destruct (h_docs h !! dk); simpl; [apply Hf|done].
  - exists []. split; [by rewrite app_nil_r|constructor].
Qed.

Lemma gently_note dk x : dull dk x → within (Some dk) (note x) → gently dk (note x).
Proof.
  intros Hx Hw. apply gently_mild; [done|]. intros h. split; simpl; [destruct (h_docs h !! dk); [reflexivity|done]|].
  exists [x]. split; [done|by apply Forall_singleton].
Qed.

(** Nothing but the trace and the disk. *)
Lemma persist_mild w dk card h : mild dk h (persistDoc w dk card h).1.
Proof.
  assert (Hone : ∀ h' x, h_docs h' = h_docs h → dull dk x → h_trace h' = h_trace h ++ [x] → mild dk h h').
  { intros h' x Hd Hx Ht. split; [rewrite Hd; destruct (h_docs h !! dk); [reflexivity|done]|]. exists [x]. split; [done|by apply Forall_singleton]. }
  unfold persistDoc. repeat case_match; try reflexivity; (eapply Hone; [done| |done]); split_and!; try done; simpl; tauto.
Qed.

Lemma gently_persist w dk card : gently dk (persistDoc w dk card).
Proof. apply gently_mild; [apply within_persist|apply persist_mild]. Qed.
End Inv.
