(* ===== verification/LiveUpdates.v ===== *)
(** What clients are told: every operation on queues leaves the documents as
    they are and says in the trace, for each client it is for, that the frame
    was queued or that there was no room.

    What an update does to a live document: it is at the end of the log, and
    whoever is in the document hears it; past the line the log is saved and
    frozen.  With the steps uploads share: asking a member for a snapshot. *)

From S2P Require Import Prelude GoStr Roles Sidecar SidecarFacts Live LiveDocs LiveOps LiveHub LivePool LiveFacts LiveInv.
Open Scope Z_scope.

(** * Operations on no document *)

Definition keeps_docs {A} (m : St A) : Prop := ∀ h, h_docs (m h).1 = h_docs h.

Lemma keeps_ret {A} (a : A) : keeps_docs (mret a).
Proof. by intros h. Qed.
Lemma keeps_get {A} (f : Hub → A) : keeps_docs (get f).
Proof. by intros h. Qed.
Lemma keeps_bind {A B} (m : St A) (k : A → St B) : keeps_docs m → (∀ a, keeps_docs (k a)) → keeps_docs (m ≫= k).
Proof. intros Hm Hk h. unfold mbind, St_bind. specialize (Hm h). destruct (m h) as [h1 a]. simpl in *. by rewrite Hk. Qed.
Lemma keeps_modify (f : Hub → Hub) : (∀ h, h_docs (f h) = h_docs h) → keeps_docs (modify f).
Proof. intros Hf h. apply Hf. Qed.

Create HintDb keeps discriminated.
Ltac keep_step :=
  match goal with
  | |- keeps_docs _ => solve [eauto 2 with keeps]
  | |- keeps_docs (mret _) => apply keeps_ret
  | |- keeps_docs skip => apply keeps_ret
  | |- keeps_docs (get _) => apply keeps_get
  | |- keeps_docs (client _) => apply keeps_get
  | |- keeps_docs (spill _) => unfold spill
  | |- keeps_docs (_ ≫= _) => apply keeps_bind; [|intros ?]
  | |- keeps_docs (when _ _) => unfold when
  | |- keeps_docs (note _) => by intros ?
  | |- keeps_docs (set_client _ _) => by intros ?
  | |- keeps_docs (modify _) => apply keeps_modify; intros ?; by repeat case_match
  | |- keeps_docs (if ?b then _ else _) => destruct b
  | |- keeps_docs (match ?x with _ => _ end) => destruct x
  | |- keeps_docs (let _ := _ in _) => cbv zeta
  end.
Ltac keep := repeat keep_step.

Lemma keeps_enqueue w c f : keeps_docs (enqueue w c f).
Proof. unfold enqueue. keep. Qed.
Lemma keeps_add z : keeps_docs (add_snapshotBytes z).
Proof. by intros h. Qed.
Lemma keeps_clamp : keeps_docs clampSnapshotBytesLocked.
Proof. unfold clampSnapshotBytesLocked. keep. Qed.
#[export] Hint Resolve keeps_enqueue keeps_add keeps_clamp : keeps.
Lemma keeps_queueEvent w c e : keeps_docs (queueEvent w c e).
Proof. apply keeps_enqueue. Qed.
Lemma keeps_retain b : keeps_docs (retainSnapshotBlobLocked b).
Proof. unfold retainSnapshotBlobLocked. keep. Qed.
Lemma keeps_release b : keeps_docs (releaseSnapshotBlobLocked b).
Proof. unfold releaseSnapshotBlobLocked. keep. Qed.
#[export] Hint Resolve keeps_queueEvent keeps_retain keeps_release : keeps.
Lemma keeps_queue_snapshot w c j : keeps_docs (queueSnapshotLocked w c j).
Proof. unfold queueSnapshotLocked, releaseSnapshotJobLocked. keep. Qed.
Lemma keeps_token : keeps_docs nextDocTokenLocked.
Proof. unfold nextDocTokenLocked. keep. Qed.
#[export] Hint Resolve keeps_queue_snapshot keeps_token : keeps.
Lemma keeps_queue_all w cs e : keeps_docs (queue_all w cs e).
Proof. induction cs; simpl; keep. Qed.
Lemma keeps_queue_snapshots w cs j word : keeps_docs (queue_snapshots w cs j word).
Proof. induction cs; simpl; keep. Qed.
Lemma keeps_queue_notices w key ns : keeps_docs (queue_notices w key ns).
Proof. unfold queue_notices. induction ns as [|[c b] ns IH]; keep. Qed.
Lemma keeps_queue_updates w c key us : keeps_docs (queue_updates w c key us).
Proof. induction us; simpl; keep. Qed.
Lemma keeps_queue_token w c key token : keeps_docs (queue_token w c key token).
Proof. unfold queue_token. keep. Qed.
Lemma keeps_reject w c key token : keeps_docs (reject w c key token).
Proof. unfold reject. keep. Qed.
#[export] Hint Resolve keeps_queue_all keeps_queue_snapshots keeps_queue_notices keeps_queue_updates keeps_queue_token keeps_reject : keeps.

(** * What they say *)

Section Tell.
Context `{GoRev}.

Record says (P : list Happened → Prop) (h h' : Hub) : Prop := {
  sy_docs : h_docs h' = h_docs h;
  sy_base : base_ok h';
  sy_later : later h h';
  sy_trace : ∃ l, h_trace h' = h_trace h ++ l ∧ (∀ dk, uneventful dk l) ∧ P l;
}.

Lemma says_weaken (P Q : list Happened → Prop) h h' : (∀ l, P l → Q l) → says P h h' → says Q h h'.
Proof. intros HPQ [D B L (l & T & U & HP)]. split; [done..|]. exists l. auto. Qed.

Lemma says_refl h : base_ok h → says (λ l, l = []) h h.
Proof. intros Hb. split; [done|done|reflexivity|]. exists []. by rewrite app_nil_r. Qed.

Lemma says_trans P Q a b c : says P a b → says Q b c → says (λ l, ∃ l1 l2, l = l1 ++ l2 ∧ P l1 ∧ Q l2) a c.
Proof.
  intros [D1 B1 L1 (l1 & T1 & U1 & P1)] [D2 B2 L2 (l2 & T2 & U2 & P2)]. split; [congruence|done|by etrans|].
  exists (l1 ++ l2). rewrite T2, T1, app_assoc. split_and!; [done| |eauto]. intros dk. apply Forall_app_2; [apply U1|apply U2].
Qed.

(** Two things said of lists that only grow. *)
Lemma says_both (P Q : list Happened → Prop) a b c :
  (∀ l1 l2, P l1 → P (l1 ++ l2)) → (∀ l1 l2, Q l2 → Q (l1 ++ l2)) → says P a b → says Q b c → says (λ l, P l ∧ Q l) a c.
Proof.
  intros HP HQ H1 H2. eapply says_weaken; [|by eapply says_trans]. simpl. intros l (l1 & l2 & -> & ? & ?). auto.
Qed.

Lemma says_still {A} (m : St A) h : base_ok h → within None m → keeps_docs m → says (λ _, True) h (m h).1.
Proof.
  intros Hb Hw Hk. destruct (Hw h Hb) as [Hb' [Hl Hu]]. split; [apply Hk|done|done|]. destruct (lt_trace _ _ Hl) as [l Ht].
  exists l. split_and!; [done| |done]. intros dk. destruct (Hu dk ltac:(done)) as [_ (l' & Ht' & Hl') _].
  rewrite Ht in Ht'. by apply app_inv_head in Ht' as ->.
Qed.

Lemma known_later h h' c : later h h' → is_Some (h_clients h !! c) → is_Some (h_clients h' !! c).
Proof. intros Hl [cl Hc]. destruct (lt_clients _ _ Hl _ _ Hc) as (cl' & Hc' & _). by exists cl'. Qed.

(** A frame of a kind is on the queue, or was refused. *)
Definition heard_of (c : nat) (x : Happened) (l : list Happened) : Prop := x ∈ l ∨ Spilled c ∈ l.

Lemma heard_of_l c x l1 l2 : heard_of c x l1 → heard_of c x (l1 ++ l2).
Proof. unfold heard_of. rewrite !elem_of_app. tauto. Qed.
Lemma heard_of_r c x l1 l2 : heard_of c x l2 → heard_of c x (l1 ++ l2).
Proof. unfold heard_of. rewrite !elem_of_app. tauto. Qed.

Lemma enqueue_says w c f h : base_ok h → is_Some (h_clients h !! c) → says (heard_of c (sent_as h c f)) h (enqueue w c f h).1.
Proof.
  intros Hb [cl Hc]. destruct (says_still (enqueue w c f) h Hb (within_enqueue _ _ _ _) (keeps_enqueue _ _ _)) as [D B L (l & T & U & _)].
  split; [done..|]. exists l. split_and!; [done..|]. revert T. unfold enqueue, client. rewrite get_bind, Hc.
  destruct (_ && _); unfold spill, client, mbind, St_bind, get, note; simpl; rewrite ?Hc; simpl; intros T; apply app_inv_head in T as <-; [left|right]; [|by left].
  apply list_elem_of_singleton. by destruct f.
Qed.

Lemma event_says w c e h : base_ok h → is_Some (h_clients h !! c) → says (heard_of c (Sent c e)) h (queueEvent w c e h).1.
Proof. apply (enqueue_says w c (FEvent e)). Qed.

Lemma all_says w cs e : ∀ h, base_ok h → (∀ c, c ∈ cs → is_Some (h_clients h !! c)) →
  says (λ l, ∀ c, c ∈ cs → heard_of c (Sent c e) l) h (queue_all w cs e h).1.
Proof.
  induction cs as [|c cs IH]; intros h Hb Hcs.
  - eapply says_weaken; [|by apply says_refl]. intros l _ c Hc. by apply elem_of_nil in Hc.
  - simpl. unfold mbind, St_bind. pose proof (event_says w c e h Hb (Hcs c ltac:(left))) as H1.
    destruct (queueEvent w c e h) as [h1 ok]. simpl in H1. specialize (IH h1 (sy_base _ _ _ H1)).
    destruct (queue_all w cs e h1) as [h2 slow]. simpl in *. eapply says_weaken; [|eapply says_trans; [exact H1|apply IH]].
    + intros l (l1 & l2 & -> & Hl1 & Hl2) c' Hc'. apply elem_of_cons in Hc' as [-> |Hc']; [by apply heard_of_l|apply heard_of_r; auto].
    + intros c' Hc'. eapply known_later; [apply (sy_later _ _ _ H1)|]. apply Hcs. by right.
Qed.

Lemma says_bind {A B} P Q (m : St A) (k : A → St B) h :
  says P h (m h).1 → (∀ a h1, m h = (h1, a) → says P h h1 → says Q h1 (k a h1).1) →
  says (λ l, ∃ l1 l2, l = l1 ++ l2 ∧ P l1 ∧ Q l2) h ((m ≫= k) h).1.
Proof.
  intros Hm Hk. unfold mbind, St_bind. destruct (m h) as [h1 a] eqn:E. simpl in Hm. specialize (Hk a h1 eq_refl Hm).
  destruct (k a h1) as [h2 b]. simpl in *. by eapply says_trans.
Qed.

(** After, and before, something that only adds. *)
Lemma says_then {A B} (Q : list Happened → Prop) (m : St A) (k : A → St B) h :
  (∀ l1 l2, Q l2 → Q (l1 ++ l2)) → base_ok h → within None m → keeps_docs m →
  (∀ a h1, m h = (h1, a) → base_ok h1 → later h h1 → says Q h1 (k a h1).1) → says Q h ((m ≫= k) h).1.
Proof.
  intros HQ Hb Hw Hd Hk. eapply says_weaken; [|eapply (says_bind (λ _, True) Q); [by apply says_still|]].
  - intros l (l1 & l2 & -> & _ & ?). auto.
  - intros a h1 E Hs. apply Hk; [done|apply Hs|apply Hs].
Qed.

Lemma says_first {A B} (P : list Happened → Prop) (m : St A) (k : A → St B) h :
  (∀ l1 l2, P l1 → P (l1 ++ l2)) → says P h (m h).1 → (∀ a, within None (k a)) → (∀ a, keeps_docs (k a)) →
  says P h ((m ≫= k) h).1.
Proof.
  intros HP Hm Hw Hd. eapply says_weaken; [|eapply (says_bind P (λ _, True)); [done|]].
  - intros l (l1 & l2 & -> & ? & _). auto.
  - intros a h1 E Hs. apply says_still; [apply Hs|apply Hw|apply Hd].
Qed.

(** What is on the queue under a snapshot's name is its payload. *)
Definition snapshot_sent (c : nat) (j : Job) (payload : string) : Happened := SentSnapshot c (jo_id j) (jo_token j) payload (jo_tail j).

Lemma payload_later h h' b bl : later h h' → h_blobs h !! b = Some bl → blob_payload h' b = bl_payload bl.
Proof. intros Hl Hb. destruct (lt_blobs _ _ Hl _ _ Hb) as (bl' & Hb' & E). unfold blob_payload. by rewrite Hb'. Qed.

Lemma spilled_says c h : base_ok h → is_Some (h_clients h !! c) → says (λ l, Spilled c ∈ l) h (spill c h).1.
Proof.
  intros Hb [cl Hc]. destruct (says_still (spill c) h Hb ltac:(inside) ltac:(keep)) as [D B L _]. split; [done..|].
  assert (E : spill c h = note (Spilled c) h) by (unfold spill, client; by rewrite get_bind, Hc). rewrite E.
  exists [Spilled c]. split_and!; [done| |left]. intros dk. apply Forall_singleton; simpl; tauto.
Qed.

Lemma snapshot_says w c j bl h : base_ok h → is_Some (h_clients h !! c) → h_blobs h !! jo_blob j = Some bl →
  says (heard_of c (snapshot_sent c j (bl_payload bl))) h (queueSnapshotLocked w c j h).1.
Proof.
  intros Hb Hc Hbl. unfold queueSnapshotLocked. rewrite get_bind, Hbl. cbv zeta. rewrite get_bind.
  destruct (String.eqb _ _ || _).
  - apply says_first; [intros l1 l2; apply heard_of_l| |intros; inside|intros; keep].
    eapply says_weaken; [|by apply spilled_says]. intros l Hl. by right.
  - apply says_then; [intros l1 l2; apply heard_of_r|done|inside|keep|]. intros ? h1 E1 Hb1 L1.
    apply says_then; [intros l1 l2; apply heard_of_r|done|inside|keep|]. intros ? h2 E2 Hb2 L2.
    apply says_first; [intros l1 l2; apply heard_of_l| |intros []; inside|intros []; unfold releaseSnapshotJobLocked; keep].
    eapply says_weaken; [|apply (enqueue_says w c (FJob j) h2 Hb2)].
    + intros l. simpl. unfold snapshot_sent. by rewrite (payload_later h h2 _ bl) by (done || by etrans).
    + eapply known_later; [|exact Hc]. by etrans.
Qed.

Lemma snapshots_says w cs j word bl : ∀ h, base_ok h → (∀ c, c ∈ cs → is_Some (h_clients h !! c)) → 
  (∃ bl', h_blobs h !! jo_blob j = Some bl' ∧ bl_payload bl' = bl_payload bl) →
  says (λ l, ∀ c, c ∈ cs → heard_of c (snapshot_sent c j (bl_payload bl)) l) h (queue_snapshots w cs j word h).1.
Proof.
  induction cs as [|c cs IH]; intros h Hb Hcs (bl' & Hbl & E).
  - eapply says_weaken; [|by apply says_refl]. intros l _ c Hc. by apply elem_of_nil in Hc.
  - simpl. eapply says_weaken; [|eapply says_bind; [apply (snapshot_says w c j bl' h Hb (Hcs c ltac:(left)) Hbl)|]].
    2: { intros ok h1 Hok Hs. apply (says_then (λ l, ∀ c', c' ∈ cs → heard_of c' (snapshot_sent c' j (bl_payload bl)) l)); [intros l1 l2 Hl c' Hc'; apply heard_of_r; by apply Hl|apply Hs|destruct word; inside|destruct word; keep|].
         intros ok' h2 _ Hb2 L2. assert (L : later h h2) by (etrans; [apply Hs|done]). apply says_first; [| |intros; inside|intros; keep]. 2: apply (IH h2).
         - intros l1 l2 Hl c' Hc'. apply heard_of_l; auto.
         - exact Hb2.
         - intros c' Hc'. eapply known_later; [exact L|apply Hcs; by right].
         - destruct (lt_blobs _ _ L _ _ Hbl) as (bl2 & ? & ?). exists bl2. split; congruence. }
    intros l (l1 & l2 & -> & Hl1 & Hl2) c' Hc'. rewrite <- E in *.
    apply elem_of_cons in Hc' as [-> |Hc']; [by apply heard_of_l|apply heard_of_r; auto].
Qed.

(** A joiner is given the stored updates one by one. *)
Lemma updates_says w c key us : ∀ h, base_ok h → is_Some (h_clients h !! c) →
  says (λ l, Spilled c ∈ l ∨ ∀ u, u ∈ us → Sent c (DocUpdate key u EmptyString) ∈ l) h (queue_updates w c key us h).1.
Proof.
  induction us as [|u us IH]; intros h Hb Hc.
  - eapply says_weaken; [|by apply says_refl]. intros l _. right. intros u Hu. by apply elem_of_nil in Hu.
  - simpl. pose proof (event_says w c (DocUpdate key u EmptyString) h Hb Hc) as H1. 
    assert (Hbad : (queueEvent w c (DocUpdate key u EmptyString) h).2 = false →
      says (λ l, Spilled c ∈ l) h (queueEvent w c (DocUpdate key u EmptyString) h).1).
    { unfold queueEvent, enqueue, client. rewrite get_bind. destruct (h_clients h !! c) as [cl|] eqn:Ec; [|by destruct Hc]. destruct (_ && _); [done|].
      intros _. apply says_first; [intros l1 l2 ?; apply elem_of_app; by left|by apply spilled_says|intros; inside|intros; keep]. }
    unfold mbind, St_bind. destruct (queueEvent w c (DocUpdate key u EmptyString) h) as [h1 ok]. simpl in *.
    destruct ok; [|simpl; eapply says_weaken; [|by apply Hbad]; by left].
    assert (Hc1 : is_Some (h_clients h1 !! c)) by (eapply known_later; [apply H1|done]).
    specialize (IH h1 (sy_base _ _ _ H1) Hc1). eapply says_weaken; [|by eapply says_trans].
    intros l (l1 & l2 & -> & [Hl1|Hl1] & [Hl2|Hl2]); try (left; apply elem_of_app; tauto). right. intros u' Hu'.
    apply elem_of_app. apply elem_of_cons in Hu' as [-> |Hu']; [by left|right; auto].
Qed.
End Tell.

(** Through the next operation of a section, with what its [within] says. *)
Ltac run h1 a E W :=
  match goal with
  | Hb : base_ok ?h |- context [(?m ≫= ?k) ?h] =>
      let B := fresh "Hb" h1 in let T := fresh "Ht" h1 in
      destruct (W h Hb) as [B T]; destruct (m h) as [h1 a] eqn:E; rewrite (bind_run m k h h1 a E); simpl in B, T
  end.

Section Knowledge.
Context `{GoRev}.

(** * Knowledge along a section *)

Lemma knows_in {A} dk pred (m : St A) h : robust dk pred → within None m → base_ok h → knows dk pred h → knows dk pred (m h).1.
Proof.
  intros Hr Hm Hb Hk. destruct (Hm h Hb) as [_ [Hl Hu]]. eapply doc_with_rely; [done..|]. by apply Hu.
Qed.

Lemma knows_touches dk pred h h' : robust dk pred → touches None h h' → knows dk pred h → knows dk pred h'.
Proof. intros Hr [Hl Hu] Hk. eapply doc_with_rely; [done..|]. by apply Hu. Qed.

(** Of the session that is there. *)
Lemma knows_here dk (pred pred' : Session → list Happened → Prop) s h :
  h_docs h !! dk = Some s → (∀ t, pred s t → pred' s t) → knows dk pred h → knows dk pred' h.
Proof.
  intros Hs Hpp Hk s' Hs'. rewrite Hs in Hs'. injection Hs' as <-. destruct (Hk s Hs) as (uid & log & t & ? & ? & ?).
  exists uid, log, t. auto.
Qed.

Lemma knows_says P dk pred h h' : robust dk pred → says P h h' → knows dk pred h → knows dk pred h'.
Proof.
  intros Hr [D B L (l & T & U & _)] Hk s Hs. rewrite D in Hs. destruct (Hk s Hs) as (uid & log & t & Hsi & Hok & Hp).
  exists uid, log, (t ++ l). split_and!.
  - rewrite T. apply since_app; [|done]. apply dull_opens, uneventful_dull, U.
  - eapply doc_ok_alike; [done..|by apply uneventful_dull|reflexivity].
  - eapply Hr; [done|by left|done].
Qed.

(** What was said becomes known. *)
Lemma knows_said (P : list Happened → Prop) dk (pred pred' : Session → list Happened → Prop) h h' :
  (∀ s t l, pred s t → uneventful dk l → P l → pred' s (t ++ l)) → says P h h' → knows dk pred h → knows dk pred' h'.
Proof.
  intros Hpp [D B L (l & T & U & HP)] Hk s Hs. rewrite D in Hs. destruct (Hk s Hs) as (uid & log & t & Hsi & Hok & Hp).
  exists uid, log, (t ++ l). split_and!.
  - rewrite T. apply since_app; [|done]. apply dull_opens, uneventful_dull, U.
  - eapply doc_ok_alike; [done..|by apply uneventful_dull|reflexivity].
  - by apply Hpp.
Qed.

Lemma knows_members dk pred h s c : knows dk pred h → h_docs h !! dk = Some s → c ∈ ss_members s → is_Some (h_clients h !! c).
Proof. intros Hk Hs Hc. destruct (Hk s Hs) as (uid & log & t & _ & Hok & _). by apply (ds_members _ _ _ _ _ Hok). Qed.

End Knowledge.

(** Knowledge carried over an operation on no document. *)
Create HintDb sturdy discriminated.
#[export] Hint Resolve settled_sturdy frozen_ok_sturdy sturdy_and sturdy_robust : sturdy.
Ltac on_with Hk :=
  lazymatch type of Hk with
  | knows ?dk ?pred ?h =>
      lazymatch goal with
      | T : touches None h ?h' |- _ => apply (knows_touches dk pred h h') in Hk; [|solve [eauto 6 with sturdy]|exact T]
      end
  end.

Section Updates.
Context `{GoRev}.

(** * Asking for a snapshot *)

Definition up_to_date (c : nat) (dk : DocKey) (s : Session) (t : list Happened) : Prop := c ∈ ss_members s ∧ caught_up t c dk (ss_log s).

Lemma heard_sturdy c dk (us : Session → list string) :
  (∀ s s', akin s s' → us s' = us s) → sturdy dk (λ s t, c ∈ ss_members s → caught_up t c dk (us s)).
Proof.
  intros Hus s s' t l Hp Ha Hd Hc. rewrite (Hus s s' Ha). rewrite (al_members _ _ Ha) in Hc.
  apply caught_up_app; [by apply dull_joins|auto].
Qed.

Lemma up_to_date_sturdy c dk : sturdy dk (up_to_date c dk).
Proof.
  intros s s' t l [Hc Hu] Ha Hd. split; [by rewrite (al_members _ _ Ha)|]. rewrite (al_log _ _ Ha).
  apply caught_up_app; [by apply dull_joins|done].
Qed.

Lemma asked_dull dk uid token c : dull dk (Asked dk uid token c).
Proof. split_and!; [done|done|]. intros u. simpl. tauto. Qed.

Lemma begin_knows dk c now pred h :
  base_ok h → sturdy dk pred → (∀ s t, pred s t → up_to_date c dk s t) → knows dk pred h →
  knows dk pred (beginCompactionLocked dk c now h).1.
Proof.
  intros Hb Hst Hup Hk s' Hs'. destruct (within_begin dk c now h Hb) as [_ [Hl _]]. revert Hs' Hl.
  unfold beginCompactionLocked. destruct (nextDocTokenLocked h) as [h1 token] eqn:E1. rewrite (bind_run _ _ _ _ _ E1).
  rewrite session_bind. assert (Hd : h_docs h1 = h_docs h) by (injection E1 as <- _; done).
  assert (Ht : h_trace h1 = h_trace h) by (injection E1 as <- _; done). rewrite Hd.
  destruct (h_docs h !! dk) as [s|] eqn:Hs; [|simpl; rewrite Hd, Hs; done].
  simpl. rewrite Hd, lookup_alter_eq, Hs. simpl. intros [= <-] Hl.
  destruct (Hk s Hs) as (uid & log & t & Hsi & Hok & Hp). set (x := Asked dk (ss_uid s) token c).
  exists uid, log, (t ++ [x]). assert (Hx : Forall (dull dk) [x]) by apply Forall_singleton, asked_dull.
  assert (Ha : akin s (with_compacted true (with_compaction (Some (mkCompaction token c (length (ss_log s)) (now + docSnapshotTimeout) None)) s))) by by split.
  split_and!.
  - rewrite Ht. apply since_app; [by apply dull_opens|done].
  - destruct (Hup s t Hp) as [Hc Hcu].
    pose proof (doc_ok_alike _ _ _ s (cleared s) _ _ [x] Hok Hl Hx (alike_cleared s)) as [M Z L B Ba U K F]. split; try done.
    intros cp [= <-]. simpl. split_and!; [done|done| | |done].
    { intros Hsn. destruct (ss_snapshot s) as [b|] eqn:Eb; [|done]. destruct (Ba b Eb) as (? & ? & ? & El & _). simpl in El. rewrite El. simpl. lia. }
    rewrite take_ge by done. exists t, (ss_uid s), []. done.
  - by eapply Hst.
Qed.

(** A client over the line is asked, unless another's snapshot is under way. *)
Lemma token_knows w dk c s pred h :
  base_ok h → h_docs h !! dk = Some s → sturdy dk pred → (∀ s t, pred s t → up_to_date c dk s t) → knows dk pred h →
  knows dk pred (compaction_token w dk c s h).1.
Proof.
  intros Hb Hs Hst Hup Hk. unfold compaction_token. destruct (ss_compaction s); [done|].
  pose proof (begin_knows dk c (w_now w) pred h Hb Hst Hup Hk) as Hbk. unfold mbind, St_bind.
  by destruct (beginCompactionLocked dk c (w_now w) h).
Qed.

(** * An update *)

(** The update is the log's last; its sender knows it, the targets are the others
    and know all but it. *)
Record behind (dk : DocKey) (c : nat) (payload : string) (targets : list nat) (s : Session) (t : list Happened) : Prop := {
  bh_sender : up_to_date c dk s t;
  bh_targets : ∀ c', c' ∈ targets ↔ c' ∈ ss_members s ∧ c' ≠ c;
  bh_rest : ∃ us, ss_log s = us ++ [payload] ∧ ∀ c', c' ∈ targets → caught_up t c' dk us;
}.

Lemma behind_sturdy dk c payload targets : sturdy dk (behind dk c payload targets).
Proof.
  intros s s' t l [Hs Ht (us & Hl & Hr)] Ha Hd. split.
  - by eapply up_to_date_sturdy.
  - intros c'. by rewrite (al_members _ _ Ha).
  - exists us. rewrite (al_log _ _ Ha). split; [done|]. intros c' Hc'. apply caught_up_app; [by apply dull_joins|auto].
Qed.

Lemma others_elem c s c' : c' ∈ othersLocked c s ↔ c' ∈ ss_members s ∧ c' ≠ c.
Proof. unfold othersLocked. rewrite elem_of_elements. set_solver. Qed.

Lemma heard_update c dk u from l : heard_of c (Sent c (DocUpdate dk.2 u from)) l → has_heard c dk [u] l.
Proof.
  intros [Hin|Hs]; [right|by left]. intros u' Hu'. apply list_elem_of_singleton in Hu' as ->. apply Exists_exists.
  eexists. by split.
Qed.

Lemma uneventful_joins dk c l : uneventful dk l → Forall (λ x, joins c dk x = false) l.
Proof. intros Hl. by apply dull_joins, uneventful_dull. Qed.

(** The others are told. *)
Lemma relay_knows w dk c payload targets from (rest : Session → list Happened → Prop) h :
  base_ok h → robust dk rest → (∀ c', c' ∈ targets → is_Some (h_clients h !! c')) →
  knows dk (λ s t, behind dk c payload targets s t ∧ rest s t) h →
  knows dk (λ s t, (∀ c', c' ∈ ss_members s → caught_up t c' dk (ss_log s)) ∧ rest s t) (queue_all w targets (DocUpdate dk.2 payload from) h).1.
Proof.
  intros Hb Hr Hcl. eapply knows_said; [|by apply all_says]. simpl.
  intros s t l [[[Hc Hcu] Ht (us & Hl & Hrest)] Hre] Hu Hsaid. split; [|eapply Hr; [done|by left|done]]. intros c' Hc'.
  destruct (decide (c' = c)) as [-> |Hne].
  - apply caught_up_app; [by apply uneventful_joins|done].
  - rewrite Hl. assert (Hin : c' ∈ targets) by by apply Ht. apply caught_up_add; [by apply uneventful_joins|auto|].
    eapply heard_update. by apply Hsaid.
Qed.

(** The log with one more update is still one a sidecar can hold. *)
Lemma log_ok_snoc s payload :
  0 < len payload ≤ maxDocUpdateBytes → over_line s = false → ss_logBytes s = bytes (ss_log s) →
  log_ok (cd_snapshot (sidecarLocked s)) (ss_log s) → log_ok (cd_snapshot (sidecarLocked s)) (ss_log s ++ [payload]).
Proof.
  unfold over_line, deltaStatsLocked. simpl. intros Hp Hover Hby [Hb Hs Hd Hc Hbt].
  assert (Hu : ∀ u, u ∈ [payload] → u = payload) by (intros u; by rewrite list_elem_of_singleton).
  destruct (ss_snapshot s) as [b|].
  - destruct (Hb eq_refl) as (base & us & E). rewrite E in *. simpl in *. rewrite orb_false_iff, Z.ltb_ge, Z.leb_gt in Hover.
    split; simpl.
    + intros _. by eexists _, _.
    + intros u. rewrite elem_of_cons, elem_of_app. intros [-> |[Hin|Hin]]; [apply Hs; left|apply Hs; by right|].
      rewrite (Hu _ Hin). unfold maxDocSnapshotTotalBytes, maxDocUpdateBytes in *. lia.
    + intros u. rewrite elem_of_app. intros [Hin|Hin]; [auto|]. rewrite (Hu _ Hin). lia.
    + rewrite length_app. simpl. unfold maxDocDeltaEntries in *. lia.
    + rewrite bytes_app. simpl. lia.
  - assert (Hover' : (maxDocLogBytes <? ss_logBytes s) || (maxDocDeltaEntries <=? Z.of_nat (length (ss_log s))) = false) by by destruct (ss_log s).
    rewrite orb_false_iff, Z.ltb_ge, Z.leb_gt in Hover'. split; simpl in *.
    + done.
    + intros u. rewrite elem_of_app. intros [Hin|Hin]; [auto|]. rewrite (Hu _ Hin). unfold maxDocSnapshotTotalBytes, maxDocUpdateBytes in *. lia.
    + intros u. rewrite elem_of_app. intros [Hin|Hin]; [auto|]. rewrite (Hu _ Hin). lia.
    + rewrite length_app. simpl. unfold maxDocDeltaEntries in *. lia.
    + rewrite bytes_app. simpl. lia.
Qed.

Definition with_update (payload : string) (s : Session) : Session :=
  with_log (ss_log s ++ [payload]) (with_logBytes (ss_logBytes s + len payload) (with_generation (wrap64 (ss_generation s + 1)) s)).

Definition same_line (s0 : Session) (s : Session) (t : list Happened) : Prop := over_line s = over_line s0 ∧ ss_uid s = ss_uid s0.

Lemma same_line_sturdy dk s0 : sturdy dk (same_line s0).
Proof. intros s s' t l [E1 E2] Ha _. split; [by rewrite (akin_line s s')|]. by rewrite (al_uid _ _ Ha). Qed.

(** The update taken: it is in the log, and in the book. *)
Lemma accept_ok dk s c payload h log t :
  let x := Said c dk (ss_uid s) payload in
  0 < len payload ≤ maxDocUpdateBytes → frozen_ok dk s t → ss_frozen s = false → doc_ok h dk s log t →
  ∀ h', later h h' → doc_ok h' dk (with_update payload s) log (t ++ [x]).
Proof.
  intros x Hp Hfo Hfz [M Z L B Ba U K F] h' Hl. split; simpl; try done.
  - intros c' Hc'. eapply known_later; [done|auto].
  - by eapply leads_later.
  - rewrite B, bytes_app. simpl. lia.
  - intros b Hb. destruct (Ba b Hb) as (base & us & bl & E & Eb & Ep). destruct (lt_blobs _ _ Hl _ _ Eb) as (bl' & Eb' & Ep').
    exists base, (us ++ [payload]), bl'. rewrite E. split_and!; [done..|congruence].
  - intros cp Hcp. destruct (U cp Hcp) as (? & Hle & ? & Ha & ?). rewrite length_app, take_app_le by lia.
    split_and!; [done|lia|done|by apply asked_app|done].
  - intros u [Hu|Hu]; [|apply Exists_app in Hu as [Hu|Hu]].
    + destruct (K u) as [?|?]; [by left|left; apply elem_of_app; by left|right; by apply covered_app].
    + destruct (K u) as [?|?]; [by right|left; apply elem_of_app; by left|right; by apply covered_app].
    + left. apply Exists_cons in Hu as [[_ <-]|Hu]; [|by apply Exists_nil in Hu]. apply elem_of_app. right. by apply list_elem_of_singleton.
  - destruct F as [?|F]; [left; by apply thawed_app|]. destruct Hfo as [?|[?|Hov]]; [left; by apply thawed_app|congruence|].
    right. by apply log_ok_snoc.
Qed.

Lemma accept_knows dk s c payload h :
  let x := Said c dk (ss_uid s) payload in
  let h1 := put_trace (h_trace h ++ [x]) (put_docs (<[dk := with_update payload s]> (h_docs h)) h) in
  0 < len payload ≤ maxDocUpdateBytes → knows dk (settled dk) h → h_docs h !! dk = Some s → c ∈ ss_members s → ss_frozen s = false →
  knows dk (λ s' t, behind dk c payload (othersLocked c (with_update payload s)) s' t ∧ same_line (with_update payload s) s' t) h1.
Proof.
  intros x h1 Hp Hk Hs Hc Hfz s' Hs'. simpl in Hs'. rewrite lookup_insert_eq in Hs'. injection Hs' as <-.
  destruct (Hk s Hs) as (uid & log & t & Hsi & Hok & [Hh Hf]). exists uid, log, (t ++ [x]).
  assert (Hl : later h h1) by (split; simpl; eauto).
  assert (Hj : ∀ c', Forall (λ y, joins c' dk y = false) [x]) by (intros c'; by apply Forall_singleton).
  split_and!; [by apply since_app; [apply Forall_singleton|]|by apply (accept_ok dk s c payload h)| |done].
  split.
  - split; [done|]. apply (caught_up_add _ _ _ _ [payload]); [done|by apply Hh|]. right. intros u Hu.
    apply list_elem_of_singleton in Hu as ->. by left.
  - intros c'. rewrite others_elem. done.
  - exists (ss_log s). split; [done|]. intros c' Hc'. apply caught_up_app; [done|]. apply Hh. by apply others_elem in Hc' as [? _].
Qed.

(** What is known once an update was taken. *)
Definition after_take (dk : DocKey) (c : nat) (payload : string) (up : Updated) (s : Session) (t : list Happened) : Prop :=
  match up with
  | Finished _ => settled dk s t
  | Overflowed uid _ targets _ => behind dk c payload targets s t ∧ ss_uid s = uid
  end.

Lemma after_take_sturdy dk c payload up : sturdy dk (after_take dk c payload up).
Proof.
  destruct up; [apply settled_sturdy|]. intros s s' t l [? ?] Ha Hd. split; [by eapply behind_sturdy|]. by rewrite (al_uid _ _ Ha).
Qed.

Lemma settled_robust dk : robust dk (settled dk).
Proof. apply sturdy_robust, settled_sturdy. Qed.

Lemma member_sturdy dk c : sturdy dk (λ s _, c ∈ ss_members s).
Proof. intros s s' t l Hc Ha _. by rewrite (al_members _ _ Ha). Qed.

(** A member that is asked, when all is settled. *)
Lemma token_settled w dk c s h :
  base_ok h → h_docs h !! dk = Some s → c ∈ ss_members s → knows dk (settled dk) h → knows dk (settled dk) (compaction_token w dk c s h).1.
Proof.
  intros Hb Hs Hc Hk. eapply doc_with_weaken; [|apply (token_knows w dk c s (λ s t, settled dk s t ∧ c ∈ ss_members s) h Hb Hs)].
  - by intros ? ? [? _].
  - apply sturdy_and; [apply settled_sturdy|apply member_sturdy].
  - intros s' t [Hse Hc']. split; [done|]. by apply (st_heard _ _ _ Hse).
  - eapply knows_here; [done| |done]. auto.
Qed.

Lemma taken_sturdy dk c payload s1 :
  sturdy dk (λ s t, behind dk c payload (othersLocked c s1) s t ∧ same_line s1 s t).
Proof. apply sturdy_and; [apply behind_sturdy|apply same_line_sturdy]. Qed.

(** Within the line: relayed, and perhaps the sender is asked for a snapshot. *)
Lemma relay_settles w dk c payload s1 from h :
  base_ok h → over_line s1 = false → (∀ c', c' ∈ othersLocked c s1 → is_Some (h_clients h !! c')) →
  knows dk (λ s t, behind dk c payload (othersLocked c s1) s t ∧ same_line s1 s t) h →
  knows dk (settled dk) (queue_all w (othersLocked c s1) (DocUpdate dk.2 payload from) h).1.
Proof.
  intros Hb Hov Hcl Hk. eapply doc_with_weaken; [|eapply (relay_knows w dk c payload _ from (same_line s1)); [done| |exact Hcl|exact Hk]].
  - intros s t [Hh [E _]]. split; [done|]. right. right. congruence.
  - apply sturdy_robust, same_line_sturdy.
Qed.

Lemma take_knows w c dk payload h :
  0 < len payload ≤ maxDocUpdateBytes → base_ok h → knows dk (settled dk) h →
  knows dk (after_take dk c payload (take_update w c dk payload h).2) (take_update w c dk payload h).1.
Proof.
  intros Hp Hb Hk. unfold take_update. rewrite session_bind. destruct (h_docs h !! dk) as [s|] eqn:Hs; [|by intros s; simpl; rewrite Hs].
  case_bool_decide as Hc; [|done]. cbv beta iota delta [negb]. destruct (ss_frozen s) eqn:Hfz.
  - pose proof (token_settled w dk c s h Hb Hs Hc Hk) as Hk1.
    run h1 token E1 (within_compaction_token w dk c s). simpl in Hk1. run h2 ok E2 (within_queueEvent None w c (DocPersistenceError dk.2)).
    run h3 slow E3 (within_queue_token None w c dk.2 token). simpl. on_with Hk1. on_with Hk1. done.
  - fold (with_update payload s). set (s1 := with_update payload s).
    assert (Hk1 := accept_knows dk s c payload h Hp Hk Hs Hc Hfz). cbv zeta in Hk1. fold s1 in Hk1.
    set (h1 := put_trace (h_trace h ++ [Said c dk (ss_uid s) payload]) (put_docs (<[dk := s1]> (h_docs h)) h)) in *.
    run h2 u2 E2 (within_insert_session dk s1). run h3 u3 E3 (within_note (Some dk) (Said c dk (ss_uid s) payload) ltac:(by intros ? <-) ltac:(done) ltac:(tauto)).
    injection E2 as <- _. injection E3 as E3 _. change (h1 = h3) in E3. subst h3.
    assert (Hs1 : h_docs h1 !! dk = Some s1) by apply lookup_insert_eq.
    assert (Hup : ∀ s t, behind dk c payload (othersLocked c s1) s t ∧ same_line s1 s t → up_to_date c dk s t) by (by intros s' t [[] _]).
    destruct (deltaStatsLocked s1) as [count weight]. destruct (over_line s1) eqn:Hov.
    + pose proof (token_knows w dk c s1 _ h1 Hbh3 Hs1 (taken_sturdy dk c payload s1) Hup Hk1) as Hk2.
      run h4 token E4 (within_compaction_token w dk c s1). simpl. simpl in Hk2. eapply doc_with_weaken; [|exact Hk2].
      intros s' t [? [_ E]]. split; [done|]. rewrite E. done.
    + assert (Hk2 := λ now, begin_knows dk c now _ h1 Hbh3 (taken_sturdy dk c payload s1) Hup Hk1).
      match goal with |- context [(?m ≫= ?k) h1] => set (ask := m) end.
      assert (Hm : knows dk (λ s t, behind dk c payload (othersLocked c s1) s t ∧ same_line s1 s t) (ask h1).1).
      { unfold ask. destruct (ss_compaction s1); [done|]. destruct (_ || _); [|done]. specialize (Hk2 (w_now w)).
        unfold mbind, St_bind. by destruct (beginCompactionLocked dk c (w_now w) h1). }
      assert (Wa : within (Some dk) ask) by (unfold ask; inside).
      run h4 token E4 Wa. rewrite get_bind. simpl in Hm.
      assert (Hcl : ∀ c', c' ∈ othersLocked c s1 → is_Some (h_clients h4 !! c')).
      { intros c' [Hc' _]%others_elem. eapply known_later; [apply Hth4|]. apply (knows_members dk _ h s c' Hk Hs Hc'). }
      assert (Hk3 := relay_settles w dk c payload s1 (client_id h4 c) h4 Hbh4 Hov Hcl Hm).
      run h5 slow1 E5 (within_queue_all None w (othersLocked c s1) (DocUpdate dk.2 payload (client_id h4 c))).
      run h6 slow2 E6 (within_queue_token None w c dk.2 token). simpl. simpl in Hk3. clear Hth5. on_with Hk3. done.
Qed.

(** The update that crossed the line is relayed, and the document frozen. *)
Lemma freeze_knows w c dk uid payload targets token h :
  base_ok h → knows dk (after_take dk c payload (Overflowed uid (mkCard EmptyString [] false) targets token)) h →
  knows dk (settled dk) (freeze_after w c dk uid payload targets token h).1.
Proof.
  intros Hb Hk. unfold freeze_after. rewrite session_bind. destruct (h_docs h !! dk) as [s|] eqn:Hs; [|by intros s; simpl; rewrite Hs].
  destruct (Hk s Hs) as (u0 & log & t & Hsi & Hok & [Hbe Hu]). rewrite <- Hu, Nat.eqb_refl. cbv beta iota delta [negb].
  set (f := λ s, with_frozen true (with_degraded true s)). run h1 u1 E1 (within_set_session dk f).
  assert (Hk1 : knows dk (λ s t, behind dk c payload targets s t ∧ ss_frozen s = true) h1).
  { injection E1 as <- _. intros s' Hs'. simpl in Hs'. rewrite lookup_alter_eq, Hs in Hs'. injection Hs' as <-.
    exists u0, log, t. split_and!; [done| |by destruct Hbe|done]. destruct Hok. by split. }
  rewrite get_bind. assert (Hcl : ∀ c', c' ∈ targets → is_Some (h_clients h1 !! c')).
  { intros c' [Hc' _]%(bh_targets _ _ _ _ _ _ Hbe). eapply known_later; [apply Hth1|]. by apply (ds_members _ _ _ _ _ Hok). }
  assert (Hk2 : knows dk (settled dk) (queue_all w targets (DocUpdate dk.2 payload (client_id h1 c)) h1).1).
  { eapply doc_with_weaken; [|eapply (relay_knows w dk c payload targets _ (λ s _, ss_frozen s = true)); [done| |exact Hcl|exact Hk1]].
    - intros s' t' [Hh Hf]. split; [done|]. right. by left.
    - intros s' s'' t' l Hf [-> | ->] _; done. }
  run h2 slow1 E2 (within_queue_all None w targets (DocUpdate dk.2 payload (client_id h1 c))). clear Hth2.
  run h3 slow2 E3 (within_queue_token None w c dk.2 token). run h4 slow3 E4 (within_queue_all None w (allLocked s) (DocPersistenceError dk.2)).
  simpl. simpl in Hk2. on_with Hk2. on_with Hk2. done.
Qed.

(** * The program *)

(** Out of turn there is nothing to mind. *)
Definition calm {A} (m : M A) : Prop := ok_spec None None (λ _, True) m (λ _ _, True).

Lemma calm_bind {A B} (m : M A) (f : A → M B) : calm m → (∀ a, calm (f a)) → calm (m ≫= f).
Proof. intros Hm Hf. eapply spec_bind; [exact Hm|]. intros a. apply Hf. Qed.

Lemma calm_ret {A} (a : A) : calm (mret a).
Proof. by apply spec_ret. Qed.

Lemma calm_await x : calm (await x).
Proof. by apply spec_await. Qed.

Lemma calm_call t : calm (call t).
Proof. by apply spec_call. Qed.

Lemma calm_sec {A} (f : World → St A) : (∀ w, within None (f w)) → calm (sec f).
Proof. apply spec_out. Qed.

Lemma calm_each {A} (f : A → M unit) xs : (∀ x, calm (f x)) → calm (each f xs).
Proof. intros Hf. apply spec_each. intros x _. apply Hf. Qed.

(** A block of the turn's: everything in it keeps the document settled. *)
Definition in_turn {A} (dk : DocKey) (m : M A) : Prop :=
  ok_spec (Some dk) (Some dk) (knows dk (settled dk)) m (λ _, knows dk (settled dk)).

Lemma in_turn_bind {A B} dk (m : M A) (f : A → M B) : in_turn dk m → (∀ a, in_turn dk (f a)) → in_turn dk (m ≫= f).
Proof. intros Hm Hf. eapply spec_bind; [exact Hm|]. intros a. apply Hf. Qed.

Lemma in_turn_ret {A} dk (a : A) : in_turn dk (mret a).
Proof. by apply spec_ret. Qed.

(** What comes first leaves the document settled, and then it is given back. *)
Lemma then_given {A B} dk P (m : M A) (f : A → M B) :
  ok_spec (Some dk) (Some dk) P m (λ _, knows dk (settled dk)) → (∀ a, calm (f a)) →
  ok_spec (Some dk) None P (a ← m; _ ← yield_turn dk; f a) (λ _ _, True).
Proof.
  intros Hm Hf. eapply spec_bind; [exact Hm|]. intros x. cbv beta. eapply spec_bind; [apply spec_given|]. intros ?. apply Hf.
Qed.

(** One section, of which only the outcome is looked at. *)
Lemma in_turn_sec {A} dk (f : World → St A) :
  (∀ w, within (Some dk) (f w)) →
  (∀ w h s, base_ok h → knows dk (settled dk) h → h_docs h !! dk = Some s → knows dk (settled dk) (f w h).1) →
  (∀ w h, h_docs h !! dk = None → h_docs (f w h).1 !! dk = None) → in_turn dk (sec f).
Proof.
  intros Hw Hf Hn. apply (spec_doc dk (settled dk) f (λ _, settled dk)); [apply settled_robust|done|].
  intros w h Hb Hk. split; [|apply Hn]. destruct (h_docs h !! dk) as [s|] eqn:E; [by eapply Hf|].
  intros s Hs. by rewrite (Hn w h E) in Hs.
Qed.

Lemma in_turn_none {A} dk (f : World → St A) : (∀ w, within None (f w)) → in_turn dk (sec f).
Proof. intros Hw. apply (spec_in dk (settled dk) f); [apply settled_robust|done]. Qed.

Lemma in_turn_mild {A} dk (f : World → St A) : (∀ w, within (Some dk) (f w)) → (∀ w, gently dk (f w)) → in_turn dk (sec f).
Proof. apply (spec_mild dk (settled dk) f), settled_sturdy. Qed.

(** The turn taken, the block, the turn given back. *)
Lemma calm_block {A B} dk (m : M A) (f : A → M B) : in_turn dk m → (∀ a, calm (f a)) →
  calm (_ ← turn dk; a ← m; _ ← yield_turn dk; f a).
Proof.
  intros Hm Hf. eapply spec_bind; [apply spec_taken|]. intros _u. eapply spec_bind; [exact Hm|]. intros x. cbv beta.
  eapply spec_bind; [apply spec_given|]. intros ?. apply Hf.
Qed.

Lemma sendTo_calm c e : calm (sendTo c e).
Proof.
  unfold sendTo. apply calm_bind; [apply calm_sec; intros w; inside|]. intros []; [apply calm_ret|apply calm_call].
Qed.
Lemma remove_all_calm slow : calm (remove_all slow).
Proof. apply calm_each. intros c. apply calm_call. Qed.
Lemma place_of_calm c : calm (place_of c).
Proof. apply calm_sec. intros w. inside. Qed.

(** * The program *)

Lemma docUpdate_calm c key payload : 0 < len payload ≤ maxDocUpdateBytes → calm (docUpdate c key payload).
Proof.
  intros Hp. unfold docUpdate. apply calm_bind; [apply place_of_calm|]. intros [room actor]. set (dk := (room, key)). cbv zeta.
  eapply spec_bind; [apply (spec_taken dk)|]. intros ?. cbv beta. eapply spec_bind.
  { apply (spec_doc dk (settled dk) _ (after_take dk c payload)); [apply settled_robust|intros w; apply within_take|].
    intros w h Hb Hk. split; [by apply take_knows|]. intros Hn. unfold take_update. by rewrite session_bind, Hn. }
  intros up. cbv beta. apply then_given.
  - destruct up as [slow|uid card targets token]; [by apply spec_ret|]. eapply spec_bind.
    { apply (spec_mild dk); [apply after_take_sturdy|intros w; apply within_persist|intros w; apply gently_persist]. }
    intros ok. cbv beta. apply (spec_doc dk _ _ (λ _, settled dk)); [apply sturdy_robust, after_take_sturdy|intros w; apply within_freeze|].
    intros w h Hb Hk. split; [by apply freeze_knows|]. intros Hn. unfold freeze_after. by rewrite session_bind, Hn.
  - apply remove_all_calm.
Qed.
End Updates.

Create HintDb calm discriminated.
#[export] Hint Resolve up_to_date_sturdy behind_sturdy same_line_sturdy after_take_sturdy member_sturdy : sturdy.
#[export] Hint Resolve sendTo_calm remove_all_calm place_of_calm docUpdate_calm : calm.
Ltac stroll_step :=
  match goal with
  | |- calm _ => solve [eauto 2 with calm]
  | |- calm (mret _) => apply calm_ret
  | |- calm nothing => apply calm_ret
  | |- calm (_ ≫= _) => apply calm_bind; [|intros ?]
  | |- calm (sec _) => apply calm_sec; intros ?; inside
  | |- calm (await _) => apply calm_await
  | |- calm (call _) => apply calm_call
  | |- calm (each _ _) => apply calm_each; intros ?
  | |- calm (if ?b then _ else _) => destruct b
  | |- calm (match ?x with _ => _ end) => destruct x
  | |- calm (let _ := _ in _) => cbv zeta
  end.
Ltac stroll := repeat stroll_step.
