(* ===== verification/LiveMembers.v ===== *)
(** Joins: the session a document is opened with, and what a new member is
    told; leaves: who leads then, and what becomes of an upload that was under
    way.

    What is done in a document's turn besides: saving and the warnings, empty
    sessions that go, recovery, flushes. *)

From S2P Require Import Prelude GoStr Roles Sidecar SidecarFacts Live LiveDocs LiveOps LiveHub LivePool LiveFacts LiveInv LiveUpdates.
Open Scope Z_scope.

Section Members.
Context `{GoRev}.

(** * A new session *)

(** What recovery hands over is a log a session may have. *)
Definition recovered_ok (rc : Recovered) : Prop :=
  log_ok (rc_snapshot rc && match rc_updates rc with [] => false | _ => true end) (rc_updates rc).

Definition fresh_session (s : Session) (t : list Happened) : Prop := ss_members s = ∅ ∧ t = [].

(** The session recovery and its snapshot make. *)
Definition opened_session (uid : nat) (rc : Recovered) (snapshot : option nat) : Session :=
  let s := mkSession uid ∅ None (rc_updates rc) (bytes (rc_updates rc)) 0 false false false None EmptyString 0 (rc_rev rc) None snapshot in
  with_frozen (over_line s) (with_degraded (over_line s) s).

Lemma opened_ok h dk uid rc snapshot :
  recovered_ok rc →
  (match snapshot with
   | Some b => rc_snapshot rc = true ∧ ∃ base us bl, rc_updates rc = base :: us ∧ h_blobs h !! b = Some bl ∧ bl_payload bl = base
   | None => rc_snapshot rc && match rc_updates rc with [] => false | _ => true end = false
   end) → doc_ok h dk (opened_session uid rc snapshot) (rc_updates rc) [].
Proof.
  intros Hrc Hs. split; simpl; try done.
  - intros b [= ->]. by destruct Hs.
  - intros u [Hu|Hu]; [by left|by apply Exists_nil in Hu].
  - right. unfold recovered_ok in Hrc. destruct snapshot as [b|].
    + destruct Hs as (E & base & us & bl & Eu & _). by rewrite E, Eu in *.
    + by rewrite Hs in Hrc.
Qed.

(** The snapshot of a stored log, by whoever pays for it. *)
Definition base_blob (dk : DocKey) (rc : Recovered) (base : string) : St (option nat) :=
  b ← new_blob base (if rc_reserved rc =? 0 then O else 1%nat);
  _ ← (if rc_reserved rc =? 0 then retainSnapshotBlobLocked b else modify (λ h, put_recovering (delete dk (h_recovering h)) h));
  mret (Some b).

Lemma base_blob_spec dk rc base h : base_ok h → ∃ b bl,
  (base_blob dk rc base h).2 = Some b ∧ h_blobs (base_blob dk rc base h).1 !! b = Some bl ∧ bl_payload bl = base
  ∧ h_docs (base_blob dk rc base h).1 = h_docs h.
Proof.
  intros Hb. unfold base_blob. run h1 b E1 (within_new_blob (Some dk) base (if rc_reserved rc =? 0 then O else 1%nat)).
  assert (Hbl : ∃ bl, h_blobs h1 !! b = Some bl ∧ bl_payload bl = base).
  { injection E1 as <- <-. simpl. rewrite lookup_insert_eq. eexists. by split. }
  assert (Hd : h_docs h1 = h_docs h) by (by injection E1 as <- _).
  set (pay := (if rc_reserved rc =? 0 then retainSnapshotBlobLocked b else modify (λ h, put_recovering (delete dk (h_recovering h)) h)) : St unit).
  assert (Wp : within (Some dk) pay) by (unfold pay; inside; apply within_unreserve).
  assert (Kp : keeps_docs pay) by (unfold pay; keep). specialize (Kp h1).
  run h2 u2 E2 Wp. simpl in *. destruct Hbl as (bl & Hbl & Ep). destruct (lt_blobs _ _ (to_later _ _ _ Hth2) _ _ Hbl) as (bl' & Hbl' & Ep').
  exists b, bl'. split_and!; [done|done|congruence|congruence].
Qed.

Lemma create_knows dk rc h :
  base_ok h → h_docs h !! dk = None → recovered_ok rc →
  if (create_session dk rc h).2 then
    (∃ s, h_docs (create_session dk rc h).1 = <[dk := s]> (h_docs h)) ∧ knows dk (settled dk) (create_session dk rc h).1
  else h_docs (create_session dk rc h).1 = h_docs h.
Proof.
  intros Hb Hn Hrc. unfold create_session. cbv zeta. rewrite get_bind.
  set (based := rc_snapshot rc && match rc_updates rc with [] => false | _ => true end).
  set (base := match rc_updates rc with u :: _ => u | [] => EmptyString end).
  destruct (based && _ && _); [done|]. run h1 uid E1 (within_fresh (Some dk)).
  assert (Hd1 : h_docs h1 = h_docs h) by (by injection E1 as <- _).
  assert (Hm : ∃ h2 snapshot, (if based then base_blob dk rc base else mret None) h1 = (h2, snapshot)
    ∧ h_docs h2 = h_docs h1 ∧ doc_ok h2 dk (opened_session uid rc snapshot) (rc_updates rc) []).
  { destruct based eqn:Eb.
    - destruct (base_blob_spec dk rc base h1 Hbh1) as (b & bl & E2 & Hbl & Ep & Hd). destruct (base_blob dk rc base h1) as [h2 sn].
      simpl in *. subst sn. exists h2, (Some b). split_and!; [done..|]. apply opened_ok; [done|].
      unfold based in Eb. apply andb_true_iff in Eb as [Er Eu]. split; [done|]. unfold base in Ep.
      destruct (rc_updates rc) as [|u us]; [done|]. by exists u, us, bl.
    - exists h1, None. split_and!; [done..|]. by apply opened_ok. }
  destruct Hm as (h2 & snapshot & E2 & Hd2 & Hok). rewrite (bind_run _ _ _ _ _ E2).
  fold (opened_session uid rc snapshot). simpl. split.
  - eexists. by rewrite Hd2, Hd1.
  - intros s Hs. simpl in Hs. rewrite lookup_insert_eq in Hs. injection Hs as <-. exists uid, (rc_updates rc), [].
    split_and!.
    + simpl. rewrite since_snoc. simpl. by rewrite bool_decide_true.
    + destruct Hok. by split.
    + split; [done|]. right. simpl. destruct (over_line _) eqn:Eo; [by left|by right].
Qed.

(** * A new member *)

(** Just in: the others have heard the log, the new member nothing yet. *)
Record joining (dk : DocKey) (c : nat) (s0 : Session) (s : Session) (t : list Happened) : Prop := {
  jn_member : c ∈ ss_members s;
  jn_others : ∀ c', c' ∈ ss_members s → c' ≠ c → caught_up t c' dk (ss_log s);
  jn_since : ∃ e t', since (joins c dk) t = Some (e, t');
  jn_frozen : frozen_ok dk s t;
  jn_log : ss_log s = ss_log s0;
  jn_snapshot : ss_snapshot s = ss_snapshot s0;
  jn_upload : ss_compaction s = ss_compaction s0 ∨ ss_compaction s = None;
}.

Lemma joining_robust dk c s0 : robust dk (joining dk c s0).
Proof.
  intros s s' t l [Hm Ho (e & t' & Hs) Hf Hl Hb Hu] He Hd.
  assert (Ha : alike s s') by (destruct He as [-> | ->]; [reflexivity|apply alike_cleared]). destruct Ha as [Ha Hup]. split.
  - by rewrite (al_members _ _ Ha).
  - intros c'. rewrite (al_members _ _ Ha), (al_log _ _ Ha). intros Hc' Hne. apply caught_up_app; [by apply uneventful_joins|auto].
  - exists e, (t' ++ l). apply since_app; [by apply uneventful_joins|done].
  - eapply frozen_ok_sturdy; [exact Hf|exact Ha|by apply uneventful_dull].
  - by rewrite (al_log _ _ Ha).
  - by rewrite (al_snapshot _ _ Ha).
  - destruct Hup as [E|E]; rewrite E; [exact Hu|by right].
Qed.

Lemma alter_is_insert (docs : gmap DocKey Session) dk f s : docs !! dk = Some s → alter f dk docs = <[dk := f s]> docs.
Proof. intros Hs. apply map_eq. intros k. rewrite lookup_alter, lookup_insert. case_decide; [subst; by rewrite Hs|done]. Qed.

Lemma robust_and dk pred pred' : robust dk pred → robust dk pred' → robust dk (λ s t, pred s t ∧ pred' s t).
Proof. intros H1 H2 s s' t l [? ?] ? ?. split; [by eapply H1|by eapply H2]. Qed.

(** The seat taken. *)
Definition seated (c : nat) (leader : option nat) (s : Session) : Session :=
  with_leader leader (with_members ({[c]} ∪ ss_members s) (with_emptyAt None (with_emptiedBy EmptyString s))).

Lemma seated_knows dk c s h :
  base_ok h → is_Some (h_clients h !! c) → knows dk (settled dk) h → h_docs h !! dk = Some s →
  (c ∈ ss_members s ∨ Z.of_nat (size (ss_members s)) < maxDocParticipants) →
  let s1 := seated c (elect h ({[c]} ∪ ss_members s)) s in
  let h1 := put_trace (h_trace h ++ [Joined c dk (ss_uid s)]) (put_docs (<[dk := s1]> (h_docs h)) h) in
  knows dk (joining dk c s) h1.
Proof.
  intros Hb Hc Hk Hs Hroom s1 h1 s' Hs'. simpl in Hs'. rewrite lookup_insert_eq in Hs'. injection Hs' as <-.
  destruct (Hk s Hs) as (uid & log & t & Hsi & [M Z L B Ba U K F] & [Hh Hf]). set (x := Joined c dk (ss_uid s)).
  assert (Hx : ∀ c', c' ≠ c → Forall (λ y, joins c' dk y = false) [x]).
  { intros c' Hne. apply Forall_singleton. apply bool_decide_eq_false. naive_solver. }
  exists uid, log, (t ++ [x]). split_and!.
  - simpl. apply since_app; [by apply Forall_singleton|done].
  - split; simpl; try done.
    + intros c' Hc'. apply elem_of_union in Hc' as [Hc'|Hc']; [by apply elem_of_singleton in Hc' as ->|auto].
    + destruct Hroom as [Hin|Hlt].
      * assert ({[c]} ∪ ss_members s = ss_members s) as -> by set_solver. done.
      * destruct (decide (c ∈ ss_members s)) as [Hin|Hn].
        { assert ({[c]} ∪ ss_members s = ss_members s) as -> by set_solver. done. }
        rewrite size_union, size_singleton by set_solver. lia.
    + pose proof (elect_leads h ({[c]} ∪ ss_members s)) as He. unfold leads in *. destruct (elect _ _); done.
    + intros cp Hcp. destruct (U cp Hcp) as (? & ? & ? & ? & ?). split_and!; [set_solver|done|done|by apply asked_app|done].
    + intros u Hu. destruct (K u) as [?|?]; [|by left|right; by apply covered_app]. eapply accepted_silent; [|exact Hu].
      apply Forall_singleton. simpl. tauto.
    + destruct F as [?|?]; [left; by apply thawed_app|by right].
  - split; simpl.
    + set_solver.
    + intros c' Hc' Hne. apply caught_up_app; [by apply Hx|]. apply Hh. set_solver.
    + exists x, []. rewrite since_snoc. simpl. by rewrite bool_decide_true.
    + destruct Hf as [?|?]; [left; by apply thawed_app|by right].
    + done.
    + done.
    + by left.
Qed.

(** What the new member is given is the log. *)
Lemma caught_in dk c s0 s t l : joining dk c s0 s t → uneventful dk l → has_heard c dk (ss_log s0) l → settled dk s (t ++ l).
Proof.
  intros [Hm Ho (e & t' & Hs) Hf Hl Hb _] Hu Hh. split.
  - intros c' Hc'. destruct (decide (c' = c)) as [-> |Hne]; [|apply caught_up_app; [by apply uneventful_joins|auto]].
    exists e, (t' ++ l). split; [apply since_app; [by apply uneventful_joins|done]|]. rewrite Hl.
    apply (has_heard_add c dk [] (ss_log s0)); [apply has_heard_nil|done].
  - eapply frozen_ok_sturdy; [exact Hf|reflexivity|by apply uneventful_dull].
Qed.

(** The one who leads now is a member. *)
Definition led (leader : option nat) (s : Session) (t : list Happened) : Prop := ∀ l, leader = Some l → l ∈ ss_members s.

Lemma led_sturdy dk leader : sturdy dk (led leader).
Proof. intros s s' t l Hp Ha _ b Hb. rewrite (al_members _ _ Ha). auto. Qed.

(** The log, as it is sent to the one who joins. *)
Definition send_log (w : World) (c : nat) (key : string) (s : Session) : St (list nat) :=
  match ss_snapshot s with
  | Some b =>
      token ← nextDocTokenLocked;
      sent ← queueSnapshotLocked w c (mkJob key token EmptyString b (tail (ss_log s)));
      mret (slow_if sent c)
  | None => sent ← queue_updates w c key (ss_log s); mret (slow_if sent c)
  end.

Lemma send_log_within D w c key s : within D (send_log w c key s).
Proof. unfold send_log. inside. Qed.

Lemma send_log_says w c dk s h :
  base_ok h → is_Some (h_clients h !! c) →
  (∀ b, ss_snapshot s = Some b → ∃ base us bl, ss_log s = base :: us ∧ h_blobs h !! b = Some bl ∧ bl_payload bl = base) →
  says (has_heard c dk (ss_log s)) h (send_log w c dk.2 s h).1.
Proof.
  intros Hb Hc Hbase. unfold send_log. destruct (ss_snapshot s) as [b|].
  - destruct (Hbase b eq_refl) as (base & us & bl & El & Ebl & Ep).
    apply says_then; [intros l1 l2; rewrite <- (app_nil_l (ss_log s)); apply has_heard_add, has_heard_nil|done|inside|keep|].
    intros token h1 _ Hb1 L1. destruct (lt_blobs _ _ L1 _ _ Ebl) as (bl1 & Ebl1 & Ep1).
    apply says_first; [intros l1 l2; apply has_heard_app| |intros; inside|intros; keep].
    eapply says_weaken; [|apply (snapshot_says w c (mkJob dk.2 token EmptyString b (tail (ss_log s))) bl1 h1 Hb1)]; [|by eapply known_later|done].
    intros l [Hin|Hs]; [right|by left]. intros u Hu. apply Exists_exists. eexists. split; [exact Hin|]. rewrite El in Hu |- *. simpl.
    split_and!; [done..|]. apply elem_of_cons in Hu as [-> |Hu]; [left; congruence|by right].
  - apply says_first; [intros l1 l2; apply has_heard_app| |intros; inside|intros; keep].
    eapply says_weaken; [|by apply updates_says]. intros l [Hs|Hin]; [by left|right]. intros u Hu. apply Exists_exists.
    eexists. split; [by apply Hin|]. done.
Qed.

(** A frozen document's leader is asked for a snapshot. *)
Lemma ask_leader_knows w dk (s : Session) (leader : option nat) h :
  base_ok h → knows dk (λ s t, settled dk s t ∧ led leader s t) h →
  knows dk (settled dk) (match (if ss_frozen s then leader else None) with
    | Some l =>
        token ← match ss_compaction s with
                | Some cp => mret (cp_token cp)
                | None => beginCompactionLocked dk l (w_now w)
                end;
        sent ← queueEvent w l (DocCompact dk.2 token); mret (slow_if sent l)
    | None => mret []
    end h).1.
Proof.
  intros Hb Hk. assert (Hk0 : knows dk (settled dk) h) by (eapply doc_with_weaken; [|exact Hk]; by intros ? ? [? _]).
  destruct (ss_frozen s); [|done]. destruct leader as [l|]; [|done].
  set (pick := match ss_compaction s with Some cp => mret (cp_token cp) | None => beginCompactionLocked dk l (w_now w) end).
  assert (Wp : within (Some dk) pick) by (unfold pick; inside).
  assert (Hk1 : knows dk (settled dk) (pick h).1).
  { unfold pick. destruct (ss_compaction s); [done|]. eapply doc_with_weaken; [|apply (begin_knows dk l (w_now w) _ h Hb)]; [| | |exact Hk].
    - by intros ? ? [? _].
    - apply sturdy_and; [apply settled_sturdy|apply led_sturdy].
    - intros s' t [Hse Hle]. specialize (Hle l eq_refl). split; [done|]. by apply (st_heard _ _ _ Hse). }
  run h1 token E1 Wp. simpl in Hk1. run h2 sent E2 (within_queueEvent None w l (DocCompact dk.2 token)). on_with Hk1. done.
Qed.

Lemma join_session_knows w c dk h :
  base_ok h → is_Some (h_clients h !! c) → knows dk (settled dk) h →
  (∀ s, h_docs h !! dk = Some s → c ∈ ss_members s ∨ Z.of_nat (size (ss_members s)) < maxDocParticipants) →
  knows dk (settled dk) (join_session w c dk h).1.
Proof.
  intros Hb Hc Hk Hroom. unfold join_session. rewrite session_bind. destruct (h_docs h !! dk) as [s|] eqn:Hs; [|by intros s; simpl; rewrite Hs].
  pose proof (seated_knows dk c s h Hb Hc Hk Hs (Hroom s eq_refl)) as Hk1. cbv zeta in Hk1. cbv zeta.
  set (h0 := put_trace _ _) in Hk1.
  run h1 u1 E1 (within_set_session dk (λ s, with_members ({[c]} ∪ ss_members s) (with_emptyAt None (with_emptiedBy EmptyString s)))).
  run h2 u2 E2 (within_elect dk). run h3 u3 E3 (within_note (Some dk) (Joined c dk (ss_uid s)) ltac:(by intros ? <-) ltac:(done) ltac:(tauto)).
  assert (h3 = h0) as ->.
  { injection E1 as <- _. injection E2 as <- _. injection E3 as <- _. unfold h0. simpl.
    rewrite (alter_is_insert _ _ _ _ Hs), (alter_is_insert _ _ _ _ (lookup_insert_eq _ _ _)), insert_insert_eq. done. }
  rewrite get_bind. set (leader := s' ← h_docs h0 !! dk; ss_leader s'). fold (send_log w c dk.2 s).
  assert (Hk2 : knows dk (λ s' t, joining dk c s s' t ∧ led leader s' t) h0).
  { eapply knows_here; [apply lookup_insert_eq| |exact Hk1]. intros t Hj. split; [done|]. intros l Hl. unfold leader, h0 in Hl. simpl in Hl.
    rewrite lookup_insert_eq in Hl. simpl in Hl. pose proof (elect_leads h ({[c]} ∪ ss_members s)) as He. rewrite Hl in He. apply He. }
  run h4 ok E4 (within_queueEvent None w c (DocState dk.2 (bool_decide (ss_members s = ∅) && match ss_log s with [] => true | _ => false end) (bool_decide (leader = Some c)))).
  apply (knows_touches _ _ _ _ (robust_and _ _ _ (joining_robust dk c s) (sturdy_robust _ _ (led_sturdy dk leader))) Hth4) in Hk2.
  assert (L04 : later h h4) by (etrans; [|apply Hth4]; etrans; [|apply Hth3]; etrans; [apply Hth1|apply Hth2]).
  assert (Hc4 : is_Some (h_clients h4 !! c)) by (by eapply known_later).
  assert (Hk5 : knows dk (λ s t, settled dk s t ∧ led leader s t) (send_log w c dk.2 s h4).1).
  { eapply knows_said; [|apply (send_log_says w c dk s h4 Hbh4 Hc4)|exact Hk2].
    - intros s' t l [Hj Hle] Hu Hh. split; [by eapply caught_in|done].
    - intros b Eb. destruct (Hk s Hs) as (? & ? & ? & _ & Hok & _). destruct (ds_base _ _ _ _ _ Hok b Eb) as (base & us & bl & El & Ebl & Ep).
      destruct (lt_blobs _ _ L04 _ _ Ebl) as (bl' & Ebl' & Ep'). exists base, us, bl'. split_and!; [done..|congruence]. }
  run h5 slow1 E5 (send_log_within None w c dk.2 s). simpl in Hk5.
  match goal with |- context [(?m ≫= _) h5] => set (warn := m); assert (Ww : within None warn) by (unfold warn; inside) end.
  run h6 slow2 E6 Ww. apply (knows_touches _ _ _ _ (sturdy_robust _ _ (sturdy_and _ _ _ (settled_sturdy dk) (led_sturdy dk leader))) Hth6) in Hk5.
  match goal with |- context [(?m ≫= _) h6] => set (ask := m); assert (Wa : within (Some dk) ask) by (unfold ask; inside) end.
  assert (Hk7 : knows dk (settled dk) (ask h6).1).
  { unfold ask. apply ask_leader_knows; [done|exact Hk5]. }
  run h7 slow3 E7 Wa. simpl in Hk7.
  run h8 slow4 E8 (within_queue_notices None w dk.2 (leaderNotices (ss_leader s) c (with_leader leader (with_members ({[c]} ∪ ss_members s) s)))).
  simpl. on_with Hk7. done.
Qed.

Lemma release_recovery_docs dk z h : h_docs (release_recovery dk z h).1 = h_docs h.
Proof. unfold release_recovery. by destruct (z =? 0). Qed.

Lemma knows_docs dk pred h h' : robust dk pred → touches (Some dk) h h' → h_docs h' = h_docs h → h_trace h' = h_trace h → knows dk pred h → knows dk pred h'.
Proof.
  intros Hr [Hl _] Hd Ht Hk s Hs. rewrite Hd in Hs. destruct (Hk s Hs) as (uid & log & t & Hsi & Hok & Hp). exists uid, log, t.
  rewrite Ht. split_and!; [done| |done]. rewrite <- (app_nil_r t). eapply doc_ok_alike; [done..|constructor|reflexivity].
Qed.

(** Who is let in: a live client, where there is a seat. *)
Definition seat_for (c : nat) (s : Session) : Prop := c ∈ ss_members s ∨ Z.of_nat (size (ss_members s)) < maxDocParticipants.

Lemma take_seat_within w c dk : within (Some dk) (take_seat w c dk).
Proof. unfold take_seat. inside. Qed.

Lemma take_seat_knows w c dk h :
  base_ok h → is_Some (h_clients h !! c) → knows dk (settled dk) h → knows dk (settled dk) (take_seat w c dk h).1.
Proof.
  intros Hb Hc Hk. unfold take_seat. rewrite session_bind. destruct (h_docs h !! dk) as [s|] eqn:Hs; [|by intros s; simpl; rewrite Hs].
  cbv zeta. rewrite get_bind. destruct (_ && _); [done|]. destruct (negb _ && _) eqn:E; [done|].
  assert (Hseat : ∀ s', h_docs h !! dk = Some s' → seat_for c s').
  { intros s' Hs'. rewrite Hs in Hs'. injection Hs' as <-. apply andb_false_iff in E as [E|E].
    - left. by apply negb_false_iff, bool_decide_eq_true in E.
    - right. by apply Z.leb_gt in E. }
  pose proof (join_session_knows w c dk h Hb Hc Hk Hseat) as Hj. unfold mbind, St_bind. by destruct (join_session w c dk h).
Qed.

Lemma take_seat_gone w c dk h : h_docs h !! dk = None → h_docs (take_seat w c dk h).1 !! dk = None.
Proof. intros Hn. unfold take_seat. by rewrite session_bind, Hn. Qed.

Lemma find_within w dk actor rc : within (Some dk) (find_session w dk actor rc).
Proof. unfold find_session. inside. Qed.

Lemma find_knows w dk actor rc h :
  base_ok h → recovered_ok rc → Z.of_nat (size (h_docs h)) ≤ maxDocSessions → knows dk (settled dk) h →
  knows dk (settled dk) (find_session w dk actor rc h).1 ∧ Z.of_nat (size (h_docs (find_session w dk actor rc h).1)) ≤ maxDocSessions.
Proof.
  intros Hb Hrc Hsz Hk. unfold find_session. rewrite session_bind. destruct (h_docs h !! dk) as [s|] eqn:Hs.
  - run h1 u1 E1 (within_release_recovery dk (rc_reserved rc)). pose proof (release_recovery_docs dk (rc_reserved rc) h) as Hd.
    rewrite E1 in Hd. simpl in Hd. simpl. split; [|by rewrite Hd]. eapply knows_docs; [apply settled_robust|exact Hth1|done| |done].
    unfold release_recovery in E1. destruct (rc_reserved rc =? 0); by injection E1 as <- _.
  - destruct (rc_blocked rc); [done|]. rewrite get_bind. destruct (_ || _) eqn:Efull.
    + run h1 u1 E1 (within_release_recovery dk (rc_reserved rc)). pose proof (release_recovery_docs dk (rc_reserved rc) h) as Hd.
      rewrite E1 in Hd. simpl in Hd. simpl. split; [|by rewrite Hd]. intros s Hs1. by rewrite Hd, Hs in Hs1.
    + pose proof (create_knows dk rc h Hb Hs Hrc) as Hcr. run h1 made E1 (within_create dk rc). simpl in Hcr. simpl. destruct made.
      * destruct Hcr as [[s Hd] Hk1]. split; [done|]. rewrite Hd, map_size_insert_None by done.
        apply orb_false_iff in Efull as [Ef _]. apply Z.leb_gt in Ef. unfold docSessionCountLocked in Ef. lia.
      * split; [|by rewrite Hcr]. intros s Hs1. by rewrite Hcr, Hs in Hs1.
Qed.

Lemma join_knows w c dk actor rc h :
  base_ok h → recovered_ok rc → Z.of_nat (size (h_docs h)) ≤ maxDocSessions → knows dk (settled dk) h →
  knows dk (settled dk) (join w c dk actor rc h).1 ∧ Z.of_nat (size (h_docs (join w c dk actor rc h).1)) ≤ maxDocSessions.
Proof.
  intros Hb Hrc Hsz Hk. unfold join. cbv zeta. rewrite !get_bind.
  assert (Hback : ∀ (a : option Event * list nat), knows dk (settled dk) ((_ ← release_recovery dk (rc_reserved rc); mret a) h).1
    ∧ Z.of_nat (size (h_docs ((_ ← release_recovery dk (rc_reserved rc); mret a) h).1)) ≤ maxDocSessions).
  { intros a. pose proof (release_recovery_docs dk (rc_reserved rc) h) as Hd. 
    run h1 u1 E1 (within_release_recovery dk (rc_reserved rc)). simpl in *. split; [|by rewrite Hd].
    eapply knows_docs; [apply settled_robust|exact Hth1|done| |done].
    unfold release_recovery in E1. destruct (rc_reserved rc =? 0); by injection E1 as <- _. }
  destruct (h_closed h || _) eqn:El; [apply Hback|]. destruct (negb (mayWrite w actor dk.1)); [apply Hback|].
  apply orb_false_iff in El as [_ Hlive]. apply negb_false_iff, bool_decide_eq_true in Hlive.
  pose proof (bk_conns _ Hb _ Hlive) as Hc.
  destruct (find_knows w dk actor rc h Hb Hrc Hsz Hk) as [Hk1 Hsz1]. run h1 refusal E1 (find_within w dk actor rc). simpl in Hk1, Hsz1.
  destruct refusal as [e|]; [done|]. assert (Hc1 : is_Some (h_clients h1 !! c)) by (eapply known_later; [apply Hth1|done]).
  split; [by apply take_seat_knows|]. etrans; [|exact Hsz1]. apply inj_le. eapply docs_size; [apply (take_seat_within w c dk h1 Hbh1)|].
  intros ? [= <-]. apply take_seat_gone.
Qed.

(** * A member leaves *)

Lemma clear_docs dk h : h_docs (clearCompactionLocked dk h).1 = alter cleared dk (h_docs h).
Proof.
  unfold clearCompactionLocked. rewrite session_bind. destruct (h_docs h !! dk) as [s|] eqn:Hs.
  - match goal with |- context [(?m ≫= _) h] => set (pre := m) end. assert (Kp : keeps_docs pre) by (unfold pre; keep).
    specialize (Kp h). unfold mbind, St_bind. destruct (pre h) as [h1 u1]. simpl in *. by rewrite Kp.
  - simpl. apply map_eq. intros k. rewrite lookup_alter. case_decide; [subst; by rewrite Hs|done].
Qed.

(** One member fewer, with the leader that gives. *)
Definition without (h : Hub) (c : nat) (s : Session) : Session := with_leader (elect h (ss_members s ∖ {[c]})) (with_members (ss_members s ∖ {[c]}) s).

Lemma drop_run c dk now h s :
  h_docs h !! dk = Some s → c ∈ ss_members s →
  ∃ s2, h_docs (dropLocked c dk now h).1 = <[dk := s2]> (h_docs h) ∧ h_trace (dropLocked c dk now h).1 = h_trace h
    ∧ akin (without h c s) s2 ∧ ss_compaction s2 = ss_compaction s ∧ (dropLocked c dk now h).2.2 = bool_decide (ss_members s ∖ {[c]} = ∅).
Proof.
  intros Hs Hc. unfold dropLocked. rewrite session_bind, Hs, bool_decide_true by done. cbv beta iota delta [negb]. cbv zeta.
  destruct (set_session dk (with_members (ss_members s ∖ {[c]})) h) as [h1 u1] eqn:E1. rewrite (bind_run _ _ _ _ _ E1).
  destruct (elect_leader dk h1) as [h2 u2] eqn:E2. rewrite (bind_run _ _ _ _ _ E2). rewrite get_bind.
  assert (Hd2 : h_docs h2 = <[dk := without h c s]> (h_docs h)).
  { injection E1 as <- _. injection E2 as <- _. simpl.
    rewrite (alter_is_insert _ _ _ _ Hs), (alter_is_insert _ _ _ _ (lookup_insert_eq _ _ _)), insert_insert_eq. done. }
  assert (Ht2 : h_trace h2 = h_trace h) by (injection E1 as <- _; injection E2 as <- _; done).
  clear E1 E2. unfold when. case_bool_decide as He.
  - simpl. rewrite Hd2, (alter_is_insert _ _ _ _ (lookup_insert_eq _ _ _)), insert_insert_eq. eexists. by split_and!.
  - simpl. eexists. split_and!; [exact Hd2|done|reflexivity|done|done].
Qed.

Lemma without_ok h h' dk s s2 log t c : doc_ok h dk s log t → later h h' → akin (without h c s) s2 →
  (∀ cp, ss_compaction s2 = Some cp → ss_compaction s = Some cp ∧ cp_client cp ≠ c) → doc_ok h' dk s2 log t.
Proof.
  intros [M Z L B Ba U K F] Hl Ha Hup. pose proof Ha as [a1 a2 a3 a4 a5 a6 a7]. simpl in *.
  assert (Hsub : ss_members s2 ⊆ ss_members s) by (rewrite a2; set_solver). split.
  - intros c' Hc'. eapply known_later; [done|auto].
  - pose proof (subseteq_size _ _ Hsub). lia.
  - rewrite a2, a3. eapply leads_later; [|done|apply elect_leads]. intros c' Hc'. apply M. set_solver.
  - by rewrite a4, a5.
  - intros b Hb. rewrite a6 in Hb. destruct (Ba b Hb) as (base & us & bl & El & Ebl & Ep).
    destruct (lt_blobs _ _ Hl _ _ Ebl) as (bl' & Ebl' & Ep'). exists base, us, bl'. rewrite a4. split_and!; congruence.
  - intros cp Hcp. destruct (Hup cp Hcp) as [Hcp' Hne]. destruct (U cp Hcp') as (Hin & Hle & Hpos & Hask & Has). rewrite a2, a4, a6.
    split_and!; [set_solver|done..].
  - intros u Hu. rewrite a4. auto.
  - rewrite a4. simpl. rewrite a6. exact F.
Qed.

(** Gone, and an upload of its own with it. *)
Lemma drop_knows c dk now h s :
  base_ok h → knows dk (settled dk) h → h_docs h !! dk = Some s →
  let h1 := (dropLocked c dk now h).1 in
  let gone := (dropLocked c dk now h).2.2 || match ss_compaction s with Some cp => (cp_client cp =? c)%nat | None => false end in
  knows dk (settled dk) (when gone (clearCompactionLocked dk) h1).1.
Proof.
  intros Hb Hk Hs h1 gone. destruct (Hk s Hs) as (uid & log & t & Hsi & Hok & [Hh Hf]).
  destruct (within_dropLocked c dk now h Hb) as [Hb1 Ht1]. fold h1 in Hb1, Ht1.
  assert (Hclear : ∀ s1, h_docs h1 !! dk = Some s1 → h_trace h1 = h_trace h → doc_ok h1 dk (cleared s1) log t → settled dk (cleared s1) t →
    (gone = false → doc_ok h1 dk s1 log t) → knows dk (settled dk) (when gone (clearCompactionLocked dk) h1).1).
  { intros s1 Hs1 Htr Hok1 Hset Hok2 s' Hs'. destruct gone; simpl in *.
    - rewrite clear_docs, lookup_alter_eq, Hs1 in Hs'. injection Hs' as <-. exists uid, log, t. rewrite clear_trace, Htr.
      split_and!; [done| |done]. rewrite <- (app_nil_r t). eapply doc_ok_alike; [exact Hok1| |constructor|reflexivity].
      apply (within_clearCompaction None dk h1 Hb1).
    - rewrite Hs1 in Hs'. injection Hs' as <-. exists uid, log, t. rewrite Htr. split_and!; [done|auto|]. destruct Hset. by split. }
  destruct (decide (c ∈ ss_members s)) as [Hc|Hc].
  - destruct (drop_run c dk now h s Hs Hc) as (s2 & Hd & Htr & Ha & Hcp & Hem). fold h1 in Hd, Htr.
    assert (Hs2 : h_docs h1 !! dk = Some s2) by (rewrite Hd; apply lookup_insert_eq).
    apply (Hclear s2 Hs2 Htr).
    + apply (without_ok h _ dk s _ log t c Hok (to_later _ _ _ Ht1)); [by destruct Ha|done].
    + pose proof Ha as [a1 a2 a3 a4 a5 a6 a7]. simpl in *. split; simpl.
      * intros c' Hc'. rewrite a2 in Hc'. rewrite a4. apply Hh. set_solver.
      * destruct Hf as [?|[?|Hov]]; [by left|right; left; simpl; congruence|right; right].
        unfold over_line, deltaStatsLocked in *. simpl. by rewrite a6, a4, a5.
    + intros Hg. apply (without_ok h _ dk s _ log t c Hok (to_later _ _ _ Ht1)); [done|]. intros cp E. rewrite Hcp in E.
      split; [done|]. intros <-. unfold gone in Hg. rewrite E, Nat.eqb_refl, orb_true_r in Hg. done.
  - assert (E : dropLocked c dk now h = (h, ([], false))).
    { unfold dropLocked. rewrite session_bind, Hs, bool_decide_false by done. done. }
    assert (h1 = h) as Eh by (unfold h1; by rewrite E). rewrite Eh in *. apply (Hclear s Hs eq_refl).
    + rewrite <- (app_nil_r t). eapply doc_ok_alike; [exact Hok|reflexivity|constructor|apply alike_cleared].
    + by split.
    + done.
Qed.

Lemma leave_knows c dk now now' h :
  base_ok h → knows dk (settled dk) h → knows dk (settled dk) (leave_session c dk now now' h).1.
Proof.
  intros Hb Hk. unfold leave_session. rewrite session_bind. destruct (h_docs h !! dk) as [s|] eqn:Hs; [|by intros s; simpl; rewrite Hs].
  pose proof (drop_knows c dk now h s Hb Hk Hs) as Hk1. cbv zeta in Hk1.
  run h1 r1 E1 (within_dropLocked c dk now). simpl in Hk1. destruct r1 as [notices emptied]. simpl in Hk1.
  set (gone := emptied || _) in *. assert (Wg : within (Some dk) (when gone (clearCompactionLocked dk))) by inside.
  run h2 u2 E2 Wg. simpl in Hk1. rewrite session_bind. destruct (h_docs h2 !! dk) as [s'|] eqn:Hs'.
  - match goal with |- context [match ?l with Some l => _ | None => mret None end] => set (asks := l) end.
    assert (Hled : ∀ l, asks = Some l → l ∈ ss_members s').
    { intros l Hl. unfold asks in Hl. destruct (_ && _); [|done]. destruct (Hk1 s' Hs') as (? & ? & ? & _ & Hok & _).
      pose proof (ds_leader _ _ _ _ _ Hok) as Hle. rewrite Hl in Hle. apply Hle. }
    destruct asks as [l|]; [|done].
    assert (Hk2 : knows dk (settled dk) (beginCompactionLocked dk l now' h2).1).
    { eapply doc_with_weaken; [|apply (begin_knows dk l now' (λ s t, settled dk s t ∧ l ∈ ss_members s) h2 Hbh2)].
      - by intros ? ? [? _].
      - apply sturdy_and; [apply settled_sturdy|apply member_sturdy].
      - intros s0 t [Hse Hl]. split; [done|]. by apply (st_heard _ _ _ Hse).
      - eapply knows_here; [done| |exact Hk1]. intros t Hse. split; [done|]. by apply Hled. }
    assert (Wb : within (Some dk) (token ← beginCompactionLocked dk l now'; mret (Some (l, token)))) by inside.
    run h3 ask E3 Wb. simpl. unfold mbind, St_bind in E3. destruct (beginCompactionLocked dk l now' h2) as [h4 token].
    simpl in *. by injection E3 as <- <-.
  - simpl. intros s0 Hs0. by rewrite Hs' in Hs0.
Qed.

Lemma leave_gone c dk now now' h : h_docs h !! dk = None → h_docs (leave_session c dk now now' h).1 !! dk = None.
Proof. intros Hn. unfold leave_session. by rewrite session_bind, Hn. Qed.
End Members.

(** * A stored log *)

(** The entries read so far. *)
Record reading (snapshot : bool) (updates : list string) (tail_ : Z) : Prop := {
  rd_size : ∀ u, u ∈ updates → 0 < len u ≤ maxDocSnapshotTotalBytes;
  rd_delta : ∀ u, u ∈ deltas snapshot updates → len u ≤ maxDocUpdateBytes;
  rd_count : Z.of_nat (length (deltas snapshot updates)) ≤ maxDocDeltaEntries;
  rd_tail : tail_ = bytes (deltas snapshot updates);
  rd_bytes : tail_ ≤ maxDocLogBytes + maxDocUpdateBytes;
}.

Lemma taken_length n s : (n <= String.length s)%nat → String.length (str_take n s) = n.
Proof. revert s. induction n as [|n IH]; intros [|c s]; simpl; try lia. intros Hn. rewrite IH; lia. Qed.

Lemma read_entry_ok legacy snapshot updates total tail_ s u snapshot' total' tail' rest :
  reading snapshot updates tail_ →
  read_entry legacy snapshot (length updates) total tail_ s = Ok (u, snapshot', total', tail', rest) →
  reading snapshot' (updates ++ [u]) tail' ∧ (snapshot = true → snapshot' = true).
Proof.
  intros [Rs Rd Rc Rt Rb]. unfold read_entry. destruct (cut_line _ s) as [[line rest0]|]; [|done]. destruct (Atoi line) as [size|]; [|done].
  destruct ((size <=? 0) || _) eqn:E1; [done|]. apply orb_false_iff in E1 as [E1 E1']. apply Z.leb_gt in E1. apply Z.ltb_ge in E1'.
  cbv zeta. set (first := (length updates =? 0)%nat). set (big := negb (snapshot && first) && (maxDocUpdateBytes <? size)).
  destruct (big && _) eqn:E2; [done|]. set (sn := snapshot || big). set (tl := if sn && first then tail_ else tail_ + size).
  destruct (maxDocDeltaEntries <? _) eqn:E3; [done|]. apply Z.ltb_ge in E3. destruct (_ <? tl) eqn:E4; [done|]. apply Z.ltb_ge in E4.
  destruct (_ <? total + size); [done|]. destruct (_ <? _)%nat eqn:E5; [done|]. apply Nat.ltb_ge in E5.
  destruct (str_drop _ _) as [|ch rest']; [done|]. destruct (Ascii.eqb ch nl); [|done]. intros [= <- <- <- <- <-].
  assert (Hlen : len (str_take (Z.to_nat size) rest0) = size) by (unfold len; rewrite taken_length by done; lia).
  set (u := str_take (Z.to_nat size) rest0) in *. split; [|by intros ->].
  assert (Hall : ∀ v, v ∈ updates ++ [u] → 0 < len v ≤ maxDocSnapshotTotalBytes).
  { intros v. rewrite elem_of_app, list_elem_of_singleton. intros [Hv| ->]; [auto|lia]. }
  destruct updates as [|base us].
  - simpl in *. assert (first = true) as Ef by done. rewrite Ef in *. unfold tl in *. rewrite andb_true_r in *.
    destruct sn eqn:Esn; split; simpl; try done; try lia.
    + intros v Hv. by apply elem_of_nil in Hv.
    + subst tail_. by destruct snapshot.
    + intros v Hv. apply list_elem_of_singleton in Hv as ->. rewrite Hlen. unfold sn in Esn. apply orb_false_iff in Esn as [-> Eb].
      unfold big in Eb. simpl in Eb. apply Z.ltb_ge in Eb. lia.
    + subst tail_. rewrite Hlen. destruct snapshot; simpl; lia.
  - assert (Hbig : big = false) by (revert E2; unfold first; simpl; rewrite andb_false_r; by destruct big).
    assert (Esn : sn = snapshot) by (unfold sn; by rewrite Hbig, orb_false_r). clearbody sn. subst sn.
    assert (Hd : deltas snapshot ((base :: us) ++ [u]) = deltas snapshot (base :: us) ++ [u]) by by destruct snapshot.
    assert (Etl : tl = tail_ + size) by (unfold tl, first; simpl; by rewrite andb_false_r). clearbody tl. subst tl. split.
    + done.
    + rewrite Hd. intros v. rewrite elem_of_app, list_elem_of_singleton. intros [Hv| ->]; [auto|]. rewrite Hlen.
      unfold big, first in Hbig. simpl in Hbig. rewrite andb_false_r in Hbig. simpl in Hbig. apply Z.ltb_ge in Hbig. lia.
    + rewrite Hd, length_app. simpl length in *. destruct snapshot; simpl in *; lia.
    + rewrite Hd, bytes_app. simpl. lia.
    + lia.
Qed.

Lemma read_entries_ok fuel : ∀ legacy snapshot updates total tail_ s us sn,
  reading snapshot updates tail_ → read_entries fuel legacy snapshot updates total tail_ s = Ok (us, sn) → log_ok sn us.
Proof.
  induction fuel as [|fuel IH]; intros legacy snapshot updates total tail_ s us sn Hr; simpl; [done|].
  destruct (String.eqb s EmptyString).
  - destruct (snapshot && _) eqn:E; [done|]. intros [= <- <-]. destruct Hr as [Rs Rd Rc Rt Rb]. split; try done; [|unfold deltas in Rt; lia].
    intros ->. destruct updates as [|b rest]; [done|]. by exists b, rest.
  - destruct (read_entry _ _ _ _ _ s) as [[[[[u sn1] tot] tl] rest]| | |] eqn:E; simpl; try done.
    apply IH. by apply (read_entry_ok legacy snapshot updates total tail_ s u sn1 tot tl rest).
Qed.

(** Whatever a sidecar decodes to is a log a session may have. *)
Lemma decode_log_ok rest hd card : decodeDocSidecarBody rest hd = Ok card → log_ok (cd_snapshot card) (cd_updates card).
Proof.
  unfold decodeDocSidecarBody. destruct (read_entries _ _ _ _ _ _ _) as [[us sn]| | |] eqn:E; simpl; try done. intros [= <-]. simpl.
  eapply read_entries_ok; [|exact E]. split; try done; try (intros u Hu; by destruct (hd_snapshot hd); apply elem_of_nil in Hu);
    destruct (hd_snapshot hd); done.
Qed.

Section Blocks.
Context `{GoRev}.

(** * Gentle operations *)

Create HintDb gentle discriminated.
Hint Resolve gently_persist : gentle.
Ltac soften_step :=
  match goal with
  | |- gently _ _ => solve [eauto 2 with gentle]
  | |- gently _ (mret _) => apply gently_ret
  | |- gently _ skip => apply gently_ret
  | |- gently _ (get _) => apply gently_none, within_get
  | |- gently _ (session_at _) => apply gently_none, within_session_at
  | |- gently _ (_ ≫= _) => apply gently_bind; [|intros ?]
  | |- gently _ (set_session _ _) => apply gently_session; intros ?; split; [by split|by left]
  | |- gently _ (if ?b then _ else _) => destruct b
  | |- gently _ (match ?x with _ => _ end) => destruct x
  | |- gently _ (let _ := _ in _) => cbv zeta
  end.
Ltac soften := repeat soften_step.

Lemma gently_emptied dk : gently dk nextEmptied.
Proof. apply gently_none, within_emptied. Qed.
Hint Resolve gently_emptied : gentle.
Lemma gently_status dk uid ok : gently dk (persistenceStatus dk uid ok).
Proof. unfold persistenceStatus. soften. Qed.
Lemma gently_reset dk uid now : gently dk (resetEmptyDoc dk uid now).
Proof. unfold resetEmptyDoc, with_session. soften. Qed.
Lemma gently_drop_sidecar w dk : gently dk (dropDocSidecar w dk).
Proof.
  apply gently_mild; [apply within_drop_sidecar|]. intros h. unfold dropDocSidecar. destruct (w_writes w); [|reflexivity].
  split; simpl; [destruct (h_docs h !! dk); [reflexivity|done]|]. exists [Dropped dk]. split; [done|]. apply Forall_singleton.
  split_and!; try done. intros u. simpl. tauto.
Qed.
Hint Resolve gently_status gently_reset gently_drop_sidecar : gentle.
Lemma gently_look w dk : gently dk (look_sidecar w dk).
Proof. unfold look_sidecar. soften. Qed.

Lemma same_docs_mild dk h h' : h_docs h' = h_docs h → h_trace h' = h_trace h → mild dk h h'.
Proof.
  intros Hd Ht. split; [rewrite Hd; destruct (h_docs h !! dk); [reflexivity|done]|]. exists []. rewrite app_nil_r. by split.
Qed.

Lemma gently_reserve dk z : gently dk (reserve_recovery dk z).
Proof. apply gently_mild; [apply within_reserve|]. intros h. by apply same_docs_mild. Qed.
Lemma gently_release_recovery dk z : gently dk (release_recovery dk z).
Proof.
  apply gently_mild; [apply within_release_recovery|]. intros h. apply same_docs_mild; unfold release_recovery; by destruct (z =? 0).
Qed.
Hint Resolve gently_look gently_reserve gently_release_recovery : gentle.
Lemma gently_accept_flush c dk uid g actual : gently dk (accept_flush c dk uid g actual).
Proof. unfold accept_flush. soften. Qed.

(** * Blocks *)

Ltac mild_sec := apply in_turn_mild; intros ?; [inside|soften].

Lemma persist_in_turn dk card : in_turn dk (sec (λ w, persistDoc w dk card)).
Proof. mild_sec. Qed.
Lemma status_in_turn dk uid ok : in_turn dk (sec (λ _, persistenceStatus dk uid ok)).
Proof. mild_sec. Qed.

Lemma clear_sidecar_in_turn dk card : in_turn dk (clear_sidecar dk card).
Proof.
  unfold clear_sidecar. apply in_turn_bind; [apply persist_in_turn|]. intros []; [apply in_turn_ret|apply persist_in_turn].
Qed.

Lemma spec_pure {A} held held' (R : Prop) (P : Hub → Prop) (m : M A) Q :
  (R → ok_spec held held' P m Q) → ok_spec held held' (λ h, R ∧ P h) m Q.
Proof. intros Hm k h [HR HP]. by apply Hm. Qed.

(** Recovery leaves the table as it is, and hands over a log a session may have. *)
Definition recovers (dk : DocKey) (m : M Recovered) : Prop :=
  ok_spec (Some dk) (Some dk) (knows dk (settled dk)) m (λ rc h, recovered_ok rc ∧ knows dk (settled dk) h).

Lemma recovers_ret dk rc : recovered_ok rc → recovers dk (mret rc).
Proof. intros Hrc. by apply spec_ret. Qed.

Lemma recovers_bind {A} dk (m : M A) (f : A → M Recovered) : in_turn dk m → (∀ a, recovers dk (f a)) → recovers dk (m ≫= f).
Proof. intros Hm Hf. eapply spec_bind; [exact Hm|]. intros a. apply Hf. Qed.

Lemma nothing_ok rev : recovered_ok (nothing_stored rev).
Proof. split; simpl; try done; intros u Hu; by apply elem_of_nil in Hu. Qed.

Lemma decoded_ok card rev z : log_ok (cd_snapshot card) (cd_updates card) → recovered_ok (mkRecovered (cd_updates card) rev (cd_snapshot card) z false).
Proof.
  intros Hok. unfold recovered_ok. simpl. destruct (cd_snapshot card) eqn:E; [|done]. simpl.
  destruct (lo_base _ _ Hok eq_refl) as (b & us & Eu). by rewrite Eu in *.
Qed.

Lemma decode_recovers dk rev rest hd z : recovers dk (decode_recovered dk rev rest hd z).
Proof.
  unfold decode_recovered. destruct (decodeDocSidecarBody rest hd) as [card| | |] eqn:E.
  1: { pose proof (decoded_ok card rev) as Hrc. specialize (λ z, Hrc z (decode_log_ok _ _ _ E)). cbv zeta.
       destruct (z =? 0); [by apply recovers_ret|]. apply recovers_bind; [mild_sec|]. intros ?. by apply recovers_ret. }
  all: apply recovers_bind; [mild_sec|]; intros ?; apply recovers_bind; [mild_sec|]; intros ?; apply recovers_ret, nothing_ok.
Qed.

Lemma look_answers w dk h r : (look_sidecar w dk h).2 = Answer r → recovered_ok r.
Proof.
  intros E. assert (Hr : rc_updates r = []).
  { revert E. unfold look_sidecar, mbind, St_bind, get. repeat case_match; intros E; simplify_eq/=; done. }
  unfold recovered_ok. rewrite Hr, andb_false_r. apply (nothing_ok EmptyString).
Qed.

(** A gentle section, with a fact about its answer. *)
Lemma gentle_answer {A} dk (f : World → St A) (R : A → Prop) :
  (∀ w, within (Some dk) (f w)) → (∀ w, gently dk (f w)) → (∀ w h, R (f w h).2) →
  ok_spec (Some dk) (Some dk) (knows dk (settled dk)) (sec f) (λ a h, R a ∧ knows dk (settled dk) h).
Proof.
  intros Hw Hg HR. apply spec_any; [apply settled_robust|]. intros w h Hb Hsz Hk. destruct (Hw w h Hb) as [Hb' Ht].
  destruct (Hg w h Hb) as [_ Hm]. assert (Hk' : knows dk (settled dk) (f w h).1).
  { eapply doc_with_mild; [apply settled_sturdy|exact Hk|apply Ht|done]. }
  split_and!; [done|done|eapply doc_with_weaken; [|exact Hk']; done| |apply HR|done].
  etrans; [|exact Hsz]. apply inj_le. eapply docs_size; [exact Ht|]. intros ? [= <-] E. destruct Hm as [Hm _]. rewrite E in Hm.
  by destruct (h_docs (f w h).1 !! dk).
Qed.

Lemma recoverDoc_recovers dk : recovers dk (recoverDoc dk).
Proof.
  unfold recoverDoc. eapply spec_bind.
  { apply (gentle_answer dk _ (λ look, ∀ r, look = Answer r → recovered_ok r)); [intros w; inside|intros w; soften|].
    intros w h r Hr. by eapply look_answers. }
  intros look. apply spec_pure. intros Hlook. destruct look as [r|rev rest hd size]; [by apply recovers_ret, Hlook|].
  destruct (large_sidecar size); [|apply decode_recovers]. apply recovers_bind; [mild_sec|].
  intros []; [apply recovers_ret, (nothing_ok rev)|apply decode_recovers].
Qed.

(** * Empty sessions *)

Lemma since_suffix p a t e t' : since p t = Some (e, t') → since p (a ++ t) = Some (e, t').
Proof. intros (b & -> & Hp & Hf)%since_split. rewrite app_assoc. by apply since_intro. Qed.

(** An empty session whose log was filed, as nothing but its going will change. *)
Definition empty_with (card : Card) (s : Session) : Prop := ss_members s = ∅ ∧ sidecarLocked s = card.

Definition filed (dk : DocKey) (card : Card) (t : list Happened) : Prop :=
  ∃ e t', since (files dk) t = Some (e, t') ∧ kept_safe dk card e.

Lemma empty_robust dk card : robust dk (λ s _, empty_with card s).
Proof. intros s s' t l [Hm Hc] [-> | ->] _; by split. Qed.

Lemma filed_robust dk card : robust dk (λ _ t, filed dk card t).
Proof.
  intros s s' t l (e & t' & Hs & He) _ Hl. exists e, (t' ++ l). split; [|done]. apply since_app; [|done].
  eapply uneventful_kind; [exact Hl|]. intros x Hx. by apply not_about.
Qed.

Definition chosen (dk : DocKey) (card : option Card) (s : Session) (t : list Happened) : Prop :=
  settled dk s t ∧ match card with Some card => empty_with card s | None => True end.

Lemma chosen_robust dk card : robust dk (chosen dk card).
Proof. apply robust_and; [apply settled_robust|]. destruct card; [apply empty_robust|]. by intros ?. Qed.

Definition saved (dk : DocKey) (card : Card) (ok : bool) (s : Session) (t : list Happened) : Prop :=
  chosen dk (Some card) s t ∧ (ok = true → filed dk card t).

Lemma saved_robust dk card ok : robust dk (saved dk card ok).
Proof.
  apply robust_and; [apply chosen_robust|]. intros s s' t l Hf He Hl E. by apply (filed_robust dk card s s' t l (Hf E)).
Qed.

Lemma persist_files w dk card h :
  h_docs (persistDoc w dk card h).1 = h_docs h
  ∧ ∃ l, h_trace (persistDoc w dk card h).1 = h_trace h ++ l ∧ Forall (dull dk) l
    ∧ ((persistDoc w dk card h).2 = true → filed dk card l).
Proof.
  assert (Hnone : ∀ tr, tr = h_trace h → ∃ l, tr = h_trace h ++ l ∧ Forall (dull dk) l ∧ (false = true → filed dk card l)).
  { intros tr E. exists []. rewrite app_nil_r. by split_and!. }
  assert (Hone : ∀ tr x, kept_safe dk card x → tr = h_trace h ++ [x] →
    ∃ l, tr = h_trace h ++ l ∧ Forall (dull dk) l ∧ (true = true → filed dk card l)).
  { intros tr x He E. assert (Hx : files dk x = true ∧ dull dk x).
    { destruct He as [-> |[[-> _]|[-> _]]]; (split; [by apply (bool_decide_eq_true (dk = dk))|split_and!; [done..|]; intros u; simpl; tauto]). }
    destruct Hx as [Hf Hd]. exists [x]. split_and!; [done|by apply Forall_singleton|]. intros _. exists x, []. split; [|done].
    change [x] with ([] ++ [x]). by rewrite since_snoc, Hf. }
  unfold persistDoc. destruct (negb _); [split; [done|]; by eapply Hone; [left|]|].
  destruct (String.eqb (cd_rev card) EmptyString || _) eqn:E.
  - destruct (w_writes w); (split; [done|]); [|by apply Hnone]. eapply Hone; [right; right|done]. split; [done|].
    apply orb_true_iff in E as [E%String.eqb_eq|E]; [by left|right]. by destruct (cd_updates card).
  - apply orb_false_iff in E as [E%String.eqb_neq Ec]. destruct (_ <? _); [split; [done|]; by apply Hnone|].
    destruct (w_writes w); (split; [done|]); [|by apply Hnone]. eapply Hone; [right; left|done]. split_and!; [done..|]. by destruct (cd_updates card).
Qed.

Lemma persist_saved dk card : ok_spec (Some dk) (Some dk) (knows dk (chosen dk (Some card))) (sec (λ w, persistDoc w dk card)) (λ ok, knows dk (saved dk card ok)).
Proof.
  apply (spec_doc dk _ _ (saved dk card)); [apply chosen_robust|intros w; inside|]. intros w h Hb Hk.
  destruct (persist_files w dk card h) as (Hd & l & Ht & Hdl & Hf). destruct (within_persist w dk card h Hb) as [_ [Hl _]].
  rewrite Hd. split; [|done]. intros s Hs. rewrite Hd in Hs. destruct (Hk s Hs) as (uid & log & t & Hsi & Hok & [Hset Hem]).
  exists uid, log, (t ++ l). split_and!.
  - rewrite Ht. apply since_app; [by apply dull_opens|done].
  - eapply doc_ok_alike; [done..|reflexivity].
  - split; [split; [|done]|].
    + eapply settled_sturdy; [exact Hset|reflexivity|done].
    + intros E. destruct (Hf E) as (e & t' & Hs' & He). exists e, t'. split; [|done]. by apply since_suffix.
Qed.
Lemma life_filed dk card h uid log t : since (opens dk) (h_trace h) = Some (Opened dk uid log, t) → filed dk card t →
  ∃ e t', since (files dk) (h_trace h) = Some (e, t') ∧ kept_safe dk card e.
Proof.
  intros (a & -> & _)%since_split (e & t' & Hs & He). exists e, t'. split; [|done].
  rewrite cons_middle, app_assoc. by apply since_suffix.
Qed.

(** A session whose log was filed goes, or stays as it was. *)
Lemma delete_cases dk uid h :
  h_docs (deleteEmptyDoc dk uid h).1 = delete dk (h_docs h) ∨ (deleteEmptyDoc dk uid h).1 = h.
Proof.
  unfold deleteEmptyDoc, with_session. rewrite session_bind. destruct (h_docs h !! dk) as [s|]; [|by right].
  destruct (_ =? _)%nat; [|by right]. case_bool_decide; [|by right]. left.
  pose proof (clear_docs dk h) as Hc. destruct (clearCompactionLocked dk h) as [h1 u1] eqn:E1. rewrite (bind_run _ _ _ _ _ E1).
  simpl in Hc. set (rel := match ss_snapshot s with Some b => releaseSnapshotBlobLocked b | None => skip end).
  assert (Kr : keeps_docs rel) by (unfold rel; keep). specialize (Kr h1). destruct (rel h1) as [h2 u2] eqn:E2.
  rewrite (bind_run _ _ _ _ _ E2). simpl in *. rewrite Kr, Hc. apply map_eq. intros k. rewrite !lookup_delete. case_decide; [done|].
  by rewrite lookup_alter_ne.
Qed.

Lemma delete_settles dk card uid :
  ok_spec (Some dk) (Some dk) (knows dk (saved dk card true)) (sec (λ _, deleteEmptyDoc dk uid)) (λ _, knows dk (settled dk)).
Proof.
  apply spec_any; [apply saved_robust|]. intros _ h Hb Hsz Hk.
  destruct (within_delete dk uid h Hb) as [Hb' Ht].
  { intros s Hs Hm. destruct (Hk s Hs) as (u0 & log & t & Hsi & _ & [[_ [_ <-]] Hf]). eapply life_filed; [exact Hsi|auto]. }
  assert (Hk' : knows dk (settled dk) (deleteEmptyDoc dk uid h).1).
  { destruct (delete_cases dk uid h) as [E|E].
    - intros s Hs. rewrite E, lookup_delete_eq in Hs. done.
    - rewrite E. eapply doc_with_weaken; [|exact Hk]. by intros s t [[? _] _]. }
  split_and!; [done|done|eapply doc_with_weaken; [|exact Hk']; done| |done].
  etrans; [|exact Hsz]. apply inj_le. eapply docs_size; [exact Ht|]. intros ? [= <-] E.
  destruct (delete_cases dk uid h) as [E'|E']; rewrite E'; [by rewrite lookup_delete_eq|done].
Qed.

(** One candidate's turn, whatever its clock. *)
Lemma retire_one_calm now due d :
  (∀ pred, robust (em_dk d) pred → ok_spec (Some (em_dk d)) (Some (em_dk d)) (knows (em_dk d) pred) now (λ _, knows (em_dk d) pred)) →
  calm (retire_one now due d).
Proof.
  intros Hnow. unfold retire_one. set (dk := em_dk d) in *. cbv zeta. eapply spec_bind; [apply (spec_taken dk)|]. intros ?. cbv beta.
  eapply spec_bind.
  { apply (spec_doc dk (settled dk) _ (chosen dk)); [apply settled_robust|intros w; inside|]. intros w h Hb Hk. split; [|done].
    rewrite session_bind. simpl. destruct (h_docs h !! dk) as [s|] eqn:Hs; [|by intros s; rewrite Hs].
    destruct (_ && _) eqn:E; [|eapply doc_with_weaken; [|exact Hk]; by intros ? ? ?].
    apply andb_true_iff in E as [[_ Hm]%andb_true_iff _]. apply bool_decide_eq_true in Hm.
    eapply knows_here; [done| |exact Hk]. intros t Hset. by split. }
  intros card. cbv beta. apply then_given; [|intros ok; apply calm_ret]. destruct card as [card|].
  2: { apply spec_ret. intros h. apply doc_with_weaken. by intros s t [? _]. }
  eapply spec_bind; [apply persist_saved|]. intros ok. cbv beta. destruct ok.
  - eapply spec_bind; [apply delete_settles|]. intros ?. by apply spec_ret.
  - eapply spec_bind; [apply Hnow, saved_robust|]. intros at_. cbv beta.
    eapply spec_weaken with (P' := knows dk (settled dk)) (Q' := λ _, knows dk (settled dk)); [| |done].
    + apply in_turn_bind; [mild_sec|]. intros ?. apply in_turn_bind; [mild_sec|]. intros ?. apply in_turn_ret.
    + intros h. apply doc_with_weaken. by intros s t [[? _] _].
Qed.

Lemma retire_all_calm cs now due : calm (retireEmptyDocs cs now due).
Proof.
  apply calm_each. intros d. apply calm_bind; [|intros ?; apply calm_ret]. apply retire_one_calm. intros pred Hr. by apply spec_ret.
Qed.

Lemma retry_all_calm cs : calm (retry_all cs).
Proof.
  induction cs as [|d cs IH]; simpl; [apply calm_ret|]. apply calm_bind; [|intros ?; apply calm_bind; [exact IH|intros ?; apply calm_ret]].
  apply retire_one_calm. intros pred Hr. apply (spec_in (em_dk d) pred); [done|]. intros w. inside.
Qed.

Lemma retry_calm : calm retryEmptyDocSessions.
Proof. apply calm_bind; [apply calm_sec; intros w; inside|]. intros cs. apply retry_all_calm. Qed.

Lemma sweep_calm now : calm (sweepDocSessions now).
Proof. unfold sweepDocSessions. apply calm_bind; [apply calm_sec; intros w; inside|]. intros cs. apply retire_all_calm. Qed.

Lemma retire_actor_calm key dk now : calm (retireActorEmptyDocs key dk now).
Proof. unfold retireActorEmptyDocs. cbv zeta. apply calm_bind; [apply calm_sec; intros w; inside|]. intros cs. apply retire_all_calm. Qed.

(** * Opening and closing *)

Lemma openDoc_calm c key : calm (openDoc c key).
Proof.
  unfold openDoc. destruct (String.eqb key EmptyString); [apply calm_ret|]. apply calm_bind; [apply place_of_calm|]. intros [room actor].
  set (dk := (room, key)). cbv zeta. apply calm_bind; [apply calm_sec; intros w; inside|]. intros may. destruct (negb may); [apply sendTo_calm|].
  apply calm_bind; [apply calm_sec; intros w; inside|]. intros now. apply calm_bind; [apply sweep_calm|]. intros ?.
  apply calm_bind; [apply retire_actor_calm|]. intros ?. eapply spec_bind; [apply (spec_taken dk)|]. intros ?. cbv beta.
  eapply spec_bind; [apply (in_turn_none dk); intros w; inside|]. intros absent. cbv beta. eapply spec_bind.
  { instantiate (1 := λ rc h, recovered_ok rc ∧ knows dk (settled dk) h). destruct absent; [apply recoverDoc_recovers|].
    apply recovers_ret, (nothing_ok EmptyString). }
  intros rc. cbv beta. apply spec_pure. intros Hrc. eapply spec_bind.
  { apply (spec_any dk (settled dk) _ (λ _, knows dk (settled dk))); [apply settled_robust|]. intros w h Hb Hsz Hk.
    destruct (join_knows w c dk actor rc h Hb Hrc Hsz Hk) as [Hk' Hsz'].
    split_and!; [apply within_join; done|apply within_join; done|eapply doc_with_weaken; [|exact Hk']; done|done|done]. }
  intros [answer slow]. cbv beta. eapply spec_bind; [apply spec_given|]. intros ?.
  apply calm_bind; [destruct answer; [apply sendTo_calm|apply calm_ret]|]. intros ?. apply remove_all_calm.
Qed.

Lemma announceLeader_calm key ns : calm (announceLeader key ns).
Proof. apply calm_each. intros [c b]. apply sendTo_calm. Qed.
Lemma tell_compact_calm key ask : calm (tell_compact key ask).
Proof. destruct ask as [[c token]|]; [apply sendTo_calm|apply calm_ret]. Qed.

(** A leave, and what is left of the session to save. *)
Lemma leave_in_turn c dk (now now' : World → Z) : in_turn dk (sec (λ w, leave_session c dk (now w) (now' w))).
Proof.
  apply in_turn_sec; [intros w; inside|intros w h s Hb Hk _; by apply leave_knows|intros w h; apply leave_gone].
Qed.

Lemma closeDoc_calm c key : calm (closeDoc c key).
Proof.
  unfold closeDoc. destruct (String.eqb key EmptyString); [apply calm_ret|]. apply calm_bind; [apply place_of_calm|]. intros [room actor].
  set (dk := (room, key)). cbv zeta. eapply spec_bind; [apply (spec_taken dk)|]. intros ?. cbv beta.
  eapply spec_bind; [apply (leave_in_turn c dk w_now w_now)|]. intros left_. cbv beta. destruct left_ as [lf|]; [|apply spec_given].
  apply then_given.
  - destruct (lf_card lf) as [card|]; [|apply in_turn_ret]. apply in_turn_bind; [apply persist_in_turn|]. intros [].
    + apply in_turn_bind; [apply status_in_turn|]. intros ?. apply in_turn_ret.
    + apply in_turn_bind; [mild_sec|]. intros ?. apply in_turn_bind; [apply status_in_turn|]. intros ?. apply in_turn_ret.
  - intros told. apply calm_bind; [destruct told; [apply sendTo_calm|apply calm_ret]|]. intros ?.
    apply calm_bind; [apply announceLeader_calm|]. intros ?. apply tell_compact_calm.
Qed.

Lemma leave_one_calm c now dk : calm (leave_one c now dk).
Proof.
  unfold leave_one. eapply spec_bind; [apply (spec_taken dk)|]. intros ?. cbv beta.
  eapply spec_bind; [apply (leave_in_turn c dk (λ _, now) (λ _, now))|]. intros left_. cbv beta. apply then_given; [|intros a0; apply calm_ret].
  destruct left_ as [lf|]; [|apply in_turn_ret]. apply in_turn_bind; [|intros ?; apply in_turn_ret].
  destruct (lf_card lf) as [card|]; [|apply in_turn_ret]. apply in_turn_bind; [apply persist_in_turn|]. intros ok.
  apply in_turn_bind; [destruct ok; [apply in_turn_ret|mild_sec]|]. intros ?. apply in_turn_bind; [apply status_in_turn|]. intros ?. apply in_turn_ret.
Qed.

Lemma leaveAllDocs_calm c : calm (leaveAllDocs c).
Proof.
  unfold leaveAllDocs. apply calm_bind; [apply calm_sec; intros w; inside|]. intros now. apply calm_bind; [apply calm_sec; intros w; inside|]. intros dks.
  apply calm_bind.
  - induction dks as [|dk dks IH]; simpl; [apply calm_ret|]. apply calm_bind; [apply leave_one_calm|]. intros ?.
    apply calm_bind; [exact IH|]. intros ?. apply calm_ret.
  - intros outcomes. apply calm_bind; apply calm_each || (intros ?; apply calm_each); intros [dk [ns ask]]; [apply announceLeader_calm|apply tell_compact_calm].
Qed.

(** * Flushes *)

(** The freeze is lifted; past the line, the book says so. *)
Lemma thaw_settles dk uid : in_turn dk (sec (λ _, with_session dk uid (λ s,
  _ ← when (over_line s) (note (Thawed dk uid)); set_session dk (with_frozen false)))).
Proof.
  apply in_turn_sec; [intros w; apply within_with_session; intros s; inside| |].
  - intros _ h s Hb Hk Hs. unfold with_session. rewrite session_bind, Hs. destruct (_ =? _)%nat; [|done].
    destruct (Hk s Hs) as (u0 & log & t & Hsi & Hok & [Hh Hf]). set (x := Thawed dk uid).
    assert (Hx : dull dk x) by (split_and!; [done|done|]; intros u; simpl; tauto).
    assert (Hok' : ∀ h' l, later h h' → Forall (dull dk) l → doc_ok h' dk (with_frozen false s) log (t ++ l)).
    { intros h' l Hl Hd. destruct (doc_ok_alike _ h' _ _ s _ _ l Hok Hl Hd ltac:(reflexivity)). by split. }
    destruct (over_line s) eqn:Hov; simpl; intros s' Hs'; simpl in Hs'; rewrite lookup_alter_eq, Hs in Hs'; injection Hs' as <-.
    + exists u0, log, (t ++ [x]). split_and!.
      * apply since_app; [by apply Forall_singleton|done].
      * apply Hok'; [by split; simpl; eauto|by apply Forall_singleton].
      * split; [|left; exists uid; apply elem_of_app; right; by apply list_elem_of_singleton].
        intros c' Hc'. apply caught_up_app; [by apply Forall_singleton|by apply Hh].
    + exists u0, log, t. split_and!; [done| |].
      * rewrite <- (app_nil_r t). apply Hok'; [|constructor]. split; simpl; eauto. exists []. by rewrite app_nil_r.
      * split; [exact Hh|right; by right].
  - intros _ h Hn. unfold with_session. by rewrite session_bind, Hn.
Qed.

Lemma announcePersistence_calm what : calm (announcePersistence what).
Proof. unfold announcePersistence. destruct what as [cs [e|]]; [apply calm_each; intros c; apply sendTo_calm|apply calm_ret]. Qed.

Lemma docFlushed_calm c key rev : calm (docFlushed c key rev).
Proof.
  unfold docFlushed. apply calm_bind; [apply place_of_calm|]. intros [room actor]. set (dk := (room, key)). cbv zeta.
  apply calm_bind; [apply calm_sec; intros w; inside|]. intros [[uid generation]|]; [|apply calm_ret].
  apply calm_bind; [apply calm_sec; intros w; inside|]. intros [actual|]; [|apply calm_ret].
  destruct (negb (String.eqb actual rev)); [apply calm_ret|]. eapply spec_bind; [apply (spec_taken dk)|]. intros ?. cbv beta.
  eapply spec_bind; [apply (in_turn_mild dk); intros w; [inside|apply gently_accept_flush]|]. intros fl. cbv beta.
  destruct fl as [|uid' card|uid' card targets].
  - apply spec_given.
  - eapply spec_bind; [apply persist_in_turn|]. intros ok. cbv beta. apply then_given; [apply status_in_turn|].
    intros status. apply announcePersistence_calm.
  - eapply spec_bind; [apply clear_sidecar_in_turn|]. intros persisted. cbv beta.
    eapply spec_bind; [destruct persisted; [apply in_turn_ret|apply status_in_turn]|]. intros bad. cbv beta.
    eapply spec_bind; [apply thaw_settles|]. intros ?. cbv beta. apply then_given; [destruct persisted; [apply status_in_turn|apply in_turn_ret]|].
    intros status. apply calm_bind; [apply calm_sec; intros w; inside|]. intros from.
    apply calm_bind; [apply calm_each; intros t; apply sendTo_calm|]. intros ?. apply announcePersistence_calm.
Qed.
End Blocks.
