(* ===== verification/LiveUploads.v ===== *)
(** Compaction: a member's snapshot, piece by piece, takes the place of the log
    it covers, and everyone else in the document is sent it. *)

From S2P Require Import Prelude GoStr Roles Sidecar SidecarFacts Live LiveDocs LiveOps LiveHub LivePool LiveFacts LiveInv LiveUpdates LiveMembers.
Open Scope Z_scope.

Section Uploads.
Context `{GoRev}.

(** * While an upload is under way *)

(** A section that looks at the session, and after which all is settled again. *)
Lemma settled_block {A} dk (f : World → St A) :
  (∀ w, within (Some dk) (f w)) →
  (∀ w h, base_ok h → knows dk (settled dk) h → knows dk (settled dk) (f w h).1) →
  (∀ w h, base_ok h → h_docs h !! dk = None → h_docs (f w h).1 !! dk = None) → in_turn dk (sec f).
Proof.
  intros Hw Hf Hn. apply (spec_doc dk (settled dk) f (λ _, settled dk)); [apply settled_robust|done|].
  intros w h Hb Hk. split; [by apply Hf|by apply Hn].
Qed.

Lemma none_gone {A} dk (m : St A) h : within None m → base_ok h → h_docs h !! dk = None → h_docs (m h).1 !! dk = None.
Proof.
  intros Hw Hb Hn. destruct (Hw h Hb) as [_ [_ Hu]]. destruct (Hu dk ltac:(done)) as [Hs _ _]. rewrite Hn in Hs.
  by destruct (h_docs (m h).1 !! dk).
Qed.

Lemma settled_none {A} dk (m : St A) h : within None m → base_ok h → knows dk (settled dk) h → knows dk (settled dk) (m h).1.
Proof. intros Hw Hb Hk. eapply knows_in; [apply settled_robust|done..]. Qed.

Lemma request_in_turn dk c : in_turn dk (sec (λ w, request_section w c dk)).
Proof.
  apply settled_block; [intros w; inside| |].
  - intros w h Hb Hk. unfold request_section. assert (Hk1 := settled_none dk _ h (within_expire None dk (w_now w)) Hb Hk).
    run h1 u1 E1 (within_expire None dk (w_now w)). simpl in Hk1. rewrite session_bind. destruct (h_docs h1 !! dk) as [s|] eqn:Hs; [|done].
    case_bool_decide as Hc; [|done]. simpl. assert (Hk2 := token_settled w dk c s h1 Hbh1 Hs Hc Hk1).
    run h2 token E2 (within_compaction_token w dk c s). simpl in Hk2. apply settled_none; [|done..]. destruct token; inside.
  - intros w h Hb Hn. unfold request_section. assert (Hn1 := none_gone dk _ h (within_expire None dk (w_now w)) Hb Hn).
    run h1 u1 E1 (within_expire None dk (w_now w)). simpl in Hn1. rewrite session_bind, Hn1. done.
Qed.

Lemma docCompactRequest_calm c key : calm (docCompactRequest c key).
Proof.
  unfold docCompactRequest. apply calm_bind; [apply place_of_calm|]. intros [room actor]. cbv zeta.
  apply calm_block; [apply (request_in_turn (room, key))|]. intros slow. apply remove_all_calm.
Qed.

(** The upload's state moves on; whose it is and what it covers stays. *)
Lemma assembly_knows dk s cp a h :
  knows dk (settled dk) h → h_docs h !! dk = Some s → ss_compaction s = Some cp →
  0 < as_size a ≤ maxDocSnapshotTotalBytes → len (as_data a) ≤ as_size a →
  knows dk (settled dk) (set_session dk (with_compaction (Some (mkCompaction (cp_token cp) (cp_client cp) (cp_prefixLen cp) (cp_until cp) (Some a)))) h).1.
Proof.
  intros Hk Hs Hcp Ha Hlen s' Hs'. simpl in Hs'. rewrite lookup_alter_eq, Hs in Hs'. injection Hs' as <-.
  destruct (Hk s Hs) as (uid & log & t & Hsi & [M Z L B Ba U K F] & [Hh Hf]). exists uid, log, t. split_and!; [done| |by split].
  split; simpl; try done. intros cp' [= <-]. destruct (U cp Hcp) as (? & ? & ? & ? & _). simpl. split_and!; [done..|]. intros a' [= <-]. done.
Qed.

Lemma upload_of_Some s c token cp : upload_of s c token = Some cp → ss_compaction s = Some cp ∧ cp_client cp = c ∧ cp_token cp = token.
Proof.
  unfold upload_of. destruct (ss_compaction s) as [cp'|]; [|done]. destruct (_ && _) eqn:E; [|done]. intros [= <-].
  apply andb_true_iff in E as [E1%Nat.eqb_eq E2%String.eqb_eq]. done.
Qed.

Lemma start_in_turn dk c token size chunks :
  size ≤ maxDocSnapshotTotalBytes → in_turn dk (sec (λ w, start_section w c dk token size chunks)).
Proof.
  intros Hsize. apply settled_block; [intros w; inside| |].
  - intros w h Hb Hk. unfold start_section. assert (Hk1 := settled_none dk _ h (within_expire None dk (w_now w)) Hb Hk).
    run h1 u1 E1 (within_expire None dk (w_now w)). simpl in Hk1. rewrite session_bind, !get_bind.
    match goal with |- context [match ?o with None => reject _ _ _ _ | Some _ => _ end] => destruct o as [cp|] eqn:Eo end; [|by apply settled_none; [inside|..]].
    destruct (h_docs h1 !! dk) as [s|] eqn:Hs; [|done]. simpl in Eo. destruct (bool_decide _); [|done]. destruct (upload_of s c token) as [cp'|] eqn:Eu; [|done]. simpl in Eo.
    destruct (_ && _) eqn:Eg in Eo; [|done]. injection Eo as ->. apply upload_of_Some in Eu as (Hcp & _).
    rewrite !andb_true_iff, Z.ltb_lt in Eg. destruct Eg as [[_ Hpos] _].
    assert (Hk2 := settled_none dk _ h1 (within_add_snapshotBytes None size) Hbh1 Hk1).
    run h2 u2 E2 (within_add_snapshotBytes None size). simpl in Hk2.
    assert (Hs2 : h_docs h2 !! dk = Some s) by (injection E2 as <- _; exact Hs).
    assert (Hk3 := assembly_knows dk s cp (mkAssembly size chunks 0 EmptyString) h2 Hk2 Hs2 Hcp (conj Hpos Hsize)). simpl as_data in Hk3.
    specialize (Hk3 ltac:(simpl; unfold len; simpl; lia)).
    match goal with |- context [(set_session dk ?f ≫= _) h2] => run h3 u3 E3 (within_set_session dk f) end. simpl in Hk3.
    apply settled_none; [inside|done..].
  - intros w h Hb Hn. unfold start_section. assert (Hn1 := none_gone dk _ h (within_expire None dk (w_now w)) Hb Hn).
    run h1 u1 E1 (within_expire None dk (w_now w)). simpl in Hn1. rewrite session_bind, !get_bind, Hn1.
    apply (none_gone dk (reject w c dk.2 token)); [inside|done..].
Qed.

Lemma docSnapshotStart_calm c key token size chunks : size ≤ maxDocSnapshotTotalBytes → calm (docSnapshotStart c key token size chunks).
Proof.
  intros Hs. unfold docSnapshotStart. apply calm_bind; [apply place_of_calm|]. intros [room actor]. cbv zeta.
  apply calm_block; [by apply (start_in_turn (room, key))|]. intros slow. apply remove_all_calm.
Qed.

Lemma refuse_settled w c dk token h : base_ok h → knows dk (settled dk) h → knows dk (settled dk) (refuse_upload w c dk token h).1.
Proof. apply settled_none, within_refuse. Qed.

Lemma chunk_in_turn dk c token seq payload : in_turn dk (sec (λ w, chunk_section w c dk token seq payload)).
Proof.
  apply settled_block; [intros w; inside| |].
  - intros w h Hb Hk. unfold chunk_section. rewrite session_bind.
    match goal with |- context [match ?o with None => refuse_upload _ _ _ _ | Some _ => _ end] => destruct o as [[cp a]|] eqn:Eo end; [|by apply refuse_settled].
    destruct (h_docs h !! dk) as [s|] eqn:Hs; [|done]. simpl in Eo. destruct (upload_of s c token) as [cp'|] eqn:Eu; [|done]. simpl in Eo.
    destruct (cp_assembly cp') as [a'|] eqn:Ea; [|done]. simpl in Eo. destruct (in_time w cp'); [|done]. injection Eo as -> ->.
    apply upload_of_Some in Eu as (Hcp & _). destruct (_ || _) eqn:Eg; [by apply settled_none; [inside|..]|].
    apply orb_false_iff in Eg as [_ Eg]. apply Z.ltb_ge in Eg.
    destruct (Hk s Hs) as (? & ? & ? & _ & Hok & _). destruct (ds_upload _ _ _ _ _ Hok cp Hcp) as (_ & _ & _ & _ & Has).
    assert (Hk1 := assembly_knows dk s cp (mkAssembly (as_size a) (as_chunks a) (as_next a + 1) (as_data a +:+ payload)) h Hk Hs Hcp (proj1 (Has a Ea))).
    simpl as_data in Hk1. rewrite len_app in Hk1. specialize (Hk1 Eg).
    match goal with |- context [(set_session dk ?f ≫= _) h] => run h1 u1 E1 (within_set_session dk f) end. simpl in Hk1.
    apply settled_none; [inside|done..].
  - intros w h Hb Hn. unfold chunk_section. rewrite session_bind, Hn. apply (none_gone dk (refuse_upload w c dk token)); [inside|done..].
Qed.

Lemma docSnapshotChunk_calm c key token seq payload : calm (docSnapshotChunk c key token seq payload).
Proof.
  unfold docSnapshotChunk. apply calm_bind; [apply place_of_calm|]. intros [room actor]. cbv zeta.
  apply calm_block; [apply (chunk_in_turn (room, key))|]. intros slow. apply remove_all_calm.
Qed.

Lemma docSnapshotAbort_calm c key token : calm (docSnapshotAbort c key token).
Proof.
  unfold docSnapshotAbort. apply calm_bind; [apply place_of_calm|]. intros [room actor]. cbv zeta.
  apply calm_block; [apply in_turn_none; intros w; inside|]. intros slow. apply remove_all_calm.
Qed.

Lemma docCompactionTimeout_calm dk c token : calm (docCompactionTimeout dk c token).
Proof.
  unfold docCompactionTimeout. apply calm_block; [apply in_turn_none; intros w; inside|]. intros slow. apply remove_all_calm.
Qed.

(** * The commit *)

(** The snapshot is the log's base; its maker knows the log, the targets are the
    others and know all but the base. *)
Record swapped (dk : DocKey) (c : nat) (uid blob : nat) (targets : list nat) (s : Session) (t : list Happened) : Prop := {
  sw_uid : ss_uid s = uid;
  sw_snapshot : ss_snapshot s = Some blob;
  sw_maker : up_to_date c dk s t;
  sw_targets : ∀ c', c' ∈ targets ↔ c' ∈ ss_members s ∧ c' ≠ c;
  sw_tail : ∀ c', c' ∈ targets → caught_up t c' dk (tail (ss_log s));
}.

Lemma swapped_sturdy dk c uid blob targets : sturdy dk (swapped dk c uid blob targets).
Proof.
  intros s s' t l [Hu Hb Hm Ht Hr] Ha Hd. split.
  - by rewrite (al_uid _ _ Ha).
  - by rewrite (al_snapshot _ _ Ha).
  - by eapply up_to_date_sturdy.
  - intros c'. by rewrite (al_members _ _ Ha).
  - intros c' Hc'. rewrite (al_log _ _ Ha). apply caught_up_app; [by apply dull_joins|auto].
Qed.

Definition based_on (payload : string) (blob : nat) (rest : list string) (s : Session) : Session :=
  with_log (payload :: rest) (with_logBytes (len payload + bytes rest) (with_snapshot (Some blob)
    (with_generation (wrap64 (ss_generation s + 1)) (with_compacted false (with_compaction None s))))).

Lemma drop_elem {A} (u : A) n us : u ∈ drop n us → u ∈ us.
Proof. intros Hu. rewrite <- (take_drop n us), elem_of_app. by right. Qed.

(** What the snapshot covers may go, and a sidecar can hold what stays. *)
Lemma based_log_ok s payload n :
  0 < len payload ≤ maxDocSnapshotTotalBytes → (ss_snapshot s ≠ None → (0 < n)%nat) →
  bytes (drop n (ss_log s)) ≤ maxDocLogBytes + maxDocUpdateBytes → Z.of_nat (length (drop n (ss_log s))) ≤ maxDocDeltaEntries →
  log_ok (cd_snapshot (sidecarLocked s)) (ss_log s) → log_ok true (payload :: drop n (ss_log s)).
Proof.
  intros Hp Hn Hb Hc [Lb Ls Ld Lc Lt]. simpl in Lb, Ld. split; simpl; try done.
  - intros _. by eexists _, _.
  - intros u. rewrite elem_of_cons. intros [-> |Hu]; [done|]. apply Ls. by eapply drop_elem.
  - intros u Hu. apply Ld. simpl. destruct (ss_snapshot s) as [b|]; [|by eapply drop_elem].
    destruct (Lb eq_refl) as (base & us & E). rewrite E in *. destruct n as [|n]; [specialize (Hn ltac:(done)); lia|]. simpl in *.
    by eapply drop_elem.
Qed.

(** The commit, in the book: what the snapshot was asked to cover is covered. *)
Lemma based_ok dk s cp payload blob bl h h' log t :
  let x := Replaced dk (ss_uid s) (cp_token cp) (cp_client cp) payload in
  let rest := drop (cp_prefixLen cp) (ss_log s) in
  doc_ok h dk s log t → ss_compaction s = Some cp → later h h' → h_blobs h' !! blob = Some bl → bl_payload bl = payload →
  0 < len payload ≤ maxDocSnapshotTotalBytes → bytes rest ≤ maxDocLogBytes + maxDocUpdateBytes →
  Z.of_nat (length rest) ≤ maxDocDeltaEntries →
  doc_ok h' dk (based_on payload blob rest s) log (t ++ [x]).
Proof.
  intros x rest [M Z L B Ba U K F] Hcp Hl Hbl Hp Hlen Hby Hco. destruct (U cp Hcp) as (Hin & Hle & Hpos & Hask & _). split; simpl; try done.
  - intros c' Hc'. eapply known_later; [done|auto].
  - by eapply leads_later.
  - intros b [= <-]. by exists payload, rest, bl.
  - assert (Hcov : ∀ u, u ∈ ss_log s → u ∈ payload :: rest ∨ covered (t ++ [x]) dk u).
    { intros u Hu. rewrite <- (take_drop (cp_prefixLen cp) (ss_log s)), elem_of_app in Hu. destruct Hu as [Hu|Hu]; [|left; by right].
      right. exists t, (ss_uid s), (cp_token cp), (cp_client cp), payload, [], (take (cp_prefixLen cp) (ss_log s)). done. }
    assert (Hold : ∀ u, accepted log t dk u → u ∈ payload :: rest ∨ covered (t ++ [x]) dk u).
    { intros u Hu. destruct (K u Hu) as [?|?]; [auto|right; by apply covered_app]. }
    intros u [Hu|Hu]; [apply Hold; by left|]. apply Exists_app in Hu as [Hu|Hu]; [apply Hold; by right|].
    apply Exists_cons in Hu as [[_ <-]|Hu]; [left; left|by apply Exists_nil in Hu].
  - destruct F as [?|F]; [left; by apply thawed_app|right]. by apply (based_log_ok s payload (cp_prefixLen cp)).
Qed.

Definition after_swap (dk : DocKey) (c : nat) (cm : Commit) (s : Session) (t : list Happened) : Prop :=
  match cm with
  | Refused _ => settled dk s t
  | Swapped uid blob _ targets => swapped dk c uid blob targets s t
  end.

Lemma after_swap_sturdy dk c cm : sturdy dk (after_swap dk c cm).
Proof. destruct cm; [apply settled_sturdy|apply swapped_sturdy]. Qed.

(** Whoever heard the log has heard what is left of it; the maker has the base. *)
Lemma based_swapped dk c s blob payload n token t :
  settled dk s t → c ∈ ss_members s →
  swapped dk c (ss_uid s) blob (othersLocked c (based_on payload blob (drop n (ss_log s)) s)) (based_on payload blob (drop n (ss_log s)) s)
    (t ++ [Replaced dk (ss_uid s) token c payload]).
Proof.
  intros [Hh _] Hc. set (x := Replaced dk (ss_uid s) token c payload).
  assert (Hx : ∀ c', Forall (λ y, joins c' dk y = false) [x]) by (intros c'; by apply Forall_singleton).
  assert (Hrest : ∀ c', c' ∈ ss_members s → caught_up t c' dk (drop n (ss_log s))).
  { intros c' Hc'. eapply caught_up_sub; [|by apply Hh]. intros u. apply drop_elem. }
  split; simpl; try done.
  - split; [done|]. simpl. eapply caught_up_sub; [|apply (caught_up_add t c dk (drop n (ss_log s)) [payload]); [apply Hx|by apply Hrest|]].
    + intros u. rewrite elem_of_cons, elem_of_app, list_elem_of_singleton. tauto.
    + right. intros u Hu. apply list_elem_of_singleton in Hu as ->. by left.
  - intros c'. by rewrite others_elem.
  - intros c' [Hc' _]%others_elem. apply caught_up_app; [apply Hx|by apply Hrest].
Qed.

Lemma swap_knows w c dk token h :
  base_ok h → knows dk (settled dk) h → knows dk (after_swap dk c (swap_base w c dk token h).2) (swap_base w c dk token h).1.
Proof.
  intros Hb Hk. unfold swap_base. rewrite session_bind.
  match goal with |- context [match ?o with None => _ | Some _ => _ end] => destruct o as [[[s cp] a]|] eqn:Eo end.
  2: { assert (Hk1 := refuse_settled w c dk token h Hb Hk). unfold mbind, St_bind. by destruct (refuse_upload w c dk token h). }
  destruct (h_docs h !! dk) as [s'|] eqn:Hs; [|done]. simpl in Eo. destruct (bool_decide (c ∈ ss_members s')) eqn:Ec; [|done].
  apply bool_decide_eq_true in Ec. destruct (upload_of s' c token) as [cp'|] eqn:Eu; [|done]. simpl in Eo.
  destruct (cp_assembly cp') as [a'|] eqn:Ea; [|done]. simpl in Eo. destruct (in_time w cp'); [|done]. injection Eo as -> -> ->.
  apply upload_of_Some in Eu as (Hcp & <- & <-). cbv zeta.
  set (payload := as_data a). set (rest := drop (cp_prefixLen cp) (ss_log s)). destruct (_ || _) eqn:Eg.
  { assert (W : within None (_ ← clearCompactionLocked dk; slow ← reject w (cp_client cp) dk.2 (cp_token cp); mret (Refused slow))) by inside.
    assert (Hk1 := settled_none dk _ h W Hb Hk). revert Hk1. unfold mbind, St_bind. destruct (clearCompactionLocked dk h) as [h1 u1].
    by destruct (reject w (cp_client cp) dk.2 (cp_token cp) h1). }
  rewrite !orb_false_iff, !negb_false_iff, !Z.ltb_ge, !Z.eqb_eq in Eg. destruct Eg as [[[_ Hlen] Hby] Hco].
  destruct (Hk s Hs) as (uid & log & t & Hsi & Hok & Hset). destruct (ds_upload _ _ _ _ _ Hok cp Hcp) as (_ & _ & _ & _ & Has).
  specialize (Has a Ea).
  run h1 blob E1 (within_new_blob (Some dk) payload 1). fold (based_on payload blob rest s). set (s1 := based_on payload blob rest s).
  set (x := Replaced dk (ss_uid s) (cp_token cp) (cp_client cp) payload).
  run h2 u2 E2 (within_set_client (Some dk) (cp_client cp) (forget_upload (cp_token cp)) ltac:(intros cl; unfold forget_upload; by case_match)).
  run h3 u3 E3 (within_insert_session dk s1).
  match goal with |- context [(?m ≫= _) h3] => set (rel := m); assert (Wr : within (Some dk) rel) by (unfold rel; inside) end.
  assert (Hrel : h_docs (rel h3).1 = h_docs h3 ∧ h_trace (rel h3).1 = h_trace h3).
  { unfold rel. destruct (ss_snapshot s) as [b|]; [|done]. split; [apply keeps_release|apply release_trace]. }
  run h4 u4 E4 Wr. simpl in Hrel. destruct Hrel as [Hd4 Ht4].
  run h5 u5 E5 (within_note (Some dk) x ltac:(by intros ? <-) ltac:(done) ltac:(tauto)). simpl.
  assert (L : later h h5).
  { etrans; [|apply Hth5]. etrans; [|apply Hth4]. etrans; [|apply Hth3]. etrans; [apply Hth1|apply Hth2]. }
  assert (Hbl : ∃ bl, h_blobs h5 !! blob = Some bl ∧ bl_payload bl = payload).
  { assert (L1 : later h1 h5) by (etrans; [|apply Hth5]; etrans; [|apply Hth4]; etrans; [apply Hth2|apply Hth3]).
    assert (Hb1 : h_blobs h1 !! blob = Some (mkBlob payload 1)) by (injection E1 as <- <-; apply lookup_insert_eq).
    destruct (lt_blobs _ _ L1 _ _ Hb1) as (bl & ? & ?). by exists bl. }
  destruct Hbl as (bl & Hbl & Ep).
  assert (Hd5 : h_docs h5 !! dk = Some s1) by (injection E5 as <- _; simpl; rewrite Hd4; injection E3 as <- _; apply lookup_insert_eq).
  assert (Ht5 : h_trace h5 = h_trace h ++ [x]).
  { injection E5 as <- _. simpl. rewrite Ht4. injection E3 as <- _. injection E2 as <- _. injection E1 as <- _. done. }
  intros s' Hs'. rewrite Hd5 in Hs'. injection Hs' as <-. exists uid, log, (t ++ [x]). split_and!.
  - rewrite Ht5. apply since_app; [by apply Forall_singleton|done].
  - eapply based_ok; [exact Hok|exact Hcp|exact L|exact Hbl|exact Ep|rewrite Hlen; apply Has|done|done].
  - by apply based_swapped.
Qed.


(** The targets are sent the base. *)
Lemma base_told w dk c uid blob targets token from word (rest : Session → list Happened → Prop) h :
  base_ok h → robust dk rest → (∀ c', c' ∈ targets → is_Some (h_clients h !! c')) →
  (∀ s, h_docs h !! dk = Some s → ∃ bl us, h_blobs h !! blob = Some bl ∧ ss_log s = bl_payload bl :: us) →
  knows dk (λ s t, swapped dk c uid blob targets s t ∧ rest s t) h →
  knows dk (λ s t, (∀ c', c' ∈ ss_members s → caught_up t c' dk (ss_log s)) ∧ rest s t)
    (queue_snapshots w targets (mkJob dk.2 token from blob []) word h).1.
Proof.
  intros Hb Hr Hcl Hbl Hk. destruct (h_docs h !! dk) as [s|] eqn:Hs.
  - destruct (Hbl s eq_refl) as (bl & us & Ebl & El).
    assert (Hk' : knows dk (λ s t, (swapped dk c uid blob targets s t ∧ rest s t) ∧ ss_log s = bl_payload bl :: us) h).
    { eapply knows_here; [exact Hs| |exact Hk]. auto. }
    eapply knows_said; [|apply (snapshots_says w targets (mkJob dk.2 token from blob []) word bl); [done|done|by exists bl]|exact Hk']. simpl.
    intros s' t l [[[_ _ [Hc Hcu] Ht Htail] Hre] El'] Hu Hsaid. split; [|eapply Hr; [done|by left|done]]. intros c' Hc'.
    destruct (decide (c' = c)) as [-> |Hne]; [by apply caught_up_app; [apply uneventful_joins|]|].
    assert (Hin : c' ∈ targets) by by apply Ht. eapply caught_up_sub; [|apply (caught_up_add t c' dk (tail (ss_log s')) [bl_payload bl]); [by apply uneventful_joins|auto|]].
    + rewrite El'. simpl. intros u. rewrite elem_of_cons, elem_of_app, list_elem_of_singleton. tauto.
    + destruct (Hsaid c' Hin) as [Hx|Hsp]; [right|by left]. intros u Hu'. apply list_elem_of_singleton in Hu' as ->.
      apply Exists_exists. eexists. split; [exact Hx|]. simpl. tauto.
  - intros s Hs'. assert (Hn : h_docs (queue_snapshots w targets (mkJob dk.2 token from blob []) word h).1 !! dk = None).
    { by rewrite keeps_queue_snapshots. }
    congruence.
Qed.

(** The verdict on the session: what is known of it stays, the freeze is as
    given, and lifting one past the line is in the book. *)
Definition judge (dk : DocKey) (s : Session) (frozen : bool) : St unit :=
  _ ← when (negb frozen && over_line s) (note (Thawed dk (ss_uid s)));
  set_session dk (λ s, with_frozen frozen (with_degraded frozen s)).

Lemma judge_knows dk s frozen pred h :
  knows dk (λ s t, pred s t) h → h_docs h !! dk = Some s →
  (∀ t l, pred s t → Forall (dull dk) l → pred (with_frozen frozen (with_degraded frozen s)) (t ++ l)) →
  knows dk (λ s t, pred s t ∧ frozen_ok dk s t) (judge dk s frozen h).1.
Proof.
  intros Hk Hs Hpp. destruct (Hk s Hs) as (uid & log & t & Hsi & Hok & Hp). set (s1 := with_frozen frozen (with_degraded frozen s)).
  assert (Hok1 : ∀ h' l, later h h' → Forall (dull dk) l → doc_ok h' dk s1 log (t ++ l)).
  { intros h' l Hl Hd. destruct (doc_ok_alike _ h' _ _ s _ _ l Hok Hl Hd ltac:(reflexivity)). by split. }
  set (x := Thawed dk (ss_uid s)).
  assert (Hx : dull dk x) by (split_and!; [done|done|]; intros u; simpl; tauto).
  unfold judge, when. destruct (negb frozen && over_line s) eqn:Ef; simpl; intros s' Hs'; simpl in Hs';
    rewrite lookup_alter_eq, Hs in Hs'; injection Hs' as <-.
  - exists uid, log, (t ++ [x]). assert (Hl : Forall (dull dk) [x]) by by apply Forall_singleton. split_and!.
    + apply since_app; [by apply Forall_singleton|done].
    + apply Hok1; [by split; simpl; eauto|done].
    + by apply Hpp.
    + left. exists (ss_uid s). apply elem_of_app. right. by apply list_elem_of_singleton.
  - exists uid, log, t. rewrite <- (app_nil_r t). split_and!; [by rewrite app_nil_r| |by apply Hpp; [|constructor]|].
    + apply Hok1; [|constructor]. split; simpl; eauto. exists []. by rewrite app_nil_r.
    + right. destruct frozen; [by left|by right].
Qed.

Lemma judge_within dk s frozen : within (Some dk) (judge dk s frozen).
Proof. unfold judge. inside. Qed.

Definition judged (dk : DocKey) (c : nat) (uid blob : nat) (targets : list nat) (s : Session) (t : list Happened) : Prop :=
  swapped dk c uid blob targets s t ∧ frozen_ok dk s t.

Lemma judged_sturdy dk c uid blob targets : sturdy dk (judged dk c uid blob targets).
Proof. apply sturdy_and; [apply swapped_sturdy|apply frozen_ok_sturdy]. Qed.

Lemma judge_judged dk c s frozen uid blob targets h :
  knows dk (swapped dk c uid blob targets) h → h_docs h !! dk = Some s → knows dk (judged dk c uid blob targets) (judge dk s frozen h).1.
Proof.
  intros Hk Hs. apply judge_knows; [done..|]. intros t l Hp Hd.
  pose proof (swapped_sturdy _ _ _ _ _ s s t l Hp ltac:(reflexivity) Hd) as []. by split.
Qed.

Lemma spread_knows w dk c uid blob targets token from word h :
  base_ok h → (∀ c', c' ∈ targets → is_Some (h_clients h !! c')) → knows dk (judged dk c uid blob targets) h →
  knows dk (settled dk) (queue_snapshots w targets (mkJob dk.2 token from blob []) word h).1.
Proof.
  intros Hb Hcl Hk. eapply doc_with_weaken; [|apply (base_told w dk c uid blob targets token from word (frozen_ok dk) h Hb)]; [| |done| |exact Hk].
  - intros s' t' [Hh Hf]. by split.
  - apply sturdy_robust, frozen_ok_sturdy.
  - intros s' Hs'. destruct (Hk s' Hs') as (? & ? & ? & _ & Hok' & [Hsw' _]).
    destruct (ds_base _ _ _ _ _ Hok' blob (sw_snapshot _ _ _ _ _ _ _ Hsw')) as (base & us & bl & El & Ebl & Ep). exists bl, us. by rewrite Ep.
Qed.

Lemma tell_knows w c dk token uid blob targets ok h :
  base_ok h → knows dk (swapped dk c uid blob targets) h → knows dk (settled dk) (tell_base w c dk token uid blob targets ok h).1.
Proof.
  intros Hb Hk. unfold tell_base. rewrite session_bind. destruct (h_docs h !! dk) as [s|] eqn:Hs; [|by intros s; simpl; rewrite Hs].
  destruct (Hk s Hs) as (u0 & log & t & Hsi & Hok & Hsw). pose proof (sw_uid _ _ _ _ _ _ _ Hsw) as Eu. rewrite <- Eu, Nat.eqb_refl.
  cbv beta iota delta [negb]. rewrite get_bind. cbv zeta. set (from := client_id h c). set (job := mkJob dk.2 token from blob []).
  assert (Hcl : ∀ h', later h h' → ∀ c', c' ∈ targets → is_Some (h_clients h' !! c')).
  { intros h' L c' Hc'. eapply known_later; [exact L|]. apply (ds_members _ _ _ _ _ Hok). by apply (sw_targets _ _ _ _ _ _ _ Hsw). }
  destruct ok.
  - assert (Hj := judge_judged dk c s false uid blob targets h Hk Hs).
    run h1 u1 E1 (ltac:(inside) : within (Some dk) (when (over_line s) (note (Thawed dk (ss_uid s))))).
    run h2 u2 E2 (within_set_session dk (λ s, with_frozen false (with_degraded false s))).
    unfold judge in Hj. simpl negb in Hj. rewrite (bind_run _ _ _ _ _ E1), E2 in Hj. simpl in Hj.
    run h3 ok1 E3 (within_queueEvent None w c (SnapshotAccepted dk.2 token)). run h4 ok2 E4 (within_queueEvent None w c (DocPersistenceRestored dk.2)).
    apply (knows_touches _ _ _ _ (sturdy_robust _ _ (judged_sturdy dk c uid blob targets)) Hth3) in Hj.
    apply (knows_touches _ _ _ _ (sturdy_robust _ _ (judged_sturdy dk c uid blob targets)) Hth4) in Hj.
    assert (L : later h h4) by (etrans; [apply Hth1|]; etrans; [apply Hth2|]; etrans; [apply Hth3|apply Hth4]).
    assert (Hk5 := spread_knows w dk c uid blob targets token from (if ss_degraded s then Some (DocPersistenceRestored dk.2) else None) h4 Hbh4 (Hcl h4 L) Hj). fold job in Hk5.
    run h5 slow E5 (within_queue_snapshots None w targets job (if ss_degraded s then Some (DocPersistenceRestored dk.2) else None)). simpl in Hk5. apply settled_none; [inside|done..].
  - assert (Hj := judge_judged dk c s true uid blob targets h Hk Hs).
    run h1 u1 E1 (within_set_session dk (λ s, with_frozen true (with_degraded true s))).
    assert (E1' : (judge dk s true h).1 = h1) by (injection E1 as <- _; done). rewrite E1' in Hj.
    run h2 ok E2 (within_queueEvent None w c (SnapshotRejected dk.2 token)).
    apply (knows_touches _ _ _ _ (sturdy_robust _ _ (judged_sturdy dk c uid blob targets)) Hth2) in Hj.
    assert (L : later h h2) by (etrans; [apply Hth1|apply Hth2]).
    assert (Hk3 := spread_knows w dk c uid blob targets token from None h2 Hbh2 (Hcl h2 L) Hj). fold job in Hk3.
    run h3 slow E3 (within_queue_snapshots None w targets job None). simpl in Hk3. apply settled_none; [inside|done..].
Qed.

Lemma docSnapshotCommit_calm c key token : calm (docSnapshotCommit c key token).
Proof.
  unfold docSnapshotCommit. apply calm_bind; [apply place_of_calm|]. intros [room actor]. set (dk := (room, key)). cbv zeta.
  eapply spec_bind; [apply (spec_taken dk)|]. intros ?. cbv beta. eapply spec_bind.
  { apply (spec_doc dk (settled dk) _ (after_swap dk c)); [apply settled_robust|intros w; inside|]. intros w h Hb Hk.
    split; [by apply swap_knows|]. intros Hn. unfold swap_base. rewrite session_bind, Hn. simpl.
    assert (W : within None (slow ← refuse_upload w c dk token; mret (Refused slow))) by inside. by apply (none_gone dk _ h W). }
  intros cm. cbv beta. apply then_given; [|intros slow; apply remove_all_calm]. destruct cm as [slow|uid blob card targets]; [by apply spec_ret|].
  eapply spec_bind.
  { apply (spec_mild dk); [apply after_swap_sturdy|intros w; inside|intros w; apply gently_persist]. }
  intros ok. cbv beta. apply (spec_doc dk _ _ (λ _, settled dk)); [apply sturdy_robust, after_swap_sturdy|intros w; inside|].
  intros w h Hb Hk. split; [by apply tell_knows|]. intros Hn. unfold tell_base. by rewrite session_bind, Hn.
Qed.
End Uploads.
