(* ===== verification/LiveGoals.v ===== *)
(** What every run of the live hub guarantees, whatever its goroutines' order.

    Where the live hub does not do what it means to: runs and steps that show it. *)

From stdpp Require Import strings.
From S2P Require Import Prelude GoStr GoFloat Roles Readiness Sidecar SidecarFacts Live LiveDocs LiveOps LiveHub LivePool LiveTurns LiveFacts LiveSlow LiveInv LiveUpdates LiveMembers LiveUploads.
Open Scope Z_scope.

#[export] Hint Resolve openDoc_calm closeDoc_calm leaveAllDocs_calm docFlushed_calm docCompactRequest_calm docSnapshotChunk_calm
  docSnapshotAbort_calm docCompactionTimeout_calm docSnapshotCommit_calm retry_calm : calm.

Section Goals.
Context `{GoRev}.

(** * Every goroutine keeps the invariant *)

Lemma valid_update m : validClientMessage m = true → String.eqb (m_Type m) "doc-update" || String.eqb (m_Type m) "doc-snapshot" = true →
  0 < len (m_Payload m) ≤ maxDocUpdateBytes.
Proof.
  intros Hv Ht. assert (Hpay : ∀ max, negb (String.eqb (m_Payload m) EmptyString) && (len (m_Payload m) <=? max) = true → 0 < len (m_Payload m) ≤ max).
  { intros max [Hn Hl]%andb_true_iff. apply Z.leb_le in Hl. split; [|done]. destruct (m_Payload m); [done|]. rewrite len_cons.
    pose proof (len_nonneg s). lia. }
  apply Hpay. unfold validClientMessage in Hv. apply andb_true_iff in Hv as [_ Hv].
  apply orb_true_iff in Ht as [Ht|Ht]; apply String.eqb_eq in Ht; rewrite Ht in Hv; cbn -[maxDocUpdateBytes maxDocSnapshotBytes] in Hv.
  all: apply andb_true_iff in Hv as [_ Hv]; exact Hv.
Qed.

Lemma valid_start m : validClientMessage m = true → String.eqb (m_Type m) "doc-snapshot-start" = true → m_Size m ≤ maxDocSnapshotTotalBytes.
Proof.
  intros Hv Ht. apply String.eqb_eq in Ht. unfold validClientMessage in Hv. apply andb_true_iff in Hv as [_ Hv]. rewrite Ht in Hv.
  cbn -[maxDocSnapshotTotalBytes maxDocSnapshotChunks chunks_for validDocToken] in Hv. rewrite !andb_true_iff, !Z.leb_le in Hv. tauto.
Qed.

Lemma sendPresence_calm room only : calm (sendPresence room only).
Proof. unfold sendPresence. stroll. Qed.
Lemma sendLocks_calm room only : calm (sendLocks room only).
Proof. unfold sendLocks. stroll. Qed.
Hint Resolve sendPresence_calm sendLocks_calm : calm.
Ltac stroll_on := repeat first [stroll_step | apply within_modify; done | apply within_set_client; keeps_names].

Lemma releaseAll_calm c room : calm (releaseAll c room).
Proof. unfold releaseAll, publishLocks. stroll_on. Qed.
Hint Resolve releaseAll_calm : calm.
Lemma remove_calm c : calm (remove c).
Proof. unfold remove, publishPresence. stroll_on. Qed.
Lemma deny_calm c previous project : calm (deny c previous project).
Proof. unfold deny, publishPresence. stroll_on. Qed.
Hint Resolve remove_calm deny_calm : calm.
Lemma relay_calm c make ghost : calm (relay c make ghost).
Proof. unfold relay. stroll_on. Qed.
Hint Resolve relay_calm : calm.

Lemma handleMessage_calm c m : validClientMessage m = true → calm (handleMessage c m).
Proof.
  intros Hv. pose proof (valid_update m Hv) as Hu. pose proof (valid_start m Hv) as Hst. unfold handleMessage. cbv zeta.
  repeat match goal with |- calm (if ?b then _ else _) => destruct b eqn:? end; try solve [stroll];
    unfold subscribe, presence, drag, acquireLock, releaseLock, publishPresence, publishLocks; try solve [stroll_on].
  - apply docUpdate_calm. auto.
  - apply docSnapshotStart_calm. auto.
Qed.

Lemma run_ok t h : wp (λ _, True) hub_ok later untouched (run t) None h.
Proof.
  unfold run. apply spec_finish. change (spec (λ _, True) hub_ok later untouched None None (λ _, True) ?m (λ _ _, True)) with (calm m).
  destruct t as [id actor ip|c m|c|c|c|dk c token| |to e|].
  - unfold connect. stroll_on.
  - unfold receive. apply calm_bind; [stroll|]. intros authorized. destruct (negb authorized || _) eqn:E; [stroll|].
    apply orb_false_iff in E as [_ E%negb_false_iff]. apply calm_bind; [stroll|]. intros allowed. destruct (negb allowed); [stroll|].
    by apply handleMessage_calm.
  - unfold write_one, catchUp. stroll_on.
  - unfold ping. stroll_on.
  - apply remove_calm.
  - stroll.
  - unfold RecheckAccess, recheck_one. stroll_on.
  - unfold send. stroll_on.
  - unfold Close. stroll_on.
Qed.

Lemma start_ok disk : pool_ok (λ _, True) hub_ok later untouched (start_pool disk).
Proof.
  split; simpl; try done; [|by intros i [th Hth]]. split; simpl; try done.
  - split; simpl; try done; [intros c [cl Hc]; done|intros b [bl Hb]; done|intros c Hc; by apply elem_of_nil in Hc|].
    intros t1 dk uid card t2 E. by destruct t1.
Qed.

Lemma reachable_pool disk p : reachable disk p → pool_ok (λ _, True) hub_ok later untouched p.
Proof.
  intros Hr. eapply pool_keeps; [| | | | | | |apply start_ok|exact Hr].
  - intros h. reflexivity.
  - intros a b c ? ?. by etrans.
  - intros dk h. reflexivity.
  - intros dk a b c ? ?. by etrans.
  - apply hub_ok_more.
  - apply run_ok.
  - done.
Qed.

(** And whoever missed a frame is removed. *)
Lemma reachable_tidy disk p : reachable disk p → pool_tidy p.
Proof.
  intros Hr. assert (Hn : ∃ n, nsteps pool_step n (start_pool disk) p) by by apply rtc_nsteps. destruct Hn as [n Hn]. revert p Hr Hn.
  induction n as [|n IH]; intros p Hr Hn.
  - inversion Hn; subst. split; simpl; [done|by intros i [th Hth]|]. intros c Hc. by apply elem_of_nil in Hc.
  - apply nsteps_inv_r in Hn as (p0 & Hn & Hs). assert (Hr0 : reachable disk p0) by (apply rtc_nsteps; by exists n).
    specialize (IH p0 Hr0 Hn). pose proof (reachable_pool disk p0 Hr0) as Hok. destruct Hs as [t _|i p' Hm]; [by apply tidy_begin|].
    eapply tidy_move; [|by eapply (move_ext (λ _, True) hub_ok later untouched); try done; intros; reflexivity|exact IH|exact Hm].
    apply (bk_spilled _ (ho_base _ _ (po_inv _ _ _ _ _ Hok))).
Qed.

(** What holds in every state a pool reaches. *)
Lemma reachable_ok disk p : reachable disk p → hub_ok (dom (p_turns p)) (p_hub p).
Proof. intros Hr. by eapply po_inv, reachable_pool. Qed.

Lemma reachable_session disk p dk s : reachable disk p → h_docs (p_hub p) !! dk = Some s →
  ∃ uid log t, since (opens dk) (h_trace (p_hub p)) = Some (Opened dk uid log, t) ∧ doc_ok (p_hub p) dk s log t
    ∧ (p_turns p !! dk = None → settled dk s t).
Proof.
  intros Hr Hs. destruct (ho_docs _ _ (reachable_ok disk p Hr) dk s Hs) as (uid & log & t & Hsi & Hok & Hse).
  exists uid, log, t. split_and!; [done..|]. intros Hn. apply Hse. by apply not_elem_of_dom.
Qed.

(** * The theorems *)

(** C3: nobody in a document misses an update.  In every state the hub can
    reach, when nobody has the document's turn, each member was sent every
    entry of its log since it last joined, alone or in a snapshot, or made the
    entry itself; unless it is being removed, for a frame that found its queue
    full: its removal has begun, or a goroutine is left that removes it before
    it ends. *)
Theorem participants_miss_nothing disk p dk s c :
  reachable disk p → h_docs (p_hub p) !! dk = Some s → p_turns p !! dk = None → c ∈ ss_members s →
  ∃ before uid after, h_trace (p_hub p) = before ++ Joined c dk uid :: after ∧ Forall (λ x, joins c dk x = false) after
    ∧ ((Spilled c ∈ after ∧ being_removed p c) ∨ ∀ u, u ∈ ss_log s → Exists (tells c dk u) after).
Proof.
  intros Hr Hs Hn Hc. destruct (reachable_session disk p dk s Hr Hs) as (uid & log & t & (a & E & _ & _)%since_split & _ & Hse).
  destruct (st_heard _ _ _ (Hse Hn) c Hc) as (e & t' & (b & -> & Hj & Hf)%since_split & Hh).
  destruct e; try done. simpl in Hj. apply bool_decide_eq_true in Hj as [-> ->].
  exists (a ++ Opened dk uid log :: b), uid0, t'. rewrite E, <- app_assoc. split_and!; [done..|].
  destruct Hh as [Hsp|Hh]; [left|by right]. split; [done|]. apply (pt_removed _ (reachable_tidy disk p Hr)). rewrite E.
  rewrite !elem_of_app, !elem_of_cons, elem_of_app, elem_of_cons. tauto.
Qed.

(** C2: nothing a document accepted is lost while its session lives.  The log
    it was opened with, every member's update since, every snapshot: each is
    still in the log, or a snapshot took its place that a member made who had
    heard it when asked for one, or had had its queue full. *)
Theorem updates_are_kept disk p dk s :
  reachable disk p → h_docs (p_hub p) !! dk = Some s →
  ∃ before uid log t, h_trace (p_hub p) = before ++ Opened dk uid log :: t ∧ Forall (λ x, opens dk x = false) t
    ∧ ∀ u, accepted log t dk u → u ∈ ss_log s ∨ covered t dk u.
Proof.
  intros Hr Hs. destruct (reachable_session disk p dk s Hr Hs) as (uid & log & t & (a & E & _ & Hf)%since_split & Hok & _).
  exists a, uid, log, t. split_and!; [done..|]. apply (ds_kept _ _ _ _ _ Hok).
Qed.

(** C16: the table of live documents is sound in every state the hub can reach:
    at most 256 sessions, at most 16 members in each, all of them clients; the
    leader is the member with the lowest id, and there is one if there is a
    member; the log's size is its updates', and a snapshot is its first entry. *)
Theorem sessions_are_sound disk p :
  reachable disk p →
  Z.of_nat (size (h_docs (p_hub p))) ≤ maxDocSessions ∧
  ∀ dk s, h_docs (p_hub p) !! dk = Some s →
    (∀ c, c ∈ ss_members s → is_Some (h_clients (p_hub p) !! c)) ∧ Z.of_nat (size (ss_members s)) ≤ maxDocParticipants
    ∧ leads (p_hub p) (ss_members s) (ss_leader s) ∧ ss_logBytes s = bytes (ss_log s)
    ∧ ∀ b, ss_snapshot s = Some b → ∃ us, ss_log s = blob_payload (p_hub p) b :: us.
Proof.
  intros Hr. split; [apply (ho_table _ _ (reachable_ok disk p Hr))|]. intros dk s Hs.
  destruct (reachable_session disk p dk s Hr Hs) as (uid & log & t & _ & [M Z L B Ba _ _ _] & _). split_and!; try done.
  intros b Hb. destruct (Ba b Hb) as (base & us & bl & El & Ebl & Ep). exists us. unfold blob_payload. by rewrite Ebl, Ep.
Qed.

(** C9: a session is never dropped before its log was seen to.  Whenever one was
    retired, the last thing done with its document's file was one of three: it
    was written, with exactly that log; or there was no project to write it to;
    or it was removed, because the log is empty or because the document itself
    was never read, so that no revision of it is known.  In the first and the
    last case, if nothing was done with that file since, it holds that log, or
    is gone, provided the document's key is short enough for a file name of its
    own. *)
Theorem retired_sessions_are_filed disk p t1 dk uid card t2 :
  reachable disk p → h_trace (p_hub p) = t1 ++ Retired dk uid card :: t2 →
  ∃ e t, since (files dk) t1 = Some (e, t) ∧ kept_safe dk card e ∧
    (e ≠ MemoryOnly dk → short_key dk.2 = true → Forall (λ x, writes dk x = false) t2 →
      h_disk (p_hub p) !! disk_key dk =
        if String.eqb (cd_rev card) EmptyString || match cd_updates card with [] => true | _ => false end then None
        else Some (encodeDocSidecar card)).
Proof.
  intros Hr E. pose proof (ho_base _ _ (reachable_ok disk p Hr)) as Hb. destruct (bk_retired _ Hb _ _ _ _ _ E) as (e & t & Hs & He).
  exists e, t. split_and!; [done..|]. intros Hne Hk Hw. apply since_split in Hs as (a & Ea & Hfe & Hf).
  assert (Hwe : writes dk e = true).
  { destruct e; try done. simpl in Hfe. apply bool_decide_eq_true in Hfe as ->. by destruct Hne. }
  rewrite (bk_disk _ Hb dk e (t ++ Retired dk uid card :: t2) Hk).
  - destruct He as [-> |[(-> & Hrev & Hlog)|[-> Hgone]]]; [done| |].
    + apply String.eqb_neq in Hrev. simpl. rewrite Hrev. by destruct (cd_updates card).
    + simpl. destruct Hgone as [-> | ->]; [done|]. by rewrite orb_true_r.
  - rewrite E, Ea, <- app_assoc. simpl. apply since_intro; [done|]. apply Forall_app. split; [|by constructor].
    eapply Forall_impl; [exact Hf|]. intros x Hx. by destruct x.
Qed.

(** * What is saved is found again *)

Lemma persist_writes w dk card h :
  docStoreRoot w dk.1 = true → w_writes w = true → validDocRev (cd_rev card) = true → cd_updates card ≠ [] →
  len (encodeDocSidecar card) ≤ maxDocSidecarBytes →
  ∃ h', persistDoc w dk card h = (h', true) ∧ h_disk h' !! disk_key dk = Some (encodeDocSidecar card).
Proof.
  intros Hroot Hw Hr Hne Hfit. unfold persistDoc. rewrite Hroot.
  assert (String.eqb (cd_rev card) EmptyString = false) as -> by (unfold validDocRev in Hr; by destruct (String.eqb (cd_rev card) EmptyString)).
  assert (match cd_updates card with [] => true | _ => false end = false) as -> by by destruct (cd_updates card).
  simpl orb. cbv iota zeta. rewrite (proj2 (Z.ltb_ge _ _) Hfit), Hw. eexists. split; [done|]. apply lookup_insert_eq.
Qed.

Lemma look_at_file w dk card h :
  docStoreRoot w dk.1 = true → w_reads w = true → w_docRev w dk = Some (cd_rev card) → validDocRev (cd_rev card) = true →
  h_disk h !! disk_key dk = Some (encodeDocSidecar card) → len (encodeDocSidecar card) ≤ maxDocSidecarBytes →
  large_sidecar (len (encodeDocSidecar card)) && negb (cd_snapshot card) = false →
  (look_sidecar w dk h).2 =
    Body (cd_rev card) (concat_str (map encode_update (cd_updates card))) (mkHeader (cd_rev card) (cd_snapshot card) false) (len (encodeDocSidecar card)).
Proof.
  intros Hroot Hrd Hrev Hr Hd Hfit Hsmall. unfold look_sidecar. rewrite Hroot. change (negb true) with false. cbv iota. rewrite Hrev. cbv zeta.
  rewrite get_bind, Hrd, Hd, (proj2 (Z.ltb_ge _ _) Hfit).
  assert (readDocSidecarHeader (encodeDocSidecar card) = Ok (header_line card, concat_str (map encode_update (cd_updates card)))) as ->.
  { destruct (header_line_ok card Hr) as [Hnl Hlen]. unfold readDocSidecarHeader. by rewrite encode_split, cut_line_spec. }
  rewrite parse_header by done. cbn [hd_rev hd_snapshot hd_legacy]. rewrite String.eqb_refl. change (negb true) with false. cbv iota.
  by rewrite orb_false_r, Hsmall.
Qed.

(** A log without a snapshot never makes a file that recovery has to weigh. *)
Lemma plain_sidecar_small card : validDocRev (cd_rev card) = true → (∀ u, u ∈ cd_updates card → 0 < len u ≤ maxDocSnapshotTotalBytes) →
  bytes (cd_updates card) ≤ maxDocLogBytes + maxDocUpdateBytes → Z.of_nat (length (cd_updates card)) ≤ maxDocDeltaEntries + 1 →
  large_sidecar (len (encodeDocSidecar card)) = false.
Proof.
  intros Hr Hs Hb Hc. apply Z.ltb_ge. rewrite encode_split, len_app, len_cons.
  destruct (header_line_ok card Hr) as [_ Hl]. pose proof (updates_length _ Hs) as Hu.
  unfold len at 1. unfold buffer_bytes in Hl. unfold maxDocDeltaEntries in *. lia.
Qed.

Lemma look_reads w dk h rev rest hd size : (look_sidecar w dk h).2 = Body rev rest hd size → (look_sidecar w dk h).1 = h.
Proof.
  unfold look_sidecar. destruct (negb _); [done|]. destruct (w_docRev w dk); [|done]. cbv zeta. rewrite get_bind.
  unfold dropDocSidecar, note, skip, mbind, St_bind, modify, mret, St_ret. repeat case_match; simpl in *; congruence.
Qed.

(** Recovery from such a file: the log, unless the file has to be weighed and the
    hub has no room for it. *)
Definition weighed_off (card : Card) (h : Hub) : bool :=
  large_sidecar (len (encodeDocSidecar card)) && (maxHubSnapshotBytes <? h_snapshotBytes h + len (encodeDocSidecar card)).

Lemma saved_is_recovered w dk card h :
  validDocRev (cd_rev card) = true → log_ok (cd_snapshot card) (cd_updates card) → cd_updates card ≠ [] →
  docStoreRoot w dk.1 = true → w_reads w = true → w_docRev w dk = Some (cd_rev card) →
  h_disk h !! disk_key dk = Some (encodeDocSidecar card) →
  if weighed_off card h then returns w (recoverDoc dk) h (blocked (cd_rev card)) h
  else ∃ reserved h', returns w (recoverDoc dk) h (mkRecovered (cd_updates card) (cd_rev card) (cd_snapshot card) reserved false) h'
    ∧ h_disk h' = h_disk h.
Proof.
  intros Hr Hok Hne Hroot Hrd Hrev Hd. pose proof (sidecar_fits card Hr Hok) as Hfit.
  set (data := encodeDocSidecar card) in *. set (rest := concat_str (map encode_update (cd_updates card))).
  set (hd := mkHeader (cd_rev card) (cd_snapshot card) false).
  assert (Hsmall : large_sidecar (len data) && negb (cd_snapshot card) = false).
  { destruct (cd_snapshot card) eqn:E; [by rewrite andb_false_r|]. rewrite andb_true_r. pose proof (lo_count _ _ Hok). pose proof (lo_bytes _ _ Hok).
    simpl in *. apply plain_sidecar_small; [done|apply (lo_size _ _ Hok)|done|lia]. }
  assert (Hlook : look_sidecar w dk h = (h, Body (cd_rev card) rest hd (len data))).
  { pose proof (look_at_file w dk card h Hroot Hrd Hrev Hr Hd Hfit Hsmall) as E. pose proof (look_reads w dk h) as E'. rewrite E in E'.
    destruct (look_sidecar w dk h) as [h' l]. simpl in *. by rewrite E, (E' _ _ _ _ eq_refl). }
  assert (Hdec : decodeDocSidecarBody rest hd = Ok card).
  { unfold decodeDocSidecarBody, hd, rest. cbn [hd_legacy hd_snapshot hd_rev]. rewrite (read_entries_spec _ _ _ Hok) by lia. simpl. by destruct card. }
  assert (Hfirst : returns w (sec (λ w, look_sidecar w dk)) h (Body (cd_rev card) rest hd (len data)) h).
  { pose proof (returns_sec w (λ w, look_sidecar w dk) h) as R. cbv beta in R. by rewrite Hlook in R. }
  unfold weighed_off. fold data. destruct (large_sidecar (len data)) eqn:El; simpl andb; cbv iota.
  - set (weigh := λ _ : World, held ← get h_snapshotBytes;
          if maxHubSnapshotBytes <? held + len data then mret true else _ ← reserve_recovery dk (len data); mret false).
    pose proof (returns_sec w weigh h) as R. unfold weigh in R at 2 3. rewrite get_bind in R.
    destruct (maxHubSnapshotBytes <? h_snapshotBytes h + len data) eqn:Eh.
    + unfold recoverDoc. eapply returns_bind; [exact Hfirst|]. cbv beta iota. rewrite El. eapply returns_bind; [exact R|]. apply returns_ret.
    + eexists _, _. split.
      * unfold recoverDoc. eapply returns_bind; [exact Hfirst|]. cbv beta iota. rewrite El. eapply returns_bind; [exact R|]. cbv beta iota.
        unfold decode_recovered. rewrite Hdec. cbv beta iota zeta.
        assert (len data =? 0 = false) as -> by (apply Z.eqb_neq; unfold large_sidecar in El; apply Z.ltb_lt in El; unfold maxDocLogBytes, maxDocUpdateBytes in El; lia).
        eapply returns_bind; [apply returns_sec|]. apply returns_ret.
      * done.
  - eexists _, _. split.
    + unfold recoverDoc. eapply returns_bind; [exact Hfirst|]. cbv beta iota. rewrite El. unfold decode_recovered. rewrite Hdec. apply returns_ret.
    + done.
Qed.

(** C15: what the hub would save of a live document it can bring back.  For every
    session in every state the hub can reach, with a log that is not empty, a
    revision of its document that is well-formed, and the freeze of a log past
    its line never lifted: saving it where there is a project directory that can
    be written goes through, and the file holds the log.  And from any hub whose
    disk holds that file, with the document still at that revision and the file
    readable, recovery hands over exactly the session's log; or, if the file is
    large and the hub's share of snapshots would not hold it, turns the opener
    away and leaves the file as it is. *)
Theorem live_log_survives disk p dk s w w' h' :
  reachable disk p → h_docs (p_hub p) !! dk = Some s → (∀ uid, Thawed dk uid ∉ h_trace (p_hub p)) →
  validDocRev (ss_fileRev s) = true → ss_log s ≠ [] →
  docStoreRoot w dk.1 = true → w_writes w = true →
  docStoreRoot w' dk.1 = true → w_reads w' = true → w_docRev w' dk = Some (ss_fileRev s) →
  (∃ h1, persistDoc w dk (sidecarLocked s) (p_hub p) = (h1, true)
    ∧ h_disk h1 !! disk_key dk = Some (encodeDocSidecar (sidecarLocked s))) ∧
  (h_disk h' !! disk_key dk = Some (encodeDocSidecar (sidecarLocked s)) →
    if weighed_off (sidecarLocked s) h' then returns w' (recoverDoc dk) h' (blocked (ss_fileRev s)) h'
    else ∃ reserved h2,
      returns w' (recoverDoc dk) h' (mkRecovered (ss_log s) (ss_fileRev s) (bool_decide (is_Some (ss_snapshot s))) reserved false) h2
      ∧ h_disk h2 = h_disk h').
Proof.
  intros Hr Hs Hth Hrev Hne Hroot Hw Hroot' Hrd Hdoc.
  destruct (reachable_session disk p dk s Hr Hs) as (uid & log & t & (a & E & _)%since_split & Hok & _).
  destruct (ds_fits _ _ _ _ _ Hok) as [[u Hu]|Hfit].
  { exfalso. apply (Hth u). rewrite E. apply elem_of_app. right. by right. }
  split; [by apply persist_writes, sidecar_fits|]. intros Hd.
  pose proof (saved_is_recovered w' dk (sidecarLocked s) h' Hrev Hfit Hne Hroot' Hrd Hdoc Hd) as R. simpl in R.
  replace (bool_decide (is_Some (ss_snapshot s))) with (match ss_snapshot s with Some _ => true | None => false end); [exact R|].
  by destruct (ss_snapshot s).
Qed.
End Goals.

(** * At work *)

#[local] Existing Instance some_rev.

Lemma participants_miss_nothing_witness :
  ∃ s before uid aft, h_docs (p_hub (after typed)) !! ("room", "doc") = Some s ∧ 2%nat ∈ ss_members s ∧ "hello" ∈ ss_log s
    ∧ h_trace (p_hub (after typed)) = before ++ Joined 2 ("room", "doc") uid :: aft
    ∧ ((Spilled 2 ∈ aft ∧ being_removed (after typed) 2) ∨ ∀ u, u ∈ ss_log s → Exists (tells 2 ("room", "doc") u) aft).
Proof.
  destruct (in_the_doc_spec (λ s, bool_decide (2%nat ∈ ss_members s) && bool_decide ("hello" ∈ ss_log s)) (after typed)) as (Ht & s & Hs & T);
    [vm_compute; reflexivity|].
  apply andb_true_iff in T as [Hc Hh]. apply bool_decide_eq_true in Hc, Hh.
  destruct (participants_miss_nothing ∅ (after typed) ("room", "doc") s 2 (after_reachable typed) Hs Ht Hc) as (b & uid & a & E & _ & Ha).
  exists s, b, uid, a. exact (conj Hs (conj Hc (conj Hh (conj E Ha)))).
Defined.

Lemma updates_are_kept_witness :
  ∃ s uid log t, h_docs (p_hub (after typed)) !! ("room", "doc") = Some s
    ∧ (∃ before, h_trace (p_hub (after typed)) = before ++ Opened ("room", "doc") uid log :: t)
    ∧ ∀ u, accepted log t ("room", "doc") u → u ∈ ss_log s ∨ covered t ("room", "doc") u.
Proof.
  destruct (in_the_doc_spec (λ _, true) (after typed)) as (_ & s & Hs & _); [vm_compute; reflexivity|].
  destruct (updates_are_kept ∅ (after typed) ("room", "doc") s (after_reachable typed) Hs) as (b & uid & log & t & E & _ & Hu).
  exists s, uid, log, t. split; [exact Hs|]. split; [exists b; exact E|exact Hu].
Defined.

Lemma sessions_are_sound_witness :
  in_the_doc (λ s, bool_decide (ss_leader s = Some 0%nat)) (after typed) = true ∧ Z.of_nat (size (h_docs (p_hub (after typed)))) ≤ maxDocSessions.
Proof. split; [vm_compute; reflexivity|]. exact (proj1 (sessions_are_sound ∅ (after typed) (after_reachable typed))). Defined.

Definition is_retired (x : Happened) : bool := match x with Retired _ _ _ => true | _ => false end.

Lemma found_retired tr (test : Card → bool) :
  match since is_retired tr with Some (Retired _ _ card, _) => test card | _ => false end = true →
  ∃ t1 dk uid card t2, tr = t1 ++ Retired dk uid card :: t2 ∧ test card = true.
Proof.
  destruct (since is_retired tr) as [[e t]|] eqn:E; [|done]. destruct (since_split _ _ _ _ E) as (t1 & -> & _ & _).
  destruct e; try done. intros T. by eexists _, _, _, _, _.
Qed.

Lemma retired_sessions_are_filed_witness :
  ∃ t1 dk uid card t2, h_trace (p_hub (after typed_and_gone)) = t1 ++ Retired dk uid card :: t2 ∧ cd_updates card = ["hello"] ∧
    ∃ e t, since (files dk) t1 = Some (e, t) ∧ kept_safe dk card e.
Proof.
  destruct (found_retired (h_trace (p_hub (after typed_and_gone))) (λ card, bool_decide (cd_updates card = ["hello"])))
    as (t1 & dk & uid & card & t2 & E & T); [vm_compute; reflexivity|].
  destruct (retired_sessions_are_filed ∅ (after typed_and_gone) t1 dk uid card t2 (after_reachable _) E) as (e & t & Hs & He & _).
  exists t1, dk, uid, card, t2. split; [exact E|]. split; [exact (bool_decide_eq_true_1 _ T)|]. exists e, t. exact (conj Hs He).
Defined.

Definition thaws (x : Happened) : bool := match x with Thawed _ _ => true | _ => false end.

Lemma live_log_survives_witness :
  ∃ s h1 reserved h2, h_docs (p_hub (after typed)) !! ("room", "doc") = Some s ∧ ss_log s = ["hello"]
    ∧ persistDoc fine_world ("room", "doc") (sidecarLocked s) (p_hub (after typed)) = (h1, true)
    ∧ returns fine_world (recoverDoc ("room", "doc")) h1 (mkRecovered (ss_log s) (ss_fileRev s) (bool_decide (is_Some (ss_snapshot s))) reserved false) h2.
Proof.
  destruct (in_the_doc_spec (λ s, validDocRev (ss_fileRev s) && bool_decide (ss_log s = ["hello"]) && bool_decide (ss_fileRev s = "a1")
      && negb (large_sidecar (len (encodeDocSidecar (sidecarLocked s))))) (after typed))
    as (_ & s & Hs & T); [vm_compute; reflexivity|].
  apply andb_true_iff in T as [[[Hv Hl]%andb_true_iff Hr]%andb_true_iff Hsm]. apply bool_decide_eq_true in Hl, Hr. apply negb_true_iff in Hsm.
  assert (Hth : ∀ uid, Thawed ("room", "doc") uid ∉ h_trace (p_hub (after typed))).
  { assert (T : forallb (λ x, negb (thaws x)) (h_trace (p_hub (after typed))) = true) by (vm_compute; reflexivity).
    intros uid Hin. apply list_elem_of_In in Hin. apply (proj1 (forallb_forall _ _) T) in Hin. discriminate. }
  assert (Hne : ss_log s ≠ []) by (rewrite Hl; discriminate).
  destruct (live_log_survives ∅ (after typed) ("room", "doc") s fine_world fine_world
              (persistDoc fine_world ("room", "doc") (sidecarLocked s) (p_hub (after typed))).1
              (after_reachable typed) Hs Hth Hv Hne eq_refl eq_refl eq_refl eq_refl
              (eq_sym (f_equal Some Hr))) as [(h1 & Ep & Hd) Hrec].
  rewrite Ep in Hrec. specialize (Hrec Hd). unfold weighed_off in Hrec. rewrite Hsm in Hrec. destruct Hrec as (reserved & h2 & Hret & _).
  exists s, h1, reserved, h2. exact (conj Hs (conj Hl (conj Ep Hret))).
Defined.

(** * Late words *)

Section Late.
#[local] Existing Instance some_rev.

(** C17: the word that one leads a document can come too late.  Who leaves gives
    the turn back before it announces the new leader, so that another may join
    in between and take over: when all is still again, both members were last
    told that they lead. *)
Theorem two_leaders_are_told :
  ∃ p s, reachable ∅ p ∧ p_threads p = ∅ ∧ h_docs (p_hub p) !! ("room", "doc") = Some s ∧ 2%nat ∈ ss_members s ∧ 3%nat ∈ ss_members s
    ∧ last_word 2 "doc" (h_trace (p_hub p)) = Some true ∧ last_word 3 "doc" (h_trace (p_hub p)) = Some true.
Proof.
  destruct (play_shows ∅ late_word both_lead) as (p & Hr & T); [vm_compute; reflexivity|]. exists p. unfold both_lead in T.
  destruct (h_docs (p_hub p) !! ("room", "doc")) as [s|]; [|done]. exists s. rewrite !andb_true_iff, !bool_decide_eq_true in T. tauto.
Qed.

(** A soft lock can outlive its client: access is checked before the hub's
    mutex is taken, and by then the client may have been turned out of the room,
    for which its locks were released already. *)
Theorem lock_outlives_its_client :
  ∃ p l, reachable ∅ p ∧ p_threads p = ∅ ∧ h_conns (p_hub p) = ∅ ∧ h_locks (p_hub p) !! ("room", "node") = Some l ∧ nl_client l = 0%nat.
Proof.
  destruct (play_shows ∅ late_lock lock_outlives) as (p & Hr & T); [vm_compute; reflexivity|]. exists p. unfold lock_outlives in T.
  destruct (h_locks (p_hub p) !! ("room", "node")) as [l|]; [|done]. exists l. rewrite !andb_true_iff, !bool_decide_eq_true, Nat.eqb_eq in T. tauto.
Qed.
End Late.

Section Findings.
Context `{GoRev}.

(** * A freeze lifted too early *)

(** A flush lifts the freeze of a document and leaves its log as it is.  One more
    update then makes a log that is saved, and that recovery throws away. *)
Theorem a_thawed_log_is_turned_away w c dk s payload h :
  h_docs h !! dk = Some s → c ∈ ss_members s → ss_frozen s = false → ss_snapshot s = None →
  Z.of_nat (length (ss_log s)) = maxDocDeltaEntries → log_ok false (ss_log s) → bytes (ss_log s) + len payload ≤ maxDocLogBytes →
  0 < len payload ≤ maxDocUpdateBytes → validDocRev (ss_fileRev s) = true →
  docStoreRoot w dk.1 = true → w_writes w = true → w_reads w = true → w_docRev w dk = Some (ss_fileRev s) →
  ∃ h1 uid card targets token h2 rest hd size,
    take_update w c dk payload h = (h1, Overflowed uid card targets token) ∧ cd_updates card = ss_log s ++ [payload]
    ∧ persistDoc w dk card h1 = (h2, true)
    ∧ (look_sidecar w dk h2).2 = Body (ss_fileRev s) rest hd size ∧ decodeDocSidecarBody rest hd = Fail ManyDeltas.
Proof.
  intros Hs Hc Hf Hsn Hn Hok Hb Hp Hr Hroot Hw Hrd Hrev.
  set (card := mkCard (ss_fileRev s) (ss_log s ++ [payload]) false).
  assert (Hup : ∃ h1 targets token, take_update w c dk payload h = (h1, Overflowed (ss_uid s) card targets token)).
  { unfold take_update, session_at. rewrite get_bind, Hs, (bool_decide_eq_true_2 _ Hc), Hf. change (negb true) with false. cbv iota zeta.
    set (s1 := with_log _ _). assert (over_line s1 = true) as Ho.
    { unfold over_line, deltaStatsLocked. simpl ss_snapshot. rewrite Hsn. simpl ss_log. rewrite length_app. simpl length.
      apply orb_true_iff. right. apply Z.leb_le. lia. }
    unfold note. rewrite !modify_bind. destruct (deltaStatsLocked s1) as [n b]. rewrite Ho.
    match goal with |- context [(compaction_token w dk c s1 ≫= _) ?h0] => destruct (compaction_token w dk c s1 h0) as [h1 token] eqn:Et end.
    rewrite (bind_run _ _ _ _ _ Et). eexists _, _, _. unfold mret, St_ret. unfold card, s1, sidecarLocked. simpl. by rewrite Hsn. }
  destruct Hup as (h1 & targets & token & Eu).
  assert (Hsize : ∀ u, u ∈ cd_updates card → 0 < len u ≤ maxDocSnapshotTotalBytes).
  { intros u [Hu|Hu%list_elem_of_singleton]%elem_of_app; [by apply (lo_size _ _ Hok)|subst u; unfold maxDocSnapshotTotalBytes, maxDocUpdateBytes in *; lia]. }
  assert (Hbytes : bytes (cd_updates card) ≤ maxDocLogBytes) by (simpl; rewrite bytes_app; simpl; lia).
  assert (Hcount : Z.of_nat (length (cd_updates card)) ≤ maxDocDeltaEntries + 1) by (simpl; rewrite length_app; simpl; lia).
  assert (Hsmall : large_sidecar (len (encodeDocSidecar card)) = false).
  { apply plain_sidecar_small; [done..| |done]. unfold maxDocUpdateBytes. lia. }
  assert (Hfit : len (encodeDocSidecar card) ≤ maxDocSidecarBytes).
  { apply Z.ltb_ge in Hsmall. etrans; [exact Hsmall|]. by vm_compute. }
  destruct (persist_writes w dk card h1) as (h2 & Ew & Hd); [done..|by destruct (ss_log s)|done|].
  eexists h1, (ss_uid s), card, targets, token, h2, _, _, _. split_and!; [exact Eu|done|exact Ew| |].
  - apply (look_at_file w dk card h2); try done. by rewrite Hsmall.
  - unfold decodeDocSidecarBody. cbn [hd_legacy hd_snapshot card cd_updates cd_snapshot]. rewrite too_many_deltas; [done..|lia].
Qed.

(** * A session nobody opened *)

(** An opener can be turned away after the session was made for it, when the
    updates beside the snapshot would not fit the hub's share.  The session then
    stays, with nobody in it, and no sweep will ever find its time over: it was
    never left. *)
Theorem a_refused_opener_leaves_a_session w c dk actor base us rev h :
  h_docs h !! dk = None → h_closed h = false → c ∈ h_conns h → mayWrite w actor dk.1 = true →
  docSessionCountLocked h < maxDocSessions → actorDocSessionsLocked h (actorConnectionKey actor) < maxDocSessionsPerActor →
  h_snapshotBytes h + len base ≤ maxHubSnapshotBytes < h_snapshotBytes h + len base + bytes us →
  ∃ h' s, join w c dk actor (mkRecovered (base :: us) rev true 0 false) h = (h', (Some (DocPersistenceError dk.2), []))
    ∧ h_docs h' !! dk = Some s ∧ ss_members s = ∅ ∧ ∀ now, grace_over now s = false.
Proof.
  intros Hn Hcl Hc Hw Hs Ha Hb. unfold join. rewrite !get_bind, Hcl, (bool_decide_eq_true_2 _ Hc), Hw. change (negb true) with false. change (false || false) with false. cbv iota.
  destruct (create_session dk (mkRecovered (base :: us) rev true 0 false) h) as [h1 made] eqn:Ec.
  assert (made = true ∧ h_snapshotBytes h1 = h_snapshotBytes h + len base
    ∧ ∃ s, h_docs h1 !! dk = Some s ∧ ss_members s = ∅ ∧ ss_emptyAt s = None ∧ is_Some (ss_snapshot s) ∧ ss_log s = base :: us)
    as (-> & Hheld & s & Hs1 & Hm & He & [b Hbl] & Hl).
  { revert Ec. unfold create_session. rewrite get_bind. cbn [rc_updates rc_snapshot rc_reserved andb].
    rewrite (proj2 (Z.ltb_ge _ _)) by lia. cbv zeta. change (true && (0 =? 0) && false) with false. cbv iota.
    unfold new_blob, fresh_address, retainSnapshotBlobLocked, note, mbind, St_bind, get, modify, mret, St_ret, when, add_snapshotBytes. simpl.
    rewrite lookup_insert_eq. simpl. intros [= <- <-]. split_and!; [done|done|]. eexists. split; [apply lookup_insert_eq|]. simpl. by split_and!. }
  assert (find_session w dk actor (mkRecovered (base :: us) rev true 0 false) h = (h1, None)) as Ef.
  { unfold find_session. rewrite session_bind, Hn. cbn [rc_blocked]. rewrite get_bind.
    rewrite (proj2 (Z.leb_gt _ _)), (proj2 (Z.leb_gt _ _)) by done. simpl orb. cbv iota. exact (bind_run _ _ _ _ _ Ec). }
  exists h1, s. rewrite (bind_run _ _ _ _ _ Ef). unfold take_seat. rewrite session_bind, Hs1, Hm, get_bind, Hbl, Hl. change (tail (base :: us)) with us.
  rewrite Hheld. rewrite (proj2 (Z.ltb_lt maxHubSnapshotBytes (h_snapshotBytes h + len base + bytes us))) by lia. rewrite bool_decide_eq_false_2 by set_solver. split_and!; [done..|].
  intros now. unfold grace_over. by rewrite He.
Qed.
End Findings.
